(* ===== verification/_CoqProject ===== *)
-Q . S2P
Prelude.v
CTypes.v
HProp.v
CMem.v
CWp.v
CLib.v
Trace.v
DList.v
ListOps.v
BParse.v
BSpec.v
BRep.v
BRefine.v
BRound.v
BCorrect.v
Torrent.v
TorrentSpec.v
TorrentCorrect.v
Timer.v
TimerSpec.v
TimerCorrect.v
PeerMsg.v
PeerSpec.v
PeerCorrect.v
PeerManage.v
Socket.v
SocketCorrect.v
EvBuffer.v
EvBufSpec.v
EvBufOps.v
EvBufMove.v
EvBufPlain.v
EvBufQueue.v
EvBufXfer.v
EvBufCorrect.v
EvTime.v
EvTag.v
EvTagSpec.v
EvTagCorrect.v
EvSearch.v
EvSearchSpec.v
EvSearchCorrect.v
EvEvent.v
EvHeap.v
EvHeapSpec.v
EvMap.v
EvLoop.v
EvDispatch.v
EvHeapCorrect.v
EvLoopSpec.v
EvMapSpec.v
EvLoopOps.v
EvLoopAdd.v
EvLoopApi.v
EvLoopCorrect.v
EvLoopRun.v
EvPrint.v
EvPrintOps.v
EvUtil.v
EvErr.v
EvUri.v
EvUriSpec.v
EvMem.v
EvUriOps.v
EvUriCorrect.v
EvQuery.v
EvQueryOps.v
EvQueryCorrect.v
EvHttp.v
EvHttpOps.v
EvHttpChunk.v
EvHttpCorrect.v
EvDns.v
EvDnsServer.v
EvDnsClient.v
EvDnsSpec.v
EvDnsOps.v
EvDnsWrite.v
EvDnsRead.v
EvDnsCorrect.v
