(* ===== verification/Prelude.v ===== *)
(** * BT-server: a verification library

    BT-server is a BitTorrent server in C.  Its own code is under src/src and
    src/include: a parser for B-coding, a reader for torrent files built on it,
    a list of timers driven by SIGALRM, the messages of the peer protocol,
    connections to peers, a socket layer with a queue of buffers to send, and a
    trace facility.  All of it works on the circular lists of list.h.  The
    repository also carries libevent, whose event buffers, tagged data, event loop,
    URIs, HTTP messages and messages of the domain name system are modelled here as
    well.  This library models these parts as executable definitions, one per C function, and
    proves theorems about them.

    ** How C is modelled

    - Integers are [Z]; a conversion to a machine type is written out with the
      functions of this file (u8, u16, u32, u64, s8, s32).  The target is LP64
      and plain char is signed.
    - CTypes: pointers, the structures of the headers, memory cells.  The object
      at a location has its contents in one cell and an embedded list_head in a
      second one.
    - CMem: the machine (memory, errno, the trace level, the outcomes of coming
      allocations, the answers to system calls, the logs of output and calls),
      the monad [M], and the primitives.  A run returns, ends in a fault (undefined behaviour: a bad
      pointer, an indeterminate value, an access out of bounds, a bad free, a
      local array overrun, a failed assertion, a signed overflow), or runs out of
      fuel.  Every access is checked, so a theorem that a run returns is also a
      theorem that it has none of these faults.
    - HProp, CWp: a linear separation logic on these heaps (an instance of
      Iris's bi) and total weakest preconditions.  A postcondition describes all
      of the memory, so leaks show.
    - CLib: strchr, strtol, strncpy, strncmp and printf's decimals.

    ** The program

    - Trace (bttrace.c, bttrace.h): print_msg with its 2000 byte array.
    - DList, ListOps (list.h): the list primitives, [ring], cutting, splicing,
      replacing.
    - BParse (b_parse.c, b_parse.h): allocation, release, accessors, parsers,
      printers.  BSpec has values, encoding and a reference parser on byte
      sequences; BRep relates values to memory; BRefine proves the refinement;
      BRound that encoding and parsing are inverse; BCorrect holds C1, C3 and
      C4: refinement and termination within linear fuel on every buffer, exact
      release, the round trip; also that a stale errno spoils the integer 0.
    - Torrent (torrent_parse.c, torrent.h), with TorrentSpec (what a torrent
      file means, and how a torrent lies in memory) and TorrentCorrect (C6, C7):
      refinement, the life cycle of a torrent; also the double free.
    - Timer (bt_timer.c, bt_timer.h), TimerSpec, TimerCorrect (C9 to C13):
      the order of the list is kept, what a tick does, the tick that never
      ends, release.  A callback is a parameter.
    - PeerMsg (peer_message.c, peer_message.h), PeerSpec (the protocol on the
      wire), PeerCorrect (C15).
    - PeerManage (peer_manage.c, conn_tracker.c).
    - Socket (bt_socket.c, bt_socket.h), SocketCorrect (C24).  The
      structures send_buf and send_unit are declared nowhere; their members are
      those the code uses.

    System calls are answered by a function of the machine from their number to
    the result and errno; theorems hold for every such function unless they say
    otherwise.

    ** libevent

    - EvBuffer (buffer.c, evbuffer-internal.h): chains, adding, draining,
      moving, pulling up, expanding, references, callbacks.  The monad [E] has
      the allocator, faults and a log of effects.
    - EvBufSpec: total correctness of runs ([runs]), the invariant [buffer_wf]
      and the bytes [contents]; EvBufOps, EvBufMove, EvBufXfer:
      each operation keeps the invariant and changes the bytes as it should;
      EvBufPlain: chains stay writable and of ordinary size, and a buffer
      stays as it is while another one is worked on.
    - EvBufQueue: the abstract queue and the simulation; then the
      class [ByteBuffer] of the laws that clients rely on, and the instance for
      event buffers.  EvBufCorrect: C32 to C35 (refinement of a queue by any
      sequence of operations; additions are all or nothing; moves between
      buffers); also the assertion that fails after an expansion.
    - EvTime (event2/util.h): struct timeval.
    - EvTag (event_tagging.c), EvTagSpec (the wire format), EvTagCorrect: C37
      and numbers, round trips proved from [ByteBuffer] alone.
    - EvSearch (the second part of buffer.c: positions, searching, lines,
      peeking), EvSearchSpec (reference definitions on one piece of text, and
      positions, and what each operation does), EvSearchCorrect: C39 (searching
      across chains is searching in one piece) and C40 (lines, in all four
      styles).

    ** libevent: the event loop

    A base keeps the events that wait for descriptors and signals (evmap.c), the
    ones that wait for a time (a heap, minheap-internal.h), and the ones whose
    callbacks are to run (a queue for each priority, event.c).  The loop asks the
    backend what is ready, activates it and what is due, and runs callbacks.

    - EvEvent (event_struct.h, event-internal.h, defer-internal.h): constants,
      structures, and the monad [L] on a [world]: the events in memory, one base,
      deferred callbacks, the outcomes of coming allocations, the system (clocks
      and backend, which answer the n-th call as they like), the log of calls.
      [min_heap_idx] and the links of a common-timeout queue, a union in C, are
      kept apart, as are the data of signals and of other events.
    - EvHeap (minheap-internal.h); EvHeapSpec: each operation keeps
      [is_heap] and changes the events in it as it should; EvHeapCorrect: C31,
      refinement of a priority queue, for any client that goes on with the answers
      as it likes and adds no event that is in the heap.
    - EvMap (evmap.c): the maps and what the backend is told.
    - EvLoop (event.c: clocks, queues, adding, deleting, activating, setting up
      events), EvDispatch (event.c: timeouts, closures, the loop, one-time events,
      deferred callbacks, checks, a new base; the integrity check of evmap.c).
    - EvLoopSpec ([queues_ok]: an event has a flag exactly if it is in the queue
      of that flag, once, and the counts are right), EvMapSpec ([maps_ok]: the
      lists of the maps hold the inserted events, and the backend waits for what
      they wait for), EvLoopOps ([base_ok], their conjunction with the rest),
      EvLoopAdd, EvLoopApi: each operation keeps [base_ok] and does
      what it should.
    - EvLoopCorrect: the states a program can reach; C14 (no call is stuck), C19
      (the backend waits for just what the events wait for), C21 (timeout_process
      activates just what is due, in order); also how long the loop has to wait.
    - EvLoopRun: C27, the loop with callbacks that call the library; C28, an
      event for a signal that is deleted by its own callback.

    C14, C19, C21, C27 and C28 are about bases without common timeouts whose events have
    callbacks of users (not those of event_base_once), on a system whose clocks
    work and whose backend does not refuse deletions (adding may fail), with
    descriptors below 2^30 and fewer than 2^31 - 1 events; in C14, C19, C21
    and C27 a signal is reported once at a time.  The definitions have none of
    these limits but one: there is a single thread, hence no locking and no
    notification, and the debug mode is off.

    ** libevent: URIs, header lists and queries

    - EvPrint (the printing functions of buffer.c; what a format comes to is an
      argument), EvPrintOps: the class [PrintBuffer], which adds printing and
      release to [ByteBuffer], and the instance for event buffers; [beside], a
      buffer next to others that stay as they are.
    - EvUtil (evutil.c): character classes, comparison without regard to case,
      numbers in texts.  In this configuration evutil_inet_pton is the inet_pton of
      the C library: the class [InetPton], which says that a text it takes for an
      IPv6 address has no other characters than hexadecimal digits, colons and dots.
    - EvErr: the monad [G] of functions that fill a state and may end in goto err,
      and total correctness of its runs.  EvMem: which blocks are allocated
      ([owned]).
    - EvUri (http.c, from struct evhttp_uri on).  EvUriSpec: the grammar of RFC 3986
      as relations that use no function of the program ([valid_uri], [spells]), the
      scans, and that the checks of http.c decide the grammar; EvUriOps: steps for any
      text and allocator, what comes out is in the grammar, and what is in the
      grammar comes out, and putting together, from [PrintBuffer] alone.
    - EvUriCorrect: C17 (exactly the grammar is accepted), C20 (no leak and no
      double free, for every outcome of the allocator), C29 (joining and parsing).
    - EvQuery (http.c: escapes, header lists, queries), EvQueryOps,
      EvQueryCorrect: C18 (what goes into a header list, and comes out), C22
      (arguments of a query), C26 (encoding and decoding).

    Texts have no NUL inside and are shorter than 2^31 characters.  [owned] counts
    the blocks of URIs, strings and headers; an event buffer used for a moment is
    left out of it in C26 and C29.

    ** libevent: HTTP messages

    - EvHttp (http.c: requests and replies as they are written and as they are
      read, chunks, virtual hosts, dispatch).  A connection is its limits of size
      and its server; [reading] is the state of evhttp_read_cb: the state of the
      connection, the request, the input buffer.  Each function that the event loop
      would call again returns what it wants next ([read_next]).  strtoll, sscanf
      and snprintf are written out as far as http.c uses them.  The date and the
      callback for a chunk are parameters.
    - EvHttpOps: the message that a request or a reply comes to ([sendable_request],
      [sendable_reply], [request_message], [reply_message]), what the writer puts in
      the buffer, and the stages a reader goes through, for any message whose first
      line and header fields can be read ([line_ok]).  The class [BodyReader] says
      what is behind the header fields and how the reader gets through it; its first
      instance is a body of a known length.
    - EvHttpChunk: chunks; the second instance of [BodyReader], and what
      evhttp_send_reply_start, evhttp_send_reply_chunk and evhttp_send_reply_end put
      in the buffer.
    - EvHttpCorrect: C5 and C8 (a request and a reply, written and then read however
      they are cut into pieces), C30 (the same for a reply in chunks), C36 (which
      server gets a host name).

    C5, C8 and C30 are about runs in which the allocator gives memory.

    ** libevent: the domain name system

    - EvDns (evdns.c: names in a message, compression, questions), EvDnsServer
      (evdns.c: what a server makes of a message, records, the message of a
      reply), EvDnsClient (evdns.c: requests in flight, what is taken from a
      reply, the error it stands for, the call of the user).
    - EvDnsSpec: names in a message as a relation ([name_at]: labels and pointers)
      and as text ([name_labels]), and what name_parse finds; EvDnsOps: what
      dnsname_to_labels writes, and the table of names, and the questions of a
      message; EvDnsWrite: records and the whole reply ([response_of],
      [response_sent]); EvDnsRead: what a client takes, then a question, its
      answer, and what the user is told of it.
    - EvDnsCorrect: C2 (name_parse is the relation, and reads up to 63 bytes
      behind a message), C10 (writing and reading names), C16 (what a server takes
      for a request), C23 (the message of a reply, and what is sent of one that is
      too long), C25 (which replies a client takes), C38 (client, server and client
      put together).

    A message is an array of which the first bytes were received.  Lists that C
    links are lists.  HOST_NAME_MAX, which <limits.h> may define, is a parameter
    (the class [HostNameMax]): the theorems hold for every positive value.

    ** Fuel and bounds

    Loops that are not structural take fuel.  In b_parse.c fuel is the depth
    and number of iterations; C1 shows that a bound linear in the length
    of the buffer is enough.  In bt_timer.c C11 gives enough fuel and C12 shows
    that for some lists there is none.  In EvBuffer and EvSearch the definitions
    choose it themselves: 64 doublings exceed any size, a search in a chain
    makes at most as many turns as there are bytes, the loop over line ends at
    most one more than the length of the buffer; the theorems show that it is
    never exhausted.  EvTag: five octets for a tag of 32 bits.  In the heap a loop makes at most as
    many turns as there are entries, and in timeout_process at most one more than
    there are events in the heap; a signal closure at most as many as there are
    calls: the theorems show that these are enough; the same holds for the loops
    over the arguments of a query and the lines of a header value, which make at
    most one turn more than there are characters, for printing, which
    formats at most twice, and for name_parse, which follows at most one pointer
    more than there are bytes in the message and copies at most as many labels as
    fit its array.  The turns of the loop, and
    the events that one turn processes, depend on callbacks and have no bound
    that would do: there the fuel is an argument.  The bounds 2^31
    and 2^62 on lengths in C32 to C40 keep int counters and the doubling of
    sizes away from overflow.

    ** Assumptions

    Code that is not in the repository is a parameter: inet_pton ([InetPton]),
    HOST_NAME_MAX ([HostNameMax]), the answers to system calls and of a backend, the
    callbacks of users.
    Callbacks registered on an event buffer do not change buffers.  Callbacks of
    events may call the functions of the library, but do not change the number of
    priorities.  Times stay within 64 bits.  fprintf does
    not change errno.  The allocator gives blocks that are not in use; how many spare
    bytes it leaves behind a block is a field of the machine (slack).

    ** Not modelled

    The test programs in the sources; the list macros that nothing uses;
    bt_task.h, a declaration only; what the socket layer writes to stderr.  Of
    libevent: locking, reference counts, pinning, evbuffer_read, evbuffer_write
    and evbuffer_add_file, which are made of system calls, reserving space,
    suspended callbacks; of the event loop the choice of a backend, releasing and
    reinitialising a base, virtual events, changelists, and the backends
    themselves; of http.c opening, closing and
    retrying connections, sending errors and 100-continue, and setting up a server; of evdns.c
    sending and receiving, timeouts, the choice of name servers, configuration
    and getaddrinfo; bufferevents and RPC, which the program does not use.  The prototype in Lua. *)

From stdpp Require Export base list gmap strings numbers sorting.
From Stdlib Require Export ZArith Lia.

Declare Scope c_scope.
Delimit Scope c_scope with C.

(** ** Machine integers

    The sources are compiled for an LP64 target: [char] is a signed byte,
    [short], [int] and [long] have 16, 32 and 64 bits.  A machine integer is a
    [Z]; every conversion the C code performs is written with one of these. *)

Definition u8 (z : Z) : Z := z mod 2 ^ 8.
Definition u16 (z : Z) : Z := z mod 2 ^ 16.
Definition u32 (z : Z) : Z := z mod 2 ^ 32.
Definition u64 (z : Z) : Z := z mod 2 ^ 64.
Definition s8 (z : Z) : Z := (z + 2 ^ 7) mod 2 ^ 8 - 2 ^ 7.
Definition s32 (z : Z) : Z := (z + 2 ^ 31) mod 2 ^ 32 - 2 ^ 31.

Definition LONG_MAX : Z := 2 ^ 63 - 1.
Definition LONG_MIN : Z := - 2 ^ 63.

Arguments u8 : simpl never.
Arguments u16 : simpl never.
Arguments u32 : simpl never.
Arguments u64 : simpl never.
Arguments s8 : simpl never.
Arguments s32 : simpl never.
Arguments LONG_MAX : simpl never.
Arguments LONG_MIN : simpl never.

Lemma u32_range z : (0 <= u32 z < 2 ^ 32)%Z.
Proof. apply Z.mod_pos_bound; lia. Qed.

Lemma u32_small z : (0 <= z < 2 ^ 32)%Z -> u32 z = z.
Proof. apply Z.mod_small. Qed.

Lemma u32_idem z : u32 (u32 z) = u32 z.
Proof. apply Z.mod_mod; lia. Qed.

Lemma u32_s32 z : u32 (s32 z) = u32 z.
Proof.
  unfold u32, s32. rewrite Zminus_mod_idemp_l. f_equal. lia.
Qed.

Lemma u16_range z : (0 <= u16 z < 2 ^ 16)%Z.
Proof. apply Z.mod_pos_bound; lia. Qed.

Lemma u16_small z : (0 <= z < 2 ^ 16)%Z -> u16 z = z.
Proof. apply Z.mod_small. Qed.

Lemma u8_range z : (0 <= u8 z < 2 ^ 8)%Z.
Proof. apply Z.mod_pos_bound; lia. Qed.

Lemma u8_small z : (0 <= z < 2 ^ 8)%Z -> u8 z = z.
Proof. apply Z.mod_small. Qed.

Lemma s8_small z : (0 <= z < 2 ^ 7)%Z -> s8 z = z.
Proof. unfold s8. intros. rewrite Z.mod_small; lia. Qed.

Lemma s32_small z : (- 2 ^ 31 <= z < 2 ^ 31)%Z -> s32 z = z.
Proof. unfold s32. intros. rewrite Z.mod_small; lia. Qed.

(** ** Bytes and strings *)

(** The bytes of a string literal of the sources. *)
Definition str (s : string) : list Z :=
  (fun a => Z.of_N (Ascii.N_of_ascii a)) <$> String.list_ascii_of_string s.

Arguments str : simpl never.

(** The code of a character literal of the sources. *)
Definition chr (a : Ascii.ascii) : Z := Z.of_N (Ascii.N_of_ascii a).

(** A byte string as C sees it: what comes before the first NUL. *)
Fixpoint cut0 (bs : list Z) : list Z :=
  match bs with
  | [] => []
  | c :: bs' => if (c =? 0)%Z then [] else c :: cut0 bs'
  end.

(** Big-endian (network order) encodings and their inverse. *)
Definition be32 (n : Z) : list Z :=
  [u8 (Z.shiftr n 24); u8 (Z.shiftr n 16); u8 (Z.shiftr n 8); u8 n].
Definition be16 (n : Z) : list Z := [u8 (Z.shiftr n 8); u8 n].

Fixpoint of_be (bs : list Z) : Z :=
  match bs with
  | [] => 0
  | b :: bs' => b * 2 ^ (8 * Z.of_nat (length bs')) + of_be bs'
  end.

Lemma of_be_be32 n : (0 <= n < 2 ^ 32)%Z -> of_be (be32 n) = n.
Proof.
  intros Hn. cbn [of_be be32 length]. unfold u8.
  rewrite !Z.shiftr_div_pow2 by lia.
  change (8 * Z.of_nat 3)%Z with 24%Z. change (8 * Z.of_nat 2)%Z with 16%Z.
  change (8 * Z.of_nat 1)%Z with 8%Z. change (8 * Z.of_nat 0)%Z with 0%Z.
  Z.to_euclidean_division_equations; lia.
Qed.

Lemma of_be_be16 n : (0 <= n < 2 ^ 16)%Z -> of_be (be16 n) = n.
Proof.
  intros Hn. cbn [of_be be16 length]. unfold u8.
  rewrite !Z.shiftr_div_pow2 by lia.
  change (8 * Z.of_nat 1)%Z with 8%Z. change (8 * Z.of_nat 0)%Z with 0%Z.
  Z.to_euclidean_division_equations; lia.
Qed.
