(* ===== verification/CTypes.v ===== *)
(** * The data of the program

    Pointers, the structures of the headers under include/, and the memory
    they live in.  A structure is a [Record] whose fields are those of the C
    declaration, in its order, except for an embedded [struct list_head]: an
    object has at most one of those, and it is kept in a memory cell of its
    own (field [FNode] of the object's location), so that the list primitives
    of list.h can be applied to any object. *)

From S2P Require Import Prelude.
Open Scope Z_scope.

(** ** Pointers *)

Definition loc := positive.
Bind Scope positive_scope with loc.

(** [PAt l o] points [o] bytes into the object at [l]; [PStack o] points into a
    local array of the running function; [PUndef] is an indeterminate value;
    [PPoison1] and [PPoison2] are LIST_POISON1 and LIST_POISON2 of list.h. *)
Inductive ptr :=
| PNull
| PUndef
| PPoison1
| PPoison2
| PStack (o : Z)
| PAt (l : loc) (o : Z).

#[export] Instance ptr_eq_dec : EqDecision ptr.
Proof. solve_decision. Defined.

Definition LIST_POISON1 : ptr := PPoison1.
Definition LIST_POISON2 : ptr := PPoison2.

(** The address of the object at [l]. *)
Definition obj_ptr (l : loc) : ptr := PAt l 0.

(** ** include/list.h *)

Record list_head := ListHead { next : ptr; prev : ptr }.

(** ** include/b_parse.h *)

Definition INTEGER_LEN : Z := 20.
Definition KEY_LEN : Z := 128.

(** A byte of memory; [None] is an indeterminate one. *)
Abbreviation mbyte := (option Z).

Record b_string := BString {
  bs_prev : ptr;
  bs_data : ptr;
  bs_head : ptr;
  bs_len : Z }.

Record b_int := BInt { bi_prev : ptr; bi_val : Z }.

Record l_entry := LEntry { le_entry : ptr; le_type : Z }.

Record b_list := BList { bl_prev : ptr }.

Record d_entry := DEntry { de_key : list mbyte; de_val : ptr; de_type : Z }.

Record b_dict := BDict { bd_prev : ptr }.

(** ** include/torrent.h *)

Record multi_files := MultiFiles {
  mf_length : Z;
  mf_path : ptr;
  mf_path_utf8 : ptr;
  mf_md5sum : ptr }.

Record torrent_info := TorrentInfo {
  ti_piece_len : Z;
  ti_piece_hash : ptr;
  ti_private : ptr;
  ti_dir_name : ptr;
  ti_name : ptr;
  ti_name_utf8 : ptr;
  ti_length : Z;
  ti_md5sum : ptr;
  ti_publisher : ptr;
  ti_publisher_utf8 : ptr;
  ti_publisher_url : ptr;
  ti_publisher_url_utf8 : ptr }.

Record torrent := Torrent {
  t_announce : ptr;
  t_announce_list : ptr;
  t_comment : ptr;
  t_comment_utf8 : ptr;
  t_create_by : ptr;
  t_create_date : Z;
  t_encoding : Z;
  t_info : torrent_info }.

(** ** include/bt_timer.h *)

Definition BT_TIMER_SINGLE : Z := 0.
Definition BT_TIMER_REPEAT : Z := 1.

(** A function pointer: the number of the function it points to. *)
Definition fn : Type := Z.

Record bt_timer := BtTimer {
  tm_timer_id : Z;
  tm_callback : fn;
  tm_data : ptr;
  tm_type : Z;
  tm_interval : Z;
  tm_elapse : Z }.

Record itimerval := ITimerval {
  it_value_sec : Z;
  it_value_usec : Z;
  it_interval_sec : Z;
  it_interval_usec : Z }.

Record bt_timer_list := BtTimerList {
  tl_value : itimerval;
  tl_ovalue : itimerval;
  tl_old_sigfunc : fn;
  tl_new_sigfunc : fn;
  tl_num : Z }.

(** ** include/peer_manage.h *)

Record peer_state := PeerState { client_stat : Z; peer_stat_ : Z }.

Record peer_stat := PeerStat {
  upload : Z;
  download : Z;
  upload_speed : Z;
  download_speed : Z }.

Record peer_mgnt := PeerMgnt {
  pm_ip : Z;
  pm_port : Z;
  pm_sock : Z;
  pm_peer_id : ptr;
  pm_task : ptr;
  pm_state : peer_state;
  pm_stat : peer_stat;
  pm_rcv_keep_alive : ptr;
  pm_send_keep_alive : ptr }.

(** ** Socket addresses and the send queue of src/bt_socket.c *)

Record sockaddr_in := SockaddrIn { sin_family : Z; sin_port : Z; sin_addr : Z }.

Record send_buf := SendBuf { sb_buf : ptr; sb_buflen : Z; sb_ref_count : Z }.

Record send_unit := SendUnit {
  su_dest : sockaddr_in;
  su_source : sockaddr_in;
  su_buf : ptr;
  su_cb : fn;
  su_arg : ptr;
  su_timeout : Z;
  su_retry : Z;
  su_ref_count : Z }.

(** ** Memory *)

Inductive obj :=
| OBytes (bs : list mbyte)
| OString (x : b_string)
| OInt (x : b_int)
| OLEntry (x : l_entry)
| OList (x : b_list)
| ODEntry (x : d_entry)
| ODict (x : b_dict)
| OMulti (x : multi_files)
| OTorrent (x : torrent)
| OTimer (x : bt_timer)
| OTimerList (x : bt_timer_list)
| OPeer (x : peer_mgnt)
| OSendBuf (x : send_buf)
| OSendUnit (x : send_unit)
| OListHead.

(** Whether the object embeds a [struct list_head].  [OListHead] is a bare
    [struct list_head] variable, all of whose contents is its node. *)
Definition has_node (o : obj) : bool :=
  match o with
  | OBytes _ | OString _ | OInt _ => false
  | _ => true
  end.

Inductive fld := FNode | FBody.

#[export] Instance fld_eq_dec : EqDecision fld.
Proof. solve_decision. Defined.

#[export] Instance fld_countable : Countable fld.
Proof.
  refine (inj_countable' (fun f => match f with FNode => true | FBody => false end)
            (fun b : bool => if b then FNode else FBody) _).
  by intros [].

Defined.

Inductive cell := CNode (n : list_head) | CObj (o : obj).

Abbreviation key := (loc * fld)%type.
Abbreviation heap := (gmap key cell).

(** The structures that can be allocated, as one class: [inj] puts the
    structure into a cell, [prj] is the cast back from [void *]. *)
Class Struct (T : Type) := {
  inj : T -> obj;
  prj : obj -> option T;
  node_of : bool;
  prj_inj x : prj (inj x) = Some x;
  has_node_inj x : has_node (inj x) = node_of }.
Arguments node_of T {_}.

#[local] Ltac struct_with C sel n :=
  unshelve eapply (Build_Struct _ C sel n); done.

#[export] Instance bytes_struct : Struct (list mbyte).
Proof. struct_with OBytes (fun o => match o with OBytes x => Some x | _ => None end) false. Defined.
#[export] Instance b_string_struct : Struct b_string.
Proof. struct_with OString (fun o => match o with OString x => Some x | _ => None end) false. Defined.
#[export] Instance b_int_struct : Struct b_int.
Proof. struct_with OInt (fun o => match o with OInt x => Some x | _ => None end) false. Defined.
#[export] Instance l_entry_struct : Struct l_entry.
Proof. struct_with OLEntry (fun o => match o with OLEntry x => Some x | _ => None end) true. Defined.
#[export] Instance b_list_struct : Struct b_list.
Proof. struct_with OList (fun o => match o with OList x => Some x | _ => None end) true. Defined.
#[export] Instance d_entry_struct : Struct d_entry.
Proof. struct_with ODEntry (fun o => match o with ODEntry x => Some x | _ => None end) true. Defined.
#[export] Instance b_dict_struct : Struct b_dict.
Proof. struct_with ODict (fun o => match o with ODict x => Some x | _ => None end) true. Defined.
#[export] Instance multi_files_struct : Struct multi_files.
Proof. struct_with OMulti (fun o => match o with OMulti x => Some x | _ => None end) true. Defined.
#[export] Instance torrent_struct : Struct torrent.
Proof. struct_with OTorrent (fun o => match o with OTorrent x => Some x | _ => None end) true. Defined.
#[export] Instance bt_timer_struct : Struct bt_timer.
Proof. struct_with OTimer (fun o => match o with OTimer x => Some x | _ => None end) true. Defined.
#[export] Instance bt_timer_list_struct : Struct bt_timer_list.
Proof. struct_with OTimerList (fun o => match o with OTimerList x => Some x | _ => None end) true. Defined.
#[export] Instance peer_mgnt_struct : Struct peer_mgnt.
Proof. struct_with OPeer (fun o => match o with OPeer x => Some x | _ => None end) true. Defined.
#[export] Instance send_buf_struct : Struct send_buf.
Proof. struct_with OSendBuf (fun o => match o with OSendBuf x => Some x | _ => None end) true. Defined.
#[export] Instance send_unit_struct : Struct send_unit.
Proof. struct_with OSendUnit (fun o => match o with OSendUnit x => Some x | _ => None end) true. Defined.
