(* ===== verification/HProp.v ===== *)
(** * Assertions about memory

    A separation logic over the heaps of [CTypes]: an assertion is a set of
    heaps, [P ∗ Q] splits the heap in two disjoint parts.  The logic is linear:
    [emp] holds of the empty heap only, so a triple whose postcondition is
    [emp] says that everything was freed.  It is an instance of Iris's [bi],
    which gives the proof mode and the big separating conjunctions. *)

From iris.proofmode Require Import proofmode.
From S2P Require Import Prelude CTypes.
Set Warnings "-rewrite-rw,-redundant-canonical-projection".

Record hProp := HProp { holds : heap -> Prop }.
Add Printing Constructor hProp.

Section connectives.
Implicit Types P Q : hProp.

Record entails P Q : Prop := Entails { entails_at : forall h, holds P h -> holds Q h }.

Definition h_emp : hProp := HProp (fun h => h = ∅).
Definition h_pure (phi : Prop) : hProp := HProp (fun _ => phi).
Definition h_and P Q : hProp := HProp (fun h => holds P h ∧ holds Q h).
Definition h_or P Q : hProp := HProp (fun h => holds P h ∨ holds Q h).
Definition h_impl P Q : hProp := HProp (fun h => holds P h → holds Q h).
Definition h_forall {A} (F : A -> hProp) : hProp := HProp (fun h => ∀ a, holds (F a) h).
Definition h_exist {A} (F : A -> hProp) : hProp := HProp (fun h => ∃ a, holds (F a) h).
Definition h_sep P Q : hProp :=
  HProp (fun h => ∃ h1 h2, h = h1 ∪ h2 ∧ h1 ##ₘ h2 ∧ holds P h1 ∧ holds Q h2).
Definition h_wand P Q : hProp :=
  HProp (fun h => ∀ h', h ##ₘ h' → holds P h' → holds Q (h ∪ h')).
Definition h_pers P : hProp := h_pure (entails h_emp P).
Definition h_later P : hProp := P.

End connectives.

Record hequiv (P Q : hProp) : Prop := HEquiv { hequiv_at : forall h, holds P h ↔ holds Q h }.

#[export] Instance hProp_equiv : Equiv hProp := hequiv.

#[export] Instance hProp_equivalence : Equivalence (≡@{hProp}).
Proof.
  split.
  - by intros P.
  - intros P Q [H]. constructor. intros h. by rewrite (H h).
  - intros P Q R [H1] [H2]. constructor. intros h. by rewrite (H1 h).
Qed.

Canonical Structure hPropO : ofe := discreteO hProp.

Lemma h_sep_comm P Q : entails (h_sep P Q) (h_sep Q P).
Proof.
  constructor. intros h (h1 & h2 & -> & Hd & HP & HQ).
  exists h2, h1. rewrite map_union_comm //. 
Qed.

Lemma h_sep_assoc P Q R : entails (h_sep (h_sep P Q) R) (h_sep P (h_sep Q R)).
Proof.
  constructor. intros h (h12 & h3 & -> & Hd & (h1 & h2 & -> & Hd12 & HP & HQ) & HR).
  apply map_disjoint_union_l in Hd as [Hd1 Hd2].
  exists h1, (h2 ∪ h3). rewrite (assoc_L (∪)).
  split_and!; [done|by apply map_disjoint_union_r_2|done|].
  by exists h2, h3.
Qed.

Lemma hProp_bi_mixin :
  BiMixin entails h_emp h_pure h_and h_or h_impl (@h_forall) (@h_exist) h_sep h_wand.
Proof.
  split.
  - split; [by constructor; auto|].
    intros P Q R [H1] [H2]. constructor; auto.
  - intros P Q. split.
    + intros [H]. split; constructor; intros h; apply H.
    + intros [[H1] [H2]]. constructor. intros h. split; auto.
  - intros n phi psi H. constructor. intros h. done.
  - intros n P P' [HP] Q Q' [HQ]. constructor. intros h. cbn. by rewrite (HP h) (HQ h).
  - intros n P P' [HP] Q Q' [HQ]. constructor. intros h. cbn. by rewrite (HP h) (HQ h).
  - intros n P P' [HP] Q Q' [HQ]. constructor. intros h. cbn. by rewrite (HP h) (HQ h).
  - intros A n F G H. constructor. intros h. cbn. split; intros HF a; by apply (H a).
  - intros A n F G H. constructor. intros h. cbn. split; intros [a Ha]; exists a; by apply (H a).
  - intros n P P' [HP] Q Q' [HQ]. constructor. intros h. cbn.
    split; intros (h1 & h2 & -> & Hd & H1 & H2); exists h1, h2; split_and!; auto;
      first [by apply HP | by apply HQ].
  - intros n P P' [HP] Q Q' [HQ]. constructor. intros h. cbn.
    split; intros H h' Hd H1; apply HQ, H; auto; by apply HP.
  - intros phi P H. by constructor.
  - intros phi P H. constructor. intros h Hphi. by apply (H Hphi).
  - intros P Q. constructor. by intros h [??].
  - intros P Q. constructor. by intros h [??].
  - intros P Q R [H1] [H2]. constructor. intros h HP. split; auto.
  - intros P Q. constructor. by left.
  - intros P Q. constructor. by right.
  - intros P Q R [H1] [H2]. constructor. intros h [|]; auto.
  - intros P Q R [H]. constructor. intros h HP HQ. apply H. by split.
  - intros P Q R [H]. constructor. intros h [HP HQ]. by apply H.
  - intros A P F H. constructor. intros h HP a. by apply H.
  - intros A F a. constructor. intros h H. apply H.
  - intros A F a. constructor. intros h H. by exists a.
  - intros A F Q H. constructor. intros h [a Ha]. by apply (H a).
  - intros P P' Q Q' [H1] [H2]. constructor.
    intros h (h1 & h2 & -> & Hd & HP & HQ). exists h1, h2. auto.
  - intros P. constructor. intros h HP. exists ∅, h.
    rewrite (left_id_L ∅ (∪)). split_and!; [done|apply map_disjoint_empty_l|done|done].
  - intros P. constructor. intros h (h1 & h2 & -> & _ & -> & HP).
    by rewrite (left_id_L ∅ (∪)).
  - apply h_sep_comm.
  - apply h_sep_assoc.
  - intros P Q R [H]. constructor. intros h HP h' Hd HQ.
    apply H. by exists h, h'.
  - intros P Q R [H]. constructor. intros h (h1 & h2 & -> & Hd & HP & HQ).
    by apply H.
Qed.

Lemma hProp_persistently_mixin :
  BiPersistentlyMixin entails h_emp h_and (@h_exist) h_sep h_pers.
Proof.
  eapply bi_persistently_mixin_discrete, hProp_bi_mixin; [done| |done].
  intros A F [H]. destruct (H ∅ eq_refl) as [a Ha].
  exists a. constructor. by intros h ->.
Qed.

Lemma hProp_later_mixin :
  BiLaterMixin entails h_pure h_or h_impl (@h_forall) (@h_exist) h_sep h_pers h_later.
Proof. eapply bi_later_mixin_id, hProp_bi_mixin. done. Qed.

Canonical Structure hPropI : bi :=
  {| bi_ofe_mixin := ofe_mixin_of hProp;
     bi_bi_mixin := hProp_bi_mixin;
     bi_bi_persistently_mixin := hProp_persistently_mixin;
     bi_bi_later_mixin := hProp_later_mixin |}.

#[export] Instance hProp_pure_forall : BiPureForall hPropI.
Proof. intros A phi. constructor. done. Qed.

(** A pure fact that holds no memory. *)
Notation "⌜⌜ phi ⌝⌝" := (<affine> ⌜phi⌝)%I
  (at level 0, phi at level 200, format "⌜⌜ phi ⌝⌝") : bi_scope.

(** ** Points-to *)

Definition pt (k : key) (c : cell) : hProp := HProp (fun h => h = {[k := c]}).

(** The structure at [l] (without its list node), and the list node at [l]. *)
Definition pt_obj {T} `{Struct T} (l : loc) (x : T) : hProp := pt (l, FBody) (CObj (inj x)).
Definition pt_node (l : loc) (n p : ptr) : hProp := pt (l, FNode) (CNode (ListHead n p)).

Notation "l ↦ x" := (pt_obj l x) (at level 20, format "l  ↦  x") : bi_scope.
Notation "l ↦ₙ ( n , p )" := (pt_node l n p)
  (at level 1, n, p at level 200, format "l  ↦ₙ  ( n ,  p )") : bi_scope.

Lemma pt_excl k c1 c2 : pt k c1 ∗ pt k c2 ⊢ False.
Proof.
  constructor. intros h (h1 & h2 & -> & Hd & -> & ->).
  apply map_disjoint_singleton_l in Hd. by rewrite lookup_singleton_eq in Hd.
Qed.
