(* ===== verification/CMem.v ===== *)
(** * The machine

    The state a function of the program runs in, the monad its model is
    written in, the memory primitives, and the weakest-precondition calculus
    that the specifications of all components are proved with.

    A run ends in one of three ways: [Ret] with a value and the new state,
    [Fault] when the C program has undefined behaviour or aborts (the models
    check every access), or [OutOfFuel] when the bound given to a loop was too
    small. *)

From iris.proofmode Require Import proofmode.
From S2P Require Import Prelude CTypes HProp.
Set Warnings "-rewrite-rw".
Open Scope Z_scope.

(** ** State *)

(** Everything that is not in the heap.  [oom] lists the outcome of the coming
    allocations ([true]: succeeds; all succeed after the end of the list).
    [slack] is the number of bytes that the allocator's blocks are larger than
    what was asked for; [0] is the C standard's view, in which touching them is
    an error.  [replies] is what the operating system answers to the successive
    system calls, recorded in [syslog]; [out] is what was written to stdout. *)
Record globals := Globals {
  errno : Z;
  oom : list bool;
  slack : nat;
  msglevel : Z;
  out : list Z;
  replies : nat -> Z * Z;
  syslog : list (string * list Z) }.

(** All is well: allocations and system calls succeed. *)
Definition quiet_globals : globals := Globals 0 [] 0 0 [] (fun _ => (0, 0)) [].

Record machine := Machine { mem : heap; env : globals }.

Inductive fault :=
| NullDeref
| WildPtr
| DanglingPtr
| BadCast
| Indeterminate
| OutOfBounds
| BadFree
| StackOverflow
| AssertFailed
| IntOverflow.

Inductive res (A : Type) :=
| Ret (a : A) (s : machine)
| Fault (f : fault)
| OutOfFuel.
Arguments Ret {A} a s.
Arguments Fault {A} f.
Arguments OutOfFuel {A}.

Definition M (A : Type) : Type := machine -> res A.

#[export] Instance M_ret : MRet M := fun A a s => Ret a s.
#[export] Instance M_bind : MBind M := fun A B k m s =>
  match m s with
  | Ret a s' => k a s'
  | Fault f => Fault f
  | OutOfFuel => OutOfFuel
  end.

Definition fail {A} (f : fault) : M A := fun _ => Fault f.
Definition no_fuel {A} : M A := fun _ => OutOfFuel.
Definition get_env : M globals := fun s => Ret (env s) s.
Definition put_env (g : globals) : M unit := fun s => Ret tt (Machine (mem s) g).

Definition set_errno (e : Z) (g : globals) : globals :=
  Globals e (oom g) (slack g) (msglevel g) (out g) (replies g) (syslog g).
Definition set_oom (o : list bool) (g : globals) : globals :=
  Globals (errno g) o (slack g) (msglevel g) (out g) (replies g) (syslog g).
Definition set_msglevel (l : Z) (g : globals) : globals :=
  Globals (errno g) (oom g) (slack g) l (out g) (replies g) (syslog g).
Definition add_out (o : list Z) (g : globals) : globals :=
  Globals (errno g) (oom g) (slack g) (msglevel g) (out g ++ o) (replies g) (syslog g).
Definition add_call (c : string * list Z) (g : globals) : globals :=
  Globals (errno g) (oom g) (slack g) (msglevel g) (out g) (replies g) (syslog g ++ [c]).

(** assert() of the C library. *)
Definition c_assert (b : bool) : M unit := if b then mret tt else fail AssertFailed.

Definition is_null (p : ptr) : bool := bool_decide (p = PNull).

(** The result of using the pointer [p] to reach an object. *)
Definition with_obj {A} (p : ptr) (k : loc -> M A) : M A :=
  match p with
  | PAt l o => if o =? 0 then k l else fail WildPtr
  | PNull => fail NullDeref
  | PUndef => fail Indeterminate
  | PPoison1 | PPoison2 | PStack _ => fail WildPtr
  end.

(** ** Structures *)

Definition load (T : Type) `{Struct T} (p : ptr) : M T :=
  with_obj p (fun l s =>
    match mem s !! (l, FBody) with
    | Some (CObj o) => match prj o with Some x => Ret x s | None => Fault BadCast end
    | _ => Fault DanglingPtr
    end).

(** Assigning a structure's fields; the object must have that type already. *)
Definition store {T} `{Struct T} (p : ptr) (x : T) : M unit :=
  with_obj p (fun l s =>
    match mem s !! (l, FBody) with
    | Some (CObj o) =>
        match prj (T := T) o with
        | Some _ => Ret tt (Machine (<[(l, FBody) := CObj (inj x)]> (mem s)) (env s))
        | None => Fault BadCast
        end
    | _ => Fault DanglingPtr
    end).

(** ** List nodes *)

Definition load_node (p : ptr) : M list_head :=
  with_obj p (fun l s =>
    match mem s !! (l, FNode) with
    | Some (CNode n) => Ret n s
    | _ => Fault DanglingPtr
    end).

Definition store_node (p : ptr) (n : list_head) : M unit :=
  with_obj p (fun l s =>
    match mem s !! (l, FNode) with
    | Some (CNode _) => Ret tt (Machine (<[(l, FNode) := CNode n]> (mem s)) (env s))
    | _ => Fault DanglingPtr
    end).

(** ** Allocation *)

Definition ENOMEM : Z := 12.
Definition PTRDIFF_MAX : Z := 2 ^ 63 - 1.

(** An address that holds nothing. *)
Definition new_loc (h : heap) : loc := fresh (set_map (D := gset loc) fst (dom h)).

Definition alloc_cells (x : obj) (s : machine) : res ptr :=
  let l := new_loc (mem s) in
  let h := <[(l, FBody) := CObj x]> (mem s) in
  Ret (obj_ptr l)
    (Machine (if has_node x then <[(l, FNode) := CNode (ListHead PUndef PUndef)]> h else h)
       (env s)).

(** One request to the allocator: [None] when it is refused. *)
Definition ask_memory (size : Z) (g : globals) : bool * globals :=
  if PTRDIFF_MAX <? size then (false, set_errno ENOMEM g)
  else match oom g with
       | [] => (true, g)
       | true :: o => (true, set_oom o g)
       | false :: o => (false, set_errno ENOMEM (set_oom o g))
       end.

(** malloc(sizeof(T)); [x] gives the fields that the caller assigns next, with
    [PUndef] for one it leaves indeterminate. *)
Definition malloc {T} `{Struct T} (x : T) : M ptr := fun s =>
  match ask_memory 1 (env s) with
  | (true, g) => alloc_cells (inj x) (Machine (mem s) g)
  | (false, g) => Ret PNull (Machine (mem s) g)
  end.

(** malloc(size) of a char array; [size] is converted to size_t. *)
Definition malloc_bytes (size : Z) : M ptr := fun s =>
  let n := u64 size in
  match ask_memory n (env s) with
  | (true, g) => alloc_cells (OBytes (replicate (Z.to_nat n + slack g) None)) (Machine (mem s) g)
  | (false, g) => Ret PNull (Machine (mem s) g)
  end.

(** free(): nothing happens to a null pointer; otherwise the pointer must be
    the address of a live object. *)
Definition free (p : ptr) : M unit :=
  match p with
  | PNull => mret tt
  | PUndef => fail Indeterminate
  | PPoison1 | PPoison2 | PStack _ => fail BadFree
  | PAt l o => fun s =>
      if negb (o =? 0) then Fault BadFree
      else match mem s !! (l, FBody) with
           | Some (CObj x) =>
               let h := delete (l, FBody) (mem s) in
               if has_node x
               then match h !! (l, FNode) with
                    | Some _ => Ret tt (Machine (delete (l, FNode) h) (env s))
                    | None => Fault BadFree
                    end
               else Ret tt (Machine h (env s))
           | _ => Fault BadFree
           end
  end.

(** ** Arrays of char *)

Definition in_range {A} (bs : list A) (o n : Z) : bool :=
  (0 <=? o) && (0 <=? n) && (o + n <=? Z.of_nat (length bs)).

(** [n] bytes at offset [o]. *)
Definition slice {A} (bs : list A) (o n : Z) : list A := take (Z.to_nat n) (drop (Z.to_nat o) bs).

(** [bs] with [ds] written over it at offset [o]. *)
Definition patch {A} (bs : list A) (o : Z) (ds : list A) : list A :=
  take (Z.to_nat o) bs ++ ds ++ drop (Z.to_nat o + length ds) bs.

Definition with_byte {A} (p : ptr) (k : loc -> Z -> M A) : M A :=
  match p with
  | PAt l o => k l o
  | PNull => fail NullDeref
  | PUndef => fail Indeterminate
  | PPoison1 | PPoison2 | PStack _ => fail WildPtr
  end.

(** memcpy(), first half: the bytes read.  Indeterminate bytes may be copied. *)
Definition read_bytes (p : ptr) (n : Z) : M (list mbyte) :=
  with_byte p (fun l o =>
    bs ← load (list mbyte) (obj_ptr l);
    if in_range bs o n then mret (slice bs o n) else fail OutOfBounds).

(** memcpy() and memset(), second half: the bytes written. *)
Definition write_bytes (p : ptr) (ds : list mbyte) : M unit :=
  with_byte p (fun l o =>
    bs ← load (list mbyte) (obj_ptr l);
    if in_range bs o (Z.of_nat (length ds)) then store (obj_ptr l) (patch bs o ds)
    else fail OutOfBounds).

Definition memcpy (dst src : ptr) (n : Z) : M unit :=
  ds ← read_bytes src (u64 n);
  write_bytes dst ds.

Definition memset (dst : ptr) (c n : Z) : M unit :=
  write_bytes dst (replicate (Z.to_nat n) (Some (u8 c))).

(** *p *)
Definition get_byte (p : ptr) : M Z :=
  ds ← read_bytes p 1;
  match ds with
  | Some b :: _ => mret b
  | _ => fail Indeterminate
  end.

(** *p = c *)
Definition put_byte (p : ptr) (c : Z) : M unit := write_bytes p [Some (u8 c)].

(** p + n *)
Definition ptr_add (p : ptr) (n : Z) : M ptr :=
  match p with
  | PAt l o => mret (PAt l (o + n))
  | PStack o => mret (PStack (o + n))
  | PNull => fail NullDeref
  | PUndef => fail Indeterminate
  | PPoison1 | PPoison2 => fail WildPtr
  end.

(** p - q, for pointers into the same array. *)
Definition ptr_sub (p q : ptr) : M Z :=
  match p, q with
  | PAt l o, PAt l' o' => if bool_decide (l = l') then mret (o - o') else fail WildPtr
  | PUndef, _ | _, PUndef => fail Indeterminate
  | PNull, PNull => mret 0
  | _, _ => fail WildPtr
  end.

(** System calls: the next reply of the operating system. *)
Definition syscall (name : string) (args : list Z) : M Z :=
  g ← get_env;
  let '(r, e) := replies g (length (syslog g)) in
  let g := add_call (name, args) g in
  _ ← put_env (if r =? -1 then set_errno e g else g);
  mret r.
