(* ===== verification/CWp.v ===== *)
(** * Weakest preconditions

    [wp m g Q] holds of a heap if [m], run on that heap and any disjoint
    frame with the globals [g], returns (no fault, enough fuel), leaves the
    frame untouched and ends in [Q].  [wpf m g f] says that every such run ends
    in the fault [f].  Both are total-correctness statements about the
    executable definitions, so they compose with the computation of a
    concrete run ([wp_run]). *)

From iris.proofmode Require Import environments proofmode.
From S2P Require Import Prelude CTypes HProp CMem.
Set Warnings "-rewrite-rw".
Open Scope Z_scope.

Definition wp {A} (m : M A) (g : globals) (Q : A -> globals -> hProp) : hProp :=
  HProp (fun h => ∀ hf, h ##ₘ hf →
    ∃ a h' g', m (Machine (h ∪ hf) g) = Ret a (Machine (h' ∪ hf) g')
      ∧ h' ##ₘ hf ∧ holds (Q a g') h').

Definition wpf {A} (m : M A) (g : globals) (f : fault) : hProp :=
  HProp (fun h => ∀ hf, h ##ₘ hf → m (Machine (h ∪ hf) g) = Fault f).

(** A total-correctness triple: from a heap that satisfies [P] (and any
    disjoint rest of memory [hf]) the run returns, the result and the heap
    satisfy [Q], and the rest of memory is unchanged. *)
Definition triple {A} (P : hProp) (g : globals) (m : M A) (Q : A -> globals -> hProp) : Prop :=
  ∀ h hf, h ##ₘ hf → holds P h →
    ∃ a h' g', m (Machine (h ∪ hf) g) = Ret a (Machine (h' ∪ hf) g')
      ∧ h' ##ₘ hf ∧ holds (Q a g') h'.

Lemma triple_wp {A} P g (m : M A) Q : (P ⊢ wp m g Q) -> triple P g m Q.
Proof. intros [H] h hf Hd HP. by apply (H h HP). Qed.

Lemma wp_triple {A} P g (m : M A) Q : triple P g m Q -> (P ⊢ wp m g Q).
Proof. intros H. constructor. intros h HP hf Hd. by apply H. Qed.

(** A run that always ends in the fault [f]. *)
Definition faults {A} (P : hProp) (g : globals) (m : M A) (f : fault) : Prop :=
  ∀ h hf, h ##ₘ hf → holds P h → m (Machine (h ∪ hf) g) = Fault f.

Lemma faults_wpf {A} P g (m : M A) f : (P ⊢ wpf m g f) -> faults P g m f.
Proof. intros [H] h hf Hd HP. by apply (H h HP). Qed.

(** The concrete run on exactly the described heap. *)
Lemma wp_run {A} P (m : M A) g Q h :
  (P ⊢ wp m g Q) -> holds P h ->
  ∃ a h' g', m (Machine h g) = Ret a (Machine h' g') ∧ holds (Q a g') h'.
Proof.
  intros [H] HP. destruct (H h HP ∅) as (a & h' & g' & Hm & _ & HQ);
    [apply map_disjoint_empty_r|].
  rewrite !(right_id_L ∅ (∪)) in Hm. eauto.
Qed.

(** ** Tactics *)

(** Apply [lem] with the hypothesis that matches [pat], and keep what comes back. *)
Tactic Notation "wp_select" open_constr(pat) "with" constr(lem) :=
  iSelect pat (fun H => iApply lem; iFrame H; iIntros H).

(** ** Structural rules *)

Section rules.
Context {A B : Type}.
Implicit Types (m : M A) (k : A -> M B) (g : globals).

Lemma wp_ret (a : A) g Q : Q a g ⊢ wp (mret a) g Q.
Proof. constructor. intros h HQ hf Hd. by exists a, h, g. Qed.

Lemma wp_bind m k g Q :
  wp m g (fun a g' => wp (k a) g' Q) ⊢ wp (m ≫= k) g Q.
Proof.
  constructor. intros h H hf Hd.
  destruct (H hf Hd) as (a & h' & g' & Hm & Hd' & H').
  destruct (H' hf Hd') as (b & h'' & g'' & Hk & Hd'' & HQ).
  exists b, h'', g''. split; [|done]. by rewrite /mbind /M_bind Hm.
Qed.

Lemma wp_wand m g Q R :
  wp m g Q ⊢ (∀ a g', Q a g' -∗ R a g') -∗ wp m g R.
Proof.
  constructor. intros h H h2 Hd2 HQR hf Hd.
  apply map_disjoint_union_l in Hd as [Hd1 Hd3].
  destruct (H (h2 ∪ hf)) as (a & h' & g' & Hm & Hd' & HQ).
  { by apply map_disjoint_union_r_2. }
  apply map_disjoint_union_r in Hd' as [Hd4 Hd5].
  exists a, (h' ∪ h2), g'. rewrite -!(assoc_L (∪)). split_and!.
  - done.
  - by apply map_disjoint_union_l_2.
  - rewrite map_union_comm //. apply HQR; done.
Qed.

Lemma wp_mono m g Q R : (∀ a g', Q a g' ⊢ R a g') → wp m g Q ⊢ wp m g R.
Proof.
  intros HQR. iIntros "H". iApply (wp_wand with "H"). iIntros (a g') "H". by iApply HQR.
Qed.

Lemma wp_frame_l m g Q (R : hProp) : R ∗ wp m g Q ⊢ wp m g (fun a g' => R ∗ Q a g').
Proof. iIntros "[HR H]". iApply (wp_wand with "H"). iIntros (a g') "H". iFrame. Qed.

Lemma wp_get_env g Q : Q g g ⊢ wp get_env g Q.
Proof. constructor. intros h HQ hf Hd. by exists g, h, g. Qed.

Lemma wp_put_env g g' Q : Q tt g' ⊢ wp (put_env g') g Q.
Proof. constructor. intros h HQ hf Hd. by exists tt, h, g'. Qed.

Lemma wpf_fail g f : emp ⊢ wpf (A := A) (fail f) g f.
Proof. by constructor. Qed.

Lemma wpf_bind m k g f :
  wp m g (fun a g' => wpf (k a) g' f) ⊢ wpf (m ≫= k) g f.
Proof.
  constructor. intros h H hf Hd.
  destruct (H hf Hd) as (a & h' & g' & Hm & Hd' & H').
  rewrite /mbind /M_bind Hm. by apply H'.
Qed.

Lemma wpf_bind_l m k g f : wpf m g f ⊢ wpf (m ≫= k) g f.
Proof. constructor. intros h H hf Hd. rewrite /mbind /M_bind H //. Qed.

(** A fault does not depend on the memory it is not about. *)
Lemma wpf_frame m g f (R : hProp) : wpf m g f ∗ R ⊢ wpf m g f.
Proof.
  constructor. intros h (h1 & h2 & -> & Hd & H1 & _) hf Hd'.
  apply map_disjoint_union_l in Hd' as [Hd1 Hd2].
  rewrite -(assoc_L (∪)). apply H1. by apply map_disjoint_union_r_2.
Qed.

(** Computations that agree on every state. *)
Lemma wp_ext m m' g Q : (∀ s, m s = m' s) -> wp m' g Q ⊢ wp m g Q.
Proof. intros He. constructor. intros h H hf Hd. rewrite He. by apply H. Qed.

Lemma wpf_ext m m' g f : (∀ s, m s = m' s) -> wpf m' g f ⊢ wpf m g f.
Proof. intros He. constructor. intros h H hf Hd. rewrite He. by apply H. Qed.

(** A fault that follows from the contents of some cells. *)
Lemma wpf_run m g f (P : hProp) :
  (∀ H : heap, (∀ ky c, (P ⊢ pt ky c ∗ True) -> H !! ky = Some c) -> m (Machine H g) = Fault f) ->
  P ⊢ wpf m g f.
Proof.
  intros Hm. constructor. intros h HP hf Hd. apply Hm. intros ky c [Hk].
  destruct (Hk h HP) as (h1 & h2 & -> & _ & -> & _).
  rewrite -(assoc_L (∪)). apply lookup_union_Some_l, lookup_singleton_eq.
Qed.

#[global] Instance wpf_absorbing m g f : Absorbing (wpf m g f).
Proof.
  rewrite /Absorbing /bi_absorbingly. rewrite comm. apply wpf_frame.
Qed.

#[global] Instance frame_wp p m g R Q Q' :
  (∀ a g', Frame p R (Q a g') (Q' a g')) →
  Frame p R (wp m g Q) (wp m g Q') | 2.
Proof.
  rewrite /Frame=> HR. rewrite wp_frame_l. apply wp_mono. intros a g'. apply HR.
Qed.

End rules.

(** ** Runs that do not end

    [wpo m g]: the run uses up its fuel.  A loop for which this holds with every
    amount of fuel does not terminate. *)

Definition wpo {A} (m : M A) (g : globals) : hProp :=
  HProp (fun h => ∀ hf, h ##ₘ hf → m (Machine (h ∪ hf) g) = OutOfFuel).

Definition runs_out {A} (P : hProp) (g : globals) (m : M A) : Prop :=
  ∀ h hf, h ##ₘ hf → holds P h → m (Machine (h ∪ hf) g) = OutOfFuel.

Lemma runs_out_wpo {A} P g (m : M A) : (P ⊢ wpo m g) -> runs_out P g m.
Proof. intros [H] h hf Hd HP. by apply (H h HP). Qed.

Section wpo.
Context {A B : Type}.
Implicit Types (m : M A) (k : A -> M B) (g : globals).

Lemma wpo_no_fuel P g : P ⊢ wpo (A := A) no_fuel g.
Proof. constructor. done. Qed.

Lemma wpo_bind m k g : wp m g (fun a g' => wpo (k a) g') ⊢ wpo (m ≫= k) g.
Proof.
  constructor. intros h H hf Hd. destruct (H hf Hd) as (a & h' & g' & Hm & Hd' & Hk).
  rewrite /mbind /M_bind Hm. by apply Hk.
Qed.

Lemma wpo_frame m g (R : hProp) : wpo m g ∗ R ⊢ wpo m g.
Proof.
  constructor. intros h (h1 & h2 & -> & Hd & H1 & _) hf Hd'.
  apply map_disjoint_union_l in Hd' as [Hd1 Hd2].
  rewrite -(assoc_L (∪)). apply H1. by apply map_disjoint_union_r_2.
Qed.

Lemma wpo_bind_l m k g : wpo m g ⊢ wpo (m ≫= k) g.
Proof. constructor. intros h H hf Hd. rewrite /mbind /M_bind H //. Qed.

End wpo.

(** ** Both outcomes at once

    [wpx m g Q E]: the run returns and ends in [Q], or it ends in a fault that
    [E] allows.  It never runs out of fuel. *)

Definition wpx {A} (m : M A) (g : globals) (Q : A -> globals -> hProp) (E : fault -> Prop) : hProp :=
  HProp (fun h => ∀ hf, h ##ₘ hf →
    match m (Machine (h ∪ hf) g) with
    | Ret a s' => ∃ h', mem s' = h' ∪ hf ∧ h' ##ₘ hf ∧ holds (Q a (env s')) h'
    | Fault f => E f
    | OutOfFuel => False
    end).

(** The same as a statement about runs: from a heap that satisfies [P] the run
    ends in [Q], the rest of memory unchanged, or in a fault of [E]; it never
    runs out of fuel. *)
Definition outcomes {A} (P : hProp) (g : globals) (m : M A) (Q : A -> globals -> hProp)
    (E : fault -> Prop) : Prop :=
  ∀ h hf, h ##ₘ hf → holds P h →
    match m (Machine (h ∪ hf) g) with
    | Ret a s' => ∃ h', mem s' = h' ∪ hf ∧ h' ##ₘ hf ∧ holds (Q a (env s')) h'
    | Fault f => E f
    | OutOfFuel => False
    end.

Lemma outcomes_wpx {A} P g (m : M A) Q E : (P ⊢ wpx m g Q E) -> outcomes P g m Q E.
Proof. intros [H] h hf Hd HP. by apply (H h HP). Qed.

Section wpx.
Context {A B : Type}.
Implicit Types (m : M A) (k : A -> M B) (g : globals) (E : fault -> Prop).

Lemma wpx_wp m g Q E : wp m g Q ⊢ wpx m g Q E.
Proof.
  constructor. intros h H hf Hd. destruct (H hf Hd) as (a & h' & g' & -> & Hd' & HQ).
  by exists h'.
Qed.

(** Without allowed faults it is [wp]. *)
Lemma wp_wpx m g Q E : (∀ f, ¬ E f) -> wpx m g Q E ⊢ wp m g Q.
Proof.
  intros HE. constructor. intros h H hf Hd. specialize (H hf Hd).
  destruct (m _) as [a [h0 g']|f|] eqn:Hm; [|by destruct (HE f)|done].
  destruct H as (h' & Hh & Hd' & HQ). cbn in Hh. subst h0. by exists a, h', g'.
Qed.

(** If nothing but the fault [f] is possible, it is [wpf]. *)
Lemma wpf_wpx m g f : wpx m g (fun _ _ => False%I) (fun f' => f' = f) ⊢ wpf m g f.
Proof.
  constructor. intros h H hf Hd. specialize (H hf Hd).
  destruct (m _) as [a s'|f'|]; [|by subst|done]. by destruct H as (h' & _ & _ & []).
Qed.

Lemma wpx_wpf m g f Q (E : fault -> Prop) : E f -> wpf m g f ⊢ wpx m g Q E.
Proof. intros HE. constructor. intros h H hf Hd. by rewrite (H hf Hd). Qed.

Lemma wpx_bind m k g Q E :
  wpx m g (fun a g' => wpx (k a) g' Q E) E ⊢ wpx (m ≫= k) g Q E.
Proof.
  constructor. intros h H hf Hd. specialize (H hf Hd).
  rewrite /mbind /M_bind. destruct (m _) as [a [h0 g']|f|]; [|done|done].
  destruct H as (h' & Hh & Hd' & H'). cbn in Hh. subst h0. by apply H'.
Qed.

Lemma wpx_wand m g Q R E :
  wpx m g Q E ⊢ (∀ a g', Q a g' -∗ R a g') -∗ wpx m g R E.
Proof.
  constructor. intros h H h2 Hd2 HQR hf Hd.
  apply map_disjoint_union_l in Hd as [Hd1 Hd3].
  specialize (H (h2 ∪ hf)). rewrite (assoc_L (∪)) in H.
  destruct (m _) as [a [h0 g']|f|]; [|by apply H, map_disjoint_union_r_2..].
  destruct H as (h' & Hh & Hd' & HQ); [by apply map_disjoint_union_r_2|].
  apply map_disjoint_union_r in Hd' as [Hd4 Hd5].
  exists (h' ∪ h2). cbn in Hh |- *. rewrite Hh (assoc_L (∪)). split_and!; [done| |].
  - by apply map_disjoint_union_l_2.
  - rewrite map_union_comm //. apply HQR; done.
Qed.

Lemma wpx_fault_mono m g Q (E E' : fault -> Prop) :
  (∀ f, E f -> E' f) -> wpx m g Q E ⊢ wpx m g Q E'.
Proof.
  intros HE. constructor. intros h H hf Hd. specialize (H hf Hd).
  destruct (m _); auto.
Qed.

Lemma wpx_fail f g Q E : E f -> True ⊢ wpx (A := A) (fail f) g Q E.
Proof. intros HE. constructor. intros h _ hf Hd. exact HE. Qed.

End wpx.

(** Step into the first half of a sequence; [wpx_pure] uses a rule that cannot fault. *)
Ltac wpx_bind_wp := iApply wpx_bind; iApply wpx_wp.

(** ** Memory primitives *)

Section cells.
Context {A : Type}.
Implicit Types (k : key) (c : cell) (hf : heap) (m : M A).

Lemma lookup_union_pt k c hf : (({[k := c]} : heap) ∪ hf) !! k = Some c.
Proof. apply lookup_union_Some_l. apply lookup_singleton_eq. Qed.

Lemma insert_union_pt k c c' hf :
  <[k := c']> (({[k := c]} : heap) ∪ hf) = ({[k := c']} : heap) ∪ hf.
Proof. rewrite insert_union_l insert_singleton_eq //. Qed.

Lemma delete_union_pt k c hf :
  hf !! k = None -> delete k (({[k := c]} : heap) ∪ hf) = hf.
Proof. intros Hk. rewrite -insert_union_singleton_l delete_insert_id //. Qed.

(** A step that only touches one cell. *)
Lemma wp_cell k c c' m g g' a Q :
  (∀ hf, hf !! k = None ->
     m (Machine ({[k := c]} ∪ hf) g) = Ret a (Machine ({[k := c']} ∪ hf) g')) ->
  pt k c ∗ (pt k c' -∗ Q a g') ⊢ wp m g Q.
Proof.
  intros Hm. constructor. intros h (h1 & h2 & -> & Hd & Hh1 & HQ) hf Hdf.
  rewrite /pt /= in Hh1. subst h1.
  apply map_disjoint_union_l in Hdf as [Hd1 Hd2].
  rewrite map_disjoint_singleton_l in Hd. rewrite map_disjoint_singleton_l in Hd1.
  exists a, (h2 ∪ {[k := c']}), g'. rewrite -(assoc_L (∪)). split_and!.
  - rewrite Hm; [|by apply lookup_union_None]. do 2 f_equal.
    rewrite !(assoc_L (∪)). f_equal. apply map_union_comm.
    by apply map_disjoint_singleton_l_2.
  - apply map_disjoint_union_l_2; [done|]. by apply map_disjoint_singleton_l_2.
  - apply HQ; [|done]. by apply map_disjoint_singleton_r_2.
Qed.

(** A step that removes one cell. *)
Lemma wp_uncell k c m g g' a Q :
  (∀ hf, hf !! k = None ->
     m (Machine ({[k := c]} ∪ hf) g) = Ret a (Machine hf g')) ->
  pt k c ∗ Q a g' ⊢ wp m g Q.
Proof.
  intros Hm. constructor. intros h (h1 & h2 & -> & Hd & Hh1 & HQ) hf Hdf.
  rewrite /pt /= in Hh1. subst h1.
  apply map_disjoint_union_l in Hdf as [Hd1 Hd2].
  rewrite map_disjoint_singleton_l in Hd. rewrite map_disjoint_singleton_l in Hd1.
  exists a, h2, g'. rewrite -(assoc_L (∪)). split; [|done].
  apply Hm. by apply lookup_union_None.
Qed.

(** A step that adds one cell at an address the heap does not have. *)
Lemma wp_newcell (c : cell) m g g' (F : loc -> A) Q :
  (∀ h, ∃ l, h !! (l, FBody) = None ∧ h !! (l, FNode) = None ∧
     m (Machine h g) = Ret (F l) (Machine (<[(l, FBody) := c]> h) g')) ->
  (∀ l, pt (l, FBody) c -∗ Q (F l) g') ⊢ wp m g Q.
Proof.
  intros Hm. constructor. intros h HQ hf Hdf.
  destruct (Hm (h ∪ hf)) as (l & [Hl1 Hl2]%lookup_union_None & _ & E).
  exists (F l), (h ∪ {[(l, FBody) := c]}), g'. split_and!.
  - rewrite E. do 2 f_equal. rewrite insert_union_singleton_l (assoc_L (∪)). f_equal.
    apply map_union_comm. by apply map_disjoint_singleton_l_2.
  - apply map_disjoint_union_l_2; [done|]. by apply map_disjoint_singleton_l_2.
  - apply (HQ l); [|done]. by apply map_disjoint_singleton_r_2.
Qed.

Lemma wp_newcell2 (c d : cell) m g g' (F : loc -> A) Q :
  (∀ h, ∃ l, h !! (l, FBody) = None ∧ h !! (l, FNode) = None ∧
     m (Machine h g) = Ret (F l) (Machine (<[(l, FNode) := d]> (<[(l, FBody) := c]> h)) g')) ->
  (∀ l, pt (l, FBody) c -∗ pt (l, FNode) d -∗ Q (F l) g') ⊢ wp m g Q.
Proof.
  intros Hm. constructor. intros h HQ hf Hdf.
  destruct (Hm (h ∪ hf)) as (l & [Hl1 Hl2]%lookup_union_None & [Hl3 Hl4]%lookup_union_None & E).
  assert (Hd1 : h ##ₘ {[(l, FBody) := c]}) by by apply map_disjoint_singleton_r_2.
  assert (Hd2 : (h ∪ {[(l, FBody) := c]}) ##ₘ {[(l, FNode) := d]}).
  { apply map_disjoint_singleton_r_2, lookup_union_None.
    split; [done|]. by apply lookup_singleton_ne. }
  exists (F l), ((h ∪ {[(l, FBody) := c]}) ∪ {[(l, FNode) := d]}), g'. split_and!.
  - rewrite E. do 2 f_equal. rewrite !insert_union_singleton_l.
    rewrite (map_union_comm _ _ Hd2) (map_union_comm _ _ Hd1) -!(assoc_L (∪)) //.
  - apply map_disjoint_union_l_2; [|by apply map_disjoint_singleton_l_2].
    apply map_disjoint_union_l_2; [done|]. by apply map_disjoint_singleton_l_2.
  - apply (HQ l _ Hd1); done.
Qed.

(** A step that removes two cells. *)
Lemma wp_uncell2 k1 k2 c1 c2 m g g' a Q :
  (∀ hf, (({[k2 := c2]} : heap) ∪ hf) !! k1 = None -> hf !! k2 = None ->
     m (Machine ({[k1 := c1]} ∪ ({[k2 := c2]} ∪ hf)) g) = Ret a (Machine hf g')) ->
  pt k1 c1 ∗ pt k2 c2 ∗ Q a g' ⊢ wp m g Q.
Proof.
  intros Hm. constructor.
  intros h (h1 & ? & -> & Hd & Hh1 & (h2 & h3 & -> & Hd' & Hh2 & HQ)) hf Hdf.
  rewrite /pt /= in Hh1, Hh2. subst h1 h2.
  rewrite !map_disjoint_union_l !map_disjoint_singleton_l in Hdf.
  destruct Hdf as (Hf1 & Hf2 & Hf3).
  rewrite map_disjoint_singleton_l in Hd. rewrite map_disjoint_singleton_l in Hd'.
  apply lookup_union_None in Hd as [Hd1 Hd2].
  exists a, h3, g'. rewrite -!(assoc_L (∪)). split; [|done].
  apply Hm; rewrite ?lookup_union_None; done.
Qed.

End cells.

Section memory.
Context {T : Type} `{!Struct T}.
Implicit Types (l : loc) (x y : T) (g : globals).

Lemma wp_load l x g Q : l ↦ x ∗ (l ↦ x -∗ Q x g) ⊢ wp (load T (obj_ptr l)) g Q.
Proof.
  apply wp_cell. intros hf _. rewrite /load /= lookup_union_pt prj_inj //.
Qed.

Lemma wp_store l x y g Q : l ↦ x ∗ (l ↦ y -∗ Q tt g) ⊢ wp (store (obj_ptr l) y) g Q.
Proof.
  apply wp_cell. intros hf _.
  rewrite /store /= lookup_union_pt prj_inj insert_union_pt //.
Qed.

Lemma new_loc_fresh (h : heap) f : h !! (new_loc h, f) = None.
Proof.
  apply not_elem_of_dom. intros Hin.
  apply (is_fresh (set_map (D := gset loc) fst (dom h))).
  apply elem_of_map. by exists (new_loc h, f).
Qed.

Lemma wp_malloc x g Q :
  oom g = [] ->
  (∀ l, l ↦ x -∗ (if node_of T then l ↦ₙ (PUndef, PUndef) else emp) -∗ Q (obj_ptr l) g)
  ⊢ wp (malloc x) g Q.
Proof.
  intros Hoom.
  assert (Hm : ∀ h, malloc x (Machine h g) = alloc_cells (inj x) (Machine h g)).
  { intros h. rewrite /malloc /ask_memory /= Hoom //. }
  iIntros "HQ". destruct (node_of T) eqn:Hn.
  - iApply (wp_newcell2 _ (CNode (ListHead PUndef PUndef)) _ _ g obj_ptr with "HQ").
    intros h. exists (new_loc h). rewrite Hm /alloc_cells has_node_inj Hn.
    auto using new_loc_fresh.
  - iApply (wp_newcell _ _ _ g obj_ptr with "[HQ]").
    + intros h. exists (new_loc h). rewrite Hm /alloc_cells has_node_inj Hn.
      auto using new_loc_fresh.
    + iIntros (l) "Hl". by iApply ("HQ" with "Hl").
Qed.

Lemma wp_free l x g Q :
  l ↦ x ∗ (if node_of T then ∃ n p, l ↦ₙ (n, p) else emp) ∗ Q tt g
  ⊢ wp (free (obj_ptr l)) g Q.
Proof.
  destruct (node_of T) eqn:Hn.
  - iIntros "(Hl & (%n & %p & Hn) & HQ)".
    iApply (wp_uncell2 _ _ _ _ _ _ g tt Q with "[$Hl $Hn $HQ]"). intros hf H1 H2.
    rewrite /free /= lookup_union_pt has_node_inj Hn delete_union_pt //.
    rewrite lookup_union_pt delete_union_pt //.
  - iIntros "(Hl & _ & HQ)". iApply (wp_uncell _ _ _ _ g tt Q with "[$Hl $HQ]"). intros hf H1.
    rewrite /free /= lookup_union_pt has_node_inj Hn delete_union_pt //.
Qed.

End memory.

Lemma wp_load_node l n p g Q :
  l ↦ₙ (n, p) ∗ (l ↦ₙ (n, p) -∗ Q (ListHead n p) g) ⊢ wp (load_node (obj_ptr l)) g Q.
Proof. apply wp_cell. intros hf _. rewrite /load_node /= lookup_union_pt //. Qed.

Lemma wp_store_node l n p n' p' g Q :
  l ↦ₙ (n, p) ∗ (l ↦ₙ (n', p') -∗ Q tt g)
  ⊢ wp (store_node (obj_ptr l) (ListHead n' p')) g Q.
Proof.
  apply wp_cell. intros hf _. rewrite /store_node /= lookup_union_pt insert_union_pt //.
Qed.

Lemma wp_malloc_bytes size g Q :
  oom g = [] -> 0 <= size <= PTRDIFF_MAX ->
  (∀ l, l ↦ replicate (Z.to_nat size + slack g) (None : mbyte) -∗ Q (obj_ptr l) g)
  ⊢ wp (malloc_bytes size) g Q.
Proof.
  intros Hoom Hsz. iIntros "HQ".
  iApply (wp_newcell _ _ _ g obj_ptr with "HQ"). intros h. exists (new_loc h).
  split_and!; [apply new_loc_fresh..|].
  rewrite /malloc_bytes /ask_memory /= Hoom /u64 Z.mod_small; [|rewrite /PTRDIFF_MAX in Hsz; lia].
  rewrite (proj2 (Z.ltb_ge _ _)) /alloc_cells /=; [done|lia].
Qed.

(** Whatever the size asked for. *)
Lemma wp_malloc_bytes_any size g Q :
  oom g = [] ->
  (∀ l (bs : list mbyte), l ↦ bs -∗ Q (obj_ptr l) g) ∧ Q PNull (set_errno ENOMEM g)
  ⊢ wp (malloc_bytes size) g Q.
Proof.
  intros Hoom. destruct (Z.le_gt_cases (u64 size) PTRDIFF_MAX) as [Hsz|Hsz].
  - rewrite bi.and_elim_l. iIntros "HQ".
    iApply (wp_newcell (CObj (OBytes (replicate (Z.to_nat (u64 size) + slack g) None))) _ _ g obj_ptr
              with "[HQ]").
    + intros h. exists (new_loc h). split_and!; [apply new_loc_fresh..|].
      rewrite /malloc_bytes /ask_memory /= Hoom (proj2 (Z.ltb_ge _ _)) //.
    + iIntros (l) "Hl". by iApply ("HQ" with "Hl").
  - rewrite bi.and_elim_r. constructor. intros h HQ hf Hd.
    exists PNull, h, (set_errno ENOMEM g). split; [|done].
    rewrite /malloc_bytes /ask_memory /= (proj2 (Z.ltb_lt _ _)) //.
Qed.

Lemma wp_free_null g Q : Q tt g ⊢ wp (free PNull) g Q.
Proof. apply wp_ret. Qed.

(** ** Arrays of char *)

Section bytes.
Implicit Types (bs ds : list mbyte) (g : globals).

Lemma wp_read_bytes l o n bs g Q :
  0 <= o -> 0 <= n -> o + n <= Z.of_nat (length bs) ->
  l ↦ bs ∗ (l ↦ bs -∗ Q (slice bs o n) g) ⊢ wp (read_bytes (PAt l o) n) g Q.
Proof.
  intros. iIntros "[Hl HQ]". rewrite /read_bytes /=. iApply wp_bind.
  iApply (wp_load (T := list mbyte) with "[$Hl HQ]"). iIntros "Hl".
  rewrite /in_range !(proj2 (Z.leb_le _ _)) /=; [|lia..].
  iApply wp_ret. by iApply "HQ".
Qed.

Lemma wpx_read_bytes_bad l o n bs g Q E :
  in_range bs o n = false -> (∀ f, E f) ->
  l ↦ bs ∗ True ⊢ wpx (read_bytes (PAt l o) n) g Q E.
Proof.
  intros Hr HE. iIntros "[Hl HT]". rewrite /read_bytes /=. iApply wpx_bind. iApply wpx_wp.
  iApply (wp_load (T := list mbyte) with "[$Hl HT]"). iIntros "Hl".
  rewrite Hr. iApply wpx_fail; auto.
Qed.

Lemma wp_write_bytes l o ds bs g Q :
  0 <= o -> o + Z.of_nat (length ds) <= Z.of_nat (length bs) ->
  l ↦ bs ∗ (l ↦ patch bs o ds -∗ Q tt g) ⊢ wp (write_bytes (PAt l o) ds) g Q.
Proof.
  intros. iIntros "[Hl HQ]". rewrite /write_bytes /=. iApply wp_bind.
  iApply (wp_load (T := list mbyte) with "[$Hl HQ]"). iIntros "Hl".
  rewrite /in_range !(proj2 (Z.leb_le _ _)) /=; [|lia..].
  iApply (wp_store (T := list mbyte) with "[$Hl HQ]"). done.
Qed.

Lemma wp_get_byte l o b bs g Q :
  0 <= o -> bs !! Z.to_nat o = Some (Some b) ->
  l ↦ bs ∗ (l ↦ bs -∗ Q b g) ⊢ wp (get_byte (PAt l o)) g Q.
Proof.
  intros Ho Hb. iIntros "[Hl HQ]". rewrite /get_byte. iApply wp_bind.
  pose proof (lookup_lt_Some _ _ _ Hb).
  iApply (wp_read_bytes l o 1 bs with "[$Hl HQ]"); [lia..|]. iIntros "Hl".
  rewrite /slice (drop_S _ _ _ Hb) /=. iApply wp_ret. by iApply "HQ".
Qed.

End bytes.

(** The same on an array that is given in pieces. *)
Lemma patch_app {X} (pre mid post ds : list X) :
  length ds = length mid -> patch (pre ++ mid ++ post) (Z.of_nat (length pre)) ds = pre ++ ds ++ post.
Proof.
  intros Hl. rewrite /patch Nat2Z.id take_app_length Hl -drop_drop drop_app_length drop_app_length //.
Qed.

Lemma slice_app {X} (pre mid post : list X) :
  slice (pre ++ mid ++ post) (Z.of_nat (length pre)) (Z.of_nat (length mid)) = mid.
Proof. by rewrite /slice !Nat2Z.id drop_app_length take_app_length. Qed.

Lemma wp_write_at l o ds pre mid post g Q :
  o = Z.of_nat (length pre) -> length ds = length mid ->
  l ↦ (pre ++ mid ++ post) ∗ (l ↦ (pre ++ ds ++ post) -∗ Q tt g) ⊢ wp (write_bytes (PAt l o) ds) g Q.
Proof.
  intros -> Hl. iIntros "[Hl HQ]".
  iApply (wp_write_bytes l _ ds (pre ++ mid ++ post)); [lia|rewrite !length_app; lia|].
  iFrame "Hl". by rewrite patch_app.
Qed.

Lemma wp_read_at l o n pre mid post g Q :
  o = Z.of_nat (length pre) -> n = Z.of_nat (length mid) ->
  l ↦ (pre ++ mid ++ post) ∗ (l ↦ (pre ++ mid ++ post) -∗ Q mid g) ⊢ wp (read_bytes (PAt l o) n) g Q.
Proof.
  intros -> ->. iIntros "[Hl HQ]".
  iApply (wp_read_bytes l _ _ (pre ++ mid ++ post)); [lia|lia|rewrite !length_app; lia|].
  iFrame "Hl". by rewrite slice_app.
Qed.

Lemma wpf_read_bytes l o n (bs : list mbyte) g :
  in_range bs o n = false -> l ↦ bs ⊢ wpf (read_bytes (PAt l o) n) g OutOfBounds.
Proof.
  intros Hr. apply wpf_run. intros H Hcell.
  assert (Hl : H !! (l, FBody) = Some (CObj (OBytes bs))).
  { apply Hcell. iIntros "$". }
  by rewrite /read_bytes /load /with_byte /with_obj /mbind /M_bind /= Hl /= Hr.
Qed.

Lemma wp_c_assert (b : bool) g Q : b = true -> Q tt g ⊢ wp (c_assert b) g Q.
Proof. intros ->. apply wp_ret. Qed.

Lemma wp_ptr_add l o n g Q : Q (PAt l (o + n)) g ⊢ wp (ptr_add (PAt l o) n) g Q.
Proof. apply wp_ret. Qed.

Lemma wp_ptr_sub l o o' g Q : Q (o - o') g ⊢ wp (ptr_sub (PAt l o) (PAt l o')) g Q.
Proof. rewrite /ptr_sub bool_decide_true //. apply wp_ret. Qed.

Lemma wpx_c_assert (b : bool) g Q E : b = true -> Q tt g ⊢ wpx (c_assert b) g Q E.
Proof. intros. rewrite -wpx_wp. by apply wp_c_assert. Qed.

(** ** Stepping through a function

    [wp_step] performs the next primitive, using the assertion about the object
    it needs from the context; [wp_steps] as many as it can. *)

(** The primitives of later files are added by redefining this. *)
Ltac wp_leaf_more := fail.

Ltac wp_leaf :=
  lazymatch goal with
  | |- envs_entails _ (wp (mret _) _ _) => iApply wp_ret
  | |- envs_entails _ (wp get_env _ _) => iApply wp_get_env
  | |- envs_entails _ (wp (put_env _) _ _) => iApply wp_put_env
  | |- envs_entails _ (wp (c_assert _) _ _) => iApply wp_c_assert; [done|]
  | |- envs_entails _ (wp (load ?T (obj_ptr ?l)) _ _) => wp_select (pt_obj l _) with (wp_load (T := T))
  | |- envs_entails _ (wp (load ?T (PAt ?l 0)) _ _) => wp_select (pt_obj l _) with (wp_load (T := T))
  | |- envs_entails _ (wp (@store ?T _ (obj_ptr ?l) _) _ _) => wp_select (pt_obj l _) with (wp_store (T := T))
  | |- envs_entails _ (wp (load_node (obj_ptr ?l)) _ _) => wp_select (pt_node l _ _) with wp_load_node
  | |- envs_entails _ (wp (store_node (obj_ptr ?l) _) _ _) => wp_select (pt_node l _ _) with wp_store_node
  | |- envs_entails _ (wp (ptr_add (PAt _ _) _) _ _) => iApply wp_ptr_add
  | |- envs_entails _ (wp (ptr_add (obj_ptr _) _) _ _) => iApply wp_ptr_add
  | |- envs_entails _ (wp (ptr_sub (PAt _ _) (PAt _ _)) _ _) => iApply wp_ptr_sub
  | |- envs_entails _ (wp (ptr_sub (obj_ptr _) (PAt _ _)) _ _) => iApply wp_ptr_sub
  | |- envs_entails _ (wp (ptr_sub (PAt _ _) (obj_ptr _)) _ _) => iApply wp_ptr_sub
  | |- envs_entails _ (wp (ptr_sub (obj_ptr _) (obj_ptr _)) _ _) => iApply wp_ptr_sub
  | _ => wp_leaf_more
  end.

Ltac wp_step :=
  lazymatch goal with
  | |- envs_entails _ (wp (_ ≫= _) _ _) => iApply wp_bind; wp_step
  | |- envs_entails _ (wpx (_ ≫= _) _ _ _) => iApply wpx_bind; wp_step
  | |- envs_entails _ (wpx _ _ _ _) => iApply wpx_wp; wp_leaf
  | _ => wp_leaf
  end; cbn beta iota.

Ltac wp_steps := repeat wp_step.

(** ** System calls *)

(** The globals after a system call: the reply is consumed, the call recorded. *)
Definition after_call (name : string) (args : list Z) (g : globals) : globals :=
  let '(r, e) := replies g (length (syslog g)) in
  let g := add_call (name, args) g in
  if r =? -1 then set_errno e g else g.

Lemma wp_syscall name args g Q :
  Q (fst (replies g (length (syslog g)))) (after_call name args g) ⊢ wp (syscall name args) g Q.
Proof.
  iIntros "HQ". rewrite /syscall /after_call. wp_step.
  destruct (replies g (length (syslog g))) as [r e]. cbn [fst]. by wp_steps.
Qed.

Lemma after_call_oom name args g : oom (after_call name args g) = oom g.
Proof. rewrite /after_call. destruct (replies _ _) as [r e]. by destruct (r =? -1). Qed.

Lemma after_call_log name args g : syslog (after_call name args g) = syslog g ++ [(name, args)].
Proof. rewrite /after_call. destruct (replies _ _) as [r e]. by destruct (r =? -1). Qed.

Lemma after_call_replies name args g : replies (after_call name args g) = replies g.
Proof. rewrite /after_call. destruct (replies _ _) as [r e]. by destruct (r =? -1). Qed.

Lemma after_call_errno name args g :
  fst (replies g (length (syslog g))) = -1 ->
  errno (after_call name args g) = snd (replies g (length (syslog g))).
Proof. rewrite /after_call. destruct (replies _ _) as [r e]. cbn. by intros ->. Qed.
