(* ===== verification/CLib.v ===== *)
(** * The parts of the C library the program uses

    strchr, strtol, strncpy, strncmp, and the decimal notation of printf; each
    reads its arguments byte by byte and goes wrong where the C function would
    read past the end of an array. *)

From iris.proofmode Require Import environments proofmode.
From S2P Require Import Prelude CTypes HProp CMem CWp.
Set Warnings "-rewrite-rw".
Open Scope Z_scope.

Definition ERANGE : Z := 34.

(** ** Searching *)

(** The outcome of scanning an array for a character: found at an index, not
    found before the NUL, or no answer. *)
Inductive scan :=
| Found (i : nat)
| Absent
| RunsOff
| Garbage.

Definition scan_S (s : scan) : scan := match s with Found i => Found (S i) | _ => s end.

Fixpoint find_chr (c : Z) (bs : list mbyte) : scan :=
  match bs with
  | [] => RunsOff
  | None :: _ => Garbage
  | Some b :: bs' => if b =? c then Found 0 else if b =? 0 then Absent else scan_S (find_chr c bs')
  end.

(** The bytes from a pointer to the end of its array. *)
Definition bytes_from {A} (p : ptr) (k : loc -> Z -> list mbyte -> M A) : M A :=
  with_byte p (fun l o =>
    bs ← load (list mbyte) (obj_ptr l);
    if in_range bs o 0 then k l o (drop (Z.to_nat o) bs) else fail OutOfBounds).

Definition strchr (p : ptr) (c : Z) : M ptr :=
  bytes_from p (fun l o bs =>
    match find_chr c bs with
    | Found i => mret (PAt l (o + Z.of_nat i))
    | Absent => mret PNull
    | RunsOff => fail OutOfBounds
    | Garbage => fail Indeterminate
    end).

(** The NUL-terminated string at the start of an array. *)
Fixpoint c_string (bs : list mbyte) : fault + list Z :=
  match bs with
  | [] => inl OutOfBounds
  | None :: _ => inl Indeterminate
  | Some b :: bs' => if b =? 0 then inr [] else match c_string bs' with
                                                | inl f => inl f
                                                | inr s => inr (b :: s)
                                                end
  end.

(** The argument of %s. *)
Definition get_cstr (p : ptr) : M (list Z) :=
  bytes_from p (fun _ _ bs =>
    match c_string bs with inl f => fail f | inr s => mret s end).

(** ** Numbers *)

Definition isdigit (c : Z) : bool := (48 <=? c) && (c <=? 57).
Definition isspace (c : Z) : bool := (c =? 32) || ((9 <=? c) && (c <=? 13)).

(** Digits at the front: their value, added to [acc], and how many there are;
    [None] when the array ends before a character that is not a digit. *)
Fixpoint scan_digits (acc : Z) (bs : list Z) : option (Z * nat) :=
  match bs with
  | [] => None
  | c :: bs' =>
      if isdigit c then
        match scan_digits (acc * 10 + (c - 48)) bs' with
        | Some (v, n) => Some (v, S n)
        | None => None
        end
      else Some (acc, 0%nat)
  end.

Fixpoint skip_space (bs : list Z) : option (nat * list Z) :=
  match bs with
  | [] => None
  | c :: bs' =>
      if isspace c then
        match skip_space bs' with Some (n, r) => Some (S n, r) | None => None end
      else Some (0%nat, bs)
  end.

Definition scan_sign (bs : list Z) : Z * nat * list Z :=
  match bs with
  | c :: bs' => if c =? 45 then (-1, 1%nat, bs') else if c =? 43 then (1, 1%nat, bs') else (1, 0%nat, bs)
  | [] => (1, 0%nat, bs)
  end.

(** The result of strtol: the value, the offset of [endptr] and whether errno is
    set to ERANGE. *)
Record strtol_result := StrtolResult { st_val : Z; st_end : Z; st_erange : bool }.

Definition clamp_long (v : Z) : Z * bool :=
  if LONG_MAX <? v then (LONG_MAX, true)
  else if v <? LONG_MIN then (LONG_MIN, true)
  else (v, false).

(** strtol(bs, &endptr, 10). *)
Definition strtol (bs : list Z) : option strtol_result :=
  match skip_space bs with
  | None => None
  | Some (k, bs1) =>
      let '(sg, k1, bs2) := scan_sign bs1 in
      match scan_digits 0 bs2 with
      | None => None
      | Some (_, 0%nat) => Some (StrtolResult 0 0 false)
      | Some (v, n) =>
          let '(r, e) := clamp_long (sg * v) in
          Some (StrtolResult r (Z.of_nat (k + k1 + n)) e)
      end
  end.

(** strtol on a local array, as the program calls it: errno is only written on
    overflow. *)
Definition c_strtol (tmp : list Z) : M (Z * ptr) :=
  match strtol tmp with
  | None => fail OutOfBounds
  | Some r =>
      g ← get_env;
      _ ← put_env (if st_erange r then set_errno ERANGE g else g);
      mret (st_val r, PStack (st_end r))
  end.

(** The decimal notation of a number, as %d prints it. *)
Fixpoint dec_digits (fuel : nat) (n : Z) : list Z :=
  match fuel with
  | O => []
  | S fuel => if n <? 10 then [48 + n] else dec_digits fuel (n / 10) ++ [48 + n mod 10]
  end.

Definition dec_nat (n : Z) : list Z := dec_digits (S (Z.to_nat (Z.log2 n))) n.

Definition dec (n : Z) : list Z := if n <? 0 then 45 :: dec_nat (- n) else dec_nat n.

(** ** Copying and comparing *)

(** strncpy(dst, src, n): the [n] bytes that end up in [dst]. *)
Fixpoint strncpy_bytes (n : nat) (src : list mbyte) : fault + list mbyte :=
  match n with
  | O => inr []
  | S n' =>
      match src with
      | [] => inl OutOfBounds
      | None :: _ => inl Indeterminate
      | Some b :: src' =>
          if b =? 0 then inr (replicate n (Some 0))
          else match strncpy_bytes n' src' with inl f => inl f | inr ds => inr (Some b :: ds) end
      end
  end.

Definition strncpy (src : ptr) (n : Z) : M (list mbyte) :=
  bytes_from src (fun _ _ bs =>
    match strncpy_bytes (Z.to_nat n) bs with inl f => fail f | inr ds => mret ds end).

(** strncmp(a, b, n). *)
Fixpoint strncmp (n : nat) (a b : list mbyte) : fault + Z :=
  match n with
  | O => inr 0
  | S n' =>
      match a, b with
      | Some x :: a', Some y :: b' =>
          if x =? y then if x =? 0 then inr 0 else strncmp n' a' b' else inr (x - y)
      | None :: _, _ | _, None :: _ => inl Indeterminate
      | _, _ => inl OutOfBounds
      end
  end.

(** A string literal in memory: its bytes and the NUL. *)
Definition lit (s : string) : list mbyte := Some <$> (str s ++ [0]).

(** 0 == strncmp(key, "s", n) *)
Definition strncmp_is (key : list mbyte) (s : string) (n : Z) : M bool :=
  match strncmp (Z.to_nat n) key (lit s) with
  | inl f => fail f
  | inr r => mret (r =? 0)
  end.

Arguments strtol : simpl never.
Arguments dec : simpl never.
Arguments strncpy_bytes : simpl never.
Arguments lit : simpl never.

(** ** Facts about the scanners *)

Section scans.
Implicit Types (bs ds : list Z) (c : Z).

Lemma find_chr_found c bs i :
  find_chr c (Some <$> bs) = Found i -> bs !! i = Some c.
Proof.
  revert i. induction bs as [|b bs IH]; intros i; [done|].
  cbn. destruct (b =? c) eqn:E1; [intros [= <-]; apply Z.eqb_eq in E1; by subst|].
  destruct (b =? 0); [done|]. destruct (find_chr c (Some <$> bs)) eqn:E; [|done..].
  intros [= <-]. by apply IH.
Qed.

Lemma find_chr_garbage c bs : find_chr c (Some <$> bs) ≠ Garbage.
Proof.
  induction bs as [|b bs IH]; [done|]. cbn.
  destruct (b =? c); [done|]. destruct (b =? 0); [done|].
  by destruct (find_chr c (Some <$> bs)).
Qed.

(** A string without [c] and NUL before the first [c]. *)
Lemma find_chr_app c bs ds :
  Forall (fun b => b ≠ c ∧ b ≠ 0) bs -> find_chr c (Some <$> (bs ++ c :: ds)) = Found (length bs).
Proof.
  induction 1 as [|b bs [Hb Hb0] _ IH]; cbn.
  - by rewrite Z.eqb_refl.
  - by rewrite (proj2 (Z.eqb_neq _ _) Hb) (proj2 (Z.eqb_neq _ _) Hb0) IH.
Qed.

Lemma find_chr_absent_c_string c bs :
  find_chr c (Some <$> bs) = Absent -> c_string (Some <$> bs) = inr (cut0 bs).
Proof.
  induction bs as [|b bs IH]; cbn; [done|].
  destruct (b =? c); [done|]. destruct (b =? 0); [done|].
  destruct (find_chr c (Some <$> bs)); [done| |done..]. intros _. by rewrite IH.
Qed.

Lemma slice_fmap bs o n : slice (Some <$> bs) o n = Some <$> slice bs o n.
Proof. by rewrite /slice fmap_take fmap_drop. Qed.

Lemma strtol_range bs r : strtol bs = Some r -> LONG_MIN <= st_val r <= LONG_MAX.
Proof.
  assert (Hc : ∀ v, LONG_MIN <= fst (clamp_long v) <= LONG_MAX).
  { intros v. rewrite /clamp_long /LONG_MIN /LONG_MAX.
    destruct (Z.ltb_spec (2 ^ 63 - 1) v); cbn; [lia|].
    destruct (Z.ltb_spec v (- 2 ^ 63)); cbn; lia. }
  rewrite /strtol. destruct (skip_space bs) as [[k bs1]|]; [|done].
  destruct (scan_sign bs1) as [[sg k1] bs2]. destruct (scan_digits 0 bs2) as [[v [|n]]|]; [|..|done].
  - intros [= <-]. rewrite /LONG_MIN /LONG_MAX /=. lia.
  - specialize (Hc (sg * v)). destruct (clamp_long (sg * v)). by intros [= <-].
Qed.

End scans.

Lemma wp_bytes_from {A} l o (bs : list mbyte) (k : loc -> Z -> list mbyte -> M A) g Q E :
  (o <= length bs)%nat ->
  l ↦ bs ∗ (l ↦ bs -∗ wpx (k l (Z.of_nat o) (drop o bs)) g Q E)
  ⊢ wpx (bytes_from (PAt l (Z.of_nat o)) k) g Q E.
Proof.
  intros Ho. iIntros "[Hl HQ]". rewrite /bytes_from /=. wpx_bind_wp.
  iApply (wp_load (T := list mbyte) with "[$Hl HQ]"). iIntros "Hl".
  rewrite /in_range !(proj2 (Z.leb_le _ _)) /=; [|lia..]. rewrite Nat2Z.id.
  by iApply "HQ".
Qed.

(** strchr in an initialised array. *)
Lemma wpx_strchr l o (bs : list Z) c g Q E :
  (o <= length bs)%nat ->
  (find_chr c (Some <$> drop o bs) = RunsOff -> ∀ f, E f) ->
  l ↦ (Some <$> bs) ∗
  (l ↦ (Some <$> bs) -∗
   match find_chr c (Some <$> drop o bs) with
   | Found i => Q (PAt l (Z.of_nat (o + i))) g
   | Absent => Q PNull g
   | _ => True
   end)
  ⊢ wpx (strchr (PAt l (Z.of_nat o)) c) g Q E.
Proof.
  intros Ho HE. iIntros "[Hl HQ]". rewrite /strchr.
  iApply (wp_bytes_from with "[$Hl HQ]"); [by rewrite length_fmap|]. iIntros "Hl".
  iSpecialize ("HQ" with "Hl"). rewrite -fmap_drop.
  destruct (find_chr c (Some <$> drop o bs)) as [i| | |] eqn:Hf.
  - rewrite -Nat2Z.inj_add. iApply wpx_wp. by iApply wp_ret.
  - iApply wpx_wp. by iApply wp_ret.
  - iApply wpx_fail; auto.
  - by apply find_chr_garbage in Hf.
Qed.
