(* ===== verification/Trace.v ===== *)
(** * src/bttrace.c: the trace facility

    TRACE, as the build defines it (-D_BTDEBUG), is [print_msg].  The message
    is formatted into a local array of 2000 bytes without a bound, so a message
    that does not fit overwrites the stack: that is the fault
    [StackOverflow]. *)

From iris.proofmode Require Import environments proofmode.
From S2P Require Import Prelude CTypes HProp CMem CWp CLib.
Set Warnings "-rewrite-rw".
Open Scope Z_scope.

Definition MSG_ERROR : Z := 1.
Definition MSG_INFO : Z := 2.
Definition MSG_DUMP : Z := 4.
Definition BTTRACELEVEL : Z := Z.lor (Z.lor MSG_ERROR MSG_INFO) MSG_DUMP.

Definition bt_inc_msglevel : M unit :=
  g ← get_env; put_env (set_msglevel (u32 (msglevel g + 1)) g).

Definition bt_set_msglevel (level : Z) : M unit :=
  g ← get_env; put_env (set_msglevel (u32 level) g).

Definition bt_get_msglevel : M Z := g ← get_env; mret (msglevel g).

(** printf and fprintf(stdout). *)
Definition put_out (s : list Z) : M unit := g ← get_env; put_env (add_out s g).

Definition TRACE_BUFFER : Z := 2000.

Definition trace_prefix (func : string) (line : Z) : list Z :=
  str "BT-Server: " ++ str func ++ str "(" ++ dec line ++ str ") ".

(** [body] renders the format and its arguments. *)
Definition print_msg (level : Z) (func : string) (line : Z) (body : M (list Z)) : M unit :=
  if Z.land level BTTRACELEVEL =? 0 then mret tt
  else
    let prefix := trace_prefix func line in
    msg ← body;
    let buffer := prefix ++ msg in
    if TRACE_BUFFER <? Z.of_nat (length buffer) + 1 then fail StackOverflow
    else
      g ← get_env;
      if Z.land level (msglevel g) =? 0 then mret tt
      else put_out (cut0 buffer).

Definition TRACE_ERROR := print_msg MSG_ERROR.
Definition TRACE_INFO := print_msg MSG_INFO.
Definition TRACE_DUMP := print_msg MSG_DUMP.

(** Whether a message of [n] bytes after the prefix fits. *)
Definition trace_fits (func : string) (line : Z) (n : Z) : bool :=
  Z.of_nat (length (trace_prefix func line)) + n + 1 <=? TRACE_BUFFER.

Arguments trace_prefix : simpl never.
Arguments trace_fits : simpl never.
Arguments print_msg : simpl never.

(** Globals that differ in what was written to stdout only. *)
Definition quiet (g g' : globals) : Prop :=
  errno g' = errno g ∧ oom g' = oom g ∧ slack g' = slack g ∧ msglevel g' = msglevel g
  ∧ replies g' = replies g ∧ syslog g' = syslog g.

#[export] Instance quiet_preorder : PreOrder quiet.
Proof.
  split.
  - intros g. by repeat split.
  - intros g1 g2 g3 (?&?&?&?&?&?) (?&?&?&?&?&?). repeat split; by etrans.
Qed.

Lemma quiet_add_out g s : quiet g (add_out s g).
Proof. by repeat split. Qed.

(** A trace call with a message that fits writes to stdout, nothing else. *)
Lemma wp_print_msg level func line msg g Q :
  trace_fits func line (Z.of_nat (length msg)) = true ->
  (∀ g', ⌜⌜quiet g g'⌝⌝ -∗ Q tt g') ⊢ wp (print_msg level func line (mret msg)) g Q.
Proof.
  intros Hfit. iIntros "HQ". rewrite /print_msg. case_match.
  { iApply wp_ret. by iApply "HQ". }
  iApply wp_bind. iApply wp_ret. rewrite (proj2 (Z.ltb_ge _ _)); last first.
  { apply Z.leb_le in Hfit. rewrite length_app. lia. }
  iApply wp_bind. iApply wp_get_env. case_match.
  { iApply wp_ret. by iApply "HQ". }
  iApply wp_bind. iApply wp_get_env. iApply wp_put_env. iApply "HQ".
  iPureIntro. apply quiet_add_out.
Qed.

(** The same for a message that is computed, and may be too long. *)
Lemma wpx_print_msg level func line body g Q E :
  (Z.land level BTTRACELEVEL =? 0) = false ->
  wpx body g (fun msg g1 =>
    if trace_fits func line (Z.of_nat (length msg))
    then ∀ g', ⌜⌜quiet g1 g'⌝⌝ -∗ Q tt g' else ⌜E StackOverflow⌝) E
  ⊢ wpx (print_msg level func line body) g Q E.
Proof.
  intros Hl. iIntros "H". rewrite /print_msg Hl. iApply wpx_bind.
  iApply (wpx_wand with "H"). iIntros (msg g1) "H". rewrite /trace_fits length_app Nat2Z.inj_add.
  destruct (Z.leb_spec (Z.of_nat (length (trace_prefix func line)) + Z.of_nat (length msg) + 1) TRACE_BUFFER).
  - rewrite (proj2 (Z.ltb_ge _ _)) //. rewrite /put_out. wp_step.
    case_match; wp_steps; iApply "H"; done.
  - rewrite (proj2 (Z.ltb_lt _ _)) //. iStopProof.
    apply bi.pure_elim'=> HE. by apply wpx_fail.
Qed.
