(* ===== verification/DList.v ===== *)
(** * include/list.h: circular doubly linked lists

    The list primitives, one definition each, on the nodes of memory; the
    iteration macros as loops with a bound.  [ring xs] is the assertion that
    the nodes of the objects [xs] form a cycle in that order; the list with
    head [h] and entries [xs] is [ring (h :: xs)].  Since a ring can be rotated
    ([ring_rotate]), a primitive applied to any node of the list is specified by
    one lemma. *)

From iris.proofmode Require Import environments proofmode.
From S2P Require Import Prelude CTypes HProp CMem CWp.
Set Warnings "-rewrite-rw".
Open Scope Z_scope.

(** ** The primitives *)

Definition get_next (p : ptr) : M ptr := n ← load_node p; mret (next n).
Definition get_prev (p : ptr) : M ptr := n ← load_node p; mret (prev n).
Definition set_next (p v : ptr) : M unit :=
  n ← load_node p; store_node p (ListHead v (prev n)).
Definition set_prev (p v : ptr) : M unit :=
  n ← load_node p; store_node p (ListHead (next n) v).

Definition INIT_LIST_HEAD (list : ptr) : M unit :=
  _ ← set_next list list;
  set_prev list list.

Definition __list_add (new prev next : ptr) : M unit :=
  _ ← set_prev next new;
  _ ← set_next new next;
  _ ← set_prev new prev;
  set_next prev new.

Definition list_add (new head : ptr) : M unit :=
  n ← get_next head;
  __list_add new head n.

Definition list_add_tail (new head : ptr) : M unit :=
  p ← get_prev head;
  __list_add new p head.

Definition __list_del (prev next : ptr) : M unit :=
  _ ← set_prev next prev;
  set_next prev next.

Definition __list_del_entry (entry : ptr) : M unit :=
  p ← get_prev entry;
  n ← get_next entry;
  __list_del p n.

Definition list_del (entry : ptr) : M unit :=
  p ← get_prev entry;
  n ← get_next entry;
  _ ← __list_del p n;
  _ ← set_next entry LIST_POISON1;
  set_prev entry LIST_POISON2.

Definition list_replace (old new : ptr) : M unit :=
  n ← get_next old;
  _ ← set_next new n;
  n ← get_next new;
  _ ← set_prev n new;
  p ← get_prev old;
  _ ← set_prev new p;
  p ← get_prev new;
  set_next p new.

Definition list_replace_init (old new : ptr) : M unit :=
  _ ← list_replace old new;
  INIT_LIST_HEAD old.

Definition list_del_init (entry : ptr) : M unit :=
  _ ← __list_del_entry entry;
  INIT_LIST_HEAD entry.

Definition list_move (list head : ptr) : M unit :=
  _ ← __list_del_entry list;
  list_add list head.

Definition list_move_tail (list head : ptr) : M unit :=
  _ ← __list_del_entry list;
  list_add_tail list head.

Definition list_is_last (list head : ptr) : M bool :=
  n ← get_next list;
  mret (bool_decide (n = head)).

Definition list_empty (head : ptr) : M bool :=
  n ← get_next head;
  mret (bool_decide (n = head)).

Definition list_rotate_left (head : ptr) : M unit :=
  e ← list_empty head;
  if negb e then
    first ← get_next head;
    list_move_tail first head
  else mret tt.

Definition list_is_singular (head : ptr) : M bool :=
  e ← list_empty head;
  if negb e then
    n ← get_next head;
    p ← get_prev head;
    mret (bool_decide (n = p))
  else mret false.

Definition __list_cut_position (list head entry : ptr) : M unit :=
  new_first ← get_next entry;
  n ← get_next head;
  _ ← set_next list n;
  n ← get_next list;
  _ ← set_prev n list;
  _ ← set_prev list entry;
  _ ← set_next entry list;
  _ ← set_next head new_first;
  set_prev new_first head.

Definition list_cut_position (list head entry : ptr) : M unit :=
  e ← list_empty head;
  if (e : bool) then mret tt
  else
    s ← list_is_singular head;
    n ← get_next head;
    if s && (negb (bool_decide (n = entry)) && negb (bool_decide (head = entry)))
    then mret tt
    else if bool_decide (entry = head) then INIT_LIST_HEAD list
    else __list_cut_position list head entry.

Definition __list_splice (list prev next : ptr) : M unit :=
  first ← get_next list;
  last ← get_prev list;
  _ ← set_prev first prev;
  _ ← set_next prev first;
  _ ← set_next last next;
  set_prev next last.

Definition list_splice (list head : ptr) : M unit :=
  e ← list_empty list;
  if negb e then
    n ← get_next head;
    __list_splice list head n
  else mret tt.

Definition list_splice_tail (list head : ptr) : M unit :=
  e ← list_empty list;
  if negb e then
    p ← get_prev head;
    __list_splice list p head
  else mret tt.

Definition list_splice_init (list head : ptr) : M unit :=
  e ← list_empty list;
  if negb e then
    n ← get_next head;
    _ ← __list_splice list head n;
    INIT_LIST_HEAD list
  else mret tt.

Definition list_splice_tail_init (list head : ptr) : M unit :=
  e ← list_empty list;
  if negb e then
    p ← get_prev head;
    _ ← __list_splice list p head;
    INIT_LIST_HEAD list
  else mret tt.

(** ** Iteration

    The cursor of the entry macros is the address of the object, which is also
    that of its node here.  A body returns [Some r] to leave the enclosing
    function with [r], [None] to go on; the loop returns [None] when the cursor
    has come back to the head. *)

Section loops.
Context {R : Type}.

Fixpoint list_for_each_from (fuel : nat) (pos head : ptr) (body : ptr -> M (option R)) :
    M (option R) :=
  match fuel with
  | O => no_fuel
  | S fuel =>
      if bool_decide (pos = head) then mret None
      else
        r ← body pos;
        match r with
        | Some r => mret (Some r)
        | None =>
            n ← get_next pos;
            list_for_each_from fuel n head body
        end
  end.

Definition list_for_each_entry (fuel : nat) (head : ptr) (body : ptr -> M (option R)) :
    M (option R) :=
  pos ← get_next head;
  list_for_each_from fuel pos head body.

Fixpoint list_for_each_safe_from (fuel : nat) (pos n head : ptr) (body : ptr -> M (option R)) :
    M (option R) :=
  match fuel with
  | O => no_fuel
  | S fuel =>
      if bool_decide (pos = head) then mret None
      else
        r ← body pos;
        match r with
        | Some r => mret (Some r)
        | None =>
            n' ← get_next n;
            list_for_each_safe_from fuel n n' head body
        end
  end.

Definition list_for_each_entry_safe (fuel : nat) (head : ptr) (body : ptr -> M (option R)) :
    M (option R) :=
  pos ← get_next head;
  n ← get_next pos;
  list_for_each_safe_from fuel pos n head body.

End loops.

(** ** Rules for the links *)

Section links.
Implicit Types (l : loc) (g : globals).

Lemma wp_get_next l n p g Q :
  l ↦ₙ (n, p) ∗ (l ↦ₙ (n, p) -∗ Q n g) ⊢ wp (get_next (obj_ptr l)) g Q.
Proof.
  iIntros "[Hl HQ]". iApply wp_bind. iApply (wp_load_node with "[$Hl HQ]").
  iIntros "Hl". iApply wp_ret. by iApply "HQ".
Qed.

Lemma wp_get_prev l n p g Q :
  l ↦ₙ (n, p) ∗ (l ↦ₙ (n, p) -∗ Q p g) ⊢ wp (get_prev (obj_ptr l)) g Q.
Proof.
  iIntros "[Hl HQ]". iApply wp_bind. iApply (wp_load_node with "[$Hl HQ]").
  iIntros "Hl". iApply wp_ret. by iApply "HQ".
Qed.

Lemma wp_set_next l n p v g Q :
  l ↦ₙ (n, p) ∗ (l ↦ₙ (v, p) -∗ Q tt g) ⊢ wp (set_next (obj_ptr l) v) g Q.
Proof.
  iIntros "[Hl HQ]". iApply wp_bind. iApply (wp_load_node with "[$Hl HQ]").
  iIntros "Hl". iApply (wp_store_node with "[$Hl $HQ]").
Qed.

Lemma wp_set_prev l n p v g Q :
  l ↦ₙ (n, p) ∗ (l ↦ₙ (n, v) -∗ Q tt g) ⊢ wp (set_prev (obj_ptr l) v) g Q.
Proof.
  iIntros "[Hl HQ]". iApply wp_bind. iApply (wp_load_node with "[$Hl HQ]").
  iIntros "Hl". iApply (wp_store_node with "[$Hl $HQ]").
Qed.

End links.

Ltac wp_leaf_more ::=
  lazymatch goal with
  | |- envs_entails _ (wp (get_next (obj_ptr ?l)) _ _) => wp_select (pt_node l _ _) with wp_get_next
  | |- envs_entails _ (wp (get_prev (obj_ptr ?l)) _ _) => wp_select (pt_node l _ _) with wp_get_prev
  | |- envs_entails _ (wp (set_next (obj_ptr ?l) _) _ _) => wp_select (pt_node l _ _) with wp_set_next
  | |- envs_entails _ (wp (set_prev (obj_ptr ?l) _) _ _) => wp_select (pt_node l _ _) with wp_set_prev
  end.

(** ** Rings *)

(** The nodes [xs] in a row, entered from [p] and leaving to [q]. *)
Fixpoint chain (p : loc) (xs : list loc) (q : loc) : hProp :=
  match xs with
  | [] => emp
  | x :: xs' => x ↦ₙ (obj_ptr (hd q xs'), obj_ptr p) ∗ chain x xs' q
  end%I.

Definition ring (xs : list loc) : hProp :=
  match xs with
  | [] => emp
  | x :: xs' => chain (List.last xs' x) xs x
  end%I.

Arguments ring : simpl never.

(** The list with head [h] and entries [xs]. *)
Definition dlist (h : loc) (xs : list loc) : hProp := ring (h :: xs).

Lemma last_app_cons {A} (xs ys : list A) (y d : A) :
  List.last (xs ++ y :: ys) d = List.last ys y.
Proof.
  induction xs as [|x xs IH]; cbn.
  - revert y d. induction ys as [|z ys IH]; intros; [done|]. cbn. destruct ys; [done|apply IH].
  - destruct xs; cbn in *; apply IH.
Qed.

Lemma last_cons {A} (xs : list A) (x d : A) : List.last (x :: xs) d = List.last xs x.
Proof. apply (last_app_cons [] xs). Qed.

Lemma chain_app p xs ys q :
  chain p (xs ++ ys) q ⊣⊢ chain p xs (hd q ys) ∗ chain (List.last xs p) ys q.
Proof.
  revert p. induction xs as [|x xs IH]; intros p.
  - cbn. by rewrite left_id.
  - cbn [app chain]. rewrite IH last_cons -assoc. f_equiv.
    destruct xs; done.
Qed.

Lemma ring_rotate xs ys : ring (xs ++ ys) ⊣⊢ ring (ys ++ xs).
Proof.
  destruct xs as [|x xs], ys as [|y ys]; rewrite ?app_nil_r //.
  change ((x :: xs) ++ y :: ys) with (x :: (xs ++ y :: ys)).
  change ((y :: ys) ++ x :: xs) with (y :: (ys ++ x :: xs)).
  rewrite /ring !last_app_cons.
  change (x :: xs ++ y :: ys) with ((x :: xs) ++ y :: ys).
  change (y :: ys ++ x :: xs) with ((y :: ys) ++ x :: xs).
  rewrite !chain_app !last_cons /= comm //.
Qed.

Lemma ring_rotate_cons xs y ys : ring (xs ++ y :: ys) ⊣⊢ ring (y :: ys ++ xs).
Proof. apply ring_rotate. Qed.

(** ** The primitives on rings *)

Section specs.
Implicit Types (x y h : loc) (xs ys : list loc) (g : globals).

Lemma hd_app_hd {A} (d : A) (us vs : list A) : hd d (us ++ vs) = hd (hd d vs) us.
Proof. by destruct us. Qed.

Lemma ring_nil : ring [] ⊣⊢ emp.
Proof. done. Qed.

Lemma ring_cons x xs :
  ring (x :: xs) ⊣⊢
  x ↦ₙ (obj_ptr (hd x xs), obj_ptr (List.last xs x)) ∗ chain x xs x.
Proof. done. Qed.

Lemma ring_cons_snoc x xs y :
  ring (x :: xs ++ [y]) ⊣⊢
  x ↦ₙ (obj_ptr (hd y xs), obj_ptr y) ∗ chain x xs y ∗
  y ↦ₙ (obj_ptr x, obj_ptr (List.last xs x)).
Proof. rewrite ring_cons last_app_cons hd_app_hd chain_app /= right_id //. Qed.

Lemma wp_INIT_LIST_HEAD l n p g Q :
  l ↦ₙ (n, p) ∗ (ring [l] -∗ Q tt g) ⊢ wp (INIT_LIST_HEAD (obj_ptr l)) g Q.
Proof.
  iIntros "[Hl HQ]". rewrite /INIT_LIST_HEAD. wp_steps.
  iApply "HQ". iFrame.
Qed.

(** [new] goes in just before [x]. *)
Lemma wp_list_add_tail x xs new n p g Q :
  ring (x :: xs) ∗ new ↦ₙ (n, p) ∗ (ring (x :: xs ++ [new]) -∗ Q tt g)
  ⊢ wp (list_add_tail (obj_ptr new) (obj_ptr x)) g Q.
Proof.
  iIntros "(Hr & Hnew & HQ)". rewrite /list_add_tail /__list_add ring_cons_snoc.
  destruct xs as [|y ys _] using rev_ind.
  - rewrite ring_cons /=. iDestruct "Hr" as "[Hx _]". wp_steps.
    iApply "HQ". iFrame.
  - rewrite ring_cons_snoc chain_app hd_app_hd last_app_cons /=.
    iDestruct "Hr" as "(Hx & Hc & Hy)". wp_steps.
    iApply "HQ". iFrame.
Qed.

(** [new] goes in just after [x]. *)
Lemma wp_list_add x xs new n p g Q :
  ring (x :: xs) ∗ new ↦ₙ (n, p) ∗ (ring (x :: new :: xs) -∗ Q tt g)
  ⊢ wp (list_add (obj_ptr new) (obj_ptr x)) g Q.
Proof.
  iIntros "(Hr & Hnew & HQ)". rewrite /list_add /__list_add.
  destruct xs as [|y ys]; rewrite !ring_cons !last_cons /=.
  - iDestruct "Hr" as "[Hx _]". wp_steps. iApply "HQ". iFrame.
  - iDestruct "Hr" as "(Hx & Hy & Hc)". wp_steps. iApply "HQ". iFrame.
Qed.

(** Unlinking [x] closes the ring behind it. *)
Lemma wp___list_del x xs g Q :
  ring (x :: xs) ∗ (∀ n p, ring xs ∗ x ↦ₙ (n, p) -∗ Q tt g)
  ⊢ wp (__list_del (obj_ptr (List.last xs x)) (obj_ptr (hd x xs))) g Q.
Proof.
  iIntros "(Hr & HQ)". rewrite /__list_del.
  destruct xs as [|y ys]; [|destruct ys as [|z zs _] using rev_ind].
  - rewrite ring_cons /=. iDestruct "Hr" as "[Hx _]". wp_steps.
    iApply "HQ". rewrite ring_nil. iFrame.
  - rewrite !ring_cons /=. iDestruct "Hr" as "(Hx & Hy & _)". wp_steps.
    iApply "HQ". rewrite ring_cons /=. iFrame.
  - rewrite last_cons last_app_cons app_comm_cons ring_cons_snoc last_cons /=.
    iDestruct "Hr" as "(Hx & (Hy & Hc) & Hz)". wp_steps.
    iApply "HQ". rewrite ring_cons_snoc. iFrame.
Qed.

Lemma wp___list_del_entry x xs g Q :
  ring (x :: xs) ∗ (∀ n p, ring xs ∗ x ↦ₙ (n, p) -∗ Q tt g)
  ⊢ wp (__list_del_entry (obj_ptr x)) g Q.
Proof.
  iIntros "(Hr & HQ)". rewrite /__list_del_entry ring_cons. iDestruct "Hr" as "[Hx Hc]".
  wp_steps. iApply (wp___list_del x xs). iFrame.
Qed.

Lemma wp_list_del x xs g Q :
  ring (x :: xs) ∗ (ring xs ∗ x ↦ₙ (LIST_POISON1, LIST_POISON2) -∗ Q tt g)
  ⊢ wp (list_del (obj_ptr x)) g Q.
Proof.
  iIntros "(Hr & HQ)". rewrite /list_del ring_cons. iDestruct "Hr" as "[Hx Hc]".
  wp_steps. iApply wp_bind. iApply (wp___list_del x xs). iFrame. iIntros (n p) "[Hr Hx]".
  wp_steps. iApply "HQ". iFrame.
Qed.

Lemma wp_list_del_init x xs g Q :
  ring (x :: xs) ∗ (ring xs ∗ ring [x] -∗ Q tt g) ⊢ wp (list_del_init (obj_ptr x)) g Q.
Proof.
  iIntros "(Hr & HQ)". rewrite /list_del_init. iApply wp_bind.
  iApply (wp___list_del_entry x xs). iFrame. iIntros (n p) "[Hr Hx]".
  iApply wp_INIT_LIST_HEAD. iFrame. iIntros "Hx". iApply "HQ". iFrame.
Qed.

(** Moving [x] within or between lists. *)
Lemma wp_list_move x xs y ys g Q :
  ring (x :: xs) ∗ (ring xs -∗ ring (y :: ys) ∗ (ring (y :: x :: ys) -∗ Q tt g))
  ⊢ wp (list_move (obj_ptr x) (obj_ptr y)) g Q.
Proof.
  iIntros "(Hr & HQ)". rewrite /list_move. iApply wp_bind.
  iApply (wp___list_del_entry x xs). iFrame. iIntros (n p) "[Hr Hx]".
  iDestruct ("HQ" with "Hr") as "[Hr HQ]".
  iApply (wp_list_add y ys x n p). iFrame.
Qed.

Lemma wp_list_move_tail x xs y ys g Q :
  ring (x :: xs) ∗ (ring xs -∗ ring (y :: ys) ∗ (ring (y :: ys ++ [x]) -∗ Q tt g))
  ⊢ wp (list_move_tail (obj_ptr x) (obj_ptr y)) g Q.
Proof.
  iIntros "(Hr & HQ)". rewrite /list_move_tail. iApply wp_bind.
  iApply (wp___list_del_entry x xs). iFrame. iIntros (n p) "[Hr Hx]".
  iDestruct ("HQ" with "Hr") as "[Hr HQ]".
  iApply (wp_list_add_tail y ys x n p). iFrame.
Qed.

(** The node of any entry can be taken out of the ring and put back. *)
Lemma ring_acc xs y ys :
  ring (xs ++ y :: ys) ⊢ ∃ p,
    y ↦ₙ (obj_ptr (hd (hd y xs) ys), obj_ptr p) ∗
    (y ↦ₙ (obj_ptr (hd (hd y xs) ys), obj_ptr p) -∗ ring (xs ++ y :: ys)).
Proof.
  iIntros "Hr". iEval (rewrite ring_rotate_cons ring_cons hd_app_hd) in "Hr".
  iDestruct "Hr" as "[Hy Hc]". iExists _. iFrame "Hy". iIntros "Hy".
  rewrite ring_rotate_cons ring_cons hd_app_hd. iFrame.
Qed.

Lemma node_excl l n p n' p' : l ↦ₙ (n, p) ∗ l ↦ₙ (n', p') ⊢ False.
Proof. apply pt_excl. Qed.

(** The entries of a list are distinct objects. *)
Lemma ring_NoDup xs : ring xs ⊢ ⌜NoDup xs⌝.
Proof.
  destruct (decide (NoDup xs)) as [|Hdup]; [by iIntros "_"; iPureIntro|].
  assert (∃ x us vs ws, xs = us ++ x :: vs ++ x :: ws) as (x & us & vs & ws & ->).
  { clear -Hdup. induction xs as [|x xs IH]; [by destruct Hdup; constructor|].
    destruct (decide (x ∈ xs)) as [Hin|Hnin].
    - apply list_elem_of_split in Hin as (vs & ws & ->). by exists x, [], vs, ws.
    - destruct IH as (y & us & vs & ws & ->); [|by exists y, (x :: us), vs, ws].
      intros Hnd. apply Hdup. by constructor. }
  rewrite ring_rotate_cons ring_cons -app_assoc chain_app /=.
  iIntros "(H1 & _ & H2 & _)". iDestruct (node_excl with "[$H1 $H2]") as %[].
Qed.

Lemma wp_list_empty h xs g Q :
  dlist h xs ∗ (dlist h xs -∗ Q (bool_decide (xs = [])) g)
  ⊢ wp (list_empty (obj_ptr h)) g Q.
Proof.
  iIntros "[Hr HQ]". rewrite /dlist. iDestruct (ring_NoDup with "Hr") as %Hnd.
  iDestruct (ring_acc [] h xs with "Hr") as (p) "[Hh Hclose]". cbn [hd app].
  rewrite /list_empty. wp_steps.
  replace (bool_decide (obj_ptr (hd h xs) = obj_ptr h)) with (bool_decide (xs = [])).
  - iApply "HQ". by iApply "Hclose".
  - destruct xs as [|x xs]; [by rewrite !bool_decide_true|].
    rewrite !bool_decide_false //. intros [= ->]. by apply NoDup_cons in Hnd as [[] _]; left.
Qed.

(** The first entry becomes the last. *)
Lemma wp_list_rotate_left h xs g Q :
  dlist h xs ∗ (dlist h (tail xs ++ take 1 xs) -∗ Q tt g)
  ⊢ wp (list_rotate_left (obj_ptr h)) g Q.
Proof.
  iIntros "[Hr HQ]". rewrite /list_rotate_left. iApply wp_bind.
  iApply wp_list_empty. iFrame. iIntros "Hr". destruct xs as [|x xs].
  - rewrite bool_decide_true //=. iApply wp_ret. by iApply "HQ".
  - rewrite bool_decide_false //=. rewrite /dlist.
    iDestruct (ring_acc [] h (x :: xs) with "Hr") as (p) "[Hh Hclose]". cbn [hd app].
    wp_steps. iDestruct ("Hclose" with "Hh") as "Hr".
    iApply (wp_list_move_tail x (xs ++ [h]) h xs).
    iSplitL "Hr".
    { rewrite -(app_nil_l (h :: _)) (ring_rotate [h]) //. }
    iIntros "Hr". rewrite (ring_rotate xs [h]). iFrame.
Qed.

End specs.

(** ** Entries at any position *)

Section positions.
Implicit Types (h x : loc) (us vs : list loc) (g : globals).

(** Inserting before the node at a position; the head stands for the end. *)
Lemma wp_list_add_before h us vs new n p g Q :
  dlist h (us ++ vs) ∗ new ↦ₙ (n, p) ∗ (dlist h (us ++ new :: vs) -∗ Q tt g)
  ⊢ wp (list_add_tail (obj_ptr new) (obj_ptr (hd h vs))) g Q.
Proof.
  rewrite /dlist. iIntros "(Hr & Hn & HQ)". destruct vs as [|v vs]; cbn [hd].
  - rewrite app_nil_r. iApply wp_list_add_tail. iFrame.
  - rewrite (ring_rotate (h :: us) (v :: vs)) -app_comm_cons. iApply wp_list_add_tail. iFrame "Hr Hn".
    iIntros "Hr". iApply "HQ". rewrite (app_comm_cons us (new :: v :: vs)) (cons_middle new (h :: us)).
    rewrite app_assoc (ring_rotate ((h :: us) ++ [new])) -app_comm_cons -app_assoc. iFrame.
Qed.

Lemma wp_list_del_at h us x vs g Q :
  dlist h (us ++ x :: vs) ∗ (dlist h (us ++ vs) -∗ x ↦ₙ (LIST_POISON1, LIST_POISON2) -∗ Q tt g)
  ⊢ wp (list_del (obj_ptr x)) g Q.
Proof.
  rewrite /dlist. iIntros "(Hr & HQ)". rewrite (ring_rotate (h :: us) (x :: vs)) -app_comm_cons.
  iApply wp_list_del. iFrame "Hr". iIntros "[Hr Hx]". rewrite (ring_rotate vs (h :: us)).
  iApply ("HQ" with "Hr Hx").
Qed.

(** The node after an entry, and after the head. *)
Lemma wp_get_next_at h us x vs g Q :
  dlist h (us ++ x :: vs) ∗ (dlist h (us ++ x :: vs) -∗ Q (obj_ptr (hd h vs)) g)
  ⊢ wp (get_next (obj_ptr x)) g Q.
Proof.
  rewrite /dlist. iIntros "[Hr HQ]". iEval (rewrite (app_comm_cons us)) in "Hr".
  iDestruct (ring_acc (h :: us) x vs with "Hr") as (p) "[Hx Hclose]". cbn [hd].
  wp_steps. iApply "HQ". by iApply "Hclose".
Qed.

Lemma wp_get_next_head h vs g Q :
  dlist h vs ∗ (dlist h vs -∗ Q (obj_ptr (hd h vs)) g) ⊢ wp (get_next (obj_ptr h)) g Q.
Proof.
  rewrite /dlist. iIntros "[Hr HQ]". iDestruct (ring_acc [] h vs with "Hr") as (p) "[Hh Hclose]". cbn [hd app].
  wp_steps. iApply "HQ". by iApply "Hclose".
Qed.

Lemma dlist_NoDup h xs : dlist h xs ⊢ ⌜NoDup (h :: xs)⌝.
Proof. apply ring_NoDup. Qed.

End positions.


(** ** Loops over a list *)

Section loop_rules.
Context {R : Type}.
Implicit Types (h x : loc) (xs ys : list loc) (g : globals) (body : ptr -> M (option R)).

(** A body that leaves the links alone visits every entry once, in order.
    [I done g] is the loop invariant, [Post] what holds on an early return. *)
Lemma wp_list_for_each_entry fuel h xs body (I : list loc -> globals -> hProp) Post g :
  (length xs < fuel)%nat ->
  (∀ us x vs g, xs = us ++ x :: vs ->
     I us g ⊢ wp (body (obj_ptr x)) g (fun r g' =>
       match r with None => I (us ++ [x]) g' | Some r => Post r g' end)) ->
  dlist h xs ∗ I [] g
  ⊢ wp (list_for_each_entry fuel (obj_ptr h) body) g (fun r g' =>
      dlist h xs ∗ match r with None => I xs g' | Some r => Post r g' end).
Proof.
  intros Hfuel Hbody. iIntros "[Hr HI]". rewrite /list_for_each_entry /dlist.
  iDestruct (ring_NoDup with "Hr") as %Hnd.
  iDestruct (ring_acc [] h xs with "Hr") as (p) "[Hh Hclose]". cbn [hd app].
  wp_steps. iDestruct ("Hclose" with "Hh") as "Hr". clear p.
  assert (Hgen : ∀ ys us g, xs = us ++ ys -> (length ys < fuel)%nat ->
    ring (h :: xs) ∗ I us g ⊢ wp (list_for_each_from fuel (obj_ptr (hd h ys)) (obj_ptr h) body) g
      (fun r g' => ring (h :: xs) ∗ match r with None => I xs g' | Some r => Post r g' end)).
  { clear g Hfuel. induction fuel as [|fuel IH]; intros ys us g Hxs Hlen; [lia|].
    iIntros "[Hr HI]". cbn [list_for_each_from]. destruct ys as [|y ys]; cbn [hd].
    - rewrite bool_decide_true //. iApply wp_ret. rewrite Hxs app_nil_r. iFrame.
    - rewrite bool_decide_false; last first.
      { intros [= ->]. apply NoDup_cons in Hnd as [Hnin _]. apply Hnin.
        rewrite Hxs. set_solver. }
      iApply wp_bind. iDestruct (Hbody us y ys g Hxs with "HI") as "Hwp".
      iApply (wp_wand with "Hwp"). iIntros ([r|] g') "HI".
      { iApply wp_ret. iFrame. }
      iEval (rewrite Hxs (app_comm_cons us)) in "Hr".
      iDestruct (ring_acc (h :: us) y ys with "Hr") as (p) "[Hy Hclose]".
      cbn [hd]. wp_steps. iDestruct ("Hclose" with "Hy") as "Hr".
      iEval (rewrite -app_comm_cons -Hxs) in "Hr". iApply IH; [|cbn in Hlen; lia|iFrame].
      by rewrite -app_assoc. }
  iApply (Hgen xs [] g eq_refl Hfuel). iFrame.
Qed.

(** The same for the loop that reads the next entry ahead. *)
Lemma wp_list_for_each_entry_safe fuel h xs body (I : list loc -> globals -> hProp) Post g :
  (length xs < fuel)%nat ->
  (∀ us x vs g, xs = us ++ x :: vs ->
     I us g ⊢ wp (body (obj_ptr x)) g (fun r g' =>
       match r with None => I (us ++ [x]) g' | Some r => Post r g' end)) ->
  dlist h xs ∗ I [] g
  ⊢ wp (list_for_each_entry_safe fuel (obj_ptr h) body) g (fun r g' =>
      dlist h xs ∗ match r with None => I xs g' | Some r => Post r g' end).
Proof.
  intros Hfuel Hbody. iIntros "[Hr HI]". rewrite /list_for_each_entry_safe /dlist.
  iDestruct (ring_NoDup with "Hr") as %Hnd.
  set (after ys := match ys with [] => hd h xs | _ :: ys' => hd h ys' end).
  assert (Hnext : ∀ us ys g Q, xs = us ++ ys ->
    ring (h :: xs) ∗ (ring (h :: xs) -∗ Q (obj_ptr (after ys)) g)
    ⊢ wp (get_next (obj_ptr (hd h ys))) g Q).
  { clear g. intros us ys g Q Hxs. iIntros "[Hr HQ]". destruct ys as [|y ys]; cbn [hd after].
    - iDestruct (ring_acc [] h xs with "Hr") as (p) "[Hh Hclose]". cbn [hd app].
      wp_steps. iApply "HQ". by iApply "Hclose".
    - iEval (rewrite Hxs (app_comm_cons us)) in "Hr".
      iDestruct (ring_acc (h :: us) y ys with "Hr") as (p) "[Hy Hclose]". cbn [hd].
      wp_steps. iDestruct ("Hclose" with "Hy") as "Hr".
      iEval (rewrite -app_comm_cons -Hxs) in "Hr". by iApply "HQ". }
  assert (Hgen : ∀ ys us g, xs = us ++ ys -> (length ys < fuel)%nat ->
    ring (h :: xs) ∗ I us g
    ⊢ wp (list_for_each_safe_from fuel (obj_ptr (hd h ys)) (obj_ptr (after ys)) (obj_ptr h) body) g
      (fun r g' => ring (h :: xs) ∗ match r with None => I xs g' | Some r => Post r g' end)).
  { clear g Hfuel. induction fuel as [|fuel IH]; intros ys us g Hxs Hlen; [lia|].
    iIntros "[Hr HI]". cbn [list_for_each_safe_from]. destruct ys as [|y ys]; cbn [hd after].
    - rewrite bool_decide_true //. iApply wp_ret. rewrite Hxs app_nil_r. iFrame.
    - rewrite bool_decide_false; last first.
      { intros [= ->]. apply NoDup_cons in Hnd as [Hnin _]. apply Hnin.
        rewrite Hxs. set_solver. }
      iApply wp_bind. iDestruct (Hbody us y ys g Hxs with "HI") as "Hwp".
      iApply (wp_wand with "Hwp"). iIntros ([r|] g') "HI".
      { iApply wp_ret. iFrame. }
      iApply wp_bind. iApply (Hnext (us ++ [y]) ys); [by rewrite -app_assoc|].
      iFrame. iIntros "Hr". iApply (IH ys (us ++ [y])); [|cbn in Hlen; lia|iFrame].
      by rewrite -app_assoc. }
  iApply wp_bind. iDestruct (ring_acc [] h xs with "Hr") as (p) "[Hh Hclose]". cbn [hd app].
  wp_step. iDestruct ("Hclose" with "Hh") as "Hr".
  iApply wp_bind. iApply (Hnext [] xs); [done|]. iFrame. iIntros "Hr".
  iApply (Hgen xs []); [done|done|]. iFrame.
Qed.

(** A loop whose body gives up the entry it visits (frees it): only the head is
    left.  [I ys g] is the invariant with [ys] still to come. *)
Lemma wp_list_for_each_entry_consume fuel h xs body (I : list loc -> globals -> hProp) g :
  (length xs < fuel)%nat ->
  (∀ x ys g n p, I (x :: ys) g ∗ x ↦ₙ (n, p)
     ⊢ wp (body (obj_ptr x)) g (fun r g' => ⌜⌜r = None⌝⌝ ∗ I ys g')) ->
  dlist h xs ∗ I xs g
  ⊢ wp (list_for_each_entry_safe fuel (obj_ptr h) body) g (fun r g' =>
      ⌜⌜r = None⌝⌝ ∗ (∃ n p, h ↦ₙ (n, p)) ∗ I [] g').
Proof.
  intros Hfuel Hbody. iIntros "[Hr HI]". rewrite /list_for_each_entry_safe /dlist.
  iDestruct (ring_NoDup with "Hr") as %Hnd. rewrite ring_cons. iDestruct "Hr" as "[Hh Hc]".
  set (n0 := hd h xs). set (p0 := List.last xs h).
  set (after ys := match ys with [] => n0 | _ :: ys' => hd h ys' end).
  assert (Hnext : ∀ p ys g Q,
    h ↦ₙ (obj_ptr n0, obj_ptr p0) ∗ chain p ys h ∗
    (h ↦ₙ (obj_ptr n0, obj_ptr p0) ∗ chain p ys h -∗ Q (obj_ptr (after ys)) g)
    ⊢ wp (get_next (obj_ptr (hd h ys))) g Q).
  { clear g. intros p ys g Q. iIntros "(Hh & Hc & HQ)". destruct ys as [|y ys]; cbn [hd after chain].
    - wp_steps. iApply "HQ". iFrame.
    - iDestruct "Hc" as "[Hy Hc]". wp_steps. iApply "HQ". iFrame. }
  assert (Hgen : ∀ ys p g, h ∉ ys -> (length ys < fuel)%nat ->
    h ↦ₙ (obj_ptr n0, obj_ptr p0) ∗ chain p ys h ∗ I ys g
    ⊢ wp (list_for_each_safe_from fuel (obj_ptr (hd h ys)) (obj_ptr (after ys)) (obj_ptr h) body) g
      (fun r g' => ⌜⌜r = None⌝⌝ ∗ (∃ n p, h ↦ₙ (n, p)) ∗ I [] g')).
  { clear g Hfuel Hnd. induction fuel as [|fuel IH]; intros ys p g Hnd Hlen; [lia|].
    iIntros "(Hh & Hc & HI)". cbn [list_for_each_safe_from]. destruct ys as [|y ys]; cbn [hd after].
    - rewrite bool_decide_true //. iApply wp_ret. by iFrame.
    - rewrite bool_decide_false; last first.
      { intros [= ->]. apply Hnd. by left. }
      cbn [chain]. iDestruct "Hc" as "[Hy Hc]". iApply wp_bind.
      iDestruct (Hbody with "[$HI $Hy]") as "Hwp".
      iApply (wp_wand with "Hwp"). iIntros (r g') "[-> HI]".
      iApply wp_bind. iApply (Hnext y ys). iFrame "Hh Hc". iIntros "[Hh Hc]".
      iApply (IH ys y); [set_solver|cbn in Hlen; lia|iFrame]. }
  iApply wp_bind. wp_step. iApply wp_bind. iApply (Hnext h xs). iFrame. iIntros "[Hh Hc]".
  iApply (Hgen xs h); [|done|iFrame]. by apply NoDup_cons in Hnd as [? _].
Qed.

(** The body takes the entry it is called on out of the list. *)
Lemma wp_list_for_each_entry_unlink fuel h xs body (I : list loc -> globals -> hProp) g :
  (length xs < fuel)%nat ->
  (∀ x ys g, dlist h (x :: ys) ∗ I (x :: ys) g
     ⊢ wp (body (obj_ptr x)) g (fun r g' => ⌜⌜r = None⌝⌝ ∗ dlist h ys ∗ I ys g')) ->
  dlist h xs ∗ I xs g
  ⊢ wp (list_for_each_entry_safe fuel (obj_ptr h) body) g (fun r g' =>
      ⌜⌜r = None⌝⌝ ∗ dlist h [] ∗ I [] g').
Proof.
  intros Hfuel Hbody. iIntros "[Hr HI]". rewrite /list_for_each_entry_safe.
  assert (Hnext : ∀ ys g Q, dlist h ys ∗
    (∀ n, ⌜⌜match ys with [] => True | _ :: ys' => n = obj_ptr (hd h ys') end⌝⌝ -∗ dlist h ys -∗ Q n g)
    ⊢ wp (get_next (obj_ptr (hd h ys))) g Q).
  { clear. intros ys g Q. iIntros "[Hr HQ]". destruct ys as [|y ys]; cbn [hd].
    - iApply wp_get_next_head. iFrame "Hr". iIntros "Hr". by iApply "HQ".
    - iApply (wp_get_next_at h [] y ys). iFrame "Hr". iIntros "Hr". by iApply "HQ". }
  assert (Hgen : ∀ ys fuel n g, (length ys < fuel)%nat ->
    match ys with [] => True | _ :: ys' => n = obj_ptr (hd h ys') end ->
    dlist h ys ∗ I ys g
    ⊢ wp (list_for_each_safe_from fuel (obj_ptr (hd h ys)) n (obj_ptr h) body) g (fun r g' =>
        ⌜⌜r = None⌝⌝ ∗ dlist h [] ∗ I [] g')).
  { clear g fuel Hfuel. induction ys as [|y ys IH]; intros fuel n g Hlen Hn;
      (destruct fuel as [|fuel]; [lia|]); iIntros "[Hr HI]"; cbn [list_for_each_safe_from hd].
    - rewrite bool_decide_true //. iApply wp_ret. by iFrame.
    - iDestruct (ring_NoDup with "Hr") as %Hnd. rewrite bool_decide_false; last first.
      { intros [= ->]. apply NoDup_cons in Hnd as [Hnin _]. apply Hnin. by left. }
      subst n. iApply wp_bind. iDestruct (Hbody with "[$Hr $HI]") as "Hwp".
      iApply (wp_wand with "Hwp"). iIntros (r g') "(-> & Hr & HI)". iApply wp_bind. iApply Hnext.
      iFrame "Hr". iIntros (n) "%Hn Hr". iApply (IH fuel n); [cbn in Hlen; lia|done|iFrame]. }
  iApply wp_bind. iApply wp_get_next_head. iFrame "Hr". iIntros "Hr". iApply wp_bind. iApply Hnext.
  iFrame "Hr". iIntros (n) "%Hn Hr". iApply (Hgen xs fuel n); [done|done|iFrame].
Qed.

End loop_rules.
