(* ===== verification/ListOps.v ===== *)
(** * include/list.h: joining, cutting and replacing

    The specifications of the list primitives that rearrange whole lists, and
    the properties of the list library. *)

From iris.proofmode Require Import environments proofmode.
From S2P Require Import Prelude CTypes HProp CMem CWp DList.
Set Warnings "-rewrite-rw".
Open Scope Z_scope.

Section splice.
Implicit Types (h l x : loc) (xs ys : list loc) (g : globals).

(** A node whose links are out of date. *)
Definition stale (l : loc) : hProp := (∃ n q, l ↦ₙ (n, q))%I.

(** Between a node of a ring and the node after it. *)
Lemma wp___list_splice l x xs (p : loc) ys g Q :
  ring (l :: x :: xs) ∗ ring (p :: ys) ∗ (ring (p :: (x :: xs) ++ ys) -∗ stale l -∗ Q tt g)
  ⊢ wp (__list_splice (obj_ptr l) (obj_ptr p) (obj_ptr (hd p ys))) g Q.
Proof.
  iIntros "(Hl & Hh & HQ)". rewrite /__list_splice.
  rewrite (ring_cons l) (ring_cons p ys) (ring_cons p (_ ++ _)). iDestruct "Hl" as "[Hl Hc]".
  iDestruct "Hh" as "[Hh Hy]". rewrite -app_comm_cons !last_cons.
  cbn [hd]. wp_steps.
  destruct xs as [|z zs _] using rev_ind; destruct ys as [|y ys]; cbn [chain hd app].
  - cbn [List.last]. iDestruct "Hc" as "[Hx _]". wp_steps.
    iApply ("HQ" with "[Hh Hx Hy]"); [iFrame|by iExists _, _].
  - rewrite !last_cons. cbn [List.last]. iDestruct "Hc" as "[Hx _]". iDestruct "Hy" as "[Hy Hc]". wp_steps.
    iApply ("HQ" with "[Hh Hx Hy Hc]"); [iFrame|by iExists _, _].
  - rewrite app_nil_r !chain_app !hd_app_hd !last_app_cons. cbn [chain hd List.last].
    iDestruct "Hc" as "(Hx & Hc & Hz & _)". wp_steps.
    iApply ("HQ" with "[Hh Hx Hc Hz Hy]"); [iFrame|by iExists _, _].
  - rewrite -app_assoc !chain_app !hd_app_hd !last_app_cons !last_cons.
    cbn [chain hd List.last app].
    iDestruct "Hc" as "(Hx & Hc & Hz & _)". iDestruct "Hy" as "[Hy Hd]". wp_steps.
    iApply ("HQ" with "[Hh Hx Hc Hz Hy Hd]"); [iFrame|by iExists _, _].
Qed.

Lemma ring_stale l : ring [l] ⊢ stale l.
Proof. rewrite ring_cons. iIntros "[Hl _]". by iExists _, _. Qed.

Lemma wp_INIT_stale l g Q :
  stale l ∗ (dlist l [] -∗ Q tt g) ⊢ wp (INIT_LIST_HEAD (obj_ptr l)) g Q.
Proof.
  iIntros "[Hl HQ]". iDestruct "Hl" as (n q) "Hl". iApply wp_INIT_LIST_HEAD. iFrame.
Qed.

(** The node before the head. *)
Lemma wp_get_prev_head h ys g Q :
  dlist h ys ∗ (dlist h ys -∗ Q (obj_ptr (List.last ys h)) g) ⊢ wp (get_prev (obj_ptr h)) g Q.
Proof.
  rewrite /dlist ring_cons. iIntros "[[Hh Hc] HQ]". wp_steps. iApply "HQ". iFrame.
Qed.

(** Between the last node of a list and its head. *)
Lemma wp___list_splice_back l x xs h ys g Q :
  dlist l (x :: xs) ∗ dlist h ys ∗ (dlist h (ys ++ x :: xs) -∗ stale l -∗ Q tt g)
  ⊢ wp (__list_splice (obj_ptr l) (obj_ptr (List.last ys h)) (obj_ptr h)) g Q.
Proof.
  iIntros "(Hl & Hh & HQ)". destruct ys as [|y ys _] using rev_ind; cbn [List.last app].
  - iApply (wp___list_splice l x xs h []). rewrite app_nil_r. iFrame.
  - rewrite last_app_cons. cbn [List.last]. rewrite /dlist.
    iEval (rewrite app_comm_cons ring_rotate_cons /=) in "Hh".
    iApply (wp___list_splice l x xs y (h :: ys)). iFrame "Hl Hh". iIntros "Hr". iApply "HQ".
    by rewrite app_comm_cons (ring_rotate (y :: x :: xs)) /= -app_assoc.
Qed.

(** What follows the test for an empty list. *)
Lemma wp_unless_empty l xs (m : M unit) g Q :
  dlist l xs ∗ (dlist l xs -∗ wp (if bool_decide (xs = []) then mret tt else m) g Q)
  ⊢ wp (e ← list_empty (obj_ptr l); if negb e then m else mret tt) g Q.
Proof.
  iIntros "[Hl HQ]". iApply wp_bind. iApply wp_list_empty. iFrame "Hl". iIntros "Hl".
  iSpecialize ("HQ" with "Hl"). by case_bool_decide.
Qed.

Lemma wp_list_splice l xs h ys g Q :
  dlist l xs ∗ dlist h ys ∗ (dlist h (xs ++ ys) -∗ stale l -∗ Q tt g)
  ⊢ wp (list_splice (obj_ptr l) (obj_ptr h)) g Q.
Proof.
  iIntros "(Hl & Hh & HQ)". iApply wp_unless_empty. iFrame "Hl". iIntros "Hl". destruct xs as [|x xs].
  - rewrite bool_decide_true //. wp_steps. iApply ("HQ" with "Hh"). by iApply ring_stale.
  - rewrite bool_decide_false //. iApply wp_bind. iApply wp_get_next_head. iFrame "Hh". iIntros "Hh".
    iApply (wp___list_splice l x xs h ys). iFrame.
Qed.

Lemma wp_list_splice_tail l xs h ys g Q :
  dlist l xs ∗ dlist h ys ∗ (dlist h (ys ++ xs) -∗ stale l -∗ Q tt g)
  ⊢ wp (list_splice_tail (obj_ptr l) (obj_ptr h)) g Q.
Proof.
  iIntros "(Hl & Hh & HQ)". iApply wp_unless_empty. iFrame "Hl". iIntros "Hl". destruct xs as [|x xs].
  - rewrite bool_decide_true // app_nil_r. wp_steps. iApply ("HQ" with "Hh"). by iApply ring_stale.
  - rewrite bool_decide_false //. iApply wp_bind. iApply wp_get_prev_head. iFrame "Hh". iIntros "Hh".
    iApply (wp___list_splice_back l x xs h ys). iFrame.
Qed.

Lemma wp_list_splice_init l xs h ys g Q :
  dlist l xs ∗ dlist h ys ∗ (dlist h (xs ++ ys) -∗ dlist l [] -∗ Q tt g)
  ⊢ wp (list_splice_init (obj_ptr l) (obj_ptr h)) g Q.
Proof.
  iIntros "(Hl & Hh & HQ)". iApply wp_unless_empty. iFrame "Hl". iIntros "Hl". destruct xs as [|x xs].
  - rewrite bool_decide_true //. wp_steps. by iApply ("HQ" with "Hh").
  - rewrite bool_decide_false //. iApply wp_bind. iApply wp_get_next_head. iFrame "Hh". iIntros "Hh".
    iApply wp_bind. iApply (wp___list_splice l x xs h ys). iFrame "Hl Hh". iIntros "Hh Hl".
    iApply wp_INIT_stale. iFrame "Hl". by iApply "HQ".
Qed.

Lemma wp_list_splice_tail_init l xs h ys g Q :
  dlist l xs ∗ dlist h ys ∗ (dlist h (ys ++ xs) -∗ dlist l [] -∗ Q tt g)
  ⊢ wp (list_splice_tail_init (obj_ptr l) (obj_ptr h)) g Q.
Proof.
  iIntros "(Hl & Hh & HQ)". iApply wp_unless_empty. iFrame "Hl". iIntros "Hl". destruct xs as [|x xs].
  - rewrite bool_decide_true // app_nil_r. wp_steps. by iApply ("HQ" with "Hh").
  - rewrite bool_decide_false //. iApply wp_bind. iApply wp_get_prev_head. iFrame "Hh". iIntros "Hh".
    iApply wp_bind. iApply (wp___list_splice_back l x xs h ys). iFrame "Hl Hh". iIntros "Hh Hl".
    iApply wp_INIT_stale. iFrame "Hl". by iApply "HQ".
Qed.

(** A node takes the place of another, also when that one is alone. *)
Lemma wp_list_replace old xs new g Q :
  ring (old :: xs) ∗ stale new ∗ (ring (new :: xs) -∗ stale old -∗ Q tt g)
  ⊢ wp (list_replace (obj_ptr old) (obj_ptr new)) g Q.
Proof.
  iIntros "(Ho & Hn & HQ)". iDestruct "Hn" as (n q) "Hn". rewrite /list_replace !ring_cons.
  iDestruct "Ho" as "[Ho Hc]".
  destruct xs as [|x xs]; [|destruct xs as [|z zs _] using rev_ind]; rewrite ?last_cons; cbn [chain hd].
  - cbn [List.last]. wp_steps. iApply ("HQ" with "[Hn Hc]"); [iFrame|by iExists _, _].
  - cbn [List.last]. iDestruct "Hc" as "[Hx _]". wp_steps. iApply ("HQ" with "[Hn Hx]"); [iFrame|by iExists _, _].
  - rewrite !chain_app !hd_app_hd !last_app_cons. cbn [chain hd List.last].
    iDestruct "Hc" as "(Hx & Hc & Hz & _)". wp_steps.
    iApply ("HQ" with "[Hn Hx Hc Hz]"); [iFrame|by iExists _, _].
Qed.

Lemma wp_list_is_singular h xs g Q :
  dlist h xs ∗ (dlist h xs -∗ Q (bool_decide (length xs = 1%nat)) g)
  ⊢ wp (list_is_singular (obj_ptr h)) g Q.
Proof.
  iIntros "[Hh HQ]". iDestruct (dlist_NoDup with "Hh") as %Hnd. iApply wp_bind. iApply wp_list_empty.
  iFrame "Hh". iIntros "Hh". destruct xs as [|x xs].
  - rewrite (bool_decide_true ([] = [])) //. cbn [negb]. wp_steps. by iApply "HQ".
  - rewrite (bool_decide_false (_ = [])) //. cbn [negb]. iApply wp_bind. iApply wp_get_next_head. iFrame "Hh".
    iIntros "Hh". iApply wp_bind. iApply wp_get_prev_head. iFrame "Hh". iIntros "Hh". wp_steps.
    replace (bool_decide (obj_ptr (hd h (x :: xs)) = _)) with (bool_decide (length (x :: xs) = 1%nat));
      [by iApply "HQ"|].
    rewrite last_cons. cbn [hd length]. destruct xs as [|z zs _] using rev_ind; [by rewrite !bool_decide_true|].
    rewrite last_app_cons length_app /= !bool_decide_false //; [|lia].
    intros [= ->]. apply NoDup_cons in Hnd as [_ Hnd]. apply NoDup_cons in Hnd as [[] _]. set_solver.
Qed.

(** Cutting a list in two after one of its entries. *)
Lemma wp___list_cut_position l h us e vs g Q :
  stale l ∗ dlist h (us ++ e :: vs) ∗ (dlist l (us ++ [e]) -∗ dlist h vs -∗ Q tt g)
  ⊢ wp (__list_cut_position (obj_ptr l) (obj_ptr h) (obj_ptr e)) g Q.
Proof.
  iIntros "(Hl & Hh & HQ)". iDestruct "Hl" as (n q) "Hl". rewrite /__list_cut_position /dlist.
  rewrite (ring_cons_snoc l us e) (ring_cons h vs) (ring_cons h (_ ++ _)) last_app_cons hd_app_hd chain_app.
  cbn [hd chain]. iDestruct "Hh" as "(Hh & Hc & He & Hd)".
  destruct us as [|u us]; destruct vs as [|v vs]; rewrite ?last_cons; cbn [hd chain List.last].
  - wp_steps. iApply ("HQ" with "[$Hl $Hc $He]"). iFrame.
  - iDestruct "Hd" as "[Hv Hd]". wp_steps. iApply ("HQ" with "[$Hl $Hc $He]"). iFrame.
  - iDestruct "Hc" as "[Hu Hc]". wp_steps. iApply ("HQ" with "[$Hl $Hc $Hu $He]"). iFrame.
  - iDestruct "Hc" as "[Hu Hc]". iDestruct "Hd" as "[Hv Hd]". wp_steps.
    iApply ("HQ" with "[$Hl $Hc $Hu $He]"). iFrame.
Qed.

Lemma wp_list_cut_position l h us e vs g Q :
  stale l ∗ dlist h (us ++ e :: vs) ∗ (dlist l (us ++ [e]) -∗ dlist h vs -∗ Q tt g)
  ⊢ wp (list_cut_position (obj_ptr l) (obj_ptr h) (obj_ptr e)) g Q.
Proof.
  iIntros "(Hl & Hh & HQ)". iDestruct (dlist_NoDup with "Hh") as %Hnd. rewrite /list_cut_position.
  iApply wp_bind. iApply wp_list_empty. iFrame "Hh". iIntros "Hh".
  rewrite bool_decide_false; [|by destruct us]. iApply wp_bind. iApply wp_list_is_singular. iFrame "Hh".
  iIntros "Hh". iApply wp_bind. iApply wp_get_next_head. iFrame "Hh". iIntros "Hh".
  assert (Hsing : bool_decide (length (us ++ e :: vs) = 1%nat)
    && (negb (bool_decide (obj_ptr (hd h (us ++ e :: vs)) = obj_ptr e)) &&
        negb (bool_decide (obj_ptr h = obj_ptr e))) = false).
  { destruct us as [|u us]; [cbn; rewrite (bool_decide_true (obj_ptr e = _)) // andb_false_r //|].
    rewrite bool_decide_false // length_app /=. lia. }
  rewrite Hsing bool_decide_false; [iApply (wp___list_cut_position l h us e vs); iFrame|].
  intros [= ->]. apply NoDup_cons in Hnd as [[] _]. set_solver.
Qed.

End splice.

(** ** Properties *)

(** Cutting a list after one of its entries moves the entries up to it, in
    their order, to the other head and leaves the rest. *)
Theorem list_cut_position_splits l h us e vs g :
  triple (stale l ∗ dlist h (us ++ e :: vs))%I g (list_cut_position (obj_ptr l) (obj_ptr h) (obj_ptr e))
    (fun _ g' => ⌜⌜g' = g⌝⌝ ∗ dlist l (us ++ [e]) ∗ dlist h vs)%I.
Proof.
  apply triple_wp. iIntros "[Hl Hh]". iApply (wp_list_cut_position l h us e vs). iFrame "Hl Hh".
  iIntros "Hl Hh". by iFrame.
Qed.

(** Splicing back what was cut off restores the list, wherever it was cut. *)
Theorem list_cut_splice l h us e vs g :
  triple (stale l ∗ dlist h (us ++ e :: vs))%I g
    (_ ← list_cut_position (obj_ptr l) (obj_ptr h) (obj_ptr e);
     list_splice_init (obj_ptr l) (obj_ptr h))
    (fun _ g' => ⌜⌜g' = g⌝⌝ ∗ dlist l [] ∗ dlist h (us ++ e :: vs))%I.
Proof.
  apply triple_wp. iIntros "[Hl Hh]". iApply wp_bind. iApply (wp_list_cut_position l h us e vs).
  iFrame "Hl Hh". iIntros "Hl Hh". iApply wp_list_splice_init. iFrame "Hl Hh". iIntros "Hh Hl".
  rewrite -app_assoc. by iFrame.
Qed.

(** Splicing at the tail appends the entries of the first list, whatever
    the two lists hold, and leaves that list empty. *)
Theorem list_splice_tail_init_joins l xs h ys g :
  triple (dlist l xs ∗ dlist h ys)%I g (list_splice_tail_init (obj_ptr l) (obj_ptr h))
    (fun _ g' => ⌜⌜g' = g⌝⌝ ∗ dlist l [] ∗ dlist h (ys ++ xs))%I.
Proof.
  apply triple_wp. iIntros "[Hl Hh]". iApply (wp_list_splice_tail_init l xs h ys). iFrame "Hl Hh".
  iIntros "Hh Hl". by iFrame.
Qed.

(** [list_replace_init] puts the new node at the place of the old one,
    which becomes a list of its own; the old node may be the head, and alone. *)
Theorem list_replace_init_swaps xs old ys new g :
  triple (ring (xs ++ old :: ys) ∗ stale new)%I g (list_replace_init (obj_ptr old) (obj_ptr new))
    (fun _ g' => ⌜⌜g' = g⌝⌝ ∗ ring (xs ++ new :: ys) ∗ ring [old])%I.
Proof.
  apply triple_wp. rewrite ring_rotate_cons. iIntros "[Ho Hn]". iApply wp_bind.
  iApply (wp_list_replace old (ys ++ xs) new). iFrame "Ho Hn". iIntros "Hn Ho".
  iApply wp_INIT_stale. iFrame "Ho". iIntros "Ho". rewrite (ring_rotate_cons xs new). by iFrame.
Qed.
