(* ===== verification/BParse.v ===== *)
(** * src/b_parse.c: B-coding

    The B-coded objects in memory: strings, integers, lists and dictionaries;
    their allocation, release, parsing and printing.  One definition per C
    function, in the order of the file.  The functions that recur through the
    object structure take a bound on the depth of the recursion and on the
    number of iterations of the loops they run. *)

From iris.proofmode Require Import environments proofmode.
From S2P Require Import Prelude CTypes HProp CMem CWp CLib Trace DList.
Set Warnings "-rewrite-rw".
Open Scope Z_scope.

Abbreviation ch_l := 108.
Abbreviation ch_i := 105.
Abbreviation ch_s := 115.
Abbreviation ch_d := 100.
Abbreviation ch_e := 101.
Abbreviation ch_colon := 58.
Abbreviation ch_nl := 10.

(** ** Strings *)

Definition b_string_alloc : M ptr := malloc (BString PNull PNull PNull 0).

Definition b_string_alloc_reserved (buf : ptr) (len reserved : Z) : M ptr :=
  p ← malloc (BString PUndef PUndef PUndef 0);
  if is_null p then mret PNull
  else
    data ← ptr_add buf reserved;
    _ ← store p (BString PNull data buf len);
    mret p.

Definition b_string_free (p : ptr) : M unit :=
  if is_null p then mret tt
  else
    s ← load b_string p;
    _ ← (if is_null (bs_head s) then mret tt else free (bs_head s));
    free p.

Definition b_string_set (p buf : ptr) : M unit :=
  s ← load b_string p; store p (BString (bs_prev s) buf (bs_head s) (bs_len s)).

Definition b_string_get (p : ptr) : M ptr := s ← load b_string p; mret (bs_data s).

Definition b_string_get_length (p : ptr) : M Z := s ← load b_string p; mret (bs_len s).

Definition b_string_set_head (p head : ptr) : M unit :=
  s ← load b_string p; store p (BString (bs_prev s) (bs_data s) head (bs_len s)).

Definition b_string_get_head (p : ptr) : M ptr := s ← load b_string p; mret (bs_head s).

Definition b_string_set_length (p : ptr) (len : Z) : M unit :=
  s ← load b_string p; store p (BString (bs_prev s) (bs_data s) (bs_head s) (u32 len)).

Definition b_string_print (p : ptr) : M unit :=
  TRACE_INFO "b_string_print" 111
    (data ← b_string_get p; s ← get_cstr data; mret (s ++ [ch_nl])).

(** %02x of an int. *)
Definition hex_digit (d : Z) : Z := if d <? 10 then 48 + d else 87 + d.
Fixpoint hex_digits (fuel : nat) (n : Z) : list Z :=
  match fuel with
  | O => []
  | S fuel => if n <? 16 then [hex_digit n] else hex_digits fuel (n / 16) ++ [hex_digit (n mod 16)]
  end.
Definition hex (n : Z) : list Z := hex_digits 16 (u64 n).
Definition hex02 (n : Z) : list Z :=
  let h := hex (u32 n) in if (length h <? 2)%nat then 48 :: h else h.

(** %p *)
Definition ptr_text (p : ptr) : list Z :=
  match p with
  | PAt l o => str "0x" ++ hex (Z.pos l + o)
  | _ => str "(nil)"
  end.

(** i++ of an int. *)
Definition int_succ (i : Z) : M Z := if i =? 2 ^ 31 - 1 then fail IntOverflow else mret (i + 1).

(** The loop over [n] bytes from index [i]; a char is promoted to int. *)
Fixpoint hex_print_loop (n : nat) (i : Z) (data : ptr) : M unit :=
  match n with
  | O => mret tt
  | S n =>
      _ ← (if negb (i =? 0) && (i mod 16 =? 0) then put_out [ch_nl] else mret tt);
      q ← ptr_add data i;
      c ← get_byte q;
      _ ← put_out (hex02 (s8 c) ++ [32]);
      i ← int_succ i;
      hex_print_loop n i data
  end.

Definition b_string_hex_print (p : ptr) : M unit :=
  _ ← TRACE_INFO "b_string_hex_print" 118
        (mret (str "[ b_string_hex_print " ++ ptr_text p ++ str " ]" ++ [ch_nl]));
  s ← load b_string p;
  _ ← hex_print_loop (Z.to_nat (bs_len s)) 0 (bs_data s);
  _ ← put_out [ch_nl];
  TRACE_INFO "b_string_hex_print" 125 (mret (str "[ b_string_hex_print end ]" ++ [ch_nl])).

(** The bytes memcpy reads must be initialised before strtol may look at them. *)
Fixpoint all_init (bs : list mbyte) : option (list Z) :=
  match bs with
  | [] => Some []
  | Some b :: bs' => match all_init bs' with Some r => Some (b :: r) | None => None end
  | None :: _ => None
  end.

(** memcpy(tmp, src, n) into a zeroed local array of [size] bytes. *)
Definition copy_to_local (size : Z) (src : ptr) (n : Z) : M (list Z) :=
  if size <? n then fail StackOverflow
  else
    ds ← read_bytes src n;
    match all_init ds with
    | Some bs => mret (bs ++ replicate (Z.to_nat (size - n)) 0)
    | None => fail Indeterminate
    end.

(** The end of b_string_parse: the string of [val] characters after the colon
    at [s] becomes the contents of [target]. *)
Definition b_string_fill (s target : ptr) (val : Z) : M ptr :=
  if val =? LONG_MAX then fail IntOverflow
  else
    tmp_b ← malloc_bytes (val + 1);
    _ ← b_string_set target tmp_b;
    _ ← b_string_set_head target tmp_b;
    _ ← b_string_set_length target val;
    tmp_b ← b_string_get target;
    s1 ← ptr_add s 1;
    _ ← memcpy tmp_b s1 val;
    q ← ptr_add tmp_b val;
    _ ← put_byte q 0;
    ptr_add s (val + 1).

Definition b_string_parse (buf target : ptr) : M ptr :=
  _ ← c_assert (negb (is_null buf));
  _ ← c_assert (negb (is_null target));
  s ← strchr buf ch_colon;
  if negb (is_null s) then
    n ← ptr_sub s buf;
    tmp ← copy_to_local (INTEGER_LEN + 1) buf (if n <? INTEGER_LEN then n else INTEGER_LEN);
    '(val, endptr) ← c_strtol tmp;
    g ← get_env;
    if ((errno g =? ERANGE) && ((val =? LONG_MAX) || (val =? LONG_MIN)))
       || (negb (errno g =? 0) && (val =? 0)) then
      _ ← TRACE_ERROR "b_string_parse" 147 (mret (str "strtol error" ++ [ch_nl]));
      mret PNull
    else if bool_decide (endptr = buf) then
      _ ← TRACE_ERROR "b_string_parse" 152 (mret (str "No digits were found" ++ [ch_nl]));
      mret PNull
    else b_string_fill s target val
  else
    _ ← TRACE_ERROR "b_string_parse" 165
          (t ← get_cstr buf; mret (str "B-coding string format error: " ++ t ++ [ch_nl]));
    mret PNull.

(** ** Integers *)

Definition b_int_alloc : M ptr := malloc (BInt PNull 0).

Definition b_int_free (p : ptr) : M unit := if is_null p then mret tt else free p.

Definition b_int_set (p : ptr) (val : Z) : M unit :=
  x ← load b_int p; store p (BInt (bi_prev x) val).

Definition b_int_get (p : ptr) : M Z := x ← load b_int p; mret (bi_val x).

Definition b_int_print (p : ptr) : M unit :=
  TRACE_INFO "b_int_print" 201 (x ← load b_int p; mret (dec (s32 (bi_val x)) ++ [ch_nl])).

Definition b_int_parse (buf ret : ptr) : M ptr :=
  _ ← c_assert (negb (is_null ret));
  _ ← c_assert (negb (is_null buf));
  e ← strchr buf ch_e;
  if negb (is_null e) then
    p ← ptr_add buf 1;
    n ← ptr_sub e p;
    let len := u32 (n + 1) in
    tmp ← copy_to_local INTEGER_LEN p (if len <? INTEGER_LEN then len else INTEGER_LEN);
    '(v, endptr) ← c_strtol tmp;
    x ← load b_int ret;
    let val := u32 v in
    _ ← store ret (BInt (bi_prev x) val);
    g ← get_env;
    if ((errno g =? ERANGE) && ((val =? LONG_MAX) || (val =? LONG_MIN)))
       || (negb (errno g =? 0) && (val =? 0)) then
      _ ← TRACE_ERROR "b_int_parse" 224 (mret (str "strtol error" ++ [ch_nl]));
      mret PNull
    else if bool_decide (endptr = p) then
      _ ← TRACE_ERROR "b_int_parse" 229 (mret (str "No digits were found" ++ [ch_nl]));
      mret PNull
    else ptr_add e 1
  else
    _ ← TRACE_ERROR "b_int_parse" 235
          (t ← get_cstr buf; mret (str "B-coding string format error: " ++ t ++ [ch_nl]));
    mret PNull.

(** ** List entries, lists, dictionary entries and dictionaries *)

Definition l_entry_alloc (type : Z) : M ptr :=
  p ← malloc (LEntry PNull type);
  if is_null p then mret PNull
  else
    _ ← INIT_LIST_HEAD p;
    mret p.

Definition b_list_alloc : M ptr :=
  p ← malloc (BList PNull);
  if is_null p then mret PNull
  else
    _ ← INIT_LIST_HEAD p;
    mret p.

(** The switch of b_list_add and b_dict_add: the entry learns who refers to it;
    [false] on a type that is none of the four. *)
Definition set_entry_prev (type : Z) (entry p : ptr) : M bool :=
  if type =? ch_l then
    _ ← load b_list entry; _ ← store entry (BList p); mret true
  else if type =? ch_i then
    x ← load b_int entry; _ ← store entry (BInt p (bi_val x)); mret true
  else if type =? ch_s then
    x ← load b_string entry;
    _ ← store entry (BString p (bs_data x) (bs_head x) (bs_len x)); mret true
  else if type =? ch_d then
    _ ← load b_dict entry; _ ← store entry (BDict p); mret true
  else mret false.

Definition b_list_add (entry list_ptr : ptr) (type : Z) : M unit :=
  p ← l_entry_alloc type;
  if negb (is_null p) then
    x ← load l_entry p;
    _ ← store p (LEntry entry (le_type x));
    ok ← set_entry_prev type entry p;
    if (ok : bool) then list_add_tail p list_ptr
    else TRACE_ERROR "b_list_add" 342 (mret (str "Error list entry type" ++ [ch_nl]))
  else TRACE_ERROR "b_list_add" 348 (mret (str "No memory to alloc l_entry" ++ [ch_nl])).

Definition d_entry_alloc (key : ptr) (type : Z) : M ptr :=
  p ← malloc (DEntry (replicate (Z.to_nat KEY_LEN) None) PUndef type);
  if is_null p then mret PNull
  else
    _ ← INIT_LIST_HEAD p;
    x ← load d_entry p;
    _ ← store p (DEntry (replicate (Z.to_nat KEY_LEN) (Some 0)) (de_val x) (de_type x));
    k ← strncpy key KEY_LEN;
    _ ← store p (DEntry k (de_val x) (de_type x));
    mret p.

Definition b_dict_alloc : M ptr :=
  p ← malloc (BDict PNull);
  if is_null p then mret PNull
  else
    _ ← INIT_LIST_HEAD p;
    mret p.

Definition b_dict_add (entry key d_ptr : ptr) (type : Z) : M unit :=
  p ← d_entry_alloc key type;
  if negb (is_null p) then
    x ← load d_entry p;
    _ ← store p (DEntry (de_key x) entry (de_type x));
    ok ← set_entry_prev type entry p;
    if (ok : bool) then list_add_tail p d_ptr
    else TRACE_ERROR "b_dict_add" 557 (mret (str "Error list entry type" ++ [ch_nl]))
  else TRACE_ERROR "b_dict_add" 563 (mret (str "No memory to alloc l_entry" ++ [ch_nl])).

(** *** Release *)

Fixpoint l_entry_free (fuel : nat) (p : ptr) : M unit :=
  match fuel with
  | O => no_fuel
  | S fuel =>
      _ ← c_assert (negb (is_null p));
      x ← load l_entry p;
      _ ← (if le_type x =? ch_l then b_list_free fuel (le_entry x)
           else if le_type x =? ch_i then b_int_free (le_entry x)
           else if le_type x =? ch_s then b_string_free (le_entry x)
           else if le_type x =? ch_d then b_dict_free fuel (le_entry x)
           else TRACE_ERROR "l_entry_free" 272 (mret (str "Error list entry type" ++ [ch_nl])));
      free p
  end
with b_list_free (fuel : nat) (p : ptr) : M unit :=
  match fuel with
  | O => no_fuel
  | S fuel =>
      if is_null p then mret tt
      else
        _ ← list_for_each_entry_safe (R := unit) fuel p
              (fun vec => _ ← l_entry_free fuel vec; mret None);
        free p
  end
with d_entry_free (fuel : nat) (p : ptr) : M unit :=
  match fuel with
  | O => no_fuel
  | S fuel =>
      _ ← c_assert (negb (is_null p));
      x ← load d_entry p;
      _ ← (if de_type x =? ch_l then b_list_free fuel (de_val x)
           else if de_type x =? ch_i then b_int_free (de_val x)
           else if de_type x =? ch_s then b_string_free (de_val x)
           else if de_type x =? ch_d then b_dict_free fuel (de_val x)
           else TRACE_ERROR "d_entry_free" 487 (mret (str "Error dictionary entry type" ++ [ch_nl])));
      free p
  end
with b_dict_free (fuel : nat) (p : ptr) : M unit :=
  match fuel with
  | O => no_fuel
  | S fuel =>
      if is_null p then mret tt
      else
        _ ← list_for_each_entry_safe (R := unit) fuel p
              (fun vec => _ ← d_entry_free fuel vec; mret None);
        free p
  end.

Definition b_list_del (fuel : nat) (entry : ptr) : M unit := l_entry_free fuel entry.
Definition b_dict_del (fuel : nat) (entry : ptr) : M unit := d_entry_free fuel entry.

(** *** Parsing

    [b_list_loop] and [b_dict_loop] are the while loops of the two functions. *)

Fixpoint b_list_parse (fuel : nat) (buf ret : ptr) : M ptr :=
  match fuel with
  | O => no_fuel
  | S fuel =>
      _ ← c_assert (negb (is_null buf));
      _ ← c_assert (negb (is_null ret));
      c ← get_byte buf;
      if negb (c =? ch_l) then mret PNull
      else
        p ← ptr_add buf 1;
        b_list_loop fuel p ret
  end
with b_list_loop (fuel : nat) (p ret : ptr) : M ptr :=
  match fuel with
  | O => no_fuel
  | S fuel =>
      c ← get_byte p;
      if c =? ch_e then ptr_add p 1
      else if c =? ch_l then
        new_list ← b_list_alloc;
        if negb (is_null new_list) then
          p' ← b_list_parse fuel p new_list;
          if negb (is_null p') then
            _ ← b_list_add new_list ret ch_l;
            b_list_loop fuel p' ret
          else
            _ ← b_list_free fuel new_list;
            mret PNull
        else b_list_loop fuel p ret
      else if c =? ch_i then
        new_int ← b_int_alloc;
        if negb (is_null new_int) then
          p' ← b_int_parse p new_int;
          if negb (is_null p') then
            _ ← b_list_add new_int ret ch_i;
            b_list_loop fuel p' ret
          else
            _ ← b_int_free new_int;
            mret PNull
        else b_list_loop fuel p ret
      else if c =? ch_d then
        new_dict ← b_dict_alloc;
        if negb (is_null new_dict) then
          p' ← b_dict_parse fuel p new_dict;
          if negb (is_null p') then
            _ ← b_list_add new_dict ret ch_d;
            b_list_loop fuel p' ret
          else
            _ ← b_dict_free fuel new_dict;
            mret PNull
        else b_list_loop fuel p ret
      else
        new_str ← b_string_alloc;
        if negb (is_null new_str) then
          p' ← b_string_parse p new_str;
          if negb (is_null p') then
            _ ← b_list_add new_str ret ch_s;
            b_list_loop fuel p' ret
          else
            _ ← b_string_free new_str;
            mret PNull
        else b_list_loop fuel p ret
  end
with b_dict_parse (fuel : nat) (buf ret : ptr) : M ptr :=
  match fuel with
  | O => no_fuel
  | S fuel =>
      _ ← c_assert (negb (is_null buf));
      _ ← c_assert (negb (is_null ret));
      c ← get_byte buf;
      if negb (c =? ch_d) then mret PNull
      else
        p ← ptr_add buf 1;
        b_dict_loop fuel p ret
  end
with b_dict_loop (fuel : nat) (p ret : ptr) : M ptr :=
  match fuel with
  | O => no_fuel
  | S fuel =>
      c ← get_byte p;
      if c =? ch_e then ptr_add p 1
      else
        new_key ← b_string_alloc;
        if is_null new_key then mret PNull
        else
          p ← b_string_parse p new_key;
          if is_null p then
            _ ← b_string_free new_key;
            mret PNull
          else
            c ← get_byte p;
            if c =? ch_l then
              new_list ← b_list_alloc;
              if negb (is_null new_list) then
                p' ← b_list_parse fuel p new_list;
                if negb (is_null p') then
                  k ← b_string_get new_key;
                  _ ← b_dict_add new_list k ret ch_l;
                  _ ← b_string_free new_key;
                  b_dict_loop fuel p' ret
                else
                  _ ← b_string_free new_key;
                  _ ← b_list_free fuel new_list;
                  mret PNull
              else
                _ ← b_string_free new_key;
                b_dict_loop fuel p ret
            else if c =? ch_i then
              new_int ← b_int_alloc;
              if negb (is_null new_int) then
                p' ← b_int_parse p new_int;
                if negb (is_null p') then
                  k ← b_string_get new_key;
                  _ ← b_dict_add new_int k ret ch_i;
                  _ ← b_string_free new_key;
                  b_dict_loop fuel p' ret
                else
                  _ ← b_string_free new_key;
                  _ ← b_int_free new_int;
                  mret PNull
              else
                _ ← b_string_free new_key;
                b_dict_loop fuel p ret
            else if c =? ch_d then
              new_dict ← b_dict_alloc;
              if negb (is_null new_dict) then
                p' ← b_dict_parse fuel p new_dict;
                if negb (is_null p') then
                  k ← b_string_get new_key;
                  _ ← b_dict_add new_dict k ret ch_d;
                  _ ← b_string_free new_key;
                  b_dict_loop fuel p' ret
                else
                  _ ← b_string_free new_key;
                  _ ← b_dict_free fuel new_dict;
                  mret PNull
              else
                _ ← b_string_free new_key;
                b_dict_loop fuel p ret
            else
              new_str ← b_string_alloc;
              if negb (is_null new_str) then
                p' ← b_string_parse p new_str;
                if negb (is_null p') then
                  k ← b_string_get new_key;
                  _ ← b_dict_add new_str k ret ch_s;
                  _ ← b_string_free new_key;
                  b_dict_loop fuel p' ret
                else
                  _ ← b_string_free new_key;
                  _ ← b_string_free new_str;
                  _ ← TRACE_ERROR "b_dict_parse" 657 (mret (str "Error list entry type" ++ [ch_nl]));
                  mret PNull
              else
                _ ← b_string_free new_key;
                b_dict_loop fuel p ret
  end.

(** *** Printing *)

Fixpoint l_entry_print (fuel : nat) (p : ptr) : M unit :=
  match fuel with
  | O => no_fuel
  | S fuel =>
      _ ← c_assert (negb (is_null p));
      x ← load l_entry p;
      if le_type x =? ch_l then b_list_print fuel (le_entry x)
      else if le_type x =? ch_i then b_int_print (le_entry x)
      else if le_type x =? ch_s then b_string_print (le_entry x)
      else if le_type x =? ch_d then b_dict_print fuel (le_entry x)
      else TRACE_ERROR "l_entry_print" 294 (mret (str "Error list entry type" ++ [ch_nl]))
  end
with b_list_print (fuel : nat) (p : ptr) : M unit :=
  match fuel with
  | O => no_fuel
  | S fuel =>
      _ ← TRACE_DUMP "b_list_print" 449 (mret (str "[ List Print begin ]" ++ [ch_nl]));
      _ ← list_for_each_entry (R := unit) fuel p
            (fun vec => _ ← l_entry_print fuel vec; mret None);
      TRACE_DUMP "b_list_print" 453 (mret (str "[ List Print end ]" ++ [ch_nl]))
  end
with d_entry_print (fuel : nat) (p : ptr) : M unit :=
  match fuel with
  | O => no_fuel
  | S fuel =>
      _ ← c_assert (negb (is_null p));
      x ← load d_entry p;
      if de_type x =? ch_l then b_list_print fuel (de_val x)
      else if de_type x =? ch_i then b_int_print (de_val x)
      else if de_type x =? ch_s then b_string_print (de_val x)
      else if de_type x =? ch_d then b_dict_print fuel (de_val x)
      else TRACE_ERROR "d_entry_print" 509 (mret (str "Error list entry type" ++ [ch_nl]))
  end
with b_dict_print (fuel : nat) (p : ptr) : M unit :=
  match fuel with
  | O => no_fuel
  | S fuel =>
      _ ← TRACE_DUMP "b_dict_print" 688 (mret (str "[ Dictionary Print begin ]" ++ [ch_nl]));
      pos ← get_next p;
      _ ← b_dict_print_loop fuel 0 pos p;
      TRACE_DUMP "b_dict_print" 693 (mret (str "[ Dictionary Print end ]" ++ [ch_nl]))
  end
with b_dict_print_loop (fuel : nat) (i : Z) (pos head : ptr) : M unit :=
  match fuel with
  | O => no_fuel
  | S fuel =>
      if bool_decide (pos = head) then mret tt
      else
        x ← load d_entry pos;
        next_i ← int_succ i;
        _ ← TRACE_DUMP "b_dict_print" 690
              (match c_string (de_key x) with
               | inl f => fail f
               | inr k => mret (str "[ (" ++ dec i ++ str ") Key(" ++ [de_type x] ++ str ") ] "
                                ++ k ++ [ch_nl])
               end);
        _ ← d_entry_print fuel pos;
        n ← get_next pos;
        b_dict_print_loop fuel next_i n head
  end.
