(* ===== verification/BSpec.v ===== *)
(** * What B-coding means

    The values B-coding denotes, their encoding, and a reference parser on
    byte sequences.  The reference parser is a pure function that knows nothing
    of memory: it accepts exactly what src/b_parse.c accepts, produces the value
    the C code builds, and says on which inputs the C code would leave the
    buffer. *)

From S2P Require Import Prelude CTypes CMem CLib Trace BParse.
Open Scope Z_scope.

Inductive bval :=
| VInt (n : Z)
| VStr (s : list Z)
| VList (vs : list bval)
| VDict (kvs : list (list Z * bval)).

(** ** Encoding *)

Definition encode_str (s : list Z) : list Z := dec (Z.of_nat (length s)) ++ ch_colon :: s.

Fixpoint encode (v : bval) : list Z :=
  match v with
  | VInt n => ch_i :: dec n ++ [ch_e]
  | VStr s => encode_str s
  | VList vs => ch_l :: concat (map encode vs) ++ [ch_e]
  | VDict kvs => ch_d :: concat (map (fun kv => encode_str (fst kv) ++ encode (snd kv)) kvs) ++ [ch_e]
  end.

(** ** The reference parser *)

(** [POk v rest e]: a value, the bytes after it, and errno; [PErr]: the C
    function returns NULL; [PFault]: it has undefined behaviour; [PFuel]: the
    bound was too small. *)
Inductive presult (A : Type) :=
| POk (a : A) (rest : list Z) (e : Z)
| PErr (e : Z)
| PFault
| PFuel.
Arguments POk {A} a rest e.
Arguments PErr {A} e.
Arguments PFault {A}.
Arguments PFuel {A}.

Definition pbind {A B} (r : presult A) (k : A -> list Z -> Z -> presult B) : presult B :=
  match r with
  | POk a rest e => k a rest e
  | PErr e => PErr e
  | PFault => PFault
  | PFuel => PFuel
  end.

Definition pmap {A B} (f : A -> B) (r : presult A) : presult B :=
  pbind r (fun a rest e => POk (f a) rest e).

Definition format_error (bs : list Z) : list Z :=
  str "B-coding string format error: " ++ cut0 bs ++ [ch_nl].

(** What b_string_parse and b_int_parse test after strtol. *)
Definition strtol_failed (e val : Z) : bool :=
  ((e =? ERANGE) && ((val =? LONG_MAX) || (val =? LONG_MIN))) || (negb (e =? 0) && (val =? 0)).

Definition p_string (e : Z) (bs : list Z) : presult (list Z) :=
  match find_chr ch_colon (Some <$> bs) with
  | Found i =>
      let k := Z.to_nat (if Z.of_nat i <? INTEGER_LEN then Z.of_nat i else INTEGER_LEN) in
      match strtol (take k bs ++ replicate (Z.to_nat (INTEGER_LEN + 1) - k) 0) with
      | None => PFault
      | Some r =>
          let e := if st_erange r then ERANGE else e in
          let val := st_val r in
          if strtol_failed e val then PErr e
          else if (0 <=? val) && (Z.of_nat (S i) + val <=? Z.of_nat (length bs))
          then POk (take (Z.to_nat val) (drop (S i) bs)) (drop (S i + Z.to_nat val) bs) e
          else PFault
      end
  | Absent =>
      if trace_fits "b_string_parse" 165 (Z.of_nat (length (format_error bs))) then PErr e
      else PFault
  | RunsOff | Garbage => PFault
  end.

Definition p_int (e : Z) (bs : list Z) : presult Z :=
  match find_chr ch_e (Some <$> bs) with
  | Found i =>
      let len := u32 (Z.of_nat i) in
      let k := Z.to_nat (if len <? INTEGER_LEN then len else INTEGER_LEN) in
      match strtol (take k (drop 1 bs) ++ replicate (Z.to_nat INTEGER_LEN - k) 0) with
      | None => PFault
      | Some r =>
          let e := if st_erange r then ERANGE else e in
          let val := u32 (st_val r) in
          if strtol_failed e val then PErr e else POk val (drop (S i) bs) e
      end
  | Absent =>
      if trace_fits "b_int_parse" 235 (Z.of_nat (length (format_error bs))) then PErr e
      else PFault
  | RunsOff | Garbage => PFault
  end.

Fixpoint p_list (fuel : nat) (e : Z) (bs : list Z) : presult (list bval) :=
  match fuel with
  | O => PFuel
  | S fuel =>
      match bs with
      | [] => PFault
      | c :: bs' => if c =? ch_l then p_items fuel e bs' else PErr e
      end
  end
with p_items (fuel : nat) (e : Z) (bs : list Z) : presult (list bval) :=
  match fuel with
  | O => PFuel
  | S fuel =>
      match bs with
      | [] => PFault
      | c :: bs' =>
          if c =? ch_e then POk [] bs' e
          else pbind (p_value fuel e bs) (fun v rest e => pmap (cons v) (p_items fuel e rest))
      end
  end
with p_dict (fuel : nat) (e : Z) (bs : list Z) : presult (list (list Z * bval)) :=
  match fuel with
  | O => PFuel
  | S fuel =>
      match bs with
      | [] => PFault
      | c :: bs' => if c =? ch_d then p_ditems fuel e bs' else PErr e
      end
  end
with p_ditems (fuel : nat) (e : Z) (bs : list Z) : presult (list (list Z * bval)) :=
  match fuel with
  | O => PFuel
  | S fuel =>
      match bs with
      | [] => PFault
      | c :: bs' =>
          if c =? ch_e then POk [] bs' e
          else
            pbind (p_string e bs) (fun k rest e =>
            pbind (p_value fuel e rest) (fun v rest e =>
            pmap (cons (k, v)) (p_ditems fuel e rest)))
      end
  end
with p_value (fuel : nat) (e : Z) (bs : list Z) : presult bval :=
  match fuel with
  | O => PFuel
  | S fuel' =>
      match bs with
      | [] => PFault
      | c :: _ =>
          if c =? ch_l then pmap VList (p_list fuel' e bs)
          else if c =? ch_i then pmap VInt (p_int e bs)
          else if c =? ch_d then pmap VDict (p_dict fuel' e bs)
          else pmap VStr (p_string e bs)
      end
  end.

(** ** Sizes

    [vsize v] bounds the fuel needed to release the object that represents [v]. *)

Fixpoint vsize (v : bval) : nat :=
  match v with
  | VInt _ | VStr _ => 0
  | VList vs => S (S (sum_list (map (fun v => S (vsize v)) vs)))
  | VDict kvs => S (S (sum_list (map (fun kv => S (vsize (snd kv))) kvs)))
  end.

Definition items_size (vs : list bval) : nat := sum_list (map (fun v => S (vsize v)) vs).
Definition ditems_size (kvs : list (list Z * bval)) : nat :=
  sum_list (map (fun kv => S (vsize (snd kv))) kvs).

Lemma items_size_app vs ws : items_size (vs ++ ws) = (items_size vs + items_size ws)%nat.
Proof. unfold items_size. rewrite map_app, sum_list_with_app. done. Qed.

Lemma ditems_size_app vs ws : ditems_size (vs ++ ws) = (ditems_size vs + ditems_size ws)%nat.
Proof. unfold ditems_size. rewrite map_app, sum_list_with_app. done. Qed.

Lemma items_size_length vs : (length vs <= items_size vs)%nat.
Proof. induction vs as [|v vs IH]; cbn in *; [lia|]. unfold items_size in *. cbn. lia. Qed.

Lemma ditems_size_length kvs : (length kvs <= ditems_size kvs)%nat.
Proof. induction kvs as [|v vs IH]; cbn in *; [lia|]. unfold ditems_size in *. cbn. lia. Qed.

(** ** The reference parser consumes its input *)

Ltac presult_cases H :=
  try discriminate H;
  repeat match type of H with
         | context [match ?x with _ => _ end] => destruct x eqn:?; try discriminate H
         | context [if ?x then _ else _] => destruct x eqn:?; try discriminate H
         end.

Lemma pbind_ok {A B} (r : presult A) (k : A -> list Z -> Z -> presult B) b rest e :
  pbind r k = POk b rest e -> ∃ a rest' e', r = POk a rest' e' ∧ k a rest' e' = POk b rest e.
Proof. destruct r; cbn; naive_solver. Qed.

Lemma pmap_ok {A B} (f : A -> B) (r : presult A) b rest e :
  pmap f r = POk b rest e -> ∃ a, r = POk a rest e ∧ f a = b.
Proof. destruct r; cbn; naive_solver. Qed.

Lemma p_string_consumes e bs s rest e' :
  p_string e bs = POk s rest e' -> (length rest < length bs)%nat.
Proof.
  unfold p_string. intros H.
  destruct (find_chr _ _) as [i| | |] eqn:Hi; presult_cases H; injection H as <- <- <-;
    apply find_chr_found, lookup_lt_Some in Hi; rewrite length_drop; lia.
Qed.

Lemma p_int_consumes e bs n rest e' :
  p_int e bs = POk n rest e' -> (length rest < length bs)%nat.
Proof.
  unfold p_int. intros H.
  destruct (find_chr _ _) as [i| | |] eqn:Hi; presult_cases H; injection H as <- <- <-;
    apply find_chr_found, lookup_lt_Some in Hi; rewrite length_drop; lia.
Qed.

(** Every two units of fuel needed to release a value were paid for by a byte
    of input. *)
Definition within {A} (size : A -> nat) (bs : list Z) (r : presult A) : Prop :=
  ∀ a rest e, r = POk a rest e -> (size a + 2 * length rest <= 2 * length bs)%nat.

Lemma p_sizes fuel :
  (∀ e bs, within (fun vs => 4 + items_size vs)%nat bs (p_list fuel e bs)) ∧
  (∀ e bs, within (fun vs => 2 + items_size vs)%nat bs (p_items fuel e bs)) ∧
  (∀ e bs, within (fun vs => 4 + ditems_size vs)%nat bs (p_dict fuel e bs)) ∧
  (∀ e bs, within (fun vs => 2 + ditems_size vs)%nat bs (p_ditems fuel e bs)) ∧
  (∀ e bs, within (fun v => 1 + vsize v)%nat bs (p_value fuel e bs)).
Proof.
  unfold within.
  induction fuel as [|fuel (IHl & IHi & IHd & IHdi & IHv)]; [by split_and!|].
  split_and!; intros e bs a rest e' H; cbn in H; destruct bs as [|c bs']; try discriminate H;
    cbn [length].
  - destruct (c =? ch_l); [|done]. apply IHi in H. lia.
  - destruct (c =? ch_e); [injection H as <- <- <-; cbn; lia|].
    apply pbind_ok in H as (v & r1 & e1 & H1 & H2). apply pmap_ok in H2 as (vs & H2 & <-).
    apply IHv in H1. apply IHi in H2. unfold items_size in *. cbn in *. lia.
  - destruct (c =? ch_d); [|done]. apply IHdi in H. lia.
  - destruct (c =? ch_e); [injection H as <- <- <-; cbn; lia|].
    apply pbind_ok in H as (k & r0 & e0 & H0 & H). apply p_string_consumes in H0.
    apply pbind_ok in H as (v & r1 & e1 & H1 & H2). apply pmap_ok in H2 as (vs & H2 & <-).
    apply IHv in H1. apply IHdi in H2. unfold ditems_size in *. cbn in *. lia.
  - destruct (c =? ch_l); [apply pmap_ok in H as (vs & H & <-); apply IHl in H; cbn in *; unfold items_size in *; lia|].
    destruct (c =? ch_i).
    { apply pmap_ok in H as (vs & H & <-). apply p_int_consumes in H. cbn in *; lia. }
    destruct (c =? ch_d); [apply pmap_ok in H as (vs & H & <-); apply IHd in H; cbn in *; unfold ditems_size in *; lia|].
    apply pmap_ok in H as (vs & H & <-). apply p_string_consumes in H. cbn in *; lia.
Qed.

(** So it terminates: fuel linear in the input is always enough. *)
Lemma p_string_fuel e bs : p_string e bs ≠ PFuel.
Proof. unfold p_string. repeat case_match; done. Qed.

Lemma p_int_fuel e bs : p_int e bs ≠ PFuel.
Proof. unfold p_int. repeat case_match; done. Qed.

Lemma pmap_fuel {A B} (f : A -> B) r : r ≠ PFuel -> pmap f r ≠ PFuel.
Proof. by destruct r. Qed.

Lemma pbind_fuel {A B} (r : presult A) (k : A -> list Z -> Z -> presult B) :
  r ≠ PFuel -> (∀ a rest e, r = POk a rest e -> k a rest e ≠ PFuel) -> pbind r k ≠ PFuel.
Proof. destruct r; cbn; eauto. Qed.

Lemma p_terminates fuel :
  (∀ e bs, (3 * length bs + 1 <= fuel)%nat -> p_list fuel e bs ≠ PFuel) ∧
  (∀ e bs, (3 * length bs + 3 <= fuel)%nat -> p_items fuel e bs ≠ PFuel) ∧
  (∀ e bs, (3 * length bs + 1 <= fuel)%nat -> p_dict fuel e bs ≠ PFuel) ∧
  (∀ e bs, (3 * length bs + 3 <= fuel)%nat -> p_ditems fuel e bs ≠ PFuel) ∧
  (∀ e bs, (3 * length bs + 2 <= fuel)%nat -> p_value fuel e bs ≠ PFuel).
Proof.
  induction fuel as [|fuel (IHl & IHi & IHd & IHdi & IHv)]; [split_and!; intros; lia|].
  destruct (p_sizes fuel) as (_ & _ & _ & _ & Hsz).
  split_and!; intros e bs Hf; destruct bs as [|c bs']; try done; cbn [length] in Hf; cbn.
  - destruct (c =? ch_l); [|done]. apply IHi. lia.
  - destruct (c =? ch_e); [done|]. apply pbind_fuel; [apply IHv; cbn; lia|].
    intros v rest e1 Hv. apply Hsz in Hv. cbn in Hv. apply pmap_fuel, IHi. lia.
  - destruct (c =? ch_d); [|done]. apply IHdi. lia.
  - destruct (c =? ch_e); [done|]. apply pbind_fuel; [apply p_string_fuel|].
    intros k r0 e0 Hk. apply p_string_consumes in Hk. cbn in Hk.
    apply pbind_fuel; [apply IHv; lia|].
    intros v rest e1 Hv. apply Hsz in Hv. apply pmap_fuel, IHdi. lia.
  - destruct (c =? ch_l); [apply pmap_fuel, IHl; cbn; lia|].
    destruct (c =? ch_i); [apply pmap_fuel, p_int_fuel|].
    destruct (c =? ch_d); [apply pmap_fuel, IHd; cbn; lia|].
    apply pmap_fuel, p_string_fuel.
Qed.
