(* ===== verification/BRep.v ===== *)
(** * B-coded objects in memory

    The representation of a value of [BSpec] by the objects of b_parse.h, and
    the specifications of the operations of src/b_parse.c with respect to it:
    allocation and release are exact (nothing leaks, nothing is freed twice),
    and the parsers refine the reference parser. *)

From iris.proofmode Require Import environments proofmode.
From S2P Require Import Prelude CTypes HProp CMem CWp CLib Trace DList BParse BSpec.
Set Warnings "-rewrite-rw".
Open Scope Z_scope.

(** ** Representation *)

(** A string object: its characters and a NUL in a block of its own, which may
    be larger than what was asked for. *)
Definition is_string (pv : ptr) (l : loc) (s : list Z) : hProp :=
  (∃ b tl, l ↦ BString pv (obj_ptr b) (obj_ptr b) (u32 (Z.of_nat (length s))) ∗
    b ↦ ((Some <$> (s ++ [0])) ++ tl))%I.

(** The key array of a dictionary entry whose key string is [k]. *)
Definition dkey (k : list Z) : list mbyte :=
  let c := take (Z.to_nat KEY_LEN) (cut0 k) in
  (Some <$> c) ++ replicate (Z.to_nat KEY_LEN - length c) (Some 0).

Definition vtype (v : bval) : Z :=
  match v with
  | VInt _ => ch_i
  | VStr _ => ch_s
  | VList _ => ch_l
  | VDict _ => ch_d
  end.

(** [P] of corresponding members of two lists. *)
Definition sep2 {A B} (P : A -> B -> hProp) : list A -> list B -> hProp :=
  fix go xs ys :=
    match xs, ys with
    | [], [] => emp
    | x :: xs', y :: ys' => P x y ∗ go xs' ys'
    | _, _ => False
    end%I.

Fixpoint is_val (pv : ptr) (l : loc) (v : bval) : hProp :=
  match v with
  | VInt n => l ↦ BInt pv n
  | VStr s => is_string pv l s
  | VList vs => ∃ es, l ↦ BList pv ∗ dlist l es ∗
      sep2 (fun v e => ∃ x, e ↦ LEntry (obj_ptr x) (vtype v) ∗ is_val (obj_ptr e) x v) vs es
  | VDict kvs => ∃ es, l ↦ BDict pv ∗ dlist l es ∗
      sep2 (fun kv e => ∃ x,
        e ↦ DEntry (dkey (fst kv)) (obj_ptr x) (vtype (snd kv)) ∗ is_val (obj_ptr e) x (snd kv))
        kvs es
  end%I.

Definition is_item (v : bval) (e : loc) : hProp :=
  (∃ x, e ↦ LEntry (obj_ptr x) (vtype v) ∗ is_val (obj_ptr e) x v)%I.

Definition is_ditem (kv : list Z * bval) (e : loc) : hProp :=
  (∃ x, e ↦ DEntry (dkey (fst kv)) (obj_ptr x) (vtype (snd kv)) ∗ is_val (obj_ptr e) x (snd kv))%I.

Definition is_list (pv : ptr) (l : loc) (vs : list bval) : hProp :=
  (∃ es, l ↦ BList pv ∗ dlist l es ∗ sep2 is_item vs es)%I.

Definition is_dict (pv : ptr) (l : loc) (kvs : list (list Z * bval)) : hProp :=
  (∃ es, l ↦ BDict pv ∗ dlist l es ∗ sep2 is_ditem kvs es)%I.

Lemma is_val_list pv l vs : is_val pv l (VList vs) ⊣⊢ is_list pv l vs.
Proof. done. Qed.

Lemma is_val_dict pv l kvs : is_val pv l (VDict kvs) ⊣⊢ is_dict pv l kvs.
Proof. done. Qed.

Section sep2.
Context {A B : Type} (P : A -> B -> hProp).

Lemma sep2_length xs ys : sep2 P xs ys ⊢ ⌜length xs = length ys⌝.
Proof.
  revert ys. induction xs as [|x xs IH]; intros [|y ys]; cbn.
  - by iIntros "_".
  - by iIntros "?".
  - by iIntros "?".
  - iIntros "[_ H]". iDestruct (IH with "H") as %->. done.
Qed.

Lemma sep2_snoc xs ys x y : sep2 P xs ys ∗ P x y ⊢ sep2 P (xs ++ [x]) (ys ++ [y]).
Proof.
  revert ys. induction xs as [|x' xs IH]; intros [|y' ys]; cbn.
  - iIntros "[_ $]".
  - iIntros "[[] _]".
  - iIntros "[[] _]".
  - iIntros "[[$ H] Hxy]". iApply IH. iFrame.
Qed.
End sep2.

(** Globals after a function that may write errno and stdout. *)
Definition upd (g : globals) (e : Z) (g' : globals) : Prop := quiet (set_errno e g) g'.

Lemma upd_oom g e g' : upd g e g' -> oom g' = oom g.
Proof. by intros (_ & ? & _). Qed.
Lemma upd_errno g e g' : upd g e g' -> errno g' = e.
Proof. by intros (? & _). Qed.
Lemma upd_slack g e g' : upd g e g' -> slack g' = slack g.
Proof. by intros (_ & _ & ? & _). Qed.
Lemma upd_refl g : upd g (errno g) g.
Proof. by destruct g; repeat split. Qed.
Lemma upd_trans g e g' e' g'' : upd g e g' -> upd g' e' g'' -> upd g e' g''.
Proof.
  intros (?&?&?&?&?&?) (?&?&?&?&?&?). cbn in *.
  repeat split; cbn; try congruence.
Qed.
Lemma upd_quiet g e g' g'' : upd g e g' -> quiet g' g'' -> upd g e g''.
Proof. unfold upd. intros. by etrans. Qed.
#[export] Hint Resolve upd_refl : core.

(** ** Strings *)

Section strings.
Implicit Types (l b : loc) (bs s : list Z) (g : globals).

Lemma wp_b_string_alloc g Q :
  oom g = [] ->
  (∀ l, l ↦ BString PNull PNull PNull 0 -∗ Q (obj_ptr l) g) ⊢ wp b_string_alloc g Q.
Proof.
  intros Hoom. iIntros "HQ". iApply wp_malloc; [done|]. iIntros (l) "Hl _". by iApply "HQ".
Qed.

Lemma wp_b_string_free pv l s g Q :
  is_string pv l s ∗ Q tt g ⊢ wp (b_string_free (obj_ptr l)) g Q.
Proof.
  iIntros "[(%b & %tl & Hl & Hb) HQ]". rewrite /b_string_free /is_null bool_decide_false //.
  wp_step. cbn [bs_head]. rewrite bool_decide_false //.
  iApply wp_bind. iApply (wp_free (T := list mbyte)). iFrame "Hb". iSplitR; [done|].
  iApply (wp_free (T := b_string)). by iFrame.
Qed.

(** A string object that has no characters yet. *)
Lemma wp_b_string_free_empty pv l n g Q :
  l ↦ BString pv PNull PNull n ∗ Q tt g ⊢ wp (b_string_free (obj_ptr l)) g Q.
Proof.
  iIntros "[Hl HQ]". rewrite /b_string_free /is_null bool_decide_false //.
  wp_step. cbn [bs_head]. rewrite bool_decide_true //. wp_step.
  iApply (wp_free (T := b_string)). by iFrame.
Qed.

Lemma all_init_fmap bs : all_init (Some <$> bs) = Some bs.
Proof. induction bs as [|b bs IH]; [done|]. cbn. by rewrite IH. Qed.

(** memcpy into a local array. *)
Lemma wp_copy_to_local size b o k bs g Q :
  (o + k <= length bs)%nat -> Z.of_nat k <= size ->
  b ↦ (Some <$> bs) ∗
  (b ↦ (Some <$> bs) -∗
   Q (take k (drop o bs) ++ replicate (Z.to_nat size - k) 0) g)
  ⊢ wp (copy_to_local size (PAt b (Z.of_nat o)) (Z.of_nat k)) g Q.
Proof.
  intros Hk Hs. iIntros "[Hb HQ]". rewrite /copy_to_local (proj2 (Z.ltb_ge _ _)) //.
  iApply wp_bind. iApply (wp_read_bytes b _ _ (Some <$> bs)); [lia|lia|rewrite length_fmap; lia|].
  iFrame "Hb". iIntros "Hb". rewrite slice_fmap all_init_fmap. wp_step.
  rewrite /slice !Nat2Z.id. replace (Z.to_nat (size - Z.of_nat k)) with (Z.to_nat size - k)%nat by lia.
  by iApply "HQ".
Qed.

(** strtol on a local array. *)
Lemma wpx_c_strtol tmp g Q E :
  (strtol tmp = None -> ∀ f, E f) ->
  (match strtol tmp with
   | Some r => Q (st_val r, PStack (st_end r)) (if st_erange r then set_errno ERANGE g else g)
   | None => True
   end) ⊢ wpx (c_strtol tmp) g Q E.
Proof.
  intros HE. iIntros "HQ". rewrite /c_strtol. destruct (strtol tmp) as [r|] eqn:Hr.
  - wp_steps. done.
  - iApply wpx_fail; auto.
Qed.

(** The outcome of a parser that the reference parser determines: [res] is what
    the latter says of the bytes from offset [o] on. *)
Definition parsed {A} (g : globals) (b : loc) (bs : list Z) (o : nat) (res : presult A)
    (ok : A -> hProp) (err : hProp) (r : ptr) (g' : globals) : hProp :=
  (b ↦ (Some <$> bs) ∗
  match res with
  | POk a rest e =>
      ⌜⌜upd g e g' ∧ ∃ o' : nat, r = PAt b (Z.of_nat o') ∧ rest = drop o' bs ∧ (o < o' <= length bs)%nat⌝⌝
      ∗ ok a
  | PErr e => ⌜⌜upd g e g' ∧ r = PNull⌝⌝ ∗ err
  | _ => False
  end)%I.

Lemma wpx_format_error func line b o bs c g Q E :
  find_chr c (Some <$> drop o bs) = Absent -> (o <= length bs)%nat ->
  (trace_fits func line (Z.of_nat (length (format_error (drop o bs)))) = false -> ∀ f, E f) ->
  b ↦ (Some <$> bs) ∗
  (∀ g', ⌜⌜quiet g g' ∧ trace_fits func line (Z.of_nat (length (format_error (drop o bs)))) = true⌝⌝
     -∗ b ↦ (Some <$> bs) -∗ Q tt g')
  ⊢ wpx (TRACE_ERROR func line
       (t ← get_cstr (PAt b (Z.of_nat o)); mret (str "B-coding string format error: " ++ t ++ [ch_nl])))
       g Q E.
Proof.
  intros Hf Ho HE. iIntros "[Hb HQ]". iApply wpx_print_msg; [done|]. iApply wpx_bind.
  rewrite /get_cstr. iApply (wp_bytes_from b o (Some <$> bs)); [by rewrite length_fmap|]. iFrame "Hb". iIntros "Hb".
  rewrite -fmap_drop (find_chr_absent_c_string _ _ Hf). wp_steps.
  change (str _ ++ _) with (format_error (drop o bs)).
  destruct (trace_fits func line _) eqn:Hfit.
  - iIntros (g') "%Hq". by iApply ("HQ" with "[//] Hb").
  - iPureIntro. by apply HE.
Qed.

Lemma patch_0 {A} (xs ds : list A) : patch xs 0 ds = ds ++ drop (length ds) xs.
Proof. by rewrite /patch. Qed.

(** The characters after the colon at index [i] can be copied. *)
Lemma wp_b_string_fill pv l d h n b bs i val g Q :
  oom g = [] -> Z.of_nat (length bs) < 2 ^ 62 -> (S i + val <= length bs)%nat ->
  l ↦ BString pv d h n ∗ b ↦ (Some <$> bs) ∗
  (is_string pv l (take val (drop (S i) bs)) -∗ b ↦ (Some <$> bs) -∗
   Q (PAt b (Z.of_nat (S i + val))) g)
  ⊢ wp (b_string_fill (PAt b (Z.of_nat i)) (obj_ptr l) (Z.of_nat val)) g Q.
Proof.
  intros Hoom Hlen Hi. iIntros "(Hl & Hb & HQ)".
  rewrite /b_string_fill (proj2 (Z.eqb_neq _ _)); [|rewrite /LONG_MAX; lia].
  iApply wp_bind. iApply wp_malloc_bytes; [done|rewrite /PTRDIFF_MAX; lia|]. iIntros (c) "Hc".
  rewrite /b_string_set /b_string_set_head /b_string_set_length /b_string_get /memcpy /put_byte.
  wp_steps. cbn [bs_prev bs_data bs_head bs_len].
  rewrite /u64 Z.mod_small; [|lia].
  iApply wp_bind. iApply wp_bind. iApply (wp_read_bytes b _ _ (Some <$> bs)); [lia..|rewrite length_fmap; lia|].
  iFrame "Hb". iIntros "Hb". rewrite slice_fmap.
  set (s := slice bs _ _).
  assert (Hs : s = take val (drop (S i) bs)).
  { rewrite /s /slice. f_equal; [lia|]. f_equal. lia. }
  assert (Hsl : length s = val) by (rewrite Hs length_take length_drop; lia).
  iApply (wp_write_bytes c 0 _ (replicate (Z.to_nat (Z.of_nat val + 1) + slack g) None));
    [done|rewrite length_fmap length_replicate; lia|].
  iFrame "Hc". iIntros "Hc". rewrite patch_0 length_fmap Hsl drop_replicate.
  replace (Z.to_nat (Z.of_nat val + 1) + slack g - val)%nat with (S (slack g)) by lia.
  wp_step. rewrite Z.add_0_l. iApply wp_bind.
  iApply (wp_write_bytes c _ _ ((Some <$> s) ++ replicate (S (slack g)) None));
    [lia|rewrite length_app length_fmap length_replicate /=; lia|].
  iFrame "Hc". iIntros "Hc".
  replace (patch _ _ _) with ((Some <$> (s ++ [0])) ++ replicate (slack g) (None : mbyte)).
  - wp_step. replace (Z.of_nat i + (Z.of_nat val + 1)) with (Z.of_nat (S i + val)) by lia.
    iApply ("HQ" with "[Hl Hc] Hb"). rewrite -Hs -Hsl. iExists c, _. iFrame.
  - rewrite /patch Nat2Z.id take_app_length'; [|by rewrite length_fmap].
    rewrite fmap_app -app_assoc. do 2 f_equal. cbn [length].
    rewrite drop_app_ge length_fmap; [|lia]. rewrite drop_replicate. f_equal. lia.
Qed.

(** They cannot when the length is negative or goes past the end. *)
Lemma wpx_b_string_fill_bad pv l d h n b bs i val g Q (E : fault -> Prop) :
  oom g = [] -> Z.of_nat (length bs) < 2 ^ 62 -> LONG_MIN <= val <= LONG_MAX ->
  (0 <=? val) && (Z.of_nat (S i) + val <=? Z.of_nat (length bs)) = false -> (∀ f, E f) ->
  l ↦ BString pv d h n ∗ b ↦ (Some <$> bs)
  ⊢ wpx (b_string_fill (PAt b (Z.of_nat i)) (obj_ptr l) val) g Q E.
Proof.
  intros Hoom Hlen Hval Hbad HE. iIntros "[Hl Hb]". rewrite /b_string_fill.
  case_match; [iApply wpx_fail; auto|].
  assert (Hrange : in_range (Some <$> bs : list mbyte) (Z.of_nat i + 1) (u64 val) = false).
  { rewrite /in_range length_fmap. apply andb_false_iff in Hbad as [Hbad|Hbad].
    - apply Z.leb_gt in Hbad. apply andb_false_iff. right. apply Z.leb_gt.
      rewrite /u64. rewrite /LONG_MIN /LONG_MAX in Hval.
      rewrite -(Z.mod_add val 1); [|lia]. rewrite Z.mod_small; lia.
    - apply Z.leb_gt in Hbad. apply andb_false_iff. right. apply Z.leb_gt.
      destruct (Z.le_gt_cases 0 val); rewrite /u64 /LONG_MIN /LONG_MAX in Hval |- *.
      + rewrite Z.mod_small; lia.
      + rewrite -(Z.mod_add val 1); [|lia]. rewrite Z.mod_small; lia. }
  assert (Hrest : ∀ p g', l ↦ BString pv d h n ∗ b ↦ (Some <$> bs) ∗ True ⊢ wpx (
    _ ← b_string_set (obj_ptr l) p;
    _ ← b_string_set_head (obj_ptr l) p;
    _ ← b_string_set_length (obj_ptr l) val;
    tmp_b ← b_string_get (obj_ptr l);
    s1 ← ptr_add (PAt b (Z.of_nat i)) 1;
    _ ← memcpy tmp_b s1 val;
    q ← ptr_add tmp_b val;
    _ ← put_byte q 0;
    ptr_add (PAt b (Z.of_nat i)) (val + 1)) g' Q E).
  { intros p g'. iIntros "(Hl & Hb & HT)".
    rewrite /b_string_set /b_string_set_head /b_string_set_length /b_string_get /memcpy.
    wp_steps. iApply wpx_bind. iApply wpx_bind.
    iApply (wpx_read_bytes_bad b _ _ (Some <$> bs)); [done|done|]. by iFrame. }
  iApply wpx_bind. iApply wpx_wp. iApply wp_malloc_bytes_any; [done|]. iSplit.
  - iIntros (c bs') "Hc". iApply Hrest. by iFrame.
  - iApply Hrest. by iFrame.
Qed.

Lemma wpx_b_string_parse pv l d h n b bs o g :
  oom g = [] -> Z.of_nat (length bs) < 2 ^ 62 -> (o <= length bs)%nat ->
  l ↦ BString pv d h n ∗ b ↦ (Some <$> bs)
  ⊢ wpx (b_string_parse (PAt b (Z.of_nat o)) (obj_ptr l)) g
      (parsed g b bs o (p_string (errno g) (drop o bs)) (is_string pv l) (l ↦ BString pv d h n))
      (fun _ => p_string (errno g) (drop o bs) = PFault).
Proof.
  intros Hoom Hlen Ho. iIntros "[Hl Hb]". rewrite /b_string_parse. wp_steps.
  iApply wpx_bind. iApply wpx_strchr; [done| |].
  { intros Hf f. rewrite /p_string Hf. reflexivity. }
  iFrame "Hb". iIntros "Hb". rewrite /p_string.
  destruct (find_chr ch_colon (Some <$> drop o bs)) as [i| | |] eqn:Hf; [| |done..]; last first.
  { rewrite /is_null bool_decide_true //. cbn [negb]. iApply wpx_bind.
    iApply (wpx_format_error _ _ _ _ _ _ _ _ _ Hf Ho).
    { intros Hfit f. rewrite Hfit. reflexivity. }
    iFrame "Hb". iIntros (g') "[%Hq %Hfit] Hb". rewrite Hfit. wp_step.
    rewrite /parsed. iFrame. iPureIntro. split; [|done]. by eapply upd_quiet. }
  rewrite /is_null bool_decide_false //. cbn [negb].
  pose proof (find_chr_found _ _ _ Hf) as Hi. apply lookup_lt_Some in Hi.
  rewrite length_drop in Hi |- *. wp_step.
  replace (Z.of_nat (o + i) - Z.of_nat o) with (Z.of_nat i) by lia.
  set (k := Z.to_nat (if Z.of_nat i <? INTEGER_LEN then Z.of_nat i else INTEGER_LEN)).
  assert (Hk : (if Z.of_nat i <? INTEGER_LEN then Z.of_nat i else INTEGER_LEN) = Z.of_nat k
               ∧ (k <= i)%nat ∧ (k <= 20)%nat).
  { rewrite /k /INTEGER_LEN. destruct (Z.ltb_spec (Z.of_nat i) 20); lia. }
  destruct Hk as (-> & Hki & Hk20). iApply wpx_bind. iApply wpx_wp.
  iApply (wp_copy_to_local _ b o k bs); [lia|rewrite /INTEGER_LEN; lia|].
  iFrame "Hb". iIntros "Hb". iApply wpx_bind. iApply wpx_c_strtol.
  { intros Hs f. rewrite Hs. reflexivity. }
  destruct (strtol _) as [r|] eqn:Hr; [|done]. apply strtol_range in Hr.
  set (e := if st_erange r then ERANGE else errno g).
  set (g1 := if st_erange r then set_errno ERANGE g else g).
  assert (Hg1 : upd g e g1) by (rewrite /e /g1; by destruct (st_erange r)).
  wp_step. rewrite (upd_errno _ _ _ Hg1). change (_ || _) with (strtol_failed e (st_val r)).
  destruct (strtol_failed e (st_val r)) eqn:Hfail.
  { iApply wpx_bind. iApply wpx_wp. iApply wp_print_msg; [vm_compute; reflexivity|].
    iIntros (g2) "%Hq". wp_step. iFrame. iPureIntro. split; [by eapply upd_quiet|done]. }
  rewrite bool_decide_false //. destruct (_ && _) eqn:Hval.
  - apply andb_true_iff in Hval as [H0 H1]. apply Z.leb_le in H0, H1.
    iApply wpx_wp. rewrite -{1}(Z2Nat.id (st_val r)) //.
    iApply (wp_b_string_fill with "[$Hl $Hb]"); [by rewrite (upd_oom _ _ _ Hg1)|done|lia|].
    iIntros "Hs Hb". rewrite !drop_drop /parsed. iFrame "Hb".
    replace (o + S i)%nat with (S (o + i)) by lia. iFrame "Hs".
    iPureIntro. split; [done|]. eexists. split; [done|]. split; [f_equal; lia|lia].
  - iApply (wpx_b_string_fill_bad with "[$Hl $Hb]"); [by rewrite (upd_oom _ _ _ Hg1)|done|done| |done].
    rewrite -Hval. f_equal. apply eq_true_iff_eq. rewrite !Z.leb_le. lia.
Qed.

End strings.

(** ** Integers *)

Section ints.
Implicit Types (l b : loc) (bs : list Z) (g : globals).

Lemma wp_b_int_alloc g Q :
  oom g = [] -> (∀ l, l ↦ BInt PNull 0 -∗ Q (obj_ptr l) g) ⊢ wp b_int_alloc g Q.
Proof.
  intros Hoom. iIntros "HQ". iApply wp_malloc; [done|]. iIntros (l) "Hl _". by iApply "HQ".
Qed.

Lemma wp_b_int_free pv l n g Q : l ↦ BInt pv n ∗ Q tt g ⊢ wp (b_int_free (obj_ptr l)) g Q.
Proof.
  iIntros "[Hl HQ]". rewrite /b_int_free /is_null bool_decide_false //.
  iApply (wp_free (T := b_int)). by iFrame.
Qed.

Lemma u32_le z : 0 <= z -> u32 z <= z.
Proof. intros. apply Z.mod_le; lia. Qed.

(** An unsigned int never equals LONG_MAX or LONG_MIN. *)
Lemma u32_not_long z : (u32 z =? LONG_MAX) || (u32 z =? LONG_MIN) = false.
Proof.
  pose proof (u32_range z). rewrite /LONG_MAX /LONG_MIN.
  rewrite !(proj2 (Z.eqb_neq _ _)) //; lia.
Qed.

Lemma wpx_b_int_parse pv l n b bs o g :
  oom g = [] -> (o <= length bs)%nat ->
  l ↦ BInt pv n ∗ b ↦ (Some <$> bs)
  ⊢ wpx (b_int_parse (PAt b (Z.of_nat o)) (obj_ptr l)) g
      (parsed g b bs o (p_int (errno g) (drop o bs)) (fun v => l ↦ BInt pv v) (∃ v, l ↦ BInt pv v))
      (fun _ => p_int (errno g) (drop o bs) = PFault).
Proof.
  intros Hoom Ho. iIntros "[Hl Hb]". rewrite /b_int_parse. wp_steps.
  iApply wpx_bind. iApply wpx_strchr; [done| |].
  { intros Hf f. rewrite /p_int Hf. reflexivity. }
  iFrame "Hb". iIntros "Hb". rewrite /p_int.
  destruct (find_chr ch_e (Some <$> drop o bs)) as [i| | |] eqn:Hf; [| |done..]; last first.
  { rewrite /is_null bool_decide_true //. cbn [negb]. iApply wpx_bind.
    iApply (wpx_format_error _ _ _ _ _ _ _ _ _ Hf Ho).
    { intros Hfit f. rewrite Hfit. reflexivity. }
    iFrame "Hb". iIntros (g') "[%Hq %Hfit] Hb". rewrite Hfit. wp_step.
    rewrite /parsed. iFrame. iPureIntro. split; [|done]. by eapply upd_quiet. }
  rewrite /is_null bool_decide_false //. cbn [negb].
  pose proof (find_chr_found _ _ _ Hf) as Hi. apply lookup_lt_Some in Hi.
  rewrite length_drop in Hi. wp_steps.
  replace (Z.of_nat (o + i) - (Z.of_nat o + 1) + 1) with (Z.of_nat i) by lia.
  replace (Z.of_nat o + 1) with (Z.of_nat (o + 1)) by lia.
  set (k := Z.to_nat (if u32 (Z.of_nat i) <? INTEGER_LEN then u32 (Z.of_nat i) else INTEGER_LEN)).
  pose proof (u32_range (Z.of_nat i)). pose proof (u32_le (Z.of_nat i) ltac:(lia)).
  assert (Hk : (if u32 (Z.of_nat i) <? INTEGER_LEN then u32 (Z.of_nat i) else INTEGER_LEN) = Z.of_nat k
               ∧ (k <= i)%nat ∧ (k <= 20)%nat).
  { rewrite /k /INTEGER_LEN. destruct (Z.ltb_spec (u32 (Z.of_nat i)) 20); lia. }
  destruct Hk as (-> & Hki & Hk20). iApply wpx_bind. iApply wpx_wp.
  iApply (wp_copy_to_local _ b (o + 1) k bs); [lia|rewrite /INTEGER_LEN; lia|].
  iFrame "Hb". iIntros "Hb". rewrite -drop_drop. iApply wpx_bind. iApply wpx_c_strtol.
  { intros Hs f. rewrite Hs. reflexivity. }
  destruct (strtol _) as [r|] eqn:Hr; [|done].
  set (e := if st_erange r then ERANGE else errno g).
  set (g1 := if st_erange r then set_errno ERANGE g else g).
  assert (Hg1 : upd g e g1) by (rewrite /e /g1; by destruct (st_erange r)).
  wp_steps. cbn [bi_prev]. rewrite (upd_errno _ _ _ Hg1).
  change (_ || _) with (strtol_failed e (u32 (st_val r))).
  destruct (strtol_failed e (u32 (st_val r))) eqn:Hfail.
  { iApply wpx_bind. iApply wpx_wp. iApply wp_print_msg; [vm_compute; reflexivity|].
    iIntros (g2) "%Hq". wp_step. iFrame. iPureIntro. split; [by eapply upd_quiet|done]. }
  rewrite bool_decide_false //. wp_step. rewrite /parsed. iFrame. iPureIntro.
  split; [done|]. exists (o + S i)%nat. split; [f_equal; lia|]. split; [by rewrite drop_drop|lia].
Qed.

End ints.

(** ** Building lists and dictionaries *)

Section build.
Implicit Types (l x e b : loc) (g : globals).

Lemma wp_b_list_alloc g Q :
  oom g = [] -> (∀ l, is_list PNull l [] -∗ Q (obj_ptr l) g) ⊢ wp b_list_alloc g Q.
Proof.
  intros Hoom. iIntros "HQ". iApply wp_bind. iApply wp_malloc; [done|]. iIntros (l) "Hl Hn".
  rewrite /is_null bool_decide_false //. iApply wp_bind. iApply wp_INIT_LIST_HEAD. iFrame "Hn".
  iIntros "Hr". wp_step. iApply "HQ". iExists []. by iFrame.
Qed.

Lemma wp_b_dict_alloc g Q :
  oom g = [] -> (∀ l, is_dict PNull l [] -∗ Q (obj_ptr l) g) ⊢ wp b_dict_alloc g Q.
Proof.
  intros Hoom. iIntros "HQ". iApply wp_bind. iApply wp_malloc; [done|]. iIntros (l) "Hl Hn".
  rewrite /is_null bool_decide_false //. iApply wp_bind. iApply wp_INIT_LIST_HEAD. iFrame "Hn".
  iIntros "Hr". wp_step. iApply "HQ". iExists []. by iFrame.
Qed.

(** An object is told its new owner. *)
Lemma wp_set_entry_prev pv p x v g Q :
  is_val pv x v ∗ (is_val p x v -∗ Q true g)
  ⊢ wp (set_entry_prev (vtype v) (obj_ptr x) p) g Q.
Proof.
  iIntros "[Hx HQ]". rewrite /set_entry_prev. destruct v; cbn [vtype]; cbn [Z.eqb Pos.eqb is_val].
  - wp_steps. cbn [bi_val]. by iApply "HQ".
  - iDestruct "Hx" as (b tl) "[Hx Hb]". wp_steps. cbn [bs_data bs_head bs_len].
    iApply "HQ". iExists b, tl. iFrame.
  - iDestruct "Hx" as (es) "(Hx & Hr & Hi)". wp_steps. iApply "HQ". iFrame.
  - iDestruct "Hx" as (es) "(Hx & Hr & Hi)". wp_steps. iApply "HQ". iFrame.
Qed.

Lemma wp_b_list_add pv pv' l x vs v g Q :
  oom g = [] ->
  is_list pv l vs ∗ is_val pv' x v ∗ (is_list pv l (vs ++ [v]) -∗ Q tt g)
  ⊢ wp (b_list_add (obj_ptr x) (obj_ptr l) (vtype v)) g Q.
Proof.
  intros Hoom. iIntros "(Hl & Hx & HQ)". rewrite /b_list_add /l_entry_alloc.
  iApply wp_bind. iApply wp_bind. iApply wp_malloc; [done|]. iIntros (e) "He Hn".
  rewrite /is_null !bool_decide_false //. iApply wp_bind. iApply wp_INIT_LIST_HEAD. iFrame "Hn".
  iIntros "Hn". wp_step. rewrite bool_decide_false //. cbn [negb]. wp_steps. cbn [le_type].
  iApply wp_bind. iApply wp_set_entry_prev. iFrame "Hx". iIntros "Hx".
  iDestruct "Hl" as (es) "(Hl & Hr & Hi)". rewrite ring_cons. iDestruct "Hn" as "[Hn _]".
  iApply wp_list_add_tail. iFrame "Hr Hn". iIntros "Hr". iApply "HQ".
  iExists (es ++ [e]). iFrame "Hl Hr". iApply sep2_snoc. iFrame.
Qed.

(** The key array after strncpy. *)
Lemma strncpy_bytes_dkey n k tl :
  strncpy_bytes n ((Some <$> (k ++ [0])) ++ tl) =
  inr ((Some <$> take n (cut0 k)) ++ replicate (n - length (take n (cut0 k))) (Some 0)).
Proof.
  revert n. induction k as [|c k IH]; intros [|n]; try done. cbn [cut0 fmap list_fmap app].
  rewrite /strncpy_bytes -/strncpy_bytes. destruct (c =? 0); [done|].
  rewrite -/(list_fmap _ _ _) IH. cbn. done.
Qed.

Lemma wp_b_dict_add pv pv' l x kb kvs k tl v g Q :
  oom g = [] ->
  is_dict pv l kvs ∗ is_val pv' x v ∗ kb ↦ ((Some <$> (k ++ [0])) ++ tl) ∗
  (is_dict pv l (kvs ++ [(k, v)]) -∗ kb ↦ ((Some <$> (k ++ [0])) ++ tl) -∗ Q tt g)
  ⊢ wp (b_dict_add (obj_ptr x) (obj_ptr kb) (obj_ptr l) (vtype v)) g Q.
Proof.
  intros Hoom. iIntros "(Hl & Hx & Hk & HQ)". rewrite /b_dict_add /d_entry_alloc.
  iApply wp_bind. iApply wp_bind. iApply wp_malloc; [done|]. iIntros (e) "He Hn".
  rewrite /is_null !bool_decide_false //. iApply wp_bind. iApply wp_INIT_LIST_HEAD. iFrame "Hn".
  iIntros "Hn". wp_steps. iApply wp_bind. rewrite /strncpy.
  iApply (wp_wpx _ _ _ (fun _ => False)); [auto|].
  iApply (wp_bytes_from kb 0); [lia|]. iFrame "Hk". iIntros "Hk". rewrite drop_0 strncpy_bytes_dkey.
  wp_steps. rewrite bool_decide_false //. cbn [negb]. wp_steps. cbn [de_type de_key de_val].
  iApply wp_bind. iApply wp_set_entry_prev. iFrame "Hx". iIntros "Hx".
  iDestruct "Hl" as (es) "(Hl & Hr & Hi)". rewrite ring_cons. iDestruct "Hn" as "[Hn _]".
  iApply wp_list_add_tail. iFrame "Hr Hn". iIntros "Hr". iApply ("HQ" with "[-Hk] Hk").
  iExists (es ++ [e]). iFrame "Hl Hr". iApply sep2_snoc. iFrame.
Qed.

End build.

(** ** Release

    Releasing a list or a dictionary gives back all the memory of its
    representation; the fuel needed is its size. *)

Section release.
Implicit Types (l x e : loc) (g : globals).

(** The loop invariant of the two release functions. *)
Definition still {A} (P : A -> loc -> hProp) (size : list A -> nat) (n : nat) (g : globals) (R : hProp)
    (es : list loc) (g' : globals) : hProp :=
  (∃ vs, sep2 P vs es ∗ ⌜⌜(size vs < n)%nat ∧ g' = g⌝⌝ ∗ R)%I.

Definition list_released (n : nat) : Prop := ∀ pv l vs g Q,
  (2 + items_size vs <= n)%nat -> is_list pv l vs ∗ Q tt g ⊢ wp (b_list_free n (obj_ptr l)) g Q.
Definition dict_released (n : nat) : Prop := ∀ pv l kvs g Q,
  (2 + ditems_size kvs <= n)%nat -> is_dict pv l kvs ∗ Q tt g ⊢ wp (b_dict_free n (obj_ptr l)) g Q.

Lemma wp_l_entry_free n e v nx pr g Q :
  list_released n -> dict_released n -> (vsize v <= n)%nat ->
  is_item v e ∗ e ↦ₙ (nx, pr) ∗ Q tt g ⊢ wp (l_entry_free (S n) (obj_ptr e)) g Q.
Proof.
  intros HL HD Hn. iIntros "((%x & He & Hx) & Hn & HQ)". cbn [l_entry_free]. wp_steps.
  cbn [le_type le_entry]. iApply wp_bind.
  iAssert (wp (free (obj_ptr e)) g Q) with "[He Hn HQ]" as "Hfree".
  { iApply (wp_free (T := l_entry)). iFrame "He HQ". by iExists _, _. }
  destruct v; cbn [vtype]; cbn [Z.eqb Pos.eqb is_val].
  - iApply wp_b_int_free. iFrame.
  - iApply wp_b_string_free. iFrame.
  - iApply HL; [exact Hn|]. iFrame "Hfree". iApply is_val_list. iFrame.
  - iApply HD; [exact Hn|]. iFrame "Hfree". iApply is_val_dict. iFrame.
Qed.

Lemma wp_d_entry_free n e kv nx pr g Q :
  list_released n -> dict_released n -> (vsize (snd kv) <= n)%nat ->
  is_ditem kv e ∗ e ↦ₙ (nx, pr) ∗ Q tt g ⊢ wp (d_entry_free (S n) (obj_ptr e)) g Q.
Proof.
  intros HL HD Hn. iIntros "((%x & He & Hx) & Hn & HQ)". cbn [d_entry_free]. wp_steps.
  cbn [de_type de_val]. iApply wp_bind.
  iAssert (wp (free (obj_ptr e)) g Q) with "[He Hn HQ]" as "Hfree".
  { iApply (wp_free (T := d_entry)). iFrame "He HQ". by iExists _, _. }
  destruct kv as [k v]; cbn [snd] in *. destruct v; cbn [vtype]; cbn [Z.eqb Pos.eqb is_val].
  - iApply wp_b_int_free. iFrame.
  - iApply wp_b_string_free. iFrame.
  - iApply HL; [exact Hn|]. iFrame "Hfree". iApply is_val_list. iFrame.
  - iApply HD; [exact Hn|]. iFrame "Hfree". iApply is_val_dict. iFrame.
Qed.

Lemma list_released_S n : list_released (pred n) -> dict_released (pred n) -> list_released (S n).
Proof.
  intros HL HD pv l vs g Q Hn. iIntros "[(%es & Hl & Hr & Hi) HQ]". cbn [b_list_free].
  rewrite /is_null bool_decide_false //. iApply wp_bind.
  iDestruct (sep2_length with "Hi") as %Hlen. pose proof (items_size_length vs).
  iApply (wp_wand with "[Hr Hi HQ]").
  { iApply (wp_list_for_each_entry_consume n l es _ (still is_item items_size n g (Q tt g))); [lia| |].
    - intros e es' g' nx pr. iIntros "[(%ws & Hws & %Hsz & HQ) Hn]". destruct Hsz as [Hsz ->].
      destruct ws as [|w ws]; [done|]. cbn [sep2]. iDestruct "Hws" as "[Hw Hws]".
      rewrite /items_size /= -/(items_size ws) in Hsz. destruct n as [|n]; [lia|].
      iApply wp_bind. iApply (wp_l_entry_free n e w nx pr); [done|done|lia|]. iFrame "Hw Hn".
      wp_step. iSplitR; [done|]. iExists ws. iFrame. iPureIntro. split; [lia|done].
    - iFrame "Hr". iExists vs. iFrame. iPureIntro. split; [lia|done]. }
  iIntros (r g') "(-> & Hh & (%ws & Hws & %Hsz & HQ))". destruct Hsz as [_ ->].
  destruct ws; [|done]. cbn [sep2]. iApply (wp_free (T := b_list)). iFrame.
Qed.

Lemma dict_released_S n : list_released (pred n) -> dict_released (pred n) -> dict_released (S n).
Proof.
  intros HL HD pv l vs g Q Hn. iIntros "[(%es & Hl & Hr & Hi) HQ]". cbn [b_dict_free].
  rewrite /is_null bool_decide_false //. iApply wp_bind.
  iDestruct (sep2_length with "Hi") as %Hlen. pose proof (ditems_size_length vs).
  iApply (wp_wand with "[Hr Hi HQ]").
  { iApply (wp_list_for_each_entry_consume n l es _ (still is_ditem ditems_size n g (Q tt g))); [lia| |].
    - intros e es' g' nx pr. iIntros "[(%ws & Hws & %Hsz & HQ) Hn]". destruct Hsz as [Hsz ->].
      destruct ws as [|w ws]; [done|]. cbn [sep2]. iDestruct "Hws" as "[Hw Hws]".
      rewrite /ditems_size /= -/(ditems_size ws) in Hsz. destruct n as [|n]; [lia|].
      iApply wp_bind. iApply (wp_d_entry_free n e w nx pr); [done|done|lia|]. iFrame "Hw Hn".
      wp_step. iSplitR; [done|]. iExists ws. iFrame. iPureIntro. split; [lia|done].
    - iFrame "Hr". iExists vs. iFrame. iPureIntro. split; [lia|done]. }
  iIntros (r g') "(-> & Hh & (%ws & Hws & %Hsz & HQ))". destruct Hsz as [_ ->].
  destruct ws; [|done]. cbn [sep2]. iApply (wp_free (T := b_dict)). iFrame.
Qed.

Lemma all_released n : list_released n ∧ dict_released n.
Proof.
  induction n as [n IH] using lt_wf_ind. destruct n as [|n].
  { split; intros pv l vs g Q Hn; lia. }
  assert (list_released (pred n) ∧ dict_released (pred n)) as [HL HD].
  { apply IH. lia. }
  split; [by apply list_released_S|by apply dict_released_S].
Qed.

Lemma wp_b_list_free n pv l vs g Q :
  (2 + items_size vs <= n)%nat -> is_list pv l vs ∗ Q tt g ⊢ wp (b_list_free n (obj_ptr l)) g Q.
Proof. apply all_released. Qed.

Lemma wp_b_dict_free n pv l kvs g Q :
  (2 + ditems_size kvs <= n)%nat -> is_dict pv l kvs ∗ Q tt g ⊢ wp (b_dict_free n (obj_ptr l)) g Q.
Proof. apply all_released. Qed.

End release.
