(* ===== verification/BRefine.v ===== *)
(** * The parsers of src/b_parse.c refine the reference parser

    For an arbitrary initialised buffer, b_list_parse and b_dict_parse do what
    [p_list] and [p_dict] say: they return the address after the value and the
    object represents the value; or they return NULL and the object is a
    partially filled one that can be released; or they have undefined
    behaviour.  Fuel linear in the rest of the buffer is enough. *)

From iris.proofmode Require Import environments proofmode.
From S2P Require Import Prelude CTypes HProp CMem CWp CLib Trace DList BParse BSpec BRep.
Set Warnings "-rewrite-rw".
Open Scope Z_scope.

(** ** Composing parser outcomes *)

Section parsed.
Context (b : loc) (bs : list Z).
Implicit Types (g : globals) (o : nat).

Lemma parsed_pmap {A B} (f : A -> B) g o res ok (ok' : B -> hProp) err r g' :
  (∀ a, ok a ⊢ ok' (f a)) ->
  parsed g b bs o res ok err r g' ⊢ parsed g b bs o (pmap f res) ok' err r g'.
Proof.
  intros Hok. rewrite /parsed. destruct res; cbn; [|done..].
  iIntros "($ & $ & H)". by iApply Hok.
Qed.

(** Running [k] on the pointer a parser returns. *)
Lemma wpx_then {A B} (m : M ptr) (k : ptr -> M B) g o (res : presult A) ok err Q (E : fault -> Prop) :
  (res = PFault -> ∀ f, E f) ->
  wpx m g (parsed g b bs o res ok err) (fun _ => res = PFault) ∗
  (match res with
   | POk a rest e => ∀ o' g',
       ⌜⌜upd g e g' ∧ rest = drop o' bs ∧ (o < o' <= length bs)%nat⌝⌝ -∗
       b ↦ (Some <$> bs) -∗ ok a -∗ wpx (k (PAt b (Z.of_nat o'))) g' Q E
   | PErr e => ∀ g', ⌜⌜upd g e g'⌝⌝ -∗ b ↦ (Some <$> bs) -∗ err -∗ wpx (k PNull) g' Q E
   | _ => True
   end)
  ⊢ wpx (m ≫= k) g Q E.
Proof.
  intros HE. iIntros "[Hm Hk]". iApply wpx_bind.
  iApply (wpx_wand with "[Hm]").
  { iApply (wpx_fault_mono with "Hm"). auto. }
  iIntros (r g') "[Hb H]". destruct res as [a rest e|e| |]; [..|done|done].
  - iDestruct "H" as "[%H Hok]". destruct H as (Hu & o' & -> & Hrest & Ho).
    iApply ("Hk" with "[//] Hb Hok").
  - iDestruct "H" as "[%H Herr]". destruct H as [Hu ->]. iApply ("Hk" with "[//] Hb Herr").
Qed.

(** A collection [C acc] that grows as its elements are parsed; what is left of
    it after an error still has a size bounded by the input. *)
Context {A : Type} (C : list A -> hProp) (size : list A -> nat).

Definition partial (o : nat) (acc : list A) : hProp :=
  (∃ vs, ⌜⌜(size vs <= 2 * (length bs - o))%nat⌝⌝ ∗ C (acc ++ vs))%I.

Lemma parsed_cons g g1 e o o1 acc v res r g' :
  (∀ vs, size (v :: vs) = (size [v] + size vs)%nat) ->
  upd g e g1 -> (o <= o1 <= length bs)%nat -> (size [v] + 2 * (length bs - o1) <= 2 * (length bs - o))%nat ->
  parsed g1 b bs o1 res (fun vs => C ((acc ++ [v]) ++ vs)) (partial o1 (acc ++ [v])) r g'
  ⊢ parsed g b bs o (pmap (cons v) res) (fun vs => C (acc ++ vs)) (partial o acc) r g'.
Proof.
  intros Hsize Hu Ho Hsz. rewrite /parsed /partial. iIntros "[$ H]".
  destruct res as [vs rest e'|e'| |]; cbn; [..|done|done].
  - iDestruct "H" as "[%H H]". destruct H as (Hu' & o' & -> & Hrest & Ho').
    rewrite -app_assoc. iFrame. iPureIntro. split; [by eapply upd_trans|].
    exists o'. split; [done|]. split; [done|lia].
  - iDestruct "H" as "[%H (%vs & %Hvs & H)]". destruct H as [Hu' ->]. rewrite -app_assoc.
    iSplitR. { iPureIntro. split; [by eapply upd_trans|done]. }
    iExists (v :: vs). iFrame. iPureIntro. rewrite Hsize. lia.
Qed.

End parsed.

(** ** The interface between the loops and the parsers they call

    What a loop needs of the operations on one type of value: allocation,
    parsing at offset [o] (which the reference result [res] describes) and
    release of what a failed parse leaves behind. *)

Record value_ops (b : loc) (bs : list Z) (o : nat) (g : globals) (res : presult bval) (t : Z) := ValueOps {
  vo_alloc : M ptr;
  vo_parse : ptr -> M ptr;
  vo_free : ptr -> M unit;
  vo_new : loc -> hProp;
  vo_junk : loc -> hProp;
  vo_alloc_ok Q : (∀ x, vo_new x -∗ Q (obj_ptr x) g) ⊢ wp vo_alloc g Q;
  vo_parse_ok x :
    vo_new x ∗ b ↦ (Some <$> bs)
    ⊢ wpx (vo_parse (obj_ptr x)) g
        (parsed g b bs o res (fun v => ⌜⌜vtype v = t⌝⌝ ∗ is_val PNull x v) (vo_junk x))
        (fun _ => res = PFault);
  vo_free_ok x g' Q : vo_junk x ∗ Q tt g' ⊢ wp (vo_free (obj_ptr x)) g' Q }.
Arguments vo_alloc {b bs o g res t}.
Arguments vo_parse {b bs o g res t}.
Arguments vo_free {b bs o g res t}.
Arguments vo_new {b bs o g res t}.
Arguments vo_junk {b bs o g res t}.

(** *** The four instances *)

Section instances.
Context (b : loc) (bs : list Z) (o : nat) (g : globals).
Context (Hoom : oom g = []) (Hlen : Z.of_nat (length bs) < 2 ^ 62) (Ho : (o <= length bs)%nat).

Program Definition string_ops : value_ops b bs o g (pmap VStr (p_string (errno g) (drop o bs))) ch_s :=
  {| vo_alloc := b_string_alloc;
     vo_parse := b_string_parse (PAt b (Z.of_nat o));
     vo_free := b_string_free;
     vo_new x := (x ↦ BString PNull PNull PNull 0)%I;
     vo_junk x := (x ↦ BString PNull PNull PNull 0)%I |}.
Next Obligation. intros Q. by apply wp_b_string_alloc. Qed.
Next Obligation.
  intros x. rewrite wpx_b_string_parse //. iIntros "H". iApply (wpx_wand with "[H]").
  { iApply (wpx_fault_mono with "H"). intros _ ->. done. }
  iIntros (r g') "H". iApply (parsed_pmap with "H"). iIntros (s) "H". by iFrame.
Qed.
Next Obligation. intros x g' Q. apply wp_b_string_free_empty. Qed.

Program Definition int_ops : value_ops b bs o g (pmap VInt (p_int (errno g) (drop o bs))) ch_i :=
  {| vo_alloc := b_int_alloc;
     vo_parse := b_int_parse (PAt b (Z.of_nat o));
     vo_free := b_int_free;
     vo_new x := (x ↦ BInt PNull 0)%I;
     vo_junk x := (∃ v, x ↦ BInt PNull v)%I |}.
Next Obligation. intros Q. by apply wp_b_int_alloc. Qed.
Next Obligation.
  intros x. rewrite wpx_b_int_parse //. iIntros "H". iApply (wpx_wand with "[H]").
  { iApply (wpx_fault_mono with "H"). intros _ ->. done. }
  iIntros (r g') "H". iApply (parsed_pmap with "H"). iIntros (s) "H". by iFrame.
Qed.
Next Obligation. intros x g' Q. iIntros "[(%v & Hx) HQ]". iApply wp_b_int_free. iFrame. Qed.

End instances.

(** ** The branches of the loops *)

Section branches.
Context (b : loc) (bs : list Z) (o : nat) (g : globals) (res : presult bval) (t : Z).
Context (V : value_ops b bs o g res t) (Hoom : oom g = []).
Implicit Types (Q : ptr -> globals -> hProp) (E : fault -> Prop).

Lemma list_branch pv l acc (loop : ptr -> M ptr) Q E :
  (res = PFault -> ∀ f, E f) ->
  is_list pv l acc ∗ b ↦ (Some <$> bs) ∗
  (match res with
   | POk v rest e => ∀ o' g',
       ⌜⌜upd g e g' ∧ rest = drop o' bs ∧ (o < o' <= length bs)%nat⌝⌝ -∗
       b ↦ (Some <$> bs) -∗ is_list pv l (acc ++ [v]) -∗ wpx (loop (PAt b (Z.of_nat o'))) g' Q E
   | PErr e => ∀ g', ⌜⌜upd g e g'⌝⌝ -∗ b ↦ (Some <$> bs) -∗ is_list pv l acc -∗ Q PNull g'
   | _ => True
   end)
  ⊢ wpx (new ← vo_alloc V;
         if negb (is_null new) then
           p' ← vo_parse V new;
           if negb (is_null p') then
             _ ← b_list_add new (obj_ptr l) t;
             loop p'
           else
             _ ← vo_free V new;
             mret PNull
         else loop (PAt b (Z.of_nat o))) g Q E.
Proof.
  intros HE. iIntros "(Hl & Hb & HQ)". iApply wpx_bind. iApply wpx_wp.
  iApply vo_alloc_ok. iIntros (x) "Hx". rewrite {1}/is_null bool_decide_false //. cbn [negb].
  iDestruct (vo_parse_ok _ _ _ _ _ _ V x with "[$Hx $Hb]") as "Hp".
  iApply (wpx_then with "[$Hp Hl HQ]"); [done|].
  destruct res as [v rest e|e| |]; [..|done|done].
  - iIntros (o' g') "%Hu Hb [%Hv Hx]". rewrite /is_null bool_decide_false //. cbn [negb].
    rewrite -Hv. iApply wpx_bind. iApply wpx_wp.
    iApply (wp_b_list_add pv PNull l x acc v); [by rewrite (upd_oom _ _ _ (proj1 Hu))|].
    iFrame "Hl Hx". iIntros "Hl". iApply ("HQ" with "[//] Hb Hl").
  - iIntros (g') "%Hu Hb Hj". rewrite /is_null bool_decide_true //. cbn [negb].
    iApply wpx_bind. iApply wpx_wp. iApply vo_free_ok. iFrame "Hj". wp_step.
    iApply ("HQ" with "[//] Hb Hl").
Qed.

(** The branches of the dictionary loop also hold the key, and leave the
    function through [bail] after an error. *)
Lemma dict_branch pv l kvs k key (loop : ptr -> M ptr) (bail : ptr -> M ptr) Q E :
  (res = PFault -> ∀ f, E f) ->
  (∀ x g' R, vo_junk V x ∗ is_string PNull key k ∗ (∀ g'', ⌜⌜quiet g' g''⌝⌝ -∗ R PNull g'')
     ⊢ wp (bail (obj_ptr x)) g' R) ->
  is_dict pv l kvs ∗ is_string PNull key k ∗ b ↦ (Some <$> bs) ∗
  (match res with
   | POk v rest e => ∀ o' g',
       ⌜⌜upd g e g' ∧ rest = drop o' bs ∧ (o < o' <= length bs)%nat⌝⌝ -∗
       b ↦ (Some <$> bs) -∗ is_dict pv l (kvs ++ [(k, v)]) -∗ wpx (loop (PAt b (Z.of_nat o'))) g' Q E
   | PErr e => ∀ g', ⌜⌜upd g e g'⌝⌝ -∗ b ↦ (Some <$> bs) -∗ is_dict pv l kvs -∗ Q PNull g'
   | _ => True
   end)
  ⊢ wpx (new ← vo_alloc V;
         if negb (is_null new) then
           p' ← vo_parse V new;
           if negb (is_null p') then
             s ← b_string_get (obj_ptr key);
             _ ← b_dict_add new s (obj_ptr l) t;
             _ ← b_string_free (obj_ptr key);
             loop p'
           else bail new
         else
           _ ← b_string_free (obj_ptr key);
           loop (PAt b (Z.of_nat o))) g Q E.
Proof.
  intros HE Hbail. iIntros "(Hl & Hk & Hb & HQ)". iApply wpx_bind. iApply wpx_wp.
  iApply vo_alloc_ok. iIntros (x) "Hx". rewrite {1}/is_null bool_decide_false //. cbn [negb].
  iDestruct (vo_parse_ok _ _ _ _ _ _ V x with "[$Hx $Hb]") as "Hp".
  iApply (wpx_then with "[$Hp Hl Hk HQ]"); [done|].
  destruct res as [v rest e|e| |]; [..|done|done].
  - iIntros (o' g') "%Hu Hb [%Hv Hx]". rewrite /is_null bool_decide_false //. cbn [negb].
    iDestruct "Hk" as (kb tl) "[Hkey Hkb]". rewrite /b_string_get. wp_steps. cbn [bs_data].
    rewrite -Hv. iApply wpx_bind. iApply wpx_wp.
    iApply (wp_b_dict_add pv PNull l x kb kvs k tl v); [by rewrite (upd_oom _ _ _ (proj1 Hu))|].
    iFrame "Hl Hx Hkb". iIntros "Hl Hkb". iApply wpx_bind. iApply wpx_wp.
    iApply (wp_b_string_free PNull key k). iSplitL "Hkey Hkb". { iExists kb, tl. iFrame. }
    iApply ("HQ" with "[//] Hb Hl").
  - iIntros (g') "%Hu Hb Hj". rewrite /is_null bool_decide_true //. cbn [negb].
    iApply wpx_wp. iApply Hbail. iFrame "Hj Hk". iIntros (g'') "%Hq".
    iApply ("HQ" with "[%] Hb Hl"). by eapply upd_quiet.
Qed.

End branches.

(** ** The parsers *)

Section refine.
Implicit Types (F f o : nat) (bs : list Z) (g : globals) (b l : loc).

Definition ready (g : globals) (bs : list Z) (o : nat) : Prop :=
  oom g = [] ∧ Z.of_nat (length bs) < 2 ^ 62 ∧ (o <= length bs)%nat.

Definition list_refines (f : nat) : Prop := ∀ F pv l b bs o g,
  ready g bs o -> (2 * (length bs - o) + 1 <= F)%nat ->
  p_list f (errno g) (drop o bs) ≠ PFuel ->
  is_list pv l [] ∗ b ↦ (Some <$> bs)
  ⊢ wpx (b_list_parse F (PAt b (Z.of_nat o)) (obj_ptr l)) g
      (parsed g b bs o (p_list f (errno g) (drop o bs)) (is_list pv l)
         (∃ vs, ⌜⌜(2 + items_size vs <= 2 * (length bs - o))%nat⌝⌝ ∗ is_list pv l vs))
      (fun _ => p_list f (errno g) (drop o bs) = PFault).

Definition items_refine (f : nat) : Prop := ∀ F pv l acc b bs o g,
  ready g bs o -> (2 * (length bs - o) + 2 <= F)%nat ->
  p_items f (errno g) (drop o bs) ≠ PFuel ->
  is_list pv l acc ∗ b ↦ (Some <$> bs)
  ⊢ wpx (b_list_loop F (PAt b (Z.of_nat o)) (obj_ptr l)) g
      (parsed g b bs o (p_items f (errno g) (drop o bs)) (fun vs => is_list pv l (acc ++ vs))
         (partial bs (is_list pv l) items_size o acc))
      (fun _ => p_items f (errno g) (drop o bs) = PFault).

Definition dict_refines (f : nat) : Prop := ∀ F pv l b bs o g,
  ready g bs o -> (2 * (length bs - o) + 1 <= F)%nat ->
  p_dict f (errno g) (drop o bs) ≠ PFuel ->
  is_dict pv l [] ∗ b ↦ (Some <$> bs)
  ⊢ wpx (b_dict_parse F (PAt b (Z.of_nat o)) (obj_ptr l)) g
      (parsed g b bs o (p_dict f (errno g) (drop o bs)) (is_dict pv l)
         (∃ kvs, ⌜⌜(2 + ditems_size kvs <= 2 * (length bs - o))%nat⌝⌝ ∗ is_dict pv l kvs))
      (fun _ => p_dict f (errno g) (drop o bs) = PFault).

Definition ditems_refine (f : nat) : Prop := ∀ F pv l acc b bs o g,
  ready g bs o -> (2 * (length bs - o) + 2 <= F)%nat ->
  p_ditems f (errno g) (drop o bs) ≠ PFuel ->
  is_dict pv l acc ∗ b ↦ (Some <$> bs)
  ⊢ wpx (b_dict_loop F (PAt b (Z.of_nat o)) (obj_ptr l)) g
      (parsed g b bs o (p_ditems f (errno g) (drop o bs)) (fun kvs => is_dict pv l (acc ++ kvs))
         (partial bs (is_dict pv l) ditems_size o acc))
      (fun _ => p_ditems f (errno g) (drop o bs) = PFault).

(** Looking at the next byte. *)
Lemma wpx_peek b bs o (k : Z -> M ptr) g Q E :
  (o <= length bs)%nat -> (drop o bs = [] -> ∀ fl : fault, E fl) ->
  b ↦ (Some <$> bs) ∗
  (∀ c rest, ⌜⌜drop o bs = c :: rest ∧ rest = drop (S o) bs ∧ (o < length bs)%nat⌝⌝ -∗
     b ↦ (Some <$> bs) -∗ wpx (k c) g Q E)
  ⊢ wpx (get_byte (PAt b (Z.of_nat o)) ≫= k) g Q E.
Proof.
  intros Ho HE. iIntros "[Hb HQ]". iApply wpx_bind. destruct (bs !! o) as [c|] eqn:Hc.
  - iApply wpx_wp. iApply (wp_get_byte b _ c (Some <$> bs)); [lia|by rewrite Nat2Z.id list_lookup_fmap Hc|].
    iFrame "Hb". iIntros "Hb". iApply ("HQ" with "[%] Hb").
    split; [by apply drop_S|]. split; [done|by eapply lookup_lt_Some].
  - apply lookup_ge_None in Hc. iApply wpx_bind.
    iApply (wpx_read_bytes_bad b _ _ (Some <$> bs)).
    + rewrite /in_range length_fmap. apply andb_false_iff. right. apply Z.leb_gt. lia.
    + intros fl. apply HE. by apply drop_ge.
    + by iFrame.
Qed.

Lemma list_refines_S f : items_refine f -> list_refines (S f).
Proof.
  intros IH F pv l b bs o g (Hoom & Hlen & Ho) HF Hfuel. iIntros "[Hl Hb]".
  destruct F as [|F]; [lia|]. cbn [b_list_parse]. wp_steps.
  iApply wpx_peek; [done|intros Hd fl; by rewrite /= Hd|]. iFrame "Hb".
  iIntros (c rest) "%Hc Hb". destruct Hc as (Hc & Hrest & Ho'). rewrite Hc in Hfuel |- *.
  cbn [p_list] in Hfuel |- *. destruct (c =? ch_l); cbn [negb]; last first.
  { wp_step. rewrite /parsed. iFrame "Hb". iSplitR; [done|]. iExists []. iFrame.
    iPureIntro. cbn. lia. }
  wp_step. replace (Z.of_nat o + 1) with (Z.of_nat (S o)) by lia. rewrite Hrest in Hfuel |- *.
  iDestruct (IH F pv l [] b bs (S o) g with "[$Hl $Hb]") as "H"; [done|lia|done|].
  iApply (wpx_wand with "H"). iIntros (r g') "[$ H]". destruct (p_items _ _ _) as [vs rs e|e| |]; [..|done|done].
  - iDestruct "H" as "[%H $]". iPureIntro. destruct H as (? & o' & ? & ? & ?).
    split; [done|]. exists o'. split_and!; [done|done|lia|lia].
  - iDestruct "H" as "[$ (%vs & %Hvs & H)]". iExists vs. iFrame. iPureIntro. lia.
Qed.

Lemma dict_refines_S f : ditems_refine f -> dict_refines (S f).
Proof.
  intros IH F pv l b bs o g (Hoom & Hlen & Ho) HF Hfuel. iIntros "[Hl Hb]".
  destruct F as [|F]; [lia|]. cbn [b_dict_parse]. wp_steps.
  iApply wpx_peek; [done|intros Hd fl; by rewrite /= Hd|]. iFrame "Hb".
  iIntros (c rest) "%Hc Hb". destruct Hc as (Hc & Hrest & Ho'). rewrite Hc in Hfuel |- *.
  cbn [p_dict] in Hfuel |- *. destruct (c =? ch_d); cbn [negb]; last first.
  { wp_step. rewrite /parsed. iFrame "Hb". iSplitR; [done|]. iExists []. iFrame.
    iPureIntro. cbn. lia. }
  wp_step. replace (Z.of_nat o + 1) with (Z.of_nat (S o)) by lia. rewrite Hrest in Hfuel |- *.
  iDestruct (IH F pv l [] b bs (S o) g with "[$Hl $Hb]") as "H"; [done|lia|done|].
  iApply (wpx_wand with "H"). iIntros (r g') "[$ H]". destruct (p_ditems _ _ _) as [vs rs e|e| |]; [..|done|done].
  - iDestruct "H" as "[%H $]". iPureIntro. destruct H as (? & o' & ? & ? & ?).
    split; [done|]. exists o'. split_and!; [done|done|lia|lia].
  - iDestruct "H" as "[$ (%vs & %Hvs & H)]". iExists vs. iFrame. iPureIntro. lia.
Qed.

Program Definition list_ops f F b bs o g (IH : list_refines f) (Hr : ready g bs o)
    (HF : (2 * (length bs - o) + 1 <= F)%nat) (Hfuel : p_list f (errno g) (drop o bs) ≠ PFuel) :
    value_ops b bs o g (pmap VList (p_list f (errno g) (drop o bs))) ch_l :=
  {| vo_alloc := b_list_alloc;
     vo_parse := b_list_parse F (PAt b (Z.of_nat o));
     vo_free := b_list_free F;
     vo_new x := is_list PNull x [];
     vo_junk x := (∃ vs, ⌜⌜(2 + items_size vs <= 2 * (length bs - o))%nat⌝⌝ ∗ is_list PNull x vs)%I |}.
Next Obligation. intros f F b bs o g IH Hr HF Hfuel Q. apply wp_b_list_alloc, Hr. Qed.
Next Obligation.
  intros f F b bs o g IH Hr HF Hfuel x. rewrite IH //. iIntros "H". iApply (wpx_wand with "[H]").
  { iApply (wpx_fault_mono with "H"). intros _ ->. done. }
  iIntros (r g') "H". iApply (parsed_pmap with "H"). iIntros (vs) "H".
  iSplitR; [done|]. by iApply is_val_list.
Qed.
Next Obligation.
  intros f F b bs o g IH Hr HF Hfuel x g' Q. iIntros "[(%vs & %Hvs & H) HQ]".
  iApply (wp_b_list_free F PNull x vs); [lia|]. iFrame.
Qed.

Program Definition dict_ops f F b bs o g (IH : dict_refines f) (Hr : ready g bs o)
    (HF : (2 * (length bs - o) + 1 <= F)%nat) (Hfuel : p_dict f (errno g) (drop o bs) ≠ PFuel) :
    value_ops b bs o g (pmap VDict (p_dict f (errno g) (drop o bs))) ch_d :=
  {| vo_alloc := b_dict_alloc;
     vo_parse := b_dict_parse F (PAt b (Z.of_nat o));
     vo_free := b_dict_free F;
     vo_new x := is_dict PNull x [];
     vo_junk x := (∃ vs, ⌜⌜(2 + ditems_size vs <= 2 * (length bs - o))%nat⌝⌝ ∗ is_dict PNull x vs)%I |}.
Next Obligation. intros f F b bs o g IH Hr HF Hfuel Q. apply wp_b_dict_alloc, Hr. Qed.
Next Obligation.
  intros f F b bs o g IH Hr HF Hfuel x. rewrite IH //. iIntros "H". iApply (wpx_wand with "[H]").
  { iApply (wpx_fault_mono with "H"). intros _ ->. done. }
  iIntros (r g') "H". iApply (parsed_pmap with "H"). iIntros (vs) "H".
  iSplitR; [done|]. by iApply is_val_dict.
Qed.
Next Obligation.
  intros f F b bs o g IH Hr HF Hfuel x g' Q. iIntros "[(%vs & %Hvs & H) HQ]".
  iApply (wp_b_dict_free F PNull x vs); [lia|]. iFrame.
Qed.

(** The first byte selects the reference parser of the value. *)
Lemma p_value_cases f e c rest :
  p_value (S f) e (c :: rest) =
  if c =? ch_l then pmap VList (p_list f e (c :: rest))
  else if c =? ch_i then pmap VInt (p_int e (c :: rest))
  else if c =? ch_d then pmap VDict (p_dict f e (c :: rest))
  else pmap VStr (p_string e (c :: rest)).
Proof. done. Qed.

Lemma pmap_not_fuel {A B} (h : A -> B) r : pmap h r ≠ PFuel -> r ≠ PFuel.
Proof. by destruct r. Qed.

Lemma upd_ready g e g' bs o o' :
  ready g bs o -> upd g e g' -> (o' <= length bs)%nat -> ready g' bs o'.
Proof. intros (Hoom & Hlen & _) Hu Ho. split; [by rewrite (upd_oom _ _ _ Hu)|done]. Qed.

(** One element of a list, whichever its type, and then the rest of the loop. *)
Lemma items_step f F pv l acc b bs o g res t (V : value_ops b bs o g res t) :
  items_refine f -> ready g bs o -> (2 * (length bs - o) + 1 <= F)%nat ->
  within (fun v => 1 + vsize v)%nat (drop o bs) res ->
  pbind res (fun v rest e => pmap (cons v) (p_items f e rest)) ≠ PFuel ->
  is_list pv l acc ∗ b ↦ (Some <$> bs)
  ⊢ wpx (new ← vo_alloc V;
       if negb (is_null new) then
         p' ← vo_parse V new;
         if negb (is_null p') then
           _ ← b_list_add new (obj_ptr l) t;
           b_list_loop F p' (obj_ptr l)
         else
           _ ← vo_free V new;
           mret PNull
       else b_list_loop F (PAt b (Z.of_nat o)) (obj_ptr l)) g
    (parsed g b bs o
       (pbind res (fun v rest e => pmap (cons v) (p_items f e rest)))
       (fun vs => is_list pv l (acc ++ vs)) (partial bs (is_list pv l) items_size o acc))
    (fun _ => pbind res (fun v rest e => pmap (cons v) (p_items f e rest)) = PFault).
Proof.
  intros IH Hready HF Hsz Hfuel. pose proof Hready as (Hoom & Hlen & Ho). iIntros "[Hl Hb]".
  iApply (list_branch b bs o g res t V Hoom pv l acc (fun p' => b_list_loop F p' (obj_ptr l)));
    [by intros ->|]. iFrame "Hl Hb".
  destruct res as [v r1 e|e| |]; cbn [pbind] in Hfuel |- *; [..|done|done].
  - iIntros (o1 g1) "%Hu Hb Hl". destruct Hu as (Hu & Hr1 & Ho1). subst r1.
    rewrite -(upd_errno _ _ _ Hu) in Hfuel |- *. apply pmap_not_fuel in Hfuel.
    specialize (Hsz _ _ _ eq_refl). rewrite !length_drop in Hsz.
    iDestruct (IH F pv l (acc ++ [v]) b bs o1 g1 with "[$Hl $Hb]") as "H";
      [eapply upd_ready; [done..|lia]|lia|done|].
    iApply (wpx_wand with "[H]").
    { iApply (wpx_fault_mono with "H"). intros _ ->. done. }
    iIntros (r g2) "H". iApply (parsed_cons with "H"); [|done|lia|rewrite /items_size /=; lia].
    intros vs. rewrite /items_size /=. lia.
  - iIntros (g1) "%Hu Hb Hl". rewrite /parsed. iFrame "Hb". iSplitR; [done|].
    iExists []. rewrite app_nil_r. iFrame. iPureIntro. cbn. lia.
Qed.

Lemma items_refine_S f :
  items_refine f -> list_refines (pred f) -> dict_refines (pred f) -> items_refine (S f).
Proof.
  intros IH IHl IHd F pv l acc b bs o g Hready HF Hfuel. pose proof Hready as (Hoom & Hlen & Ho).
  iIntros "[Hl Hb]". destruct F as [|F]; [lia|]. cbn [b_list_loop].
  iApply wpx_peek; [done|intros Hd fl; by rewrite /= Hd|]. iFrame "Hb".
  iIntros (c rest) "%Hc Hb". destruct Hc as (Hc & Hrest & Ho'). rewrite Hc in Hfuel |- *.
  cbn [p_items] in Hfuel |- *. destruct (c =? ch_e).
  { wp_step. rewrite /parsed app_nil_r. iFrame. iPureIntro. split; [done|].
    exists (S o). split; [f_equal; lia|]. split; [done|lia]. }
  destruct f as [|f]; [by destruct Hfuel|].
  pose proof (proj2 (proj2 (proj2 (proj2 (p_sizes (S f))))) (errno g) (drop o bs)) as Hsz.
  rewrite Hc !p_value_cases -Hc in Hfuel Hsz |- *.
  destruct (c =? ch_l); [|destruct (c =? ch_i); [|destruct (c =? ch_d)]].
  - assert (Hnf : p_list f (errno g) (drop o bs) ≠ PFuel) by (by intros E; rewrite E in Hfuel).
    iApply (items_step (S f) F pv l acc _ _ _ _ _ _ (list_ops f F b bs o g IHl Hready ltac:(lia) Hnf));
      [done|done|lia|done|done|iFrame].
  - iApply (items_step (S f) F pv l acc _ _ _ _ _ _ (int_ops b bs o g Hoom Ho));
      [done|done|lia|done|done|iFrame].
  - assert (Hnf : p_dict f (errno g) (drop o bs) ≠ PFuel) by (by intros E; rewrite E in Hfuel).
    iApply (items_step (S f) F pv l acc _ _ _ _ _ _ (dict_ops f F b bs o g IHd Hready ltac:(lia) Hnf));
      [done|done|lia|done|done|iFrame].
  - iApply (items_step (S f) F pv l acc _ _ _ _ _ _ (string_ops b bs o g Hoom Hlen Ho));
      [done|done|lia|done|done|iFrame].
Qed.

(** One entry of a dictionary, after its key. *)
Lemma ditems_step f F pv l acc b bs o g res t (V : value_ops b bs o g res t) key k bail :
  ditems_refine f -> ready g bs o -> (2 * (length bs - o) + 1 <= F)%nat ->
  within (fun v => 1 + vsize v)%nat (drop o bs) res ->
  (∀ x g' R, vo_junk V x ∗ is_string PNull key k ∗ (∀ g'', ⌜⌜quiet g' g''⌝⌝ -∗ R PNull g'')
     ⊢ wp (bail (obj_ptr x)) g' R) ->
  pbind res (fun v rest e => pmap (cons (k, v)) (p_ditems f e rest)) ≠ PFuel ->
  is_dict pv l acc ∗ is_string PNull key k ∗ b ↦ (Some <$> bs)
  ⊢ wpx (new ← vo_alloc V;
       if negb (is_null new) then
         p' ← vo_parse V new;
         if negb (is_null p') then
           s ← b_string_get (obj_ptr key);
           _ ← b_dict_add new s (obj_ptr l) t;
           _ ← b_string_free (obj_ptr key);
           b_dict_loop F p' (obj_ptr l)
         else bail new
       else
         _ ← b_string_free (obj_ptr key);
         b_dict_loop F (PAt b (Z.of_nat o)) (obj_ptr l)) g
    (parsed g b bs o
       (pbind res (fun v rest e => pmap (cons (k, v)) (p_ditems f e rest)))
       (fun vs => is_dict pv l (acc ++ vs)) (partial bs (is_dict pv l) ditems_size o acc))
    (fun _ => pbind res (fun v rest e => pmap (cons (k, v)) (p_ditems f e rest)) = PFault).
Proof.
  intros IH Hready HF Hsz Hbail Hfuel. pose proof Hready as (Hoom & Hlen & Ho).
  iIntros "(Hl & Hk & Hb)".
  iApply (dict_branch b bs o g res t V Hoom pv l acc k key (fun p' => b_dict_loop F p' (obj_ptr l)) bail);
    [by intros ->|done|]. iFrame "Hl Hk Hb".
  destruct res as [v r1 e|e| |]; cbn [pbind] in Hfuel |- *; [..|done|done].
  - iIntros (o1 g1) "%Hu Hb Hl". destruct Hu as (Hu & Hr1 & Ho1). subst r1.
    rewrite -(upd_errno _ _ _ Hu) in Hfuel |- *. apply pmap_not_fuel in Hfuel.
    specialize (Hsz _ _ _ eq_refl). rewrite !length_drop in Hsz.
    iDestruct (IH F pv l (acc ++ [(k, v)]) b bs o1 g1 with "[$Hl $Hb]") as "H";
      [eapply upd_ready; [done..|lia]|lia|done|].
    iApply (wpx_wand with "[H]").
    { iApply (wpx_fault_mono with "H"). intros _ ->. done. }
    iIntros (r g2) "H". iApply (parsed_cons with "H"); [|done|lia|rewrite /ditems_size /=; lia].
    intros vs. rewrite /ditems_size /=. lia.
  - iIntros (g1) "%Hu Hb Hl". rewrite /parsed. iFrame "Hb". iSplitR; [done|].
    iExists []. rewrite app_nil_r. iFrame. iPureIntro. cbn. lia.
Qed.

(** Releasing the key and what a failed parse left, without a message. *)
Lemma bail_quietly b bs o g res t (V : value_ops b bs o g res t) key k x g' R :
  vo_junk V x ∗ is_string PNull key k ∗ (∀ g'', ⌜⌜quiet g' g''⌝⌝ -∗ R PNull g'')
  ⊢ wp (_ ← b_string_free (obj_ptr key); _ ← vo_free V (obj_ptr x); mret PNull) g' R.
Proof.
  iIntros "(Hx & Hk & HR)". iApply wp_bind. iApply wp_b_string_free. iFrame "Hk".
  iApply wp_bind. iApply vo_free_ok. iFrame "Hx". wp_step. by iApply "HR".
Qed.

Lemma parsed_weaken_start {A} g g1 e b bs o o1 (res : presult A) ok err err' r g' :
  upd g e g1 -> (o <= o1)%nat -> (err ⊢ err') ->
  parsed g1 b bs o1 res ok err r g' ⊢ parsed g b bs o res ok err' r g'.
Proof.
  intros Hu Ho Herr. rewrite /parsed. iIntros "[$ H]". destruct res; [..|done|done].
  - iDestruct "H" as "[%H $]". iPureIntro. destruct H as (Hu' & o' & -> & Hr & Ho').
    split; [by eapply upd_trans|]. exists o'. split_and!; [done|done|lia|lia].
  - iDestruct "H" as "[%H H]". rewrite Herr. iFrame. iPureIntro. destruct H.
    split; [by eapply upd_trans|done].
Qed.

(** The switch on the value of an entry, as it stands in the loop of
    [b_dict_parse] once the key was read. *)
Definition dict_value (fuel : nat) (p ret new_key : ptr) : M ptr :=
  c ← get_byte p;
  if c =? ch_l then
    new_list ← b_list_alloc;
    if negb (is_null new_list) then
      p' ← b_list_parse fuel p new_list;
      if negb (is_null p') then
        k ← b_string_get new_key;
        _ ← b_dict_add new_list k ret ch_l;
        _ ← b_string_free new_key;
        b_dict_loop fuel p' ret
      else
        _ ← b_string_free new_key;
        _ ← b_list_free fuel new_list;
        mret PNull
    else
      _ ← b_string_free new_key;
      b_dict_loop fuel p ret
  else if c =? ch_i then
    new_int ← b_int_alloc;
    if negb (is_null new_int) then
      p' ← b_int_parse p new_int;
      if negb (is_null p') then
        k ← b_string_get new_key;
        _ ← b_dict_add new_int k ret ch_i;
        _ ← b_string_free new_key;
        b_dict_loop fuel p' ret
      else
        _ ← b_string_free new_key;
        _ ← b_int_free new_int;
        mret PNull
    else
      _ ← b_string_free new_key;
      b_dict_loop fuel p ret
  else if c =? ch_d then
    new_dict ← b_dict_alloc;
    if negb (is_null new_dict) then
      p' ← b_dict_parse fuel p new_dict;
      if negb (is_null p') then
        k ← b_string_get new_key;
        _ ← b_dict_add new_dict k ret ch_d;
        _ ← b_string_free new_key;
        b_dict_loop fuel p' ret
      else
        _ ← b_string_free new_key;
        _ ← b_dict_free fuel new_dict;
        mret PNull
    else
      _ ← b_string_free new_key;
      b_dict_loop fuel p ret
  else
    new_str ← b_string_alloc;
    if negb (is_null new_str) then
      p' ← b_string_parse p new_str;
      if negb (is_null p') then
        k ← b_string_get new_key;
        _ ← b_dict_add new_str k ret ch_s;
        _ ← b_string_free new_key;
        b_dict_loop fuel p' ret
      else
        _ ← b_string_free new_key;
        _ ← b_string_free new_str;
        _ ← TRACE_ERROR "b_dict_parse" 657 (mret (str "Error list entry type" ++ [ch_nl]));
        mret PNull
    else
      _ ← b_string_free new_key;
      b_dict_loop fuel p ret.

(** The value after a key. *)
Lemma ditems_value f F pv l acc b bs o g key k :
  ditems_refine f -> list_refines (pred f) -> dict_refines (pred f) -> ready g bs o ->
  (2 * (length bs - o) + 1 <= F)%nat ->
  pbind (p_value f (errno g) (drop o bs)) (fun v rest e => pmap (cons (k, v)) (p_ditems f e rest)) ≠ PFuel ->
  is_dict pv l acc ∗ is_string PNull key k ∗ b ↦ (Some <$> bs)
  ⊢ wpx (dict_value F (PAt b (Z.of_nat o)) (obj_ptr l) (obj_ptr key)) g
    (parsed g b bs o
       (pbind (p_value f (errno g) (drop o bs)) (fun v rest e => pmap (cons (k, v)) (p_ditems f e rest)))
       (fun vs => is_dict pv l (acc ++ vs)) (partial bs (is_dict pv l) ditems_size o acc))
    (fun _ => pbind (p_value f (errno g) (drop o bs))
                (fun v rest e => pmap (cons (k, v)) (p_ditems f e rest)) = PFault).
Proof.
  intros IH IHl IHd Hready HF Hfuel. pose proof Hready as (Hoom & Hlen & Ho).
  iIntros "(Hl & Hk & Hb)". destruct f as [|f]; [by destruct Hfuel|].
  iApply wpx_peek; [done|intros Hd fl; by rewrite /= Hd|]. iFrame "Hb".
  iIntros (c rest) "%Hc Hb". destruct Hc as (Hc & _ & _).
  pose proof (proj2 (proj2 (proj2 (proj2 (p_sizes (S f))))) (errno g) (drop o bs)) as Hsz.
  rewrite Hc !p_value_cases -Hc in Hfuel Hsz |- *.
  destruct (c =? ch_l); [|destruct (c =? ch_i); [|destruct (c =? ch_d)]].
  - assert (Hnf : p_list f (errno g) (drop o bs) ≠ PFuel) by (by intros E; rewrite E in Hfuel).
    iApply (ditems_step (S f) F pv l acc _ _ _ _ _ _ (list_ops f F b bs o g IHl Hready ltac:(lia) Hnf));
      [done|done|lia|done|apply bail_quietly|done|iFrame].
  - iApply (ditems_step (S f) F pv l acc _ _ _ _ _ _ (int_ops b bs o g Hoom Ho));
      [done|done|lia|done|apply bail_quietly|done|iFrame].
  - assert (Hnf : p_dict f (errno g) (drop o bs) ≠ PFuel) by (by intros E; rewrite E in Hfuel).
    iApply (ditems_step (S f) F pv l acc _ _ _ _ _ _ (dict_ops f F b bs o g IHd Hready ltac:(lia) Hnf));
      [done|done|lia|done|apply bail_quietly|done|iFrame].
  - iApply (ditems_step (S f) F pv l acc _ _ _ _ _ _ (string_ops b bs o g Hoom Hlen Ho));
      [done|done|lia|done| |done|iFrame].
    intros x g' R. iIntros "(Hx & Hk & HR)". iApply wp_bind. iApply wp_b_string_free. iFrame "Hk".
    iApply wp_bind. iApply wp_b_string_free_empty. iFrame "Hx". iApply wp_bind.
    iApply wp_print_msg; [vm_compute; reflexivity|]. iIntros (g2) "%Hq". wp_step. by iApply "HR".
Qed.

Lemma ditems_refine_S f :
  ditems_refine f -> list_refines (pred f) -> dict_refines (pred f) -> ditems_refine (S f).
Proof.
  intros IH IHl IHd F pv l acc b bs o g Hready HF Hfuel. pose proof Hready as (Hoom & Hlen & Ho).
  iIntros "[Hl Hb]". destruct F as [|F]; [lia|]. cbn [b_dict_loop].
  iApply wpx_peek; [done|intros Hd fl; by rewrite /= Hd|]. iFrame "Hb".
  iIntros (c rest) "%Hc Hb". destruct Hc as (Hc & Hrest & Ho'). rewrite Hc in Hfuel |- *.
  cbn [p_ditems] in Hfuel |- *. destruct (c =? ch_e).
  { wp_step. rewrite /parsed app_nil_r. iFrame. iPureIntro. split; [done|].
    exists (S o). split; [f_equal; lia|]. split; [done|lia]. }
  rewrite -Hc in Hfuel |- *. clear c rest Hc Hrest.
  iApply wpx_bind. iApply wpx_wp. iApply wp_b_string_alloc; [done|]. iIntros (key) "Hk".
  rewrite {1}/is_null bool_decide_false //.
  iDestruct (wpx_b_string_parse PNull key PNull PNull 0 b bs o g with "[$Hk $Hb]") as "Hp"; [done..|].
  iApply (wpx_then with "[$Hp Hl]"); [by intros ->|].
  destruct (p_string (errno g) (drop o bs)) as [k r1 e|e| |] eqn:Hk; cbn [pbind] in Hfuel |- *; [..|done|done];
    last first.
  { iIntros (g1) "%Hu Hb Hk". rewrite /is_null bool_decide_true //. iApply wpx_bind. iApply wpx_wp.
    iApply wp_b_string_free_empty. iFrame "Hk". wp_step. rewrite /parsed. iFrame "Hb".
    iSplitR; [done|]. iExists []. rewrite app_nil_r. iFrame. iPureIntro. cbn. lia. }
  iIntros (o1 g1) "%Hu Hb Hk". destruct Hu as (Hu & Hr1 & Ho1). subst r1.
  rewrite -(upd_errno _ _ _ Hu) in Hfuel |- *.
  rewrite {1}/is_null bool_decide_false //.
  iApply (wpx_wand _ _ (parsed g1 b bs o1 _ _ (partial bs (is_dict pv l) ditems_size o1 acc))
    with "[Hl Hk Hb]"); last first.
  { iIntros (r g2) "H". iApply (parsed_weaken_start with "H"); [done|lia|].
    iIntros "(%vs & %Hvs & H)". iExists vs. iFrame. iPureIntro. lia. }
  iApply (ditems_value with "[$Hl $Hk $Hb]"); [done|done|done| |lia|done].
  eapply upd_ready; [done..|lia].
Qed.

Lemma parsers_refine f :
  list_refines f ∧ items_refine f ∧ dict_refines f ∧ ditems_refine f.
Proof.
  induction f as [f IH] using lt_wf_ind. destruct f as [|f].
  { split_and!; intros F; intros; by destruct F. }
  destruct (IH f ltac:(lia)) as (_ & Hi & _ & Hdi).
  assert (Hpred : list_refines (pred f) ∧ dict_refines (pred f)).
  { destruct (IH (pred f) ltac:(lia)) as (? & _ & ? & _). done. }
  destruct Hpred as [Hl Hd].
  split_and!; [by apply list_refines_S|by apply items_refine_S|by apply dict_refines_S|by apply ditems_refine_S].
Qed.

End refine.
