(* ===== verification/BRound.v ===== *)
(** * Encoding and decoding B-coding

    The reference parser inverts the encoding: for every value whose numbers
    fit the machine types of src/b_parse.c, parsing its encoding, followed by
    anything, gives the value back and leaves what follows. *)

From S2P Require Import Prelude CTypes CMem CLib Trace BParse BSpec.
Open Scope Z_scope.

(** ** Decimal notation and strtol *)

Definition digits_val (acc : Z) (ds : list Z) : Z := foldl (fun a c => a * 10 + (c - 48)) acc ds.

Lemma scan_digits_app ds c tl acc :
  Forall (fun d => isdigit d = true) ds -> isdigit c = false ->
  scan_digits acc (ds ++ c :: tl) = Some (digits_val acc ds, length ds).
Proof.
  intros Hds Hc. revert acc. induction Hds as [|d ds Hd _ IH]; intros acc; cbn.
  - by rewrite Hc.
  - by rewrite Hd, IH.
Qed.

Lemma digits_val_snoc acc ds d : digits_val acc (ds ++ [d]) = digits_val acc ds * 10 + (d - 48).
Proof. unfold digits_val. by rewrite foldl_app. Qed.

Lemma dec_digits_spec fuel n :
  0 <= n < 2 ^ Z.of_nat fuel ->
  Forall (fun d => isdigit d = true) (dec_digits fuel n) ∧ digits_val 0 (dec_digits fuel n) = n.
Proof.
  revert n. induction fuel as [|fuel IH]; intros n Hn.
  { cbn in *. split; [done|lia]. }
  rewrite Nat2Z.inj_succ, Z.pow_succ_r in Hn by lia. cbn [dec_digits].
  destruct (Z.ltb_spec n 10).
  - split; [|unfold digits_val; cbn; lia]. constructor; [|done].
    unfold isdigit. rewrite !(proj2 (Z.leb_le _ _)) by lia. done.
  - destruct (IH (n / 10)) as [Hds Hval].
    { split; [apply Z.div_pos; lia|]. apply Z.div_lt_upper_bound; lia. }
    pose proof (Z.mod_pos_bound n 10 ltac:(lia)). split.
    + apply Forall_app. split; [done|]. constructor; [|done].
      unfold isdigit. rewrite !(proj2 (Z.leb_le _ _)) by lia. done.
    + rewrite digits_val_snoc, Hval. pose proof (Z.div_mod n 10). lia.
Qed.

Lemma dec_digits_length fuel n k :
  0 <= n < 10 ^ Z.of_nat (S k) -> (length (dec_digits fuel n) <= S k)%nat.
Proof.
  revert n k. induction fuel as [|fuel IH]; intros n k Hn; cbn; [lia|].
  destruct (Z.ltb_spec n 10); [cbn; lia|].
  destruct k as [|k]; [cbn in Hn; lia|].
  rewrite Nat2Z.inj_succ, Z.pow_succ_r in Hn by lia.
  rewrite length_app. cbn. specialize (IH (n / 10) k).
  assert (0 <= n / 10 < 10 ^ Z.of_nat (S k)).
  { split; [apply Z.div_pos; lia|]. apply Z.div_lt_upper_bound; lia. }
  specialize (IH H0). lia.
Qed.

Lemma dec_digits_nonempty fuel n : dec_digits (S fuel) n ≠ [].
Proof. cbn. destruct (n <? 10); [done|]. by destruct (dec_digits fuel (n / 10)). Qed.

Section dec.
Context (n : Z) (Hn : 0 <= n).

Lemma dec_pos : dec n = dec_digits (S (Z.to_nat (Z.log2 n))) n.
Proof. unfold dec. destruct (Z.ltb_spec n 0); [lia|done]. Qed.

Lemma dec_spec : Forall (fun d => isdigit d = true) (dec n) ∧ digits_val 0 (dec n) = n.
Proof.
  rewrite dec_pos. apply dec_digits_spec. split; [done|].
  rewrite Nat2Z.inj_succ, Z2Nat.id by apply Z.log2_nonneg.
  destruct (decide (n = 0)) as [->|Hne]; [done|]. by apply Z.log2_spec; lia.
Qed.

Lemma dec_length k : n < 10 ^ Z.of_nat (S k) -> (0 < length (dec n) <= S k)%nat.
Proof.
  intros Hk. rewrite dec_pos. split; [|by apply dec_digits_length].
  destruct (dec_digits _ _) eqn:Hd; [by apply dec_digits_nonempty in Hd|cbn; lia].
Qed.

(** strtol reads back what was printed, if what follows is not a digit. *)
Lemma strtol_dec c tl :
  n <= LONG_MAX -> isdigit c = false ->
  strtol (dec n ++ c :: tl) = Some (StrtolResult n (Z.of_nat (length (dec n))) false).
Proof.
  intros Hmax Hc. destruct dec_spec as [Hds Hval].
  pose proof (dec_length (Z.to_nat n)) as Hlen.
  destruct (dec n) as [|d ds] eqn:Hd.
  { exfalso. rewrite dec_pos in Hd. by apply dec_digits_nonempty in Hd. }
  pose proof (Forall_cons_1 _ _ _ Hds) as [Hd1 _]. unfold strtol, skip_space.
  assert (Hd1' : 48 <= d <= 57) by (unfold isdigit in Hd1; lia).
  assert (Hsp : isspace d = false) by (unfold isspace; lia).
  cbn [app]. rewrite Hsp. unfold scan_sign.
  rewrite !(proj2 (Z.eqb_neq _ _)) by lia.
  rewrite (app_comm_cons ds), scan_digits_app, Hval by done. cbn [length].
  unfold clamp_long. rewrite Z.mul_1_l, !(proj2 (Z.ltb_ge _ _)) by (unfold LONG_MAX, LONG_MIN in *; lia).
  done.
Qed.

(** The first character that is not a digit is found. *)
Lemma find_chr_dec c tl :
  isdigit c = false -> find_chr c (Some <$> dec n ++ c :: tl) = Found (length (dec n)).
Proof.
  intros Hc. destruct dec_spec as [Hds _]. induction Hds as [|d ds Hd _ IH]; cbn.
  - by rewrite Z.eqb_refl.
  - rewrite (proj2 (Z.eqb_neq d c)) by congruence.
    rewrite (proj2 (Z.eqb_neq d 0)) by (intros ->; done).
    rewrite IH. done.
Qed.

End dec.

(** ** Strings and integers *)

Lemma p_string_encode s rest :
  Z.of_nat (length s) <= LONG_MAX -> p_string 0 (encode_str s ++ rest) = POk s rest 0.
Proof.
  intros Hmax. set (n := Z.of_nat (length s)). assert (Hn : 0 <= n) by lia.
  unfold encode_str. fold n. rewrite <- app_assoc. cbn [app]. unfold p_string.
  rewrite find_chr_dec by done.
  assert (Hlen : (0 < length (dec n) <= 19)%nat).
  { apply dec_length; [done|]. unfold LONG_MAX in Hmax. fold n in Hmax. change (10 ^ Z.of_nat 19) with 10000000000000000000. lia. }
  rewrite (proj2 (Z.ltb_lt _ _)) by (unfold INTEGER_LEN; lia). rewrite Nat2Z.id.
  rewrite take_app_length.
  destruct (Z.to_nat (INTEGER_LEN + 1) - length (dec n))%nat as [|j] eqn:Hj.
  { unfold INTEGER_LEN in Hj. lia. }
  cbn [replicate]. rewrite strtol_dec by done. cbn [st_erange st_val].
  assert (Hf : strtol_failed 0 n = false) by done. rewrite Hf.
  rewrite !(proj2 (Z.leb_le _ _)); cycle 1.
  { rewrite length_app. cbn. rewrite length_app. lia. } { done. }
  cbn [andb].
  assert (Hdrop : drop (S (length (dec n))) (dec n ++ ch_colon :: s ++ rest) = s ++ rest).
  { rewrite <- Nat.add_1_r, <- drop_drop, drop_app_length. done. }
  rewrite Hdrop, <- drop_drop, Hdrop. unfold n.
  by rewrite Nat2Z.id, take_app_length, drop_app_length.
Qed.

Lemma p_int_encode n rest :
  0 <= n < 2 ^ 32 -> p_int 0 (encode (VInt n) ++ rest) = POk n rest 0.
Proof.
  intros Hn. cbn [encode app]. rewrite <- app_assoc. cbn [app]. unfold p_int.
  assert (Hfind : find_chr ch_e (Some <$> ch_i :: dec n ++ ch_e :: rest) = Found (S (length (dec n)))).
  { rewrite fmap_cons. cbn [find_chr]. rewrite find_chr_dec by (done || lia). done. }
  rewrite Hfind.
  assert (Hlen : (0 < length (dec n) <= 10)%nat).
  { apply dec_length; [lia|]. change (10 ^ Z.of_nat 10) with 10000000000. lia. }
  rewrite u32_small by lia.
  rewrite (proj2 (Z.ltb_lt _ _)) by (unfold INTEGER_LEN; lia). rewrite Nat2Z.id.
  cbn [drop]. rewrite drop_0, take_app_ge by lia. 
  replace (S (length (dec n)) - length (dec n))%nat with 1%nat by lia. cbn [take].
  rewrite <- app_assoc. cbn [app].
  rewrite strtol_dec by (unfold LONG_MAX; done || lia). cbn [st_erange st_val].
  rewrite u32_small by lia. assert (Hf : strtol_failed 0 n = false) by done. rewrite Hf.
  rewrite <- Nat.add_1_r, <- drop_drop, drop_app_length. done.
Qed.

(** ** Values *)

(** What the machine types of the C code can hold. *)
Fixpoint fits (v : bval) : Prop :=
  match v with
  | VInt n => 0 <= n < 2 ^ 32
  | VStr s => Z.of_nat (length s) <= LONG_MAX
  | VList vs => foldr (fun v P => fits v ∧ P) True vs
  | VDict kvs => foldr (fun kv P => (Z.of_nat (length (fst kv)) <= LONG_MAX ∧ fits (snd kv)) ∧ P) True kvs
  end.

Definition encode_items (vs : list bval) : list Z := concat (map encode vs).
Definition encode_ditems (kvs : list (list Z * bval)) : list Z :=
  concat (map (fun kv => encode_str (fst kv) ++ encode (snd kv)) kvs).

(** A string starts with a digit, so its encoding is told from the others. *)
Lemma encode_str_first s : ∃ c tl, encode_str s = c :: tl ∧ 48 <= c <= 57.
Proof.
  unfold encode_str. destruct (dec_spec (Z.of_nat (length s)) ltac:(lia)) as [Hds _].
  pose proof (dec_length (Z.of_nat (length s)) ltac:(lia) (length s)) as Hlen.
  assert (Hlt : Z.of_nat (length s) < 10 ^ Z.of_nat (S (length s))).
  { transitivity (Z.of_nat (S (length s))); [|apply Z.pow_gt_lin_r]; lia. }
  specialize (Hlen Hlt). destruct (dec _) as [|d ds]; cbn in *; [lia|].
  inversion Hds as [|?? Hd]; subst. exists d, (ds ++ ch_colon :: s). split; [done|].
  unfold isdigit in Hd. lia.
Qed.

Lemma encode_first v : ∃ c tl, encode v = c :: tl ∧ c ≠ ch_e.
Proof.
  destruct v; cbn [encode]; try (by do 2 eexists).
  destruct (encode_str_first s) as (c & tl & -> & Hc). exists c, tl. split; [done|].
  lia.
Qed.

Definition bval_ind_strong (P : bval -> Prop)
    (Hi : ∀ n, P (VInt n)) (Hs : ∀ s, P (VStr s))
    (Hl : ∀ vs, Forall P vs -> P (VList vs))
    (Hd : ∀ kvs, Forall (fun kv => P (snd kv)) kvs -> P (VDict kvs)) : ∀ v, P v :=
  fix go v :=
    match v with
    | VInt n => Hi n
    | VStr s => Hs s
    | VList vs => Hl vs ((fix go' vs := match vs return Forall P vs with
                                        | [] => List.Forall_nil _
                                        | v :: vs => List.Forall_cons _ v vs (go v) (go' vs)
                                        end) vs)
    | VDict kvs => Hd kvs ((fix go' kvs := match kvs return Forall (fun kv => P (snd kv)) kvs with
                                           | [] => List.Forall_nil _
                                           | kv :: kvs => List.Forall_cons _ kv kvs (go (snd kv)) (go' kvs)
                                           end) kvs)
    end.

(** Decoding [v] with enough fuel. *)
Definition decodes (v : bval) : Prop :=
  fits v -> ∀ fuel rest, (3 * length (encode v) <= fuel)%nat ->
  p_value fuel 0 (encode v ++ rest) = POk v rest 0.

Lemma p_items_encode vs :
  Forall decodes vs -> foldr (fun v P => fits v ∧ P) True vs ->
  ∀ fuel rest, (3 * length (encode_items vs) + 1 <= fuel)%nat ->
  p_items fuel 0 (encode_items vs ++ ch_e :: rest) = POk vs rest 0.
Proof.
  unfold encode_items. induction 1 as [|v vs Hv _ IH]; intros Hfits fuel rest Hf;
    (destruct fuel as [|fuel]; [lia|]).
  - done.
  - destruct Hfits as [Hfv Hfvs]. cbn [map concat] in *. rewrite length_app in Hf.
    destruct (encode_first v) as (c & tl & Hc & Hce).
    rewrite <- app_assoc. cbn [p_items].
    assert (Hl : (0 < length (encode v))%nat) by (rewrite Hc; cbn; lia).
    destruct (encode v ++ _) as [|c' tl'] eqn:Happ; [by rewrite Hc in Happ|].
    assert (c' = c) as -> by (rewrite Hc in Happ; cbn in Happ; congruence).
    rewrite (proj2 (Z.eqb_neq c ch_e) Hce), <- Happ, Hv by (done || lia).
    cbn [pbind]. rewrite IH by (done || lia). done.
Qed.

Lemma p_ditems_encode kvs :
  Forall (fun kv => decodes (snd kv)) kvs ->
  foldr (fun kv P => (Z.of_nat (length (fst kv)) <= LONG_MAX ∧ fits (snd kv)) ∧ P) True kvs ->
  ∀ fuel rest, (3 * length (encode_ditems kvs) + 1 <= fuel)%nat ->
  p_ditems fuel 0 (encode_ditems kvs ++ ch_e :: rest) = POk kvs rest 0.
Proof.
  unfold encode_ditems. induction 1 as [|[k v] kvs Hv _ IH]; intros Hfits fuel rest Hf;
    (destruct fuel as [|fuel]; [lia|]).
  - done.
  - destruct Hfits as [[Hk Hfv] Hfvs]. cbn [map concat fst snd] in *. rewrite !length_app in Hf.
    destruct (encode_str_first k) as (c & tl & Hc & Hce).
    rewrite <- !app_assoc. cbn [p_ditems].
    assert (Hl : (0 < length (encode_str k))%nat) by (rewrite Hc; cbn; lia).
    destruct (encode_str k ++ _) as [|c' tl'] eqn:Happ; [by rewrite Hc in Happ|].
    assert (c' = c) as -> by (rewrite Hc in Happ; cbn in Happ; congruence).
    assert (Hne : c ≠ ch_e) by lia.
    rewrite (proj2 (Z.eqb_neq c ch_e) Hne), <- Happ, p_string_encode by done.
    cbn [pbind]. rewrite Hv by (done || lia). cbn [pbind]. rewrite IH by (done || lia). done.
Qed.

Lemma p_list_encode vs fuel rest :
  Forall decodes vs -> fits (VList vs) -> (3 * length (encode (VList vs)) <= S fuel)%nat ->
  p_list fuel 0 (encode (VList vs) ++ rest) = POk vs rest 0.
Proof.
  intros Hvs Hfits Hf. cbn in Hf. rewrite length_app in Hf. cbn in Hf.
  destruct fuel as [|fuel]; [lia|]. cbn. rewrite <- app_assoc. cbn.
  by apply p_items_encode; [..|unfold encode_items; lia].
Qed.

Lemma p_dict_encode kvs fuel rest :
  Forall (fun kv => decodes (snd kv)) kvs -> fits (VDict kvs) ->
  (3 * length (encode (VDict kvs)) <= S fuel)%nat ->
  p_dict fuel 0 (encode (VDict kvs) ++ rest) = POk kvs rest 0.
Proof.
  intros Hvs Hfits Hf. cbn in Hf. rewrite length_app in Hf. cbn in Hf.
  destruct fuel as [|fuel]; [lia|]. cbn. rewrite <- app_assoc. cbn.
  by apply p_ditems_encode; [..|unfold encode_ditems; lia].
Qed.

Lemma p_value_encode v : decodes v.
Proof.
  induction v as [n|s|vs IH|kvs IH] using bval_ind_strong; intros Hfits fuel rest Hf;
    (destruct fuel as [|fuel]; [destruct (encode_first (VInt 0)); cbn in Hf |- *|]).
  all: try (exfalso; match goal with Hf : (_ <= 0)%nat |- _ => rewrite ?length_app in Hf; cbn in Hf end;
            try (destruct (encode_str_first s) as (? & ? & Hs & _); rewrite Hs in Hf; cbn in Hf); lia).
  - pose proof (p_int_encode n rest Hfits) as Hp. cbn [p_value encode app] in *. cbn. by rewrite Hp.
  - destruct (encode_str_first s) as (c & tl & Hc & Hce). cbn [encode p_value].
    pose proof (p_string_encode s rest Hfits) as Hp. rewrite Hc in Hp |- *. cbn [app] in *.
    rewrite !(proj2 (Z.eqb_neq _ _)) by lia. by rewrite Hp.
  - pose proof (p_list_encode vs fuel rest IH Hfits Hf) as Hp.
    cbn [encode p_value app] in *. cbn. by rewrite Hp.
  - pose proof (p_dict_encode kvs fuel rest IH Hfits Hf) as Hp.
    cbn [encode p_value app] in *. cbn. by rewrite Hp.
Qed.
