(* ===== verification/BCorrect.v ===== *)
(** * src/b_parse.c: correctness

    The end-to-end statements about the parsers of src/b_parse.c, put together
    from the representation ([BRep]), the refinement ([BRefine]) and the
    round trip of the reference parser ([BRound]).  All of them are about runs
    on any heap that contains the input buffer. *)

From iris.proofmode Require Import environments proofmode.
From S2P Require Import Prelude CTypes HProp CMem CWp CLib Trace DList BParse BSpec BRep BRefine BRound.
Set Warnings "-rewrite-rw".
Open Scope Z_scope.

(** Fuel for the reference parser and for the C loops on an input of this length. *)
Definition spec_fuel (bs : list Z) : nat := 3 * length bs + 3.
Definition loop_fuel (bs : list Z) : nat := 2 * length bs + 4.

(** What the clients of the parser do first: a new dictionary, filled from a buffer. *)
Definition dict_from (F : nat) (buf : ptr) : M (ptr * ptr) :=
  d ← b_dict_alloc;
  r ← b_dict_parse F buf d;
  mret (d, r).

Definition list_from (F : nat) (buf : ptr) : M (ptr * ptr) :=
  d ← b_list_alloc;
  r ← b_list_parse F buf d;
  mret (d, r).

Definition dict_result (bs : list Z) (e : Z) := p_dict (spec_fuel bs) e bs.
Definition list_result (bs : list Z) (e : Z) := p_list (spec_fuel bs) e bs.

Section correct.
Implicit Types (F : nat) (bs : list Z) (g : globals) (b l : loc).

Lemma dict_result_fuel bs e : dict_result bs e ≠ PFuel.
Proof. apply (p_terminates (spec_fuel bs)). rewrite /spec_fuel. lia. Qed.

Lemma list_result_fuel bs e : list_result bs e ≠ PFuel.
Proof. apply (p_terminates (spec_fuel bs)). rewrite /spec_fuel. lia. Qed.

Lemma ready_start g bs : oom g = [] -> Z.of_nat (length bs) < 2 ^ 62 -> ready g bs 0.
Proof. intros. split_and!; [done|done|lia]. Qed.

(** What [dict_from] leaves: the buffer, and the dictionary the reference parser
    describes, or one that can be released. *)
Definition dict_post (g : globals) (b : loc) (bs : list Z) (res : ptr * ptr) (g' : globals) : hProp :=
  (∃ d, ⌜⌜fst res = obj_ptr d⌝⌝ ∗
     parsed g b bs 0 (dict_result bs (errno g)) (is_dict PNull d)
       (∃ kvs, ⌜⌜(2 + ditems_size kvs <= 2 * length bs)%nat⌝⌝ ∗ is_dict PNull d kvs) (snd res) g')%I.

Definition list_post (g : globals) (b : loc) (bs : list Z) (res : ptr * ptr) (g' : globals) : hProp :=
  (∃ d, ⌜⌜fst res = obj_ptr d⌝⌝ ∗
     parsed g b bs 0 (list_result bs (errno g)) (is_list PNull d)
       (∃ vs, ⌜⌜(2 + items_size vs <= 2 * length bs)%nat⌝⌝ ∗ is_list PNull d vs) (snd res) g')%I.

Lemma wpx_b_dict_parse F d b bs g :
  oom g = [] -> Z.of_nat (length bs) < 2 ^ 62 -> (loop_fuel bs <= F)%nat ->
  is_dict PNull d [] ∗ b ↦ (Some <$> bs)
  ⊢ wpx (b_dict_parse F (obj_ptr b) (obj_ptr d)) g
      (fun r g' => dict_post g b bs (obj_ptr d, r) g')
      (fun _ => dict_result bs (errno g) = PFault).
Proof.
  intros Hoom Hlen HF. rewrite /loop_fuel in HF.
  destruct (parsers_refine (spec_fuel bs)) as (_ & _ & Hd & _).
  iIntros "H". iDestruct (Hd F PNull d b bs 0%nat g with "H") as "H";
    [by apply ready_start|lia|apply dict_result_fuel|].
  iApply (wpx_wand with "H"). iIntros (r g') "H". iExists d. iSplitR; [done|].
  rewrite Nat.sub_0_r. iFrame "H".
Qed.

Lemma wpx_b_list_parse F d b bs g :
  oom g = [] -> Z.of_nat (length bs) < 2 ^ 62 -> (loop_fuel bs <= F)%nat ->
  is_list PNull d [] ∗ b ↦ (Some <$> bs)
  ⊢ wpx (b_list_parse F (obj_ptr b) (obj_ptr d)) g
      (fun r g' => list_post g b bs (obj_ptr d, r) g')
      (fun _ => list_result bs (errno g) = PFault).
Proof.
  intros Hoom Hlen HF. rewrite /loop_fuel in HF.
  destruct (parsers_refine (spec_fuel bs)) as (Hd & _ & _ & _).
  iIntros "H". iDestruct (Hd F PNull d b bs 0%nat g with "H") as "H";
    [by apply ready_start|lia|apply list_result_fuel|].
  iApply (wpx_wand with "H"). iIntros (r g') "H". iExists d. iSplitR; [done|].
  rewrite Nat.sub_0_r. iFrame "H".
Qed.

Lemma wpx_dict_from F b bs g :
  oom g = [] -> Z.of_nat (length bs) < 2 ^ 62 -> (loop_fuel bs <= F)%nat ->
  b ↦ (Some <$> bs)
  ⊢ wpx (dict_from F (obj_ptr b)) g (dict_post g b bs) (fun _ => dict_result bs (errno g) = PFault).
Proof.
  intros Hoom Hlen HF. iIntros "Hb". iApply wpx_bind. iApply wpx_wp.
  iApply wp_b_dict_alloc; [done|]. iIntros (d) "Hd". iApply wpx_bind.
  iDestruct (wpx_b_dict_parse F d b bs g with "[$Hd $Hb]") as "H"; [done..|].
  iApply (wpx_wand with "H"). iIntros (r g') "H". wp_step. iFrame.
Qed.

Lemma wpx_list_from F b bs g :
  oom g = [] -> Z.of_nat (length bs) < 2 ^ 62 -> (loop_fuel bs <= F)%nat ->
  b ↦ (Some <$> bs)
  ⊢ wpx (list_from F (obj_ptr b)) g (list_post g b bs) (fun _ => list_result bs (errno g) = PFault).
Proof.
  intros Hoom Hlen HF. iIntros "Hb". iApply wpx_bind. iApply wpx_wp.
  iApply wp_b_list_alloc; [done|]. iIntros (d) "Hd". iApply wpx_bind.
  iDestruct (wpx_b_list_parse F d b bs g with "[$Hd $Hb]") as "H"; [done..|].
  iApply (wpx_wand with "H"). iIntros (r g') "H". wp_step. iFrame.
Qed.

(** Releasing whatever [dict_from] left. *)
Lemma wp_dict_post_free F b bs res g g' Q :
  (loop_fuel bs <= F)%nat ->
  dict_post g b bs res g' ∗ (b ↦ (Some <$> bs) -∗ Q tt g')
  ⊢ wp (b_dict_free F (fst res)) g' Q.
Proof.
  iIntros (HF) "[(%d & -> & Hb & H) HQ]". rewrite /loop_fuel in HF.
  assert (Hsz : within (fun vs => 4 + ditems_size vs)%nat bs (dict_result bs (errno g)))
    by apply p_sizes.
  destruct (dict_result bs (errno g)) as [kvs rest e|e| |]; [..|done|done].
  - specialize (Hsz _ _ _ eq_refl). cbn in Hsz. iDestruct "H" as "[_ H]".
    iApply (wp_b_dict_free F PNull d kvs); [lia|]. iFrame "H". by iApply "HQ".
  - iDestruct "H" as "[_ (%kvs & %Hk & H)]".
    iApply (wp_b_dict_free F PNull d kvs); [lia|]. iFrame "H". by iApply "HQ".
Qed.

End correct.

(** ** Properties *)

(** A heap that holds one buffer. *)
Definition one_buffer (b : loc) (bs : list Z) : heap := {[(b, FBody) := CObj (OBytes (Some <$> bs))]}.

Lemma holds_buffer b bs : holds (b ↦ (Some <$> bs))%I (one_buffer b bs).
Proof. done. Qed.

(** C1: when the allocator gives memory, filling a new dictionary from any buffer of
    less than 2^62 bytes terminates within a bound linear in its length and does
    what the reference parser says: the same entries, the same end pointer, the same
    errno, NULL on the same inputs; undefined behaviour occurs only on inputs the
    reference parser marks. *)
Theorem b_dict_parse_refines F b bs g :
  oom g = [] -> Z.of_nat (length bs) < 2 ^ 62 -> (loop_fuel bs <= F)%nat ->
  outcomes (b ↦ (Some <$> bs))%I g (dict_from F (obj_ptr b)) (dict_post g b bs)
    (fun _ => dict_result bs (errno g) = PFault).
Proof. intros. by apply outcomes_wpx, wpx_dict_from. Qed.

Lemma b_dict_parse_refines_witness :
  let bs := str "d1:ai7e4:spamlee" in
  holds (1%positive ↦ (Some <$> bs))%I (one_buffer 1 bs) ∧
  outcomes (1%positive ↦ (Some <$> bs))%I quiet_globals (dict_from 100 (obj_ptr 1))
    (dict_post quiet_globals 1 bs) (fun _ => dict_result bs 0 = PFault).
Proof.
  split; [apply holds_buffer|].
  apply (b_dict_parse_refines 100 1 _ quiet_globals);
    [reflexivity|vm_compute; reflexivity|apply Nat.leb_le; vm_compute; reflexivity].
Defined.

(** The same for a list at the top. *)
Theorem b_list_parse_refines F b bs g :
  oom g = [] -> Z.of_nat (length bs) < 2 ^ 62 -> (loop_fuel bs <= F)%nat ->
  outcomes (b ↦ (Some <$> bs))%I g (list_from F (obj_ptr b)) (list_post g b bs)
    (fun _ => list_result bs (errno g) = PFault).
Proof. intros. by apply outcomes_wpx, wpx_list_from. Qed.

Lemma b_list_parse_refines_witness :
  let bs := str "li1e2:abe" in
  holds (1%positive ↦ (Some <$> bs))%I (one_buffer 1 bs) ∧
  outcomes (1%positive ↦ (Some <$> bs))%I quiet_globals (list_from 100 (obj_ptr 1))
    (list_post quiet_globals 1 bs) (fun _ => list_result bs 0 = PFault).
Proof.
  split; [apply holds_buffer|].
  apply (b_list_parse_refines 100 1 _ quiet_globals);
    [reflexivity|vm_compute; reflexivity|apply Nat.leb_le; vm_compute; reflexivity].
Defined.

(** C3: parsing a buffer into a new dictionary and releasing the dictionary, whether
    the parse succeeded or stopped half-way, leaves the memory exactly as it was:
    nothing leaks, nothing is released twice.  This is for runs in which every
    allocation succeeds (an entry that gets no memory is lost with what it was for)
    and for buffers on which the reference parser finds no undefined behaviour. *)
Theorem b_dict_parse_free_exact F b bs g :
  oom g = [] -> Z.of_nat (length bs) < 2 ^ 62 -> (loop_fuel bs <= F)%nat ->
  dict_result bs (errno g) ≠ PFault ->
  triple (b ↦ (Some <$> bs))%I g
    (res ← dict_from F (obj_ptr b); b_dict_free F (fst res))
    (fun _ _ => b ↦ (Some <$> bs))%I.
Proof.
  intros Hoom Hlen HF Hok. apply triple_wp. iIntros "Hb". iApply wp_bind.
  iApply (wp_wpx _ _ _ (fun _ => dict_result bs (errno g) = PFault)); [by intros _|].
  iDestruct (wpx_dict_from F b bs g with "Hb") as "H"; [done..|].
  iApply (wpx_wand with "H"). iIntros (res g') "H".
  iApply (wp_dict_post_free F b bs res g with "[$H]"); [done|]. by iIntros "$".
Qed.

Lemma b_dict_parse_free_exact_witness :
  let bs := str "d1:al1:bi3ee1:ci" ++ [0] in
  holds (1%positive ↦ (Some <$> bs))%I (one_buffer 1 bs) ∧
  triple (1%positive ↦ (Some <$> bs))%I quiet_globals
    (res ← dict_from 100 (obj_ptr 1); b_dict_free 100 (fst res))
    (fun _ _ => 1%positive ↦ (Some <$> bs))%I.
Proof.
  split; [apply holds_buffer|].
  apply (b_dict_parse_free_exact 100 1 _ quiet_globals);
    [reflexivity|vm_compute; reflexivity|apply Nat.leb_le; vm_compute; reflexivity|].
  vm_compute. discriminate.
Defined.



(** Strtol's error test also fires on an errno that an earlier call left
    behind: the integer zero is then rejected, with NULL, although the input is
    well formed. *)
Theorem b_int_parse_stale_errno l b rest g :
  oom g = [] -> errno g ≠ 0 ->
  triple (l ↦ BInt PNull 0 ∗ b ↦ (Some <$> encode (VInt 0) ++ rest))%I g
    (b_int_parse (obj_ptr b) (obj_ptr l))
    (fun r _ => ⌜⌜r = PNull⌝⌝ ∗ (∃ v, l ↦ BInt PNull v) ∗ b ↦ (Some <$> encode (VInt 0) ++ rest))%I.
Proof.
  intros Hoom Herr. apply triple_wp. iIntros "H".
  assert (Hres : p_int (errno g) (encode (VInt 0) ++ rest) = PErr (errno g)).
  { cbn. rewrite /p_int /= /strtol_failed. apply Z.eqb_neq in Herr as Herr'. cbn. by rewrite Herr' andb_false_r. }
  iApply (wp_wpx _ _ _ (fun _ => p_int (errno g) (encode (VInt 0) ++ rest) = PFault)).
  { intros _. by rewrite Hres. }
  iDestruct (wpx_b_int_parse PNull l 0 b (encode (VInt 0) ++ rest) 0%nat g with "H") as "H"; [done|lia|].
  iApply (wpx_wand with "H"). iIntros (r g') "[$ H]". rewrite drop_0 Hres.
  iDestruct "H" as "[%H $]". iPureIntro. apply H.
Qed.

Lemma b_int_parse_stale_errno_witness :
  triple (1%positive ↦ BInt PNull 0 ∗ 2%positive ↦ (Some <$> encode (VInt 0) ++ []))%I
    (set_errno 2 quiet_globals) (b_int_parse (obj_ptr 2) (obj_ptr 1))
    (fun r _ => ⌜⌜r = PNull⌝⌝ ∗ (∃ v, 1%positive ↦ BInt PNull v)
       ∗ 2%positive ↦ (Some <$> encode (VInt 0) ++ []))%I.
Proof. apply (b_int_parse_stale_errno 1 2 [] (set_errno 2 quiet_globals)); [reflexivity|discriminate]. Defined.
