(* ===== verification/Torrent.v ===== *)
(** * src/torrent_parse.c: torrent files

    A torrent file is a B-coded dictionary; [torrent_parse] moves the values of
    the keys it knows out of the parsed dictionary into a [struct torrent] and
    releases the rest.  One definition per C function. *)

From iris.proofmode Require Import environments proofmode.
From S2P Require Import Prelude CTypes HProp CMem CWp CLib Trace DList BParse.
Set Warnings "-rewrite-rw".
Open Scope Z_scope.

(** ** Fields

    The members of [struct torrent], and of the [struct torrent_info] inside it,
    that own an object. *)

Inductive field :=
| F_announce | F_announce_list | F_comment | F_comment_utf8 | F_create_by
| F_piece_hash | F_private | F_dir_name | F_name | F_name_utf8 | F_md5sum
| F_publisher | F_publisher_utf8 | F_publisher_url | F_publisher_url_utf8.

#[export] Instance field_eq_dec : EqDecision field.
Proof. solve_decision. Defined.

Definition get_field (f : field) (t : torrent) : ptr :=
  match f with
  | F_announce => t_announce t
  | F_announce_list => t_announce_list t
  | F_comment => t_comment t
  | F_comment_utf8 => t_comment_utf8 t
  | F_create_by => t_create_by t
  | F_piece_hash => ti_piece_hash (t_info t)
  | F_private => ti_private (t_info t)
  | F_dir_name => ti_dir_name (t_info t)
  | F_name => ti_name (t_info t)
  | F_name_utf8 => ti_name_utf8 (t_info t)
  | F_md5sum => ti_md5sum (t_info t)
  | F_publisher => ti_publisher (t_info t)
  | F_publisher_utf8 => ti_publisher_utf8 (t_info t)
  | F_publisher_url => ti_publisher_url (t_info t)
  | F_publisher_url_utf8 => ti_publisher_url_utf8 (t_info t)
  end.

(** An assignment to member [f]. *)
Definition set_field (f : field) (p : ptr) (t : torrent) : torrent :=
  let put g old := if decide (f = g) then p else old in
  let i := t_info t in
  Torrent (put F_announce (t_announce t)) (put F_announce_list (t_announce_list t))
    (put F_comment (t_comment t)) (put F_comment_utf8 (t_comment_utf8 t))
    (put F_create_by (t_create_by t)) (t_create_date t) (t_encoding t)
    (TorrentInfo (ti_piece_len i) (put F_piece_hash (ti_piece_hash i))
       (put F_private (ti_private i)) (put F_dir_name (ti_dir_name i))
       (put F_name (ti_name i)) (put F_name_utf8 (ti_name_utf8 i)) (ti_length i)
       (put F_md5sum (ti_md5sum i)) (put F_publisher (ti_publisher i))
       (put F_publisher_utf8 (ti_publisher_utf8 i)) (put F_publisher_url (ti_publisher_url i))
       (put F_publisher_url_utf8 (ti_publisher_url_utf8 i))).

Definition set_piece_len (n : Z) (i : torrent_info) : torrent_info :=
  TorrentInfo n (ti_piece_hash i) (ti_private i) (ti_dir_name i) (ti_name i) (ti_name_utf8 i)
    (ti_length i) (ti_md5sum i) (ti_publisher i) (ti_publisher_utf8 i) (ti_publisher_url i)
    (ti_publisher_url_utf8 i).
Definition set_length (n : Z) (i : torrent_info) : torrent_info :=
  TorrentInfo (ti_piece_len i) (ti_piece_hash i) (ti_private i) (ti_dir_name i) (ti_name i)
    (ti_name_utf8 i) n (ti_md5sum i) (ti_publisher i) (ti_publisher_utf8 i) (ti_publisher_url i)
    (ti_publisher_url_utf8 i).
Definition set_info (i : torrent_info) (t : torrent) : torrent :=
  Torrent (t_announce t) (t_announce_list t) (t_comment t) (t_comment_utf8 t) (t_create_by t)
    (t_create_date t) (t_encoding t) i.
Definition set_create_date (n : Z) (t : torrent) : torrent :=
  Torrent (t_announce t) (t_announce_list t) (t_comment t) (t_comment_utf8 t) (t_create_by t)
    n (t_encoding t) (t_info t).

(** CMP_EQUAL == strncmp(vec->key, "s", KEY_LEN) && vec->type == t *)
Definition key_is (x : d_entry) (s : string) (t : Z) : M bool :=
  b ← strncmp_is (de_key x) s KEY_LEN;
  mret (b && (de_type x =? t)).

(** vec->val = NULL *)
Definition clear_val (vec : ptr) : M unit :=
  x ← load d_entry vec; store vec (DEntry (de_key x) PNull (de_type x)).

(** ptr->f = vec->val; vec->val = NULL; continue *)
Definition move_val (f : field) (vec ptr : ptr) : M (option Z) :=
  x ← load d_entry vec;
  t ← load torrent ptr;
  _ ← store ptr (set_field f (de_val x) t);
  _ ← clear_val vec;
  mret None.

(** ** Files of a multi-file torrent *)

(** The body of the loop of multi_files_alloc. *)
Definition multi_files_entry (p vec : ptr) : M (option unit) :=
  x ← load d_entry vec;
  b ← key_is x "path" ch_l;
  if (b : bool) then
    m ← load multi_files p;
    _ ← store p (MultiFiles (mf_length m) (de_val x) (mf_path_utf8 m) (mf_md5sum m));
    _ ← clear_val vec;
    mret None
  else
  b ← key_is x "path.utf-8" ch_l;
  if (b : bool) then
    m ← load multi_files p;
    _ ← store p (MultiFiles (mf_length m) (mf_path m) (de_val x) (mf_md5sum m));
    _ ← clear_val vec;
    mret None
  else
  b ← key_is x "length" ch_i;
  if (b : bool) then
    n ← b_int_get (de_val x);
    m ← load multi_files p;
    _ ← store p (MultiFiles n (mf_path m) (mf_path_utf8 m) (mf_md5sum m));
    mret None
  else mret None.

Definition multi_files_alloc (fuel : nat) (dict : ptr) : M ptr :=
  p ← malloc (MultiFiles 0 PUndef PUndef PUndef);
  if negb (is_null p) && negb (is_null dict) then
    _ ← store p (MultiFiles 0 PNull PNull PNull);
    _ ← store_node p (ListHead PNull PNull);
    _ ← list_for_each_entry_safe fuel dict (multi_files_entry p);
    mret p
  else
    _ ← TRACE_ERROR "multi_files_alloc" 58 (mret (str "No memory to alloc multi_files" ++ [ch_nl]));
    mret PNull.

Definition multi_files_free (fuel : nat) (p : ptr) : M unit :=
  if is_null p then mret tt
  else
    m ← load multi_files p;
    _ ← b_list_free fuel (mf_path m);
    m ← load multi_files p;
    _ ← b_list_free fuel (mf_path_utf8 m);
    free p.

Definition multi_files_add (p head : ptr) : M unit := list_add_tail p head.

(** [p] is the torrent the info_multi_file is part of. *)
Definition info_multi_files_free (fuel : nat) (p : ptr) : M unit :=
  if is_null p then mret tt
  else
    _ ← list_for_each_entry_safe (R := unit) fuel p
          (fun vec => _ ← multi_files_free fuel vec; mret None);
    t ← load torrent p;
    b_string_free (get_field F_dir_name t).

(** ** Torrents *)

Definition no_info : torrent_info :=
  TorrentInfo 0 PNull PNull PNull PNull PNull 0 PNull PNull PNull PNull PNull.
Definition no_torrent : torrent := Torrent PNull PNull PNull PNull PNull 0 0 no_info.

Definition torrent_alloc : M ptr :=
  p ← malloc no_torrent;
  if negb (is_null p) then
    _ ← INIT_LIST_HEAD p;
    mret p
  else mret PNull.

(** b_string_free(ptr->f) *)
Definition free_field (p : ptr) (f : field) : M unit :=
  t ← load torrent p; b_string_free (get_field f t).

Definition torrent_info_free (fuel : nat) (p : ptr) : M Z :=
  _ ← (if is_null p then mret tt
       else
         _ ← free_field p F_piece_hash;
         _ ← free_field p F_private;
         _ ← free_field p F_name;
         _ ← free_field p F_name_utf8;
         _ ← free_field p F_md5sum;
         _ ← free_field p F_publisher;
         _ ← free_field p F_publisher_utf8;
         _ ← free_field p F_publisher_url;
         _ ← free_field p F_publisher_url;
         info_multi_files_free fuel p);
  mret 0.

Definition torrent_free (fuel : nat) (p : ptr) : M Z :=
  _ ← (if negb (is_null p) then
         _ ← free_field p F_announce;
         _ ← free_field p F_comment;
         _ ← free_field p F_comment_utf8;
         t ← load torrent p;
         _ ← b_list_free fuel (t_announce_list t);
         _ ← torrent_info_free fuel p;
         free p
       else TRACE_ERROR "torrent_free" 131
              (mret (str "Duplicated free torrent " ++ ptr_text p ++ [ch_nl])));
  mret 0.

(** The loop over the list of files. *)
Definition torrent_info_file (fuel : nat) (info vec_l : ptr) : M (option Z) :=
  x ← load l_entry vec_l;
  if le_type x =? ch_d then
    files_ptr ← multi_files_alloc fuel (le_entry x);
    if negb (is_null files_ptr) then
      _ ← multi_files_add files_ptr info;
      mret None
    else mret (Some (-1))
  else mret None.

(** The body of the loop of torrent_info_parse. *)
Definition torrent_info_entry (fuel : nat) (info vec : ptr) : M (option Z) :=
  x ← load d_entry vec;
  b ← key_is x "piece length" ch_i;
  if (b : bool) then
    n ← b_int_get (de_val x);
    t ← load torrent info;
    _ ← store info (set_info (set_piece_len n (t_info t)) t);
    mret None
  else
  b ← key_is x "pieces" ch_s;
  if (b : bool) then move_val F_piece_hash vec info else
  b ← key_is x "name" ch_s;
  if (b : bool) then move_val F_name vec info else
  b ← key_is x "name.utf-8" ch_s;
  if (b : bool) then move_val F_name_utf8 vec info else
  b ← key_is x "length" ch_i;
  if (b : bool) then
    n ← b_int_get (de_val x);
    t ← load torrent info;
    _ ← store info (set_info (set_length n (t_info t)) t);
    mret None
  else
  b ← key_is x "publisher" ch_s;
  if (b : bool) then move_val F_publisher vec info else
  b ← key_is x "private" ch_s;
  if (b : bool) then move_val F_private vec info else
  b ← key_is x "md5sum" ch_s;
  if (b : bool) then move_val F_md5sum vec info else
  b ← key_is x "publisher utf-8" ch_s;
  if (b : bool) then move_val F_publisher_utf8 vec info else
  b ← key_is x "publisher url" ch_s;
  if (b : bool) then move_val F_publisher_url vec info else
  b ← key_is x "publisher url utf-8" ch_s;
  if (b : bool) then move_val F_publisher_url_utf8 vec info else
  b ← key_is x "files" ch_l;
  if (b : bool) then list_for_each_entry_safe fuel (de_val x) (torrent_info_file fuel info)
  else mret None.

Definition torrent_info_parse (fuel : nat) (info_dict info : ptr) : M Z :=
  r ← list_for_each_entry_safe fuel info_dict (torrent_info_entry fuel info);
  mret (match r with Some r => r | None => 0 end).

(** The body of the loop of torrent_parse; the tests that repeat an earlier one
    are kept. *)
Definition torrent_entry (fuel : nat) (dict_ptr ptr vec : ptr) : M (option Z) :=
  x ← load d_entry vec;
  b ← key_is x "announce" ch_s;
  if (b : bool) then move_val F_announce vec ptr else
  b ← key_is x "announce-list" ch_l;
  if (b : bool) then move_val F_announce_list vec ptr else
  b ← key_is x "comment" ch_s;
  if (b : bool) then move_val F_comment vec ptr else
  b ← key_is x "comment-utf8" ch_s;
  if (b : bool) then move_val F_comment_utf8 vec ptr else
  b ← key_is x "comment" ch_s;
  if (b : bool) then move_val F_comment vec ptr else
  b ← key_is x "create by" ch_s;
  if (b : bool) then move_val F_create_by vec ptr else
  b ← key_is x "creation date" ch_i;
  if (b : bool) then
    n ← b_int_get (de_val x);
    t ← load torrent ptr;
    _ ← store ptr (set_create_date n t);
    mret None
  else
  b ← key_is x "comment" ch_s;
  if (b : bool) then move_val F_comment vec ptr else
  b ← key_is x "comment-utf8" ch_s;
  if (b : bool) then move_val F_comment_utf8 vec ptr else
  b ← key_is x "info" ch_d;
  if (b : bool) then
    r ← torrent_info_parse fuel (de_val x) ptr;
    if r =? 0 then mret None
    else
      _ ← b_dict_free fuel dict_ptr;
      mret (Some (-1))
  else mret None.

Definition torrent_parse (fuel : nat) (buf ptr : ptr) : M Z :=
  dict_ptr ← b_dict_alloc;
  _ ← c_assert (negb (is_null buf));
  if negb (is_null dict_ptr) then
    t ← b_dict_parse fuel buf dict_ptr;
    if is_null t then
      _ ← b_dict_free fuel dict_ptr;
      mret (-1)
    else
      r ← list_for_each_entry_safe fuel dict_ptr (torrent_entry fuel dict_ptr ptr);
      match r with
      | Some r => mret r
      | None =>
          _ ← b_dict_free fuel dict_ptr;
          mret 0
      end
  else mret (-1).

(** ** Printing *)

(** A pointer printed with %d: the low 32 bits of its address. *)
Definition ptr_int (p : ptr) : list Z :=
  match p with
  | PAt l o => dec (s32 (Z.pos l + o))
  | _ => dec 0
  end.

Definition multi_files_print (fuel : nat) (p : ptr) : M (option unit) :=
  list_for_each_entry fuel p (fun vec =>
    m ← load multi_files vec;
    _ ← (if negb (is_null (mf_path m)) then
           _ ← TRACE_INFO "multi_files_print" 296 (mret (str "[ path ]:" ++ [ch_nl]));
           b_list_print fuel (mf_path m)
         else mret tt);
    _ ← (if negb (is_null (mf_path_utf8 m)) then
           _ ← TRACE_INFO "multi_files_print" 300 (mret (str "[ path(utf-8) ]:" ++ [ch_nl]));
           b_list_print fuel (mf_path m)
         else mret tt);
    _ ← TRACE_INFO "multi_files_print" 303
          (mret (str "[ lenght ]:" ++ [ch_nl] ++ dec (s32 (mf_length m)) ++ [ch_nl]));
    mret None).

(** if (ptr->f) TRACE(INFO, "[ title ]:\n%s\n", b_string_get(ptr->f)); *)
Definition print_field (func : string) (line : Z) (title : string) (t : torrent) (f : field) : M unit :=
  if negb (is_null (get_field f t)) then
    TRACE_INFO func line
      (data ← b_string_get (get_field f t);
       s ← get_cstr data;
       mret (str "[ " ++ str title ++ str " ]:" ++ [ch_nl] ++ s ++ [ch_nl]))
  else mret tt.

(** The same with %d. *)
Definition print_field_d (func : string) (line : Z) (title : string) (t : torrent) (f : field) : M unit :=
  if negb (is_null (get_field f t)) then
    TRACE_INFO func line
      (data ← b_string_get (get_field f t);
       mret (str "[ " ++ str title ++ str " ]:" ++ [ch_nl] ++ ptr_int data ++ [ch_nl]))
  else mret tt.

Definition print_num (func : string) (line : Z) (title : string) (n : Z) : M unit :=
  if negb (n =? 0) then
    TRACE_INFO func line
      (mret (str "[ " ++ str title ++ str " ]:" ++ [ch_nl] ++ dec (s32 n) ++ [ch_nl]))
  else mret tt.

(** The loop that prints the hash, 20 bytes on a line. *)
Fixpoint print_hash (n : nat) (i : Z) (p_hash : ptr) : M unit :=
  match n with
  | O => mret tt
  | S n =>
      _ ← (if negb (i =? 0) && (i mod 20 =? 0) then put_out [ch_nl] else mret tt);
      q ← ptr_add p_hash i;
      c ← get_byte q;
      _ ← put_out (hex02 c ++ [32]);
      i ← int_succ i;
      print_hash n i p_hash
  end.

Definition torrent_info_print (fuel : nat) (p : ptr) : M unit :=
  t ← load torrent p;
  let fn := "torrent_info_print" in
  _ ← print_field fn 310 "publisher" t F_publisher;
  _ ← print_field fn 312 "publisher(utf-8)" t F_publisher_utf8;
  _ ← print_field fn 314 "publisher_url" t F_publisher_url;
  _ ← print_field fn 316 "publisher_url(utf-8)" t F_publisher_url_utf8;
  _ ← print_field fn 318 "name" t F_name;
  _ ← print_field fn 320 "name(utf-8)" t F_name_utf8;
  _ ← print_num fn 322 "length" (ti_length (t_info t));
  _ ← print_field_d fn 324 "md5sum(single file)" t F_md5sum;
  _ ← print_field_d fn 326 "private" t F_private;
  _ ← print_num fn 328 "piece_len" (ti_piece_len (t_info t));
  _ ← (if negb (is_null (ti_piece_hash (t_info t))) then
         p_hash ← b_string_get (ti_piece_hash (t_info t));
         len ← b_string_get_length (ti_piece_hash (t_info t));
         _ ← TRACE_INFO fn 333
               (mret (str "[ piece_hash (" ++ dec (s32 len) ++ str ") ]:" ++ [ch_nl; ch_nl]));
         _ ← print_hash (Z.to_nat len) 0 p_hash;
         put_out [ch_nl]
       else mret tt);
  _ ← print_field fn 341 "dir_name" t F_dir_name;
  _ ← multi_files_print fuel p;
  mret tt.

Section print.
(** The text of a time, which depends on the time zone of the machine. *)
Context (ctime : Z -> list Z).

Definition torrent_print (fuel : nat) (p : ptr) : M unit :=
  t ← load torrent p;
  let fn := "torrent_print" in
  _ ← TRACE_INFO fn 349 (mret (str "[ Torrent Info BEGIN ]" ++ [ch_nl]));
  _ ← print_field fn 351 "announce" t F_announce;
  _ ← (if negb (is_null (t_announce_list t)) then b_list_print fuel (t_announce_list t) else mret tt);
  _ ← print_field fn 356 "comment" t F_comment;
  _ ← print_field fn 358 "comment(utf8)" t F_comment_utf8;
  _ ← print_field fn 360 "create by" t F_create_by;
  _ ← (if negb (t_create_date t =? 0) then
         TRACE_INFO fn 362
           (mret (str "[ create date ]:" ++ [ch_nl] ++ ctime (t_create_date t) ++ [ch_nl]))
       else mret tt);
  _ ← print_num fn 364 "encoding" (t_encoding t);
  _ ← torrent_info_print fuel p;
  TRACE_INFO fn 366 (mret (str "[ Torrent Info END ]" ++ [ch_nl])).

End print.
