(* ===== verification/TorrentSpec.v ===== *)
(** * Torrents: what a file means, and torrents in memory

    The contents of a torrent as a function of the parsed dictionary: which value
    ends up in which member of [struct torrent], the list of files, and the values
    that no member refers to any more because a key was repeated.  Then their
    representation by [struct torrent] and [struct multi_files], and the
    specifications of the functions of src/torrent_parse.c. *)

From iris.proofmode Require Import environments proofmode.
From S2P Require Import Prelude CTypes HProp CMem CWp CLib Trace DList BParse BSpec BRep BRefine BCorrect Torrent.
Open Scope Z_scope.

Record fspec := FSpec {
  fs_length : Z;
  fs_path : option bval;
  fs_path_utf8 : option bval }.

Record tspec := TSpec {
  ts_val : field -> option bval;
  ts_create_date : Z;
  ts_encoding : Z;
  ts_piece_len : Z;
  ts_length : Z;
  ts_files : list fspec }.

Definition empty_torrent : tspec := TSpec (fun _ => None) 0 0 0 0 [].

(** The contents, and what was lost. *)
Definition tstate : Type := tspec * list bval.

(** The entry has key [s] and a value of type [t]. *)
Definition key_eq (k : list Z) (s : string) : bool :=
  bool_decide (take (Z.to_nat KEY_LEN) (cut0 k) = str s).
Definition entry_is (kv : list Z * bval) (s : string) (t : Z) : bool :=
  key_eq (fst kv) s && (vtype (snd kv) =? t).

Definition put_val (f : field) (v : bval) (st : tstate) : tstate :=
  let '(ts, lost) := st in
  (TSpec (<[f := Some v]> (ts_val ts)) (ts_create_date ts) (ts_encoding ts) (ts_piece_len ts)
     (ts_length ts) (ts_files ts),
   option_list (ts_val ts f) ++ lost).

Definition the_int (v : bval) : Z := match v with VInt n => n | _ => 0 end.

Definition put_create_date (n : Z) (st : tstate) : tstate :=
  let '(ts, lost) := st in
  (TSpec (ts_val ts) n (ts_encoding ts) (ts_piece_len ts) (ts_length ts) (ts_files ts), lost).
Definition put_piece_len (n : Z) (st : tstate) : tstate :=
  let '(ts, lost) := st in
  (TSpec (ts_val ts) (ts_create_date ts) (ts_encoding ts) n (ts_length ts) (ts_files ts), lost).
Definition put_length (n : Z) (st : tstate) : tstate :=
  let '(ts, lost) := st in
  (TSpec (ts_val ts) (ts_create_date ts) (ts_encoding ts) (ts_piece_len ts) n (ts_files ts), lost).

(** ** Files *)

Definition file_step (st : fspec * list bval) (kv : list Z * bval) : fspec * list bval :=
  let '(fs, lost) := st in
  if entry_is kv "path" ch_l then
    (FSpec (fs_length fs) (Some (snd kv)) (fs_path_utf8 fs), option_list (fs_path fs) ++ lost)
  else if entry_is kv "path.utf-8" ch_l then
    (FSpec (fs_length fs) (fs_path fs) (Some (snd kv)), option_list (fs_path_utf8 fs) ++ lost)
  else if entry_is kv "length" ch_i then
    (FSpec (the_int (snd kv)) (fs_path fs) (fs_path_utf8 fs), lost)
  else st.

Definition empty_file : fspec := FSpec 0 None None.

Definition file_of (kvs : list (list Z * bval)) : fspec * list bval :=
  foldl file_step (empty_file, []) kvs.

Definition files_step (st : tstate) (v : bval) : tstate :=
  match v with
  | VDict kvs =>
      let '(ts, lost) := st in
      (TSpec (ts_val ts) (ts_create_date ts) (ts_encoding ts) (ts_piece_len ts) (ts_length ts)
         (ts_files ts ++ [fst (file_of kvs)]),
       snd (file_of kvs) ++ lost)
  | _ => st
  end.

(** ** The info dictionary and the whole file *)

(** The first row of a table that an entry matches. *)
Definition select (rows : list (string * Z * (bval -> tstate -> tstate))) (kv : list Z * bval)
    (st : tstate) : tstate :=
  match find (fun row => entry_is kv (fst (fst row)) (snd (fst row))) rows with
  | Some row => snd row (snd kv) st
  | None => st
  end.

Definition info_rows : list (string * Z * (bval -> tstate -> tstate)) :=
  [("piece length", ch_i, fun v => put_piece_len (the_int v));
   ("pieces", ch_s, put_val F_piece_hash);
   ("name", ch_s, put_val F_name);
   ("name.utf-8", ch_s, put_val F_name_utf8);
   ("length", ch_i, fun v => put_length (the_int v));
   ("publisher", ch_s, put_val F_publisher);
   ("private", ch_s, put_val F_private);
   ("md5sum", ch_s, put_val F_md5sum);
   ("publisher utf-8", ch_s, put_val F_publisher_utf8);
   ("publisher url", ch_s, put_val F_publisher_url);
   ("publisher url utf-8", ch_s, put_val F_publisher_url_utf8);
   ("files", ch_l, fun v st => match v with VList vs => foldl files_step st vs | _ => st end)]%string.

Definition info_step (st : tstate) (kv : list Z * bval) : tstate := select info_rows kv st.

Definition info_of (st : tstate) (kvs : list (list Z * bval)) : tstate := foldl info_step st kvs.

Definition torrent_rows : list (string * Z * (bval -> tstate -> tstate)) :=
  [("announce", ch_s, put_val F_announce);
   ("announce-list", ch_l, put_val F_announce_list);
   ("comment", ch_s, put_val F_comment);
   ("comment-utf8", ch_s, put_val F_comment_utf8);
   ("create by", ch_s, put_val F_create_by);
   ("creation date", ch_i, fun v => put_create_date (the_int v));
   ("info", ch_d, fun v st => match v with VDict kvs => info_of st kvs | _ => st end)]%string.

Definition torrent_step (st : tstate) (kv : list Z * bval) : tstate := select torrent_rows kv st.

Definition torrent_of (st : tstate) (kvs : list (list Z * bval)) : tstate := foldl torrent_step st kvs.

Set Warnings "-rewrite-rw".

(** ** Representation *)

Definition all_fields : list field :=
  [F_announce; F_announce_list; F_comment; F_comment_utf8; F_create_by; F_piece_hash; F_private;
   F_dir_name; F_name; F_name_utf8; F_md5sum; F_publisher; F_publisher_utf8; F_publisher_url;
   F_publisher_url_utf8].

(** The type of the object a member points to. *)
Definition ftype (f : field) : Z := match f with F_announce_list => ch_l | _ => ch_s end.

(** A member that owns a value of type [t], or NULL. *)
Definition opt_val (t : Z) (p : ptr) (ov : option bval) : hProp :=
  match ov with
  | None => ⌜⌜p = PNull⌝⌝
  | Some v => ∃ pv x, ⌜⌜p = obj_ptr x ∧ vtype v = t⌝⌝ ∗ is_val pv x v
  end%I.

Definition lost_vals (vs : list bval) : hProp := ([∗ list] v ∈ vs, ∃ pv x, is_val pv x v)%I.

Definition is_file (fs : fspec) (l : loc) : hProp :=
  (∃ p q, l ↦ MultiFiles (fs_length fs) p q PNull ∗ opt_val ch_l p (fs_path fs)
     ∗ opt_val ch_l q (fs_path_utf8 fs))%I.

Definition same_numbers (t : torrent) (ts : tspec) : Prop :=
  t_create_date t = ts_create_date ts ∧ t_encoding t = ts_encoding ts
  ∧ ti_piece_len (t_info t) = ts_piece_len ts ∧ ti_length (t_info t) = ts_length ts.

Definition is_fields (t : torrent) (vals : field -> option bval) : hProp :=
  ([∗ list] f ∈ all_fields, opt_val (ftype f) (get_field f t) (vals f))%I.

Definition is_torrent (l : loc) (ts : tspec) : hProp :=
  (∃ t fls, l ↦ t ∗ dlist l fls ∗ sep2 is_file (ts_files ts) fls ∗ is_fields t (ts_val ts)
     ∗ ⌜⌜same_numbers t ts⌝⌝)%I.

(** The state the loops of the parser keep. *)
Definition is_tstate (l : loc) (st : tstate) : hProp := (is_torrent l (fst st) ∗ lost_vals (snd st))%I.

Section fields.
Implicit Types (f g : field) (t : torrent) (p : ptr).

Lemma all_fields_NoDup : NoDup all_fields.
Proof. apply (bool_decide_unpack _). vm_compute. done. Qed.

Lemma all_fields_elem f : f ∈ all_fields.
Proof. destruct f; set_solver. Qed.

Lemma get_set_field f p t : get_field f (set_field f p t) = p.
Proof. by destruct f. Qed.

Lemma get_set_field_ne f g p t : f ≠ g -> get_field g (set_field f p t) = get_field g t.
Proof. intros Hne. destruct g; cbn; by rewrite decide_False. Qed.

Lemma lost_vals_app vs ws : lost_vals (vs ++ ws) ⊣⊢ lost_vals vs ∗ lost_vals ws.
Proof. apply big_sepL_app. Qed.

Lemma opt_val_lost ty p ov : opt_val ty p ov ⊢ lost_vals (option_list ov).
Proof.
  rewrite /lost_vals. destruct ov as [v|]; cbn.
  - iIntros "(%pv & %x & _ & H)". by iFrame.
  - by iIntros "%".
Qed.

Lemma is_fields_put f t vals v pv x :
  vtype v = ftype f ->
  is_fields t vals ∗ is_val pv x v
  ⊢ is_fields (set_field f (obj_ptr x) t) (<[f := Some v]> vals) ∗ lost_vals (option_list (vals f)).
Proof.
  intros Hv. rewrite /is_fields.
  destruct (elem_of_Permutation all_fields f) as [H _].
  destruct (H (all_fields_elem f)) as [fs Hp]. pose proof all_fields_NoDup as Hnd.
  rewrite Hp in Hnd. apply NoDup_cons in Hnd as [Hnin _]. rewrite !Hp /=.
  iIntros "[[Hf Hfs] Hx]". rewrite get_set_field fn_lookup_insert. iSplitR "Hf".
  - iSplitL "Hx". { iExists pv, x. by iFrame. }
    iApply (big_sepL_mono with "Hfs"). intros k g Hg.
    assert (f ≠ g) by (intros ->; apply Hnin; by eapply list_elem_of_lookup_2).
    by rewrite get_set_field_ne // fn_lookup_insert_ne.
  - by rewrite opt_val_lost.
Qed.

(** Numbers are not fields. *)
Lemma is_fields_numbers t t' vals :
  (∀ f, get_field f t = get_field f t') -> is_fields t vals ⊢ is_fields t' vals.
Proof. intros Hf. apply big_sepL_mono. intros k f _. by rewrite Hf. Qed.

End fields.

(** ** Loops that fold over the values a list represents *)

(** The body turns what it finds at a node ([P]) into what it leaves there ([D])
    and advances the state by [step]. *)
Lemma wp_list_fold {A S R} (P : A -> loc -> hProp) (D : loc -> hProp) (I : S -> hProp)
    (step : S -> A -> S) (vs : list A) (fuel : nat) h xs (body : ptr -> M (option R)) s0 g :
  (length xs < fuel)%nat ->
  (∀ s v e, v ∈ vs -> P v e ∗ I s ⊢ wp (body (obj_ptr e)) g (fun r g' =>
     ⌜⌜r = None ∧ g' = g⌝⌝ ∗ D e ∗ I (step s v))) ->
  dlist h xs ∗ sep2 P vs xs ∗ I s0
  ⊢ wp (list_for_each_entry_safe fuel (obj_ptr h) body) g (fun r g' =>
      ⌜⌜r = None ∧ g' = g⌝⌝ ∗ dlist h xs ∗ ([∗ list] e ∈ xs, D e) ∗ I (foldl step s0 vs)).
Proof.
  intros Hfuel Hbody. iIntros "(Hr & Hvs & HI)".
  set (Inv := fun (us : list loc) (g' : globals) => (∃ ws ws', ⌜⌜vs = ws ++ ws' ∧ g' = g⌝⌝ ∗
    ([∗ list] e ∈ us, D e) ∗ sep2 P ws' (drop (length us) xs) ∗ I (foldl step s0 ws))%I).
  iApply (wp_wand with "[Hr Hvs HI]").
  { iApply (wp_list_for_each_entry_safe fuel h xs body Inv (fun _ _ => False)%I); [done| |].
    - intros us e es g'' Hxs. iIntros "(%ws & %ws' & %H & Hus & Hws & HI)". destruct H as [Hws ->].
      rewrite Hxs drop_app_length. destruct ws' as [|w ws']; [done|]. cbn [sep2].
      iDestruct "Hws" as "[Hw Hws]".
      iDestruct (Hbody _ w e with "[$Hw $HI]") as "Hwp"; [set_solver|].
      iApply (wp_wand with "Hwp"). iIntros (r g') "(%Hr & HD & HI)". destruct Hr as [-> ->].
      iExists (ws ++ [w]), ws'. iSplitR; [by rewrite -app_assoc|].
      rewrite foldl_app Hxs (cons_middle e us es) (app_assoc us [e] es) drop_app_length.
      iFrame. done.
    - iFrame "Hr". iExists [], vs. iSplitR; [done|]. rewrite drop_0. by iFrame. }
  iIntros (r g') "[Hr H]". destruct r; [done|]. iDestruct "H" as "(%ws & %ws' & %H & HD & Hws & HI)".
  destruct H as [-> ->]. rewrite drop_all. destruct ws'; [|done]. rewrite app_nil_r. by iFrame.
Qed.

(** ** Entries that can be released *)

Definition frees (n : nat) (e : loc) : hProp :=
  (∀ nx pr g Q, e ↦ₙ (nx, pr) -∗ Q tt g -∗ wp (d_entry_free n (obj_ptr e)) g Q)%I.
Definition lfrees (n : nat) (e : loc) : hProp :=
  (∀ nx pr g Q, e ↦ₙ (nx, pr) -∗ Q tt g -∗ wp (l_entry_free n (obj_ptr e)) g Q)%I.

Lemma wp_b_dict_free_entries n pv d es g Q :
  (length es < n)%nat ->
  d ↦ BDict pv ∗ dlist d es ∗ ([∗ list] e ∈ es, frees n e) ∗ Q tt g
  ⊢ wp (b_dict_free (S n) (obj_ptr d)) g Q.
Proof.
  intros Hn. iIntros "(Hd & Hr & Hes & HQ)". cbn [b_dict_free].
  rewrite /is_null bool_decide_false //. iApply wp_bind. iApply (wp_wand with "[Hr Hes HQ]").
  { iApply (wp_list_for_each_entry_consume n d es _
      (fun es g' => ⌜⌜g' = g⌝⌝ ∗ ([∗ list] e ∈ es, frees n e) ∗ Q tt g)%I); [done| |by iFrame].
    intros e es' g' nx pr. iIntros "((-> & [He Hes] & HQ) & Hn)". iApply wp_bind.
    iApply ("He" with "Hn"). wp_step. by iFrame. }
  iIntros (r g') "(-> & Hh & -> & _ & HQ)". iApply (wp_free (T := b_dict)). iFrame.
Qed.

Lemma wp_b_list_free_entries n pv d es g Q :
  (length es < n)%nat ->
  d ↦ BList pv ∗ dlist d es ∗ ([∗ list] e ∈ es, lfrees n e) ∗ Q tt g
  ⊢ wp (b_list_free (S n) (obj_ptr d)) g Q.
Proof.
  intros Hn. iIntros "(Hd & Hr & Hes & HQ)". cbn [b_list_free].
  rewrite /is_null bool_decide_false //. iApply wp_bind. iApply (wp_wand with "[Hr Hes HQ]").
  { iApply (wp_list_for_each_entry_consume n d es _
      (fun es g' => ⌜⌜g' = g⌝⌝ ∗ ([∗ list] e ∈ es, lfrees n e) ∗ Q tt g)%I); [done| |by iFrame].
    intros e es' g' nx pr. iIntros "((-> & [He Hes] & HQ) & Hn)". iApply wp_bind.
    iApply ("He" with "Hn"). wp_step. by iFrame. }
  iIntros (r g') "(-> & Hh & -> & _ & HQ)". iApply (wp_free (T := b_list)). iFrame.
Qed.

(** An entry that was not touched. *)
Lemma ditem_frees n kv e : (vsize (snd kv) <= n)%nat -> is_ditem kv e ⊢ frees (S n) e.
Proof.
  iIntros (Hn) "H". iIntros (nx pr g Q) "Hn HQ".
  iApply (wp_d_entry_free n e kv nx pr); [apply all_released..|done|]. iFrame.
Qed.

Lemma item_lfrees n v e : (vsize v <= n)%nat -> is_item v e ⊢ lfrees (S n) e.
Proof.
  iIntros (Hn) "H". iIntros (nx pr g Q) "Hn HQ".
  iApply (wp_l_entry_free n e v nx pr); [apply all_released..|done|]. iFrame.
Qed.

Lemma wp_b_string_free_null g Q : Q tt g ⊢ wp (b_string_free PNull) g Q.
Proof. apply wp_ret. Qed.

Lemma wp_b_list_free_null n g Q : Q tt g ⊢ wp (b_list_free (S n) PNull) g Q.
Proof. apply wp_ret. Qed.

(** An entry whose value was moved away. *)
Lemma cleared_frees n e key t :
  t = ch_s ∨ t = ch_l -> e ↦ DEntry key PNull t ⊢ frees (S (S n)) e.
Proof.
  iIntros (Ht) "He". iIntros (nx pr g Q) "Hn HQ". cbn [d_entry_free]. wp_steps.
  cbn [de_type de_val]. iApply wp_bind.
  iAssert (wp (free (obj_ptr e)) g Q) with "[He Hn HQ]" as "Hfree".
  { iApply (wp_free (T := d_entry)). iFrame "He HQ". by iExists _, _. }
  destruct Ht as [-> | ->]; cbn [Z.eqb Pos.eqb].
  - by iApply wp_b_string_free_null.
  - by iApply wp_b_list_free_null.
Qed.

(** An entry whose value is an object that can be released. *)
Lemma dict_entry_frees n e key x :
  e ↦ DEntry key (obj_ptr x) ch_d ∗ (∀ g Q, Q tt g -∗ wp (b_dict_free n (obj_ptr x)) g Q)
  ⊢ frees (S n) e.
Proof.
  iIntros "[He Hx]". iIntros (nx pr g Q) "Hn HQ". cbn [d_entry_free]. wp_steps.
  cbn [de_type de_val Z.eqb Pos.eqb]. iApply wp_bind. iApply "Hx".
  iApply (wp_free (T := d_entry)). iFrame "He HQ". by iExists _, _.
Qed.

Lemma list_entry_frees n e key x :
  e ↦ DEntry key (obj_ptr x) ch_l ∗ (∀ g Q, Q tt g -∗ wp (b_list_free n (obj_ptr x)) g Q)
  ⊢ frees (S n) e.
Proof.
  iIntros "[He Hx]". iIntros (nx pr g Q) "Hn HQ". cbn [d_entry_free]. wp_steps.
  cbn [de_type de_val Z.eqb Pos.eqb]. iApply wp_bind. iApply "Hx".
  iApply (wp_free (T := d_entry)). iFrame "He HQ". by iExists _, _.
Qed.

Lemma dict_entry_lfrees n e x :
  e ↦ LEntry (obj_ptr x) ch_d ∗ (∀ g Q, Q tt g -∗ wp (b_dict_free n (obj_ptr x)) g Q)
  ⊢ lfrees (S n) e.
Proof.
  iIntros "[He Hx]". iIntros (nx pr g Q) "Hn HQ". cbn [l_entry_free]. wp_steps.
  cbn [le_type le_entry Z.eqb Pos.eqb]. iApply wp_bind. iApply "Hx".
  iApply (wp_free (T := l_entry)). iFrame "He HQ". by iExists _, _.
Qed.

(** ** Comparing keys *)

Lemma cut0_nonzero k : Forall (fun c => c ≠ 0) (cut0 k).
Proof.
  induction k as [|c k IH]; cbn; [done|]. destruct (Z.eqb_spec c 0); [done|]. by constructor.
Qed.

Lemma strncmp_padded n (c w : list Z) :
  Forall (fun c => c ≠ 0) c -> Forall (fun c => c ≠ 0) w -> (length w < n)%nat ->
  ∃ r, strncmp n ((Some <$> c) ++ replicate (n - length c) (Some 0)) (Some <$> (w ++ [0])) = inr r
    ∧ (r =? 0) = bool_decide (c = w).
Proof.
  revert c w. induction n as [|n IH]; intros c w Hc Hw Hlen; [lia|].
  destruct c as [|x c], w as [|y w]; cbn -[Z.eqb Z.sub].
  - by exists 0.
  - apply Forall_cons in Hw as [Hy _]. rewrite (proj2 (Z.eqb_neq 0 y)) //.
    exists (0 - y). split; [done|]. apply Z.eqb_neq. lia.
  - apply Forall_cons in Hc as [Hx _]. rewrite (proj2 (Z.eqb_neq x 0)) //.
    exists (x - 0). split; [done|]. apply Z.eqb_neq. lia.
  - apply Forall_cons in Hc as [Hx Hc], Hw as [Hy Hw]. destruct (Z.eqb_spec x y) as [->|Hne].
    + rewrite (proj2 (Z.eqb_neq y 0)) //. destruct (IH c w) as (r & Hr & Hrz); [done..|cbn in Hlen; lia|].
      exists r. split; [done|]. rewrite Hrz. apply bool_decide_ext. naive_solver.
    + exists (x - y). split; [done|]. rewrite bool_decide_false; [|naive_solver]. apply Z.eqb_neq. lia.
Qed.

(** A name of a key in the sources. *)
Definition is_name (s : string) : bool :=
  forallb (fun c => negb (c =? 0)) (str s) && (length (str s) <? Z.to_nat KEY_LEN)%nat.

Lemma wp_key_is k p t s ty g Q :
  is_name s = true ->
  Q (key_eq k s && (t =? ty)) g ⊢ wp (key_is (DEntry (dkey k) p t) s ty) g Q.
Proof.
  intros Hs. apply andb_prop in Hs as [Hnz Hlen]. apply Nat.ltb_lt in Hlen.
  destruct (strncmp_padded (Z.to_nat KEY_LEN) (take (Z.to_nat KEY_LEN) (cut0 k)) (str s)) as (r & Hr & Hz).
  - apply Forall_take, cut0_nonzero.
  - apply Forall_forall. intros c Hc. apply forallb_forall with (x := c) in Hnz; [|by apply list_elem_of_In].
    by apply negb_true_iff, Z.eqb_neq in Hnz.
  - done.
  - iIntros "HQ". rewrite /key_is /strncmp_is /lit /dkey. cbn [de_key de_type]. iApply wp_bind.
    rewrite Hr Hz. iApply wp_ret. iApply wp_ret. done.
Qed.

Arguments key_is : simpl never.
Arguments key_eq : simpl never.

(** One test of the chain in the body of a loop. *)
Ltac wp_key := iApply wp_bind; iApply wp_key_is; [vm_compute; reflexivity|].

Lemma entry_is_type kv s t : entry_is kv s t = true -> vtype (snd kv) = t.
Proof. intros H. apply andb_prop in H as [_ H]. by apply Z.eqb_eq. Qed.

(** ** Moving values out of entries *)

Lemma wp_clear_val e key p t g Q :
  e ↦ DEntry key p t ∗ (e ↦ DEntry key PNull t -∗ Q tt g) ⊢ wp (clear_val (obj_ptr e)) g Q.
Proof. iIntros "[He HQ]". rewrite /clear_val. wp_steps. by iApply "HQ". Qed.

Lemma wp_move_val n f k v e l x st g Q :
  vtype v = ftype f ->
  e ↦ DEntry (dkey k) (obj_ptr x) (vtype v) ∗ is_val (obj_ptr e) x v ∗ is_tstate l st ∗
  (frees (S (S n)) e -∗ is_tstate l (put_val f v st) -∗ Q None g)
  ⊢ wp (move_val f (obj_ptr e) (obj_ptr l)) g Q.
Proof.
  intros Hv. destruct st as [ts lost]. rewrite /move_val.
  iIntros "(He & Hx & [(%t & %fls & Hl & Hr & Hfls & Hf & %Hnum) Hlost] & HQ)". cbn [fst snd] in *.
  wp_steps. iApply wp_bind. iApply wp_clear_val. iFrame "He". iIntros "He". wp_step.
  iDestruct (is_fields_put f t (ts_val ts) v with "[$Hf $Hx]") as "[Hf Hold]"; [done|].
  iApply ("HQ" with "[He]").
  { iApply cleared_frees; [|done]. rewrite Hv. destruct f; auto. }
  rewrite /is_tstate /put_val. cbn [fst snd]. rewrite lost_vals_app. iFrame "Hold Hlost".
  iExists _, fls. iFrame. iPureIntro. destruct f; exact Hnum.
Qed.

(** The value of an entry of type i. *)
Lemma vtype_int v : vtype v = ch_i -> v = VInt (the_int v).
Proof. by destruct v. Qed.

(** ** Files *)

Definition is_fstate (p : loc) (st : fspec * list bval) : hProp :=
  (is_file (fst st) p ∗ lost_vals (snd st))%I.

Lemma wp_multi_files_entry n kv e p st g :
  (S (vsize (snd kv)) < n)%nat ->
  is_ditem kv e ∗ is_fstate p st
  ⊢ wp (multi_files_entry (obj_ptr p) (obj_ptr e)) g (fun r g' =>
      ⌜⌜r = None ∧ g' = g⌝⌝ ∗ frees n e ∗ is_fstate p (file_step st kv)).
Proof.
  intros Hn. destruct n as [|[|n]]; [lia..|]. destruct kv as [k v], st as [fs lost].
  iIntros "[(%x & He & Hx) [(%pa & %pu & Hp & Hpa & Hpu) Hlost]]". cbn [fst snd] in *.
  rewrite /multi_files_entry /file_step. wp_step. cbn [de_val de_key de_type].
  wp_key. rewrite -/(entry_is (k, v) "path" ch_l).
  destruct (entry_is (k, v) "path" ch_l) eqn:E1.
  { apply entry_is_type in E1. cbn in E1. wp_steps. iApply wp_bind. iApply wp_clear_val. iFrame "He".
    iIntros "He". wp_step. iSplitR; [done|]. iSplitL "He".
    { iApply cleared_frees; [|done]. auto. }
    rewrite /is_fstate /=. rewrite lost_vals_app (opt_val_lost _ pa). by iFrame. }
  wp_key. rewrite -/(entry_is (k, v) "path.utf-8" ch_l).
  destruct (entry_is (k, v) "path.utf-8" ch_l) eqn:E2.
  { apply entry_is_type in E2. cbn in E2. wp_steps. iApply wp_bind. iApply wp_clear_val. iFrame "He".
    iIntros "He". wp_step. iSplitR; [done|]. iSplitL "He".
    { iApply cleared_frees; [|done]. auto. }
    rewrite /is_fstate /=. rewrite lost_vals_app (opt_val_lost _ pu). by iFrame. }
  wp_key. rewrite -/(entry_is (k, v) "length" ch_i).
  destruct (entry_is (k, v) "length" ch_i) eqn:E3.
  { apply entry_is_type, vtype_int in E3. cbn in E3. rewrite E3. cbn [is_val vtype the_int].
    rewrite /b_int_get. wp_steps. iSplitR; [done|]. iSplitL "He Hx".
    { iApply (ditem_frees (S n) (k, VInt (the_int v))); [cbn; lia|]. iExists x. iFrame. }
    rewrite /is_fstate /=. iFrame. }
  wp_step. iSplitR; [done|]. iSplitL "He Hx".
  { iApply (ditem_frees (S n) (k, v)); [cbn; lia|]. iExists x. iFrame. }
  rewrite /is_fstate /=. iFrame.
Qed.

Lemma ditems_size_elem kvs kv : kv ∈ kvs -> (S (vsize (snd kv)) <= ditems_size kvs)%nat.
Proof.
  induction 1 as [|kv kv' kvs _ IH]; rewrite /ditems_size /=; [lia|]. rewrite /ditems_size in IH. lia.
Qed.

Lemma items_size_elem vs v : v ∈ vs -> (S (vsize v) <= items_size vs)%nat.
Proof.
  induction 1 as [|v v' vs _ IH]; rewrite /items_size /=; [lia|]. rewrite /items_size in IH. lia.
Qed.

(** [n] is the fuel the entries of the dictionary are to be released with. *)
Lemma wp_multi_files_alloc n F pv d kvs g Q :
  oom g = [] -> (ditems_size kvs < F)%nat -> (ditems_size kvs < n)%nat ->
  is_dict pv d kvs ∗
  (∀ p, is_fstate p (file_of kvs) -∗ (∃ nx pr, p ↦ₙ (nx, pr)) -∗
     (∀ g' R, R tt g' -∗ wp (b_dict_free (S n) (obj_ptr d)) g' R) -∗ Q (obj_ptr p) g)
  ⊢ wp (multi_files_alloc F (obj_ptr d)) g Q.
Proof.
  intros Hoom HF Hn. iIntros "[(%es & Hd & Hr & Hi) HQ]". rewrite /multi_files_alloc.
  iDestruct (sep2_length with "Hi") as %Hlen. pose proof (ditems_size_length kvs).
  iApply wp_bind. iApply wp_malloc; [done|]. iIntros (p) "Hp Hn". change (node_of multi_files) with true.
  cbn match.
  rewrite /is_null !bool_decide_false //. cbn [negb andb].
  do 2 wp_step. iApply wp_bind. iApply (wp_wand with "[Hp Hr Hi]").
  { iApply (wp_list_fold is_ditem (frees n) (is_fstate p) file_step kvs F d es _ (empty_file, [])); [lia| |].
    - intros s kv e Hkv. apply wp_multi_files_entry. apply ditems_size_elem in Hkv. lia.
    - iFrame "Hr Hi". rewrite /is_fstate /lost_vals /=. iSplitL; [|done].
      iExists PNull, PNull. by iFrame. }
  iIntros (r g') "(%Hr & Hr & Hes & Hst)". destruct Hr as [-> ->]. wp_step.
  iApply ("HQ" with "Hst [Hn]"); [by iExists _, _|]. iIntros (g' R) "HR".
  iApply (wp_b_dict_free_entries n pv d es); [lia|]. iFrame.
Qed.

(** ** The info dictionary *)

Lemma wp_torrent_info_file n F v e l st g :
  oom g = [] -> (vsize v <= F)%nat -> (S (vsize v) < n)%nat ->
  is_item v e ∗ is_tstate l st
  ⊢ wp (torrent_info_file F (obj_ptr l) (obj_ptr e)) g (fun r g' =>
      ⌜⌜r = None ∧ g' = g⌝⌝ ∗ lfrees n e ∗ is_tstate l (files_step st v)).
Proof.
  intros Hoom HF Hn. destruct n as [|[|n]]; [lia..|].
  iIntros "[(%x & He & Hx) Hst]". rewrite /torrent_info_file. wp_step. cbn [le_type le_entry].
  destruct (vtype v =? ch_d) eqn:Ht; last first.
  { wp_step. iSplitR; [done|]. iSplitL "He Hx".
    { iApply (item_lfrees (S n) v); [lia|]. iExists x. iFrame. }
    destruct v; done. }
  destruct v as [| | |kvs]; [done..|]. rewrite is_val_dict. cbn [vtype files_step vsize] in *.
  fold (ditems_size kvs) in HF, Hn. destruct st as [ts lost].
  iDestruct "Hst" as "[(%t & %fls & Hl & Hr & Hfls & Hf & %Hnum) Hlost]". cbn [fst snd].
  iApply wp_bind. iApply (wp_multi_files_alloc n F _ x kvs); [done|lia|lia|]. iFrame "Hx".
  iIntros (p) "[Hp Hlost'] (%nx & %pr & Hn) Hfree". rewrite /is_null bool_decide_false //. cbn [negb].
  iApply wp_bind. rewrite /multi_files_add. iApply wp_list_add_tail. iFrame "Hr Hn". iIntros "Hr".
  wp_step. iSplitR; [done|]. iSplitL "He Hfree".
  { iApply dict_entry_lfrees. iFrame. }
  rewrite /is_tstate /=. rewrite lost_vals_app. iFrame "Hlost Hlost'".
  iExists t, (fls ++ [p]). iFrame "Hl Hr Hf". iSplitL; [|done]. iApply sep2_snoc. iFrame.
Qed.

Lemma select_cons s t f rows kv st :
  select ((s, t, f) :: rows) kv st = if entry_is kv s t then f (snd kv) st else select rows kv st.
Proof. rewrite /select /=. by destruct (entry_is kv s t). Qed.

(** What the body of a loop over a dictionary leaves. *)
Definition entry_done (n : nat) (e l : loc) (st : tstate) (g : globals) (r : option Z) (g' : globals) : hProp :=
  (⌜⌜r = None ∧ g' = g⌝⌝ ∗ frees n e ∗ is_tstate l st)%I.

(** Three ways to finish an entry: it is moved, only read, or ignored. *)
Lemma wp_entry_moved n f k v e l x st g :
  vtype v = ftype f ->
  e ↦ DEntry (dkey k) (obj_ptr x) (vtype v) ∗ is_val (obj_ptr e) x v ∗ is_tstate l st
  ⊢ wp (move_val f (obj_ptr e) (obj_ptr l)) g (entry_done (S (S n)) e l (put_val f v st) g).
Proof.
  intros Hv. iIntros "(He & Hx & Hst)". iApply (wp_move_val n f k v e l x st); [done|].
  iFrame "He Hx Hst". iIntros "He Hst". rewrite /entry_done. by iFrame.
Qed.

Lemma wp_entry_ignored n k v e l x st g :
  (S (vsize v) < n)%nat ->
  e ↦ DEntry (dkey k) (obj_ptr x) (vtype v) ∗ is_val (obj_ptr e) x v ∗ is_tstate l st
  ⊢ wp (mret None) g (entry_done n e l st g).
Proof.
  intros Hn. destruct n as [|n]; [lia|]. iIntros "(He & Hx & Hst)". wp_step. rewrite /entry_done.
  iFrame "Hst". iSplitR; [done|]. iApply (ditem_frees n (k, v)); [cbn; lia|]. iExists x. iFrame.
Qed.

(** [upd] assigns a number that [put] describes. *)
Lemma wp_entry_read n k v e l x st g (upd : Z -> torrent -> torrent) (put : Z -> tstate -> tstate) :
  (S (vsize v) < n)%nat -> vtype v = ch_i ->
  (∀ i t f, get_field f (upd i t) = get_field f t) ->
  (∀ i ts lost t, same_numbers t ts -> ∃ ts', put i (ts, lost) = (ts', lost) ∧ same_numbers (upd i t) ts'
     ∧ ts_val ts' = ts_val ts ∧ ts_files ts' = ts_files ts) ->
  e ↦ DEntry (dkey k) (obj_ptr x) (vtype v) ∗ is_val (obj_ptr e) x v ∗ is_tstate l st
  ⊢ wp (n ← b_int_get (obj_ptr x); t ← load torrent (obj_ptr l); _ ← store (obj_ptr l) (upd n t); mret None) g
      (entry_done n e l (put (the_int v) st) g).
Proof.
  intros Hn Hv Hget Hput. rewrite (vtype_int v Hv). cbn [is_val the_int]. destruct st as [ts lost].
  iIntros "(He & Hx & [(%t & %fls & Hl & Hr & Hfls & Hf & %Hnum) Hlost])". rewrite /b_int_get.
  wp_steps. cbn [bi_val]. destruct (Hput (the_int v) ts lost t Hnum) as (ts' & -> & Hnum' & Hval & Hfiles).
  rewrite /entry_done. iSplitR; [done|]. iSplitL "He Hx".
  { destruct n as [|n]; [lia|]. iApply (ditem_frees n (k, VInt (the_int v))); [cbn; lia|]. iExists x. iFrame. }
  rewrite /is_tstate. iFrame "Hlost". iExists _, fls. iFrame "Hl Hr". cbn [fst]. rewrite Hfiles Hval.
  iFrame "Hfls". iSplitL; [|done]. iApply (is_fields_numbers with "Hf"). intros f. by rewrite Hget.
Qed.

(** One row of the table and the test in the code that corresponds to it. *)
Ltac entry_row E :=
  wp_key; cbn [de_key de_type de_val]; rewrite select_cons;
  match goal with
  | |- context [entry_is (?k, ?v) ?s ?t] =>
      rewrite -/(entry_is (k, v) s t); destruct (entry_is (k, v) s t) eqn:E; cbn [snd]
  end.

Ltac entry_moved E :=
  apply entry_is_type in E; iApply wp_entry_moved; [exact E|]; iFrame.

Lemma wp_torrent_info_entry n F kv e l st g :
  oom g = [] -> (vsize (snd kv) < F)%nat -> (S (vsize (snd kv)) < n)%nat ->
  is_ditem kv e ∗ is_tstate l st
  ⊢ wp (torrent_info_entry F (obj_ptr l) (obj_ptr e)) g (entry_done n e l (info_step st kv) g).
Proof.
  intros Hoom HF Hn. destruct kv as [k v]. cbn [snd] in *. iIntros "[(%x & He & Hx) Hst]". cbn [fst snd].
  rewrite /torrent_info_entry /info_step /info_rows. wp_step.
  assert (∃ m, n = S (S m)) as [m ->] by (exists (n - 2)%nat; lia).
  entry_row E1.
  { apply entry_is_type in E1.
    iApply (wp_entry_read _ k v e l x st g (fun n t => set_info (set_piece_len n (t_info t)) t) put_piece_len);
      [lia|done|by intros ?? []| |by iFrame].
    intros i ts lost t (? & ? & ? & ?). eexists. split; [done|]. by repeat split. }
  entry_row E2; [entry_moved E2|]. entry_row E3; [entry_moved E3|]. entry_row E4; [entry_moved E4|].
  entry_row E5.
  { apply entry_is_type in E5.
    iApply (wp_entry_read _ k v e l x st g (fun n t => set_info (set_length n (t_info t)) t) put_length);
      [lia|done|by intros ?? []| |by iFrame].
    intros i ts lost t (? & ? & ? & ?). eexists. split; [done|]. by repeat split. }
  entry_row E6; [entry_moved E6|]. entry_row E7; [entry_moved E7|]. entry_row E8; [entry_moved E8|].
  entry_row E9; [entry_moved E9|]. entry_row E10; [entry_moved E10|]. entry_row E11; [entry_moved E11|].
  entry_row E12; last by iApply (wp_entry_ignored with "[$He $Hx $Hst]").
  apply entry_is_type in E12. destruct v as [| |vs|]; [done..| |done]. cbn [vtype].
  rewrite is_val_list. cbn [vsize] in HF, Hn. fold (items_size vs) in HF, Hn.
  iDestruct "Hx" as "(%es & Hx & Hr & Hi)".
  iDestruct (sep2_length with "Hi") as %Hlen. pose proof (items_size_length vs).
  iApply (wp_wand with "[Hst Hr Hi]").
  { iApply (wp_list_fold is_item (lfrees m) (is_tstate l) files_step vs F x es _ st); [lia| |iFrame].
    intros s v' e' Hv'. apply items_size_elem in Hv'. apply wp_torrent_info_file; [done|lia|lia]. }
  iIntros (r g') "(%Hr & Hr & Hes & Hst)". destruct Hr as [-> ->]. rewrite /entry_done.
  iSplitR; [done|]. iFrame "Hst". iApply list_entry_frees. iFrame "He". iIntros (g' R) "HR".
  iApply (wp_b_list_free_entries m _ x es); [lia|]. iFrame.
Qed.

Lemma wp_torrent_info_parse n F pv d kvs l st g Q :
  oom g = [] -> (ditems_size kvs < F)%nat -> (ditems_size kvs < n)%nat ->
  is_dict pv d kvs ∗ is_tstate l st ∗
  (is_tstate l (info_of st kvs) -∗
     (∀ g' R, R tt g' -∗ wp (b_dict_free (S n) (obj_ptr d)) g' R) -∗ Q 0 g)
  ⊢ wp (torrent_info_parse F (obj_ptr d) (obj_ptr l)) g Q.
Proof.
  intros Hoom HF Hn. iIntros "((%es & Hd & Hr & Hi) & Hst & HQ)". rewrite /torrent_info_parse.
  iDestruct (sep2_length with "Hi") as %Hlen. pose proof (ditems_size_length kvs).
  iApply wp_bind. iApply (wp_wand with "[Hst Hr Hi]").
  { iApply (wp_list_fold is_ditem (frees n) (is_tstate l) info_step kvs F d es _ st); [lia| |iFrame].
    intros s kv e Hkv. apply ditems_size_elem in Hkv. apply wp_torrent_info_entry; [done|lia|lia]. }
  iIntros (r g') "(%Hr & Hr & Hes & Hst)". destruct Hr as [-> ->]. wp_step.
  iApply ("HQ" with "Hst"). iIntros (g' R) "HR".
  iApply (wp_b_dict_free_entries n pv d es); [lia|]. iFrame.
Qed.

(** ** The whole file *)

(** A test that is repeated after it failed. *)
Ltac entry_repeated E :=
  wp_key; cbn [de_key de_type de_val];
  match type of E with entry_is (?k, ?v) ?s ?t = _ => rewrite -/(entry_is (k, v) s t) E end.

Lemma wp_torrent_entry n F d kv e l st g :
  oom g = [] -> (vsize (snd kv) < F)%nat -> (S (vsize (snd kv)) < n)%nat ->
  is_ditem kv e ∗ is_tstate l st
  ⊢ wp (torrent_entry F d (obj_ptr l) (obj_ptr e)) g (entry_done n e l (torrent_step st kv) g).
Proof.
  intros Hoom HF Hn. destruct kv as [k v]. cbn [snd] in *. iIntros "[(%x & He & Hx) Hst]". cbn [fst snd].
  rewrite /torrent_entry /torrent_step /torrent_rows. wp_step.
  assert (∃ m, n = S (S m)) as [m ->] by (exists (n - 2)%nat; lia).
  entry_row E1; [entry_moved E1|]. entry_row E2; [entry_moved E2|]. entry_row E3; [entry_moved E3|].
  entry_row E4; [entry_moved E4|]. entry_repeated E3. entry_row E5; [entry_moved E5|].
  entry_row E6.
  { apply entry_is_type in E6.
    iApply (wp_entry_read _ k v e l x st g set_create_date put_create_date);
      [lia|done|by intros ?? []| |by iFrame].
    intros i ts lost t (? & ? & ? & ?). eexists. split; [done|]. by repeat split. }
  entry_repeated E3. entry_repeated E4.
  entry_row E7; last by iApply (wp_entry_ignored with "[$He $Hx $Hst]").
  apply entry_is_type in E7. destruct v as [| | |kvs]; [done..|]. cbn [vtype].
  rewrite is_val_dict. cbn [vsize] in HF, Hn. fold (ditems_size kvs) in HF, Hn.
  iApply wp_bind. iApply (wp_torrent_info_parse m F _ x kvs); [done|lia|lia|]. iFrame "Hx Hst".
  iIntros "Hst Hfree". cbn [Z.eqb]. wp_step. rewrite /entry_done. iSplitR; [done|]. iFrame "Hst".
  iApply dict_entry_frees. iFrame.
Qed.

Definition parse_code (res : presult (list (list Z * bval))) : Z :=
  match res with POk _ _ _ => 0 | _ => -1 end.
Definition parse_state (res : presult (list (list Z * bval))) (st : tstate) : tstate :=
  match res with POk kvs _ _ => torrent_of st kvs | _ => st end.

Lemma wpx_torrent_parse F b bs l st g :
  oom g = [] -> Z.of_nat (length bs) < 2 ^ 62 -> (loop_fuel bs <= F)%nat ->
  b ↦ (Some <$> bs) ∗ is_tstate l st
  ⊢ wpx (torrent_parse F (obj_ptr b) (obj_ptr l)) g
      (fun r _ => ⌜⌜r = parse_code (dict_result bs (errno g))⌝⌝ ∗ b ↦ (Some <$> bs)
         ∗ is_tstate l (parse_state (dict_result bs (errno g)) st))
      (fun _ => dict_result bs (errno g) = PFault).
Proof.
  intros Hoom Hlen HF. iIntros "[Hb Hst]". rewrite /torrent_parse.
  iApply wpx_bind. iApply wpx_wp. iApply wp_b_dict_alloc; [done|]. iIntros (d) "Hd".
  iApply wpx_bind. iApply wpx_c_assert; [done|]. rewrite {1}/is_null bool_decide_false //. cbn [negb].
  iApply wpx_bind. iApply (wpx_wand with "[Hd Hb]").
  { iApply (wpx_b_dict_parse F d b bs g); [done..|]. iFrame. }
  iIntros (r g') "Hpost".
  assert (Hsz : within (fun vs => 4 + ditems_size vs)%nat bs (dict_result bs (errno g)))
    by apply p_sizes.
  destruct (dict_result bs (errno g)) as [kvs rest e|e| |] eqn:Hres; rewrite /loop_fuel in HF;
    [| |rewrite /dict_post Hres; by iDestruct "Hpost" as "(% & _ & _ & [])"..]; iApply wpx_wp.
  - iDestruct "Hpost" as "(%d' & %Hd & Hb & Hpost)". cbn in Hd. injection Hd as <-. rewrite Hres. cbn [snd].
    iDestruct "Hpost" as "[%Hr (%es & Hd & Hr & Hi)]". destruct Hr as (Hu & o' & -> & _).
    specialize (Hsz _ _ _ eq_refl). cbn in Hsz. rewrite /is_null bool_decide_false //.
    iDestruct (sep2_length with "Hi") as %Hl. pose proof (ditems_size_length kvs).
    destruct F as [|n]; [lia|]. apply upd_oom in Hu as Hoom'. rewrite Hoom in Hoom'.
    iApply wp_bind. iApply (wp_wand with "[Hst Hr Hi]").
    { iApply (wp_list_fold is_ditem (frees n) (is_tstate l) torrent_step kvs (S n) d es _ st); [lia| |iFrame].
      intros s kv e' Hkv. apply ditems_size_elem in Hkv. apply wp_torrent_entry; [done|lia|lia]. }
    iIntros (r g'') "(%Hr & Hr & Hes & Hst)". destruct Hr as [-> ->]. iApply wp_bind.
    iApply (wp_b_dict_free_entries n PNull d es); [lia|]. iFrame "Hd Hr Hes". wp_step. by iFrame.
  - iAssert ⌜r = PNull⌝%I as %->.
    { iDestruct "Hpost" as "(%d' & _ & _ & Hpost)". rewrite Hres. by iDestruct "Hpost" as "[[_ %] _]". }
    rewrite /is_null bool_decide_true //. iApply wp_bind.
    iApply (wp_dict_post_free F b bs (obj_ptr d, PNull) g with "[$Hpost Hst]"); [rewrite /loop_fuel; lia|].
    iIntros "Hb". wp_step. by iFrame.
Qed.

(** [torrent_alloc] gives an empty torrent. *)
Lemma wp_torrent_alloc g Q :
  oom g = [] ->
  (∀ l, is_tstate l (empty_torrent, []) -∗ Q (obj_ptr l) g) ⊢ wp torrent_alloc g Q.
Proof.
  intros Hoom. iIntros "HQ". rewrite /torrent_alloc. iApply wp_bind. iApply wp_malloc; [done|].
  iIntros (l) "Hl Hn". change (node_of torrent) with true. cbn match.
  rewrite /is_null bool_decide_false //. cbn [negb]. iApply wp_bind. iApply wp_INIT_LIST_HEAD.
  iFrame "Hn". iIntros "Hr". wp_step. iApply "HQ". rewrite /is_tstate /lost_vals /=. iSplitL; [|done].
  iExists no_torrent, []. iFrame "Hl Hr". cbn [sep2 ts_files empty_torrent]. iSplitR; [done|].
  iSplitL; [|done]. rewrite /is_fields /=. done.
Qed.

(** ** Release *)

Definition ovsize (ov : option bval) : nat := match ov with Some v => vsize v | None => 0 end.

(** Fuel that is enough to release a torrent. *)
Definition enough (F : nat) (ts : tspec) : Prop :=
  (length (ts_files ts) < F)%nat ∧ (ovsize (ts_val ts F_announce_list) <= F)%nat ∧
  Forall (fun fs => ovsize (fs_path fs) <= F ∧ ovsize (fs_path_utf8 fs) <= F)%nat (ts_files ts).

Lemma wp_free_opt_list F p ov g Q :
  (0 < F)%nat -> (ovsize ov <= F)%nat -> opt_val ch_l p ov ∗ Q tt g ⊢ wp (b_list_free F p) g Q.
Proof.
  intros HF Hsz. iIntros "[H HQ]". destruct ov as [v|]; cbn [opt_val ovsize] in *.
  - iDestruct "H" as "(%pv & %x & %H & Hx)". destruct H as [-> Hv].
    destruct v as [| |vs|]; try done. iApply (wp_b_list_free F pv x vs); [exact Hsz|].
    rewrite is_val_list. iFrame.
  - iDestruct "H" as "->". destruct F as [|F]; [lia|]. by iApply wp_b_list_free_null.
Qed.

Lemma wp_free_opt_string p ov g Q :
  opt_val ch_s p ov ∗ Q tt g ⊢ wp (b_string_free p) g Q.
Proof.
  iIntros "[H HQ]". destruct ov as [v|]; cbn [opt_val].
  - iDestruct "H" as "(%pv & %x & %H & Hx)". destruct H as [-> Hv]. destruct v as [|s| |]; try done.
    iApply wp_b_string_free. cbn [is_val]. iFrame.
  - iDestruct "H" as "->". by iApply wp_b_string_free_null.
Qed.

Lemma wp_free_field l t f ov g Q :
  l ↦ t ∗ opt_val ch_s (get_field f t) ov ∗ (l ↦ t -∗ Q tt g) ⊢ wp (free_field (obj_ptr l) f) g Q.
Proof.
  iIntros "(Hl & Hf & HQ)". rewrite /free_field. wp_step. iApply wp_free_opt_string. iFrame "Hf".
  by iApply "HQ".
Qed.

Lemma wp_multi_files_free F fs e nx pr g Q :
  (0 < F)%nat -> (ovsize (fs_path fs) <= F)%nat -> (ovsize (fs_path_utf8 fs) <= F)%nat ->
  is_file fs e ∗ e ↦ₙ (nx, pr) ∗ Q tt g ⊢ wp (multi_files_free F (obj_ptr e)) g Q.
Proof.
  intros HF Hp Hu. iIntros "((%p & %q & He & Hpp & Hq) & Hn & HQ)".
  rewrite /multi_files_free /is_null bool_decide_false //. wp_step. iApply wp_bind.
  iApply (wp_free_opt_list F p (fs_path fs)); [done..|]. iFrame "Hpp". wp_step. iApply wp_bind.
  iApply (wp_free_opt_list F q (fs_path_utf8 fs)); [done..|]. iFrame "Hq".
  iApply (wp_free (T := multi_files)). iFrame "He HQ". by iExists _, _.
Qed.

Lemma wp_info_multi_files_free F l t fss fls ov g Q :
  (length fss < F)%nat ->
  Forall (fun fs => ovsize (fs_path fs) <= F ∧ ovsize (fs_path_utf8 fs) <= F)%nat fss ->
  l ↦ t ∗ dlist l fls ∗ sep2 is_file fss fls ∗ opt_val ch_s (get_field F_dir_name t) ov ∗
  (l ↦ t -∗ (∃ n p, l ↦ₙ (n, p)) -∗ Q tt g)
  ⊢ wp (info_multi_files_free F (obj_ptr l)) g Q.
Proof.
  intros Hlen Hsz. iIntros "(Hl & Hr & Hfls & Hd & HQ)".
  rewrite /info_multi_files_free /is_null bool_decide_false //.
  iDestruct (sep2_length with "Hfls") as %Hl. iApply wp_bind. iApply (wp_wand with "[Hr Hfls]").
  { iApply (wp_list_for_each_entry_consume F l fls _ (fun fls g' => ∃ fss,
      ⌜⌜g' = g ∧ Forall (fun fs => ovsize (fs_path fs) <= F ∧ ovsize (fs_path_utf8 fs) <= F)%nat fss⌝⌝
      ∗ sep2 is_file fss fls)%I); [lia| |].
    - intros e es g' nx pr. iIntros "[(%fss' & %H & Hfs) Hn]". destruct H as [-> Hall].
      destruct fss' as [|fs fss']; [done|]. cbn [sep2]. iDestruct "Hfs" as "[Hf Hfs]".
      apply Forall_cons in Hall as [[Hp Hu] Hall]. iApply wp_bind.
      iApply (wp_multi_files_free F fs e nx pr); [lia|done|done|]. iFrame "Hf Hn". wp_step.
      iSplitR; [done|]. iExists fss'. by iFrame.
    - iFrame "Hr". iExists fss. by iFrame. }
  iIntros (r g') "(_ & Hh & (%fss' & %H & Hfs))". destruct H as [-> _]. destruct fss'; [|done].
  wp_step. iApply wp_free_opt_string. iFrame "Hd". iApply ("HQ" with "Hl Hh").
Qed.

(** Everything a torrent owns is released, except what [create_by] and
    [publisher_url_utf8] refer to; [publisher_url] must not be set. *)
Lemma wp_torrent_free F l ts g Q :
  enough F ts -> ts_val ts F_publisher_url = None ->
  is_torrent l ts ∗
  (lost_vals (option_list (ts_val ts F_create_by) ++ option_list (ts_val ts F_publisher_url_utf8)) -∗ Q 0 g)
  ⊢ wp (torrent_free F (obj_ptr l)) g Q.
Proof.
  intros (Hlen & Hal & Hfiles) Hurl.
  iIntros "[(%t & %fls & Hl & Hr & Hfls & Hf & _) HQ]". rewrite /is_fields /=.
  iDestruct "Hf" as "(Hf1 & Hf2 & Hf3 & Hf4 & Hf5 & Hf6 & Hf7 & Hf8 & Hf9 & Hf10 & Hf11 & Hf12 & Hf13 & Hf14 & Hf15 & _)".
  rewrite /torrent_free /is_null bool_decide_false //. cbn [negb]. iApply wp_bind.
  iApply wp_bind. iApply (wp_free_field _ t F_announce). iFrame "Hl Hf1". iIntros "Hl".
  iApply wp_bind. iApply (wp_free_field _ t F_comment). iFrame "Hl Hf3". iIntros "Hl".
  iApply wp_bind. iApply (wp_free_field _ t F_comment_utf8). iFrame "Hl Hf4". iIntros "Hl".
  wp_step. iApply wp_bind. iApply (wp_free_opt_list F _ _); [lia|exact Hal|]. iFrame "Hf2".
  rewrite /torrent_info_free. iApply wp_bind. iApply wp_bind.
  iApply wp_bind. iApply (wp_free_field _ t F_piece_hash). iFrame "Hl Hf6". iIntros "Hl".
  iApply wp_bind. iApply (wp_free_field _ t F_private). iFrame "Hl Hf7". iIntros "Hl".
  iApply wp_bind. iApply (wp_free_field _ t F_name). iFrame "Hl Hf9". iIntros "Hl".
  iApply wp_bind. iApply (wp_free_field _ t F_name_utf8). iFrame "Hl Hf10". iIntros "Hl".
  iApply wp_bind. iApply (wp_free_field _ t F_md5sum). iFrame "Hl Hf11". iIntros "Hl".
  iApply wp_bind. iApply (wp_free_field _ t F_publisher). iFrame "Hl Hf12". iIntros "Hl".
  iApply wp_bind. iApply (wp_free_field _ t F_publisher_utf8). iFrame "Hl Hf13". iIntros "Hl".
  rewrite Hurl. cbn [opt_val]. iDestruct "Hf14" as %Hnull.
  iApply wp_bind. iApply (wp_free_field _ t F_publisher_url None). iFrame "Hl". iSplitR; [done|]. iIntros "Hl".
  iApply wp_bind. iApply (wp_free_field _ t F_publisher_url None). iFrame "Hl". iSplitR; [done|]. iIntros "Hl".
  iApply (wp_info_multi_files_free F l t (ts_files ts) fls); [done..|]. iFrame "Hl Hr Hfls Hf8".
  iIntros "Hl Hh". wp_step. iApply (wp_free (T := torrent)). iFrame "Hl Hh". wp_step. iApply "HQ".
  rewrite lost_vals_app (opt_val_lost _ (t_create_by t)) (opt_val_lost _ (ti_publisher_url_utf8 (t_info t))).
  iFrame.
Qed.
