(* ===== verification/TorrentCorrect.v ===== *)
(** * src/torrent_parse.c: correctness

    The life of a torrent: [torrent_alloc], [torrent_parse], [torrent_free]. *)

From iris.proofmode Require Import environments proofmode.
From S2P Require Import Prelude CTypes HProp CMem CWp CLib Trace DList BParse BSpec BRep BRefine BCorrect.
From S2P Require Import Torrent TorrentSpec.
Set Warnings "-rewrite-rw".
Open Scope Z_scope.

(** Reading a torrent file. *)
Definition torrent_from (F : nat) (buf : ptr) : M (ptr * Z) :=
  t ← torrent_alloc;
  r ← torrent_parse F buf t;
  mret (t, r).

(** The contents of the torrent that is read from [bs], and what is lost. *)
Definition torrent_in (bs : list Z) (e : Z) : tstate :=
  parse_state (dict_result bs e) (empty_torrent, []).

Definition torrent_post (g : globals) (b : loc) (bs : list Z) (res : ptr * Z) (_ : globals) : hProp :=
  (∃ l, ⌜⌜res = (obj_ptr l, parse_code (dict_result bs (errno g)))⌝⌝ ∗ b ↦ (Some <$> bs)
     ∗ is_tstate l (torrent_in bs (errno g)))%I.

Section correct.
Implicit Types (F : nat) (bs : list Z) (g : globals) (b l : loc).

Lemma wpx_torrent_from F b bs g :
  oom g = [] -> Z.of_nat (length bs) < 2 ^ 62 -> (loop_fuel bs <= F)%nat ->
  b ↦ (Some <$> bs)
  ⊢ wpx (torrent_from F (obj_ptr b)) g (torrent_post g b bs)
      (fun _ => dict_result bs (errno g) = PFault).
Proof.
  intros Hoom Hlen HF. iIntros "Hb". iApply wpx_bind. iApply wpx_wp.
  iApply wp_torrent_alloc; [done|]. iIntros (l) "Hst". iApply wpx_bind.
  iDestruct (wpx_torrent_parse F b bs l _ g with "[$Hb $Hst]") as "H"; [done..|].
  iApply (wpx_wand with "H"). iIntros (r g') "(-> & Hb & Hst)". wp_step. iExists l. by iFrame.
Qed.

Lemma wp_torrent_from F b bs g :
  oom g = [] -> Z.of_nat (length bs) < 2 ^ 62 -> (loop_fuel bs <= F)%nat ->
  dict_result bs (errno g) ≠ PFault ->
  b ↦ (Some <$> bs) ⊢ wp (torrent_from F (obj_ptr b)) g (torrent_post g b bs).
Proof.
  intros Hoom Hlen HF Hok. rewrite wpx_torrent_from //. by apply wp_wpx.
Qed.

(** Any large enough amount of fuel releases a torrent. *)
Lemma enough_exists ts : ∃ F0, ∀ F, (F0 <= F)%nat -> enough F ts.
Proof.
  assert (∃ m, Forall (fun fs => ovsize (fs_path fs) <= m ∧ ovsize (fs_path_utf8 fs) <= m)%nat (ts_files ts))
    as [m Hm].
  { induction (ts_files ts) as [|fs fss [m IH]]; [by exists 0%nat|].
    exists (m + ovsize (fs_path fs) + ovsize (fs_path_utf8 fs))%nat. constructor; [lia|].
    eapply Forall_impl; [exact IH|]. cbn. intros; lia. }
  exists (S (length (ts_files ts)) + ovsize (ts_val ts F_announce_list) + m)%nat. intros F HF.
  split_and!; [lia|lia|]. eapply Forall_impl; [exact Hm|]. cbn. intros; lia.
Qed.

(** *** The second release of publisher_url *)

Lemma double_free_run {A} l (t : torrent) (f : field) (x : loc) (s : b_string) b (bs : list mbyte) (k : unit -> M A) (H : heap) g :
  H !! (l, FBody) = Some (CObj (inj (t : torrent))) -> get_field f t = obj_ptr x ->
  H !! (x, FBody) = Some (CObj (inj s)) -> bs_head s = obj_ptr b ->
  H !! (b, FBody) = Some (CObj (inj bs)) ->
  (free_field (obj_ptr l) f ≫= λ _, free_field (obj_ptr l) f ≫= k) (Machine H g) = Fault DanglingPtr.
Proof.
  intros Hl Hf Hx Hs Hb.
  assert (Hxl : (x, FBody) ≠ (l, FBody)) by (intros Heq; rewrite Heq Hl in Hx; done).
  assert (Hbl : (b, FBody) ≠ (l, FBody)) by (intros Heq; rewrite Heq Hl in Hb; done).
  assert (Hbx : (b, FBody) ≠ (x, FBody)) by (intros Heq; rewrite Heq Hx in Hb; done).
  rewrite /free_field /mbind /M_bind /load /with_obj /= Hl /= Hf /b_string_free /is_null /=.
  rewrite /mbind /M_bind /load /with_obj /= Hx /= Hs /= Hb /=.
  rewrite (lookup_delete_ne _ (b, FBody) (x, FBody)) // Hx /=.
  rewrite !lookup_delete_ne // Hl /= Hf /= /mbind /M_bind /load /with_obj /=.
  by rewrite lookup_delete_eq.
Qed.

Lemma wpf_double_free {A} l t f pv x s (k : unit -> M A) g :
  get_field f t = obj_ptr x ->
  l ↦ t ∗ is_string pv x s
  ⊢ wpf (free_field (obj_ptr l) f ≫= λ _, free_field (obj_ptr l) f ≫= k) g DanglingPtr.
Proof.
  intros Hf. iIntros "[Hl (%b & %tl & Hx & Hb)]". iCombine "Hl Hx Hb" as "H". iStopProof.
  apply wpf_run. intros H Hcell.
  eapply (double_free_run l t f x (BString pv (obj_ptr b) (obj_ptr b) _) b);
    [apply Hcell|exact Hf|apply Hcell|done|apply Hcell].
  - iIntros "($ & _ & _)".
  - iIntros "(_ & $ & _)".
  - iIntros "(_ & _ & $)".
Qed.

Lemma wpf_torrent_free F l ts v g :
  enough F ts -> ts_val ts F_publisher_url = Some v ->
  is_torrent l ts ⊢ wpf (torrent_free F (obj_ptr l)) g DanglingPtr.
Proof.
  intros (Hlen & Hal & _) Hurl.
  iIntros "(%t & %fls & Hl & Hr & Hfls & Hf & _)". rewrite /is_fields /=.
  iDestruct "Hf" as "(Hf1 & Hf2 & Hf3 & Hf4 & Hf5 & Hf6 & Hf7 & Hf8 & Hf9 & Hf10 & Hf11 & Hf12 & Hf13 & Hf14 & Hf15 & _)".
  rewrite /torrent_free /is_null bool_decide_false //. cbn [negb]. iApply wpf_bind_l.
  iApply wpf_bind. iApply (wp_free_field _ t F_announce). iFrame "Hl Hf1". iIntros "Hl".
  iApply wpf_bind. iApply (wp_free_field _ t F_comment). iFrame "Hl Hf3". iIntros "Hl".
  iApply wpf_bind. iApply (wp_free_field _ t F_comment_utf8). iFrame "Hl Hf4". iIntros "Hl".
  iApply wpf_bind. wp_step. iApply wpf_bind. iApply (wp_free_opt_list F _ _); [lia|exact Hal|]. iFrame "Hf2".
  iApply wpf_bind_l. rewrite /torrent_info_free. iApply wpf_bind_l.
  iApply wpf_bind. iApply (wp_free_field _ t F_piece_hash). iFrame "Hl Hf6". iIntros "Hl".
  iApply wpf_bind. iApply (wp_free_field _ t F_private). iFrame "Hl Hf7". iIntros "Hl".
  iApply wpf_bind. iApply (wp_free_field _ t F_name). iFrame "Hl Hf9". iIntros "Hl".
  iApply wpf_bind. iApply (wp_free_field _ t F_name_utf8). iFrame "Hl Hf10". iIntros "Hl".
  iApply wpf_bind. iApply (wp_free_field _ t F_md5sum). iFrame "Hl Hf11". iIntros "Hl".
  iApply wpf_bind. iApply (wp_free_field _ t F_publisher). iFrame "Hl Hf12". iIntros "Hl".
  iApply wpf_bind. iApply (wp_free_field _ t F_publisher_utf8). iFrame "Hl Hf13". iIntros "Hl".
  rewrite Hurl. cbn [opt_val]. iDestruct "Hf14" as "(%pv & %x & %Hx & Hx)". destruct Hx as [Hx Hv].
  destruct v as [|s| |]; try done. cbn [is_val].
  iApply (wpf_frame _ _ _ True%I). iSplitL "Hl Hx"; [|done].
  iApply (wpf_double_free l t F_publisher_url); [done|]. iFrame "Hl Hx".
Qed.

End correct.

(** ** Properties *)

(** C6: when the allocator gives memory, reading a torrent from any buffer of less
    than 2^62 bytes returns 0 exactly when the buffer is accepted by the B-coding
    parser; each member of the torrent then owns the value of the last entry with
    its key and type, the numbers and the list of files are those of the dictionary,
    the parsed dictionary itself is released and the only other memory left is the
    values displaced by a repeated key.  On a rejected buffer it returns -1 and the
    torrent stays empty.  Undefined behaviour occurs only on inputs the reference
    parser marks. *)
Theorem torrent_parse_refines F b bs g :
  oom g = [] -> Z.of_nat (length bs) < 2 ^ 62 -> (loop_fuel bs <= F)%nat ->
  outcomes (b ↦ (Some <$> bs))%I g (torrent_from F (obj_ptr b)) (torrent_post g b bs)
    (fun _ => dict_result bs (errno g) = PFault).
Proof. intros. by apply outcomes_wpx, wpx_torrent_from. Qed.

Definition sample_torrent : list Z :=
  str "d8:announce3:abc4:infod5:filesld6:lengthi7e4:pathl1:aeee4:name2:xyee".

Lemma torrent_parse_refines_witness :
  holds (1%positive ↦ (Some <$> sample_torrent))%I (one_buffer 1 sample_torrent) ∧
  outcomes (1%positive ↦ (Some <$> sample_torrent))%I quiet_globals (torrent_from 200 (obj_ptr 1))
    (torrent_post quiet_globals 1 sample_torrent) (fun _ => dict_result sample_torrent 0 = PFault).
Proof.
  split; [apply holds_buffer|].
  apply (torrent_parse_refines 200 1 _ quiet_globals);
    [reflexivity|vm_compute; reflexivity|apply Nat.leb_le; vm_compute; reflexivity].
Defined.

(** C7: when the allocator gives memory and the parser meets no undefined behaviour,
    reading a torrent without a publisher url and releasing it again leaves exactly
    this behind: the values displaced by repeated keys, the creator and the utf-8
    publisher url, which [torrent_free] forgets. *)
Theorem torrent_lifecycle b bs g :
  oom g = [] -> Z.of_nat (length bs) < 2 ^ 62 -> dict_result bs (errno g) ≠ PFault ->
  ts_val (fst (torrent_in bs (errno g))) F_publisher_url = None ->
  ∃ F0, ∀ F, (F0 <= F)%nat ->
  triple (b ↦ (Some <$> bs))%I g (res ← torrent_from F (obj_ptr b); torrent_free F (fst res))
    (fun r _ => let '(ts, lost) := torrent_in bs (errno g) in
       ⌜⌜r = 0⌝⌝ ∗ b ↦ (Some <$> bs) ∗ lost_vals (option_list (ts_val ts F_create_by)
         ++ option_list (ts_val ts F_publisher_url_utf8) ++ lost))%I.
Proof.
  intros Hoom Hlen Hok Hurl. destruct (enough_exists (fst (torrent_in bs (errno g)))) as [F0 HF0].
  exists (F0 + loop_fuel bs)%nat. intros F HF. apply triple_wp. iIntros "Hb". iApply wp_bind.
  iApply (wp_wand with "[Hb]"). { iApply (wp_torrent_from F b bs); [done|done|lia|done|done]. }
  iIntros (res g') "(%l & -> & Hb & [Ht Hlost])". cbn [fst].
  iApply (wp_torrent_free F l (fst (torrent_in bs (errno g)))); [apply HF0; lia|done|].
  iFrame "Ht". iIntros "Hleft". destruct (torrent_in bs (errno g)) as [ts lost]. cbn [fst snd].
  iSplitR; [done|]. rewrite (assoc_L (++)) lost_vals_app. iFrame.
Qed.

Lemma torrent_lifecycle_witness :
  ∃ F0, ∀ F, (F0 <= F)%nat ->
  triple (1%positive ↦ (Some <$> sample_torrent))%I quiet_globals
    (res ← torrent_from F (obj_ptr 1); torrent_free F (fst res))
    (fun r _ => let '(ts, lost) := torrent_in sample_torrent 0 in
       ⌜⌜r = 0⌝⌝ ∗ 1%positive ↦ (Some <$> sample_torrent) ∗ lost_vals (option_list (ts_val ts F_create_by)
         ++ option_list (ts_val ts F_publisher_url_utf8) ++ lost))%I.
Proof.
  apply (torrent_lifecycle 1 sample_torrent quiet_globals);
    [reflexivity|vm_compute; reflexivity|vm_compute; discriminate|vm_compute; reflexivity].
Defined.

(** A torrent that has a publisher url cannot be released: [torrent_free]
    frees that string twice, so a file with the key "publisher url" makes the
    program touch freed memory. *)
Theorem torrent_free_twice b bs g v :
  oom g = [] -> Z.of_nat (length bs) < 2 ^ 62 -> dict_result bs (errno g) ≠ PFault ->
  ts_val (fst (torrent_in bs (errno g))) F_publisher_url = Some v ->
  ∃ F0, ∀ F, (F0 <= F)%nat ->
  faults (b ↦ (Some <$> bs))%I g (res ← torrent_from F (obj_ptr b); torrent_free F (fst res))
    DanglingPtr.
Proof.
  intros Hoom Hlen Hok Hurl. destruct (enough_exists (fst (torrent_in bs (errno g)))) as [F0 HF0].
  exists (F0 + loop_fuel bs)%nat. intros F HF. apply faults_wpf. iIntros "Hb". iApply wpf_bind.
  iApply (wp_wand with "[Hb]"). { iApply (wp_torrent_from F b bs); [done|done|lia|done|done]. }
  iIntros (res g') "(%l & -> & Hb & [Ht Hlost])". cbn [fst].
  iApply (wpf_frame _ _ _ True%I). iSplitL "Ht"; [|done].
  iApply (wpf_torrent_free F l _ v with "Ht"); [apply HF0; lia|done].
Qed.

Lemma torrent_free_twice_witness :
  ∃ F0, ∀ F, (F0 <= F)%nat ->
  faults (1%positive ↦ (Some <$> str "d4:infod13:publisher url3:urlee"))%I quiet_globals
    (res ← torrent_from F (obj_ptr 1); torrent_free F (fst res)) DanglingPtr.
Proof.
  apply (torrent_free_twice 1 _ quiet_globals (VStr (str "url")));
    [reflexivity|vm_compute; reflexivity|vm_compute; discriminate|vm_compute; reflexivity].
Defined.
