(* ===== verification/Timer.v ===== *)
(** * src/bt_timer.c: the timers

    A list of timers ordered by interval, driven by SIGALRM.  [timer_list] is
    the address of the static variable of that name, and [run] what calling a
    callback does: the callbacks are code of the program's users. *)

From iris.proofmode Require Import environments proofmode.
From S2P Require Import Prelude CTypes HProp CMem CWp CLib DList.
Set Warnings "-rewrite-rw".
Open Scope Z_scope.

(** ** The model *)

Definition SIGALRM : Z := 14.
Definition SIG_ERR : fn := -1.
Definition ITIMER_REAL : Z := 0.

(** The number of [bt_timer_func] as a function pointer. *)
Definition BT_TIMER_FUNC : fn := 1.

Definition no_itimerval : itimerval := ITimerval 0 0 0 0.
Definition no_timer_list : bt_timer_list := BtTimerList no_itimerval no_itimerval 0 0 0.

(** vec->elapse = e *)
Definition set_elapse (e : Z) (x : bt_timer) : bt_timer :=
  BtTimer (tm_timer_id x) (tm_callback x) (tm_data x) (tm_type x) (tm_interval x) e.

Section timer.
Context (timer_list : loc) (run : fn -> Z -> ptr -> M unit).

(** The cursor of the loop is the head when no timer has a longer interval. *)
Definition get_position (fuel : nat) (interval : Z) (list : ptr) : M ptr :=
  r ← list_for_each_entry fuel list (fun vec =>
        x ← load bt_timer vec;
        mret (if u32 interval <? tm_interval x then Some vec else None));
  mret (match r with Some p => p | None => list end).

Definition bt_timer_visit (fuel : nat) (vec : ptr) : M (option unit) :=
  x ← load bt_timer vec;
  _ ← store vec (set_elapse (u32 (tm_elapse x + 1)) x);
  x ← load bt_timer vec;
  if tm_interval x <=? tm_elapse x then
    _ ← store vec (set_elapse 0 x);
    x ← load bt_timer vec;
    _ ← run (tm_callback x) (s32 (tm_timer_id x)) (tm_data x);
    _ ← list_del vec;
    x ← load bt_timer vec;
    _ ← (if negb (tm_type x =? BT_TIMER_SINGLE) then
           pos ← get_position fuel (s32 (tm_interval x)) (obj_ptr timer_list);
           list_add_tail vec pos
         else mret tt);
    mret None
  else mret None.

Definition bt_timer_func (fuel : nat) : M unit :=
  _ ← list_for_each_entry_safe fuel (obj_ptr timer_list) (bt_timer_visit fuel);
  mret tt.

Definition bt_timer_init : M Z :=
  let tl := obj_ptr timer_list in
  _ ← store tl no_timer_list;
  _ ← store_node tl (ListHead PNull PNull);
  _ ← INIT_LIST_HEAD tl;
  old ← syscall "signal" [SIGALRM; BT_TIMER_FUNC];
  _ ← store tl (BtTimerList no_itimerval no_itimerval old 0 0);
  if old =? SIG_ERR then mret (-1)
  else
    let value := ITimerval 0 1 1 0 in
    _ ← store tl (BtTimerList value no_itimerval old BT_TIMER_FUNC 0);
    syscall "setitimer" [ITIMER_REAL; it_value_sec value; it_value_usec value;
                         it_interval_sec value; it_interval_usec value].

Definition bt_timer_add (fuel : nat) (func : fn) (data : ptr) (interval type : Z) : M ptr :=
  p ← malloc (BtTimer 0 0 PUndef 0 0 0);
  _ ← store p (BtTimer 0 0 PNull 0 0 0);
  _ ← store_node p (ListHead PNull PNull);
  tl ← load bt_timer_list (obj_ptr timer_list);
  if tl_num tl =? 2 ^ 31 - 1 then fail IntOverflow
  else
    _ ← store (obj_ptr timer_list)
          (BtTimerList (tl_value tl) (tl_ovalue tl) (tl_old_sigfunc tl) (tl_new_sigfunc tl) (tl_num tl + 1));
    _ ← store p (BtTimer (u32 (tl_num tl)) func data type interval 0);
    pos ← get_position fuel (s32 interval) (obj_ptr timer_list);
    _ ← list_add_tail p pos;
    mret p.

Definition bt_timer_del (p : ptr) : M unit :=
  _ ← list_del p;
  free p.

Definition bt_timer_update (fuel : nat) (p : ptr) : M unit :=
  _ ← list_del p;
  x ← load bt_timer p;
  _ ← store p (set_elapse 0 x);
  x ← load bt_timer p;
  pos ← get_position fuel (s32 (tm_interval x)) (obj_ptr timer_list);
  list_add_tail p pos.

Definition bt_timer_finit (fuel : nat) : M unit :=
  let tl := obj_ptr timer_list in
  x ← load bt_timer_list tl;
  _ ← syscall "signal" [SIGALRM; tl_old_sigfunc x];
  _ ← list_for_each_entry_safe (R := unit) fuel tl
        (fun vec => _ ← bt_timer_del vec; mret None);
  _ ← store tl no_timer_list;
  store_node tl (ListHead PNull PNull).

End timer.

(** ** The abstract timer list *)

Abbreviation timer := (loc * bt_timer)%type.

Definition interval (x : timer) : Z := tm_interval (snd x).

(** A timer goes after all timers whose interval is not longer. *)
Fixpoint insert_timer (x : timer) (ts : list timer) : list timer :=
  match ts with
  | [] => [x]
  | t :: ts' => if interval x <? interval t then x :: ts else t :: insert_timer x ts'
  end.

(** The timers, and a bare word for the rest of the static variable. *)
Definition is_timer (x : timer) : hProp := (fst x ↦ snd x)%I.

Definition timers (tl : loc) (ts : list timer) : hProp :=
  (dlist tl (fst <$> ts) ∗ [∗ list] x ∈ ts, is_timer x)%I.

(** Intervals are unsigned ints. *)
Definition wf_timers (ts : list timer) : Prop := Forall (fun x => 0 <= interval x < 2 ^ 32) ts.

Definition by_interval (x y : timer) : Prop := interval x <= interval y.

Section abstract.
Implicit Types (x y : timer) (us vs ts : list timer).

Lemma insert_timer_split x ts :
  ∃ us vs, ts = us ++ vs ∧ insert_timer x ts = us ++ x :: vs
    ∧ Forall (fun y => interval y <= interval x) us
    ∧ match vs with [] => True | y :: _ => interval x < interval y end.
Proof.
  induction ts as [|t ts (us & vs & Hts & Hins & Hus & Hvs)]; [by exists [], []|]. cbn.
  destruct (Z.ltb_spec (interval x) (interval t)).
  - by exists [], (t :: ts).
  - exists (t :: us), vs. cbn. rewrite Hins Hts. split_and!; [done|done|by constructor|done].
Qed.

Lemma insert_timer_at x us vs :
  Forall (fun y => interval y <= interval x) us ->
  match vs with [] => True | y :: _ => interval x < interval y end ->
  insert_timer x (us ++ vs) = us ++ x :: vs.
Proof.
  intros Hus Hvs. induction Hus as [|u us Hu _ IH]; cbn.
  - destruct vs as [|v vs]; [done|]. cbn. by rewrite (proj2 (Z.ltb_lt _ _)).
  - by rewrite (proj2 (Z.ltb_ge _ _)) // IH.
Qed.

Lemma insert_timer_perm x ts : insert_timer x ts ≡ₚ x :: ts.
Proof.
  destruct (insert_timer_split x ts) as (us & vs & -> & -> & _). by rewrite Permutation_middle.
Qed.

Lemma insert_timer_sorted x ts : Sorted by_interval ts -> Sorted by_interval (insert_timer x ts).
Proof.
  induction 1 as [|t ts Hs IH Hhd]; cbn; [by constructor|].
  destruct (Z.ltb_spec (interval x) (interval t)).
  - constructor; [by constructor|]. constructor. rewrite /by_interval. lia.
  - constructor; [done|]. destruct ts as [|u ts]; cbn in *.
    + constructor. by rewrite /by_interval.
    + destruct (Z.ltb_spec (interval x) (interval u)); constructor; rewrite /by_interval; [lia|].
      inversion Hhd; by subst.
Qed.

Lemma remove_sorted us x vs : Sorted by_interval (us ++ x :: vs) -> Sorted by_interval (us ++ vs).
Proof.
  assert (Transitive by_interval) by (intros a b c; rewrite /by_interval; lia).
  intros Hs. apply Sorted_StronglySorted in Hs; [|done]. apply StronglySorted_Sorted.
  induction us as [|u us IH]; cbn in *.
  - by apply StronglySorted_inv in Hs as [Hs _].
  - apply StronglySorted_inv in Hs as [Hs Hall]. constructor; [by apply IH|].
    apply Forall_app in Hall as [H1 H2]. apply Forall_app. split; [done|]. by inversion H2.
Qed.

End abstract.
