(* ===== verification/TimerSpec.v ===== *)
(** * src/bt_timer.c: specifications

    Every operation on the timers is specified by its effect on the abstract
    list; the list stays ordered by interval.  A tick of the clock visits every
    timer exactly once if no two timers have the same interval; two repeating
    timers of one second make the handler run forever. *)

From iris.proofmode Require Import environments proofmode.
From S2P Require Import Prelude CTypes HProp CMem CWp CLib DList Timer.
Set Warnings "-rewrite-rw".
Open Scope Z_scope.

Section position.
Context (tl : loc).
Implicit Types (ts us vs : list timer) (x : timer) (g : globals).

Lemma wp_get_position F i ts g Q :
  0 <= i < 2 ^ 32 -> (length ts < F)%nat ->
  timers tl ts ∗
  (∀ us vs, ⌜⌜ts = us ++ vs ∧ Forall (fun y => interval y <= i) us
      ∧ match vs with [] => True | y :: _ => i < interval y end⌝⌝ -∗
     timers tl ts -∗ Q (obj_ptr (hd tl (fst <$> vs))) g)
  ⊢ wp (get_position F (s32 i) (obj_ptr tl)) g Q.
Proof.
  intros Hi HF. iIntros "[[Hr Hts] HQ]". rewrite /get_position u32_s32 u32_small //.
  set (Inv := fun (ls : list loc) (g' : globals) => (∃ us vs, ⌜⌜ts = us ++ vs ∧ ls = fst <$> us
    ∧ Forall (fun y => interval y <= i) us ∧ g' = g⌝⌝ ∗ [∗ list] x ∈ ts, is_timer x)%I).
  set (Post := fun (r : ptr) (g' : globals) => (∃ us v vs, ⌜⌜ts = us ++ v :: vs ∧ r = obj_ptr (fst v)
    ∧ Forall (fun y => interval y <= i) us ∧ i < interval v ∧ g' = g⌝⌝ ∗ [∗ list] x ∈ ts, is_timer x)%I).
  iApply wp_bind. iApply (wp_wand with "[Hr Hts]").
  { iApply (wp_list_for_each_entry F tl (fst <$> ts) _ Inv Post); [by rewrite length_fmap| |].
    - intros ls l ls' g' Hls. iIntros "(%us & %vs & %H & Hts)". destruct H as (Hts & -> & Hus & ->).
      rewrite Hts fmap_app in Hls. apply app_inv_head in Hls. destruct vs as [|v vs]; [done|].
      cbn in Hls. injection Hls as <- <-. rewrite {1}Hts big_sepL_app big_sepL_cons.
      iDestruct "Hts" as "(H1 & Hv & H2)". rewrite /is_timer. wp_steps.
      iAssert ([∗ list] x ∈ ts, is_timer x)%I with "[H1 Hv H2]" as "Hts".
      { rewrite Hts big_sepL_app big_sepL_cons. iFrame. }
      fold (interval v). destruct (Z.ltb_spec i (interval v)).
      + iExists us, v, vs. by iFrame.
      + iExists (us ++ [v]), vs. iFrame. iPureIntro. rewrite fmap_app -app_assoc.
        split_and!; [done|done|by apply Forall_app; split; [|constructor]|done].
    - iFrame "Hr". iExists [], ts. by iFrame. }
  iIntros (r g') "[Hr H]". iApply wp_ret. destruct r as [r|].
  - iDestruct "H" as "(%us & %v & %vs & %H & Hts)". destruct H as (Hts & -> & Hus & Hv & ->).
    iApply ("HQ" $! us (v :: vs)); [done|]. iFrame.
  - iDestruct "H" as "(%us & %vs & %H & Hts)". destruct H as (Hts & Hls & Hus & ->).
    assert (vs = []) as ->.
    { apply (f_equal length) in Hls. rewrite Hts !length_fmap length_app in Hls.
      apply nil_length_inv. lia. }
    iApply ("HQ" $! us []); [done|]. iFrame.
Qed.

(** Putting a detached timer where it belongs. *)
Lemma wp_place F x ts n p g Q :
  0 <= interval x < 2 ^ 32 -> (length ts < F)%nat ->
  timers tl ts ∗ is_timer x ∗ (fst x) ↦ₙ (n, p) ∗ (timers tl (insert_timer x ts) -∗ Q tt g)
  ⊢ wp (pos ← get_position F (s32 (interval x)) (obj_ptr tl); list_add_tail (obj_ptr (fst x)) pos) g Q.
Proof.
  intros Hi HF. iIntros "(Hts & Hx & Hn & HQ)". iApply wp_bind. iApply wp_get_position; [done..|].
  iFrame "Hts". iIntros (us vs) "%H [Hr Hts]". destruct H as (-> & Hus & Hvs).
  rewrite fmap_app. iApply wp_list_add_before. iFrame "Hr Hn". iIntros "Hr". iApply "HQ".
  rewrite insert_timer_at //. rewrite /timers fmap_app fmap_cons. iFrame "Hr".
  rewrite !big_sepL_app big_sepL_cons. iDestruct "Hts" as "[$ $]". iFrame.
Qed.

(** Taking a timer out. *)
Lemma wp_take us x vs g Q :
  timers tl (us ++ x :: vs) ∗
  (timers tl (us ++ vs) -∗ is_timer x -∗ (fst x) ↦ₙ (LIST_POISON1, LIST_POISON2) -∗ Q tt g)
  ⊢ wp (list_del (obj_ptr (fst x))) g Q.
Proof.
  rewrite /timers fmap_app fmap_cons big_sepL_app big_sepL_cons.
  iIntros "[(Hr & Hus & Hx & Hvs) HQ]". iApply wp_list_del_at. iFrame "Hr". iIntros "Hr Hn".
  iApply ("HQ" with "[Hr Hus Hvs] Hx Hn"). rewrite fmap_app big_sepL_app. iFrame.
Qed.

(** ** The operations *)

Lemma wp_bt_timer_del us x vs g Q :
  timers tl (us ++ x :: vs) ∗ (timers tl (us ++ vs) -∗ Q tt g)
  ⊢ wp (bt_timer_del (obj_ptr (fst x))) g Q.
Proof.
  iIntros "[Hts HQ]". iApply wp_bind. iApply wp_take. iFrame "Hts". iIntros "Hts Hx Hn".
  iApply (wp_free (T := bt_timer)). iFrame "Hx". iSplitL "Hn"; [by iExists _, _|]. by iApply "HQ".
Qed.

Definition reset (x : timer) : timer := (fst x, set_elapse 0 (snd x)).

Lemma wp_bt_timer_update F us x vs g Q :
  0 <= interval x < 2 ^ 32 -> (length (us ++ vs) < F)%nat ->
  timers tl (us ++ x :: vs) ∗ (timers tl (insert_timer (reset x) (us ++ vs)) -∗ Q tt g)
  ⊢ wp (bt_timer_update tl F (obj_ptr (fst x))) g Q.
Proof.
  intros Hi HF. iIntros "[Hts HQ]". rewrite /bt_timer_update. iApply wp_bind. iApply wp_take.
  iFrame "Hts". iIntros "Hts Hx Hn". destruct x as [l x]. rewrite /is_timer. cbn [fst snd]. wp_steps.
  iApply (wp_place F (l, set_elapse 0 x) (us ++ vs)); [done..|]. iFrame.
Qed.

Definition with_num (n : Z) (x : bt_timer_list) : bt_timer_list :=
  BtTimerList (tl_value x) (tl_ovalue x) (tl_old_sigfunc x) (tl_new_sigfunc x) n.

Lemma wp_bt_timer_add F func data i type st ts g Q :
  oom g = [] -> 0 <= i < 2 ^ 32 -> (length ts < F)%nat -> tl_num st ≠ 2 ^ 31 - 1 ->
  tl ↦ st ∗ timers tl ts ∗
  (∀ l, tl ↦ with_num (tl_num st + 1) st -∗
     timers tl (insert_timer (l, BtTimer (u32 (tl_num st)) func data type i 0) ts) -∗ Q (obj_ptr l) g)
  ⊢ wp (bt_timer_add tl F func data i type) g Q.
Proof.
  intros Hoom Hi HF Hnum. iIntros "(Htl & Hts & HQ)". rewrite /bt_timer_add. iApply wp_bind.
  iApply wp_malloc; [done|]. iIntros (l) "Hl Hn". change (node_of bt_timer) with true. cbn match.
  wp_steps. rewrite (proj2 (Z.eqb_neq _ _)) //. wp_steps.
  iApply wp_bind. iApply wp_get_position; [done..|]. iFrame "Hts". iIntros (us vs) "%H [Hr Hts]".
  destruct H as (-> & Hus & Hvs). rewrite fmap_app. iApply wp_bind. iApply wp_list_add_before.
  iFrame "Hr Hn". iIntros "Hr". wp_step. iApply ("HQ" with "Htl").
  rewrite insert_timer_at //. rewrite /timers fmap_app fmap_cons. iFrame "Hr".
  rewrite !big_sepL_app big_sepL_cons. iDestruct "Hts" as "[$ $]". iFrame.
Qed.

End position.

(** ** A tick of the clock *)

Section tick.
Context (tl : loc) (run : fn -> Z -> ptr -> M unit).
(** What a callback does to the rest of the program's state; it neither
    touches the memory of the timers nor fails. *)
Context (call : fn -> Z -> ptr -> globals -> globals).
Context (Hrun : ∀ f id d g Q, Q tt (call f id d g) ⊢ wp (run f id d) g Q).
Implicit Types (ts us vs : list timer) (x : timer) (g : globals).

Definition elapsed (x : timer) : Z := u32 (tm_elapse (snd x) + 1).
Definition expired (x : timer) : bool := interval x <=? elapsed x.
Definition single (x : timer) : bool := tm_type (snd x) =? BT_TIMER_SINGLE.

(** What becomes of a timer. *)
Definition tick_timer (x : timer) : option timer :=
  if expired x then if single x then None else Some (reset x)
  else Some (fst x, set_elapse (elapsed x) (snd x)).

Definition tick (ts : list timer) : list timer := omap tick_timer ts.

(** The callbacks that run, in order. *)
Definition fire (g : globals) (x : timer) : globals :=
  if expired x then call (tm_callback (snd x)) (s32 (tm_timer_id (snd x))) (tm_data (snd x)) g else g.

(** A single-shot timer that fired is out of the list but still allocated. *)
Definition detached (x : timer) : hProp :=
  if expired x && single x then (is_timer (reset x) ∗ (fst x) ↦ₙ (LIST_POISON1, LIST_POISON2))%I
  else emp%I.

Definition increasing (x y : timer) : Prop := interval x < interval y.

Lemma tick_timer_interval x y : tick_timer x = Some y -> interval y = interval x.
Proof. rewrite /tick_timer. destruct (expired x), (single x); intros [=]; by subst. Qed.

Lemma tick_app ts ts' : tick (ts ++ ts') = tick ts ++ tick ts'.
Proof. apply omap_app. Qed.

Lemma tick_cons x ts : tick (x :: ts) = option_list (tick_timer x) ++ tick ts.
Proof. rewrite /tick. cbn. by destruct (tick_timer x). Qed.

Lemma tick_length ts : (length (tick ts) <= length ts)%nat.
Proof.
  induction ts as [|x ts IH]; [done|]. rewrite tick_cons length_app.
  destruct (tick_timer x); cbn; lia.
Qed.

Lemma tick_bounded (P : Z -> Prop) ts :
  Forall (fun y => P (interval y)) ts -> Forall (fun y => P (interval y)) (tick ts).
Proof.
  induction 1 as [|x ts Hx _ IH]; [done|]. rewrite tick_cons. apply Forall_app. split; [|done].
  destruct (tick_timer x) eqn:Hy; [|done]. constructor; [|done]. by rewrite (tick_timer_interval _ _ Hy).
Qed.

(** The list after the visit of [x]. *)
Definition visited us x vs : list timer :=
  if expired x then if single x then us ++ vs else insert_timer (reset x) (us ++ vs)
  else us ++ (fst x, set_elapse (elapsed x) (snd x)) :: vs.

Lemma wp_bt_timer_visit F us x vs g :
  0 <= interval x < 2 ^ 32 -> (length (us ++ vs) < F)%nat ->
  timers tl (us ++ x :: vs)
  ⊢ wp (bt_timer_visit tl run F (obj_ptr (fst x))) g (fun r g' =>
      ⌜⌜r = None ∧ g' = fire g x⌝⌝ ∗ timers tl (visited us x vs) ∗ detached x).
Proof.
  intros Hi HF. rewrite {1}/timers fmap_app fmap_cons big_sepL_app big_sepL_cons.
  iIntros "(Hr & Hu & Hx & Hv)". iEval (rewrite /is_timer) in "Hx".
  rewrite /bt_timer_visit /visited /fire /detached. wp_steps.
  cbn [tm_interval tm_elapse set_elapse]. fold (interval x) (elapsed x) (expired x).
  destruct (expired x) eqn:Hexp; cbn [andb]; last first.
  { wp_step. iSplitR; [done|]. rewrite /timers fmap_app fmap_cons !big_sepL_app big_sepL_cons.
    by iFrame. }
  wp_steps. cbn [tm_callback tm_timer_id tm_data set_elapse]. iApply wp_bind. iApply Hrun.
  iApply wp_bind. iApply (wp_list_del_at tl). iFrame "Hr". iIntros "Hr Hn". wp_steps.
  cbn [tm_type tm_interval set_elapse]. fold (single x).
  iAssert (timers tl (us ++ vs)) with "[Hr Hu Hv]" as "Hts".
  { rewrite /timers fmap_app big_sepL_app. iFrame. }
  destruct (single x) eqn:Hs; cbn [negb].
  - iApply wp_bind. wp_steps. iSplitR; [done|]. iFrame.
  - iApply wp_bind. iApply (wp_place tl F (reset x) (us ++ vs)); [done..|].
    iFrame "Hts Hx Hn". iIntros "Hts". wp_step. iSplitR; [done|]. by iFrame.
Qed.

(** Between timers with other intervals it keeps its place. *)
Lemma visited_in_place us x vs :
  Forall (fun y => interval y <= interval x) us ->
  match vs with [] => True | y :: _ => interval x < interval y end ->
  visited us x vs = us ++ option_list (tick_timer x) ++ vs.
Proof.
  intros Hus Hvs. rewrite /visited /tick_timer. destruct (expired x); [destruct (single x)|]; [done| |done].
  by apply (insert_timer_at (reset x)).
Qed.

Lemma wp_bt_timer_func_from F fuel past rest g n :
  wf_timers (past ++ rest) -> StronglySorted increasing (past ++ rest) ->
  (length (past ++ rest) < F)%nat -> (length rest < fuel)%nat ->
  match rest with [] => True | _ :: rest' => n = obj_ptr (hd tl (fst <$> rest')) end ->
  timers tl (tick past ++ rest) ∗ ([∗ list] x ∈ past, detached x)
  ⊢ wp (list_for_each_safe_from fuel (obj_ptr (hd tl (fst <$> rest))) n (obj_ptr tl) (bt_timer_visit tl run F)) g
      (fun r g' => ⌜⌜r = None ∧ g' = foldl fire g rest⌝⌝ ∗ timers tl (tick (past ++ rest))
         ∗ [∗ list] x ∈ (past ++ rest), detached x).
Proof.
  revert fuel past g n. induction rest as [|x rest IH]; intros fuel past g n Hwf Hs HF Hfuel Hn.
  { iIntros "[Hts Hd]". destruct fuel as [|fuel]; [lia|]. cbn [list_for_each_safe_from fmap list_fmap hd].
    rewrite bool_decide_true //. wp_step. rewrite !app_nil_r. by iFrame. }
  subst n. iIntros "[Hts Hd]". destruct fuel as [|fuel]; [lia|].
  iAssert ⌜fst x ≠ tl⌝%I as %Hne.
  { iDestruct "Hts" as "[Hr _]". iDestruct (dlist_NoDup with "Hr") as %Hnd. iPureIntro. intros Heq.
    apply NoDup_cons in Hnd as [Hnin _]. apply Hnin. rewrite fmap_app fmap_cons Heq. set_solver. }
  cbn [list_for_each_safe_from fmap list_fmap hd]. rewrite bool_decide_false; last (by intros [=]).
  assert (Hle : Forall (fun y => interval y <= interval x) (tick past)).
  { apply (tick_bounded (fun z => z <= interval x)). apply Forall_forall. intros y Hy.
    apply StronglySorted_app in Hs as (Hs & _ & _).
    specialize (Hs y x Hy ltac:(set_solver)). rewrite /increasing in Hs. lia. }
  assert (Hgt : match rest with [] => True | y :: _ => interval x < interval y end).
  { destruct rest as [|y rest]; [done|]. apply StronglySorted_app in Hs as (_ & _ & Hs).
    apply StronglySorted_inv in Hs as [_ Hs]. by apply Forall_cons in Hs as [Hs _]. }
  apply Forall_app in Hwf as Hwf'. destruct Hwf' as [_ Hwfx]. apply Forall_cons in Hwfx as [Hwfx _].
  rewrite length_app /= in HF. pose proof (tick_length past).
  iApply wp_bind. iDestruct (wp_bt_timer_visit F (tick past) x rest g with "Hts") as "Hwp";
    [done|rewrite length_app; lia|].
  iApply (wp_wand with "Hwp"). iIntros (r g') "(%H1 & Hts & Hx)". destruct H1 as [-> ->].
  rewrite visited_in_place // (assoc_L (++)). replace (tick past ++ option_list (tick_timer x)) with (tick (past ++ [x])); last first.
  { by rewrite tick_app tick_cons app_nil_r. }
  iAssert ([∗ list] y ∈ (past ++ [x]), detached y)%I with "[Hd Hx]" as "Hd".
  { rewrite big_sepL_app big_sepL_singleton. iFrame. }
  assert (Hnext : ∀ Q, timers tl (tick (past ++ [x]) ++ rest) ∗
    (∀ n, ⌜⌜match rest with [] => True | _ :: rest' => n = obj_ptr (hd tl (fst <$> rest')) end⌝⌝ -∗
      timers tl (tick (past ++ [x]) ++ rest) -∗ Q n (fire g x))
    ⊢ wp (get_next (obj_ptr (hd tl (fst <$> rest)))) (fire g x) Q).
  { intros Q. rewrite /timers. iIntros "[[Hr Hts] HQ]". destruct rest as [|y rest].
    - iApply wp_get_next_head. iFrame "Hr". iIntros "Hr". iApply "HQ"; [done|]. iFrame.
    - cbn [fmap list_fmap hd]. rewrite fmap_app fmap_cons. iApply wp_get_next_at. iFrame "Hr". iIntros "Hr".
      iApply "HQ"; [done|]. iFrame. }
  iApply wp_bind. iApply Hnext. iFrame "Hts". iIntros (n) "%Hn Hts".
  iDestruct (IH fuel (past ++ [x]) (fire g x) n with "[$Hts $Hd]") as "Hwp";
    rewrite -?app_assoc; [done|done|rewrite length_app /=; lia|cbn in Hfuel; lia|done|].
  iApply (wp_wand with "Hwp"). iIntros (r g') "H". iFrame.
Qed.

Lemma wp_bt_timer_func F ts g Q :
  wf_timers ts -> StronglySorted increasing ts -> (length ts < F)%nat ->
  timers tl ts ∗ (timers tl (tick ts) -∗ ([∗ list] x ∈ ts, detached x) -∗ Q tt (foldl fire g ts))
  ⊢ wp (bt_timer_func tl run F) g Q.
Proof.
  intros Hwf Hs HF. iIntros "[[Hr Hts] HQ]". rewrite /bt_timer_func /list_for_each_entry_safe.
  iApply wp_bind. iApply wp_bind. iApply wp_get_next_head. iFrame "Hr". iIntros "Hr".
  assert (Hnext : ∀ R, dlist tl (fst <$> ts) ∗
    (∀ n, ⌜⌜match ts with [] => True | _ :: ts' => n = obj_ptr (hd tl (fst <$> ts')) end⌝⌝ -∗
      dlist tl (fst <$> ts) -∗ R n g)
    ⊢ wp (get_next (obj_ptr (hd tl (fst <$> ts)))) g R).
  { intros R. iIntros "[Hr HR]". destruct ts as [|y ts].
    - iApply wp_get_next_head. iFrame "Hr". iIntros "Hr". by iApply "HR".
    - cbn [fmap list_fmap hd]. iApply (wp_get_next_at _ []). iFrame "Hr". iIntros "Hr". by iApply "HR". }
  iApply wp_bind. iApply Hnext. iFrame "Hr". iIntros (n) "%Hn Hr".
  iDestruct (wp_bt_timer_func_from F F [] ts g n with "[Hr Hts]") as "Hwp"; [done..| |].
  { cbn. by iFrame. }
  iApply (wp_wand with "Hwp"). iIntros (r g') "(%H & Hts & Hd)". destruct H as [-> ->]. wp_step.
  iApply ("HQ" with "Hts Hd").
Qed.

(** *** Two repeating timers of the same short interval *)

(** A timer that fires at every visit. *)
Definition restless (x : timer) : Prop :=
  0 <= interval x <= 1 ∧ tm_elapse (snd x) = 0 ∧ single x = false.

Lemma restless_expired x : restless x -> expired x = true.
Proof.
  intros (Hi & He & _). rewrite /expired /elapsed He. change (u32 (0 + 1)) with 1. apply Z.leb_le. lia.
Qed.

Lemma wpo_bt_timer_func_from F fuel a b g :
  (1 < F)%nat -> restless a -> restless b -> interval a = interval b ->
  timers tl [a; b]
  ⊢ wpo (list_for_each_safe_from fuel (obj_ptr (fst a)) (obj_ptr (fst b)) (obj_ptr tl)
           (bt_timer_visit tl run F)) g.
Proof.
  intros HF. revert a b g. induction fuel as [|fuel IH]; intros a b g Ha Hb Hi.
  { apply wpo_no_fuel. }
  iIntros "Hts". iAssert ⌜fst a ≠ tl⌝%I as %Hne.
  { iDestruct "Hts" as "[Hr _]". iDestruct (dlist_NoDup with "Hr") as %Hnd. iPureIntro.
    apply NoDup_cons in Hnd as [Hnin _]. set_solver. }
  cbn [list_for_each_safe_from]. rewrite bool_decide_false; last (by intros [=]).
  pose proof Ha as (Hia & _ & Hsa). iApply wpo_bind.
  iDestruct (wp_bt_timer_visit F [] a [b] g with "Hts") as "Hwp"; [lia|done|].
  iApply (wp_wand with "Hwp"). iIntros (r g') "(%H & Hts & Hd)". destruct H as [-> _].
  rewrite /visited /detached restless_expired // Hsa. cbn [app insert_timer andb].
  rewrite (proj2 (Z.ltb_ge (interval (reset a)) (interval b))); last (change (interval (reset a)) with (interval a); lia).
  iClear "Hd". iDestruct "Hts" as "[Hr Hts]". iApply wpo_bind.
  iApply (wp_get_next_at tl [] (fst b) [fst a]). iFrame "Hr". iIntros "Hr". cbn [hd].
  iApply (IH b (reset a)); [done|done|done|]. iFrame.
Qed.

Lemma wpo_bt_timer_func F a b g :
  (1 < F)%nat -> restless a -> restless b -> interval a = interval b ->
  timers tl [a; b] ⊢ wpo (bt_timer_func tl run F) g.
Proof.
  intros HF Ha Hb Hi. iIntros "[Hr Hts]". rewrite /bt_timer_func /list_for_each_entry_safe.
  iApply wpo_bind_l. iApply wpo_bind. iApply wp_get_next_head. iFrame "Hr". iIntros "Hr". iApply wpo_bind.
  iApply (wp_get_next_at tl [] (fst a) [fst b]). iFrame "Hr". iIntros "Hr".
  iApply (wpo_bt_timer_func_from F F a b); [done..|]. iFrame.
Qed.

End tick.
