(* ===== verification/TimerCorrect.v ===== *)
(** * src/bt_timer.c: correctness *)

From iris.proofmode Require Import environments proofmode.
From S2P Require Import Prelude CTypes HProp CMem CWp CLib DList Timer TimerSpec.
Set Warnings "-rewrite-rw".
Open Scope Z_scope.

(** ** The start of the timers *)

Section init.
Context (tl : loc).

Lemma wp_bt_timer_init (st : bt_timer_list) n p g Q :
  tl ↦ st ∗ tl ↦ₙ (n, p) ∗
  (∀ r st' g', ⌜⌜oom g' = oom g ∧ tl_num st' = 0⌝⌝ -∗ tl ↦ st' -∗ timers tl [] -∗ Q r g')
  ⊢ wp (bt_timer_init tl) g Q.
Proof.
  iIntros "(Hst & Hn & HQ)". rewrite /bt_timer_init. cbv zeta. wp_steps.
  iApply wp_bind. iApply wp_INIT_LIST_HEAD.
  iFrame "Hn". iIntros "Hr". iApply wp_bind. iApply wp_syscall. wp_steps.
  iAssert (timers tl [])%I with "[Hr]" as "Hts". { rewrite /timers /dlist /=. by iFrame. }
  case_match.
  - wp_step. iApply ("HQ" with "[%] Hst Hts"). split; [apply after_call_oom|done].
  - wp_steps. iApply wp_syscall. iApply ("HQ" with "[%] Hst Hts"). split; [by rewrite !after_call_oom|done].
Qed.

(** Two timers in a fresh list. *)
Lemma wp_two_timers F f1 d1 f2 d2 i type (st : bt_timer_list) n p g Q :
  oom g = [] -> (1 < F)%nat -> 0 <= i < 2 ^ 32 ->
  tl ↦ st ∗ tl ↦ₙ (n, p) ∗
  (∀ l1 l2 (st' : bt_timer_list) g', tl ↦ st' -∗
     timers tl [(l1, BtTimer 0 f1 d1 type i 0); (l2, BtTimer 1 f2 d2 type i 0)] -∗ Q tt g')
  ⊢ wp (_ ← bt_timer_init tl;
        _ ← bt_timer_add tl F f1 d1 i type;
        _ ← bt_timer_add tl F f2 d2 i type;
        mret tt) g Q.
Proof.
  intros Hoom HF Hi. iIntros "(Hst & Hn & HQ)". iApply wp_bind. iApply wp_bt_timer_init. iFrame "Hst Hn".
  iIntros (r st' g') "%H Hst Hts". destruct H as [Hoom' Hnum]. rewrite Hoom in Hoom'.
  iApply wp_bind. iApply (wp_bt_timer_add tl F f1 d1 i type st' []); [done|done|cbn; lia|lia|]. iFrame "Hst Hts".
  iIntros (l1) "Hst Hts". rewrite Hnum. change (u32 0) with 0. cbn [insert_timer].
  iApply wp_bind. iApply (wp_bt_timer_add tl F f2 d2 i type (with_num 1 st') [_]); [done|done|cbn; lia|done|].
  iFrame "Hst Hts".
  iIntros (l2) "Hst Hts". wp_step. cbn [tl_num with_num insert_timer interval snd tm_interval].
  rewrite Z.ltb_irrefl. change (u32 (0 + 1)) with 1. iApply ("HQ" with "Hst Hts").
Qed.

End init.

(** ** Release of all timers *)

Lemma wp_bt_timer_finit tl F st ts g Q :
  (length ts < F)%nat ->
  tl ↦ st ∗ timers tl ts ∗
  (tl ↦ no_timer_list -∗ tl ↦ₙ (PNull, PNull) -∗ Q tt (after_call "signal" [SIGALRM; tl_old_sigfunc st] g))
  ⊢ wp (bt_timer_finit tl F) g Q.
Proof.
  intros HF. iIntros "(Hst & [Hr Hts] & HQ)". rewrite /bt_timer_finit. cbv zeta. wp_step. iApply wp_bind.
  iApply wp_syscall. set (g1 := after_call _ _ _). iApply wp_bind.
  iApply (wp_wand with "[Hr Hts]").
  { iApply (wp_list_for_each_entry_unlink F tl (fst <$> ts) _
      (fun ls g' => ∃ us, ⌜⌜ls = fst <$> us ∧ g' = g1⌝⌝ ∗ [∗ list] x ∈ us, is_timer x)%I);
      [by rewrite length_fmap| |].
    - intros l ls g'. iIntros "(Hr & (%us & %H & Hus))". destruct H as [Hls ->].
      destruct us as [|x us]; [done|]. injection Hls as -> ->. rewrite big_sepL_cons.
      iDestruct "Hus" as "[Hx Hus]". iApply wp_bind. iApply (wp_bt_timer_del tl [] x us).
      rewrite /timers. cbn [app]. rewrite fmap_cons big_sepL_cons. iFrame "Hr Hx Hus".
      iIntros "[Hr Hus]". wp_step. iSplitR; [done|]. iFrame "Hr". iExists us. by iFrame.
    - iFrame "Hr". iExists ts. by iFrame. }
  iIntros (r g') "(_ & Hr & (%us & %H & Hus))". destruct H as [Hus ->]. destruct us; [|done].
  rewrite big_sepL_nil /dlist ring_cons. iDestruct "Hr" as "[Hh _]". wp_steps.
  iApply ("HQ" with "Hst Hh").
Qed.

(** A single-shot timer that has fired. *)
Definition detached_timer (l : loc) (x : bt_timer) : hProp :=
  (l ↦ x ∗ l ↦ₙ (LIST_POISON1, LIST_POISON2))%I.

(** ** Properties *)

(** C9: adding a timer to a list ordered by interval gives a list ordered by
    interval that has the new timer, with its parameters, a fresh id and no time
    elapsed, after every timer whose interval is not longer; no other timer
    changes. *)
Theorem bt_timer_add_ordered tl F func data i type st ts g :
  oom g = [] -> 0 <= i < 2 ^ 32 -> (length ts < F)%nat -> tl_num st ≠ 2 ^ 31 - 1 ->
  Sorted by_interval ts ->
  triple (tl ↦ st ∗ timers tl ts)%I g (bt_timer_add tl F func data i type)
    (fun r g' => ∃ l us vs, let x := (l, BtTimer (u32 (tl_num st)) func data type i 0) in
       ⌜⌜r = obj_ptr l ∧ g' = g ∧ ts = us ++ vs ∧ Sorted by_interval (us ++ x :: vs)
         ∧ Forall (fun y => interval y <= i) us ∧ Forall (fun y => i < interval y) vs⌝⌝
       ∗ tl ↦ with_num (tl_num st + 1) st ∗ timers tl (us ++ x :: vs))%I.
Proof.
  intros Hoom Hi HF Hnum Hs. apply triple_wp. iIntros "[Hst Hts]".
  iApply (wp_bt_timer_add tl F func data i type st ts); [done..|]. iFrame "Hst Hts". iIntros (l) "Hst Hts".
  set (x := (l, BtTimer (u32 (tl_num st)) func data type i 0)).
  destruct (insert_timer_split x ts) as (us & vs & Hts & Hins & Hus & Hvs).
  iExists l, us, vs. fold x. rewrite Hins. iFrame. iPureIntro. split_and!; [done|done|done| |done|].
  - rewrite -Hins. by apply insert_timer_sorted.
  - destruct vs as [|v vs]; [done|]. constructor; [done|]. apply Forall_forall. intros y Hy.
    assert (Htr : Transitive by_interval) by (intros a b c; rewrite /by_interval; lia).
    apply Sorted_StronglySorted in Hs; [|done]. rewrite Hts in Hs.
    apply StronglySorted_app in Hs as (_ & _ & Hs). apply StronglySorted_inv in Hs as [_ Hs].
    rewrite Forall_forall in Hs. specialize (Hs y Hy). rewrite /by_interval in Hs. cbn in Hvs. lia.
Qed.

Lemma bt_timer_add_ordered_witness :
  let ts := [(5%positive, BtTimer 0 2 PNull 1 3 0)] in
  let st := with_num 1 no_timer_list in
  triple (1%positive ↦ st ∗ timers 1 ts)%I quiet_globals (bt_timer_add 1 5 7 PNull 4 0)
    (fun r g' => ∃ l us vs, let x := (l, BtTimer 1 7 PNull 0 4 0) in
       ⌜⌜r = obj_ptr l ∧ g' = quiet_globals ∧ ts = us ++ vs ∧ Sorted by_interval (us ++ x :: vs)
         ∧ Forall (fun y => interval y <= 4) us ∧ Forall (fun y => 4 < interval y) vs⌝⌝
       ∗ 1%positive ↦ with_num 2 st ∗ timers 1 (us ++ x :: vs))%I.
Proof.
  apply (bt_timer_add_ordered 1 5 7 PNull 4 0 (with_num 1 no_timer_list)
           [(5%positive, BtTimer 0 2 PNull 1 3 0)] quiet_globals);
    [reflexivity|lia|cbn; lia|cbn; lia|repeat constructor].
Defined.

(** Restarting a timer that is in the list clears its elapsed time, moves
    it behind the timers of the same interval and keeps the list ordered. *)
Theorem bt_timer_update_ordered tl F us x vs g :
  wf_timers (us ++ x :: vs) -> (length (us ++ vs) < F)%nat -> Sorted by_interval (us ++ x :: vs) ->
  triple (timers tl (us ++ x :: vs)) g (bt_timer_update tl F (obj_ptr (fst x)))
    (fun _ g' => ∃ ts, ⌜⌜g' = g ∧ ts ≡ₚ reset x :: us ++ vs ∧ Sorted by_interval ts⌝⌝ ∗ timers tl ts)%I.
Proof.
  intros Hwf HF Hs. apply triple_wp. iIntros "Hts".
  assert (Hx : 0 <= interval x < 2 ^ 32).
  { apply Forall_app in Hwf as [_ Hwf]. by apply Forall_cons in Hwf as [Hwf _]. }
  iApply (wp_bt_timer_update tl F us x vs); [done..|]. iFrame "Hts". iIntros "Hts".
  iExists _. iFrame. iPureIntro. split_and!; [done|apply insert_timer_perm|].
  by eapply insert_timer_sorted, remove_sorted.
Qed.

Lemma bt_timer_update_ordered_witness :
  let x := (5%positive, BtTimer 0 2 PNull 1 3 2) in
  let y := (6%positive, BtTimer 1 2 PNull 1 3 1) in
  triple (timers 1 ([] ++ x :: [y])) quiet_globals (bt_timer_update 1 5 (obj_ptr 5))
    (fun _ g' => ∃ ts, ⌜⌜g' = quiet_globals ∧ ts ≡ₚ reset x :: [] ++ [y] ∧ Sorted by_interval ts⌝⌝
       ∗ timers 1 ts)%I.
Proof.
  apply (bt_timer_update_ordered 1 5 [] (5%positive, BtTimer 0 2 PNull 1 3 2)
           [(6%positive, BtTimer 1 2 PNull 1 3 1)] quiet_globals);
    [repeat constructor; cbn; lia|cbn; lia|].
  repeat constructor. unfold by_interval. cbn. lia.
Defined.

(** C11: a tick of the clock over timers with different intervals visits each of
    them exactly once: every elapsed time grows by one, the callbacks of the
    expired timers run in the order of the list with their ids and data,
    repeating timers start again in their place, and single-shot timers leave
    the list (their memory stays allocated, the links poisoned). *)
Theorem bt_timer_func_ticks tl run call F ts g :
  (∀ f id d g Q, Q tt (call f id d g) ⊢ wp (run f id d) g Q) ->
  wf_timers ts -> StronglySorted increasing ts -> (length ts < F)%nat ->
  triple (timers tl ts) g (bt_timer_func tl run F)
    (fun _ g' => ⌜⌜g' = foldl (fire call) g ts⌝⌝ ∗ timers tl (tick ts) ∗ [∗ list] x ∈ ts, detached x)%I.
Proof.
  intros Hrun Hwf Hs HF. apply triple_wp. iIntros "Hts".
  iApply (wp_bt_timer_func tl run call Hrun F ts g); [done..|]. iFrame "Hts". iIntros "Hts Hd". by iFrame.
Qed.

(** A callback that writes its id. *)
Definition log_id (f : fn) (id : Z) (d : ptr) : M unit := g ← get_env; put_env (add_out [id] g).

Lemma bt_timer_func_ticks_witness :
  let ts := [(5%positive, BtTimer 0 2 PNull 1 1 0); (6%positive, BtTimer 1 2 PNull 0 3 2)] in
  triple (timers 1 ts) quiet_globals (bt_timer_func 1 log_id 9)
    (fun _ g' => ⌜⌜g' = foldl (fire (fun _ id _ => add_out [id])) quiet_globals ts⌝⌝
       ∗ timers 1 (tick ts) ∗ [∗ list] x ∈ ts, detached x)%I.
Proof.
  apply (bt_timer_func_ticks 1 log_id (fun _ id _ => add_out [id]) 9).
  - intros f id d g Q. rewrite /log_id. iIntros "HQ". wp_steps. done.
  - repeat constructor; cbn; lia.
  - repeat constructor; unfold increasing; cbn; lia.
  - cbn. lia.
Defined.

(** C12: two repeating timers of one second, added to a fresh list, make the
    signal handler run forever at its first tick: however much fuel the loop is
    given, it does not end. *)
Theorem bt_timer_func_diverges tl run call F f1 d1 f2 d2 st n p g :
  (∀ f id d g Q, Q tt (call f id d g) ⊢ wp (run f id d) g Q) ->
  oom g = [] -> (1 < F)%nat ->
  runs_out (tl ↦ (st : bt_timer_list) ∗ tl ↦ₙ (n, p))%I g
    (_ ← (_ ← bt_timer_init tl;
          _ ← bt_timer_add tl F f1 d1 1 BT_TIMER_REPEAT;
          _ ← bt_timer_add tl F f2 d2 1 BT_TIMER_REPEAT;
          mret tt);
     bt_timer_func tl run F).
Proof.
  intros Hrun Hoom HF. apply runs_out_wpo. iIntros "[Hst Hn]". iApply wpo_bind.
  iApply (wp_two_timers tl F f1 d1 f2 d2 1 BT_TIMER_REPEAT st n p); [done|done|lia|]. iFrame "Hst Hn".
  iIntros (l1 l2 st' g') "Hst Hts". iApply wpo_frame. iSplitL "Hts"; [|iExact "Hst"].
  iApply (wpo_bt_timer_func tl run call Hrun F with "Hts"); [done|by split_and!|by split_and!|done].
Qed.

Lemma bt_timer_func_diverges_witness :
  runs_out (1%positive ↦ no_timer_list ∗ 1%positive ↦ₙ (PNull, PNull))%I quiet_globals
    (_ ← (_ ← bt_timer_init 1;
          _ ← bt_timer_add 1 100 2 PNull 1 BT_TIMER_REPEAT;
          _ ← bt_timer_add 1 100 3 PNull 1 BT_TIMER_REPEAT;
          mret tt);
     bt_timer_func 1 log_id 100).
Proof.
  apply (bt_timer_func_diverges 1 log_id (fun _ id _ => add_out [id]) 100).
  - intros f id d g Q. rewrite /log_id. iIntros "HQ". wp_steps. done.
  - reflexivity.
  - lia.
Defined.

(** C13: shutting the timers down restores the old signal handler, releases
    every timer in the list and clears the static variable: no memory but the
    variable itself is left. *)
Theorem bt_timer_finit_releases tl F st ts g :
  (length ts < F)%nat ->
  triple (tl ↦ st ∗ timers tl ts)%I g (bt_timer_finit tl F)
    (fun _ g' => ⌜⌜syslog g' = syslog g ++ [("signal"%string, [SIGALRM; tl_old_sigfunc st])]⌝⌝
       ∗ tl ↦ no_timer_list ∗ tl ↦ₙ (PNull, PNull))%I.
Proof.
  intros HF. apply triple_wp. iIntros "[Hst Hts]". iApply (wp_bt_timer_finit tl F st ts); [done|].
  iFrame "Hst Hts". iIntros "Hst Hn". iFrame. iPureIntro. rewrite /after_call.
  destruct (replies _ _) as [r e]. by destruct (r =? -1).
Qed.

Lemma bt_timer_finit_releases_witness :
  triple (1%positive ↦ no_timer_list ∗ timers 1 [(5%positive, BtTimer 0 2 PNull 1 3 0)])%I quiet_globals
    (bt_timer_finit 1 5)
    (fun _ g' => ⌜⌜syslog g' = [] ++ [("signal"%string, [SIGALRM; 0])]⌝⌝
       ∗ 1%positive ↦ no_timer_list ∗ 1%positive ↦ₙ (PNull, PNull))%I.
Proof.
  apply (bt_timer_finit_releases 1 5 no_timer_list [(5%positive, BtTimer 0 2 PNull 1 3 0)] quiet_globals).
  cbn. lia.
Defined.

(** Restarting a single-shot timer after it fired follows the poisoned
    links of its node: it is undefined behaviour, whatever the list holds. *)
Theorem bt_timer_update_after_fire tl F l x g :
  faults (detached_timer l x) g (bt_timer_update tl F (obj_ptr l)) WildPtr.
Proof.
  apply faults_wpf, wpf_run. intros H Hcell.
  assert (Hn : H !! (l, FNode) = Some (CNode (ListHead LIST_POISON1 LIST_POISON2))).
  { apply Hcell. rewrite /detached_timer. iIntros "[_ $]". }
  by rewrite /bt_timer_update /list_del /get_prev /get_next /__list_del /set_prev /load_node /with_obj
    /mbind /M_bind /= Hn /= Hn.
Qed.
