(* ===== verification/PeerMsg.v ===== *)
(** * src/peer_message.c: the messages of the peer protocol

    Composition of the messages of the BitTorrent peer protocol in
    [struct b_string] objects, and the dispatch of a received one.  A message is
    built in front of its payload, in space that was reserved for it, or in a
    new block. *)

From iris.proofmode Require Import environments proofmode.
From S2P Require Import Prelude CTypes HProp CMem CWp CLib Trace DList BParse Timer.
Set Warnings "-rewrite-rw".
Open Scope Z_scope.

Definition HANDSHAKE_MESSAGE_LEN : Z := 68.
Definition DEFAULT_PSTRLEN : Z := 19.
Definition DEFAULT_PSTR : list Z := str "BitTorrent protocol".
Definition RESERVED_LEN : Z := 8.
Definition HASH_LEN : Z := 20.
Definition PEER_ID_LEN : Z := 20.
Definition MSG_ID_LEN : Z := 1.
Definition LEN_PREFIX : Z := 4.

Definition PEER_MESSAGE_KEEP_ALIVE : Z := 0.
Definition PEER_MESSAGE_CHOKE : Z := 0.
Definition PEER_MESSAGE_UNCHOCKE : Z := 1.
Definition PEER_MESSAGE_INTERESTED : Z := 2.
Definition PEER_MESSAGE_NOT_INTERESTED : Z := 3.
Definition PEER_MESSAGE_HAVE : Z := 4.
Definition PEER_MESSAGE_BITFIELD : Z := 5.
Definition PEER_MESSAGE_REQUEST : Z := 6.
Definition PEER_MESSAGE_PIECE : Z := 7.
Definition PEER_MESSAGE_CANCEL : Z := 8.
Definition PEER_MESSAGE_PORT : Z := 9.

(** memcpy() from a local variable with these bytes. *)
Definition put_bytes (dst : ptr) (bs : list Z) : M unit := write_bytes dst (Some <$> bs).

Definition generate_handshake_message (info_hash peer_id : ptr) : M ptr :=
  if negb (is_null info_hash) && negb (is_null peer_id) then
    p ← b_string_alloc;
    if negb (is_null p) then
      buf ← malloc_bytes HANDSHAKE_MESSAGE_LEN;
      _ ← b_string_set_head p buf;
      _ ← b_string_set p buf;
      _ ← memset buf 0 HANDSHAKE_MESSAGE_LEN;
      _ ← put_byte buf DEFAULT_PSTRLEN;
      q ← ptr_add buf 1;
      _ ← put_bytes q DEFAULT_PSTR;
      q ← ptr_add buf (1 + DEFAULT_PSTRLEN);
      _ ← memset q 0 RESERVED_LEN;
      q ← ptr_add buf (1 + DEFAULT_PSTRLEN + RESERVED_LEN);
      _ ← memcpy q info_hash HASH_LEN;
      q ← ptr_add buf (1 + DEFAULT_PSTRLEN + RESERVED_LEN + HASH_LEN);
      _ ← memcpy q peer_id PEER_ID_LEN;
      _ ← b_string_set_length p HANDSHAKE_MESSAGE_LEN;
      mret p
    else mret PNull
  else mret PNull.

(** The space in front of the payload: what was reserved, or a new block. *)
Definition prefix_space (len_prefix msg_id_len : Z) (payload : ptr) : M ptr :=
  d ← b_string_get payload;
  h ← b_string_get_head payload;
  n ← ptr_sub d h;
  if LEN_PREFIX + msg_id_len <? n then
    d ← b_string_get payload;
    ptr_add d (- (LEN_PREFIX + msg_id_len))
  else
    b ← b_string_get payload;
    buf ← malloc_bytes (u32 (len_prefix + LEN_PREFIX));
    q ← ptr_add buf (LEN_PREFIX + msg_id_len);
    _ ← memcpy q b len_prefix;
    b ← b_string_get_head payload;
    _ ← free b;
    _ ← b_string_set_head payload buf;
    q ← ptr_add buf (LEN_PREFIX + msg_id_len);
    _ ← b_string_set payload q;
    mret buf.

Definition set_prefix_and_msgid (len_prefix message_id : Z) (payload : ptr) : M ptr :=
  let msg_id_len := if len_prefix =? 0 then 0 else MSG_ID_LEN in
  '(p, buf) ← (if negb (is_null payload) then
                 buf ← prefix_space len_prefix msg_id_len payload;
                 mret (payload, buf)
               else
                 buf ← malloc_bytes (u32 (len_prefix + LEN_PREFIX));
                 p ← b_string_alloc_reserved buf (u32 (len_prefix + LEN_PREFIX)) 0;
                 mret (p, buf));
  _ ← put_bytes buf (be32 len_prefix);
  _ ← (if negb (len_prefix =? 0) then
         q ← ptr_add buf LEN_PREFIX;
         put_byte q message_id
       else mret tt);
  _ ← b_string_set p buf;
  _ ← b_string_set_length p (len_prefix + LEN_PREFIX);
  mret p.

Definition generate_keep_alive_message : M ptr := set_prefix_and_msgid 0 PEER_MESSAGE_KEEP_ALIVE PNull.

Definition generate_choke_message : M ptr := set_prefix_and_msgid MSG_ID_LEN PEER_MESSAGE_CHOKE PNull.

Definition generate_unchoke_message : M ptr := set_prefix_and_msgid MSG_ID_LEN PEER_MESSAGE_UNCHOCKE PNull.

Definition generate_interested_message : M ptr :=
  set_prefix_and_msgid MSG_ID_LEN PEER_MESSAGE_INTERESTED PNull.

Definition generate_not_interested_message : M ptr :=
  set_prefix_and_msgid MSG_ID_LEN PEER_MESSAGE_NOT_INTERESTED PNull.

Definition generate_have_message (piece_index : Z) : M ptr :=
  buf ← malloc_bytes (LEN_PREFIX + MSG_ID_LEN + 4);
  p ← b_string_alloc_reserved buf 4 (LEN_PREFIX + MSG_ID_LEN);
  buf ← b_string_get p;
  _ ← put_bytes buf (be32 piece_index);
  set_prefix_and_msgid (MSG_ID_LEN + 4) PEER_MESSAGE_HAVE p.

Definition generate_bitfield_message (bitfield_len : Z) (bitfield : ptr) : M ptr :=
  buf ← malloc_bytes (u32 (LEN_PREFIX + MSG_ID_LEN + bitfield_len));
  p ← b_string_alloc_reserved buf bitfield_len (LEN_PREFIX + MSG_ID_LEN);
  buf ← b_string_get p;
  _ ← memcpy buf bitfield bitfield_len;
  set_prefix_and_msgid (u32 (MSG_ID_LEN + bitfield_len)) PEER_MESSAGE_BITFIELD p.

Definition generate_request_message (piece_index begin slice_len : Z) : M ptr :=
  buf ← malloc_bytes (LEN_PREFIX + MSG_ID_LEN + 12);
  p ← b_string_alloc_reserved buf 12 (LEN_PREFIX + MSG_ID_LEN);
  buf ← b_string_get p;
  _ ← put_bytes buf (be32 piece_index ++ be32 begin ++ be32 slice_len);
  set_prefix_and_msgid (12 + MSG_ID_LEN) PEER_MESSAGE_REQUEST p.

Definition generate_piece_message (piece_index begin slice_len : Z) (p : ptr) : M ptr :=
  d ← b_string_get p;
  h ← b_string_get_head p;
  n ← ptr_sub d h;
  if n <? 8 + MSG_ID_LEN + LEN_PREFIX then
    _ ← TRACE_ERROR "generate_piece_message" 173
          (mret (str "No enough reserved space for overheads info" ++ [ch_nl]));
    _ ← b_string_free p;
    mret PNull
  else
    buf ← b_string_get p;
    buf ← ptr_add buf (-8);
    _ ← put_bytes buf (be32 piece_index);
    q ← ptr_add buf 4;
    _ ← put_bytes q (be32 begin);
    _ ← b_string_set p buf;
    len ← b_string_get_length p;
    _ ← b_string_set_length p (len + 8);
    set_prefix_and_msgid (u32 (slice_len + MSG_ID_LEN + 8)) PEER_MESSAGE_PIECE p.

Definition generate_cancel_message (piece_index begin slice_len : Z) : M ptr :=
  buf ← malloc_bytes (LEN_PREFIX + MSG_ID_LEN + 12);
  p ← b_string_alloc_reserved buf 12 (LEN_PREFIX + MSG_ID_LEN);
  buf ← b_string_get p;
  _ ← put_bytes buf (be32 piece_index ++ be32 begin ++ be32 slice_len);
  set_prefix_and_msgid (12 + MSG_ID_LEN) PEER_MESSAGE_CANCEL p.

Definition generate_port_message (port : Z) : M ptr :=
  buf ← malloc_bytes (LEN_PREFIX + MSG_ID_LEN + 2);
  p ← b_string_alloc_reserved buf 2 (LEN_PREFIX + MSG_ID_LEN);
  buf ← b_string_get p;
  _ ← put_bytes buf (be16 port);
  set_prefix_and_msgid (MSG_ID_LEN + 2) PEER_MESSAGE_PORT p.

(** send(): the bytes are read from memory; they go into the record of calls. *)
Definition sys_send (fd : Z) (buf : ptr) (len flags : Z) : M Z :=
  ds ← read_bytes buf (u64 len);
  match all_init ds with
  | Some bs => syscall "send" (fd :: flags :: bs)
  | None => fail Indeterminate
  end.

Definition send_message (send_fd : Z) (p : ptr) : M Z :=
  d ← b_string_get p;
  len ← b_string_get_length p;
  ret ← sys_send send_fd d len 0;
  if ret =? -1 then
    _ ← TRACE_ERROR "send_message" 216
          (g ← get_env; mret (str "Send Message error: errno(" ++ dec (errno g) ++ str ")" ++ [ch_nl]));
    mret (-1)
  else mret 0.

Section deal.
Context (timer_list : loc).

Definition deal_keep_alive (fuel : nat) (p : ptr) : M unit :=
  x ← load peer_mgnt p;
  bt_timer_update timer_list fuel (pm_rcv_keep_alive x).

(** The other types of message have no action yet. *)
Definition deal_message (fuel : nat) (p string : ptr) : M Z :=
  len ← b_string_get_length string;
  let len_prefix := u32 (len - 4) in
  d ← b_string_get string;
  q ← ptr_add d 4;
  c ← get_byte q;
  let type := s8 c in
  _ ← (if type =? PEER_MESSAGE_KEEP_ALIVE then
         if negb (len_prefix =? 0) then mret tt else deal_keep_alive fuel p
       else mret tt);
  mret 0.

End deal.
