(* ===== verification/PeerSpec.v ===== *)
(** * The peer protocol on the wire

    The messages of the protocol, their encoding and decoding, and the
    specifications of the functions of src/peer_message.c with respect to them. *)

From iris.proofmode Require Import environments proofmode.
From S2P Require Import Prelude CTypes HProp CMem CWp CLib Trace DList BParse Timer PeerMsg.
Set Warnings "-rewrite-rw".
Open Scope Z_scope.

(** ** Messages *)

Inductive message :=
| KeepAlive
| Choke
| Unchoke
| Interested
| NotInterested
| Have (index : Z)
| Bitfield (bits : list Z)
| Request (index begin len : Z)
| Piece (index begin : Z) (block : list Z)
| Cancel (index begin len : Z)
| Port (port : Z).

Definition framed (id : Z) (payload : list Z) : list Z :=
  be32 (1 + Z.of_nat (length payload)) ++ id :: payload.

Definition wire (m : message) : list Z :=
  match m with
  | KeepAlive => be32 0
  | Choke => framed 0 []
  | Unchoke => framed 1 []
  | Interested => framed 2 []
  | NotInterested => framed 3 []
  | Have i => framed 4 (be32 i)
  | Bitfield bs => framed 5 bs
  | Request i b l => framed 6 (be32 i ++ be32 b ++ be32 l)
  | Piece i b bs => framed 7 (be32 i ++ be32 b ++ bs)
  | Cancel i b l => framed 8 (be32 i ++ be32 b ++ be32 l)
  | Port p => framed 9 (be16 p)
  end.

Definition word (bs : list Z) (o : nat) : Z := of_be (take 4 (drop o bs)).

(** What a message with this identifier and payload says. *)
Definition payload_message (id : Z) (p : list Z) : option message :=
  match id, length p with
  | 0, 0%nat => Some Choke
  | 1, 0%nat => Some Unchoke
  | 2, 0%nat => Some Interested
  | 3, 0%nat => Some NotInterested
  | 4, 4%nat => Some (Have (word p 0))
  | 5, _ => Some (Bitfield p)
  | 6, 12%nat => Some (Request (word p 0) (word p 4) (word p 8))
  | 7, S (S (S (S (S (S (S (S _))))))) => Some (Piece (word p 0) (word p 4) (drop 8 p))
  | 8, 12%nat => Some (Cancel (word p 0) (word p 4) (word p 8))
  | 9, 2%nat => Some (Port (of_be p))
  | _, _ => None
  end.

(** Reading one message from the front of a stream. *)
Definition decode (bs : list Z) : option (message * list Z) :=
  if (length bs <? 4)%nat then None
  else
    let n := Z.to_nat (word bs 0) in
    let body := take n (drop 4 bs) in
    if (length body <? n)%nat then None
    else
      match body with
      | [] => Some (KeepAlive, drop 4 bs)
      | id :: p => option_map (fun m => (m, drop (4 + n) bs)) (payload_message id p)
      end.

(** What fits the fields of the protocol. *)
Definition u32_ok (n : Z) : Prop := 0 <= n < 2 ^ 32.
Definition fits_wire (m : message) : Prop :=
  match m with
  | Have i => u32_ok i
  | Bitfield bs => Z.of_nat (length bs) < 2 ^ 32 - 5
  | Request i b l | Cancel i b l => u32_ok i ∧ u32_ok b ∧ u32_ok l
  | Piece i b bs => u32_ok i ∧ u32_ok b ∧ Z.of_nat (length bs) < 2 ^ 32 - 13
  | Port p => 0 <= p < 2 ^ 16
  | _ => True
  end.

Lemma word_be32 n pre post : u32_ok n -> word (pre ++ be32 n ++ post) (length pre) = n.
Proof. intros Hn. rewrite /word drop_app_length. by apply of_be_be32. Qed.

Lemma decode_framed id p rest m :
  Z.of_nat (length p) < 2 ^ 32 - 1 -> payload_message id p = Some m ->
  decode (framed id p ++ rest) = Some (m, rest).
Proof.
  intros Hp Hm. rewrite /decode. set (bs := framed id p ++ rest).
  assert (Hw : word bs 0 = 1 + Z.of_nat (length p)).
  { rewrite /bs /framed -app_assoc. apply (word_be32 _ []). rewrite /u32_ok. lia. }
  assert (Hd : drop 4 bs = id :: p ++ rest) by done.
  assert (Hlen : (length bs <? 4)%nat = false).
  { apply Nat.ltb_ge. rewrite /bs /framed !length_app /=. lia. }
  rewrite Hlen Hw Hd. replace (Z.to_nat (1 + Z.of_nat (length p))) with (S (length p)) by lia.
  cbn [take]. rewrite take_app_length. cbn [length]. rewrite Nat.ltb_irrefl Hm. cbn [option_map].
  do 2 f_equal. rewrite -drop_drop Hd. cbn [drop]. apply drop_app_length.
Qed.

(** The words of a payload. *)
Lemma words2 i b rest : u32_ok i -> u32_ok b ->
  word (be32 i ++ be32 b ++ rest) 0 = i ∧ word (be32 i ++ be32 b ++ rest) 4 = b.
Proof.
  intros Hi Hb. split; [by apply (word_be32 i [])|].
  by apply (word_be32 b (be32 i)).
Qed.

Lemma words3 i b l : u32_ok i -> u32_ok b -> u32_ok l ->
  let p := be32 i ++ be32 b ++ be32 l in word p 0 = i ∧ word p 4 = b ∧ word p 8 = l.
Proof.
  intros Hi Hb Hl p. destruct (words2 i b (be32 l)) as [H1 H2]; [done..|]. split_and!; [done|done|].
  rewrite /p (assoc_L (++)) -(right_id_L [] (++) (be32 l)).
  by apply (word_be32 l (be32 i ++ be32 b)).
Qed.

(** Decoding inverts encoding, so no two messages share a representation. *)
Lemma decode_wire m rest : fits_wire m -> decode (wire m ++ rest) = Some (m, rest).
Proof.
  destruct m as [| | | | |i|bs|i b l|i b bs|i b l|p]; cbn [fits_wire wire].
  - done.
  - intros _. by apply decode_framed.
  - intros _. by apply decode_framed.
  - intros _. by apply decode_framed.
  - intros _. by apply decode_framed.
  - intros Hi. apply decode_framed; [done|]. cbn. do 2 f_equal. by apply of_be_be32.
  - intros Hb. apply decode_framed; [lia|]. done.
  - intros (Hi & Hb & Hl). apply decode_framed; [done|].
    destruct (words3 i b l) as (H0 & H4 & H8); [done..|].
    transitivity (Some (Request (word (be32 i ++ be32 b ++ be32 l) 0) (word (be32 i ++ be32 b ++ be32 l) 4)
      (word (be32 i ++ be32 b ++ be32 l) 8))); [done|by rewrite H0 H4 H8].
  - intros (Hi & Hb & Hl). apply decode_framed; [rewrite !length_app; cbn; lia|].
    destruct (words2 i b bs) as (H0 & H4); [done..|].
    transitivity (Some (Piece (word (be32 i ++ be32 b ++ bs) 0) (word (be32 i ++ be32 b ++ bs) 4) bs));
      [done|by rewrite H0 H4].
  - intros (Hi & Hb & Hl). apply decode_framed; [done|].
    destruct (words3 i b l) as (H0 & H4 & H8); [done..|].
    transitivity (Some (Cancel (word (be32 i ++ be32 b ++ be32 l) 0) (word (be32 i ++ be32 b ++ be32 l) 4)
      (word (be32 i ++ be32 b ++ be32 l) 8))); [done|by rewrite H0 H4 H8].
  - intros Hp. apply decode_framed; [done|]. cbn -[of_be]. do 2 f_equal. by apply of_be_be16.
Qed.

(** ** Messages in memory *)

(** A string object whose characters are [bs]; they may be preceded by unused
    space, and the block may be larger. *)
Definition is_msg (l : loc) (bs : list Z) : hProp :=
  (∃ b pre tl, l ↦ BString PNull (PAt b (Z.of_nat (length pre))) (obj_ptr b) (Z.of_nat (length bs)) ∗
     b ↦ (pre ++ (Some <$> bs) ++ tl))%I.

(** A payload with [length pre] bytes of reserved space in front of it. *)
Definition has_payload (l b : loc) (len : Z) (pre : list mbyte) (p : list Z) (tl : list mbyte) : hProp :=
  (l ↦ BString PNull (PAt b (Z.of_nat (length pre))) (obj_ptr b) len ∗ b ↦ (pre ++ (Some <$> p) ++ tl))%I.

Section messages.
Implicit Types (l b : loc) (g : globals) (p : list Z) (pre tl : list mbyte).

Lemma wp_free_msg l bs g Q : is_msg l bs ∗ Q tt g ⊢ wp (b_string_free (obj_ptr l)) g Q.
Proof.
  iIntros "[(%b & %pre & %tl & Hl & Hb) HQ]". rewrite /b_string_free /is_null bool_decide_false //.
  wp_step. cbn [bs_head]. rewrite bool_decide_false //.
  iApply wp_bind. iApply (wp_free (T := list mbyte)). iFrame "Hb". iSplitR; [done|].
  iApply (wp_free (T := b_string)). by iFrame.
Qed.

Lemma wp_b_string_alloc_reserved b len r g Q :
  oom g = [] ->
  (∀ l, l ↦ BString PNull (PAt b r) (obj_ptr b) len -∗ Q (obj_ptr l) g)
  ⊢ wp (b_string_alloc_reserved (obj_ptr b) len r) g Q.
Proof.
  intros Hoom. iIntros "HQ". rewrite /b_string_alloc_reserved. iApply wp_bind.
  iApply wp_malloc; [done|]. iIntros (l) "Hl _". rewrite /is_null bool_decide_false //. wp_steps.
  by iApply "HQ".
Qed.

Lemma be32_length n : length (be32 n) = 4%nat.
Proof. done. Qed.

(** The end of set_prefix_and_msgid: the length, the identifier, and the new
    bounds of the string, written in front of [rest]. *)
Lemma wp_prefix_header l b len d h pre mid rest n id g Q :
  0 <= id < 256 -> 0 < n -> n + 4 < 2 ^ 32 -> length mid = 5%nat ->
  l ↦ BString PNull d h len ∗ b ↦ (pre ++ mid ++ rest) ∗
  (l ↦ BString PNull (PAt b (Z.of_nat (length pre))) h (n + 4) -∗
   b ↦ (pre ++ (Some <$> be32 n ++ [id]) ++ rest) -∗ Q (obj_ptr l) g)
  ⊢ wp (_ ← put_bytes (PAt b (Z.of_nat (length pre))) (be32 n);
        _ ← (q ← ptr_add (PAt b (Z.of_nat (length pre))) LEN_PREFIX; put_byte q id);
        _ ← b_string_set (obj_ptr l) (PAt b (Z.of_nat (length pre)));
        _ ← b_string_set_length (obj_ptr l) (n + LEN_PREFIX);
        mret (obj_ptr l)) g Q.
Proof.
  intros Hid Hn Hmax Hmid. iIntros "(Hl & Hb & HQ)".
  destruct mid as [|m0 [|m1 [|m2 [|m3 [|m4 [|]]]]]]; try done.
  iApply wp_bind. rewrite /put_bytes.
  iApply (wp_write_at b _ _ pre [m0; m1; m2; m3] (m4 :: rest)); [done|done|].
  iFrame "Hb". iIntros "Hb".
  iApply wp_bind. wp_step. rewrite /put_byte u8_small; [|lia].
  iEval (rewrite (app_assoc pre)) in "Hb".
  iApply (wp_write_at b _ _ (pre ++ (Some <$> be32 n)) [m4] rest); [rewrite length_app length_fmap /LEN_PREFIX /=; lia|done|].
  iFrame "Hb". iIntros "Hb". rewrite /b_string_set /b_string_set_length. wp_steps.
  cbn [bs_prev bs_data bs_head]. rewrite u32_small; [|rewrite /LEN_PREFIX; lia].
  iApply ("HQ" with "Hl"). rewrite fmap_app -!app_assoc. iFrame.
Qed.

Lemma framed_bytes id p (tl : list mbyte) :
  (Some <$> framed id p) ++ tl
  = (Some <$> be32 (1 + Z.of_nat (length p)) ++ [id]) ++ (Some <$> p) ++ tl.
Proof. by rewrite /framed (cons_middle id) !fmap_app -!app_assoc. Qed.

Lemma framed_length id p : Z.of_nat (length (framed id p)) = 1 + Z.of_nat (length p) + 4.
Proof. rewrite /framed length_app /=. lia. Qed.

(** Messages without a payload. *)
Lemma wp_set_prefix_new id g Q :
  oom g = [] -> 0 <= id < 256 ->
  (∀ l, is_msg l (framed id []) -∗ Q (obj_ptr l) g)
  ⊢ wp (set_prefix_and_msgid MSG_ID_LEN id PNull) g Q.
Proof.
  intros Hoom Hid. iIntros "HQ". rewrite /set_prefix_and_msgid.
  change (MSG_ID_LEN =? 0) with false. rewrite {1}/is_null bool_decide_true //. cbn [negb].
  change (u32 (MSG_ID_LEN + LEN_PREFIX)) with 5.
  iApply wp_bind. iApply wp_bind. iApply wp_malloc_bytes; [done|rewrite /PTRDIFF_MAX; lia|]. iIntros (b) "Hb".
  iApply wp_bind. iApply wp_b_string_alloc_reserved; [done|]. iIntros (l) "Hl". wp_step.
  change (Z.to_nat 5 + slack g)%nat with (5 + slack g)%nat. rewrite replicate_add.
  iApply (wp_prefix_header l b _ _ _ [] (replicate 5 None)); [done|done|done|done|]. iFrame "Hl Hb".
  iIntros "Hl Hb". iApply "HQ". iExists b, [], _. iFrame.
Qed.

Lemma wp_set_prefix_keep_alive id g Q :
  oom g = [] ->
  (∀ l b, l ↦ BString PNull (obj_ptr b) (obj_ptr b) 4 -∗
     b ↦ ((Some <$> be32 0) ++ replicate (slack g) None) -∗ Q (obj_ptr l) g)
  ⊢ wp (set_prefix_and_msgid 0 id PNull) g Q.
Proof.
  intros Hoom. iIntros "HQ". rewrite /set_prefix_and_msgid.
  change (0 =? 0) with true. rewrite {1}/is_null bool_decide_true //. cbn [negb].
  change (u32 (0 + LEN_PREFIX)) with 4.
  iApply wp_bind. iApply wp_bind. iApply wp_malloc_bytes; [done|rewrite /PTRDIFF_MAX; lia|]. iIntros (b) "Hb".
  iApply wp_bind. iApply wp_b_string_alloc_reserved; [done|]. iIntros (l) "Hl". wp_step.
  change (Z.to_nat 4 + slack g)%nat with (4 + slack g)%nat. rewrite replicate_add.
  iApply wp_bind. iApply (wp_write_at b 0 _ [] (replicate 4 None)); [done|done|]. iFrame "Hb". iIntros "Hb".
  rewrite /b_string_set /b_string_set_length. wp_steps. cbn [bs_prev bs_data bs_head].
  iApply ("HQ" with "Hl Hb").
Qed.

(** A payload with more than five bytes reserved is completed in place. *)
Lemma wp_set_prefix_in_place l b len pre p tl id g Q :
  0 <= id < 256 -> (5 < length pre)%nat -> 1 + Z.of_nat (length p) + 4 < 2 ^ 32 ->
  has_payload l b len pre p tl ∗ (is_msg l (framed id p) -∗ Q (obj_ptr l) g)
  ⊢ wp (set_prefix_and_msgid (1 + Z.of_nat (length p)) id (obj_ptr l)) g Q.
Proof.
  intros Hid Hpre Hlen. iIntros "[[Hl Hb] HQ]". rewrite /set_prefix_and_msgid /prefix_space.
  rewrite (proj2 (Z.eqb_neq _ 0)); [|lia]. rewrite {1}/is_null bool_decide_false //. cbn [negb].
  rewrite /b_string_get /b_string_get_head. wp_steps. cbn [bs_data bs_head]. wp_step.
  rewrite Z.sub_0_r (proj2 (Z.ltb_lt _ _)); [|rewrite /LEN_PREFIX /MSG_ID_LEN; lia].
  wp_steps. cbn [bs_data]. wp_steps.
  pose proof (take_drop (length pre - 5) pre) as Hsplit.
  set (pre0 := take (length pre - 5) pre) in *. set (mid := drop (length pre - 5) pre) in *.
  assert (Hmid : length mid = 5%nat) by (rewrite /mid length_drop; lia).
  assert (Hpre0 : length pre = (length pre0 + 5)%nat) by (rewrite -Hsplit length_app; lia).
  replace (Z.of_nat (length pre) + - (LEN_PREFIX + MSG_ID_LEN)) with (Z.of_nat (length pre0))
    by (rewrite /LEN_PREFIX /MSG_ID_LEN; lia).
  iEval (rewrite -Hsplit -app_assoc) in "Hb".
  iApply (wp_prefix_header l b _ _ _ pre0 mid); [done|lia|lia|done|].
  iFrame "Hl Hb". iIntros "Hl Hb". iApply "HQ". iExists b, pre0, tl.
  rewrite framed_bytes framed_length. iFrame.
Qed.

(** With less reserved, the payload is copied to a new block.  One byte more
    than the payload is copied, to and from beyond the requested sizes: this
    needs a byte of slack in both blocks. *)
Lemma wp_set_prefix_realloc l b len pre p t0 tl id g Q :
  oom g = [] -> 0 <= id < 256 -> (length pre <= 5)%nat -> 1 + Z.of_nat (length p) + 4 < 2 ^ 32 ->
  (0 < slack g)%nat ->
  has_payload l b len pre p (t0 :: tl) ∗ (is_msg l (framed id p) -∗ Q (obj_ptr l) g)
  ⊢ wp (set_prefix_and_msgid (1 + Z.of_nat (length p)) id (obj_ptr l)) g Q.
Proof.
  intros Hoom Hid Hpre Hlen Hslack. iIntros "[[Hl Hb] HQ]". rewrite /set_prefix_and_msgid /prefix_space.
  rewrite (proj2 (Z.eqb_neq _ 0)); [|lia]. rewrite {1}/is_null bool_decide_false //. cbn [negb].
  rewrite /b_string_get /b_string_get_head. wp_steps. cbn [bs_data bs_head]. wp_step.
  rewrite Z.sub_0_r (proj2 (Z.ltb_ge _ _)); [|rewrite /LEN_PREFIX /MSG_ID_LEN; lia].
  wp_steps. cbn [bs_data]. rewrite u32_small; [|rewrite /LEN_PREFIX; lia].
  iApply wp_bind. iApply wp_malloc_bytes; [done|rewrite /PTRDIFF_MAX /LEN_PREFIX; lia|]. iIntros (c) "Hc".
  wp_step. rewrite /memcpy /u64 Z.mod_small; [|lia].
  iApply wp_bind. iApply wp_bind.
  change (t0 :: tl) with ([t0] ++ tl). iEval (rewrite (app_assoc (Some <$> p))) in "Hb".
  iApply (wp_read_at b _ _ pre ((Some <$> p) ++ [t0]) tl);
    [done|rewrite length_app length_fmap /=; lia|]. iFrame "Hb". iIntros "Hb".
  replace (Z.to_nat (1 + Z.of_nat (length p) + LEN_PREFIX) + slack g)%nat
    with (5 + (S (length p) + pred (slack g)))%nat by (rewrite /LEN_PREFIX; lia).
  rewrite !replicate_add.
  iApply (wp_write_at c _ _ (replicate 5 None) (replicate (S (length p)) None));
    [done|rewrite length_app length_fmap length_replicate /=; lia|]. iFrame "Hc". iIntros "Hc".
  wp_steps. cbn [bs_head]. iApply wp_bind. iApply (wp_free (T := list mbyte)). iFrame "Hb". iSplitR; [done|].
  rewrite /b_string_set_head {1}/b_string_set. wp_steps. cbn [bs_prev bs_data bs_head bs_len].
  iEval (rewrite -app_assoc) in "Hc".
  iApply (wp_prefix_header l c _ _ _ [] (replicate 5 None)); [done|lia|lia|done|].
  iFrame "Hl Hc". iIntros "Hl Hb". iApply "HQ". iExists c, [], ([t0] ++ replicate (pred (slack g)) None).
  rewrite framed_bytes framed_length. iFrame.
Qed.

(** Without that byte it reads past the end of the payload's block. *)
Lemma wpf_set_prefix_realloc l b len pre p id g :
  oom g = [] -> (length pre <= 5)%nat -> 1 + Z.of_nat (length p) + 4 < 2 ^ 32 ->
  has_payload l b len pre p []
  ⊢ wpf (set_prefix_and_msgid (1 + Z.of_nat (length p)) id (obj_ptr l)) g OutOfBounds.
Proof.
  intros Hoom Hpre Hlen. iIntros "[Hl Hb]". rewrite /set_prefix_and_msgid /prefix_space.
  rewrite (proj2 (Z.eqb_neq _ 0)); [|lia]. rewrite {1}/is_null bool_decide_false //. cbn [negb].
  rewrite /b_string_get /b_string_get_head. iApply wpf_bind_l. iApply wpf_bind_l.
  iApply wpf_bind. wp_steps. iApply wpf_bind. wp_steps. cbn [bs_data bs_head]. iApply wpf_bind. wp_step.
  rewrite Z.sub_0_r (proj2 (Z.ltb_ge _ _)); [|rewrite /LEN_PREFIX /MSG_ID_LEN; lia].
  iApply wpf_bind. wp_steps. cbn [bs_data]. rewrite u32_small; [|rewrite /LEN_PREFIX; lia].
  iApply wpf_bind. iApply wp_malloc_bytes; [done|rewrite /PTRDIFF_MAX /LEN_PREFIX; lia|]. iIntros (c) "Hc".
  iApply wpf_bind. wp_step. rewrite /memcpy /u64 Z.mod_small; [|lia].
  iApply wpf_bind_l. iApply wpf_bind_l. iApply (wpf_frame _ _ _ True%I). iSplitL "Hb"; [|done].
  iApply (wpf_read_bytes with "Hb"). rewrite /in_range !length_app length_fmap /=.
  apply andb_false_iff. right. apply Z.leb_gt. lia.
Qed.

(** ** Messages whose payload is built in a block with five bytes reserved *)

(** What the generators do: a block, the payload behind the reserved bytes,
    then the header. *)
Definition built (id : Z) (size : Z) (fill : ptr -> M unit) : M ptr :=
  buf ← malloc_bytes (LEN_PREFIX + MSG_ID_LEN + size);
  p ← b_string_alloc_reserved buf size (LEN_PREFIX + MSG_ID_LEN);
  buf ← b_string_get p;
  _ ← fill buf;
  set_prefix_and_msgid (MSG_ID_LEN + size) id p.

Lemma wp_built_payload size fill p (g : globals) (P : hProp) Q :
  oom g = [] -> size = Z.of_nat (length p) -> size + 5 < 2 ^ 32 ->
  (∀ b tl R, b ↦ (replicate 5 None ++ replicate (length p) None ++ tl) ∗ P ∗
     (b ↦ (replicate 5 None ++ (Some <$> p) ++ tl) -∗ P -∗ R tt g)
     ⊢ wp (fill (PAt b 5)) g R) ->
  P ∗ (∀ l b, has_payload l b size (replicate 5 None) p (replicate (slack g) None) -∗ P -∗ Q (obj_ptr l) g)
  ⊢ wp (buf ← malloc_bytes (LEN_PREFIX + MSG_ID_LEN + size);
        p ← b_string_alloc_reserved buf size (LEN_PREFIX + MSG_ID_LEN);
        buf ← b_string_get p;
        _ ← fill buf;
        mret p) g Q.
Proof.
  intros Hoom Hsize Hmax Hfill. iIntros "[HP HQ]". rewrite /LEN_PREFIX /MSG_ID_LEN.
  iApply wp_bind. iApply wp_malloc_bytes; [done|rewrite /PTRDIFF_MAX; lia|]. iIntros (b) "Hb".
  iApply wp_bind. iApply wp_b_string_alloc_reserved; [done|]. iIntros (l) "Hl".
  rewrite /b_string_get. wp_steps. cbn [bs_data]. iApply wp_bind.
  replace (Z.to_nat (4 + 1 + size) + slack g)%nat with (5 + (length p + slack g))%nat by lia.
  rewrite !replicate_add. iApply Hfill. iFrame "Hb HP". iIntros "Hb HP". wp_step.
  iApply ("HQ" with "[Hl Hb] HP"). rewrite /has_payload. iFrame.
Qed.

Lemma built_split id size fill :
  ∀ s, built id size fill s
    = (p ← (buf ← malloc_bytes (LEN_PREFIX + MSG_ID_LEN + size);
            p ← b_string_alloc_reserved buf size (LEN_PREFIX + MSG_ID_LEN);
            buf ← b_string_get p;
            _ ← fill buf;
            mret p);
       set_prefix_and_msgid (MSG_ID_LEN + size) id p) s.
Proof. intros s. rewrite /built /mbind /M_bind /mret /M_ret. by repeat case_match; simplify_eq. Qed.

Lemma wp_built id size fill p (g : globals) (P : hProp) Q :
  oom g = [] -> 0 <= id < 256 -> size = Z.of_nat (length p) -> size + 5 < 2 ^ 32 -> (0 < slack g)%nat ->
  (∀ b tl R, b ↦ (replicate 5 None ++ replicate (length p) None ++ tl) ∗ P ∗
     (b ↦ (replicate 5 None ++ (Some <$> p) ++ tl) -∗ P -∗ R tt g)
     ⊢ wp (fill (PAt b 5)) g R) ->
  P ∗ (∀ l, is_msg l (framed id p) -∗ P -∗ Q (obj_ptr l) g) ⊢ wp (built id size fill) g Q.
Proof.
  intros Hoom Hid Hsize Hmax Hslack Hfill. iIntros "[HP HQ]".
  iApply (wp_ext _ _ _ _ (built_split id size fill)). iApply wp_bind.
  iApply (wp_built_payload size fill p g P); [done..|]. iFrame "HP". iIntros (l b) "Hl HP".
  destruct (slack g) as [|s] eqn:Hs; [lia|]. cbn [replicate]. rewrite Hsize.
  iApply (wp_set_prefix_realloc l b _ (replicate 5 None) p None (replicate s None)); [done|done|done|lia|lia|].
  iFrame "Hl". iIntros "Hl". iApply ("HQ" with "Hl HP").
Qed.

Lemma wpf_built id size fill p (g : globals) (P : hProp) :
  oom g = [] -> size = Z.of_nat (length p) -> size + 5 < 2 ^ 32 -> slack g = 0%nat ->
  (∀ b tl R, b ↦ (replicate 5 None ++ replicate (length p) None ++ tl) ∗ P ∗
     (b ↦ (replicate 5 None ++ (Some <$> p) ++ tl) -∗ P -∗ R tt g)
     ⊢ wp (fill (PAt b 5)) g R) ->
  P ⊢ wpf (built id size fill) g OutOfBounds.
Proof.
  intros Hoom Hsize Hmax Hslack Hfill. iIntros "HP".
  iApply (wpf_ext _ _ _ _ (built_split id size fill)). iApply wpf_bind.
  iApply (wp_built_payload size fill p g P); [done..|]. iFrame "HP". iIntros (l b) "Hl HP".
  rewrite Hslack Hsize. iApply (wpf_frame _ _ _ True%I). iSplitL "Hl"; [|done].
  iApply (wpf_set_prefix_realloc with "Hl"); [done|done|lia].
Qed.

(** Filling from a local variable. *)
Lemma wp_fill_local (p : list Z) (g : globals) b tl R :
  b ↦ (replicate 5 None ++ replicate (length p) None ++ tl) ∗ emp ∗
  (b ↦ (replicate 5 None ++ (Some <$> p) ++ tl) -∗ emp -∗ R tt g)
  ⊢ wp (put_bytes (PAt b 5) p) g R.
Proof.
  iIntros "(Hb & _ & HR)". rewrite /put_bytes.
  iApply (wp_write_at b _ _ (replicate 5 None) (replicate (length p) None));
    [done|by rewrite length_fmap length_replicate|]. iFrame "Hb". iIntros "Hb". by iApply ("HR" with "Hb").
Qed.

(** Filling from another array. *)
Lemma wp_fill_copy x (p : list Z) rest (g : globals) b tl R :
  Z.of_nat (length p) < 2 ^ 64 ->
  b ↦ (replicate 5 None ++ replicate (length p) None ++ tl) ∗ x ↦ ((Some <$> p) ++ rest) ∗
  (b ↦ (replicate 5 None ++ (Some <$> p) ++ tl) -∗ x ↦ ((Some <$> p) ++ rest) -∗ R tt g)
  ⊢ wp (memcpy (PAt b 5) (obj_ptr x) (Z.of_nat (length p))) g R.
Proof.
  intros Hlen. iIntros "(Hb & Hx & HR)". rewrite /memcpy /u64 Z.mod_small; [|lia]. iApply wp_bind.
  iApply (wp_read_at x 0 _ [] (Some <$> p) rest); [done|by rewrite length_fmap|]. iFrame "Hx". iIntros "Hx".
  iApply (wp_write_at b _ _ (replicate 5 None) (replicate (length p) None));
    [done|by rewrite length_fmap length_replicate|]. iFrame "Hb". iIntros "Hb". iApply ("HR" with "Hb Hx").
Qed.

(** ** The piece message *)

(** The part of generate_piece_message before set_prefix_and_msgid. *)
Lemma wpx_generate_piece_message l b len pre mid blk tl i bg g Q E :
  length mid = 8%nat -> (5 <= length pre)%nat -> Z.of_nat (length blk) < 2 ^ 32 - 13 ->
  has_payload l b len (pre ++ mid) blk tl ∗
  (∀ len', has_payload l b len' pre (be32 i ++ be32 bg ++ blk) tl -∗
     wpx (set_prefix_and_msgid (1 + Z.of_nat (length (be32 i ++ be32 bg ++ blk))) PEER_MESSAGE_PIECE (obj_ptr l)) g Q E)
  ⊢ wpx (generate_piece_message i bg (Z.of_nat (length blk)) (obj_ptr l)) g Q E.
Proof.
  intros Hmid Hpre Hlen. iIntros "[[Hl Hb] HQ]". rewrite /generate_piece_message /b_string_get /b_string_get_head.
  wp_steps. cbn [bs_data bs_head]. wp_step. rewrite Z.sub_0_r (length_app pre mid) Hmid.
  rewrite (proj2 (Z.ltb_ge _ _)); [|rewrite /LEN_PREFIX /MSG_ID_LEN; lia].
  wp_steps. cbn [bs_data]. wp_step.
  replace (Z.of_nat (length pre + 8) + -8) with (Z.of_nat (length pre)) by lia.
  destruct mid as [|m0 [|m1 [|m2 [|m3 [|m4 [|m5 [|m6 [|m7 [|]]]]]]]]]; try done.
  iEval (rewrite -app_assoc) in "Hb". rewrite /put_bytes. iApply wpx_bind. iApply wpx_wp.
  iApply (wp_write_at b _ _ pre [m0; m1; m2; m3] ([m4; m5; m6; m7] ++ (Some <$> blk) ++ tl)); [done|done|].
  iFrame "Hb". iIntros "Hb". wp_step. iEval (rewrite (app_assoc pre)) in "Hb". iApply wpx_bind. iApply wpx_wp.
  iApply (wp_write_at b _ _ (pre ++ (Some <$> be32 i)) [m4; m5; m6; m7] ((Some <$> blk) ++ tl));
    [rewrite length_app length_fmap /=; lia|done|].
  iFrame "Hb". iIntros "Hb". rewrite /b_string_set /b_string_get_length /b_string_set_length. wp_steps.
  cbn [bs_prev bs_data bs_head bs_len].
  replace (u32 (Z.of_nat (length blk) + MSG_ID_LEN + 8)) with (1 + Z.of_nat (length (be32 i ++ be32 bg ++ blk))).
  - iApply "HQ". rewrite /has_payload. iFrame "Hl". rewrite !fmap_app -!app_assoc. iFrame.
  - rewrite !length_app !be32_length /MSG_ID_LEN u32_small; lia.
Qed.

End messages.
