(* ===== verification/PeerCorrect.v ===== *)
(** * src/peer_message.c: correctness *)

From iris.proofmode Require Import environments proofmode.
From S2P Require Import Prelude CTypes HProp CMem CWp CLib Trace DList BParse BSpec BRep BRound Timer PeerMsg PeerSpec.
Set Warnings "-rewrite-rw".
Open Scope Z_scope.

(** The generator of a message whose contents are passed by value. *)
Definition generate (m : message) : option (M ptr) :=
  match m with
  | KeepAlive => Some generate_keep_alive_message
  | Choke => Some generate_choke_message
  | Unchoke => Some generate_unchoke_message
  | Interested => Some generate_interested_message
  | NotInterested => Some generate_not_interested_message
  | Have i => Some (generate_have_message i)
  | Request i b l => Some (generate_request_message i b l)
  | Cancel i b l => Some (generate_cancel_message i b l)
  | Port p => Some (generate_port_message p)
  | Bitfield _ | Piece _ _ _ => None
  end.

(** Whether the message has a payload. *)
Definition has_body (m : message) : bool :=
  match m with KeepAlive | Choke | Unchoke | Interested | NotInterested => false | _ => true end.

Section generators.
Implicit Types (g : globals) (m : message).

(** The generators with a payload, as instances of [built]. *)
Definition body (m : message) : option (Z * list Z) :=
  match m with
  | Have i => Some (PEER_MESSAGE_HAVE, be32 i)
  | Request i b l => Some (PEER_MESSAGE_REQUEST, be32 i ++ be32 b ++ be32 l)
  | Cancel i b l => Some (PEER_MESSAGE_CANCEL, be32 i ++ be32 b ++ be32 l)
  | Port p => Some (PEER_MESSAGE_PORT, be16 p)
  | _ => None
  end.

Lemma body_built m id p gen :
  body m = Some (id, p) -> generate m = Some gen ->
  gen = built id (Z.of_nat (length p)) (fun buf => put_bytes buf p) ∧ wire m = framed id p
  ∧ 0 <= id < 256 ∧ Z.of_nat (length p) + 5 < 2 ^ 32.
Proof. destruct m; intros [= <- <-] [= <-]; split_and!; reflexivity || done. Qed.

Lemma wp_generate m gen g Q :
  oom g = [] -> generate m = Some gen -> (has_body m = true -> (0 < slack g)%nat) ->
  (∀ l, is_msg l (wire m) -∗ Q (obj_ptr l) g) ⊢ wp gen g Q.
Proof.
  intros Hoom Hgen Hslack. iIntros "HQ". destruct (body m) as [[id p]|] eqn:Hb.
  - destruct (body_built m id p gen Hb Hgen) as (-> & Hw & Hid & Hlen). rewrite Hw.
    iApply (wp_built id _ _ p g emp%I); [done|done|done|done|by apply Hslack; destruct m|apply wp_fill_local|].
    iSplitR; [done|]. iIntros (l) "Hl _". by iApply "HQ".
  - destruct m; try done; injection Hgen as <-.
    + iApply wp_set_prefix_keep_alive; [done|]. iIntros (l b) "Hl Hb". iApply "HQ". iExists b, [], _. iFrame.
    + by iApply wp_set_prefix_new.
    + by iApply wp_set_prefix_new.
    + by iApply wp_set_prefix_new.
    + by iApply wp_set_prefix_new.
Qed.

Lemma wpf_generate m gen g :
  oom g = [] -> generate m = Some gen -> has_body m = true -> slack g = 0%nat ->
  emp ⊢ wpf gen g OutOfBounds.
Proof.
  intros Hoom Hgen Hbody Hslack. destruct (body m) as [[id p]|] eqn:Hb; [|by destruct m].
  destruct (body_built m id p gen Hb Hgen) as (-> & _ & _ & Hlen).
  iIntros "H". iApply (wpf_built id _ _ p g emp%I with "H"); [done|done|done|done|apply wp_fill_local].
Qed.

Lemma wp_generate_bitfield_message x bits rest g Q :
  oom g = [] -> Z.of_nat (length bits) + 5 < 2 ^ 32 -> (0 < slack g)%nat ->
  x ↦ ((Some <$> bits) ++ rest) ∗
  (∀ l, is_msg l (wire (Bitfield bits)) -∗ x ↦ ((Some <$> bits) ++ rest) -∗ Q (obj_ptr l) g)
  ⊢ wp (generate_bitfield_message (Z.of_nat (length bits)) (obj_ptr x)) g Q.
Proof.
  intros Hoom Hlen Hslack. rewrite /generate_bitfield_message.
  rewrite !u32_small; [|rewrite /MSG_ID_LEN ?/LEN_PREFIX; lia..].
  apply (wp_built PEER_MESSAGE_BITFIELD (Z.of_nat (length bits))
    (fun buf => memcpy buf (obj_ptr x) (Z.of_nat (length bits))) bits g (x ↦ ((Some <$> bits) ++ rest))%I); try done.
  intros b tl R. apply wp_fill_copy. lia.
Qed.

(** The handshake. *)
Definition handshake (hash id : list Z) : list Z :=
  DEFAULT_PSTRLEN :: DEFAULT_PSTR ++ replicate 8 0 ++ hash ++ id.

Lemma wp_generate_handshake_message xh xi hash id tlh tli g Q :
  oom g = [] -> length hash = 20%nat -> length id = 20%nat ->
  xh ↦ ((Some <$> hash) ++ tlh) ∗ xi ↦ ((Some <$> id) ++ tli) ∗
  (∀ l, is_msg l (handshake hash id) -∗ xh ↦ ((Some <$> hash) ++ tlh) -∗ xi ↦ ((Some <$> id) ++ tli) -∗
     Q (obj_ptr l) g)
  ⊢ wp (generate_handshake_message (obj_ptr xh) (obj_ptr xi)) g Q.
Proof.
  intros Hoom Hh Hi. iIntros "(Hxh & Hxi & HQ)". rewrite /generate_handshake_message.
  rewrite /is_null !bool_decide_false //. cbn [negb andb]. iApply wp_bind. iApply wp_malloc; [done|].
  iIntros (l) "Hl _". rewrite bool_decide_false //. cbn [negb]. iApply wp_bind.
  iApply wp_malloc_bytes; [done|rewrite /PTRDIFF_MAX /HANDSHAKE_MESSAGE_LEN; lia|]. iIntros (b) "Hb".
  change (Z.to_nat HANDSHAKE_MESSAGE_LEN + slack g)%nat with (68 + slack g)%nat. rewrite replicate_add.
  set (post := replicate (slack g) None).
  rewrite /b_string_set_head /b_string_set /b_string_set_length /memset /memcpy. wp_steps. cbn [bs_prev bs_data bs_head bs_len].
  iApply wp_bind. iApply (wp_write_at b 0 _ [] (replicate 68 None) post); [done|done|]. iFrame "Hb". iIntros "Hb".
  iApply wp_bind. rewrite /put_byte.
  iApply (wp_write_at b 0 _ [] [Some 0] (replicate 67 (Some 0) ++ post)); [done|done|]. iFrame "Hb". iIntros "Hb".
  wp_step. iApply wp_bind. rewrite /put_bytes.
  iApply (wp_write_at b _ _ [Some 19] (replicate 19 (Some 0)) (replicate 48 (Some 0) ++ post)); [done|done|].
  iFrame "Hb". iIntros "Hb". wp_step. iApply wp_bind.
  iApply (wp_write_at b _ _ (Some 19 :: (Some <$> DEFAULT_PSTR)) (replicate 8 (Some 0)) (replicate 40 (Some 0) ++ post));
    [done|done|]. iFrame "Hb". iIntros "Hb". wp_step. iApply wp_bind. iApply wp_bind.
  iApply (wp_read_at xh 0 _ [] (Some <$> hash) tlh); [done|by rewrite length_fmap Hh|]. iFrame "Hxh". iIntros "Hxh".
  iApply (wp_write_at b _ _ (Some 19 :: (Some <$> DEFAULT_PSTR) ++ replicate 8 (Some 0)) (replicate 20 (Some 0))
    (replicate 20 (Some 0) ++ post)); [done|by rewrite length_fmap Hh|]. iFrame "Hb". iIntros "Hb". wp_step.
  iApply wp_bind. iApply wp_bind.
  iApply (wp_read_at xi 0 _ [] (Some <$> id) tli); [done|by rewrite length_fmap Hi|]. iFrame "Hxi". iIntros "Hxi".
  iEval (rewrite (app_assoc _ (Some <$> hash))) in "Hb".
  iApply (wp_write_at b _ _ ((Some 19 :: (Some <$> DEFAULT_PSTR) ++ replicate 8 (Some 0)) ++ (Some <$> hash))
    (replicate 20 (Some 0)) post); [by rewrite length_app length_fmap Hh|by rewrite length_fmap Hi|].
  iFrame "Hb". iIntros "Hb". wp_steps. cbn [bs_prev bs_data bs_head bs_len].
  iApply ("HQ" with "[Hl Hb] Hxh Hxi"). iExists b, [], post.
  replace (Z.of_nat (length (handshake hash id))) with 68; last first.
  { rewrite /handshake /= !length_app /= Hh Hi. done. }
  iFrame "Hl". rewrite /handshake fmap_cons !fmap_app fmap_replicate. cbn [app]. rewrite -!app_assoc. iFrame "Hb".
Qed.

(** ** Sending *)

Lemma dec_fits func line pre n post :
  0 <= n < 2 ^ 31 -> trace_fits func line (Z.of_nat (length pre) + 10 + Z.of_nat (length post)) = true ->
  trace_fits func line (Z.of_nat (length (pre ++ dec n ++ post))) = true.
Proof.
  intros Hn Hfit. apply Z.leb_le in Hfit. apply Z.leb_le.
  destruct (dec_length n ltac:(lia) 9) as [_ Hd]; [change (10 ^ Z.of_nat 10) with 10000000000; lia|].
  rewrite (length_app pre) (length_app (dec n)). lia.
Qed.

Lemma wp_send_message l bs fd g Q :
  Z.of_nat (length bs) < 2 ^ 32 -> 0 <= snd (replies g (length (syslog g))) < 2 ^ 31 ->
  is_msg l bs ∗
  (∀ g', ⌜⌜syslog g' = syslog g ++ [("send"%string, fd :: 0 :: bs)]⌝⌝ -∗ is_msg l bs -∗
     Q (if fst (replies g (length (syslog g))) =? -1 then -1 else 0) g')
  ⊢ wp (send_message fd (obj_ptr l)) g Q.
Proof.
  intros Hlen Herr. iIntros "[(%b & %pre & %tl & Hl & Hb) HQ]".
  rewrite /send_message /b_string_get /b_string_get_length /sys_send. wp_steps. cbn [bs_data bs_len].
  iApply wp_bind. iApply wp_bind. rewrite /u64 Z.mod_small; [|lia].
  iApply (wp_read_at b _ _ pre (Some <$> bs) tl); [done|by rewrite length_fmap|]. iFrame "Hb". iIntros "Hb".
  rewrite all_init_fmap. iApply wp_syscall.
  iAssert (is_msg l bs) with "[Hl Hb]" as "Hm". { iExists b, pre, tl. iFrame. }
  destruct (fst (replies g (length (syslog g))) =? -1) eqn:Hr.
  - iApply wp_bind. set (g1 := after_call _ _ _).
    assert (He : errno g1 = snd (replies g (length (syslog g)))).
    { rewrite /g1 /after_call. destruct (replies _ _) as [r e]. cbn in Hr |- *. by rewrite Hr. }
    iApply wp_wpx; [|iApply wpx_print_msg; [done|]; wp_steps].
    + intros f Hf. exact Hf.
    + rewrite dec_fits; [|by rewrite He|vm_compute; reflexivity]. iIntros (g2) "%Hq". wp_step.
      iApply ("HQ" with "[%] Hm"). destruct Hq as (_ & _ & _ & _ & _ & ->). apply after_call_log.
  - wp_step. iApply ("HQ" with "[%] Hm"). apply after_call_log.
Qed.

(** ** Receiving *)

Lemma wp_deal_message tl F x l n0 n1 n2 n3 c bs g Q :
  0 <= c < 256 ->
  Z.of_nat (length (n0 :: n1 :: n2 :: n3 :: c :: bs)) < 2 ^ 32 ->
  is_msg l (n0 :: n1 :: n2 :: n3 :: c :: bs) ∗ (is_msg l (n0 :: n1 :: n2 :: n3 :: c :: bs) -∗ Q 0 g)
  ⊢ wp (deal_message tl F x (obj_ptr l)) g Q.
Proof.
  intros Hc Hlen. iIntros "[(%b & %pre & %tl' & Hl & Hb) HQ]". rewrite /deal_message.
  rewrite /b_string_get /b_string_get_length. cbv zeta. wp_steps. cbn [bs_data bs_len]. wp_step.
  iApply wp_bind. iApply (wp_get_byte b _ c); [lia| |iFrame "Hb"].
  { rewrite lookup_app_r; [|lia].
    replace (Z.to_nat (Z.of_nat (length pre) + 4) - length pre)%nat with 4%nat by lia. done. }
  iIntros "Hb". iAssert (is_msg l (n0 :: n1 :: n2 :: n3 :: c :: bs)) with "[Hl Hb]" as "Hm".
  { iExists b, pre, tl'. iFrame. }
  rewrite (proj2 (Z.eqb_neq (u32 _) 0)); last first.
  { cbn [length] in Hlen |- *. rewrite u32_small; lia. }
  cbn [negb]. destruct (s8 c =? PEER_MESSAGE_KEEP_ALIVE); wp_steps; by iApply "HQ".
Qed.

(** A keep-alive message has no fifth byte to look at. *)
Definition no_fifth_byte (g : globals) : fault := if (slack g =? 0)%nat then OutOfBounds else Indeterminate.

Lemma wpf_get_byte_end b bs (n : nat) g :
  b ↦ ((Some <$> bs) ++ replicate n None)
  ⊢ wpf (get_byte (PAt b (Z.of_nat (length bs)))) g (if (n =? 0)%nat then OutOfBounds else Indeterminate).
Proof.
  iIntros "Hb". rewrite /get_byte. destruct n as [|n]; cbn [Nat.eqb replicate].
  - iApply wpf_bind_l. iApply (wpf_read_bytes with "Hb"). rewrite app_nil_r /in_range length_fmap.
    apply andb_false_iff. right. apply Z.leb_gt. lia.
  - iApply wpf_bind.
    iApply (wp_read_at b _ _ (Some <$> bs) [None] (replicate n None)); [by rewrite length_fmap|done|].
    iFrame "Hb". iIntros "Hb". iApply (wpf_frame _ _ _ True%I). iSplitR; [|done]. by iApply wpf_fail.
Qed.

Lemma wpf_deal_keep_alive tl F x g :
  oom g = [] ->
  emp ⊢ wpf (m ← generate_keep_alive_message; deal_message tl F x m) g (no_fifth_byte g).
Proof.
  intros Hoom. iIntros "_". iApply wpf_bind. iApply wp_set_prefix_keep_alive; [done|].
  iIntros (l b) "Hl Hb". rewrite /deal_message /b_string_get /b_string_get_length. cbv zeta.
  iApply wpf_bind. wp_steps. cbn [bs_len]. iApply wpf_bind. wp_steps. cbn [bs_data]. iApply wpf_bind. wp_step.
  iApply wpf_bind_l. iApply (wpf_frame _ _ _ True%I). iSplitL "Hb"; [|done].
  by iApply (wpf_get_byte_end b (be32 0) (slack g) g).
Qed.

End generators.

(** ** Properties *)

(** C15: every message generator that takes its contents by value returns a
    string whose characters are the encoding of that message, a 32-bit
    big-endian length and then as many bytes, from which the message can be
    decoded; nothing else in memory changes.  The messages with a payload need
    an allocator whose blocks have at least one byte more than requested. *)
Theorem generate_message_wire m gen g :
  oom g = [] -> generate m = Some gen -> fits_wire m -> (has_body m = true -> (0 < slack g)%nat) ->
  triple emp%I g gen (fun r g' => ∃ l, ⌜⌜r = obj_ptr l ∧ g' = g ∧ decode (wire m) = Some (m, [])⌝⌝
    ∗ is_msg l (wire m))%I.
Proof.
  intros Hoom Hgen Hfits Hslack. apply triple_wp. iIntros "_". iApply (wp_generate m); [done..|].
  iIntros (l) "Hl". iExists l. iFrame. iPureIntro. split_and!; [done|done|].
  rewrite -(app_nil_r (wire m)). by apply decode_wire.
Qed.

(** The GNU C library rounds a block of 9 bytes up to 24. *)
Definition glibc_globals : globals := Globals 0 [] 15 0 [] (fun _ => (0, 0)) [].

Lemma generate_message_wire_witness :
  triple emp%I glibc_globals (generate_have_message 100)
    (fun r g' => ∃ l, ⌜⌜r = obj_ptr l ∧ g' = glibc_globals ∧ decode (wire (Have 100)) = Some (Have 100, [])⌝⌝
    ∗ is_msg l (wire (Have 100)))%I.
Proof.
  apply (generate_message_wire (Have 100)); [reflexivity|reflexivity| |]; cbn; unfold u32_ok; lia.
Defined.

(** On an allocator that gives exactly what was asked for, every generator
    with a payload goes out of bounds: [set_prefix_and_msgid] finds the five
    reserved bytes too few and copies one byte too many. *)
Theorem generate_message_overrun m gen g :
  oom g = [] -> generate m = Some gen -> has_body m = true -> slack g = 0%nat ->
  faults emp%I g gen OutOfBounds.
Proof. intros. by eapply faults_wpf, wpf_generate. Qed.

Lemma generate_message_overrun_witness : faults emp%I quiet_globals (generate_port_message 6881) OutOfBounds.
Proof. apply (generate_message_overrun (Port 6881)); reflexivity. Defined.

(** The bitfield message is the encoding of the bits it was given. *)
Theorem generate_bitfield_wire x bits rest g :
  oom g = [] -> fits_wire (Bitfield bits) -> (0 < slack g)%nat ->
  triple (x ↦ ((Some <$> bits) ++ rest))%I g (generate_bitfield_message (Z.of_nat (length bits)) (obj_ptr x))
    (fun r g' => ∃ l, ⌜⌜r = obj_ptr l ∧ g' = g ∧ decode (wire (Bitfield bits)) = Some (Bitfield bits, [])⌝⌝
       ∗ is_msg l (wire (Bitfield bits)) ∗ x ↦ ((Some <$> bits) ++ rest))%I.
Proof.
  intros Hoom Hfits Hslack. apply triple_wp. iIntros "Hx". cbn [fits_wire] in Hfits.
  iApply (wp_generate_bitfield_message x bits rest); [done|lia|done|]. iFrame "Hx".
  iIntros (l) "Hl Hx". iExists l. iFrame. iPureIntro. split_and!; [done|done|].
  rewrite -(app_nil_r (wire _)). by apply decode_wire.
Qed.

Lemma generate_bitfield_wire_witness :
  triple (3%positive ↦ ((Some <$> [170; 1]) ++ [None]))%I glibc_globals (generate_bitfield_message 2 (obj_ptr 3))
    (fun r g' => ∃ l, ⌜⌜r = obj_ptr l ∧ g' = glibc_globals
         ∧ decode (wire (Bitfield [170; 1])) = Some (Bitfield [170; 1], [])⌝⌝
       ∗ is_msg l (wire (Bitfield [170; 1])) ∗ 3%positive ↦ ((Some <$> [170; 1]) ++ [None]))%I.
Proof. apply (generate_bitfield_wire 3 [170; 1] [None] glibc_globals); [reflexivity|cbn; lia|cbn; lia]. Defined.

(** With at least 14 bytes reserved in front of the block of data, the
    piece message is composed in place, without copying the data. *)
Theorem generate_piece_in_place l b len pre blk tl i bg g :
  fits_wire (Piece i bg blk) -> (14 <= length pre)%nat ->
  triple (has_payload l b len pre blk tl) g
    (generate_piece_message i bg (Z.of_nat (length blk)) (obj_ptr l))
    (fun r g' => ⌜⌜r = obj_ptr l ∧ g' = g ∧ decode (wire (Piece i bg blk)) = Some (Piece i bg blk, [])⌝⌝
       ∗ is_msg l (wire (Piece i bg blk)))%I.
Proof.
  intros Hfits Hpre. apply triple_wp. iIntros "H". pose proof Hfits as (_ & _ & Hlen).
  rewrite -(take_drop (length pre - 8) pre). iApply (wp_wpx _ _ _ (fun _ => False)); [by intros ? ?|].
  iApply (wpx_generate_piece_message l b len (take (length pre - 8) pre) (drop (length pre - 8) pre) blk tl);
    [rewrite length_drop; lia|rewrite length_take; lia|done|]. iFrame "H". iIntros (len') "H". iApply wpx_wp.
  iApply (wp_set_prefix_in_place l b len' _ _ tl PEER_MESSAGE_PIECE with "[$H]");
    [done|rewrite length_take; lia|rewrite !length_app !be32_length; lia|].
  iIntros "Hl". iFrame. iPureIntro. split_and!; [done|done|].
  rewrite -(app_nil_r (wire _)). by apply decode_wire.
Qed.

Lemma generate_piece_in_place_witness :
  triple (has_payload 3 4 2 (replicate 14 None) [1; 2] []) quiet_globals
    (generate_piece_message 7 0 2 (obj_ptr 3))
    (fun r g' => ⌜⌜r = obj_ptr 3 ∧ g' = quiet_globals
         ∧ decode (wire (Piece 7 0 [1; 2])) = Some (Piece 7 0 [1; 2], [])⌝⌝
       ∗ is_msg 3 (wire (Piece 7 0 [1; 2])))%I.
Proof.
  apply (generate_piece_in_place 3 4 2 (replicate 14 None) [1; 2] [] 7 0 quiet_globals);
    [cbn; unfold u32_ok; lia|cbn; lia].
Defined.

(** The 13 bytes that the comment on [generate_piece_message] asks for are
    one too few: with exactly 13 reserved and no byte after the data, composing
    the message reads out of bounds. *)
Theorem generate_piece_13 l b len pre blk i bg g :
  oom g = [] -> fits_wire (Piece i bg blk) -> length pre = 13%nat ->
  faults (has_payload l b len pre blk []) g
    (generate_piece_message i bg (Z.of_nat (length blk)) (obj_ptr l)) OutOfBounds.
Proof.
  intros Hoom Hfits Hpre. apply faults_wpf. iIntros "H". destruct Hfits as (_ & _ & Hlen).
  rewrite -(take_drop 5 pre). iApply wpf_wpx.
  iApply (wpx_generate_piece_message l b len (take 5 pre) (drop 5 pre) blk []);
    [rewrite length_drop; lia|rewrite length_take; lia|done|]. iFrame "H". iIntros (len') "H". iApply (wpx_wpf _ _ OutOfBounds); [done|].
  iApply (wpf_set_prefix_realloc with "H"); [done|rewrite length_take; lia|rewrite !length_app !be32_length; lia].
Qed.

Lemma generate_piece_13_witness :
  faults (has_payload 3 4 2 (replicate 13 None) [1; 2] []) quiet_globals
    (generate_piece_message 7 0 2 (obj_ptr 3)) OutOfBounds.
Proof.
  apply (generate_piece_13 3 4 2 (replicate 13 None) [1; 2] 7 0 quiet_globals);
    [reflexivity|cbn; unfold u32_ok; lia|reflexivity].
Defined.

(** The handshake consists of the protocol name with its length, eight
    zero bytes, the 20 bytes of the hash and the 20 bytes of the peer id. *)
Theorem generate_handshake_wire xh xi hash id tlh tli g :
  oom g = [] -> length hash = 20%nat -> length id = 20%nat ->
  triple (xh ↦ ((Some <$> hash) ++ tlh) ∗ xi ↦ ((Some <$> id) ++ tli))%I g
    (generate_handshake_message (obj_ptr xh) (obj_ptr xi))
    (fun r g' => ∃ l, ⌜⌜r = obj_ptr l ∧ g' = g ∧ length (handshake hash id) = 68%nat⌝⌝
       ∗ is_msg l (handshake hash id) ∗ xh ↦ ((Some <$> hash) ++ tlh) ∗ xi ↦ ((Some <$> id) ++ tli))%I.
Proof.
  intros Hoom Hh Hi. apply triple_wp. iIntros "[Hxh Hxi]".
  iApply (wp_generate_handshake_message xh xi hash id tlh tli); [done..|]. iFrame "Hxh Hxi".
  iIntros (l) "Hl Hxh Hxi". iExists l. iFrame. iPureIntro. split_and!; [done|done|].
  by rewrite /handshake /= !length_app /= Hh Hi.
Qed.

Lemma generate_handshake_wire_witness :
  let h := replicate 20 1 in let i := replicate 20 2 in
  triple (1%positive ↦ ((Some <$> h) ++ []) ∗ 2%positive ↦ ((Some <$> i) ++ [Some 0]))%I quiet_globals
    (generate_handshake_message (obj_ptr 1) (obj_ptr 2))
    (fun r g' => ∃ l, ⌜⌜r = obj_ptr l ∧ g' = quiet_globals ∧ length (handshake h i) = 68%nat⌝⌝
       ∗ is_msg l (handshake h i) ∗ 1%positive ↦ ((Some <$> h) ++ []) ∗ 2%positive ↦ ((Some <$> i) ++ [Some 0]))%I.
Proof. apply (generate_handshake_wire 1 2 _ _ [] [Some 0] quiet_globals); reflexivity. Defined.

(** Sending a message hands exactly its characters to the socket, once;
    the result is -1 if the call failed and 0 otherwise, also when only a part
    was accepted; the message is kept. *)
Theorem send_message_bytes l bs fd g :
  Z.of_nat (length bs) < 2 ^ 32 -> 0 <= snd (replies g (length (syslog g))) < 2 ^ 31 ->
  triple (is_msg l bs) g (send_message fd (obj_ptr l))
    (fun r g' => ⌜⌜syslog g' = syslog g ++ [("send"%string, fd :: 0 :: bs)]
         ∧ r = if fst (replies g (length (syslog g))) =? -1 then -1 else 0⌝⌝ ∗ is_msg l bs)%I.
Proof.
  intros Hlen Herr. apply triple_wp. iIntros "H". iApply wp_send_message; [done..|]. iFrame "H".
  iIntros (g') "%Hl H". by iFrame.
Qed.

Lemma send_message_bytes_witness :
  triple (is_msg 1 (wire Choke)) quiet_globals (send_message 3 (obj_ptr 1))
    (fun r g' => ⌜⌜syslog g' = [] ++ [("send"%string, 3 :: 0 :: wire Choke)] ∧ r = 0⌝⌝ ∗ is_msg 1 (wire Choke))%I.
Proof. apply (send_message_bytes 1 (wire Choke) 3 quiet_globals); cbn; lia. Defined.

(** Dispatching a received keep-alive message, the four zero bytes of the
    protocol, looks at a fifth byte that the message does not have. *)
Theorem deal_message_keep_alive tl F x g :
  oom g = [] ->
  faults emp%I g (m ← generate_keep_alive_message; deal_message tl F x m) (no_fifth_byte g).
Proof. intros. by apply faults_wpf, wpf_deal_keep_alive. Qed.

Lemma deal_message_keep_alive_witness :
  faults emp%I quiet_globals (m ← generate_keep_alive_message; deal_message 1 9 PNull m) OutOfBounds.
Proof. apply (deal_message_keep_alive 1 9 PNull quiet_globals); reflexivity. Defined.
