(* ===== verification/PeerManage.v ===== *)
(** * src/peer_manage.c and src/conn_tracker.c: peers and trackers

    Allocation and connection of a peer, and the stubs of the tracker client. *)

From iris.proofmode Require Import environments proofmode.
From S2P Require Import Prelude CTypes HProp CMem CWp CLib Trace DList BParse BSpec BRep BRound.
Set Warnings "-rewrite-rw".
Open Scope Z_scope.

Definition AF_INET : Z := 2.
Definition SOCK_STREAM : Z := 1.
Definition SOCK_DGRAM : Z := 2.
Definition IPPROTO_TCP : Z := 6.
Definition IPPROTO_UDP : Z := 17.

Definition no_peer : peer_mgnt :=
  PeerMgnt 0 0 0 PNull PNull (PeerState 0 0) (PeerStat 0 0 0 0) PNull PNull.

(** memset() of the new object. *)
Definition peer_alloc : M ptr :=
  p ← malloc no_peer;
  _ ← store p no_peer;
  _ ← store_node p (ListHead PNull PNull);
  mret p.

Definition peer_free (p : ptr) : M unit :=
  _ ← list_del p;
  x ← load peer_mgnt p;
  _ ← b_string_free (pm_peer_id x);
  free p.

(** TRACE(ERROR, "msg, errno=(%d)\n", errno) *)
Definition trace_errno (line : Z) (msg : string) : M unit :=
  TRACE_ERROR "peer_init" line
    (g ← get_env; mret (str msg ++ str ", errno=(" ++ dec (errno g) ++ str ")" ++ [ch_nl])).

Definition ERR_DEAL (p : ptr) : M ptr :=
  _ ← peer_free p;
  mret PNull.

Definition peer_init (ip port : Z) (peer_id task_ptr : ptr) : M ptr :=
  p ← peer_alloc;
  x ← load peer_mgnt p;
  _ ← store p (PeerMgnt ip port (pm_sock x) peer_id task_ptr (pm_state x) (pm_stat x)
                 (pm_rcv_keep_alive x) (pm_send_keep_alive x));
  sockfd ← syscall "socket" [AF_INET; SOCK_STREAM; IPPROTO_TCP];
  if sockfd =? -1 then
    _ ← trace_errno 42 "socket error";
    ERR_DEAL p
  else
    ret ← syscall "connect" (sockfd :: AF_INET :: be16 port ++ be32 ip);
    if ret =? -1 then
      _ ← trace_errno 50 "connect error";
      _ ← syscall "close" [sockfd];
      ERR_DEAL p
    else mret p.

Definition peer_destory (p : ptr) : M unit := mret tt.

(** src/conn_tracker.c: nothing is implemented yet. *)
Definition connect_tracker (url : ptr) : M Z := mret 0.
Definition parse_peer_info : M Z := mret 0.

(** ** Specifications *)

Section specs.
Implicit Types (l : loc) (g : globals).

Definition new_peer (ip port : Z) (id task : ptr) : peer_mgnt :=
  PeerMgnt ip port 0 id task (PeerState 0 0) (PeerStat 0 0 0 0) PNull PNull.

(** A peer that was never put on a list. *)
Definition unlinked (l : loc) (x : peer_mgnt) : hProp := (l ↦ x ∗ l ↦ₙ (PNull, PNull))%I.

Lemma wp_peer_start ip port id task g Q :
  oom g = [] -> (∀ l, unlinked l (new_peer ip port id task) -∗ Q (obj_ptr l) g)
  ⊢ wp (p ← peer_alloc;
        x ← load peer_mgnt p;
        _ ← store p (PeerMgnt ip port (pm_sock x) id task (pm_state x) (pm_stat x)
                       (pm_rcv_keep_alive x) (pm_send_keep_alive x));
        mret p) g Q.
Proof.
  intros Hoom. iIntros "HQ". rewrite /peer_alloc. iApply wp_bind. iApply wp_bind. iApply wp_malloc; [done|].
  iIntros (l) "Hl Hn". change (node_of peer_mgnt) with true. cbn match. wp_steps.
  iApply "HQ". rewrite /unlinked. iFrame.
Qed.

Lemma wpf_peer_free l x g : unlinked l x ⊢ wpf (peer_free (obj_ptr l)) g NullDeref.
Proof.
  apply wpf_run. intros H Hcell.
  assert (Hn : H !! (l, FNode) = Some (CNode (ListHead PNull PNull))).
  { apply Hcell. rewrite /unlinked. iIntros "[_ $]". }
  by rewrite /peer_free /list_del /get_prev /get_next /__list_del /set_prev /load_node /with_obj
    /mbind /M_bind /= Hn /= Hn.
Qed.

Lemma wp_trace_errno line msg g Q :
  0 <= errno g < 2 ^ 31 -> trace_fits "peer_init" line (Z.of_nat (length (str msg)) + 30) = true ->
  (∀ g', ⌜⌜quiet g g'⌝⌝ -∗ Q tt g') ⊢ wp (trace_errno line msg) g Q.
Proof.
  intros He Hfit. iIntros "HQ". rewrite /trace_errno.
  iApply wp_wpx; [|iApply wpx_print_msg; [done|]; wp_steps].
  - intros f Hf. exact Hf.
  - destruct (dec_length (errno g) ltac:(lia) 9) as [_ Hd]; [change (10 ^ Z.of_nat 10) with 10000000000; lia|].
    assert (Hl : (length (str ", errno=(") + length (str ")") <= 10)%nat) by (vm_compute; lia).
    rewrite /trace_fits in Hfit |- *. apply Z.leb_le in Hfit. rewrite (proj2 (Z.leb_le _ _)); [done|].
    rewrite (length_app (str msg)) (length_app (str ", errno=(")) (length_app (dec (errno g))) (length_app (str ")")).
    change (length [10]) with 1%nat. lia.
Qed.

(** The reply to the [n]-th system call from now. *)
Definition reply (g : globals) (n : nat) : Z := fst (replies g (length (syslog g) + n)).

Lemma reply_first g : fst (replies g (length (syslog g))) = reply g 0.
Proof. by rewrite /reply Nat.add_0_r. Qed.

Lemma reply_after name args g n : reply (after_call name args g) n = reply g (S n).
Proof. rewrite /reply after_call_replies after_call_log length_app /=. do 2 f_equal. lia. Qed.

(** The error exit, after the message. *)
Lemma wpx_peer_failed l x g Q (E : fault -> Prop) :
  E NullDeref -> unlinked l x ⊢ wpx (ERR_DEAL (obj_ptr l)) g Q E.
Proof.
  intros HE. rewrite -(wpx_wpf _ _ NullDeref) //. rewrite /ERR_DEAL -wpf_bind_l. apply wpf_peer_free.
Qed.

Lemma wpx_peer_init ip port id task g :
  oom g = [] -> (∀ n, 0 <= snd (replies g n) < 2 ^ 31) ->
  emp ⊢ wpx (peer_init ip port id task) g
    (fun r g' => ⌜⌜reply g 0 ≠ -1 ∧ reply g 1 ≠ -1
         ∧ syslog g' = syslog g ++ [("socket"%string, [AF_INET; SOCK_STREAM; IPPROTO_TCP]);
                                    ("connect"%string, reply g 0 :: AF_INET :: be16 port ++ be32 ip)]⌝⌝
       ∗ ∃ l, ⌜⌜r = obj_ptr l⌝⌝ ∗ unlinked l (new_peer ip port id task))%I
    (fun f => (f = NullDeref ∧ (reply g 0 = -1 ∨ reply g 1 = -1))%type).
Proof.
  intros Hoom Herr. iIntros "_". rewrite /peer_init /peer_alloc. iApply wpx_bind. iApply wpx_wp.
  iApply wp_bind. iApply wp_malloc; [done|]. iIntros (l) "Hl Hn". change (node_of peer_mgnt) with true. cbn match.
  wp_steps. iAssert (unlinked l (new_peer ip port id task)) with "[Hl Hn]" as "Hl". { rewrite /unlinked. iFrame. }
  iApply wpx_bind. iApply wpx_wp. iApply wp_syscall. rewrite reply_first. set (g1 := after_call _ _ g).
  destruct (Z.eqb_spec (reply g 0) (-1)) as [Hr|Hr].
  { iApply wpx_bind. iApply wpx_wp.
    iApply wp_trace_errno; [rewrite after_call_errno ?reply_first; [apply Herr|done]|vm_compute; reflexivity|].
    iIntros (g2) "_". iApply (wpx_peer_failed with "Hl"). auto. }
  iApply wpx_bind. iApply wpx_wp. iApply wp_syscall. rewrite reply_first reply_after. set (g2 := after_call _ _ g1).
  destruct (Z.eqb_spec (reply g 1) (-1)) as [Hr1|Hr1].
  { iApply wpx_bind. iApply wpx_wp.
    iApply wp_trace_errno;
      [rewrite after_call_errno ?reply_first ?reply_after; [rewrite /g1 after_call_replies; apply Herr|done]
      |vm_compute; reflexivity|].
    iIntros (g3) "_". iApply wpx_bind. iApply wpx_wp. iApply wp_syscall.
    iApply (wpx_peer_failed with "Hl"). auto. }
  wp_step. iSplitR.
  - iPureIntro. split_and!; [done|done|]. rewrite !after_call_log -app_assoc //.
  - iExists l. by iFrame.
Qed.

End specs.

(** ** Properties *)

(** Connecting to a peer makes a socket and connects it to the address
    given, port and address in network order, and returns a peer with those
    data; the descriptor is not stored in it.  If the socket cannot be created
    or connected, the cleanup unlinks a peer that is on no list and
    dereferences a null pointer. *)
Theorem peer_init_outcomes ip port id task g :
  oom g = [] -> (∀ n, 0 <= snd (replies g n) < 2 ^ 31) ->
  outcomes emp%I g (peer_init ip port id task)
    (fun r g' => ⌜⌜reply g 0 ≠ -1 ∧ reply g 1 ≠ -1
         ∧ syslog g' = syslog g ++ [("socket"%string, [AF_INET; SOCK_STREAM; IPPROTO_TCP]);
                                    ("connect"%string, reply g 0 :: AF_INET :: be16 port ++ be32 ip)]⌝⌝
       ∗ ∃ l, ⌜⌜r = obj_ptr l⌝⌝ ∗ unlinked l (new_peer ip port id task))%I
    (fun f => f = NullDeref ∧ (reply g 0 = -1 ∨ reply g 1 = -1)).
Proof. intros. by apply outcomes_wpx, wpx_peer_init. Qed.

Lemma peer_init_outcomes_witness :
  let g := Globals 0 [] 0 0 [] (fun n => if (n =? 0)%nat then (3, 0) else (-1, 111)) [] in
  outcomes emp%I g (peer_init 16909060 6881 PNull PNull)
    (fun r g' => ⌜⌜3 ≠ -1 ∧ -1 ≠ -1
         ∧ syslog g' = [] ++ [("socket"%string, [2; 1; 6]);
                              ("connect"%string, 3 :: 2 :: be16 6881 ++ be32 16909060)]⌝⌝
       ∗ ∃ l, ⌜⌜r = obj_ptr l⌝⌝ ∗ unlinked l (new_peer 16909060 6881 PNull PNull))%I
    (fun f => f = NullDeref ∧ (3 = -1 ∨ -1 = -1)).
Proof.
  apply (peer_init_outcomes 16909060 6881 PNull PNull
    (Globals 0 [] 0 0 [] (fun n => if (n =? 0)%nat then (3, 0) else (-1, 111)) [])).
  - reflexivity.
  - intros [|n]; cbn; lia.
Defined.
