(* ===== verification/Socket.v ===== *)
(** * src/bt_socket.c: sending over sockets

    Sockets, the retry loops around the system calls, and the queue of buffers
    and send units.  What is written to stderr is not modelled.  The sources do
    not declare [struct send_buf] and [struct send_unit]; their members are
    those the functions use, and a reference count is an unbounded number. *)

From iris.proofmode Require Import environments proofmode.
From S2P Require Import Prelude CTypes HProp CMem CWp CLib Trace DList BParse PeerMsg PeerManage.
Set Warnings "-rewrite-rw".
Open Scope Z_scope.

Definition BT_IPPROTO_TCP : Z := 100.
Definition BT_IPPROTO_UDP : Z := 101.

Definition EINTR : Z := 4.
Definition EADDRINUSE : Z := 98.
Definition ENOBUFS : Z := 105.
Definition EISCONN : Z := 106.
Definition ETIMEDOUT : Z := 110.
Definition EINPROGRESS : Z := 115.
Definition MSG_DONTWAIT : Z := 64.
Definition F_GETFD : Z := 1.
Definition F_SETFD : Z := 2.
Definition O_NONBLOCK : Z := 2048.

(** ** Sockets *)

(** htons() and ntohs() on a little-endian machine. *)
Definition swap16 (z : Z) : Z := Z.lor (Z.shiftl (Z.land z 255) 8) (Z.shiftr (u16 z) 8).
Definition htons : Z -> Z := swap16.
Definition ntohs : Z -> Z := swap16.

Definition get_fd_by_port (port : Z) : Z := 0.

Definition set_nonblock (fd : Z) : M unit :=
  status ← syscall "fcntl" [fd; F_GETFD];
  _ ← syscall "fcntl" [fd; F_SETFD; Z.lor status O_NONBLOCK];
  mret tt.

Definition set_block (fd : Z) : M unit :=
  status ← syscall "fcntl" [fd; F_GETFD];
  _ ← syscall "fcntl" [fd; F_SETFD; Z.lxor status O_NONBLOCK];
  mret tt.

Definition sockaddr_args (a : sockaddr_in) : list Z := [sin_family a; sin_port a; sin_addr a].

(** The statements from BIND_RETRY on; the address is returned with the
    descriptor, since the port in it may change. *)
Fixpoint bind_retry (fuel : nat) (fd : Z) (source : sockaddr_in) (retry : bool) : M (Z * sockaddr_in) :=
  match fuel with
  | O => no_fuel
  | S fuel =>
      ret ← syscall "bind" (fd :: sockaddr_args source);
      if ret =? -1 then
        g ← get_env;
        if errno g =? EADDRINUSE then
          if retry then
            let port := u16 (sin_port source + (ntohs (sin_port source) + 5)) in
            bind_retry fuel fd (SockaddrIn (sin_family source) (htons port) (sin_addr source)) retry
          else mret (-1, source)
        else if errno g =? ENOBUFS then bind_retry fuel fd source retry
        else mret (-1, source)
      else
        _ ← set_nonblock fd;
        mret (fd, source)
  end.

(** From SOCKET_RETRY on. *)
Fixpoint init_socket (fuel : nat) (source : sockaddr_in) (flag : Z) (retry : bool) : M (Z * sockaddr_in) :=
  match fuel with
  | O => no_fuel
  | S fuel =>
      if (flag =? BT_IPPROTO_TCP) || (flag =? BT_IPPROTO_UDP) then
        fd ← (if flag =? BT_IPPROTO_TCP then syscall "socket" [AF_INET; SOCK_STREAM; IPPROTO_TCP]
              else syscall "socket" [AF_INET; SOCK_DGRAM; IPPROTO_UDP]);
        if fd =? -1 then
          g ← get_env;
          if retry && (errno g =? ENOBUFS) then init_socket fuel source flag retry
          else mret (-1, source)
        else bind_retry fuel fd source retry
      else mret (-1, source)
  end.

(** The loop of sendall: [n] is the result of the last call, if there was one. *)
Fixpoint sendall_loop (fuel : nat) (fd : Z) (buf : ptr) (len total bytesleft : Z) (n : option Z) :
    M (Z * option Z) :=
  match fuel with
  | O => no_fuel
  | S fuel =>
      if total <? len then
        q ← ptr_add buf total;
        n ← sys_send fd q bytesleft 0;
        if n =? -1 then mret (total, Some n)
        else sendall_loop fuel fd buf len (total + n) (bytesleft - n) (Some n)
      else mret (total, n)
  end.

(** The result and the new value of *len; without an iteration the result
    depends on an uninitialised variable. *)
Definition sendall (fuel : nat) (fd : Z) (buf : ptr) (len : Z) : M (Z * Z) :=
  '(total, n) ← sendall_loop fuel fd buf len 0 len None;
  match n with
  | Some n => mret (if n =? -1 then -1 else 0, total)
  | None => fail Indeterminate
  end.

(** CONNECT_RETRY; [true] when the connection can be used. *)
Fixpoint connect_retry (fuel : nat) (fd : Z) (dest : sockaddr_in) (retry : Z) : M bool :=
  match fuel with
  | O => no_fuel
  | S fuel =>
      ret ← syscall "connect" (fd :: sockaddr_args dest);
      if ret =? -1 then
        g ← get_env;
        let e := errno g in
        if (e =? EADDRINUSE) || (e =? EINPROGRESS) || (e =? EISCONN) then mret true
        else if (e =? EINTR) || (e =? ETIMEDOUT) then
          if 5 <? retry then mret false
          else connect_retry fuel fd dest (retry + 1)
        else mret false
      else mret true
  end.

(** The result, and what is left in *source. *)
Definition bt_sync_send (fuel : nat) (dest source : sockaddr_in) (buf : ptr) (buflen timeout flag : Z) :
    M (Z * sockaddr_in) :=
  let fd := 0 in
  '(fd, source) ←
    (let same := if fd =? get_fd_by_port (ntohs (sin_port source)) then 1 else 0 in
     if same =? 0 then init_socket fuel source flag true else mret (fd, source));
  if fd =? -1 then mret (-1, source)
  else if flag =? BT_IPPROTO_TCP then
    ok ← connect_retry fuel fd dest 0;
    if (ok : bool) then
      _ ← sys_send fd buf buflen MSG_DONTWAIT;
      mret (0, source)
    else mret (-1, source)
  else if flag =? BT_IPPROTO_UDP then
    _ ← sendall fuel fd buf buflen;
    mret (0, source)
  else mret (0, source).

(** ** The queue *)

Definition set_ref_count (n : Z) (x : send_buf) : send_buf := SendBuf (sb_buf x) (sb_buflen x) n.

Definition add_send_buf_ref_count (p : ptr) : M unit :=
  x ← load send_buf p; store p (set_ref_count (sb_ref_count x + 1) x).

Definition del_send_buf_ref_count (p : ptr) : M unit :=
  x ← load send_buf p; store p (set_ref_count (sb_ref_count x - 1) x).

(** !memcmp(p, q, n) *)
Definition memcmp_eq (p q : ptr) (n : Z) : M bool :=
  xs ← read_bytes p (u64 n);
  ys ← read_bytes q (u64 n);
  match all_init xs, all_init ys with
  | Some a, Some b => mret (bool_decide (a = b))
  | _, _ => fail Indeterminate
  end.

Section queue.
Context (send_buf_list send_unit_list : loc).

Definition get_send_buf (fuel : nat) (buf : ptr) (buflen : Z) : M ptr :=
  found ← list_for_each_entry fuel (obj_ptr send_buf_list) (fun p =>
            x ← load send_buf p;
            if sb_buflen x =? buflen then
              same ← memcmp_eq (sb_buf x) buf buflen;
              if (same : bool) then
                _ ← add_send_buf_ref_count p;
                mret (Some p)
              else mret None
            else mret None);
  match found with
  | Some p => mret p
  | None =>
      p ← malloc (SendBuf PUndef 0 0);
      if negb (is_null p) then
        _ ← store_node p (ListHead PNull PNull);
        _ ← store p (SendBuf buf buflen 0);
        _ ← add_send_buf_ref_count p;
        _ ← list_add_tail p (obj_ptr send_buf_list);
        mret p
      else mret p
  end.

Definition del_send_buf (p : ptr) : M unit :=
  x ← load send_buf p;
  if sb_ref_count x =? 0 then
    _ ← free (sb_buf x);
    list_del p
  else del_send_buf_ref_count p.

Definition set_unit_ref (n : Z) (x : send_unit) : send_unit :=
  SendUnit (su_dest x) (su_source x) (su_buf x) (su_cb x) (su_arg x) (su_timeout x) (su_retry x) n.

Definition add_send_unit_ref (p : ptr) : M unit :=
  x ← load send_unit p; store p (set_unit_ref (su_ref_count x + 1) x).

Definition del_send_unit_ref (p : ptr) : M unit :=
  x ← load send_unit p; store p (set_unit_ref (su_ref_count x - 1) x).

Definition get_send_unit (fuel : nat) (dest source : sockaddr_in) (buf : ptr) (buflen : Z)
    (cb : fn) (arg : ptr) (timeout retry : Z) : M ptr :=
  p ← malloc (SendUnit dest source PNull 0 PNull 0 0 0);
  if negb (is_null p) then
    _ ← store_node p (ListHead PNull PNull);
    b ← get_send_buf fuel buf buflen;
    _ ← store p (SendUnit dest source b cb arg timeout retry 0);
    _ ← add_send_unit_ref p;
    _ ← list_add_tail p (obj_ptr send_unit_list);
    mret p
  else mret p.

Definition free_send_unit (p : ptr) : M unit :=
  if negb (is_null p) then
    x ← load send_unit p;
    if su_ref_count x =? 0 then
      _ ← del_send_buf (su_buf x);
      _ ← list_del p;
      free p
    else del_send_unit_ref p
  else mret tt.

End queue.
