(* ===== verification/SocketCorrect.v ===== *)
(** * src/bt_socket.c: correctness *)

From iris.proofmode Require Import environments proofmode.
From S2P Require Import Prelude CTypes HProp CMem CWp CLib Trace DList BParse BSpec BRep PeerMsg PeerManage Socket.
Set Warnings "-rewrite-rw".
Open Scope Z_scope.

(** ** Sending everything *)

(** Replies of send() to calls that offer [left] bytes and then what remains:
    each call fails or takes at least one byte and at most what it was offered. *)
Fixpoint send_replies (fuel : nat) (rep : nat -> Z) (k : nat) (left : Z) : Prop :=
  match fuel with
  | O => True
  | S fuel =>
      left = 0 ∨ rep k = -1 ∨ (1 <= rep k <= left ∧ send_replies fuel rep (S k) (left - rep k))
  end.

(** The bytes the calls made the system take. *)
Fixpoint delivered (rep : nat -> Z) (k : nat) (calls : list (string * list Z)) : list Z :=
  match calls with
  | [] => []
  | c :: cs => take (Z.to_nat (rep k)) (drop 2 (snd c)) ++ delivered rep (S k) cs
  end.

Definition rep_of (g : globals) (n : nat) : Z := fst (replies g n).

Section sendall.
Context (fd : Z) (b : loc) (ds : list Z) (tl : list mbyte).
Context (Hds : Z.of_nat (length ds) < 2 ^ 31).

Lemma wp_sys_send (total : nat) flags g Q :
  (total <= length ds)%nat ->
  b ↦ ((Some <$> ds) ++ tl) ∗
  (b ↦ ((Some <$> ds) ++ tl) -∗
     Q (rep_of g (length (syslog g))) (after_call "send" (fd :: flags :: drop total ds) g))
  ⊢ wp (sys_send fd (PAt b (Z.of_nat total)) (Z.of_nat (length ds) - Z.of_nat total) flags) g Q.
Proof.
  intros Ht. iIntros "[Hb HQ]". rewrite /sys_send /u64 Z.mod_small; [|lia]. iApply wp_bind.
  rewrite -{1 2}(take_drop total ds) fmap_app -app_assoc.
  iApply (wp_read_at b _ _ (Some <$> take total ds) (Some <$> drop total ds) tl);
    [rewrite length_fmap length_take; lia|rewrite length_fmap length_drop; lia|]. iFrame "Hb". iIntros "Hb".
  rewrite all_init_fmap. iApply wp_syscall. rewrite app_assoc -fmap_app take_drop. by iApply "HQ".
Qed.

(** What the loop leaves: the total, the calls it made, and the last result. *)
Definition sendall_post (g : globals) (total : nat) (res : Z * option Z) (g' : globals) : Prop :=
  ∃ calls (total' : nat), fst res = Z.of_nat total' ∧ syslog g' = syslog g ++ calls
    ∧ delivered (rep_of g) (length (syslog g)) calls = take (total' - total) (drop total ds)
    ∧ (total <= total' <= length ds)%nat
    ∧ ((∃ n, snd res = Some n ∧ n ≠ -1 ∧ total' = length ds) ∨ snd res = Some (-1)).

Lemma rep_after name args g : rep_of (after_call name args g) = rep_of g.
Proof. rewrite /rep_of. by rewrite after_call_replies. Qed.

Lemma wp_sendall_loop fuel (total : nat) n0 g :
  (total <= length ds)%nat -> (length ds - total < fuel)%nat ->
  (total < length ds)%nat ∨ (∃ n, n0 = Some n ∧ n ≠ -1) ->
  send_replies fuel (rep_of g) (length (syslog g)) (Z.of_nat (length ds) - Z.of_nat total) ->
  b ↦ ((Some <$> ds) ++ tl)
  ⊢ wp (sendall_loop fuel fd (obj_ptr b) (Z.of_nat (length ds)) (Z.of_nat total)
          (Z.of_nat (length ds) - Z.of_nat total) n0) g
      (fun res g' => ⌜⌜sendall_post g total res g'⌝⌝ ∗ b ↦ ((Some <$> ds) ++ tl)).
Proof.
  revert total n0 g. induction fuel as [|fuel IH]; intros total n0 g Ht Hf Hn0 Hrep; [lia|].
  iIntros "Hb". cbn [sendall_loop]. destruct (Z.ltb_spec (Z.of_nat total) (Z.of_nat (length ds))) as [Hlt|Hge].
  - wp_step. rewrite Z.add_0_l. iApply wp_bind. iApply wp_sys_send; [done|]. iFrame "Hb". iIntros "Hb".
    set (r := rep_of g (length (syslog g))) in *. set (g1 := after_call _ _ g).
    destruct (Z.eqb_spec r (-1)) as [Hr|Hr].
    + wp_step. iFrame. iPureIntro. exists [("send"%string, fd :: 0 :: drop total ds)], total.
      split_and!; [done|apply after_call_log| |lia|lia|right; cbn; by rewrite Hr].
      cbn [delivered]. fold r. rewrite Hr Nat.sub_diag. done.
    + destruct Hrep as [?|[?|[Hr1 Hrep]]]; [lia|done|]. fold r in Hr1, Hrep.
      replace (Z.of_nat total + r) with (Z.of_nat (total + Z.to_nat r)) by lia.
      replace (Z.of_nat (length ds) - Z.of_nat total - r)
        with (Z.of_nat (length ds) - Z.of_nat (total + Z.to_nat r)) in Hrep |- * by lia.
      assert (Hlog : length (syslog g1) = S (length (syslog g))).
      { rewrite after_call_log length_app /=. lia. }
      iDestruct (IH (total + Z.to_nat r)%nat (Some r) g1 with "Hb") as "Hwp"; [lia|lia|right; eauto| |].
      { by rewrite Hlog rep_after. }
      iApply (wp_wand with "Hwp"). iIntros (res g') "[%Hp $]". iPureIntro.
      destruct Hp as (calls & total' & Htot & Hsys & Hdel & Hle & Hres).
      exists (("send"%string, fd :: 0 :: drop total ds) :: calls), total'.
      split_and!; [done|by rewrite Hsys after_call_log -app_assoc| |lia|lia|done].
      cbn [delivered]. fold r. rewrite Hlog rep_after in Hdel. rewrite Hdel. cbn [snd].
      rewrite -drop_drop. cbn [drop].
      replace (total' - total)%nat with (Z.to_nat r + (total' - (total + Z.to_nat r)))%nat by lia.
      by rewrite take_take_drop.
  - wp_step. iFrame. iPureIntro. exists [], total. split_and!; [done|by rewrite app_nil_r|by rewrite Nat.sub_diag|lia|lia|].
    left. destruct Hn0 as [?|(n & -> & Hn)]; [lia|]. exists n. split_and!; [done|done|lia].
Qed.

End sendall.

(** ** bt_sync_send over TCP *)

Definition on_fd0 (c : string * list Z) : Prop :=
  (fst c = "connect"%string ∨ fst c = "send"%string) ∧ head (snd c) = Some 0.

Lemma wp_connect_retry fuel dest retry g Q :
  0 <= retry <= 6 -> (Z.to_nat (7 - retry) <= fuel)%nat ->
  (∀ ok g' calls, ⌜⌜syslog g' = syslog g ++ calls ∧ Forall on_fd0 calls
     ∧ Z.of_nat (length calls) <= 7 - retry⌝⌝ -∗ Q ok g')
  ⊢ wp (connect_retry fuel 0 dest retry) g Q.
Proof.
  revert retry g. induction fuel as [|fuel IH]; intros retry g Hr Hf; [lia|].
  iIntros "HQ". cbn [connect_retry]. iApply wp_bind. iApply wp_syscall. set (g1 := after_call _ _ g).
  assert (Hlog : syslog g1 = syslog g ++ [("connect"%string, 0 :: sockaddr_args dest)]) by apply after_call_log.
  assert (Hone : Forall on_fd0 [("connect"%string, 0 :: sockaddr_args dest)]).
  { constructor; [|done]. split; [by left|done]. }
  assert (Hstop : Forall on_fd0 [("connect"%string, 0 :: sockaddr_args dest)]
    ∧ Z.of_nat (length [("connect"%string, 0 :: sockaddr_args dest)]) <= 7 - retry).
  { split; [done|]. cbn [length]. lia. }
  case_match; [|wp_step; by iApply ("HQ" $! _ _ [_])].
  wp_step. case_match; [wp_step; by iApply ("HQ" $! _ _ [_])|].
  case_match; [|wp_step; by iApply ("HQ" $! _ _ [_])].
  destruct (Z.ltb_spec 5 retry); [wp_step; by iApply ("HQ" $! _ _ [_])|].
  iApply (IH (retry + 1) g1); [lia|lia|]. iIntros (ok g' calls) "%Hc". destruct Hc as (Hsys & Hall & Hlen).
  iApply ("HQ" $! _ _ (("connect"%string, 0 :: sockaddr_args dest) :: calls)). iPureIntro. split_and!.
  - by rewrite Hsys Hlog -app_assoc.
  - apply Forall_app with (l1 := [_]). by split.
  - cbn [length]. lia.
Qed.

(** ** The queue of buffers *)

(** A buffer in the queue: its structure, its block, the bytes and the count. *)
Record qbuf := QBuf { qb_at : loc; qb_block : loc; qb_bytes : list Z; qb_refs : Z }.

Definition is_qbuf (x : qbuf) : hProp :=
  (qb_at x ↦ SendBuf (obj_ptr (qb_block x)) (Z.of_nat (length (qb_bytes x))) (qb_refs x)
   ∗ qb_block x ↦ (Some <$> qb_bytes x))%I.

Definition is_queue (h : loc) (xs : list qbuf) : hProp :=
  (dlist h (qb_at <$> xs) ∗ [∗ list] x ∈ xs, is_qbuf x)%I.

Definition more_refs (x : qbuf) : qbuf := QBuf (qb_at x) (qb_block x) (qb_bytes x) (qb_refs x + 1).

Lemma slice_all {X} (xs : list X) : slice xs 0 (Z.of_nat (length xs)) = xs.
Proof. by rewrite /slice Nat2Z.id drop_0 firstn_all. Qed.

Lemma wp_memcmp_eq a c (xs ys : list Z) g Q :
  length xs = length ys -> Z.of_nat (length ys) < 2 ^ 64 ->
  a ↦ (Some <$> xs) ∗ c ↦ (Some <$> ys) ∗
  (a ↦ (Some <$> xs) -∗ c ↦ (Some <$> ys) -∗ Q (bool_decide (xs = ys)) g)
  ⊢ wp (memcmp_eq (obj_ptr a) (obj_ptr c) (Z.of_nat (length ys))) g Q.
Proof.
  intros Hl Hlen. iIntros "(Ha & Hc & HQ)". rewrite /memcmp_eq /u64 Z.mod_small; [|lia].
  iApply wp_bind. iApply (wp_read_bytes a 0 _ (Some <$> xs)); [lia|lia|rewrite length_fmap; lia|].
  iFrame "Ha". iIntros "Ha". iApply wp_bind.
  iApply (wp_read_bytes c 0 _ (Some <$> ys)); [lia|lia|rewrite length_fmap; lia|]. iFrame "Hc". iIntros "Hc".
  assert (Hs : ∀ zs : list Z, length zs = length ys ->
    slice (Some <$> zs) 0 (Z.of_nat (length ys)) = Some <$> zs).
  { intros zs <-. rewrite -(length_fmap Some zs). apply slice_all. }
  rewrite !Hs // !all_init_fmap. wp_step. iApply ("HQ" with "Ha Hc").
Qed.

(** Whether a queue has the bytes already, and where. *)
Fixpoint find_bytes (ds : list Z) (xs : list qbuf) : option (list qbuf * qbuf * list qbuf) :=
  match xs with
  | [] => None
  | x :: xs' =>
      if decide (qb_bytes x = ds) then Some ([], x, xs')
      else match find_bytes ds xs' with
           | Some (us, y, vs) => Some (x :: us, y, vs)
           | None => None
           end
  end.

Lemma find_bytes_Some ds xs us y vs :
  find_bytes ds xs = Some (us, y, vs) ->
  xs = us ++ y :: vs ∧ qb_bytes y = ds ∧ Forall (fun x => qb_bytes x ≠ ds) us.
Proof.
  revert us y vs. induction xs as [|x xs IH]; intros us y vs H; [done|]. cbn in H. destruct (decide _) as [He|He].
  - injection H as <- <- <-. done.
  - destruct (find_bytes ds xs) as [[[us' y'] vs']|]; [|done]. injection H as <- <- <-.
    destruct (IH us' y' vs' eq_refl) as (-> & Hy & Hus). split_and!; [done|done|by constructor].
Qed.

Lemma find_bytes_app ds us y vs :
  Forall (fun x => qb_bytes x ≠ ds) us -> qb_bytes y = ds -> find_bytes ds (us ++ y :: vs) = Some (us, y, vs).
Proof.
  intros Hus Hy. induction Hus as [|x us Hx _ IH]; cbn; [by rewrite decide_True|].
  by rewrite decide_False // IH.
Qed.

Lemma find_bytes_None ds xs : Forall (fun x => qb_bytes x ≠ ds) xs -> find_bytes ds xs = None.
Proof. induction 1 as [|x xs Hx _ IH]; cbn; [done|]. by rewrite decide_False // IH. Qed.

Lemma wp_get_send_buf h F c ds xs g Q :
  oom g = [] -> (length xs < F)%nat -> Z.of_nat (length ds) < 2 ^ 31 ->
  is_queue h xs ∗ c ↦ (Some <$> ds) ∗
  (match find_bytes ds xs with
   | Some (us, y, vs) => is_queue h (us ++ more_refs y :: vs) -∗ c ↦ (Some <$> ds) -∗ Q (obj_ptr (qb_at y)) g
   | None => ∀ l, is_queue h (xs ++ [QBuf l c ds 1]) -∗ Q (obj_ptr l) g
   end)
  ⊢ wp (get_send_buf h F (obj_ptr c) (Z.of_nat (length ds))) g Q.
Proof.
  intros Hoom HF Hlen. iIntros "([Hr Hxs] & Hc & HQ)". rewrite /get_send_buf.
  set (Inv := fun (ls : list loc) (g' : globals) => (∃ us vs, ⌜⌜xs = us ++ vs ∧ ls = qb_at <$> us
    ∧ Forall (fun x => qb_bytes x ≠ ds) us ∧ g' = g⌝⌝ ∗ ([∗ list] x ∈ xs, is_qbuf x) ∗ c ↦ (Some <$> ds))%I).
  set (Post := fun (r : ptr) (g' : globals) => (∃ us y vs, ⌜⌜xs = us ++ y :: vs ∧ r = obj_ptr (qb_at y)
    ∧ find_bytes ds xs = Some (us, y, vs) ∧ g' = g⌝⌝ ∗ ([∗ list] x ∈ (us ++ more_refs y :: vs), is_qbuf x)
    ∗ c ↦ (Some <$> ds))%I).
  iApply wp_bind. iApply (wp_wand with "[Hr Hxs Hc]").
  { iApply (wp_list_for_each_entry F h (qb_at <$> xs) _ Inv Post); [by rewrite length_fmap| |].
    - intros ls l ls' g' Hls. iIntros "(%us & %vs & %H & Hxs & Hc)". destruct H as (Hxs & -> & Hus & ->).
      rewrite Hxs fmap_app in Hls. apply app_inv_head in Hls. destruct vs as [|y vs]; [done|].
      cbn in Hls. injection Hls as <- <-. rewrite {1}Hxs big_sepL_app big_sepL_cons {2}/is_qbuf.
      iDestruct "Hxs" as "(H1 & [Hy Hb] & H2)". wp_step. cbn [sb_buflen sb_buf].
      assert (Hgo : ∀ P : Prop, (P -> qb_bytes y ≠ ds) -> P ->
        ([∗ list] x ∈ us, is_qbuf x) ∗ qb_at y ↦ SendBuf (obj_ptr (qb_block y)) (Z.of_nat (length (qb_bytes y))) (qb_refs y)
        ∗ qb_block y ↦ (Some <$> qb_bytes y) ∗ ([∗ list] x ∈ vs, is_qbuf x) ∗ c ↦ (Some <$> ds)
        ⊢ Inv ((qb_at <$> us) ++ [qb_at y]) g).
      { intros P HP p. iIntros "(H1 & Hy & Hb & H2 & Hc)". iExists (us ++ [y]), vs. iSplitR.
        - iPureIntro. rewrite fmap_app -app_assoc. split_and!; [done|done| |done].
          apply Forall_app. split; [done|]. constructor; [by apply HP|done].
        - iFrame "Hc". rewrite Hxs big_sepL_app big_sepL_cons. rewrite {2}/is_qbuf. iFrame. }
      destruct (Z.eqb_spec (Z.of_nat (length (qb_bytes y))) (Z.of_nat (length ds))) as [He|He]; last first.
      { wp_step. iApply (Hgo _ (fun H => H)); [congruence|]. iFrame. }
      iApply wp_bind. iApply (wp_memcmp_eq (qb_block y) c (qb_bytes y) ds); [lia|lia|]. iFrame "Hb Hc".
      iIntros "Hb Hc". case_bool_decide as Heq; last first.
      { wp_step. iApply (Hgo _ (fun H => H)); [done|]. iFrame. }
      rewrite /add_send_buf_ref_count. wp_steps. iExists us, y, vs. iFrame "Hc". iSplitR.
      + iPureIntro. split_and!; [done|done| |done]. rewrite Hxs. by apply find_bytes_app.
      + rewrite big_sepL_app big_sepL_cons. iFrame "H1 H2". rewrite /is_qbuf. iFrame.
    - iFrame "Hr". iExists [], xs. by iFrame. }
  iIntros (r g') "[Hr H]". destruct r as [r|].
  - iDestruct "H" as "(%us & %y & %vs & %H & Hxs & Hc)". destruct H as (Hxs & -> & Hfind & ->). wp_step.
    rewrite Hfind. iApply ("HQ" with "[Hr Hxs] Hc"). rewrite /is_queue. iFrame "Hxs".
    rewrite Hxs !fmap_app. iFrame.
  - iDestruct "H" as "(%us & %vs & %H & Hxs & Hc)". destruct H as (Hxs & Hls & Hus & ->).
    assert (vs = []) as ->.
    { apply (f_equal length) in Hls. rewrite Hxs !length_fmap length_app in Hls. apply nil_length_inv. lia. }
    rewrite app_nil_r in Hxs. subst us. rewrite find_bytes_None //.
    iApply wp_bind. iApply wp_malloc; [done|]. iIntros (l) "Hl Hn". change (node_of send_buf) with true. cbn match.
    rewrite /is_null bool_decide_false //. cbn [negb]. rewrite /add_send_buf_ref_count. wp_steps.
    iApply wp_bind. iApply wp_list_add_tail. iFrame "Hr Hn". iIntros "Hr". wp_step. iApply "HQ".
    rewrite /is_queue fmap_app. iFrame "Hr". rewrite big_sepL_app. iFrame "Hxs". rewrite big_sepL_singleton.
    rewrite /is_qbuf. iFrame.
Qed.

Definition with_refs (n : Z) (x : qbuf) : qbuf := QBuf (qb_at x) (qb_block x) (qb_bytes x) n.

(** A structure that is out of the queue, its block released. *)
Definition stale_qbuf (x : qbuf) : hProp :=
  (qb_at x ↦ SendBuf (obj_ptr (qb_block x)) (Z.of_nat (length (qb_bytes x))) 0
   ∗ (qb_at x) ↦ₙ (LIST_POISON1, LIST_POISON2))%I.

Lemma wp_del_send_buf h us x vs g Q :
  is_queue h (us ++ x :: vs) ∗
  (if qb_refs x =? 0 then is_queue h (us ++ vs) -∗ stale_qbuf x -∗ Q tt g
   else is_queue h (us ++ with_refs (qb_refs x - 1) x :: vs) -∗ Q tt g)
  ⊢ wp (del_send_buf (obj_ptr (qb_at x))) g Q.
Proof.
  iIntros "[[Hr Hxs] HQ]". rewrite fmap_app fmap_cons big_sepL_app big_sepL_cons.
  iDestruct "Hxs" as "(H1 & [Hx Hb] & H2)". rewrite /del_send_buf. wp_step. cbn [sb_ref_count sb_buf].
  destruct (Z.eqb_spec (qb_refs x) 0) as [Hz|Hz].
  - iApply wp_bind. iApply (wp_free (T := list mbyte)). iFrame "Hb". iSplitR; [done|].
    iApply (wp_list_del_at h). iFrame "Hr". iIntros "Hr Hn". iApply ("HQ" with "[Hr H1 H2]").
    + rewrite /is_queue fmap_app big_sepL_app. iFrame.
    + rewrite /stale_qbuf Hz. iFrame.
  - rewrite /del_send_buf_ref_count. wp_steps. iApply "HQ".
    rewrite /is_queue fmap_app fmap_cons big_sepL_app big_sepL_cons. iFrame.
Qed.

(** [n] releases of the same buffer. *)
Fixpoint release_times (n : nat) (p : ptr) : M unit :=
  match n with
  | O => mret tt
  | S n => _ ← del_send_buf p; release_times n p
  end.

Lemma wp_release_times (n : nat) h us x vs g Q :
  Z.of_nat n <= qb_refs x ->
  is_queue h (us ++ x :: vs) ∗ (is_queue h (us ++ with_refs (qb_refs x - Z.of_nat n) x :: vs) -∗ Q tt g)
  ⊢ wp (release_times n (obj_ptr (qb_at x))) g Q.
Proof.
  revert x. induction n as [|n IH]; intros x Hn; iIntros "[Hq HQ]"; cbn [release_times].
  - wp_step. iApply "HQ". rewrite Z.sub_0_r. by destruct x.
  - iApply wp_bind. iApply (wp_del_send_buf h us x vs). iFrame "Hq".
    rewrite (proj2 (Z.eqb_neq (qb_refs x) 0)); [|lia]. iIntros "Hq".
    iApply (IH (with_refs (qb_refs x - 1) x)); [cbn; lia|]. iFrame "Hq". iIntros "Hq". iApply "HQ".
    rewrite /with_refs. cbn [qb_at qb_block qb_bytes qb_refs].
    by replace (qb_refs x - 1 - Z.of_nat n) with (qb_refs x - Z.of_nat (S n)) by lia.
Qed.

(** ** Properties *)

(** Without a byte to send the result is that of no call. *)
Lemma sendall_empty F fd p : sendall (S F) fd p 0 = fail Indeterminate.
Proof. reflexivity. Qed.

(** C24: [sendall], for a buffer that is not empty and a socket whose send() never
    returns 0 (each call fails or takes at least one byte): it terminates, and what
    the socket took, in order and without repetition, is a prefix of the buffer
    whose length is stored in *len; the result is 0 only if that is the whole
    buffer, and otherwise -1. *)
Theorem sendall_delivers fd b ds tl F g :
  0 < Z.of_nat (length ds) < 2 ^ 31 -> (length ds < F)%nat ->
  send_replies F (rep_of g) (length (syslog g)) (Z.of_nat (length ds)) ->
  triple (b ↦ ((Some <$> ds) ++ tl))%I g (sendall F fd (obj_ptr b) (Z.of_nat (length ds)))
    (fun res g' => ⌜⌜∃ calls (n : nat), snd res = Z.of_nat n ∧ syslog g' = syslog g ++ calls
         ∧ delivered (rep_of g) (length (syslog g)) calls = take n ds ∧ (n <= length ds)%nat
         ∧ (fst res = 0 ∧ n = length ds ∨ fst res = -1)⌝⌝ ∗ b ↦ ((Some <$> ds) ++ tl))%I.
Proof.
  intros Hds HF Hrep. apply triple_wp. iIntros "Hb". rewrite /sendall. iApply wp_bind.
  iApply (wp_wand with "[Hb]").
  { iPoseProof (wp_sendall_loop fd b ds tl ltac:(lia) F 0 None g) as "H"; [lia|lia|lia|by rewrite Z.sub_0_r|].
    rewrite Z.sub_0_r. by iApply "H". }
  iIntros ([t n] g') "[%Hp Hb]". destruct Hp as (calls & total & Ht & Hsys & Hdel & Hle & Hres).
  cbn [fst snd] in Ht, Hres. subst t. rewrite Nat.sub_0_r drop_0 in Hdel.
  destruct Hres as [(m & -> & Hm & ->)| ->].
  - rewrite (proj2 (Z.eqb_neq m (-1))) //. wp_step. iFrame. iPureIntro.
    exists calls, (length ds). split_and!; [done|done|done|lia|by left].
  - wp_step. iFrame. iPureIntro. exists calls, total. split_and!; [done|done|done|lia|by right].
Qed.

Lemma sendall_delivers_witness :
  let g := Globals 0 [] 0 0 [] (fun n => if (n =? 0)%nat then (2, 0) else (1, 0)) [] in
  let ds := [1; 2; 3] in
  triple (1%positive ↦ ((Some <$> ds) ++ []))%I g (sendall 4 7 (obj_ptr 1) 3)
    (fun res g' => ⌜⌜∃ calls (n : nat), snd res = Z.of_nat n ∧ syslog g' = [] ++ calls
         ∧ delivered (rep_of g) 0 calls = take n ds ∧ (n <= 3)%nat
         ∧ (fst res = 0 ∧ n = 3%nat ∨ fst res = -1)⌝⌝ ∗ 1%positive ↦ ((Some <$> ds) ++ []))%I.
Proof.
  apply (sendall_delivers 7 1 [1; 2; 3] [] 4 (Globals 0 [] 0 0 [] (fun n => if (n =? 0)%nat then (2, 0) else (1, 0)) []));
    [cbn; lia|cbn; lia|].
  cbn. right. right. split; [lia|]. right. right. split; [lia|]. left. reflexivity.
Defined.

(** [bt_sync_send] over TCP never makes a socket, whatever the system
    answers: the comparison in its first condition stands where an assignment
    was meant, and every call goes to descriptor 0, the standard input; at most
    seven connection attempts and one send, and the source address stays as it
    was. *)
Theorem bt_sync_send_fd0 F dest source b ds tl timeout g :
  (7 <= F)%nat -> Z.of_nat (length ds) < 2 ^ 31 ->
  triple (b ↦ ((Some <$> ds) ++ tl))%I g
    (bt_sync_send F dest source (obj_ptr b) (Z.of_nat (length ds)) timeout BT_IPPROTO_TCP)
    (fun r g' => ⌜⌜snd r = source ∧ ∃ calls, syslog g' = syslog g ++ calls ∧ Forall on_fd0 calls
         ∧ (length calls <= 8)%nat⌝⌝
       ∗ b ↦ ((Some <$> ds) ++ tl))%I.
Proof.
  intros HF Hds. apply triple_wp. iIntros "Hb". rewrite /bt_sync_send /get_fd_by_port. cbv zeta.
  cbn [Z.eqb]. iApply wp_bind. iApply wp_ret. cbn [Z.eqb]. iApply wp_bind.
  iApply wp_connect_retry; [lia|lia|]. iIntros (ok g1 calls) "%H". destruct H as (Hsys & Hall & Hlen).
  destruct ok; last first.
  { wp_step. iFrame. iPureIntro. split; [done|]. exists calls. split_and!; [done|done|lia]. }
  iApply wp_bind. iPoseProof (wp_sys_send 0 b ds tl Hds 0 MSG_DONTWAIT g1) as "H"; [lia|].
  rewrite Z.sub_0_r. iApply "H". iFrame "Hb". iIntros "Hb". wp_step. iFrame. iPureIntro.
  split; [done|]. eexists (calls ++ [_]). rewrite after_call_log Hsys -app_assoc. split_and!; [done| |rewrite length_app /=; lia].
  apply Forall_app. split; [done|]. constructor; [|done]. split; [by right|done].
Qed.

Lemma bt_sync_send_fd0_witness :
  triple (1%positive ↦ ((Some <$> [5; 6]) ++ []))%I quiet_globals
    (bt_sync_send 9 (SockaddrIn 2 80 1) (SockaddrIn 2 81 0) (obj_ptr 1) 2 0 BT_IPPROTO_TCP)
    (fun r g' => ⌜⌜snd r = SockaddrIn 2 81 0 ∧ ∃ calls, syslog g' = [] ++ calls ∧ Forall on_fd0 calls
         ∧ (length calls <= 8)%nat⌝⌝
       ∗ 1%positive ↦ ((Some <$> [5; 6]) ++ []))%I.
Proof.
  apply (bt_sync_send_fd0 9 (SockaddrIn 2 80 1) (SockaddrIn 2 81 0) 1 [5; 6] [] 0 quiet_globals); cbn; lia.
Defined.

(** The queue keeps one copy of equal contents: asking for a buffer with
    bytes that are queued already returns the first such entry with one more
    reference and leaves the caller's block alone; otherwise the block becomes
    the last entry, with one reference. *)
Theorem get_send_buf_shares h F c ds xs g :
  oom g = [] -> (length xs < F)%nat -> Z.of_nat (length ds) < 2 ^ 31 ->
  triple (is_queue h xs ∗ c ↦ (Some <$> ds))%I g (get_send_buf h F (obj_ptr c) (Z.of_nat (length ds)))
    (fun r g' => ⌜⌜g' = g⌝⌝ ∗
       match find_bytes ds xs with
       | Some (us, y, vs) => ⌜⌜r = obj_ptr (qb_at y) ∧ xs = us ++ y :: vs ∧ qb_bytes y = ds⌝⌝
           ∗ is_queue h (us ++ more_refs y :: vs) ∗ c ↦ (Some <$> ds)
       | None => ∃ l, ⌜⌜r = obj_ptr l⌝⌝ ∗ is_queue h (xs ++ [QBuf l c ds 1])
       end)%I.
Proof.
  intros Hoom HF Hlen. apply triple_wp. iIntros "[Hq Hc]". iApply (wp_get_send_buf h F c ds xs); [done..|].
  iFrame "Hq Hc". destruct (find_bytes ds xs) as [[[us y] vs]|] eqn:Hf.
  - apply find_bytes_Some in Hf as (-> & Hy & _). iIntros "Hq Hc". by iFrame.
  - iIntros (l) "Hq". iSplitR; [done|]. iExists l. by iFrame.
Qed.

Lemma get_send_buf_shares_witness :
  let xs := [QBuf 2 3 [9; 9] 1; QBuf 4 5 [7] 1] in
  triple (is_queue 1 xs ∗ 8%positive ↦ (Some <$> [7]))%I quiet_globals (get_send_buf 1 5 (obj_ptr 8) 1)
    (fun r g' => ⌜⌜g' = quiet_globals⌝⌝ ∗
       (⌜⌜r = obj_ptr 4 ∧ xs = [QBuf 2 3 [9; 9] 1] ++ QBuf 4 5 [7] 1 :: [] ∧ [7] = [7]⌝⌝
           ∗ is_queue 1 ([QBuf 2 3 [9; 9] 1] ++ more_refs (QBuf 4 5 [7] 1) :: []) ∗ 8%positive ↦ (Some <$> [7])))%I.
Proof.
  apply (get_send_buf_shares 1 5 8 [7] [QBuf 2 3 [9; 9] 1; QBuf 4 5 [7] 1] quiet_globals);
    [reflexivity|cbn; lia|cbn; lia].
Defined.

(** Giving up as many references as were taken does not release a buffer:
    after that many calls of [del_send_buf] it is still queued, with a count of
    zero and its block allocated. *)
Theorem del_send_buf_keeps (n : nat) h us x vs g :
  qb_refs x = Z.of_nat n ->
  triple (is_queue h (us ++ x :: vs)) g (release_times n (obj_ptr (qb_at x)))
    (fun _ g' => ⌜⌜g' = g⌝⌝ ∗ is_queue h (us ++ with_refs 0 x :: vs))%I.
Proof.
  intros Hn. apply triple_wp. iIntros "Hq". iApply (wp_release_times n h us x vs); [lia|]. iFrame "Hq".
  iIntros "Hq". rewrite Hn Z.sub_diag. by iFrame.
Qed.

Lemma del_send_buf_keeps_witness :
  triple (is_queue 1 ([] ++ QBuf 2 3 [9] 1 :: [])) quiet_globals (release_times 1 (obj_ptr 2))
    (fun _ g' => ⌜⌜g' = quiet_globals⌝⌝ ∗ is_queue 1 ([] ++ with_refs 0 (QBuf 2 3 [9] 1) :: []))%I.
Proof. apply (del_send_buf_keeps 1 1 [] (QBuf 2 3 [9] 1) [] quiet_globals). reflexivity. Defined.
