(* ===== verification/EvBuffer.v ===== *)
(** * libevent/buffer.c: event buffers

    An [evbuffer] is a queue of bytes kept in a singly linked list of chains,
    each with a block of memory of which a part in the middle is in use.  The
    model keeps the list reachable from [first] as a list of chains that carry
    their address ([c_id]); the [next] pointers are the adjacency of the list.
    [last] is a pointer to a chain; [last_with_datap], a pointer to the pointer
    that points to the last chain with data, is a [link]: the field [first] of
    the buffer or the field [next] of a chain.  Nothing guarantees that these
    two are up to date: that is the invariant of EvBufSpec.

    Locking is left out (a buffer without a lock).  The functions registered on
    a buffer are run as the code runs them, and what they are called with is
    recorded; they do not touch the buffer.  Also left out are the reference
    count of a buffer and the bufferevent it may belong to, and the number that
    advance_last_with_data returns, which no caller uses.  [Cleanup] records the
    call of the cleanup function of a reference, if it has one. *)

From S2P Require Import Prelude CTypes HProp CMem.
Open Scope Z_scope.

(** ** Data (evbuffer-internal.h) *)

Abbreviation id := positive.

Definition EVBUFFER_MMAP : Z := 1.
Definition EVBUFFER_SENDFILE : Z := 2.
Definition EVBUFFER_REFERENCE : Z := 4.
Definition EVBUFFER_IMMUTABLE : Z := 8.
Definition EVBUFFER_MEM_PINNED_R : Z := 16.
Definition EVBUFFER_MEM_PINNED_W : Z := 32.
Definition EVBUFFER_MEM_PINNED_ANY : Z := Z.lor EVBUFFER_MEM_PINNED_R EVBUFFER_MEM_PINNED_W.
Definition EVBUFFER_DANGLING : Z := 64.

Definition MIN_BUFFER_SIZE : Z := 1024.
Definition EV_SIZE_MAX : Z := 2 ^ 64 - 1.
Definition EV_SSIZE_MAX : Z := 2 ^ 63 - 1.
Definition EVBUFFER_CHAIN_MAX : Z := EV_SSIZE_MAX.
Definition EVBUFFER_CHAIN_MAX_AUTO_SIZE : Z := 4096.
(** sizeof(struct evbuffer_chain) *)
Definition EVBUFFER_CHAIN_SIZE : Z := 48.

Definition EVBUFFER_CB_ENABLED : Z := 1.
Definition EVBUFFER_CB_NODEFER : Z := 2.
Definition EVBUFFER_CB_OBSOLETE : Z := 0x40000.

(** [c_data] is the memory that the field [buffer] points to. *)
Record evbuffer_chain := Chain {
  c_id : id;
  buffer_len : Z;
  misalign : Z;
  off : Z;
  c_flags : Z;
  c_data : list mbyte }.

Inductive link := LFirst | LNext (i : id).

#[export] Instance link_eq_dec : EqDecision link.
Proof. solve_decision. Defined.

Record evbuffer_cb_info := CbInfo { orig_size : Z; n_added : Z; n_deleted : Z }.
Record evbuffer_cb_entry := CbEntry { cb_func : Z; cb_flags : Z }.

Record evbuffer := Evbuffer {
  chains : list evbuffer_chain;
  last : option id;
  last_with_datap : link;
  total_len : Z;
  n_add_for_cb : Z;
  n_del_for_cb : Z;
  freeze_start : bool;
  freeze_end : bool;
  deferred_cbs : bool;
  deferred_queued : bool;
  callbacks : list evbuffer_cb_entry }.

(** What the functions do besides changing buffers. *)
Inductive effect :=
| Freed (i : id)
| Dangling (i : id)
| Cleanup (i : id) (len : Z)
| Unmapped (i : id)
| Closed (i : id)
| Scheduled
| Called (cb : Z) (info : evbuffer_cb_info)
| CalledObsolete (cb : Z) (old new : Z).

(** The allocator: the next address, and the outcomes of the coming requests
    (all succeed after the end of the list). *)
Record evenv := EvEnv { next_id : id; ev_oom : list bool; effects : list effect }.

Definition E (A : Type) : Type := evenv -> fault + (A * evenv).

#[export] Instance E_ret : MRet E := fun A a e => inr (a, e).
#[export] Instance E_bind : MBind E := fun A B k m e =>
  match m e with
  | inl f => inl f
  | inr (a, e') => k a e'
  end.

Definition e_fail {A} (f : fault) : E A := fun _ => inl f.
Definition EVUTIL_ASSERT (b : bool) : E unit := if b then mret tt else e_fail AssertFailed.
Definition emit (x : effect) : E unit := fun e =>
  inr (tt, EvEnv (next_id e) (ev_oom e) (effects e ++ [x])).

(** ** Fields *)

Definition set_data (d : list mbyte) (c : evbuffer_chain) : evbuffer_chain :=
  Chain (c_id c) (buffer_len c) (misalign c) (off c) (c_flags c) d.
Definition set_span (m o : Z) (c : evbuffer_chain) : evbuffer_chain :=
  Chain (c_id c) (buffer_len c) m o (c_flags c) (c_data c).
Definition set_flags (f : Z) (c : evbuffer_chain) : evbuffer_chain :=
  Chain (c_id c) (buffer_len c) (misalign c) (off c) f (c_data c).

Definition set_chains (cs : list evbuffer_chain) (b : evbuffer) : evbuffer :=
  Evbuffer cs (last b) (last_with_datap b) (total_len b) (n_add_for_cb b) (n_del_for_cb b)
    (freeze_start b) (freeze_end b) (deferred_cbs b) (deferred_queued b) (callbacks b).
Definition set_last (l : option id) (b : evbuffer) : evbuffer :=
  Evbuffer (chains b) l (last_with_datap b) (total_len b) (n_add_for_cb b) (n_del_for_cb b)
    (freeze_start b) (freeze_end b) (deferred_cbs b) (deferred_queued b) (callbacks b).
Definition set_datap (p : link) (b : evbuffer) : evbuffer :=
  Evbuffer (chains b) (last b) p (total_len b) (n_add_for_cb b) (n_del_for_cb b)
    (freeze_start b) (freeze_end b) (deferred_cbs b) (deferred_queued b) (callbacks b).
Definition set_total (n : Z) (b : evbuffer) : evbuffer :=
  Evbuffer (chains b) (last b) (last_with_datap b) n (n_add_for_cb b) (n_del_for_cb b)
    (freeze_start b) (freeze_end b) (deferred_cbs b) (deferred_queued b) (callbacks b).
Definition set_counts (a d : Z) (b : evbuffer) : evbuffer :=
  Evbuffer (chains b) (last b) (last_with_datap b) (total_len b) a d
    (freeze_start b) (freeze_end b) (deferred_cbs b) (deferred_queued b) (callbacks b).
Definition set_freeze (s e : bool) (b : evbuffer) : evbuffer :=
  Evbuffer (chains b) (last b) (last_with_datap b) (total_len b) (n_add_for_cb b) (n_del_for_cb b)
    s e (deferred_cbs b) (deferred_queued b) (callbacks b).
Definition set_queued (q : bool) (b : evbuffer) : evbuffer :=
  Evbuffer (chains b) (last b) (last_with_datap b) (total_len b) (n_add_for_cb b) (n_del_for_cb b)
    (freeze_start b) (freeze_end b) (deferred_cbs b) q (callbacks b).
Definition set_callbacks (l : list evbuffer_cb_entry) (b : evbuffer) : evbuffer :=
  Evbuffer (chains b) (last b) (last_with_datap b) (total_len b) (n_add_for_cb b) (n_del_for_cb b)
    (freeze_start b) (freeze_end b) (deferred_cbs b) (deferred_queued b) l.

(** [buf->total_len += n; buf->n_add_for_cb += n]. *)
Definition count_added (n : Z) (b : evbuffer) : evbuffer :=
  set_counts (u64 (n_add_for_cb b + n)) (n_del_for_cb b) (set_total (u64 (total_len b + n)) b).

Definition has_flag (f flags : Z) : bool := negb (Z.land flags f =? 0).
Definition is_immutable (c : evbuffer_chain) : bool := has_flag EVBUFFER_IMMUTABLE (c_flags c).
Definition CHAIN_PINNED (c : evbuffer_chain) : bool := has_flag EVBUFFER_MEM_PINNED_ANY (c_flags c).
Definition CHAIN_PINNED_R (c : evbuffer_chain) : bool := has_flag EVBUFFER_MEM_PINNED_R (c_flags c).

Definition CHAIN_SPACE_LEN (c : evbuffer_chain) : Z :=
  if is_immutable c then 0 else u64 (buffer_len c - (misalign c + off c)).

(** ** Chains in memory *)

(** The chains from the one a link points to on. *)
Fixpoint tail_after (i : id) (cs : list evbuffer_chain) : option (list evbuffer_chain) :=
  match cs with
  | [] => None
  | c :: cs' => if decide (c_id c = i) then Some cs' else tail_after i cs'
  end.

Definition deref (cs : list evbuffer_chain) (p : link) : E (list evbuffer_chain) :=
  match p with
  | LFirst => mret cs
  | LNext i => match tail_after i cs with Some t => mret t | None => e_fail DanglingPtr end
  end.

(** [*p = t]: the chains from there on become [t]. *)
Fixpoint cut_after (i : id) (cs t : list evbuffer_chain) : option (list evbuffer_chain) :=
  match cs with
  | [] => None
  | c :: cs' => if decide (c_id c = i) then Some (c :: t) else cons c <$> cut_after i cs' t
  end.

Definition store_link (p : link) (t : list evbuffer_chain) (b : evbuffer) : E evbuffer :=
  match p with
  | LFirst => mret (set_chains t b)
  | LNext i =>
      match cut_after i (chains b) t with
      | Some cs => mret (set_chains cs b)
      | None => e_fail DanglingPtr
      end
  end.

(** [buf->last], when it is not NULL. *)
Definition get_chain (b : evbuffer) (i : option id) : E evbuffer_chain :=
  match i with
  | None => e_fail NullDeref
  | Some i =>
      match List.find (fun c => bool_decide (c_id c = i)) (chains b) with
      | Some c => mret c
      | None => e_fail DanglingPtr
      end
  end.

(** The chain at the address of [c] is changed to [c]. *)
Definition put_chain (c : evbuffer_chain) (b : evbuffer) : evbuffer :=
  set_chains ((fun x => if decide (c_id x = c_id c) then c else x) <$> chains b) b.

(** memcpy between the block of a chain and a piece of memory. *)
Definition chain_write (pos : Z) (ds : list mbyte) (c : evbuffer_chain) : E evbuffer_chain :=
  if in_range (c_data c) pos (Z.of_nat (length ds)) then mret (set_data (patch (c_data c) pos ds) c)
  else e_fail OutOfBounds.

Definition chain_read (pos n : Z) (c : evbuffer_chain) : E (list mbyte) :=
  if in_range (c_data c) pos n then mret (slice (c_data c) pos n) else e_fail OutOfBounds.

Definition mm_malloc : E (option id) := fun e =>
  match ev_oom e with
  | false :: o => inr (None, EvEnv (next_id e) o (effects e))
  | true :: o => inr (Some (next_id e), EvEnv (Pos.succ (next_id e)) o (effects e))
  | [] => inr (Some (next_id e), EvEnv (Pos.succ (next_id e)) [] (effects e))
  end.

(** The loop that doubles [to_alloc]; 64 doublings exceed any size. *)
Fixpoint grow_alloc (fuel : nat) (to_alloc size : Z) : Z :=
  match fuel with
  | O => to_alloc
  | S fuel => if to_alloc <? size then grow_alloc fuel (Z.shiftl to_alloc 1) size else to_alloc
  end.

Definition chain_alloc_size (size : Z) : Z :=
  if size <? EVBUFFER_CHAIN_MAX / 2 then grow_alloc 64 MIN_BUFFER_SIZE size else size.

Definition evbuffer_chain_new (size : Z) : E (option evbuffer_chain) :=
  if EVBUFFER_CHAIN_MAX - EVBUFFER_CHAIN_SIZE <? size then mret None
  else
    let to_alloc := chain_alloc_size (size + EVBUFFER_CHAIN_SIZE) in
    i ← mm_malloc;
    match i with
    | None => mret None
    | Some i =>
        let len := to_alloc - EVBUFFER_CHAIN_SIZE in
        mret (Some (Chain i len 0 0 0 (replicate (Z.to_nat len) None)))
    end.

Definition evbuffer_chain_free (c : evbuffer_chain) : E unit :=
  if CHAIN_PINNED c then emit (Dangling (c_id c))
  else
    _ ← (if has_flag (Z.lor (Z.lor EVBUFFER_MMAP EVBUFFER_SENDFILE) EVBUFFER_REFERENCE) (c_flags c) then
           _ ← (if has_flag EVBUFFER_REFERENCE (c_flags c) then emit (Cleanup (c_id c) (buffer_len c))
                else mret tt);
           _ ← (if has_flag EVBUFFER_MMAP (c_flags c) then
                  _ ← emit (Unmapped (c_id c)); emit (Closed (c_id c))
                else mret tt);
           if has_flag EVBUFFER_SENDFILE (c_flags c) then emit (Closed (c_id c)) else mret tt
         else mret tt);
    emit (Freed (c_id c)).

Fixpoint evbuffer_free_all_chains (cs : list evbuffer_chain) : E unit :=
  match cs with
  | [] => mret tt
  | c :: cs' => _ ← evbuffer_chain_free c; evbuffer_free_all_chains cs'
  end.

Fixpoint evbuffer_chains_all_empty (cs : list evbuffer_chain) : bool :=
  match cs with
  | [] => true
  | c :: cs' => if negb (off c =? 0) then false else evbuffer_chains_all_empty cs'
  end.

(** From a link on, past the chains that hold data or are pinned: the link to
    the first chain that can go, and the chains from there on. *)
Fixpoint find_victim (p : link) (cs : list evbuffer_chain) : link * list evbuffer_chain :=
  match cs with
  | c :: cs' => if negb (off c =? 0) || CHAIN_PINNED c then find_victim (LNext (c_id c)) cs' else (p, cs)
  | [] => (p, [])
  end.

Definition evbuffer_free_trailing_empty_chains (b : evbuffer) : E (link * evbuffer) :=
  t ← deref (chains b) (last_with_datap b);
  match find_victim (last_with_datap b) t with
  | (ch, []) => mret (ch, b)
  | (ch, victims) =>
      _ ← EVUTIL_ASSERT (evbuffer_chains_all_empty victims);
      _ ← evbuffer_free_all_chains victims;
      b ← store_link ch [] b;
      mret (ch, b)
  end.

Definition evbuffer_chain_insert (b : evbuffer) (c : evbuffer_chain) : E evbuffer :=
  t ← deref (chains b) (last_with_datap b);
  b ← match t with
      | [] =>
          _ ← EVUTIL_ASSERT (bool_decide (last_with_datap b = LFirst));
          _ ← EVUTIL_ASSERT (match chains b with [] => true | _ => false end);
          mret (set_last (Some (c_id c)) (set_chains [c] b))
      | _ =>
          b ← match find_victim (last_with_datap b) t with
              | (_, []) =>
                  match last b with
                  | None => e_fail NullDeref
                  | Some l =>
                      b ← store_link (LNext l) [c] b;
                      mret (if negb (off c =? 0) then set_datap (LNext l) b else b)
                  end
              | (ch, victims) =>
                  _ ← EVUTIL_ASSERT (evbuffer_chains_all_empty victims);
                  _ ← evbuffer_free_all_chains victims;
                  store_link ch [c] b
              end;
          mret (set_last (Some (c_id c)) b)
      end;
  mret (set_total (u64 (total_len b + off c)) b).

Definition evbuffer_chain_insert_new (b : evbuffer) (datlen : Z) : E (option evbuffer_chain * evbuffer) :=
  c ← evbuffer_chain_new datlen;
  match c with
  | None => mret (None, b)
  | Some c => b ← evbuffer_chain_insert b c; mret (Some c, b)
  end.

Definition empty_evbuffer : evbuffer :=
  Evbuffer [] None LFirst 0 0 0 false false false false [].

Definition evbuffer_new : E (option evbuffer) :=
  i ← mm_malloc;
  mret (match i with None => None | Some _ => Some empty_evbuffer end).

Definition evbuffer_freeze (b : evbuffer) (start : bool) : evbuffer :=
  if start then set_freeze true (freeze_end b) b else set_freeze (freeze_start b) true b.

Definition evbuffer_unfreeze (b : evbuffer) (start : bool) : evbuffer :=
  if start then set_freeze false (freeze_end b) b else set_freeze (freeze_start b) false b.

Definition evbuffer_get_length (b : evbuffer) : Z := total_len b.

Definition evbuffer_get_contiguous_space (b : evbuffer) : Z :=
  match chains b with c :: _ => off c | [] => 0 end.

(** ** Callbacks *)

Fixpoint run_each (info : evbuffer_cb_info) (new_size mask masked_val : Z) (cbs : list evbuffer_cb_entry) :
    E unit :=
  match cbs with
  | [] => mret tt
  | cb :: cbs' =>
      _ ← (if negb (Z.land (cb_flags cb) mask =? masked_val) then mret tt
           else if has_flag EVBUFFER_CB_OBSOLETE (cb_flags cb)
           then emit (CalledObsolete (cb_func cb) (orig_size info) new_size)
           else emit (Called (cb_func cb) info));
      run_each info new_size mask masked_val cbs'
  end.

Definition evbuffer_run_callbacks (b : evbuffer) (running_deferred : bool) : E evbuffer :=
  let both := Z.lor EVBUFFER_CB_NODEFER EVBUFFER_CB_ENABLED in
  let '(mask, masked_val, clear) :=
    if running_deferred then (both, EVBUFFER_CB_ENABLED, true)
    else if deferred_cbs b then (both, both, false)
    else (EVBUFFER_CB_ENABLED, EVBUFFER_CB_ENABLED, true) in
  match callbacks b with
  | [] => mret (set_counts 0 0 b)
  | cbs =>
      if (n_add_for_cb b =? 0) && (n_del_for_cb b =? 0) then mret b
      else
        let new_size := total_len b in
        let info := CbInfo (u64 (new_size + n_del_for_cb b - n_add_for_cb b)) (n_add_for_cb b) (n_del_for_cb b) in
        let b := if (clear : bool) then set_counts 0 0 b else b in
        _ ← run_each info new_size mask masked_val cbs;
        mret b
  end.

Definition evbuffer_invoke_callbacks (b : evbuffer) : E evbuffer :=
  match callbacks b with
  | [] => mret (set_counts 0 0 b)
  | _ =>
      if deferred_cbs b then
        if deferred_queued b then mret b
        else
          _ ← emit Scheduled;
          evbuffer_run_callbacks (set_queued true b) false
      else evbuffer_run_callbacks b false
  end.

(** The event loop takes the buffer off its queue before it calls this. *)
Definition evbuffer_deferred_callback (b : evbuffer) : E evbuffer :=
  evbuffer_run_callbacks (set_queued false b) true.

Definition evbuffer_remove_all_callbacks (b : evbuffer) : evbuffer := set_callbacks [] b.

Definition evbuffer_add_cb (b : evbuffer) (cb : Z) : E (bool * evbuffer) :=
  e ← mm_malloc;
  match e with
  | None => mret (false, b)
  | Some _ => mret (true, set_callbacks (CbEntry cb EVBUFFER_CB_ENABLED :: callbacks b) b)
  end.

(** ** Adding *)

Definition MAX_TO_COPY_IN_EXPAND : Z := 4096.
Definition MAX_TO_REALIGN_IN_EXPAND : Z := 2048.

Definition evbuffer_chain_align (c : evbuffer_chain) : E evbuffer_chain :=
  _ ← EVUTIL_ASSERT (negb (is_immutable c));
  _ ← EVUTIL_ASSERT (negb (CHAIN_PINNED c));
  d ← chain_read (misalign c) (off c) c;
  c ← chain_write 0 d c;
  mret (set_span 0 (off c) c).

Definition evbuffer_chain_should_realign (c : evbuffer_chain) (datlen : Z) : bool :=
  (datlen <=? buffer_len c - off c) && (off c <? buffer_len c / 2)
  && (off c <=? MAX_TO_REALIGN_IN_EXPAND).

(** The chain to start with, made when the buffer has none; [None] when there
    is no memory for it. *)
Definition ensure_chain (which : evbuffer -> option id) (b : evbuffer) (datlen : Z) :
    E (option evbuffer_chain * evbuffer) :=
  match which b with
  | None =>
      c ← evbuffer_chain_new datlen;
      match c with
      | None => mret (None, b)
      | Some c => b ← evbuffer_chain_insert b c; mret (Some c, b)
      end
  | Some i => c ← get_chain b (Some i); mret (Some c, b)
  end.

(** The part of evbuffer_add after "we need to add another chain"; [remain]
    bytes still fit into the last chain. *)
Definition evbuffer_add_more (b : evbuffer) (c : evbuffer_chain) (data : list mbyte) (remain : Z) :
    E (Z * evbuffer) :=
  let datlen := Z.of_nat (length data) in
  let to_alloc := buffer_len c in
  let to_alloc := if to_alloc <=? EVBUFFER_CHAIN_MAX_AUTO_SIZE / 2 then Z.shiftl to_alloc 1 else to_alloc in
  let to_alloc := if to_alloc <? datlen then datlen else to_alloc in
  tmp ← evbuffer_chain_new to_alloc;
  match tmp with
  | None => mret (-1, b)
  | Some tmp =>
      b ← (if negb (remain =? 0) then
             c ← chain_write (misalign c + off c) (take (Z.to_nat remain) data) c;
             mret (count_added remain (put_chain (set_span (misalign c) (off c + remain) c) b))
           else mret b);
      let data := drop (Z.to_nat remain) data in
      let datlen := Z.of_nat (length data) in
      tmp ← chain_write 0 data tmp;
      b ← evbuffer_chain_insert b (set_span (misalign tmp) datlen tmp);
      b ← evbuffer_invoke_callbacks (set_counts (u64 (n_add_for_cb b + datlen)) (n_del_for_cb b) b);
      mret (0, b)
  end.

Definition evbuffer_add (b : evbuffer) (data : list mbyte) : E (Z * evbuffer) :=
  let datlen := Z.of_nat (length data) in
  if freeze_end b then mret (-1, b)
  else if EV_SIZE_MAX - total_len b <? datlen then mret (-1, b)
  else
    '(c, b) ← ensure_chain last b datlen;
    match c with
    | None => mret (-1, b)
    | Some c =>
        if negb (is_immutable c) then
          _ ← EVUTIL_ASSERT ((0 <=? misalign c) && (misalign c <=? EVBUFFER_CHAIN_MAX));
          let remain := u64 (buffer_len c - misalign c - off c) in
          if datlen <=? remain then
            c ← chain_write (misalign c + off c) data c;
            b ← evbuffer_invoke_callbacks
                  (count_added datlen (put_chain (set_span (misalign c) (off c + datlen) c) b));
            mret (0, b)
          else if negb (CHAIN_PINNED c) && evbuffer_chain_should_realign c datlen then
            c ← evbuffer_chain_align c;
            c ← chain_write (off c) data c;
            b ← evbuffer_invoke_callbacks
                  (count_added datlen (put_chain (set_span (misalign c) (off c + datlen) c) b));
            mret (0, b)
          else evbuffer_add_more b c data remain
        else evbuffer_add_more b c data 0
    end.

Definition first (b : evbuffer) : option id :=
  match chains b with c :: _ => Some (c_id c) | [] => None end.

(** The part of evbuffer_prepend that adds a chain in front of [c]. *)
Definition evbuffer_prepend_more (b : evbuffer) (c : evbuffer_chain) (data : list mbyte) :
    E (Z * evbuffer) :=
  let datlen := Z.of_nat (length data) in
  tmp ← evbuffer_chain_new datlen;
  match tmp with
  | None => mret (-1, b)
  | Some tmp =>
      let b := if decide (last_with_datap b = LFirst) then set_datap (LNext (c_id tmp)) b else b in
      _ ← EVUTIL_ASSERT (datlen <=? buffer_len tmp);
      tmp ← chain_write (buffer_len tmp - datlen) data tmp;
      let b := set_chains (set_span (buffer_len tmp - datlen) datlen tmp :: chains b) b in
      let b := set_total (u64 (total_len b + datlen)) b in
      b ← evbuffer_invoke_callbacks
            (set_counts (u64 (n_add_for_cb b + misalign c)) (n_del_for_cb b) b);
      mret (0, b)
  end.

(** The part of evbuffer_prepend for a first chain that may be written to. *)
Definition evbuffer_prepend_into (b : evbuffer) (c : evbuffer_chain) (data : list mbyte) :
    E (Z * evbuffer) :=
  let datlen := Z.of_nat (length data) in
  _ ← EVUTIL_ASSERT ((0 <=? misalign c) && (misalign c <=? EVBUFFER_CHAIN_MAX));
  let c := if off c =? 0 then set_span (buffer_len c) (off c) c else c in
  let b := put_chain c b in
  if datlen <=? misalign c then
    c ← chain_write (misalign c - datlen) data c;
    b ← evbuffer_invoke_callbacks
          (count_added datlen (put_chain (set_span (misalign c - datlen) (off c + datlen) c) b));
    mret (0, b)
  else if negb (misalign c =? 0) then
    let m := misalign c in
    c ← chain_write 0 (drop (Z.to_nat (datlen - m)) data) c;
    let c := set_span 0 (off c + m) c in
    evbuffer_prepend_more (count_added m (put_chain c b)) c (take (Z.to_nat (datlen - m)) data)
  else evbuffer_prepend_more b c data.

Definition evbuffer_prepend (b : evbuffer) (data : list mbyte) : E (Z * evbuffer) :=
  let datlen := Z.of_nat (length data) in
  if freeze_start b then mret (-1, b)
  else if EV_SIZE_MAX - total_len b <? datlen then mret (-1, b)
  else
    '(c, b) ← ensure_chain first b datlen;
    match c with
    | None => mret (-1, b)
    | Some c => if negb (is_immutable c) then evbuffer_prepend_into b c data else evbuffer_prepend_more b c data
    end.

(** ** Removing *)

Definition HAS_PINNED_R (b : evbuffer) : E bool :=
  match last b with
  | None => mret false
  | Some l => c ← get_chain b (Some l); mret (CHAIN_PINNED_R c)
  end.

Definition ZERO_CHAIN (b : evbuffer) : evbuffer :=
  set_total 0 (set_datap LFirst (set_last None (set_chains [] b))).

Definition head_id (cs : list evbuffer_chain) : option id := c_id <$> head cs.

(** The loop of evbuffer_drain over the chains [cs] that are left; [f] is the
    value of [buf->first], which the loop does not change. *)
Fixpoint drain_loop (f : option id) (cs : list evbuffer_chain) (remaining : Z) (p : link) :
    E (list evbuffer_chain * Z * link) :=
  match cs with
  | [] => e_fail NullDeref
  | c :: cs' =>
      if off c <=? remaining then
        let remaining := remaining - off c in
        lwd ← match p with LFirst => mret f | LNext _ => t ← deref cs p; mret (head_id t) end;
        let p := if decide (lwd = Some (c_id c)) then LFirst else p in
        let p := if decide (p = LNext (c_id c)) then LFirst else p in
        if CHAIN_PINNED_R c then
          _ ← EVUTIL_ASSERT (remaining =? 0);
          mret (set_span (misalign c + off c) 0 c :: cs', remaining, p)
        else
          _ ← evbuffer_chain_free c;
          drain_loop f cs' remaining p
      else mret (cs, remaining, p)
  end.

Definition evbuffer_drain (b : evbuffer) (len : Z) : E (Z * evbuffer) :=
  let old_len := total_len b in
  if old_len =? 0 then mret (0, b)
  else if freeze_start b then mret (-1, b)
  else
    pinned ← HAS_PINNED_R b;
    '(len, b) ←
      (if (old_len <=? len) && negb pinned then
         _ ← evbuffer_free_all_chains (chains b);
         mret (old_len, ZERO_CHAIN b)
       else
         let len := if old_len <=? len then old_len else len in
         let b := set_total (total_len b - len) b in
         '(cs, remaining, p) ← drain_loop (first b) (chains b) len (last_with_datap b);
         cs ← match cs with
              | [] => mret []
              | c :: cs' =>
                  _ ← EVUTIL_ASSERT (remaining <=? off c);
                  mret (set_span (misalign c + remaining) (off c - remaining) c :: cs')
              end;
         mret (len, set_datap p (set_chains cs b)));
    b ← evbuffer_invoke_callbacks (set_counts (n_add_for_cb b) (u64 (n_del_for_cb b + len)) b);
    mret (0, b).

Fixpoint copyout_loop (cs : list evbuffer_chain) (datlen : Z) (acc : list mbyte) :
    E (list evbuffer_chain * Z * list mbyte) :=
  if datlen =? 0 then mret (cs, 0, acc)
  else
    match cs with
    | [] => e_fail NullDeref
    | c :: cs' =>
        if off c <=? datlen then
          d ← chain_read (misalign c) (off c) c;
          _ ← EVUTIL_ASSERT (negb (bool_decide (cs' = [])) || (datlen - off c =? 0));
          copyout_loop cs' (datlen - off c) (acc ++ d)
        else mret (cs, datlen, acc)
    end.

(** The result and the bytes written to [data_out]. *)
Definition evbuffer_copyout (b : evbuffer) (datlen : Z) : E (Z * list mbyte) :=
  let datlen := if total_len b <=? datlen then total_len b else datlen in
  if datlen =? 0 then mret (0, [])
  else if freeze_start b then mret (-1, [])
  else
    '(cs, rest, acc) ← copyout_loop (chains b) datlen [];
    acc ← (if negb (rest =? 0) then
             match cs with
             | [] => e_fail AssertFailed
             | c :: _ =>
                 _ ← EVUTIL_ASSERT (rest <=? off c);
                 d ← chain_read (misalign c) rest c;
                 mret (acc ++ d)
             end
           else mret acc);
    mret (datlen, acc).

Definition evbuffer_remove (b : evbuffer) (datlen : Z) : E (Z * list mbyte * evbuffer) :=
  '(n, d) ← evbuffer_copyout b datlen;
  if 0 <? n then
    '(r, b) ← evbuffer_drain b n;
    mret (if r <? 0 then -1 else s32 n, d, b)
  else mret (s32 n, d, b).

(** ** Making data contiguous *)

(** Whether one of the chains to copy from is pinned. *)
Fixpoint pullup_pinned (cs : list evbuffer_chain) (remaining : Z) : bool :=
  match cs with
  | [] => false
  | c :: cs' =>
      if CHAIN_PINNED c then true
      else if remaining <=? off c then false
      else pullup_pinned cs' (remaining - off c)
  end.

(** Copy and free the chains that are pulled into [tmp] completely; [pos] is
    where the next bytes go in the block of [tmp]. *)
Fixpoint pullup_loop (lwd : option id) (p : link) (cs : list evbuffer_chain) (tmp : evbuffer_chain)
    (pos size : Z) (removed_data removed_datap : bool) :
    E (list evbuffer_chain * evbuffer_chain * Z * Z * bool * bool) :=
  match cs with
  | [] => mret ([], tmp, pos, size, removed_data, removed_datap)
  | c :: cs' =>
      if off c <=? size then
        d ← chain_read (misalign c) (off c) c;
        tmp ← chain_write pos d tmp;
        let removed_data := removed_data || bool_decide (lwd = Some (c_id c)) in
        let removed_datap := removed_datap || bool_decide (p = LNext (c_id c)) in
        _ ← evbuffer_chain_free c;
        pullup_loop lwd p cs' tmp (pos + off c) (size - off c) removed_data removed_datap
      else mret (cs, tmp, pos, size, removed_data, removed_datap)
  end.

(** The buffer of [tmp] and the chains that are left. *)
Definition pullup_fix (b : evbuffer) (rd rdp : bool) (tmp : evbuffer_chain) (cs : list evbuffer_chain) : evbuffer :=
  let b := match cs with [] => set_last (Some (c_id tmp)) b | _ => b end in
  let b := set_chains (tmp :: cs) b in
  if rd then set_datap LFirst b
  else if rdp then
    match cs with
    | c :: _ => if negb (off c =? 0) then set_datap (LNext (c_id tmp)) b else set_datap LFirst b
    | [] => set_datap LFirst b
    end
  else b.

(** From "Copy and free every chunk" on. *)
Definition pullup_rest (b : evbuffer) (lwd : option id) (cs : list evbuffer_chain) (tmp : evbuffer_chain)
    (pos size : Z) : E (option id * evbuffer) :=
  '(cs, tmp, pos, size, rd, rdp) ← pullup_loop lwd (last_with_datap b) cs tmp pos size false false;
  '(cs, tmp) ← match cs with
               | [] => mret ([], tmp)
               | c :: cs' =>
                   d ← chain_read (misalign c) size c;
                   tmp ← chain_write pos d tmp;
                   mret (set_span (misalign c + size) (off c - size) c :: cs', tmp)
               end;
  mret (Some (c_id tmp), pullup_fix b rd rdp tmp cs).

(** [*buf->last_with_datap], with the address of the first chain. *)
Definition datap_target (b : evbuffer) (fst : id) : E (option id) :=
  match last_with_datap b with
  | LFirst => mret (Some fst)
  | LNext _ => t ← deref (chains b) (last_with_datap b); mret (head_id t)
  end.

(** The chain whose data the result points to. *)
Definition evbuffer_pullup (b : evbuffer) (size : Z) : E (option id * evbuffer) :=
  let size := if size <? 0 then total_len b else size in
  if (size =? 0) || (total_len b <? size) then mret (None, b)
  else
    match chains b with
    | [] => e_fail NullDeref
    | c :: cs =>
        if size <=? off c then mret (Some (c_id c), b)
        else
          _ ← EVUTIL_ASSERT (size - off c <=? EV_SSIZE_MAX);
          if pullup_pinned cs (size - off c) then mret (None, b)
          else if CHAIN_PINNED c then
            if CHAIN_SPACE_LEN c <? size - off c then mret (None, b)
            else
              lwd ← datap_target b (c_id c);
              pullup_rest b lwd cs (set_span (misalign c) size c) (misalign c + off c) (size - off c)
          else if size <=? buffer_len c - misalign c then
            lwd ← datap_target b (c_id c);
            pullup_rest b lwd cs (set_span (misalign c) size c) (misalign c + off c) (size - off c)
          else
            tmp ← evbuffer_chain_new size;
            match tmp with
            | None => mret (None, b)
            | Some tmp =>
                lwd ← datap_target b (c_id tmp);
                pullup_rest b lwd (c :: cs) (set_span 0 size tmp) 0 size
            end
    end.

(** [n] bytes at [pos] behind the pointer that evbuffer_pullup returned. *)
Definition read_at (b : evbuffer) (i : id) (pos n : Z) : E (list mbyte) :=
  c ← get_chain b (Some i);
  chain_read (misalign c + pos) n c.

(** ** Making room *)

(** The new chain, when there is memory, at the end of the buffer. *)
Definition insert_new_checked (b : evbuffer) (datlen : Z) : E (option id * evbuffer) :=
  '(c, b) ← evbuffer_chain_insert_new b datlen;
  match c with
  | None => mret (None, b)
  | Some c => _ ← EVUTIL_ASSERT (datlen <=? CHAIN_SPACE_LEN c); mret (Some (c_id c), b)
  end.

Definition chain_ok (c : evbuffer_chain) (b : evbuffer) (datlen : Z) : E (option id * evbuffer) :=
  _ ← EVUTIL_ASSERT (datlen <=? CHAIN_SPACE_LEN c);
  mret (Some (c_id c), b).

(** The chain with room for [datlen] more bytes. *)
Definition evbuffer_expand_singlechain (b : evbuffer) (datlen : Z) : E (option id * evbuffer) :=
  t ← deref (chains b) (last_with_datap b);
  let '(chainp, t) :=
    match t with
    | c :: t' => if CHAIN_SPACE_LEN c =? 0 then (LNext (c_id c), t') else (last_with_datap b, t)
    | [] => (last_with_datap b, t)
    end in
  match t with
  | [] => insert_new_checked b datlen
  | c :: t' =>
      if has_flag (Z.lor EVBUFFER_IMMUTABLE EVBUFFER_MEM_PINNED_ANY) (c_flags c)
      then insert_new_checked b datlen
      else if datlen <=? CHAIN_SPACE_LEN c then chain_ok c b datlen
      else if off c =? 0 then insert_new_checked b datlen
      else if evbuffer_chain_should_realign c datlen then
        c ← evbuffer_chain_align c;
        chain_ok c (put_chain c b) datlen
      else if (CHAIN_SPACE_LEN c <? buffer_len c / 8) || (MAX_TO_COPY_IN_EXPAND <? off c)
              || ((datlen <? EVBUFFER_CHAIN_MAX) && (off c <=? EVBUFFER_CHAIN_MAX - datlen)) then
        match t' with
        | n :: _ => if datlen <=? CHAIN_SPACE_LEN n then chain_ok n b datlen else insert_new_checked b datlen
        | [] => insert_new_checked b datlen
        end
      else
        tmp ← evbuffer_chain_new (u64 (off c + datlen));
        match tmp with
        | None => mret (None, b)
        | Some tmp =>
            d ← chain_read (misalign c) (off c) c;
            tmp ← chain_write 0 d (set_span 0 (off c) tmp);
            b ← store_link chainp (tmp :: t') b;
            let b := if decide (last b = Some (c_id c)) then set_last (Some (c_id tmp)) b else b in
            _ ← evbuffer_chain_free c;
            chain_ok tmp b datlen
        end
  end.

Definition evbuffer_expand (b : evbuffer) (datlen : Z) : E (Z * evbuffer) :=
  '(c, b) ← evbuffer_expand_singlechain b datlen;
  mret (match c with Some _ => 0 | None => -1 end, b).

Definition evbuffer_add_reference (b : evbuffer) (data : list mbyte) : E (Z * evbuffer) :=
  c ← evbuffer_chain_new 16;
  match c with
  | None => mret (-1, b)
  | Some c =>
      let datlen := Z.of_nat (length data) in
      let c := Chain (c_id c) datlen 0 datlen (Z.lor EVBUFFER_REFERENCE EVBUFFER_IMMUTABLE) data in
      if freeze_end b then _ ← emit (Freed (c_id c)); mret (-1, b)
      else
        b ← evbuffer_chain_insert b c;
        b ← evbuffer_invoke_callbacks (set_counts (u64 (n_add_for_cb b + datlen)) (n_del_for_cb b) b);
        mret (0, b)
  end.

(** ** Moving data between two buffers *)

(** The chains that stay behind because a read is going on in them. *)
Abbreviation pinned_part := (option (list evbuffer_chain * option id)).

Definition PRESERVE_PINNED (src : evbuffer) : E (Z * pinned_part * evbuffer) :=
  has ← HAS_PINNED_R src;
  if negb has then mret (0, None, src)
  else
    t ← deref (chains src) (last_with_datap src);
    '(pinned, t) ← match t with
                   | [] => e_fail NullDeref
                   | c :: t' => mret (if CHAIN_PINNED_R c then (last_with_datap src, t) else (LNext (c_id c), t'))
                   end;
    match t with
    | [] => e_fail NullDeref
    | c :: t' =>
        _ ← EVUTIL_ASSERT (CHAIN_PINNED_R c);
        if negb (off c =? 0) then
          _ ← EVUTIL_ASSERT (bool_decide (pinned = last_with_datap src));
          tmp ← evbuffer_chain_new (off c);
          match tmp with
          | None => mret (-1, Some (c :: t', last src), src)
          | Some tmp =>
              d ← chain_read (misalign c) (off c) c;
              tmp ← chain_write 0 d tmp;
              let l := last src in
              src ← store_link (last_with_datap src) [set_span 0 (off c) tmp] src;
              mret (0, Some (set_span (misalign c + off c) 0 c :: t', l), set_last (Some (c_id tmp)) src)
          end
        else
          let l := last src in
          w ← deref (chains src) (last_with_datap src);
          src ← store_link pinned [] src;
          mret (0, Some (c :: t', l), set_last (head_id w) src)
    end.

Definition RESTORE_PINNED (src : evbuffer) (pinned : pinned_part) : evbuffer :=
  match pinned with
  | None => ZERO_CHAIN src
  | Some (cs, l) => set_total 0 (set_datap LFirst (set_last l (set_chains cs src)))
  end.

Definition COPY_CHAIN (dst src : evbuffer) : evbuffer :=
  set_total (total_len src)
    (set_last (last src)
      (set_datap (if decide (last_with_datap src = LFirst) then LFirst else last_with_datap src)
        (set_chains (chains src) dst))).

Definition APPEND_CHAIN (dst src : evbuffer) : E evbuffer :=
  match last dst with
  | None => e_fail NullDeref
  | Some l =>
      dst ← store_link (LNext l) (chains src) dst;
      mret (set_total (u64 (total_len dst + total_len src))
              (set_last (last src)
                (set_datap (if decide (last_with_datap src = LFirst) then LNext l else last_with_datap src) dst)))
  end.

Definition PREPEND_CHAIN (dst src : evbuffer) : E evbuffer :=
  match last src with
  | None => e_fail NullDeref
  | Some l =>
      match cut_after l (chains src) (chains dst) with
      | None => e_fail DanglingPtr
      | Some cs =>
          let dst := set_total (u64 (total_len dst + total_len src)) (set_chains cs dst) in
          t ← deref cs (last_with_datap dst);
          mret (match t with
                | [] => set_datap (if decide (last_with_datap src = LFirst) then LFirst
                                   else last_with_datap src) dst
                | _ => if decide (last_with_datap dst = LFirst) then set_datap (LNext l) dst else dst
                end)
      end
  end.

(** The end of the two functions below. *)
Definition count_moved (outbuf inbuf : evbuffer) (n : Z) : E (Z * evbuffer * evbuffer) :=
  inbuf ← evbuffer_invoke_callbacks (set_counts (n_add_for_cb inbuf) (u64 (n_del_for_cb inbuf + n)) inbuf);
  outbuf ← evbuffer_invoke_callbacks (set_counts (u64 (n_add_for_cb outbuf + n)) (n_del_for_cb outbuf) outbuf);
  mret (0, outbuf, inbuf).

(** On two different buffers. *)
Definition evbuffer_add_buffer (outbuf inbuf : evbuffer) : E (Z * evbuffer * evbuffer) :=
  let in_total_len := total_len inbuf in
  let out_total_len := total_len outbuf in
  if in_total_len =? 0 then mret (0, outbuf, inbuf)
  else if freeze_end outbuf || freeze_start inbuf then mret (-1, outbuf, inbuf)
  else
    '(r, pinned, inbuf) ← PRESERVE_PINNED inbuf;
    if r <? 0 then mret (-1, outbuf, inbuf)
    else
      outbuf ← (if out_total_len =? 0 then
                  _ ← evbuffer_free_all_chains (chains outbuf);
                  mret (COPY_CHAIN outbuf inbuf)
                else APPEND_CHAIN outbuf inbuf);
      count_moved outbuf (RESTORE_PINNED inbuf pinned) in_total_len.

Definition evbuffer_prepend_buffer (outbuf inbuf : evbuffer) : E (Z * evbuffer * evbuffer) :=
  let in_total_len := total_len inbuf in
  let out_total_len := total_len outbuf in
  if in_total_len =? 0 then mret (0, outbuf, inbuf)
  else if freeze_start outbuf || freeze_start inbuf then mret (-1, outbuf, inbuf)
  else
    '(r, pinned, inbuf) ← PRESERVE_PINNED inbuf;
    if r <? 0 then mret (-1, outbuf, inbuf)
    else
      outbuf ← (if out_total_len =? 0 then
                  _ ← evbuffer_free_all_chains (chains outbuf);
                  mret (COPY_CHAIN outbuf inbuf)
                else PREPEND_CHAIN outbuf inbuf);
      count_moved outbuf (RESTORE_PINNED inbuf pinned) in_total_len.

(** The link to the last chain with data, from the chain [c] at [p] on. *)
Fixpoint advance_from (p : link) (c : evbuffer_chain) (cs : list evbuffer_chain) : link :=
  match cs with
  | n :: cs' => if negb (off n =? 0) then advance_from (LNext (c_id c)) n cs' else p
  | [] => p
  end.

Definition advance_last_with_data (b : evbuffer) : E evbuffer :=
  t ← deref (chains b) (last_with_datap b);
  match t with
  | [] => mret b
  | c :: t' => mret (set_datap (advance_from (last_with_datap b) c t') b)
  end.

(** The chains that move to the other buffer as they are: how many bytes they
    hold, what is still to be moved, and the chains that stay. *)
Fixpoint remove_loop (src : evbuffer) (p : link) (cs moved : list evbuffer_chain) (nread datlen : Z) :
    E (link * list evbuffer_chain * list evbuffer_chain * Z * Z) :=
  match cs with
  | [] => e_fail NullDeref
  | c :: cs' =>
      if off c <=? datlen then
        t ← deref (chains src) p;
        _ ← EVUTIL_ASSERT (negb (bool_decide (head_id t = Some (c_id c))));
        let p := if decide (p = LNext (c_id c)) then LFirst else p in
        remove_loop src p cs' (moved ++ [c]) (nread + off c) (datlen - off c)
      else mret (p, moved, cs, nread, datlen)
  end.

(** These chains at the end of [dst]. *)
Definition attach_chains (dst : evbuffer) (moved : list evbuffer_chain) (nread : Z) : E evbuffer :=
  '(chp, dst) ← evbuffer_free_trailing_empty_chains dst;
  dst ← (match chains dst with
         | [] => mret (set_chains moved dst)
         | _ => store_link chp moved dst
         end);
  dst ← advance_last_with_data (set_last (c_id <$> list.last moved) dst);
  mret (count_added nread dst).

(** The first bytes of the chain that is not moved, and the accounts. *)
Definition remove_rest (src dst : evbuffer) (rest : list evbuffer_chain) (nread datlen : Z) :
    E (Z * evbuffer * evbuffer) :=
  match rest with
  | [] => e_fail NullDeref
  | c :: _ =>
      d ← chain_read (misalign c) datlen c;
      '(_, dst) ← evbuffer_add dst d;
      let src := put_chain (set_span (misalign c + datlen) (off c - datlen) c) src in
      let nread := nread + datlen in
      let src := set_counts (n_add_for_cb src) (u64 (n_del_for_cb src + nread)) (set_total (total_len src - nread) src) in
      if negb (nread =? 0) then
        dst ← evbuffer_invoke_callbacks dst;
        src ← evbuffer_invoke_callbacks src;
        mret (s32 nread, src, dst)
      else mret (s32 nread, src, dst)
  end.

(** On two different buffers. *)
Definition evbuffer_remove_buffer (src dst : evbuffer) (datlen : Z) : E (Z * evbuffer * evbuffer) :=
  if datlen =? 0 then mret (0, src, dst)
  else if freeze_end dst || freeze_start src then mret (-1, src, dst)
  else if total_len src <=? datlen then
    let datlen := total_len src in
    '(_, dst, src) ← evbuffer_add_buffer dst src;
    mret (s32 datlen, src, dst)
  else
    '(p, moved, rest, nread, datlen) ← remove_loop src (last_with_datap src) (chains src) [] 0 datlen;
    let src := set_datap p src in
    '(src, dst) ←
      (if negb (nread =? 0) then
         dst ← attach_chains dst moved nread;
         mret (set_chains rest src, dst)
       else mret (src, dst));
    remove_rest src dst rest nread datlen.
