(* ===== verification/EvBufSpec.v ===== *)
(** * The invariant of event buffers

    What the fields of a buffer have to do with its chains, the bytes it
    stands for, and the specifications of the helpers of buffer.c. *)

From Stdlib Require Import ssreflect.
From S2P Require Import Prelude CTypes HProp CMem EvBuffer.
Set Warnings "-rewrite-rw".
Open Scope general_if_scope.
Open Scope Z_scope.

(** ** Total correctness of a run *)

Definition runs {A} (m : E A) (e : evenv) (Q : A -> evenv -> Prop) : Prop :=
  match m e with inr (a, e') => Q a e' | inl _ => False end.

Section runs.
Context {A B : Type}.

Lemma runs_ret (a : A) e Q : Q a e -> runs (mret a) e Q.
Proof. done. Qed.

Lemma runs_bind (m : E A) (k : A -> E B) e Q :
  runs m e (fun a e' => runs (k a) e' Q) -> runs (m ≫= k) e Q.
Proof. rewrite /runs /mbind /E_bind. by destruct (m e) as [f|[a e']]. Qed.

Lemma runs_mono (m : E A) e (Q Q' : A -> evenv -> Prop) :
  runs m e Q -> (∀ a e', Q a e' -> Q' a e') -> runs m e Q'.
Proof. rewrite /runs. destruct (m e) as [f|[a e']]; auto. Qed.

Lemma runs_run (m : E A) e Q : runs m e Q -> ∃ a e', m e = inr (a, e') ∧ Q a e'.
Proof. rewrite /runs. destruct (m e) as [f|[a e']]; [done|]. eauto. Qed.

End runs.

Lemma runs_assert (b : bool) e Q : b = true -> Q tt e -> runs (EVUTIL_ASSERT b) e Q.
Proof. by intros ->. Qed.

(** The allocator moves on; nothing else of it matters to a buffer. *)
Definition later (e e' : evenv) : Prop := (next_id e <= next_id e')%positive.

#[export] Instance later_preorder : PreOrder later.
Proof. split; [intros e|intros e1 e2 e3]; rewrite /later; lia. Qed.

Lemma later_emit x e : later e (EvEnv (next_id e) (ev_oom e) (effects e ++ [x])).
Proof. rewrite /later /=. lia. Qed.

(** The same, and an allocator that never fails keeps that up. *)
Definition goes_on (e e' : evenv) : Prop := later e e' ∧ (ev_oom e = [] -> ev_oom e' = []).

#[export] Instance goes_on_preorder : PreOrder goes_on.
Proof. split; [by split|]. intros e1 e2 e3 [] []. split; [by etrans|auto]. Qed.

(** A step that only records effects. *)
Definition silent {A} (m : E A) (a : A) : Prop :=
  ∀ e, ∃ fs, m e = inr (a, EvEnv (next_id e) (ev_oom e) (effects e ++ fs)).

Lemma silent_emit x : silent (emit x) tt.
Proof. intros e. by exists [x]. Qed.

Lemma silent_ret {A} (a : A) : silent (mret a) a.
Proof. intros [n o f]. exists []. by rewrite app_nil_r. Qed.

Lemma silent_bind {A B} (m : E A) (k : A -> E B) a b :
  silent m a -> silent (k a) b -> silent (m ≫= k) b.
Proof.
  intros Hm Hk e. destruct (Hm e) as [fs1 H1]. rewrite /mbind /E_bind H1.
  destruct (Hk (EvEnv (next_id e) (ev_oom e) (effects e ++ fs1))) as [fs2 H2]. rewrite H2 /=.
  exists (fs1 ++ fs2). by rewrite app_assoc.
Qed.

Lemma runs_silent {A} (m : E A) a e (Q : A -> evenv -> Prop) :
  silent m a -> (∀ e', later e e' -> ev_oom e' = ev_oom e -> Q a e') -> runs m e Q.
Proof. intros Hm HQ. destruct (Hm e) as [fs H]. rewrite /runs H. apply HQ; [|done]. rewrite /later /=. lia. Qed.

(** ** Well-formed chains *)

Record chain_wf (c : evbuffer_chain) : Prop := {
  cw_misalign : 0 <= misalign c;
  cw_off : 0 <= off c;
  cw_fits : misalign c + off c <= buffer_len c;
  cw_max : buffer_len c <= EVBUFFER_CHAIN_MAX;
  cw_data : Z.of_nat (length (c_data c)) = buffer_len c;
  cw_pinned : CHAIN_PINNED c = false }.

(** The bytes of a chain, and of a list of chains. *)
Definition bytes (c : evbuffer_chain) : list mbyte := slice (c_data c) (misalign c) (off c).
Definition all_bytes (cs : list evbuffer_chain) : list mbyte := concat (bytes <$> cs).

Definition contents (b : evbuffer) : list mbyte := all_bytes (chains b).

Lemma all_bytes_app cs ds : all_bytes (cs ++ ds) = all_bytes cs ++ all_bytes ds.
Proof. by rewrite /all_bytes fmap_app concat_app. Qed.

Lemma all_bytes_cons c cs : all_bytes (c :: cs) = bytes c ++ all_bytes cs.
Proof. done. Qed.

Lemma all_bytes_one c : all_bytes [c] = bytes c.
Proof. apply app_nil_r. Qed.

Lemma bytes_length c : chain_wf c -> Z.of_nat (length (bytes c)) = off c.
Proof. intros []. rewrite /bytes /slice length_take length_drop. lia. Qed.

(** The link to the chain that comes after [pre]. *)
Definition link_of (pre : list evbuffer_chain) : link :=
  match list.last pre with Some c => LNext (c_id c) | None => LFirst end.

Lemma link_of_snoc pre c : link_of (pre ++ [c]) = LNext (c_id c).
Proof. by rewrite /link_of last_snoc. Qed.

(** The buffer of the chains [cs]: the last one is the one that
    [last_with_datap] leads to, and all have data unless there is only one. *)
Record chains_wf (cs : list evbuffer_chain) (l : option id) (p : link) (n : Z) (e : evenv) : Prop := {
  bw_chains : Forall chain_wf cs;
  bw_ids : NoDup (c_id <$> cs);
  bw_fresh : Forall (fun c => (c_id c < next_id e)%positive) cs;
  bw_last : l = c_id <$> list.last cs;
  bw_datap : p = link_of (removelast cs);
  bw_data : (1 < length cs)%nat -> Forall (fun c => off c ≠ 0) cs;
  bw_total : n = Z.of_nat (length (all_bytes cs));
  bw_bound : n <= EV_SIZE_MAX }.

Definition buffer_wf (b : evbuffer) (e : evenv) : Prop :=
  chains_wf (chains b) (last b) (last_with_datap b) (total_len b) e.

Lemma buffer_wf_new e : buffer_wf empty_evbuffer e.
Proof. split; cbn; try done; constructor. Qed.

Lemma chains_wf_later cs l p n e e' : chains_wf cs l p n e -> later e e' -> chains_wf cs l p n e'.
Proof.
  intros [] Hl. split; try done. eapply Forall_impl; [done|]. rewrite /later in Hl. cbn. intros c. lia.
Qed.

(** The empty buffer, and one whose last chain is known. *)
Lemma chains_wf_nil e : chains_wf [] None LFirst 0 e.
Proof. apply (buffer_wf_new e). Qed.

Lemma removelast_snoc {A} (xs : list A) x : removelast (xs ++ [x]) = xs.
Proof. by rewrite removelast_app //= app_nil_r. Qed.

Lemma chains_wf_snoc pre c l p n e :
  chains_wf (pre ++ [c]) l p n e <->
  Forall chain_wf (pre ++ [c]) ∧ NoDup (c_id <$> (pre ++ [c]))
  ∧ Forall (fun c => (c_id c < next_id e)%positive) (pre ++ [c])
  ∧ l = Some (c_id c) ∧ p = link_of pre ∧ (pre ≠ [] -> Forall (fun c => off c ≠ 0) (pre ++ [c]))
  ∧ n = Z.of_nat (length (all_bytes (pre ++ [c]))) ∧ n <= EV_SIZE_MAX.
Proof.
  split.
  - intros []. rewrite removelast_snoc in bw_datap0. rewrite last_snoc in bw_last0. split_and!; try done.
    intros Hpre. apply bw_data0. rewrite length_app /=. destruct pre; [done|cbn; lia].
  - intros (? & ? & ? & -> & -> & Hd & ? & ?). split; try done; [by rewrite last_snoc|by rewrite removelast_snoc|].
    intros Hlen. apply Hd. intros ->. cbn in Hlen. lia.
Qed.

(** ** The blocks of chains *)

Section blocks.
Implicit Types (c : evbuffer_chain) (ds : list mbyte).

Lemma slice_length {A} (bs : list A) o n :
  0 <= o -> 0 <= n -> o + n <= Z.of_nat (length bs) -> Z.of_nat (length (slice bs o n)) = n.
Proof. intros. rewrite /slice length_take length_drop. lia. Qed.

Lemma patch_length {A} (bs ds : list A) o :
  0 <= o -> o + Z.of_nat (length ds) <= Z.of_nat (length bs) -> length (patch bs o ds) = length bs.
Proof. intros. rewrite /patch !length_app length_take length_drop. lia. Qed.

(** Reading in front of, at and across what was written. *)
Lemma slice_patch_before {A} (bs ds : list A) o p n :
  0 <= p -> 0 <= n -> p + n <= o -> o <= Z.of_nat (length bs) -> slice (patch bs o ds) p n = slice bs p n.
Proof.
  intros. rewrite /slice /patch. rewrite drop_app_le; [|rewrite length_take; lia].
  rewrite take_app_le; [|rewrite length_drop length_take; lia].
  rewrite skipn_firstn_comm take_take. f_equal. lia.
Qed.

Lemma slice_patch_at {A} (bs ds : list A) o n :
  0 <= o -> o <= Z.of_nat (length bs) -> n = Z.of_nat (length ds) -> slice (patch bs o ds) o n = ds.
Proof.
  intros ? ? ->. rewrite /slice /patch Nat2Z.id drop_app_ge; [|rewrite length_take; lia].
  rewrite length_take_le; [|lia]. by rewrite Nat.sub_diag drop_0 take_app_length.
Qed.

Lemma slice_patch_after {A} (bs ds : list A) o p n :
  0 <= o -> o + Z.of_nat (length ds) <= p -> o + Z.of_nat (length ds) <= Z.of_nat (length bs) ->
  slice (patch bs o ds) p n = slice bs p n.
Proof.
  intros. rewrite /slice /patch drop_app_ge; [|rewrite length_take; lia].
  rewrite drop_app_ge; [|rewrite length_take; lia]. rewrite length_take_le; [|lia].
  rewrite drop_drop. do 2 f_equal. lia.
Qed.

Lemma slice_split {A} (bs : list A) o m n :
  0 <= o -> 0 <= m -> 0 <= n -> slice bs o (m + n) = slice bs o m ++ slice bs (o + m) n.
Proof.
  intros. rewrite /slice. rewrite (Z2Nat.inj_add m n) // (Z2Nat.inj_add o m) // -drop_drop.
  rewrite -{1}(take_drop (Z.to_nat m) (drop (Z.to_nat o) bs)) take_app.
  rewrite length_take take_take. f_equal; [f_equal; lia|].
  destruct (decide (Z.to_nat m <= length (drop (Z.to_nat o) bs))%nat); [f_equal; lia|].
  rewrite (drop_ge _ (Z.to_nat m)); [|lia]. by rewrite !take_nil.
Qed.

Lemma slice_0 {A} (bs : list A) o : slice bs o 0 = [].
Proof. by rewrite /slice take_0. Qed.

Lemma runs_chain_read pos n c e Q :
  0 <= pos -> 0 <= n -> pos + n <= Z.of_nat (length (c_data c)) ->
  Q (slice (c_data c) pos n) e -> runs (chain_read pos n c) e Q.
Proof. intros. rewrite /chain_read /in_range !(proj2 (Z.leb_le _ _)) //. Qed.

Lemma runs_chain_write pos ds c e Q :
  0 <= pos -> pos + Z.of_nat (length ds) <= Z.of_nat (length (c_data c)) ->
  Q (set_data (patch (c_data c) pos ds) c) e -> runs (chain_write pos ds c) e Q.
Proof. intros. rewrite /chain_write /in_range !(proj2 (Z.leb_le _ _)) //; lia. Qed.

(** The bytes of a chain are there to be read. *)
Lemma runs_chain_bytes c e Q :
  chain_wf c -> Q (bytes c) e -> runs (chain_read (misalign c) (off c) c) e Q.
Proof. intros [] HQ. apply runs_chain_read; [lia..|done]. Qed.

(** Behind the data of a chain. *)
Definition append_to (c : evbuffer_chain) (ds : list mbyte) : evbuffer_chain :=
  set_span (misalign c) (off c + Z.of_nat (length ds)) (set_data (patch (c_data c) (misalign c + off c) ds) c).

Lemma append_to_wf c ds :
  chain_wf c -> misalign c + off c + Z.of_nat (length ds) <= buffer_len c ->
  chain_wf (append_to c ds) ∧ bytes (append_to c ds) = bytes c ++ ds.
Proof.
  intros [] Hroom. split.
  - split; cbn; try done; try lia. rewrite patch_length; lia.
  - rewrite /bytes /=. rewrite slice_split; [|lia..]. f_equal.
    + apply slice_patch_before; lia.
    + rewrite slice_patch_at //; lia.
Qed.

(** In front of them. *)
Definition prepend_to (c : evbuffer_chain) (ds : list mbyte) : evbuffer_chain :=
  set_span (misalign c - Z.of_nat (length ds)) (off c + Z.of_nat (length ds))
    (set_data (patch (c_data c) (misalign c - Z.of_nat (length ds)) ds) c).

Lemma prepend_to_wf c ds :
  chain_wf c -> Z.of_nat (length ds) <= misalign c ->
  chain_wf (prepend_to c ds) ∧ bytes (prepend_to c ds) = ds ++ bytes c.
Proof.
  intros [] Hroom. split.
  - split; cbn; try done; try lia. rewrite patch_length; lia.
  - rewrite /bytes /= (Z.add_comm (off c)). rewrite slice_split; [|lia..]. f_equal.
    + rewrite slice_patch_at //; lia.
    + rewrite Z.sub_add. apply slice_patch_after; lia.
Qed.

(** The first bytes of a chain are given up. *)
Definition shrink (n : Z) (c : evbuffer_chain) : evbuffer_chain := set_span (misalign c + n) (off c - n) c.

Lemma shrink_wf n c :
  chain_wf c -> 0 <= n <= off c ->
  chain_wf (shrink n c) ∧ bytes c = slice (c_data c) (misalign c) n ++ bytes (shrink n c).
Proof.
  intros [] Hn. split; [split; cbn; try done; lia|].
  rewrite /bytes /=. rewrite -slice_split; [|lia..]. f_equal. lia.
Qed.

Lemma shrink_drop n c :
  chain_wf c -> 0 <= n <= off c ->
  slice (c_data c) (misalign c) n = take (Z.to_nat n) (bytes c) ∧ bytes (shrink n c) = drop (Z.to_nat n) (bytes c).
Proof.
  intros Hc Hn. destruct (shrink_wf n c Hc Hn) as [_ Heq]. destruct Hc.
  assert (Hlen : length (slice (c_data c) (misalign c) n) = Z.to_nat n).
  { apply Nat2Z.inj. rewrite slice_length; lia. }
  rewrite Heq. rewrite -Hlen take_app_length drop_app_length //.
Qed.

End blocks.

(** ** Links *)

Section links.
Implicit Types (c : evbuffer_chain) (cs pre post t : list evbuffer_chain).

Lemma fresh_in_prefix pre c post :
  NoDup (c_id <$> (pre ++ c :: post)) -> Forall (fun x => c_id x ≠ c_id c) pre ∧ Forall (fun x => c_id x ≠ c_id c) post.
Proof.
  rewrite fmap_app fmap_cons. intros Hnd. apply NoDup_app in Hnd as (_ & Hdis & Hnd).
  apply NoDup_cons in Hnd as [Hnin _]. split; apply Forall_forall; intros x Hx Heq.
  - apply (Hdis (c_id x)); [by apply list_elem_of_fmap_2|]. rewrite Heq. by left.
  - apply Hnin. rewrite -Heq. by apply list_elem_of_fmap_2.
Qed.

Lemma tail_after_app pre c post :
  NoDup (c_id <$> (pre ++ c :: post)) -> tail_after (c_id c) (pre ++ c :: post) = Some post.
Proof.
  intros Hnd. apply fresh_in_prefix in Hnd as [Hpre _]. induction Hpre as [|x pre Hx _ IH]; cbn.
  - by rewrite decide_True.
  - by rewrite decide_False.
Qed.

Lemma cut_after_app pre c post t :
  NoDup (c_id <$> (pre ++ c :: post)) -> cut_after (c_id c) (pre ++ c :: post) t = Some (pre ++ c :: t).
Proof.
  intros Hnd. apply fresh_in_prefix in Hnd as [Hpre _]. induction Hpre as [|x pre Hx _ IH]; cbn.
  - by rewrite decide_True.
  - by rewrite decide_False // IH.
Qed.

Lemma deref_link_of pre post :
  NoDup (c_id <$> (pre ++ post)) -> deref (pre ++ post) (link_of pre) = mret post.
Proof.
  intros Hnd. destruct pre as [|x pre _] using rev_ind; [done|]. rewrite link_of_snoc /=.
  rewrite -app_assoc in Hnd |- *. by rewrite tail_after_app.
Qed.

Lemma store_link_of pre post t b :
  chains b = pre ++ post -> NoDup (c_id <$> chains b) ->
  store_link (link_of pre) t b = mret (set_chains (pre ++ t) b).
Proof.
  intros Hcs Hnd. destruct pre as [|x pre _] using rev_ind; [done|]. rewrite link_of_snoc /=.
  rewrite Hcs -app_assoc in Hnd |- *. by rewrite cut_after_app // -app_assoc.
Qed.

Lemma get_chain_app pre c post b :
  chains b = pre ++ c :: post -> NoDup (c_id <$> chains b) -> get_chain b (Some (c_id c)) = mret c.
Proof.
  intros Hcs Hnd. rewrite /get_chain Hcs. rewrite Hcs in Hnd. apply fresh_in_prefix in Hnd as [Hpre _].
  replace (List.find _ _) with (Some c); [done|]. clear Hcs. induction Hpre as [|x pre Hx _ IH]; cbn.
  - by rewrite bool_decide_true.
  - by rewrite bool_decide_false.
Qed.

Lemma put_chain_app pre c c' post b :
  chains b = pre ++ c :: post -> NoDup (c_id <$> chains b) -> c_id c' = c_id c ->
  put_chain c' b = set_chains (pre ++ c' :: post) b.
Proof.
  intros Hcs Hnd Hid. rewrite /put_chain Hcs. rewrite Hcs in Hnd. apply fresh_in_prefix in Hnd as [Hpre Hpost].
  f_equal. rewrite fmap_app fmap_cons decide_True //.
  assert (Hsame : ∀ xs, Forall (fun x => c_id x ≠ c_id c) xs ->
            (fun x => if decide (c_id x = c_id c') then c' else x) <$> xs = xs).
  { induction 1 as [|x xs Hx _ IH]; [done|]. cbn. rewrite decide_False; [by f_equal|by rewrite Hid]. }
  by rewrite !Hsame.
Qed.

End links.

(** ** Allocation, release and callbacks *)

Lemma grow_alloc_bounds fuel to_alloc size :
  0 < to_alloc -> size <= to_alloc * 2 ^ Z.of_nat fuel ->
  size <= grow_alloc fuel to_alloc size ∧ to_alloc <= grow_alloc fuel to_alloc size
  ∧ grow_alloc fuel to_alloc size <= Z.max to_alloc (2 * size).
Proof.
  revert to_alloc. induction fuel as [|fuel IH]; intros a Ha Hs; cbn [grow_alloc]; [cbn in Hs; lia|].
  destruct (Z.ltb_spec a size) as [Hlt|Hge]; [|lia].
  rewrite Z.shiftl_mul_pow2 // Z.pow_1_r. rewrite Nat2Z.inj_succ Z.pow_succ_r in Hs; [|lia].
  destruct (IH (a * 2)) as (? & ? & ?); lia.
Qed.

Lemma chain_alloc_size_bounds size :
  EVBUFFER_CHAIN_SIZE <= size <= EVBUFFER_CHAIN_MAX ->
  size <= chain_alloc_size size <= EVBUFFER_CHAIN_MAX ∧ EVBUFFER_CHAIN_SIZE < chain_alloc_size size.
Proof.
  intros Hs. rewrite /chain_alloc_size. destruct (Z.ltb_spec size (EVBUFFER_CHAIN_MAX / 2)) as [Hlt|Hge];
    assert (Hhalf : EVBUFFER_CHAIN_MAX / 2 = 2 ^ 62 - 1) by reflexivity; [|rewrite /EVBUFFER_CHAIN_SIZE in Hs |- *; lia].
  destruct (grow_alloc_bounds 64 MIN_BUFFER_SIZE size) as (Hg1 & Hg2 & Hg3); [reflexivity|..].
  { change (MIN_BUFFER_SIZE * 2 ^ Z.of_nat 64) with (2 ^ 74). lia. }
  rewrite /MIN_BUFFER_SIZE in Hg1, Hg2, Hg3 |- *.
  rewrite /EVBUFFER_CHAIN_MAX /EV_SSIZE_MAX /EVBUFFER_CHAIN_SIZE in Hs, Hhalf, Hlt |- *. lia.
Qed.

(** A new chain: empty, with room for what was asked, at a new address. *)
Definition is_new_chain (size : Z) (e : evenv) (c : evbuffer_chain) : Prop :=
  chain_wf c ∧ misalign c = 0 ∧ off c = 0 ∧ size <= buffer_len c ∧ 0 < buffer_len c ∧ c_flags c = 0 ∧ c_id c = next_id e.

Definition after_malloc (e e' : evenv) : Prop :=
  next_id e' = Pos.succ (next_id e) ∧ ev_oom e' = tail (ev_oom e).

Lemma runs_chain_new size e (Q : option evbuffer_chain -> evenv -> Prop) :
  0 <= size ->
  (∀ c e', after_malloc e e' -> is_new_chain size e c -> Q (Some c) e') ->
  (∀ e', goes_on e e' -> (EVBUFFER_CHAIN_MAX - EVBUFFER_CHAIN_SIZE < size ∨ head (ev_oom e) = Some false) -> Q None e') ->
  runs (evbuffer_chain_new size) e Q.
Proof.
  intros Hsize Hsome Hnone. rewrite /evbuffer_chain_new.
  destruct (Z.ltb_spec (EVBUFFER_CHAIN_MAX - EVBUFFER_CHAIN_SIZE) size) as [Hbig|Hok].
  { apply runs_ret, Hnone; [done|by left]. }
  apply runs_bind. rewrite /runs /mm_malloc.
  assert (Hnew : ∀ e', after_malloc e e' -> Q (Some (Chain (next_id e)
      (chain_alloc_size (size + EVBUFFER_CHAIN_SIZE) - EVBUFFER_CHAIN_SIZE) 0 0 0
      (replicate (Z.to_nat (chain_alloc_size (size + EVBUFFER_CHAIN_SIZE) - EVBUFFER_CHAIN_SIZE)) None))) e').
  { intros e' He. apply Hsome; [done|].
    destruct (chain_alloc_size_bounds (size + EVBUFFER_CHAIN_SIZE)) as [Hb Hb']; [lia|];
      (split_and!; [split|..]); cbn; rewrite ?length_replicate; try done;
      rewrite /EVBUFFER_CHAIN_SIZE in Hb, Hb', Hok |- *; lia. }
  destruct (ev_oom e) as [|[|] o] eqn:Ho; cbn.
  - apply Hnew. by rewrite /after_malloc Ho.
  - apply Hnew. by rewrite /after_malloc Ho.
  - apply Hnone; [|by right]. split; [rewrite /later /=; lia|by rewrite Ho].
Qed.

(** Why it may be refused. *)
Lemma new_refused size e :
  EVBUFFER_CHAIN_MAX - EVBUFFER_CHAIN_SIZE < size ∨ head (ev_oom e) = Some false -> ev_oom e ≠ [] ∨ 2 ^ 62 <= size.
Proof.
  rewrite /EVBUFFER_CHAIN_MAX /EV_SSIZE_MAX /EVBUFFER_CHAIN_SIZE. intros [Hb|Hf]; [right; lia|left].
  intros Ho. by rewrite Ho in Hf.
Qed.

Lemma silent_chain_free c : silent (evbuffer_chain_free c) tt.
Proof.
  rewrite /evbuffer_chain_free. destruct (CHAIN_PINNED c); [apply silent_emit|].
  apply (silent_bind _ _ tt); [|apply silent_emit].
  destruct (has_flag _ _); [|apply silent_ret].
  apply (silent_bind _ _ tt); [destruct (has_flag _ _); [apply silent_emit|apply silent_ret]|].
  apply (silent_bind _ _ tt); [|destruct (has_flag _ _); [apply silent_emit|apply silent_ret]].
  destruct (has_flag _ _); [|apply silent_ret]. apply (silent_bind _ _ tt); apply silent_emit.
Qed.

Lemma silent_free_all cs : silent (evbuffer_free_all_chains cs) tt.
Proof.
  induction cs as [|c cs IH]; [apply silent_ret|]. apply (silent_bind _ _ tt); [apply silent_chain_free|done].
Qed.

Lemma silent_run_each info n mask val cbs : silent (run_each info n mask val cbs) tt.
Proof.
  induction cbs as [|cb cbs IH]; [apply silent_ret|]. apply (silent_bind _ _ tt); [|done].
  destruct (negb _); [apply silent_ret|]. destruct (has_flag _ _); apply silent_emit.
Qed.

(** The buffer after its callbacks ran: only the counters have changed. *)
Definition counted (b b' : evbuffer) : Prop := ∃ a d q, b' = set_queued q (set_counts a d b).

Lemma silent_run_callbacks b running :
  ∃ b', counted b b' ∧ silent (evbuffer_run_callbacks b running) b'.
Proof.
  rewrite /evbuffer_run_callbacks. destruct (if running then _ else _) as [[mask val] clear].
  destruct (callbacks b) as [|cb cbs] eqn:Hcb.
  - exists (set_counts 0 0 b). split; [exists 0, 0, (deferred_queued b); by destruct b|apply silent_ret].
  - destruct (_ && _).
    + exists b. split; [exists (n_add_for_cb b), (n_del_for_cb b), (deferred_queued b); by destruct b|apply silent_ret].
    + eexists. split; [|apply (silent_bind _ _ tt); [apply silent_run_each|apply silent_ret]].
      destruct clear; [exists 0, 0|exists (n_add_for_cb b), (n_del_for_cb b)]; exists (deferred_queued b); by destruct b.
Qed.

Lemma silent_invoke_callbacks b : ∃ b', counted b b' ∧ silent (evbuffer_invoke_callbacks b) b'.
Proof.
  rewrite /evbuffer_invoke_callbacks. destruct (callbacks b) as [|cb cbs] eqn:Hcb.
  - exists (set_counts 0 0 b). split; [exists 0, 0, (deferred_queued b); by destruct b|apply silent_ret].
  - destruct (deferred_cbs b); [|apply silent_run_callbacks].
    destruct (deferred_queued b).
    + exists b. split; [exists (n_add_for_cb b), (n_del_for_cb b), (deferred_queued b); by destruct b|apply silent_ret].
    + destruct (silent_run_callbacks (set_queued true b) false) as (b' & (a & d & q & ->) & Hs).
      eexists. split; [|apply (silent_bind _ _ tt); [apply silent_emit|exact Hs]]. exists a, d, q. by destruct b.
Qed.

Lemma runs_invoke b e (Q : evbuffer -> evenv -> Prop) :
  (∀ b' e', counted b b' -> later e e' -> ev_oom e' = ev_oom e -> Q b' e') ->
  runs (evbuffer_invoke_callbacks b) e Q.
Proof.
  intros HQ. destruct (silent_invoke_callbacks b) as (b' & Hc & Hs). apply (runs_silent _ b'); [done|]. auto.
Qed.
