(* ===== verification/EvBufOps.v ===== *)
(** * The operations of event buffers

    Each operation of buffer.c keeps the invariant of EvBufSpec and changes the
    bytes of the buffer as a queue does. *)

From Stdlib Require Import ssreflect.
From S2P Require Import Prelude CTypes HProp CMem EvBuffer EvBufSpec.
Set Warnings "-rewrite-rw".
Open Scope general_if_scope.
Open Scope Z_scope.

(** What no operation on the bytes changes. *)
Record keeps (b b' : evbuffer) : Prop := {
  k_start : freeze_start b' = freeze_start b;
  k_end : freeze_end b' = freeze_end b;
  k_deferred : deferred_cbs b' = deferred_cbs b;
  k_callbacks : callbacks b' = callbacks b }.

#[export] Instance keeps_preorder : PreOrder keeps.
Proof. split; [by split|]. intros b1 b2 b3 [] []. split; congruence. Qed.

Lemma counted_keeps b b' : counted b b' -> keeps b b'.
Proof. by intros (a & d & q & ->). Qed.

Lemma counted_wf b b' e : counted b b' -> buffer_wf b e -> buffer_wf b' e.
Proof. by intros (a & d & q & ->). Qed.

Lemma counted_contents b b' : counted b b' -> contents b' = contents b.
Proof. by intros (a & d & q & ->). Qed.

Lemma counted_total b b' : counted b b' -> total_len b' = total_len b.
Proof. by intros (a & d & q & ->). Qed.

Lemma wf_later b e e' : buffer_wf b e -> later e e' -> buffer_wf b e'.
Proof. apply chains_wf_later. Qed.

Lemma after_malloc_later e e' : after_malloc e e' -> later e e'.
Proof. intros [H _]. rewrite /later H. lia. Qed.

Lemma wf_total b e : buffer_wf b e -> total_len b = Z.of_nat (length (contents b)).
Proof. by intros []. Qed.

Lemma u64_small z : 0 <= z <= EV_SIZE_MAX -> u64 z = z.
Proof. intros. rewrite /u64 Z.mod_small //. rewrite /EV_SIZE_MAX in H. lia. Qed.

(** The last chain of a buffer that has one. *)
Lemma wf_snoc b e :
  buffer_wf b e -> chains b = [] ∨ ∃ pre c, chains b = pre ++ [c] ∧ last b = Some (c_id c).
Proof.
  intros Hwf. destruct (chains b) as [|c pre _] eqn:Hcs using rev_ind; [by left|]. right. exists pre, c.
  split; [done|]. by rewrite (bw_last _ _ _ _ _ Hwf) Hcs last_snoc.
Qed.

(** A buffer of one chain. *)
Lemma chains_wf_one c n e :
  chain_wf c -> (c_id c < next_id e)%positive -> n = off c -> n <= EV_SIZE_MAX ->
  chains_wf [c] (Some (c_id c)) LFirst n e.
Proof.
  intros Hc Hid -> Hmax. apply (chains_wf_snoc [] c). rewrite app_nil_l all_bytes_one bytes_length //.
  split_and!; [by apply Forall_singleton|apply NoDup_singleton|by apply Forall_singleton|done..].
Qed.

Lemma bytes_empty c : chain_wf c -> off c = 0 -> bytes c = [].
Proof. intros Hc H0. apply nil_length_inv. pose proof (bytes_length c Hc). lia. Qed.

(** A new chain behind the others. *)
Lemma chains_wf_grow cs c l p n e :
  chains_wf cs l p n e -> chain_wf c -> (c_id c < next_id e)%positive -> c_id c ∉ c_id <$> cs ->
  Forall (fun c => off c ≠ 0) (cs ++ [c]) -> n + off c <= EV_SIZE_MAX ->
  chains_wf (cs ++ [c]) (Some (c_id c)) (link_of cs) (n + off c) e.
Proof.
  intros [] Hc Hid Hnin Hoff Hmax. apply chains_wf_snoc. rewrite !Forall_app !Forall_singleton.
  rewrite Forall_app Forall_singleton in Hoff. split_and!; [done|done| |done|done|done|done|by intros _| |done].
  - rewrite fmap_app. apply NoDup_app. split_and!; [done| |apply NoDup_singleton].
    intros i Hi Hj%list_elem_of_singleton. cbn in Hj. by subst i.
  - rewrite all_bytes_app length_app all_bytes_one. pose proof (bytes_length c Hc). lia.
Qed.

(** No chain is empty when the last one is not. *)
Lemma wf_all_data pre c l p n e :
  chains_wf (pre ++ [c]) l p n e -> off c ≠ 0 -> Forall (fun c => off c ≠ 0) (pre ++ [c]).
Proof.
  intros Hwf Hc. apply chains_wf_snoc in Hwf as (_ & _ & _ & _ & _ & Hd & _).
  destruct pre as [|x pre]; [by apply Forall_singleton|by apply Hd].
Qed.

Lemma wf_only_empty pre c l p n e : chains_wf (pre ++ [c]) l p n e -> off c = 0 -> pre = [].
Proof.
  intros Hwf Hc. apply chains_wf_snoc in Hwf as (_ & _ & _ & _ & _ & Hd & _).
  destruct pre as [|x pre]; [done|]. specialize (Hd ltac:(done)).
  by rewrite Forall_app Forall_singleton in Hd; destruct Hd.
Qed.

(** A new chain at the end. *)
Lemma runs_chain_insert b c e (Q : evbuffer -> evenv -> Prop) :
  buffer_wf b e -> chain_wf c -> (c_id c < next_id e)%positive -> c_id c ∉ c_id <$> chains b ->
  chains b = [] ∨ off c ≠ 0 -> total_len b + off c <= EV_SIZE_MAX ->
  (∀ b' e' pre, keeps b b' -> chains b' = pre ++ [c] -> buffer_wf b' e' ->
     contents b' = contents b ++ bytes c -> later e e' -> ev_oom e' = ev_oom e -> Q b' e') ->
  runs (evbuffer_chain_insert b c) e Q.
Proof.
  intros Hwf Hc Hid Hnin Hoff Htot HQ. pose proof (wf_total b e Hwf) as Hn. pose proof (cw_off c Hc) as Hc0.
  pose proof Hwf as Hwf'. rewrite /buffer_wf in Hwf'.
  destruct (chains b) as [|x pre _] eqn:Hcs using rev_ind.
  - pose proof (bw_datap _ _ _ _ _ Hwf') as Hp. cbn in Hp. rewrite /evbuffer_chain_insert Hcs Hp /runs /=.
    assert (Hcon : contents b = []) by by rewrite /contents Hcs. rewrite Hcon /= in Hn.
    rewrite u64_small; [|lia].
    apply (HQ _ e []); [done|done| |by rewrite Hcon /contents /= all_bytes_one|done|done].
    rewrite /buffer_wf /= Hp. apply chains_wf_one; [done|done|lia|lia].
  - pose proof Hwf' as Hsn. apply chains_wf_snoc in Hsn as (Hcw & Hnd & Hfr & Hlast & Hp & _ & Hsum & Hmax).
    pose proof (wf_only_empty _ _ _ _ _ _ Hwf') as Hdata.
    destruct Hoff as [Hoff|Hoff]; [by destruct pre|].
    rewrite /evbuffer_chain_insert Hp Hcs deref_link_of //. apply runs_bind, runs_bind.
    rewrite Forall_app Forall_singleton in Hcw. destruct Hcw as [Hcw1 Hx].
    cbn [find_victim]. rewrite (cw_pinned x Hx) orb_false_r.
    destruct (Z.eqb_spec (off x) 0) as [Hx0|Hx0]; cbn [negb].
    + (* the only chain is empty and replaced *)
      rewrite (Hdata Hx0) in Hcs |- *. assert (Hcon : contents b = []).
      { rewrite /contents Hcs all_bytes_one. by apply bytes_empty. }
      rewrite Hcon /= in Hn. apply runs_bind. cbn [evbuffer_chains_all_empty].
      rewrite Hx0 /=. apply runs_bind, runs_bind. apply (runs_silent _ tt _ _ (silent_free_all [x])).
      intros e1 Hle Hoom. rewrite /runs /= u64_small; [|lia].
      apply (HQ _ e1 []); [done|done| |by rewrite Hcon /contents /= all_bytes_one|done|done].
      rewrite /later in Hle. rewrite /buffer_wf /= Hp (Hdata Hx0). apply chains_wf_one; [done|lia|lia|lia].
    + rewrite Hlast. apply runs_bind. rewrite -(link_of_snoc pre x).
      rewrite (store_link_of (pre ++ [x]) []); [|by rewrite app_nil_r|by rewrite Hcs].
      rewrite (proj2 (Z.eqb_neq _ _)) //= /runs /= u64_small; [|lia].
      apply (HQ _ e (pre ++ [x])); [done|done| |by rewrite /contents /= Hcs !all_bytes_app !all_bytes_one|done|done].
      apply (chains_wf_grow _ _ _ _ _ _ Hwf'); [done..| |done].
      rewrite Forall_app Forall_singleton. split; [|done]. by apply (wf_all_data _ _ _ _ _ _ Hwf').
Qed.

(** ** Adding *)

(** The last chain changes in place. *)
Lemma chains_wf_set_last pre c c' l p n n' e :
  chains_wf (pre ++ [c]) l p n e -> chain_wf c' -> c_id c' = c_id c -> (off c' = 0 -> off c = 0) ->
  n' = n + off c' - off c -> n' <= EV_SIZE_MAX -> chains_wf (pre ++ [c']) l p n' e.
Proof.
  intros Hwf Hc' Hid Hoff -> Hmax. apply chains_wf_snoc in Hwf as (Hcw & Hnd & Hfr & -> & -> & Hdata & -> & _).
  apply chains_wf_snoc. rewrite !Forall_app !Forall_singleton in Hcw, Hfr |- *. destruct Hcw as [? Hc], Hfr as [? ?].
  rewrite fmap_app in Hnd. split_and!; [done|done| |done|by rewrite Hid|by rewrite Hid|done| | |done].
  - rewrite fmap_app /= Hid //.
  - intros Hpre. specialize (Hdata Hpre). rewrite Forall_app Forall_singleton in Hdata. destruct Hdata; auto.
  - rewrite !all_bytes_app !length_app. pose proof (bytes_length c Hc). pose proof (bytes_length c' Hc'). lia.
Qed.

(** Why an allocation for [n] more bytes may be refused: the allocator fails at
    some point, or a block would become too large. *)
Definition can_fail (b : evbuffer) (e : evenv) (n : Z) : Prop :=
  ev_oom e ≠ [] ∨ 2 ^ 62 <= n ∨ Exists (fun c => 2 ^ 62 <= buffer_len c) (chains b).

Lemma goes_on_same e e' : later e e' -> ev_oom e' = ev_oom e -> goes_on e e'.
Proof. intros ? Heq. split; [done|]. by rewrite Heq. Qed.

Lemma goes_on_malloc e e' : after_malloc e e' -> goes_on e e'.
Proof. intros H. split; [by apply after_malloc_later|]. destruct H as [_ ->]. by intros ->. Qed.

Lemma new_chain_id size e e' c : after_malloc e e' -> is_new_chain size e c -> (c_id c < next_id e')%positive.
Proof. intros [Hn _] (_ & _ & _ & _ & _ & _ & ->). rewrite Hn. lia. Qed.

Lemma new_chain_fresh size b e c : buffer_wf b e -> is_new_chain size e c -> c_id c ∉ c_id <$> chains b.
Proof.
  intros Hwf (_ & _ & _ & _ & _ & _ & ->) Hin. apply list_elem_of_fmap in Hin as (x & Heq & Hx).
  pose proof (bw_fresh _ _ _ _ _ Hwf) as Hfr. rewrite Forall_forall in Hfr. specialize (Hfr x Hx). lia.
Qed.

(** Before the data go in there is a chain; an empty buffer gets one. *)
Lemma runs_ensure_new which b datlen e (Q : option evbuffer_chain * evbuffer -> evenv -> Prop) :
  buffer_wf b e -> chains b = [] -> which b = None -> 0 <= datlen ->
  (∀ b' e' c, keeps b b' -> chains b' = [c] -> buffer_wf b' e' -> contents b' = contents b ->
     goes_on e e' -> is_new_chain datlen e c -> Q (Some c, b') e') ->
  (∀ e', goes_on e e' -> ev_oom e ≠ [] ∨ 2 ^ 62 <= datlen -> Q (None, b) e') ->
  runs (ensure_chain which b datlen) e Q.
Proof.
  intros Hwf Hcs Hwhich Hlen HQ Hno. rewrite /ensure_chain Hwhich. apply runs_bind, runs_chain_new; [done| |].
  - intros c e1 Hm Hnew. apply runs_bind.
    pose proof (Hnew) as (Hc & _ & Hoff & _). pose proof (wf_total b e Hwf) as Ht.
    assert (Hcon : contents b = []) by by rewrite /contents Hcs.
    apply (runs_chain_insert b c e1); [by eapply wf_later, after_malloc_later|done|by eapply new_chain_id
      |by eapply new_chain_fresh|by left|rewrite Ht Hcon Hoff /=; rewrite /EV_SIZE_MAX; lia|].
    intros b' e' pre Hk Hcs' Hwf' Hcon' Hle Hoom. apply runs_ret.
    assert (pre = []) as -> by (rewrite /buffer_wf Hcs' in Hwf'; by eapply wf_only_empty).
    eapply HQ; try done.
    + by rewrite Hcon' (bytes_empty c Hc Hoff) app_nil_r.
    + etrans; [by apply goes_on_malloc|by apply goes_on_same].
  - intros e' Hgo Hwhy. apply runs_ret, Hno; [done|]. by apply new_refused.
Qed.

Lemma runs_ensure_last b datlen e (Q : option evbuffer_chain * evbuffer -> evenv -> Prop) :
  buffer_wf b e -> 0 <= datlen ->
  (∀ b' e' pre c, keeps b b' -> chains b' = pre ++ [c] -> buffer_wf b' e' -> contents b' = contents b ->
     goes_on e e' -> chains b' = chains b ∨ is_new_chain datlen e c -> Q (Some c, b') e') ->
  (∀ e', goes_on e e' -> ev_oom e ≠ [] ∨ 2 ^ 62 <= datlen -> Q (None, b) e') ->
  runs (ensure_chain last b datlen) e Q.
Proof.
  intros Hwf Hlen HQ Hno. destruct (wf_snoc b e Hwf) as [Hcs|(pre & c & Hcs & Hl)].
  - apply runs_ensure_new; [done|done|by rewrite (bw_last _ _ _ _ _ Hwf) Hcs|done| |done].
    intros b' e' c Hk Hcs' Hwf' Hcon Hgo Hnew. apply (HQ b' e' [] c); auto.
  - rewrite /ensure_chain Hl. apply runs_bind. rewrite (get_chain_app pre c []) //; [|apply Hwf]. apply runs_ret.
    eapply HQ; try done. by left.
Qed.

Lemma runs_ensure_first b datlen e (Q : option evbuffer_chain * evbuffer -> evenv -> Prop) :
  buffer_wf b e -> 0 <= datlen ->
  (∀ b' e' c post, keeps b b' -> chains b' = c :: post -> buffer_wf b' e' -> contents b' = contents b ->
     goes_on e e' -> chains b' = chains b ∨ post = [] ∧ is_new_chain datlen e c -> Q (Some c, b') e') ->
  (∀ e', goes_on e e' -> ev_oom e ≠ [] ∨ 2 ^ 62 <= datlen -> Q (None, b) e') ->
  runs (ensure_chain first b datlen) e Q.
Proof.
  intros Hwf Hlen HQ Hno. destruct (chains b) as [|c post] eqn:Hcs.
  - apply runs_ensure_new; [done|done|by rewrite /first Hcs|done| |done].
    intros b' e' c Hk Hcs' Hwf' Hcon Hgo Hnew. apply (HQ b' e' c []); auto.
  - rewrite /ensure_chain {1}/first Hcs. apply runs_bind. rewrite (get_chain_app [] c post) //; [|apply Hwf].
    apply runs_ret. eapply HQ; try done. by left.
Qed.

(** What adding [data] comes to: all of it at the end, or nothing, and why. *)
Definition added (b : evbuffer) (data : list mbyte) (e : evenv) (why : Prop) (res : Z * evbuffer) (e' : evenv) : Prop :=
  buffer_wf (snd res) e' ∧ keeps b (snd res) ∧ goes_on e e'
  ∧ (fst res = 0 ∧ contents (snd res) = contents b ++ data
     ∨ fst res = -1 ∧ contents (snd res) = contents b ∧ why).

Lemma runs_added_invoke b b1 data e e1 why :
  buffer_wf b1 e1 -> keeps b b1 -> goes_on e e1 -> contents b1 = contents b ++ data ->
  runs (b ← evbuffer_invoke_callbacks b1; mret (0, b)) e1 (added b data e why).
Proof.
  intros Hwf Hk Hgo Hcon. apply runs_bind, runs_invoke. intros b' e' Hc Hle Hoom. apply runs_ret. split_and!; cbn.
  - eapply wf_later; [|done]. by eapply counted_wf.
  - etrans; [done|by apply counted_keeps].
  - etrans; [done|by apply goes_on_same].
  - left. by rewrite (counted_contents _ _ Hc).
Qed.

(** The part of the data that still fits goes behind those of the last chain. *)
Lemma wf_append_last b pre c ds e :
  buffer_wf b e -> chains b = pre ++ [c] -> misalign c + off c + Z.of_nat (length ds) <= buffer_len c ->
  total_len b + Z.of_nat (length ds) <= EV_SIZE_MAX ->
  let b' := count_added (Z.of_nat (length ds)) (put_chain (append_to c ds) b) in
  buffer_wf b' e ∧ keeps b b' ∧ chains b' = pre ++ [append_to c ds] ∧ contents b' = contents b ++ ds
  ∧ total_len b' = total_len b + Z.of_nat (length ds).
Proof.
  intros Hwf Hcs Hfit Hmax b'. pose proof (bw_ids _ _ _ _ _ Hwf) as Hnd. pose proof (wf_total b e Hwf) as Ht.
  assert (Hc : chain_wf c).
  { pose proof (bw_chains _ _ _ _ _ Hwf) as Hcw. rewrite Hcs Forall_app Forall_singleton in Hcw. apply Hcw. }
  destruct (append_to_wf c ds Hc Hfit) as [Hc' Hb']. rewrite /b' (put_chain_app pre c _ []) //.
  assert (Htot : u64 (total_len b + Z.of_nat (length ds)) = total_len b + Z.of_nat (length ds)).
  { rewrite u64_small //. lia. }
  split_and!; [|done|done| |done].
  - rewrite /buffer_wf /= Htot. rewrite /buffer_wf Hcs in Hwf.
    apply (chains_wf_set_last pre c _ _ _ _ _ _ Hwf); [done|done| |cbn; lia|done].
    pose proof (cw_off c Hc). cbn. lia.
  - by rewrite /contents /= Hcs !all_bytes_app !all_bytes_one Hb' app_assoc.
Qed.

(** The step of evbuffer_add that does this, when anything fits. *)
Lemma runs_fill_last b pre c ds remain e (Q : evbuffer -> evenv -> Prop) :
  buffer_wf b e -> chains b = pre ++ [c] -> remain = Z.of_nat (length ds) ->
  misalign c + off c + remain <= buffer_len c -> total_len b + remain <= EV_SIZE_MAX ->
  (∀ b', keeps b b' -> buffer_wf b' e -> c_id <$> chains b' = c_id <$> chains b ->
     contents b' = contents b ++ ds -> total_len b' = total_len b + remain -> Q b' e) ->
  runs (if negb (remain =? 0) then
          c ← chain_write (misalign c + off c) ds c;
          mret (count_added remain (put_chain (set_span (misalign c) (off c + remain) c) b))
        else mret b) e Q.
Proof.
  intros Hwf Hcs -> Hfit Hmax HQ. destruct (Z.eqb_spec (Z.of_nat (length ds)) 0) as [H0|H0]; cbn [negb].
  - rewrite (nil_length_inv ds) in HQ |- *; [|lia]. apply runs_ret, HQ; rewrite ?app_nil_r ?Z.add_0_r //.
  - destruct (wf_append_last b pre c ds e) as (? & ? & Hcs1 & ? & ?); [done..|].
    pose proof (bw_chains _ _ _ _ _ Hwf) as Hcw. rewrite Hcs Forall_app Forall_singleton in Hcw. destruct Hcw as [_ []].
    apply runs_bind, runs_chain_write; [lia|lia|]. apply runs_ret.
    apply HQ; [done|done| |done|done]. by rewrite Hcs1 Hcs !fmap_app.
Qed.

Lemma wf_last_chain b pre c post e : buffer_wf b e -> chains b = pre ++ c :: post -> chain_wf c.
Proof.
  intros Hwf Hcs. pose proof (bw_chains _ _ _ _ _ Hwf) as Hcw. rewrite Hcs in Hcw.
  apply Forall_app in Hcw as [_ Hcw]. by apply Forall_cons in Hcw as [Hc _].
Qed.

(** The size asked for: enough for the data, and too large only for a reason. *)
Lemma add_alloc_size len n t1 t2 :
  0 <= len -> 0 <= n -> t1 = (if len <=? EVBUFFER_CHAIN_MAX_AUTO_SIZE / 2 then Z.shiftl len 1 else len) ->
  t2 = (if t1 <? n then n else t1) ->
  n <= t2 ∧ (EVBUFFER_CHAIN_MAX - EVBUFFER_CHAIN_SIZE < t2 -> 2 ^ 62 <= n ∨ 2 ^ 62 <= len).
Proof.
  intros Hlen Hn Ht1 ->. rewrite Z.shiftl_mul_pow2 // Z.pow_1_r in Ht1.
  change (EVBUFFER_CHAIN_MAX_AUTO_SIZE / 2) with 2048 in Ht1.
  rewrite /EVBUFFER_CHAIN_MAX /EV_SSIZE_MAX /EVBUFFER_CHAIN_SIZE.
  destruct (Z.leb_spec len 2048), (Z.ltb_spec t1 n); lia.
Qed.

Lemma runs_add_more b pre c data remain e :
  buffer_wf b e -> chains b = pre ++ [c] -> 0 <= remain < Z.of_nat (length data) ->
  misalign c + off c + remain <= buffer_len c -> total_len b + Z.of_nat (length data) <= EV_SIZE_MAX ->
  runs (evbuffer_add_more b c data remain) e (added b data e (can_fail b e (Z.of_nat (length data)))).
Proof.
  intros Hwf Hcs Hrem Hfit Hmax. pose proof (wf_last_chain _ _ _ _ _ Hwf Hcs) as Hc.
  pose proof (wf_total b e Hwf) as Ht. rewrite /evbuffer_add_more.
  edestruct (add_alloc_size (buffer_len c) (Z.of_nat (length data))) as [Hge Hbig];
    [destruct Hc; lia|lia|reflexivity|reflexivity|]. set (size := if _ <? _ then _ else _) in *. clearbody size.
  apply runs_bind, runs_chain_new; [lia| |].
  - intros tmp e1 Hm Hnew. pose proof Hnew as (Htw & Htm & Hto & Htl & _).
    assert (Hds : length (take (Z.to_nat remain) data) = Z.to_nat remain) by (rewrite length_take; lia).
    assert (Hrest : length (drop (Z.to_nat remain) data) = (length data - Z.to_nat remain)%nat) by apply length_drop.
    apply runs_bind, (runs_fill_last b pre c); [by eapply wf_later, after_malloc_later|done|lia|done|lia|].
    intros b1 Hk1 Hwf1 Hids Hcon1 Htot1. apply runs_bind, runs_chain_write; [done|destruct Htw; lia|].
    destruct (append_to_wf tmp (drop (Z.to_nat remain) data)) as [Hw' Hb']; [done|lia|].
    rewrite (bytes_empty tmp) // app_nil_l in Hb'.
    replace (set_span _ _ _) with (append_to tmp (drop (Z.to_nat remain) data)); last first.
    { rewrite /append_to /= Htm Hto Z.add_0_l //. }
    apply runs_bind, (runs_chain_insert b1); [done|done|by eapply (new_chain_id _ _ _ tmp)| | | |].
    + rewrite Hids. by apply (new_chain_fresh _ _ _ tmp Hwf Hnew).
    + right. cbn. lia.
    + cbn. lia.
    + intros b2 e2 pre2 Hk2 Hcs2 Hwf2 Hcon2 Hle Hoom. apply (runs_added_invoke b _ data e e2).
      * done.
      * etrans; [done|]. etrans; [done|]. done.
      * etrans; [by apply goes_on_malloc|by apply goes_on_same].
      * change (contents b2 = contents b ++ data). by rewrite Hcon2 Hcon1 Hb' -app_assoc take_drop.
  - intros e' Hgo Hwhy. apply runs_ret. split_and!; cbn; [by eapply wf_later, Hgo|done|done|].
    right. split_and!; [done|done|]. destruct Hwhy as [Hb|Hf].
    + destruct (Hbig Hb) as [|Hl]; [by right; left|]. right. right. rewrite Hcs. apply Exists_app. right. by apply Exists_cons_hd.
    + left. intros Ho. by rewrite Ho in Hf.
Qed.

(** Moving the data of a chain to the start of its block. *)
Definition aligned (c : evbuffer_chain) : evbuffer_chain :=
  set_span 0 (off c) (set_data (patch (c_data c) 0 (bytes c)) c).

Lemma aligned_wf c : chain_wf c -> chain_wf (aligned c) ∧ bytes (aligned c) = bytes c.
Proof.
  intros Hc. pose proof (bytes_length c Hc) as Hl. destruct Hc. split.
  - split; cbn; try done; try lia. rewrite patch_length; lia.
  - rewrite {1}/bytes /=. rewrite slice_patch_at //; lia.
Qed.

Lemma runs_chain_align c e (Q : evbuffer_chain -> evenv -> Prop) :
  chain_wf c -> is_immutable c = false -> Q (aligned c) e -> runs (evbuffer_chain_align c) e Q.
Proof.
  intros Hc Him HQ. pose proof (bytes_length c Hc) as Hl. pose proof Hc as [? ? ? ? ? Hpin].
  rewrite /evbuffer_chain_align. apply runs_bind, runs_assert; [by rewrite Him|].
  apply runs_bind, runs_assert; [by rewrite Hpin|]. apply runs_bind, runs_chain_bytes; [done|].
  apply runs_bind, runs_chain_write; [done|lia|]. by apply runs_ret.
Qed.

(** The last chain is replaced by one with the same data. *)
Lemma wf_swap_last b pre c c' e :
  buffer_wf b e -> chains b = pre ++ [c] -> chain_wf c' -> c_id c' = c_id c -> off c' = off c -> bytes c' = bytes c ->
  buffer_wf (put_chain c' b) e ∧ chains (put_chain c' b) = pre ++ [c'] ∧ contents (put_chain c' b) = contents b.
Proof.
  intros Hwf Hcs Hc' Hid Hoff Hb. rewrite (put_chain_app pre c _ []) //; [|apply Hwf]. split_and!; [|done|].
  - pose proof (bw_bound _ _ _ _ _ Hwf). rewrite /buffer_wf Hcs in Hwf |- *.
    apply (chains_wf_set_last pre c _ _ _ _ _ _ Hwf); cbn; lia || done.
  - by rewrite /contents /= Hcs !all_bytes_app !all_bytes_one Hb.
Qed.

Lemma put_chain_twice c c' b : c_id c' = c_id c -> put_chain c' (put_chain c b) = put_chain c' b.
Proof.
  intros Hid. rewrite /put_chain /set_chains /=. f_equal. rewrite -list_fmap_compose. apply list_fmap_ext.
  intros _ x _. cbn. destruct (decide (c_id x = c_id c)) as [Hx|Hx].
  - rewrite !decide_True //; congruence.
  - done.
Qed.

Lemma runs_evbuffer_add b data e :
  buffer_wf b e -> (data = [] -> Forall (fun c => is_immutable c = false) (chains b)) ->
  runs (evbuffer_add b data) e
    (added b data e (freeze_end b = true ∨ EV_SIZE_MAX < total_len b + Z.of_nat (length data)
                     ∨ can_fail b e (Z.of_nat (length data)))).
Proof.
  intros Hwf Hnil. rewrite /evbuffer_add. destruct (freeze_end b) eqn:Hfr.
  { apply runs_ret. split_and!; cbn; auto; done. }
  destruct (Z.ltb_spec (EV_SIZE_MAX - total_len b) (Z.of_nat (length data))) as [Hbig|Hok].
  { apply runs_ret. split_and!; cbn; [done|done|done|]. right. split_and!; [done|done|]. right. left. lia. }
  apply runs_bind, (runs_ensure_last b); [done|lia| |].
  - intros b1 e1 pre c Hk Hcs Hwf1 Hcon Hgo Hnew. pose proof (wf_last_chain _ _ _ _ _ Hwf1 Hcs) as Hc.
    assert (Htot : total_len b1 = total_len b). { by rewrite (wf_total _ _ Hwf1) (wf_total _ _ Hwf) Hcon. }
    assert (Hmore : ∀ remain, 0 <= remain < Z.of_nat (length data) -> misalign c + off c + remain <= buffer_len c ->
      (chains b1 = chains b) -> runs (evbuffer_add_more b1 c data remain) e1
        (added b data e (false = true ∨ EV_SIZE_MAX < total_len b + Z.of_nat (length data)
                         ∨ can_fail b e (Z.of_nat (length data))))).
    { intros remain Hr Hf Hsame. eapply runs_mono; [apply (runs_add_more b1 pre c); [done|done|done|done|lia]|].
      intros [r b2] e2 (Hw2 & Hk2 & Hg2 & Hres). cbn in *. split_and!; [done|by etrans|by etrans|]. cbn.
      rewrite Hcon in Hres. destruct Hres as [Hres|(-> & Hc2 & Hwhy)]; [by left|]. right. split_and!; [done|done|].
      right. right. destruct Hwhy as [Ho|[Hl|He]]; [left|by right; left|right; right; by rewrite -Hsame].
      intros Ho'. by apply Ho, Hgo. }
    pose proof Hc as [Hm0 Ho0 Hfit Hlenmax Hdat Hpin]. destruct (is_immutable c) eqn:Him; cbn [negb].
    + destruct Hnew as [Hsame|Hnew]; last first.
      { destruct Hnew as (_ & _ & _ & _ & _ & Hfl & _). by rewrite /is_immutable Hfl in Him. }
      apply Hmore; [|lia|done]. destruct data as [|d data]; [|cbn; lia].
      rewrite -Hsame Hcs in Hnil. specialize (Hnil eq_refl). rewrite Forall_app Forall_singleton in Hnil.
      by destruct Hnil as [_ Hnil]; rewrite Hnil in Him.
    + apply runs_bind, runs_assert; [apply andb_true_intro; split; apply Z.leb_le; lia|].
      assert (Hrem : u64 (buffer_len c - misalign c - off c) = buffer_len c - misalign c - off c).
      { rewrite u64_small //. rewrite /EVBUFFER_CHAIN_MAX /EV_SSIZE_MAX in Hlenmax. rewrite /EV_SIZE_MAX. lia. }
      rewrite Hrem. destruct (Z.leb_spec (Z.of_nat (length data)) (buffer_len c - misalign c - off c)) as [Hin|Hout].
      * apply runs_bind, runs_chain_write; [lia|lia|]. cbn beta.
        destruct (wf_append_last b1 pre c data e1) as (? & ? & _ & Hcon' & _); [done|done|lia|lia|].
        apply runs_added_invoke; [done|by etrans|done|]. by rewrite -Hcon.
      * rewrite Hpin. destruct (evbuffer_chain_should_realign c _) eqn:Hal; cbn [andb negb]; last first.
        { apply Hmore; [lia|lia|]. destruct Hnew as [|(_ & Hm' & Ho' & Hl' & _)]; [done|lia]. }
        apply runs_bind, runs_chain_align; [done|done|]. destruct (aligned_wf c Hc) as [Hca Hba].
        apply andb_prop in Hal as [Hal _]. apply andb_prop in Hal as [Hroom _]. apply Z.leb_le in Hroom.
        apply runs_bind, runs_chain_write; [done|destruct Hca as [_ _ _ _ -> _]; cbn; lia|]. cbn beta.
        destruct (wf_swap_last b1 pre c (aligned c) e1) as (Hws & Hcss & Hcons); [done..|].
        destruct (wf_append_last (put_chain (aligned c) b1) pre (aligned c) data e1) as (Hw' & Hk' & _ & Hcon' & _);
          [done|done|cbn; lia|cbn; lia|]. rewrite put_chain_twice // in Hw', Hk', Hcon'.
        apply runs_added_invoke; [done|by etrans|done|]. by rewrite -Hcon -Hcons.
  - intros e' Hgo Hwhy. apply runs_ret. split_and!; cbn; [by eapply wf_later, Hgo|done|done|]. right.
    split_and!; [done|done|]. right. right. destruct Hwhy; [by left|by right; left].
Qed.

(** ** Removing *)

Lemma unpinned_r c : CHAIN_PINNED c = false -> CHAIN_PINNED_R c = false.
Proof.
  rewrite /CHAIN_PINNED /CHAIN_PINNED_R /has_flag. intros H%negb_false_iff%Z.eqb_eq. apply negb_false_iff, Z.eqb_eq.
  change EVBUFFER_MEM_PINNED_R with (Z.land EVBUFFER_MEM_PINNED_ANY EVBUFFER_MEM_PINNED_R).
  by rewrite Z.land_assoc H.
Qed.

Lemma has_pinned_r b e : buffer_wf b e -> HAS_PINNED_R b = mret false.
Proof.
  intros Hwf. rewrite /HAS_PINNED_R. destruct (wf_snoc b e Hwf) as [Hcs|(pre & c & Hcs & ->)].
  - by rewrite (bw_last _ _ _ _ _ Hwf) Hcs.
  - rewrite (get_chain_app pre c []) //; [|apply Hwf]. rewrite /mbind /E_bind /=.
    pose proof (wf_last_chain _ _ _ _ _ Hwf Hcs) as Hc. by rewrite (unpinned_r c (cw_pinned c Hc)).
Qed.

(** When the first of several chains goes, the link to the last one that led
    out of it leads out of the buffer. *)
Lemma link_of_uncons c q z :
  NoDup (c_id <$> (c :: q) ++ [z]) ->
  deref ((c :: q) ++ [z]) (link_of (c :: q)) = mret [z] ∧ c_id z ≠ c_id c
  ∧ (if decide (link_of (c :: q) = LNext (c_id c)) then LFirst else link_of (c :: q)) = link_of q
  ∧ ∃ x, link_of (c :: q) = LNext x.
Proof.
  intros Hnd. split; [by apply deref_link_of|]. rewrite fmap_app fmap_cons /= in Hnd.
  apply NoDup_cons in Hnd as [Hnin _]. split_and!.
  - intros Heq. apply Hnin. rewrite -Heq. set_solver.
  - destruct q as [|w q _] using rev_ind; [by rewrite decide_True|].
    rewrite app_comm_cons !link_of_snoc decide_False //. intros [= Heq]. apply Hnin. rewrite -Heq.
    rewrite fmap_app. set_solver.
  - destruct q as [|w q _] using rev_ind; [by exists (c_id c)|]. exists (c_id w). by rewrite app_comm_cons link_of_snoc.
Qed.

(** The chains that are emptied completely; the link keeps up. *)
Lemma runs_drain_loop f cs remaining e (Q : list evbuffer_chain * Z * link -> evenv -> Prop) :
  Forall chain_wf cs -> NoDup (c_id <$> cs) -> 0 <= remaining < Z.of_nat (length (all_bytes cs)) ->
  (∀ gone c rest e', cs = gone ++ c :: rest -> 0 <= remaining - Z.of_nat (length (all_bytes gone)) < off c ->
     later e e' -> ev_oom e' = ev_oom e ->
     Q (c :: rest, remaining - Z.of_nat (length (all_bytes gone)), link_of (removelast (c :: rest))) e') ->
  runs (drain_loop f cs remaining (link_of (removelast cs))) e Q.
Proof.
  revert remaining e. induction cs as [|c cs IH]; intros remaining e Hcw Hnd Hrem HQ; [cbn in Hrem; lia|].
  apply Forall_cons in Hcw as [Hc Hcw]. pose proof (bytes_length c Hc) as Hl.
  rewrite all_bytes_cons length_app in Hrem. cbn [drain_loop].
  destruct (Z.leb_spec (off c) remaining) as [Hle|Hgt]; last first.
  { apply runs_ret. specialize (HQ [] c cs e eq_refl). cbn in HQ. rewrite Z.sub_0_r in HQ. apply HQ; [lia|done|done]. }
  destruct cs as [|z q _] using rev_ind; [cbn in Hrem; lia|].
  rewrite (app_comm_cons q [z] c) removelast_snoc. rewrite removelast_snoc in IH.
  destruct (link_of_uncons c q z Hnd) as (Hd & Hz & Hp & x & Hx).
  apply runs_bind. rewrite Hd. rewrite {1}Hx. apply runs_bind, runs_ret, runs_ret. cbn zeta.
  rewrite (decide_False (P := head_id [z] = _)); [|by intros [= ?]]. rewrite Hp (unpinned_r c (cw_pinned c Hc)).
  apply runs_bind, (runs_silent _ tt); [apply silent_chain_free|]. intros e1 Hle1 Hoom1.
  apply IH; [done|by apply NoDup_cons in Hnd as [_ ?]|lia|].
  intros gone y rest e' Heq Hy Hle' Hoom'. specialize (HQ (c :: gone) y rest e').
  rewrite all_bytes_cons length_app in HQ.
  replace (remaining - Z.of_nat (length (bytes c) + length (all_bytes gone)))
    with (remaining - off c - Z.of_nat (length (all_bytes gone))) in HQ by lia.
  apply HQ; [by rewrite Heq|done|by etrans|by rewrite Hoom'].
Qed.

(** What is left after the first bytes are gone. *)
Definition drained (b : evbuffer) (len : Z) (e : evenv) (res : Z * evbuffer) (e' : evenv) : Prop :=
  buffer_wf (snd res) e' ∧ keeps b (snd res) ∧ goes_on e e'
  ∧ (fst res = 0 ∧ contents (snd res) = drop (Z.to_nat len) (contents b)
     ∨ fst res = -1 ∧ snd res = b ∧ freeze_start b = true).

Lemma chains_wf_tail gone c c' rest l p n e :
  chains_wf (gone ++ c :: rest) l p n e -> chain_wf c' -> c_id c' = c_id c -> 0 < off c' ->
  off c' <= off c ->
  chains_wf (c' :: rest) l (link_of (removelast (c' :: rest))) (Z.of_nat (length (all_bytes (c' :: rest)))) e.
Proof.
  intros [Hcs0 Hids0 Hfr0 Hl0 _ Hd0 Ht0 Hb0] Hc' Hid Hoff Hle. apply Forall_app in Hcs0 as [_ Hcw]. apply Forall_cons in Hcw as [Hc Hcw].
  apply Forall_app in Hfr0 as [_ Hfr]. apply Forall_cons in Hfr as [Hfc Hfr].
  rewrite fmap_app in Hids0. apply NoDup_app in Hids0 as (_ & _ & Hnd).
  split; [by constructor|by rewrite fmap_cons Hid|by constructor; [rewrite Hid|]| |done| |done|].
  - rewrite Hl0. rewrite last_app_cons. destruct rest as [|d rest]; [cbn; by rewrite Hid|by rewrite !last_cons_cons].
  - intros Hlen. rewrite length_app /= in Hd0. cbn in Hlen. specialize (Hd0 ltac:(lia)).
    apply Forall_app in Hd0 as [_ Hd0]. apply Forall_cons in Hd0 as [_ Hd0]. constructor; [lia|done].
  - rewrite Ht0 in Hb0. rewrite all_bytes_app all_bytes_cons !length_app in Hb0.
    rewrite all_bytes_cons length_app. pose proof (bytes_length c Hc). pose proof (bytes_length c' Hc'). lia.
Qed.

Lemma runs_evbuffer_drain b len e :
  buffer_wf b e -> 0 <= len -> runs (evbuffer_drain b len) e (drained b len e).
Proof.
  intros Hwf Hlen. pose proof (wf_total b e Hwf) as Ht. rewrite /evbuffer_drain.
  destruct (Z.eqb_spec (total_len b) 0) as [H0|H0].
  { apply runs_ret. split_and!; cbn; [done..|]. left. split; [done|].
    rewrite (nil_length_inv (contents b)); [|lia]. by rewrite drop_nil. }
  destruct (freeze_start b) eqn:Hfr; [apply runs_ret; split_and!; cbn; auto; done|].
  apply runs_bind. rewrite (has_pinned_r b e Hwf). apply runs_ret. rewrite andb_true_r.
  assert (Hend : ∀ b1 e1 n, buffer_wf b1 e1 -> keeps b b1 -> goes_on e e1 ->
    contents b1 = drop (Z.to_nat len) (contents b) ->
    runs (b ← evbuffer_invoke_callbacks (set_counts (n_add_for_cb b1) n b1); mret (0, b)) e1 (drained b len e)).
  { intros b1 e1 n Hw Hk Hgo Hcon. apply runs_bind, runs_invoke. intros b' e' Hc Hle Hoom. apply runs_ret. split_and!; cbn.
    - eapply wf_later; [|done]. by eapply counted_wf.
    - etrans; [done|]. by destruct Hc as (? & ? & ? & ->).
    - etrans; [done|by apply goes_on_same].
    - left. by rewrite (counted_contents _ _ Hc). }
  destruct (Z.leb_spec (total_len b) len) as [Hall|Hpart].
  - apply runs_bind, runs_bind, (runs_silent _ tt); [apply silent_free_all|]. intros e1 Hle Hoom. apply runs_ret.
    apply Hend; [apply chains_wf_nil|done|by apply goes_on_same|].
    rewrite drop_ge; [done|lia].
  - apply runs_bind, runs_bind. rewrite (bw_datap _ _ _ _ _ Hwf).
    apply runs_drain_loop; [apply Hwf|apply Hwf|rewrite -/(contents b) /=; lia|].
    intros gone c rest e1 Hcs Hrem Hle Hoom. cbn in Hcs.
    assert (Hc : chain_wf c) by by eapply wf_last_chain.
    destruct (shrink_wf (len - Z.of_nat (length (all_bytes gone))) c) as [Hsw Hsb]; [done|lia|].
    destruct (shrink_drop (len - Z.of_nat (length (all_bytes gone))) c) as [_ Hsd]; [done|lia|].
    apply runs_bind, runs_bind, runs_assert; [apply Z.leb_le; lia|]. apply runs_ret, runs_ret.
    assert (Hcon : all_bytes (shrink (len - Z.of_nat (length (all_bytes gone))) c :: rest)
        = drop (Z.to_nat len) (contents b)).
    { rewrite /contents Hcs all_bytes_app !all_bytes_cons Hsd drop_app_ge; [|lia].
      rewrite drop_app_le; [do 2 f_equal; lia|]. pose proof (bytes_length c Hc). lia. }
    apply Hend; [|done|by apply goes_on_same|done].
    rewrite /buffer_wf /=. assert (Htot : total_len b - len
        = Z.of_nat (length (all_bytes (shrink (len - Z.of_nat (length (all_bytes gone))) c :: rest)))).
    { rewrite Hcon length_drop. lia. }
    rewrite Htot. replace (link_of _) with (link_of (removelast
      (shrink (len - Z.of_nat (length (all_bytes gone))) c :: rest))); last first.
    { destruct rest as [|y [|z rest]]; done. }
    rewrite /buffer_wf Hcs in Hwf. eapply (chains_wf_tail gone c); [by eapply chains_wf_later|done|done|cbn; lia|cbn; lia].
Qed.

Lemma runs_copyout_loop cs datlen acc e :
  Forall chain_wf cs -> 0 <= datlen <= Z.of_nat (length (all_bytes cs)) ->
  runs (copyout_loop cs datlen acc) e (fun '(cs', rest, acc') e' => e' = e ∧
    (rest = 0 ∧ acc' = acc ++ take (Z.to_nat datlen) (all_bytes cs)
     ∨ ∃ c t, cs' = c :: t ∧ chain_wf c ∧ 0 < rest <= off c
         ∧ acc ++ take (Z.to_nat datlen) (all_bytes cs) = acc' ++ take (Z.to_nat rest) (bytes c))).
Proof.
  intros Hcw. revert datlen acc. induction Hcw as [|c cs Hc Hcw IH]; intros datlen acc Hd.
  - cbn in Hd. assert (datlen = 0) as -> by lia. cbn. split; [done|]. left. by rewrite app_nil_r.
  - rewrite all_bytes_cons length_app in Hd |- *. pose proof (bytes_length c Hc) as Hl. cbn [copyout_loop].
    destruct (Z.eqb_spec datlen 0) as [->|H0].
    { apply runs_ret. split; [done|]. left. by rewrite take_0 app_nil_r. }
    destruct (Z.leb_spec (off c) datlen) as [Hle|Hgt]; last first.
    { apply runs_ret. split; [done|]. right. exists c, cs. split_and!; [done|done|lia|lia|].
      rewrite take_app_le //. lia. }
    apply runs_bind, runs_chain_bytes; [done|]. apply runs_bind, runs_assert.
    { destruct cs as [|d cs]; [|by rewrite bool_decide_false]. cbn in Hd. apply Z.eqb_eq. cbn. lia. }
    eapply runs_mono; [apply IH; lia|]. intros [[cs' rest] acc'] e' [-> Hres]. split; [done|].
    assert (Htake : take (Z.to_nat datlen) (bytes c ++ all_bytes cs)
        = bytes c ++ take (Z.to_nat (datlen - off c)) (all_bytes cs)).
    { rewrite take_app_ge; [|lia]. do 2 f_equal. lia. }
    rewrite Htake app_assoc. done.
Qed.

(** What is copied: the first bytes, or nothing from a frozen buffer. *)
Lemma runs_evbuffer_copyout b datlen e :
  buffer_wf b e -> 0 <= datlen ->
  runs (evbuffer_copyout b datlen) e (fun '(n, d) e' => e' = e ∧
    (n = Z.of_nat (length d) ∧ d = take (Z.to_nat datlen) (contents b) ∧ (freeze_start b = true -> d = [])
     ∨ n = -1 ∧ d = [] ∧ freeze_start b = true ∧ take (Z.to_nat datlen) (contents b) ≠ [])).
Proof.
  intros Hwf Hd. pose proof (wf_total b e Hwf) as Ht. rewrite /evbuffer_copyout.
  set (n := if total_len b <=? datlen then total_len b else datlen).
  assert (Hn : 0 <= n <= total_len b ∧ take (Z.to_nat datlen) (contents b) = take (Z.to_nat n) (contents b)).
  { rewrite /n. destruct (Z.leb_spec (total_len b) datlen); [|split; [lia|done]]. split; [lia|]. rewrite !take_ge //; lia. }
  clearbody n. destruct Hn as [Hn ->]. destruct (Z.eqb_spec n 0) as [->|H0].
  { apply runs_ret. split; [done|]. left. by rewrite take_0. }
  destruct (freeze_start b).
  { apply runs_ret. split; [done|]. right. split_and!; [done..|]. intros H%(f_equal length). rewrite length_take /= in H. lia. }
  apply runs_bind. eapply runs_mono; [apply (runs_copyout_loop (chains b)); [apply Hwf|rewrite -/(contents b); lia]|].
  intros [[cs rest] acc] e' [-> Hres]. cbn [app] in Hres. rewrite -/(contents b) in Hres.
  assert (Hlen : n = Z.of_nat (length (take (Z.to_nat n) (contents b)))) by (rewrite length_take; lia).
  destruct Hres as [[-> ->]|(c & t & -> & Hc & Hr & Hacc)].
  - apply runs_bind, runs_ret, runs_ret. split; [done|]. by left.
  - rewrite (proj2 (Z.eqb_neq rest 0)); [|lia]. apply runs_bind. cbn [negb].
    pose proof Hc as [? ? ? ? ? ?]. apply runs_bind, runs_assert; [apply Z.leb_le; lia|].
    destruct (shrink_drop rest c Hc) as [Hs _]; [lia|]. apply runs_bind, runs_chain_read; [lia..|].
    apply runs_ret, runs_ret. split; [done|]. left. rewrite Hs -Hacc. done.
Qed.

(** Taking bytes out of a buffer. *)
Definition removed (b : evbuffer) (datlen : Z) (e : evenv) (res : Z * list mbyte * evbuffer) (e' : evenv) : Prop :=
  let '(n, d, b') := res in
  buffer_wf b' e' ∧ keeps b b' ∧ goes_on e e'
  ∧ (n = s32 (Z.of_nat (length d)) ∧ contents b = d ++ contents b' ∧ d = take (Z.to_nat datlen) (contents b)
       ∧ (freeze_start b = true -> d = [])
     ∨ n = -1 ∧ d = [] ∧ b' = b ∧ freeze_start b = true ∧ take (Z.to_nat datlen) (contents b) ≠ []).

Lemma runs_evbuffer_remove b datlen e :
  buffer_wf b e -> 0 <= datlen -> runs (evbuffer_remove b datlen) e (removed b datlen e).
Proof.
  intros Hwf Hd. rewrite /evbuffer_remove. apply runs_bind. eapply runs_mono; [by apply runs_evbuffer_copyout|].
  intros [n d] e1 [-> [(Hn & Hd' & Hno)|(-> & -> & Hfr & Hne)]]; last first.
  { apply runs_ret. split_and!; [done|done|done|]. right. done. }
  destruct (Z.ltb_spec 0 n) as [Hpos|Hneg]; last first.
  { apply runs_ret. assert (d = []) as Hnil by (apply nil_length_inv; lia). rewrite Hnil in Hn, Hd' |- *.
    split_and!; [done|done|done|]. left. by rewrite Hn. }
  apply runs_bind. eapply runs_mono; [apply runs_evbuffer_drain; [done|lia]|].
  intros [r b'] e' (Hwf' & Hk & Hgo & Hres). cbn [fst snd] in *. apply runs_ret. split_and!; [done|done|done|].
  destruct Hres as [[-> Hcon]|(-> & -> & Hfr)]; cbn.
  - left. split_and!; [by rewrite Hn| |done|done]. rewrite Hcon {1}Hd' -{1}(take_drop (Z.to_nat datlen) (contents b)). f_equal.
    rewrite Hn Hd' Nat2Z.id length_take. destruct (decide (Z.to_nat datlen <= length (contents b))%nat).
    + by rewrite Nat.min_l.
    + rewrite !drop_ge //; lia.
  - (* a frozen buffer was not read *) rewrite (Hno Hfr) /= in Hn. lia.
Qed.
