(* ===== verification/EvBufMove.v ===== *)
(** * Event buffers: the front, contiguous data, and moves between buffers

    The operations of buffer.c that work at the front of a buffer, move chains
    from one buffer to another, or make its first bytes contiguous. *)

From Stdlib Require Import ssreflect.
From S2P Require Import Prelude CTypes HProp CMem EvBuffer EvBufSpec EvBufOps.
Set Warnings "-rewrite-rw".
Open Scope general_if_scope.
Open Scope Z_scope.

(** ** One chain changes *)

Lemma removelast_fmap {A B} (f : A -> B) xs : removelast (f <$> xs) = f <$> removelast xs.
Proof. induction xs as [|x [|y xs] IH]; [done|done|]. cbn in *. by rewrite IH. Qed.

(** Links only depend on the addresses. *)
Lemma link_of_ids xs ys : c_id <$> xs = c_id <$> ys -> link_of xs = link_of ys.
Proof.
  intros Heq. assert (Hl : c_id <$> list.last xs = c_id <$> list.last ys) by by rewrite -!fmap_last Heq.
  rewrite /link_of. by destruct (list.last xs), (list.last ys); cbn in Hl; simplify_eq; rewrite ?Hl.
Qed.

Lemma chains_wf_put pre c c' post l p n n' e :
  chains_wf (pre ++ c :: post) l p n e -> chain_wf c' -> c_id c' = c_id c -> (off c' = 0 -> off c = 0) ->
  n' = n + off c' - off c -> n' <= EV_SIZE_MAX -> chains_wf (pre ++ c' :: post) l p n' e.
Proof.
  intros [Hcw Hnd Hfr Hl Hp Hd Ht Hb] Hc' Hid Hoff -> Hmax.
  assert (Hids : c_id <$> (pre ++ c' :: post) = c_id <$> (pre ++ c :: post)) by by rewrite !fmap_app !fmap_cons Hid.
  rewrite Forall_app Forall_cons in Hcw. destruct Hcw as (Hcw1 & Hc & Hcw2).
  rewrite Forall_app Forall_cons in Hfr. destruct Hfr as (Hfr1 & Hfc & Hfr2).
  pose proof (bytes_length c Hc) as Hlc. pose proof (bytes_length c' Hc') as Hlc'.
  split; rewrite ?Forall_app ?Forall_cons ?Hids //.
  - by rewrite Hid.
  - by rewrite Hl -!fmap_last Hids.
  - rewrite Hp. apply link_of_ids. by rewrite -!removelast_fmap Hids.
  - rewrite !length_app /= in Hd |- *. intros Hlen. specialize (Hd Hlen).
    rewrite Forall_app Forall_cons in Hd. destruct Hd as (? & ? & ?). split_and!; auto.
  - rewrite Ht !all_bytes_app !all_bytes_cons !length_app. lia.
Qed.

(** A new chain in front of the others. *)
Lemma chains_wf_cons c cs l p n e :
  chains_wf cs l p n e -> cs ≠ [] -> chain_wf c -> (c_id c < next_id e)%positive -> c_id c ∉ c_id <$> cs ->
  Forall (fun c => off c ≠ 0) (c :: cs) -> n + off c <= EV_SIZE_MAX ->
  chains_wf (c :: cs) l (if decide (p = LFirst) then LNext (c_id c) else p) (n + off c) e.
Proof.
  intros [Hcw Hnd Hfr Hl Hp _ Ht Hb] Hne Hc Hid Hnin Hd Hmax. pose proof (bytes_length c Hc) as Hlc.
  destruct cs as [|x pre _] using rev_ind; [done|]. rewrite removelast_snoc in Hp. rewrite app_comm_cons.
  split; [by constructor|cbn; by apply NoDup_cons|by constructor| | |done| |done].
  - by rewrite Hl !last_snoc.
  - rewrite removelast_snoc Hp.
    destruct pre as [|y pre _] using rev_ind; [done|].
    rewrite app_comm_cons !link_of_snoc. by destruct (decide _).
  - rewrite Ht -app_comm_cons all_bytes_cons length_app. lia.
Qed.

(** ** Prepending *)

Lemma wf_first_data b c post e :
  buffer_wf b e -> chains b = c :: post -> off c ≠ 0 ∨ contents b ≠ [] -> Forall (fun c => off c ≠ 0) (chains b).
Proof.
  intros Hwf Hcs Hdata. pose proof (bw_data _ _ _ _ _ Hwf) as Hd. rewrite Hcs in Hd |- *.
  destruct post as [|x post]; [|apply Hd; cbn; lia]. apply Forall_singleton. destruct Hdata as [|Hdata]; [done|].
  intros H0. apply Hdata. rewrite /contents Hcs all_bytes_one. apply bytes_empty; [|done]. by apply (wf_last_chain b [] c [] e).
Qed.

(** The part of the data that still fits goes in front of those of the first chain. *)
Lemma wf_prepend_first b c post ds e :
  buffer_wf b e -> chains b = c :: post -> Z.of_nat (length ds) <= misalign c ->
  total_len b + Z.of_nat (length ds) <= EV_SIZE_MAX ->
  let b' := count_added (Z.of_nat (length ds)) (put_chain (prepend_to c ds) b) in
  buffer_wf b' e ∧ keeps b b' ∧ chains b' = prepend_to c ds :: post ∧ contents b' = ds ++ contents b
  ∧ total_len b' = total_len b + Z.of_nat (length ds).
Proof.
  intros Hwf Hcs Hfit Hmax b'. pose proof (bw_ids _ _ _ _ _ Hwf) as Hnd. pose proof (wf_total b e Hwf) as Ht.
  assert (Hc : chain_wf c) by by apply (wf_last_chain b [] c post e).
  destruct (prepend_to_wf c ds Hc Hfit) as [Hc' Hb']. rewrite /b' (put_chain_app [] c _ post) //.
  assert (Htot : u64 (total_len b + Z.of_nat (length ds)) = total_len b + Z.of_nat (length ds)).
  { rewrite u64_small //. lia. }
  split_and!; [|done|done| |done].
  - rewrite /buffer_wf /= Htot. rewrite /buffer_wf Hcs in Hwf.
    apply (chains_wf_put [] c _ post _ _ _ _ _ Hwf); [done|done| |cbn; lia|done].
    pose proof (cw_off c Hc). cbn. lia.
  - by rewrite /contents /= Hcs !all_bytes_cons Hb' app_assoc.
Qed.

(** The misalignment of an empty first chain does not matter. *)
Lemma wf_swap_first b c c' post e :
  buffer_wf b e -> chains b = c :: post -> chain_wf c' -> c_id c' = c_id c -> off c' = off c -> bytes c' = bytes c ->
  buffer_wf (put_chain c' b) e ∧ chains (put_chain c' b) = c' :: post ∧ contents (put_chain c' b) = contents b.
Proof.
  intros Hwf Hcs Hc' Hid Hoff Hb. rewrite (put_chain_app [] c _ post) //; [|apply Hwf]. split_and!; [|done|].
  - pose proof (bw_bound _ _ _ _ _ Hwf). rewrite /buffer_wf Hcs in Hwf |- *.
    apply (chains_wf_put [] c _ post _ _ _ _ _ Hwf); cbn; lia || done.
  - by rewrite /contents /= Hcs !all_bytes_cons Hb.
Qed.

(** What prepending comes to.  When there is no memory for another chain, the
    end of the data may be in the buffer already. *)
Definition prepended (b : evbuffer) (data : list mbyte) (e : evenv) (why : Prop) (res : Z * evbuffer) (e' : evenv) :
    Prop :=
  buffer_wf (snd res) e' ∧ keeps b (snd res) ∧ goes_on e e'
  ∧ (fst res = 0 ∧ contents (snd res) = data ++ contents b
     ∨ fst res = -1 ∧ why ∧ ∃ k, contents (snd res) = drop k data ++ contents b).

Definition no_memory (e : evenv) (data : list mbyte) : Prop := ev_oom e ≠ [] ∨ 2 ^ 62 <= Z.of_nat (length data).

Lemma runs_prepended_invoke b b1 data e e1 why :
  buffer_wf b1 e1 -> keeps b b1 -> goes_on e e1 -> contents b1 = data ++ contents b ->
  runs (b ← evbuffer_invoke_callbacks b1; mret (0, b)) e1 (prepended b data e why).
Proof.
  intros Hwf Hk Hgo Hcon. apply runs_bind, runs_invoke. intros b' e' Hc Hle Hoom. apply runs_ret. split_and!; cbn.
  - eapply wf_later; [|done]. by eapply counted_wf.
  - etrans; [done|by apply counted_keeps].
  - etrans; [done|by apply goes_on_same].
  - left. by rewrite (counted_contents _ _ Hc).
Qed.

Lemma runs_prepend_more b c data e :
  buffer_wf b e -> chains b ≠ [] -> Forall (fun c => off c ≠ 0) (chains b) -> data ≠ [] ->
  total_len b + Z.of_nat (length data) <= EV_SIZE_MAX ->
  runs (evbuffer_prepend_more b c data) e (prepended b data e (no_memory e data)).
Proof.
  intros Hwf Hne Hall Hdata Hmax. pose proof (wf_total b e Hwf) as Ht. rewrite /evbuffer_prepend_more.
  assert (Hpos : 0 < Z.of_nat (length data)) by (destruct data; [done|cbn; lia]).
  apply runs_bind, runs_chain_new; [lia| |].
  - intros tmp e1 Hm Hnew. pose proof Hnew as (Htw & Htm & Hto & Htl & _).
    apply runs_bind, runs_assert; [by apply Z.leb_le|]. pose proof Htw as [_ _ _ Hlmax Hdat Hpin].
    apply runs_bind, runs_chain_write; [lia|lia|]. cbn [buffer_len set_data].
    set (pos := buffer_len tmp - Z.of_nat (length data)). set (t := set_span pos _ _).
    assert (Hw : chain_wf t).
    { split; cbn; try done; try lia. rewrite patch_length; lia. }
    assert (Hb : bytes t = data). { rewrite /bytes /= slice_patch_at //; lia. }
    assert (Hk : keeps b (set_chains (t :: chains b)
      (if decide (last_with_datap b = LFirst) then set_datap (LNext (c_id tmp)) b else b))) by by case_decide.
    apply (runs_prepended_invoke b).
    + pose proof (chains_wf_cons t (chains b) (last b) (last_with_datap b) (total_len b) e1) as Hcons.
      rewrite /buffer_wf /=. rewrite u64_small; [|case_decide; cbn; lia].
      replace (last _) with (last b) by by case_decide. replace (total_len _) with (total_len b) by by case_decide.
      replace (chains _) with (chains b) by by case_decide.
      replace (last_with_datap _) with (if decide (last_with_datap b = LFirst) then LNext (c_id t) else last_with_datap b)
        by by case_decide.
      apply Hcons; [by eapply wf_later, after_malloc_later|done|done|by eapply (new_chain_id _ _ _ tmp)
        |by eapply (new_chain_fresh _ _ _ tmp)|constructor; [cbn; lia|done]|done].
    + destruct Hk; by split.
    + by apply goes_on_malloc.
    + rewrite /contents /=. rewrite all_bytes_cons Hb. by case_decide.
  - intros e' Hgo Hwhy. apply runs_ret. split_and!; cbn; [by eapply wf_later, Hgo|done|done|].
    right. split_and!; [done| |by exists (length data); rewrite drop_all]. by apply new_refused.
Qed.

Lemma prepended_trans b b1 d1 d2 e e1 (why why' : Prop) res e' :
  prepended b1 d1 e1 why res e' -> keeps b b1 -> goes_on e e1 -> contents b1 = d2 ++ contents b -> (why -> why') ->
  prepended b (d1 ++ d2) e why' res e'.
Proof.
  intros (Hw & Hk & Hgo & Hres) Hkb Hgb Hcon Himp. split_and!; [done|by etrans|by etrans|]. rewrite Hcon in Hres.
  destruct Hres as [[Hr Hc]|(Hr & Hwhy & k & Hc)]; [left|right].
  - by rewrite -app_assoc.
  - split_and!; [done|auto|]. destruct (decide (k <= length d1)%nat).
    + exists k. rewrite drop_app_le // -app_assoc //.
    + exists (length d1). rewrite drop_app_length Hc (drop_ge d1); [done|lia].
Qed.

(** A chain that data can be written to. *)
Definition usable (c : evbuffer_chain) : Prop := is_immutable c = false ∧ 0 < buffer_len c.

(** The chain with its empty space in front of the data, when there are none. *)
Definition front_space (c : evbuffer_chain) : evbuffer_chain :=
  if off c =? 0 then set_span (buffer_len c) (off c) c else c.

Lemma front_space_wf c :
  chain_wf c -> chain_wf (front_space c) ∧ bytes (front_space c) = bytes c ∧ off (front_space c) = off c
  ∧ c_id (front_space c) = c_id c.
Proof.
  intros Hc. rewrite /front_space. destruct (Z.eqb_spec (off c) 0) as [H0|H0]; [|done].
  assert (Hw : chain_wf (set_span (buffer_len c) (off c) c)) by (destruct Hc; split; cbn; try done; lia).
  split_and!; [done| |done|done]. by rewrite !bytes_empty.
Qed.

Lemma no_memory_take e data n : no_memory e (take n data) -> no_memory e data.
Proof. intros [Ho|Hl]; [by left|right]. rewrite length_take in Hl. lia. Qed.

Lemma runs_prepend_into b c post data e :
  buffer_wf b e -> chains b = c :: post -> (off c = 0 -> 0 < buffer_len c) ->
  total_len b + Z.of_nat (length data) <= EV_SIZE_MAX ->
  runs (evbuffer_prepend_into b c data) e (prepended b data e (no_memory e data)).
Proof.
  intros Hwf Hcs Hroom Hmax. pose proof (wf_last_chain _ [] c post _ Hwf Hcs) as Hc. rewrite /evbuffer_prepend_into.
  apply runs_bind, runs_assert; [destruct Hc; apply andb_true_intro; split; apply Z.leb_le; lia|].
  fold (front_space c). destruct (front_space_wf c Hc) as (Hfw & Hfb & Hfo & Hfi).
  destruct (wf_swap_first b c (front_space c) post e) as (Hw2 & Hcs2 & Hcon2); [done..|].
  assert (Hm0' : misalign (front_space c) = 0 -> off (front_space c) ≠ 0).
  { rewrite Hfo /front_space. destruct (Z.eqb_spec (off c) 0) as [H0|H0]; [|done]. cbn. intros. specialize (Hroom H0). lia. }
  set (c1 := front_space c) in *. set (b2 := put_chain c1 b) in *.
  assert (Hk2 : keeps b b2) by done. assert (Htot2 : total_len b2 = total_len b) by done.
  pose proof Hfw as [Hm0 Ho0 Hfit _ Hdat _].
  destruct (Z.leb_spec (Z.of_nat (length data)) (misalign c1)) as [Hin|Hout].
  - apply runs_bind, runs_chain_write; [lia|lia|]. cbn beta.
    destruct (wf_prepend_first b2 c1 post data e) as (Hw' & Hk' & _ & Hcon' & _); [done|done|done|lia|].
    rewrite Hcon2 in Hcon'. apply (runs_prepended_invoke b); [exact Hw'|by etrans|done|done].
  - destruct (Z.eqb_spec (misalign c1) 0) as [Hm|Hm]; cbn [negb].
    + eapply runs_mono; [apply runs_prepend_more; [done|by rewrite Hcs2| |destruct data; [cbn in *; lia|done]|lia]|].
      { apply (wf_first_data b2 c1 post e); [done|done|]. left. by apply Hm0'. }
      intros res e' Hres. rewrite -(app_nil_r data). apply (prepended_trans _ _ _ _ _ _ _ _ _ _ Hres); try done.
      by rewrite app_nil_r.
    + set (k := Z.to_nat (Z.of_nat (length data) - misalign c1)).
      assert (Hd2 : Z.of_nat (length (drop k data)) = misalign c1) by (rewrite length_drop; lia).
      apply runs_bind, runs_chain_write; [lia|lia|]. cbn beta.
      destruct (wf_prepend_first b2 c1 post (drop k data) e) as (Hw' & Hk' & Hcs' & Hcon' & Ht'); [done|done|lia|lia|].
      rewrite /prepend_to Hd2 Z.sub_diag in Hw', Hk', Hcs', Hcon', Ht'. rewrite Hcon2 in Hcon'.
      eapply runs_mono; [apply runs_prepend_more; [exact Hw'|by rewrite Hcs'| | |]|].
      * eapply (wf_first_data _ _ post e); [exact Hw'|exact Hcs'|]. left. cbn. lia.
      * intros H0. apply (f_equal length) in H0. rewrite length_take /= in H0. lia.
      * rewrite length_take Ht'. lia.
      * intros res e' Hres. rewrite -{1}(take_drop k data).
        apply (prepended_trans _ _ _ _ _ _ _ _ _ _ Hres); [by etrans|done|done|apply no_memory_take].
Qed.

Lemma runs_evbuffer_prepend b data e :
  buffer_wf b e -> (data = [] ∨ contents b = [] -> Forall usable (chains b)) ->
  runs (evbuffer_prepend b data) e
    (prepended b data e (freeze_start b = true ∨ EV_SIZE_MAX < total_len b + Z.of_nat (length data)
                         ∨ no_memory e data)).
Proof.
  intros Hwf Huse. set (why := _ ∨ _ ∨ _).
  assert (Hsame : ∀ e', goes_on e e' -> why -> prepended b data e why (-1, b) e').
  { intros e' Hgo Hwhy. split_and!; cbn; [by eapply wf_later, Hgo|done|done|]. right. split_and!; [done|done|].
    exists (length data). by rewrite drop_all. }
  rewrite /evbuffer_prepend. destruct (freeze_start b) eqn:Hfr; [apply runs_ret, Hsame; [done|by left]|].
  destruct (Z.ltb_spec (EV_SIZE_MAX - total_len b) (Z.of_nat (length data))) as [Hbig|Hok].
  { apply runs_ret, Hsame; [done|]. right. left. lia. }
  apply runs_bind, (runs_ensure_first b); [done|lia| |]; last first.
  { intros e' Hgo Hwhy. apply runs_ret, Hsame; [done|]. by right; right. }
  intros b1 e1 c post Hk Hcs Hwf1 Hcon Hgo Hnew.
  assert (Htot : total_len b1 = total_len b). { by rewrite (wf_total _ _ Hwf1) (wf_total _ _ Hwf) Hcon. }
  assert (Hlift : ∀ m, runs m e1 (prepended b1 data e1 (no_memory e1 data)) -> runs m e1 (prepended b data e why)).
  { intros m Hm. eapply runs_mono; [exact Hm|]. intros res e' Hres. rewrite -(app_nil_r data).
    apply (prepended_trans _ _ _ _ _ _ _ _ _ _ Hres); [done|done|done|]. intros [Ho|Hl]; right; right; [left|by right].
    intros H. by apply Ho, Hgo. }
  assert (Hcase : usable c ∨ data ≠ [] ∧ contents b1 ≠ []).
  { destruct Hnew as [Hold|(-> & Hnc & _ & _ & _ & Hnl & Hfl & _)].
    - rewrite -Hold Hcs in Huse. destruct (decide (data = [])); [|destruct (decide (contents b = []))];
        [left; specialize (Huse ltac:(auto)); by apply Forall_cons in Huse as [? _]..|]. right. by rewrite Hcon.
    - left. by rewrite /usable /is_immutable Hfl. }
  destruct (is_immutable c) eqn:Him; cbn [negb]; apply Hlift.
  - destruct Hcase as [[Hi _]|[Hd Hcn]]; [by rewrite Hi in Him|].
    apply runs_prepend_more; [done|by rewrite Hcs| |done|lia]. apply (wf_first_data b1 c post e1); auto.
  - apply (runs_prepend_into b1 c post); [done|done| |lia]. intros H0. destruct Hcase as [[_ Hl]|[_ Hcn]]; [done|].
    pose proof (wf_first_data b1 c post e1 Hwf1 Hcs (or_intror Hcn)) as Hall. rewrite Hcs in Hall.
    by apply Forall_cons in Hall as [? _].
Qed.

Lemma patch_behind {A} (bs xs ys : list A) o :
  0 <= o -> o + Z.of_nat (length xs) + Z.of_nat (length ys) <= Z.of_nat (length bs) ->
  patch (patch bs o xs) (o + Z.of_nat (length xs)) ys = patch bs o (xs ++ ys).
Proof.
  intros Ho Hfit. rewrite {1 3}/patch. set (q := patch bs o xs).
  assert (Hq : q = (take (Z.to_nat o) bs ++ xs) ++ drop (Z.to_nat o + length xs) bs) by by rewrite -app_assoc.
  assert (Hl : length (take (Z.to_nat o) bs ++ xs) = Z.to_nat (o + Z.of_nat (length xs))).
  { rewrite length_app length_take. lia. }
  rewrite Hq -{1}Hl take_app_length drop_app_ge; [|lia]. rewrite Hl -app_assoc -app_assoc drop_drop length_app.
  do 4 f_equal. lia.
Qed.

Definition holds (P : id -> bool) (cs : list evbuffer_chain) : bool := existsb (fun c => P (c_id c)) cs.

(** The chains that are pulled up completely. *)
Lemma runs_pullup_loop lwd p cs tmp pos size rd rdp e
    (Q : list evbuffer_chain * evbuffer_chain * Z * Z * bool * bool -> evenv -> Prop) :
  Forall chain_wf cs -> 0 <= pos -> 0 <= size -> pos + size <= Z.of_nat (length (c_data tmp)) ->
  (∀ gone rest e' k, cs = gone ++ rest -> k = Z.of_nat (length (all_bytes gone)) -> k <= size ->
     match rest with c :: _ => size - k < off c | [] => True end -> later e e' -> ev_oom e' = ev_oom e ->
     Q (rest, set_data (patch (c_data tmp) pos (all_bytes gone)) tmp, pos + k, size - k,
        rd || holds (fun i => bool_decide (lwd = Some i)) gone, rdp || holds (fun i => bool_decide (p = LNext i)) gone) e') ->
  runs (pullup_loop lwd p cs tmp pos size rd rdp) e Q.
Proof.
  revert tmp pos size rd rdp e. induction cs as [|c cs IH]; intros tmp pos size rd rdp e Hcw Hpos Hsize Hfit HQ.
  { specialize (HQ [] [] e 0 eq_refl eq_refl Hsize I). rewrite !orb_false_r Z.add_0_r Z.sub_0_r in HQ.
    rewrite /patch /= Nat.add_0_r take_drop in HQ. apply runs_ret. destruct tmp. by apply HQ. }
  apply Forall_cons in Hcw as [Hc Hcw]. pose proof (bytes_length c Hc) as Hl. cbn [pullup_loop].
  destruct (Z.leb_spec (off c) size) as [Hle|Hgt]; last first.
  { specialize (HQ [] (c :: cs) e 0 eq_refl eq_refl Hsize). rewrite !orb_false_r Z.add_0_r Z.sub_0_r in HQ.
    rewrite /patch /= Nat.add_0_r take_drop in HQ. apply runs_ret. destruct tmp. by apply HQ. }
  pose proof (cw_off c Hc) as Ho. apply runs_bind, runs_chain_bytes; [done|].
  apply runs_bind, runs_chain_write; [done|lia|].
  apply runs_bind, (runs_silent _ tt); [apply silent_chain_free|]. intros e1 Hle1 Hoom1.
  apply IH; [done|lia|lia|cbn; rewrite patch_length; lia|].
  intros gone rest e' k Heq Hk Hks Hrest Hle' Hoom'.
  specialize (HQ (c :: gone) rest e' (off c + k)). rewrite all_bytes_cons length_app in HQ.
  rewrite -!orb_assoc. cbn [c_data set_data]. rewrite -{1}Hl patch_behind; [|lia|lia]. rewrite -Z.add_assoc -Z.sub_add_distr.
  apply HQ; [by rewrite Heq|lia|lia| |by etrans|by rewrite Hoom'].
  destruct rest; [done|lia].
Qed.

Lemma holds_last P cs c : P (c_id c) = true -> holds P (cs ++ [c]) = true.
Proof. intros H. rewrite /holds existsb_app /= H orb_true_r //. Qed.

Lemma holds_none P cs : (∀ i, i ∈ c_id <$> cs -> P i = false) -> holds P cs = false.
Proof.
  induction cs as [|c cs IH]; intros H; [done|]. cbn. rewrite H; [|by left]. apply IH. intros i Hi. apply H. by right.
Qed.

Lemma link_of_cons_ne c cs : cs ≠ [] -> link_of (c :: cs) = link_of cs.
Proof. destruct cs as [|x cs _] using rev_ind; [done|]. intros _. by rewrite app_comm_cons !link_of_snoc. Qed.

(** The link is right again after the chains in [gone] were pulled into [t];
    [first] is [[t]] when this is the old first chain. *)
Lemma pullup_datap first q z gone rest rest' t :
  NoDup (c_id <$> first ++ q ++ [z]) -> q ++ [z] = gone ++ rest -> c_id <$> rest' = c_id <$> rest ->
  first = [] ∧ q ≠ [] ∨ (∃ t0, first = [t0] ∧ c_id t0 = c_id t) -> Forall (fun c => off c ≠ 0) rest' ->
  (if holds (fun i => bool_decide (Some (c_id z) = Some i)) gone then LFirst
   else if holds (fun i => bool_decide (link_of (first ++ q) = LNext i)) gone then
     match rest' with c :: _ => if negb (off c =? 0) then LNext (c_id t) else LFirst | [] => LFirst end
   else link_of (first ++ q)) = link_of (removelast (t :: rest')).
Proof.
  intros Hnd Heq Hids Hfirst Hoff. rewrite (link_of_ids (removelast (t :: rest')) (removelast (t :: rest))); last first.
  { rewrite -!removelast_fmap !fmap_cons Hids //. }
  destruct rest as [|z' r1 _] using rev_ind.
  { rewrite app_nil_r in Heq. rewrite -Heq holds_last //. by apply bool_decide_true. }
  rewrite app_assoc in Heq. apply app_inj_tail in Heq as [-> <-]. rewrite app_comm_cons removelast_snoc.
  rewrite !fmap_app in Hnd. apply NoDup_app in Hnd as (_ & Hf & Hnd). apply NoDup_app in Hnd as (Hnd & Hz & _).
  rewrite holds_none; last first.
  { intros i Hi. apply bool_decide_false. intros [= <-]. apply (Hz (c_id z)); [|by left]. apply elem_of_app. by left. }
  destruct r1 as [|w r1 _] using rev_ind.
  - destruct rest' as [|x rest']; [done|]. apply Forall_cons in Hoff as [Hx _]. rewrite (proj2 (Z.eqb_neq _ _) Hx) /=.
    rewrite app_nil_r in Hnd, Hfirst |- *. destruct gone as [|g gone _] using rev_ind.
    + destruct Hfirst as [[_ ?]|(t0 & -> & Ht0)]; [done|]. by rewrite /= /link_of /= Ht0.
    + rewrite app_assoc link_of_snoc holds_last //. by apply bool_decide_true.
  - rewrite !app_assoc link_of_snoc app_comm_cons link_of_snoc holds_none //. intros i Hi. apply bool_decide_false.
    intros [= <-]. apply NoDup_app in Hnd as (_ & Hg & _). apply (Hg (c_id w)); [done|]. rewrite fmap_app.
    apply elem_of_app. right. by left.
Qed.

Lemma pullup_fix_wf b rd rdp t rest n e :
  chains_wf (t :: rest) (match rest with [] => Some (c_id t) | _ => last b end)
    (if rd : bool then LFirst
     else if rdp : bool then
       match rest with c :: _ => if negb (off c =? 0) then LNext (c_id t) else LFirst | [] => LFirst end
     else last_with_datap b) n e ->
  n = total_len b ->
  buffer_wf (pullup_fix b rd rdp t rest) e ∧ keeps b (pullup_fix b rd rdp t rest)
  ∧ chains (pullup_fix b rd rdp t rest) = t :: rest.
Proof.
  intros Hwf ->. rewrite /pullup_fix. destruct rd; [by destruct rest|]. destruct rdp; [|by destruct rest].
  destruct rest as [|c rest]; [done|]. by destruct (negb _).
Qed.

(** The result of pulling the first [size] bytes of [cs] up into [tmp]. *)
Definition pulled_up (b : evbuffer) (n : Z) (e : evenv) (res : option id * evbuffer) (e' : evenv) : Prop :=
  let b' := snd res in
  buffer_wf b' e' ∧ keeps b b' ∧ goes_on e e' ∧ contents b' = contents b
  ∧ ∃ c post, chains b' = c :: post ∧ fst res = Some (c_id c) ∧ n <= off c.

Section rest.
Context (b : evbuffer) (e : evenv) (first q : list evbuffer_chain) (z tmp : evbuffer_chain) (size : Z).
Hypothesis Hwf : buffer_wf b e.
Hypothesis Hcs : chains b = first ++ q ++ [z].
Hypothesis Hfirst : first = [] ∧ q ≠ [] ∨ (∃ t0, first = [t0] ∧ c_id t0 = c_id tmp).
Hypothesis Hfresh : c_id tmp ∉ c_id <$> q ++ [z].
Hypothesis Hid : (c_id tmp < next_id e)%positive.
Hypothesis Htmp : chain_wf tmp.
Hypothesis Hoff : off tmp = Z.of_nat (length (all_bytes first)) + size.
Hypothesis Hpre : slice (c_data tmp) (misalign tmp) (Z.of_nat (length (all_bytes first))) = all_bytes first.
Hypothesis Hsize : 0 < size <= Z.of_nat (length (all_bytes (q ++ [z]))).

Let pos : Z := misalign tmp + Z.of_nat (length (all_bytes first)).

Lemma pullup_all_data : Forall (fun c => off c ≠ 0) (q ++ [z]).
Proof.
  pose proof (bw_data _ _ _ _ _ Hwf) as Hd. rewrite Hcs Forall_app !length_app in Hd. apply Hd.
  destruct Hfirst as [[-> Hq]|(t0 & -> & _)]; [destruct q; [done|]|]; cbn; lia.
Qed.

(** [tmp] once [d] is written behind what it had. *)
Lemma pullup_tmp_wf d :
  Z.of_nat (length d) = size ->
  chain_wf (set_data (patch (c_data tmp) pos d) tmp)
  ∧ bytes (set_data (patch (c_data tmp) pos d) tmp) = all_bytes first ++ d.
Proof.
  intros Hd. pose proof Htmp as [Hm Ho Hf Hl Hdat Hpin]. split.
  - split; cbn; try done; try lia. rewrite patch_length; rewrite /pos; lia.
  - rewrite /bytes /= Hoff slice_split; [|lia..]. f_equal.
    + rewrite slice_patch_before // /pos; lia.
    + rewrite slice_patch_at // /pos; lia.
Qed.

Lemma pullup_last gone rest rest' t :
  q ++ [z] = gone ++ rest -> c_id <$> rest' = c_id <$> rest ->
  match rest' with [] => Some (c_id t) | _ => last b end = c_id <$> list.last (t :: rest').
Proof.
  intros Heq Hids. destruct rest' as [|x r]; [done|]. rewrite (bw_last _ _ _ _ _ Hwf) Hcs app_assoc last_snoc.
  rewrite last_cons_cons -fmap_last Hids. destruct rest as [|z' r1 _] using rev_ind; [done|].
  rewrite app_assoc in Heq. apply app_inj_tail in Heq as [_ <-]. by rewrite fmap_app last_snoc.
Qed.

Lemma pullup_chains_wf gone rest rest' d e' :
  q ++ [z] = gone ++ rest -> c_id <$> rest' = c_id <$> rest -> Forall chain_wf rest' ->
  Forall (fun c => off c ≠ 0) rest' -> Z.of_nat (length d) = size -> all_bytes (q ++ [z]) = d ++ all_bytes rest' ->
  goes_on e e' ->
  let t := set_data (patch (c_data tmp) pos d) tmp in
  let rd := holds (fun i => bool_decide (Some (c_id z) = Some i)) gone in
  let rdp := holds (fun i => bool_decide (last_with_datap b = LNext i)) gone in
  pulled_up b (off tmp) e (Some (c_id t), pullup_fix b rd rdp t rest') e'.
Proof.
  intros Heq Hids Hcw Hdata Hd Hbytes Hgo t rd rdp. destruct (pullup_tmp_wf d Hd) as [Htw Htb].
  pose proof (bw_datap _ _ _ _ _ Hwf) as Hp. rewrite Hcs app_assoc removelast_snoc in Hp.
  pose proof (bw_ids _ _ _ _ _ Hwf) as Hnd. rewrite Hcs in Hnd.
  assert (Hall : all_bytes (t :: rest') = contents b).
  { by rewrite all_bytes_cons Htb /contents Hcs all_bytes_app Hbytes app_assoc. }
  destruct (pullup_fix_wf b rd rdp t rest' (total_len b) e') as (Hw & Hk & Hc); [|done|]; last first.
  { split_and!; cbn; [done|done|done|by rewrite /contents Hc|]. exists t, rest'. done. }
  rewrite /rd /rdp Hp (pullup_datap first q z gone rest rest' t) //.
  assert (Hfr : Forall (fun c => (c_id c < next_id e')%positive) (q ++ [z])).
  { pose proof (bw_fresh _ _ _ _ _ Hwf) as Hfr. rewrite Hcs in Hfr. apply Forall_app in Hfr as [_ Hfr].
    destruct Hgo as [Hle _]. rewrite /later in Hle. eapply Forall_impl; [done|]. cbn. intros c. lia. }
  assert (Hin : ∀ i, i ∈ c_id <$> rest' -> i ∈ c_id <$> q ++ [z]).
  { intros i Hi. rewrite Heq fmap_app. apply elem_of_app. right. by rewrite -Hids. }
  split.
  - by constructor.
  - cbn. apply NoDup_cons. split; [intros H; apply Hfresh; by apply Hin|]. rewrite Hids.
    rewrite Heq in Hnd. rewrite !fmap_app in Hnd. apply NoDup_app in Hnd as (_ & _ & Hnd). by apply NoDup_app in Hnd as (_ & _ & Hnd).
  - destruct Hgo as [Hle _]. rewrite /later in Hle. constructor; [cbn; lia|].
    apply Forall_forall. intros c Hc%(list_elem_of_fmap_2 c_id). apply Hin, list_elem_of_fmap in Hc as (x & -> & Hx).
    rewrite Forall_forall in Hfr. by apply Hfr.
  - by apply (pullup_last gone rest).
  - done.
  - intros _. constructor; [cbn; lia|done].
  - rewrite Hall. by apply (wf_total b e).
  - apply (bw_bound _ _ _ _ _ Hwf).
Qed.

Lemma runs_pullup_rest :
  runs (pullup_rest b (Some (c_id z)) (q ++ [z]) tmp pos size) e (pulled_up b (off tmp) e).
Proof.
  pose proof Htmp as [Hm Ho Hf Hl Hdat Hpin]. pose proof pullup_all_data as Hdata.
  assert (Hcw : Forall chain_wf (q ++ [z])).
  { pose proof (bw_chains _ _ _ _ _ Hwf) as Hcw. rewrite Hcs in Hcw. by apply Forall_app in Hcw as [_ ?]. }
  rewrite /pullup_rest. apply runs_bind, runs_pullup_loop; [done|rewrite /pos; lia|lia|rewrite /pos; lia|].
  intros gone rest e' k Heq Hk Hks Hrest Hle Hoom. cbn [orb].
  assert (Hgo : goes_on e e') by by apply goes_on_same.
  rewrite Heq in Hcw, Hdata. apply Forall_app in Hcw as [Hcg Hcw]. apply Forall_app in Hdata as [_ Hdata].
  destruct rest as [|c rest].
  - apply runs_bind, runs_ret, runs_ret. rewrite app_nil_r in Heq.
    apply (pullup_chains_wf gone [] []); rewrite ?app_nil_r //; last by rewrite Heq.
    rewrite -Heq. rewrite -Heq in Hk. lia.
  - subst k. set (k := Z.of_nat (length (all_bytes gone))) in *. apply Forall_cons in Hcw as [Hc Hcw]. apply Forall_cons in Hdata as [_ Hdata]. pose proof Hc as [? ? ? ? ? _].
    pose proof (slice_length (c_data c) (misalign c) (size - k)) as Hsl.
    destruct (shrink_wf (size - k) c Hc) as [Hsw Hsb]; [lia|].
    apply runs_bind, runs_bind, runs_chain_read; [lia..|]. apply runs_bind, runs_chain_write.
    + rewrite /pos. lia.
    + cbn. rewrite patch_length; rewrite /pos; lia.
    + apply runs_ret, runs_ret. cbn [c_data set_data]. rewrite patch_behind; [|rewrite /pos; lia..].
      apply (pullup_chains_wf gone (c :: rest) (shrink (size - k) c :: rest)); try done.
      * by constructor.
      * constructor; [cbn; lia|done].
      * rewrite length_app. lia.
      * by rewrite Heq all_bytes_app !all_bytes_cons Hsb !app_assoc.
Qed.

End rest.

Lemma pullup_not_pinned cs n : Forall chain_wf cs -> pullup_pinned cs n = false.
Proof.
  intros Hcw. revert n. induction Hcw as [|c cs Hc _ IH]; intros n; [done|]. cbn.
  rewrite (cw_pinned c Hc). by destruct (n <=? off c).
Qed.

Lemma wf_datap_target b c q z i e :
  buffer_wf b e -> chains b = (c :: q) ++ [z] -> datap_target b i = mret (Some (c_id z)).
Proof.
  intros Hwf Hcs. rewrite /datap_target (bw_datap _ _ _ _ _ Hwf) Hcs removelast_snoc.
  pose proof (bw_ids _ _ _ _ _ Hwf) as Hnd. rewrite Hcs in Hnd.
  destruct (link_of_uncons c q z Hnd) as (Hd & _ & _ & x & Hx). rewrite Hd. by rewrite {1}Hx.
Qed.

Lemma pulled_up_mono b n m e e1 res e' :
  pulled_up b n e1 res e' -> goes_on e e1 -> m <= n -> pulled_up b m e res e'.
Proof.
  intros (Hw & Hk & Hgo & Hcon & c & post & Hcs & Hr & Hn) Hge Hmn. split_and!; [done|done|by etrans|done|].
  exists c, post. split_and!; [done|done|lia].
Qed.

Lemma runs_evbuffer_pullup b size e :
  let n := if size <? 0 then total_len b else size in
  buffer_wf b e -> n <= EV_SSIZE_MAX ->
  runs (evbuffer_pullup b size) e (fun res e' =>
    (0 < n <= total_len b ∧ pulled_up b n e res e')
    ∨ (res = (None, b) ∧ goes_on e e' ∧ (n <= 0 ∨ total_len b < n ∨ ev_oom e ≠ [] ∨ 2 ^ 62 <= n))).
Proof.
  intros n Hwf Hmax. rewrite /evbuffer_pullup -/n. pose proof (wf_total b e Hwf) as Ht.
  assert (Hn : 0 <= n). { rewrite /n. destruct (Z.ltb_spec size 0); lia. }
  clearbody n. destruct (Z.eqb_spec n 0) as [H0|H0]; [apply runs_ret; right; split_and!; [done..|lia]|].
  destruct (Z.ltb_spec (total_len b) n) as [Hbig|Hok]; [apply runs_ret; right; split_and!; [done..|lia]|].
  cbn [orb]. destruct (chains b) as [|c cs] eqn:Hcs; [rewrite /contents Hcs /= in Ht; lia|].
  pose proof (wf_last_chain b [] c cs e Hwf Hcs) as Hc. pose proof (bytes_length c Hc) as Hlc.
  rewrite /contents Hcs all_bytes_cons length_app in Ht.
  destruct (Z.leb_spec n (off c)) as [Hin|Hout].
  { apply runs_ret. left. split; [lia|]. split_and!; cbn; [done..|]. by exists c, cs. }
  apply runs_bind, runs_assert; [apply Z.leb_le; pose proof (cw_off c Hc); lia|].
  destruct cs as [|z q _] using rev_ind; [cbn in Ht; lia|]. rewrite (app_comm_cons q [z] c) in Hcs.
  pose proof (bw_chains _ _ _ _ _ Hwf) as Hcw. rewrite Hcs in Hcw. apply Forall_cons in Hcw as [_ Hcw].
  rewrite pullup_not_pinned // (cw_pinned c Hc). pose proof Hc as [? ? ? ? ? ?].
  pose proof (bw_ids _ _ _ _ _ Hwf) as Hnd. pose proof (bw_fresh _ _ _ _ _ Hwf) as Hfr. rewrite Hcs in Hnd, Hfr.
  destruct (Z.leb_spec n (buffer_len c - misalign c)) as [Hfit|Hno].
  - rewrite (wf_datap_target b c q z _ e) //. apply runs_bind, runs_ret.
    cbn in Hnd. apply NoDup_cons in Hnd as [Hnin _]. apply Forall_cons in Hfr as [Hfc _].
    eapply runs_mono; [|intros res e' H; left; split; [lia|exact H]].
    pose proof (runs_pullup_rest b e [c] q z (set_span (misalign c) n c) (n - off c)) as Hrest.
    rewrite all_bytes_one /= Hlc in Hrest. apply Hrest; try done; [by right; exists c|split; cbn; lia || done|lia|lia].
  - apply runs_bind, runs_chain_new; [lia| |].
    + intros tmp e1 Hm Hnew. pose proof Hnew as ([_ _ _ Hlm Hld Hlp] & Htm & Hto & Htl & _).
      rewrite (wf_datap_target b c q z _ e) //. apply runs_bind, runs_ret.
      eapply runs_mono; [|intros res e' H; left; split; [lia|exact H]].
      eapply runs_mono; [|intros res e' H; eapply (pulled_up_mono b n n e e1); [exact H|by apply goes_on_malloc|done]].
      pose proof (runs_pullup_rest b e1 [] (c :: q) z (set_span 0 n tmp) n) as Hrest. cbn in Hrest. apply Hrest; try done.
      * by eapply wf_later, after_malloc_later.
      * by left.
      * rewrite -fmap_cons app_comm_cons -Hcs. by eapply new_chain_fresh.
      * by eapply new_chain_id.
      * change (0 < n <= Z.of_nat (length (bytes c ++ all_bytes (q ++ [z])))). rewrite length_app. lia.
    + intros e' Hgo Hwhy. apply runs_ret. right. split_and!; [done|done|]. right. right. by apply new_refused.
Qed.
