(* ===== verification/EvBufPlain.v ===== *)
(** * Event buffers: ordinary chains

    Every chain that buffer.c allocates for data of an ordinary size can be
    written to and has an ordinary size itself; the operations keep it that
    way.  They use the chains of the buffer they are given and new ones, so a
    buffer stays apart from another one that is not touched. *)

From Stdlib Require Import ssreflect.
From S2P Require Import Prelude CTypes HProp CMem EvBuffer EvBufSpec EvBufOps.
Set Warnings "-rewrite-rw".
Open Scope general_if_scope.
Open Scope Z_scope.

(** A chain that data can be added to, of an ordinary size. *)
Definition plain (c : evbuffer_chain) : Prop := is_immutable c = false ∧ 0 < buffer_len c < 2 ^ 62.
Definition all_plain (b : evbuffer) : Prop := Forall plain (chains b).

(** What a run returns, when it returns. *)
Definition yields {A} (m : E A) (R : A -> Prop) : Prop := ∀ e a e', m e = inr (a, e') -> R a.

Section yields.
Context {A B : Type}.

Lemma yields_ret (a : A) R : R a -> yields (mret a) R.
Proof. by intros H e a' e' [= <- _]. Qed.

Lemma yields_fail f (R : A -> Prop) : yields (e_fail f) R.
Proof. by intros e a e'. Qed.

Lemma yields_bind (m : E A) (k : A -> E B) R S : yields m R -> (∀ a, R a -> yields (k a) S) -> yields (m ≫= k) S.
Proof.
  intros Hm Hk e b e'. rewrite /mbind /E_bind. destruct (m e) as [f|[a e1]] eqn:He; [done|].
  apply Hk. by eapply Hm.
Qed.

Lemma yields_any (m : E A) : yields m (fun _ => True).
Proof. done. Qed.

Lemma yields_mono (m : E A) (R S : A -> Prop) : yields m R -> (∀ a, R a -> S a) -> yields m S.
Proof. intros Hm H e a e' He. by eapply H, Hm. Qed.

Lemma runs_yields (m : E A) e (Q : A -> evenv -> Prop) R :
  runs m e Q -> yields m R -> runs m e (fun a e' => Q a e' ∧ R a).
Proof. rewrite /runs /yields. intros Hm HR. specialize (HR e). destruct (m e) as [f|[a e']]; [done|]. eauto. Qed.

End yields.

(** ** Allocation *)

(** The size that is allocated is a power of two. *)
Lemma grow_alloc_top fuel j size :
  (j <= 62)%nat -> size <= 2 ^ 62 -> grow_alloc fuel (2 ^ Z.of_nat j) size <= 2 ^ 62.
Proof.
  revert j. induction fuel as [|fuel IH]; intros j Hj Hs; cbn [grow_alloc].
  - apply Z.pow_le_mono_r; lia.
  - destruct (Z.ltb_spec (2 ^ Z.of_nat j) size) as [Hlt|_]; [|apply Z.pow_le_mono_r; lia].
    rewrite Z.shiftl_mul_pow2 // -Z.pow_add_r; [|lia..].
    replace (Z.of_nat j + 1) with (Z.of_nat (S j)) by lia. apply IH; [|done].
    assert (Hj' : 2 ^ Z.of_nat j < 2 ^ 62) by lia. apply Z.pow_lt_mono_r_iff in Hj'; lia.
Qed.

Lemma chain_alloc_size_top size : size < 2 ^ 62 -> chain_alloc_size (size + EVBUFFER_CHAIN_SIZE) - EVBUFFER_CHAIN_SIZE < 2 ^ 62.
Proof.
  intros Hs. rewrite /chain_alloc_size. destruct (Z.ltb_spec (size + EVBUFFER_CHAIN_SIZE) (EVBUFFER_CHAIN_MAX / 2)) as [Hlt|Hge]; [|lia].
  change (EVBUFFER_CHAIN_MAX / 2) with (2 ^ 62 - 1) in Hlt. change MIN_BUFFER_SIZE with (2 ^ Z.of_nat 10).
  pose proof (grow_alloc_top 64 10 (size + EVBUFFER_CHAIN_SIZE)) as H. rewrite /EVBUFFER_CHAIN_SIZE in H |- *.
  assert (size + 48 <= 2 ^ 62) by (rewrite /EVBUFFER_CHAIN_SIZE in Hlt; lia). specialize (H ltac:(lia) ltac:(done)). lia.
Qed.

Definition plain_opt (c : option evbuffer_chain) : Prop := match c with Some c => plain c | None => True end.

Lemma yields_chain_new size : 0 <= size < 2 ^ 62 -> yields (evbuffer_chain_new size) plain_opt.
Proof.
  intros [H0 Hs]. assert (Hlow : 0 < chain_alloc_size (size + EVBUFFER_CHAIN_SIZE) - EVBUFFER_CHAIN_SIZE).
  { destruct (chain_alloc_size_bounds (size + EVBUFFER_CHAIN_SIZE)) as [_ ?]; [|lia].
    rewrite /EVBUFFER_CHAIN_MAX /EV_SSIZE_MAX /EVBUFFER_CHAIN_SIZE. lia. }
  pose proof (chain_alloc_size_top size Hs) as Htop. rewrite /evbuffer_chain_new.
  destruct (_ <? _); [by apply yields_ret|]. eapply yields_bind; [apply yields_any|]. intros [i|] _; by apply yields_ret.
Qed.

(** ** Chains *)

Lemma yields_chain_write pos ds c : plain c -> yields (chain_write pos ds c) plain.
Proof. intros Hc. rewrite /chain_write. destruct (in_range _ _ _); [by apply yields_ret|apply yields_fail]. Qed.

Lemma put_plain c b : all_plain b -> plain c -> all_plain (put_chain c b).
Proof.
  intros Hb Hc. rewrite /all_plain /put_chain /=. apply Forall_fmap. eapply Forall_impl; [exact Hb|].
  intros x Hx. cbn. by destruct (decide _).
Qed.

Lemma tail_after_plain i cs t : Forall plain cs -> tail_after i cs = Some t -> Forall plain t.
Proof.
  induction 1 as [|c cs Hc Hcs IH]; [done|]. cbn. destruct (decide _); [by intros [= <-]|done].
Qed.

Lemma yields_deref cs p : Forall plain cs -> yields (deref cs p) (Forall plain).
Proof.
  intros Hcs. destruct p as [|i]; [by apply yields_ret|]. cbn.
  destruct (tail_after i cs) eqn:Ht; [by eapply yields_ret, tail_after_plain|apply yields_fail].
Qed.

Lemma cut_after_plain i cs t cs' : Forall plain cs -> Forall plain t -> cut_after i cs t = Some cs' -> Forall plain cs'.
Proof.
  intros Hcs Ht. revert cs'. induction Hcs as [|c cs Hc _ IH]; intros cs'; [done|]. cbn. destruct (decide _).
  - intros [= <-]. by constructor.
  - destruct (cut_after i cs t); [|done]. intros [= <-]. constructor; auto.
Qed.

Lemma yields_store_link p t b : all_plain b -> Forall plain t -> yields (store_link p t b) all_plain.
Proof.
  intros Hb Ht. destruct p as [|i]; [by apply yields_ret|]. cbn.
  destruct (cut_after i (chains b) t) eqn:Hc; [|apply yields_fail].
  apply yields_ret. by apply (cut_after_plain i (chains b) t).
Qed.

Lemma yields_get_chain b i : all_plain b -> yields (get_chain b i) plain.
Proof.
  intros Hb. destruct i as [i|]; [|apply yields_fail]. cbn. destruct (List.find _ _) as [c|] eqn:Hf; [|apply yields_fail].
  apply yields_ret. apply List.find_some in Hf as [Hin _]. rewrite /all_plain Forall_forall in Hb.
  by apply Hb, list_elem_of_In.
Qed.

Lemma yields_invoke b : all_plain b -> yields (evbuffer_invoke_callbacks b) all_plain.
Proof.
  intros Hb e b' e' He. destruct (silent_invoke_callbacks b) as (b1 & Hc & Hs). destruct (Hs e) as [fs Heq].
  rewrite Heq in He. injection He as <- _. destruct Hc as (a & d & q & ->). exact Hb.
Qed.

Lemma yields_chain_insert b c : all_plain b -> plain c -> yields (evbuffer_chain_insert b c) all_plain.
Proof.
  intros Hb Hc. rewrite /evbuffer_chain_insert. assert (H1 : Forall plain [c]) by by apply Forall_singleton.
  eapply yields_bind; [apply yields_any|]. intros [|t ts] _; eapply (yields_bind _ _ all_plain); try by intros; apply yields_ret.
  - eapply yields_bind; [apply yields_any|]. intros _ _. eapply yields_bind; [apply yields_any|]. intros _ _. by apply yields_ret.
  - eapply (yields_bind _ _ all_plain); [|by intros; apply yields_ret]. destruct (find_victim _ _) as [ch [|v vs]].
    + destruct (last b); [|apply yields_fail]. eapply yields_bind; [by apply yields_store_link|]. intros b' Hb'.
      apply yields_ret. by destruct (negb _).
    + eapply yields_bind; [apply yields_any|]. intros _ _. eapply yields_bind; [apply yields_any|]. intros _ _.
      by apply yields_store_link.
Qed.

(** One step of a computation whose result does not matter, and the end of an
    operation that only reports. *)
Ltac yskip := eapply yields_bind; [apply yields_any|intros ? _].

(** ** Operations *)

Lemma yields_ensure_chain which b n :
  all_plain b -> 0 <= n < 2 ^ 62 ->
  yields (ensure_chain which b n) (fun r => plain_opt (fst r) ∧ all_plain (snd r)).
Proof.
  intros Hb Hn. rewrite /ensure_chain. destruct (which b) as [i|].
  - eapply yields_bind; [by apply yields_get_chain|]. intros c Hc. by apply yields_ret.
  - eapply yields_bind; [by apply yields_chain_new|]. intros [c|] Hc; [|by apply yields_ret].
    eapply yields_bind; [by apply yields_chain_insert|]. intros b' Hb'. by apply yields_ret.
Qed.

Definition plain_snd {A} (r : A * evbuffer) : Prop := all_plain (snd r).

Lemma yields_report b (r : Z) : all_plain b -> yields (b ← evbuffer_invoke_callbacks b; mret (r, b)) plain_snd.
Proof. intros Hb. eapply yields_bind; [by apply yields_invoke|]. intros b' Hb'. by apply yields_ret. Qed.

Lemma yields_add_more b c data remain :
  all_plain b -> plain c -> Z.of_nat (length data) < 2 ^ 62 -> yields (evbuffer_add_more b c data remain) plain_snd.
Proof.
  intros Hb Hc Hd. rewrite /evbuffer_add_more. eapply yields_bind; [apply yields_chain_new|].
  { destruct Hc as [_ Hc]. change (EVBUFFER_CHAIN_MAX_AUTO_SIZE / 2) with 2048.
    rewrite Z.shiftl_mul_pow2 // Z.pow_1_r. destruct (Z.leb_spec (buffer_len c) 2048).
    - destruct (Z.ltb_spec (buffer_len c * 2) (Z.of_nat (length data))); lia.
    - destruct (Z.ltb_spec (buffer_len c) (Z.of_nat (length data))); lia. }
  intros [tmp|] Htmp; [|by apply yields_ret]. eapply (yields_bind _ _ all_plain).
  { destruct (negb _); [|by apply yields_ret]. eapply yields_bind; [by apply yields_chain_write|]. intros c' Hc'.
    apply yields_ret. by apply (put_plain (set_span _ _ c') b). }
  intros b' Hb'. eapply yields_bind; [by apply yields_chain_write|]. intros t Ht.
  eapply yields_bind; [by apply (yields_chain_insert b' (set_span _ _ t))|]. intros b2 Hb2. by apply yields_report.
Qed.

Lemma yields_evbuffer_add b data :
  all_plain b -> Z.of_nat (length data) < 2 ^ 62 -> yields (evbuffer_add b data) plain_snd.
Proof.
  intros Hb Hd. rewrite /evbuffer_add. destruct (freeze_end b); [by apply yields_ret|].
  destruct (_ <? _); [by apply yields_ret|]. eapply yields_bind; [apply yields_ensure_chain; [done|lia]|].
  intros [[c|] b1] [Hc Hb1]; cbn in Hc, Hb1; [|by apply yields_ret].
  destruct (negb (is_immutable c)); [|by apply yields_add_more]. yskip. destruct (_ <=? _).
  - eapply yields_bind; [by apply yields_chain_write|]. intros c' Hc'.
    apply yields_report. by apply (put_plain (set_span _ _ c') b1).
  - destruct (_ && _); [|by apply yields_add_more]. rewrite /evbuffer_chain_align.
    eapply (yields_bind _ _ plain).
    { yskip. yskip. yskip. eapply yields_bind; [by apply yields_chain_write|]. intros c' Hc'. by apply yields_ret. }
    intros c1 Hc1. eapply yields_bind; [by apply yields_chain_write|]. intros c' Hc'.
    apply yields_report. by apply (put_plain (set_span _ _ c') b1).
Qed.

Lemma yields_prepend_more b c data :
  all_plain b -> Z.of_nat (length data) < 2 ^ 62 -> yields (evbuffer_prepend_more b c data) plain_snd.
Proof.
  intros Hb Hd. rewrite /evbuffer_prepend_more. eapply yields_bind; [apply yields_chain_new; lia|].
  intros [tmp|] Htmp; [|by apply yields_ret]. yskip. eapply yields_bind; [by apply yields_chain_write|]. intros t Ht.
  apply yields_report. constructor; [done|]. by case_decide.
Qed.

Lemma yields_evbuffer_prepend b data :
  all_plain b -> Z.of_nat (length data) < 2 ^ 62 -> yields (evbuffer_prepend b data) plain_snd.
Proof.
  intros Hb Hd. rewrite /evbuffer_prepend. destruct (freeze_start b); [by apply yields_ret|].
  destruct (_ <? _); [by apply yields_ret|]. eapply yields_bind; [apply yields_ensure_chain; [done|lia]|].
  intros [[c|] b1] [Hc Hb1]; cbn in Hc, Hb1; [|by apply yields_ret].
  destruct (negb (is_immutable c)); [|by apply yields_prepend_more]. rewrite /evbuffer_prepend_into. yskip.
  set (c1 := if off c =? 0 then _ else _). assert (Hc1 : plain c1) by by rewrite /c1; destruct (_ =? _).
  clearbody c1. pose proof (put_plain c1 b1 Hb1 Hc1) as Hb2. set (b2 := put_chain c1 b1) in *. clearbody b2.
  destruct (_ <=? _); [|destruct (negb _)].
  - eapply yields_bind; [by apply yields_chain_write|]. intros c' Hc'.
    apply yields_report. by apply (put_plain (set_span _ _ c') b2).
  - eapply yields_bind; [by apply yields_chain_write|]. intros c' Hc'. apply yields_prepend_more.
    + by apply (put_plain (set_span _ _ c') b2).
    + rewrite length_take. lia.
  - by apply yields_prepend_more.
Qed.

Lemma yields_drain_loop f cs n p : Forall plain cs -> yields (drain_loop f cs n p) (fun r => Forall plain (fst (fst r))).
Proof.
  intros Hcs. revert n p. induction Hcs as [|c cs Hc Hcs IH]; intros n p; [apply yields_fail|]. cbn [drain_loop].
  destruct (_ <=? _); [|by apply yields_ret; constructor]. yskip. destruct (CHAIN_PINNED_R c).
  - yskip. apply yields_ret. by constructor.
  - yskip. apply IH.
Qed.

Lemma yields_evbuffer_drain b n : all_plain b -> yields (evbuffer_drain b n) plain_snd.
Proof.
  intros Hb. rewrite /evbuffer_drain. destruct (_ =? _); [by apply yields_ret|].
  destruct (freeze_start b); [by apply yields_ret|]. yskip. eapply (yields_bind _ _ plain_snd); last first.
  { intros [m b'] Hb'. by apply yields_report. }
  destruct (_ && _); [yskip; by apply yields_ret; constructor|].
  eapply yields_bind; [by apply (yields_drain_loop _ (chains b))|]. intros [[cs r] p] Hcs. cbn in Hcs.
  eapply (yields_bind _ _ (Forall plain)); [|intros; by apply yields_ret].
  destruct Hcs as [|c cs Hc Hcs]; [by apply yields_ret|]. yskip. apply yields_ret. by constructor.
Qed.

Lemma yields_evbuffer_remove b n : all_plain b -> yields (evbuffer_remove b n) plain_snd.
Proof.
  intros Hb. rewrite /evbuffer_remove. eapply yields_bind; [apply yields_any|]. intros [k d] _.
  destruct (_ <? _); [|by apply yields_ret]. eapply yields_bind; [by apply yields_evbuffer_drain|].
  intros [r b'] Hb'. by apply yields_ret.
Qed.

Lemma yields_pullup_loop lwd p cs tmp pos n rd rdp :
  Forall plain cs -> plain tmp ->
  yields (pullup_loop lwd p cs tmp pos n rd rdp) (fun '(cs', tmp', _, _, _, _) => Forall plain cs' ∧ plain tmp').
Proof.
  intros Hcs. revert tmp pos n rd rdp. induction Hcs as [|c cs Hc Hcs IH]; intros tmp pos n rd rdp Ht; [by apply yields_ret|].
  cbn [pullup_loop]. destruct (_ <=? _); [|apply yields_ret; split; [by constructor|done]].
  yskip. eapply yields_bind; [by apply yields_chain_write|]. intros t Ht'. yskip. by apply IH.
Qed.

Lemma yields_pullup_rest b lwd cs tmp pos n :
  Forall plain cs -> plain tmp -> yields (pullup_rest b lwd cs tmp pos n) plain_snd.
Proof.
  intros Hcs Ht. rewrite /pullup_rest. eapply yields_bind; [by apply yields_pullup_loop|].
  intros [[[[[cs1 t1] pos1] n1] rd] rdp] [Hcs1 Ht1]. eapply (yields_bind _ _ (fun r => Forall plain (fst r) ∧ plain (snd r))).
  - destruct Hcs1 as [|c cs1 Hc Hcs1]; [by apply yields_ret|]. yskip.
    eapply yields_bind; [by apply yields_chain_write|]. intros t Ht'. apply yields_ret. split; [by constructor|done].
  - intros [cs2 t2] [Hcs2 Ht2]. cbn in Hcs2, Ht2. apply yields_ret.
    assert (H : Forall plain (t2 :: cs2)) by by constructor. rewrite /plain_snd /all_plain /= /pullup_fix.
    destruct rd; [by destruct cs2|]. destruct rdp; [|by destruct cs2]. destruct cs2; [done|]. by destruct (negb _).
Qed.

Lemma yields_evbuffer_pullup b n :
  all_plain b -> 0 <= total_len b < 2 ^ 62 -> n < 2 ^ 62 -> yields (evbuffer_pullup b n) plain_snd.
Proof.
  intros Hb Ht Hn. rewrite /evbuffer_pullup. set (m := if n <? 0 then _ else _).
  assert (Hm : 0 <= m < 2 ^ 62) by (rewrite /m; destruct (Z.ltb_spec n 0); lia). clearbody m.
  destruct (_ || _); [by apply yields_ret|]. pose proof Hb as Hcs. rewrite /all_plain in Hcs.
  destruct (chains b) as [|c cs]; [apply yields_fail|]. apply Forall_cons in Hcs as [Hc Hcs].
  destruct (m <=? off c); [by apply yields_ret|]. yskip.
  destruct (pullup_pinned _ _); [by apply yields_ret|]. destruct (CHAIN_PINNED c).
  { destruct (_ <? _); [by apply yields_ret|]. yskip. by apply yields_pullup_rest. }
  destruct (_ <=? _); [yskip; by apply yields_pullup_rest|].
  eapply yields_bind; [by apply yields_chain_new|]. intros [t|] Htmp; [|by apply yields_ret]. yskip.
  apply yields_pullup_rest; [by constructor|done].
Qed.

(** ** Where the chains of a result come from *)

Section stays.
Context (P : id -> Prop).

Definition fresh (e : evenv) : Prop := ∀ i, (next_id e <= i)%positive -> P i.

(** [R] holds of the result if [P] holds of all addresses that are not used. *)
Definition stays {A} (m : E A) (R : A -> Prop) : Prop := ∀ e a e', fresh e -> m e = inr (a, e') -> R a ∧ later e e'.

Lemma runs_stays {A} (m : E A) (R : A -> Prop) e (Q : A -> evenv -> Prop) :
  stays m R -> fresh e -> runs m e (fun a e' => R a -> Q a e') -> runs m e Q.
Proof. intros Hs Hf. rewrite /runs. destruct (m e) as [|[a e']] eqn:He; [done|]. intros HQ. apply HQ. by destruct (Hs e a e' Hf He). Qed.

Definition mine (c : evbuffer_chain) : Prop := P (c_id c).
Definition all_mine (b : evbuffer) : Prop := Forall mine (chains b).
Definition any {A} (a : A) : Prop := True.

Lemma fresh_later e e' : fresh e -> later e e' -> fresh e'.
Proof. rewrite /fresh /later. intros Hf Hl i Hi. apply Hf. lia. Qed.

Lemma stays_ret {A} (a : A) (R : A -> Prop) : R a -> stays (mret a) R.
Proof. by intros H e a' e' _ [= <- <-]. Qed.

Lemma stays_fail {A} f (R : A -> Prop) : stays (e_fail f) R.
Proof. by intros e a e' _. Qed.

Lemma stays_bind {A B} (m : E A) (k : A -> E B) R S : stays m R -> (∀ a, R a -> stays (k a) S) -> stays (m ≫= k) S.
Proof.
  intros Hm Hk e b e' Hf. rewrite /mbind /E_bind. destruct (m e) as [f|[a e1]] eqn:He; [done|]. intros Hb.
  destruct (Hm e a e1 Hf He) as [Ha Hl]. destruct (Hk a Ha e1 b e' (fresh_later _ _ Hf Hl) Hb). split; [done|by etrans].
Qed.

Lemma stays_assoc {A B C} (m : E A) (k : A -> E B) (j : B -> E C) S : stays (m ≫= (fun a => k a ≫= j)) S -> stays ((m ≫= k) ≫= j) S.
Proof. intros H e c e' Hf He. apply (H e c e' Hf). rewrite -He /mbind /E_bind. by destruct (m e) as [|[a e1]]. Qed.

Lemma stays_ret_bind {A B} (a : A) (k : A -> E B) S : stays (k a) S -> stays (mret a ≫= k) S.
Proof. done. Qed.

Lemma stays_fail_bind {A B} f (k : A -> E B) S : stays (e_fail f ≫= k) S.
Proof. by intros e a e' _. Qed.

Lemma stays_silent {A} (m : E A) a (R : A -> Prop) : silent m a -> R a -> stays m R.
Proof.
  intros Hs HR e a' e' _ He. destruct (Hs e) as [fs Heq]. rewrite Heq in He. injection He as <- <-. split; [done|]. rewrite /later /=. lia.
Qed.

Lemma stays_assert b : stays (EVUTIL_ASSERT b) any.
Proof. destruct b; [by apply stays_ret|apply stays_fail]. Qed.

Lemma stays_free c : stays (evbuffer_chain_free c) any.
Proof. by eapply stays_silent; [apply silent_chain_free|]. Qed.

Lemma stays_free_all cs : stays (evbuffer_free_all_chains cs) any.
Proof. by eapply stays_silent; [apply silent_free_all|]. Qed.

Lemma stays_malloc : stays mm_malloc (fun o => ∀ i, o = Some i -> P i).
Proof.
  intros e o e' Hf. rewrite /mm_malloc. destruct (ev_oom e) as [|[] oom]; intros [= <- <-]; rewrite /later /=; (split; [|lia]); intros i [= <-].
  all: apply Hf; lia.
Qed.

Definition mine_opt (c : option evbuffer_chain) : Prop := match c with Some c => mine c | None => True end.

Lemma stays_chain_new n : stays (evbuffer_chain_new n) mine_opt.
Proof.
  rewrite /evbuffer_chain_new. destruct (_ <? _); [by apply stays_ret|]. eapply stays_bind; [apply stays_malloc|].
  intros [i|] Hi; apply stays_ret; [by apply Hi|done].
Qed.

Lemma stays_chain_write pos ds c : mine c -> stays (chain_write pos ds c) mine.
Proof. intros Hc. rewrite /chain_write. destruct (in_range _ _ _); [by apply stays_ret|apply stays_fail]. Qed.

Lemma stays_chain_read pos n c : stays (chain_read pos n c) any.
Proof. rewrite /chain_read. destruct (in_range _ _ _); [by apply stays_ret|apply stays_fail]. Qed.

Lemma put_mine c b : all_mine b -> mine c -> all_mine (put_chain c b).
Proof. intros Hb Hc. apply Forall_fmap. eapply Forall_impl; [exact Hb|]. intros x Hx. cbn. by destruct (decide _). Qed.

Lemma stays_deref cs p : Forall mine cs -> stays (deref cs p) (Forall mine).
Proof.
  intros Hcs. destruct p as [|i]; [by apply stays_ret|]. cbn. destruct (tail_after i cs) as [t|] eqn:Ht; [|apply stays_fail].
  apply stays_ret. revert Ht. induction Hcs as [|c cs Hc Hcs IH]; [done|]. cbn. destruct (decide _); [by intros [= <-]|done].
Qed.

Lemma stays_store_link p t b : all_mine b -> Forall mine t -> stays (store_link p t b) all_mine.
Proof.
  intros Hb Ht. destruct p as [|i]; [by apply stays_ret|]. cbn. destruct (cut_after i (chains b) t) as [cs|] eqn:Hc; [|apply stays_fail].
  apply stays_ret. rewrite /all_mine /=. revert cs Hc. rewrite /all_mine in Hb. induction Hb as [|c cs Hc Hcs IH]; intros cs'; [done|]. cbn. destruct (decide _).
  - intros [= <-]. by constructor.
  - destruct (cut_after i cs t); [|done]. intros [= <-]. constructor; auto.
Qed.

Lemma stays_get_chain b i : all_mine b -> stays (get_chain b i) mine.
Proof.
  intros Hb. destruct i as [i|]; [|apply stays_fail]. cbn. destruct (List.find _ _) as [c|] eqn:Hf; [|apply stays_fail].
  apply stays_ret. apply List.find_some in Hf as [Hin _]. rewrite /all_mine Forall_forall in Hb. by apply Hb, list_elem_of_In.
Qed.

Lemma stays_invoke b : all_mine b -> stays (evbuffer_invoke_callbacks b) all_mine.
Proof. intros Hb. destruct (silent_invoke_callbacks b) as (b1 & (a & d & q & ->) & Hs). by eapply stays_silent. Qed.

Definition mine_snd {A} (r : A * evbuffer) : Prop := all_mine (snd r).

Lemma stays_report {A} b (r : A) : all_mine b -> stays (b ← evbuffer_invoke_callbacks b; mret (r, b)) mine_snd.
Proof. intros Hb. eapply stays_bind; [by apply stays_invoke|]. intros b' Hb'. by apply stays_ret. Qed.

End stays.

#[local] Arguments store_link : simpl never.
#[local] Arguments get_chain : simpl never.
#[local] Arguments deref : simpl never.

Create HintDb stays.
#[export] Hint Resolve stays_assert stays_free stays_free_all stays_malloc stays_chain_new stays_chain_write stays_chain_read stays_deref stays_store_link
  stays_get_chain stays_invoke stays_report put_mine : stays.
#[export] Hint Constructors Forall : stays.
#[export] Hint Extern 1 (mine _ _) => done : stays.
#[export] Hint Extern 1 (mine _ ?c) => match goal with H : Forall _ (c :: _) |- _ => exact (Forall_inv H) end : stays.
#[export] Hint Extern 1 (Forall _ ?t) => match goal with H : Forall _ (_ :: t) |- _ => exact (Forall_inv_tail H) end : stays.
#[export] Hint Extern 1 (all_mine _ _) => match goal with H : all_mine _ _ |- _ => exact H end : stays.
#[export] Hint Extern 2 (all_mine ?P (count_added _ ?b)) => change (all_mine P b) : stays.
#[export] Hint Extern 2 (all_mine ?P (set_counts _ _ ?b)) => change (all_mine P b) : stays.
#[export] Hint Extern 2 (all_mine ?P (set_total _ ?b)) => change (all_mine P b) : stays.
#[export] Hint Extern 2 (all_mine ?P (set_datap _ ?b)) => change (all_mine P b) : stays.
#[export] Hint Extern 2 (all_mine ?P (set_last _ ?b)) => change (all_mine P b) : stays.
#[export] Hint Extern 2 (all_mine ?P (set_chains ?cs _)) => change (Forall (mine P) cs) : stays.
#[export] Hint Extern 2 (all_mine _ (ZERO_CHAIN _)) => constructor : stays.
#[export] Hint Extern 1 (mine_snd ?P (_, ?b)) => change (all_mine P b) : stays.
#[export] Hint Extern 1 (any _) => exact I : stays.

(** Walks through a computation: the steps have lemmas, each case of a test is
    looked at. *)
Ltac stay :=
  repeat first
    [ progress intros
    | match goal with
      | |- stays _ (mret _) _ => apply stays_ret; cbn; auto 10 with stays; repeat case_match; auto 10 with stays
      | |- stays _ (e_fail _) _ => apply stays_fail
      | |- stays _ (e_fail _ ≫= _) _ => apply stays_fail_bind
      | |- stays _ (mret _ ≫= _) _ => apply stays_ret_bind; cbn
      | |- stays _ ((_ ≫= _) ≫= _) _ => apply stays_assoc
      | |- stays _ (match ?x with _ => _ end ≫= _) _ => destruct x
      | |- stays _ (match ?x with _ => _ end) _ => destruct x
      | |- stays _ (_ ≫= _) _ => eapply stays_bind; [solve [eauto 10 with stays]|cbn]
      end
    | solve [eauto 10 with stays] ].

Lemma all_mine_chains P b : all_mine P b -> Forall (mine P) (chains b).
Proof. done. Qed.

Section operations.
Context (P : id -> Prop).
Abbreviation stays := (stays P).
Abbreviation mine := (mine P).
Abbreviation all_mine := (all_mine P).
Abbreviation mine_snd := (mine_snd P).

Lemma stays_chain_insert b c : all_mine b -> mine c -> stays (evbuffer_chain_insert b c) all_mine.
Proof.
  intros Hb Hc. assert (H1 : Forall mine [c]) by by apply Forall_singleton. rewrite /evbuffer_chain_insert. stay.
Qed.
#[local] Hint Resolve stays_chain_insert : stays.

Lemma stays_ensure_chain which b n : all_mine b -> stays (ensure_chain which b n) (fun r => mine_opt P (fst r) ∧ all_mine (snd r)).
Proof. intros Hb. rewrite /ensure_chain. stay. Qed.
#[local] Hint Resolve stays_ensure_chain : stays.

Lemma stays_add_more b c data remain : all_mine b -> mine c -> stays (evbuffer_add_more b c data remain) mine_snd.
Proof. intros Hb Hc. rewrite /evbuffer_add_more. stay.
Qed.
#[local] Hint Resolve stays_add_more : stays.

Lemma stays_add b data : all_mine b -> stays (evbuffer_add b data) mine_snd.
Proof.
  intros Hb. rewrite /evbuffer_add. destruct (freeze_end b); [by apply stays_ret|]. destruct (_ <? _); [by apply stays_ret|].
  eapply stays_bind; [by apply stays_ensure_chain|]. intros [[c|] b1] [Hc Hb1]; cbn in Hc, Hb1; [|by apply stays_ret].
  rewrite /evbuffer_chain_align. stay.
Qed.

Lemma stays_drain_loop f cs n p : Forall mine cs -> stays (drain_loop f cs n p) (fun r => Forall mine (fst (fst r))).
Proof. intros Hcs. revert n p. induction Hcs as [|c cs Hc Hcs IH]; intros n p; cbn [drain_loop]; stay. Qed.
#[local] Hint Resolve stays_drain_loop : stays.

Lemma stays_pinned b : all_mine b -> stays (HAS_PINNED_R b) any.
Proof. intros Hb. rewrite /HAS_PINNED_R. stay. Qed.
#[local] Hint Resolve stays_pinned : stays.

Lemma stays_drain b n : all_mine b -> stays (evbuffer_drain b n) mine_snd.
Proof.
  intros Hb. pose proof (all_mine_chains _ _ Hb) as Hcs. rewrite /evbuffer_drain. do 2 (case_match; [by apply stays_ret|]).
  eapply stays_bind; [by apply stays_pinned|]. intros pinned _. destruct (_ && _).
  { stay. }
  apply stays_assoc. eapply stays_bind; [by apply (stays_drain_loop _ (chains b))|]. intros [[cs r] p] Hd. cbn in Hd.
  destruct Hd as [|c cs Hc Hd]; stay.
Qed.

Lemma stays_copyout_loop cs n acc : stays (copyout_loop cs n acc) any.
Proof. revert n acc. induction cs as [|c cs IH]; intros n acc; cbn [copyout_loop]; stay. Qed.
#[local] Hint Resolve stays_drain stays_copyout_loop : stays.

Lemma stays_copyout b n : stays (evbuffer_copyout b n) any.
Proof. rewrite /evbuffer_copyout. stay. Qed.
#[local] Hint Resolve stays_copyout : stays.

Lemma stays_remove b n : all_mine b -> stays (evbuffer_remove b n) mine_snd.
Proof. intros Hb. rewrite /evbuffer_remove. stay. Qed.

Lemma stays_pullup_loop lwd p cs tmp pos n rd rdp :
  Forall mine cs -> mine tmp -> stays (pullup_loop lwd p cs tmp pos n rd rdp) (fun r => Forall mine r.1.1.1.1.1 ∧ mine r.1.1.1.1.2).
Proof.
  intros Hcs. revert tmp pos n rd rdp. induction Hcs as [|c cs Hc Hcs IH]; intros tmp pos n rd rdp Ht; cbn [pullup_loop]; stay.
Qed.

Lemma stays_pullup_rest b lwd cs tmp pos n : Forall mine cs -> mine tmp -> stays (pullup_rest b lwd cs tmp pos n) mine_snd.
Proof.
  intros Hcs Ht. rewrite /pullup_rest. eapply stays_bind; [by apply stays_pullup_loop|].
  intros [[[[[cs1 t1] pos1] n1] rd] rdp] [Hcs1 Ht1]. cbn in Hcs1, Ht1.
  eapply (stays_bind _ _ _ (fun r => Forall mine (fst r) ∧ mine (snd r))).
  - destruct Hcs1 as [|c cs1 Hc Hcs1]; stay.
  - intros [cs2 t2] [Hcs2 Ht2]. cbn in Hcs2, Ht2. apply stays_ret.
    assert (H : Forall mine (t2 :: cs2)) by by constructor. hnf. cbn [snd]. rewrite /pullup_fix.
    destruct rd; [by destruct cs2|]. destruct rdp; [|by destruct cs2]. destruct cs2; [done|]. by destruct (negb _).
Qed.

#[local] Arguments pullup_rest : simpl never.

Lemma stays_pullup b n : all_mine b -> stays (evbuffer_pullup b n) mine_snd.
Proof.
  intros Hb. rewrite /evbuffer_pullup. destruct (_ || _); [by apply stays_ret|]. pose proof (all_mine_chains _ _ Hb) as Hcs.
  destruct (chains b) as [|c cs] eqn:Hch; [apply stays_fail|]. pose proof Hcs as Hall. apply Forall_cons in Hcs as [Hc Hcs].
  assert (Hdt : ∀ i, stays (datap_target b i) any) by (intros i; rewrite /datap_target Hch; stay).
  assert (Hrest : ∀ lwd cs' t pos k, Forall mine cs' -> mine t -> stays (pullup_rest b lwd cs' t pos k) mine_snd) by (intros; by apply stays_pullup_rest).
  stay.
Qed.

Lemma stays_insert_new b n : all_mine b -> stays (insert_new_checked b n) mine_snd.
Proof. intros Hb. rewrite /insert_new_checked /evbuffer_chain_insert_new. stay. Qed.
#[local] Hint Resolve stays_insert_new : stays.

Lemma stays_expand b n : all_mine b -> stays (evbuffer_expand_singlechain b n) mine_snd.
Proof.
  intros Hb. rewrite /evbuffer_expand_singlechain /chain_ok /evbuffer_chain_align. eapply stays_bind; [by apply stays_deref|]. intros t Ht.
  destruct Ht as [|c t Hc Ht]; [stay|]. destruct (_ =? _); stay.
Qed.
#[local] Hint Resolve stays_expand : stays.
End operations.

#[export] Hint Resolve stays_add stays_drain stays_remove stays_pullup stays_expand stays_insert_new : stays.
