(* ===== verification/EvBufQueue.v ===== *)
(** * Event buffers are queues of bytes

    The operations of buffer.c on one buffer against an abstract queue: any
    sequence of them gives the answers the queue gives.  The clients of buffer.c
    rely on the laws of the class [ByteBuffer] about the bytes of a buffer and on
    nothing else; event buffers obey them. *)

From Stdlib Require Import ssreflect.
From S2P Require Import Prelude CTypes HProp CMem EvBuffer EvBufSpec EvBufOps EvBufMove EvBufPlain.
Set Warnings "-rewrite-rw".
Open Scope general_if_scope.
Open Scope Z_scope.

(** ** Operations and answers *)

Inductive ev_op :=
| OpAdd (data : list mbyte)
| OpPrepend (data : list mbyte)
| OpDrain (n : Z)
| OpRemove (n : Z)
| OpPullup (n : Z)
| OpFreeze (start : bool)
| OpUnfreeze (start : bool)
| OpLength.

Inductive ev_out :=
| Status (r : Z)
| Taken (r : Z) (d : list mbyte)
| Front (d : option (list mbyte))
| Length (n : Z).

(** An operation on a buffer.  The answer of evbuffer_pullup is what the
    caller can read at the pointer. *)
Definition ev_step (b : evbuffer) (op : ev_op) : E (ev_out * evbuffer) :=
  match op with
  | OpAdd data => '(r, b) ← evbuffer_add b data; mret (Status r, b)
  | OpPrepend data => '(r, b) ← evbuffer_prepend b data; mret (Status r, b)
  | OpDrain n => '(r, b) ← evbuffer_drain b n; mret (Status r, b)
  | OpRemove n => '(r, d, b) ← evbuffer_remove b n; mret (Taken r d, b)
  | OpPullup n =>
      '(p, b) ← evbuffer_pullup b n;
      match p with
      | None => mret (Front None, b)
      | Some i =>
          d ← read_at b i 0 (if n <? 0 then total_len b else n);
          mret (Front (Some d), b)
      end
  | OpFreeze start => mret (Status 0, evbuffer_freeze b start)
  | OpUnfreeze start => mret (Status 0, evbuffer_unfreeze b start)
  | OpLength => mret (Length (evbuffer_get_length b), b)
  end.

Fixpoint ev_run (b : evbuffer) (ops : list ev_op) : E (list ev_out * evbuffer) :=
  match ops with
  | [] => mret ([], b)
  | op :: ops =>
      '(o, b) ← ev_step b op;
      '(os, b) ← ev_run b ops;
      mret (o :: os, b)
  end.

(** ** The queue *)

Record queue := Queue { q_bytes : list mbyte; q_start : bool; q_end : bool }.

Definition q_step (q : queue) (op : ev_op) : ev_out * queue :=
  let set bs := Queue bs (q_start q) (q_end q) in
  let bs := q_bytes q in
  match op with
  | OpAdd data => if q_end q then (Status (-1), q) else (Status 0, set (bs ++ data))
  | OpPrepend data => if q_start q then (Status (-1), q) else (Status 0, set (data ++ bs))
  | OpDrain n =>
      if bool_decide (bs = []) then (Status 0, q)
      else if q_start q then (Status (-1), q) else (Status 0, set (drop (Z.to_nat n) bs))
  | OpRemove n =>
      let d := take (Z.to_nat n) bs in
      if bool_decide (d = []) then (Taken 0 [], q)
      else if q_start q then (Taken (-1) [], q)
      else (Taken (s32 (Z.of_nat (length d))) d, set (drop (Z.to_nat n) bs))
  | OpPullup n =>
      let m := if n <? 0 then Z.of_nat (length bs) else n in
      if (m =? 0) || (Z.of_nat (length bs) <? m) then (Front None, q)
      else (Front (Some (take (Z.to_nat m) bs)), q)
  | OpFreeze start => (Status 0, if start then Queue bs true (q_end q) else Queue bs (q_start q) true)
  | OpUnfreeze start => (Status 0, if start then Queue bs false (q_end q) else Queue bs (q_start q) false)
  | OpLength => (Length (Z.of_nat (length bs)), q)
  end.

Fixpoint q_run (q : queue) (ops : list ev_op) : list ev_out * queue :=
  match ops with
  | [] => ([], q)
  | op :: ops =>
      let '(o, q) := q_step q op in
      let '(os, q) := q_run q ops in
      (o :: os, q)
  end.

(** What an operation puts in, and arguments that are sizes. *)
Definition op_adds (op : ev_op) : Z :=
  match op with OpAdd d | OpPrepend d => Z.of_nat (length d) | _ => 0 end.

Definition op_ok (op : ev_op) : Prop :=
  match op with OpDrain n | OpRemove n => 0 <= n | OpPullup n => n < 2 ^ 62 | _ => True end.

Fixpoint adds (ops : list ev_op) : Z :=
  match ops with [] => 0 | op :: ops => op_adds op + adds ops end.

(** ** Simulation *)

#[local] Arguments get_chain : simpl never.

(** The buffer stands for the queue. *)
Record stands (b : evbuffer) (q : queue) (e : evenv) : Prop := {
  st_wf : buffer_wf b e;
  st_plain : all_plain b;
  st_bytes : contents b = q_bytes q;
  st_start : freeze_start b = q_start q;
  st_end : freeze_end b = q_end q;
  st_oom : ev_oom e = [] }.

Lemma stands_next b q b' bs e e' :
  stands b q e -> buffer_wf b' e' -> keeps b b' -> goes_on e e' -> all_plain b' -> contents b' = bs ->
  stands b' (Queue bs (q_start q) (q_end q)) e'.
Proof.
  intros [_ _ _ Hs He Ho] Hw [Hks Hke _ _] [_ Hgo] Hp Hc. split; cbn; auto; congruence.
Qed.

Lemma all_plain_usable b : all_plain b -> Forall usable (chains b).
Proof. intros H. eapply Forall_impl; [exact H|]. by intros c [? []]. Qed.

Lemma stands_total b q e : stands b q e -> total_len b = Z.of_nat (length (q_bytes q)).
Proof. intros [Hwf _ Hby _ _ _]. by rewrite (wf_total b e Hwf) Hby. Qed.

(** The operations on a buffer that stands for a queue. *)

Lemma stands_add b bs fs data e (Q : Z * evbuffer -> evenv -> Prop) :
  stands b (Queue bs fs false) e -> Z.of_nat (length bs) + Z.of_nat (length data) < 2 ^ 62 ->
  (∀ b' e', stands b' (Queue (bs ++ data) fs false) e' -> goes_on e e' -> Q (0, b') e') ->
  runs (evbuffer_add b data) e Q.
Proof.
  intros Hst Hfit HQ. pose proof (stands_total _ _ _ Hst) as Ht. pose proof Hst as [Hwf Hpl Hby Hs He Ho].
  cbn in Hby, Hs, He, Ht.
  eapply runs_mono; [apply runs_yields; [apply runs_evbuffer_add; [done|]|apply yields_evbuffer_add; [done|lia]]|].
  { intros _. eapply Forall_impl; [exact Hpl|]. by intros c []. }
  intros [r b'] e' [(Hw & Hk & Hgo & Hres) Hp]. cbn [fst snd] in *. destruct Hres as [[-> Hcon]|(_ & _ & Hwhy)].
  - apply HQ; [|done]. eapply (stands_next b (Queue bs fs false)); try done. by rewrite Hcon Hby.
  - exfalso. rewrite /EV_SIZE_MAX in Hwhy. destruct Hwhy as [?|[?|[?|[?|Hex]]]]; [congruence|lia|done|lia|].
    apply Exists_exists in Hex as (c & Hc & Hl). rewrite /all_plain Forall_forall in Hpl. destruct (Hpl c Hc). lia.
Qed.

Lemma stands_prepend b bs fe data e (Q : Z * evbuffer -> evenv -> Prop) :
  stands b (Queue bs false fe) e -> Z.of_nat (length bs) + Z.of_nat (length data) < 2 ^ 62 ->
  (∀ b' e', stands b' (Queue (data ++ bs) false fe) e' -> goes_on e e' -> Q (0, b') e') ->
  runs (evbuffer_prepend b data) e Q.
Proof.
  intros Hst Hfit HQ. pose proof (stands_total _ _ _ Hst) as Ht. pose proof Hst as [Hwf Hpl Hby Hs He Ho].
  cbn in Hby, Hs, He, Ht.
  eapply runs_mono; [apply runs_yields; [apply runs_evbuffer_prepend; [done|]|apply yields_evbuffer_prepend; [done|lia]]|].
  { intros _. by apply all_plain_usable. }
  intros [r b'] e' [(Hw & Hk & Hgo & Hres) Hp]. cbn [fst snd] in *. destruct Hres as [[-> Hcon]|(_ & Hwhy & _)].
  - apply HQ; [|done]. eapply (stands_next b (Queue bs false fe)); try done. by rewrite Hcon Hby.
  - exfalso. rewrite /EV_SIZE_MAX in Hwhy. destruct Hwhy as [?|[?|[?|?]]]; [congruence|lia|done|lia].
Qed.

Lemma stands_drain b bs fe n e (Q : Z * evbuffer -> evenv -> Prop) :
  stands b (Queue bs false fe) e -> 0 <= n ->
  (∀ b' e', stands b' (Queue (drop (Z.to_nat n) bs) false fe) e' -> goes_on e e' -> Q (0, b') e') ->
  runs (evbuffer_drain b n) e Q.
Proof.
  intros Hst Hn HQ. pose proof Hst as [Hwf Hpl Hby Hs He Ho]. cbn in Hby, Hs, He.
  eapply runs_mono; [apply runs_yields; [by apply runs_evbuffer_drain|by apply yields_evbuffer_drain]|].
  intros [r b'] e' [(Hw & Hk & Hgo & Hres) Hp]. cbn [fst snd] in *. destruct Hres as [[-> Hcon]|(_ & _ & ?)]; [|congruence].
  apply HQ; [|done]. eapply (stands_next b (Queue bs false fe)); try done. by rewrite Hcon Hby.
Qed.

Lemma stands_remove b bs fe n e (Q : Z * list mbyte * evbuffer -> evenv -> Prop) :
  stands b (Queue bs false fe) e -> 0 <= n ->
  (∀ b' e', stands b' (Queue (drop (Z.to_nat n) bs) false fe) e' -> goes_on e e' ->
     Q (s32 (Z.of_nat (length (take (Z.to_nat n) bs))), take (Z.to_nat n) bs, b') e') ->
  runs (evbuffer_remove b n) e Q.
Proof.
  intros Hst Hn HQ. pose proof Hst as [Hwf Hpl Hby Hs He Ho]. cbn in Hby, Hs, He.
  eapply runs_mono; [apply runs_yields; [by apply (runs_evbuffer_remove b n)|by apply yields_evbuffer_remove]|].
  intros [[r d] b'] e' [(Hw & Hk & Hgo & Hres) Hp]. rewrite Hby in Hres.
  destruct Hres as [(-> & Happ & -> & _)|(_ & _ & _ & ? & _)]; [|congruence].
  apply HQ; [|done]. eapply (stands_next b (Queue bs false fe)); try done.
  rewrite -{1}(take_drop (Z.to_nat n) bs) in Happ. by apply app_inv_head in Happ.
Qed.

(** A frozen buffer is not read from, unless nothing is asked for. *)
Lemma remove_frozen b bs fe n e :
  stands b (Queue bs true fe) e -> 0 <= n ->
  evbuffer_remove b n = mret (if bool_decide (take (Z.to_nat n) bs = []) then 0 else -1, [], b).
Proof.
  intros Hst Hn. pose proof (stands_total _ _ _ Hst) as Ht. cbn in Ht. rewrite /evbuffer_remove /evbuffer_copyout.
  rewrite (st_start _ _ _ Hst) /= Ht. destruct (bool_decide_reflect (take (Z.to_nat n) bs = [])) as [H|H].
  - apply (f_equal length) in H. rewrite length_take /= in H.
    destruct (Z.leb_spec (Z.of_nat (length bs)) n); rewrite (proj2 (Z.eqb_eq _ _)) //; lia.
  - assert (H0 : length (take (Z.to_nat n) bs) ≠ O) by (intros ?%nil_length_inv; done). rewrite length_take in H0.
    destruct (Z.leb_spec (Z.of_nat (length bs)) n); rewrite (proj2 (Z.eqb_neq _ _)) //; lia.
Qed.

(** The bytes that can be read behind the pointer of evbuffer_pullup. *)
Definition readable (b : evbuffer) (i : id) (bs : list mbyte) (n : Z) : Prop :=
  ∀ pos m, 0 <= pos -> 0 <= m -> pos + m <= n -> read_at b i pos m = mret (slice bs pos m).

Lemma stands_pullup b q n e (Q : option id * evbuffer -> evenv -> Prop) :
  stands b q e -> 0 < n <= Z.of_nat (length (q_bytes q)) -> Z.of_nat (length (q_bytes q)) < 2 ^ 62 ->
  (∀ i b' e', stands b' q e' -> goes_on e e' -> readable b' i (q_bytes q) n -> Q (Some i, b') e') ->
  runs (evbuffer_pullup b n) e Q.
Proof.
  intros Hst Hn Hlen HQ. pose proof (stands_total _ _ _ Hst) as Ht. pose proof Hst as [Hwf Hpl Hby Hs He Ho].
  assert (Hif : (if n <? 0 then total_len b else n) = n) by (destruct (Z.ltb_spec n 0); lia).
  eapply runs_mono; [apply runs_yields; [apply (runs_evbuffer_pullup b n); [done|]|apply (yields_evbuffer_pullup b n); [done|lia|lia]]|].
  { rewrite Hif /EV_SSIZE_MAX. lia. }
  rewrite Hif. intros [r b'] e' [[[_ (Hw & Hk & Hgo & Hcon & c & post & Hcs & Hr & Hoff)]|(_ & _ & Hwhy)] Hp]; last first.
  { exfalso. destruct Hwhy as [?|[?|[?|?]]]; [lia|lia|done|lia]. }
  cbn [fst snd] in Hr, Hcon, Hcs, Hw, Hk. subst r. assert (Hc : chain_wf c) by by apply (wf_last_chain b' [] c post e').
  apply HQ; [|done|]. { destruct q as [bs fs fe]. eapply (stands_next b (Queue bs fs fe)); try done. by rewrite Hcon Hby. }
  intros pos m Hpos Hm Hfit. rewrite /read_at (get_chain_app [] c post b' Hcs); [|apply Hw].
  pose proof Hc as [? ? ? ? ? _]. rewrite /mbind /E_bind /mret /E_ret /chain_read /in_range !(proj2 (Z.leb_le _ _)); [|lia..].
  cbn [andb]. rewrite -Hby -Hcon /contents Hcs all_bytes_cons. pose proof (bytes_length c Hc).
  assert (Hsl : slice (c_data c) (misalign c + pos) m = slice (bytes c ++ all_bytes post) pos m); [|by rewrite Hsl].
  rewrite /slice drop_app_le; [|lia]. rewrite take_app_le; [|rewrite length_drop; lia].
  rewrite /bytes /slice skipn_firstn_comm take_take drop_drop. rewrite Z2Nat.inj_add; [|lia..]. f_equal. lia.
Qed.

Lemma pullup_none b q n e :
  stands b q e -> n = 0 ∨ Z.of_nat (length (q_bytes q)) < n -> evbuffer_pullup b n = mret (None, b).
Proof.
  intros Hst Hn. pose proof (stands_total _ _ _ Hst) as Ht. rewrite /evbuffer_pullup.
  assert ((n <? 0) = false) as -> by (apply Z.ltb_ge; lia).
  destruct Hn as [->|Hn]; [done|]. rewrite Ht (proj2 (Z.ltb_lt _ _) Hn) orb_true_r //.
Qed.

(** A negative size means everything. *)
Lemma pullup_all b n : n < 0 -> 0 <= total_len b -> evbuffer_pullup b n = evbuffer_pullup b (total_len b).
Proof.
  intros Hn Ht. rewrite /evbuffer_pullup (proj2 (Z.ltb_lt _ _) Hn). by rewrite (proj2 (Z.ltb_ge (total_len b) 0)).
Qed.

(** The answer and the buffer agree with the queue. *)
Definition agrees (q : queue) (op : ev_op) (res : ev_out * evbuffer) (e' : evenv) : Prop :=
  fst res = fst (q_step q op) ∧ stands (snd res) (snd (q_step q op)) e'.

Section steps.
Context (b : evbuffer) (bs : list mbyte) (fs fe : bool) (e : evenv).
Let q : queue := Queue bs fs fe.
Hypothesis Hst : stands b q e.

Lemma step_add data :
  Z.of_nat (length bs) + Z.of_nat (length data) < 2 ^ 62 -> runs (ev_step b (OpAdd data)) e (agrees q (OpAdd data)).
Proof.
  intros Hfit. apply runs_bind. rewrite /agrees /=. destruct fe.
  - rewrite /evbuffer_add (st_end _ _ _ Hst). by apply runs_ret, runs_ret.
  - apply (stands_add b bs fs); [done|done|]. intros b' e' Hst' _. by apply runs_ret.
Qed.

Lemma step_prepend data :
  Z.of_nat (length bs) + Z.of_nat (length data) < 2 ^ 62 ->
  runs (ev_step b (OpPrepend data)) e (agrees q (OpPrepend data)).
Proof.
  intros Hfit. apply runs_bind. rewrite /agrees /=. destruct fs.
  - rewrite /evbuffer_prepend (st_start _ _ _ Hst). by apply runs_ret, runs_ret.
  - apply (stands_prepend b bs fe); [done|done|]. intros b' e' Hst' _. by apply runs_ret.
Qed.

Lemma step_drain n : 0 <= n -> runs (ev_step b (OpDrain n)) e (agrees q (OpDrain n)).
Proof.
  intros Hn. pose proof (stands_total _ _ _ Hst) as Ht. cbn in Ht. apply runs_bind. rewrite /agrees /=.
  destruct (bool_decide_reflect (bs = [])) as [Hnil|Hne].
  { rewrite /evbuffer_drain Ht Hnil. by apply runs_ret, runs_ret. }
  destruct fs.
  - assert (H0 : total_len b ≠ 0) by (destruct bs; [done|cbn in Ht; lia]).
    rewrite /evbuffer_drain (proj2 (Z.eqb_neq _ _) H0) (st_start _ _ _ Hst). by apply runs_ret, runs_ret.
  - apply (stands_drain b bs fe); [done|done|]. intros b' e' Hst' _. by apply runs_ret.
Qed.

Lemma step_remove n : 0 <= n -> runs (ev_step b (OpRemove n)) e (agrees q (OpRemove n)).
Proof.
  intros Hn. apply runs_bind. rewrite /agrees /=. destruct fs.
  - rewrite (remove_frozen b bs fe n e) //. apply runs_ret, runs_ret. by destruct (bool_decide _).
  - apply (stands_remove b bs fe); [done|done|]. intros b' e' Hst' _. apply runs_ret. cbn.
    destruct (bool_decide_reflect (take (Z.to_nat n) bs = [])) as [H|H]; [|done]. rewrite H. split; [done|]. cbn.
    assert (Hd : drop (Z.to_nat n) bs = bs) by by rewrite -{2}(take_drop (Z.to_nat n) bs) H.
    by rewrite Hd in Hst'.
Qed.

Lemma step_pullup n : n < 2 ^ 62 -> Z.of_nat (length bs) < 2 ^ 62 -> runs (ev_step b (OpPullup n)) e (agrees q (OpPullup n)).
Proof.
  intros Hn Hlen. pose proof (stands_total _ _ _ Hst) as Ht. cbn in Ht. apply runs_bind. rewrite /agrees /= -Ht.
  set (m := if n <? 0 then total_len b else n).
  assert (Hp : evbuffer_pullup b n = evbuffer_pullup b m ∧ 0 <= m).
  { rewrite /m. destruct (Z.ltb_spec n 0); [|done]. split; [apply pullup_all; lia|lia]. }
  destruct Hp as [-> Hm]. destruct (_ || _) eqn:Hno.
  - rewrite (pullup_none b q m e Hst); [by apply runs_ret, runs_ret|]. cbn. rewrite -Ht.
    apply orb_prop in Hno as [?%Z.eqb_eq|?%Z.ltb_lt]; auto.
  - apply orb_false_iff in Hno as [?%Z.eqb_neq ?%Z.ltb_ge].
    apply (stands_pullup b q); [done|cbn; lia|done|]. intros i b' e' Hst' _ Hread.
    assert (Ht' : total_len b' = total_len b) by by rewrite (stands_total _ _ _ Hst') (stands_total _ _ _ Hst).
    rewrite Ht' -/m. apply runs_bind. rewrite Hread; [|lia..]. by apply runs_ret, runs_ret.
Qed.

Lemma step_freeze start : runs (ev_step b (OpFreeze start)) e (agrees q (OpFreeze start)).
Proof.
  apply runs_ret. split; [done|]. destruct Hst as [Hwf Hpl Hby Hs He Ho]. cbn in Hby, Hs, He.
  by destruct start; split; cbn; rewrite ?Hs ?He.
Qed.

Lemma step_unfreeze start : runs (ev_step b (OpUnfreeze start)) e (agrees q (OpUnfreeze start)).
Proof.
  apply runs_ret. split; [done|]. destruct Hst as [Hwf Hpl Hby Hs He Ho]. cbn in Hby, Hs, He.
  by destruct start; split; cbn; rewrite ?Hs ?He.
Qed.

End steps.

Lemma ev_step_agrees b q op e :
  stands b q e -> op_ok op -> Z.of_nat (length (q_bytes q)) + op_adds op < 2 ^ 62 -> runs (ev_step b op) e (agrees q op).
Proof.
  destruct q as [bs fs fe]. intros Hst Hok Hfit. cbn in Hfit. destruct op; cbn in Hok, Hfit.
  - by apply step_add.
  - by apply step_prepend.
  - by apply step_drain.
  - by apply step_remove.
  - apply step_pullup; [done|done|lia].
  - by apply step_freeze.
  - by apply step_unfreeze.
  - apply runs_ret. split; [|done]. cbn. f_equal. by apply (stands_total b (Queue bs fs fe) e).
Qed.

Lemma q_step_length q op : Z.of_nat (length (q_bytes (snd (q_step q op)))) <= Z.of_nat (length (q_bytes q)) + op_adds op.
Proof.
  destruct q as [bs fs fe], op as [d|d|n|n|n|[]|[]|]; cbn; repeat case_match; cbn; rewrite ?length_app ?length_drop; lia.
Qed.

Lemma ev_run_agrees ops b q e :
  stands b q e -> Forall op_ok ops -> Z.of_nat (length (q_bytes q)) + adds ops < 2 ^ 62 ->
  runs (ev_run b ops) e (fun res e' => fst res = fst (q_run q ops) ∧ stands (snd res) (snd (q_run q ops)) e').
Proof.
  revert b q e. induction ops as [|op ops IH]; intros b q e Hst Hok Hfit; [by apply runs_ret|].
  apply Forall_cons in Hok as [Hop Hok]. cbn in Hfit. pose proof (q_step_length q op) as Hlen.
  assert (Hadds : 0 <= adds ops). { clear. induction ops as [|op ops]; [done|]. destruct op; cbn; lia. }
  apply runs_bind. eapply runs_mono; [apply (ev_step_agrees b q op e Hst Hop); lia|].
  intros [o b1] e1 [Ho Hst1]. cbn [fst snd q_run] in *. destruct (q_step q op) as [o' q1]. cbn [fst snd] in *.
  apply runs_bind. eapply runs_mono; [apply (IH b1 q1); [done|done|lia]|].
  intros [os b2] e2 [Hos Hst2]. cbn [fst snd] in *. destruct (q_run q1 ops) as [os' q2]. cbn [fst snd] in *.
  apply runs_ret. cbn. by rewrite Ho Hos.
Qed.

Implicit Types (b : evbuffer) (bs data : list mbyte) (e : evenv).

(** [holds b bs e]: the bytes of [b] are [bs]; neither end is frozen and
    memory is available. *)
Class ByteBuffer (holds : evbuffer -> list mbyte -> evenv -> Prop) := {
  bb_frame b bs e e' : holds b bs e -> goes_on e e' -> holds b bs e';
  bb_memory b bs e : holds b bs e -> ev_oom e = [];
  bb_length b bs e : holds b bs e -> evbuffer_get_length b = Z.of_nat (length bs);
  bb_add b bs data e (Q : Z * evbuffer -> evenv -> Prop) :
    holds b bs e -> Z.of_nat (length bs) + Z.of_nat (length data) < 2 ^ 62 ->
    (∀ b' e', holds b' (bs ++ data) e' -> goes_on e e' -> Q (0, b') e') ->
    runs (evbuffer_add b data) e Q;
  bb_drain b bs n e (Q : Z * evbuffer -> evenv -> Prop) :
    holds b bs e -> 0 <= n ->
    (∀ b' e', holds b' (drop (Z.to_nat n) bs) e' -> goes_on e e' -> Q (0, b') e') ->
    runs (evbuffer_drain b n) e Q;
  bb_remove b bs n e (Q : Z * list mbyte * evbuffer -> evenv -> Prop) :
    holds b bs e -> 0 <= n ->
    (∀ r b' e', holds b' (drop (Z.to_nat n) bs) e' -> goes_on e e' -> Q (r, take (Z.to_nat n) bs, b') e') ->
    runs (evbuffer_remove b n) e Q;
  bb_pullup b bs n e (Q : option id * evbuffer -> evenv -> Prop) :
    holds b bs e -> 0 < n <= Z.of_nat (length bs) -> Z.of_nat (length bs) < 2 ^ 62 ->
    (∀ i b' e', holds b' bs e' -> goes_on e e' -> readable b' i bs n -> Q (Some i, b') e') ->
    runs (evbuffer_pullup b n) e Q;
  bb_pullup_none b bs n e : holds b bs e -> n = 0 ∨ Z.of_nat (length bs) < n -> evbuffer_pullup b n = mret (None, b) }.

(** A new buffer is one of them. *)
Class NewBuffer (holds : evbuffer -> list mbyte -> evenv -> Prop) := nb_new e : ev_oom e = [] -> holds empty_evbuffer [] e.

(** ** The implementation *)

Definition open_buffer (b : evbuffer) (bs : list mbyte) (e : evenv) : Prop := stands b (Queue bs false false) e.

#[export] Instance open_buffer_laws : ByteBuffer open_buffer.
Proof.
  split.
  - intros b bs e e' [Hwf Hpl Hby Hs He Ho] Hgo. split; auto; [by eapply wf_later, Hgo|by apply Hgo].
  - by intros b bs e [].
  - intros b bs e Hst. apply (stands_total _ _ _ Hst).
  - intros b bs data e Q. apply stands_add.
  - intros b bs n e Q. apply stands_drain.
  - intros b bs n e Q Hst Hn HQ. apply (stands_remove b bs false); [done|done|]. intros b' e'. apply HQ.
  - intros b bs n e Q Hst. by apply (stands_pullup b (Queue bs false false)).
  - intros b bs n e Hst. by apply (pullup_none b (Queue bs false false) n e).
Qed.

#[export] Instance open_buffer_new : NewBuffer open_buffer.
Proof. intros e Ho. split; cbn; try done; [apply buffer_wf_new|constructor]. Qed.
