(* ===== verification/EvBufXfer.v ===== *)
(** * Event buffers: moving data from one buffer to another

    evbuffer_add_buffer, evbuffer_prepend_buffer and evbuffer_remove_buffer
    move whole chains where they can; as queues of bytes the two buffers
    change as if the bytes had been copied. *)

From Stdlib Require Import ssreflect.
From S2P Require Import Prelude CTypes HProp CMem EvBuffer EvBufSpec EvBufOps EvBufMove EvBufPlain.
Set Warnings "-rewrite-rw".
Open Scope general_if_scope.
Open Scope Z_scope.

Definition ids (b : evbuffer) : list id := c_id <$> chains b.

(** Two buffers have no chain in common. *)
Definition separate (b1 b2 : evbuffer) : Prop := ∀ i, i ∈ ids b1 -> i ∈ ids b2 -> False.

Lemma wf_all_nonempty b e : buffer_wf b e -> total_len b ≠ 0 -> Forall (fun c => off c ≠ 0) (chains b).
Proof.
  intros Hwf Ht. rewrite (wf_total b e Hwf) in Ht. destruct (chains b) as [|c post] eqn:Hcs; [done|].
  rewrite -Hcs. apply (wf_first_data b c post e); [done|done|]. right. intros H0. by rewrite H0 in Ht.
Qed.

(** The chains of one buffer behind those of another. *)
Lemma chains_wf_app cs1 l1 p1 n1 cs2 l2 p2 n2 x e :
  chains_wf cs1 l1 p1 n1 e -> chains_wf cs2 l2 p2 n2 e -> l1 = Some x -> cs2 ≠ [] ->
  (∀ i, i ∈ c_id <$> cs1 -> i ∈ c_id <$> cs2 -> False) ->
  Forall (fun c => off c ≠ 0) cs1 -> Forall (fun c => off c ≠ 0) cs2 -> n1 + n2 <= EV_SIZE_MAX ->
  chains_wf (cs1 ++ cs2) l2 (if decide (p2 = LFirst) then LNext x else p2) (n1 + n2) e.
Proof.
  intros [Hcw1 Hnd1 Hfr1 Hl1 Hp1 _ Ht1 _] [Hcw2 Hnd2 Hfr2 Hl2 Hp2 _ Ht2 _] Hx Hne Hdis Hd1 Hd2 Hmax.
  destruct cs2 as [|z pre _] using rev_ind; [done|]. rewrite removelast_snoc in Hp2. rewrite app_assoc.
  split; rewrite -?app_assoc; [by apply Forall_app| |by apply Forall_app| | |by intros _; apply Forall_app| |done].
  - rewrite fmap_app. apply NoDup_app. split_and!; [done| |done]. intros i H1 H2. by apply (Hdis i).
  - by rewrite Hl2 app_assoc !last_snoc.
  - rewrite app_assoc removelast_snoc Hp2. destruct pre as [|y pre _] using rev_ind.
    + rewrite app_nil_r /link_of. rewrite Hl1 in Hx. by destruct (list.last cs1); cbn in Hx; simplify_eq.
    + rewrite app_assoc !link_of_snoc. by destruct (decide _).
  - rewrite Ht1 Ht2 !all_bytes_app !length_app. lia.
Qed.

(** All chains of [b] come from one of two buffers. *)
Definition of_both (b1 b2 b : evbuffer) : Prop := Forall (fun c => c ∈ chains b1 ++ chains b2) (chains b).

Lemma of_both_left b1 b2 : of_both b1 b2 b1.
Proof. apply Forall_forall. intros c Hc. apply elem_of_app. by left. Qed.

Lemma of_both_right b1 b2 : of_both b1 b2 b2.
Proof. apply Forall_forall. intros c Hc. apply elem_of_app. by right. Qed.

Lemma of_both_plain b1 b2 b : of_both b1 b2 b -> all_plain b1 -> all_plain b2 -> all_plain b.
Proof.
  intros Hb H1 H2. eapply Forall_impl; [exact Hb|]. rewrite /all_plain !Forall_forall in H1 H2. intros c [?|?]%elem_of_app; auto.
Qed.

(** What moving all bytes of [inbuf] comes to, [joined] being what [outbuf] has
    to hold afterwards. *)
Definition moved_all (outbuf inbuf : evbuffer) (joined : list mbyte) (frozen : bool) (e : evenv)
    (res : Z * evbuffer * evbuffer) (e' : evenv) : Prop :=
  let '(r, outbuf', inbuf') := res in
  buffer_wf outbuf' e' ∧ buffer_wf inbuf' e' ∧ keeps outbuf outbuf' ∧ keeps inbuf inbuf' ∧ goes_on e e'
  ∧ separate outbuf' inbuf' ∧ of_both outbuf inbuf outbuf' ∧ of_both outbuf inbuf inbuf'
  ∧ (r = 0 ∧ contents outbuf' = joined ∧ contents inbuf' = []
     ∨ r = -1 ∧ outbuf' = outbuf ∧ inbuf' = inbuf ∧ frozen = true).

Lemma preserve_pinned b e : buffer_wf b e -> PRESERVE_PINNED b = mret (0, None, b).
Proof. intros Hwf. rewrite /PRESERVE_PINNED (has_pinned_r b e Hwf). done. Qed.

Lemma counted_ids b b' : counted b b' -> ids b' = ids b.
Proof. by intros (a & d & q & ->). Qed.

Lemma runs_count_moved outbuf inbuf out1 joined frozen n e e1 :
  buffer_wf out1 e1 -> keeps outbuf out1 -> contents out1 = joined -> goes_on e e1 -> of_both outbuf inbuf out1 ->
  runs (count_moved out1 (ZERO_CHAIN inbuf) n) e1 (moved_all outbuf inbuf joined frozen e).
Proof.
  intros Hw Hk Hcon Hgo Hof. apply runs_bind, runs_invoke. intros i2 e2 Hc2 Hle2 Hoom2.
  apply runs_bind, runs_invoke. intros o3 e3 Hc3 Hle3 Hoom3. apply runs_ret.
  assert (Hi : ids i2 = []) by by rewrite (counted_ids _ _ Hc2). split_and!.
  - eapply wf_later; [|etrans; [exact Hle2|exact Hle3]]. by eapply counted_wf.
  - eapply counted_wf; [exact Hc2|apply (chains_wf_nil e3)].
  - etrans; [exact Hk|]. by destruct (counted_keeps _ _ Hc3); split.
  - by destruct (counted_keeps _ _ Hc2); split.
  - etrans; [exact Hgo|]. apply goes_on_same; [by etrans|congruence].
  - intros i _. rewrite Hi. by intros ?%not_elem_of_nil.
  - by destruct Hc3 as (? & ? & ? & ->).
  - by destruct Hc2 as (? & ? & ? & ->); constructor.
  - left. split_and!; [done|by rewrite (counted_contents _ _ Hc3)|by rewrite (counted_contents _ _ Hc2)].
Qed.

Lemma nothing_moved outbuf inbuf joined frozen r e :
  buffer_wf outbuf e -> buffer_wf inbuf e -> separate outbuf inbuf ->
  r = 0 ∧ contents outbuf = joined ∧ contents inbuf = [] ∨ r = -1 ∧ frozen = true ->
  moved_all outbuf inbuf joined frozen e (r, outbuf, inbuf) e.
Proof.
  intros ? ? ? [(? & ? & ?)|[? ?]]; split_and!; auto; try done; apply of_both_left || apply of_both_right.
Qed.

Lemma wf_zero_total b e : buffer_wf b e -> total_len b = 0 -> contents b = [].
Proof. intros Hwf H0. rewrite (wf_total b e Hwf) in H0. apply nil_length_inv. lia. Qed.

(** An empty buffer takes the chains over as they are. *)
Lemma runs_copy_chain outbuf inbuf joined frozen e :
  buffer_wf inbuf e -> contents inbuf = joined ->
  runs (outbuf' ← (_ ← evbuffer_free_all_chains (chains outbuf); mret (COPY_CHAIN outbuf inbuf));
        count_moved outbuf' (ZERO_CHAIN inbuf) (total_len inbuf)) e (moved_all outbuf inbuf joined frozen e).
Proof.
  intros Hwf Hcon. apply runs_bind, runs_bind, (runs_silent _ tt); [apply silent_free_all|]. intros e1 Hle Hoom.
  apply runs_ret. apply runs_count_moved; [|done|done|by apply goes_on_same|exact (of_both_right outbuf inbuf)].
  rewrite /COPY_CHAIN /buffer_wf /=. destruct (decide _) as [<-|_]; by eapply wf_later.
Qed.

Lemma wf_has_last b e : buffer_wf b e -> total_len b ≠ 0 -> ∃ pre c, chains b = pre ++ [c] ∧ last b = Some (c_id c).
Proof.
  intros Hwf Ht. destruct (wf_snoc b e Hwf) as [Hcs|?]; [|done].
  by rewrite (wf_total b e Hwf) /contents Hcs in Ht.
Qed.

Lemma runs_evbuffer_add_buffer outbuf inbuf e :
  buffer_wf outbuf e -> buffer_wf inbuf e -> separate outbuf inbuf -> total_len outbuf + total_len inbuf <= EV_SIZE_MAX ->
  runs (evbuffer_add_buffer outbuf inbuf) e
    (moved_all outbuf inbuf (contents outbuf ++ contents inbuf) (freeze_end outbuf || freeze_start inbuf) e).
Proof.
  intros Hwo Hwi Hsep Hmax. rewrite /evbuffer_add_buffer.
  destruct (Z.eqb_spec (total_len inbuf) 0) as [H0|H0].
  { apply runs_ret, nothing_moved; [done..|]. left. by rewrite (wf_zero_total inbuf e) // app_nil_r. }
  destruct (_ || _) eqn:Hfr; [apply runs_ret, nothing_moved; auto|].
  rewrite (preserve_pinned inbuf e) //. apply runs_bind, runs_ret. cbn [RESTORE_PINNED].
  rewrite (proj2 (Z.ltb_ge 0 0)); [|done]. destruct (Z.eqb_spec (total_len outbuf) 0) as [Ho|Ho].
  { apply runs_copy_chain; [done|]. by rewrite (wf_zero_total outbuf e). }
  destruct (wf_has_last outbuf e Hwo Ho) as (pre & c & Hcs & Hl).
  destruct (wf_has_last inbuf e Hwi H0) as (pre' & c' & Hcs' & _).
  rewrite /APPEND_CHAIN Hl. apply runs_bind, runs_bind. rewrite -(link_of_snoc pre c).
  rewrite (store_link_of (pre ++ [c]) []); [|by rewrite app_nil_r|apply Hwo]. apply runs_ret, runs_ret.
  pose proof (wf_total _ _ Hwo). pose proof (wf_total _ _ Hwi).
  apply runs_count_moved; [|done|by rewrite /contents /= -Hcs all_bytes_app|done|by rewrite /of_both /= -Hcs; apply Forall_forall].
  rewrite /buffer_wf /= u64_small; [|lia]. rewrite link_of_snoc -Hcs.
  apply (chains_wf_app _ (last outbuf) (last_with_datap outbuf)); try done.
  - by rewrite Hcs'; destruct pre'.
  - by apply (wf_all_nonempty _ e).
  - by apply (wf_all_nonempty _ e).
Qed.

Lemma runs_evbuffer_prepend_buffer outbuf inbuf e :
  buffer_wf outbuf e -> buffer_wf inbuf e -> separate outbuf inbuf -> total_len outbuf + total_len inbuf <= EV_SIZE_MAX ->
  runs (evbuffer_prepend_buffer outbuf inbuf) e
    (moved_all outbuf inbuf (contents inbuf ++ contents outbuf) (freeze_start outbuf || freeze_start inbuf) e).
Proof.
  intros Hwo Hwi Hsep Hmax. rewrite /evbuffer_prepend_buffer.
  destruct (Z.eqb_spec (total_len inbuf) 0) as [H0|H0].
  { apply runs_ret, nothing_moved; [done..|]. left. by rewrite (wf_zero_total inbuf e). }
  destruct (_ || _) eqn:Hfr; [apply runs_ret, nothing_moved; auto|].
  rewrite (preserve_pinned inbuf e) //. apply runs_bind, runs_ret. cbn [RESTORE_PINNED].
  rewrite (proj2 (Z.ltb_ge 0 0)); [|done]. destruct (Z.eqb_spec (total_len outbuf) 0) as [Ho|Ho].
  { apply runs_copy_chain; [done|]. by rewrite (wf_zero_total outbuf e) // app_nil_r. }
  destruct (wf_has_last outbuf e Hwo Ho) as (pre & c & Hcs & Hl).
  destruct (wf_has_last inbuf e Hwi H0) as (pre' & c' & Hcs' & Hl').
  pose proof (chains_wf_app (chains inbuf) (last inbuf) (last_with_datap inbuf) (total_len inbuf) (chains outbuf)
    (last outbuf) (last_with_datap outbuf) (total_len outbuf) (c_id c') e) as Hj.
  assert (Hw : chains_wf (chains inbuf ++ chains outbuf) (last outbuf)
    (if decide (last_with_datap outbuf = LFirst) then LNext (c_id c') else last_with_datap outbuf)
    (total_len inbuf + total_len outbuf) e).
  { apply Hj; [done|done|done|by rewrite Hcs; destruct pre| |by apply (wf_all_nonempty _ e)..|lia].
    intros i Hi Ho'. by apply (Hsep i). }
  pose proof (wf_total _ _ Hwo). pose proof (wf_total _ _ Hwi). pose proof (bw_ids _ _ _ _ _ Hwi) as Hndi.
  rewrite /PREPEND_CHAIN Hl'. rewrite Hcs' in Hndi |- *. rewrite cut_after_app //. apply runs_bind.
  assert (Hderef : ∃ y t, deref (pre' ++ c' :: chains outbuf) (last_with_datap outbuf) = mret (y :: t)).
  { pose proof (bw_datap _ _ _ _ _ Hwo) as Hp. rewrite Hcs removelast_snoc in Hp. rewrite Hp.
    destruct pre as [|y pre _] using rev_ind; [by destruct pre'; eauto|].
    pose proof (bw_ids _ _ _ _ _ Hw) as Hnd. rewrite Hcs Hcs' -app_assoc /= in Hnd.
    rewrite Hcs link_of_snoc -(link_of_snoc (pre' ++ c' :: pre) y). exists c, [].
    replace (pre' ++ c' :: (pre ++ [y]) ++ [c]) with (((pre' ++ c' :: pre) ++ [y]) ++ [c]) in Hnd |- *
      by by rewrite -!app_assoc. by apply deref_link_of. }
  destruct Hderef as (y & t & Hderef). apply runs_bind. cbn [last_with_datap set_total set_chains]. rewrite Hderef.
  apply runs_ret, runs_ret. rewrite Hcs' -app_assoc /= in Hw.
  apply runs_count_moved; [|by destruct (decide _)| |done|].
  - rewrite /buffer_wf. rewrite Z.add_comm in Hw. destruct (decide _); cbn; rewrite u64_small //; lia.
  - rewrite /contents Hcs'. replace (all_bytes (pre' ++ [c']) ++ all_bytes (chains outbuf))
      with (all_bytes (pre' ++ c' :: chains outbuf)); [by destruct (decide _)|].
    by rewrite -all_bytes_app -app_assoc.
  - assert (Forall (fun c => c ∈ chains outbuf ++ chains inbuf) (pre' ++ c' :: chains outbuf)) as Hof; [|by destruct (decide _)].
    rewrite Hcs'. apply Forall_forall. intros x Hx. rewrite elem_of_app elem_of_cons in Hx. rewrite !elem_of_app list_elem_of_singleton. tauto.
Qed.

(** ** Moving some of the bytes *)

(** The chains that move as they are. *)
Lemma runs_remove_loop src cs moved nread datlen e
    (Q : link * list evbuffer_chain * list evbuffer_chain * Z * Z -> evenv -> Prop) :
  chains src = moved ++ cs -> NoDup (ids src) -> Forall chain_wf cs -> 0 <= datlen < Z.of_nat (length (all_bytes cs)) ->
  (∀ gone c rest k, cs = gone ++ c :: rest -> k = Z.of_nat (length (all_bytes gone)) -> 0 <= datlen - k < off c ->
     Q (link_of (removelast (c :: rest)), moved ++ gone, c :: rest, nread + k, datlen - k) e) ->
  runs (remove_loop src (link_of (removelast cs)) cs moved nread datlen) e Q.
Proof.
  revert moved nread datlen. induction cs as [|c cs IH]; intros moved nread datlen Hcs Hnd Hcw Hd HQ; [cbn in Hd; lia|].
  apply Forall_cons in Hcw as [Hc Hcw]. pose proof (bytes_length c Hc) as Hl.
  rewrite all_bytes_cons length_app in Hd. cbn [remove_loop].
  destruct (Z.leb_spec (off c) datlen) as [Hle|Hgt]; last first.
  { apply runs_ret. specialize (HQ [] c cs 0 eq_refl eq_refl). rewrite Z.sub_0_r Z.add_0_r app_nil_r in HQ. apply HQ. lia. }
  destruct cs as [|z q _] using rev_ind; [cbn in Hd; lia|].
  rewrite (app_comm_cons q [z] c) removelast_snoc. rewrite removelast_snoc in IH.
  rewrite /ids Hcs in Hnd. pose proof Hnd as Hnd'. rewrite fmap_app in Hnd'. apply NoDup_app in Hnd' as (_ & _ & Hnd').
  destruct (link_of_uncons c q z) as (_ & Hz & Hp & _); [by rewrite app_comm_cons in Hnd'|].
  assert (Hlink : link_of (c :: q) = link_of (moved ++ c :: q)).
  { destruct q as [|w q _] using rev_ind; [by rewrite link_of_snoc|].
    rewrite !app_comm_cons app_assoc !link_of_snoc //. }
  apply runs_bind. rewrite {1}Hlink Hcs app_comm_cons app_assoc deref_link_of; last first.
  { by rewrite -app_assoc. }
  apply runs_ret, runs_bind, runs_assert.
  { apply negb_true_iff, bool_decide_false. by intros [= ?]. }
  cbn zeta. rewrite Hp. apply IH; [by rewrite Hcs -app_assoc|by rewrite /ids Hcs|done|lia|].
  intros gone y rest k Heq Hk Hy. specialize (HQ (c :: gone) y rest (off c + k)).
  rewrite all_bytes_cons length_app in HQ. rewrite -app_assoc /= -Z.add_assoc -Z.sub_add_distr.
  apply HQ; [by rewrite Heq|lia|lia].
Qed.

(** The chains of the receiving buffer that have data. *)
Lemma runs_free_trailing b e (Q : link * evbuffer -> evenv -> Prop) :
  buffer_wf b e ->
  (∀ b' e', keeps b b' -> later e e' -> ev_oom e' = ev_oom e -> contents b' = contents b ->
     Forall (fun c => off c ≠ 0) (chains b') -> Forall (fun c => c ∈ chains b) (chains b') ->
     chains b' = [] ∧ last_with_datap b' = LFirst ∧ total_len b' = 0 ∨ b' = b ->
     Q (link_of (chains b'), b') e') ->
  runs (evbuffer_free_trailing_empty_chains b) e Q.
Proof.
  intros Hwf HQ. rewrite /evbuffer_free_trailing_empty_chains (bw_datap _ _ _ _ _ Hwf).
  pose proof (wf_total b e Hwf) as Ht.
  destruct (wf_snoc b e Hwf) as [Hcs|(pre & c & Hcs & _)].
  - rewrite Hcs /=. apply runs_bind, runs_ret, runs_ret. specialize (HQ b e). rewrite Hcs in HQ.
    apply HQ; try done. by right.
  - pose proof (bw_ids _ _ _ _ _ Hwf) as Hnd. rewrite Hcs in Hnd. pose proof (wf_last_chain b pre c [] e Hwf Hcs) as Hc.
    rewrite Hcs removelast_snoc. apply runs_bind. rewrite deref_link_of //. apply runs_ret. cbn [find_victim].
    rewrite (cw_pinned c Hc) orb_false_r. destruct (Z.eqb_spec (off c) 0) as [H0|H0]; cbn [negb].
    + pose proof Hwf as Hwf'. rewrite /buffer_wf Hcs in Hwf'. pose proof (wf_only_empty _ _ _ _ _ _ Hwf' H0) as ->.
      apply runs_bind, runs_assert; [by rewrite /= H0|]. apply runs_bind, (runs_silent _ tt); [apply silent_free_all|].
      intros e1 Hle Hoom. apply runs_bind, runs_ret, runs_ret.
      assert (Hcon : contents b = []). { rewrite /contents Hcs all_bytes_one. by apply bytes_empty. }
      apply (HQ (set_chains [] b)); try done. left. cbn. split_and!; [done| |by rewrite Ht Hcon].
      by rewrite (bw_datap _ _ _ _ _ Hwf) Hcs.
    + apply runs_ret. specialize (HQ b e). rewrite Hcs link_of_snoc in HQ. apply HQ; try done.
      * rewrite /buffer_wf Hcs in Hwf. by apply (wf_all_data _ _ _ _ _ _ Hwf).
      * by apply Forall_forall.
      * by right.
Qed.

Lemma advance_from_all pre c cs :
  Forall (fun c => off c ≠ 0) cs -> advance_from (link_of pre) c cs = link_of (pre ++ removelast (c :: cs)).
Proof.
  intros Hall. revert pre c. induction Hall as [|d cs Hd _ IH]; intros pre c; [by rewrite app_nil_r|].
  cbn [advance_from]. rewrite (proj2 (Z.eqb_neq _ _) Hd) /= -(link_of_snoc pre c) IH -app_assoc. done.
Qed.

Lemma chains_wf_prefix gone c rest l p n e :
  chains_wf (gone ++ c :: rest) l p n e ->
  chains_wf gone (c_id <$> list.last gone) (link_of (removelast gone)) (Z.of_nat (length (all_bytes gone))) e.
Proof.
  intros [Hcw Hnd Hfr _ _ Hd Ht Hb]. apply Forall_app in Hcw as [Hcw _]. apply Forall_app in Hfr as [Hfr _].
  rewrite fmap_app in Hnd. apply NoDup_app in Hnd as (Hnd & _ & _). split; try done.
  - intros Hlen. rewrite length_app /= in Hd. specialize (Hd ltac:(lia)). by apply Forall_app in Hd as [? _].
  - rewrite all_bytes_app length_app in Ht. lia.
Qed.

Lemma runs_attach dst gone e (Q : evbuffer -> evenv -> Prop) :
  buffer_wf dst e -> gone ≠ [] ->
  chains_wf gone (c_id <$> list.last gone) (link_of (removelast gone)) (Z.of_nat (length (all_bytes gone))) e ->
  Forall (fun c => off c ≠ 0) gone -> (∀ i, i ∈ ids dst -> i ∈ c_id <$> gone -> False) ->
  total_len dst + Z.of_nat (length (all_bytes gone)) <= EV_SIZE_MAX ->
  (∀ b' e', buffer_wf b' e' -> keeps dst b' -> later e e' -> ev_oom e' = ev_oom e ->
     contents b' = contents dst ++ all_bytes gone -> Forall (fun c => c ∈ chains dst ++ gone) (chains b') -> Q b' e') ->
  runs (attach_chains dst gone (Z.of_nat (length (all_bytes gone)))) e Q.
Proof.
  intros Hwf Hne Hgone Hall Hdis Hmax HQ. rewrite /attach_chains. apply runs_bind, runs_free_trailing; [done|].
  intros b1 e1 Hk Hle Hoom Hcon Hall1 Hsub Hcase. pose proof (wf_total dst e Hwf) as Ht.
  destruct (chains b1) as [|z pre _] eqn:Hcs using rev_ind.
  - assert (H0 : last_with_datap b1 = LFirst ∧ total_len b1 = 0).
    { destruct Hcase as [(_ & ? & ?)|Heq]; [done|]. subst b1. split; [by rewrite (bw_datap _ _ _ _ _ Hwf) Hcs|].
      by rewrite Ht /contents Hcs. }
    destruct H0 as [Hp H0]. apply runs_bind, runs_ret. destruct gone as [|g gone]; [done|].
    apply Forall_cons in Hall as [_ Hall]. rewrite /advance_last_with_data. cbn [last_with_datap set_last set_chains].
    rewrite Hp. apply runs_bind, runs_bind, runs_ret, runs_ret, runs_ret.
    assert (Hcon0 : contents dst = []) by by rewrite -Hcon /contents Hcs.
    apply HQ; [|by destruct Hk; split|done|done|by rewrite Hcon0 /contents|].
    + rewrite /buffer_wf /= H0 Z.add_0_l u64_small; [|rewrite Ht Hcon0 in Hmax; cbn in Hmax |- *; lia].
      rewrite (advance_from_all []) //. by eapply chains_wf_later.
    + apply Forall_forall. intros x Hx. apply elem_of_app. by right.
  - destruct Hcase as [(Habs & _)|Heq]; [by destruct pre|]. subst b1.
    pose proof (bw_ids _ _ _ _ _ Hwf) as Hnd.
    assert (Hmid : ∀ (A : Type) (f g : A), match pre ++ [z] with [] => f | _ => g end = g) by by destruct pre.
    rewrite Hmid (store_link_of (pre ++ [z]) []); [|by rewrite app_nil_r|done]. apply runs_bind, runs_ret.
    rewrite /advance_last_with_data. cbn [last_with_datap set_last set_chains chains].
    assert (Hj : chains_wf (chains dst ++ gone) (c_id <$> list.last gone)
      (if decide (link_of (removelast gone) = LFirst) then LNext (c_id z) else link_of (removelast gone))
      (total_len dst + Z.of_nat (length (all_bytes gone))) e1).
    { eapply chains_wf_later; [|exact Hle]. apply (chains_wf_app _ (last dst) (last_with_datap dst)); try done.
      - by rewrite (bw_last _ _ _ _ _ Hwf) Hcs last_snoc.
      - by rewrite Hcs. }
    pose proof (bw_datap _ _ _ _ _ Hj) as Hp. rewrite Hp Hcs -app_assoc removelast_app in Hj; [|done].
    rewrite (bw_datap _ _ _ _ _ Hwf) Hcs removelast_snoc -app_assoc.
    apply runs_bind, runs_bind. rewrite deref_link_of; last first.
    { pose proof (bw_ids _ _ _ _ _ Hj) as Hnd'. done. }
    apply runs_ret, runs_ret, runs_ret. rewrite advance_from_all //. apply HQ; [|done|done|done| |].
    + rewrite /buffer_wf /= u64_small; [exact Hj|lia].
    + by rewrite /contents /= Hcs -all_bytes_app -app_assoc.
    + apply Forall_forall. intros x Hx. cbn in Hx. by rewrite Hcs -app_assoc.
Qed.

(** What moving the first [datlen] bytes of [src] comes to. *)
Definition moved_some (src dst : evbuffer) (datlen : Z) (e : evenv) (res : Z * evbuffer * evbuffer) (e' : evenv) : Prop :=
  let '(r, src', dst') := res in
  buffer_wf src' e' ∧ buffer_wf dst' e' ∧ keeps src src' ∧ keeps dst dst' ∧ goes_on e e'
  ∧ separate dst' src' ∧ all_plain src' ∧ all_plain dst'
  ∧ (r = s32 (Z.min datlen (total_len src))
     ∧ contents dst' = contents dst ++ take (Z.to_nat datlen) (contents src)
     ∧ contents src' = drop (Z.to_nat datlen) (contents src)
     ∨ r = -1 ∧ src' = src ∧ dst' = dst ∧ freeze_end dst || freeze_start src = true).

Lemma runs_add_plain P b data e (Q : Z * evbuffer -> evenv -> Prop) :
  buffer_wf b e -> all_plain b -> ev_oom e = [] -> freeze_end b = false ->
  total_len b + Z.of_nat (length data) <= EV_SIZE_MAX -> Z.of_nat (length data) < 2 ^ 62 -> fresh P e -> all_mine P b ->
  (∀ b' e', buffer_wf b' e' -> keeps b b' -> goes_on e e' -> contents b' = contents b ++ data -> all_plain b' -> all_mine P b' -> Q (0, b') e') ->
  runs (evbuffer_add b data) e Q.
Proof.
  intros Hwf Hplain Hoom Hfr Hmax Hlen Hfresh Hmine HQ. eapply runs_stays; [by apply stays_add|done|].
  eapply runs_mono; [apply runs_yields; [apply runs_evbuffer_add; [done|]|by apply yields_evbuffer_add]|].
  { intros _. eapply Forall_impl; [exact Hplain|]. by intros c [? _]. }
  intros [r b'] e' [(Hw & Hk & Hgo & Hres) Hp'] Hm'. cbn in *. destruct Hres as [[-> Hcon]|(_ & _ & Hwhy)]; [by apply HQ|].
  exfalso. destruct Hwhy as [Hf|[Hb|[Ho|[Hl|Hex]]]]; [congruence|lia|done|lia|].
  apply Exists_exists in Hex as (c & Hc & Hl'). rewrite /all_plain Forall_forall in Hplain. destruct (Hplain c Hc). lia.
Qed.

Lemma runs_remove_rest src src1 dst dst1 gone c rest k datlen e e1 :
  buffer_wf src e -> chains src = gone ++ c :: rest -> keeps src src1 -> chains src1 = c :: rest ->
  last src1 = last src -> last_with_datap src1 = link_of (removelast (c :: rest)) -> total_len src1 = total_len src ->
  k = Z.of_nat (length (all_bytes gone)) -> 0 <= datlen - k < off c -> datlen ≠ 0 -> goes_on e e1 ->
  buffer_wf dst1 e1 -> keeps dst dst1 -> contents dst1 = contents dst ++ all_bytes gone -> all_plain dst1 -> all_plain src ->
  all_mine (fun i => i ∉ c_id <$> c :: rest) dst1 ->
  ev_oom e1 = [] -> freeze_end dst = false -> total_len dst1 + (datlen - k) <= EV_SIZE_MAX -> datlen < 2 ^ 62 ->
  runs (remove_rest src1 dst1 (c :: rest) k (datlen - k)) e1 (moved_some src dst datlen e).
Proof.
  intros Hwf Hcs Hk1 Hcs1 Hl1 Hp1 Ht1 Hk Hd Hd0 Hgo Hwd Hkd Hcon Hplain Hps Hmine Hoom Hfr Hmax Hbig.
  pose proof (wf_last_chain _ _ _ _ _ Hwf Hcs) as Hc. pose proof (bytes_length c Hc) as Hlc. pose proof Hc as [? ? ? ? ? _].
  destruct (shrink_wf (datlen - k) c) as [Hsw _]; [done|lia|].
  destruct (shrink_drop (datlen - k) c) as [Hst Hsd]; [done|lia|].
  rewrite /remove_rest. apply runs_bind, runs_chain_read; [lia..|]. rewrite Hst.
  assert (Hlen : Z.of_nat (length (take (Z.to_nat (datlen - k)) (bytes c))) = datlen - k) by (rewrite length_take; lia).
  apply runs_bind, (runs_add_plain (fun i => i ∉ c_id <$> c :: rest)); try done; [by rewrite (k_end _ _ Hkd)|lia|lia| |].
  { intros i Hi Hin. pose proof (bw_fresh _ _ _ _ _ Hwf) as Hf. rewrite Hcs Forall_app in Hf. destruct Hf as [_ Hf]. rewrite Forall_forall in Hf.
    apply list_elem_of_fmap in Hin as (x & -> & Hx). specialize (Hf x Hx). cbn in Hf. destruct Hgo as [Hl _]. rewrite /later in Hl. lia. }
  intros d2 e2 Hw2 Hk2 Hgo2 Hcon2 Hpl2 Hm2. cbn zeta. rewrite Zplus_minus. rewrite (proj2 (Z.eqb_neq _ _)) //. cbn [negb].
  apply runs_bind, runs_invoke. intros d3 e3 Hc3 Hle3 Hoom3. apply runs_bind, runs_invoke.
  intros s4 e4 Hc4 Hle4 Hoom4. apply runs_ret.
  assert (Hnd1 : NoDup (c_id <$> chains src1)).
  { pose proof (bw_ids _ _ _ _ _ Hwf) as Hnd. rewrite Hcs fmap_app in Hnd. rewrite Hcs1. by apply NoDup_app in Hnd as (_ & _ & ?). }
  rewrite (put_chain_app [] c _ rest) // in Hc4. fold (shrink (datlen - k) c) in Hc4. cbn [app] in Hc4.
  assert (Hcons : all_bytes (shrink (datlen - k) c :: rest) = drop (Z.to_nat datlen) (contents src)).
  { rewrite /contents Hcs all_bytes_app !all_bytes_cons Hsd drop_app_ge; [|lia].
    rewrite drop_app_le; [do 2 f_equal; lia|lia]. }
  pose proof (wf_total src e Hwf) as Ht. rewrite {1}/contents Hcs all_bytes_app all_bytes_cons !length_app in Ht.
  split_and!.
  - eapply counted_wf; [exact Hc4|]. rewrite /buffer_wf /= Hl1 Hp1 Ht1.
    replace (total_len src - datlen) with (Z.of_nat (length (all_bytes (shrink (datlen - k) c :: rest)))); last first.
    { rewrite Hcons length_drop. pose proof (wf_total src e Hwf). lia. }
    rewrite (link_of_ids _ (removelast (shrink (datlen - k) c :: rest))); [|by rewrite -!removelast_fmap].
    rewrite /buffer_wf Hcs in Hwf. eapply chains_wf_later.
    + eapply (chains_wf_tail gone c); [exact Hwf|done|done|cbn; lia|cbn; lia].
    + etrans; [apply Hgo|]. etrans; [apply Hgo2|]. by etrans.
  - eapply wf_later; [|exact Hle4]. eapply wf_later; [|exact Hle3]. by eapply counted_wf.
  - etrans; [exact Hk1|]. by destruct (counted_keeps _ _ Hc4); split.
  - etrans; [exact Hkd|]. etrans; [exact Hk2|]. by apply counted_keeps.
  - etrans; [exact Hgo|]. etrans; [exact Hgo2|]. apply goes_on_same; [by etrans|congruence].
  - intros i Hi Hj. rewrite (counted_ids _ _ Hc3) in Hi. rewrite (counted_ids _ _ Hc4) in Hj.
    apply list_elem_of_fmap in Hi as (x & -> & Hx). rewrite /all_mine Forall_forall in Hm2. by apply (Hm2 x Hx).
  - destruct Hc4 as (? & ? & ? & ->). rewrite /all_plain Hcs Forall_app in Hps. destruct Hps as [_ [Hpc Hpr]%Forall_cons]. by constructor.
  - by destruct Hc3 as (? & ? & ? & ->).
  - left. split_and!; [f_equal; lia| |].
    + rewrite (counted_contents _ _ Hc3) Hcon2 Hcon -app_assoc. f_equal. rewrite /contents Hcs all_bytes_app all_bytes_cons.
      rewrite take_app_ge; [|lia]. f_equal. rewrite take_app_le; [f_equal; lia|lia].
    + by rewrite (counted_contents _ _ Hc4) -Hcons.
Qed.

Lemma runs_evbuffer_remove_buffer src dst datlen e :
  buffer_wf src e -> buffer_wf dst e -> separate dst src -> total_len dst + total_len src <= EV_SIZE_MAX ->
  0 <= datlen < 2 ^ 62 -> ev_oom e = [] -> all_plain src -> all_plain dst ->
  runs (evbuffer_remove_buffer src dst datlen) e (moved_some src dst datlen e).
Proof.
  intros Hws Hwd Hsep Hmax Hd Hoom Hps Hpd. rewrite /evbuffer_remove_buffer.
  pose proof (wf_total src e Hws) as Hts. pose proof (wf_total dst e Hwd) as Htd.
  destruct (Z.eqb_spec datlen 0) as [->|H0].
  { apply runs_ret. split_and!; try done. left. rewrite Z.min_l; [|lia]. by rewrite app_nil_r. }
  destruct (_ || _) eqn:Hfr; [apply runs_ret; split_and!; auto; done|].
  destruct (Z.leb_spec (total_len src) datlen) as [Hall|Hpart].
  { apply runs_bind. eapply runs_mono; [by apply runs_evbuffer_add_buffer|]. rewrite Hfr.
    intros [[r dst'] src'] e' (Hw1 & Hw2 & Hk1 & Hk2 & Hgo & Hsp & Ho1 & Ho2 & Hres). apply runs_ret.
    split_and!; try done; [by eapply of_both_plain|by eapply of_both_plain|]. left.
    destruct Hres as [(_ & Hc1 & Hc2)|(_ & _ & _ & ?)]; [|done].
    rewrite Z.min_r // take_ge ?drop_ge //; lia. }
  apply orb_false_iff in Hfr as [Hfe _]. pose proof (bw_ids _ _ _ _ _ Hws) as Hnd.
  apply runs_bind. rewrite (bw_datap _ _ _ _ _ Hws).
  apply runs_remove_loop; [done|done|apply Hws|rewrite -/(contents src); lia|].
  intros gone c rest k Hcs Hk Hdk. cbn [app]. rewrite Z.add_0_l. pose proof (wf_last_chain _ _ _ _ _ Hws Hcs) as Hc.
  assert (Hle : k + (datlen - k) <= total_len src) by lia. cbn zeta.
  pose proof Hws as Hws'. rewrite /buffer_wf Hcs in Hws'. apply chains_wf_prefix in Hws'.
  assert (Hap : ∀ d, Forall (fun x => x ∈ chains dst ++ gone) (chains d) -> all_mine (fun i => i ∉ c_id <$> c :: rest) d ∧ all_plain d).
  { intros d Hsub. pose proof Hps as Hpg. rewrite /all_plain Hcs in Hpg. apply Forall_app in Hpg as [Hpg _]. rewrite Forall_forall in Hpg. pose proof Hpd as Hpd'. rewrite /all_plain Forall_forall in Hpd'.
    split; (eapply Forall_impl; [exact Hsub|]); intros x [Hx|Hx]%elem_of_app; [| |by apply Hpd'|by apply Hpg].
    - intros Hin. apply (Hsep (c_id x)); [by apply list_elem_of_fmap_2|]. rewrite /ids Hcs fmap_app. apply elem_of_app. by right.
    - intros Hin. rewrite /ids Hcs fmap_app in Hnd. apply NoDup_app in Hnd as (_ & Hnd & _). by apply (Hnd (c_id x)); [apply list_elem_of_fmap_2|]. }
  destruct (decide (gone = [])) as [->|Hne].
  - subst k. change (Z.of_nat (length (all_bytes []))) with 0 in *. apply runs_bind, runs_ret.
    apply (runs_remove_rest src _ dst dst [] c rest 0 datlen e e); try done; try lia; [by rewrite app_nil_r|].
    apply Hap, Forall_forall. intros x Hx. apply elem_of_app. by left.
  - assert (Hdata : Forall (fun c => off c ≠ 0) gone).
    { pose proof (wf_all_nonempty src e Hws) as Hall. rewrite Hcs Forall_app in Hall. apply Hall. lia. }
    assert (Hk0 : k ≠ 0).
    { destruct gone as [|g gone]; [done|]. apply Forall_cons in Hdata as [Hg _]. pose proof (bw_chains _ _ _ _ _ Hws') as Hcw.
      apply Forall_cons in Hcw as [Hgw _]. rewrite all_bytes_cons length_app in Hk. pose proof (bytes_length g Hgw). lia. }
    rewrite (proj2 (Z.eqb_neq _ _)) //. cbn [negb]. apply runs_bind, runs_bind. rewrite {1}Hk.
    apply runs_attach; [done|done|done|done| |lia|].
    { intros i Hi Hg. apply (Hsep i Hi). rewrite /ids Hcs fmap_app. apply elem_of_app. by left. }
    intros d1 e1 Hw1 Hk1 Hle1 Hoom1 Hcon1 Hsub. apply runs_ret.
    eapply (runs_remove_rest src _ dst d1 gone c rest k); try done; try lia.
    + by apply goes_on_same.
    + by apply Hap.
    + by apply Hap.
    + by rewrite Hoom1.
    + rewrite (wf_total _ _ Hw1) Hcon1 length_app. lia.
Qed.
