(* ===== verification/EvBufCorrect.v ===== *)
(** * Event buffers: what the library promises

    The theorems on buffer.c: sequences of operations on one buffer refine a
    queue, additions are all or nothing, data move between buffers unchanged;
    and the case in which an assertion fails. *)

From Stdlib Require Import ssreflect.
From S2P Require Import Prelude CTypes HProp CMem EvBuffer EvBufSpec EvBufOps EvBufMove EvBufPlain EvBufXfer EvBufQueue.
Set Warnings "-rewrite-rw".
Open Scope general_if_scope.
Open Scope Z_scope.

Definition some_bytes (n : nat) (x : Z) : list mbyte := replicate n (Some x).

(** A buffer of one full chain. *)
Definition one_chain (i : id) (ds : list mbyte) : evbuffer :=
  let n := Z.of_nat (length ds) in
  Evbuffer [Chain i n 0 n 0 ds] (Some i) LFirst n 0 0 false false false false [].

Lemma one_chain_wf i ds e :
  (i < next_id e)%positive -> Z.of_nat (length ds) <= EVBUFFER_CHAIN_MAX -> buffer_wf (one_chain i ds) e.
Proof.
  intros Hi Hl. apply (chains_wf_one (Chain i _ 0 _ 0 ds)); cbn; [|done|done|].
  - split; cbn; lia || done.
  - rewrite /EVBUFFER_CHAIN_MAX /EV_SSIZE_MAX in Hl. rewrite /EV_SIZE_MAX. lia.
Qed.

(** C32: a new event buffer is a queue of bytes.  Every sequence of additions
    at either end, drains, removals, pullups, freezes and length queries runs
    without a failed assertion or a bad memory access, gives the answers that
    the queue gives, and leaves the bytes that the queue holds, as long as
    memory is available and less than 2^62 bytes go in. *)
Theorem evbuffer_refines_queue (ops : list ev_op) (e : evenv) :
  Forall op_ok ops -> adds ops < 2 ^ 62 -> ev_oom e = [] ->
  ∃ b' e', ev_run empty_evbuffer ops e = inr (fst (q_run (Queue [] false false) ops), b', e')
    ∧ buffer_wf b' e' ∧ contents b' = q_bytes (snd (q_run (Queue [] false false) ops)).
Proof.
  intros Hok Hfit Ho. destruct (runs_run _ _ _ (ev_run_agrees ops empty_evbuffer (Queue [] false false) e
    ltac:(split; cbn; try done; [apply buffer_wf_new|constructor]) Hok Hfit)) as ([os b'] & e' & He & Hos & Hst).
  exists b', e'. cbn in Hos, Hst. destruct Hst. by rewrite He Hos.
Qed.

Lemma evbuffer_refines_queue_witness :
  let ops := [OpAdd (some_bytes 1000 1); OpPrepend (some_bytes 3 2); OpAdd (some_bytes 20 3); OpDrain 2;
              OpPullup 1010; OpRemove 5; OpFreeze true; OpDrain 1; OpLength] in
  (Forall op_ok ops ∧ adds ops < 2 ^ 62)
  ∧ ∃ b' e', ev_run empty_evbuffer ops (EvEnv 1 [] []) = inr (fst (q_run (Queue [] false false) ops), b', e')
      ∧ buffer_wf b' e' ∧ contents b' = q_bytes (snd (q_run (Queue [] false false) ops)).
Proof.
  cbv zeta. assert (Hok : Forall op_ok [OpAdd (some_bytes 1000 1); OpPrepend (some_bytes 3 2); OpAdd (some_bytes 20 3);
    OpDrain 2; OpPullup 1010; OpRemove 5; OpFreeze true; OpDrain 1; OpLength]) by (repeat constructor; cbn; lia).
  split; [split; [exact Hok|reflexivity]|].
  apply (evbuffer_refines_queue _ (EvEnv 1 [] []) Hok); reflexivity.
Defined.

(** C33: evbuffer_add either returns 0 and has appended all of the data, or
    returns -1 and has left the bytes of the buffer alone; the latter only when
    the end is frozen, the total length would overflow, the allocator fails or a
    chain would get too large.  This holds for every outcome of the allocator. *)
Theorem evbuffer_add_all_or_nothing (b : evbuffer) (data : list mbyte) (e : evenv) :
  buffer_wf b e -> data ≠ [] ->
  ∃ r b' e', evbuffer_add b data e = inr (r, b', e') ∧ buffer_wf b' e'
    ∧ (r = 0 ∧ contents b' = contents b ++ data
       ∨ r = -1 ∧ contents b' = contents b
         ∧ (freeze_end b = true ∨ EV_SIZE_MAX < total_len b + Z.of_nat (length data)
            ∨ can_fail b e (Z.of_nat (length data)))).
Proof.
  intros Hwf Hne. destruct (runs_run _ _ _ (runs_evbuffer_add b data e Hwf ltac:(done)))
    as ([r b'] & e' & He & Hw & _ & _ & Hres). by exists r, b', e'.
Qed.

Lemma evbuffer_add_all_or_nothing_witness :
  ∃ r b' e', evbuffer_add (one_chain 1 (some_bytes 4 7)) (some_bytes 9 8) (EvEnv 2 [false] []) = inr (r, b', e')
    ∧ buffer_wf b' e'
    ∧ (r = 0 ∧ contents b' = contents (one_chain 1 (some_bytes 4 7)) ++ some_bytes 9 8
       ∨ r = -1 ∧ contents b' = contents (one_chain 1 (some_bytes 4 7))
         ∧ (freeze_end (one_chain 1 (some_bytes 4 7)) = true
            ∨ EV_SIZE_MAX < total_len (one_chain 1 (some_bytes 4 7)) + Z.of_nat (length (some_bytes 9 8))
            ∨ can_fail (one_chain 1 (some_bytes 4 7)) (EvEnv 2 [false] []) (Z.of_nat (length (some_bytes 9 8))))).
Proof.
  apply (evbuffer_add_all_or_nothing (one_chain 1 (some_bytes 4 7)) (some_bytes 9 8) (EvEnv 2 [false] [])); [|done].
  apply one_chain_wf; [reflexivity|done].
Defined.

(** C34: evbuffer_add_buffer and evbuffer_prepend_buffer move all bytes of one
    buffer to the end or the front of the other and leave the first one empty, for
    two different well-formed buffers of which no end in question is frozen. *)
Theorem evbuffer_move_all (outbuf inbuf : evbuffer) (e : evenv) :
  buffer_wf outbuf e -> buffer_wf inbuf e -> separate outbuf inbuf ->
  total_len outbuf + total_len inbuf <= EV_SIZE_MAX ->
  freeze_start inbuf = false -> freeze_end outbuf = false -> freeze_start outbuf = false ->
  (∃ o' i' e', evbuffer_add_buffer outbuf inbuf e = inr (0, o', i', e') ∧ buffer_wf o' e' ∧ buffer_wf i' e'
     ∧ contents o' = contents outbuf ++ contents inbuf ∧ contents i' = [])
  ∧ (∃ o' i' e', evbuffer_prepend_buffer outbuf inbuf e = inr (0, o', i', e') ∧ buffer_wf o' e' ∧ buffer_wf i' e'
     ∧ contents o' = contents inbuf ++ contents outbuf ∧ contents i' = []).
Proof.
  intros Hwo Hwi Hsep Hmax Hf1 Hf2 Hf3. split.
  - destruct (runs_run _ _ _ (runs_evbuffer_add_buffer outbuf inbuf e Hwo Hwi Hsep Hmax)) as ([[r o'] i'] & e' & He & Hres).
    rewrite Hf1 Hf2 in Hres. destruct Hres as (? & ? & _ & _ & _ & _ & _ & _ & [(-> & ? & ?)|(_ & _ & _ & ?)]); [|done].
    by exists o', i', e'.
  - destruct (runs_run _ _ _ (runs_evbuffer_prepend_buffer outbuf inbuf e Hwo Hwi Hsep Hmax)) as ([[r o'] i'] & e' & He & Hres).
    rewrite Hf1 Hf3 in Hres. destruct Hres as (? & ? & _ & _ & _ & _ & _ & _ & [(-> & ? & ?)|(_ & _ & _ & ?)]); [|done].
    by exists o', i', e'.
Qed.

Lemma evbuffer_move_all_witness :
  let o := one_chain 1 (some_bytes 4 7) in
  let i := one_chain 2 (some_bytes 5 8) in
  let e := EvEnv 3 [] [] in
  (∃ o' i' e', evbuffer_add_buffer o i e = inr (0, o', i', e') ∧ buffer_wf o' e' ∧ buffer_wf i' e'
     ∧ contents o' = contents o ++ contents i ∧ contents i' = [])
  ∧ (∃ o' i' e', evbuffer_prepend_buffer o i e = inr (0, o', i', e') ∧ buffer_wf o' e' ∧ buffer_wf i' e'
     ∧ contents o' = contents i ++ contents o ∧ contents i' = []).
Proof.
  apply (evbuffer_move_all (one_chain 1 (some_bytes 4 7)) (one_chain 2 (some_bytes 5 8)) (EvEnv 3 [] [])); try done.
  - apply one_chain_wf; [reflexivity|done].
  - apply one_chain_wf; [reflexivity|done].
  - intros i Hi%list_elem_of_singleton Hj%list_elem_of_singleton. cbn in Hi, Hj. congruence.
Defined.

(** C35: evbuffer_remove_buffer moves the first bytes of one buffer to the end of
    the other: exactly as many as were asked for, or all if there are fewer, in
    order, and nothing else changes.  The two buffers are different and well-formed
    (no buffer in which evbuffer_expand has left an empty chain behind the data:
    there its assertion can fail), their chains can be written and are of ordinary
    size, the ends in question are not frozen, and the allocator gives memory
    (without memory bytes are lost). *)
Theorem evbuffer_remove_buffer_moves (src dst : evbuffer) (datlen : Z) (e : evenv) :
  buffer_wf src e -> buffer_wf dst e -> separate dst src -> total_len dst + total_len src <= EV_SIZE_MAX ->
  0 <= datlen < 2 ^ 62 -> ev_oom e = [] -> all_plain src -> all_plain dst ->
  freeze_start src = false -> freeze_end dst = false ->
  ∃ src' dst' e', evbuffer_remove_buffer src dst datlen e = inr (s32 (Z.min datlen (total_len src)), src', dst', e')
    ∧ buffer_wf src' e' ∧ buffer_wf dst' e'
    ∧ contents dst' = contents dst ++ take (Z.to_nat datlen) (contents src)
    ∧ contents src' = drop (Z.to_nat datlen) (contents src).
Proof.
  intros Hws Hwd Hsep Hmax Hd Ho Hps Hpd Hf1 Hf2.
  destruct (runs_run _ _ _ (runs_evbuffer_remove_buffer src dst datlen e Hws Hwd Hsep Hmax Hd Ho Hps Hpd))
    as ([[r s'] d'] & e' & He & Hres).
  rewrite /moved_some Hf1 Hf2 in Hres. destruct Hres as (? & ? & _ & _ & _ & _ & _ & _ & [(-> & ? & ?)|(_ & _ & _ & ?)]); [|done].
  by exists s', d', e'.
Qed.

Lemma evbuffer_remove_buffer_moves_witness :
  let s := one_chain 1 (some_bytes 4 7) in
  let d := one_chain 2 (some_bytes 5 8) in
  let e := EvEnv 3 [] [] in
  ∃ s' d' e', evbuffer_remove_buffer s d 3 e = inr (s32 (Z.min 3 (total_len s)), s', d', e')
    ∧ buffer_wf s' e' ∧ buffer_wf d' e'
    ∧ contents d' = contents d ++ take (Z.to_nat 3) (contents s) ∧ contents s' = drop (Z.to_nat 3) (contents s).
Proof.
  apply (evbuffer_remove_buffer_moves (one_chain 1 (some_bytes 4 7)) (one_chain 2 (some_bytes 5 8)) 3 (EvEnv 3 [] []));
    try done; try (by repeat constructor).
  - apply one_chain_wf; [reflexivity|done].
  - apply one_chain_wf; [reflexivity|done].
  - intros i Hi%list_elem_of_singleton Hj%list_elem_of_singleton. cbn in Hi, Hj. congruence.
Defined.

(** The steps that lead to the failed assertion. *)
Definition expand_add_remove (n1 room n2 moved : nat) : E unit :=
  '(_, b) ← evbuffer_add empty_evbuffer (some_bytes n1 1);
  '(_, b) ← evbuffer_expand b (Z.of_nat room);
  '(_, b) ← evbuffer_add b (some_bytes n2 2);
  '(_, _, _) ← evbuffer_remove_buffer b empty_evbuffer (Z.of_nat moved);
  mret tt.

(** Data that are added after evbuffer_expand go into the empty chain at
    the end, and [last_with_datap] still leads to the chain before it; moving
    more bytes than that chain has to another buffer then fails the assertion
    in evbuffer_remove_buffer. *)
Theorem evbuffer_expand_then_remove_asserts :
  expand_add_remove 900 2000 10 905 (EvEnv 1 [] []) = inl AssertFailed.
Proof. vm_compute. reflexivity. Qed.
