(* ===== verification/EvTime.v ===== *)
(** * libevent: times

    [struct timeval] and the macros of event2/util.h on it.  Seconds are
    numbers without a bound: times are assumed to stay within 64 bits. *)

From Stdlib Require Import ssreflect.
From S2P Require Import Prelude.
Set Warnings "-rewrite-rw".
Open Scope general_if_scope.
Open Scope Z_scope.

Record timeval := Timeval { tv_sec : Z; tv_usec : Z }.

#[export] Instance timeval_eq_dec : EqDecision timeval.
Proof. solve_decision. Defined.

Definition evutil_timeradd (t u : timeval) : timeval :=
  let sec := tv_sec t + tv_sec u in
  let usec := tv_usec t + tv_usec u in
  if 1000000 <=? usec then Timeval (sec + 1) (usec - 1000000) else Timeval sec usec.

Definition evutil_timersub (t u : timeval) : timeval :=
  let sec := tv_sec t - tv_sec u in
  let usec := tv_usec t - tv_usec u in
  if usec <? 0 then Timeval (sec - 1) (usec + 1000000) else Timeval sec usec.

Definition timer_zero : timeval := Timeval 0 0.

Definition evutil_timerisset (t : timeval) : bool := negb (tv_sec t =? 0) || negb (tv_usec t =? 0).

(** [cmp] is one of the comparisons of C. *)
Definition evutil_timercmp (t u : timeval) (cmp : Z -> Z -> bool) : bool :=
  if tv_sec t =? tv_sec u then cmp (tv_usec t) (tv_usec u) else cmp (tv_sec t) (tv_sec u).

(** ** The order of times *)

Definition tv_le (t u : timeval) : Prop :=
  tv_sec t < tv_sec u ∨ tv_sec t = tv_sec u ∧ tv_usec t <= tv_usec u.

(** A time in microseconds, and a normal form. *)
Definition usecs (t : timeval) : Z := tv_sec t * 1000000 + tv_usec t.
Definition normal (t : timeval) : Prop := 0 <= tv_usec t < 1000000.

Lemma tv_le_refl t : tv_le t t.
Proof. right. lia. Qed.

Lemma tv_le_trans t u v : tv_le t u -> tv_le u v -> tv_le t v.
Proof. rewrite /tv_le. lia. Qed.

Lemma tv_le_total t u : tv_le t u ∨ tv_le u t.
Proof. rewrite /tv_le. lia. Qed.

#[export] Instance tv_le_preorder : PreOrder tv_le.
Proof. split; [exact tv_le_refl|exact tv_le_trans]. Qed.

Lemma timercmp_gt t u : evutil_timercmp t u Z.gtb = true <-> ~ tv_le t u.
Proof.
  rewrite /evutil_timercmp /tv_le. destruct (Z.eqb_spec (tv_sec t) (tv_sec u)); rewrite Z.gtb_ltb Z.ltb_lt; lia.
Qed.

Lemma timercmp_gt_false t u : evutil_timercmp t u Z.gtb = false <-> tv_le t u.
Proof. rewrite -not_true_iff_false timercmp_gt /tv_le. lia. Qed.

Lemma timercmp_le t u : evutil_timercmp t u Z.leb = true <-> tv_le t u.
Proof. rewrite /evutil_timercmp /tv_le. destruct (Z.eqb_spec (tv_sec t) (tv_sec u)); rewrite Z.leb_le; lia. Qed.

Lemma tv_le_usecs t u : normal t -> normal u -> (tv_le t u <-> usecs t <= usecs u).
Proof. rewrite /normal /usecs /tv_le. lia. Qed.

Lemma timeradd_usecs t u :
  normal t -> normal u -> normal (evutil_timeradd t u) ∧ usecs (evutil_timeradd t u) = usecs t + usecs u.
Proof.
  rewrite /normal /usecs /evutil_timeradd. intros. destruct (Z.leb_spec 1000000 (tv_usec t + tv_usec u)); cbn; lia.
Qed.

Lemma timersub_usecs t u :
  normal t -> normal u -> normal (evutil_timersub t u) ∧ usecs (evutil_timersub t u) = usecs t - usecs u.
Proof.
  rewrite /normal /usecs /evutil_timersub. intros. destruct (Z.ltb_spec (tv_usec t - tv_usec u) 0); cbn; lia.
Qed.
