(* ===== verification/EvTag.v ===== *)
(** * libevent/event_tagging.c: tagged data in event buffers

    Records of a tag, a length and data are written to the end of an event
    buffer and read from its front.  A function that stores through pointers
    returns what it stores next to its result; [None] stands for nothing
    stored.  Octets are integers from 0 to 255.  The shift of an [int] in
    decode_tag_internal is taken modulo 2^32 as long as the distance is less
    than 32; a larger distance is undefined and ends the run. *)

From S2P Require Import Prelude CTypes HProp CMem EvTime EvBuffer.
Open Scope Z_scope.

Definition INT_MAX : Z := 2 ^ 31 - 1.

Definition evtag_init : unit := tt.

Definition octet_at (b : evbuffer) (i : id) (pos : Z) : E Z :=
  d ← read_at b i pos 1;
  match d with
  | [Some z] => mret (u8 z)
  | _ => e_fail Indeterminate
  end.

(** ** Encoding *)

(** The loop of ENCODE_INT_INTERNAL; one turn for each nibble of the number. *)
Fixpoint encode_loop (fuel : nat) (data : list Z) (number off : Z) : list Z * Z :=
  match fuel with
  | O => (data, off)
  | S fuel =>
      if number =? 0 then (data, off)
      else
        let i := Z.to_nat (off / 2) in
        let x := nth i data 0 in
        let x' :=
          if negb (Z.land off 1 =? 0) then Z.lor (Z.land x 0xf0) (Z.land number 0x0f)
          else Z.lor (Z.land x 0x0f) (Z.shiftl (Z.land number 0x0f) 4) in
        encode_loop fuel (<[i := x']> data) (Z.shiftr number 4) (off + 1)
  end.

(** The array for a number of [size] bytes, and how much of it is used. *)
Definition ENCODE_INT_INTERNAL (size : nat) (number : Z) : list Z * Z :=
  let '(data, off) := encode_loop (2 * size) (replicate (size + 1) 0) number 1 in
  let nibbles := if 2 <? off then off - 2 else 0 in
  let data := <[O := Z.lor (Z.land (nth O data 0) 0x0f) (Z.shiftl (Z.land nibbles 0x0f) 4)]> data in
  (data, (off + 1) / 2).

Definition encode_int_internal (number : Z) : list Z * Z := ENCODE_INT_INTERNAL 4 number.
Definition encode_int64_internal (number : Z) : list Z * Z := ENCODE_INT_INTERNAL 8 number.

(** The used part of such an array as memory. *)
Definition used (r : list Z * Z) : list mbyte := Some <$> take (Z.to_nat (snd r)) (fst r).

Definition evtag_encode_int (b : evbuffer) (number : Z) : E evbuffer :=
  '(_, b) ← evbuffer_add b (used (encode_int_internal number));
  mret b.

Definition evtag_encode_int64 (b : evbuffer) (number : Z) : E evbuffer :=
  '(_, b) ← evbuffer_add b (used (encode_int64_internal number));
  mret b.

(** The octets of a tag; five are enough for 32 bits. *)
Fixpoint tag_loop (fuel : nat) (tag : Z) : list Z :=
  match fuel with
  | O => []
  | S fuel =>
      let lower := Z.land tag 0x7f in
      let tag := Z.shiftr tag 7 in
      if negb (tag =? 0) then Z.lor lower 0x80 :: tag_loop fuel tag else [lower]
  end.

(** The number of bytes; without a buffer nothing is added. *)
Definition evtag_encode_tag (b : option evbuffer) (tag : Z) : E (Z * option evbuffer) :=
  let data := tag_loop 5 tag in
  let bytes := Z.of_nat (length data) in
  match b with
  | Some b => '(_, b) ← evbuffer_add b (Some <$> data); mret (bytes, Some b)
  | None => mret (bytes, None)
  end.

(** The calls on an actual buffer. *)
Definition encode_tag_to (b : evbuffer) (tag : Z) : E evbuffer :=
  '(_, b') ← evtag_encode_tag (Some b) tag;
  mret (default b b').

Definition evtag_marshal (b : evbuffer) (tag : Z) (data : list mbyte) : E evbuffer :=
  b ← encode_tag_to b tag;
  b ← evtag_encode_int b (u32 (Z.of_nat (length data)));
  '(_, b) ← evbuffer_add b data;
  mret b.

(** On two different buffers. *)
Definition evtag_marshal_buffer (b : evbuffer) (tag : Z) (data : evbuffer) : E (evbuffer * evbuffer) :=
  b ← encode_tag_to b tag;
  b ← evtag_encode_int b (u32 (evbuffer_get_length data));
  '(_, b, data) ← evbuffer_add_buffer b data;
  mret (b, data).

Definition evtag_marshal_int (b : evbuffer) (tag integer : Z) : E evbuffer :=
  let '(data, len) := encode_int_internal integer in
  b ← encode_tag_to b tag;
  b ← evtag_encode_int b len;
  '(_, b) ← evbuffer_add b (used (data, len));
  mret b.

Definition evtag_marshal_int64 (b : evbuffer) (tag integer : Z) : E evbuffer :=
  let '(data, len) := encode_int64_internal integer in
  b ← encode_tag_to b tag;
  b ← evtag_encode_int b len;
  '(_, b) ← evbuffer_add b (used (data, len));
  mret b.

(** [string] is the text without its terminator. *)
Definition evtag_marshal_string (b : evbuffer) (tag : Z) (string : list Z) : E evbuffer :=
  evtag_marshal b tag (Some <$> string).

Definition evtag_marshal_timeval (b : evbuffer) (tag : Z) (tv : timeval) : E evbuffer :=
  evtag_marshal b tag
    (used (encode_int_internal (u32 (tv_sec tv))) ++ used (encode_int_internal (u32 (tv_usec tv)))).

(** ** Decoding *)

(** The loop of decode_tag_internal: the number and how many octets it took.
    The sixth turn shifts by 35. *)
Fixpoint decode_tag_loop (fuel : nat) (b : evbuffer) (i : id) (len count shift number : Z) : E (option (Z * Z)) :=
  match fuel with
  | O => e_fail IntOverflow
  | S fuel =>
      if count <? len then
        lower ← octet_at b i count;
        if 32 <=? shift then e_fail IntOverflow
        else
          let number := Z.lor number (u32 (Z.shiftl (Z.land lower 0x7f) shift)) in
          if Z.land lower 0x80 =? 0 then mret (Some (number, count + 1))
          else decode_tag_loop fuel b i len (count + 1) (shift + 7) number
      else mret None
  end.

Definition decode_tag_internal (b : evbuffer) (dodrain : bool) : E (Z * option Z * evbuffer) :=
  let len := evbuffer_get_length b in
  '(data, b) ← evbuffer_pullup b (if len <? 5 then len else 5);
  match data with
  | None => mret (-1, None, b)
  | Some i =>
      r ← decode_tag_loop 6 b i len 0 0 0;
      match r with
      | None => mret (-1, None, b)
      | Some (number, count) =>
          b ← (if dodrain then '(_, b) ← evbuffer_drain b count; mret b else mret b);
          mret (if INT_MAX <? count then INT_MAX else count, Some number, b)
      end
  end.

Definition evtag_decode_tag (b : evbuffer) : E (Z * option Z * evbuffer) := decode_tag_internal b true.

(** The nibbles from the last to the first; [w] is the width of the number. *)
Fixpoint decode_nibbles (w : Z) (b : evbuffer) (i : id) (offset : Z) (nibbles : nat) (number : Z) : E Z :=
  match nibbles with
  | O => mret number
  | S n' =>
      let k := Z.of_nat nibbles in
      x ← octet_at b i (offset + Z.shiftr k 1);
      let number := Z.shiftl number 4 mod 2 ^ w in
      decode_nibbles w b i offset n'
        (if negb (Z.land k 1 =? 0) then Z.lor number (Z.land x 0x0f)
         else Z.lor number (Z.shiftr (Z.land x 0xf0) 4))
  end.

(** [evbuffer_pullup(evbuf, n) + offset]: the test for NULL only works when
    the offset is 0. *)
Definition pullup_at (b : evbuffer) (n offset : Z) : E (option id * evbuffer) :=
  '(p, b) ← evbuffer_pullup b n;
  match p with
  | None => if offset =? 0 then mret (None, b) else e_fail WildPtr
  | Some i => mret (Some i, b)
  end.

Definition DECODE_INT_INTERNAL (w maxnibbles : Z) (b : evbuffer) (offset : Z) : E (Z * option Z * evbuffer) :=
  let len := evbuffer_get_length b - offset in
  if len <=? 0 then mret (-1, None, b)
  else
    '(p, b) ← pullup_at b (offset + 1) offset;
    match p with
    | None => mret (-1, None, b)
    | Some i =>
        x ← octet_at b i offset;
        let nibbles := Z.shiftr (Z.land x 0xf0) 4 + 1 in
        if (maxnibbles <? nibbles) || (len <? Z.shiftr nibbles 1 + 1) then mret (-1, None, b)
        else
          let len := Z.shiftr nibbles 1 + 1 in
          '(p, b) ← pullup_at b (offset + len) offset;
          match p with
          | None => mret (-1, None, b)
          | Some i =>
              number ← decode_nibbles w b i offset (Z.to_nat nibbles) 0;
              mret (len, Some number, b)
          end
    end.

Definition decode_int_internal (b : evbuffer) (offset : Z) : E (Z * option Z * evbuffer) :=
  DECODE_INT_INTERNAL 32 8 b offset.
Definition decode_int64_internal (b : evbuffer) (offset : Z) : E (Z * option Z * evbuffer) :=
  DECODE_INT_INTERNAL 64 16 b offset.

(** [evbuffer_drain(evbuf, len)] with an [int]. *)
Definition drain_int (b : evbuffer) (len : Z) : E evbuffer :=
  '(_, b) ← evbuffer_drain b (u64 len);
  mret b.

Definition evtag_decode_int (b : evbuffer) : E (Z * option Z * evbuffer) :=
  '(res, number, b) ← decode_int_internal b 0;
  b ← (if negb (res =? -1) then drain_int b res else mret b);
  mret (if res =? -1 then -1 else 0, number, b).

Definition evtag_decode_int64 (b : evbuffer) : E (Z * option Z * evbuffer) :=
  '(res, number, b) ← decode_int64_internal b 0;
  b ← (if negb (res =? -1) then drain_int b res else mret b);
  mret (if res =? -1 then -1 else 0, number, b).

Definition evtag_peek (b : evbuffer) : E (Z * option Z * evbuffer) := decode_tag_internal b false.

(** What decode_int_internal stores stays in [plength] when it is added to. *)
Definition evtag_peek_length (b : evbuffer) : E (Z * option Z * evbuffer) :=
  '(len, _, b) ← decode_tag_internal b false;
  if len =? -1 then mret (-1, None, b)
  else
    '(res, plength, b) ← decode_int_internal b len;
    if res =? -1 then mret (-1, plength, b)
    else mret (0, (fun l => u32 (l + (res + len))) <$> plength, b).

Definition evtag_payload_length (b : evbuffer) : E (Z * option Z * evbuffer) :=
  '(len, _, b) ← decode_tag_internal b false;
  if len =? -1 then mret (-1, None, b)
  else
    '(res, plength, b) ← decode_int_internal b len;
    if res =? -1 then mret (-1, plength, b) else mret (0, plength, b).

(** The value of a local variable that has been stored to. *)
Definition stored (x : option Z) : E Z :=
  match x with Some z => mret z | None => e_fail Indeterminate end.

Definition evtag_unmarshal_header (b : evbuffer) : E (Z * option Z * evbuffer) :=
  '(r, tag, b) ← decode_tag_internal b true;
  if r =? -1 then mret (-1, tag, b)
  else
    '(r, len, b) ← evtag_decode_int b;
    if r =? -1 then mret (-1, tag, b)
    else
      len ← stored len;
      if evbuffer_get_length b <? len then mret (-1, tag, b) else mret (s32 len, tag, b).

Definition evtag_consume (b : evbuffer) : E (Z * evbuffer) :=
  '(len, _, b) ← evtag_unmarshal_header b;
  if len =? -1 then mret (-1, b)
  else b ← drain_int b len; mret (0, b).

(** On two different buffers.  A negative length is a size of at least 2^63
    for evbuffer_add, which refuses it before it reads the data. *)
Definition evtag_unmarshal (src dst : evbuffer) : E (Z * option Z * evbuffer * evbuffer) :=
  '(len, tag, src) ← evtag_unmarshal_header src;
  if len =? -1 then mret (-1, tag, src, dst)
  else
    '(p, src) ← evbuffer_pullup src len;
    if len <? 0 then mret (-1, tag, src, dst)
    else
      data ← match p with
             | Some i => read_at src i 0 len
             | None => if len =? 0 then mret [] else e_fail NullDeref
             end;
      '(r, dst) ← evbuffer_add dst data;
      if r =? -1 then mret (-1, tag, src, dst)
      else src ← drain_int src len; mret (len, tag, src, dst).

(** The common body of evtag_unmarshal_int and evtag_unmarshal_int64. *)
Definition unmarshal_number (decode : evbuffer -> Z -> E (Z * option Z * evbuffer)) (b : evbuffer) (need_tag : Z) :
    E (Z * option Z * evbuffer) :=
  '(r, tag, b) ← decode_tag_internal b true;
  if r =? -1 then mret (-1, None, b)
  else
    tag ← stored tag;
    if negb (need_tag =? tag) then mret (-1, None, b)
    else
      '(r, len, b) ← evtag_decode_int b;
      if r =? -1 then mret (-1, None, b)
      else
        len ← stored len;
        if evbuffer_get_length b <? len then mret (-1, None, b)
        else
          '(result, pinteger, b) ← decode b 0;
          '(_, b) ← evbuffer_drain b len;
          mret (if (result <? 0) || (len <? result) then -1 else result, pinteger, b).

Definition evtag_unmarshal_int : evbuffer -> Z -> E (Z * option Z * evbuffer) := unmarshal_number decode_int_internal.
Definition evtag_unmarshal_int64 : evbuffer -> Z -> E (Z * option Z * evbuffer) := unmarshal_number decode_int64_internal.

(** The bytes stored in [data]. *)
Definition evtag_unmarshal_fixed (b : evbuffer) (need_tag len : Z) : E (Z * option (list mbyte) * evbuffer) :=
  '(tag_len, tag, b) ← evtag_unmarshal_header b;
  if tag_len <? 0 then mret (-1, None, b)
  else
    tag ← stored tag;
    if negb (tag =? need_tag) then mret (-1, None, b)
    else if negb (tag_len =? len) then mret (-1, None, b)
    else '(_, d, b) ← evbuffer_remove b len; mret (0, Some d, b).

(** The string with its terminator.  A negative length asks for almost 2^64
    bytes, which no allocator has. *)
Definition evtag_unmarshal_string (b : evbuffer) (need_tag : Z) : E (Z * option (list mbyte) * evbuffer) :=
  '(tag_len, tag, b) ← evtag_unmarshal_header b;
  if tag_len =? -1 then mret (-1, None, b)
  else
    tag ← stored tag;
    if negb (tag =? need_tag) then mret (-1, None, b)
    else
      p ← (if tag_len <? 0 then mret None else mm_malloc);
      match p with
      | None => mret (-1, None, b)
      | Some _ =>
          '(_, d, b) ← evbuffer_remove b tag_len;
          mret (0, Some (d ++ replicate (Z.to_nat tag_len - length d) None ++ [Some 0]), b)
      end.

(** The seconds and microseconds that are stored. *)
Definition evtag_unmarshal_timeval (b : evbuffer) (need_tag : Z) : E (Z * option Z * option Z * evbuffer) :=
  '(len, tag, b) ← evtag_unmarshal_header b;
  if len =? -1 then mret (-1, None, None, b)
  else
    tag ← stored tag;
    '(result, sec, usec, b) ←
      (if negb (tag =? need_tag) then mret (-1, None, None, b)
       else
         '(offset, integer, b) ← decode_int_internal b 0;
         if offset =? -1 then mret (-1, None, None, b)
         else
           let sec := integer in
           '(offset2, integer, b) ← decode_int_internal b offset;
           if offset2 =? -1 then mret (-1, sec, None, b)
           else if len <? offset + offset2 then mret (-1, sec, integer, b)
           else mret (0, sec, integer, b));
    b ← drain_int b len;
    mret (result, sec, usec, b).
