(* ===== verification/EvTagSpec.v ===== *)
(** * The wire format of event_tagging.c

    Numbers as nibbles and tags as groups of seven bits: what the encoders
    write, and that the decoders read it back. *)

From Stdlib Require Import ssreflect.
From S2P Require Import Prelude CTypes HProp CMem EvBuffer EvBufSpec EvBufQueue EvTag.
Set Warnings "-rewrite-rw".
Open Scope general_if_scope.
Open Scope Z_scope.

Definition octet (x : Z) : Prop := 0 <= x < 256.

(** ** Nibbles *)

(** What holds for all octets and nibbles can be tried out. *)
Lemma octet_cases (P : Z -> Z -> bool) :
  forallb (fun x => forallb (P x) (seqZ 0 16)) (seqZ 0 256) = true ->
  ∀ x v, octet x -> 0 <= v < 16 -> P x v = true.
Proof.
  intros H x v Hx Hv. rewrite forallb_forall in H. specialize (H x). rewrite forallb_forall in H.
  apply H; apply list_elem_of_In, elem_of_seqZ; rewrite /octet in Hx; lia.
Qed.

Definition low_put (x v : Z) : Z := Z.lor (Z.land x 0xf0) v.
Definition high_put (x v : Z) : Z := Z.lor (Z.land x 0x0f) (Z.shiftl v 4).
Definition low (x : Z) : Z := Z.land x 0x0f.
Definition high (x : Z) : Z := Z.shiftr (Z.land x 0xf0) 4.

Lemma low_put_spec x v :
  octet x -> 0 <= v < 16 -> octet (low_put x v) ∧ low (low_put x v) = v ∧ high (low_put x v) = high x.
Proof.
  intros Hx Hv. pose proof (octet_cases (fun x v => (0 <=? low_put x v) && (low_put x v <? 256)
    && (low (low_put x v) =? v) && (high (low_put x v) =? high x)) eq_refl x v Hx Hv) as H.
  cbn beta in H. rewrite !andb_true_iff !Z.eqb_eq Z.leb_le Z.ltb_lt in H. rewrite /octet. tauto.
Qed.

Lemma high_put_spec x v :
  octet x -> 0 <= v < 16 -> octet (high_put x v) ∧ high (high_put x v) = v ∧ low (high_put x v) = low x.
Proof.
  intros Hx Hv. pose proof (octet_cases (fun x v => (0 <=? high_put x v) && (high_put x v <? 256)
    && (high (high_put x v) =? v) && (low (high_put x v) =? low x)) eq_refl x v Hx Hv) as H.
  cbn beta in H. rewrite !andb_true_iff !Z.eqb_eq Z.leb_le Z.ltb_lt in H. rewrite /octet. tauto.
Qed.

(** The nibble at a place of an array; the even places are the high ones. *)
Definition nib (data : list Z) (k : nat) : Z :=
  if Nat.odd k then low (nth (k / 2) data 0) else high (nth (k / 2) data 0).
Definition put_nib (data : list Z) (k : nat) (v : Z) : list Z :=
  <[(k / 2)%nat := if Nat.odd k then low_put (nth (k / 2) data 0) v else high_put (nth (k / 2) data 0) v]> data.

Lemma nth_octet data k : Forall octet data -> octet (nth k data 0).
Proof.
  intros H. destruct (decide (k < length data)%nat) as [Hk|Hk].
  - rewrite Forall_forall in H. apply H, list_elem_of_In, nth_In. done.
  - rewrite nth_overflow; [done|lia].
Qed.

Lemma nth_insert (data : list Z) i j x :
  (i < length data)%nat -> nth j (<[i := x]> data) 0 = if decide (i = j) then x else nth j data 0.
Proof.
  intros Hi. rewrite !nth_lookup. destruct (decide (i = j)) as [<-|Hne].
  - by rewrite list_lookup_insert_eq.
  - by rewrite list_lookup_insert_ne.
Qed.

Lemma half_odd k j : (k / 2 = j / 2)%nat -> Nat.odd k = Nat.odd j -> k = j.
Proof.
  intros Hd Ho. rewrite (Nat.div2_odd k) (Nat.div2_odd j) !Nat.div2_div Hd Ho. done.
Qed.

Lemma put_nib_spec data k v :
  Forall octet data -> (k / 2 < length data)%nat -> 0 <= v < 16 ->
  Forall octet (put_nib data k v) ∧ length (put_nib data k v) = length data
  ∧ ∀ j, nib (put_nib data k v) j = if decide (j = k) then v else nib data j.
Proof.
  intros Hd Hk Hv. pose proof (nth_octet data (k / 2) Hd) as Hx.
  destruct (low_put_spec _ v Hx Hv) as (Hl1 & Hl2 & Hl3), (high_put_spec _ v Hx Hv) as (Hh1 & Hh2 & Hh3). split_and!.
  - apply Forall_insert; [done|]. by destruct (Nat.odd k).
  - apply length_insert.
  - intros j. rewrite /nib /put_nib nth_insert //. destruct (decide (k / 2 = j / 2)%nat) as [Heq|Hne].
    + destruct (decide (j = k)) as [->|Hjk]; [by destruct (Nat.odd k)|]. rewrite -Heq.
      destruct (Nat.odd k) eqn:Hok, (Nat.odd j) eqn:Hoj; try done; exfalso; apply Hjk, half_odd; congruence.
    + rewrite decide_False //. congruence.
Qed.

Lemma land_1_odd k : negb (Z.land (Z.of_nat k) 1 =? 0) = Nat.odd k.
Proof.
  change 1 with (Z.ones 1). rewrite Z.land_ones // Z.pow_1_r. change 2 with (Z.of_nat 2). rewrite -Nat2Z.inj_mod.
  rewrite -Nat.bit0_mod Nat.bit0_odd. by destruct (Nat.odd k).
Qed.

Lemma half_nat k : Z.to_nat (Z.of_nat k / 2) = (k / 2)%nat.
Proof. change 2 with (Z.of_nat 2). by rewrite -Nat2Z.inj_div Nat2Z.id. Qed.

Lemma shiftr_half k : Z.shiftr (Z.of_nat k) 1 = Z.of_nat (k / 2).
Proof. rewrite Z.shiftr_div_pow2 // Z.pow_1_r. change 2 with (Z.of_nat 2). by rewrite -Nat2Z.inj_div. Qed.

Lemma land_15 n : Z.land n 0x0f = n mod 16.
Proof. change 15 with (Z.ones 4). by rewrite Z.land_ones. Qed.

Lemma encode_loop_step fuel data number k :
  encode_loop (S fuel) data number (Z.of_nat k)
  = if number =? 0 then (data, Z.of_nat k)
    else encode_loop fuel (put_nib data k (number mod 16)) (number / 16) (Z.of_nat (S k)).
Proof.
  cbn [encode_loop]. destruct (number =? 0); [done|]. rewrite land_1_odd half_nat land_15 Z.shiftr_div_pow2 //.
  change (2 ^ 4) with 16. by replace (Z.of_nat k + 1) with (Z.of_nat (S k)) by lia.
Qed.

(** The nibbles of the number from place [k] on, and how many. *)
Lemma encode_loop_spec fuel data number k :
  Forall octet data -> (k + fuel <= 2 * length data)%nat -> 0 <= number < 16 ^ Z.of_nat fuel ->
  ∃ data' cnt, encode_loop fuel data number (Z.of_nat k) = (data', Z.of_nat (k + cnt))
    ∧ (cnt <= fuel)%nat ∧ Forall octet data' ∧ length data' = length data ∧ number < 16 ^ Z.of_nat cnt
    ∧ ∀ j, nib data' j = if decide (k <= j < k + cnt)%nat then number / 16 ^ Z.of_nat (j - k) mod 16 else nib data j.
Proof.
  revert data number k. induction fuel as [|fuel IH]; intros data number k Hd Hlen Hn.
  { exists data, O. rewrite Nat.add_0_r. split_and!; try done; [lia|]. intros j. rewrite decide_False //. lia. }
  rewrite encode_loop_step. destruct (Z.eqb_spec number 0) as [->|H0].
  { exists data, O. rewrite Nat.add_0_r. split_and!; try done; [lia|]. intros j. rewrite decide_False //. lia. }
  assert (Hk : (k / 2 < length data)%nat) by (apply Nat.Div0.div_lt_upper_bound; lia).
  pose proof (Z.mod_pos_bound number 16 ltac:(lia)) as Hv.
  destruct (put_nib_spec data k (number mod 16) Hd Hk Hv) as (Hd1 & Hl1 & Hn1).
  assert (Hnext : 0 <= number / 16 < 16 ^ Z.of_nat fuel).
  { split; [apply Z.div_pos; lia|]. apply Z.div_lt_upper_bound; [lia|].
    rewrite -Z.pow_succ_r; [|lia]. rewrite -Nat2Z.inj_succ. apply Hn. }
  destruct (IH (put_nib data k (number mod 16)) (number / 16) (S k) Hd1 ltac:(lia) Hnext)
    as (data' & cnt & He & Hc & Hd' & Hl' & Hb & Hnib).
  exists data', (S cnt). rewrite He. split_and!; [do 2 f_equal; lia|lia|done|lia| |].
  - rewrite Nat2Z.inj_succ Z.pow_succ_r; [|lia]. pose proof (Z.div_mod number 16 ltac:(lia)). lia.
  - intros j. rewrite Hnib Hn1. destruct (decide (j = k)) as [->|Hjk].
    + rewrite decide_False; [|lia]. rewrite decide_True; [|lia]. by rewrite Nat.sub_diag Z.div_1_r.
    + destruct (decide (S k <= j < S k + cnt)%nat) as [Hin|Hout].
      * rewrite decide_True; [|lia]. rewrite Z.div_div; [|lia|lia]. rewrite -Z.pow_succ_r; [|lia].
        do 3 f_equal. lia.
      * rewrite decide_False //. lia.
Qed.

(** The array that is written: the number of nibbles less one, and the nibbles. *)
Record encodes (data : list Z) (len : Z) (number : Z) (n : nat) : Prop := {
  en_octets : Forall octet data;
  en_count : (0 < n)%nat;
  en_head : nib data 0 = Z.of_nat n - 1;
  en_nibs : ∀ j, (0 < j <= n)%nat -> nib data j = number / 16 ^ Z.of_nat (j - 1) mod 16;
  en_bound : 0 <= number < 16 ^ Z.of_nat n;
  en_len : len = Z.of_nat (n / 2 + 1);
  en_fits : (n / 2 < length data)%nat }.

Lemma nib_replicate n k : nib (replicate n 0) k = 0.
Proof.
  rewrite /nib. assert (nth (k / 2) (replicate n 0) 0 = 0) as ->; [|by destruct (Nat.odd k)].
  rewrite nth_lookup. destruct (replicate n 0 !! (k / 2)%nat) eqn:H; [|done]. by apply lookup_replicate in H as [-> _].
Qed.

Lemma encode_int_spec size number :
  (0 < size <= 8)%nat -> 0 <= number < 16 ^ Z.of_nat (2 * size) ->
  ∃ data len n, ENCODE_INT_INTERNAL size number = (data, len) ∧ (n <= 2 * size)%nat ∧ encodes data len number n.
Proof.
  intros Hsize Hn. rewrite /ENCODE_INT_INTERNAL. change 1 with (Z.of_nat 1) at 1.
  destruct (encode_loop_spec (2 * size) (replicate (size + 1) 0) number 1) as (data & cnt & -> & Hc & Hd & Hl & Hb & Hnib);
    [apply Forall_replicate; rewrite /octet; lia|rewrite length_replicate; lia|done|].
  rewrite length_replicate in Hl. set (n := Nat.max cnt 1).
  assert (Hnb : (if 2 <? Z.of_nat (1 + cnt) then Z.of_nat (1 + cnt) - 2 else 0) = Z.of_nat n - 1).
  { rewrite /n. destruct (Z.ltb_spec 2 (Z.of_nat (1 + cnt))); lia. }
  rewrite Hnb (land_15 (Z.of_nat n - 1)) (Z.mod_small (Z.of_nat n - 1)); [|rewrite /n; lia].
  destruct (put_nib_spec data 0 (Z.of_nat n - 1) Hd) as (Hd1 & Hl1 & Hn1); [cbn; lia|rewrite /n; lia|].
  assert (Hhalf : (n / 2 < S size)%nat) by (apply Nat.Div0.div_lt_upper_bound; rewrite /n; lia).
  eexists _, _, n. split; [reflexivity|]. split; [rewrite /n; lia|]. fold (high_put (nth 0 data 0) (Z.of_nat n - 1)).
  change (<[0%nat := high_put (nth 0 data 0) (Z.of_nat n - 1)]> data) with (put_nib data 0 (Z.of_nat n - 1)). split.
  - done.
  - rewrite /n. lia.
  - by rewrite Hn1.
  - intros j Hj. rewrite Hn1 decide_False; [|lia]. rewrite Hnib nib_replicate. destruct (decide (1 <= j < 1 + cnt)%nat); [done|].
    assert (cnt = 0%nat) as H0 by (rewrite /n in Hj; lia). rewrite H0 /= in Hb. assert (number = 0) as -> by lia.
    by rewrite Z.div_0_l; [|apply Z.pow_nonzero; lia].
  - split; [lia|]. eapply Z.lt_le_trans; [exact Hb|]. apply Z.pow_le_mono_r; rewrite /n; lia.
  - replace (Z.of_nat (1 + cnt) + 1) with (Z.of_nat (cnt + 1 * 2)) by lia. change 2 with (Z.of_nat 2).
    rewrite -Nat2Z.inj_div Nat.div_add // /n. destruct cnt as [|cnt]; [done|]. by rewrite Nat.max_l; [|lia].
  - rewrite Hl1. lia.
Qed.

(** ** Reading numbers back *)

(** Disjoint bits. *)
Lemma lor_add_low a b k : 0 <= k -> 0 <= a < 2 ^ k -> Z.lor a (b * 2 ^ k) = a + b * 2 ^ k.
Proof.
  intros Hk Ha. rewrite -Z.shiftl_mul_pow2 //. rewrite -Z.lxor_lor ?Z.add_nocarry_lxor //.
  all: apply Z.bits_inj'; intros m Hm; rewrite Z.land_spec Z.bits_0 Z.shiftl_spec //.
  all: destruct (Z.lt_ge_cases m k); [by rewrite (Z.testbit_neg_r b) ?andb_false_r //; lia|].
  all: rewrite -(Z.mod_small a (2 ^ k)) // Z.mod_pow2_bits_high //; lia.
Qed.

Lemma E_ret_bind {A B} (a : A) (k : A -> E B) : mret a ≫= k = k a.
Proof. done. Qed.

Lemma octet_at_spec b i bs n pos z :
  readable b i bs n -> 0 <= pos < n -> bs !! Z.to_nat pos = Some (Some z) -> octet z -> octet_at b i pos = mret z.
Proof.
  intros Hread Hpos Hz Ho. rewrite /octet_at Hread; [|lia..]. rewrite /slice (drop_S _ _ _ Hz) E_ret_bind /=.
  by rewrite /u8 Z.mod_small.
Qed.

(** The array [data] lies in [bs] at [off]. *)
Definition placed (bs : list mbyte) (off : Z) (data : list Z) (len : Z) : Prop :=
  ∀ k, 0 <= k < len -> bs !! Z.to_nat (off + k) = Some (Some (nth (Z.to_nat k) data 0)).

Lemma decode_nibbles_spec w b i bs lim off data len number n m :
  readable b i bs lim -> 0 <= off -> off + len <= lim -> placed bs off data len -> encodes data len number n ->
  0 <= w -> number < 2 ^ w -> (m <= n)%nat ->
  decode_nibbles w b i off m (number / 16 ^ Z.of_nat m) = mret number.
Proof.
  intros Hread Hoff Hlim Hpl [Hoc Hn Hhead Hnibs Hbd Hlen Hfit] Hw0 Hw. induction m as [|m IH]; intros Hm.
  { by rewrite Z.div_1_r. }
  cbn [decode_nibbles]. rewrite shiftr_half land_1_odd.
  assert (Hk : 0 <= Z.of_nat (S m / 2) < len).
  { rewrite Hlen. pose proof (Nat.Div0.div_le_mono (S m) n 2 Hm). lia. }
  rewrite (octet_at_spec b i bs lim _ (nth (S m / 2) data 0)) //; [|lia| |by apply nth_octet]; last first.
  { rewrite Hpl //. by rewrite Nat2Z.id. }
  rewrite E_ret_bind. fold (low (nth (S m / 2) data 0)). fold (high (nth (S m / 2) data 0)).
  set (y := number / 16 ^ Z.of_nat m). assert (Hy : 0 <= y <= number).
  { split; [apply Z.div_pos; lia|]. apply Z.div_le_upper_bound; [lia|]. pose proof (Z.pow_pos_nonneg 16 (Z.of_nat m)). nia. }
  assert (Hy16 : number / 16 ^ Z.of_nat (S m) = y / 16).
  { rewrite /y Z.div_div; [|lia|lia]. by rewrite Nat2Z.inj_succ Z.pow_succ_r ?(Z.mul_comm 16); [|lia]. }
  pose proof (Z.div_mod y 16 ltac:(lia)) as Hdm. pose proof (Z.mod_pos_bound y 16 ltac:(lia)) as Hmb.
  assert (Hnext : Z.lor (Z.shiftl (y / 16) 4 mod 2 ^ w) (nib data (S m)) = y).
  { rewrite (Hnibs (S m)); [|lia]. rewrite Nat.sub_1_r /= -/y Z.shiftl_mul_pow2 //. change (2 ^ 4) with 16.
    rewrite (Z.mod_small (y / 16 * 16)); [|lia]. rewrite Z.lor_comm. change 16 with (2 ^ 4). rewrite lor_add_low //.
    change (2 ^ 4) with 16. lia. }
  rewrite Hy16. rewrite -IH; [|lia]. fold y. f_equal. rewrite -{3}Hnext /nib. by destruct (Nat.odd (S m)).
Qed.

(** ** Tags *)

Lemma group_spec x :
  0 <= x < 128 ->
  octet x ∧ Z.land x 0x7f = x ∧ Z.land x 0x80 = 0
  ∧ octet (Z.lor x 0x80) ∧ Z.land (Z.lor x 0x80) 0x7f = x ∧ Z.land (Z.lor x 0x80) 0x80 = 128.
Proof.
  intros Hx. assert (H : forallb (fun x => (x <? 256) && (Z.land x 0x7f =? x) && (Z.land x 0x80 =? 0)
    && (0 <=? Z.lor x 0x80) && (Z.lor x 0x80 <? 256) && (Z.land (Z.lor x 0x80) 0x7f =? x)
    && (Z.land (Z.lor x 0x80) 0x80 =? 128)) (seqZ 0 128) = true) by reflexivity.
  rewrite forallb_forall in H. specialize (H x). rewrite !andb_true_iff !Z.eqb_eq !Z.ltb_lt Z.leb_le in H. rewrite /octet.
  destruct H as ((((((? & ?) & ?) & ?) & ?) & ?) & ?); [apply list_elem_of_In, elem_of_seqZ; lia|]. tauto.
Qed.

Lemma tag_loop_octets fuel t : 0 <= t -> Forall octet (tag_loop fuel t).
Proof.
  revert t. induction fuel as [|fuel IH]; intros t Ht; [constructor|]. cbn [tag_loop].
  change 0x7f with (Z.ones 7). rewrite Z.land_ones // Z.shiftr_div_pow2 //.
  destruct (group_spec (t mod 2 ^ 7)) as (Ho & _ & _ & Ho' & _); [apply Z.mod_pos_bound; lia|].
  destruct (negb _); apply Forall_cons; (split; [done|]); [|constructor]. apply IH, Z.div_pos; lia.
Qed.

Lemma tag_loop_length fuel t : (0 < fuel)%nat -> (0 < length (tag_loop fuel t) <= fuel)%nat.
Proof.
  revert t. induction fuel as [|fuel IH]; intros t Hf; [lia|]. cbn [tag_loop]. destruct (negb _); cbn; [|lia].
  destruct fuel as [|fuel]; [cbn; lia|]. specialize (IH (Z.shiftr t 7) ltac:(lia)). lia.
Qed.

(** [data] lies in [bs] at [j]. *)
Definition lies (bs : list mbyte) (j : nat) (data : list Z) : Prop :=
  ∀ k x, data !! k = Some x -> bs !! (j + k)%nat = Some (Some x).

Lemma lies_cons bs j x data : lies bs j (x :: data) -> bs !! j = Some (Some x) ∧ lies bs (S j) data.
Proof.
  intros H. split; [rewrite -(Nat.add_0_r j); by apply (H O)|]. intros k y Hk. rewrite Nat.add_succ_comm. by apply (H (S k)).
Qed.

(** One more group of bits. *)
Lemma add_group t j number :
  0 <= t -> 0 <= number < 2 ^ (7 * Z.of_nat j) -> number + t * 2 ^ (7 * Z.of_nat j) < 2 ^ 32 ->
  Z.lor number (u32 (Z.shiftl (t mod 2 ^ 7) (7 * Z.of_nat j))) = number + t mod 2 ^ 7 * 2 ^ (7 * Z.of_nat j).
Proof.
  intros Ht Hn Hb. pose proof (Z.mod_pos_bound t (2 ^ 7) ltac:(lia)). pose proof (Z.mod_le t (2 ^ 7) ltac:(lia) ltac:(lia)).
  rewrite Z.shiftl_mul_pow2; [|lia]. rewrite u32_small; [apply lor_add_low; lia|]. nia.
Qed.

Lemma decode_tag_loop_spec fuel b i bs lim len t j number :
  readable b i bs lim -> lies bs j (tag_loop fuel t) -> (0 < fuel)%nat -> (j + fuel <= 5)%nat ->
  Z.of_nat j + Z.of_nat (length (tag_loop fuel t)) <= Z.min lim len -> 0 <= t < 2 ^ (7 * Z.of_nat fuel) ->
  0 <= number < 2 ^ (7 * Z.of_nat j) -> number + t * 2 ^ (7 * Z.of_nat j) < 2 ^ 32 ->
  decode_tag_loop (S fuel) b i len (Z.of_nat j) (7 * Z.of_nat j) number
  = mret (Some (number + t * 2 ^ (7 * Z.of_nat j), Z.of_nat j + Z.of_nat (length (tag_loop fuel t)))).
Proof.
  intros Hread. revert t j number. induction fuel as [|fuel IH]; intros t j number Hl Hf Hj Hlen Ht Hn Hb; [lia|].
  cbn [tag_loop] in Hl, Hlen |- *. change 0x7f with (Z.ones 7) in Hl, Hlen |- *. rewrite Z.land_ones // in Hl, Hlen |- *.
  rewrite Z.shiftr_div_pow2 // in Hl, Hlen |- *.
  pose proof (Z.mod_pos_bound t (2 ^ 7) ltac:(lia)) as Hm. pose proof (Z.div_mod t (2 ^ 7) ltac:(lia)) as Hdm.
  destruct (group_spec (t mod 2 ^ 7) Hm) as (Ho1 & Hl1 & Hc1 & Ho2 & Hl2 & Hc2).
  assert (Hpos : 0 < 2 ^ (7 * Z.of_nat j)) by lia.
  remember (S fuel) as f eqn:Hfe. cbn [decode_tag_loop]. rewrite (proj2 (Z.leb_gt 32 (7 * Z.of_nat j))); [|lia].
  assert (Hstep : ∀ x, bs !! j = Some (Some x) -> octet x -> Z.of_nat j < Z.min lim len ->
    octet_at b i (Z.of_nat j) = mret x ∧ (Z.of_nat j <? len) = true).
  { intros x Hx Hox Hlt. split; [|apply Z.ltb_lt; lia]. apply (octet_at_spec b i bs lim); [done|lia|by rewrite Nat2Z.id|done]. }
  destruct (Z.eqb_spec (t / 2 ^ 7) 0) as [H0|H0]; cbn [negb] in Hl, Hlen |- *.
  - apply lies_cons in Hl as [Hx _]. cbn in Hlen. destruct (Hstep _ Hx Ho1) as [-> ->]; [lia|].
    rewrite E_ret_bind Hl1 Hc1 add_group //; [|lia]. assert (Hmt : t mod 2 ^ 7 = t) by lia. by rewrite Hmt.
  - apply lies_cons in Hl as [Hx Hl]. cbn [length] in Hlen. destruct (Hstep _ Hx Ho2) as [-> ->]; [lia|].
    rewrite E_ret_bind Hl2 Hc2 add_group //; [|lia]. cbn [Z.eqb]. destruct fuel as [|fuel].
    { exfalso. apply H0, Z.div_small. rewrite Hfe in Ht. cbn in Ht. lia. }
    subst f. replace (Z.of_nat j + 1) with (Z.of_nat (S j)) by lia. replace (7 * Z.of_nat j + 7) with (7 * Z.of_nat (S j)) by lia.
    assert (Hp : 2 ^ (7 * Z.of_nat (S j)) = 2 ^ 7 * 2 ^ (7 * Z.of_nat j)).
    { rewrite -Z.pow_add_r; [|lia..]. f_equal. lia. }
    assert (Ht' : 0 <= t / 2 ^ 7 < 2 ^ (7 * Z.of_nat (S fuel))).
    { split; [apply Z.div_pos; lia|]. apply Z.div_lt_upper_bound; [lia|]. rewrite -Z.pow_add_r; [|lia..].
      replace (7 + 7 * Z.of_nat (S fuel)) with (7 * Z.of_nat (S (S fuel))) by lia. lia. }
    rewrite (IH (t / 2 ^ 7)) //; [cbn [length]; do 3 f_equal; [rewrite Hp; nia|lia]|lia|lia|lia|rewrite Hp; nia|rewrite Hp; nia].
Qed.

Lemma tag_loop_5 t b i bs lim len :
  readable b i bs lim -> 0 <= t < 2 ^ 32 -> lies bs 0 (tag_loop 5 t) ->
  Z.of_nat (length (tag_loop 5 t)) <= Z.min lim len ->
  decode_tag_loop 6 b i len 0 0 0 = mret (Some (t, Z.of_nat (length (tag_loop 5 t)))).
Proof.
  intros Hread Ht Hl Hlen. pose proof (decode_tag_loop_spec 5 b i bs lim len t 0 0 Hread Hl) as H.
  rewrite Z.mul_1_r !Z.add_0_l in H. apply H; try lia.
Qed.
