(* ===== verification/EvTagCorrect.v ===== *)
(** * Tagged data survive the way through an event buffer

    What event_tagging.c marshals to the end of a buffer it unmarshals from the
    front, against the laws of EvBufQueue. *)

From Stdlib Require Import ssreflect.
From S2P Require Import Prelude CTypes HProp CMem EvBuffer EvBufSpec EvBufOps EvBufQueue EvTag EvTagSpec.
Set Warnings "-rewrite-rw".
Open Scope general_if_scope.
Open Scope Z_scope.

(** The bytes of a number of [size] bytes, and of a tag. *)
Definition enc_int (size : nat) (number : Z) : list mbyte := used (ENCODE_INT_INTERNAL size number).
Definition enc_tag (tag : Z) : list mbyte := Some <$> tag_loop 5 tag.

Definition fits (bs : list mbyte) : Prop := Z.of_nat (length bs) < 2 ^ 62.

Section clients.
Context {holds : evbuffer -> list mbyte -> evenv -> Prop} {BB : ByteBuffer holds} `{!NewBuffer holds}.

(** ** Numbers *)

Lemma enc_int_spec size number :
  (0 < size <= 8)%nat -> 0 <= number < 16 ^ Z.of_nat (2 * size) ->
  ∃ data n, ENCODE_INT_INTERNAL size number = (data, Z.of_nat (length (enc_int size number)))
    ∧ (n <= 2 * size)%nat ∧ encodes data (Z.of_nat (length (enc_int size number))) number n
    ∧ ∀ pre rest, placed (pre ++ enc_int size number ++ rest) (Z.of_nat (length pre)) data
        (Z.of_nat (length (enc_int size number))).
Proof.
  intros Hs Hn. destruct (encode_int_spec size number Hs Hn) as (data & len & n & He & Hn2 & Hen).
  pose proof Hen as [_ _ _ _ _ Hlen Hfit].
  assert (Hu : enc_int size number = Some <$> take (Z.to_nat len) data) by by rewrite /enc_int He.
  assert (Hl : Z.of_nat (length (enc_int size number)) = len).
  { rewrite Hu length_fmap length_take. lia. }
  exists data, n. rewrite Hl. split_and!; [done|done|done|]. intros pre rest k Hk.
  rewrite Z2Nat.inj_add ?Nat2Z.id; [|lia..]. rewrite lookup_app_r; [|lia]. rewrite Nat.add_comm Nat.add_sub.
  rewrite lookup_app_l; [|lia]. rewrite Hu list_lookup_fmap lookup_take_lt; [|lia]. rewrite nth_lookup.
  destruct (data !! Z.to_nat k) eqn:Hd; [done|]. apply lookup_ge_None in Hd. lia.
Qed.

Lemma enc_int_pos size number :
  (0 < size <= 8)%nat -> 0 <= number < 16 ^ Z.of_nat (2 * size) -> (0 < length (enc_int size number) <= 9)%nat.
Proof.
  intros Hs Hn. destruct (enc_int_spec size number Hs Hn) as (data & n & _ & Hn2 & [_ _ _ _ _ Hlen _] & _).
  assert (n / 2 <= 8)%nat by (apply Nat.Div0.div_le_upper_bound; lia). lia.
Qed.

Lemma runs_pullup_at b bs n offset e (Q : option id * evbuffer -> evenv -> Prop) :
  holds b bs e -> 0 < n <= Z.of_nat (length bs) -> fits bs ->
  (∀ i b' e', holds b' bs e' -> goes_on e e' -> readable b' i bs n -> Q (Some i, b') e') ->
  runs (pullup_at b n offset) e Q.
Proof.
  intros Hb Hn Hf HQ. apply runs_bind. eapply bb_pullup; [exact Hb|done|done|].
  intros i b' e' Hb' Hgo Hr. by apply runs_ret, HQ.
Qed.

Lemma runs_decode_int size b pre number rest e (Q : Z * option Z * evbuffer -> evenv -> Prop) :
  let bs := pre ++ enc_int size number ++ rest in
  (0 < size <= 8)%nat -> 0 <= number < 16 ^ Z.of_nat (2 * size) -> holds b bs e -> fits bs ->
  (∀ b' e', holds b' bs e' -> goes_on e e' -> Q (Z.of_nat (length (enc_int size number)), Some number, b') e') ->
  runs (DECODE_INT_INTERNAL (8 * Z.of_nat size) (2 * Z.of_nat size) b (Z.of_nat (length pre))) e Q.
Proof.
  intros bs Hs Hn Hb Hf HQ. pose proof (enc_int_pos size number Hs Hn) as Hpos.
  destruct (enc_int_spec size number Hs Hn) as (data & n & _ & Hn2 & Hen & Hpl). specialize (Hpl pre rest). fold bs in Hpl.
  pose proof Hen as [Hoc Hn0 Hhead _ _ Hlen Hfit]. set (l := length (enc_int size number)) in *.
  assert (Hlbs : length bs = (length pre + l + length rest)%nat) by (rewrite /bs !length_app /l; lia).
  rewrite /DECODE_INT_INTERNAL (bb_length _ _ _ Hb). rewrite (proj2 (Z.leb_gt _ 0)); [|lia].
  apply runs_bind, (runs_pullup_at b bs); [done|lia|done|]. intros i b1 e1 Hb1 Hgo1 Hr1.
  rewrite (octet_at_spec b1 i bs _ _ (nth 0 data 0) Hr1); [|lia| |by apply nth_octet]; last first.
  { pose proof (Hpl 0 ltac:(lia)) as H0. by rewrite Z.add_0_r in H0. }
  rewrite E_ret_bind. fold (high (nth 0 data 0)).
  assert (Hhi : high (nth 0 data 0) + 1 = Z.of_nat n) by (rewrite /nib /= in Hhead; lia). rewrite Hhi shiftr_half.
  rewrite (proj2 (Z.ltb_ge (2 * Z.of_nat size) (Z.of_nat n))); [|lia]. rewrite (proj2 (Z.ltb_ge _ _)); [|lia]. cbn [orb].
  replace (Z.of_nat (n / 2) + 1) with (Z.of_nat l) by lia.
  apply runs_bind, (runs_pullup_at b1 bs); [done|lia|done|]. intros i2 b2 e2 Hb2 Hgo2 Hr2. rewrite Nat2Z.id.
  pose proof (decode_nibbles_spec (8 * Z.of_nat size) b2 i2 bs (Z.of_nat (length pre) + Z.of_nat l) (Z.of_nat (length pre)) data (Z.of_nat l) number n n Hr2
    ltac:(lia) ltac:(lia) Hpl Hen ltac:(lia)) as Hdec.
  assert (Hp : 16 ^ Z.of_nat (2 * size) = 2 ^ (8 * Z.of_nat size)).
  { change 16 with (2 ^ 4). rewrite -Z.pow_mul_r; [|lia..]. f_equal. lia. }
  rewrite Z.div_small in Hdec; [|apply Hen]. rewrite Hdec; [|lia|lia]. rewrite E_ret_bind.
  apply runs_ret, HQ; [done|by etrans].
Qed.

(** ** Draining *)

Lemma runs_drain_int b bs n e (Q : evbuffer -> evenv -> Prop) :
  holds b bs e -> 0 <= n < 2 ^ 62 ->
  (∀ b' e', holds b' (drop (Z.to_nat n) bs) e' -> goes_on e e' -> Q b' e') -> runs (drain_int b n) e Q.
Proof.
  intros Hb Hn HQ. apply runs_bind. rewrite u64_small; [|rewrite /EV_SIZE_MAX; lia].
  eapply bb_drain; [exact Hb|lia|]. intros b' e' Hb' Hgo. by apply runs_ret, HQ.
Qed.

Definition word (n : Z) : Prop := 0 <= n < 2 ^ 32.

Lemma word_4 n : word n -> 0 <= n < 16 ^ Z.of_nat (2 * 4).
Proof. done. Qed.

Lemma runs_evtag_decode_int b number rest e (Q : Z * option Z * evbuffer -> evenv -> Prop) :
  holds b (enc_int 4 number ++ rest) e -> word number -> fits (enc_int 4 number ++ rest) ->
  (∀ b' e', holds b' rest e' -> goes_on e e' -> Q (0, Some number, b') e') ->
  runs (evtag_decode_int b) e Q.
Proof.
  intros Hb Hn Hf HQ. pose proof (enc_int_pos 4 number ltac:(lia) (word_4 _ Hn)) as Hpos.
  apply runs_bind. apply (runs_decode_int 4 b [] number rest); [lia|by apply word_4|done|done|].
  intros b1 e1 Hb1 Hgo1. rewrite (proj2 (Z.eqb_neq _ (-1))); [|lia]. cbn [negb].
  apply runs_bind. eapply runs_drain_int; [exact Hb1|lia|]. intros b2 e2 Hb2 Hgo2. apply runs_ret.
  rewrite Nat2Z.id app_nil_l drop_app_length in Hb2. apply HQ; [done|by etrans].
Qed.

(** ** Tags *)

Lemma enc_tag_length t : (0 < length (enc_tag t) <= 5)%nat.
Proof. rewrite length_fmap. apply tag_loop_length. lia. Qed.

Lemma enc_tag_lies t rest : lies (enc_tag t ++ rest) 0 (tag_loop 5 t).
Proof.
  intros k x Hk. rewrite lookup_app_l; [by rewrite list_lookup_fmap Hk|]. rewrite length_fmap. by eapply lookup_lt_Some.
Qed.

Lemma runs_decode_tag b t rest (dodrain : bool) e (Q : Z * option Z * evbuffer -> evenv -> Prop) :
  holds b (enc_tag t ++ rest) e -> word t -> fits (enc_tag t ++ rest) ->
  (∀ b' e', holds b' (if dodrain then rest else enc_tag t ++ rest) e' -> goes_on e e' ->
     Q (Z.of_nat (length (enc_tag t)), Some t, b') e') ->
  runs (decode_tag_internal b dodrain) e Q.
Proof.
  intros Hb Ht Hf HQ. pose proof (enc_tag_length t) as Hl. rewrite /decode_tag_internal (bb_length _ _ _ Hb).
  set (len := Z.of_nat (length (enc_tag t ++ rest))). assert (Hlen : Z.of_nat (length (enc_tag t)) <= len).
  { rewrite /len length_app. lia. }
  set (lim := if len <? 5 then len else 5). assert (Hlim : Z.of_nat (length (enc_tag t)) <= lim <= len).
  { rewrite /lim. destruct (Z.ltb_spec len 5); lia. }
  apply runs_bind. eapply bb_pullup; [exact Hb|lia|done|]. intros i b1 e1 Hb1 Hgo1 Hr1.
  rewrite (tag_loop_5 t b1 i _ lim len Hr1 Ht (enc_tag_lies t rest)); [|rewrite /enc_tag length_fmap in Hlim; lia].
  rewrite E_ret_bind. rewrite (proj2 (Z.ltb_ge INT_MAX _)); [|rewrite /enc_tag length_fmap in Hl; rewrite /INT_MAX; lia].
  replace (length (tag_loop 5 t)) with (length (enc_tag t)) by apply length_fmap. destruct dodrain.
  - apply runs_bind, runs_bind. eapply bb_drain; [exact Hb1|lia|]. intros b2 e2 Hb2 Hgo2. apply runs_ret, runs_ret.
    rewrite Nat2Z.id drop_app_length in Hb2. apply HQ; [done|by etrans].
  - apply runs_bind, runs_ret, runs_ret. by apply HQ.
Qed.

(** ** Records *)

(** A record on the wire. *)
Definition enc_record (tag : Z) (data : list mbyte) : list mbyte :=
  enc_tag tag ++ enc_int 4 (Z.of_nat (length data)) ++ data.

Definition payload (data : list mbyte) : Prop := Z.of_nat (length data) < 2 ^ 31.

Lemma fits_app bs cs : fits (bs ++ cs) -> fits cs.
Proof. rewrite /fits length_app. lia. Qed.

Lemma runs_unmarshal_header b tag data rest e (Q : Z * option Z * evbuffer -> evenv -> Prop) :
  holds b (enc_record tag data ++ rest) e -> word tag -> payload data -> fits (enc_record tag data ++ rest) ->
  (∀ b' e', holds b' (data ++ rest) e' -> goes_on e e' -> Q (Z.of_nat (length data), Some tag, b') e') ->
  runs (evtag_unmarshal_header b) e Q.
Proof.
  rewrite /enc_record -!app_assoc. intros Hb Ht Hp Hf HQ. rewrite /payload in Hp. pose proof (enc_tag_length tag) as Hl.
  apply runs_bind. eapply (runs_decode_tag b tag _ true); [exact Hb|done|done|]. intros b1 e1 Hb1 Hgo1.
  rewrite (proj2 (Z.eqb_neq _ (-1))); [|lia].
  apply runs_bind. eapply runs_evtag_decode_int; [exact Hb1|rewrite /word; lia|by eapply fits_app|]. intros b2 e2 Hb2 Hgo2.
  cbn [stored]. rewrite (bb_length _ _ _ Hb2) length_app. apply runs_bind, runs_ret.
  rewrite (proj2 (Z.ltb_ge _ _)); [|lia]. apply runs_ret. rewrite s32_small; [|lia]. apply HQ; [done|by etrans].
Qed.

(** Nothing is pulled up for empty data. *)
Lemma runs_evtag_unmarshal src dst tag data rest bs e (Q : Z * option Z * evbuffer * evbuffer -> evenv -> Prop) :
  holds src (enc_record tag data ++ rest) e -> holds dst bs e -> word tag -> payload data ->
  fits (enc_record tag data ++ rest) -> fits (bs ++ data) ->
  (∀ src' dst' e', holds src' rest e' -> holds dst' (bs ++ data) e' -> goes_on e e' ->
     Q (Z.of_nat (length data), Some tag, src', dst') e') ->
  runs (evtag_unmarshal src dst) e Q.
Proof.
  intros Hs Hd Ht Hp Hf Hfd HQ. apply runs_bind. eapply runs_unmarshal_header; [done..|]. intros b1 e1 Hb1 Hgo1.
  rewrite (proj2 (Z.eqb_neq _ (-1))); [|lia]. rewrite (proj2 (Z.ltb_ge _ 0)); [|lia].
  assert (Hf1 : fits (data ++ rest)). { rewrite /enc_record -!app_assoc in Hf. by do 2 apply fits_app in Hf. }
  assert (Hend : ∀ b2 e2, holds b2 (data ++ rest) e2 -> goes_on e e2 ->
    runs ('(r, dst) ← evbuffer_add dst data;
          if r =? -1 then mret (-1, Some tag, b2, dst)
          else src ← drain_int b2 (Z.of_nat (length data)); mret (Z.of_nat (length data), Some tag, src, dst)) e2 Q).
  { intros b2 e2 Hb2 Hgo2. apply runs_bind. eapply bb_add; [eapply (bb_frame dst bs e e2 Hd Hgo2)|rewrite /fits length_app in Hfd; lia|].
    intros d3 e3 Hd3 Hgo3. cbn. apply runs_bind. rewrite /payload in Hp.
    eapply runs_drain_int; [eapply (bb_frame _ _ _ _ Hb2 Hgo3)|lia|].
    intros s4 e4 Hs4 Hgo4. apply runs_ret. rewrite Nat2Z.id drop_app_length in Hs4.
    apply HQ; [done|by eapply bb_frame|]. etrans; [done|]. by etrans. }
  apply runs_bind. destruct (decide (data = [])) as [Hnil|Hne].
  - subst data. rewrite (bb_pullup_none b1 ([] ++ rest) (Z.of_nat (length (A := mbyte) [])) e1 Hb1); [|by left].
    apply runs_ret, runs_bind, runs_ret. by apply Hend.
  - eapply bb_pullup; [exact Hb1|rewrite length_app; destruct data; [done|cbn; lia]|done|]. intros i b2 e2 Hb2 Hgo2 Hr2.
    apply runs_bind. rewrite Hr2; [|lia..]. apply runs_ret. rewrite /slice drop_0 Nat2Z.id take_app_length.
    apply Hend; [done|by etrans].
Qed.

(** Writing. *)
Lemma runs_marshal b tag data bs e (Q : evbuffer -> evenv -> Prop) :
  holds b bs e -> payload data -> fits (bs ++ enc_record tag data) ->
  (∀ b' e', holds b' (bs ++ enc_record tag data) e' -> goes_on e e' -> Q b' e') ->
  runs (evtag_marshal b tag data) e Q.
Proof.
  intros Hb Hp Hf HQ. rewrite /fits /enc_record !length_app in Hf. rewrite /payload in Hp. rewrite /enc_record in HQ.
  apply runs_bind, runs_bind, runs_bind. eapply bb_add; [exact Hb|rewrite -/(enc_tag tag); lia|]. intros b1 e1 Hb1 Hgo1.
  apply runs_ret, runs_ret. cbn [default]. apply runs_bind, runs_bind. rewrite u32_small; [|lia].
  eapply bb_add; [exact Hb1|rewrite length_app -/(enc_tag tag) -/(enc_int 4 _); lia|]. intros b2 e2 Hb2 Hgo2. apply runs_ret, runs_bind.
  eapply bb_add; [exact Hb2|rewrite !length_app -/(enc_tag tag) -/(enc_int 4 _); lia|]. intros b3 e3 Hb3 Hgo3. apply runs_ret.
  apply HQ; [by rewrite -!app_assoc in Hb3|]. etrans; [done|]. by etrans.
Qed.

(** ** Numbers as records *)

Lemma runs_marshal_number (size : nat) b tag number bs e (Q : evbuffer -> evenv -> Prop) :
  (0 < size <= 8)%nat -> 0 <= number < 16 ^ Z.of_nat (2 * size) ->
  holds b bs e -> fits (bs ++ enc_record tag (enc_int size number)) ->
  (∀ b' e', holds b' (bs ++ enc_record tag (enc_int size number)) e' -> goes_on e e' -> Q b' e') ->
  runs (let '(data, len) := ENCODE_INT_INTERNAL size number in
        b ← encode_tag_to b tag;
        b ← evtag_encode_int b len;
        '(_, b) ← evbuffer_add b (used (data, len));
        mret b) e Q.
Proof.
  intros Hs Hn Hb Hf HQ. pose proof (enc_int_pos size number Hs Hn) as Hpos.
  destruct (enc_int_spec size number Hs Hn) as (data & n & He & _). rewrite He.
  assert (Hm : runs (evtag_marshal b tag (enc_int size number)) e Q).
  { eapply runs_marshal; [exact Hb|rewrite /payload; lia|done|done]. }
  rewrite /evtag_marshal u32_small in Hm; [|lia].
  assert (Hu : used (data, Z.of_nat (length (enc_int size number))) = enc_int size number) by by rewrite {2}/enc_int He.
  by rewrite Hu.
Qed.

Lemma runs_unmarshal_number size b tag number rest e (Q : Z * option Z * evbuffer -> evenv -> Prop) :
  (0 < size <= 8)%nat -> 0 <= number < 16 ^ Z.of_nat (2 * size) -> word tag ->
  holds b (enc_record tag (enc_int size number) ++ rest) e -> fits (enc_record tag (enc_int size number) ++ rest) ->
  (∀ b' e', holds b' rest e' -> goes_on e e' -> Q (Z.of_nat (length (enc_int size number)), Some number, b') e') ->
  runs (unmarshal_number (DECODE_INT_INTERNAL (8 * Z.of_nat size) (2 * Z.of_nat size)) b tag) e Q.
Proof.
  rewrite /enc_record -!app_assoc. intros Hs Hn Ht Hb Hf HQ. pose proof (enc_int_pos size number Hs Hn) as Hpos.
  pose proof (enc_tag_length tag) as Hl. apply runs_bind.
  eapply (runs_decode_tag b tag _ true); [exact Hb|done|done|]. intros b1 e1 Hb1 Hgo1.
  rewrite (proj2 (Z.eqb_neq _ (-1))); [|lia]. cbn [stored]. apply runs_bind, runs_ret. rewrite Z.eqb_refl. cbn [negb].
  apply runs_bind. eapply runs_evtag_decode_int; [exact Hb1|rewrite /word; lia|by eapply fits_app|]. intros b2 e2 Hb2 Hgo2.
  cbn [stored]. rewrite (bb_length _ _ _ Hb2) length_app. apply runs_bind, runs_ret. rewrite (proj2 (Z.ltb_ge _ _)); [|lia].
  apply runs_bind. apply (runs_decode_int size b2 [] number rest); [done|done|done|by do 2 apply fits_app in Hf|].
  intros b3 e3 Hb3 Hgo3. apply runs_bind. eapply bb_drain; [exact Hb3|lia|]. intros b4 e4 Hb4 Hgo4. apply runs_ret.
  rewrite Nat2Z.id app_nil_l drop_app_length in Hb4. rewrite !(proj2 (Z.ltb_ge _ _)); [|lia..]. cbn [orb].
  apply HQ; [done|]. etrans; [done|]. etrans; [done|]. by etrans.
Qed.

(** A tag that does not match is an error. *)
Lemma runs_unmarshal_wrong_tag decode b tag need rest e (Q : Z * option Z * evbuffer -> evenv -> Prop) :
  word tag -> need ≠ tag -> holds b (enc_tag tag ++ rest) e -> fits (enc_tag tag ++ rest) ->
  (∀ b' e', holds b' rest e' -> goes_on e e' -> Q (-1, None, b') e') ->
  runs (unmarshal_number decode b need) e Q.
Proof.
  intros Ht Hne Hb Hf HQ. pose proof (enc_tag_length tag) as Hl. apply runs_bind.
  eapply (runs_decode_tag b tag _ true); [exact Hb|done|done|]. intros b1 e1 Hb1 Hgo1.
  rewrite (proj2 (Z.eqb_neq _ (-1))); [|lia]. cbn [stored]. apply runs_bind, runs_ret.
  rewrite (proj2 (Z.eqb_neq _ _) Hne). by apply runs_ret, HQ.
Qed.

(** ** Streams of records *)

Fixpoint marshal_all (b : evbuffer) (recs : list (Z * list mbyte)) : E evbuffer :=
  match recs with
  | [] => mret b
  | (tag, data) :: recs => b ← evtag_marshal b tag data; marshal_all b recs
  end.

(** Each record goes to a buffer of its own. *)
Fixpoint unmarshal_all (n : nat) (b : evbuffer) : E (list (Z * option Z * evbuffer) * evbuffer) :=
  match n with
  | O => mret ([], b)
  | S n =>
      '(len, tag, b, d) ← evtag_unmarshal b empty_evbuffer;
      '(ds, b) ← unmarshal_all n b;
      mret ((len, tag, d) :: ds, b)
  end.

Definition enc_all (recs : list (Z * list mbyte)) : list mbyte := concat ((fun r => enc_record (fst r) (snd r)) <$> recs).
Definition rec_ok (r : Z * list mbyte) : Prop := word (fst r) ∧ payload (snd r).

Lemma enc_all_cons tag data recs : enc_all ((tag, data) :: recs) = enc_record tag data ++ enc_all recs.
Proof. done. Qed.

Lemma runs_marshal_all recs b bs e (Q : evbuffer -> evenv -> Prop) :
  holds b bs e -> Forall rec_ok recs -> fits (bs ++ enc_all recs) ->
  (∀ b' e', holds b' (bs ++ enc_all recs) e' -> goes_on e e' -> Q b' e') -> runs (marshal_all b recs) e Q.
Proof.
  revert b bs e. induction recs as [|[tag data] recs IH]; intros b bs e Hb Hok Hf HQ.
  { apply runs_ret, HQ; [by rewrite app_nil_r|done]. }
  apply Forall_cons in Hok as [[Ht Hp] Hok]. rewrite enc_all_cons app_assoc in Hf, HQ.
  apply runs_bind. eapply runs_marshal; [exact Hb|done|rewrite /fits length_app in Hf; rewrite /fits; lia|].
  intros b1 e1 Hb1 Hgo1. apply (IH _ _ _ Hb1); [done|done|]. intros b2 e2 Hb2 Hgo2. apply HQ; [done|by etrans].
Qed.

(** The record that was read is the one that was written. *)
Definition same_record (e : evenv) (r : Z * list mbyte) (o : Z * option Z * evbuffer) : Prop :=
  let '(len, tag, d) := o in len = Z.of_nat (length (snd r)) ∧ tag = Some (fst r) ∧ holds d (snd r) e.

Lemma runs_unmarshal_all recs b rest e (Q : list (Z * option Z * evbuffer) * evbuffer -> evenv -> Prop) :
  holds b (enc_all recs ++ rest) e -> Forall rec_ok recs -> fits (enc_all recs ++ rest) ->
  (∀ os b' e', Forall2 (same_record e') recs os -> holds b' rest e' -> goes_on e e' -> Q (os, b') e') ->
  runs (unmarshal_all (length recs) b) e Q.
Proof.
  revert b e Q. induction recs as [|[tag data] recs IH]; intros b e Q Hb Hok Hf HQ; [by apply runs_ret, HQ|].
  apply Forall_cons in Hok as [[Ht Hp] Hok]. rewrite enc_all_cons -app_assoc in Hb, Hf. apply runs_bind.
  eapply (runs_evtag_unmarshal b empty_evbuffer tag data _ []); [exact Hb|by apply nb_new, (bb_memory _ _ _ Hb)|done|done|done| |].
  { rewrite /payload /= in Hp. rewrite /fits /=. lia. }
  intros b1 d e1 Hb1 Hd1 Hgo1. apply runs_bind. apply (IH b1 e1); [done|done|by eapply fits_app|].
  intros os b2 e2 Hos Hb2 Hgo2. apply runs_ret, HQ; [|done|by etrans]. constructor; [|done].
  split_and!; [done|done|]. by eapply bb_frame.
Qed.

End clients.

(** A number that is written to an empty buffer and read again. *)
Lemma runs_number_roundtrip size tag number e :
  (0 < size <= 8)%nat -> 0 <= number < 16 ^ Z.of_nat (2 * size) -> word tag -> ev_oom e = [] ->
  runs (b ← (let '(data, len) := ENCODE_INT_INTERNAL size number in
             b ← encode_tag_to empty_evbuffer tag;
             b ← evtag_encode_int b len;
             '(_, b) ← evbuffer_add b (used (data, len));
             mret b);
        unmarshal_number (DECODE_INT_INTERNAL (8 * Z.of_nat size) (2 * Z.of_nat size)) b tag) e
    (fun '(len, n, b') e' => n = Some number ∧ 0 < len <= 9 ∧ contents b' = []).
Proof.
  intros Hs Hn Ht Ho. pose proof (enc_int_pos size number Hs Hn) as Hpos.
  pose proof (enc_tag_length tag) as Hlt. pose proof (enc_int_pos 4 (Z.of_nat (length (enc_int size number)))) as Hpos4.
  assert (Hf : fits (enc_record tag (enc_int size number))).
  { rewrite /fits /enc_record !length_app. specialize (Hpos4 ltac:(lia) ltac:(change (16 ^ Z.of_nat (2 * 4)) with (2 ^ 32); lia)). lia. }
  apply runs_bind, (runs_marshal_number (holds := open_buffer) size empty_evbuffer tag number []); [done|done|by apply nb_new|done|].
  intros b1 e1 Hb1 Hgo1. apply (runs_unmarshal_number (holds := open_buffer) size b1 tag number []);
    [done|done|done|by rewrite app_nil_r|by rewrite app_nil_r|].
  intros b2 e2 Hb2 Hgo2. split_and!; [done|lia|lia|apply Hb2].
Qed.

Lemma runs_number_wrong_tag tag need number e :
  word tag -> need ≠ tag -> word number -> ev_oom e = [] ->
  runs (b ← evtag_marshal_int empty_evbuffer tag number; evtag_unmarshal_int b need) e
    (fun res _ => ∃ b', res = (-1, None, b')).
Proof.
  intros Ht Hne Hn Ho. pose proof (enc_int_pos 4 number ltac:(lia) (word_4 _ Hn)) as Hpos.
  pose proof (enc_tag_length tag) as Hlt. pose proof (enc_int_pos 4 (Z.of_nat (length (enc_int 4 number)))) as Hpos4.
  assert (Hf : fits (enc_record tag (enc_int 4 number))).
  { rewrite /fits /enc_record !length_app. specialize (Hpos4 ltac:(lia) ltac:(change (16 ^ Z.of_nat (2 * 4)) with (2 ^ 32); lia)). lia. }
  apply runs_bind, (runs_marshal_number (holds := open_buffer) 4 empty_evbuffer tag number []);
    [lia|by apply word_4|by apply nb_new|done|].
  intros b1 e1 Hb1 Hgo1. rewrite /enc_record app_nil_l in Hb1, Hf.
  eapply (runs_unmarshal_wrong_tag (holds := open_buffer) _ b1 tag need); [done|done|exact Hb1|exact Hf|].
  intros b2 e2 _ _. by exists b2.
Qed.

(** C37: tagged records survive the way through an event buffer.  Any list of
    records with 32 bit tags, marshalled with evtag_marshal to an empty buffer,
    comes out of evtag_unmarshal with the same lengths, tags and data in the same
    order, and the buffer is empty afterwards. *)
Theorem evtag_stream_roundtrip (recs : list (Z * list mbyte)) (e : evenv) :
  Forall rec_ok recs -> fits (enc_all recs) -> ev_oom e = [] ->
  ∃ os b' e', (b ← marshal_all empty_evbuffer recs; unmarshal_all (length recs) b) e = inr (os, b', e')
    ∧ (fun '(len, tag, d) => (len, tag, contents d)) <$> os
      = (fun '(tag, data) => (Z.of_nat (length data), Some tag, data)) <$> recs
    ∧ contents b' = [].
Proof.
  intros Hok Hf Ho. assert (Hr : runs (b ← marshal_all empty_evbuffer recs; unmarshal_all (length recs) b) e
    (fun res e' => Forall2 (same_record (holds := open_buffer) e') recs (fst res) ∧ open_buffer (snd res) [] e')).
  { apply runs_bind, (runs_marshal_all (holds := open_buffer) recs empty_evbuffer []); [by apply nb_new|done|done|].
    intros b1 e1 Hb1 Hgo1. apply (runs_unmarshal_all (holds := open_buffer) recs b1 []); rewrite ?app_nil_r //. }
  destruct (runs_run _ _ _ Hr) as ([os b'] & e' & He & Hos & Hb). exists os, b', e'. split; [done|]. split; [|apply Hb].
  cbn in Hos. clear -Hos. induction Hos as [|[t d] [[len tag] x] recs os (-> & -> & Hx) _ IH]; [done|].
  cbn. f_equal; [|done]. by rewrite (st_bytes _ _ _ Hx).
Qed.

Lemma evtag_stream_roundtrip_witness :
  let recs := [(300, [Some 1; Some 2]); (2 ^ 32 - 1, []); (7, replicate 600 (Some 9))] in
  Forall rec_ok recs
  ∧ ∃ os b' e', (b ← marshal_all empty_evbuffer recs; unmarshal_all (length recs) b) (EvEnv 1 [] []) = inr (os, b', e')
    ∧ (fun '(len, tag, d) => (len, tag, contents d)) <$> os
      = (fun '(tag, data) => (Z.of_nat (length data), Some tag, data)) <$> recs
    ∧ contents b' = [].
Proof.
  cbv zeta. assert (Hok : Forall rec_ok [(300, [Some 1; Some 2]); (2 ^ 32 - 1, []); (7, replicate 600 (Some 9))]).
  { repeat apply Forall_cons_2; try apply Forall_nil_2; split; cbv; split || reflexivity; (discriminate || reflexivity). }
  split; [exact Hok|]. apply (evtag_stream_roundtrip _ (EvEnv 1 [] []) Hok); vm_compute; reflexivity.
Defined.

(** 32 and 64 bit numbers survive as well: evtag_unmarshal_int and
    evtag_unmarshal_int64 return what evtag_marshal_int and evtag_marshal_int64
    wrote, with the length of its encoding, and report an error for another tag. *)
Theorem evtag_int_roundtrip (tag number number64 : Z) (e : evenv) :
  word tag -> word number -> 0 <= number64 < 2 ^ 64 -> ev_oom e = [] ->
  (∃ len b' e', (b ← evtag_marshal_int empty_evbuffer tag number; evtag_unmarshal_int b tag) e = inr (len, Some number, b', e')
     ∧ 0 < len <= 9 ∧ contents b' = [])
  ∧ (∃ len b' e', (b ← evtag_marshal_int64 empty_evbuffer tag number64; evtag_unmarshal_int64 b tag) e
       = inr (len, Some number64, b', e') ∧ 0 < len <= 9 ∧ contents b' = [])
  ∧ (∀ need, need ≠ tag -> ∃ b' e',
       (b ← evtag_marshal_int empty_evbuffer tag number; evtag_unmarshal_int b need) e = inr (-1, None, b', e')).
Proof.
  intros Ht Hn H64 Ho. split_and!.
  - destruct (runs_run _ _ _ (runs_number_roundtrip 4 tag number e ltac:(lia) (word_4 _ Hn) Ht Ho))
      as ([[len n] b'] & e' & He & -> & Hlen & Hb). by exists len, b', e'.
  - destruct (runs_run _ _ _ (runs_number_roundtrip 8 tag number64 e ltac:(lia) H64 Ht Ho))
      as ([[len n] b'] & e' & He & -> & Hlen & Hb). by exists len, b', e'.
  - intros need Hne. destruct (runs_run _ _ _ (runs_number_wrong_tag tag need number e Ht Hne Hn Ho))
      as (res & e' & He & b' & ->). by exists b', e'.
Qed.

Lemma evtag_int_roundtrip_witness :
  (∃ len b' e', (b ← evtag_marshal_int empty_evbuffer 300 0x12345678; evtag_unmarshal_int b 300) (EvEnv 1 [] [])
     = inr (len, Some 0x12345678, b', e') ∧ 0 < len <= 9 ∧ contents b' = [])
  ∧ (∃ len b' e', (b ← evtag_marshal_int64 empty_evbuffer 300 (2 ^ 64 - 1); evtag_unmarshal_int64 b 300) (EvEnv 1 [] [])
       = inr (len, Some (2 ^ 64 - 1), b', e') ∧ 0 < len <= 9 ∧ contents b' = [])
  ∧ (∀ need, need ≠ 300 -> ∃ b' e',
       (b ← evtag_marshal_int empty_evbuffer 300 0x12345678; evtag_unmarshal_int b need) (EvEnv 1 [] [])
       = inr (-1, None, b', e')).
Proof.
  apply (evtag_int_roundtrip 300 0x12345678 (2 ^ 64 - 1) (EvEnv 1 [] [])); rewrite ?/word; split || reflexivity;
    (discriminate || reflexivity).
Defined.

(** A tag that goes on for more than five octets is not rejected: the decoder
    shifts an int by 35 bits. *)
Example decode_tag_overlong :
  ('(_, b) ← evbuffer_add empty_evbuffer (replicate 6 (Some 0x80)); evtag_decode_tag b) (EvEnv 1 [] []) = inl IntOverflow.
Proof. vm_compute. reflexivity. Qed.
