(* ===== verification/EvSearch.v ===== *)
(** * libevent/buffer.c: positions, searching, lines

    A position in a buffer is a chain and an offset in it, next to the number
    of bytes in front of it.  The functions that look at the bytes read them
    where they are, chain by chain. *)

From S2P Require Import Prelude CTypes HProp CMem EvBuffer.
Open Scope Z_scope.

Record evbuffer_ptr := Ptr { pos : Z; p_chain : option id; pos_in_chain : Z }.

Inductive evbuffer_eol_style := EVBUFFER_EOL_ANY | EVBUFFER_EOL_CRLF | EVBUFFER_EOL_CRLF_STRICT | EVBUFFER_EOL_LF.
Inductive evbuffer_ptr_how := EVBUFFER_PTR_SET | EVBUFFER_PTR_ADD.

Definition CR : Z := 13.
Definition LF : Z := 10.
Definition CHUNK_SZ : nat := 128.

(** Conversion to ev_ssize_t. *)
Definition ssize (z : Z) : Z := (z + 2 ^ 63) mod 2 ^ 64 - 2 ^ 63.

(** The chains from a given one on; none from NULL on. *)
Fixpoint chains_from (i : id) (cs : list evbuffer_chain) : option (list evbuffer_chain) :=
  match cs with
  | [] => None
  | c :: cs' => if decide (c_id c = i) then Some cs else chains_from i cs'
  end.

Definition from_ptr (b : evbuffer) (p : evbuffer_ptr) : E (list evbuffer_chain) :=
  match p_chain p with
  | None => mret []
  | Some i => match chains_from i (chains b) with Some cs => mret cs | None => e_fail DanglingPtr end
  end.

(** The data of a chain from an offset on. *)
Definition rest_of (c : evbuffer_chain) (i : Z) : E (list mbyte) := chain_read (misalign c + i) (u64 (off c - i)) c.

Definition defined (x : mbyte) : E Z := match x with Some z => mret z | None => e_fail Indeterminate end.

(** memchr(): the index of the byte; it reads no further. *)
Fixpoint memchr (d : list mbyte) (chr : Z) : E (option Z) :=
  match d with
  | [] => mret None
  | x :: d =>
      x ← defined x;
      if x =? chr then mret (Some 0)
      else r ← memchr d chr; mret ((fun k => k + 1) <$> r)
  end.

(** memcmp() *)
Fixpoint memcmp (d : list mbyte) (mem : list Z) : E Z :=
  match d, mem with
  | x :: d, y :: mem => x ← defined x; if x =? y then memcmp d mem else mret (x - y)
  | _, _ => mret 0
  end.

(** ** Single characters *)

(** The loop of evbuffer_strchr and of evbuffer_find_eol_char, which differ in
    what they look for in a chain.  On failure only the count of bytes has
    changed. *)
Fixpoint scan_loop (find : list mbyte -> E (option Z)) (cs : list evbuffer_chain) (i p : Z) (it : evbuffer_ptr) :
    E (Z * evbuffer_ptr) :=
  match cs with
  | [] => mret (-1, Ptr p (p_chain it) (pos_in_chain it))
  | c :: cs' =>
      d ← rest_of c i;
      cp ← find d;
      match cp with
      | Some k => mret (p + k, Ptr (p + k) (Some (c_id c)) (i + k))
      | None => scan_loop find cs' 0 (p + (off c - i)) it
      end
  end.

Definition evbuffer_strchr (b : evbuffer) (it : evbuffer_ptr) (chr : Z) : E (Z * evbuffer_ptr) :=
  cs ← from_ptr b it;
  scan_loop (fun d => memchr d chr) cs (pos_in_chain it) (pos it) it.

(** The first CR or LF, found in pieces of CHUNK_SZ bytes; [fuel] is at least
    the number of pieces. *)
Fixpoint find_eol_char (fuel : nat) (s : list mbyte) : E (option Z) :=
  match fuel with
  | O => mret None
  | S fuel =>
      match s with
      | [] => mret None
      | _ =>
          let chunk := take CHUNK_SZ s in
          cr ← memchr chunk CR;
          lf ← memchr chunk LF;
          match cr, lf with
          | Some c, Some l => mret (Some (if l <? c then l else c))
          | Some c, None => mret (Some c)
          | None, Some l => mret (Some l)
          | None, None =>
              r ← find_eol_char fuel (drop CHUNK_SZ s);
              mret ((fun k => k + Z.of_nat CHUNK_SZ) <$> r)
          end
      end
  end.

Definition evbuffer_find_eol_char (b : evbuffer) (it : evbuffer_ptr) : E (Z * evbuffer_ptr) :=
  cs ← from_ptr b it;
  scan_loop (fun d => find_eol_char (length d) d) cs (pos_in_chain it) (pos it) it.

(** How many bytes at the start of [d] are in the set. *)
Fixpoint span (d : list mbyte) (chrset : list Z) : E Z :=
  match d with
  | [] => mret 0
  | x :: d =>
      x ← defined x;
      if existsb (Z.eqb x) chrset then n ← span d chrset; mret (n + 1) else mret 0
  end.

(** [count] is an int. *)
Fixpoint strspn_loop (c : evbuffer_chain) (cs : list evbuffer_chain) (chrset : list Z) (i count p : Z) :
    E (Z * evbuffer_ptr) :=
  d ← (if i <? off c then rest_of c i else mret []);
  n ← span d chrset;
  let count := count + n in
  if 2 ^ 31 <=? count then e_fail IntOverflow
  else if i + n <? off c then mret (count, Ptr (p + count) (Some (c_id c)) (i + n))
  else
    match cs with
    | [] => mret (count, Ptr (p + count) (Some (c_id c)) 0)
    | c' :: cs' => strspn_loop c' cs' chrset 0 count p
    end.

Definition evbuffer_strspn (b : evbuffer) (ptr : evbuffer_ptr) (chrset : list Z) : E (Z * evbuffer_ptr) :=
  cs ← from_ptr b ptr;
  match cs with
  | [] => mret (-1, ptr)
  | c :: cs' => strspn_loop c cs' chrset (pos_in_chain ptr) 0 (pos ptr)
  end.

Definition evbuffer_getchr (b : evbuffer) (it : evbuffer_ptr) : E Z :=
  cs ← from_ptr b it;
  match cs with
  | [] => e_fail NullDeref
  | c :: _ =>
      d ← chain_read (misalign c + pos_in_chain it) 1 c;
      defined (default None (head d))
  end.

(** ** Positions *)

Fixpoint ptr_set_loop (cs : list evbuffer_chain) (position left : Z) : option (id * Z) :=
  match cs with
  | [] => None
  | c :: cs' =>
      if off c <=? position + left then ptr_set_loop cs' 0 (u64 (left - (off c - position)))
      else Some (c_id c, position + left)
  end.

Definition evbuffer_ptr_set (b : evbuffer) (p : evbuffer_ptr) (position : Z) (how : evbuffer_ptr_how) :
    E (Z * evbuffer_ptr) :=
  let finish cs p position left :=
    _ ← EVUTIL_ASSERT (position <=? EV_SIZE_MAX - left);
    mret (match ptr_set_loop cs position left with
          | Some (i, k) => (0, Ptr (pos p) (Some i) k)
          | None => (-1, Ptr (-1) None (pos_in_chain p))
          end) in
  match how with
  | EVBUFFER_PTR_SET => finish (chains b) (Ptr (ssize position) (p_chain p) (pos_in_chain p)) 0 position
  | EVBUFFER_PTR_ADD =>
      if (pos p <? 0) || (EV_SIZE_MAX - position <? pos p) then mret (-1, p)
      else
        cs ← from_ptr b p;
        finish cs (Ptr (ssize (pos p + position)) (p_chain p) (pos_in_chain p)) (pos_in_chain p) position
  end.

Fixpoint memcmp_loop (cs : list evbuffer_chain) (mem : list Z) (position : Z) : E Z :=
  match mem, cs with
  | [], _ | _, [] => mret 0
  | _, c :: cs' =>
      let len := Z.of_nat (length mem) in
      let n := if off c <? len + position then u64 (off c - position) else len in
      d ← chain_read (misalign c + position) n c;
      r ← memcmp d mem;
      if negb (r =? 0) then mret r else memcmp_loop cs' (drop (Z.to_nat n) mem) 0
  end.

Definition evbuffer_ptr_memcmp (b : evbuffer) (p : evbuffer_ptr) (mem : list Z) : E Z :=
  let len := Z.of_nat (length mem) in
  if (pos p <? 0) || (EV_SIZE_MAX - len <? pos p) || (total_len b <? pos p + len) then mret (-1)
  else
    cs ← from_ptr b p;
    memcmp_loop cs mem (pos_in_chain p).

(** ** Searching *)

Inductive searched := Found (p : evbuffer_ptr) | NotFound | NextChain (p : Z).

(** The turns of the loop in one chain, from offset [i], [p] bytes into the
    buffer.  Each turn goes on by a byte at least, so that as many turns are
    enough as there are bytes left. *)
Fixpoint search_in (fuel : nat) (b : evbuffer) (what : list Z) (fst : Z) (bound : option evbuffer_ptr)
    (c : evbuffer_chain) (i p : Z) : E searched :=
  d ← rest_of c i;
  k ← memchr d fst;
  match k, fuel with
  | Some k, S fuel =>
      let it := Ptr (p + k) (Some (c_id c)) (i + k) in
      r ← evbuffer_ptr_memcmp b it what;
      if r =? 0 then
        mret (match bound with
              | Some e => if pos e <? p + k + Z.of_nat (length what) then NotFound else Found it
              | None => Found it
              end)
      else if i + k + 1 =? off c then mret (NextChain (p + k + 1))
      else search_in fuel b what fst bound c (i + k + 1) (p + k + 1)
  | _, _ =>
      if bool_decide (Some (c_id c) = (bound ≫= p_chain)) then mret NotFound
      else mret (NextChain (p + (off c - i)))
  end.

Fixpoint search_loop (b : evbuffer) (what : list Z) (fst : Z) (bound : option evbuffer_ptr)
    (cs : list evbuffer_chain) (i p : Z) : E evbuffer_ptr :=
  match cs with
  | [] => mret (Ptr (-1) None i)
  | c :: cs' =>
      r ← search_in (Z.to_nat (off c - i)) b what fst bound c i p;
      match r with
      | Found it => mret it
      | NotFound => mret (Ptr (-1) None i)
      | NextChain p => search_loop b what fst bound cs' 0 p
      end
  end.

(** Where a search without a start begins. *)
Definition first_ptr (b : evbuffer) : evbuffer_ptr := Ptr 0 (first b) 0.

(** The offset in the chain is of no use when nothing is found. *)
Definition evbuffer_search_range (b : evbuffer) (what : list Z) (start bound : option evbuffer_ptr) : E evbuffer_ptr :=
  let it := default (first_ptr b) start in
  match what with
  | [] => mret it
  | fst :: _ =>
      if EV_SSIZE_MAX <? Z.of_nat (length what) then mret it
      else
        cs ← from_ptr b it;
        search_loop b what fst bound cs (pos_in_chain it) (pos it)
  end.

Definition evbuffer_search (b : evbuffer) (what : list Z) (start : option evbuffer_ptr) : E evbuffer_ptr :=
  evbuffer_search_range b what start None.

(** The chain of the result and the offset behind its first byte. *)
Definition evbuffer_find (b : evbuffer) (what : list Z) : E (option (id * Z) * evbuffer) :=
  p ← evbuffer_search b what None;
  if pos p <? 0 then mret (None, b)
  else
    '(s, b) ← evbuffer_pullup b (pos p + Z.of_nat (length what));
    mret ((fun i => (i, pos p)) <$> s, b).

(** ** Lines *)

(** The loop for EVBUFFER_EOL_CRLF; every turn goes on by a byte. *)
Fixpoint crlf_loop (fuel : nat) (b : evbuffer) (it : evbuffer_ptr) : E (option Z * evbuffer_ptr) :=
  match fuel with
  | O => mret (None, it)
  | S fuel =>
      '(r, it) ← evbuffer_find_eol_char b it;
      if r <? 0 then mret (None, it)
      else
        chr ← evbuffer_getchr b it;
        if chr =? LF then mret (Some 1, it)
        else
          r ← evbuffer_ptr_memcmp b it [CR; LF];
          if r =? 0 then mret (Some 2, it)
          else
            '(r, it) ← evbuffer_ptr_set b it 1 EVBUFFER_PTR_ADD;
            if r <? 0 then mret (None, it) else crlf_loop fuel b it
  end.

(** The position and the length of the end of the line. *)
Definition evbuffer_search_eol (b : evbuffer) (start : option evbuffer_ptr) (eol_style : evbuffer_eol_style) :
    E (evbuffer_ptr * Z) :=
  let it := default (first_ptr b) start in
  '(ok, it) ←
    match eol_style with
    | EVBUFFER_EOL_ANY =>
        '(r, it) ← evbuffer_find_eol_char b it;
        if r <? 0 then mret (None, it)
        else '(n, _) ← evbuffer_strspn b it [CR; LF]; mret (Some (u64 n), it)
    | EVBUFFER_EOL_CRLF_STRICT =>
        it ← evbuffer_search b [CR; LF] (Some it);
        mret (if pos it <? 0 then None else Some 2, it)
    | EVBUFFER_EOL_CRLF => crlf_loop (S (Z.to_nat (total_len b))) b it
    | EVBUFFER_EOL_LF =>
        '(r, it) ← evbuffer_strchr b it LF;
        mret (if r <? 0 then None else Some 1, it)
    end;
  mret (match ok with
        | Some extra => (it, extra)
        | None => (Ptr (-1) (p_chain it) (pos_in_chain it), 0)
        end).

(** The line in a block of its own, without its terminator, and its length. *)
Definition evbuffer_readln (b : evbuffer) (eol_style : evbuffer_eol_style) : E (option (id * list mbyte) * Z * evbuffer) :=
  if freeze_start b then mret (None, 0, b)
  else
    '(it, extra_drain) ← evbuffer_search_eol b None eol_style;
    if pos it <? 0 then mret (None, 0, b)
    else
      line ← mm_malloc;
      match line with
      | None => mret (None, 0, b)
      | Some i =>
          '(_, d, b) ← evbuffer_remove b (pos it);
          '(_, b) ← evbuffer_drain b extra_drain;
          mret (Some (i, d), pos it, b)
      end.

Definition evbuffer_readline (b : evbuffer) : E (option (id * list mbyte) * Z * evbuffer) :=
  evbuffer_readln b EVBUFFER_EOL_ANY.

(** ** Looking at the data in place *)

(** The extents: the chain, the offset in its block and the length. *)
Fixpoint peek_loop (cs : list evbuffer_chain) (len len_so_far : Z) (n_vec idx : Z) (vec : list (id * Z * Z)) :
    Z * list (id * Z * Z) :=
  match cs with
  | [] => (idx, vec)
  | c :: cs' =>
      if (0 <=? len) && (len <=? len_so_far) then (idx, vec)
      else if idx <? n_vec then
        peek_loop cs' len (len_so_far + off c) n_vec (idx + 1) (vec ++ [(c_id c, misalign c, off c)])
      else if len <? 0 then (idx, vec)
      else peek_loop cs' len (len_so_far + off c) n_vec (idx + 1) vec
  end.

Definition evbuffer_peek (b : evbuffer) (len : Z) (start_at : option evbuffer_ptr) (n_vec : Z) :
    E (Z * list (id * Z * Z)) :=
  let all := if (n_vec =? 0) && (len <? 0) then
               total_len b - (match start_at with Some s => pos s | None => 0 end)
             else len in
  match start_at with
  | Some s =>
      cs ← from_ptr b s;
      match cs with
      | [] => e_fail NullDeref
      | c :: cs' =>
          let so_far := off c - pos_in_chain s in
          let vec := if 0 <? n_vec then [(c_id c, misalign c + pos_in_chain s, so_far)] else [] in
          mret (peek_loop cs' all so_far n_vec 1 vec)
      end
  | None => mret (peek_loop (chains b) all 0 n_vec 0 [])
  end.
