(* ===== verification/EvSearchSpec.v ===== *)
(** * Searching in event buffers: lemmas

    Texts, the reference definitions of searching in them, and what the loops of
    EvSearch find: comparing, searching and moving on, then the search for a
    string and for the end of a line, in terms of the text of the buffer. *)

From Stdlib Require Import ssreflect.
From S2P Require Import Prelude CTypes HProp CMem EvBuffer EvBufSpec EvBufOps EvTagSpec EvSearch.
Set Warnings "-rewrite-rw".
Open Scope general_if_scope.
Open Scope Z_scope.

(** ** Reference definitions *)

(** The index of the first element that satisfies [f]. *)
Fixpoint find_idx (f : Z -> bool) (xs : list Z) : option nat :=
  match xs with
  | [] => None
  | x :: xs => if f x then Some O else S <$> find_idx f xs
  end.

Definition starts (what xs : list Z) : bool := bool_decide (take (length what) xs = what).

(** The index of the first occurrence of [what]. *)
Fixpoint find_sub (what xs : list Z) : option nat :=
  if starts what xs then Some O
  else match xs with [] => None | _ :: xs => S <$> find_sub what xs end.

Definition is_eol (x : Z) : bool := (x =? CR) || (x =? LF).

(** An LF, or a CR with an LF behind it: the index and the length. *)
Fixpoint crlf_end (xs : list Z) : option (nat * Z) :=
  match xs with
  | [] => None
  | x :: xs =>
      if x =? LF then Some (O, 1)
      else if starts [CR; LF] (x :: xs) then Some (O, 2)
      else (fun r => (S (fst r), snd r)) <$> crlf_end xs
  end.

Fixpoint span_len (f : Z -> bool) (xs : list Z) : nat :=
  match xs with [] => O | x :: xs => if f x then S (span_len f xs) else O end.

(** Where the first line of a text ends, and how long the end is. *)
Definition line_end (style : evbuffer_eol_style) (xs : list Z) : option (nat * Z) :=
  match style with
  | EVBUFFER_EOL_LF => (fun i => (i, 1)) <$> find_idx (Z.eqb LF) xs
  | EVBUFFER_EOL_CRLF_STRICT => (fun i => (i, 2)) <$> find_sub [CR; LF] xs
  | EVBUFFER_EOL_CRLF => crlf_end xs
  | EVBUFFER_EOL_ANY => (fun i => (i, Z.of_nat (span_len is_eol (drop i xs)))) <$> find_idx is_eol xs
  end.

(** ** Facts about them *)

Lemma line_end_pos style xs k m : line_end style xs = Some (k, m) -> 0 <= m.
Proof.
  destruct style; cbn [line_end].
  - destruct (find_idx is_eol xs); [|done]. intros [= _ <-]. lia.
  - revert k. induction xs as [|x xs IH]; intros k; cbn [crlf_end]; [done|]. destruct (x =? LF); [by intros [= _ <-]|].
    destruct (starts _ _); [by intros [= _ <-]|]. destruct (crlf_end xs) as [[i n]|]; [|done]. intros [= _ <-]. by apply (IH i).
  - destruct (find_sub _ xs); [|done]. by intros [= _ <-].
  - destruct (find_idx _ xs); [|done]. by intros [= _ <-].
Qed.

Lemma find_idx_app f xs ys :
  find_idx f (xs ++ ys) = match find_idx f xs with Some i => Some i | None => Nat.add (length xs) <$> find_idx f ys end.
Proof.
  induction xs as [|x xs IH]; cbn; [by destruct (find_idx f ys)|]. destruct (f x); [done|]. rewrite IH.
  by destruct (find_idx f xs), (find_idx f ys).
Qed.

Lemma find_idx_Some f xs i : find_idx f xs = Some i -> ∃ x, xs !! i = Some x ∧ f x = true.
Proof.
  revert i. induction xs as [|x xs IH]; intros i; [done|]. cbn. destruct (f x) eqn:Hx; [intros [= <-]; by exists x|].
  destruct (find_idx f xs) as [j|]; [|done]. intros [= <-]. by apply IH.
Qed.

Lemma find_idx_or f g xs :
  find_idx (fun x => f x || g x) xs
  = match find_idx f xs, find_idx g xs with
    | Some i, Some j => Some (Nat.min i j)
    | Some i, None => Some i
    | None, r => r
    end.
Proof.
  induction xs as [|x xs IH]; [done|]. cbn. destruct (f x), (g x); cbn; [done|by destruct (find_idx g xs)|by destruct (find_idx f xs)|].
  rewrite IH. by destruct (find_idx f xs), (find_idx g xs).
Qed.

Lemma find_sub_here what xs : starts what xs = true -> find_sub what xs = Some O.
Proof. destruct xs; cbn; by intros ->. Qed.

(** An occurrence starts with the first byte. *)
Lemma starts_first w what xs x : starts (w :: what) xs = true -> xs !! O = Some x -> x = w.
Proof. intros H%bool_decide_eq_true. destruct xs as [|y ys]; [done|]. injection H as Hy _. intros [= <-]. done. Qed.

Lemma span_len_le f xs : (span_len f xs <= length xs)%nat.
Proof. induction xs as [|x xs IH]; cbn; [done|]. destruct (f x); lia. Qed.

Lemma span_len_app f xs ys :
  span_len f (xs ++ ys) = if decide (span_len f xs = length xs) then (length xs + span_len f ys)%nat else span_len f xs.
Proof.
  induction xs as [|x xs IH]; cbn; [done|]. destruct (f x); [|done]. rewrite IH. repeat destruct (decide _); lia.
Qed.

(** ** Text in chains *)

Abbreviation text xs := (Some <$> (xs : list Z)).

Lemma memchr_text xs chr : memchr (text xs) chr = mret (Z.of_nat <$> find_idx (fun x => x =? chr) xs).
Proof.
  induction xs as [|x xs IH]; [done|]. cbn [memchr fmap list_fmap find_idx]. rewrite E_ret_bind.
  destruct (x =? chr); [done|]. rewrite IH E_ret_bind. destruct (find_idx _ xs); [|done]. cbn. do 2 f_equal. lia.
Qed.

Lemma memcmp_text xs ys :
  ∃ r, memcmp (text xs) ys = mret r ∧ (r = 0 <-> take (Nat.min (length xs) (length ys)) xs = take (Nat.min (length xs) (length ys)) ys).
Proof.
  revert ys. induction xs as [|x xs IH]; intros ys; [by exists 0|]. destruct ys as [|y ys]; [by exists 0|].
  cbn [memcmp fmap list_fmap length Nat.min take]. destruct (Z.eqb_spec x y) as [->|Hne]; rewrite E_ret_bind.
  - rewrite Z.eqb_refl. destruct (IH ys) as (r & -> & Hr). exists r. split; [done|]. rewrite Hr.
    split; [by intros ->|by intros [= ?]].
  - rewrite (proj2 (Z.eqb_neq _ _) Hne). exists (x - y). split; [done|]. split; [lia|by intros [= ?]].
Qed.

Lemma find_eol_text fuel xs :
  (length xs <= fuel)%nat -> find_eol_char fuel (text xs) = mret (Z.of_nat <$> find_idx is_eol xs).
Proof.
  revert xs. induction fuel as [|fuel IH]; intros xs Hf; [by destruct xs; [|cbn in Hf; lia]|].
  destruct xs as [|x xs]; [done|]. cbn [find_eol_char]. set (ys := x :: xs) in *.
  change (match text ys with [] => _ | _ => ?t end) with t.
  assert (Hsplit : find_idx is_eol ys = match find_idx is_eol (take CHUNK_SZ ys) with Some i => Some i
    | None => Nat.add CHUNK_SZ <$> find_idx is_eol (drop CHUNK_SZ ys) end).
  { rewrite -{1}(take_drop CHUNK_SZ ys) find_idx_app. destruct (find_idx is_eol (take CHUNK_SZ ys)); [done|].
    destruct (decide (length ys <= CHUNK_SZ)%nat) as [Hs|Hs]; [by rewrite (drop_ge ys)|]. rewrite length_take_le //. lia. }
  rewrite -fmap_take -fmap_drop !memchr_text !E_ret_bind Hsplit {1}/is_eol find_idx_or.
  destruct (find_idx (fun x => x =? CR) _) as [i|], (find_idx (fun x => x =? LF) _) as [j|]; cbn [fmap option_fmap option_map]; try done.
  - do 3 f_equal. destruct (Z.ltb_spec (Z.of_nat j) (Z.of_nat i)); lia.
  - assert (0 < CHUNK_SZ)%nat as Hpos by (rewrite /CHUNK_SZ; lia). generalize dependent CHUNK_SZ. intros sz _ Hpos.
    rewrite IH; [|rewrite length_drop; cbn [length] in Hf |- *; lia]. rewrite E_ret_bind.
    destruct (find_idx is_eol (drop sz ys)); [|done]. cbn. do 2 f_equal. lia.
Qed.

Lemma span_text xs chrset : span (text xs) chrset = mret (Z.of_nat (span_len (fun x => existsb (Z.eqb x) chrset) xs)).
Proof.
  induction xs as [|x xs IH]; [done|]. cbn [span fmap list_fmap span_len]. rewrite E_ret_bind.
  destruct (existsb _ chrset); [|done]. rewrite IH E_ret_bind. f_equal. lia.
Qed.

(** ** Chains of text *)

Lemma text_length xs : length (text xs) = length xs.
Proof. apply length_fmap. Qed.

Lemma text_app_inv ds es xs :
  ds ++ es = text xs -> ∃ ys zs, xs = ys ++ zs ∧ ds = text ys ∧ es = text zs.
Proof. intros H. symmetry in H. apply fmap_app_inv in H as (ys & zs & -> & -> & ->). eauto. Qed.

(** What is left of a chain from an offset on. *)
Lemma rest_of_bytes c i :
  chain_wf c -> 0 <= i <= off c -> rest_of c i = mret (drop (Z.to_nat i) (bytes c)).
Proof.
  intros Hc Hi. destruct (shrink_drop i c Hc Hi) as [_ <-]. destruct Hc. rewrite /rest_of u64_small; [|unfold EV_SIZE_MAX, EVBUFFER_CHAIN_MAX, EV_SSIZE_MAX in *; lia].
  rewrite /chain_read /in_range !(proj2 (Z.leb_le _ _)) //; lia.
Qed.

(** An offset in the first of the chains. *)
Definition offset_ok (cs : list evbuffer_chain) (i : Z) : Prop :=
  match cs with [] => i = 0 | c :: _ => 0 <= i <= off c end.

Lemma offset_0 cs : Forall chain_wf cs -> offset_ok cs 0.
Proof. intros H. destruct H as [|c cs []]; cbn; lia. Qed.

(** A chain and those behind it, from an offset on. *)
Lemma text_from c cs i xs :
  chain_wf c -> 0 <= i <= off c -> drop (Z.to_nat i) (all_bytes (c :: cs)) = text xs ->
  ∃ ys zs, xs = ys ++ zs ∧ drop (Z.to_nat i) (bytes c) = text ys ∧ all_bytes cs = text zs
    ∧ Z.of_nat (length ys) = off c - i ∧ rest_of c i = mret (text ys).
Proof.
  intros Hc Hi Ht. pose proof (bytes_length c Hc) as Hl. rewrite all_bytes_cons drop_app_le in Ht; [|lia].
  apply text_app_inv in Ht as (ys & zs & -> & Hy & Hz). exists ys, zs. split_and!; try done.
  - apply (f_equal length) in Hy. rewrite length_drop text_length in Hy. lia.
  - by rewrite rest_of_bytes // Hy.
Qed.

(** ** Positions *)

(** [it] is between [pre] and [cs], in the first chain of [cs] unless that is
    the end. *)
Record splits (b : evbuffer) (it : evbuffer_ptr) (pre cs : list evbuffer_chain) : Prop := {
  sp_chains : chains b = pre ++ cs;
  sp_chain : p_chain it = c_id <$> head cs;
  sp_pos : pos it = Z.of_nat (length (all_bytes pre)) + pos_in_chain it;
  sp_off : offset_ok cs (pos_in_chain it) }.

Definition points (b : evbuffer) (it : evbuffer_ptr) : Prop := ∃ pre cs, splits b it pre cs.

(** At a byte. *)
Definition points_at (b : evbuffer) (it : evbuffer_ptr) : Prop :=
  ∃ pre c post, splits b it pre (c :: post) ∧ pos_in_chain it < off c.

Lemma points_at_points b it : points_at b it -> points b it.
Proof. intros (pre & c & post & H & _). by exists pre, (c :: post). Qed.

Lemma points_at_intro b pre c post i :
  chains b = pre ++ c :: post -> 0 <= i < off c ->
  points_at b (Ptr (Z.of_nat (length (all_bytes pre)) + i) (Some (c_id c)) i).
Proof. intros Hcs Hi. exists pre, c, post. split; [|cbn; lia]. split; cbn; try done. lia. Qed.

Lemma chains_from_app pre c post :
  NoDup (c_id <$> (pre ++ c :: post)) -> chains_from (c_id c) (pre ++ c :: post) = Some (c :: post).
Proof.
  intros Hnd. apply fresh_in_prefix in Hnd as [Hpre _]. induction Hpre as [|x pre Hx _ IH]; cbn.
  - by rewrite decide_True.
  - by rewrite decide_False.
Qed.

Section positions.
Context (b : evbuffer) (e : evenv) (xs : list Z).
Context (Hwf : buffer_wf b e) (Htext : contents b = text xs).

Lemma first_points : points b (first_ptr b).
Proof.
  exists [], (chains b). split; try done; [|apply offset_0, Hwf].
  rewrite /first_ptr /first. by destruct (chains b).
Qed.

Lemma from_ptr_splits it pre cs : splits b it pre cs -> from_ptr b it = mret cs.
Proof.
  intros [Hcs Hch _ _]. rewrite /from_ptr Hch. destruct cs as [|c cs]; [done|]. cbn.
  pose proof (bw_ids _ _ _ _ _ Hwf) as Hnd. rewrite Hcs in Hnd |- *. by rewrite chains_from_app.
Qed.

(** The bytes from a position on. *)
Lemma splits_text it pre cs :
  splits b it pre cs -> Forall chain_wf cs ∧ drop (Z.to_nat (pos_in_chain it)) (all_bytes cs) = text (drop (Z.to_nat (pos it)) xs)
    ∧ 0 <= pos_in_chain it <= pos it ∧ pos it <= Z.of_nat (length xs) ∧ Z.of_nat (length (all_bytes pre)) <= pos it.
Proof.
  intros [Hcs _ Hpos Hoff]. pose proof (bw_chains _ _ _ _ _ Hwf) as Hcw. rewrite Hcs Forall_app in Hcw. destruct Hcw as [_ Hcw].
  assert (Hi : 0 <= pos_in_chain it <= Z.of_nat (length (all_bytes cs))).
  { destruct Hcw as [|c cs Hc]; cbn in Hoff; [cbn; lia|]. rewrite all_bytes_cons length_app. pose proof (bytes_length c Hc). lia. }
  pose proof Htext as Ht. rewrite /contents Hcs all_bytes_app in Ht.
  pose proof (f_equal length Ht) as Hl. rewrite length_app text_length in Hl.
  split_and!; [done| |lia..]. rewrite fmap_drop -Ht drop_app_ge; [|lia]. f_equal. lia.
Qed.

Lemma xs_bound : Z.of_nat (length xs) = total_len b ∧ Z.of_nat (length xs) <= EV_SIZE_MAX.
Proof.
  pose proof (wf_total b e Hwf) as Ht. rewrite Htext text_length in Ht. split; [lia|]. rewrite -Ht. apply Hwf.
Qed.

(** Scanning for a byte. *)
Lemma scan_loop_spec find f cs pre i p it :
  (∀ ys, find (text ys) = mret (Z.of_nat <$> find_idx f ys)) ->
  chains b = pre ++ cs -> Forall chain_wf cs -> offset_ok cs i -> p = Z.of_nat (length (all_bytes pre)) + i ->
  drop (Z.to_nat i) (all_bytes cs) = text (drop (Z.to_nat p) xs) ->
  ∃ r it', scan_loop find cs i p it = mret (r, it') ∧
    match find_idx f (drop (Z.to_nat p) xs) with
    | Some k => r = p + Z.of_nat k ∧ pos it' = r ∧ points_at b it'
    | None => r = -1
    end.
Proof.
  intros Hfind Hcs Hcw. revert pre i p Hcs. induction Hcw as [|c cs Hc Hcw IH]; intros pre i p Hcs Hoff Hp Ht.
  { rewrite drop_nil in Ht. destruct (drop (Z.to_nat p) xs); [|done]. eexists _, _. split; [done|]. done. }
  cbn [scan_loop]. pose proof Ht as Ht'. apply text_from in Ht' as (ys & zs & Hxs & Hy & Hz & Hl & ->); [|done..].
  rewrite E_ret_bind Hfind E_ret_bind Hxs find_idx_app.
  destruct (find_idx f ys) as [k|] eqn:Hk; cbn [fmap option_fmap option_map].
  - eexists _, _. split; [done|]. split_and!; [done|done|]. rewrite Hp -Z.add_assoc. apply points_at_intro with cs; [done|].
    apply find_idx_Some in Hk as (x & Hx%lookup_lt_Some & _). cbn in Hoff. lia.
  - pose proof (bytes_length c Hc) as Hbl. cbn in Hoff.
    assert (Hdrop : drop (Z.to_nat (p + (off c - i))) xs = zs).
    { replace (Z.to_nat (p + (off c - i))) with (Z.to_nat p + length ys)%nat by lia. by rewrite -drop_drop Hxs drop_app_length. }
    destruct (IH (pre ++ [c]) 0 (p + (off c - i))) as (r & it' & -> & Hr).
    + by rewrite -app_assoc.
    + by apply offset_0.
    + rewrite all_bytes_app all_bytes_one length_app. lia.
    + by rewrite drop_0 Hdrop.
    + rewrite Hdrop in Hr. exists r, it'. split; [done|]. destruct (find_idx f zs); cbn in Hr |- *; [|done].
      destruct Hr as (-> & Hpos & Hat). split_and!; [lia|lia|done].
Qed.

Lemma strchr_spec it chr :
  points b it -> ∃ r it', evbuffer_strchr b it chr = mret (r, it') ∧
    match find_idx (fun x => x =? chr) (drop (Z.to_nat (pos it)) xs) with
    | Some k => r = pos it + Z.of_nat k ∧ pos it' = r ∧ points_at b it'
    | None => r = -1
    end.
Proof.
  intros (pre & cs & Hsp). destruct (splits_text it pre cs Hsp) as (Hcw & Ht & _). rewrite /evbuffer_strchr (from_ptr_splits _ _ _ Hsp) E_ret_bind.
  destruct Hsp. eapply scan_loop_spec; try done. intros ys. apply memchr_text.
Qed.

Lemma find_eol_char_spec it :
  points b it -> ∃ r it', evbuffer_find_eol_char b it = mret (r, it') ∧
    match find_idx is_eol (drop (Z.to_nat (pos it)) xs) with
    | Some k => r = pos it + Z.of_nat k ∧ pos it' = r ∧ points_at b it'
    | None => r = -1
    end.
Proof.
  intros (pre & cs & Hsp). destruct (splits_text it pre cs Hsp) as (Hcw & Ht & _).
  rewrite /evbuffer_find_eol_char (from_ptr_splits _ _ _ Hsp) E_ret_bind.
  destruct Hsp. eapply scan_loop_spec; try done. intros ys. apply find_eol_text. by rewrite text_length.
Qed.

End positions.

(** ** Occurrences *)

Lemma starts_app what ys zs :
  starts what (ys ++ zs) = true <->
  take (Nat.min (length ys) (length what)) ys = take (Nat.min (length ys) (length what)) what
  ∧ starts (drop (Nat.min (length ys) (length what)) what) zs = true.
Proof.
  rewrite /starts !bool_decide_eq_true length_drop. destruct (Nat.le_gt_cases (length what) (length ys)) as [Hle|Hgt].
  - rewrite Nat.min_r // Nat.sub_diag take_0 drop_all take_app_le // (take_ge what) //. tauto.
  - rewrite Nat.min_l; [|lia]. rewrite take_app_ge; [|lia]. rewrite (take_ge ys) //.
    generalize (length what - length ys)%nat. clear Hgt. intros m. split.
    + intros <-. by rewrite take_app_length drop_app_length.
    + intros [Hy Hz]. rewrite Hz {1}Hy. apply take_drop.
Qed.

Lemma starts_length what xs : starts what xs = true -> (length what <= length xs)%nat.
Proof. intros H%bool_decide_eq_true. apply (f_equal length) in H. rewrite length_take in H. lia. Qed.

(** Comparing across chains. *)
Lemma memcmp_loop_spec cs mem i xs :
  Forall chain_wf cs -> offset_ok cs i -> drop (Z.to_nat i) (all_bytes cs) = text xs ->
  Z.of_nat (length mem) <= Z.of_nat (length xs) ->
  ∃ r, memcmp_loop cs mem i = mret r ∧ (r = 0 <-> starts mem xs = true).
Proof.
  intros Hcw. revert mem i xs. induction Hcw as [|c cs Hc Hcw IH]; intros mem i xs Hoff Ht Hlen.
  { rewrite drop_nil in Ht. destruct xs; [|done]. destruct mem; [|cbn in Hlen; lia]. by exists 0. }
  destruct (decide (mem = [])) as [->|Hne]; [exists 0; split; [by destruct cs|done]|].
  apply text_from in Ht as (ys & zs & -> & Hy & Hz & Hl & Hrest); [|done..]. cbn in Hoff. pose proof Hc as [].
  set (n := if off c <? Z.of_nat (length mem) + i then u64 (off c - i) else Z.of_nat (length mem)).
  assert (Hn : n = Z.of_nat (Nat.min (length ys) (length mem))).
  { rewrite /n. destruct (Z.ltb_spec (off c) (Z.of_nat (length mem) + i)); [|lia].
    rewrite u64_small; [lia|]. unfold EV_SIZE_MAX, EVBUFFER_CHAIN_MAX, EV_SSIZE_MAX in *; lia. }
  replace (memcmp_loop (c :: cs) mem i) with (d ← chain_read (misalign c + i) n c; r ← memcmp d mem;
    if negb (r =? 0) then mret r else memcmp_loop cs (drop (Z.to_nat n) mem) 0); last by destruct mem.
  assert (Hread : chain_read (misalign c + i) n c = mret (text (take (Z.to_nat n) ys))).
  { rewrite /chain_read /in_range !(proj2 (Z.leb_le _ _)); [|lia..]. cbn. f_equal. rewrite fmap_take -Hy /bytes.
    destruct (shrink_drop i c Hc Hoff) as [_ Hs]. rewrite -/(bytes c) -Hs /bytes /= /slice take_take. f_equal. lia. }
  rewrite Hread E_ret_bind Hn Nat2Z.id. destruct (memcmp_text (take (Nat.min (length ys) (length mem)) ys) mem) as (r & -> & Hr).
  rewrite E_ret_bind. rewrite length_take in Hr. replace (_ `min` length mem)%nat with (Nat.min (length ys) (length mem)) in Hr by lia.
  rewrite take_take Nat.min_id in Hr. setoid_rewrite starts_app. destruct (Z.eqb_spec r 0) as [->|Hr0]; cbn [negb].
  - edestruct (IH (drop (Nat.min (length ys) (length mem)) mem) 0 zs) as (r' & -> & Hr').
    + by apply offset_0.
    + by rewrite drop_0.
    + rewrite length_app in Hlen. rewrite length_drop. lia.
    + exists r'. split; [done|]. rewrite Hr'. tauto.
  - exists r. split; [done|]. tauto.
Qed.

Section ops.
Context (b : evbuffer) (e : evenv) (xs : list Z).
Context (Hwf : buffer_wf b e) (Htext : contents b = text xs).

Lemma ptr_memcmp_spec it mem :
  points b it ->
  ∃ r, evbuffer_ptr_memcmp b it mem = mret r ∧ (r = 0 <-> starts mem (drop (Z.to_nat (pos it)) xs) = true).
Proof.
  intros (pre & cs & Hsp). destruct (splits_text b e xs Hwf Htext _ _ _ Hsp) as (Hcw & Ht & Hi & Hp & _).
  destruct (xs_bound b e xs Hwf Htext) as [Hxt Hxs]. rewrite /evbuffer_ptr_memcmp (proj2 (Z.ltb_ge (pos it) 0)); [|lia].
  destruct (decide (pos it + Z.of_nat (length mem) <= total_len b)) as [Hfit|Hno].
  - rewrite !(proj2 (Z.ltb_ge _ _)); [|lia..]. cbn [orb]. rewrite (from_ptr_splits b e Hwf _ _ _ Hsp) E_ret_bind.
    apply memcmp_loop_spec; [done|apply Hsp|done|]. rewrite length_drop. lia.
  - exists (-1). rewrite (proj2 (Z.ltb_lt (total_len b) _)); [|lia]. rewrite orb_true_r. split; [done|].
    split; [lia|]. intros H%starts_length. rewrite length_drop in H. lia.
Qed.

Lemma getchr_spec it :
  points_at b it -> ∃ x, evbuffer_getchr b it = mret x ∧ drop (Z.to_nat (pos it)) xs = x :: drop (S (Z.to_nat (pos it))) xs.
Proof.
  intros (pre & c & post & Hsp & Hlt). destruct (splits_text b e xs Hwf Htext _ _ _ Hsp) as (Hcw & Ht & Hi & Hp & _).
  rewrite /evbuffer_getchr (from_ptr_splits b e Hwf _ _ _ Hsp) E_ret_bind.
  apply Forall_cons in Hcw as [Hc _]. pose proof Hc as [].
  apply text_from in Ht as (ys & zs & Hxs & Hy & _ & Hl & _); [|done|lia].
  destruct ys as [|y ys]; [cbn in Hl; lia|]. exists y. split.
  - rewrite /chain_read /in_range !(proj2 (Z.leb_le _ _)); [|lia..]. cbn [andb]. rewrite E_ret_bind.
    destruct (shrink_drop (pos_in_chain it) c Hc) as [_ Hs]; [lia|]. rewrite -Hs /bytes /= in Hy.
    rewrite /slice in Hy |- *. replace (Z.to_nat (off c - pos_in_chain it)) with (S (length ys)) in Hy by (cbn in Hl; lia).
    destruct (drop _ (c_data c)); [done|]. cbn in Hy |- *. by injection Hy as ->.
  - rewrite Hxs. f_equal. replace (S (Z.to_nat (pos it))) with (Z.to_nat (pos it) + 1)%nat by lia. by rewrite -drop_drop Hxs.
Qed.

(** Moving on, to a byte. *)
Lemma ptr_set_loop_spec cs pre i left :
  chains b = pre ++ cs -> Forall chain_wf cs -> offset_ok cs i -> 0 <= left ->
  i + left <= EV_SIZE_MAX ->
  match ptr_set_loop cs i left with
  | Some (j, k) => points_at b (Ptr (Z.of_nat (length (all_bytes pre)) + i + left) (Some j) k)
  | None => Z.of_nat (length (all_bytes cs)) <= i + left
  end.
Proof.
  intros Hcs Hcw. revert pre i left Hcs. induction Hcw as [|c cs Hc Hcw IH]; intros pre i left Hcs Hoff Hleft Hmax; cbn [ptr_set_loop].
  { cbn in Hoff |- *. lia. }
  cbn in Hoff. pose proof (bytes_length c Hc) as Hbl. destruct (Z.leb_spec (off c) (i + left)) as [Hle|Hgt].
  - rewrite u64_small; [|lia]. specialize (IH (pre ++ [c]) 0 (left - (off c - i))).
    rewrite -app_assoc in IH. specialize (IH Hcs (offset_0 _ Hcw) ltac:(lia) ltac:(lia)).
    rewrite all_bytes_app all_bytes_one !length_app in IH. rewrite all_bytes_cons length_app.
    destruct (ptr_set_loop _ _ _) as [[j k]|]; [|lia].
    replace (_ + i + left) with (Z.of_nat (length (all_bytes pre) + length (bytes c)) + 0 + (left - (off c - i))) by lia. done.
  - rewrite -Z.add_assoc. apply (points_at_intro b pre c cs); [done|]. lia.
Qed.

Lemma ptr_add_spec it n :
  points b it -> 0 <= n -> pos it + n < 2 ^ 63 ->
  ∃ r it', evbuffer_ptr_set b it n EVBUFFER_PTR_ADD = mret (r, it') ∧
    (r = 0 ∧ pos it' = pos it + n ∧ points_at b it' ∨ r = -1 ∧ pos it' = -1 ∧ Z.of_nat (length xs) <= pos it + n).
Proof.
  intros (pre & cs & Hsp) Hn Hmax. destruct (splits_text b e xs Hwf Htext _ _ _ Hsp) as (Hcw & Ht & Hi & Hp & _).
  rewrite /evbuffer_ptr_set (proj2 (Z.ltb_ge (pos it) 0)); [|lia]. rewrite (proj2 (Z.ltb_ge (EV_SIZE_MAX - n) _)); [|unfold EV_SIZE_MAX; lia].
  cbn [orb]. rewrite (from_ptr_splits b e Hwf _ _ _ Hsp) E_ret_bind (proj2 (Z.leb_le _ _)); [|unfold EV_SIZE_MAX; lia].
  rewrite E_ret_bind. destruct Hsp as [Hcs _ Hpos Hoff].
  pose proof (ptr_set_loop_spec cs pre (pos_in_chain it) n Hcs Hcw Hoff Hn ltac:(unfold EV_SIZE_MAX; lia)) as Hset.
  assert (Hss : ssize (pos it + n) = pos it + n) by (rewrite /ssize Z.mod_small; lia). cbn [pos] in *.
  destruct (ptr_set_loop cs _ n) as [[j k]|]; eexists _, _; (split; [done|]).
  - left. rewrite Hss Hpos. done.
  - right. split_and!; [done..|]. pose proof (f_equal length Htext) as Hl. rewrite /contents Hcs all_bytes_app length_app text_length in Hl. lia.
Qed.

(** The run of bytes of a set. *)
Lemma strspn_loop_spec c cs chrset i count p ys :
  Forall chain_wf (c :: cs) -> 0 <= i <= off c -> drop (Z.to_nat i) (all_bytes (c :: cs)) = text ys ->
  count + Z.of_nat (length ys) < 2 ^ 31 ->
  ∃ it', strspn_loop c cs chrset i count p
    = mret (count + Z.of_nat (span_len (fun x => existsb (Z.eqb x) chrset) ys), it').
Proof.
  revert c i count ys. induction cs as [|c' cs IH]; intros c i count ys [Hc Hcw]%Forall_cons Hi Ht Hmax;
    apply text_from in Ht as (us & vs & -> & Hu & Hv & Hl & Hrest); try done; cbn [strspn_loop].
  all: replace (if i <? off c then rest_of c i else mret []) with (mret (text us) : E (list mbyte));
    last by (destruct (Z.ltb_spec i (off c)); [|destruct us; [|cbn in Hl; lia]]).
  all: rewrite E_ret_bind span_text E_ret_bind; rewrite length_app in Hmax; set (f := fun x => existsb _ chrset).
  all: pose proof (span_len_le f us) as Hsp; pose proof (span_len_app f us vs) as Happ.
  all: rewrite (proj2 (Z.leb_gt _ _)); [|lia].
  - assert (vs = []) as -> by by destruct vs. rewrite app_nil_r in Happ |- *.
    destruct (i + _ <? off c); eexists; done.
  - rewrite Happ. destruct (Z.ltb_spec (i + Z.of_nat (span_len f us)) (off c)); destruct (decide (span_len f us = length us)) as [He|He]; try lia.
    + eexists; done.
    + destruct (IH c' 0 (count + Z.of_nat (span_len f us)) vs) as [it' ->].
      * done.
      * apply Forall_cons in Hcw as [[] _]. lia.
      * by rewrite drop_0.
      * lia.
      * exists it'. rewrite -/f. do 2 f_equal. lia.
Qed.

Lemma strspn_spec it chrset :
  points_at b it -> Z.of_nat (length xs) < 2 ^ 31 ->
  ∃ it', evbuffer_strspn b it chrset
    = mret (Z.of_nat (span_len (fun x => existsb (Z.eqb x) chrset) (drop (Z.to_nat (pos it)) xs)), it').
Proof.
  intros (pre & c & post & Hsp & Hlt) Hmax. destruct (splits_text b e xs Hwf Htext _ _ _ Hsp) as (Hcw & Ht & Hi & Hp & _).
  rewrite /evbuffer_strspn (from_ptr_splits b e Hwf _ _ _ Hsp) E_ret_bind. destruct Hsp as [_ _ _ Hoff].
  destruct (strspn_loop_spec c post chrset (pos_in_chain it) 0 (pos it) _ Hcw Hoff Ht) as [it' ->].
  - rewrite length_drop. lia.
  - by exists it'.
Qed.

End ops.

(** ** Skipping bytes *)

(** No occurrence starts in front of the first byte of what is looked for. *)
Lemma find_sub_first w what xs :
  find_sub (w :: what) xs = match find_idx (fun x => x =? w) xs with
                            | Some k => Nat.add k <$> find_sub (w :: what) (drop k xs)
                            | None => None
                            end.
Proof.
  induction xs as [|x xs IH]; [done|]. cbn [find_sub find_idx]. destruct (Z.eqb_spec x w) as [->|Hx].
  - cbn [drop find_sub]. destruct (starts _ _); [done|]. by destruct (find_sub _ xs).
  - destruct (starts (w :: what) (x :: xs)) eqn:Hst; [by apply (starts_first _ _ _ x) in Hst|].
    rewrite IH. destruct (find_idx _ xs) as [k|]; [|done]. cbn. by destruct (find_sub _ (drop k xs)).
Qed.

Lemma find_sub_none w what ys zs :
  find_idx (fun x => x =? w) ys = None ->
  find_sub (w :: what) (ys ++ zs) = Nat.add (length ys) <$> find_sub (w :: what) zs.
Proof.
  intros Hk. rewrite (find_sub_first w what (ys ++ zs)) find_idx_app Hk (find_sub_first w what zs).
  destruct (find_idx _ zs) as [j|]; [|done]. cbn [fmap option_fmap option_map]. rewrite drop_app_add.
  destruct (find_sub _ (drop j zs)) as [m|]; [|done]. cbn. f_equal. lia.
Qed.

Lemma find_sub_next what x xs :
  starts what (x :: xs) = false -> find_sub what (x :: xs) = S <$> find_sub what xs.
Proof. intros H. cbn [find_sub]. by rewrite H. Qed.

Definition shift (k : nat) (r : nat * Z) : nat * Z := ((k + fst r)%nat, snd r).

Lemma crlf_end_first xs :
  crlf_end xs = match find_idx is_eol xs with
                | Some k => shift k <$> crlf_end (drop k xs)
                | None => None
                end.
Proof.
  induction xs as [|x xs IH]; [done|]. cbn [crlf_end find_idx]. rewrite {1}/is_eol.
  destruct (Z.eqb_spec x LF) as [->|Hlf]; [done|]. rewrite orb_false_r. destruct (Z.eqb_spec x CR) as [->|Hcr].
  - cbn [drop]. cbn [crlf_end]. rewrite (proj2 (Z.eqb_neq CR LF)) //. destruct (starts _ _); [done|].
    destruct (crlf_end xs) as [[i n]|]; done.
  - destruct (starts [CR; LF] (x :: xs)) eqn:Hst; [by apply (starts_first _ _ _ x) in Hst|].
    rewrite IH. destruct (find_idx is_eol xs) as [k|]; [|done]. cbn. by destruct (crlf_end (drop k xs)) as [[i n]|].
Qed.

Section find.
Context (b : evbuffer) (e : evenv) (xs : list Z).
Context (Hwf : buffer_wf b e) (Htext : contents b = text xs).

Abbreviation from p := (drop (Z.to_nat p) xs).

Lemma from_add p k : 0 <= p -> drop k (from p) = from (p + Z.of_nat k).
Proof. intros. rewrite drop_drop. f_equal. lia. Qed.

(** ** Strings *)

(** Going on behind a first byte that was not the start of an occurrence. *)
Lemma find_sub_step wh p k :
  0 <= p -> p + Z.of_nat k < Z.of_nat (length xs) ->
  find_sub wh (from p) = Nat.add k <$> find_sub wh (from (p + Z.of_nat k)) ->
  starts wh (from (p + Z.of_nat k)) = false ->
  find_sub wh (from p) = Nat.add (Z.to_nat (Z.of_nat k + 1)) <$> find_sub wh (from (p + (Z.of_nat k + 1))).
Proof.
  intros Hp Hlt -> Hst. destruct (from (p + Z.of_nat k)) as [|x t] eqn:Hfr.
  - apply (f_equal length) in Hfr. rewrite length_drop /= in Hfr. lia.
  - rewrite (find_sub_next wh x t Hst). replace (from (p + (Z.of_nat k + 1))) with t.
    + destruct (find_sub wh t); [|done]. cbn. f_equal. lia.
    + rewrite Z.add_assoc. change 1 with (Z.of_nat 1). rewrite -from_add; [|lia]. by rewrite Hfr.
Qed.

(** What a turn in the chain behind [pre] leads to. *)
Definition search_ok (what : list Z) (p : Z) (next : Z) (s : searched) : Prop :=
  match s with
  | Found it => ∃ k, find_sub what (from p) = Some k ∧ pos it = p + Z.of_nat k ∧ points_at b it
  | NotFound => False
  | NextChain p' => p' = next ∧ p <= p' ∧ find_sub what (from p) = Nat.add (Z.to_nat (p' - p)) <$> find_sub what (from p')
  end.

Lemma search_ok_later what p k next s :
  0 <= p -> 0 <= k -> find_sub what (from p) = Nat.add (Z.to_nat k) <$> find_sub what (from (p + k)) ->
  search_ok what (p + k) next s -> search_ok what p next s.
Proof.
  intros Hp Hk Heq. destruct s as [it| |p']; cbn; [|done|].
  - intros (j & Hj & Hpos & Hat). exists (Z.to_nat k + j)%nat. rewrite Heq Hj. split_and!; [done|lia|done].
  - intros (-> & Hle & Hj). split_and!; [done|lia|]. rewrite Heq Hj. destruct (find_sub what (from next)); [|done]. cbn. f_equal. lia.
Qed.

Lemma search_in_spec fuel w what pre c post i p :
  chains b = pre ++ c :: post -> 0 <= i <= off c -> p = Z.of_nat (length (all_bytes pre)) + i ->
  (Z.to_nat (off c - i) <= fuel)%nat ->
  ∃ s, search_in fuel b (w :: what) w None c i p = mret s ∧ search_ok (w :: what) p (p + (off c - i)) s.
Proof.
  revert i p. induction fuel as [|fuel IH]; intros i p Hcs Hi Hp Hfuel; set (wh := w :: what) in *.
  all: assert (Hsp : splits b (Ptr p (Some (c_id c)) i) pre (c :: post)) by by split.
  all: destruct (splits_text b e xs Hwf Htext _ _ _ Hsp) as (Hcw & Ht & Hpi & Hpx & Hpre); cbn [pos pos_in_chain] in *.
  all: apply Forall_cons in Hcw as [Hc Hcw].
  all: apply text_from in Ht as (ys & zs & Hxs & Hy & Hz & Hl & Hrest); [|done..].
  all: assert (Hzs : zs = from (p + (off c - i))) by
    (rewrite -Hl -from_add; [|lia]; by rewrite Hxs drop_app_length).
  all: cbn [search_in]; rewrite Hrest E_ret_bind memchr_text E_ret_bind.
  all: assert (Hnone : find_idx (fun x => x =? w) ys = None ->
      search_ok wh p (p + (off c - i)) (NextChain (p + (off c - i)))) by
    (intros Hk; split_and!; [done|lia|]; rewrite -Hzs Hxs (find_sub_none _ _ _ _ Hk); do 2 f_equal; lia).
  { destruct ys; [|cbn in Hl; lia]. eexists. split; [done|]. by apply Hnone. }
  destruct (find_idx (fun x => x =? w) ys) as [k|] eqn:Hk; cbn [fmap option_fmap option_map]; last first.
  { eexists. split; [done|]. by apply Hnone. }
  clear Hnone. assert (Hlt : (k < length ys)%nat) by (apply find_idx_Some in Hk as (x & Hx%lookup_lt_Some & _); done).
  assert (Hat : points_at b (Ptr (p + Z.of_nat k) (Some (c_id c)) (i + Z.of_nat k))).
  { rewrite Hp -Z.add_assoc. eapply points_at_intro; [done|lia]. }
  assert (Hskip : find_sub wh (from p) = Nat.add k <$> find_sub wh (from (p + Z.of_nat k))).
  { rewrite {1}/wh find_sub_first {1}Hxs find_idx_app Hk. by rewrite from_add; [|lia]. }
  destruct (ptr_memcmp_spec b e xs Hwf Htext _ wh (points_at_points _ _ Hat)) as (r & -> & Hr). rewrite E_ret_bind. cbn [pos] in Hr.
  destruct (Z.eqb_spec r 0) as [H0|H0].
  { eexists. split; [done|]. exists k. rewrite Hskip (find_sub_here wh _ (proj1 Hr H0)). split_and!; [cbn; f_equal; lia|done|done]. }
  assert (Hst : starts wh (from (p + Z.of_nat k)) = false) by (destruct (starts wh _); tauto).
  assert (Hlen : p + Z.of_nat k < Z.of_nat (length xs)) by (apply (f_equal length) in Hxs; rewrite length_drop length_app in Hxs; lia).
  pose proof (find_sub_step wh p k ltac:(lia) Hlen Hskip Hst) as Hstep.
  destruct (Z.eqb_spec (i + Z.of_nat k + 1) (off c)) as [Hend|Hmore].
  - eexists. split; [done|]. cbn. split_and!; [lia|lia|]. rewrite Hstep. replace (p + Z.of_nat k + 1) with (p + (Z.of_nat k + 1)) by lia.
    do 2 f_equal. lia.
  - destruct (IH (i + Z.of_nat k + 1) (p + Z.of_nat k + 1)) as (s & -> & Hs); [done|lia|lia|lia|].
    exists s. split; [done|]. eapply (search_ok_later _ _ (Z.of_nat k + 1)); [lia|lia|done|].
    replace (p + (Z.of_nat k + 1)) with (p + Z.of_nat k + 1) by lia. by replace (p + (off c - i)) with (p + Z.of_nat k + 1 + (off c - (i + Z.of_nat k + 1))) by lia.
Qed.

Lemma search_loop_spec w what cs pre i p :
  chains b = pre ++ cs -> Forall chain_wf cs -> offset_ok cs i -> p = Z.of_nat (length (all_bytes pre)) + i ->
  ∃ it, search_loop b (w :: what) w None cs i p = mret it ∧
    match find_sub (w :: what) (from p) with
    | Some k => pos it = p + Z.of_nat k ∧ points_at b it
    | None => pos it = -1
    end.
Proof.
  intros Hcs Hcw. revert pre i p Hcs. induction Hcw as [|c cs Hc Hcw IH]; intros pre i p Hcs Hoff Hp.
  - eexists. split; [done|]. rewrite drop_ge; [done|]. pose proof (f_equal length Htext) as Hl.
    rewrite /contents Hcs app_nil_r text_length in Hl. cbn in Hoff. lia.
  - cbn in Hoff. pose proof (bytes_length c Hc) as Hbl.
    destruct (search_in_spec (Z.to_nat (off c - i)) w what pre c cs i p) as (s & Heq & Hs); [done|done|done|done|].
    cbn [search_loop]. rewrite Heq E_ret_bind. destruct s as [it| |p']; cbn in Hs.
    + destruct Hs as (k & -> & Hpos & Hat). exists it. done.
    + done.
    + destruct Hs as (-> & Hle & ->). destruct (IH (pre ++ [c]) 0 (p + (off c - i))) as (it & -> & Hit).
      * by rewrite -app_assoc.
      * by apply offset_0.
      * rewrite all_bytes_app all_bytes_one length_app. lia.
      * exists it. split; [done|]. destruct (find_sub _ (from (p + (off c - i)))); cbn; [|done]. destruct Hit. split; [lia|done].
Qed.

Lemma search_from it what :
  points b it -> Z.of_nat (length what) <= EV_SSIZE_MAX ->
  ∃ it', evbuffer_search b what (Some it) = mret it' ∧
    match find_sub what (from (pos it)) with
    | Some k => pos it' = pos it + Z.of_nat k ∧ points b it'
    | None => pos it' = -1
    end.
Proof.
  intros Hit Hlen. rewrite /evbuffer_search /evbuffer_search_range. cbn [default]. destruct what as [|w what].
  { exists it. split; [done|]. rewrite find_sub_here //. split; [lia|done]. }
  rewrite (proj2 (Z.ltb_ge _ _)) //. destruct Hit as (pre & cs & Hsp).
  destruct (splits_text b e xs Hwf Htext _ _ _ Hsp) as (Hcw & _ & _). rewrite /= (from_ptr_splits b e Hwf _ _ _ Hsp) E_ret_bind.
  destruct Hsp. edestruct (search_loop_spec w what cs pre (pos_in_chain it) (pos it)) as (it' & -> & Hit'); try done.
  exists it'. split; [done|]. destruct (find_sub _ _); [|done]. destruct Hit'. split; [done|by apply points_at_points].
Qed.

(** ** Lines *)

Lemma crlf_loop_spec fuel it :
  points b it -> 0 <= pos it -> Z.of_nat (length xs) < 2 ^ 31 -> (length (from (pos it)) < fuel)%nat ->
  ∃ ok it', crlf_loop fuel b it = mret (ok, it') ∧
    match crlf_end (from (pos it)) with
    | Some (k, n) => ok = Some n ∧ pos it' = pos it + Z.of_nat k
    | None => ok = None
    end.
Proof.
  revert it. induction fuel as [|fuel IH]; intros it Hit Hp Hx Hfuel; [lia|]. cbn [crlf_loop].
  destruct (find_eol_char_spec b e xs Hwf Htext it Hit) as (r & it1 & -> & Hr). rewrite E_ret_bind crlf_end_first.
  destruct (find_idx is_eol (from (pos it))) as [k|] eqn:Hk; last first.
  { rewrite Hr. eexists _, _. split; [done|]. done. }
  destruct Hr as (-> & Hpos & Hat). rewrite (proj2 (Z.ltb_ge (pos it + _) 0)); [|lia].
  destruct (getchr_spec b e xs Hwf Htext it1 Hat) as (x & -> & Hx1). rewrite E_ret_bind.
  rewrite from_add // -Hpos Hx1. cbn [crlf_end]. destruct (Z.eqb_spec x LF) as [Hlf|Hlf].
  { eexists _, _. split; [done|]. cbn. split; [done|lia]. }
  destruct (ptr_memcmp_spec b e xs Hwf Htext it1 [CR; LF] (points_at_points _ _ Hat)) as (r & -> & Hr).
  rewrite Hx1 in Hr. rewrite E_ret_bind. destruct (Z.eqb_spec r 0) as [H0|H0].
  { rewrite (proj1 Hr H0). eexists _, _. split; [done|]. cbn. split; [done|lia]. }
  replace (starts [CR; LF] _) with false by (destruct (starts _ _); tauto).
  apply find_idx_Some in Hk as (y & Hy%lookup_lt_Some & _). rewrite length_drop in Hy, Hfuel.
  destruct (ptr_add_spec b e xs Hwf Htext it1 1 (points_at_points _ _ Hat)) as (r2 & it2 & -> & Hr2); [lia|lia|].
  rewrite E_ret_bind. destruct Hr2 as [(-> & Hpos2 & Hat2)|(-> & Hpos2 & Hend)]; cbn [Z.ltb Z.compare].
  - destruct (IH it2) as (ok & it' & -> & Hok); [by apply points_at_points|lia|done|rewrite length_drop; lia|].
    eexists _, _. split; [done|]. replace (S (Z.to_nat (pos it1))) with (Z.to_nat (pos it2)) by lia.
    destruct (crlf_end (from (pos it2))) as [[j n]|]; cbn; [|done]. destruct Hok. split; [done|lia].
  - rewrite drop_ge; [|lia]. eexists _, _. split; [done|]. done.
Qed.

Lemma find_idx_ext f g ys : (∀ x, f x = g x) -> find_idx f ys = find_idx g ys.
Proof. intros H. induction ys as [|y ys IH]; cbn; [done|]. by rewrite H IH. Qed.

Lemma span_len_ext f g ys : (∀ x, f x = g x) -> span_len f ys = span_len g ys.
Proof. intros H. induction ys as [|y ys IH]; cbn; [done|]. by rewrite H IH. Qed.

Lemma search_eol_spec style :
  Z.of_nat (length xs) < 2 ^ 31 ->
  ∃ it n, evbuffer_search_eol b None style = mret (it, n) ∧
    match line_end style xs with
    | Some (k, m) => pos it = Z.of_nat k ∧ n = m
    | None => pos it = -1 ∧ n = 0
    end.
Proof.
  intros Hx. pose proof (first_points b e Hwf) as Hf. rewrite /evbuffer_search_eol. cbn [default].
  destruct style; cbn [line_end].
  - destruct (find_eol_char_spec b e xs Hwf Htext _ Hf) as (r & it & -> & Hr). rewrite E_ret_bind. cbn [pos first_ptr] in Hr. rewrite drop_0 in Hr.
    destruct (find_idx is_eol xs) as [k|]; cbn [fmap option_fmap option_map]; last first.
    { rewrite Hr. eexists _, _. split; [done|]. done. }
    destruct Hr as (-> & Hpos & Hat). rewrite (proj2 (Z.ltb_ge _ 0)); [|lia].
    destruct (strspn_spec b e xs Hwf Htext it [CR; LF] Hat Hx) as [it' ->]. rewrite !E_ret_bind.
    eexists _, _. split; [done|]. cbn. split; [lia|]. rewrite u64_small.
    + f_equal. replace (Z.to_nat (pos it)) with k by lia. apply span_len_ext. intros x. by rewrite /is_eol /= orb_false_r.
    + match goal with |- context [span_len ?f ?l] => pose proof (span_len_le f l) as Hle end.
      rewrite length_drop in Hle. unfold EV_SIZE_MAX. lia.
  - destruct (crlf_loop_spec (S (Z.to_nat (total_len b))) (first_ptr b) Hf) as (ok & it & -> & Hok); [done|done| |].
    { rewrite drop_0. destruct (xs_bound b e xs Hwf Htext). lia. }
    rewrite E_ret_bind. rewrite drop_0 in Hok. destruct (crlf_end xs) as [[k n]|].
    + destruct Hok as [-> Hpos]. eexists _, _. done.
    + rewrite Hok. eexists _, _. done.
  - destruct (search_from (first_ptr b) [CR; LF] Hf) as (it & -> & Hit); [done|]. rewrite !E_ret_bind. cbn [pos first_ptr] in Hit. rewrite drop_0 in Hit.
    destruct (find_sub [CR; LF] xs) as [k|]; cbn [fmap option_fmap option_map].
    + destruct Hit as [Hpos _]. rewrite (proj2 (Z.ltb_ge _ 0)); [|lia]. eexists _, _. split; [done|]. split; [lia|done].
    + rewrite Hit. eexists _, _. done.
  - destruct (strchr_spec b e xs Hwf Htext _ LF Hf) as (r & it & -> & Hr). rewrite !E_ret_bind. cbn [pos first_ptr] in Hr. rewrite drop_0 in Hr.
    rewrite (find_idx_ext _ (Z.eqb LF)) in Hr; [|intros x; apply Z.eqb_sym].
    destruct (find_idx (Z.eqb LF) xs) as [k|]; cbn [fmap option_fmap option_map].
    + destruct Hr as (-> & Hpos & _). rewrite (proj2 (Z.ltb_ge _ 0)); [|lia]. eexists _, _. split; [done|]. split; [lia|done].
    + rewrite Hr. eexists _, _. done.
Qed.

End find.
