(* ===== verification/EvSearchCorrect.v ===== *)
(** * Searching in event buffers: what the library promises

    The theorems on searching and on reading lines: both do on the chains what
    plain definitions do on the bytes in one piece. *)

From Stdlib Require Import ssreflect.
From S2P Require Import Prelude CTypes HProp CMem EvBuffer EvBufSpec EvBufOps EvTagSpec EvSearch EvSearchSpec.
Set Warnings "-rewrite-rw".
Open Scope general_if_scope.
Open Scope Z_scope.

(** The reference: the first of the places where [what] is. *)
Lemma find_sub_sound what xs k :
  find_sub what xs = Some k ->
  take (length what) (drop k xs) = what ∧ ∀ j, (j < k)%nat -> take (length what) (drop j xs) ≠ what.
Proof.
  revert k. induction xs as [|x xs IH]; intros k; cbn [find_sub]; destruct (starts what _) eqn:Hst; try done.
  1,2: intros [= <-]; split; [by apply bool_decide_eq_true in Hst|lia].
  destruct (find_sub what xs) as [i|]; [|done]. intros [= <-]. destruct (IH i eq_refl) as [Hi Hno]. split; [done|].
  intros [|j] Hj; [by apply bool_decide_eq_false in Hst|]. apply Hno. lia.
Qed.

Lemma find_sub_complete what xs : find_sub what xs = None -> ∀ j, take (length what) (drop j xs) ≠ what.
Proof.
  induction xs as [|x xs IH]; cbn [find_sub]; destruct (starts what _) eqn:Hst; try done; intros Hf j.
  - rewrite drop_nil. by apply bool_decide_eq_false in Hst.
  - destruct (find_sub what xs); [done|]. destruct j as [|j]; [by apply bool_decide_eq_false in Hst|]. by apply IH.
Qed.

(** A buffer of two chains; the blocks are full. *)
Definition two_chains (xs ys : list Z) : evbuffer :=
  let n := Z.of_nat (length xs) in let m := Z.of_nat (length ys) in
  Evbuffer [Chain 1 n 0 n 0 (text xs); Chain 2 m 0 m 0 (text ys)] (Some 2%positive) (LNext 1) (n + m) 0 0
    false false false false [].

Lemma two_chains_wf xs ys :
  xs ≠ [] -> ys ≠ [] -> Z.of_nat (length xs) < 2 ^ 62 -> Z.of_nat (length ys) < 2 ^ 62 ->
  buffer_wf (two_chains xs ys) (EvEnv 3 [] []) ∧ contents (two_chains xs ys) = text (xs ++ ys).
Proof.
  intros Hx Hy Hlx Hly.
  assert (Hb : ∀ i zs, bytes (Chain i (Z.of_nat (length zs)) 0 (Z.of_nat (length zs)) 0 (text zs)) = text zs).
  { intros i zs. rewrite /bytes /slice /= drop_0 Nat2Z.id. apply take_ge. by rewrite text_length. }
  assert (Hw : ∀ i zs, Z.of_nat (length zs) < 2 ^ 62 -> chain_wf (Chain i (Z.of_nat (length zs)) 0 (Z.of_nat (length zs)) 0 (text zs))).
  { intros i zs Hl. split; cbn; try lia; [unfold EVBUFFER_CHAIN_MAX, EV_SSIZE_MAX; lia|by rewrite text_length|done]. }
  assert (Hc : contents (two_chains xs ys) = text (xs ++ ys)).
  { rewrite /contents /two_chains /all_bytes. cbn [chains fmap list_fmap concat]. by rewrite !Hb app_nil_r fmap_app. }
  split; [|done]. rewrite /buffer_wf. split; cbn [chains last last_with_datap total_len two_chains].
  - by repeat constructor; apply Hw.
  - apply NoDup_cons. split; [by rewrite list_elem_of_singleton|apply NoDup_singleton].
  - by repeat constructor.
  - done.
  - done.
  - intros _. destruct xs, ys; try done. by repeat constructor.
  - rewrite -/(contents (two_chains xs ys)) Hc text_length length_app. lia.
  - unfold EV_SIZE_MAX. lia.
Qed.

(** C39: evbuffer_search, which walks over the chains with memchr and compares
    across their ends, is the search for the first occurrence in the bytes in
    one piece, from the start of the buffer or from a given position: its
    answer is the position of that occurrence, in the chain that holds it, or
    -1 when there is none. *)
Theorem evbuffer_search_first (b : evbuffer) (xs what : list Z) (start : option evbuffer_ptr) (e : evenv) :
  buffer_wf b e -> contents b = text xs -> points b (default (first_ptr b) start) ->
  Z.of_nat (length what) <= EV_SSIZE_MAX ->
  let s := pos (default (first_ptr b) start) in
  ∃ it, evbuffer_search b what start e = inr (it, e) ∧
    match find_sub what (drop (Z.to_nat s) xs) with
    | Some k => pos it = s + Z.of_nat k ∧ points b it
    | None => pos it = -1
    end.
Proof.
  intros Hwf Ht Hp Hl. destruct (search_from b e xs Hwf Ht _ what Hp Hl) as (it & Heq & Hit).
  exists it. split; [|done]. change (evbuffer_search b what start e = (mret it : E evbuffer_ptr) e). rewrite -Heq. by destruct start.
Qed.

Lemma evbuffer_search_first_witness :
  let b := two_chains [97; 13; 98; 13] [10; 13; 10] in
  buffer_wf b (EvEnv 3 [] []) ∧
  ∃ it, evbuffer_search b [CR; LF] None (EvEnv 3 [] []) = inr (it, EvEnv 3 [] []) ∧ pos it = 3 ∧ points b it.
Proof.
  destruct (two_chains_wf [97; 13; 98; 13] [10; 13; 10]) as [Hw Hc]; [done..|]. split; [done|].
  destruct (evbuffer_search_first _ _ [CR; LF] None _ Hw Hc (first_points _ _ Hw)) as (it & He & Hit); [done|].
  exists it. split; [exact He|exact Hit].
Defined.

(** Taking the line out and dropping its end. *)
Lemma runs_take_line (i : id) b k m xs e :
  buffer_wf b e -> contents b = text xs -> freeze_start b = false -> 0 <= m ->
  runs ('(_, d, b) ← evbuffer_remove b (Z.of_nat k); '(_, b) ← evbuffer_drain b m; mret (Some (i, d), Z.of_nat k, b)) e
    (fun '(line, n, b') e' => buffer_wf b' e' ∧ line = Some (i, text (take k xs)) ∧ n = Z.of_nat k
       ∧ contents b' = text (drop (k + Z.to_nat m) xs)).
Proof.
  intros Hwf Ht Hfr Hm. apply runs_bind. eapply runs_mono; [by apply runs_evbuffer_remove; [|lia]|].
  intros [[r d] b1] e1 (Hw1 & Hk1 & _ & [(_ & Hd & Htk & _)|(_ & _ & _ & Hf & _)]); [|congruence].
  rewrite Ht Nat2Z.id in Htk, Hd. apply runs_bind. eapply runs_mono; [by apply runs_evbuffer_drain|].
  intros [r2 b2] e2 (Hw2 & _ & _ & [[_ Hc]|(_ & _ & Hf)]); cbn [fst snd] in *; [|destruct Hk1; congruence].
  apply runs_ret. split_and!; [done|by rewrite Htk fmap_take|done|]. rewrite Hc -drop_drop fmap_drop. f_equal.
  rewrite fmap_drop. apply (app_inv_head d). by rewrite -Hd {1}Htk take_drop.
Qed.

(** C40: evbuffer_readln takes the first line of a buffer, for each of the four
    styles of line ends: it returns the bytes in front of the end of the line
    and removes these and the end.  Without a line, with the start frozen, or
    without memory for the line, it returns NULL and changes nothing. *)
Theorem evbuffer_readln_takes_line (b : evbuffer) (style : evbuffer_eol_style) (xs : list Z) (e : evenv) :
  buffer_wf b e -> contents b = text xs -> Z.of_nat (length xs) < 2 ^ 31 ->
  ∃ line n b' e', evbuffer_readln b style e = inr (line, n, b', e') ∧ buffer_wf b' e' ∧
    (line = None ∧ n = 0 ∧ b' = b
       ∧ (freeze_start b = true ∨ line_end style xs = None ∨ ∃ o, ev_oom e = false :: o)
     ∨ ∃ k m, freeze_start b = false ∧ line_end style xs = Some (k, m) ∧ snd <$> line = Some (text (take k xs))
         ∧ n = Z.of_nat k ∧ contents b' = text (drop (k + Z.to_nat m) xs)).
Proof.
  intros Hwf Ht Hx. rewrite /evbuffer_readln. destruct (freeze_start b) eqn:Hfr.
  { eexists _, _, _, _. split; [done|]. split; [done|]. left. auto 10. }
  destruct (search_eol_spec b e xs Hwf Ht style Hx) as (it & n & -> & Hit). rewrite E_ret_bind.
  destruct (line_end style xs) as [[k m]|] eqn:Hle; last first.
  { destruct Hit as [-> _]. eexists _, _, _, _. split; [done|]. split; [done|]. left. auto 10. }
  destruct Hit as [Hpos ->]. rewrite Hpos (proj2 (Z.ltb_ge _ 0)); [|lia].
  assert (Htake : ∀ (i : id) e1, later e e1 -> ∃ line n b' e', ('(_, d, b) ← evbuffer_remove b (Z.of_nat k);
      '(_, b) ← evbuffer_drain b m; mret (Some (i, d), Z.of_nat k, b)) e1 = inr (line, n, b', e') ∧ buffer_wf b' e' ∧
      snd <$> line = Some (text (take k xs)) ∧ n = Z.of_nat k ∧ contents b' = text (drop (k + Z.to_nat m) xs)).
  { intros i e1 Hl. destruct (runs_run _ _ _ (runs_take_line i b k m xs e1 (wf_later _ _ _ Hwf Hl) Ht Hfr (line_end_pos _ _ _ _ Hle)))
      as ([[line n] b'] & e' & He & Hw & -> & Hn & Hc). by eexists _, n, b', e'. }
  rewrite /mm_malloc {1}/mbind /E_bind. destruct (ev_oom e) as [|[] o] eqn:Ho.
  3: { eexists _, _, _, _. split; [done|]. split; [eapply wf_later; [done|]; rewrite /later /=; lia|]. left. eauto 10. }
  all: edestruct Htake as (line & n & b' & e' & He & Hw & Hline & Hn & Hc); [|exists line, n, b', e'; split; [exact He|]].
  all: try (rewrite /later /=; lia).
  all: split; [done|]; right; exists k, m; done.
Qed.

Lemma evbuffer_readln_takes_line_witness :
  let b := two_chains [97; 13; 98; 13] [10; 13; 10] in
  buffer_wf b (EvEnv 3 [] []) ∧
  ∃ i b' e', evbuffer_readln b EVBUFFER_EOL_CRLF (EvEnv 3 [] []) = inr (Some (i, text [97; 13; 98]), 3, b', e')
    ∧ contents b' = text [13; 10].
Proof.
  destruct (two_chains_wf [97; 13; 98; 13] [10; 13; 10]) as [Hw Hc]; [done..|]. split; [done|].
  destruct (evbuffer_readln_takes_line _ EVBUFFER_EOL_CRLF _ _ Hw Hc) as (line & n & b' & e' & He & _ & Hres); [done|].
  destruct Hres as [(_ & _ & _ & [Hf|[Hf|[o Ho]]])|(k & m & _ & Hk & Hline & -> & Hb)]; [done..|].
  injection Hk as <- <-. destruct line as [[i t]|]; [|done]. injection Hline as ->. exists i, b', e'. split; [exact He|exact Hb].
Defined.
