(* ===== verification/EvEvent.v ===== *)
(** * libevent: events and the event base

    The data of event.c, evmap.c and minheap-internal.h, and the monad their
    models are written in.  There is one event base.  A queue of events (a TAILQ)
    is the list of the addresses of its entries; an event lives at its address in
    [events].  The members that a union overlays and that are mutually exclusive
    are separate fields.  The library is single-threaded here: there are no
    locks, and no other thread has to be notified. *)

From S2P Require Import Prelude CTypes HProp CMem EvTime.
Open Scope Z_scope.

(** ** Constants (event.h, event_struct.h, event-internal.h) *)

Definition EV_TIMEOUT : Z := 0x01.
Definition EV_READ : Z := 0x02.
Definition EV_WRITE : Z := 0x04.
Definition EV_SIGNAL : Z := 0x08.
Definition EV_PERSIST : Z := 0x10.
Definition EV_ET : Z := 0x20.

Definition EVLIST_TIMEOUT : Z := 0x01.
Definition EVLIST_INSERTED : Z := 0x02.
Definition EVLIST_ACTIVE : Z := 0x08.
Definition EVLIST_INTERNAL : Z := 0x10.
Definition EVLIST_INIT : Z := 0x80.
Definition EVLIST_ALL : Z := Z.lor 0xf000 0x9f.

Definition EVLOOP_ONCE : Z := 0x01.
Definition EVLOOP_NONBLOCK : Z := 0x02.
Definition EVENT_BASE_FLAG_NO_CACHE_TIME : Z := 0x08.
Definition EVENT_MAX_PRIORITIES : Z := 256.

Definition EV_CLOSURE_NONE : Z := 0.
Definition EV_CLOSURE_SIGNAL : Z := 1.
Definition EV_CLOSURE_PERSIST : Z := 2.

Definition MICROSECONDS_MASK : Z := 0x000fffff.
Definition COMMON_TIMEOUT_IDX_MASK : Z := 0x0ff00000.
Definition COMMON_TIMEOUT_IDX_SHIFT : Z := 20.
Definition COMMON_TIMEOUT_MASK : Z := 0xf0000000.
Definition COMMON_TIMEOUT_MAGIC : Z := 0x50000000.
Definition MAX_COMMON_TIMEOUTS : Z := 256.
Definition MAX_DEFERRED : nat := 16.

(** The value of a short. *)
Definition s16 (z : Z) : Z := (z + 2 ^ 15) mod 2 ^ 16 - 2 ^ 15.

(** [x & f] as a condition. *)
Definition on (x f : Z) : bool := negb (Z.land x f =? 0).
(** [x & ~f] *)
Definition without (x f : Z) : Z := Z.land x (Z.lnot f).

(** ** Structures *)

Abbreviation eid := positive.

(** A function that an event calls: one of the program's users, or one of the
    three of event.c itself. *)
Inductive callback := CbUser (f : Z) | CbCommonTimeout | CbLoopexit | CbOnce.

Record event := Event {
  min_heap_idx : Z;
  ev_fd : Z;
  ev_base : bool;
  ev_io_timeout : timeval;
  ev_ncalls : Z;
  ev_pncalls : option positive;
  ev_events : Z;
  ev_res : Z;
  ev_flags : Z;
  ev_pri : Z;
  ev_closure : Z;
  ev_timeout : timeval;
  ev_callback : callback;
  ev_arg : Z }.

(** [hp] is the memory of the array; what was never written is [None]. *)
Record min_heap := MinHeap { hp : list (option eid); hn : Z; ha : Z }.

Record evmap_io := EvmapIo { io_events : list eid; nread : Z; nwrite : Z }.
Record evmap_signal := EvmapSignal { sig_events : list eid }.

Record common_timeout_list := Ctl { ctl_events : list eid; duration : timeval; timeout_event : eid }.

Record deferred_cb := Deferred { queued : bool; dcb : Z; dcb_arg : Z }.
Record deferred_cb_queue := DeferQueue { deferred_cb_list : list positive; active_count : Z }.

(** The rest of a [struct event_once] whose event is at the same address; its
    callback is a user's or, for [None], event_loopexit_cb. *)
Record event_once := Once { once_cb : option Z; once_arg : Z }.

Record event_base := EventBase {
  virtual_event_count : Z;
  event_count : Z;
  event_count_active : Z;
  event_gotterm : bool;
  event_break : bool;
  event_continue : bool;
  event_running_priority : Z;
  running_loop : bool;
  activequeues : list (list eid);
  common_timeout_queues : list common_timeout_list;
  n_common_timeouts_allocated : Z;
  defer_queue : deferred_cb_queue;
  io : list (option evmap_io);
  sigmap : list (option evmap_signal);
  eventqueue : list eid;
  event_tv : timeval;
  timeheap : min_heap;
  tv_cache : timeval;
  tv_clock_diff : timeval;
  last_updated_clock_diff : Z;
  base_flags : Z }.

(** ** The rest of the world

    The operating system and the backend answer the n-th call as [sys] says:
    the two clocks, whether adding and deleting at the backend succeeds, and what
    a dispatch finds ready after all that has happened so far: file descriptors
    with events and signals with counts, in the order of its calls. *)

Inductive ready := ReadyIo (fd what : Z) | ReadySignal (sig ncalls : Z).

(** What happened: calls of the backend and of callbacks. *)
Inductive call :=
| BackendAdd (fd old what : Z) (ok : bool)
| BackendDel (fd old what : Z) (ok : bool)
| Dispatch (wait : option timeval)
| Called (e : eid) (cb : callback) (fd res arg : Z)
| CalledDeferred (d : positive).

Record system := System {
  clock_monotonic : nat -> option (Z * Z);
  clock_realtime : nat -> timeval;
  backend_add : nat -> bool;
  backend_del : nat -> bool;
  backend_dispatch : nat -> list call -> option (list ready) }.

Record world := World {
  events : gmap eid event;
  base : event_base;
  deferreds : gmap positive deferred_cb;
  onces : gmap eid event_once;
  locals : gmap positive Z;
  next_eid : positive;
  heap_oom : list bool;
  use_monotonic : bool;
  sys : system;
  n_sys : nat;
  calls : list call }.

(** ** Fields *)

Definition set_idx (v : Z) (e : event) : event :=
  Event v (ev_fd e) (ev_base e) (ev_io_timeout e) (ev_ncalls e) (ev_pncalls e) (ev_events e) (ev_res e) (ev_flags e) (ev_pri e) (ev_closure e) (ev_timeout e) (ev_callback e) (ev_arg e).
Definition set_base (v : bool) (e : event) : event :=
  Event (min_heap_idx e) (ev_fd e) v (ev_io_timeout e) (ev_ncalls e) (ev_pncalls e) (ev_events e) (ev_res e) (ev_flags e) (ev_pri e) (ev_closure e) (ev_timeout e) (ev_callback e) (ev_arg e).
Definition set_io_timeout (v : timeval) (e : event) : event :=
  Event (min_heap_idx e) (ev_fd e) (ev_base e) v (ev_ncalls e) (ev_pncalls e) (ev_events e) (ev_res e) (ev_flags e) (ev_pri e) (ev_closure e) (ev_timeout e) (ev_callback e) (ev_arg e).
Definition set_ncalls (v : Z) (e : event) : event :=
  Event (min_heap_idx e) (ev_fd e) (ev_base e) (ev_io_timeout e) v (ev_pncalls e) (ev_events e) (ev_res e) (ev_flags e) (ev_pri e) (ev_closure e) (ev_timeout e) (ev_callback e) (ev_arg e).
Definition set_pncalls (v : option positive) (e : event) : event :=
  Event (min_heap_idx e) (ev_fd e) (ev_base e) (ev_io_timeout e) (ev_ncalls e) v (ev_events e) (ev_res e) (ev_flags e) (ev_pri e) (ev_closure e) (ev_timeout e) (ev_callback e) (ev_arg e).
Definition set_res (v : Z) (e : event) : event :=
  Event (min_heap_idx e) (ev_fd e) (ev_base e) (ev_io_timeout e) (ev_ncalls e) (ev_pncalls e) (ev_events e) v (ev_flags e) (ev_pri e) (ev_closure e) (ev_timeout e) (ev_callback e) (ev_arg e).
Definition set_flags (v : Z) (e : event) : event :=
  Event (min_heap_idx e) (ev_fd e) (ev_base e) (ev_io_timeout e) (ev_ncalls e) (ev_pncalls e) (ev_events e) (ev_res e) v (ev_pri e) (ev_closure e) (ev_timeout e) (ev_callback e) (ev_arg e).
Definition set_pri (v : Z) (e : event) : event :=
  Event (min_heap_idx e) (ev_fd e) (ev_base e) (ev_io_timeout e) (ev_ncalls e) (ev_pncalls e) (ev_events e) (ev_res e) (ev_flags e) v (ev_closure e) (ev_timeout e) (ev_callback e) (ev_arg e).
Definition set_timeout (v : timeval) (e : event) : event :=
  Event (min_heap_idx e) (ev_fd e) (ev_base e) (ev_io_timeout e) (ev_ncalls e) (ev_pncalls e) (ev_events e) (ev_res e) (ev_flags e) (ev_pri e) (ev_closure e) v (ev_callback e) (ev_arg e).

Definition set_virtual (v : Z) (b : event_base) : event_base :=
  EventBase v (event_count b) (event_count_active b) (event_gotterm b) (event_break b) (event_continue b) (event_running_priority b) (running_loop b) (activequeues b) (common_timeout_queues b) (n_common_timeouts_allocated b) (defer_queue b) (io b) (sigmap b) (eventqueue b) (event_tv b) (timeheap b) (tv_cache b) (tv_clock_diff b) (last_updated_clock_diff b) (base_flags b).
Definition set_count (v : Z) (b : event_base) : event_base :=
  EventBase (virtual_event_count b) v (event_count_active b) (event_gotterm b) (event_break b) (event_continue b) (event_running_priority b) (running_loop b) (activequeues b) (common_timeout_queues b) (n_common_timeouts_allocated b) (defer_queue b) (io b) (sigmap b) (eventqueue b) (event_tv b) (timeheap b) (tv_cache b) (tv_clock_diff b) (last_updated_clock_diff b) (base_flags b).
Definition set_count_active (v : Z) (b : event_base) : event_base :=
  EventBase (virtual_event_count b) (event_count b) v (event_gotterm b) (event_break b) (event_continue b) (event_running_priority b) (running_loop b) (activequeues b) (common_timeout_queues b) (n_common_timeouts_allocated b) (defer_queue b) (io b) (sigmap b) (eventqueue b) (event_tv b) (timeheap b) (tv_cache b) (tv_clock_diff b) (last_updated_clock_diff b) (base_flags b).
Definition set_gotterm (v : bool) (b : event_base) : event_base :=
  EventBase (virtual_event_count b) (event_count b) (event_count_active b) v (event_break b) (event_continue b) (event_running_priority b) (running_loop b) (activequeues b) (common_timeout_queues b) (n_common_timeouts_allocated b) (defer_queue b) (io b) (sigmap b) (eventqueue b) (event_tv b) (timeheap b) (tv_cache b) (tv_clock_diff b) (last_updated_clock_diff b) (base_flags b).
Definition set_break (v : bool) (b : event_base) : event_base :=
  EventBase (virtual_event_count b) (event_count b) (event_count_active b) (event_gotterm b) v (event_continue b) (event_running_priority b) (running_loop b) (activequeues b) (common_timeout_queues b) (n_common_timeouts_allocated b) (defer_queue b) (io b) (sigmap b) (eventqueue b) (event_tv b) (timeheap b) (tv_cache b) (tv_clock_diff b) (last_updated_clock_diff b) (base_flags b).
Definition set_continue (v : bool) (b : event_base) : event_base :=
  EventBase (virtual_event_count b) (event_count b) (event_count_active b) (event_gotterm b) (event_break b) v (event_running_priority b) (running_loop b) (activequeues b) (common_timeout_queues b) (n_common_timeouts_allocated b) (defer_queue b) (io b) (sigmap b) (eventqueue b) (event_tv b) (timeheap b) (tv_cache b) (tv_clock_diff b) (last_updated_clock_diff b) (base_flags b).
Definition set_running_priority (v : Z) (b : event_base) : event_base :=
  EventBase (virtual_event_count b) (event_count b) (event_count_active b) (event_gotterm b) (event_break b) (event_continue b) v (running_loop b) (activequeues b) (common_timeout_queues b) (n_common_timeouts_allocated b) (defer_queue b) (io b) (sigmap b) (eventqueue b) (event_tv b) (timeheap b) (tv_cache b) (tv_clock_diff b) (last_updated_clock_diff b) (base_flags b).
Definition set_running_loop (v : bool) (b : event_base) : event_base :=
  EventBase (virtual_event_count b) (event_count b) (event_count_active b) (event_gotterm b) (event_break b) (event_continue b) (event_running_priority b) v (activequeues b) (common_timeout_queues b) (n_common_timeouts_allocated b) (defer_queue b) (io b) (sigmap b) (eventqueue b) (event_tv b) (timeheap b) (tv_cache b) (tv_clock_diff b) (last_updated_clock_diff b) (base_flags b).
Definition set_activequeues (v : list (list eid)) (b : event_base) : event_base :=
  EventBase (virtual_event_count b) (event_count b) (event_count_active b) (event_gotterm b) (event_break b) (event_continue b) (event_running_priority b) (running_loop b) v (common_timeout_queues b) (n_common_timeouts_allocated b) (defer_queue b) (io b) (sigmap b) (eventqueue b) (event_tv b) (timeheap b) (tv_cache b) (tv_clock_diff b) (last_updated_clock_diff b) (base_flags b).
Definition set_common (v : list common_timeout_list) (b : event_base) : event_base :=
  EventBase (virtual_event_count b) (event_count b) (event_count_active b) (event_gotterm b) (event_break b) (event_continue b) (event_running_priority b) (running_loop b) (activequeues b) v (n_common_timeouts_allocated b) (defer_queue b) (io b) (sigmap b) (eventqueue b) (event_tv b) (timeheap b) (tv_cache b) (tv_clock_diff b) (last_updated_clock_diff b) (base_flags b).
Definition set_common_allocated (v : Z) (b : event_base) : event_base :=
  EventBase (virtual_event_count b) (event_count b) (event_count_active b) (event_gotterm b) (event_break b) (event_continue b) (event_running_priority b) (running_loop b) (activequeues b) (common_timeout_queues b) v (defer_queue b) (io b) (sigmap b) (eventqueue b) (event_tv b) (timeheap b) (tv_cache b) (tv_clock_diff b) (last_updated_clock_diff b) (base_flags b).
Definition set_defer (v : deferred_cb_queue) (b : event_base) : event_base :=
  EventBase (virtual_event_count b) (event_count b) (event_count_active b) (event_gotterm b) (event_break b) (event_continue b) (event_running_priority b) (running_loop b) (activequeues b) (common_timeout_queues b) (n_common_timeouts_allocated b) v (io b) (sigmap b) (eventqueue b) (event_tv b) (timeheap b) (tv_cache b) (tv_clock_diff b) (last_updated_clock_diff b) (base_flags b).
Definition set_io (v : list (option evmap_io)) (b : event_base) : event_base :=
  EventBase (virtual_event_count b) (event_count b) (event_count_active b) (event_gotterm b) (event_break b) (event_continue b) (event_running_priority b) (running_loop b) (activequeues b) (common_timeout_queues b) (n_common_timeouts_allocated b) (defer_queue b) v (sigmap b) (eventqueue b) (event_tv b) (timeheap b) (tv_cache b) (tv_clock_diff b) (last_updated_clock_diff b) (base_flags b).
Definition set_sigmap (v : list (option evmap_signal)) (b : event_base) : event_base :=
  EventBase (virtual_event_count b) (event_count b) (event_count_active b) (event_gotterm b) (event_break b) (event_continue b) (event_running_priority b) (running_loop b) (activequeues b) (common_timeout_queues b) (n_common_timeouts_allocated b) (defer_queue b) (io b) v (eventqueue b) (event_tv b) (timeheap b) (tv_cache b) (tv_clock_diff b) (last_updated_clock_diff b) (base_flags b).
Definition set_eventqueue (v : list eid) (b : event_base) : event_base :=
  EventBase (virtual_event_count b) (event_count b) (event_count_active b) (event_gotterm b) (event_break b) (event_continue b) (event_running_priority b) (running_loop b) (activequeues b) (common_timeout_queues b) (n_common_timeouts_allocated b) (defer_queue b) (io b) (sigmap b) v (event_tv b) (timeheap b) (tv_cache b) (tv_clock_diff b) (last_updated_clock_diff b) (base_flags b).
Definition set_event_tv (v : timeval) (b : event_base) : event_base :=
  EventBase (virtual_event_count b) (event_count b) (event_count_active b) (event_gotterm b) (event_break b) (event_continue b) (event_running_priority b) (running_loop b) (activequeues b) (common_timeout_queues b) (n_common_timeouts_allocated b) (defer_queue b) (io b) (sigmap b) (eventqueue b) v (timeheap b) (tv_cache b) (tv_clock_diff b) (last_updated_clock_diff b) (base_flags b).
Definition set_timeheap (v : min_heap) (b : event_base) : event_base :=
  EventBase (virtual_event_count b) (event_count b) (event_count_active b) (event_gotterm b) (event_break b) (event_continue b) (event_running_priority b) (running_loop b) (activequeues b) (common_timeout_queues b) (n_common_timeouts_allocated b) (defer_queue b) (io b) (sigmap b) (eventqueue b) (event_tv b) v (tv_cache b) (tv_clock_diff b) (last_updated_clock_diff b) (base_flags b).
Definition set_tv_cache (v : timeval) (b : event_base) : event_base :=
  EventBase (virtual_event_count b) (event_count b) (event_count_active b) (event_gotterm b) (event_break b) (event_continue b) (event_running_priority b) (running_loop b) (activequeues b) (common_timeout_queues b) (n_common_timeouts_allocated b) (defer_queue b) (io b) (sigmap b) (eventqueue b) (event_tv b) (timeheap b) v (tv_clock_diff b) (last_updated_clock_diff b) (base_flags b).
Definition set_clock_diff (v0 : timeval) (v1 : Z) (b : event_base) : event_base :=
  EventBase (virtual_event_count b) (event_count b) (event_count_active b) (event_gotterm b) (event_break b) (event_continue b) (event_running_priority b) (running_loop b) (activequeues b) (common_timeout_queues b) (n_common_timeouts_allocated b) (defer_queue b) (io b) (sigmap b) (eventqueue b) (event_tv b) (timeheap b) (tv_cache b) v0 v1 (base_flags b).

Definition set_events (v : gmap eid event) (w : world) : world :=
  World v (base w) (deferreds w) (onces w) (locals w) (next_eid w) (heap_oom w) (use_monotonic w) (sys w) (n_sys w) (calls w).
Definition set_event_base (v : event_base) (w : world) : world :=
  World (events w) v (deferreds w) (onces w) (locals w) (next_eid w) (heap_oom w) (use_monotonic w) (sys w) (n_sys w) (calls w).
Definition set_deferreds (v : gmap positive deferred_cb) (w : world) : world :=
  World (events w) (base w) v (onces w) (locals w) (next_eid w) (heap_oom w) (use_monotonic w) (sys w) (n_sys w) (calls w).
Definition set_onces (v : gmap eid event_once) (w : world) : world :=
  World (events w) (base w) (deferreds w) v (locals w) (next_eid w) (heap_oom w) (use_monotonic w) (sys w) (n_sys w) (calls w).
Definition set_locals (v : gmap positive Z) (w : world) : world :=
  World (events w) (base w) (deferreds w) (onces w) v (next_eid w) (heap_oom w) (use_monotonic w) (sys w) (n_sys w) (calls w).
Definition set_next (v : positive) (w : world) : world :=
  World (events w) (base w) (deferreds w) (onces w) (locals w) v (heap_oom w) (use_monotonic w) (sys w) (n_sys w) (calls w).
Definition set_oom (v : list bool) (w : world) : world :=
  World (events w) (base w) (deferreds w) (onces w) (locals w) (next_eid w) v (use_monotonic w) (sys w) (n_sys w) (calls w).
Definition set_n_sys (v : nat) (w : world) : world :=
  World (events w) (base w) (deferreds w) (onces w) (locals w) (next_eid w) (heap_oom w) (use_monotonic w) (sys w) v (calls w).
Definition set_calls (v : list call) (w : world) : world :=
  World (events w) (base w) (deferreds w) (onces w) (locals w) (next_eid w) (heap_oom w) (use_monotonic w) (sys w) (n_sys w) v.

(** ** The monad *)

(** A run stops for undefined behaviour, because event_errx() ends the program,
    or because the bound given to a loop was too small. *)
Inductive stop := Bad (f : fault) | Exited | NoFuel.

Definition L (A : Type) : Type := world -> stop + (A * world).

#[export] Instance L_ret : MRet L := fun A a w => inr (a, w).
#[export] Instance L_bind : MBind L := fun A B k m w =>
  match m w with
  | inl s => inl s
  | inr (a, w') => k a w'
  end.

Definition halt {A} (s : stop) : L A := fun _ => inl s.
Definition ev_assert (b : bool) : L unit := if b then mret tt else halt (Bad AssertFailed).

Definition get_world : L world := fun w => inr (w, w).
Definition get_base : L event_base := fun w => inr (base w, w).
Definition mod_base (f : event_base -> event_base) : L unit := fun w => inr (tt, set_event_base (f (base w)) w).

Definition get_event (e : eid) : L event := fun w =>
  match events w !! e with Some v => inr (v, w) | None => inl (Bad DanglingPtr) end.
Definition mod_event (e : eid) (f : event -> event) : L unit := fun w =>
  match events w !! e with Some v => inr (tt, set_events (<[e := f v]> (events w)) w) | None => inl (Bad DanglingPtr) end.

Definition mod_events (f : gmap eid event -> gmap eid event) : L unit := fun w => inr (tt, set_events (f (events w)) w).

(** mm_free on a [struct event_once], with its event. *)
Definition free_once (e : eid) : L unit := fun w =>
  inr (tt, set_onces (delete e (onces w)) (set_events (delete e (events w)) w)).
Definition get_once (e : eid) : L event_once := fun w =>
  match onces w !! e with Some o => inr (o, w) | None => inl (Bad DanglingPtr) end.
Definition put_once (e : eid) (o : event_once) : L unit := fun w => inr (tt, set_onces (<[e := o]> (onces w)) w).

Definition get_deferred (d : positive) : L deferred_cb := fun w =>
  match deferreds w !! d with Some cb => inr (cb, w) | None => inl (Bad DanglingPtr) end.
Definition put_deferred (d : positive) (cb : deferred_cb) : L unit := fun w =>
  inr (tt, set_deferreds (<[d := cb]> (deferreds w)) w).

(** A local variable whose address was taken, as long as it lives. *)
Definition get_local (c : positive) : L Z := fun w =>
  match locals w !! c with Some z => inr (z, w) | None => inl (Bad DanglingPtr) end.
Definition put_local (c : positive) (z : Z) : L unit := fun w =>
  match locals w !! c with Some _ => inr (tt, set_locals (<[c := z]> (locals w)) w) | None => inl (Bad DanglingPtr) end.
Definition new_local (z : Z) : L positive := fun w =>
  inr (next_eid w, set_next (Pos.succ (next_eid w)) (set_locals (<[next_eid w := z]> (locals w)) w)).
Definition end_local (c : positive) : L unit := fun w => inr (tt, set_locals (delete c (locals w)) w).

Definition note (c : call) : L unit := fun w => inr (tt, set_calls (calls w ++ [c]) w).

(** The answer to the next call of the system. *)
Definition ask {A} (f : system -> nat -> A) : L A := fun w =>
  inr (f (sys w) (n_sys w), set_n_sys (S (n_sys w)) w).

(** mm_malloc, mm_calloc and mm_realloc: whether it succeeds. *)
Definition mm_alloc : L bool := fun w =>
  match heap_oom w with
  | [] => inr (true, w)
  | r :: o => inr (r, set_oom o w)
  end.

Definition fresh : L positive := fun w => inr (next_eid w, set_next (Pos.succ (next_eid w)) w).

(** TAILQ_REMOVE on a list that has the element. *)
Fixpoint unlink (e : eid) (l : list eid) : option (list eid) :=
  match l with
  | [] => None
  | x :: l => if decide (x = e) then Some l else cons x <$> unlink e l
  end.

Definition tailq_remove (e : eid) (l : list eid) : L (list eid) :=
  match unlink e l with Some l => mret l | None => halt (Bad WildPtr) end.

(** A value that may never have been stored. *)
Definition stored {A} (x : option A) : L A := match x with Some a => mret a | None => halt (Bad Indeterminate) end.
