(* ===== verification/EvHeap.v ===== *)
(** * libevent/minheap-internal.h: the heap of timeouts

    A binary heap of events in an array, ordered by their timeouts; every event
    in it knows its index.  The functions take the heap and return the new one;
    the events are in the world. *)

From S2P Require Import Prelude CTypes HProp CMem EvTime EvEvent.
Open Scope Z_scope.

(** Reading and writing the array. *)
Definition slot (s : min_heap) (i : Z) : L eid :=
  if 0 <=? i then
    match hp s !! Z.to_nat i with
    | Some x => stored x
    | None => halt (Bad OutOfBounds)
    end
  else halt (Bad OutOfBounds).

(** [(s->p[i] = e)->ev_timeout_pos.min_heap_idx = i] *)
Definition place (s : min_heap) (i : Z) (e : eid) : L min_heap :=
  if (0 <=? i) && (i <? Z.of_nat (length (hp s))) then
    _ ← mod_event e (set_idx (s32 i));
    mret (MinHeap (<[Z.to_nat i := Some e]> (hp s)) (hn s) (ha s))
  else halt (Bad OutOfBounds).

Definition min_heap_elem_greater (a b : eid) : L bool :=
  x ← get_event a;
  y ← get_event b;
  mret (evutil_timercmp (ev_timeout x) (ev_timeout y) Z.gtb).

Definition min_heap_ctor : min_heap := MinHeap [] 0 0.
Definition min_heap_elem_init (e : event) : event := set_idx (-1) e.
Definition min_heap_empty (s : min_heap) : bool := hn s =? 0.
Definition min_heap_size (s : min_heap) : Z := hn s.
Definition min_heap_top (s : min_heap) : L (option eid) :=
  if hn s =? 0 then mret None else e ← slot s 0; mret (Some e).
Definition min_heap_elt_is_top (e : event) : bool := min_heap_idx e =? 0.

(** Both loops move the hole by at least a level at every turn. *)
Fixpoint min_heap_shift_up_ (fuel : nat) (s : min_heap) (hole_index : Z) (e : eid) : L min_heap :=
  match fuel with
  | O => halt NoFuel
  | S fuel =>
      let parent := u32 (hole_index - 1) / 2 in
      up ← (if hole_index =? 0 then mret false else p ← slot s parent; min_heap_elem_greater p e);
      if up : bool then
        p ← slot s parent;
        s ← place s hole_index p;
        min_heap_shift_up_ fuel s parent e
      else place s hole_index e
  end.

Fixpoint min_heap_shift_down_ (fuel : nat) (s : min_heap) (hole_index : Z) (e : eid) : L min_heap :=
  match fuel with
  | O => halt NoFuel
  | S fuel =>
      let min_child := u32 (2 * (hole_index + 1)) in
      if min_child <=? hn s then
        left ← (if min_child =? hn s then mret true
                else a ← slot s min_child; b ← slot s (min_child - 1); min_heap_elem_greater a b);
        let min_child := if left : bool then min_child - 1 else min_child in
        c ← slot s min_child;
        down ← min_heap_elem_greater e c;
        if down : bool then
          s ← place s hole_index c;
          min_heap_shift_down_ fuel s min_child e
        else place s hole_index e
      else place s hole_index e
  end.

(** As many turns are enough as there are entries. *)
Definition heap_fuel (s : min_heap) : nat := S (Z.to_nat (hn s)).

Definition min_heap_reserve (s : min_heap) (n : Z) : L (Z * min_heap) :=
  if ha s <? n then
    let a := if ha s =? 0 then 8 else u32 (ha s * 2) in
    let a := if a <? n then n else a in
    ok ← mm_alloc;
    if ok : bool then
      mret (0, MinHeap (take (Z.to_nat a) (hp s) ++ replicate (Z.to_nat a - length (hp s)) None) (hn s) a)
    else mret (-1, s)
  else mret (0, s).

Definition min_heap_push (s : min_heap) (e : eid) : L (Z * min_heap) :=
  '(r, s) ← min_heap_reserve s (u32 (hn s + 1));
  if negb (r =? 0) then mret (-1, s)
  else
    s ← min_heap_shift_up_ (heap_fuel s) (MinHeap (hp s) (u32 (hn s + 1)) (ha s)) (hn s) e;
    mret (0, s).

Definition min_heap_pop (s : min_heap) : L (option eid * min_heap) :=
  if hn s =? 0 then mret (None, s)
  else
    e ← slot s 0;
    last ← slot s (hn s - 1);
    s ← min_heap_shift_down_ (heap_fuel s) (MinHeap (hp s) (hn s - 1) (ha s)) 0 last;
    _ ← mod_event e (set_idx (-1));
    mret (Some e, s).

Definition min_heap_erase (s : min_heap) (e : eid) : L (Z * min_heap) :=
  x ← get_event e;
  let i := min_heap_idx x in
  if i =? -1 then mret (-1, s)
  else
    let fuel := heap_fuel s in
    last ← slot s (u32 (hn s - 1));
    let s := MinHeap (hp s) (u32 (hn s - 1)) (ha s) in
    let parent := u32 (Z.quot (i - 1) 2) in
    up ← (if 0 <? i then p ← slot s parent; min_heap_elem_greater p last else mret false);
    s ← (if up : bool then min_heap_shift_up_ fuel s i last
         else min_heap_shift_down_ fuel s (u32 i) last);
    _ ← mod_event e (set_idx (-1));
    mret (0, s).
