(* ===== verification/EvHeapSpec.v ===== *)
(** * The heap of timeouts: lemmas

    Total correctness of runs, the order of a heap, and what the two loops of
    minheap-internal.h do to an array with a hole; then the invariant of the heap,
    and what each operation does to the events in it. *)

From Stdlib Require Import ssreflect.
From S2P Require Import Prelude CTypes HProp CMem EvTime EvEvent EvHeap.
Set Warnings "-rewrite-rw".
Open Scope general_if_scope.
Open Scope Z_scope.

(** ** Runs *)

Definition lruns {A} (m : L A) (w : world) (Q : A -> world -> Prop) : Prop :=
  match m w with inr (a, w') => Q a w' | inl _ => False end.

Section lruns.
Context {A B : Type}.

Lemma lruns_ret (a : A) w (Q : A -> world -> Prop) : Q a w -> lruns (mret a) w Q.
Proof. done. Qed.

Lemma lruns_bind (m : L A) (k : A -> L B) w Q :
  lruns m w (fun a w' => lruns (k a) w' Q) -> lruns (m ≫= k) w Q.
Proof. rewrite /lruns /mbind /L_bind. by destruct (m w) as [s|[a w']]. Qed.

Lemma lruns_mono (m : L A) w (Q Q' : A -> world -> Prop) :
  lruns m w Q -> (∀ a w', Q a w' -> Q' a w') -> lruns m w Q'.
Proof. rewrite /lruns. destruct (m w) as [s|[a w']]; auto. Qed.

Lemma lruns_run (m : L A) w Q : lruns m w Q -> ∃ a w', m w = inr (a, w') ∧ Q a w'.
Proof. rewrite /lruns. destruct (m w) as [s|[a w']]; [done|]. eauto. Qed.

End lruns.

Lemma lruns_assert (b : bool) w Q : b = true -> Q tt w -> lruns (ev_assert b) w Q.
Proof. by intros ->. Qed.

Lemma lruns_get_event e v w (Q : event -> world -> Prop) : events w !! e = Some v -> Q v w -> lruns (get_event e) w Q.
Proof. rewrite /lruns /get_event. by intros ->. Qed.

Lemma lruns_mod_event e f v w (Q : unit -> world -> Prop) :
  events w !! e = Some v -> Q tt (set_events (<[e := f v]> (events w)) w) -> lruns (mod_event e f) w Q.
Proof. rewrite /lruns /mod_event. by intros ->. Qed.

(** ** Worlds that differ in the indices of events only *)

Definition but_idx (v v' : event) : Prop := set_idx 0 v = set_idx 0 v'.

Record reindexed (w w' : world) : Prop := {
  ri_world : w' = set_events (events w') w;
  ri_events : ∀ e, option_Forall2 but_idx (events w !! e) (events w' !! e) }.

#[export] Instance but_idx_equiv : Equivalence but_idx.
Proof. split; [by intros v|by intros v u|intros u v t; rewrite /but_idx; congruence]. Qed.

#[export] Instance reindexed_preorder : PreOrder reindexed.
Proof.
  split.
  - intros w. split; [by destruct w|]. intros e. reflexivity.
  - intros w1 w2 w3 [H1 E1] [H2 E2]. split.
    + rewrite H2 {1}H1. by destruct w1, w2.
    + intros e. etrans; [apply E1|apply E2].
Qed.

(** The timeout of an event in memory; the order of events. *)
Definition key (w : world) (e : eid) : timeval := from_option ev_timeout timer_zero (events w !! e).
Definition ev_le (w : world) (x y : eid) : Prop := tv_le (key w x) (key w y).

#[export] Instance ev_le_preorder w : PreOrder (ev_le w).
Proof. split; [intros x|intros x y z]; rewrite /ev_le; [done|by etrans]. Qed.

Lemma but_idx_eq v v' : but_idx v v' -> v' = set_idx (min_heap_idx v') v.
Proof. destruct v, v'. rewrite /but_idx /set_idx /=. by intros [= -> -> -> -> -> -> -> -> -> -> -> -> ->]. Qed.

Lemma reindexed_lookup w w' e v : reindexed w w' -> events w !! e = Some v ->
  ∃ i, events w' !! e = Some (set_idx i v).
Proof.
  intros [_ He] Hv. specialize (He e). rewrite Hv in He. inversion He as [? v' Hb Hl Hr|]; subst.
  exists (min_heap_idx v'). by rewrite -(but_idx_eq v v').
Qed.

Lemma reindexed_key w w' e : reindexed w w' -> key w' e = key w e.
Proof.
  intros [_ He]. specialize (He e). rewrite /key. inversion He as [v v' Hb Hl Hr|]; [|done].
  cbn. by rewrite (but_idx_eq v v').
Qed.

Lemma reindexed_le w w' x y : reindexed w w' -> (ev_le w' x y <-> ev_le w x y).
Proof. intros Hr. by rewrite /ev_le !(reindexed_key _ _ _ Hr). Qed.

Lemma set_idx_reindexed e i w : reindexed w (set_events (alter (set_idx i) e (events w)) w).
Proof.
  split; [done|]. intros x. cbn. destruct (decide (x = e)) as [->|Hne].
  - rewrite lookup_alter_eq. destruct (events w !! e); constructor. done.
  - rewrite lookup_alter_ne //.
Qed.

Lemma reindexed_set_idx e v i w :
  events w !! e = Some v -> reindexed w (set_events (<[e := set_idx i v]> (events w)) w).
Proof.
  intros He. split; [done|]. intros x. cbn. destruct (decide (x = e)) as [->|Hne].
  - rewrite lookup_insert_eq He. by constructor.
  - rewrite lookup_insert_ne //.
Qed.

Lemma lruns_greater x y w (Q : bool -> world -> Prop) :
  is_Some (events w !! x) -> is_Some (events w !! y) ->
  (~ ev_le w x y -> Q true w) -> (ev_le w x y -> Q false w) -> lruns (min_heap_elem_greater x y) w Q.
Proof.
  intros [v Hv] [u Hu] H1 H2. rewrite /min_heap_elem_greater.
  apply lruns_bind, (lruns_get_event _ v); [done|]. apply lruns_bind, (lruns_get_event _ u); [done|]. apply lruns_ret.
  rewrite /ev_le /key Hv Hu /= in H1, H2. destruct (evutil_timercmp _ _ _) eqn:Hc.
  - apply H1. by apply timercmp_gt.
  - apply H2. by apply timercmp_gt_false.
Qed.

(** ** Heaps as lists *)

Definition parent (i : nat) : nat := ((i - 1) / 2)%nat.

(** Every entry is not less than the one above it. *)
Definition heap_order (w : world) (xs : list eid) : Prop :=
  ∀ i x y, (0 < i)%nat -> xs !! parent i = Some x -> xs !! i = Some y -> ev_le w x y.

(** The events of a heap know their indices. *)
Definition indexed (w : world) (xs : list eid) (except : nat) : Prop :=
  ∀ i x, xs !! i = Some x -> i ≠ except -> ∃ v, events w !! x = Some v ∧ min_heap_idx v = Z.of_nat i.

Lemma parent_lt i : (0 < i)%nat -> (parent i < i)%nat.
Proof. intros. rewrite /parent. pose proof (Nat.div_mod (i - 1) 2). lia. Qed.

Lemma parent_child i : (parent i = i ∧ i = 0)%nat ∨ (i = 2 * parent i + 1 ∨ i = 2 * parent i + 2)%nat.
Proof. rewrite /parent. pose proof (Nat.div_mod (i - 1) 2). pose proof (Nat.mod_upper_bound (i - 1) 2). lia. Qed.

Lemma u32_parent i : (0 < i)%nat -> Z.of_nat i < 2 ^ 31 -> u32 (Z.of_nat i - 1) / 2 = Z.of_nat (parent i).
Proof.
  intros H0 Hi. rewrite u32_small; [|lia]. rewrite /parent Nat2Z.inj_div Nat2Z.inj_sub; [done|lia].
Qed.

(** Exchanging two entries. *)
Lemma swap_perm {A} (xs : list A) i j x y :
  xs !! i = Some x -> xs !! j = Some y -> <[i := y]> (<[j := x]> xs) ≡ₚ xs.
Proof.
  intros Hx Hy. destruct (decide (i = j)) as [->|Hne].
  { rewrite list_insert_insert_eq. rewrite Hx in Hy. injection Hy as ->. by rewrite list_insert_id. }
  apply Permutation_inj. split; [by rewrite !length_insert|].
  exists (fun k => if decide (k = i) then j else if decide (k = j) then i else k). split.
  - intros a b. repeat destruct (decide _); subst; lia || done.
  - intros k. destruct (decide (k = i)) as [->|Hki].
    + rewrite list_lookup_insert_eq; [done|]. rewrite length_insert. by eapply lookup_lt_Some.
    + rewrite list_lookup_insert_ne //. destruct (decide (k = j)) as [->|Hkj].
      * rewrite list_lookup_insert_eq; [done|]. by eapply lookup_lt_Some.
      * rewrite list_lookup_insert_ne //.
Qed.

(** ** An array with a hole *)

(** The array holds the entries of [xs] except at [hole], where it may hold
    anything. *)
Record holed (w : world) (s : min_heap) (xs : list eid) (hole : nat) : Prop := {
  ho_hole : (hole < length xs)%nat;
  ho_mem : ∀ i x, xs !! i = Some x -> i ≠ hole -> hp s !! i = Some (Some x);
  ho_room : (length xs <= length (hp s))%nat;
  ho_nodup : NoDup xs;
  ho_events : ∀ x, x ∈ xs -> is_Some (events w !! x);
  ho_idx : indexed w xs hole;
  ho_max : Z.of_nat (length xs) < 2 ^ 31 }.

(** What both loops leave alone. *)
Record settled (w : world) (s : min_heap) (xs : list eid) (w' : world) (s' : min_heap) : Prop := {
  se_world : reindexed w w';
  se_n : hn s' = hn s;
  se_a : ha s' = ha s;
  se_room : length (hp s') = length (hp s);
  se_others : ∀ e, e ∉ xs -> events w' !! e = events w !! e }.

Lemma settled_trans w s xs w1 s1 xs1 w2 s2 :
  settled w s xs w1 s1 -> settled w1 s1 xs1 w2 s2 -> xs1 ≡ₚ xs -> settled w s xs w2 s2.
Proof.
  intros [] [] Hp. split; [by etrans|congruence..|]. intros e He. rewrite se_others1; [by apply se_others0|by rewrite Hp].
Qed.

Lemma lruns_place w s xs e i v :
  events w !! e = Some v -> (i < length (hp s))%nat -> e ∈ xs -> Z.of_nat i < 2 ^ 31 ->
  lruns (place s (Z.of_nat i) e) w (fun s' w' =>
    s' = MinHeap (<[i := Some e]> (hp s)) (hn s) (ha s) ∧ settled w s xs w' s'
    ∧ events w' = <[e := set_idx (Z.of_nat i) v]> (events w)).
Proof.
  intros He Hi Hin Hmax. rewrite /place (proj2 (Z.leb_le _ _)); [|lia]. rewrite (proj2 (Z.ltb_lt _ _)); [|lia]. cbn [andb].
  apply lruns_bind, (lruns_mod_event _ _ v); [done|]. apply lruns_ret. rewrite Nat2Z.id.
  assert (Hs : s32 (Z.of_nat i) = Z.of_nat i) by (rewrite /s32 Z.mod_small; lia). rewrite Hs.
  split_and!; [done| |done]. split; cbn; [by apply reindexed_set_idx|done|done|by rewrite length_insert|].
  intros x Hx. rewrite lookup_insert_ne //. by intros ->.
Qed.

(** Putting the missing entry into the hole. *)
Lemma lruns_place_last w s xs hole e :
  holed w s xs hole -> xs !! hole = Some e ->
  lruns (place s (Z.of_nat hole) e) w (fun s' w' =>
    settled w s xs w' s' ∧ indexed w' xs (length xs) ∧ ∀ i x, xs !! i = Some x -> hp s' !! i = Some (Some x)).
Proof.
  intros [] He. assert (Hin : e ∈ xs) by by eapply list_elem_of_lookup_2. destruct (ho_events0 e Hin) as [v Hv].
  eapply lruns_mono; [apply (lruns_place w s xs e hole v); [done|lia|done|lia]|].
  intros s' w' (-> & Hset & Hev). split; [done|]. split.
  - intros i x Hx _. rewrite Hev. destruct (decide (i = hole)) as [->|Hne].
    + rewrite Hx in He. injection He as ->. rewrite lookup_insert_eq. eexists; done.
    + rewrite lookup_insert_ne; [by apply ho_idx0|]. intros ->. apply Hne. by eapply NoDup_lookup.
  - intros i x Hx. cbn. destruct (decide (i = hole)) as [->|Hne].
    + rewrite list_lookup_insert_eq; [congruence|lia].
    + rewrite list_lookup_insert_ne //. by apply ho_mem0.
Qed.

(** Moving another entry into the hole, which leaves a hole there. *)
Lemma lruns_place_move w s xs hole j e c :
  holed w s xs hole -> xs !! hole = Some e -> xs !! j = Some c -> j ≠ hole ->
  lruns (place s (Z.of_nat hole) c) w (fun s' w' =>
    settled w s xs w' s' ∧ holed w' s' (<[hole := c]> (<[j := e]> xs)) j).
Proof.
  intros [] He Hc Hj. assert (Hin : c ∈ xs) by by eapply list_elem_of_lookup_2. destruct (ho_events0 c Hin) as [v Hv].
  eapply lruns_mono; [apply (lruns_place w s xs c hole v); [done|lia|done|lia]|].
  intros s' w' (-> & Hset & Hev). split; [done|]. pose proof (swap_perm xs hole j e c He Hc) as Hp.
  assert (Hlk : ∀ i x, (<[hole := c]> (<[j := e]> xs)) !! i = Some x -> i ≠ j -> i = hole ∧ x = c ∨ i ≠ hole ∧ xs !! i = Some x).
  { intros i x. destruct (decide (i = hole)) as [->|Hne].
    - rewrite list_lookup_insert_eq; [|rewrite length_insert //]. intros [= ->]. by left.
    - rewrite list_lookup_insert_ne //. intros Hx Hij. rewrite list_lookup_insert_ne // in Hx. by right. }
  split; cbn.
  - rewrite !length_insert. by eapply lookup_lt_Some.
  - intros i x Hx Hij. destruct (Hlk i x Hx Hij) as [[-> ->]|[Hne Hx']].
    + rewrite list_lookup_insert_eq //. lia.
    + rewrite list_lookup_insert_ne //. by apply ho_mem0.
  - by rewrite !length_insert.
  - by rewrite Hp.
  - intros x Hx. rewrite Hp in Hx. rewrite Hev. destruct (decide (x = c)) as [->|Hne]; [by rewrite lookup_insert_eq|].
    rewrite lookup_insert_ne //. by apply ho_events0.
  - intros i x Hx Hij. rewrite Hev. destruct (Hlk i x Hx Hij) as [[-> ->]|[Hne Hx']].
    + rewrite lookup_insert_eq. eexists; done.
    + rewrite lookup_insert_ne; [by apply ho_idx0|]. intros ->. apply Hij. by eapply NoDup_lookup.
  - by rewrite !length_insert.
Qed.

(** Reading an entry. *)
Lemma lruns_slot w s xs hole i x (Q : eid -> world -> Prop) :
  holed w s xs hole -> xs !! i = Some x -> i ≠ hole -> Q x w -> lruns (slot s (Z.of_nat i)) w Q.
Proof.
  intros [] Hx Hne HQ. rewrite /slot (proj2 (Z.leb_le _ _)); [|lia]. by rewrite Nat2Z.id (ho_mem0 i x).
Qed.

Lemma holed_event w s xs hole i x : holed w s xs hole -> xs !! i = Some x -> is_Some (events w !! x).
Proof. intros [] Hx. apply ho_events0. by eapply list_elem_of_lookup_2. Qed.

(** ** The loops *)

Section order.
Context (w : world).
Implicit Types (xs : list eid) (hole i j : nat).

(** The order, except between the hole and what is above or below it; entries
    below the hole are not less than the one above it. *)
Definition above_ok xs hole : Prop :=
  ∀ c x y, (0 < hole)%nat -> (0 < c)%nat -> parent c = hole -> xs !! parent hole = Some x -> xs !! c = Some y -> ev_le w x y.
Definition up_ok xs hole : Prop :=
  (∀ i x y, (0 < i)%nat -> i ≠ hole -> xs !! parent i = Some x -> xs !! i = Some y -> ev_le w x y) ∧ above_ok xs hole.
Definition down_ok xs hole : Prop :=
  (∀ i x y, (0 < i)%nat -> parent i ≠ hole -> xs !! parent i = Some x -> xs !! i = Some y -> ev_le w x y) ∧ above_ok xs hole.

Lemma ev_le_not x y : ~ ev_le w x y -> ev_le w y x.
Proof. rewrite /ev_le. destruct (tv_le_total (key w x) (key w y)); tauto. Qed.

Lemma up_done xs hole e :
  up_ok xs hole -> xs !! hole = Some e -> (∀ p, (0 < hole)%nat -> xs !! parent hole = Some p -> ev_le w p e) ->
  heap_order w xs.
Proof.
  intros [Hup _] He Hp i x y Hi Hx Hy. destruct (decide (i = hole)) as [->|Hne]; [|by apply (Hup i)].
  rewrite He in Hy. injection Hy as <-. by apply Hp.
Qed.

Lemma swap_lookup xs i j x y k z :
  xs !! i = Some x -> xs !! j = Some y -> i ≠ j -> (<[i := y]> (<[j := x]> xs)) !! k = Some z ->
  k = i ∧ z = y ∨ k = j ∧ z = x ∨ k ≠ i ∧ k ≠ j ∧ xs !! k = Some z.
Proof.
  intros Hi Hj Hne. pose proof (lookup_lt_Some _ _ _ Hi). pose proof (lookup_lt_Some _ _ _ Hj).
  destruct (decide (k = i)) as [->|Hki].
  - rewrite list_lookup_insert_eq; [|by rewrite length_insert]. intros [= ->]. by left.
  - rewrite list_lookup_insert_ne //. destruct (decide (k = j)) as [->|Hkj].
    + rewrite list_lookup_insert_eq //. intros [= ->]. right. by left.
    + rewrite list_lookup_insert_ne //. intros Hk. do 2 right. done.
Qed.

(** A step up keeps the condition. *)
Lemma up_step xs hole e p :
  up_ok xs hole -> (0 < hole)%nat -> xs !! hole = Some e -> xs !! parent hole = Some p -> ev_le w e p ->
  up_ok (<[hole := p]> (<[parent hole := e]> xs)) (parent hole).
Proof.
  intros [Hup Hab] H0 He Hp Hle. pose proof (parent_lt hole H0) as Hlt.
  assert (Hsw := fun k z => swap_lookup xs hole (parent hole) e p k z He Hp ltac:(lia)). split.
  - intros i x y Hi Hne Hx Hy. destruct (Hsw _ _ Hy) as [[-> ->]|[[-> ->]|(Hi1 & Hi2 & Hy')]]; [|done|].
    + destruct (Hsw _ _ Hx) as [[? _]|[[_ ->]|(_ & ? & _)]]; [lia|done|done].
    + destruct (Hsw _ _ Hx) as [[Hpi ->]|[[Hpi ->]|(_ & _ & Hx')]].
      * apply (Hab i); [done|done|done|done|done].
      * etrans; [exact Hle|]. apply (Hup i); [done|done|by rewrite Hpi|done].
      * by apply (Hup i).
  - intros c x y Hph Hc Hpc Hx Hy. pose proof (parent_lt (parent hole) Hph) as Hlt2.
    assert (Hx' : xs !! parent (parent hole) = Some x).
    { destruct (Hsw _ _ Hx) as [[? _]|[[? _]|(_ & _ & ?)]]; [lia|lia|done]. }
    assert (Hxp : ev_le w x p) by (apply (Hup (parent hole)); [done|lia|done|done]).
    destruct (Hsw _ _ Hy) as [[-> ->]|[[-> ->]|(Hc1 & Hc2 & Hy')]]; [done| |].
    + pose proof (parent_lt (parent hole) Hph). lia.
    + etrans; [exact Hxp|]. apply (Hup c); [done|done|by rewrite Hpc|done].
Qed.

(** The same way down, to the smaller of the entries below. *)
Lemma down_step xs hole e c j :
  down_ok xs hole -> xs !! hole = Some e -> xs !! j = Some c -> (0 < j)%nat -> parent j = hole -> ev_le w c e ->
  (∀ k y, (0 < k)%nat -> parent k = hole -> xs !! k = Some y -> ev_le w c y) ->
  down_ok (<[hole := c]> (<[j := e]> xs)) j.
Proof.
  intros [Hdn Hab] He Hc H0 Hpj Hle Hmin. pose proof (parent_lt j H0) as Hlt.
  assert (Hsw := fun k z => swap_lookup xs hole j e c k z He Hc ltac:(lia)). split.
  - intros i x y Hi Hne Hx Hy. destruct (Hsw _ _ Hy) as [[-> ->]|[[-> ->]|(Hi1 & Hi2 & Hy')]].
    + destruct (Hsw _ _ Hx) as [[Hph ->]|[[? _]|(_ & _ & Hx')]]; [done| |].
      * pose proof (parent_lt hole Hi). lia.
      * by apply (Hab j).
    + destruct (Hsw _ _ Hx) as [[_ ->]|[[? _]|(? & _)]]; [done|done|done].
    + destruct (Hsw _ _ Hx) as [[Hph ->]|[[? _]|(Hp1 & _ & Hx')]]; [by apply (Hmin i)|done|by apply (Hdn i)].
  - intros k x y Hj Hk Hpk Hx Hy. rewrite Hpj in Hx. assert (x = c) as ->.
    { destruct (Hsw _ _ Hx) as [[_ ->]|[[? _]|(? & _)]]; [done|lia|done]. }
    pose proof (parent_lt k Hk). destruct (Hsw _ _ Hy) as [[-> ->]|[[-> ->]|(_ & _ & Hy')]]; [lia|lia|].
    apply (Hdn k); [done|lia|by rewrite Hpk|done].
Qed.

Lemma down_done xs hole e :
  down_ok xs hole -> xs !! hole = Some e -> (∀ k y, (0 < k)%nat -> parent k = hole -> xs !! k = Some y -> ev_le w e y) ->
  heap_order w xs.
Proof.
  intros [Hdn _] He Hmin i x y Hi Hx Hy. destruct (decide (parent i = hole)) as [Heq|Hne]; [|by apply (Hdn i)].
  rewrite Heq He in Hx. injection Hx as <-. by apply (Hmin i).
Qed.

End order.

(** The order does not depend on the indices. *)
Lemma up_ok_reindexed w w' xs hole : reindexed w w' -> up_ok w xs hole -> up_ok w' xs hole.
Proof. intros Hr [H1 H2]. split; [intros i x y ? ? ? ?|intros c x y ? ? ? ? ?]; rewrite (reindexed_le _ _ _ _ Hr); eauto. Qed.

Lemma down_ok_reindexed w w' xs hole : reindexed w w' -> down_ok w xs hole -> down_ok w' xs hole.
Proof. intros Hr [H1 H2]. split; [intros i x y ? ? ? ?|intros c x y ? ? ? ? ?]; rewrite (reindexed_le _ _ _ _ Hr); eauto. Qed.

Lemma heap_order_reindexed w w' xs : reindexed w w' -> heap_order w xs -> heap_order w' xs.
Proof. intros Hr H i x y ? ? ?. rewrite (reindexed_le _ _ _ _ Hr). by eapply (H i). Qed.

(** What both loops end with. *)
Definition filled (w : world) (s : min_heap) (xs : list eid) (s' : min_heap) (w' : world) : Prop :=
  settled w s xs w' s' ∧ ∃ ys, ys ≡ₚ xs ∧ heap_order w' ys ∧ indexed w' ys (length ys)
    ∧ ∀ i y, ys !! i = Some y -> hp s' !! i = Some (Some y).

Lemma filled_after w s xs w1 s1 xs1 s2 w2 :
  settled w s xs w1 s1 -> xs1 ≡ₚ xs -> filled w1 s1 xs1 s2 w2 -> filled w s xs s2 w2.
Proof.
  intros Hs Hp [Hs1 (ys & Hy & H)]. split; [by eapply settled_trans|]. exists ys. split; [by rewrite Hy|done].
Qed.

Lemma filled_here w s xs hole e :
  holed w s xs hole -> xs !! hole = Some e -> heap_order w xs ->
  lruns (place s (Z.of_nat hole) e) w (filled w s xs).
Proof.
  intros Hh He Ho. eapply lruns_mono; [by apply (lruns_place_last w s xs)|]. intros s' w' (Hs & Hi & Hm). split; [done|].
  exists xs. split_and!; [done|eapply heap_order_reindexed; [apply Hs|done]|done|done].
Qed.

Lemma lruns_shift_up fuel w s xs hole e :
  (hole < fuel)%nat -> holed w s xs hole -> xs !! hole = Some e -> up_ok w xs hole ->
  lruns (min_heap_shift_up_ fuel s (Z.of_nat hole) e) w (filled w s xs).
Proof.
  revert w s xs hole. induction fuel as [|fuel IH]; intros w s xs hole Hf Hh He Hup; [lia|]. cbn [min_heap_shift_up_].
  pose proof Hh as []. apply lruns_bind. destruct (Z.eqb_spec (Z.of_nat hole) 0) as [H0|H0].
  { apply lruns_ret. eapply filled_here, up_done; [done..|]. lia. }
  rewrite u32_parent; [|lia|lia]. pose proof (parent_lt hole ltac:(lia)) as Hlt.
  destruct (lookup_lt_is_Some_2 xs (parent hole)) as [p Hp]; [lia|].
  apply lruns_bind, (lruns_slot w s xs hole (parent hole) p); [done|done|lia|].
  apply lruns_greater; [by eapply holed_event|by eapply holed_event| |]; intros Hle.
  - apply lruns_bind, (lruns_slot w s xs hole (parent hole) p); [done|done|lia|].
    apply lruns_bind. eapply lruns_mono; [apply (lruns_place_move w s xs hole (parent hole) e p); [done|done|done|lia]|].
    intros s1 w1 [Hs1 Hh1]. eapply lruns_mono.
    + apply (IH w1 s1 _ (parent hole) ltac:(lia) Hh1).
      * rewrite list_lookup_insert_ne; [|lia]. apply list_lookup_insert_eq. lia.
      * eapply up_ok_reindexed; [apply Hs1|]. apply up_step; [done|lia|done|done|by apply ev_le_not].
    + intros s2 w2 Hfill. eapply filled_after; [exact Hs1|by apply (swap_perm xs hole (parent hole) e p)|exact Hfill].
  - eapply filled_here, up_done; [done..|]. intros p' _ Hp'. congruence.
Qed.

Lemma u32_child hole : Z.of_nat hole < 2 ^ 31 - 1 -> u32 (2 * (Z.of_nat hole + 1)) = Z.of_nat (2 * hole + 2).
Proof. intros. rewrite u32_small; lia. Qed.

(** The entries below the hole are at these places. *)
Lemma child_cases hole k : (0 < k)%nat -> parent k = hole -> k = (2 * hole + 1)%nat ∨ k = (2 * hole + 2)%nat.
Proof. intros Hk <-. pose proof (parent_child k). lia. Qed.

Lemma parent_left hole : parent (2 * hole + 1) = hole.
Proof. rewrite /parent. replace (2 * hole + 1 - 1)%nat with (hole * 2)%nat by lia. by rewrite Nat.div_mul. Qed.

Lemma parent_right hole : parent (2 * hole + 2) = hole.
Proof. rewrite /parent. replace (2 * hole + 2 - 1)%nat with (1 + hole * 2)%nat by lia. by rewrite Nat.div_add. Qed.

(** The child that the loop goes on with is the smaller one. *)
Lemma lruns_min_child w s xs hole (Q : bool -> world -> Prop) :
  holed w s xs hole -> hn s = Z.of_nat (length xs) -> (2 * hole + 2 <= length xs)%nat ->
  (∀ (l : bool) j c, j = (if l then 2 * hole + 1 else 2 * hole + 2)%nat -> xs !! j = Some c ->
     (∀ k y, (0 < k)%nat -> parent k = hole -> xs !! k = Some y -> ev_le w c y) -> Q l w) ->
  lruns (if Z.of_nat (2 * hole + 2) =? hn s then mret true
         else a ← slot s (Z.of_nat (2 * hole + 2)); b ← slot s (Z.of_nat (2 * hole + 2) - 1); min_heap_elem_greater a b) w Q.
Proof.
  intros Hh Hn Hlen HQ. destruct (lookup_lt_is_Some_2 xs (2 * hole + 1)) as [a Ha]; [lia|].
  destruct (Z.eqb_spec (Z.of_nat (2 * hole + 2)) (hn s)) as [Heq|Hne].
  { apply lruns_ret, (HQ true _ a eq_refl Ha). intros k y Hk Hp Hy. pose proof (lookup_lt_Some _ _ _ Hy).
    destruct (child_cases hole k Hk Hp) as [->| ->]; [|lia]. rewrite Ha in Hy. by injection Hy as <-. }
  destruct (lookup_lt_is_Some_2 xs (2 * hole + 2)) as [c Hc]; [lia|].
  apply lruns_bind, (lruns_slot w s xs hole (2 * hole + 2) c); [done|done|lia|].
  replace (Z.of_nat (2 * hole + 2) - 1) with (Z.of_nat (2 * hole + 1)) by lia.
  apply lruns_bind, (lruns_slot w s xs hole (2 * hole + 1) a); [done|done|lia|].
  apply lruns_greater; [by eapply holed_event|by eapply holed_event| |]; intros Hle;
    [apply (HQ true _ a eq_refl Ha)|apply (HQ false _ c eq_refl Hc)]; intros k y Hk Hp Hy;
    (destruct (child_cases hole k Hk Hp) as [->| ->]; [rewrite Ha in Hy|rewrite Hc in Hy]; injection Hy as <-); try done.
  by apply ev_le_not.
Qed.

Lemma lruns_shift_down fuel w s xs hole e :
  (length xs < fuel + hole)%nat -> holed w s xs hole -> xs !! hole = Some e -> hn s = Z.of_nat (length xs) -> down_ok w xs hole ->
  lruns (min_heap_shift_down_ fuel s (Z.of_nat hole) e) w (filled w s xs).
Proof.
  revert w s xs hole. induction fuel as [|fuel IH]; intros w s xs hole Hf Hh He Hn Hdn; pose proof Hh as []; [lia|].
  cbn [min_heap_shift_down_]. rewrite u32_child; [|lia].
  destruct (Z.leb_spec (Z.of_nat (2 * hole + 2)) (hn s)) as [Hle|Hgt]; last first.
  { eapply filled_here, down_done; [done..|]. intros k y Hk Hp Hy. pose proof (lookup_lt_Some _ _ _ Hy).
    destruct (child_cases hole k Hk Hp); lia. }
  apply lruns_bind, (lruns_min_child w s xs); [done|done|lia|]. intros l j c Hj Hc Hmin.
  replace (if l then Z.of_nat (2 * hole + 2) - 1 else Z.of_nat (2 * hole + 2)) with (Z.of_nat j) by (rewrite Hj; destruct l; lia).
  assert (Hpj : (0 < j)%nat ∧ parent j = hole ∧ (hole < j)%nat).
  { rewrite Hj. destruct l; rewrite ?parent_left ?parent_right; lia. }
  destruct Hpj as (Hj0 & Hpj & Hlt). apply lruns_bind, (lruns_slot w s xs hole j c); [done|done|lia|]. apply lruns_bind.
  apply lruns_greater; [by eapply holed_event|by eapply holed_event| |]; intros Hec.
  - apply lruns_bind. eapply lruns_mono; [apply (lruns_place_move w s xs hole j e c); [done|done|done|lia]|].
    intros s1 w1 [Hs1 Hh1]. eapply lruns_mono.
    + apply (IH w1 s1 (<[hole := c]> (<[j := e]> xs)) j); [rewrite !length_insert; lia|exact Hh1| | |].
      * rewrite list_lookup_insert_ne; [|lia]. apply list_lookup_insert_eq. by eapply lookup_lt_Some.
      * rewrite !length_insert. by rewrite (se_n _ _ _ _ _ Hs1).
      * eapply down_ok_reindexed; [apply Hs1|]. apply down_step; [done..|by apply ev_le_not|done].
    + intros s2 w2 Hfill. eapply filled_after; [exact Hs1|by apply (swap_perm xs hole j e c)|exact Hfill].
  - eapply filled_here, down_done; [done..|]. intros k y Hk Hp Hy. etrans; [exact Hec|by apply (Hmin k)].
Qed.

(** The events [xs] are in the heap, in the order of the array. *)
Record is_heap (w : world) (s : min_heap) (xs : list eid) : Prop := {
  hw_n : hn s = Z.of_nat (length xs);
  hw_a : ha s = Z.of_nat (length (hp s));
  hw_room : (length xs <= length (hp s))%nat;
  hw_max : Z.of_nat (length xs) < 2 ^ 31;
  hw_alloc : ha s < 2 ^ 32;
  hw_nodup : NoDup xs;
  hw_mem : ∀ i x, xs !! i = Some x -> hp s !! i = Some (Some x);
  hw_idx : indexed w xs (length xs);
  hw_order : heap_order w xs }.

Lemma is_heap_ctor w : is_heap w min_heap_ctor [].
Proof. split; cbn; try done. constructor. Qed.

Lemma is_heap_event w s xs e : is_heap w s xs -> e ∈ xs -> is_Some (events w !! e).
Proof.
  intros [] (i & Hi)%list_elem_of_lookup_1. destruct (hw_idx0 i e Hi) as (v & Hv & _); [|by rewrite Hv].
  apply lookup_lt_Some in Hi. lia.
Qed.

(** The first entry is one of the least. *)
Lemma heap_min w xs x : heap_order w xs -> xs !! O = Some x -> Forall (ev_le w x) xs.
Proof.
  intros Ho Hx. apply Forall_lookup. intros i. induction i as [i IH] using lt_wf_ind. intros y Hy.
  destruct (decide (i = O)) as [->|Hne]; [rewrite Hx in Hy; by injection Hy as <-|].
  pose proof (parent_lt i ltac:(lia)) as Hlt. destruct (lookup_lt_is_Some_2 xs (parent i)) as [p Hp].
  { apply lookup_lt_Some in Hy. lia. }
  etrans; [by apply (IH (parent i))|]. apply (Ho i); [lia|done|done].
Qed.

Lemma lruns_top w s xs (Q : option eid -> world -> Prop) :
  is_heap w s xs -> Q (head xs) w -> lruns (min_heap_top s) w Q.
Proof.
  intros [] HQ. rewrite /min_heap_top hw_n0. destruct xs as [|x xs]; [done|]. cbn [length]. rewrite (proj2 (Z.eqb_neq _ 0)); [|lia].
  apply lruns_bind. rewrite /slot. cbn [Z.leb Z.compare]. by rewrite (hw_mem0 O x).
Qed.

(** ** Adding *)

Lemma lruns_reserve w s xs n (Q : Z * min_heap -> world -> Prop) :
  is_heap w s xs -> 0 < n < 2 ^ 31 ->
  (∀ s' o, is_heap (set_oom o w) s' xs -> n <= ha s' -> (heap_oom w = [] -> o = []) -> Q (0, s') (set_oom o w)) ->
  (∀ o, heap_oom w ≠ [] -> Q (-1, s) (set_oom o w)) ->
  lruns (min_heap_reserve s n) w Q.
Proof.
  intros Hh Hn HQ HQ'. pose proof Hh as []. rewrite /min_heap_reserve. destruct (Z.ltb_spec (ha s) n) as [Hlt|Hge]; last first.
  { apply lruns_ret. replace w with (set_oom (heap_oom w) w) by by destruct w. apply HQ; [by destruct w|done|done]. }
  set (a0 := if ha s =? 0 then 8 else u32 (ha s * 2)). set (a := if a0 <? n then n else a0). assert (Ha : n <= a < 2 ^ 32 ∧ ha s <= a).
  { rewrite /a /a0. destruct (Z.eqb_spec (ha s) 0) as [->|H0].
    - destruct (Z.ltb_spec 8 n); lia.
    - rewrite u32_small; [|lia]. destruct (Z.ltb_spec (ha s * 2) n); lia. }
  clearbody a. apply lruns_bind.
  assert (Hnew : ∀ o, is_heap (set_oom o w)
    (MinHeap (take (Z.to_nat a) (hp s) ++ replicate (Z.to_nat a - length (hp s)) None) (hn s) a) xs).
  { intros o. rewrite take_ge; [|lia]. split; cbn; try done; try (rewrite length_app length_replicate; lia); try lia.
    intros i x Hx. rewrite lookup_app_l; [by apply hw_mem0|]. apply lookup_lt_Some in Hx. lia. }
  rewrite /lruns /mm_alloc. destruct (heap_oom w) as [|[] o] eqn:Ho.
  - assert (Hw : w = set_oom [] w) by (clear -Ho; destruct w; cbn in Ho; by subst). rewrite Hw.
    apply HQ; [apply Hnew|cbn; lia|done].
  - apply HQ; [apply Hnew|cbn; lia|done].
  - by apply HQ'.
Qed.

(** What changes when events move in the heap. *)
Record heap_moved (w w' : world) (xs : list eid) : Prop := {
  hm_world : reindexed w w';
  hm_others : ∀ e, e ∉ xs -> events w' !! e = events w !! e }.

Lemma filled_heap w s xs s' w' :
  filled w s xs s' w' -> hn s = Z.of_nat (length xs) -> ha s = Z.of_nat (length (hp s)) -> (length xs <= length (hp s))%nat ->
  Z.of_nat (length xs) < 2 ^ 31 -> ha s < 2 ^ 32 -> NoDup xs ->
  ∃ ys, ys ≡ₚ xs ∧ is_heap w' s' ys ∧ heap_moved w w' xs ∧ length (hp s') = length (hp s).
Proof.
  intros [[] (ys & Hp & Ho & Hi & Hm)] Hn Ha Hr Hmax Hal Hnd. exists ys. split; [done|]. pose proof (Permutation_length Hp) as Hl.
  split_and!; [|by split|done]. split; try done; try lia; by rewrite Hp.
Qed.

Lemma lruns_push_room w s xs e (Q : Z * min_heap -> world -> Prop) :
  is_heap w s xs -> is_Some (events w !! e) -> e ∉ xs -> hn s < ha s -> hn s + 1 < 2 ^ 31 ->
  (∀ s' w' ys, is_heap w' s' ys -> ys ≡ₚ e :: xs -> heap_moved w w' (e :: xs) -> Q (0, s') w') ->
  lruns (min_heap_push s e) w Q.
Proof.
  intros Hh He Hnin Hroom Hmax HQ. pose proof Hh as []. rewrite /min_heap_push /min_heap_reserve (u32_small (hn s + 1)); [|lia].
  rewrite (proj2 (Z.ltb_ge _ _)); [|lia]. apply lruns_bind, lruns_ret. cbn [Z.eqb negb]. rewrite (u32_small (hn s + 1)); [|lia]. apply lruns_bind.
  set (s1 := MinHeap (hp s) (hn s + 1) (ha s)). assert (Hnd : NoDup (xs ++ [e])).
  { apply NoDup_app. split_and!; [done| |apply NoDup_singleton]. intros x Hx ->%list_elem_of_singleton. done. }
  assert (Hhole : holed w s1 (xs ++ [e]) (length xs)).
  { split; cbn; rewrite ?length_app /=; try lia; try done.
    - intros i x Hx Hne. apply lookup_app_Some in Hx as [Hx|[? Hx]]; [by apply hw_mem0|].
      apply list_lookup_singleton_Some in Hx as [? _]. lia.
    - intros x [Hx|Hx%list_elem_of_singleton]%elem_of_app; [by eapply is_heap_event|by rewrite Hx].
    - intros i x Hx Hne. apply lookup_app_Some in Hx as [Hx|[? Hx]].
      + apply hw_idx0; [done|]. apply lookup_lt_Some in Hx. lia.
      + apply list_lookup_singleton_Some in Hx as [? _]. lia. }
  rewrite hw_n0. eapply lruns_mono; [apply (lruns_shift_up _ w s1 (xs ++ [e]))|].
  - rewrite /heap_fuel hw_n0. lia.
  - done.
  - by rewrite lookup_app_r // Nat.sub_diag.
  - split.
    + intros i x y Hi Hne Hx Hy. pose proof (parent_lt i Hi). pose proof (lookup_lt_Some _ _ _ Hy) as Hly.
      rewrite length_app /= in Hly. rewrite lookup_app_l in Hy; [|lia]. rewrite lookup_app_l in Hx; [|lia]. by apply (hw_order0 i).
    + intros c x y H0 Hc Hpc _ Hy. pose proof (parent_lt c Hc). pose proof (lookup_lt_Some _ _ _ Hy) as Hly.
      rewrite length_app /= in Hly. lia.
  - intros s' w' Hfill. apply lruns_ret.
    assert (Hp : xs ++ [e] ≡ₚ e :: xs) by by rewrite Permutation_app_comm.
    destruct (filled_heap _ _ _ _ _ Hfill) as (ys & Hy & Hh' & Hm & _); cbn; rewrite ?length_app /=; try lia; try done.
    apply (HQ s' w' ys); [done|by rewrite Hy|]. destruct Hm. split; [done|]. intros x Hx. apply hm_others0. by rewrite Hp.
Qed.

(** ** Removing *)

(** The last entry takes the place of the removed one. *)
Definition replaced (zs : list eid) (l : eid) (i : nat) : list eid := if decide (i = length zs) then zs else <[i := l]> zs.

Lemma replaced_perm zs l i e : (zs ++ [l]) !! i = Some e -> e :: replaced zs l i ≡ₚ zs ++ [l].
Proof.
  intros Hi. rewrite /replaced. destruct (decide (i = length zs)) as [->|Hne].
  - rewrite lookup_app_r // Nat.sub_diag in Hi. injection Hi as ->. by rewrite Permutation_app_comm.
  - pose proof (lookup_lt_Some _ _ _ Hi) as Hl. rewrite length_app /= in Hl. rewrite lookup_app_l in Hi; [|lia].
    rewrite -{2}(take_drop_middle zs i e Hi) insert_take_drop; [|lia].
    transitivity (e :: l :: take i zs ++ drop (S i) zs); [constructor; symmetry; apply Permutation_middle|].
    rewrite -Permutation_cons_append perm_swap. constructor. apply Permutation_middle.
Qed.

Lemma replaced_length zs l i : length (replaced zs l i) = length zs.
Proof. rewrite /replaced. destruct (decide _); [done|apply length_insert]. Qed.

Section removing.
Context (w : world) (s : min_heap) (zs : list eid) (l e : eid) (i : nat).
Context (Hh : is_heap w s (zs ++ [l])) (Hi : (zs ++ [l]) !! i = Some e).

Let s1 := MinHeap (hp s) (hn s - 1) (ha s).

Lemma removing_bounds : hn s = Z.of_nat (length zs) + 1 ∧ (i <= length zs)%nat ∧ Z.of_nat (length zs) + 1 < 2 ^ 31
  ∧ (length zs < length (hp s))%nat.
Proof.
  destruct Hh. rewrite length_app /= in hw_n0, hw_max0, hw_room0. apply lookup_lt_Some in Hi as Hl. rewrite length_app /= in Hl. lia.
Qed.

Lemma replaced_holed : (i < length zs)%nat -> holed w s1 (replaced zs l i) i ∧ replaced zs l i !! i = Some l.
Proof.
  intros Hlt. destruct removing_bounds as (Hn & _ & Hmax & Hroom). pose proof (replaced_perm zs l i e Hi) as Hp.
  assert (Hnd : NoDup (e :: replaced zs l i)) by (rewrite Hp; apply Hh). rewrite /replaced decide_False in Hp, Hnd |- *; [|lia..].
  split; [|by apply list_lookup_insert_eq]. split; cbn; rewrite ?length_insert; try lia.
  - intros j x Hx Hne. rewrite list_lookup_insert_ne // in Hx. apply Hh. by apply lookup_app_l_Some.
  - by apply NoDup_cons in Hnd as [_ ?].
  - intros x Hx. apply (is_heap_event w s (zs ++ [l])); [done|]. rewrite -Hp. by right.
  - intros j x Hx Hne. rewrite list_lookup_insert_ne // in Hx. apply Hh; [by apply lookup_app_l_Some|].
    apply lookup_lt_Some in Hx. rewrite length_app /=. lia.
Qed.

(** The entries around the removed one. *)
Lemma replaced_lookup j x :
  (i < length zs)%nat -> replaced zs l i !! j = Some x -> j = i ∧ x = l ∨ j ≠ i ∧ (zs ++ [l]) !! j = Some x.
Proof.
  intros Hlt. rewrite /replaced decide_False; [|lia]. destruct (decide (j = i)) as [->|Hne].
  - rewrite list_lookup_insert_eq //. intros [= ->]. by left.
  - rewrite list_lookup_insert_ne //. intros Hx. right. split; [done|]. by apply lookup_app_l_Some.
Qed.

Lemma replaced_above : (i < length zs)%nat -> above_ok w (replaced zs l i) i.
Proof.
  intros Hlt c x y H0 Hc Hpc Hx Hy. pose proof (parent_lt i H0). pose proof (parent_lt c Hc).
  destruct (replaced_lookup _ _ Hlt Hx) as [[? _]|[_ Hx']]; [lia|]. destruct (replaced_lookup _ _ Hlt Hy) as [[? _]|[_ Hy']]; [lia|].
  etrans; [by apply (hw_order _ _ _ Hh i)|]. apply (hw_order _ _ _ Hh c); [done|by rewrite Hpc|done].
Qed.

Lemma replaced_up p :
  (0 < i < length zs)%nat -> (zs ++ [l]) !! parent i = Some p -> ~ ev_le w p l -> up_ok w (replaced zs l i) i.
Proof.
  intros [H0 Hlt] Hp Hle. split; [|by apply replaced_above]. intros k x y Hk Hne Hx Hy.
  destruct (replaced_lookup _ _ Hlt Hy) as [[? _]|[_ Hy']]; [done|]. destruct (replaced_lookup _ _ Hlt Hx) as [[Hpk ->]|[_ Hx']].
  - transitivity p; [by apply ev_le_not|]. etrans; [by apply (hw_order _ _ _ Hh i)|].
    apply (hw_order _ _ _ Hh k); [done|by rewrite Hpk|done].
  - by apply (hw_order _ _ _ Hh k).
Qed.

Lemma replaced_down :
  (i < length zs)%nat -> (∀ p, (0 < i)%nat -> (zs ++ [l]) !! parent i = Some p -> ev_le w p l) -> down_ok w (replaced zs l i) i.
Proof.
  intros Hlt Hp. split; [|by apply replaced_above]. intros k x y Hk Hne Hx Hy.
  destruct (replaced_lookup _ _ Hlt Hx) as [[? _]|[_ Hx']]; [done|].
  destruct (replaced_lookup _ _ Hlt Hy) as [[-> ->]|[_ Hy']]; [by apply Hp|by apply (hw_order _ _ _ Hh k)].
Qed.

(** After the move, the removed event forgets its index. *)
Definition taken_out (s' : min_heap) (w' : world) : Prop :=
  ∃ ys, e :: ys ≡ₚ zs ++ [l] ∧ is_heap w' s' ys ∧ heap_moved w w' (zs ++ [l]) ∧ hn s' < ha s'.

Lemma forget_index s2 w2 (Q : unit -> world -> Prop) :
  taken_out s2 w2 ->
  (∀ w3 v, taken_out s2 w3 -> events w3 !! e = Some v -> min_heap_idx v = -1 -> Q tt w3) ->
  lruns (mod_event e (set_idx (-1))) w2 Q.
Proof.
  intros (ys & Hp & Hh2 & [Hr Ho] & Hroom) HQ. destruct (is_heap_event w s _ e Hh) as [v Hv]; [by eapply list_elem_of_lookup_2|].
  destruct (reindexed_lookup _ _ _ _ Hr Hv) as [k Hk]. apply (lruns_mod_event _ _ (set_idx k v)); [done|].
  assert (Hnin : e ∉ ys). { assert (NoDup (e :: ys)) as [? _]%NoDup_cons by (rewrite Hp; apply Hh). done. }
  eapply HQ; [|by apply lookup_insert_eq|done]. exists ys. split; [done|].
  pose proof (reindexed_set_idx e (set_idx k v) (-1) w2 Hk) as Hr2. split_and!; [| |done].
  - destruct Hh2. split; try done; [|by eapply heap_order_reindexed]. intros j x Hx Hne.
    rewrite lookup_insert_ne; [by apply hw_idx0|]. intros ->. apply Hnin. by eapply list_elem_of_lookup_2.
  - split; [by etrans|]. intros x Hx. cbn. rewrite lookup_insert_ne; [by apply Ho|].
    intros ->. apply Hx. by eapply list_elem_of_lookup_2.
Qed.

Lemma filled_taken_out s2 w2 : (i < length zs)%nat -> filled w s1 (replaced zs l i) s2 w2 -> taken_out s2 w2.
Proof.
  intros Hlt Hf. destruct removing_bounds as (Hn & _ & Hmax & Hroom). pose proof (replaced_perm zs l i e Hi) as Hp.
  destruct (filled_heap _ _ _ _ _ Hf) as (ys & Hy & Hh2 & [Hr Ho] & Hlen); cbn; rewrite ?replaced_length; try lia.
  - apply Hh.
  - apply Hh.
  - assert (NoDup (e :: replaced zs l i)) as [_ ?]%NoDup_cons by (rewrite Hp; apply Hh). done.
  - exists ys. split; [by rewrite Hy|]. split; [done|]. split; [split; [done|]|].
    + intros x Hx. apply Ho. intros Hin. apply Hx. rewrite -Hp. by right.
    + rewrite (hw_n _ _ _ Hh2) (hw_a _ _ _ Hh2) Hlen Hy replaced_length. cbn. lia.
Qed.

(** The last entry is put back behind the end and then forgotten. *)
Lemma lruns_put_back : i = length zs -> lruns (place s1 (Z.of_nat i) l) w taken_out.
Proof.
  intros Hlast. destruct removing_bounds as (Hn & _ & Hmax & Hroom). assert (l = e) as Hle.
  { pose proof Hi as Hi'. rewrite Hlast lookup_app_r // Nat.sub_diag in Hi'. by injection Hi'. }
  destruct (is_heap_event w s (zs ++ [l]) l Hh) as [v Hv]; [apply elem_of_app; right; by apply list_elem_of_singleton|].
  eapply lruns_mono; [apply (lruns_place w s1 (zs ++ [l]) l i v); [done|cbn; lia| |lia]|].
  { apply elem_of_app. right. by apply list_elem_of_singleton. }
  intros s2 w2 (-> & [Hr _ _ _ Ho] & Hev). exists zs. split; [by rewrite -Hle Permutation_cons_append|].
  split_and!; [|by split|cbn; rewrite Hn (hw_a _ _ _ Hh); lia].
  pose proof Hh as []. assert (Hnin : l ∉ zs).
  { apply NoDup_app in hw_nodup0 as (_ & Hd & _). intros Hin. apply (Hd l Hin). by apply list_elem_of_singleton. }
  split; cbn; rewrite ?length_insert; try lia.
  - by apply NoDup_app in hw_nodup0 as (? & _).
  - intros j x Hx. rewrite list_lookup_insert_ne; [apply hw_mem0; by apply lookup_app_l_Some|]. apply lookup_lt_Some in Hx. lia.
  - intros j x Hx Hne. rewrite Hev lookup_insert_ne; [|intros ->; apply Hnin; by eapply list_elem_of_lookup_2].
    apply hw_idx0; [by apply lookup_app_l_Some|]. apply lookup_lt_Some in Hx. rewrite length_app /=. lia.
  - eapply heap_order_reindexed; [done|]. intros j x y Hj Hx Hy. apply (hw_order0 j); [done|by apply lookup_app_l_Some..].
Qed.

End removing.

Lemma lruns_slot_heap w s xs i x (Q : eid -> world -> Prop) :
  is_heap w s xs -> xs !! i = Some x -> Q x w -> lruns (slot s (Z.of_nat i)) w Q.
Proof. intros [] Hx HQ. rewrite /slot (proj2 (Z.leb_le _ _)); [|lia]. by rewrite Nat2Z.id (hw_mem0 i x). Qed.

(** The way down from a place, also the one behind the end. *)
Lemma lruns_down_from w s zs l e i :
  is_heap w s (zs ++ [l]) -> (zs ++ [l]) !! i = Some e ->
  (∀ p, (0 < i)%nat -> (zs ++ [l]) !! parent i = Some p -> ev_le w p l) ->
  lruns (min_heap_shift_down_ (heap_fuel s) (MinHeap (hp s) (hn s - 1) (ha s)) (Z.of_nat i) l) w (taken_out w zs l e).
Proof.
  intros Hh Hi Hp. destruct (removing_bounds w s zs l e i Hh Hi) as (Hn & Hle & Hmax & Hroom).
  destruct (decide (i = length zs)) as [Hlast|Hne].
  - rewrite /heap_fuel. cbn [min_heap_shift_down_ hn]. rewrite u32_child; [|lia].
    rewrite (proj2 (Z.leb_gt _ _)); [|lia]. by apply lruns_put_back.
  - destruct (replaced_holed w s zs l e i Hh Hi) as [Hhole Hl]; [lia|].
    eapply lruns_mono; [apply (lruns_shift_down _ w _ (replaced zs l i) i l)|].
    + rewrite replaced_length /heap_fuel. lia.
    + done.
    + done.
    + rewrite replaced_length. cbn. lia.
    + apply (replaced_down w s zs l e i Hh Hi); [lia|done].
    + intros s2 w2. apply (filled_taken_out w s zs l e i Hh Hi). lia.
Qed.

Lemma lruns_up_from w s zs l e i p :
  is_heap w s (zs ++ [l]) -> (zs ++ [l]) !! i = Some e -> (0 < i)%nat -> (zs ++ [l]) !! parent i = Some p -> ~ ev_le w p l ->
  lruns (min_heap_shift_up_ (heap_fuel s) (MinHeap (hp s) (hn s - 1) (ha s)) (Z.of_nat i) l) w (taken_out w zs l e).
Proof.
  intros Hh Hi H0 Hp Hle. destruct (removing_bounds w s zs l e i Hh Hi) as (Hn & Hil & Hmax & Hroom).
  assert (Hlt : (i < length zs)%nat).
  { destruct (decide (i = length zs)) as [Hlast|]; [|lia]. exfalso. apply Hle. apply (hw_order _ _ _ Hh i); [done|done|].
    by rewrite Hlast lookup_app_r // Nat.sub_diag. }
  destruct (replaced_holed w s zs l e i Hh Hi Hlt) as [Hhole Hl].
  eapply lruns_mono; [apply (lruns_shift_up _ w _ (replaced zs l i) i l)|].
  - rewrite /heap_fuel. lia.
  - done.
  - done.
  - by apply (replaced_up w s zs l e i Hh Hi p).
  - intros s2 w2. by apply (filled_taken_out w s zs l e i Hh Hi).
Qed.

Lemma lruns_erase w s xs e (Q : Z * min_heap -> world -> Prop) :
  is_heap w s xs -> e ∈ xs ->
  (∀ s' w' ys v, is_heap w' s' ys -> e :: ys ≡ₚ xs -> heap_moved w w' xs -> events w' !! e = Some v -> min_heap_idx v = -1 ->
     hn s' < ha s' -> Q (0, s') w') ->
  lruns (min_heap_erase s e) w Q.
Proof.
  intros Hh (i & Hi)%list_elem_of_lookup_1 HQ. destruct xs as [|l zs _] using rev_ind; [done|].
  destruct (removing_bounds w s zs l e i Hh Hi) as (Hn & Hle & Hmax & Hroom).
  destruct (hw_idx _ _ _ Hh i e Hi) as (v & Hv & Hidx); [rewrite length_app /=; lia|].
  rewrite /min_heap_erase. apply lruns_bind, (lruns_get_event _ v); [done|]. rewrite Hidx (proj2 (Z.eqb_neq _ _)); [|lia].
  rewrite !(u32_small (hn s - 1)); [|lia]. apply lruns_bind.
  replace (hn s - 1) with (Z.of_nat (length zs)) at 1 by lia.
  apply (lruns_slot_heap w s (zs ++ [l]) (length zs) l); [done|by rewrite lookup_app_r // Nat.sub_diag|].
  assert (Hend : ∀ s2 w2, taken_out w zs l e s2 w2 ->
    lruns (_ ← mod_event e (set_idx (-1)); mret (0, s2)) w2 Q).
  { intros s2 w2 Ht. apply lruns_bind, (forget_index w s zs l e i Hh Hi s2 w2); [done|].
    intros w3 v3 (ys & Hp & Hh3 & Hm & Hlt) Hv3 Hi3. apply lruns_ret. by apply (HQ s2 w3 ys v3). }
  assert (Hdown : (∀ p, (0 < i)%nat -> (zs ++ [l]) !! parent i = Some p -> ev_le w p l) ->
    lruns (s2 ← min_heap_shift_down_ (heap_fuel s) (MinHeap (hp s) (hn s - 1) (ha s)) (u32 (Z.of_nat i)) l;
           _ ← mod_event e (set_idx (-1)); mret (0, s2)) w Q).
  { intros Hp. rewrite u32_small; [|lia]. apply lruns_bind. eapply lruns_mono; [by apply lruns_down_from|exact Hend]. }
  apply lruns_bind. destruct (Z.ltb_spec 0 (Z.of_nat i)) as [H0|H0]; last by (apply lruns_ret, Hdown; lia).
  destruct (lookup_lt_is_Some_2 (zs ++ [l]) (parent i)) as [p Hp].
  { pose proof (parent_lt i ltac:(lia)). rewrite length_app. lia. }
  replace (u32 (Z.quot (Z.of_nat i - 1) 2)) with (Z.of_nat (parent i)); last first.
  { pose proof (u32_parent i ltac:(lia) ltac:(lia)) as Hu. rewrite (u32_small (Z.of_nat i - 1)) in Hu; [|lia].
    pose proof (parent_lt i ltac:(lia)). rewrite Z.quot_div_nonneg; [|lia..]. rewrite Hu u32_small //. lia. }
  apply lruns_bind. assert (Hs1 : ∀ Q', Q' p w -> lruns (slot (MinHeap (hp s) (hn s - 1) (ha s)) (Z.of_nat (parent i))) w Q').
  { intros Q' HQ'. by apply (lruns_slot_heap w s (zs ++ [l]) (parent i) p). }
  apply Hs1, lruns_greater; [apply (is_heap_event w s (zs ++ [l])); [done|by eapply list_elem_of_lookup_2]| | |].
  - apply (is_heap_event w s (zs ++ [l])); [done|]. apply elem_of_app. right. by apply list_elem_of_singleton.
  - intros Hgt. apply lruns_bind. eapply lruns_mono; [apply (lruns_up_from w s zs l e i p); [done|done|lia|done|done]|exact Hend].
  - intros Hpl. apply Hdown. intros p' _ Hp'. congruence.
Qed.

Lemma lruns_pop w s x xs (Q : option eid * min_heap -> world -> Prop) :
  is_heap w s (x :: xs) ->
  (∀ s' w' ys v, is_heap w' s' ys -> ys ≡ₚ xs -> heap_moved w w' (x :: xs) -> events w' !! x = Some v -> min_heap_idx v = -1 ->
     Q (Some x, s') w') ->
  lruns (min_heap_pop s) w Q.
Proof.
  intros Hh HQ. rewrite /min_heap_pop (hw_n _ _ _ Hh). cbn [length]. rewrite (proj2 (Z.eqb_neq _ 0)); [|lia].
  apply lruns_bind. change 0 with (Z.of_nat 0) at 1. apply (lruns_slot_heap w s (x :: xs) 0 x); [done|done|].
  destruct (exists_last (l := x :: xs)) as (zs & l & Hxs); [done|]. apply lruns_bind.
  assert (Hlen : length (x :: xs) = S (length zs)) by (rewrite Hxs length_app /=; lia). cbn [length] in Hlen.
  replace (Z.of_nat (S (length xs)) - 1) with (Z.of_nat (length zs)) at 1 by lia.
  apply (lruns_slot_heap w s (x :: xs) (length zs) l); [done|by rewrite Hxs lookup_app_r // Nat.sub_diag|].
  assert (Hh' := Hh). assert (Hx : (zs ++ [l]) !! O = Some x) by by rewrite -Hxs. rewrite Hxs in Hh'.
  apply lruns_bind. replace (Z.of_nat (S (length xs)) - 1) with (hn s - 1) by (rewrite (hw_n _ _ _ Hh); cbn; lia).
  change 0 with (Z.of_nat 0). eapply lruns_mono; [apply (lruns_down_from w s zs l x 0 Hh' Hx); lia|].
  intros s2 w2 Ht. apply lruns_bind, (forget_index w s zs l x 0 Hh' Hx s2 w2); [done|].
  intros w3 v3 (ys & Hp & Hh3 & Hm & Hlt) Hv3 Hi3. apply lruns_ret, (HQ s2 w3 ys v3); [done| | |done|done].
  - rewrite -Hxs in Hp. by apply Permutation_cons_inv in Hp.
  - by rewrite Hxs.
Qed.
