(* ===== verification/EvMap.v ===== *)
(** * libevent/evmap.c: which events wait for which descriptor or signal

    An array by descriptor (and one by signal) of lists of events, with counts of
    those that want to read and to write.  The backend is told when the first
    reader or writer of a descriptor comes and when the last one goes.  The debug
    mode, in which mixing edge-triggered and other events is refused, is off. *)

From S2P Require Import Prelude CTypes HProp CMem EvTime EvEvent.
Open Scope Z_scope.

(** A call of the backend: it is answered by the system, and recorded with the answer. *)
Definition evsel_add (fd old what : Z) : L bool :=
  ok ← ask backend_add;
  _ ← note (BackendAdd fd old what ok);
  mret ok.
Definition evsel_del (fd old what : Z) : L bool :=
  ok ← ask backend_del;
  _ ← note (BackendDel fd old what ok);
  mret ok.

(** The loop that doubles the number of entries; an int overflows after 31
    turns. *)
Fixpoint grow_entries (fuel : nat) (nentries slot : Z) : L Z :=
  match fuel with
  | O => halt (Bad IntOverflow)
  | S fuel =>
      if nentries <=? slot then
        if 2 ^ 30 <=? nentries then halt (Bad IntOverflow) else grow_entries fuel (Z.shiftl nentries 1) slot
      else mret nentries
  end.

Definition evmap_make_space {A} (entries : list (option A)) (slot : Z) : L (Z * list (option A)) :=
  let n := Z.of_nat (length entries) in
  if n <=? slot then
    nentries ← grow_entries 32 (if n =? 0 then 32 else n) slot;
    ok ← mm_alloc;
    if ok : bool then mret (0, entries ++ replicate (Z.to_nat nentries - length entries) None)
    else mret (-1, entries)
  else mret (0, entries).

(** GET_SIGNAL_SLOT *)
Definition get_slot {A} (entries : list (option A)) (slot : Z) : L (option A) :=
  if 0 <=? slot then
    match entries !! Z.to_nat slot with Some x => mret x | None => halt (Bad OutOfBounds) end
  else halt (Bad OutOfBounds).

(** GET_SIGNAL_SLOT_AND_CTOR: [None] if the allocation fails. *)
Definition get_slot_and_ctor {A} (entries : list (option A)) (slot : Z) (ctor : A) : L (option A * list (option A)) :=
  x ← get_slot entries slot;
  match x with
  | Some ctx => mret (Some ctx, entries)
  | None =>
      ok ← mm_alloc;
      if ok : bool then mret (Some ctor, <[Z.to_nat slot := Some ctor]> entries) else mret (None, entries)
  end.

Definition evmap_io_init : evmap_io := EvmapIo [] 0 0.
Definition evmap_signal_init : evmap_signal := EvmapSignal [].

(** What an io entry already waits for. *)
Definition io_old (ctx : evmap_io) : Z :=
  Z.lor (if nread ctx =? 0 then 0 else EV_READ) (if nwrite ctx =? 0 then 0 else EV_WRITE).

Definition evmap_io_add (fd : Z) (e : eid) : L Z :=
  v ← get_event e;
  _ ← ev_assert (fd =? ev_fd v);
  if fd <? 0 then mret 0
  else
    b ← get_base;
    '(r, entries) ← evmap_make_space (io b) fd;
    if r =? -1 then mret (-1)
    else
      _ ← mod_base (set_io entries);
      '(x, entries) ← get_slot_and_ctor entries fd evmap_io_init;
      match x with
      | None => mret (-1)
      | Some ctx =>
          _ ← mod_base (set_io entries);
          let old := io_old ctx in
          let rd := on (ev_events v) EV_READ in
          let wr := on (ev_events v) EV_WRITE in
          let nr := if rd then nread ctx + 1 else nread ctx in
          let nw := if wr then nwrite ctx + 1 else nwrite ctx in
          let res := Z.lor (if rd && (nr =? 1) then EV_READ else 0) (if wr && (nw =? 1) then EV_WRITE else 0) in
          if (0xffff <? nr) || (0xffff <? nw) then mret (-1)
          else
            ok ← (if negb (res =? 0) then evsel_add (ev_fd v) old (Z.lor (Z.land (ev_events v) EV_ET) res) else mret true);
            if negb ok then mret (-1)
            else
              _ ← mod_base (set_io (<[Z.to_nat fd := Some (EvmapIo (io_events ctx ++ [e]) (u16 nr) (u16 nw))]> entries));
              mret (if negb (res =? 0) then 1 else 0)
      end.

Definition evmap_io_del (fd : Z) (e : eid) : L Z :=
  if fd <? 0 then mret 0
  else
    v ← get_event e;
    _ ← ev_assert (fd =? ev_fd v);
    b ← get_base;
    if Z.of_nat (length (io b)) <=? fd then mret (-1)
    else
      x ← get_slot (io b) fd;
      match x with
      | None => halt (Bad NullDeref)
      | Some ctx =>
          let old := io_old ctx in
          let rd := on (ev_events v) EV_READ in
          let wr := on (ev_events v) EV_WRITE in
          let nr := if rd then nread ctx - 1 else nread ctx in
          let nw := if wr then nwrite ctx - 1 else nwrite ctx in
          _ ← ev_assert (negb rd || (0 <=? nr));
          _ ← ev_assert (negb wr || (0 <=? nw));
          let res := Z.lor (if rd && (nr =? 0) then EV_READ else 0) (if wr && (nw =? 0) then EV_WRITE else 0) in
          ok ← (if negb (res =? 0) then evsel_del (ev_fd v) old res else mret true);
          if negb ok then mret (-1)
          else
            l ← tailq_remove e (io_events ctx);
            _ ← mod_base (set_io (<[Z.to_nat fd := Some (EvmapIo l (u16 nr) (u16 nw))]> (io b)));
            mret (if negb (res =? 0) then 1 else 0)
      end.

Definition evmap_signal_add (sig : Z) (e : eid) : L Z :=
  v ← get_event e;
  b ← get_base;
  '(r, entries) ← (if Z.of_nat (length (sigmap b)) <=? sig then evmap_make_space (sigmap b) sig else mret (0, sigmap b));
  if r =? -1 then mret (-1)
  else
    _ ← mod_base (set_sigmap entries);
    '(x, entries) ← get_slot_and_ctor entries sig evmap_signal_init;
    match x with
    | None => mret (-1)
    | Some ctx =>
        _ ← mod_base (set_sigmap entries);
        ok ← (match sig_events ctx with [] => evsel_add (ev_fd v) 0 EV_SIGNAL | _ => mret true end);
        if negb ok then mret (-1)
        else
          _ ← mod_base (set_sigmap (<[Z.to_nat sig := Some (EvmapSignal (sig_events ctx ++ [e]))]> entries));
          mret 1
    end.

Definition evmap_signal_del (sig : Z) (e : eid) : L Z :=
  v ← get_event e;
  b ← get_base;
  if Z.of_nat (length (sigmap b)) <=? sig then mret (-1)
  else
    x ← get_slot (sigmap b) sig;
    match x with
    | None => halt (Bad NullDeref)
    | Some ctx =>
        ok ← (match sig_events ctx with _ :: _ :: _ => mret true | _ => evsel_del (ev_fd v) 0 EV_SIGNAL end);
        if negb ok then mret (-1)
        else
          l ← tailq_remove e (sig_events ctx);
          _ ← mod_base (set_sigmap (<[Z.to_nat sig := Some (EvmapSignal l)]> (sigmap b)));
          mret 1
    end.
