(* ===== verification/EvLoop.v ===== *)
(** * libevent/event.c: adding, deleting and activating events

    The queues of an event base and the operations that move events between
    them.  An event can wait for a descriptor or a signal (INSERTED), for a time
    (TIMEOUT: in the heap, or in one of the queues for common timeouts) and to
    have its callback run (ACTIVE).  The library is single-threaded here, so that
    whether the main thread has to be notified is left out. *)

From S2P Require Import Prelude CTypes HProp CMem EvTime EvEvent EvHeap EvMap.
Open Scope Z_scope.

(** ** Time *)

Definition CLOCK_SYNC_INTERVAL : Z := -1.

(** [None]: the clock failed, and the result was not stored. *)
Definition gettime : L (option timeval) :=
  b ← get_base;
  w ← get_world;
  if negb (tv_sec (tv_cache b) =? 0) then mret (Some (tv_cache b))
  else if use_monotonic w then
    ts ← ask clock_monotonic;
    match ts with
    | None => mret None
    | Some (sec, nsec) =>
        let tp := Timeval sec (Z.quot nsec 1000) in
        _ ← (if last_updated_clock_diff b + CLOCK_SYNC_INTERVAL <? sec then
               tv ← ask clock_realtime;
               mod_base (set_clock_diff (evutil_timersub tv tp) sec)
             else mret tt);
        mret (Some tp)
    end
  else tv ← ask clock_realtime; mret (Some tv).

Definition clear_time_cache : L unit := mod_base (fun b => set_tv_cache (Timeval 0 (tv_usec (tv_cache b))) b).

Definition update_time_cache : L unit :=
  _ ← clear_time_cache;
  b ← get_base;
  if on (base_flags b) EVENT_BASE_FLAG_NO_CACHE_TIME then mret tt
  else
    t ← gettime;
    match t with Some t => mod_base (set_tv_cache t) | None => mret tt end.

Definition event_base_gettimeofday_cached : L timeval :=
  b ← get_base;
  if tv_sec (tv_cache b) =? 0 then ask clock_realtime
  else mret (evutil_timeradd (tv_cache b) (tv_clock_diff b)).

(** ** Common timeouts *)

Definition COMMON_TIMEOUT_IDX (tv : timeval) : Z :=
  Z.shiftr (Z.land (tv_usec tv) COMMON_TIMEOUT_IDX_MASK) COMMON_TIMEOUT_IDX_SHIFT.

Definition n_common_timeouts (b : event_base) : Z := Z.of_nat (length (common_timeout_queues b)).

Definition is_common_timeout (tv : timeval) (b : event_base) : bool :=
  if negb (Z.land (tv_usec tv) COMMON_TIMEOUT_MASK =? COMMON_TIMEOUT_MAGIC) then false
  else COMMON_TIMEOUT_IDX tv <? n_common_timeouts b.

Definition is_same_common_timeout (tv1 tv2 : timeval) : bool :=
  without (tv_usec tv1) MICROSECONDS_MASK =? without (tv_usec tv2) MICROSECONDS_MASK.

Definition get_common_timeout_list (tv : timeval) : L (nat * common_timeout_list) :=
  b ← get_base;
  let i := Z.to_nat (COMMON_TIMEOUT_IDX tv) in
  match common_timeout_queues b !! i with Some ctl => mret (i, ctl) | None => halt (Bad OutOfBounds) end.

Definition set_ctl_events (i : nat) (l : list eid) (b : event_base) : event_base :=
  set_common (alter (fun ctl => Ctl l (duration ctl) (timeout_event ctl)) i (common_timeout_queues b)) b.

(** The microseconds of a time in a common-timeout queue. *)
Definition real_time (tv : timeval) : timeval := Timeval (tv_sec tv) (Z.land (tv_usec tv) MICROSECONDS_MASK).

(** From the last entry to the first: behind the first one that is not later. *)
Fixpoint insert_from_end (e : eid) (v : event) (l : list eid) : L (list eid) :=
  match l with
  | [] => mret [e]
  | x :: l' =>
      u ← get_event x;
      _ ← ev_assert (is_same_common_timeout (ev_timeout u) (ev_timeout v));
      if evutil_timercmp (ev_timeout v) (ev_timeout u) Z.geb then mret (e :: l)
      else l' ← insert_from_end e v l'; mret (x :: l')
  end.

Definition insert_common_timeout_inorder (i : nat) (ctl : common_timeout_list) (e : eid) : L unit :=
  v ← get_event e;
  l ← insert_from_end e v (reverse (ctl_events ctl));
  mod_base (set_ctl_events i (reverse l)).

(** ** Queues *)

Definition activequeue (pri : Z) : L (list eid) :=
  b ← get_base;
  match activequeues b !! Z.to_nat pri with Some l => mret l | None => halt (Bad OutOfBounds) end.

Definition set_activequeue (pri : Z) (l : list eid) (b : event_base) : event_base :=
  set_activequeues (<[Z.to_nat pri := l]> (activequeues b)) b.

Definition event_queue_remove (e : eid) (queue : Z) : L unit :=
  v ← get_event e;
  if negb (on (ev_flags v) queue) then halt Exited
  else
    _ ← (if negb (on (ev_flags v) EVLIST_INTERNAL) then mod_base (fun b => set_count (event_count b - 1) b) else mret tt);
    _ ← mod_event e (set_flags (without (ev_flags v) queue));
    b ← get_base;
    if queue =? EVLIST_INSERTED then
      l ← tailq_remove e (eventqueue b);
      mod_base (set_eventqueue l)
    else if queue =? EVLIST_ACTIVE then
      _ ← mod_base (fun b => set_count_active (event_count_active b - 1) b);
      q ← activequeue (ev_pri v);
      l ← tailq_remove e q;
      mod_base (set_activequeue (ev_pri v) l)
    else if queue =? EVLIST_TIMEOUT then
      if is_common_timeout (ev_timeout v) b then
        '(i, ctl) ← get_common_timeout_list (ev_timeout v);
        l ← tailq_remove e (ctl_events ctl);
        mod_base (set_ctl_events i l)
      else
        '(_, s) ← min_heap_erase (timeheap b) e;
        mod_base (set_timeheap s)
    else halt Exited.

Definition event_queue_insert (e : eid) (queue : Z) : L unit :=
  v ← get_event e;
  if on (ev_flags v) queue then (if on queue EVLIST_ACTIVE then mret tt else halt Exited)
  else
    _ ← (if negb (on (ev_flags v) EVLIST_INTERNAL) then mod_base (fun b => set_count (event_count b + 1) b) else mret tt);
    _ ← mod_event e (set_flags (Z.lor (ev_flags v) queue));
    b ← get_base;
    if queue =? EVLIST_INSERTED then mod_base (set_eventqueue (eventqueue b ++ [e]))
    else if queue =? EVLIST_ACTIVE then
      _ ← mod_base (fun b => set_count_active (event_count_active b + 1) b);
      q ← activequeue (ev_pri v);
      mod_base (set_activequeue (ev_pri v) (q ++ [e]))
    else if queue =? EVLIST_TIMEOUT then
      if is_common_timeout (ev_timeout v) b then
        '(i, ctl) ← get_common_timeout_list (ev_timeout v);
        insert_common_timeout_inorder i ctl e
      else
        '(_, s) ← min_heap_push (timeheap b) e;
        mod_base (set_timeheap s)
    else halt Exited.

(** ** Adding *)

(** [if (ev->ev_ncalls && ev->ev_pncalls) *ev->ev_pncalls = 0], for a signal. *)
Definition abort_loop (v : event) : L unit :=
  if on (ev_events v) EV_SIGNAL && negb (ev_ncalls v =? 0) then
    match ev_pncalls v with
    | None => mret tt
    | Some c => put_local c 0
    end
  else mret tt.

(** The registration with evmap.c and the queue of inserted events. *)
Definition event_add_evmap (e : eid) : L Z :=
  v ← get_event e;
  if on (ev_events v) (Z.lor EV_READ (Z.lor EV_WRITE EV_SIGNAL))
     && negb (on (ev_flags v) (Z.lor EVLIST_INSERTED EVLIST_ACTIVE)) then
    res ← (if on (ev_events v) (Z.lor EV_READ EV_WRITE) then evmap_io_add (ev_fd v) e
           else if on (ev_events v) EV_SIGNAL then evmap_signal_add (s32 (ev_fd v)) e
           else mret 0);
    _ ← (if negb (res =? -1) then event_queue_insert e EVLIST_INSERTED else mret tt);
    mret (if res =? 1 then 0 else res)
  else mret 0.

(** The new time of an event. *)
Definition event_add_time (tv : timeval) (tv_is_absolute : bool) (now : option timeval) (b : event_base) : L timeval :=
  if tv_is_absolute then mret tv
  else
    now ← stored now;
    if is_common_timeout tv b then
      let t := evutil_timeradd now (real_time tv) in
      mret (Timeval (tv_sec t) (Z.lor (tv_usec t) (without (tv_usec tv) MICROSECONDS_MASK)))
    else mret (evutil_timeradd now tv).

(** Out of the queues it may be in because of an earlier timeout. *)
Definition event_add_unschedule (e : eid) : L unit :=
  v ← get_event e;
  _ ← (if on (ev_flags v) EVLIST_TIMEOUT then event_queue_remove e EVLIST_TIMEOUT else mret tt);
  v ← get_event e;
  if on (ev_flags v) EVLIST_ACTIVE && on (ev_res v) EV_TIMEOUT then
    _ ← abort_loop v;
    event_queue_remove e EVLIST_ACTIVE
  else mret tt.

(** An event with a common timeout that is the first of its queue schedules the
    event of that queue, whose time is not a common one; [depth] 2 is enough. *)
Fixpoint event_add_internal (depth : nat) (e : eid) (tv : option timeval) (tv_is_absolute : bool) : L Z :=
  match depth with
  | O => halt NoFuel
  | S depth =>
      v ← get_event e;
      b ← get_base;
      _ ← ev_assert (without (ev_flags v) EVLIST_ALL =? 0);
      r ← (if bool_decide (is_Some tv) && negb (on (ev_flags v) EVLIST_TIMEOUT) then
             '(r, s) ← min_heap_reserve (timeheap b) (u32 (1 + min_heap_size (timeheap b)));
             _ ← mod_base (set_timeheap s);
             mret r
           else mret 0);
      if r =? -1 then mret (-1)
      else
        res ← event_add_evmap e;
        _ ← match tv with
            | None => mret tt
            | Some tv =>
                if res =? -1 then mret tt
                else
                  _ ← (if (ev_closure v =? EV_CLOSURE_PERSIST) && negb tv_is_absolute then mod_event e (set_io_timeout tv)
                       else mret tt);
                  _ ← event_add_unschedule e;
                  now ← gettime;
                  b ← get_base;
                  t ← event_add_time tv tv_is_absolute now b;
                  _ ← mod_event e (set_timeout t);
                  _ ← event_queue_insert e EVLIST_TIMEOUT;
                  if is_common_timeout tv b then
                    '(_, ctl) ← get_common_timeout_list t;
                    match ctl_events ctl with
                    | x :: _ =>
                        if decide (x = e) then
                          _ ← event_add_internal depth (timeout_event ctl) (Some (real_time t)) true;
                          mret tt
                        else mret tt
                    | [] => mret tt
                    end
                  else mret tt
            end;
        mret res
  end.

Definition event_add (e : eid) (tv : option timeval) : L Z :=
  v ← get_event e;
  if negb (ev_base v) then mret (-1) else event_add_internal 2 e tv false.

(** ** Deleting and activating *)

Definition event_del_internal (e : eid) : L Z :=
  v ← get_event e;
  if negb (ev_base v) then mret (-1)
  else
    _ ← ev_assert (without (ev_flags v) EVLIST_ALL =? 0);
    _ ← abort_loop v;
    _ ← (if on (ev_flags v) EVLIST_TIMEOUT then event_queue_remove e EVLIST_TIMEOUT else mret tt);
    _ ← (if on (ev_flags v) EVLIST_ACTIVE then event_queue_remove e EVLIST_ACTIVE else mret tt);
    if on (ev_flags v) EVLIST_INSERTED then
      _ ← event_queue_remove e EVLIST_INSERTED;
      res ← (if on (ev_events v) (Z.lor EV_READ EV_WRITE) then evmap_io_del (ev_fd v) e
             else evmap_signal_del (s32 (ev_fd v)) e);
      mret (if res =? 1 then 0 else res)
    else mret 0.

Definition event_del (e : eid) : L Z :=
  v ← get_event e;
  if negb (ev_base v) then mret (-1) else event_del_internal e.

Definition event_active_nolock (e : eid) (res ncalls : Z) : L unit :=
  v ← get_event e;
  if on (ev_flags v) EVLIST_ACTIVE then mod_event e (set_res (s16 (Z.lor (ev_res v) res)))
  else
    _ ← mod_event e (set_res (s16 res));
    b ← get_base;
    _ ← (if ev_pri v <? event_running_priority b then mod_base (set_continue true) else mret tt);
    _ ← (if on (ev_events v) EV_SIGNAL then mod_event e (fun v => set_pncalls None (set_ncalls (s16 ncalls) v)) else mret tt);
    event_queue_insert e EVLIST_ACTIVE.

Definition event_active (e : eid) (res ncalls : Z) : L unit :=
  v ← get_event e;
  if negb (ev_base v) then mret tt else event_active_nolock e res ncalls.

(** evmap.c: the events that wait for what is ready. *)
Fixpoint activate_io (l : list eid) (what : Z) : L unit :=
  match l with
  | [] => mret tt
  | e :: l =>
      v ← get_event e;
      _ ← (if on (ev_events v) what then event_active_nolock e (Z.land (ev_events v) what) 1 else mret tt);
      activate_io l what
  end.

Definition evmap_io_active (fd what : Z) : L unit :=
  b ← get_base;
  _ ← ev_assert (fd <? Z.of_nat (length (io b)));
  x ← get_slot (io b) fd;
  match x with
  | None => halt (Bad AssertFailed)
  | Some ctx => activate_io (io_events ctx) what
  end.

Fixpoint activate_signal (l : list eid) (ncalls : Z) : L unit :=
  match l with
  | [] => mret tt
  | e :: l => _ ← event_active_nolock e EV_SIGNAL ncalls; activate_signal l ncalls
  end.

Definition evmap_signal_active (sig ncalls : Z) : L unit :=
  b ← get_base;
  _ ← ev_assert (sig <? Z.of_nat (length (sigmap b)));
  x ← get_slot (sigmap b) sig;
  match x with
  | None => halt (Bad NullDeref)
  | Some ctx => activate_signal (sig_events ctx) ncalls
  end.

(** ** Setting up events *)

Definition event_assign (e : eid) (has_base : bool) (fd what : Z) (cb : callback) (arg : Z) : L Z :=
  b ← get_base;
  v ← get_event e;
  let v := Event (min_heap_idx v) fd has_base (ev_io_timeout v) 0 None what 0 EVLIST_INIT (ev_pri v) (ev_closure v)
             (ev_timeout v) cb arg in
  if on what EV_SIGNAL && on what (Z.lor EV_READ EV_WRITE) then _ ← mod_event e (fun _ => v); mret (-1)
  else
    let closure := if on what EV_SIGNAL then EV_CLOSURE_SIGNAL
                   else if on what EV_PERSIST then EV_CLOSURE_PERSIST else EV_CLOSURE_NONE in
    let iot := if closure =? EV_CLOSURE_PERSIST then timer_zero else ev_io_timeout v in
    let pri := if has_base then u8 (Z.of_nat (length (activequeues b)) / 2) else ev_pri v in
    _ ← mod_event e (fun _ => min_heap_elem_init (Event (min_heap_idx v) fd has_base iot 0 None what 0 EVLIST_INIT pri closure
                                (ev_timeout v) cb arg));
    mret 0.

(** New memory; what the fields hold before event_assign does not matter. *)
Definition blank_event : event :=
  Event 0 0 false timer_zero 0 None 0 0 0 0 0 timer_zero (CbUser 0) 0.

Definition event_new (has_base : bool) (fd what : Z) (cb : callback) (arg : Z) : L (option eid) :=
  ok ← mm_alloc;
  if negb ok then mret None
  else
    e ← fresh;
    _ ← mod_events (insert e blank_event);
    r ← event_assign e has_base fd what cb arg;
    if r <? 0 then _ ← mod_events (delete e); mret None
    else mret (Some e).

Definition event_free (e : eid) : L unit :=
  _ ← event_del e;
  mod_events (delete e).

Definition event_base_set (e : eid) : L Z :=
  v ← get_event e;
  b ← get_base;
  if negb (ev_flags v =? EVLIST_INIT) then mret (-1)
  else
    _ ← mod_event e (fun v => set_pri (u8 (Z.of_nat (length (activequeues b)) / 2)) (set_base true v));
    mret 0.

Definition event_priority_set (e : eid) (pri : Z) : L Z :=
  v ← get_event e;
  b ← get_base;
  if on (ev_flags v) EVLIST_ACTIVE then mret (-1)
  else if (pri <? 0) || (Z.of_nat (length (activequeues b)) <=? pri) then mret (-1)
  else _ ← mod_event e (set_pri (u8 pri)); mret 0.

Definition event_initialized (v : event) : bool := on (ev_flags v) EVLIST_INIT.

(** The result and, for a timeout, when it is due in real time. *)
Definition event_pending (e : eid) (what : Z) : L (Z * option timeval) :=
  v ← get_event e;
  b ← get_base;
  if negb (ev_base v) then mret (0, None)
  else
    let flags := Z.lor (if on (ev_flags v) EVLIST_INSERTED
                        then Z.land (ev_events v) (Z.lor EV_READ (Z.lor EV_WRITE EV_SIGNAL)) else 0)
                   (Z.lor (if on (ev_flags v) EVLIST_ACTIVE then ev_res v else 0)
                          (if on (ev_flags v) EVLIST_TIMEOUT then EV_TIMEOUT else 0)) in
    let what := Z.land what (Z.lor EV_TIMEOUT (Z.lor EV_READ (Z.lor EV_WRITE EV_SIGNAL))) in
    mret (Z.land flags what,
          if on (Z.land flags what) EV_TIMEOUT then Some (evutil_timeradd (tv_clock_diff b) (real_time (ev_timeout v)))
          else None).

Definition event_base_priority_init (npriorities : Z) : L Z :=
  b ← get_base;
  if negb (event_count_active b + active_count (defer_queue b) =? 0) || (npriorities <? 1)
     || (EVENT_MAX_PRIORITIES <=? npriorities) then mret (-1)
  else if npriorities =? Z.of_nat (length (activequeues b)) then mret 0
  else
    _ ← mod_base (set_activequeues []);
    ok ← mm_alloc;
    if negb ok then mret (-1)
    else _ ← mod_base (set_activequeues (replicate (Z.to_nat npriorities) [])); mret 0.
