(* ===== verification/EvDispatch.v ===== *)
(** * libevent/event.c: the event loop

    Timeouts become active, callbacks run, and the loop around both.  What a
    callback of a user does is a parameter: any run that may call the functions of
    this library but not change the number of priorities.  Loops whose length
    depends on callbacks take a bound. *)

From S2P Require Import Prelude CTypes HProp CMem EvTime EvEvent EvHeap EvMap EvLoop.
Open Scope Z_scope.

(** ** Timeouts *)

Definition heap_top : L (option eid) :=
  b ← get_base;
  min_heap_top (timeheap b).

(** [None]: the clock failed.  Otherwise how long to wait at most; [Some None]
    is for ever. *)
Definition timeout_next : L (option (option timeval)) :=
  top ← heap_top;
  match top with
  | None => mret (Some None)
  | Some e =>
      v ← get_event e;
      now ← gettime;
      match now with
      | None => mret None
      | Some now =>
          if evutil_timercmp (ev_timeout v) now Z.leb then mret (Some (Some timer_zero))
          else
            let tv := evutil_timersub (ev_timeout v) now in
            _ ← ev_assert (0 <=? tv_sec tv);
            _ ← ev_assert (0 <=? tv_usec tv);
            mret (Some (Some tv))
      end
  end.

Definition shift_event (off : timeval) (e : eid) : L unit :=
  mod_event e (fun v => set_timeout (evutil_timersub (ev_timeout v) off) v).

Definition shift_common_event (off : timeval) (i : nat) (e : eid) : L unit :=
  mod_event e (fun v =>
    let t := evutil_timersub (real_time (ev_timeout v)) off in
    set_timeout (Timeval (tv_sec t) (Z.lor (tv_usec t)
      (Z.lor COMMON_TIMEOUT_MAGIC (Z.shiftl (Z.of_nat i) COMMON_TIMEOUT_IDX_SHIFT)))) v).

Fixpoint for_each {A} (f : A -> L unit) (l : list A) : L unit :=
  match l with [] => mret tt | x :: l => _ ← f x; for_each f l end.

(** The entries of the heap, from the first to the last. *)
Fixpoint shift_heap (s : min_heap) (i n : nat) (off : timeval) : L unit :=
  match n with
  | O => mret tt
  | S n =>
      e ← slot s (Z.of_nat i);
      _ ← shift_event off e;
      shift_heap s (S i) n off
  end.

(** The time it leaves in [tv], if any. *)
Definition timeout_correct : L (option timeval) :=
  w ← get_world;
  if use_monotonic w then mret None
  else
    t ← gettime;
    tv ← stored t;
    b ← get_base;
    if evutil_timercmp tv (event_tv b) Z.geb then _ ← mod_base (set_event_tv tv); mret (Some tv)
    else
      let off := evutil_timersub (event_tv b) tv in
      _ ← shift_heap (timeheap b) 0 (Z.to_nat (hn (timeheap b))) off;
      _ ← for_each (fun '(i, ctl) => for_each (shift_common_event off i) (ctl_events ctl))
            (imap pair (common_timeout_queues b));
      _ ← mod_base (set_event_tv tv);
      mret (Some tv).

(** Every turn takes an event out of the heap. *)
Fixpoint timeout_loop (fuel : nat) (now : timeval) : L unit :=
  match fuel with
  | O => halt NoFuel
  | S fuel =>
      top ← heap_top;
      match top with
      | None => mret tt
      | Some e =>
          v ← get_event e;
          if evutil_timercmp (ev_timeout v) now Z.gtb then mret tt
          else
            _ ← event_del_internal e;
            _ ← event_active_nolock e EV_TIMEOUT 1;
            timeout_loop fuel now
      end
  end.

Definition timeout_process : L unit :=
  b ← get_base;
  if min_heap_empty (timeheap b) then mret tt
  else
    now ← gettime;
    now ← stored now;
    timeout_loop (S (Z.to_nat (hn (timeheap b)))) now.

(** ** Callbacks of event.c *)

Definition common_timeout_schedule (ctl : common_timeout_list) (head : eid) : L unit :=
  v ← get_event head;
  _ ← event_add_internal 2 (timeout_event ctl) (Some (real_time (ev_timeout v))) true;
  mret tt.

(** [i] is the place of the queue in the base.  Every turn takes an event out
    of the queue; the event at its head in the end. *)
Fixpoint common_timeout_loop (fuel : nat) (i : nat) (now : timeval) : L (option eid) :=
  match fuel with
  | O => halt NoFuel
  | S fuel =>
      b ← get_base;
      match common_timeout_queues b !! i with
      | None => halt (Bad DanglingPtr)
      | Some ctl =>
          match ctl_events ctl with
          | [] => mret None
          | e :: _ =>
              v ← get_event e;
              if evutil_timercmp (real_time (ev_timeout v)) now Z.gtb then mret (Some e)
              else
                _ ← event_del_internal e;
                _ ← event_active_nolock e EV_TIMEOUT 1;
                common_timeout_loop fuel i now
          end
      end
  end.

Definition common_timeout_callback (i : nat) : L unit :=
  now ← gettime;
  now ← stored now;
  b ← get_base;
  match common_timeout_queues b !! i with
  | None => halt (Bad DanglingPtr)
  | Some ctl =>
      first ← common_timeout_loop (S (length (ctl_events ctl))) i now;
      match first with
      | None => mret tt
      | Some e => common_timeout_schedule ctl e
      end
  end.

(** An array of common timeouts never gets smaller; the new list is at its end. *)
Definition event_base_init_common_timeout (d : timeval) : L (option timeval) :=
  b ← get_base;
  let d := if 1000000 <? tv_usec d then
             let us := if is_common_timeout d b then Z.land (tv_usec d) MICROSECONDS_MASK else tv_usec d in
             Timeval (tv_sec d + Z.quot us 1000000) (Z.rem us 1000000)
           else d in
  let n := n_common_timeouts b in
  match List.find (fun ctl => (tv_sec d =? tv_sec (duration ctl))
           && (tv_usec d =? Z.land (tv_usec (duration ctl)) MICROSECONDS_MASK)) (common_timeout_queues b) with
  | Some ctl => _ ← ev_assert (is_common_timeout (duration ctl) b); mret (Some (duration ctl))
  | None =>
      if n =? MAX_COMMON_TIMEOUTS then mret None
      else
        ok ← (if n_common_timeouts_allocated b =? n then
                ok ← mm_alloc;
                _ ← (if ok : bool then mod_base (set_common_allocated (if n <? 16 then 16 else n * 2)) else mret tt);
                mret ok
              else mret true);
        if negb ok then mret None
        else
          ok ← mm_alloc;
          if negb ok then mret None
          else
            let tv := Timeval (tv_sec d)
                        (Z.lor (tv_usec d) (Z.lor COMMON_TIMEOUT_MAGIC (Z.shiftl n COMMON_TIMEOUT_IDX_SHIFT))) in
            e ← fresh;
            _ ← mod_events (insert e blank_event);
            _ ← event_assign e true (-1) 0 CbCommonTimeout n;
            _ ← mod_event e (fun v => set_flags (Z.lor (ev_flags v) EVLIST_INTERNAL) v);
            _ ← event_priority_set e 0;
            _ ← mod_base (fun b => set_common (common_timeout_queues b ++ [Ctl [] tv e]) b);
            b ← get_base;
            _ ← ev_assert (is_common_timeout tv b);
            mret (Some tv)
  end.

(** ** Running callbacks *)

Section callbacks.
Context (run : Z -> Z -> Z -> Z -> L unit) (run_deferred : Z -> positive -> Z -> L unit).

Definition event_loopexit_cb : L unit := mod_base (set_gotterm true).

(** The structure is gone after the callback. *)
Definition event_once_cb (fd what : Z) (e : eid) : L unit :=
  o ← get_once e;
  _ ← match once_cb o with
      | Some f => run f fd what (once_arg o)
      | None => event_loopexit_cb
      end;
  _ ← mod_event e (fun v => set_flags (without (ev_flags v) EVLIST_INIT) v);
  free_once e.

(** The call of the function of an event. *)
Definition call_event (e : eid) (v : event) : L unit :=
  _ ← note (Called e (ev_callback v) (ev_fd v) (ev_res v) (ev_arg v));
  match ev_callback v with
  | CbUser f => run f (ev_fd v) (ev_res v) (ev_arg v)
  | CbCommonTimeout => common_timeout_callback (Z.to_nat (ev_arg v))
  | CbLoopexit => event_loopexit_cb
  | CbOnce => event_once_cb (ev_fd v) (ev_res v) (Z.to_pos (ev_arg v))
  end.

(** [c] is the local variable ncalls, a short, which a deletion of the event
    sets to 0; it is counted down at every turn. *)
Fixpoint signal_loop (fuel : nat) (e : eid) (c : positive) : L unit :=
  ncalls ← get_local c;
  if ncalls =? 0 then mret tt
  else
    match fuel with
    | O => halt NoFuel
    | S fuel =>
        let ncalls := s16 (ncalls - 1) in
        _ ← put_local c ncalls;
        _ ← mod_event e (set_ncalls ncalls);
        _ ← (if ncalls =? 0 then mod_event e (set_pncalls None) else mret tt);
        v ← get_event e;
        _ ← call_event e v;
        b ← get_base;
        if event_break b then
          ncalls ← get_local c;
          if negb (ncalls =? 0) then mod_event e (set_pncalls None) else mret tt
        else signal_loop fuel e c
    end.

Definition event_signal_closure (e : eid) : L unit :=
  v ← get_event e;
  c ← new_local (ev_ncalls v);
  _ ← (if negb (ev_ncalls v =? 0) then mod_event e (set_pncalls (Some c)) else mret tt);
  _ ← signal_loop (Z.to_nat (u16 (ev_ncalls v))) e c;
  end_local c.

Definition event_persist_closure (e : eid) : L unit :=
  v ← get_event e;
  _ ← (if evutil_timerisset (ev_io_timeout v) then
         _ ← ev_assert (is_same_common_timeout (ev_timeout v) (ev_io_timeout v));
         now ← gettime;
         now ← stored now;
         b ← get_base;
         let common := is_common_timeout (ev_timeout v) b in
         let usec_mask := if common then without (tv_usec (ev_io_timeout v)) MICROSECONDS_MASK else 0 in
         let delay := if common then real_time (ev_io_timeout v) else ev_io_timeout v in
         let relative_to := if on (ev_res v) EV_TIMEOUT
                            then (if common then real_time (ev_timeout v) else ev_timeout v) else now in
         let run_at := evutil_timeradd relative_to delay in
         let run_at := if evutil_timercmp run_at now Z.ltb then evutil_timeradd now delay else run_at in
         _ ← event_add_internal 2 e (Some (Timeval (tv_sec run_at) (Z.lor (tv_usec run_at) usec_mask))) true;
         mret tt
       else mret tt);
  v ← get_event e;
  call_event e v.

Definition run_closure (e : eid) : L unit :=
  v ← get_event e;
  if ev_closure v =? EV_CLOSURE_SIGNAL then event_signal_closure e
  else if ev_closure v =? EV_CLOSURE_PERSIST then event_persist_closure e
  else call_event e v.

(** The number of events processed that are not internal ones, or -1. *)
Fixpoint process_queue (fuel : nat) (pri : Z) (count : Z) : L Z :=
  q ← activequeue pri;
  match q with
  | [] => mret count
  | e :: _ =>
      match fuel with
      | O => halt NoFuel
      | S fuel =>
          v ← get_event e;
          _ ← (if on (ev_events v) EV_PERSIST then event_queue_remove e EVLIST_ACTIVE
               else _ ← event_del_internal e; mret tt);
          let count := if on (ev_flags v) EVLIST_INTERNAL then count else count + 1 in
          _ ← run_closure e;
          b ← get_base;
          if event_break b then mret (-1)
          else if event_continue b then mret count
          else process_queue fuel pri count
      end
  end.

Definition event_process_active_single_queue (fuel : nat) (pri : Z) : L Z := process_queue fuel pri 0.

(** At most MAX_DEFERRED of them. *)
Fixpoint deferred_loop (todo : nat) (count : Z) : L Z :=
  match todo with
  | O => mret count
  | S todo =>
      b ← get_base;
      match deferred_cb_list (defer_queue b) with
      | [] => mret count
      | d :: ds =>
          cb ← get_deferred d;
          _ ← put_deferred d (Deferred false (dcb cb) (dcb_arg cb));
          _ ← mod_base (set_defer (DeferQueue ds (active_count (defer_queue b) - 1)));
          _ ← note (CalledDeferred d);
          _ ← run_deferred (dcb cb) d (dcb_arg cb);
          b ← get_base;
          if event_break b then mret (-1) else deferred_loop todo (count + 1)
      end
  end.

Definition event_process_deferred_callbacks : L Z := deferred_loop MAX_DEFERRED 0.

(** The queues from [i] on; the first result that is not 0.  There are [turns]
    of them, unless a callback makes more. *)
Fixpoint process_queues (fuel turns : nat) (i : Z) : L Z :=
  b ← get_base;
  if Z.of_nat (length (activequeues b)) <=? i then mret 0
  else
    match turns with
    | O => halt NoFuel
    | S turns =>
        q ← activequeue i;
        match q with
        | [] => process_queues fuel turns (i + 1)
        | _ =>
            _ ← mod_base (set_running_priority i);
            c ← event_process_active_single_queue fuel i;
            if c =? 0 then process_queues fuel turns (i + 1) else mret c
        end
    end.

Definition event_process_active (fuel : nat) : L Z :=
  b ← get_base;
  c ← process_queues fuel (length (activequeues b)) 0;
  if c <? 0 then _ ← mod_base (set_running_priority (-1)); mret (-1)
  else
    _ ← event_process_deferred_callbacks;
    _ ← mod_base (set_running_priority (-1));
    mret c.

Definition n_active_callbacks (b : event_base) : Z := event_count_active b + active_count (defer_queue b).
Definition event_haveevents (b : event_base) : bool := (0 <? virtual_event_count b) || (0 <? event_count b).

(** What the backend finds ready becomes active. *)
Definition activate_ready (r : ready) : L unit :=
  match r with
  | ReadyIo fd what => evmap_io_active fd what
  | ReadySignal sig ncalls => evmap_signal_active sig ncalls
  end.

Definition evsel_dispatch (wait : option timeval) : L Z :=
  _ ← note (Dispatch wait);
  w ← get_world;
  r ← ask (fun s n => backend_dispatch s n (calls w));
  match r with
  | None => mret (-1)
  | Some l => _ ← for_each activate_ready l; mret 0
  end.

(** The turns of the loop; the result of event_base_loop. *)
Fixpoint loop_turns (fuel : nat) (flags : Z) : L Z :=
  match fuel with
  | O => halt NoFuel
  | S fuel =>
      _ ← mod_base (set_continue false);
      b ← get_base;
      if event_gotterm b || event_break b then mret 0
      else
        prev ← timeout_correct;
        b ← get_base;
        wait ← (if (n_active_callbacks b =? 0) && negb (on flags EVLOOP_NONBLOCK) then
                  r ← timeout_next;
                  match r with
                  | Some wait => mret wait
                  | None => tv ← stored prev; mret (Some tv)
                  end
                else mret (Some timer_zero));
        b ← get_base;
        if negb (event_haveevents b) && (n_active_callbacks b =? 0) then mret 1
        else
          t ← gettime;
          _ ← match t with Some t => mod_base (set_event_tv t) | None => mret tt end;
          _ ← clear_time_cache;
          res ← evsel_dispatch wait;
          if res =? -1 then mret (-1)
          else
            _ ← update_time_cache;
            _ ← timeout_process;
            b ← get_base;
            if negb (n_active_callbacks b =? 0) then
              n ← event_process_active fuel;
              b ← get_base;
              if on flags EVLOOP_ONCE && (n_active_callbacks b =? 0) && negb (n =? 0) then mret 0
              else loop_turns fuel flags
            else if on flags EVLOOP_NONBLOCK then mret 0
            else loop_turns fuel flags
  end.

Definition event_base_loop (fuel : nat) (flags : Z) : L Z :=
  b ← get_base;
  if running_loop b then mret (-1)
  else
    _ ← mod_base (set_running_loop true);
    _ ← clear_time_cache;
    _ ← mod_base (fun b => set_gotterm false (set_break false b));
    r ← loop_turns fuel flags;
    _ ← clear_time_cache;
    _ ← mod_base (set_running_loop false);
    mret r.

Definition event_base_dispatch (fuel : nat) : L Z := event_base_loop fuel 0.

End callbacks.

Definition event_base_loopbreak : L Z := _ ← mod_base (set_break true); mret 0.

(** ** Events that happen once *)

(** [once]: the callback and its argument. *)
Definition event_base_once (fd what : Z) (once : event_once) (tv : option timeval) : L Z :=
  if on what (Z.lor EV_SIGNAL EV_PERSIST) then mret (-1)
  else
    ok ← mm_alloc;
    if negb ok then mret (-1)
    else
      e ← fresh;
      _ ← mod_events (insert e blank_event);
      _ ← put_once e once;
      r ← (if what =? EV_TIMEOUT then
             _ ← event_assign e true (-1) 0 CbOnce (Zpos e);
             event_add e (Some (default timer_zero tv))
           else if on what (Z.lor EV_READ EV_WRITE) then
             _ ← event_assign e true fd (Z.land what (Z.lor EV_READ EV_WRITE)) CbOnce (Zpos e);
             event_add e tv
           else mret (-1));
      if negb (r =? 0) then _ ← free_once e; mret r else mret 0.

Definition event_base_loopexit (tv : option timeval) : L Z := event_base_once (-1) EV_TIMEOUT (Once None 0) tv.

(** ** Deferred callbacks *)

Definition event_deferred_cb_init (d : positive) (cb arg : Z) : L unit := put_deferred d (Deferred false cb arg).

Definition event_deferred_cb_cancel (d : positive) : L unit :=
  cb ← get_deferred d;
  if queued cb then
    b ← get_base;
    l ← tailq_remove d (deferred_cb_list (defer_queue b));
    _ ← mod_base (set_defer (DeferQueue l (active_count (defer_queue b) - 1)));
    put_deferred d (Deferred false (dcb cb) (dcb_arg cb))
  else mret tt.

Definition event_deferred_cb_schedule (d : positive) : L unit :=
  cb ← get_deferred d;
  if queued cb then mret tt
  else
    _ ← put_deferred d (Deferred true (dcb cb) (dcb_arg cb));
    mod_base (fun b => set_defer (DeferQueue (deferred_cb_list (defer_queue b) ++ [d]) (active_count (defer_queue b) + 1)) b).

(** ** Checks *)

Fixpoint check_heap (s : min_heap) (i n : nat) : L unit :=
  match n with
  | O => mret tt
  | S n =>
      e ← slot s (Z.of_nat i);
      p ← slot s (Z.quot (Z.of_nat i - 1) 2);
      v ← get_event e;
      u ← get_event p;
      _ ← ev_assert (on (ev_flags v) EV_TIMEOUT);
      _ ← ev_assert (evutil_timercmp (ev_timeout u) (ev_timeout v) Z.leb);
      _ ← ev_assert (min_heap_idx v =? Z.of_nat i);
      check_heap s (S i) n
  end.

Fixpoint check_common (i : nat) (last : option event) (l : list eid) : L unit :=
  match l with
  | [] => mret tt
  | e :: l =>
      b ← get_base;
      v ← get_event e;
      _ ← match last with Some u => ev_assert (evutil_timercmp (ev_timeout u) (ev_timeout v) Z.leb) | None => mret tt end;
      _ ← ev_assert (on (ev_flags v) EV_TIMEOUT);
      _ ← ev_assert (is_common_timeout (ev_timeout v) b);
      _ ← ev_assert (COMMON_TIMEOUT_IDX (ev_timeout v) =? Z.of_nat i);
      check_common i (Some v) l
  end.

(** The part of event_base_assert_ok behind evmap_check_integrity. *)
Definition event_base_assert_timeouts : L unit :=
  b ← get_base;
  _ ← check_heap (timeheap b) 1 (Z.to_nat (hn (timeheap b) - 1));
  for_each (fun '(i, ctl) => check_common i None (ctl_events ctl)) (imap pair (common_timeout_queues b)).

(** evmap_check_integrity: the events found in the maps are marked. *)
Definition EVLIST_X_SIGFOUND : Z := 0x1000.
Definition EVLIST_X_IOFOUND : Z := 0x2000.

Definition check_inserted (e : eid) : L unit :=
  v ← get_event e;
  _ ← ev_assert (on (ev_flags v) EVLIST_INSERTED);
  _ ← ev_assert (on (ev_flags v) EVLIST_INIT);
  mod_event e (set_flags (without (ev_flags v) (Z.lor EVLIST_X_SIGFOUND EVLIST_X_IOFOUND))).

Definition mark_found (found i : Z) (e : eid) : L unit :=
  v ← get_event e;
  _ ← ev_assert (negb (on (ev_flags v) found));
  _ ← ev_assert (ev_fd v =? i);
  mod_event e (set_flags (Z.lor (ev_flags v) found)).

(** How many were found in the entries from [i] on. *)
Fixpoint mark_entries (found i : Z) (entries : list (option (list eid))) : L Z :=
  match entries with
  | [] => mret 0
  | x :: entries =>
      let l := default [] x in
      _ ← for_each (mark_found found i) l;
      n ← mark_entries found (i + 1) entries;
      mret (Z.of_nat (length l) + n)
  end.

Fixpoint count_found (l : list eid) (nio nsignals : Z) : L (Z * Z) :=
  match l with
  | [] => mret (nio, nsignals)
  | e :: l =>
      v ← get_event e;
      let rw := on (ev_events v) (Z.lor EV_READ EV_WRITE) in
      let sg := on (ev_events v) EV_SIGNAL in
      _ ← ev_assert (negb rw || on (ev_flags v) EVLIST_X_IOFOUND);
      _ ← ev_assert (negb sg || on (ev_flags v) EVLIST_X_SIGFOUND);
      count_found l (if rw then nio - 1 else nio) (if sg then nsignals - 1 else nsignals)
  end.

Definition evmap_check_integrity : L unit :=
  b ← get_base;
  _ ← for_each check_inserted (eventqueue b);
  nio ← mark_entries EVLIST_X_IOFOUND 0 (List.map (option_map io_events) (io b));
  nsignals ← mark_entries EVLIST_X_SIGFOUND 0 (List.map (option_map sig_events) (sigmap b));
  '(nio, nsignals) ← count_found (eventqueue b) nio nsignals;
  _ ← ev_assert (nio =? 0);
  ev_assert (nsignals =? 0).

Definition event_base_assert_ok : L unit :=
  _ ← evmap_check_integrity;
  event_base_assert_timeouts.

(** ** A new base *)

(** Its memory, all zero, with the flags of its configuration. *)
Definition zero_base (flags : Z) : event_base :=
  EventBase 0 0 0 false false false 0 false [] [] 0 (DeferQueue [] 0) [] [] [] timer_zero min_heap_ctor timer_zero
    timer_zero 0 flags.

(** The state that it sets up, or false if memory is short; the choice of a
    backend is part of the system. *)
Definition event_base_new_with_config (flags : Z) : L bool :=
  ok ← mm_alloc;
  if negb ok then mret false
  else
    _ ← mod_base (fun _ => zero_base flags);
    t ← gettime;
    _ ← match t with Some t => mod_base (set_event_tv t) | None => mret tt end;
    r ← event_base_priority_init 1;
    mret (0 <=? r).

(** Before there is a base. *)
Definition empty_world (monotonic : bool) (s : system) : world :=
  World ∅ (zero_base 0) ∅ ∅ ∅ 1 [] monotonic s 0 [].

Definition new_world (monotonic : bool) (s : system) : world :=
  match event_base_new_with_config 0 (empty_world monotonic s) with
  | inr (true, w) => w
  | _ => empty_world monotonic s
  end.
