(* ===== verification/EvHeapCorrect.v ===== *)
(** * The heap of timeouts is a priority queue

    Clients of the operations of minheap-internal.h against a bag of events from
    which one with the earliest timeout is taken. *)

From Stdlib Require Import ssreflect.
From S2P Require Import Prelude CTypes HProp CMem EvTime EvEvent EvHeap EvHeapSpec EvLoop EvDispatch.
Set Warnings "-rewrite-rw".
Open Scope general_if_scope.
Open Scope Z_scope.

Inductive heap_op := HPush (e : eid) | HErase (e : eid) | HPop | HTop.
Inductive heap_out := HCode (r : Z) | HEvent (e : option eid).

Definition heap_step (s : min_heap) (op : heap_op) : L (heap_out * min_heap) :=
  match op with
  | HPush e => '(r, s) ← min_heap_push s e; mret (HCode r, s)
  | HErase e => '(r, s) ← min_heap_erase s e; mret (HCode r, s)
  | HPop => '(e, s) ← min_heap_pop s; mret (HEvent e, s)
  | HTop => e ← min_heap_top s; mret (HEvent e, s)
  end.

(** What uses a heap: it goes on as it likes with the answer to each operation. *)
Inductive heap_client := HDone | HCall (op : heap_op) (next : heap_out -> heap_client).

Fixpoint heap_run (s : min_heap) (client : heap_client) : L (list heap_out * min_heap) :=
  match client with
  | HDone => mret ([], s)
  | HCall op next =>
      '(o, s) ← heap_step s op;
      '(os, s) ← heap_run s (next o);
      mret (o :: os, s)
  end.

(** ** The abstract priority queue *)

Section queue.
Context (w : world).

(** A bag of events; [pq_step] relates the bag before and after an operation.
    An addition fails only for want of memory. *)
Inductive pq_step : list eid -> heap_op -> heap_out -> list eid -> Prop :=
| pq_push xs e : e ∉ xs -> pq_step xs (HPush e) (HCode 0) (e :: xs)
| pq_push_fails xs e : heap_oom w ≠ [] -> pq_step xs (HPush e) (HCode (-1)) xs
| pq_erase xs ys e : xs ≡ₚ e :: ys -> pq_step xs (HErase e) (HCode 0) ys
| pq_erase_absent xs e : e ∉ xs -> pq_step xs (HErase e) (HCode (-1)) xs
| pq_pop xs ys e : xs ≡ₚ e :: ys -> Forall (ev_le w e) xs -> pq_step xs HPop (HEvent (Some e)) ys
| pq_pop_empty : pq_step [] HPop (HEvent None) []
| pq_top xs e : e ∈ xs -> Forall (ev_le w e) xs -> pq_step xs HTop (HEvent (Some e)) xs
| pq_top_empty : pq_step [] HTop (HEvent None) [].

Inductive pq_run : list eid -> heap_client -> list heap_out -> list eid -> Prop :=
| pq_done xs : pq_run xs HDone [] xs
| pq_call xs op next o ys os zs : pq_step xs op o ys -> pq_run ys (next o) os zs -> pq_run xs (HCall op next) (o :: os) zs.

(** Events exist, and only one that is not in the bag is put into it. *)
Definition op_known (op : heap_op) : Prop :=
  match op with HPush e | HErase e => is_Some (events w !! e) | _ => True end.

Definition op_allowed (xs : list eid) (op : heap_op) : Prop :=
  op_known op ∧ ∀ e, op = HPush e -> e ∉ xs ∧ Z.of_nat (length xs) < 2 ^ 31 - 1.

(** Whatever a bag answers, the next operation is allowed. *)
Fixpoint allowed (xs : list eid) (client : heap_client) : Prop :=
  match client with
  | HDone => True
  | HCall op next => op_allowed xs op ∧ ∀ o ys, pq_step xs op o ys -> allowed ys (next o)
  end.

End queue.

(** The world has the same events and times as at the start, and the events
    outside the heap know that they are. *)
Record heap_world (w0 w : world) (xs : list eid) : Prop := {
  hx_known : ∀ e, is_Some (events w0 !! e) -> is_Some (events w !! e);
  hx_le : ∀ x y, ev_le w x y <-> ev_le w0 x y;
  hx_oom : heap_oom w0 = [] -> heap_oom w = [];
  hx_out : ∀ e v, e ∉ xs -> events w !! e = Some v -> min_heap_idx v = -1 }.

Lemma heap_world_moved w0 w w' xs ys zs :
  heap_world w0 w xs -> heap_moved w w' zs -> (∀ e, e ∈ xs -> e ∈ ys ∨ ∃ v, events w' !! e = Some v ∧ min_heap_idx v = -1) ->
  (∀ e, e ∈ zs -> e ∈ xs ∨ e ∈ ys) -> heap_world w0 w' ys.
Proof.
  intros [Hk Hle Ho Hx] [Hr Hot] Hin Hz. split.
  - intros e [v Hv]%Hk. destruct (reindexed_lookup _ _ _ _ Hr Hv) as [k ->]. eauto.
  - intros x y. by rewrite (reindexed_le _ _ _ _ Hr).
  - intros H0. destruct Hr as [-> _]. cbn. auto.
  - intros e v Hne Hv. destruct (decide (e ∈ xs)) as [He|He].
    + destruct (Hin e He) as [?|(v' & Hv' & ?)]; [done|congruence].
    + apply (Hx e); [done|]. rewrite -Hot //. intros Hez. destruct (Hz e Hez); done.
Qed.

Lemma heap_world_oom w0 w xs o :
  heap_world w0 w xs -> (heap_oom w = [] -> o = []) -> heap_world w0 (set_oom o w) xs.
Proof. intros [] Ho. split; auto. Qed.

(** ** The simulation *)

Lemma lruns_push w s xs e (Q : Z * min_heap -> world -> Prop) :
  is_heap w s xs -> is_Some (events w !! e) -> e ∉ xs -> hn s + 1 < 2 ^ 31 ->
  (∀ s' w' ys o, is_heap w' s' ys -> ys ≡ₚ e :: xs -> heap_moved (set_oom o w) w' (e :: xs) -> (heap_oom w = [] -> o = []) ->
     Q (0, s') w') ->
  (∀ o, heap_oom w ≠ [] -> Q (-1, s) (set_oom o w)) ->
  lruns (min_heap_push s e) w Q.
Proof.
  intros Hh He Hnin Hmax HQ HQ'. pose proof (hw_n _ _ _ Hh) as Hn. rewrite /min_heap_push. apply lruns_bind.
  rewrite (u32_small (hn s + 1)); [|lia]. apply (lruns_reserve w s xs); [done|lia| |intros o Ho; by apply HQ'].
  intros s1 o Hh1 Hroom Ho. pose proof (hw_n _ _ _ Hh1) as Hn1.
  assert (Hp : lruns (min_heap_push s1 e) (set_oom o w) Q).
  { apply (lruns_push_room _ s1 xs); [done|done|done|lia|lia|]. intros s' w' ys ? ? ?. by apply (HQ s' w' ys o). }
  rewrite /min_heap_push /min_heap_reserve (u32_small (hn s1 + 1)) in Hp; [|lia].
  rewrite (proj2 (Z.ltb_ge _ _)) in Hp; [exact Hp|lia].
Qed.

Lemma heap_erase_absent w s e v :
  events w !! e = Some v -> min_heap_idx v = -1 -> min_heap_erase s e w = inr (-1, s, w).
Proof. intros He Hi. by rewrite /min_heap_erase /mbind /L_bind /get_event He Hi. Qed.

Lemma heap_step_agrees w0 w s xs op :
  is_heap w s xs -> heap_world w0 w xs -> op_known w0 op -> (∀ e, op = HPush e -> e ∉ xs ∧ Z.of_nat (length xs) < 2 ^ 31 - 1) ->
  lruns (heap_step s op) w (fun res w' => ∃ ys zs, pq_step w0 xs op (fst res) zs ∧ zs ≡ₚ ys
    ∧ is_heap w' (snd res) ys ∧ heap_world w0 w' ys).
Proof.
  intros Hh Hx Hk Hnew. pose proof (hw_n _ _ _ Hh) as Hn. destruct op as [e|e| |]; cbn [heap_step op_known] in *.
  - apply lruns_bind, (lruns_push w s xs); [done|by apply Hx|by apply Hnew|destruct (Hnew e eq_refl); lia| |].
    + intros s' w' ys o Hh' Hp Hm Ho. apply lruns_ret. exists ys, (e :: xs). split_and!; [constructor; by apply Hnew|done|done|].
      apply (heap_world_moved w0 (set_oom o w) w' xs ys (e :: xs)); [by apply heap_world_oom|done| |].
      * intros x Hin. left. rewrite Hp. by right.
      * intros x Hin. right. by rewrite Hp.
    + intros o Ho. apply lruns_ret. exists xs, xs. split_and!; [apply pq_push_fails; contradict Ho; by apply Hx|done|by destruct Hh|].
      by apply heap_world_oom.
  - apply lruns_bind. destruct (decide (e ∈ xs)) as [Hin|Hout].
    + apply (lruns_erase w s xs); [done|done|]. intros s' w' ys v Hh' Hp Hm Hv Hi _. apply lruns_ret. exists ys, ys.
      split_and!; [by constructor|done|done|]. eapply heap_world_moved; [done|done| |by left].
      intros x Hxin. rewrite -Hp in Hxin. apply elem_of_cons in Hxin as [->|?]; [right; eauto|by left].
    + destruct (hx_known _ _ _ Hx e Hk) as [v Hv].
      rewrite /lruns (heap_erase_absent w s e v); [|done|by eapply hx_out]. exists xs, xs. split_and!; [by constructor|done|done|done].
  - apply lruns_bind. destruct xs as [|x xs].
    { rewrite /min_heap_pop Hn /=. apply lruns_ret. exists [], []. split_and!; [constructor|done|done|done]. }
    apply (lruns_pop w s x xs); [done|]. intros s' w' ys v Hh' Hp Hm Hv Hi. apply lruns_ret. exists ys, ys. split_and!; [|done|done|].
    + constructor; [by rewrite Hp|]. eapply Forall_impl; [by apply heap_min; [apply Hh|]|]. intros y. apply Hx.
    + eapply heap_world_moved; [done|done| |by left]. intros y Hy. apply elem_of_cons in Hy as [->|?]; [right; eauto|left; by rewrite Hp].
  - apply lruns_bind, (lruns_top w s xs); [done|]. apply lruns_ret. exists xs, xs. split_and!; [|done|done|done].
    destruct xs as [|x xs]; [constructor|]. constructor; [by left|]. eapply Forall_impl; [by apply heap_min; [apply Hh|]|].
    intros y. apply Hx.
Qed.

(** Bags are equal up to the order. *)
Lemma pq_step_perm w xs xs' op o ys : pq_step w xs op o ys -> xs ≡ₚ xs' -> ∃ ys', pq_step w xs' op o ys' ∧ ys ≡ₚ ys'.
Proof.
  intros Hs Hp. destruct Hs as [xs e Hn|xs e Ho|xs ys e He|xs e Hn|xs ys e He Hf| |xs e Hin Hf| ].
  - exists (e :: xs'). split; [constructor; by rewrite -Hp|by rewrite Hp].
  - exists xs'. by split; [constructor|].
  - exists ys. split; [constructor; by rewrite -Hp|done].
  - exists xs'. split; [constructor; by rewrite -Hp|done].
  - exists ys. split; [constructor; by rewrite -Hp|done].
  - destruct xs' as [|x xs']; [|by apply Permutation_nil_cons in Hp]. exists []. split; [constructor|done].
  - exists xs'. split; [constructor; by rewrite -Hp|done].
  - destruct xs' as [|x xs']; [|by apply Permutation_nil_cons in Hp]. exists []. split; [constructor|done].
Qed.

Lemma heap_run_agrees w0 client w s xs ys :
  is_heap w s ys -> heap_world w0 w ys -> ys ≡ₚ xs -> allowed w0 xs client ->
  lruns (heap_run s client) w (fun res w' => ∃ zs zs', pq_run w0 xs client (fst res) zs ∧ zs' ≡ₚ zs ∧ is_heap w' (snd res) zs').
Proof.
  revert w s xs ys. induction client as [|op next IH]; intros w s xs ys Hh Hx Hp Hal; cbn [heap_run].
  { apply lruns_ret. exists xs, ys. by split_and!; [constructor|..]. }
  destruct Hal as [[Hk Hnew] Hal]. apply lruns_bind. eapply lruns_mono; [apply (heap_step_agrees w0 w s ys op Hh Hx Hk)|].
  { intros e He. destruct (Hnew e He) as [Hn Hl]. by rewrite Hp. }
  intros [o s1] w1 (ys1 & zs & Hs & Hp1 & Hh1 & Hx1). cbn [fst snd] in *.
  destruct (pq_step_perm _ _ _ _ _ _ Hs Hp) as (xs1 & Hs1 & Hp2). apply lruns_bind.
  eapply lruns_mono; [apply (IH o w1 s1 xs1 ys1 Hh1 Hx1); [by rewrite -Hp1|by apply Hal]|].
  intros [os s2] w2 (zs2 & zs3 & Hr & Hp3 & Hh2). cbn [fst snd] in *. apply lruns_ret.
  exists zs2, zs3. split_and!; [by econstructor|done|done].
Qed.

(** Three timers, not yet in a heap, and what a program does with them. *)
Definition timer (usec : Z) : event := set_timeout (Timeval 7 usec) (min_heap_elem_init blank_event).
Definition demo_heap_world : world :=
  set_events {[ 1%positive := timer 30; 2%positive := timer 10; 3%positive := timer 20 ]}
    (empty_world true (System (fun _ => None) (fun _ => timer_zero) (fun _ => true) (fun _ => true) (fun _ _ => None))).

(** Operations whose answers nobody looks at, and timers that start again: the one
    that is due is taken out and put in again, [n] times. *)
Fixpoint calls (ops : list heap_op) (client : heap_client) : heap_client :=
  match ops with [] => client | op :: ops => HCall op (fun _ => calls ops client) end.

Fixpoint periodic (n : nat) : heap_client :=
  match n with
  | O => HDone
  | S n => HCall HPop (fun o => match o with HEvent (Some e) => HCall (HPush e) (fun _ => periodic n) | _ => HDone end)
  end.

Lemma periodic_allowed w n xs :
  NoDup xs -> Forall (fun e => is_Some (events w !! e)) xs -> Z.of_nat (length xs) < 2 ^ 31 - 1 -> allowed w xs (periodic n).
Proof.
  revert xs. induction n as [|n IH]; intros xs Hnd Hk Hl; [done|]. cbn [periodic allowed]. split; [by split|].
  intros o ys Hs. inversion Hs as [| | | |? ? e Hp _| | | ]; subst; [|done]. rewrite Hp in Hnd, Hk. apply Permutation_length in Hp. cbn in Hp.
  apply NoDup_cons in Hnd as [Hne Hnd]. apply Forall_cons in Hk as [He Hk]. cbn [allowed]. split.
  { split; [done|]. intros x [= <-]. split; [done|lia]. }
  intros o' zs Hs'. inversion Hs'; subst; apply IH; try done; [by constructor|by constructor|cbn; lia|lia].
Qed.

Definition demo_client : heap_client :=
  calls [HPush 1%positive; HPush 2%positive; HPush 3%positive; HTop; HErase 2%positive; HErase 2%positive; HPush 2%positive] (periodic 2).

Example demo_heap_answers :
  (match heap_run min_heap_ctor demo_client demo_heap_world with inr (os, _, _) => os | inl _ => [] end)
  = [HCode 0; HCode 0; HCode 0; HEvent (Some 2%positive); HCode 0; HCode (-1); HCode 0;
     HEvent (Some 2%positive); HCode 0; HEvent (Some 2%positive); HCode 0].
Proof. by vm_compute. Qed.

(** C31: the heap of timeouts is a priority queue.  A client calls min_heap_push,
    min_heap_erase, min_heap_pop and min_heap_top as often as it likes, starting on
    a new heap, and goes on with the answers as it likes; it only adds events that
    are not in the heap at that time (one that was taken out or removed may be
    added again) and fewer than 2^31 - 1 at once.  Every such run ends without a bad
    access of the array, gives the answers that a bag of events can give (the event
    that is returned or taken out is one with the earliest timeout), and leaves the
    events of the bag in the heap, each with its index in the array; an addition
    fails only for want of memory. *)
Theorem min_heap_refines_queue (client : heap_client) (w : world) :
  (∀ e v, events w !! e = Some v -> min_heap_idx v = -1) -> allowed w [] client ->
  ∃ os s w' xs ys, heap_run min_heap_ctor client w = inr (os, s, w') ∧ pq_run w [] client os xs ∧ ys ≡ₚ xs ∧ is_heap w' s ys.
Proof.
  intros Hout Hal. destruct (lruns_run _ _ _ (heap_run_agrees w client w min_heap_ctor [] [] (is_heap_ctor w)
    ltac:(split; eauto) ltac:(done) Hal)) as ([os s] & w' & He & xs & ys & Hr & Hp & Hh).
  by exists os, s, w', xs, ys.
Qed.

Lemma calls_push w e ops client xs :
  heap_oom w = [] -> op_allowed w xs (HPush e) -> allowed w (e :: xs) (calls ops client) -> allowed w xs (calls (HPush e :: ops) client).
Proof. intros Ho Hal Hc. split; [done|]. intros o ys Hs. by inversion Hs; subst. Qed.

Lemma calls_top w ops client xs : allowed w xs (calls ops client) -> allowed w xs (calls (HTop :: ops) client).
Proof. intros Hc. split; [by split|]. intros o ys Hs. by inversion Hs; subst. Qed.

Lemma calls_erase w e ops client xs :
  is_Some (events w !! e) -> (∀ ys, xs ≡ₚ e :: ys -> allowed w ys (calls ops client)) -> (e ∉ xs -> allowed w xs (calls ops client)) ->
  allowed w xs (calls (HErase e :: ops) client).
Proof. intros He Hin Hout. split; [by split|]. intros o ys Hs. inversion Hs; subst; auto. Qed.

Lemma demo_allowed : allowed demo_heap_world [] demo_client.
Proof.
  assert (Hk : Forall (fun e => is_Some (events demo_heap_world !! e)) [1; 2; 3]%positive) by (repeat constructor; by eexists).
  rewrite !Forall_cons in Hk. destruct Hk as (H1 & H2 & H3 & _).
  assert (Hal : ∀ e xs, is_Some (events demo_heap_world !! e) -> e ∉ xs -> (length xs < 3)%nat -> op_allowed demo_heap_world xs (HPush e)).
  { intros e xs He Hn Hl. split; [done|]. intros x [= <-]. split; [done|lia]. }
  apply calls_push; [done|apply Hal; [done|set_solver|cbn; lia]|]. apply calls_push; [done|apply Hal; [done|set_solver|cbn; lia]|].
  apply calls_push; [done|apply Hal; [done|set_solver|cbn; lia]|]. apply calls_top, calls_erase; [done| |set_solver]. intros ys Hp.
  assert (Hnd : NoDup (2%positive :: ys)) by (rewrite -Hp; by apply (bool_decide_unpack _)).
  assert (Hin : ∀ e, e ∈ ys -> is_Some (events demo_heap_world !! e)).
  { intros e He. assert (He' : e ∈ 2%positive :: ys) by by right. rewrite -Hp in He'. set_solver. }
  apply Permutation_length in Hp. cbn in Hp. apply NoDup_cons in Hnd as [H2y Hnd].
  apply calls_erase; [done|intros zs Hz; destruct H2y; rewrite Hz; by left|]. intros _.
  apply calls_push; [done|apply Hal; [done|done|lia]|]. apply periodic_allowed; [by constructor| |cbn; lia].
  constructor; [done|by apply Forall_forall].
Qed.

Lemma min_heap_refines_queue_witness :
  ∃ os s w' xs ys, heap_run min_heap_ctor demo_client demo_heap_world = inr (os, s, w') ∧
    pq_run demo_heap_world [] demo_client os xs ∧ ys ≡ₚ xs ∧ is_heap w' s ys.
Proof.
  apply (min_heap_refines_queue demo_client demo_heap_world); [|exact demo_allowed].
  intros e v. rewrite /demo_heap_world /= !lookup_insert_Some. intros [[_ <-]|[_ [[_ <-]|[_ Hv]]]]; [done..|].
  destruct Hv as [[_ <-]|[_ Hv]]; [done|]. by rewrite lookup_empty in Hv.
Defined.
