(* ===== verification/EvLoopSpec.v ===== *)
(** * The queues of an event base: lemmas

    Flags, the invariant that ties the flags of events to the queues of a base
    without common timeouts, and what event_queue_insert and event_queue_remove do
    to it. *)

From Stdlib Require Import ssreflect.
From S2P Require Import Prelude CTypes HProp CMem EvTime EvEvent EvHeap EvHeapSpec EvMap EvLoop.
Set Warnings "-rewrite-rw".
Open Scope general_if_scope.
Open Scope Z_scope.

(** ** Flags *)

Lemma on_bit x k : 0 <= k -> on x (2 ^ k) = Z.testbit x k.
Proof.
  intros Hk. rewrite /on. destruct (Z.testbit x k) eqn:Hb.
  - apply negb_true_iff, Z.eqb_neq. intros H0. apply (f_equal (fun z => Z.testbit z k)) in H0.
    rewrite Z.land_spec Hb Z.pow2_bits_true // Z.bits_0 // in H0.
  - apply negb_false_iff, Z.eqb_eq. apply Z.bits_inj'. intros j Hj. rewrite Z.land_spec Z.bits_0.
    destruct (decide (k = j)) as [->|Hne]; [by rewrite Hb|]. by rewrite Z.pow2_bits_false // andb_false_r.
Qed.

Lemma on_lor x j k : 0 <= j -> 0 <= k -> on (Z.lor x (2 ^ j)) (2 ^ k) = (j =? k) || on x (2 ^ k).
Proof. intros. rewrite !on_bit // Z.lor_spec Z.pow2_bits_eqb //. apply orb_comm. Qed.

Lemma on_without x j k : 0 <= j -> 0 <= k -> on (without x (2 ^ j)) (2 ^ k) = negb (j =? k) && on x (2 ^ k).
Proof. intros. rewrite !on_bit // /without Z.land_spec Z.lnot_spec // Z.pow2_bits_eqb //. apply andb_comm. Qed.

(** The three queues. *)
Inductive qno := QT | QI | QA.

#[export] Instance qno_eq_dec : EqDecision qno.
Proof. solve_decision. Defined.

Definition qbit (q : qno) : Z := match q with QT => 0 | QI => 1 | QA => 3 end.
Definition qflag (q : qno) : Z := 2 ^ qbit q.

Lemma qbit_pos q : 0 <= qbit q.
Proof. by destruct q. Qed.

Lemma qbit_inj p q : (qbit p =? qbit q) = bool_decide (p = q).
Proof. by destruct p, q. Qed.

(** Adding and removing the flag of a queue. *)
Definition flag_to (q : qno) (b : bool) (f : Z) : Z := if b then Z.lor f (qflag q) else without f (qflag q).

Arguments flag_to : simpl never.
Arguments on : simpl never.
Arguments qflag : simpl never.

Lemma on_flag_to q b f p : on (flag_to q b f) (qflag p) = if decide (p = q) then b else on f (qflag p).
Proof.
  rewrite /flag_to /qflag. pose proof (qbit_pos q). pose proof (qbit_pos p).
  destruct b; [rewrite on_lor //|rewrite on_without //]; rewrite qbit_inj; destruct (decide (p = q)) as [->|Hne].
  - by rewrite bool_decide_true.
  - by rewrite bool_decide_false.
  - by rewrite bool_decide_true.
  - by rewrite bool_decide_false.
Qed.

Lemma on_flag_internal q b f : on (flag_to q b f) EVLIST_INTERNAL = on f EVLIST_INTERNAL.
Proof.
  change EVLIST_INTERNAL with (2 ^ 4). rewrite /flag_to /qflag. pose proof (qbit_pos q).
  destruct b; [rewrite on_lor //|rewrite on_without //]; by destruct q.
Qed.

Lemma without_all_to q b f : without f EVLIST_ALL = 0 -> without (flag_to q b f) EVLIST_ALL = 0.
Proof.
  intros H. apply Z.bits_inj'. intros k Hk. apply (f_equal (fun z => Z.testbit z k)) in H. rewrite Z.bits_0 in H |- *.
  rewrite /without !Z.land_spec in H |- *. destruct (Z.testbit (Z.lnot EVLIST_ALL) k) eqn:Hn; [|by rewrite andb_false_r].
  rewrite andb_true_r in H |- *. rewrite /flag_to /qflag. destruct b; rewrite /without ?Z.lor_spec ?Z.land_spec H //=.
  rewrite Z.pow2_bits_eqb; [|apply qbit_pos]. rewrite andb_true_r. apply Z.eqb_neq. intros <-. by destruct q.
Qed.

(** ** The invariant *)

(** The lists of a base; [xs] are the events in its heap, in the order of the
    array. *)
Definition qlist (q : qno) (b : event_base) (xs : list eid) : list eid :=
  match q with QT => xs | QI => eventqueue b | QA => concat (activequeues b) end.

(** An event that is in a queue, by its flags. *)
Definition flagged (w : world) (q : qno) (e : eid) : Prop :=
  ∃ v, events w !! e = Some v ∧ on (ev_flags v) (qflag q) = true.

(** What holds of an event in any queue or none. *)
Record flags_ok (levels : nat) (v : event) : Prop := {
  fo_all : without (ev_flags v) EVLIST_ALL = 0;
  fo_internal : on (ev_flags v) EVLIST_INTERNAL = false;
  fo_pri : 0 <= ev_pri v < Z.of_nat levels }.

Record queues_ok (w : world) (xs : list eid) : Prop := {
  qo_common : common_timeout_queues (base w) = [];
  qo_levels : (0 < length (activequeues (base w)) < 256)%nat;
  qo_heap : is_heap w (timeheap (base w)) xs;
  qo_nodup : ∀ q, NoDup (qlist q (base w) xs);
  qo_member : ∀ q e, e ∈ qlist q (base w) xs <-> flagged w q e;
  qo_flags : ∀ e v, events w !! e = Some v -> flags_ok (length (activequeues (base w))) v;
  qo_place : ∀ i l e, activequeues (base w) !! i = Some l -> e ∈ l ->
    ∃ v, events w !! e = Some v ∧ ev_pri v = Z.of_nat i;
  qo_count : event_count (base w) = Z.of_nat (length xs + length (eventqueue (base w)) + length (concat (activequeues (base w))));
  qo_count_active : event_count_active (base w) = Z.of_nat (length (concat (activequeues (base w)))) }.

(** A heap depends on the times and indices of its events only. *)
Lemma is_heap_frame w w' s xs :
  is_heap w s xs ->
  (∀ x v, x ∈ xs -> events w !! x = Some v -> ∃ v', events w' !! x = Some v' ∧ min_heap_idx v' = min_heap_idx v ∧ ev_timeout v' = ev_timeout v) ->
  is_heap w' s xs.
Proof.
  intros Hh Hf. assert (Hkey : ∀ x, x ∈ xs -> key w' x = key w x).
  { intros x Hx. destruct (is_heap_event _ _ _ _ Hh Hx) as [v Hv]. destruct (Hf x v Hx Hv) as (v' & Hv' & _ & Ht).
    by rewrite /key Hv Hv' /= Ht. }
  split; try apply Hh.
  - intros i x Hx Hne. destruct (hw_idx _ _ _ Hh i x Hx Hne) as (v & Hv & Hi).
    destruct (Hf x v) as (v' & Hv' & Hi' & _); [by eapply list_elem_of_lookup_2|done|]. exists v'. split; [done|congruence].
  - intros i x y Hi Hx Hy. rewrite /ev_le !Hkey; [by apply (hw_order _ _ _ Hh i)|by eapply list_elem_of_lookup_2..].
Qed.

(** Only the indices differ. *)
Lemma reindexed_flags w w' e v' : reindexed w w' -> events w' !! e = Some v' ->
  ∃ v, events w !! e = Some v ∧ ev_flags v' = ev_flags v ∧ ev_pri v' = ev_pri v.
Proof.
  intros [_ He] Hv'. specialize (He e). rewrite Hv' in He. inversion He as [v ? Hb Hl Hr|]; subst.
  exists v. by rewrite (but_idx_eq v v').
Qed.

Lemma but_idx_flagged w w' x q :
  option_Forall2 but_idx (events w !! x) (events w' !! x) -> flagged w' q x <-> flagged w q x.
Proof.
  rewrite /flagged. intros H. inversion H as [v v' Hb Hv Hv'|Hv Hv'].
  - rewrite (but_idx_eq v v' Hb). split; intros (u & [= <-] & Hon); eexists; (split; [done|]); by destruct v.
  - split; by intros (u & ? & _).
Qed.

(** What an operation on the queues leaves alone in the base. *)
Definition requeue (b b' : event_base) : event_base :=
  set_count (event_count b') (set_count_active (event_count_active b') (set_activequeues (activequeues b')
    (set_eventqueue (eventqueue b') (set_timeheap (timeheap b') b)))).

(** The event [e] has come to the queue [q] or left it; [v] is the event
    before. *)
Definition with_flag (q : qno) (b : bool) (v : event) : event := set_flags (flag_to q b (ev_flags v)) v.

Record moved (q : qno) (b : bool) (e : eid) (v : event) (w w' : world) : Prop := {
  mv_events : reindexed (set_event_base (base w') (set_events (<[e := with_flag q b v]> (events w)) w)) w';
  mv_base : base w' = requeue (base w) (base w') }.

Lemma moved_lookup q b e v w w' x u :
  moved q b e v w w' -> events w !! e = Some v -> events w !! x = Some u ->
  ∃ i, events w' !! x = Some (set_idx i (if decide (x = e) then with_flag q b u else u)).
Proof.
  intros [Hr _] Hv Hu. destruct (decide (x = e)) as [->|Hne].
  - replace u with v by congruence. eapply reindexed_lookup; [done|]. cbn. by rewrite lookup_insert_eq.
  - eapply reindexed_lookup; [done|]. cbn. by rewrite lookup_insert_ne.
Qed.

Lemma moved_back q b e v w w' x u' :
  moved q b e v w w' -> events w !! e = Some v -> events w' !! x = Some u' ->
  ∃ u i, events w !! x = Some u ∧ u' = set_idx i (if decide (x = e) then with_flag q b u else u).
Proof.
  intros Hm Hv Hu'. destruct (events w !! x) as [u|] eqn:Hu.
  - destruct (moved_lookup _ _ _ _ _ _ _ _ Hm Hv Hu) as [i Hi]. exists u, i. split; [done|congruence].
  - destruct Hm as [[_ He] _]. specialize (He x). cbn in He. rewrite lookup_insert_ne in He; [|congruence].
    rewrite Hu Hu' in He. inversion He.
Qed.

Lemma moved_flagged q b e v w w' p x :
  moved q b e v w w' -> events w !! e = Some v ->
  flagged w' p x <-> (if decide (p = q ∧ x = e) then b = true else flagged w p x).
Proof.
  intros Hm Hv. rewrite /flagged. split.
  - intros (u' & Hu' & Hon). destruct (moved_back _ _ _ _ _ _ _ _ Hm Hv Hu') as (u & i & Hu & ->).
    cbn in Hon. destruct (decide (x = e)) as [->|Hne].
    + cbn in Hon. rewrite on_flag_to in Hon. destruct (decide (p = q ∧ e = e)) as [[-> _]|Hn].
      * by rewrite decide_True in Hon.
      * rewrite decide_False in Hon; [|by intros ->; apply Hn]. eauto.
    + rewrite decide_False; [|by intros [_ ->]]. eauto.
  - destruct (decide (p = q ∧ x = e)) as [[-> ->]|Hn].
    + intros ->. destruct (moved_lookup _ _ _ _ _ _ _ _ Hm Hv Hv) as [i Hi]. rewrite decide_True // in Hi.
      eexists. split; [done|]. cbn. by rewrite on_flag_to decide_True.
    + intros (u & Hu & Hon). destruct (moved_lookup _ _ _ _ _ _ _ _ Hm Hv Hu) as [i Hi]. eexists. split; [done|].
      cbn. destruct (decide (x = e)) as [->|]; [|done]. cbn. rewrite on_flag_to decide_False; [done|]. intros ->. by apply Hn.
Qed.

(** The list of the queue has got the event, or lost it. *)
Definition relisted (b : bool) (e : eid) (l l' : list eid) : Prop := if b then l' ≡ₚ e :: l else l ≡ₚ e :: l'.

Lemma relisted_elem b e l l' x :
  relisted b e l l' -> NoDup l -> (b = true -> e ∉ l) -> NoDup l' ∧ (x ∈ l' <-> if decide (x = e) then b = true else x ∈ l).
Proof.
  rewrite /relisted. intros Hr Hnd Hn. destruct b.
  - rewrite Hr. split; [constructor; auto|]. rewrite elem_of_cons. case_decide; [tauto|]. split; [by intros [?|?]|by right].
  - rewrite Hr in Hnd. apply NoDup_cons in Hnd as [He Hnd]. split; [done|].
    case_decide as Hx; [by subst|]. rewrite Hr elem_of_cons. split; [by right|by intros [?|?]].
Qed.

Lemma relisted_length b e l l' :
  relisted b e l l' -> Z.of_nat (length l') = Z.of_nat (length l) + (if b then 1 else -1).
Proof. rewrite /relisted. destruct b; intros ->; cbn; lia. Qed.

(** The invariant after an event has come to a queue or left it. *)
Lemma queues_ok_moved q b e v w w' xs xs' :
  queues_ok w xs -> events w !! e = Some v -> on (ev_flags v) (qflag q) = negb b -> moved q b e v w w' ->
  is_heap w' (timeheap (base w')) xs' ->
  relisted b e (qlist q (base w) xs) (qlist q (base w') xs') ->
  (∀ p, p ≠ q -> qlist p (base w') xs' = qlist p (base w) xs) ->
  length (activequeues (base w')) = length (activequeues (base w)) ->
  (∀ i l x, activequeues (base w') !! i = Some l -> x ∈ l -> x = e ∧ b = true ∧ Z.of_nat i = ev_pri v ∨
     ∃ l0, activequeues (base w) !! i = Some l0 ∧ x ∈ l0) ->
  event_count (base w') = event_count (base w) + (if b then 1 else -1) ->
  event_count_active (base w') = event_count_active (base w) + (if decide (q = QA) then if b then 1 else -1 else 0) ->
  queues_ok w' xs'.
Proof.
  intros Hq Hv Hon Hm Hh Hlist Hother Hlen Hplace Hc Hca. pose proof Hq as [].
  assert (Hnin : b = true -> e ∉ qlist q (base w) xs).
  { intros ->. rewrite qo_member0. intros (u & Hu & Hon'). rewrite Hv in Hu. injection Hu as <-. by rewrite Hon in Hon'. }
  assert (Hlens : ∀ p, Z.of_nat (length (qlist p (base w') xs')) =
    Z.of_nat (length (qlist p (base w) xs)) + (if decide (p = q) then if b then 1 else -1 else 0)).
  { intros p. destruct (decide (p = q)) as [->|Hne]; [by apply relisted_length with e|rewrite Hother //; lia]. }
  split; try done.
  - rewrite (mv_base _ _ _ _ _ _ Hm). done.
  - by rewrite Hlen.
  - intros p. destruct (decide (p = q)) as [->|Hne]; [by eapply (relisted_elem b e)|by rewrite Hother].
  - intros p x. rewrite (moved_flagged _ _ _ _ _ _ _ _ Hm Hv). destruct (decide (p = q)) as [->|Hne].
    + destruct (relisted_elem b e _ _ x Hlist) as [_ ->]; [done|done|]. destruct (decide (x = e)) as [->|Hne].
      * by rewrite decide_True.
      * rewrite decide_False; [apply qo_member0|by intros [_ ?]].
    + rewrite decide_False; [|by intros [? _]]. rewrite Hother //.
  - intros x u' Hu'. destruct (moved_back _ _ _ _ _ _ _ _ Hm Hv Hu') as (u & i & Hu & ->). rewrite Hlen.
    destruct (qo_flags0 _ _ Hu). destruct (decide (x = e)); [|done]. split; cbn; [by apply without_all_to|by rewrite on_flag_internal|done].
  - intros i l x Hl Hx. destruct (Hplace i l x Hl Hx) as [(-> & -> & Hi)|(l0 & Hl0 & Hx0)].
    + destruct (moved_lookup _ _ _ _ _ _ _ _ Hm Hv Hv) as [j Hj]. eexists. split; [done|]. rewrite decide_True //.
    + destruct (qo_place0 i l0 x Hl0 Hx0) as (u & Hu & Hp). destruct (moved_lookup _ _ _ _ _ _ _ _ Hm Hv Hu) as [j Hj].
      eexists. split; [done|]. by destruct (decide (x = e)).
  - pose proof (Hlens QT) as H. pose proof (Hlens QI) as H0. pose proof (Hlens QA) as H1. cbn [qlist] in *. rewrite Hc qo_count0. clear Hlens.
    destruct q; repeat case_decide; try done; lia.
  - pose proof (Hlens QA) as HA. cbn [qlist] in HA. rewrite Hca qo_count_active0. clear Hlens.
    destruct q; repeat case_decide; try done; lia.
Qed.

(** ** event_queue_insert and event_queue_remove *)

Lemma is_heap_events w w' s xs : events w' = events w -> is_heap w s xs -> is_heap w' s xs.
Proof. intros He Hh. apply (is_heap_frame w); [done|]. intros x v _ Hv. exists v. by rewrite He. Qed.

Lemma reindexed_base w w' b : reindexed w w' -> reindexed (set_event_base b w) (set_event_base b w').
Proof. intros [Hw He]. split; [|done]. by rewrite {1}Hw. Qed.

Lemma requeue_refl b : b = requeue b b.
Proof. by destruct b. Qed.

Lemma is_common_timeout_none tv b : common_timeout_queues b = [] -> is_common_timeout tv b = false.
Proof.
  intros Hc. rewrite /is_common_timeout /n_common_timeouts Hc. destruct (negb _); [done|]. apply Z.ltb_ge.
  rewrite /COMMON_TIMEOUT_IDX. apply Z.shiftr_nonneg, Z.land_nonneg. by right.
Qed.

Lemma lruns_mod_base f w (Q : unit -> world -> Prop) : Q tt (set_event_base (f (base w)) w) -> lruns (mod_base f) w Q.
Proof. done. Qed.

Lemma lruns_get_base w (Q : event_base -> world -> Prop) : Q (base w) w -> lruns get_base w Q.
Proof. done. Qed.

Lemma unlink_perm e l : e ∈ l -> ∃ l', unlink e l = Some l' ∧ l ≡ₚ e :: l'.
Proof.
  induction l as [|x l IH]; intros Hin; [by apply not_elem_of_nil in Hin|]. cbn. case_decide as Hx; [subst; by exists l|].
  apply elem_of_cons in Hin as [?|Hin]; [congruence|]. destruct (IH Hin) as (l' & -> & Hp). exists (x :: l'). split; [done|].
  rewrite Hp. apply perm_swap.
Qed.

Lemma lruns_tailq_remove e l w (Q : list eid -> world -> Prop) :
  e ∈ l -> (∀ l', unlink e l = Some l' -> l ≡ₚ e :: l' -> Q l' w) -> lruns (tailq_remove e l) w Q.
Proof. intros Hin HQ. destruct (unlink_perm e l Hin) as (l' & Hu & Hp). rewrite /tailq_remove Hu. apply lruns_ret. auto. Qed.

Lemma list_filter_iff' {A} (P Q : A -> Prop) `{∀ x, Decision (P x), ∀ x, Decision (Q x)} (l : list A) :
  (∀ x, x ∈ l -> P x <-> Q x) -> filter P l = filter Q l.
Proof.
  induction l as [|x l IH]; intros Hi; [done|]. rewrite !filter_cons IH; [|intros y Hy; apply Hi; by right].
  assert (P x <-> Q x) by (apply Hi; by left). repeat case_decide; tauto.
Qed.

Lemma concat_insert_perm {A} (ls : list (list A)) i l l' e :
  ls !! i = Some l -> l' ≡ₚ e :: l -> concat (<[i := l']> ls) ≡ₚ e :: concat ls.
Proof.
  intros Hi Hl. rewrite -{2}(take_drop_middle ls i l Hi) insert_take_drop; [|by eapply lookup_lt_Some].
  rewrite !concat_app /= Hl. rewrite -app_comm_cons. symmetry. apply Permutation_middle.
Qed.

Lemma list_insert_back {A} (ls : list A) i l l' : ls !! i = Some l -> <[i := l]> (<[i := l']> ls) = ls.
Proof. intros Hi. by rewrite list_insert_insert_eq list_insert_id. Qed.

(** Up to the queue itself. *)
Ltac enter_queue v Hq Hv Hon :=
  apply lruns_bind, (lruns_get_event _ v); [done|]; rewrite Hon (fo_internal _ _ (qo_flags _ _ Hq _ _ Hv));
  cbn [negb]; apply lruns_bind, lruns_mod_base, lruns_bind, (lruns_mod_event _ _ v); [done|];
  apply lruns_bind, lruns_get_base; cbn [Z.eqb EVLIST_INSERTED EVLIST_ACTIVE EVLIST_TIMEOUT Pos.eqb].

Section queue_ops.
Context (w : world) (xs : list eid) (e : eid) (v : event).
Context (Hq : queues_ok w xs) (Hv : events w !! e = Some v).

(** The flag and the count are set first. *)
Let flagged_world (q : qno) (b : bool) : world :=
  set_events (<[e := with_flag q b v]> (events w))
    (set_event_base (set_count (event_count (base w) + (if b then 1 else -1)) (base w)) w).

Lemma flagged_world_heap q b : is_heap (flagged_world q b) (timeheap (base w)) xs.
Proof.
  apply (is_heap_frame w); [apply Hq|]. intros x u _ Hu. cbn. destruct (decide (x = e)) as [->|Hne].
  - exists (with_flag q b v). rewrite lookup_insert_eq. by replace u with v by congruence.
  - exists u. by rewrite lookup_insert_ne.
Qed.

Lemma active_queue : ∃ l, activequeues (base w) !! Z.to_nat (ev_pri v) = Some l ∧ Z.of_nat (Z.to_nat (ev_pri v)) = ev_pri v.
Proof.
  destruct (qo_flags _ _ Hq _ _ Hv) as [_ _ Hp]. destruct (lookup_lt_is_Some_2 (activequeues (base w)) (Z.to_nat (ev_pri v))) as [l Hl]; [lia|].
  exists l. split; [done|lia].
Qed.

Lemma lruns_insert_inserted (Q : unit -> world -> Prop) :
  on (ev_flags v) EVLIST_INSERTED = false ->
  (∀ w', queues_ok w' xs -> moved QI true e v w w' ->
     base w' = set_eventqueue (eventqueue (base w) ++ [e]) (set_count (event_count (base w) + 1) (base w)) -> Q tt w') ->
  lruns (event_queue_insert e EVLIST_INSERTED) w Q.
Proof.
  intros Hoff HQ. rewrite /event_queue_insert. enter_queue v Hq Hv Hoff. apply lruns_mod_base.
  assert (Hm : moved QI true e v w (set_event_base (set_eventqueue (eventqueue (base w) ++ [e])
    (set_count (event_count (base w) + 1) (base w))) (flagged_world QI true))).
  { split; [apply reindexed_preorder|by destruct w as [? []]]. }
  apply HQ; [|done|done]. apply (queues_ok_moved QI true e v w _ xs xs); try done.
  - apply (is_heap_events (flagged_world QI true)); [done|]. apply flagged_world_heap.
  - cbn. by rewrite Permutation_app_comm.
  - by intros [].
  - intros i l x Hl Hx. right. eauto.
  - case_decide; [done|]. cbn. lia.
Qed.

Lemma lruns_remove_inserted (Q : unit -> world -> Prop) :
  on (ev_flags v) EVLIST_INSERTED = true ->
  (∀ w' l, queues_ok w' xs -> moved QI false e v w w' -> eventqueue (base w) ≡ₚ e :: l ->
     base w' = set_eventqueue l (set_count (event_count (base w) - 1) (base w)) -> Q tt w') ->
  lruns (event_queue_remove e EVLIST_INSERTED) w Q.
Proof.
  intros Hon HQ. rewrite /event_queue_remove. enter_queue v Hq Hv Hon. apply lruns_bind, lruns_tailq_remove; [apply (qo_member _ _ Hq QI); by exists v|]. intros l _ Hp. apply lruns_mod_base.
  assert (Hm : moved QI false e v w (set_event_base (set_eventqueue l
    (set_count (event_count (base w) - 1) (base w))) (flagged_world QI false))).
  { split; [apply reindexed_preorder|by destruct w as [? []]]. }
  apply (HQ _ l); [|done|done|done]. apply (queues_ok_moved QI false e v w _ xs xs); try done.
  - apply (is_heap_events (flagged_world QI false)); [done|]. apply flagged_world_heap.
  - by intros [].
  - intros i l' x Hl Hx. right. eauto.
  - case_decide; [done|]. cbn. lia.
Qed.

Lemma lruns_insert_active (Q : unit -> world -> Prop) :
  on (ev_flags v) EVLIST_ACTIVE = false ->
  (∀ w' l, queues_ok w' xs -> moved QA true e v w w' -> activequeues (base w) !! Z.to_nat (ev_pri v) = Some l ->
     base w' = set_activequeue (ev_pri v) (l ++ [e])
       (set_count_active (event_count_active (base w) + 1) (set_count (event_count (base w) + 1) (base w))) -> Q tt w') ->
  lruns (event_queue_insert e EVLIST_ACTIVE) w Q.
Proof.
  intros Hoff HQ. rewrite /event_queue_insert. enter_queue v Hq Hv Hoff. apply lruns_bind, lruns_mod_base, lruns_bind.
  destruct active_queue as (l & Hl & Hpri). rewrite /activequeue. apply lruns_bind, lruns_get_base. cbn. rewrite Hl.
  apply lruns_ret, lruns_mod_base.
  assert (Hm : moved QA true e v w (set_event_base (set_activequeue (ev_pri v) (l ++ [e]) (set_count_active
    (event_count_active (base w) + 1) (set_count (event_count (base w) + 1) (base w)))) (flagged_world QA true))).
  { split; [apply reindexed_preorder|by destruct w as [? []]]. }
  apply (HQ _ l); [|done|done|done]. apply (queues_ok_moved QA true e v w _ xs xs); try done.
  - apply (is_heap_events (flagged_world QA true)); [done|]. apply flagged_world_heap.
  - cbn. apply (concat_insert_perm _ _ l); [done|]. by rewrite Permutation_app_comm.
  - by intros [].
  - cbn. apply length_insert.
  - cbn. intros i l' x Hl' Hx. destruct (decide (i = Z.to_nat (ev_pri v))) as [->|Hne].
    + rewrite list_lookup_insert_eq in Hl'; [|by eapply lookup_lt_Some]. injection Hl' as <-.
      apply elem_of_app in Hx as [Hx|Hx]; [right; eauto|]. apply list_elem_of_singleton in Hx as ->. by left.
    + rewrite list_lookup_insert_ne // in Hl'. right. eauto.
Qed.

Lemma lruns_remove_active (Q : unit -> world -> Prop) :
  on (ev_flags v) EVLIST_ACTIVE = true ->
  (∀ w' l l', queues_ok w' xs -> moved QA false e v w w' -> activequeues (base w) !! Z.to_nat (ev_pri v) = Some l ->
     unlink e l = Some l' ->
     base w' = set_activequeue (ev_pri v) l'
       (set_count_active (event_count_active (base w) - 1) (set_count (event_count (base w) - 1) (base w))) -> Q tt w') ->
  lruns (event_queue_remove e EVLIST_ACTIVE) w Q.
Proof.
  intros Hon HQ. rewrite /event_queue_remove. enter_queue v Hq Hv Hon. apply lruns_bind, lruns_mod_base, lruns_bind.
  destruct active_queue as (l & Hl & Hpri). rewrite /activequeue. apply lruns_bind, lruns_get_base. cbn. rewrite Hl.
  assert (He : e ∈ l).
  { assert (He : e ∈ qlist QA (base w) xs) by (apply (qo_member _ _ Hq); by exists v).
    apply list_elem_of_In, in_concat in He as (l0 & Hl0 & He). apply list_elem_of_In in Hl0, He.
    apply list_elem_of_lookup_1 in Hl0 as [i Hi]. destruct (qo_place _ _ Hq i l0 e Hi He) as (u & Hu & Hp).
    assert (u = v) as -> by congruence. rewrite Hp Nat2Z.id Hi in Hl. by injection Hl as <-. }
  apply lruns_ret, lruns_bind, lruns_tailq_remove; [done|]. intros l' Hu Hp. apply lruns_mod_base.
  assert (Hm : moved QA false e v w (set_event_base (set_activequeue (ev_pri v) l' (set_count_active
    (event_count_active (base w) - 1) (set_count (event_count (base w) - 1) (base w)))) (flagged_world QA false))).
  { split; [apply reindexed_preorder|by destruct w as [? []]]. }
  apply (HQ _ l l'); [|done|done|done|done]. apply (queues_ok_moved QA false e v w _ xs xs); try done.
  - apply (is_heap_events (flagged_world QA false)); [done|]. apply flagged_world_heap.
  - cbn. rewrite -{1}(list_insert_back _ _ _ l' Hl). apply (concat_insert_perm _ _ l'); [|done].
    apply list_lookup_insert_eq. by eapply lookup_lt_Some.
  - by intros [].
  - cbn. apply length_insert.
  - cbn. intros i l0 x Hl0 Hx. right. destruct (decide (i = Z.to_nat (ev_pri v))) as [->|Hne].
    + rewrite list_lookup_insert_eq in Hl0; [|by eapply lookup_lt_Some]. injection Hl0 as <-.
      exists l. split; [done|]. rewrite Hp. by apply list_elem_of_further.
    + rewrite list_lookup_insert_ne // in Hl0. eauto.
Qed.

(** The heap moves other events, whose indices change. *)
Lemma heap_step_moved b w2 s' zs :
  heap_moved (flagged_world QT b) w2 zs ->
  moved QT b e v w (set_event_base (set_timeheap s' (base w2)) w2) ∧
  base w2 = set_count (event_count (base w) + (if b then 1 else -1)) (base w).
Proof.
  intros [Hr _]. assert (Hb : base w2 = base (flagged_world QT b)) by (destruct Hr as [-> _]; done). split; [|done]. split.
  - cbn. apply (reindexed_base _ _ (set_timeheap s' (base w2))) in Hr. done.
  - cbn. rewrite Hb. by destruct w as [? []].
Qed.

Lemma lruns_insert_timeout (Q : unit -> world -> Prop) :
  on (ev_flags v) EVLIST_TIMEOUT = false -> hn (timeheap (base w)) < ha (timeheap (base w)) -> hn (timeheap (base w)) + 1 < 2 ^ 31 ->
  (∀ w' xs', queues_ok w' xs' -> moved QT true e v w w' -> xs' ≡ₚ e :: xs ->
     base w' = set_timeheap (timeheap (base w')) (set_count (event_count (base w) + 1) (base w)) -> Q tt w') ->
  lruns (event_queue_insert e EVLIST_TIMEOUT) w Q.
Proof.
  intros Hoff Hroom Hmax HQ. rewrite /event_queue_insert. enter_queue v Hq Hv Hoff.
  rewrite is_common_timeout_none; [|apply Hq]. apply lruns_bind, (lruns_push_room (flagged_world QT true) _ xs); try done.
  - apply flagged_world_heap.
  - cbn. rewrite lookup_insert_eq. eauto.
  - rewrite (qo_member _ _ Hq QT). intros (u & Hu & Hon). replace u with v in Hon by congruence. by rewrite Hoff in Hon.
  - intros s' w2 ys Hh Hp Hmv. apply lruns_mod_base. destruct (heap_step_moved true w2 s' _ Hmv) as [Hm Hb].
    apply (HQ _ ys); [|done|done|cbn; by rewrite Hb].
    apply (queues_ok_moved QT true e v w _ xs ys); try done; cbn; rewrite ?Hb //.
    + by apply (is_heap_events w2).
    + by intros [] ?.
    + intros i l x Hl Hx. right. eauto.
    + case_decide; [done|]. cbn. lia.
Qed.

Lemma lruns_remove_timeout (Q : unit -> world -> Prop) :
  on (ev_flags v) EVLIST_TIMEOUT = true ->
  (∀ w' xs', queues_ok w' xs' -> moved QT false e v w w' -> xs ≡ₚ e :: xs' ->
     hn (timeheap (base w')) < ha (timeheap (base w')) ->
     base w' = set_timeheap (timeheap (base w')) (set_count (event_count (base w) - 1) (base w)) -> Q tt w') ->
  lruns (event_queue_remove e EVLIST_TIMEOUT) w Q.
Proof.
  intros Hon HQ. rewrite /event_queue_remove. enter_queue v Hq Hv Hon.
  rewrite is_common_timeout_none; [|apply Hq]. apply lruns_bind, (lruns_erase (flagged_world QT false) _ xs).
  - apply flagged_world_heap.
  - apply (qo_member _ _ Hq QT). by exists v.
  - intros s' w2 ys u Hh Hp Hmv _ _ Hroom. apply lruns_mod_base. destruct (heap_step_moved false w2 s' _ Hmv) as [Hm Hb].
    apply (HQ _ ys); [|done|done|done|cbn; by rewrite Hb].
    apply (queues_ok_moved QT false e v w _ xs ys); try done; cbn; rewrite ?Hb //.
    + by apply (is_heap_events w2).
    + by intros [] ?.
    + intros i l x Hl Hx. right. eauto.
    + case_decide; [done|]. cbn. lia.
Qed.

End queue_ops.
