(* ===== verification/EvMapSpec.v ===== *)
(** * Which events wait for what: lemmas

    The invariant of the maps of evmap.c, which also ties them to what the
    backend was told, and what adding and deleting an event does to it. *)

From Stdlib Require Import ssreflect.
From S2P Require Import Prelude CTypes HProp CMem EvTime EvEvent EvHeap EvHeapSpec EvMap EvLoop EvLoopSpec.
Set Warnings "-rewrite-rw".
Open Scope general_if_scope.
Open Scope Z_scope.

Definition EV_RW : Z := Z.lor EV_READ EV_WRITE.
Definition EV_ANY : Z := Z.lor EV_READ (Z.lor EV_WRITE EV_SIGNAL).

(** ** What the backend waits for

    The calls that succeeded, one after the other. *)
Definition told (fd x : Z) (c : call) : Z :=
  match c with
  | BackendAdd fd' _ what true => if fd' =? fd then Z.lor x (Z.land what EV_ANY) else x
  | BackendDel fd' _ what true => if fd' =? fd then without x what else x
  | _ => x
  end.

Definition interest (log : list call) (fd : Z) : Z := fold_left (told fd) log 0.

Lemma interest_app log c fd : interest (log ++ [c]) fd = told fd (interest log fd) c.
Proof. by rewrite /interest fold_left_app. Qed.

(** ** The invariant *)

(** An array of pointers; behind its end there is nothing. *)
Definition slot_of {A} (entries : list (option A)) (i : nat) : option A := mjoin (entries !! i).

Definition waits (w : world) (e : eid) : option (Z * Z) := (fun v => (ev_fd v, ev_events v)) <$> events w !! e.
Definition wants (w : world) (what : Z) (e : eid) : bool :=
  match waits w e with Some (_, ev) => on ev what | None => false end.
Definition wanting (w : world) (what : Z) (l : list eid) : Z := Z.of_nat (length (filter (fun e => wants w what e = true) l)).

Record io_ok (w : world) (ctx : evmap_io) : Prop := {
  io_nodup : NoDup (io_events ctx);
  io_nread : nread ctx = wanting w EV_READ (io_events ctx);
  io_nwrite : nwrite ctx = wanting w EV_WRITE (io_events ctx);
  io_max : nread ctx <= 0xffff ∧ nwrite ctx <= 0xffff }.

Definition io_list (b : event_base) (i : nat) : list eid := from_option io_events [] (slot_of (io b) i).
Definition sig_list (b : event_base) (i : nat) : list eid := from_option sig_events [] (slot_of (sigmap b) i).

(** What the maps say that the backend should wait for. *)
Definition io_want (b : event_base) (i : nat) : Z := from_option io_old 0 (slot_of (io b) i).
Definition sig_want (b : event_base) (i : nat) : Z := if sig_list b i is [] then 0 else EV_SIGNAL.

(** An event of the io map, and one of the signal map. *)
Definition waits_io (w : world) (i : nat) (e : eid) : Prop :=
  ∃ what, waits w e = Some (Z.of_nat i, what) ∧ on what EV_RW = true.
Definition waits_sig (w : world) (i : nat) (e : eid) : Prop :=
  ∃ what, waits w e = Some (Z.of_nat i, what) ∧ on what EV_RW = false ∧ on what EV_SIGNAL = true.

(** [ins] are the inserted events. *)
Record maps_ok (w : world) (ins : list eid) : Prop := {
  mo_io : ∀ i ctx, slot_of (io (base w)) i = Some ctx -> io_ok w ctx;
  mo_sig : ∀ i, NoDup (sig_list (base w) i);
  mo_io_in : ∀ i e, e ∈ io_list (base w) i <-> e ∈ ins ∧ waits_io w i e;
  mo_sig_in : ∀ i e, e ∈ sig_list (base w) i <-> e ∈ ins ∧ waits_sig w i e;
  mo_told : ∀ i, interest (calls w) (Z.of_nat i) = Z.lor (io_want (base w) i) (sig_want (base w) i) }.

Lemma io_ok_frame w w' ctx : (∀ e, waits w' e = waits w e) -> io_ok w ctx -> io_ok w' ctx.
Proof.
  intros Hw [Hn Hr Hwr Hm]. assert (Hc : ∀ what l, wanting w' what l = wanting w what l).
  { intros what l. rewrite /wanting. do 2 f_equal. apply list_filter_iff. intros e. by rewrite /wants Hw. }
  split; rewrite ?Hc //.
Qed.

Lemma waits_frame w w' : (∀ e, waits w' e = waits w e) ->
  (∀ i e, waits_io w' i e <-> waits_io w i e) ∧ (∀ i e, waits_sig w' i e <-> waits_sig w i e).
Proof. intros Hw. split; intros i e; by rewrite /waits_io /waits_sig Hw. Qed.

Lemma maps_ok_frame w w' ins ins' :
  maps_ok w ins -> (∀ e, waits w' e = waits w e) ->
  (∀ j, slot_of (io (base w')) j = slot_of (io (base w)) j) -> (∀ j, slot_of (sigmap (base w')) j = slot_of (sigmap (base w)) j) ->
  (∀ i, interest (calls w') (Z.of_nat i) = interest (calls w) (Z.of_nat i)) ->
  (∀ e i, waits_io w i e ∨ waits_sig w i e -> e ∈ ins' <-> e ∈ ins) -> maps_ok w' ins'.
Proof.
  intros [] Hw Hio Hsig Hc Hi. destruct (waits_frame w w' Hw) as [Hwi Hws].
  assert (Hl : ∀ i, sig_list (base w') i = sig_list (base w) i) by (intros i; by rewrite /sig_list Hsig). split.
  - intros i ctx Hs. rewrite Hio in Hs. eapply io_ok_frame; [done|eauto].
  - intros i. by rewrite Hl.
  - intros i e. rewrite /io_list Hio Hwi -/(io_list (base w) i) mo_io_in0. split; intros [? ?]; (split; [|done]);
      apply (Hi e i); auto.
  - intros i e. rewrite Hl Hws mo_sig_in0. split; intros [? ?]; (split; [|done]); apply (Hi e i); auto.
  - intros i. rewrite Hc /io_want /sig_want Hio Hl. apply mo_told0.
Qed.

(** ** Counting *)

Section counting.
Context (w : world) (what : Z).

Lemma wanting_perm l l' : l ≡ₚ l' -> wanting w what l = wanting w what l'.
Proof. intros Hp. rewrite /wanting. by rewrite Hp. Qed.

Lemma wanting_cons e l : wanting w what (e :: l) = wanting w what l + (if wants w what e then 1 else 0).
Proof. rewrite /wanting filter_cons. destruct (wants w what e); case_decide; try done; cbn; lia. Qed.

Lemma wanting_snoc e l : wanting w what (l ++ [e]) = wanting w what l + (if wants w what e then 1 else 0).
Proof. rewrite -wanting_cons. apply wanting_perm. by rewrite Permutation_app_comm. Qed.

Lemma wanting_nonneg l : 0 <= wanting w what l.
Proof. rewrite /wanting. lia. Qed.

End counting.

(** ** The arrays *)

Lemma slot_of_lt {A} (entries : list (option A)) i ctx : slot_of entries i = Some ctx -> (i < length entries)%nat.
Proof. rewrite /slot_of. destruct (entries !! i) eqn:H; [|done]. intros _. by eapply lookup_lt_Some. Qed.

Lemma slot_of_insert {A} (entries : list (option A)) i x j :
  (i < length entries)%nat -> slot_of (<[i := Some x]> entries) j = if decide (j = i) then Some x else slot_of entries j.
Proof.
  intros Hi. rewrite /slot_of. case_decide as Hj; [subst; by rewrite list_lookup_insert_eq|by rewrite list_lookup_insert_ne].
Qed.

Lemma slot_of_grow {A} (entries : list (option A)) n j : slot_of (entries ++ replicate n None) j = slot_of entries j.
Proof.
  rewrite /slot_of. destruct (decide (j < length entries)%nat) as [Hj|Hj]; [by rewrite lookup_app_l|].
  rewrite lookup_app_r; [|lia]. rewrite (lookup_ge_None_2 entries); [|lia]. destruct (_ !! _) as [x|] eqn:Hx; [|done].
  apply lookup_replicate in Hx as [-> _]. done.
Qed.

Lemma lruns_grow fuel n slot w (Q : Z -> world -> Prop) :
  (0 < fuel)%nat -> 0 < n -> slot < n * 2 ^ (Z.of_nat fuel - 1) -> slot < 2 ^ 30 -> (∀ m, n <= m -> slot < m -> Q m w) ->
  lruns (grow_entries fuel n slot) w Q.
Proof.
  revert n. induction fuel as [|fuel IH]; intros n Hf Hn Hs Hmax HQ; [lia|]. cbn [grow_entries].
  destruct (Z.leb_spec n slot) as [Hle|Hgt]; [|apply lruns_ret, HQ; lia]. rewrite (proj2 (Z.leb_gt _ _)); [|lia].
  replace (Z.of_nat (S fuel) - 1) with (Z.of_nat fuel) in Hs by lia.
  destruct (decide (fuel = O)) as [->|Hne]; [cbn in Hs; lia|]. rewrite Z.shiftl_mul_pow2 //. apply IH; [lia|lia| |done|].
  - replace (Z.of_nat fuel) with (1 + (Z.of_nat fuel - 1)) in Hs by lia. rewrite Z.pow_add_r in Hs; lia.
  - intros m Hm Hsm. apply HQ; lia.
Qed.

Lemma lruns_make_space {A} (entries : list (option A)) fd w (Q : Z * list (option A) -> world -> Prop) :
  0 <= fd < 2 ^ 30 ->
  (∀ entries' o, (Z.to_nat fd < length entries')%nat -> (∀ j, slot_of entries' j = slot_of entries j) ->
     Q (0, entries') (set_oom o w)) ->
  (∀ o, Q (-1, entries) (set_oom o w)) ->
  lruns (evmap_make_space entries fd) w Q.
Proof.
  intros Hfd HQ HQ'. assert (Hw : w = set_oom (heap_oom w) w) by by destruct w.
  rewrite /evmap_make_space. destruct (Z.leb_spec (Z.of_nat (length entries)) fd) as [Hle|Hgt]; last first.
  { apply lruns_ret. rewrite Hw. apply HQ; [lia|done]. }
  apply lruns_bind, lruns_grow; [lia|destruct (Z.eqb_spec (Z.of_nat (length entries)) 0); lia| |lia|].
  { destruct (Z.eqb_spec (Z.of_nat (length entries)) 0); cbn; lia. }
  intros m Hm Hfm. assert (Hgood : ∀ o, Q (0, entries ++ replicate (Z.to_nat m - length entries) None) (set_oom o w)).
  { intros o. apply HQ; [rewrite length_app length_replicate; lia|intros j; apply slot_of_grow]. }
  apply lruns_bind. rewrite /lruns /mm_alloc. destruct (heap_oom w) as [|[] o] eqn:Ho; [rewrite {1}Hw; apply Hgood..|apply HQ'].
Qed.

Lemma lruns_get_slot {A} (entries : list (option A)) fd w (Q : option A -> world -> Prop) :
  0 <= fd -> (Z.to_nat fd < length entries)%nat -> Q (slot_of entries (Z.to_nat fd)) w -> lruns (get_slot entries fd) w Q.
Proof.
  intros H0 Hl. rewrite /get_slot (proj2 (Z.leb_le _ _)) // /slot_of. destruct (lookup_lt_is_Some_2 _ _ Hl) as [x ->]. done.
Qed.

Lemma lruns_slot_ctor {A} (entries : list (option A)) fd init w (Q : option A * list (option A) -> world -> Prop) :
  0 <= fd -> (Z.to_nat fd < length entries)%nat ->
  (∀ entries' ctx o, ctx = default init (slot_of entries (Z.to_nat fd)) -> length entries' = length entries ->
     (∀ j, slot_of entries' j = if decide (j = Z.to_nat fd) then Some ctx else slot_of entries j) ->
     Q (Some ctx, entries') (set_oom o w)) ->
  (∀ o, Q (None, entries) (set_oom o w)) ->
  lruns (get_slot_and_ctor entries fd init) w Q.
Proof.
  intros H0 Hl HQ HQ'. assert (Hw : w = set_oom (heap_oom w) w) by by destruct w.
  rewrite /get_slot_and_ctor. apply lruns_bind, lruns_get_slot; [done|done|].
  destruct (slot_of entries (Z.to_nat fd)) as [ctx|] eqn:Hs.
  { apply lruns_ret. rewrite {1}Hw. apply HQ; [done|done|]. intros j. by case_decide; subst. }
  assert (Hgood : ∀ o, Q (Some init, <[Z.to_nat fd := Some init]> entries) (set_oom o w)).
  { intros o. apply HQ; [done|apply length_insert|]. intros j. by apply slot_of_insert. }
  apply lruns_bind. rewrite /lruns /mm_alloc. destruct (heap_oom w) as [|[] o] eqn:Ho; [rewrite {1}Hw; apply Hgood..|apply HQ'].
Qed.

(** ** The maps after an entry has changed *)

(** Two inserted sets that differ in events of the io entry [i] only. *)
Lemma maps_ok_io w w' ins ins' i ctx :
  maps_ok w ins -> (∀ e, waits w' e = waits w e) ->
  (∀ j, slot_of (io (base w')) j = if decide (j = i) then Some ctx else slot_of (io (base w)) j) ->
  sigmap (base w') = sigmap (base w) -> io_ok w ctx ->
  (∀ e, e ∈ io_events ctx <-> e ∈ ins' ∧ waits_io w i e) ->
  (∀ e, ~ waits_io w i e -> e ∈ ins' <-> e ∈ ins) ->
  (∀ j, interest (calls w') (Z.of_nat j) =
     if decide (j = i) then Z.lor (io_old ctx) (sig_want (base w) i) else interest (calls w) (Z.of_nat j)) ->
  maps_ok w' ins'.
Proof.
  intros [] Hw Hio Hsig Hok Hctx Hout Htold.
  destruct (waits_frame w w' Hw) as [Hwi Hws].
  assert (Hsl : ∀ j, sig_list (base w') j = sig_list (base w) j) by (intros j; by rewrite /sig_list Hsig).
  split.
  - intros j c Hj. eapply io_ok_frame; [done|]. rewrite Hio in Hj. case_decide; [by injection Hj as <-|eauto].
  - intros j. by rewrite Hsl.
  - intros j e. rewrite /io_list Hio Hwi. case_decide as Hj; [subst; apply Hctx|]. cbn.
    rewrite -/(io_list (base w) j) mo_io_in0. split; intros [Hin Hj']; (split; [|done]); apply Hout; try done;
      intros (what & Hc & _); destruct Hj' as (what' & Hc' & _); rewrite Hc in Hc'; injection Hc'; lia.
  - intros j e. rewrite Hsl Hws mo_sig_in0. split; intros [Hin Hj']; (split; [|done]); apply Hout; try done;
      intros (what & Hc & Hon); destruct Hj' as (what' & Hc' & Hoff & _); assert (what = what') as -> by congruence;
      by rewrite Hon in Hoff.
  - intros j. rewrite Htold /io_want /sig_want Hsl Hio. case_decide as Hj; [by subst|]. apply mo_told0.
Qed.

(** What changes in the world when the maps do. *)
Definition remap (b b' : event_base) : event_base := set_io (io b') (set_sigmap (sigmap b') b).

Record mapped (w w' : world) : Prop := {
  mp_world : w' = set_event_base (base w') (set_oom (heap_oom w') (set_n_sys (n_sys w') (set_calls (calls w') w)));
  mp_base : base w' = remap (base w) (base w') }.

Lemma mapped_events w w' : mapped w w' -> events w' = events w.
Proof. by intros [-> _]. Qed.

Lemma mapped_waits w w' e : mapped w w' -> waits w' e = waits w e.
Proof. intros Hm. by rewrite /waits (mapped_events w). Qed.

(** ** Adding to the io map *)

Lemma io_old_cases ctx : io_old ctx = 0 ∨ io_old ctx = EV_READ ∨ io_old ctx = EV_WRITE ∨ io_old ctx = EV_RW.
Proof. rewrite /io_old. destruct (nread ctx =? 0), (nwrite ctx =? 0); cbn; auto. Qed.

Lemma mapped_trans w1 w2 w3 : mapped w1 w2 -> mapped w2 w3 -> mapped w1 w3.
Proof.
  intros [H1 B1] [H2 B2]. split.
  - rewrite H2 {1}H1. by destruct w1, w2, w3.
  - rewrite {1}B2 {1}B1. by destruct w1 as [? []].
Qed.

(** A call of the backend that adds. *)
Lemma lruns_evsel_add fd old what w (Q : bool -> world -> Prop) :
  (∀ ok n log, log = calls w ++ [BackendAdd fd old what ok] -> Q ok (set_calls log (set_n_sys n w))) ->
  lruns (evsel_add fd old what) w Q.
Proof. intros HQ. by apply HQ. Qed.

(** One that deletes succeeds. *)
Lemma lruns_evsel_del fd old what w (Q : bool -> world -> Prop) :
  (∀ n, backend_del (sys w) n = true) ->
  (∀ n log, log = calls w ++ [BackendDel fd old what true] -> Q true (set_calls log (set_n_sys n w))) ->
  lruns (evsel_del fd old what) w Q.
Proof. intros Hd HQ. rewrite /evsel_del /lruns /mbind /L_bind /ask /note /mret /L_ret Hd. by apply HQ. Qed.

(** Whether the count of [what] changes is whether the event wants it. *)
Lemma wants_event w e v what : events w !! e = Some v -> wants w what e = on (ev_events v) what.
Proof. intros Hv. by rewrite /wants /waits Hv. Qed.

Lemma on_or x a b : on x (Z.lor a b) = on x a || on x b.
Proof.
  rewrite /on Z.land_lor_distr_r. apply eq_true_iff_eq. rewrite orb_true_iff !negb_true_iff !Z.eqb_neq Z.lor_eq_0_iff. lia.
Qed.

(** What the backend is told is what it was not told before. *)
Lemma told_add ev old sig res :
  Z.lor (Z.lor old sig) (Z.land (Z.lor (Z.land ev EV_ET) res) EV_ANY) = Z.lor (Z.lor old (Z.land res EV_ANY)) sig.
Proof.
  rewrite Z.land_lor_distr_l -Z.land_assoc. change (Z.land EV_ET EV_ANY) with 0. rewrite Z.land_0_r Z.lor_0_l.
  rewrite -!Z.lor_assoc. f_equal. apply Z.lor_comm.
Qed.

Section io_entry.
Context (w : world) (ins : list eid) (e : eid) (v : event) (ctx : evmap_io) (i : nat).
Context (Hmaps : maps_ok w ins) (Hv : events w !! e = Some v) (Hfd : ev_fd v = Z.of_nat i).
Context (Hrw : on (ev_events v) EV_RW = true) (Hslot : slot_of (io (base w)) i = Some ctx).

Let rd := on (ev_events v) EV_READ.
Let wr := on (ev_events v) EV_WRITE.

Lemma entry_waits : waits_io w i e.
Proof. exists (ev_events v). by rewrite /waits Hv /= Hfd. Qed.

Lemma entry_ok : io_ok w ctx.
Proof. by apply (mo_io _ _ Hmaps i). Qed.

Lemma entry_list x : x ∈ io_events ctx <-> x ∈ ins ∧ waits_io w i x.
Proof. rewrite -(mo_io_in _ _ Hmaps) /io_list Hslot. done. Qed.

Lemma entry_told : interest (calls w) (Z.of_nat i) = Z.lor (io_old ctx) (sig_want (base w) i).
Proof. by rewrite (mo_told _ _ Hmaps) /io_want Hslot. Qed.

Lemma entry_counts :
  0 <= nread ctx <= 0xffff ∧ 0 <= nwrite ctx <= 0xffff.
Proof. destruct entry_ok as [_ -> -> ?]. pose proof (wanting_nonneg w EV_READ (io_events ctx)). pose proof (wanting_nonneg w EV_WRITE (io_events ctx)). lia. Qed.

(** The entry with one event more. *)
Definition added : evmap_io :=
  EvmapIo (io_events ctx ++ [e]) (nread ctx + (if rd then 1 else 0)) (nwrite ctx + (if wr then 1 else 0)).

Lemma added_ok : e ∉ ins -> nread added <= 0xffff -> nwrite added <= 0xffff -> io_ok w added.
Proof.
  intros Hout Hr Hw. destruct entry_ok as [Hn Hnr Hnw _]. split; [| | |done].
  - cbn. apply NoDup_app. split_and!; [done| |apply NoDup_singleton]. intros x Hx ->%list_elem_of_singleton.
    by apply entry_list in Hx as [? _].
  - cbn. by rewrite wanting_snoc (wants_event _ _ v) // -Hnr.
  - cbn. by rewrite wanting_snoc (wants_event _ _ v) // -Hnw.
Qed.

(** What has to be added at the backend. *)
Definition to_add : Z :=
  Z.lor (if rd && (nread ctx + 1 =? 1) then EV_READ else 0) (if wr && (nwrite ctx + 1 =? 1) then EV_WRITE else 0).

Lemma to_add_old : Z.lor (io_old ctx) (Z.land to_add EV_ANY) = io_old added.
Proof.
  destruct entry_counts. rewrite /io_old /to_add /added. cbn [nread nwrite].
  replace (nread ctx + 1 =? 1) with (nread ctx =? 0) by (apply eq_true_iff_eq; rewrite !Z.eqb_eq; lia).
  replace (nwrite ctx + 1 =? 1) with (nwrite ctx =? 0) by (apply eq_true_iff_eq; rewrite !Z.eqb_eq; lia).
  destruct rd, wr; destruct (Z.eqb_spec (nread ctx) 0) as [Hr|Hr], (Z.eqb_spec (nwrite ctx) 0) as [Hw|Hw];
    rewrite ?Z.add_0_r ?Hr ?Hw //=; rewrite ?(proj2 (Z.eqb_neq _ _)) //; lia.
Qed.

(** The maps with the new entry, once the backend has been told. *)
Lemma maps_ok_added w' :
  e ∉ ins -> nread added <= 0xffff -> nwrite added <= 0xffff -> mapped w w' ->
  io (base w') = <[i := Some added]> (io (base w)) -> sigmap (base w') = sigmap (base w) ->
  (to_add = 0 ∧ calls w' = calls w ∨
   ∃ old, calls w' = calls w ++ [BackendAdd (ev_fd v) old (Z.lor (Z.land (ev_events v) EV_ET) to_add) true]) ->
  maps_ok w' (ins ++ [e]).
Proof.
  intros Hout Hr Hw Hm Hio Hsig Hcalls. apply (maps_ok_io w w' ins _ i added); try done.
  - intros x. by apply mapped_waits.
  - intros j. rewrite Hio. apply slot_of_insert. by eapply slot_of_lt.
  - by apply added_ok.
  - intros x. cbn. rewrite !elem_of_app entry_list list_elem_of_singleton. pose proof entry_waits.
    split; [intros [[? ?]| ->]; by auto|intros [[?| ->] ?]; by auto].
  - intros x Hx. rewrite elem_of_app list_elem_of_singleton. split; [|by left]. intros [?| ->]; [done|]. by destruct Hx; apply entry_waits.
  - intros j. destruct Hcalls as [[H0 ->]|[old ->]].
    + case_decide as Hj; [|done]. subst j. rewrite entry_told -to_add_old H0. by rewrite Z.lor_0_r.
    + rewrite interest_app /told Hfd. case_decide as Hj.
      * subst j. rewrite Z.eqb_refl entry_told -to_add_old. apply told_add.
      * rewrite (proj2 (Z.eqb_neq _ _)) //. lia.
Qed.

(** The code behind the lookup of the entry. *)
Lemma lruns_io_enter (Q : Z -> world -> Prop) :
  e ∉ ins ->
  (∀ w', mapped w w' -> maps_ok w' ins -> Q (-1) w') ->
  (∀ r w', r = 0 ∨ r = 1 -> mapped w w' -> maps_ok w' (ins ++ [e]) -> Q r w') ->
  let nr := if rd then nread ctx + 1 else nread ctx in
  let nw := if wr then nwrite ctx + 1 else nwrite ctx in
  let res := Z.lor (if rd && (nr =? 1) then EV_READ else 0) (if wr && (nw =? 1) then EV_WRITE else 0) in
  lruns (if (0xffff <? nr) || (0xffff <? nw) then mret (-1)
         else
           ok ← (if negb (res =? 0) then evsel_add (ev_fd v) (io_old ctx) (Z.lor (Z.land (ev_events v) EV_ET) res) else mret true);
           if negb ok then mret (-1)
           else
             _ ← mod_base (set_io (<[i := Some (EvmapIo (io_events ctx ++ [e]) (u16 nr) (u16 nw))]> (io (base w))));
             mret (if negb (res =? 0) then 1 else 0)) w Q.
Proof.
  intros Hout Hbad Hgood nr nw res. destruct entry_counts as [Hnr Hnw].
  assert (Enr : nr = nread added) by (rewrite /nr /added /=; destruct rd; lia).
  assert (Enw : nw = nwrite added) by (rewrite /nw /added /=; destruct wr; lia).
  assert (Eres : res = to_add) by (rewrite /res /nr /nw /to_add; destruct rd, wr; done). clearbody nr nw res.
  subst res. assert (Hmm : mapped w w) by (split; by destruct w as [? []]).
  destruct (Z.ltb_spec 0xffff nr) as [Hb|Hr]; [apply lruns_ret; by apply Hbad|].
  destruct (Z.ltb_spec 0xffff nw) as [Hb|Hw]; [apply lruns_ret; by apply Hbad|]. cbn [orb].
  assert (0 <= nr ∧ 0 <= nw) by (rewrite Enr Enw /=; destruct rd, wr; lia). rewrite !u16_small; [|lia..]. rewrite Enr Enw in Hr, Hw |- *.
  rewrite -[EvmapIo _ _ _]/added. apply lruns_bind. destruct (Z.eqb_spec to_add 0) as [H0|H0]; cbn [negb].
  - apply lruns_ret. cbn [negb]. apply lruns_bind, lruns_mod_base, lruns_ret, Hgood; [by left|split; by destruct w as [? []]|].
    apply maps_ok_added; try done; first [by left|split; by destruct w as [? []]].
  - apply lruns_evsel_add. intros ok n log ->. destruct ok; cbn [negb].
    + apply lruns_bind, lruns_mod_base, lruns_ret, Hgood; [by right|split; by destruct w as [? []]|].
      apply maps_ok_added; try done; first [right; by eexists|split; by destruct w as [? []]].
    + apply lruns_ret, Hbad; [split; by destruct w as [? []]|]. apply (maps_ok_frame w _ ins); try done.
      intros j. cbn [calls set_calls]. by rewrite interest_app.
Qed.

End io_entry.

(** ** Deleting from the io map *)

Lemma without_lor x y f : without (Z.lor x y) f = Z.lor (without x f) (without y f).
Proof. apply Z.land_lor_distr_l. Qed.

Lemma sig_want_cases b i : sig_want b i = 0 ∨ sig_want b i = EV_SIGNAL.
Proof. rewrite /sig_want. destruct (sig_list b i); auto. Qed.

Section io_leave.
Context (w : world) (ins ins' : list eid) (e : eid) (v : event) (ctx : evmap_io) (i : nat).
Context (Hmaps : maps_ok w ins) (Hv : events w !! e = Some v) (Hfd : ev_fd v = Z.of_nat i).
Context (Hrw : on (ev_events v) EV_RW = true) (Hslot : slot_of (io (base w)) i = Some ctx).
Context (Hins : ins ≡ₚ e :: ins') (Hnd : NoDup ins).

Let rd := on (ev_events v) EV_READ.
Let wr := on (ev_events v) EV_WRITE.

Definition removed (l : list eid) : evmap_io :=
  EvmapIo l (nread ctx - (if rd then 1 else 0)) (nwrite ctx - (if wr then 1 else 0)).

Definition to_del : Z :=
  Z.lor (if rd && (nread ctx - 1 =? 0) then EV_READ else 0) (if wr && (nwrite ctx - 1 =? 0) then EV_WRITE else 0).

Lemma leave_in : e ∈ io_events ctx.
Proof.
  apply (entry_list w ins ctx i Hmaps Hslot). split; [rewrite Hins; by left|]. by apply (entry_waits w e v).
Qed.

Lemma removed_ok l : io_events ctx ≡ₚ e :: l -> io_ok w (removed l).
Proof.
  intros Hp. destruct (entry_ok w ins ctx i Hmaps Hslot) as [Hn Hnr Hnw Hmax]. split; cbn.
  - rewrite Hp in Hn. by apply NoDup_cons in Hn as [_ ?].
  - rewrite Hnr (wanting_perm w _ _ _ Hp) wanting_cons (wants_event _ _ v) // -/rd. lia.
  - rewrite Hnw (wanting_perm w _ _ _ Hp) wanting_cons (wants_event _ _ v) // -/wr. lia.
  - destruct rd, wr; lia.
Qed.

Lemma to_del_old l : io_events ctx ≡ₚ e :: l ->
  without (Z.lor (io_old ctx) (sig_want (base w) i)) to_del = Z.lor (io_old (removed l)) (sig_want (base w) i).
Proof.
  intros Hp. destruct (removed_ok l Hp) as [_ Hr Hw _]. cbn in Hr, Hw.
  pose proof (wanting_nonneg w EV_READ l). pose proof (wanting_nonneg w EV_WRITE l).
  destruct (entry_counts w ins ctx i Hmaps Hslot). rewrite /io_old /to_del /removed. cbn [nread nwrite].
  destruct (sig_want_cases (base w) i) as [-> | ->]; destruct rd, wr; cbn [andb]; rewrite ?Z.sub_0_r;
    repeat (match goal with |- context [?x =? 0] => destruct (Z.eqb_spec x 0) end); try reflexivity; exfalso; lia.
Qed.

Lemma maps_ok_removed w' l :
  io_events ctx ≡ₚ e :: l -> mapped w w' ->
  io (base w') = <[i := Some (removed l)]> (io (base w)) -> sigmap (base w') = sigmap (base w) ->
  (to_del = 0 ∧ calls w' = calls w ∨ ∃ old, calls w' = calls w ++ [BackendDel (ev_fd v) old to_del true]) ->
  maps_ok w' ins'.
Proof.
  intros Hp Hm Hio Hsig Hcalls. destruct (proj1 (NoDup_cons e ins')) as [Hout Hnd']; [by rewrite -Hins|].
  pose proof (entry_waits w e v i Hv Hfd Hrw) as Hwe. apply (maps_ok_io w w' ins _ i (removed l)); try done.
  - intros x. by apply mapped_waits.
  - intros j. rewrite Hio. apply slot_of_insert. by eapply slot_of_lt.
  - by apply removed_ok.
  - intros x. cbn. pose proof (entry_list w ins ctx i Hmaps Hslot x) as Hx. rewrite Hp Hins !elem_of_cons in Hx.
    destruct (entry_ok w ins ctx i Hmaps Hslot) as [Hn _ _ _]. rewrite Hp in Hn. apply NoDup_cons in Hn as [Hel _].
    split; [intros Hxl|intros [Hxi Hxw]].
    + destruct Hx as [Hx _]. destruct (Hx (or_intror Hxl)) as [[->|?] ?]; [done|done].
    + destruct Hx as [_ Hx]. destruct (Hx (conj (or_intror Hxi) Hxw)) as [->|?]; [done|done].
  - intros x Hx. rewrite Hins elem_of_cons. split; [by right|]. intros [->|?]; [done|done].
  - intros j. destruct Hcalls as [[H0 ->]|[old ->]].
    + case_decide as Hj; [|done]. subst j. rewrite (entry_told w ins ctx i Hmaps Hslot) -(to_del_old l Hp) H0.
      by rewrite /without Z.land_m1_r.
    + rewrite interest_app /told Hfd. case_decide as Hj.
      * subst j. rewrite Z.eqb_refl (entry_told w ins ctx i Hmaps Hslot). by apply to_del_old.
      * rewrite (proj2 (Z.eqb_neq _ _)) //. lia.
Qed.

Lemma lruns_io_leave (Q : Z -> world -> Prop) :
  (∀ n, backend_del (sys w) n = true) ->
  (∀ r w', r = 0 ∨ r = 1 -> mapped w w' -> maps_ok w' ins' -> Q r w') ->
  let nr := if rd then nread ctx - 1 else nread ctx in
  let nw := if wr then nwrite ctx - 1 else nwrite ctx in
  let res := Z.lor (if rd && (nr =? 0) then EV_READ else 0) (if wr && (nw =? 0) then EV_WRITE else 0) in
  lruns (_ ← ev_assert (negb rd || (0 <=? nr));
         _ ← ev_assert (negb wr || (0 <=? nw));
         ok ← (if negb (res =? 0) then evsel_del (ev_fd v) (io_old ctx) res else mret true);
         if negb ok then mret (-1)
         else
           l ← tailq_remove e (io_events ctx);
           _ ← mod_base (set_io (<[i := Some (EvmapIo l (u16 nr) (u16 nw))]> (io (base w))));
           mret (if negb (res =? 0) then 1 else 0)) w Q.
Proof.
  intros Hdel HQ nr nw res. destruct (entry_counts w ins ctx i Hmaps Hslot) as [Hnr Hnw].
  destruct (unlink_perm e _ leave_in) as (l & Hu & Hp). destruct (removed_ok l Hp) as [_ Hr Hw Hmax].
  pose proof (wanting_nonneg w EV_READ l). pose proof (wanting_nonneg w EV_WRITE l).
  assert (Enr : nr = nread (removed l)) by (rewrite /nr /removed /=; destruct rd; lia).
  assert (Enw : nw = nwrite (removed l)) by (rewrite /nw /removed /=; destruct wr; lia).
  assert (Eres : res = to_del) by (rewrite /res /nr /nw /to_del; destruct rd, wr; done). clearbody nr nw res. subst res.
  cbn [removed io_events] in Hr, Hw. apply lruns_bind, lruns_assert; [rewrite orb_true_iff Z.leb_le; right; lia|].
  apply lruns_bind, lruns_assert; [rewrite orb_true_iff Z.leb_le; right; lia|].
  rewrite !u16_small; [|lia..]. rewrite Enr Enw.
  apply lruns_bind. destruct (Z.eqb_spec to_del 0) as [Hz|Hz]; cbn [negb].
  - apply lruns_ret. cbn [negb]. rewrite /tailq_remove Hu. apply lruns_bind, lruns_ret, lruns_bind, lruns_mod_base, lruns_ret, HQ;
      [by left|split; by destruct w as [? []]|].
    apply (maps_ok_removed _ l Hp); try done; first [by left|split; by destruct w as [? []]].
  - apply lruns_evsel_del; [done|]. intros n log ->. cbn [negb]. rewrite /tailq_remove Hu.
    apply lruns_bind, lruns_ret, lruns_bind, lruns_mod_base, lruns_ret, HQ; [by right|split; by destruct w as [? []]|].
    apply (maps_ok_removed _ l Hp); try done; first [right; by eexists|split; by destruct w as [? []]].
Qed.

End io_leave.

(** The entry is ready, and made if it was not there. *)
Lemma maps_ok_ctor w ins entries i ctx o :
  maps_ok w ins -> ctx = default evmap_io_init (slot_of (io (base w)) i) ->
  (∀ j, slot_of entries j = if decide (j = i) then Some ctx else slot_of (io (base w)) j) ->
  maps_ok (set_event_base (set_io entries (base w)) (set_oom o w)) ins.
Proof.
  intros Hmaps Hctx Hs. destruct (slot_of (io (base w)) i) as [c|] eqn:Hi; cbn in Hctx; subst ctx.
  - apply (maps_ok_frame w _ ins ins); try done. intros j. cbn. rewrite Hs. by case_decide; subst.
  - apply (maps_ok_io w _ ins ins i evmap_io_init); try done.
    + split; cbn; [constructor|done|done|done].
    + intros e. rewrite -(mo_io_in _ _ Hmaps) /io_list Hi. done.
    + intros j. case_decide; [|done]. subst. cbn [calls set_event_base set_oom]. by rewrite (mo_told _ _ Hmaps) /io_want Hi.
Qed.

Lemma maps_ok_set_io w ins entries o :
  maps_ok w ins -> (∀ j, slot_of entries j = slot_of (io (base w)) j) ->
  maps_ok (set_event_base (set_io entries (base w)) (set_oom o w)) ins.
Proof. intros Hm Hs. by apply (maps_ok_frame w _ ins ins). Qed.

Lemma mapped_io w entries o : mapped w (set_event_base (set_io entries (base w)) (set_oom o w)).
Proof. split; by destruct w as [? []]. Qed.

Lemma maps_ok_oom w ins o : maps_ok w ins -> maps_ok (set_oom o w) ins ∧ mapped w (set_oom o w).
Proof. intros Hm. split; [by apply (maps_ok_frame w _ ins ins)|]. split; by destruct w as [? []]. Qed.

Lemma lruns_io_add w ins e v (Q : Z -> world -> Prop) :
  maps_ok w ins -> events w !! e = Some v -> on (ev_events v) EV_RW = true -> e ∉ ins -> ev_fd v < 2 ^ 30 ->
  (∀ w', mapped w w' -> maps_ok w' ins -> Q (-1) w') ->
  (∀ r w', r = 0 ∨ r = 1 -> mapped w w' -> maps_ok w' (ins ++ [e]) -> Q r w') ->
  lruns (evmap_io_add (ev_fd v) e) w Q.
Proof.
  intros Hmaps Hv Hrw Hout Hmax Hbad Hgood. rewrite /evmap_io_add. apply lruns_bind, (lruns_get_event _ v); [done|].
  rewrite Z.eqb_refl. apply lruns_bind, lruns_ret. destruct (Z.ltb_spec (ev_fd v) 0) as [Hneg|Hpos].
  { apply lruns_ret, Hgood; [by left|split; by destruct w as [? []]|]. apply (maps_ok_frame w _ ins); try done.
    intros x i Hx. rewrite elem_of_app list_elem_of_singleton. split; [|by left]. intros [?| ->]; [done|]. exfalso.
    destruct Hx as [(what & Hx & _)|(what & Hx & _)]; rewrite /waits Hv in Hx; injection Hx; lia. }
  apply lruns_bind, lruns_get_base, lruns_bind, lruns_make_space; [lia| |].
  2: { intros o. apply lruns_ret. destruct (maps_ok_oom w ins o Hmaps). by apply Hbad. }
  intros entries o Hlen Hsame. cbn [Z.eqb]. apply lruns_bind, lruns_mod_base, lruns_bind. cbn [base set_oom set_event_base].
  apply lruns_slot_ctor; [done|done| |].
  2: { intros o'. apply lruns_ret, Hbad; [apply (mapped_io w entries o')|by apply (maps_ok_set_io w _ entries o')]. }
  intros entries' ctx o' Hctx Hlen' Hs. apply lruns_bind, lruns_mod_base. cbn [base set_oom set_event_base].
  set (w1 := set_event_base (set_io entries' (base w)) (set_oom o' w)).
  assert (Hm1 : maps_ok w1 ins).
  { apply (maps_ok_ctor w ins entries' (Z.to_nat (ev_fd v)) ctx o' Hmaps); [by rewrite -Hsame|].
    intros j. rewrite Hs. case_decide; [done|apply Hsame]. }
  apply (lruns_io_enter w1 ins e v ctx (Z.to_nat (ev_fd v))); try done; [lia|cbn; rewrite Hs; by case_decide| |].
  - intros w' Hm' Hok'. apply Hbad; [|done]. eapply mapped_trans; [apply (mapped_io w entries' o')|done].
  - intros r w' Hr Hm' Hok'. apply Hgood; [done| |done]. eapply mapped_trans; [apply (mapped_io w entries' o')|done].
Qed.

Lemma lruns_io_del w ins ins' e v (Q : Z -> world -> Prop) :
  maps_ok w ins -> events w !! e = Some v -> on (ev_events v) EV_RW = true -> ins ≡ₚ e :: ins' -> NoDup ins ->
  (∀ n, backend_del (sys w) n = true) ->
  (∀ r w', r = 0 ∨ r = 1 -> mapped w w' -> maps_ok w' ins' -> Q r w') ->
  lruns (evmap_io_del (ev_fd v) e) w Q.
Proof.
  intros Hmaps Hv Hrw Hins Hnd Hdel HQ. rewrite /evmap_io_del. destruct (Z.ltb_spec (ev_fd v) 0) as [Hneg|Hpos].
  { apply lruns_ret, HQ; [by left|split; by destruct w as [? []]|]. apply (maps_ok_frame w _ ins); try done.
    intros x i Hx. rewrite Hins elem_of_cons. split; [by right|]. intros [->|?]; [|done]. exfalso.
    destruct Hx as [(what & Hx & _)|(what & Hx & _)]; rewrite /waits Hv in Hx; injection Hx; lia. }
  apply lruns_bind, (lruns_get_event _ v); [done|]. rewrite Z.eqb_refl. apply lruns_bind, lruns_ret, lruns_bind, lruns_get_base.
  set (i := Z.to_nat (ev_fd v)). assert (Hfd : ev_fd v = Z.of_nat i) by (rewrite /i; lia).
  assert (Hin : e ∈ io_list (base w) i).
  { apply (mo_io_in _ _ Hmaps). split; [rewrite Hins; by left|]. by apply (entry_waits w e v). }
  rewrite /io_list in Hin. destruct (slot_of (io (base w)) i) as [ctx|] eqn:Hs; [|by apply not_elem_of_nil in Hin].
  pose proof (slot_of_lt _ _ _ Hs) as Hlt. rewrite (proj2 (Z.leb_gt _ _)); [|lia].
  apply lruns_bind, lruns_get_slot; [lia|done|]. rewrite -/i Hs. by apply (lruns_io_leave w ins ins' e v ctx i).
Qed.

(** ** Signals *)

Lemma maps_ok_sig w w' ins ins' i l :
  maps_ok w ins -> (∀ e, waits w' e = waits w e) -> io (base w') = io (base w) ->
  (∀ j, slot_of (sigmap (base w')) j = if decide (j = i) then Some (EvmapSignal l) else slot_of (sigmap (base w)) j) ->
  NoDup l -> (∀ e, e ∈ l <-> e ∈ ins' ∧ waits_sig w i e) -> (∀ e, ~ waits_sig w i e -> e ∈ ins' <-> e ∈ ins) ->
  (∀ j, interest (calls w') (Z.of_nat j) =
     if decide (j = i) then Z.lor (io_want (base w) i) (if l is [] then 0 else EV_SIGNAL) else interest (calls w) (Z.of_nat j)) ->
  maps_ok w' ins'.
Proof.
  intros [] Hw Hio Hsig Hnd Hl Hout Htold. destruct (waits_frame w w' Hw) as [Hwi Hws].
  assert (Hsl : ∀ j, sig_list (base w') j = if decide (j = i) then l else sig_list (base w) j).
  { intros j. rewrite /sig_list Hsig. by case_decide. }
  split.
  - intros j c Hj. rewrite Hio in Hj. eapply io_ok_frame; [done|eauto].
  - intros j. rewrite Hsl. by case_decide.
  - intros j e. rewrite /io_list Hio Hwi -/(io_list (base w) j) mo_io_in0.
    split; intros [Hin Hj']; (split; [|done]); apply Hout; try done;
      intros (what & Hc & Hoff & _); destruct Hj' as (what' & Hc' & Hon); assert (what = what') as -> by congruence;
      by rewrite Hon in Hoff.
  - intros j e. rewrite Hsl Hws. case_decide as Hj; [subst; apply Hl|]. rewrite mo_sig_in0.
    split; intros [Hin Hj']; (split; [|done]); apply Hout; try done;
      intros (what & Hc & _); destruct Hj' as (what' & Hc' & _); rewrite Hc in Hc'; injection Hc'; lia.
  - intros j. rewrite Htold /io_want /sig_want Hsl Hio. case_decide as Hj; [by subst|]. apply mo_told0.
Qed.

Lemma maps_ok_set_sigmap w ins entries i ctx o :
  maps_ok w ins -> ctx = default evmap_signal_init (slot_of (sigmap (base w)) i) ->
  (∀ j, slot_of entries j = if decide (j = i) then Some ctx else slot_of (sigmap (base w)) j) ->
  maps_ok (set_event_base (set_sigmap entries (base w)) (set_oom o w)) ins.
Proof.
  intros Hmaps Hctx Hs. destruct (slot_of (sigmap (base w)) i) as [c|] eqn:Hi; cbn in Hctx; subst ctx.
  - apply (maps_ok_frame w _ ins ins); try done. intros j. cbn. rewrite Hs. by case_decide; subst.
  - apply (maps_ok_sig w _ ins ins i []); try done; [constructor| |].
    + intros e. rewrite -(mo_sig_in _ _ Hmaps) /sig_list Hi. done.
    + intros j. case_decide; [|done]. subst. cbn [calls set_event_base set_oom].
      by rewrite (mo_told _ _ Hmaps) /sig_want /sig_list Hi.
Qed.

Lemma mapped_sigmap w entries o : mapped w (set_event_base (set_sigmap entries (base w)) (set_oom o w)).
Proof. split; by destruct w as [? []]. Qed.

Section signal_entry.
Context (w : world) (ins : list eid) (e : eid) (v : event) (l : list eid) (i : nat).
Context (Hmaps : maps_ok w ins) (Hv : events w !! e = Some v) (Hfd : ev_fd v = Z.of_nat i).
Context (Hrw : on (ev_events v) EV_RW = false) (Hsg : on (ev_events v) EV_SIGNAL = true).
Context (Hslot : slot_of (sigmap (base w)) i = Some (EvmapSignal l)).

Lemma signal_waits : waits_sig w i e.
Proof. exists (ev_events v). by rewrite /waits Hv /= Hfd. Qed.

Lemma signal_list x : x ∈ l <-> x ∈ ins ∧ waits_sig w i x.
Proof. rewrite -(mo_sig_in _ _ Hmaps) /sig_list Hslot. done. Qed.

Lemma signal_nodup : NoDup l.
Proof. pose proof (mo_sig _ _ Hmaps i) as Hn. by rewrite /sig_list Hslot in Hn. Qed.

Lemma signal_told : interest (calls w) (Z.of_nat i) = Z.lor (io_want (base w) i) (if l is [] then 0 else EV_SIGNAL).
Proof. by rewrite (mo_told _ _ Hmaps) /sig_want /sig_list Hslot. Qed.

Lemma io_want_cases : ∃ x, io_want (base w) i = x ∧ In x [0; EV_READ; EV_WRITE; EV_RW].
Proof.
  rewrite /io_want. destruct (slot_of (io (base w)) i) as [ctx|]; cbn; [|by eauto].
  destruct (io_old_cases ctx) as [->|[->|[->| ->]]]; eexists; (split; [done|]); cbn; tauto.
Qed.

Lemma lruns_signal_enter (Q : Z -> world -> Prop) :
  e ∉ ins ->
  (∀ w', mapped w w' -> maps_ok w' ins -> Q (-1) w') ->
  (∀ w', mapped w w' -> maps_ok w' (ins ++ [e]) -> Q 1 w') ->
  lruns (ok ← (match l with [] => evsel_add (ev_fd v) 0 EV_SIGNAL | _ => mret true end);
         if negb ok then mret (-1)
         else
           _ ← mod_base (set_sigmap (<[i := Some (EvmapSignal (l ++ [e]))]> (sigmap (base w))));
           mret 1) w Q.
Proof.
  intros Hout Hbad Hgood.
  assert (Hset : ∀ w', mapped w w' -> io (base w') = io (base w) ->
    sigmap (base w') = <[i := Some (EvmapSignal (l ++ [e]))]> (sigmap (base w)) ->
    (l ≠ [] ∧ calls w' = calls w ∨ calls w' = calls w ++ [BackendAdd (ev_fd v) 0 EV_SIGNAL true]) -> maps_ok w' (ins ++ [e])).
  { intros w' Hm Hio Hsig Hc. pose proof signal_waits as Hwe. apply (maps_ok_sig w w' ins _ i (l ++ [e])); try done.
    - intros x. by apply mapped_waits.
    - intros j. rewrite Hsig. apply slot_of_insert. by eapply slot_of_lt.
    - apply NoDup_app. split_and!; [apply signal_nodup| |apply NoDup_singleton]. intros x Hx ->%list_elem_of_singleton.
      by apply signal_list in Hx as [? _].
    - intros x. rewrite !elem_of_app signal_list list_elem_of_singleton.
      split; [intros [[? ?]| ->]; by auto|intros [[?| ->] ?]; by auto].
    - intros x Hx. rewrite elem_of_app list_elem_of_singleton. split; [|by left]. intros [?| ->]; [done|]. by destruct Hx.
    - intros j. destruct Hc as [[Hl ->]| ->].
      + case_decide as Hj; [|done]. subst j. rewrite signal_told. by destruct l.
      + rewrite interest_app /told Hfd. case_decide as Hj; [|rewrite (proj2 (Z.eqb_neq _ _)) //; lia].
        subst j. rewrite Z.eqb_refl signal_told. destruct io_want_cases as (x & -> & Hx).
        cbn in Hx. destruct l as [|? ?]; intuition; by subst. }
  apply lruns_bind. destruct l as [|x l'] eqn:El.
  - apply lruns_evsel_add. intros ok n log ->. destruct ok; cbn [negb].
    + apply lruns_bind, lruns_mod_base, lruns_ret, Hgood; [split; by destruct w as [? []]|].
      apply Hset; [split; by destruct w as [? []]|done|done|by right].
    + apply lruns_ret, Hbad; [split; by destruct w as [? []]|]. apply (maps_ok_frame w _ ins); try done.
      intros j. cbn [calls set_calls]. by rewrite interest_app.
  - apply lruns_ret. cbn [negb]. apply lruns_bind, lruns_mod_base, lruns_ret, Hgood; [split; by destruct w as [? []]|].
    apply Hset; [split; by destruct w as [? []]|done|done|by left].
Qed.

Lemma lruns_signal_leave ins' (Q : Z -> world -> Prop) :
  ins ≡ₚ e :: ins' -> NoDup ins -> (∀ n, backend_del (sys w) n = true) ->
  (∀ w', mapped w w' -> maps_ok w' ins' -> Q 1 w') ->
  lruns (ok ← (match l with _ :: _ :: _ => mret true | _ => evsel_del (ev_fd v) 0 EV_SIGNAL end);
         if negb ok then mret (-1)
         else
           l' ← tailq_remove e l;
           _ ← mod_base (set_sigmap (<[i := Some (EvmapSignal l')]> (sigmap (base w))));
           mret 1) w Q.
Proof.
  intros Hins Hnd Hdel HQ. pose proof signal_waits as Hwe. destruct (proj1 (NoDup_cons e ins')) as [Hout _]; [by rewrite -Hins|].
  destruct (unlink_perm e l) as (l' & Hu & Hp); [apply signal_list; split; [rewrite Hins; by left|done]|].
  assert (Hset : ∀ w', mapped w w' -> io (base w') = io (base w) ->
    sigmap (base w') = <[i := Some (EvmapSignal l')]> (sigmap (base w)) ->
    (l' ≠ [] ∧ calls w' = calls w ∨ l' = [] ∧ calls w' = calls w ++ [BackendDel (ev_fd v) 0 EV_SIGNAL true]) -> maps_ok w' ins').
  { intros w' Hm Hio Hsig Hc. pose proof signal_nodup as Hn. rewrite Hp in Hn. apply NoDup_cons in Hn as [Hel Hn].
    apply (maps_ok_sig w w' ins _ i l'); try done.
    - intros x. by apply mapped_waits.
    - intros j. rewrite Hsig. apply slot_of_insert. by eapply slot_of_lt.
    - intros x. pose proof (signal_list x) as Hx. rewrite Hp Hins !elem_of_cons in Hx. split; [intros Hxl|intros [Hxi Hxw]].
      + destruct Hx as [Hx _]. destruct (Hx (or_intror Hxl)) as [[->|?] ?]; [done|done].
      + destruct Hx as [_ Hx]. destruct (Hx (conj (or_intror Hxi) Hxw)) as [->|?]; [done|done].
    - intros x Hx. rewrite Hins elem_of_cons. split; [by right|]. intros [->|?]; [done|done].
    - intros j. destruct Hc as [[Hl ->]|[-> ->]].
      + case_decide as Hj; [|done]. subst j. rewrite signal_told. destruct l; [by apply Permutation_nil_cons in Hp|]. by destruct l'.
      + rewrite interest_app /told Hfd. case_decide as Hj; [|rewrite (proj2 (Z.eqb_neq _ _)) //; lia].
        subst j. rewrite Z.eqb_refl signal_told. destruct io_want_cases as (x & -> & Hx).
        cbn in Hx. destruct l as [|? ?]; intuition; by subst. }
  pose proof (Permutation_length Hp) as Hlen. rewrite /tailq_remove Hu. apply lruns_bind.
  destruct l as [|x [|y l0]] eqn:El; cbn in Hlen.
  - lia.
  - apply lruns_evsel_del; [done|]. intros n log ->. cbn [negb].
    apply lruns_bind, lruns_ret, lruns_bind, lruns_mod_base, lruns_ret, HQ; [split; by destruct w as [? []]|].
    apply Hset; [split; by destruct w as [? []]|done|done|right]. split; [|done]. destruct l'; [done|cbn in Hlen; lia].
  - apply lruns_ret. cbn [negb]. apply lruns_bind, lruns_ret, lruns_bind, lruns_mod_base, lruns_ret, HQ; [split; by destruct w as [? []]|].
    apply Hset; [split; by destruct w as [? []]|done|done|left]. split; [|done]. destruct l'; [cbn in Hlen; lia|done].
Qed.

End signal_entry.

Lemma lruns_signal_add w ins e v (Q : Z -> world -> Prop) :
  maps_ok w ins -> events w !! e = Some v -> on (ev_events v) EV_RW = false -> on (ev_events v) EV_SIGNAL = true -> e ∉ ins ->
  0 <= ev_fd v < 2 ^ 30 ->
  (∀ w', mapped w w' -> maps_ok w' ins -> Q (-1) w') ->
  (∀ w', mapped w w' -> maps_ok w' (ins ++ [e]) -> Q 1 w') ->
  lruns (evmap_signal_add (ev_fd v) e) w Q.
Proof.
  intros Hmaps Hv Hrw Hsg Hout Hmax Hbad Hgood. rewrite /evmap_signal_add. apply lruns_bind, (lruns_get_event _ v); [done|].
  apply lruns_bind, lruns_get_base, lruns_bind. set (i := Z.to_nat (ev_fd v)).
  assert (Hnext : ∀ entries o, (i < length entries)%nat -> (∀ j, slot_of entries j = slot_of (sigmap (base w)) j) ->
    lruns (if 0 =? -1 then mret (-1) else
      _ ← mod_base (set_sigmap entries);
      '(x, entries) ← get_slot_and_ctor entries (ev_fd v) evmap_signal_init;
      match x with
      | None => mret (-1)
      | Some ctx =>
          _ ← mod_base (set_sigmap entries);
          ok ← (match sig_events ctx with [] => evsel_add (ev_fd v) 0 EV_SIGNAL | _ => mret true end);
          if negb ok then mret (-1)
          else
            _ ← mod_base (set_sigmap (<[i := Some (EvmapSignal (sig_events ctx ++ [e]))]> entries));
            mret 1
      end) (set_oom o w) Q).
  { intros entries o Hlen Hsame. cbn [Z.eqb]. apply lruns_bind, lruns_mod_base, lruns_bind, lruns_slot_ctor; [lia|done| |].
    2: { intros o'. apply lruns_ret, Hbad; [apply (mapped_sigmap w entries o')|]. by apply (maps_ok_frame w _ ins ins). }
    intros entries' ctx o' Hctx Hlen' Hs. rewrite -/i in Hctx, Hs. apply lruns_bind, lruns_mod_base. cbn [base set_oom set_event_base].
    set (w1 := set_event_base (set_sigmap entries' (base w)) (set_oom o' w)). destruct ctx as [l].
    assert (Hm1 : maps_ok w1 ins).
    { apply (maps_ok_set_sigmap w ins entries' i (EvmapSignal l) o' Hmaps); [by rewrite -Hsame|].
      intros j. rewrite Hs. case_decide; [done|apply Hsame]. }
    apply (lruns_signal_enter w1 ins e v l i); try done; [lia|cbn; rewrite Hs; by case_decide| |].
    - intros w' Hm' Hok'. apply Hbad; [|done]. eapply mapped_trans; [apply (mapped_sigmap w entries' o')|done].
    - intros w' Hm' Hok'. apply Hgood; [|done]. eapply mapped_trans; [apply (mapped_sigmap w entries' o')|done]. }
  destruct (Z.leb_spec (Z.of_nat (length (sigmap (base w)))) (ev_fd v)) as [Hle|Hgt].
  - apply lruns_make_space; [done|intros entries o Hl Hs; exact (Hnext entries o Hl Hs)|]. intros o. apply lruns_ret. destruct (maps_ok_oom w ins o Hmaps). by apply Hbad.
  - apply lruns_ret. assert (Hw : w = set_oom (heap_oom w) w) by by destruct w. 
    pose proof (Hnext (sigmap (base w)) (heap_oom w) ltac:(lia) ltac:(done)) as Hrun. rewrite -Hw in Hrun. exact Hrun.
Qed.

Lemma lruns_signal_del w ins ins' e v (Q : Z -> world -> Prop) :
  maps_ok w ins -> events w !! e = Some v -> on (ev_events v) EV_RW = false -> on (ev_events v) EV_SIGNAL = true ->
  0 <= ev_fd v -> ins ≡ₚ e :: ins' -> NoDup ins -> (∀ n, backend_del (sys w) n = true) ->
  (∀ w', mapped w w' -> maps_ok w' ins' -> Q 1 w') ->
  lruns (evmap_signal_del (ev_fd v) e) w Q.
Proof.
  intros Hmaps Hv Hrw Hsg Hpos Hins Hnd Hdel HQ. rewrite /evmap_signal_del. apply lruns_bind, (lruns_get_event _ v); [done|].
  apply lruns_bind, lruns_get_base. set (i := Z.to_nat (ev_fd v)). assert (Hfd : ev_fd v = Z.of_nat i) by (rewrite /i; lia).
  assert (Hin : e ∈ sig_list (base w) i).
  { apply (mo_sig_in _ _ Hmaps). split; [rewrite Hins; by left|]. by apply (signal_waits w e v). }
  rewrite /sig_list in Hin. destruct (slot_of (sigmap (base w)) i) as [[l]|] eqn:Hs; [|by apply not_elem_of_nil in Hin].
  pose proof (slot_of_lt _ _ _ Hs) as Hlt. rewrite (proj2 (Z.leb_gt _ _)); [|lia].
  apply lruns_bind, lruns_get_slot; [lia|done|]. rewrite -/i Hs. by apply (lruns_signal_leave w ins e v l i Hmaps Hv Hfd Hrw Hsg Hs ins').
Qed.
