(* ===== verification/EvLoopOps.v ===== *)
(** * An event base: the operations on events

    The invariant of a base without common timeouts, and what adding, deleting
    and activating an event does to it. *)

From Stdlib Require Import ssreflect.
From S2P Require Import Prelude CTypes HProp CMem EvTime EvEvent EvHeap EvHeapSpec EvMap EvLoop EvLoopSpec EvMapSpec.
Set Warnings "-rewrite-rw".
Open Scope general_if_scope.
Open Scope Z_scope.

(** ** The invariant *)

(** The backend reports only what it was told to wait for, and a signal once. *)
Definition ready_ok (log : list call) (r : ready) : Prop :=
  match r with
  | ReadyIo fd _ => 0 <= fd ∧ on (interest log fd) EV_RW = true
  | ReadySignal sig ncalls => 0 <= sig ∧ on (interest log sig) EV_SIGNAL = true ∧ 0 <= ncalls <= 1
  end.

(** Clocks work, deleting at the backend succeeds, and what it reports is so. *)
Record sys_ok (s : system) : Prop := {
  so_del : ∀ n, backend_del s n = true;
  so_mono : ∀ n, ∃ sec nsec, clock_monotonic s n = Some (sec, nsec) ∧ 0 <= nsec < 1000000000;
  so_real : ∀ n, normal (clock_realtime s n);
  so_ready : ∀ n log l, backend_dispatch s n log = Some l -> Forall (ready_ok log) l }.

Record event_ok (v : event) : Prop := {
  eo_base : ev_base v = true;
  eo_io : on (ev_events v) EV_RW = true -> ev_fd v < 2 ^ 30;
  eo_sig : on (ev_events v) EV_SIGNAL = true -> on (ev_events v) EV_RW = false ∧ 0 <= ev_fd v < 2 ^ 30;
  eo_inserted : on (ev_flags v) EVLIST_INSERTED = true -> on (ev_events v) EV_ANY = true;
  eo_user : ∃ f, ev_callback v = CbUser f;
  eo_closure : (ev_closure v =? EV_CLOSURE_SIGNAL) = on (ev_events v) EV_SIGNAL;
  eo_ncalls : 0 <= ev_ncalls v <= 1;
  eo_pncalls : ev_pncalls v = None;
  eo_timeout : normal (ev_timeout v);
  eo_io_timeout : normal (ev_io_timeout v) }.

Record rest_ok (w : world) : Prop := {
  bo_events : ∀ e v, events w !! e = Some v -> event_ok v;
  bo_sys : sys_ok (sys w);
  bo_cache : normal (tv_cache (base w));
  bo_tv : normal (event_tv (base w));
  bo_deferred : ∀ d, d ∈ deferred_cb_list (defer_queue (base w)) -> is_Some (deferreds w !! d);
  bo_bound : Z.of_nat (size (events w)) < 2 ^ 31 - 1;
  bo_fresh : ∀ e v, events w !! e = Some v -> (e < next_eid w)%positive }.

Record base_ok (w : world) (xs : list eid) : Prop := {
  bo_queues : queues_ok w xs;
  bo_maps : maps_ok w (eventqueue (base w));
  bo_rest : rest_ok w }.

(** ** Changes that keep it *)

Lemma size_same {A} (m m' : gmap positive A) : (∀ x, is_Some (m !! x) <-> is_Some (m' !! x)) -> size m = size m'.
Proof. intros Hx. rewrite -!size_dom. f_equal. apply set_eq. intros x. by rewrite !elem_of_dom. Qed.

(** The same events in the same queues. *)
Record same_queue (in_heap : Prop) (v v' : event) : Prop := {
  sq_idx : min_heap_idx v' = min_heap_idx v;
  sq_flags : ev_flags v' = ev_flags v;
  sq_pri : ev_pri v' = ev_pri v;
  sq_timeout : in_heap -> ev_timeout v' = ev_timeout v }.

Lemma same_queue_refl P v : same_queue P v v.
Proof. done. Qed.

Record same_lists (b b' : event_base) : Prop := {
  sl_common : common_timeout_queues b' = common_timeout_queues b;
  sl_active : activequeues b' = activequeues b;
  sl_eventqueue : eventqueue b' = eventqueue b;
  sl_count : event_count b' = event_count b;
  sl_count_active : event_count_active b' = event_count_active b }.

Lemma queues_ok_frame w w' xs :
  queues_ok w xs -> same_lists (base w) (base w') ->
  (∀ x, option_Forall2 (same_queue False) (events w !! x) (events w' !! x)) ->
  is_heap w' (timeheap (base w')) xs -> queues_ok w' xs.
Proof.
  intros Hq [Hc Ha He Hn Hna] Hev Hh.
  assert (Hfl : ∀ q x, flagged w' q x <-> flagged w q x).
  { intros q x. rewrite /flagged. specialize (Hev x). inversion Hev as [v v' [_ Hfl _ _] Hl Hr|Hl Hr].
    - split; intros (u & [= <-] & Hon); eexists; (split; [done|]); congruence.
    - split; by intros (u & ? & _). }
  assert (Hql : ∀ q, qlist q (base w') xs = qlist q (base w) xs) by (intros []; cbn; congruence).
  split; rewrite ?Hc ?Ha ?He ?Hn ?Hna //; try apply Hq.
  - intros q. rewrite Hql. apply Hq.
  - intros q x. rewrite Hql Hfl. apply Hq.
  - intros x v' Hv'. specialize (Hev x). rewrite Hv' in Hev. inversion Hev as [v ? [_ Hf Hp _] Hl Hr|]; subst.
    destruct (qo_flags _ _ Hq x v) as [? ? ?]; [done|]. split; congruence.
  - intros i l x Hl Hx. destruct (qo_place _ _ Hq i l x Hl Hx) as (v & Hv & Hp). specialize (Hev x). rewrite Hv in Hev.
    inversion Hev as [? v' [_ _ Hp' _] Hl' Hr|]; subst. exists v'. split; [done|congruence].
Qed.

(** The same heap, and events in it with the same time. *)
Lemma same_queue_heap w w' s xs :
  is_heap w s xs -> (∀ x, option_Forall2 (same_queue (x ∈ xs)) (events w !! x) (events w' !! x)) -> is_heap w' s xs.
Proof.
  intros Hh Hev. apply (is_heap_frame w); [done|]. intros x v Hx Hv. specialize (Hev x). rewrite Hv in Hev.
  inversion Hev as [? v' [Hi _ _ Ht] Hl Hr|]; subst. exists v'. auto.
Qed.

Record same_base (b b' : event_base) : Prop := {
  sb_lists : same_lists b b';
  sb_heap : timeheap b' = timeheap b;
  sb_io : io b' = io b;
  sb_sig : sigmap b' = sigmap b;
  sb_cache : normal (tv_cache b) -> normal (tv_cache b');
  sb_tv : normal (event_tv b) -> normal (event_tv b');
  sb_defer : defer_queue b' = defer_queue b }.

Lemma same_base_refl b : same_base b b.
Proof. by split. Qed.

(** Nothing but what the queues and maps do not depend on has changed. *)
Lemma base_ok_frame w w' xs :
  base_ok w xs -> same_base (base w) (base w') ->
  (∀ x, option_Forall2 (fun v v' => same_queue (x ∈ xs) v v' ∧ ev_fd v' = ev_fd v ∧ ev_events v' = ev_events v ∧ event_ok v')
     (events w !! x) (events w' !! x)) ->
  sys w' = sys w -> deferreds w' = deferreds w -> (next_eid w <= next_eid w')%positive -> (∀ i, interest (calls w') (Z.of_nat i) = interest (calls w) (Z.of_nat i)) ->
  base_ok w' xs.
Proof.
  intros [Hq Hm [He Hs Hc Htv Hd Hbd Hf]] [Hl Hh Hio Hsig Hcache Htv' Hdq] Hev Hsys Hdef Hnext Hint.
  assert (Hsame : ∀ x, option_Forall2 (same_queue (x ∈ xs)) (events w !! x) (events w' !! x)).
  { intros x. specialize (Hev x). inversion Hev as [v v' (? & _) Hv Hv'|]; by constructor. }
  split.
  - apply (queues_ok_frame w); [done|done| |].
    { intros x. specialize (Hsame x). inversion Hsame as [v v' []|]; by constructor. }
    rewrite Hh. eapply same_queue_heap; [apply Hq|done].
  - rewrite (sl_eventqueue _ _ Hl). apply (maps_ok_frame w _ (eventqueue (base w))); rewrite ?Hio ?Hsig //.
    intros x. rewrite /waits. specialize (Hev x). inversion Hev as [v v' (_ & Hfd & Hevs & _) Hv Hv'|]; cbn; congruence.
  - split; [|by rewrite Hsys|auto|auto|by rewrite Hdq Hdef| |].
    + intros x v' Hv'. specialize (Hev x). rewrite Hv' in Hev. inversion Hev as [v ? (_ & _ & _ & ?) Hv|]; by subst.
    + rewrite (size_same (events w') (events w)) //. intros x. specialize (Hev x). inversion Hev; by split.
    + intros x v' Hv'. specialize (Hev x). rewrite Hv' in Hev. inversion Hev as [v ? _ Hv|]; subst. symmetry in Hv. apply Hf in Hv. lia.
Qed.

Lemma base_ok_same w w' xs :
  base_ok w xs -> events w' = events w -> same_base (base w) (base w') -> sys w' = sys w -> deferreds w' = deferreds w ->
  next_eid w' = next_eid w -> calls w' = calls w -> base_ok w' xs.
Proof.
  intros Hb He Hs Hsys Hd Hn Hc. apply (base_ok_frame w); rewrite ?Hn ?Hc //. intros x. rewrite He.
  destruct (events w !! x) as [v|] eqn:Hv; constructor.
  split_and!; [done|done|done|by apply (bo_events _ (bo_rest _ _ Hb) x)].
Qed.

Lemma base_ok_event w xs e v v' :
  base_ok w xs -> events w !! e = Some v -> same_queue (e ∈ xs) v v' -> ev_fd v' = ev_fd v -> ev_events v' = ev_events v ->
  event_ok v' -> base_ok (set_events (<[e := v']> (events w)) w) xs.
Proof.
  intros Hb Hv Hsq Hfd Hev Hok. apply (base_ok_frame w); try done. intros x. cbn. destruct (decide (x = e)) as [->|Hne].
  - rewrite lookup_insert_eq Hv. by constructor.
  - rewrite lookup_insert_ne //. destruct (events w !! x) as [u|] eqn:Hu; constructor.
    split_and!; [done|done|done|by apply (bo_events _ (bo_rest _ _ Hb) x)].
Qed.

(** ** Events that change queues *)

Section moved_ok.
Context (q : qno) (b : bool) (e : eid) (v : event) (w w' : world).
Context (Hm : moved q b e v w w') (Hv : events w !! e = Some v).

Lemma moved_world :
  io (base w') = io (base w) ∧ sigmap (base w') = sigmap (base w) ∧ calls w' = calls w ∧ sys w' = sys w ∧ next_eid w' = next_eid w
  ∧ tv_cache (base w') = tv_cache (base w) ∧ event_tv (base w') = event_tv (base w) ∧ defer_queue (base w') = defer_queue (base w)
  ∧ deferreds w' = deferreds w.
Proof.
  pose proof Hm as [[Hw _] Hb]. cbn in Hw. split_and!; first [by rewrite Hb|by rewrite Hw].
Qed.

Lemma moved_waits x : waits w' x = waits w x.
Proof.
  rewrite /waits. destruct (events w' !! x) as [u'|] eqn:Hu'.
  - destruct (moved_back _ _ _ _ _ _ _ _ Hm Hv Hu') as (u & i & Hu & ->). rewrite Hu /=. by destruct (decide (x = e)).
  - destruct (events w !! x) as [u|] eqn:Hu; [|done]. destruct (moved_lookup _ _ _ _ _ _ _ _ Hm Hv Hu). congruence.
Qed.

Lemma maps_ok_moved ins : maps_ok w ins -> maps_ok w' ins.
Proof.
  destruct moved_world as (Hio & Hsig & Hc & _). intros Hok. apply (maps_ok_frame w _ ins); rewrite ?Hio ?Hsig ?Hc //. apply moved_waits.
Qed.

Lemma rest_ok_moved : rest_ok w -> (q = QI -> b = true -> on (ev_events v) EV_ANY = true) -> rest_ok w'.
Proof.
  intros [He Hs Hc Htv Hd Hbd Hf] Hany. destruct moved_world as (_ & _ & _ & Hsys & Hn & Hcache & Htv' & Hdq & Hdef).
  split; rewrite ?Hsys ?Hcache ?Htv' ?Hdq ?Hdef //.
  - intros x u' Hu'. destruct (moved_back _ _ _ _ _ _ _ _ Hm Hv Hu') as (u & i & Hu & ->). destruct (He x u Hu) as [].
    destruct (decide (x = e)) as [->|Hne]; split; cbn; try done. replace u with v in * by congruence.
    change EVLIST_INSERTED with (qflag QI). rewrite on_flag_to. case_decide as Hq; [|done]. intros Hb. by apply Hany.
  - rewrite (size_same (events w') (events w)) //. intros x. pose proof (moved_waits x) as Hx. rewrite /waits in Hx.
    by destruct (events w' !! x), (events w !! x); split; intros [? ?].
  - intros x u' Hu'. destruct (moved_back _ _ _ _ _ _ _ _ Hm Hv Hu') as (u & i & Hu & _). rewrite Hn. by apply (Hf x u).
Qed.

End moved_ok.

(** ** Changes of the maps *)

Lemma queues_ok_mapped w w' xs : mapped w w' -> queues_ok w xs -> queues_ok w' xs.
Proof.
  intros [Hw Hb] Hq. assert (He : events w' = events w) by by rewrite Hw.
  apply (queues_ok_frame w); [done|by split; rewrite Hb| |].
  - intros x. rewrite He. destruct (events w !! x); constructor. apply same_queue_refl.
  - rewrite Hb. apply (is_heap_events w); [done|apply Hq].
Qed.

Lemma rest_ok_mapped w w' : mapped w w' -> rest_ok w -> rest_ok w'.
Proof.
  intros [Hw Hb] [He Hs Hc Htv Hd Hbd Hf]. assert (Hev : events w' = events w) by by rewrite Hw.
  assert (Hdef : deferreds w' = deferreds w) by by rewrite Hw.
  split; rewrite ?Hev ?Hdef //; first [by rewrite Hb|by rewrite Hw].
Qed.

(** ** Time *)

Definition retimed (w w' : world) : Prop :=
  ∃ d l n, w' = set_event_base (set_clock_diff d l (base w)) (set_n_sys n w).

Lemma retimed_refl w : retimed w w.
Proof. exists (tv_clock_diff (base w)), (last_updated_clock_diff (base w)), (n_sys w). by destruct w as [? []]. Qed.

Lemma base_ok_retimed w w' xs : retimed w w' -> base_ok w xs -> base_ok w' xs.
Proof. intros (d & l & n & ->) Hb. by apply (base_ok_same w). Qed.

Lemma lruns_gettime w (Q : option timeval -> world -> Prop) :
  rest_ok w -> (∀ t w', normal t -> retimed w w' -> (tv_sec (tv_cache (base w)) ≠ 0 -> t = tv_cache (base w)) -> Q (Some t) w') ->
  lruns gettime w Q.
Proof.
  intros [_ [_ Hmono Hreal _] Hc _ _ _ _] HQ. rewrite /gettime. apply lruns_bind, lruns_get_base. rewrite /lruns /mbind /L_bind /get_world.
  destruct (Z.eqb_spec (tv_sec (tv_cache (base w))) 0) as [H0|H0]; cbn [negb].
  - destruct (use_monotonic w).
    + rewrite /ask. destruct (Hmono (n_sys w)) as (sec & nsec & -> & Hn).
      assert (Ht : normal (Timeval sec (Z.quot nsec 1000))).
      { rewrite /normal /=. rewrite Z.quot_div_nonneg; [|lia..]. split; [apply Z.div_pos; lia|apply Z.div_lt_upper_bound; lia]. }
      destruct (_ <? sec).
      * apply HQ; [done| |done]. by eexists _, _, _.
      * apply HQ; [done| |done]. exists (tv_clock_diff (base w)), (last_updated_clock_diff (base w)), (S (n_sys w)). by destruct w as [? []].
    + apply HQ; [apply Hreal| |done].
      exists (tv_clock_diff (base w)), (last_updated_clock_diff (base w)), (S (n_sys w)). by destruct w as [? []].
  - apply HQ; [done|apply retimed_refl|done].
Qed.

(** ** Operations on one event *)

(** Two events that differ in flags and index only. *)
Definition reflagged (v v' : event) : Prop := v' = set_flags (ev_flags v') (set_idx (min_heap_idx v') v).

(** The flags of [e] may have changed. *)
Definition touched (e : eid) (w w' : world) : Prop :=
  ∀ x, option_Forall2 (fun v v' => reflagged v v' ∧ (x ≠ e -> ev_flags v' = ev_flags v)) (events w !! x) (events w' !! x).

Lemma reflagged_trans v1 v2 v3 : reflagged v1 v2 -> reflagged v2 v3 -> reflagged v1 v3.
Proof. rewrite /reflagged. intros H1 H2. rewrite H2 {1}H1. by destruct v1. Qed.

Lemma reflagged_refl v : reflagged v v.
Proof. by destruct v. Qed.

Lemma touched_refl e w w' : events w' = events w -> touched e w w'.
Proof. intros He x. rewrite He. destruct (events w !! x); constructor. split; [apply reflagged_refl|done]. Qed.

Lemma touched_trans e w1 w2 w3 : touched e w1 w2 -> touched e w2 w3 -> touched e w1 w3.
Proof.
  intros H1 H2 x. specialize (H1 x). specialize (H2 x). inversion H1 as [v1 v2 [Hr Hf] Hv1 Hv2|Hv1 Hv2]; rewrite -Hv2 in H2.
  - inversion H2 as [? v3 [Hr' Hf'] Hv2' Hv3|]; subst. constructor. split; [by eapply reflagged_trans|].
    intros Hne. rewrite Hf' //. by apply Hf.
  - inversion H2. constructor.
Qed.

Lemma moved_touched q b e v w w' : moved q b e v w w' -> events w !! e = Some v -> touched e w w'.
Proof.
  intros Hm Hv x. destruct (events w !! x) as [u|] eqn:Hu.
  - destruct (moved_lookup _ _ _ _ _ _ _ _ Hm Hv Hu) as [i ->]. constructor. case_decide; split; try done; by destruct u.
  - destruct (events w' !! x) as [u'|] eqn:Hu'; [|constructor]. destruct (moved_back _ _ _ _ _ _ _ _ Hm Hv Hu') as (u & i & ? & _). congruence.
Qed.

Lemma touched_lookup e w w' v : touched e w w' -> events w !! e = Some v -> ∃ v', events w' !! e = Some v' ∧ reflagged v v'.
Proof. intros Ht Hv. specialize (Ht e). rewrite Hv in Ht. inversion Ht as [? v' [? _]|]; subst. eauto. Qed.

Lemma touched_flagged e w w' q x : touched e w w' -> x ≠ e -> flagged w' q x <-> flagged w q x.
Proof.
  intros Ht Hne. specialize (Ht x). rewrite /flagged. inversion Ht as [v v' [_ Hf] Hv Hv'|Hv Hv'].
  - split; intros (u & [= <-] & Hon); eexists; (split; [done|]); rewrite -?(Hf Hne) // ?(Hf Hne) //.
  - split; by intros (u & ? & _).
Qed.

(** What adding to the maps leaves alone. *)
Record inserted (w w' : world) : Prop := {
  in_heap : timeheap (base w') = timeheap (base w);
  in_active : activequeues (base w') = activequeues (base w);
  in_other : ∀ q x, q ≠ QI -> flagged w' q x <-> flagged w q x }.

Lemma mapped_inserted e w w' : mapped w w' -> touched e w w' ∧ inserted w w'.
Proof.
  intros Hm. pose proof (mapped_events _ _ Hm) as He. split; [by apply touched_refl|]. destruct Hm as [_ Hb].
  split; [by rewrite Hb..|]. intros q x _. by rewrite /flagged He.
Qed.

Lemma flagged_on w q e v : events w !! e = Some v -> flagged w q e <-> on (ev_flags v) (qflag q) = true.
Proof. intros Hv. rewrite /flagged. split; [intros (u & Hu & Hon); congruence|eauto]. Qed.

Lemma on_any v : on v EV_ANY = on v EV_RW || on v EV_SIGNAL.
Proof. rewrite /EV_ANY /EV_RW !on_or. by rewrite orb_assoc. Qed.

Lemma lruns_add_evmap w xs e v (Q : Z -> world -> Prop) :
  base_ok w xs -> events w !! e = Some v ->
  (∀ w', base_ok w' xs -> events w' = events w -> activequeues (base w') = activequeues (base w) -> Q (-1) w') ->
  (∀ w', base_ok w' xs -> touched e w w' -> inserted w w' ->
     (on (ev_events v) EV_ANY = true -> ~ flagged w QA e -> flagged w' QI e) -> Q 0 w') ->
  lruns (event_add_evmap e) w Q.
Proof.
  intros [Hq Hmaps Hrest] Hv Hbad Hgood. rewrite /event_add_evmap. apply lruns_bind, (lruns_get_event _ v); [done|].
  rewrite -/EV_ANY on_or -/EV_RW. destruct (bo_events _ Hrest _ _ Hv) as [_ Hio Hsig _ _ _ _ _ _ _].
  assert (Hskip : (on (ev_events v) EV_ANY = true -> ~ flagged w QA e -> flagged w QI e) -> Q 0 w).
  { intros Hfl. apply Hgood; [done|by apply touched_refl|done|done]. }
  destruct (on (ev_events v) EV_ANY) eqn:Hany; [|by apply lruns_ret, Hskip].
  destruct (on (ev_flags v) EVLIST_INSERTED) eqn:Hins; [by apply lruns_ret, Hskip; intros _ _; exists v|].
  destruct (on (ev_flags v) EVLIST_ACTIVE) eqn:Hact; [by apply lruns_ret, Hskip; intros _ []; exists v|]. cbn [negb orb andb].
  assert (Hout : e ∉ eventqueue (base w)).
  { intros Hin. apply (qo_member _ _ Hq QI) in Hin. rewrite (flagged_on _ _ _ v) // in Hin. by rewrite Hins in Hin. }
  assert (Hfail : ∀ w', mapped w w' -> maps_ok w' (eventqueue (base w)) -> lruns (_ ← mret tt; mret (-1)) w' Q).
  { intros w' Hm Hok. apply lruns_bind, lruns_ret, lruns_ret, Hbad; [|by apply mapped_events|by rewrite (mp_base _ _ Hm)].
    split; [by eapply queues_ok_mapped| |by eapply rest_ok_mapped]. by rewrite (mp_base _ _ Hm). }
  assert (Hdone : ∀ w', mapped w w' -> maps_ok w' (eventqueue (base w) ++ [e]) ->
    lruns (_ ← event_queue_insert e EVLIST_INSERTED; mret 0) w' Q).
  { intros w' Hm Hok. assert (Hv' : events w' !! e = Some v) by by rewrite (mapped_events w).
    apply lruns_bind, (lruns_insert_inserted w' xs e v); [by eapply queues_ok_mapped|done|done|]. intros w2 Hq2 Hm2 Hb2. apply lruns_ret.
    destruct (mapped_inserted e _ _ Hm) as [Ht [Hh Ha Ho]]. apply Hgood.
    - split; [done| |eapply rest_ok_moved; [done|done|by eapply rest_ok_mapped|done]].
      rewrite Hb2 /= (mp_base _ _ Hm) /=. by eapply maps_ok_moved.
    - eapply touched_trans; [done|by eapply moved_touched].
    - split; [by rewrite Hb2|by rewrite Hb2|]. intros q x Hne. rewrite (moved_flagged _ _ _ _ _ _ _ _ Hm2 Hv') -Ho //.
      by case_decide as Hc; [destruct Hc|].
    - intros _ _. rewrite (moved_flagged _ _ _ _ _ _ _ _ Hm2 Hv'). by case_decide as Hc; [|destruct Hc]. }
  apply lruns_bind. rewrite on_any in Hany. destruct (on (ev_events v) EV_RW) eqn:Hrw.
  - apply (lruns_io_add w (eventqueue (base w)) e v); try done; [by apply Hio|]. intros r w' [-> | ->]; cbn [Z.eqb negb]; apply Hdone.
  - cbn in Hany. rewrite Hany. destruct (Hsig Hany) as [_ Hfd]. rewrite s32_small; [|lia].
    by apply (lruns_signal_add w (eventqueue (base w)) e v).
Qed.

(** ** Deleting *)

(** A list without an event. *)
Definition drop_event (e : eid) (l : list eid) : list eid := filter (fun x => x ≠ e) l.

Lemma drop_absent e l : e ∉ l -> drop_event e l = l.
Proof.
  rewrite /drop_event. induction l as [|x l IH]; intros Hn; [done|]. apply not_elem_of_cons in Hn as [Hx Hn].
  rewrite filter_cons_True; [|done]. by rewrite IH.
Qed.

Lemma drop_cons e l : e ∉ l -> drop_event e (e :: l) = l.
Proof. intros Hn. rewrite /drop_event filter_cons_False; [by apply drop_absent|]. by intros []. Qed.

Lemma drop_perm e l l' : l ≡ₚ e :: l' -> NoDup l -> l' ≡ₚ drop_event e l.
Proof.
  intros Hp Hn. rewrite Hp in Hn. apply NoDup_cons in Hn as [He _].
  rewrite -{1}(drop_cons e l' He) /drop_event. by rewrite Hp.
Qed.

Lemma unlink_drop e l l' : unlink e l = Some l' -> NoDup l -> l' = drop_event e l.
Proof.
  revert l'. induction l as [|x l IH]; intros l' Hu Hn; [done|]. cbn in Hu. apply NoDup_cons in Hn as [Hx Hn].
  case_decide as Hc; [subst; injection Hu as <-; by rewrite drop_cons|].
  destruct (unlink e l) as [l0|]; [|done]. injection Hu as <-. rewrite /drop_event filter_cons_True // -/(drop_event e l). by rewrite -(IH l0).
Qed.

Lemma elem_of_drop e l x : x ∈ drop_event e l <-> x ∈ l ∧ x ≠ e.
Proof. rewrite /drop_event list_elem_of_filter. tauto. Qed.

Lemma concat_drop e ls : concat (drop_event e <$> ls) = drop_event e (concat ls).
Proof. induction ls as [|l ls IH]; [done|]. cbn. by rewrite IH /drop_event filter_app. Qed.

(** What is the same in two bases that differ in queues and maps. *)
Definition relisted_base (b b' : event_base) : Prop := b' = remap (requeue b b') b'.

Lemma relisted_requeue b b' : b' = requeue b b' -> relisted_base b b'.
Proof. rewrite /relisted_base. intros H. rewrite {1}H. assert (io b' = io b ∧ sigmap b' = sigmap b) as [Hi Hs] by by rewrite H. by rewrite /remap Hi Hs. Qed.

Lemma relisted_trans b1 b2 b3 : relisted_base b1 b2 -> relisted_base b2 b3 -> relisted_base b1 b3.
Proof. rewrite /relisted_base. intros H1 H2. rewrite {1}H2 {1}H1. by destruct b1. Qed.

Lemma relisted_mapped b b' : b' = remap b b' -> relisted_base b b'.
Proof.
  rewrite /relisted_base. intros H. rewrite {1}H.
  assert (event_count b' = event_count b ∧ event_count_active b' = event_count_active b ∧ activequeues b' = activequeues b
    ∧ eventqueue b' = eventqueue b ∧ timeheap b' = timeheap b) as (H1 & H2 & H3 & H4 & H5) by by rewrite H.
  rewrite /requeue H1 H2 H3 H4 H5. by destruct b.
Qed.

(** The event has left the queue [q] if it was in it. *)
Record left_queue (q : qno) (e : eid) (v v' : event) (w w' : world) (xs xs' : list eid) : Prop := {
  lq_event : events w' !! e = Some v';
  lq_flags : ∀ p, on (ev_flags v') (qflag p) = if decide (p = q) then false else on (ev_flags v) (qflag p);
  lq_touched : touched e w w';
  lq_dropped : qlist q (base w') xs' ≡ₚ drop_event e (qlist q (base w) xs);
  lq_others : ∀ p, p ≠ q -> qlist p (base w') xs' = qlist p (base w) xs;
  lq_active : activequeues (base w') = if decide (q = QA) then drop_event e <$> activequeues (base w) else activequeues (base w);
  lq_base : relisted_base (base w) (base w') }.

Lemma left_nothing q e v w xs : queues_ok w xs -> events w !! e = Some v -> on (ev_flags v) (qflag q) = false -> left_queue q e v v w w xs xs.
Proof.
  intros Hq Hv Hoff. assert (Hn : e ∉ qlist q (base w) xs) by (rewrite (qo_member _ _ Hq) (flagged_on _ _ _ v) // Hoff //).
  split; try done.
  - intros p. by case_decide; subst.
  - by apply touched_refl.
  - by rewrite drop_absent.
  - case_decide; [|done]. subst q. cbn in Hn. symmetry. clear -Hn. induction (activequeues (base w)) as [|l ls IH]; [done|].
    cbn in Hn |- *. apply not_elem_of_app in Hn as [? ?]. by rewrite drop_absent // IH.
  - apply relisted_requeue, requeue_refl.
Qed.

Lemma moved_left q e v w w' xs xs' :
  queues_ok w xs -> events w !! e = Some v -> moved q false e v w w' -> qlist q (base w) xs ≡ₚ e :: qlist q (base w') xs' ->
  (∀ p, p ≠ q -> qlist p (base w') xs' = qlist p (base w) xs) ->
  activequeues (base w') = (if decide (q = QA) then drop_event e <$> activequeues (base w) else activequeues (base w)) ->
  ∃ v', left_queue q e v v' w w' xs xs'.
Proof.
  intros Hq Hv Hm Hp Ho Ha. destruct (moved_lookup _ _ _ _ _ _ _ _ Hm Hv Hv) as [i Hi]. rewrite decide_True // in Hi.
  eexists. split; [done| |by eapply moved_touched| |done|done|apply relisted_requeue, Hm].
  - intros p. cbn. apply on_flag_to.
  - apply drop_perm; [done|apply Hq].
Qed.

Section leaving.
Context (w : world) (xs : list eid) (e : eid) (v : event).
Context (Hb : base_ok w xs) (Hv : events w !! e = Some v).

Lemma lruns_leave_timeout (Q : unit -> world -> Prop) :
  (∀ w' xs' v', base_ok w' xs' -> left_queue QT e v v' w w' xs xs' ->
     (on (ev_flags v) EVLIST_TIMEOUT = true -> hn (timeheap (base w')) < ha (timeheap (base w'))) ->
     (on (ev_flags v) EVLIST_TIMEOUT = false -> timeheap (base w') = timeheap (base w)) -> Q tt w') ->
  lruns (if on (ev_flags v) EVLIST_TIMEOUT then event_queue_remove e EVLIST_TIMEOUT else mret tt) w Q.
Proof.
  intros HQ. destruct Hb as [Hq Hmaps Hrest]. destruct (on (ev_flags v) EVLIST_TIMEOUT) eqn:Hon.
  - apply (lruns_remove_timeout w xs e v); [done|done|done|]. intros w' xs' Hq' Hm Hp Hroom Hb'.
    destruct (moved_left QT e v w w' xs xs') as [v' Hl]; try done; [by intros []; rewrite Hb'|by rewrite Hb'|].
    apply (HQ w' xs' v'); [|done|done|done]. split; [done| |by eapply rest_ok_moved].
    rewrite Hb' /=. by eapply maps_ok_moved.
  - apply lruns_ret, (HQ w xs v); [done|by apply left_nothing|done|done].
Qed.

Lemma lruns_leave_active (Q : unit -> world -> Prop) :
  (∀ w' v', base_ok w' xs -> left_queue QA e v v' w w' xs xs -> timeheap (base w') = timeheap (base w) -> Q tt w') ->
  lruns (if on (ev_flags v) EVLIST_ACTIVE then event_queue_remove e EVLIST_ACTIVE else mret tt) w Q.
Proof.
  intros HQ. destruct Hb as [Hq Hmaps Hrest]. destruct (on (ev_flags v) EVLIST_ACTIVE) eqn:Hon.
  - apply (lruns_remove_active w xs e v); [done|done|done|]. intros w' l l' Hq' Hm Hl Hu Hb'.
    assert (Ha : activequeues (base w') = drop_event e <$> activequeues (base w)).
    { rewrite Hb' /=. apply list_eq. intros j. rewrite list_lookup_fmap. destruct (decide (j = Z.to_nat (ev_pri v))) as [->|Hne].
      - rewrite list_lookup_insert_eq; [|by eapply lookup_lt_Some]. rewrite Hl /=. f_equal. apply unlink_drop; [done|].
        pose proof (qo_nodup _ _ Hq QA) as Hn. cbn in Hn. rewrite -(take_drop_middle _ _ _ Hl) concat_app /= in Hn.
        apply NoDup_app in Hn as (_ & _ & Hn). by apply NoDup_app in Hn as (? & _ & _).
      - rewrite list_lookup_insert_ne //. destruct (activequeues (base w) !! j) as [lj|] eqn:Hj; [|done]. cbn. f_equal. symmetry.
        apply drop_absent. intros Hin. destruct (qo_place _ _ Hq j lj e Hj Hin) as (u & Hu' & Hpri). assert (u = v) as -> by congruence. lia. }
    destruct (moved_left QA e v w w' xs xs) as [v' Hlq]; try done.
    + cbn. rewrite Ha concat_drop. assert (Hin : e ∈ concat (activequeues (base w))) by (apply (qo_member _ _ Hq QA); by exists v).
      destruct (unlink_perm _ _ Hin) as (c & _ & Hc). rewrite {1}Hc. constructor. apply drop_perm; [done|]. apply (qo_nodup _ _ Hq QA).
    + by intros []; rewrite Hb'.
    + apply (HQ w' v'); [|done|by rewrite Hb']. split; [done| |by eapply rest_ok_moved]. rewrite Hb' /=. by eapply maps_ok_moved.
  - apply lruns_ret, (HQ w v); [done|by apply left_nothing|done].
Qed.

Lemma lruns_leave_inserted (Q : Z -> world -> Prop) :
  (∀ w' v', base_ok w' xs -> left_queue QI e v v' w w' xs xs -> Q 0 w') ->
  lruns (if on (ev_flags v) EVLIST_INSERTED then
           _ ← event_queue_remove e EVLIST_INSERTED;
           res ← (if on (ev_events v) EV_RW then evmap_io_del (ev_fd v) e else evmap_signal_del (s32 (ev_fd v)) e);
           mret (if res =? 1 then 0 else res)
         else mret 0) w Q.
Proof.
  intros HQ. destruct Hb as [Hq Hmaps Hrest]. destruct (on (ev_flags v) EVLIST_INSERTED) eqn:Hon; last first.
  { apply lruns_ret, (HQ w v); [done|by apply left_nothing]. }
  apply lruns_bind, (lruns_remove_inserted w xs e v); [done|done|done|]. intros w1 l Hq1 Hm Hp Hb1.
  destruct (moved_left QI e v w w1 xs xs) as [v1 Hl]; try done; [by rewrite Hb1|by intros []; rewrite Hb1|by rewrite Hb1|].
  destruct (bo_events _ Hrest _ _ Hv) as [_ Hio Hsig Hany _ _ _ _ _ _].
  assert (Hrest1 : rest_ok w1) by by eapply rest_ok_moved.
  assert (Hmaps1 : maps_ok w1 (eventqueue (base w))) by by eapply maps_ok_moved.
  assert (Hend : ∀ r w', r = 0 ∨ r = 1 -> mapped w1 w' -> maps_ok w' l -> lruns (mret (if r =? 1 then 0 else r)) w' Q).
  { intros r w' Hr Hm' Hok'. apply lruns_ret. replace (if r =? 1 then 0 else r) with 0 by by destruct Hr as [-> | ->].
    pose proof (mapped_events _ _ Hm') as He. apply (HQ w' v1).
    - split; [by eapply queues_ok_mapped|by rewrite (mp_base _ _ Hm') Hb1|by eapply rest_ok_mapped].
    - destruct Hl as [He1 Hf1 Ht1 Hd1 Ho1 Ha1 Hb1']. split; [by rewrite He|done| | | | |].
      + eapply touched_trans; [done|by apply touched_refl].
      + by rewrite (mp_base _ _ Hm').
      + intros p Hne. rewrite -(Ho1 p Hne) (mp_base _ _ Hm'). by destruct p.
      + by rewrite (mp_base _ _ Hm').
      + eapply relisted_trans; [done|]. apply relisted_mapped, Hm'. }
  assert (Hdel : ∀ n, backend_del (sys w1) n = true) by apply Hrest1.
  assert (Hnd : NoDup (eventqueue (base w))) by apply (qo_nodup _ _ Hq QI).
  destruct (touched_lookup e w w1 v (lq_touched _ _ _ _ _ _ _ _ Hl) Hv) as (u' & Hu' & Hru).
  assert (Efd : ev_fd v = ev_fd u') by by rewrite Hru. assert (Eev : ev_events v = ev_events u') by by rewrite Hru.
  rewrite Eev Efd in Hany, Hio, Hsig |- *. apply lruns_bind. specialize (Hany Hon). rewrite on_any in Hany. destruct (on (ev_events u') EV_RW) eqn:Hrw.
  - apply (lruns_io_del w1 (eventqueue (base w)) l e u'); try done.
  - cbn in Hany. destruct (Hsig Hany) as [_ Hfd]. rewrite s32_small; [|lia].
    apply (lruns_signal_del w1 (eventqueue (base w)) l e u'); try done; [lia|]. intros w' Hm' Hok'. apply Hend; [by right|done|done].
Qed.

End leaving.

(** The event is in no queue any more. *)
Record deleted (e : eid) (v : event) (w w' : world) (xs xs' : list eid) : Prop := {
  de_touched : touched e w w';
  de_flags : ∀ q, ~ flagged w' q e;
  de_heap : xs' ≡ₚ drop_event e xs;
  de_inserted : eventqueue (base w') ≡ₚ drop_event e (eventqueue (base w));
  de_active : activequeues (base w') = drop_event e <$> activequeues (base w);
  de_base : relisted_base (base w) (base w') }.

Lemma abort_loop_none v : ev_pncalls v = None -> abort_loop v = mret tt.
Proof. intros Hn. rewrite /abort_loop Hn. by destruct (_ && _). Qed.

Lemma lruns_del_internal w xs e v (Q : Z -> world -> Prop) :
  base_ok w xs -> events w !! e = Some v ->
  (∀ w' xs', base_ok w' xs' -> deleted e v w w' xs xs' -> Q 0 w') ->
  lruns (event_del_internal e) w Q.
Proof.
  intros Hb Hv HQ. pose proof Hb as [Hq _ Hrest]. rewrite /event_del_internal. apply lruns_bind, (lruns_get_event _ v); [done|].
  rewrite (eo_base _ (bo_events _ Hrest _ _ Hv)). cbn [negb]. rewrite (fo_all _ _ (qo_flags _ _ Hq _ _ Hv)). apply lruns_bind, lruns_ret.
  rewrite abort_loop_none; [|by apply (bo_events _ Hrest e)]. apply lruns_bind, lruns_ret, lruns_bind.
  apply (lruns_leave_timeout w xs e v Hb Hv). intros w1 xs1 v1 Hb1 H1 _ _. apply lruns_bind.
  assert (F1 : ∀ p, p ≠ QT -> on (ev_flags v) (qflag p) = on (ev_flags v1) (qflag p)).
  { intros p Hne. rewrite (lq_flags _ _ _ _ _ _ _ _ H1). by case_decide. }
  pose proof (F1 QA) as FA. rewrite (_ : qflag QA = EVLIST_ACTIVE) // in FA. rewrite FA //.
  apply (lruns_leave_active w1 xs1 e v1 Hb1); [by destruct H1|]. intros w2 v2 Hb2 H2 _.
  assert (F2 : on (ev_flags v) EVLIST_INSERTED = on (ev_flags v2) EVLIST_INSERTED).
  { change EVLIST_INSERTED with (qflag QI). rewrite (lq_flags _ _ _ _ _ _ _ _ H2). case_decide; [done|]. by apply F1. }
  rewrite F2. pose proof (touched_trans _ _ _ _ (lq_touched _ _ _ _ _ _ _ _ H1) (lq_touched _ _ _ _ _ _ _ _ H2)) as Ht.
  destruct (touched_lookup e w w2 v Ht Hv) as (u & Hu & Hru). rewrite (lq_event _ _ _ _ _ _ _ _ H2) in Hu. injection Hu as <-.
  replace (ev_events v) with (ev_events v2) by by rewrite Hru. replace (ev_fd v) with (ev_fd v2) by by rewrite Hru.
  apply (lruns_leave_inserted w2 xs1 e v2 Hb2); [by destruct H2|]. intros w3 v3 Hb3 H3. apply (HQ w3 xs1); [done|]. split.
  - eapply touched_trans; [done|apply H3].
  - intros q. rewrite (flagged_on _ _ _ v3); [|apply H3]. rewrite (lq_flags _ _ _ _ _ _ _ _ H3). case_decide; [done|].
    rewrite (lq_flags _ _ _ _ _ _ _ _ H2). case_decide; [done|]. rewrite (lq_flags _ _ _ _ _ _ _ _ H1). case_decide; [done|]. by destruct q.
  - apply (lq_dropped _ _ _ _ _ _ _ _ H1).
  - pose proof (lq_dropped _ _ _ _ _ _ _ _ H3) as Hd. cbn in Hd. rewrite Hd.
    pose proof (lq_others _ _ _ _ _ _ _ _ H2 QI ltac:(done)) as O2. pose proof (lq_others _ _ _ _ _ _ _ _ H1 QI ltac:(done)) as O1.
    cbn in O1, O2. by rewrite O2 O1.
  - rewrite (lq_active _ _ _ _ _ _ _ _ H3) (lq_active _ _ _ _ _ _ _ _ H2) (lq_active _ _ _ _ _ _ _ _ H1). done.
  - eapply relisted_trans; [apply H1|]. eapply relisted_trans; [apply H2|apply H3].
Qed.

(** ** Activating *)

(** All but one event are the same up to their places in the heap. *)
Definition others (e : eid) (w w' : world) : Prop := ∀ x, x ≠ e -> option_Forall2 but_idx (events w !! x) (events w' !! x).

Lemma touched_others e w w' : touched e w w' -> others e w w'.
Proof.
  intros Ht x Hne. specialize (Ht x). inversion Ht as [v v' [Hr Hf]|]; constructor. specialize (Hf Hne).
  rewrite /but_idx Hr Hf. by destruct v.
Qed.

Lemma others_trans e w1 w2 w3 : others e w1 w2 -> others e w2 w3 -> others e w1 w3.
Proof.
  intros H1 H2 x Hne. specialize (H1 x Hne). specialize (H2 x Hne). inversion H1 as [v1 v2 Hv|Hv1 Hv2]; subst.
  - rewrite -H0 in H2. inversion H2; subst. constructor. by etrans.
  - rewrite -Hv2 in H2. inversion H2. constructor.
Qed.

(** What activating changes in the base. *)
Definition rerun (b b' : event_base) : event_base := set_continue (event_continue b') (requeue b b').

(** The event is the last of its queue of active events, with the result [res]
    and, for a signal, a number of calls. *)
Record activated (e : eid) (v : event) (res : Z) (w w' : world) : Prop := {
  ac_event : ∃ i n, events w' !! e = Some (set_idx i (with_flag QA true (set_res res (set_ncalls n v))));
  ac_others : others e w w';
  ac_queue : ∃ l, activequeues (base w) !! Z.to_nat (ev_pri v) = Some l ∧
    activequeues (base w') = <[Z.to_nat (ev_pri v) := l ++ [e]]> (activequeues (base w));
  ac_heap : timeheap (base w') = timeheap (base w);
  ac_inserted : eventqueue (base w') = eventqueue (base w);
  ac_calls : calls w' = calls w;
  ac_base : base w' = rerun (base w) (base w') }.

Lemma set_events_twice e v v' w : set_events (<[e := v']> (events (set_events (<[e := v]> (events w)) w)))
  (set_events (<[e := v]> (events w)) w) = set_events (<[e := v']> (events w)) w.
Proof. rewrite /set_events /=. by rewrite insert_insert_eq. Qed.

Lemma activated_moved w xs e v v1 w1 res n l w' :
  queues_ok w xs -> events w !! e = Some v -> ev_pncalls v = None ->
  v1 = set_res res (set_ncalls n v) -> w1 = set_event_base (set_continue (event_continue (base w1)) (base w)) (set_events (<[e := v1]> (events w)) w) ->
  moved QA true e v1 w1 w' -> activequeues (base w) !! Z.to_nat (ev_pri v) = Some l ->
  base w' = set_activequeue (ev_pri v) (l ++ [e])
       (set_count_active (event_count_active (base w) + 1) (set_count (event_count (base w) + 1) (base w1))) ->
  activated e v res w w'.
Proof.
  intros Hq Hv Hpn Hv1 Hw1 Hm Hl Hb. assert (Hb1 : base w1 = set_continue (event_continue (base w1)) (base w)) by (rewrite {1}Hw1; done).
  assert (He1 : events w1 = <[e := v1]> (events w)) by (rewrite Hw1; done).
  assert (Hv1e : events w1 !! e = Some v1) by (rewrite He1; by rewrite lookup_insert_eq). split.
  - destruct (moved_lookup _ _ _ _ _ _ _ _ Hm Hv1e Hv1e) as [i Hi]. rewrite decide_True // Hv1 in Hi. eauto.
  - apply (others_trans _ _ w1); [|by eapply touched_others, moved_touched]. intros x Hne. rewrite He1 lookup_insert_ne //.
  - exists l. split; [done|]. by rewrite Hb /= Hb1.
  - by rewrite Hb /= Hb1.
  - by rewrite Hb /= Hb1.
  - destruct (moved_world _ _ _ _ _ _ Hm) as (_ & _ & -> & _). by rewrite Hw1.
  - rewrite Hb Hb1. by destruct (base w).
Qed.

Lemma s16_small z : - 2 ^ 15 <= z < 2 ^ 15 -> s16 z = z.
Proof. intros. rewrite /s16 Z.mod_small; lia. Qed.

Lemma lruns_active w xs e v res ncalls (Q : unit -> world -> Prop) :
  base_ok w xs -> events w !! e = Some v -> 0 <= ncalls <= 1 ->
  (on (ev_flags v) EVLIST_ACTIVE = true ->
     let w' := set_events (<[e := set_res (s16 (Z.lor (ev_res v) res)) v]> (events w)) w in base_ok w' xs -> Q tt w') ->
  (on (ev_flags v) EVLIST_ACTIVE = false -> ∀ w', base_ok w' xs -> activated e v (s16 res) w w' -> Q tt w') ->
  lruns (event_active_nolock e res ncalls) w Q.
Proof.
  intros Hb Hv Hnc Hon Hoff. pose proof Hb as [Hq Hmaps Hrest]. pose proof (bo_events _ Hrest _ _ Hv) as Hok.
  rewrite /event_active_nolock (s16_small ncalls); [|lia]. apply lruns_bind, (lruns_get_event _ v); [done|].
  destruct (on (ev_flags v) EVLIST_ACTIVE) eqn:Hact.
  { apply (lruns_mod_event _ _ v); [done|]. apply Hon; [done|]. apply (base_ok_event w xs e v); try done. by destruct Hok. }
  apply lruns_bind, (lruns_mod_event _ _ v); [done|]. apply lruns_bind, lruns_get_base, lruns_bind. cbn [base set_events].
  set (n := if on (ev_events v) EV_SIGNAL then ncalls else ev_ncalls v). set (r := s16 res). set (v1 := set_res r (set_ncalls n v)).
  assert (Hok1 : event_ok v1).
  { destruct Hok. split; try done. cbn. rewrite /n. by destruct (on (ev_events v) EV_SIGNAL). }
  assert (Hend : ∀ c, lruns (event_queue_insert e EVLIST_ACTIVE)
    (set_event_base (set_continue c (base w)) (set_events (<[e := v1]> (events w)) w)) Q).
  { intros c. set (w1 := set_event_base _ _). assert (Hb1 : base_ok w1 xs).
    { apply (base_ok_same (set_events (<[e := v1]> (events w)) w)); try done. by apply (base_ok_event w xs e v). }
    assert (Hv1 : events w1 !! e = Some v1) by (cbn; by rewrite lookup_insert_eq).
    apply (lruns_insert_active w1 xs e v1); [apply Hb1|done|done|]. intros w' l Hq' Hm Hl Hb'. apply (Hoff eq_refl).
    - split; [done| |eapply rest_ok_moved; [done|done|apply Hb1|done]]. rewrite Hb' /=. eapply maps_ok_moved; [done|done|apply Hb1].
    - by apply (activated_moved w xs e v v1 w1 r n l w' Hq Hv (eo_pncalls _ Hok)). }
  assert (Hsig : ∀ c w2, w2 = set_event_base (set_continue c (base w)) (set_events (<[e := set_res r v]> (events w)) w) ->
    lruns (_ ← (if on (ev_events v) EV_SIGNAL then mod_event e (fun v => set_pncalls None (set_ncalls ncalls v)) else mret tt);
           event_queue_insert e EVLIST_ACTIVE) w2 Q).
  { intros c w2 ->. specialize (Hend c). apply lruns_bind. destruct (on (ev_events v) EV_SIGNAL) eqn:Hsg.
    - eapply lruns_mod_event; [cbn; by rewrite lookup_insert_eq|]. move: Hend. rewrite /set_events /set_event_base /= insert_insert_eq.
      rewrite (_ : set_pncalls None (set_ncalls ncalls (set_res r v)) = v1) //.
      pose proof (eo_pncalls _ Hok) as Hpn. rewrite /v1 /n. clear -Hpn. destruct v. cbn in Hpn. by rewrite Hpn.
    - apply lruns_ret. move: Hend. by rewrite (_ : v1 = set_res r v). }
  destruct (_ <? _).
  - apply lruns_mod_base. by apply (Hsig true).
  - apply lruns_ret, (Hsig (event_continue (base w))). by destruct w as [? []].
Qed.
