(* ===== verification/EvLoopAdd.v ===== *)
(** * An event base: adding events, and timeouts

    event_add_internal on a base without common timeouts, from the reservation of
    memory to the place in the heap; how long the loop waits, and which events
    timeout_process makes active. *)

From Stdlib Require Import ssreflect.
From Stdlib Require Import Sorting.Sorted.
From S2P Require Import Prelude CTypes HProp CMem EvTime EvEvent EvHeap EvHeapSpec EvMap EvLoop EvDispatch EvLoopSpec EvMapSpec EvLoopOps.
Set Warnings "-rewrite-rw".
Open Scope general_if_scope.
Open Scope Z_scope.

(** ** Memory *)

Lemma base_ok_reserved w xs s o :
  base_ok w xs -> is_heap (set_oom o w) s xs -> base_ok (set_event_base (set_timeheap s (base w)) (set_oom o w)) xs.
Proof.
  intros [Hq Hm Hr] Hh. split.
  - apply (queues_ok_frame w); [done|done| |by apply (is_heap_events (set_oom o w))].
    intros x. cbn. destruct (events w !! x); constructor. apply same_queue_refl.
  - by apply (maps_ok_frame w _ (eventqueue (base w))).
  - by destruct Hr.
Qed.

(** The reservation that a new timeout needs. *)
Definition event_add_reserve (v : event) (tv : option timeval) : L Z :=
  b ← get_base;
  if bool_decide (is_Some tv) && negb (on (ev_flags v) EVLIST_TIMEOUT) then
    '(r, s) ← min_heap_reserve (timeheap b) (u32 (1 + min_heap_size (timeheap b)));
    _ ← mod_base (set_timeheap s);
    mret r
  else mret 0.

Lemma lruns_add_reserve w xs v tv (Q : Z -> world -> Prop) :
  base_ok w xs -> hn (timeheap (base w)) < 2 ^ 31 - 1 ->
  (∀ w', base_ok w' xs -> events w' = events w -> activequeues (base w') = activequeues (base w) -> Q (-1) w') ->
  (∀ w', base_ok w' xs -> events w' = events w -> activequeues (base w') = activequeues (base w) ->
     hn (timeheap (base w')) < 2 ^ 31 - 1 ->
     (is_Some tv -> on (ev_flags v) EVLIST_TIMEOUT = false -> hn (timeheap (base w')) < ha (timeheap (base w'))) ->
     (tv = None -> timeheap (base w') = timeheap (base w)) -> Q 0 w') ->
  lruns (event_add_reserve v tv) w Q.
Proof.
  intros Hb Hmax Hbad Hgood. pose proof (qo_heap _ _ (bo_queues _ _ Hb)) as Hh. pose proof (hw_n _ _ _ Hh) as Hn.
  rewrite /event_add_reserve. apply lruns_bind, lruns_get_base. case_bool_decide as Htv; cbn [andb].
  2: { apply lruns_ret, Hgood; done. }
  destruct (on (ev_flags v) EVLIST_TIMEOUT) eqn:Hon; cbn [negb]; [by apply lruns_ret, Hgood|].
  rewrite /min_heap_size (u32_small (1 + _)); [|lia]. apply lruns_bind, (lruns_reserve w _ xs); [done|lia| |].
  - intros s o Hs Hge _. apply lruns_bind, lruns_mod_base, lruns_ret. pose proof (hw_n _ _ _ Hs) as Hns.
    apply Hgood; [by apply (base_ok_reserved w xs s o)|done|done|cbn; lia|cbn; lia|].
    intros ->. by destruct Htv.
  - intros o _. apply lruns_bind, lruns_mod_base, lruns_ret, Hbad; [|done|done]. apply (base_ok_reserved w xs _ o); [done|].
    by apply (is_heap_events w).
Qed.

(** ** Out of the queues *)

(** The event is in no queue for timeouts, and if the last timeout made it
    active, it is not active any more. *)
Record unscheduled (e : eid) (w w' : world) (xs xs' : list eid) : Prop := {
  un_touched : touched e w w';
  un_heap : xs' ≡ₚ drop_event e xs;
  un_timeout : ~ flagged w' QT e;
  un_inserted : ∀ x, flagged w' QI x <-> flagged w QI x;
  un_active : activequeues (base w') = activequeues (base w) ∨ activequeues (base w') = drop_event e <$> activequeues (base w) }.

Lemma left_flagged q e v v' w w' xs xs' p :
  left_queue q e v v' w w' xs xs' -> events w !! e = Some v -> p ≠ q -> ∀ x, flagged w' p x <-> flagged w p x.
Proof.
  intros Hl Hv Hne x. destruct (decide (x = e)) as [->|Hx].
  - rewrite (flagged_on _ _ _ v') ?(flagged_on _ _ _ v) //; [|apply Hl]. rewrite (lq_flags _ _ _ _ _ _ _ _ Hl). by case_decide.
  - eapply touched_flagged; [apply Hl|done].
Qed.

Lemma lruns_unschedule w xs e v (Q : unit -> world -> Prop) :
  base_ok w xs -> events w !! e = Some v -> hn (timeheap (base w)) < 2 ^ 31 - 1 ->
  (on (ev_flags v) EVLIST_TIMEOUT = false -> hn (timeheap (base w)) < ha (timeheap (base w))) ->
  (∀ w' xs', base_ok w' xs' -> unscheduled e w w' xs xs' -> hn (timeheap (base w')) < ha (timeheap (base w')) -> Q tt w') ->
  lruns (event_add_unschedule e) w Q.
Proof.
  intros Hb Hv Hmax Hroom HQ. rewrite /event_add_unschedule. apply lruns_bind, (lruns_get_event _ v); [done|].
  apply lruns_bind, (lruns_leave_timeout w xs e v Hb Hv). intros w1 xs1 v1 Hb1 H1 Hin Hout.
  apply lruns_bind, (lruns_get_event _ v1); [apply H1|].
  assert (Hroom1 : hn (timeheap (base w1)) < ha (timeheap (base w1))).
  { destruct (on (ev_flags v) EVLIST_TIMEOUT) eqn:Hon; [by apply Hin|]. rewrite Hout //. by apply Hroom. }
  assert (Hstay : unscheduled e w w1 xs xs1).
  { split; [apply H1|apply (lq_dropped _ _ _ _ _ _ _ _ H1)| |by eapply left_flagged|left; apply H1].
    rewrite (flagged_on _ _ _ v1); [|apply H1]. rewrite (lq_flags _ _ _ _ _ _ _ _ H1). by case_decide. }
  destruct (on (ev_flags v1) EVLIST_ACTIVE) eqn:Ha; [|by apply lruns_ret, (HQ w1 xs1)].
  destruct (on (ev_res v1) EV_TIMEOUT); [|by apply lruns_ret, (HQ w1 xs1)]. cbn [andb].
  rewrite abort_loop_none; last first. { apply (bo_events _ (bo_rest _ _ Hb1) e). apply H1. }
  apply lruns_bind, lruns_ret. pose proof (lruns_leave_active w1 xs1 e v1 Hb1 (lq_event _ _ _ _ _ _ _ _ H1) Q) as Hl.
  rewrite Ha in Hl. apply Hl. intros w2 v2 Hb2 H2 Hh2. apply (HQ w2 xs1); [done| |by rewrite Hh2].
  destruct Hstay as [S1 S2 S3 S4 S5]. split; [eapply touched_trans; [done|apply H2]|done| | |].
  - rewrite (left_flagged QA e v1 v2 w1 w2 xs1 xs1 QT H2 (lq_event _ _ _ _ _ _ _ _ H1)) //.
  - intros x. by rewrite (left_flagged QA e v1 v2 w1 w2 xs1 xs1 QI H2 (lq_event _ _ _ _ _ _ _ _ H1)) // S4.
  - right. rewrite (lq_active _ _ _ _ _ _ _ _ H2) (lq_active _ _ _ _ _ _ _ _ H1). done.
Qed.

(** ** Into the heap *)

Lemma touched_but_timeout e w w' v t :
  touched e (set_events (<[e := set_timeout t v]> (events w)) w) w' -> events w !! e = Some v ->
  others e w w' ∧ ∃ v', events w' !! e = Some v' ∧ reflagged (set_timeout t v) v'.
Proof.
  intros Ht Hv. split.
  - apply (others_trans _ _ (set_events (<[e := set_timeout t v]> (events w)) w)); [|by apply touched_others].
    intros x Hne. cbn. rewrite lookup_insert_ne //.
  - eapply touched_lookup; [done|]. cbn. by rewrite lookup_insert_eq.
Qed.

(** The event is in the heap with the time [t]. *)
Record scheduled (e : eid) (v : event) (t : timeval) (w w' : world) (xs xs' : list eid) : Prop := {
  sc_event : ∃ v', events w' !! e = Some v' ∧ reflagged (set_timeout t v) v';
  sc_others : others e w w';
  sc_heap : xs' ≡ₚ e :: xs;
  sc_inserted : ∀ x, flagged w' QI x <-> flagged w QI x;
  sc_active : activequeues (base w') = activequeues (base w) }.

Lemma event_add_time_normal tv abs now b w t (Q : timeval -> world -> Prop) :
  common_timeout_queues b = [] -> normal tv -> normal now -> t = (if abs : bool then tv else evutil_timeradd now tv) ->
  (normal t -> Q t w) -> lruns (event_add_time tv abs (Some now) b) w Q.
Proof.
  intros Hc Htv Hnow -> HQ. rewrite /event_add_time. destruct abs; [by apply lruns_ret, HQ|].
  apply lruns_bind, lruns_ret. rewrite is_common_timeout_none //. apply lruns_ret, HQ. by apply timeradd_usecs.
Qed.

(** The time, the heap, and the check for a common timeout. *)
Lemma lruns_schedule w xs e v tv abs K (Q : Z -> world -> Prop) :
  base_ok w xs -> events w !! e = Some v -> ~ flagged w QT e -> normal tv ->
  hn (timeheap (base w)) + 1 < 2 ^ 31 -> hn (timeheap (base w)) < ha (timeheap (base w)) ->
  (∀ now t w' xs', t = (if abs : bool then tv else evutil_timeradd now tv) -> base_ok w' xs' -> scheduled e v t w w' xs xs' ->
     lruns (K tt) w' Q) ->
  lruns (now ← gettime;
         b ← get_base;
         t ← event_add_time tv abs now b;
         _ ← mod_event e (set_timeout t);
         _ ← event_queue_insert e EVLIST_TIMEOUT;
         if is_common_timeout tv b then
           '(_, ctl) ← get_common_timeout_list t;
           match ctl_events ctl with
           | x :: _ =>
               if decide (x = e) then
                 _ ← event_add_internal 1 (timeout_event ctl) (Some (real_time t)) true;
                 mret tt
               else mret tt
           | [] => mret tt
           end
         else mret tt) w (fun x w' => lruns (K x) w' Q).
Proof.
  intros Hb Hv Hout Htv Hmax Hroom HQ. apply lruns_bind, lruns_gettime; [apply Hb|]. intros now w1 Hnow Hrt _.
  pose proof (base_ok_retimed _ _ _ Hrt Hb) as Hb1. assert (Hev : events w1 = events w) by by destruct Hrt as (? & ? & ? & ->).
  assert (Hh1 : timeheap (base w1) = timeheap (base w)) by by destruct Hrt as (? & ? & ? & ->).
  assert (Ha1 : activequeues (base w1) = activequeues (base w)) by by destruct Hrt as (? & ? & ? & ->).
  apply lruns_bind, lruns_get_base, lruns_bind. set (t := if abs then tv else evutil_timeradd now tv).
  apply (event_add_time_normal _ _ _ _ _ t); [apply Hb1|done|done|done|]. intros Ht.
  apply lruns_bind, (lruns_mod_event _ _ v); [by rewrite Hev|]. set (w2 := set_events _ w1).
  assert (Hb2 : base_ok w2 xs).
  { apply (base_ok_event w1 xs e v); [done|by rewrite Hev| |done|done|].
    - split; try done. intros Hin. exfalso. apply Hout. by apply (qo_member _ _ (bo_queues _ _ Hb) QT).
    - destruct (bo_events _ (bo_rest _ _ Hb) e v Hv). by split. }
  assert (Hv2 : events w2 !! e = Some (set_timeout t v)) by (cbn; by rewrite lookup_insert_eq).
  apply lruns_bind, (lruns_insert_timeout w2 xs e (set_timeout t v)); [apply Hb2|done| |by rewrite Hh1|by rewrite Hh1|].
  { rewrite (flagged_on _ _ _ v) // in Hout. apply not_true_iff_false. exact Hout. }
  intros w3 xs3 Hq3 Hm3 Hp3 Hb3. rewrite is_common_timeout_none; [|apply Hb1]. apply lruns_ret, (HQ now t w3 xs3); [done| |].
  - split; [done| |eapply rest_ok_moved; [done|done|apply Hb2|done]]. rewrite Hb3 /=. eapply maps_ok_moved; [done|done|apply Hb2].
  - assert (Ht3 : touched e (set_events (<[e := set_timeout t v]> (events w1)) w1) w3) by by eapply moved_touched.
    destruct (touched_but_timeout e w1 w3 v t Ht3) as [Ho He]; [by rewrite Hev|]. split; [done| |done| |].
    + intros x Hx. rewrite -Hev. by apply Ho.
    + intros x. rewrite (moved_flagged _ _ _ _ _ _ _ _ Hm3 Hv2). case_decide as Hc; [by destruct Hc|].
      destruct (decide (x = e)) as [->|Hne].
      * by rewrite (flagged_on w2 QI e (set_timeout t v)) // (flagged_on w QI e v).
      * rewrite /flagged. cbn. by rewrite lookup_insert_ne // Hev.
    + by rewrite Hb3 /= Ha1.
Qed.

(** ** event_add_internal *)

(** The event with its new time, in the heap; what it waits for is in the maps. *)
Record added (e : eid) (v : event) (tv : timeval) (abs : bool) (w w' : world) (xs xs' : list eid) : Prop := {
  ad_event : ∃ v' iot now, events w' !! e = Some v' ∧
    reflagged (set_timeout (if abs then tv else evutil_timeradd now tv) (set_io_timeout iot v)) v';
  ad_others : others e w w';
  ad_heap : xs' ≡ₚ e :: drop_event e xs;
  ad_inserted : on (ev_events v) EV_ANY = true -> ~ flagged w QA e -> flagged w' QI e;
  ad_active : activequeues (base w') = activequeues (base w) ∨ activequeues (base w') = drop_event e <$> activequeues (base w) }.

Lemma touched_others_only e w w' w2 : touched e w w' -> events w = events w2 -> others e w2 w'.
Proof. intros Ht He x Hne. rewrite -He. by apply (touched_others e w w' Ht x). Qed.

Lemma reflagged_io_timeout e v v1 v2 v3 v4 t iot :
  reflagged v v1 -> v2 = set_io_timeout iot v1 -> reflagged v2 v3 -> reflagged (set_timeout t v3) v4 ->
  e = v -> reflagged (set_timeout t (set_io_timeout iot e)) v4.
Proof. rewrite /reflagged. intros H1 -> H3 H4 ->. rewrite H4 H3 {1}H1. by destruct v. Qed.

Lemma others_trans3 e w1 w2 w3 w4 : others e w1 w2 -> others e w2 w3 -> others e w3 w4 -> others e w1 w4.
Proof. intros. eapply others_trans; [eassumption|]. by eapply others_trans. Qed.

Lemma drop_fmap_twice e (ls : list (list eid)) : drop_event e <$> (drop_event e <$> ls) = drop_event e <$> ls.
Proof.
  rewrite -list_fmap_compose. apply list_fmap_ext. intros _ l _. cbn. apply drop_absent. rewrite elem_of_drop. by intros [_ ?].
Qed.

(** With a timeout, once the maps are done. *)
Lemma lruns_add_timeout w0 w xs e v tv abs (Q : Z -> world -> Prop) :
  base_ok w xs -> events w0 !! e = Some v -> touched e w0 w -> activequeues (base w) = activequeues (base w0) ->
  (∀ x, x ≠ QI -> flagged w x e <-> flagged w0 x e) -> normal tv -> hn (timeheap (base w)) < 2 ^ 31 - 1 ->
  (on (ev_flags v) EVLIST_TIMEOUT = false -> hn (timeheap (base w)) < ha (timeheap (base w))) ->
  (on (ev_events v) EV_ANY = true -> ~ flagged w0 QA e -> flagged w QI e) ->
  (∀ w' xs', base_ok w' xs' -> added e v tv abs w0 w' xs xs' -> Q 0 w') ->
  lruns (_ ← (_ ← (if (ev_closure v =? EV_CLOSURE_PERSIST) && negb abs then mod_event e (set_io_timeout tv) else mret tt);
              _ ← event_add_unschedule e;
              now ← gettime;
              b ← get_base;
              t ← event_add_time tv abs now b;
              _ ← mod_event e (set_timeout t);
              _ ← event_queue_insert e EVLIST_TIMEOUT;
              if is_common_timeout tv b then
                '(_, ctl) ← get_common_timeout_list t;
                match ctl_events ctl with
                | x :: _ =>
                    if decide (x = e) then
                      _ ← event_add_internal 1 (timeout_event ctl) (Some (real_time t)) true;
                      mret tt
                    else mret tt
                | [] => mret tt
                end
              else mret tt);
         mret 0) w Q.
Proof.
  intros Hb Hv0 Ht Ha Hfl Htv Hmax Hroom Hins HQ. destruct (touched_lookup _ _ _ _ Ht Hv0) as (v1 & Hv1 & Hr1).
  assert (Hiot : ∃ iot, lruns (if (ev_closure v =? EV_CLOSURE_PERSIST) && negb abs then mod_event e (set_io_timeout tv) else mret tt) w
    (fun _ w' => w' = set_events (<[e := set_io_timeout iot v1]> (events w)) w ∧ normal iot)).
  { destruct (_ && _).
    - exists tv. by apply (lruns_mod_event _ _ v1).
    - exists (ev_io_timeout v1). apply lruns_ret. split; [|by apply (bo_events _ (bo_rest _ _ Hb) e)].
      rewrite (_ : set_io_timeout (ev_io_timeout v1) v1 = v1); [|by destruct v1]. rewrite insert_id //. by destruct w. }
  destruct Hiot as (iot & Hrun). apply lruns_bind, lruns_bind. eapply lruns_mono; [exact Hrun|]. intros [] w2' Hw2. destruct Hw2 as [-> Hn].
  set (w2 := set_events _ w). set (v2 := set_io_timeout iot v1).
  assert (Hv2 : events w2 !! e = Some v2) by (cbn; by rewrite lookup_insert_eq).
  assert (Hb2 : base_ok w2 xs).
  { apply (base_ok_event w xs e v1); try done. destruct (bo_events _ (bo_rest _ _ Hb) e v1 Hv1). by split. }
  assert (Hfl2 : ∀ q, flagged w2 q e <-> flagged w q e) by (intros q; by rewrite (flagged_on w2 q e v2) // (flagged_on w q e v1)).
  apply lruns_bind, (lruns_unschedule w2 xs e v2); [done|done|done| |].
  { intros Hoff. apply Hroom. apply not_true_iff_false. intros Hon. assert (Hf : flagged w2 QT e) by (apply Hfl2, Hfl; [done|by exists v]).
    rewrite (flagged_on w2 QT e v2) // in Hf. by rewrite Hoff in Hf. }
  intros w3 xs3 Hb3 [U1 U2 U3 U4 U5] Hroom3. destruct (touched_lookup _ _ _ _ U1 Hv2) as (v3 & Hv3 & Hr3).
  apply (lruns_schedule w3 xs3 e v3 tv abs); try done.
  { pose proof (hw_n _ _ _ (qo_heap _ _ (bo_queues _ _ Hb3))) as H3. pose proof (hw_n _ _ _ (qo_heap _ _ (bo_queues _ _ Hb))) as H0.
    assert (length xs3 <= length xs)%nat. { rewrite U2 /drop_event. apply length_filter. } lia. }
  intros now t w4 xs4 -> Hb4 [(v4 & Hv4 & Hr4) S2 S3 S4 S5]. apply lruns_ret, (HQ w4 xs4); [done|]. split.
  - exists v4, iot, now. split; [done|]. by apply (reflagged_io_timeout v v v1 v2 v3).
  - apply (others_trans3 _ _ w w3); [by apply touched_others| |done]. apply (others_trans _ _ w2); [|by apply touched_others].
    intros x Hne. cbn. by rewrite lookup_insert_ne.
  - by rewrite S3 U2.
  - intros Hany Hna. apply S4, U4, Hfl2. by apply Hins.
  - rewrite S5 -Ha. done.
Qed.

Lemma lruns_add_internal w xs e v tv abs (Q : Z -> world -> Prop) :
  base_ok w xs -> events w !! e = Some v -> (∀ t, tv = Some t -> normal t) -> hn (timeheap (base w)) < 2 ^ 31 - 1 ->
  (∀ w', base_ok w' xs -> events w' = events w -> activequeues (base w') = activequeues (base w) -> Q (-1) w') ->
  (tv = None -> ∀ w', base_ok w' xs -> touched e w w' -> inserted w w' ->
     (on (ev_events v) EV_ANY = true -> ~ flagged w QA e -> flagged w' QI e) -> Q 0 w') ->
  (∀ t w' xs', tv = Some t -> base_ok w' xs' -> added e v t abs w w' xs xs' -> Q 0 w') ->
  lruns (event_add_internal 2 e tv abs) w Q.
Proof.
  intros Hb Hv Htv Hmax Hbad Hnone Hsome. pose proof Hb as [Hq _ _]. cbn [event_add_internal].
  apply lruns_bind, (lruns_get_event _ v); [done|]. apply lruns_bind, lruns_get_base, lruns_bind.
  rewrite (fo_all _ _ (qo_flags _ _ Hq _ _ Hv)). apply lruns_ret, lruns_bind.
  apply (lruns_add_reserve w xs v tv); [done|done| |].
  { intros w' Hb' He' Ha'. by apply lruns_ret, Hbad. }
  intros w1 Hb1 He1 Ha1 Hmax1 Hroom1 Hheap1. cbn [Z.eqb]. assert (Hv1 : events w1 !! e = Some v) by by rewrite He1.
  assert (Hfl1 : ∀ q x, flagged w1 q x <-> flagged w q x) by (intros q x; by rewrite /flagged He1).
  apply lruns_bind, (lruns_add_evmap w1 xs e v); [done|done| |].
  - intros w2 Hb2 He2 Ha2. apply lruns_bind. destruct tv as [t|]; apply lruns_ret, lruns_ret, Hbad; try done; by rewrite ?He2 ?Ha2.
  - intros w2 Hb2 Ht2 Hi2 Hf2. pose proof Hi2 as [I1 I2 I3]. destruct tv as [t|]; last first.
    { apply lruns_bind, lruns_ret, lruns_ret, (Hnone eq_refl); [done|apply (touched_trans _ _ w1); [by apply touched_refl|done]| |].
      - split; [by rewrite I1 Hheap1|by rewrite I2|intros q x Hne; by rewrite I3 // Hfl1].
      - intros Hany Hna. apply Hf2; [done|]. by rewrite Hfl1. }
    cbn [Z.eqb]. apply (lruns_add_timeout w w2 xs e v t abs); [done|done| | | |by apply Htv|by rewrite I1| | |].
    + apply (touched_trans _ _ w1); [by apply touched_refl|done].
    + by rewrite I2.
    + intros q Hne. by rewrite I3 // Hfl1.
    + intros Hoff. rewrite I1. by apply Hroom1.
    + intros Hany Hna. apply Hf2; [done|]. by rewrite Hfl1.
    + intros w' xs' Hb' Had. by apply (Hsome t w' xs').
Qed.

(** The priority of an event in memory. *)
Definition pri (w : world) (e : eid) : Z := from_option ev_pri 0 (events w !! e).

(** What timeout_process does at the time [now]: the events [l] of the heap [xs]
    are due, [xs'] stay in the heap. *)
Record timed_out (now : timeval) (l : list eid) (w w' : world) (xs xs' : list eid) : Prop := {
  to_split : xs ≡ₚ l ++ xs';
  to_sorted : StronglySorted (ev_le w) l;
  to_due : Forall (fun e => tv_le (key w e) now) l;
  to_later : Forall (fun e => ~ tv_le (key w e) now) xs';
  to_active : ∀ e, e ∈ l -> flagged w' QA e ∧ ~ flagged w' QT e ∧ ~ flagged w' QI e ∧
    ∃ v v', events w !! e = Some v ∧ events w' !! e = Some v' ∧ ev_res v' = EV_TIMEOUT ∧ ev_callback v' = ev_callback v;
  to_queue : ∀ p q, activequeues (base w) !! p = Some q ->
    activequeues (base w') !! p = Some (filter (.∉ l) q ++ filter (fun e => pri w e = Z.of_nat p) l);
  to_levels : length (activequeues (base w')) = length (activequeues (base w));
  to_others : ∀ x, x ∉ l -> option_Forall2 but_idx (events w !! x) (events w' !! x) }.

Lemma others_key e w w' x : others e w w' -> x ≠ e -> key w' x = key w x ∧ pri w' x = pri w x.
Proof.
  intros Ho Hne. rewrite /key /pri. specialize (Ho x Hne). inversion Ho as [v v' Hb|]; [|done]. cbn. by rewrite (but_idx_eq v v' Hb).
Qed.

Lemma timed_out_none now w xs : Forall (fun e => ~ tv_le (key w e) now) xs -> timed_out now [] w w xs xs.
Proof.
  intros Hl. split; try done.
  - constructor.
  - by intros e ?%not_elem_of_nil.
  - intros p q Hq. rewrite Hq /= app_nil_r. f_equal. symmetry. clear. induction q as [|x q IH]; [done|].
    rewrite filter_cons_True; [by rewrite IH|]. apply not_elem_of_nil.
Qed.

Lemma filter_drop e l q : filter (.∉ e :: l) q = filter (.∉ l) (drop_event e q).
Proof.
  rewrite /drop_event list_filter_filter. apply list_filter_iff. intros x. rewrite not_elem_of_cons. split; [by intros [? ?]|by intros [? ?]].
Qed.

Lemma sorted_key w w2 l : (∀ x, x ∈ l -> key w2 x = key w x) -> StronglySorted (ev_le w2) l -> StronglySorted (ev_le w) l.
Proof.
  intros Hk Hs. induction Hs as [|x l Hs IH Hx]; constructor.
  - apply IH. intros y Hy. apply Hk. by right.
  - apply Forall_forall. intros y Hy. rewrite /ev_le -!Hk; [|by right|by left].
    by apply (proj1 (Forall_forall _ _) Hx).
Qed.

(** One event is taken out of the heap and activated. *)
Lemma timed_out_step now e v l w w1 w2 w' xs xs1 xs' :
  queues_ok w xs -> events w !! e = Some v -> head xs = Some e -> tv_le (ev_timeout v) now ->
  deleted e v w w1 xs xs1 -> (∀ v1, events w1 !! e = Some v1 -> activated e v1 EV_TIMEOUT w1 w2) ->
  timed_out now l w2 w' xs1 xs' -> timed_out now (e :: l) w w' xs xs'.
Proof.
  intros Hq Hv Hhd Hdue [Dt Df Dh Di Da _] Hac [Ts Tso Td Tl Ta Tq Tn To].
  destruct (touched_lookup _ _ _ _ Dt Hv) as (v1 & Hv1 & Hr1). destruct (Hac v1 Hv1) as [(i & n & He2) Ao (q0 & Hq0 & Aq) _ Ai _ _].
  assert (Ho : others e w w2) by (eapply others_trans; [by apply touched_others|done]).
  assert (Hnd : NoDup xs) by apply (qo_nodup _ _ Hq QT). assert (Hin : e ∈ xs) by (destruct xs; [done|injection Hhd as ->; by left]).
  assert (Hel : e ∉ l). { intros Hx. assert (Hx1 : e ∈ xs1) by (rewrite Ts; apply elem_of_app; by left). rewrite Dh in Hx1. by apply elem_of_drop in Hx1 as [_ ?]. }
  assert (Hex : e ∉ xs'). { intros Hx. assert (Hx1 : e ∈ xs1) by (rewrite Ts; apply elem_of_app; by right). rewrite Dh in Hx1. by apply elem_of_drop in Hx1 as [_ ?]. }
  assert (Hkey : ∀ x, x ∈ l ++ xs' -> key w2 x = key w x ∧ pri w2 x = pri w x).
  { intros x Hx. apply (others_key e); [done|]. intros ->. by apply elem_of_app in Hx as []. }
  assert (Hpri : pri w e = ev_pri v1) by (rewrite /pri Hv /=; by rewrite Hr1).
  assert (He' : option_Forall2 but_idx (events w2 !! e) (events w' !! e)) by by apply To.
  assert (Hxs : xs ≡ₚ e :: xs1). { rewrite Dh. destruct xs as [|x xs0]; [done|]. injection Hhd as ->. apply NoDup_cons in Hnd as [Hn _]. by rewrite drop_cons. }
  assert (Hfl : ∀ q, flagged w' q e <-> flagged w2 q e) by (intros q; by apply but_idx_flagged).
  assert (Hf2 : ∀ q, q ≠ QA -> ~ flagged w2 q e).
  { intros q Hne Hf. rewrite (flagged_on _ _ _ _ He2) in Hf. cbn in Hf. rewrite on_flag_to in Hf. case_decide; [done|].
    apply (Df q). by exists v1. }
  split.
  - by rewrite Hxs Ts.
  - constructor; [eapply sorted_key; [|exact Tso]; intros x Hx; by apply Hkey, elem_of_app; left|].
    apply Forall_forall. intros x Hx. apply (proj1 (Forall_forall _ _) (heap_min w xs e (hw_order _ _ _ (qo_heap _ _ Hq)) ltac:(by destruct xs))).
    rewrite Hxs Ts. right. by apply elem_of_app; left.
  - constructor; [by rewrite /key Hv|]. apply Forall_forall. intros x Hx. destruct (Hkey x) as [<- _].
    { apply elem_of_app. by left. } by apply (proj1 (Forall_forall _ _) Td).
  - apply Forall_forall. intros x Hx. destruct (Hkey x) as [<- _].
    { apply elem_of_app. by right. } by apply (proj1 (Forall_forall _ _) Tl).
  - intros x Hx. apply elem_of_cons in Hx as [->|Hx].
    + rewrite !Hfl. split_and!; [|by apply Hf2|by apply Hf2|].
      * rewrite (flagged_on _ _ _ _ He2). cbn. rewrite on_flag_to. by case_decide.
      * rewrite He2 in He'. inversion He' as [? v' Hb Hl1 Hl2|]; subst. exists v, v'. split_and!; [done|done| |].
        -- by rewrite (but_idx_eq _ _ Hb).
        -- by rewrite (but_idx_eq _ _ Hb) Hr1.
    + destruct (Ta x Hx) as (? & ? & ? & u & v' & Hu & Hv' & ? & Hcb). split_and!; try done.
      specialize (Ho x ltac:(by intros ->)). rewrite Hu in Ho. inversion Ho as [u0 ? Hb Hl1 Hl2|]; subst. exists u0, v'.
      split_and!; try done. by rewrite Hcb (but_idx_eq _ _ Hb).
  - intros p q Hp. rewrite filter_drop. set (p0 := Z.to_nat (ev_pri v1)).
    assert (Hq1 : activequeues (base w1) !! p = Some (drop_event e q)) by by rewrite Da list_lookup_fmap Hp.
    assert (Hpl : filter (fun x => pri w2 x = Z.of_nat p) l = filter (fun x => pri w x = Z.of_nat p) l).
    { apply list_filter_iff'. intros x Hx. destruct (Hkey x) as [_ ->]; [apply elem_of_app; by left|done]. }
    assert (Hpos : 0 <= ev_pri v1). { destruct (qo_flags _ _ Hq _ _ Hv) as [_ _ Hp1]. rewrite Hr1. cbn. lia. }
    rewrite filter_cons Hpri. destruct (decide (p = p0)) as [Hpp|Hne].
    + case_decide as Hd; [|exfalso; apply Hd; rewrite Hpp /p0; lia]. rewrite Hpp in Hq1. rewrite Hq0 in Hq1. injection Hq1 as ->.
      rewrite (Tq p (drop_event e q ++ [e])); [|rewrite Aq Hpp list_lookup_insert_eq; [done|by eapply lookup_lt_Some]].
      f_equal. rewrite Hpl filter_app filter_cons_True // -app_assoc. done.
    + case_decide as Hd; [exfalso; apply Hne; rewrite /p0 Hd; lia|]. rewrite (Tq p (drop_event e q)); [by rewrite Hpl|].
      rewrite Aq list_lookup_insert_ne //.
  - by rewrite Tn Aq length_insert Da length_fmap.
  - intros x [Hne Hx]%not_elem_of_cons. specialize (To x Hx). specialize (Ho x Hne).
    inversion Ho as [u1 u2 Hb Hu1 Hu2|Hu1 Hu2]; rewrite -Hu2 in To; inversion To; constructor. by etrans.
Qed.

(** ** timeout_process *)

Lemma lruns_heap_top w xs (Q : option eid -> world -> Prop) :
  queues_ok w xs -> Q (head xs) w -> lruns heap_top w Q.
Proof. intros Hq HQ. apply lruns_bind, lruns_get_base, (lruns_top w _ xs); [apply Hq|done]. Qed.

Lemma lruns_eq {A} (m : L A) w (Q : A -> world -> Prop) a w' : m w = inr (a, w') -> Q a w' -> lruns m w Q.
Proof. rewrite /lruns. by intros ->. Qed.

Lemma gettime_run w :
  rest_ok w -> ∃ now w1, gettime w = inr (Some now, w1) ∧ normal now ∧ retimed w w1.
Proof.
  intros Hr. assert (Hg : lruns gettime w (fun t w1 => ∃ now, t = Some now ∧ normal now ∧ retimed w w1)).
  { apply lruns_gettime; [done|]. intros t w1 Hn Hrt _. eauto. }
  apply lruns_run in Hg as (t & w1 & He & now & -> & Hn & Hrt). eauto.
Qed.

Lemma deleted_length e v w w1 xs xs1 : deleted e v w w1 xs xs1 -> e ∈ xs -> (length xs1 < length xs)%nat.
Proof.
  intros [_ _ -> _ _ _] Hin. rewrite /drop_event. apply list_elem_of_lookup_1 in Hin as [i Hi].
  rewrite -{2}(take_drop_middle xs i e Hi) -{1}(take_drop_middle xs i e Hi) filter_app filter_cons_False; [|by intros []].
  rewrite !length_app /=. pose proof (length_filter (.≠ e) (take i xs)). pose proof (length_filter (.≠ e) (drop (S i) xs)). lia.
Qed.

(** Every turn takes an event out of the heap, so that as many turns as there
    are events are enough. *)
Lemma lruns_timeout_loop fuel w xs now :
  base_ok w xs -> (length xs < fuel)%nat ->
  lruns (timeout_loop fuel now) w (fun _ w' => ∃ l xs', base_ok w' xs' ∧ timed_out now l w w' xs xs').
Proof.
  revert w xs. induction fuel as [|fuel IH]; intros w xs Hb Hf; [lia|]. cbn [timeout_loop]. pose proof Hb as [Hq _ _].
  apply lruns_bind, (lruns_heap_top w xs); [done|]. destruct xs as [|e xs0] eqn:Hxs; cbn [head].
  { apply lruns_ret. exists [], []. split; [done|]. by apply timed_out_none. }
  rewrite -Hxs in Hb, Hf, Hq |- *. assert (Hhd : head xs = Some e) by by rewrite Hxs. assert (Hin : e ∈ xs) by (rewrite Hxs; by left).
  destruct (is_heap_event _ _ _ e (qo_heap _ _ Hq) Hin) as [v Hv]. apply lruns_bind, (lruns_get_event _ v); [done|].
  destruct (evutil_timercmp (ev_timeout v) now Z.gtb) eqn:Hcmp.
  - apply lruns_ret. exists [], xs. split; [done|]. apply timed_out_none, Forall_forall. intros x Hx Hle.
    apply timercmp_gt in Hcmp. apply Hcmp. transitivity (key w x); [|done].
    pose proof (proj1 (Forall_forall _ _) (heap_min w xs e (hw_order _ _ _ (qo_heap _ _ Hq)) ltac:(by rewrite Hxs)) x Hx) as Hmin.
    by rewrite /ev_le {1}/key Hv in Hmin.
  - apply timercmp_gt_false in Hcmp. apply lruns_bind, (lruns_del_internal w xs e v); [done|done|]. intros w1 xs1 Hb1 Hd.
    destruct (touched_lookup _ _ _ _ (de_touched _ _ _ _ _ _ Hd) Hv) as (v1 & Hv1 & Hr1).
    assert (Hoff : on (ev_flags v1) EVLIST_ACTIVE = false).
    { apply not_true_iff_false. intros Hon. apply (de_flags _ _ _ _ _ _ Hd QA). by exists v1. }
    apply lruns_bind, (lruns_active w1 xs1 e v1); [done|done|done|by rewrite Hoff|]. intros _ w2 Hb2 Hac.
    eapply lruns_mono; [apply (IH w2 xs1 Hb2); pose proof (deleted_length _ _ _ _ _ _ Hd Hin); lia|].
    intros _ w' (l & xs' & Hb' & Ht). exists (e :: l), xs'. split; [done|].
    apply (timed_out_step now e v l w w1 w2 w' xs xs1 xs'); try done. intros v1' Hv1'. by replace v1' with v1 by congruence.
Qed.

Lemma lruns_timeout_process w xs :
  base_ok w xs ->
  lruns timeout_process w (fun _ w' => xs = [] ∧ w' = w ∨ ∃ now w1 l xs', gettime w = inr (Some now, w1) ∧
    base_ok w' xs' ∧ timed_out now l w1 w' xs xs').
Proof.
  intros Hb. pose proof (hw_n _ _ _ (qo_heap _ _ (bo_queues _ _ Hb))) as Hn. rewrite /timeout_process /min_heap_empty.
  apply lruns_bind, lruns_get_base. rewrite Hn. destruct xs as [|x xs0] eqn:Hxs; [apply lruns_ret; by left|].
  rewrite -Hxs in Hb, Hn |- *. rewrite (proj2 (Z.eqb_neq _ _)); [|rewrite Hxs /=; lia].
  destruct (gettime_run w (bo_rest _ _ Hb)) as (now & w1 & He & _ & Hr). apply lruns_bind, (lruns_eq _ _ _ _ _ He), lruns_bind, lruns_ret.
  eapply lruns_mono; [apply (lruns_timeout_loop _ w1 xs now)|].
  - by eapply base_ok_retimed.
  - rewrite Nat2Z.id. lia.
  - intros _ w' (l & xs' & Hb' & Ht). right. exists now, w1, l, xs'. done.
Qed.

(** ** timeout_next *)

(** How long until the earliest of the events in the heap is due: [None] if there
    is none. *)
Definition until (w : world) (xs : list eid) (now : timeval) (wait : option timeval) : Prop :=
  match wait with
  | None => xs = []
  | Some t => ∃ e, e ∈ xs ∧ Forall (ev_le w e) xs ∧ normal t ∧ usecs t = Z.max 0 (usecs (key w e) - usecs now)
  end.

Lemma lruns_timeout_next w xs :
  base_ok w xs ->
  lruns timeout_next w (fun r w' => base_ok w' xs ∧ ∃ wait, r = Some wait ∧
    (xs = [] ∧ wait = None ∧ w' = w ∨ ∃ now, gettime w = inr (Some now, w') ∧ until w xs now wait)).
Proof.
  intros Hb. pose proof Hb as [Hq _ Hr]. rewrite /timeout_next. apply lruns_bind, (lruns_heap_top w xs); [done|].
  destruct xs as [|e xs0] eqn:Hxs; cbn [head].
  { apply lruns_ret. split; [done|]. exists None. split; [done|]. by left. }
  rewrite -Hxs in Hb, Hq |- *. assert (Hin : e ∈ xs) by (rewrite Hxs; by left).
  destruct (is_heap_event _ _ _ e (qo_heap _ _ Hq) Hin) as [v Hv]. apply lruns_bind, (lruns_get_event _ v); [done|].
  destruct (gettime_run w Hr) as (now & w1 & He & Hnow & Hrt). apply lruns_bind, (lruns_eq _ _ _ _ _ He).
  assert (Hb1 : base_ok w1 xs) by by eapply base_ok_retimed.
  assert (Hmin : Forall (ev_le w e) xs) by (apply heap_min; [apply (qo_heap _ _ Hq)|by rewrite Hxs]).
  assert (Hkey : key w e = ev_timeout v) by by rewrite /key Hv.
  pose proof (eo_timeout _ (bo_events _ Hr _ _ Hv)) as Hnv.
  destruct (evutil_timercmp (ev_timeout v) now Z.leb) eqn:Hcmp.
  - apply timercmp_le in Hcmp. apply lruns_ret. split; [done|]. exists (Some timer_zero). split; [done|]. right. exists now. split; [done|].
    exists e. split_and!; [done|done|done|]. rewrite Hkey. apply tv_le_usecs in Hcmp; [|done|done]. rewrite /usecs /= in Hcmp |- *. lia.
  - assert (Hgt : usecs now < usecs (ev_timeout v)).
    { apply Z.nle_gt. intros Hle. apply tv_le_usecs in Hle; [|done|done]. apply timercmp_le in Hle. by rewrite Hle in Hcmp. }
    destruct (timersub_usecs _ _ Hnv Hnow) as [Hns Hs]. cbn zeta. set (tv := evutil_timersub (ev_timeout v) now) in *.
    rewrite /normal in Hns. rewrite /usecs in Hgt, Hs. apply lruns_bind, lruns_assert; [apply Z.leb_le; lia|].
    apply lruns_bind, lruns_assert; [apply Z.leb_le; lia|]. apply lruns_ret. split; [done|]. exists (Some tv). split; [done|].
    right. exists now. split; [done|]. exists e. split_and!; [done|done|done|]. rewrite Hkey /usecs. lia.
Qed.

(** ** timeout_correct *)

(** The event when the clock has gone back by [off]. *)
Definition shifted (off : timeval) (v : event) : event := set_timeout (evutil_timersub (ev_timeout v) off) v.

Lemma lruns_shift_heap s xs off i n w (Q : unit -> world -> Prop) :
  (∀ j x, xs !! j = Some x -> hp s !! j = Some (Some x)) -> NoDup xs -> (i + n = length xs)%nat ->
  (∀ x, x ∈ xs -> is_Some (events w !! x)) ->
  (∀ evs, (∀ x, evs !! x = if decide (x ∈ drop i xs) then shifted off <$> events w !! x else events w !! x) -> Q tt (set_events evs w)) ->
  lruns (shift_heap s i n off) w Q.
Proof.
  intros Hs Hnd. revert i w. induction n as [|n IH]; intros i w Hi Hk HQ; cbn [shift_heap].
  { apply lruns_ret. replace w with (set_events (events w) w) by by destruct w. apply HQ. intros x. rewrite drop_ge; [|lia].
    case_decide as Hx; [by apply not_elem_of_nil in Hx|done]. }
  destruct (lookup_lt_is_Some_2 xs i) as [e He]; [lia|]. assert (Hd : drop i xs = e :: drop (S i) xs) by by apply drop_S.
  assert (Hin : e ∈ xs) by by eapply list_elem_of_lookup_2. destruct (Hk e Hin) as [v Hv].
  assert (Hne : e ∉ drop (S i) xs). { intros Hx. pose proof Hnd as Hn. rewrite -(take_drop i xs) Hd in Hn.
    apply NoDup_app in Hn as (_ & _ & Hn). by apply NoDup_cons in Hn as [? _]. }
  apply lruns_bind. rewrite {1}/slot (proj2 (Z.leb_le _ _)); [|lia]. rewrite Nat2Z.id (Hs i e He). apply lruns_ret, lruns_bind.
  rewrite /shift_event. apply (lruns_mod_event _ _ v); [done|]. apply IH; [lia| |].
  - intros x Hx. cbn. apply lookup_insert_is_Some'. by right; apply Hk.
  - intros evs Hevs. rewrite (_ : set_events evs _ = set_events evs w); [|done]. apply HQ. intros x. rewrite Hevs Hd. cbn.
    destruct (decide (x = e)) as [->|Hx].
    + case_decide; [done|]. case_decide as Hc; [by rewrite lookup_insert_eq Hv|]. destruct Hc. by left.
    + rewrite lookup_insert_ne //. destruct (decide (x ∈ drop (S i) xs)) as [H1|H1], (decide (x ∈ e :: drop (S i) xs)) as [H2|H2]; try done; exfalso.
      * apply H2. by right.
      * by apply elem_of_cons in H2 as [?|?].
Qed.

Lemma base_ok_shifted w xs evs off :
  base_ok w xs -> normal off -> (∀ x, evs !! x = if decide (x ∈ xs) then shifted off <$> events w !! x else events w !! x) ->
  base_ok (set_events evs w) xs.
Proof.
  intros [Hq Hm Hr] Hoff Hevs. pose proof (qo_heap _ _ Hq) as Hh.
  assert (Hx : ∀ x v', evs !! x = Some v' -> ∃ v, events w !! x = Some v ∧ (v' = v ∨ v' = shifted off v)).
  { intros x v' Hv'. rewrite Hevs in Hv'. case_decide; [|eauto]. destruct (events w !! x) as [v|]; [|done]. injection Hv' as <-. eauto. }
  split.
  - apply (queues_ok_frame w); [done|done| |].
    + intros x. cbn. rewrite Hevs. case_decide; destruct (events w !! x); by constructor.
    + split; try apply Hh; cbn.
      * intros i x Hi Hne. destruct (hw_idx _ _ _ Hh i x Hi Hne) as (v & Hv & Hidx). exists (shifted off v). cbn.
        rewrite Hevs decide_True; [by rewrite Hv|by eapply list_elem_of_lookup_2].
      * intros i x y Hi Hx' Hy. pose proof (hw_order _ _ _ Hh i x y Hi Hx' Hy) as Ho. rewrite /ev_le /key in Ho |- *. cbn.
        rewrite !Hevs !decide_True; [|by eapply list_elem_of_lookup_2..].
        destruct (is_heap_event w _ xs x Hh) as [u Hu]; [by eapply list_elem_of_lookup_2|].
        destruct (is_heap_event w _ xs y Hh) as [v Hv]; [by eapply list_elem_of_lookup_2|]. rewrite Hu Hv /= in Ho |- *.
        pose proof (eo_timeout _ (bo_events _ Hr _ _ Hu)) as Nu. pose proof (eo_timeout _ (bo_events _ Hr _ _ Hv)) as Nv.
        destruct (timersub_usecs _ _ Nu Hoff) as [Nu' Eu]. destruct (timersub_usecs _ _ Nv Hoff) as [Nv' Ev].
        apply tv_le_usecs; [done|done|]. apply tv_le_usecs in Ho; [|done|done]. lia.
  - apply (maps_ok_frame w _ (eventqueue (base w))); try done. intros x. rewrite /waits. cbn. rewrite Hevs.
    case_decide; [|done]. by destruct (events w !! x).
  - destruct Hr as [He Hs Hc Htv Hd Hbd Hf]. split; try done.
    + intros x v' Hv'. destruct (Hx x v' Hv') as (v & Hv & [->| ->]); [eauto|]. destruct (He _ _ Hv). split; try done.
      by apply timersub_usecs.
    + cbn. rewrite (size_same evs (events w)) //. intros x. rewrite Hevs. case_decide; [|done]. by rewrite fmap_is_Some.
    + intros x v' Hv'. destruct (Hx x v' Hv') as (v & Hv & _). eauto.
Qed.

Lemma lruns_timeout_correct w xs (Q : option timeval -> world -> Prop) :
  base_ok w xs ->
  (∀ r w', base_ok w' xs -> length (activequeues (base w')) = length (activequeues (base w)) -> Q r w') ->
  lruns timeout_correct w Q.
Proof.
  intros Hb HQ. rewrite /timeout_correct. apply lruns_bind. rewrite {1}/lruns /get_world. destruct (use_monotonic w); [by apply lruns_ret, HQ|].
  apply lruns_bind, lruns_gettime; [apply Hb|]. intros tv w1 Htv Hrt _. pose proof (base_ok_retimed _ _ _ Hrt Hb) as Hb1.
  assert (Hl1 : activequeues (base w1) = activequeues (base w)) by (by destruct Hrt as (? & ? & ? & ->)).
  apply lruns_bind, lruns_ret, lruns_bind, lruns_get_base.
  assert (Hset : ∀ w2, base_ok w2 xs -> base_ok (set_event_base (set_event_tv tv (base w2)) w2) xs) by (intros w2 H2; by apply (base_ok_same w2)).
  destruct (evutil_timercmp tv (event_tv (base w1)) Z.geb).
  { apply lruns_bind, lruns_mod_base, lruns_ret, HQ; [by apply Hset|by rewrite /= Hl1]. }
  pose proof (qo_heap _ _ (bo_queues _ _ Hb1)) as Hh. pose proof (hw_n _ _ _ Hh) as Hn.
  set (off := evutil_timersub (event_tv (base w1)) tv). assert (Hoff : normal off) by (apply timersub_usecs; [apply Hb1|done]).
  apply lruns_bind, (lruns_shift_heap _ xs off 0 _ w1); [apply Hh|apply Hh|lia|intros x; by apply (is_heap_event _ _ _ _ Hh)|].
  intros evs Hevs. rewrite (qo_common _ _ (bo_queues _ _ Hb1)). apply lruns_bind, lruns_ret, lruns_bind, lruns_mod_base, lruns_ret, HQ.
  - apply Hset. by apply (base_ok_shifted w1 xs evs off).
  - by rewrite /= Hl1.
Qed.
