(* ===== verification/EvLoopApi.v ===== *)
(** * An event base: new events, old events and ready descriptors

    The operations that change which events there are, and those by which the
    backend makes events active, keep the invariant. *)

From Stdlib Require Import ssreflect.
From S2P Require Import Prelude CTypes HProp CMem EvTime EvEvent EvHeap EvHeapSpec EvMap EvLoop EvLoopSpec EvMapSpec EvLoopOps.
Set Warnings "-rewrite-rw".
Open Scope general_if_scope.
Open Scope Z_scope.

(** ** An event that is in no queue comes or goes *)

Section altered.
Context (w w' : world) (xs : list eid) (e : eid).
Context (Hb : base_ok w xs) (Hout : ∀ q, ~ flagged w q e) (Hout' : ∀ q, ~ flagged w' q e).
Context (Hsame : ∀ x, x ≠ e -> events w' !! x = events w !! x).

Lemma altered_notin q : e ∉ qlist q (base w) xs.
Proof. rewrite (qo_member _ _ (bo_queues _ _ Hb)). apply Hout. Qed.

Lemma queues_ok_altered :
  base w' = base w -> (∀ v, events w' !! e = Some v -> flags_ok (length (activequeues (base w))) v) -> queues_ok w' xs.
Proof.
  intros Hbase Hfl. pose proof (bo_queues _ _ Hb) as Hq. split; rewrite ?Hbase; try apply Hq.
  - apply (is_heap_frame w); [apply Hq|]. intros x v Hx Hv. exists v. split; [|done]. rewrite Hsame //.
    intros ->. by apply (altered_notin QT).
  - intros q x. rewrite (qo_member _ _ Hq). destruct (decide (x = e)) as [->|Hne].
    + split; [by intros ?%Hout|by intros ?%Hout'].
    + rewrite /flagged Hsame //.
  - intros x v Hv. destruct (decide (x = e)) as [->|Hne]; [by apply Hfl|]. rewrite Hsame // in Hv. by eapply qo_flags.
  - intros i l x Hl Hx. rewrite Hsame; [by eapply qo_place|]. intros ->. apply (altered_notin QA). cbn.
    apply list_elem_of_In, in_concat. exists l. split; apply list_elem_of_In; [by eapply list_elem_of_lookup_2|done].
Qed.

Lemma maps_ok_altered : base w' = base w -> calls w' = calls w -> maps_ok w' (eventqueue (base w)).
Proof.
  intros Hbase Hc. pose proof (altered_notin QI) as Hni. cbn in Hni. destruct (bo_maps _ _ Hb) as [Hio Hsig Hioin Hsigin Htold].
  assert (Hw : ∀ x, x ∈ eventqueue (base w) -> waits w' x = waits w x).
  { intros x Hx. rewrite /waits Hsame //. by intros ->. }
  split; rewrite ?Hbase ?Hc //.
  - intros i ctx Hs. destruct (Hio i ctx Hs) as [Hn Hr Hwr Hm]. assert (Hcnt : ∀ what, wanting w' what (io_events ctx) = wanting w what (io_events ctx)).
    { intros what. rewrite /wanting. do 2 f_equal. apply list_filter_iff'. intros x Hx. rewrite /wants Hw //.
      assert (Hin : x ∈ io_list (base w) i) by by rewrite /io_list Hs. by apply Hioin in Hin as [? _]. }
    split; rewrite ?Hcnt //.
  - intros i x. rewrite Hioin. split; intros [Hin Hwt]; (split; [done|]); rewrite /waits_io; [by rewrite Hw|by rewrite -Hw].
  - intros i x. rewrite Hsigin. split; intros [Hin Hwt]; (split; [done|]); rewrite /waits_sig; [by rewrite Hw|by rewrite -Hw].
Qed.

End altered.

Lemma base_ok_deleted w xs e :
  base_ok w xs -> (∀ q, ~ flagged w q e) -> base_ok (set_events (delete e (events w)) w) xs.
Proof.
  intros Hb Hout. set (w' := set_events _ w).
  assert (Hout' : ∀ q, ~ flagged w' q e) by (intros q (v & Hv & _); cbn in Hv; by rewrite lookup_delete_eq in Hv).
  assert (Hsame : ∀ x, x ≠ e -> events w' !! x = events w !! x) by (intros x Hne; cbn; by rewrite lookup_delete_ne).
  split.
  - apply (queues_ok_altered w w' xs e); try done. intros v Hv. cbn in Hv. by rewrite lookup_delete_eq in Hv.
  - by apply (maps_ok_altered w w' xs e).
  - destruct Hb as [_ _ [He Hs Hc Htv Hd Hbd Hf]]. split; try done; cbn; [intros x v [_ Hv]%lookup_delete_Some; eauto| |
      intros x v [_ Hv]%lookup_delete_Some; eauto].
    assert (size (delete e (events w)) <= size (events w))%nat; [|lia].
    rewrite -!size_dom dom_delete_L. apply subseteq_size. by apply subseteq_difference_l.
Qed.

Lemma base_ok_new w xs v :
  base_ok w xs -> Z.of_nat (size (events w)) < 2 ^ 31 - 2 ->
  event_ok v -> flags_ok (length (activequeues (base w))) v -> (∀ q, on (ev_flags v) (qflag q) = false) ->
  base_ok (set_events (<[next_eid w := v]> (events w)) (set_next (Pos.succ (next_eid w)) w)) xs.
Proof.
  intros Hb Hbound Hok Hfl Hoff. set (e := next_eid w). set (w' := set_events _ _).
  assert (Hnone : events w !! e = None).
  { destruct (events w !! e) eqn:Hv; [|done]. apply (bo_fresh _ (bo_rest _ _ Hb)) in Hv. rewrite /e in Hv. lia. }
  assert (Hout : ∀ q, ~ flagged w q e) by (intros q (u & Hu & _); by rewrite Hnone in Hu).
  assert (Hv : events w' !! e = Some v) by (cbn; by rewrite lookup_insert_eq).
  assert (Hout' : ∀ q, ~ flagged w' q e) by (intros q; rewrite (flagged_on _ _ _ _ Hv) Hoff //).
  assert (Hsame : ∀ x, x ≠ e -> events w' !! x = events w !! x) by (intros x Hne; cbn; by rewrite lookup_insert_ne).
  split.
  - apply (queues_ok_altered w w' xs e); try done. intros u Hu. by replace u with v by congruence.
  - by apply (maps_ok_altered w w' xs e).
  - destruct Hb as [_ _ [He Hs Hc Htv Hd Hbd Hf]]. split; try done; cbn.
    + intros x u [[<- <-]|[Hne Hu]]%lookup_insert_Some; eauto.
    + rewrite map_size_insert_None //. lia.
    + intros x u [[<- <-]|[Hne Hu]]%lookup_insert_Some; [lia|]. apply Hf in Hu. lia.
Qed.

(** ** event_new, event_free and event_priority_set *)

Definition fd_ok (fd what : Z) : Prop :=
  (on what EV_RW = true -> fd < 2 ^ 30) ∧ (on what EV_SIGNAL = true -> 0 <= fd < 2 ^ 30).

Lemma base_ok_oom w xs o : base_ok w xs -> base_ok (set_oom o w) xs.
Proof. intros Hb. by apply (base_ok_same w). Qed.

Lemma lruns_mm_alloc w (Q : bool -> world -> Prop) : (∀ b o, Q b (set_oom o w)) -> lruns mm_alloc w Q.
Proof.
  intros HQ. rewrite /lruns /mm_alloc. destruct (heap_oom w) as [|b o] eqn:Ho; [|apply HQ].
  replace w with (set_oom [] w); [apply HQ|]. clear -Ho. destruct w. cbn in Ho. by subst.
Qed.

(** The event that event_assign makes of a new one. *)
Definition assigned_event (levels : nat) (fd what : Z) (f arg : Z) : event :=
  Event (-1) fd true timer_zero 0 None what 0 EVLIST_INIT (Z.of_nat levels / 2)
    (if on what EV_SIGNAL then EV_CLOSURE_SIGNAL else if on what EV_PERSIST then EV_CLOSURE_PERSIST else EV_CLOSURE_NONE)
    timer_zero (CbUser f) arg.

Lemma assigned_ok levels fd what f arg :
  fd_ok fd what -> on what EV_SIGNAL && on what EV_RW = false -> (0 < levels < 256)%nat ->
  event_ok (assigned_event levels fd what f arg) ∧ flags_ok levels (assigned_event levels fd what f arg).
Proof.
  intros [Hio Hsig] Hboth Hl. split; split; cbn; try done.
  - intros Hon. split; [|by apply Hsig]. by rewrite Hon in Hboth.
  - by eexists.
  - destruct (on what EV_SIGNAL); [done|]. by destruct (on what EV_PERSIST).
  - split; [apply Z.div_pos; lia|]. apply Z.div_lt_upper_bound; lia.
Qed.

(** The result of event_new: a new event, or none for want of memory or because
    it waits for a signal and for a descriptor. *)
Lemma lruns_event_new w xs fd what f arg (Q : option eid -> world -> Prop) :
  base_ok w xs -> Z.of_nat (size (events w)) < 2 ^ 31 - 2 -> fd_ok fd what ->
  (∀ w', base_ok w' xs -> Q None w') ->
  (∀ o, let w1 := set_oom o w in
     let w' := set_events (<[next_eid w1 := assigned_event (length (activequeues (base w1))) fd what f arg]> (events w1))
                 (set_next (Pos.succ (next_eid w1)) w1) in
     base_ok w' xs -> Q (Some (next_eid w)) w') ->
  lruns (event_new true fd what (CbUser f) arg) w Q.
Proof.
  intros Hb Hbound Hfd Hnone Hsome. rewrite /event_new. apply lruns_bind, lruns_mm_alloc. intros b o. pose proof (base_ok_oom _ _ o Hb) as Hb1.
  destruct b; cbn [negb]; [|by apply lruns_ret, Hnone]. pose proof (qo_levels _ _ (bo_queues _ _ Hb)) as Hl.
  set (w1 := set_oom o w) in *. set (e := next_eid w1). apply lruns_bind. rewrite {1}/lruns /fresh -/e.
  apply lruns_bind. rewrite {1}/lruns /mod_events. set (w2 := set_events _ _).
  assert (He2 : events w2 !! e = Some blank_event) by (cbn; by rewrite lookup_insert_eq).
  apply lruns_bind. rewrite /event_assign. apply lruns_bind, lruns_get_base, lruns_bind, (lruns_get_event _ blank_event); [done|].
  rewrite -/EV_RW. destruct (on what EV_SIGNAL && on what EV_RW) eqn:Hboth.
  - apply lruns_bind, (lruns_mod_event _ _ blank_event); [done|]. apply lruns_ret. cbn [Z.ltb Z.compare]. apply lruns_bind.
    rewrite {1}/lruns /mod_events. apply lruns_ret, Hnone.
    assert (Hd : events w1 !! e = None).
    { destruct (events w1 !! e) eqn:Hv; [|done]. apply (bo_fresh _ (bo_rest _ _ Hb1)) in Hv. rewrite /e in Hv. lia. }
    apply (base_ok_frame w1); try done; [|cbn; lia]. intros x. cbn. rewrite insert_insert_eq delete_insert_id //.
    destruct (events w !! x) as [v|] eqn:Hv; constructor. split_and!; [done|done|done|by apply (bo_events _ (bo_rest _ _ Hb) x)].
  - apply lruns_bind, (lruns_mod_event _ _ blank_event); [done|]. apply lruns_ret. cbn [Z.ltb Z.compare]. apply lruns_ret.
    destruct (assigned_ok (length (activequeues (base w1))) fd what f arg) as [Hok Hfl]; [done|done|done|].
    pose proof (base_ok_new w1 xs _ Hb1 Hbound Hok Hfl ltac:(by intros [])) as Hb'. specialize (Hsome o Hb'). move: Hsome.
    rewrite /set_events /set_next /= insert_insert_eq. rewrite (_ : min_heap_elem_init _ = assigned_event (length (activequeues (base w))) fd what f arg) //.
    rewrite /assigned_event /min_heap_elem_init /set_idx /=. f_equal.
    + destruct (on what EV_SIGNAL); [done|]. by destruct (on what EV_PERSIST).
    + rewrite u8_small //. split; [apply Z.div_pos; lia|]. apply Z.div_lt_upper_bound; lia.
Qed.

Lemma lruns_event_del w xs e v (Q : Z -> world -> Prop) :
  base_ok w xs -> events w !! e = Some v ->
  (∀ w' xs', base_ok w' xs' -> deleted e v w w' xs xs' -> Q 0 w') -> lruns (event_del e) w Q.
Proof.
  intros Hb Hv HQ. rewrite /event_del. apply lruns_bind, (lruns_get_event _ v); [done|].
  rewrite (eo_base _ (bo_events _ (bo_rest _ _ Hb) _ _ Hv)). by apply (lruns_del_internal w xs e v).
Qed.

Lemma lruns_event_free w xs e v (Q : unit -> world -> Prop) :
  base_ok w xs -> events w !! e = Some v ->
  (∀ w1 xs', deleted e v w w1 xs xs' -> base_ok (set_events (delete e (events w1)) w1) xs' ->
     Q tt (set_events (delete e (events w1)) w1)) -> lruns (event_free e) w Q.
Proof.
  intros Hb Hv HQ. rewrite /event_free. apply lruns_bind, (lruns_event_del w xs e v); [done|done|]. intros w1 xs' Hb1 Hd.
  rewrite /lruns /mod_events. apply (HQ w1 xs'); [done|]. apply base_ok_deleted; [done|apply Hd].
Qed.

Lemma lruns_priority_set w xs e v pri (Q : Z -> world -> Prop) :
  base_ok w xs -> events w !! e = Some v ->
  (∀ r w', base_ok w' xs -> dom (events w') = dom (events w) -> Q r w') -> lruns (event_priority_set e pri) w Q.
Proof.
  intros Hb Hv HQ. rewrite /event_priority_set. apply lruns_bind, (lruns_get_event _ v); [done|]. apply lruns_bind, lruns_get_base.
  destruct (on (ev_flags v) EVLIST_ACTIVE) eqn:Hact; [by apply lruns_ret, HQ|].
  destruct (Z.ltb_spec pri 0) as [H0|H0]; [by apply lruns_ret, HQ|].
  destruct (Z.leb_spec (Z.of_nat (length (activequeues (base w)))) pri) as [H1|H1]; [by apply lruns_ret, HQ|]. cbn [orb].
  pose proof Hb as [Hq Hm Hr]. pose proof (qo_levels _ _ Hq) as Hl. rewrite u8_small; [|lia].
  apply lruns_bind, (lruns_mod_event _ _ v); [done|]. apply lruns_ret. set (w' := set_events _ w).
  assert (Hev : events w' !! e = Some (set_pri pri v)) by (cbn; by rewrite lookup_insert_eq).
  assert (Hne : ∀ x, x ≠ e -> events w' !! x = events w !! x) by (intros x Hne; cbn; by rewrite lookup_insert_ne).
  apply HQ; [|cbn; rewrite dom_insert_lookup_L //; by rewrite Hv]. split.
  - split; try apply Hq.
    + apply (is_heap_frame w); [apply Hq|]. intros x u _ Hu. destruct (decide (x = e)) as [->|Hx].
      * exists (set_pri pri v). by replace u with v by congruence.
      * exists u. by rewrite Hne.
    + intros q x. rewrite (qo_member _ _ Hq). destruct (decide (x = e)) as [->|Hx]; [|by rewrite /flagged Hne].
      by rewrite (flagged_on _ _ _ _ Hev) (flagged_on _ _ _ _ Hv).
    + intros x u Hu. destruct (decide (x = e)) as [->|Hx]; [|rewrite Hne // in Hu; by apply (qo_flags _ _ Hq x u)].
      replace u with (set_pri pri v) by congruence. destruct (qo_flags _ _ Hq _ _ Hv). by split.
    + intros i l x Hi Hx. rewrite Hne; [by apply (qo_place _ _ Hq i l x)|]. intros ->.
      assert (Hin : e ∈ qlist QA (base w) xs).
      { cbn. apply list_elem_of_In, in_concat. exists l. split; apply list_elem_of_In; [by eapply list_elem_of_lookup_2|done]. }
      rewrite (qo_member _ _ Hq) (flagged_on _ _ _ _ Hv) in Hin. by rewrite Hact in Hin.
  - apply (maps_ok_frame w _ (eventqueue (base w))); try done. intros x. rewrite /waits.
    destruct (decide (x = e)) as [->|Hx]; [by rewrite Hev Hv|by rewrite Hne].
  - destruct Hr as [He Hs Hc Htv Hd Hbd Hf]. split; try done.
    + intros x u Hu. destruct (decide (x = e)) as [->|Hx]; [|rewrite Hne // in Hu; by eauto].
      replace u with (set_pri pri v) by congruence. destruct (He _ _ Hv). by split.
    + cbn. rewrite map_size_insert_Some; [done|by eexists].
    + intros x u Hu. destruct (decide (x = e)) as [->|Hx]; [by apply (Hf _ v)|rewrite Hne // in Hu; by eauto].
Qed.

(** ** What is ready *)

Lemma activated_dom e v res w w' : activated e v res w w' -> events w !! e = Some v -> dom (events w') = dom (events w).
Proof.
  intros Ha Hv. apply set_eq. intros x. rewrite !elem_of_dom. destruct (decide (x = e)) as [->|Hne].
  - destruct (ac_event _ _ _ _ _ Ha) as (i & n & ->). rewrite Hv. by split.
  - pose proof (ac_others _ _ _ _ _ Ha x Hne) as Ho. inversion Ho; by split.
Qed.

(** What activating leaves alone. *)
Record kept (w w' : world) : Prop := {
  kp_dom : dom (events w') = dom (events w);
  kp_waits : ∀ x, waits w' x = waits w x;
  kp_calls : calls w' = calls w;
  kp_levels : length (activequeues (base w')) = length (activequeues (base w)) }.

Lemma kept_refl w : kept w w.
Proof. done. Qed.

Lemma kept_trans w1 w2 w3 : kept w1 w2 -> kept w2 w3 -> kept w1 w3.
Proof. intros [D1 W1 C1 L1] [D2 W2 C2 L2]. split; [congruence|intros x; by rewrite W2|congruence|congruence]. Qed.

(** Activating keeps the base; whether the event was active before or not, it is
    then. *)
Lemma lruns_active_keeps w xs e v res ncalls (Q : unit -> world -> Prop) :
  base_ok w xs -> events w !! e = Some v -> 0 <= ncalls <= 1 ->
  (∀ w', base_ok w' xs -> kept w w' -> flagged w' QA e -> (∀ x, flagged w QA x -> flagged w' QA x) -> Q tt w') ->
  lruns (event_active_nolock e res ncalls) w Q.
Proof.
  intros Hb Hv Hnc HQ. apply (lruns_active w xs e v); [done|done|done| |].
  - intros Hon w' Hb'. assert (He' : events w' !! e = Some (set_res (s16 (Z.lor (ev_res v) res)) v)) by (cbn; by rewrite lookup_insert_eq).
    apply HQ; [done| |by eexists|].
    + split; [cbn; rewrite dom_insert_lookup_L //; by rewrite Hv| |done|done]. intros x. rewrite /waits.
      destruct (decide (x = e)) as [->|Hne]; [by rewrite He' Hv|]. cbn. by rewrite lookup_insert_ne.
    + intros x (u & Hu & Hon'). destruct (decide (x = e)) as [->|Hne]; [by eexists|]. exists u. cbn. by rewrite lookup_insert_ne.
  - intros Hoff w' Hb' Ha. destruct (ac_event _ _ _ _ _ Ha) as (i & n & He').
    assert (Hf : flagged w' QA e). { eexists. split; [done|]. cbn. rewrite on_flag_to. by case_decide. }
    apply HQ; [done| |done|].
    2: { intros x Hx. destruct (decide (x = e)) as [->|Hne]; [done|]. by apply (but_idx_flagged w), Hx; apply (ac_others _ _ _ _ _ Ha). }
    split; [by eapply activated_dom| |apply Ha|].
    + intros x. rewrite /waits. destruct (decide (x = e)) as [->|Hne]; [by rewrite He' Hv|].
      pose proof (ac_others _ _ _ _ _ Ha x Hne) as Ho. inversion Ho as [u u' Hb1|]; [|done]. cbn. by rewrite (but_idx_eq u u').
    + destruct (ac_queue _ _ _ _ _ Ha) as (l & _ & ->). apply length_insert.
Qed.

Lemma lruns_activate_io l what w xs (Q : unit -> world -> Prop) :
  base_ok w xs -> (∀ x, x ∈ l -> x ∈ dom (events w)) ->
  (∀ w', base_ok w' xs -> kept w w' ->
     (∀ x, flagged w QA x ∨ x ∈ l ∧ wants w what x = true -> flagged w' QA x) -> Q tt w') ->
  lruns (activate_io l what) w Q.
Proof.
  revert w. induction l as [|e l IH]; intros w Hb Hl HQ; cbn [activate_io].
  { apply lruns_ret, HQ; [done|done|]. intros x [?|[?%not_elem_of_nil _]]; done. }
  destruct (proj1 (elem_of_dom (events w) e) (Hl e ltac:(by left))) as [v Hv].
  assert (Hw : wants w what e = on (ev_events v) what) by by apply wants_event.
  apply lruns_bind, (lruns_get_event _ v); [done|]. apply lruns_bind. destruct (on (ev_events v) what) eqn:Hon.
  - apply (lruns_active_keeps w xs e v); [done|done|done|]. intros w1 Hb1 Hk1 He1 Hold. apply IH; [done| |].
    + intros x Hx. rewrite (kp_dom _ _ Hk1). apply Hl. by right.
    + intros w' Hb' Hk' Hall. apply HQ; [done|by eapply kept_trans|]. intros x [Hx|[Hx Hwx]].
      * apply Hall. left. auto.
      * apply Hall. apply elem_of_cons in Hx as [->|Hx]; [by left|]. right. split; [done|]. by rewrite /wants (kp_waits _ _ Hk1).
  - apply lruns_ret, IH; [done|intros x Hx; apply Hl; by right|]. intros w' Hb' Hk' Hall. apply HQ; [done|done|].
    intros x [Hx|[Hx Hwx]]; apply Hall; [by left|]. right. apply elem_of_cons in Hx as [->|Hx]; [congruence|done].
Qed.

Lemma lruns_activate_signal l n w xs (Q : unit -> world -> Prop) :
  base_ok w xs -> 0 <= n <= 1 -> (∀ x, x ∈ l -> x ∈ dom (events w)) ->
  (∀ w', base_ok w' xs -> kept w w' ->
     (∀ x, flagged w QA x ∨ x ∈ l -> flagged w' QA x) -> Q tt w') ->
  lruns (activate_signal l n) w Q.
Proof.
  intros Hb Hn. revert w Hb. induction l as [|e l IH]; intros w Hb Hl HQ; cbn [activate_signal].
  { apply lruns_ret, HQ; [done|done|]. intros x [?|?%not_elem_of_nil]; done. }
  destruct (proj1 (elem_of_dom (events w) e) (Hl e ltac:(by left))) as [v Hv].
  apply lruns_bind, (lruns_active_keeps w xs e v); [done|done|done|]. intros w1 Hb1 Hk1 He1 Hold. apply IH; [done| |].
  - intros x Hx. rewrite (kp_dom _ _ Hk1). apply Hl. by right.
  - intros w' Hb' Hk' Hall. apply HQ; [done|by eapply kept_trans|]. intros x [Hx|Hx]; apply Hall.
    + left. auto.
    + apply elem_of_cons in Hx as [->|Hx]; [by left|by right].
Qed.

(** The entry of a descriptor that the backend was told of. *)
Lemma told_slot_io w ins i : maps_ok w ins -> on (interest (calls w) (Z.of_nat i)) EV_RW = true ->
  ∃ ctx, slot_of (io (base w)) i = Some ctx.
Proof.
  intros Hm Hon. rewrite (mo_told _ _ Hm) /io_want in Hon. destruct (slot_of (io (base w)) i) as [ctx|]; [eauto|].
  cbn in Hon. by destruct (sig_want_cases (base w) i) as [Hs|Hs]; rewrite Hs in Hon.
Qed.

Lemma told_slot_sig w ins i : maps_ok w ins -> on (interest (calls w) (Z.of_nat i)) EV_SIGNAL = true ->
  ∃ ctx, slot_of (sigmap (base w)) i = Some ctx.
Proof.
  intros Hm Hon. rewrite (mo_told _ _ Hm) /sig_want /sig_list in Hon. destruct (slot_of (sigmap (base w)) i) as [ctx|]; [eauto|].
  cbn in Hon. destruct (io_want_cases w i) as (x & Hx & Hin). rewrite Hx in Hon. cbn in Hin.
  destruct Hin as [<-|[<-|[<-|[<-|[]]]]]; by vm_compute in Hon.
Qed.

Lemma listed_live w xs (l : list eid) : base_ok w xs -> (∀ e, e ∈ l -> e ∈ eventqueue (base w)) -> ∀ e, e ∈ l -> e ∈ dom (events w).
Proof.
  intros Hb Hl e He. apply elem_of_dom. destruct (proj1 (qo_member _ _ (bo_queues _ _ Hb) QI e) (Hl e He)) as (v & Hv & _). eauto.
Qed.

Lemma lruns_io_active w xs fd what (Q : unit -> world -> Prop) :
  base_ok w xs -> 0 <= fd -> on (interest (calls w) fd) EV_RW = true ->
  (∀ w', base_ok w' xs -> kept w w' ->
     (∀ x, flagged w QA x ∨ (flagged w QI x ∧ waits_io w (Z.to_nat fd) x ∧ wants w what x = true) -> flagged w' QA x) -> Q tt w') ->
  lruns (evmap_io_active fd what) w Q.
Proof.
  intros Hb Hfd Hon HQ. destruct (told_slot_io w _ (Z.to_nat fd) (bo_maps _ _ Hb)) as [ctx Hs]; [rewrite Z2Nat.id //|].
  pose proof (slot_of_lt _ _ _ Hs) as Hlt. rewrite /evmap_io_active. apply lruns_bind, lruns_get_base, lruns_bind.
  apply lruns_assert; [apply Z.ltb_lt; lia|]. apply lruns_bind, lruns_get_slot; [done|done|]. rewrite Hs.
  assert (Hin : ∀ x, x ∈ io_events ctx <-> x ∈ eventqueue (base w) ∧ waits_io w (Z.to_nat fd) x).
  { intros x. by rewrite -(mo_io_in _ _ (bo_maps _ _ Hb)) /io_list Hs. }
  apply (lruns_activate_io _ _ w xs); [done|eapply listed_live; [done|]; intros e He; by apply Hin|].
  intros w' Hb' Hd Hall. apply HQ; [done|done|]. intros x [Hx|(Hx & Hwt & Hwx)]; apply Hall; [by left|]. right. split; [|done].
  apply Hin. split; [|done]. by apply (qo_member _ _ (bo_queues _ _ Hb) QI).
Qed.

Lemma lruns_signal_active w xs sig n (Q : unit -> world -> Prop) :
  base_ok w xs -> 0 <= sig -> 0 <= n <= 1 -> on (interest (calls w) sig) EV_SIGNAL = true ->
  (∀ w', base_ok w' xs -> kept w w' ->
     (∀ x, flagged w QA x ∨ (flagged w QI x ∧ waits_sig w (Z.to_nat sig) x) -> flagged w' QA x) -> Q tt w') ->
  lruns (evmap_signal_active sig n) w Q.
Proof.
  intros Hb Hfd Hn Hon HQ. destruct (told_slot_sig w _ (Z.to_nat sig) (bo_maps _ _ Hb)) as [ctx Hs]; [rewrite Z2Nat.id //|].
  pose proof (slot_of_lt _ _ _ Hs) as Hlt. rewrite /evmap_signal_active. apply lruns_bind, lruns_get_base, lruns_bind.
  apply lruns_assert; [apply Z.ltb_lt; lia|]. apply lruns_bind, lruns_get_slot; [done|done|]. rewrite Hs.
  assert (Hin : ∀ x, x ∈ sig_events ctx <-> x ∈ eventqueue (base w) ∧ waits_sig w (Z.to_nat sig) x).
  { intros x. by rewrite -(mo_sig_in _ _ (bo_maps _ _ Hb)) /sig_list Hs. }
  apply (lruns_activate_signal _ _ w xs); [done|done|eapply listed_live; [done|]; intros e He; by apply Hin|].
  intros w' Hb' Hd Hall. apply HQ; [done|done|]. intros x [Hx|(Hx & Hwt)]; apply Hall; [by left|]. right.
  apply Hin. split; [|done]. by apply (qo_member _ _ (bo_queues _ _ Hb) QI).
Qed.
