(* ===== verification/EvLoopCorrect.v ===== *)
(** * An event base: what a program can rely on

    The states that a program can bring a base into, and what holds in all of
    them: no call fails an assertion or follows a wrong pointer, and the backend
    waits for just what the events wait for. *)

From Stdlib Require Import ssreflect.
From Stdlib Require Import Sorting.Sorted.
From S2P Require Import Prelude CTypes HProp CMem EvTime EvEvent EvHeap EvHeapSpec EvMap EvLoop EvDispatch EvLoopSpec EvMapSpec EvLoopOps EvLoopAdd EvLoopApi.
Set Warnings "-rewrite-rw".
Open Scope general_if_scope.
Open Scope Z_scope.

(** ** The calls of a program and of the backend *)

Inductive api :=
| NewEvent (fd what f arg : Z)
| AddEvent (e : eid) (tv : option timeval)
| DelEvent (e : eid)
| FreeEvent (e : eid)
| ActivateEvent (e : eid) (res ncalls : Z)
| SetPriority (e : eid) (pri : Z)
| Timeouts
| Ready (r : ready).

Definition api_run (op : api) : L unit :=
  match op with
  | NewEvent fd what f arg => _ ← event_new true fd what (CbUser f) arg; mret tt
  | AddEvent e tv => _ ← event_add e tv; mret tt
  | DelEvent e => _ ← event_del e; mret tt
  | FreeEvent e => event_free e
  | ActivateEvent e res ncalls => event_active e res ncalls
  | SetPriority e pri => _ ← event_priority_set e pri; mret tt
  | Timeouts => timeout_process
  | Ready r => activate_ready r
  end.

(** What a call needs: the event is there, a time is in normal form, a signal
    has a number, and the backend reports what it was told to wait for. *)
Definition api_pre (w : world) (op : api) : Prop :=
  match op with
  | NewEvent fd what _ _ => fd_ok fd what ∧ Z.of_nat (size (events w)) < 2 ^ 31 - 2
  | AddEvent e tv => is_Some (events w !! e) ∧ from_option normal True tv
  | DelEvent e | FreeEvent e | SetPriority e _ => is_Some (events w !! e)
  | ActivateEvent e _ ncalls => is_Some (events w !! e) ∧ 0 <= ncalls <= 1
  | Timeouts => True
  | Ready r => ready_ok (calls w) r
  end.

(** A base of [n] priorities on the system [s], at any point of a program, with
    any outcome of the allocations from there on. *)
Inductive reachable (s : system) : world -> Prop :=
| reach_new monotonic flags n o w0 w :
    event_base_new_with_config flags (empty_world monotonic s) = inr (true, w0) ->
    event_base_priority_init n w0 = inr (0, w) -> reachable s (set_oom o w)
| reach_step w op w' :
    reachable s w -> api_pre w op -> api_run op w = inr (tt, w') -> reachable s w'.

(** ** The invariant holds *)

Lemma concat_replicate_nil {A} n : concat (replicate n (@nil A)) = [].
Proof. induction n; done. Qed.

(** A base without events, with [n] queues. *)
Definition started (s : system) (n : nat) (w : world) : Prop :=
  ∃ monotonic o k t d l flags, normal t ∧
    w = World ∅ (set_activequeues (replicate n []) (set_event_tv t (set_clock_diff d l (zero_base flags)))) ∅ ∅ ∅ 1 o monotonic s k [].

Lemma started_new s monotonic flags w :
  sys_ok s -> event_base_new_with_config flags (empty_world monotonic s) = inr (true, w) -> started s 1 w.
Proof.
  intros [_ Hmono Hreal _]. rewrite /event_base_new_with_config /gettime /event_base_priority_init /mbind /L_bind /get_base /get_world
    /mod_base /mm_alloc /ask /mret /L_ret. destruct monotonic; cbn.
  - destruct (Hmono 0%nat) as (sec & nsec & -> & Hn).
    assert (Ht : normal (Timeval sec (Z.quot nsec 1000))).
    { rewrite /normal /=. rewrite Z.quot_div_nonneg; [|lia..]. split; [apply Z.div_pos; lia|apply Z.div_lt_upper_bound; lia]. }
    destruct (_ <? sec); intros [= <-]; [by eexists true, [], 2%nat, _, _, _, _|by eexists true, [], 1%nat, _, _, _, _].
  - intros [= <-]. eexists false, [], 1%nat, _, timer_zero, 0, _. by split; [apply Hreal|].
Qed.

Lemma started_priorities s n k w w' :
  started s k w -> event_base_priority_init n w = inr (0, w') -> 1 <= n < 256 ∧ started s (Z.to_nat n) w'.
Proof.
  intros (monotonic & o & m & t & d & l & flags & Ht & ->). rewrite /event_base_priority_init /mbind /L_bind /get_base
    /mod_base /mret /L_ret /EVENT_MAX_PRIORITIES. cbn -[Z.ltb Z.leb]. rewrite length_replicate.
  destruct (Z.ltb_spec n 1); [done|]. destruct (Z.leb_spec 256 n); [done|]. cbn.
  destruct (Z.eqb_spec n (Z.of_nat k)) as [->|Hn].
  - intros [= <-]. split; [lia|]. rewrite Nat2Z.id. by exists monotonic, o, m, t, d, l, flags.
  - rewrite /mm_alloc. cbn. destruct o as [|[] o]; cbn; try done; intros [= <-]; (split; [lia|]); by eexists monotonic, _, m, t, d, l, flags.
Qed.

Lemma started_ok s n w : sys_ok s -> (0 < n < 256)%nat -> started s n w -> base_ok w [].
Proof.
  intros Hs Hn (monotonic & o & m & t & d & l & flags & Ht & ->). split; [split| |split]; cbn; try done.
  - by rewrite length_replicate.
  - apply is_heap_ctor.
  - intros []; cbn; rewrite ?concat_replicate_nil; constructor.
  - intros q e. split; [|by intros (v & Hv & _)]. destruct q; cbn; rewrite ?concat_replicate_nil; by intros ?%not_elem_of_nil.
  - intros i es e [-> _]%lookup_replicate He. by apply not_elem_of_nil in He.
  - by rewrite concat_replicate_nil.
  - by rewrite concat_replicate_nil.
  - split; cbn; try done.
    + intros i. constructor.
    + intros i e. split; [by intros ?%not_elem_of_nil|intros [?%not_elem_of_nil _]; done].
    + intros i e. split; [by intros ?%not_elem_of_nil|intros [?%not_elem_of_nil _]; done].
  - intros x ?%not_elem_of_nil. done.
Qed.

Lemma base_ok_start s monotonic flags n w0 w :
  sys_ok s -> event_base_new_with_config flags (empty_world monotonic s) = inr (true, w0) ->
  event_base_priority_init n w0 = inr (0, w) -> base_ok w [].
Proof.
  intros Hs H0 Hi. destruct (started_priorities s n 1 w0 w (started_new _ _ _ _ Hs H0) Hi) as [Hn Hst].
  apply (started_ok s (Z.to_nat n)); [done|lia|done].
Qed.

Lemma heap_bound w xs : base_ok w xs -> hn (timeheap (base w)) < 2 ^ 31 - 1.
Proof.
  intros [Hq _ Hr]. rewrite (hw_n _ _ _ (qo_heap _ _ Hq)). pose proof (bo_bound _ Hr) as Hb.
  assert (length xs <= size (events w))%nat; [|lia]. rewrite -size_dom -(size_list_to_set (C := gset eid) xs); [|apply (qo_nodup _ _ Hq QT)].
  apply subseteq_size. intros x Hx%elem_of_list_to_set. apply elem_of_dom.
  destruct (proj1 (qo_member _ _ Hq QT x) Hx) as (v & Hv & _). eauto.
Qed.

Lemma lruns_event_add w xs e v tv (Q : Z -> world -> Prop) :
  base_ok w xs -> events w !! e = Some v -> from_option normal True tv ->
  (∀ w', base_ok w' xs -> events w' = events w -> activequeues (base w') = activequeues (base w) -> Q (-1) w') ->
  (tv = None -> ∀ w', base_ok w' xs -> touched e w w' -> inserted w w' ->
     (on (ev_events v) EV_ANY = true -> ~ flagged w QA e -> flagged w' QI e) -> Q 0 w') ->
  (∀ t w' xs', tv = Some t -> base_ok w' xs' -> added e v t false w w' xs xs' -> Q 0 w') ->
  lruns (event_add e tv) w Q.
Proof.
  intros Hb Hv Htv Hbad Hnone Hsome. rewrite /event_add. apply lruns_bind, (lruns_get_event _ v); [done|].
  rewrite (eo_base _ (bo_events _ (bo_rest _ _ Hb) _ _ Hv)). cbn [negb].
  apply (lruns_add_internal w xs e v tv false); [done|done| |by eapply heap_bound|done|done|done]. by intros t ->.
Qed.

Lemma lruns_event_active w xs e v res ncalls (Q : unit -> world -> Prop) :
  base_ok w xs -> events w !! e = Some v -> 0 <= ncalls <= 1 ->
  (∀ w', base_ok w' xs -> Q tt w') -> lruns (event_active e res ncalls) w Q.
Proof.
  intros Hb Hv Hn HQ. rewrite /event_active. apply lruns_bind, (lruns_get_event _ v); [done|].
  rewrite (eo_base _ (bo_events _ (bo_rest _ _ Hb) _ _ Hv)). cbn [negb].
  apply (lruns_active_keeps w xs e v); [done|done|done|]. intros w' Hb' _ _ _. by apply HQ.
Qed.

Lemma lruns_activate_ready w xs r (Q : unit -> world -> Prop) :
  base_ok w xs -> ready_ok (calls w) r -> (∀ w', base_ok w' xs -> kept w w' -> Q tt w') -> lruns (activate_ready r) w Q.
Proof.
  intros Hb Hr HQ. destruct r as [fd what|sig n]; cbn in Hr |- *.
  - destruct Hr. apply (lruns_io_active w xs); [done|done|done|]. intros w' Hb' Hk _. by apply HQ.
  - destruct Hr as (? & ? & ?). apply (lruns_signal_active w xs); [done|done|done|done|]. intros w' Hb' Hk _. by apply HQ.
Qed.

Lemma lruns_api w xs op :
  base_ok w xs -> api_pre w op -> lruns (api_run op) w (fun _ w' => ∃ xs', base_ok w' xs').
Proof.
  intros Hb Hp. destruct op as [fd what f arg|e tv|e|e|e res n|e pri| |r]; cbn [api_run api_pre] in *.
  - destruct Hp. apply lruns_bind, (lruns_event_new w xs); try done; intros; apply lruns_ret; eauto.
  - destruct Hp as [[v Hv] Htv]. apply lruns_bind, (lruns_event_add w xs e v); try done; intros; apply lruns_ret; eauto.
  - destruct Hp as [v Hv]. apply lruns_bind, (lruns_event_del w xs e v); try done. intros. apply lruns_ret. eauto.
  - destruct Hp as [v Hv]. apply (lruns_event_free w xs e v); try done. eauto.
  - destruct Hp as [[v Hv] Hn]. apply (lruns_event_active w xs e v); try done. eauto.
  - destruct Hp as [v Hv]. apply lruns_bind, (lruns_priority_set w xs e v); try done. intros. apply lruns_ret. eauto.
  - eapply lruns_mono; [by apply lruns_timeout_process|]. intros _ w' [[_ ->]|(? & ? & ? & xs' & _ & ? & _)]; eauto.
  - apply (lruns_activate_ready w xs); try done. eauto.
Qed.

Lemma reachable_ok s w : sys_ok s -> reachable s w -> ∃ xs, base_ok w xs.
Proof.
  intros Hs Hr. induction Hr as [monotonic n o w Hi|w op w' _ [xs Hb] Hp Hrun].
  - exists []. apply base_ok_oom. by eapply base_ok_start.
  - pose proof (lruns_api w xs op Hb Hp) as Hl. by rewrite /lruns Hrun in Hl.
Qed.

(** ** The checks of the heap *)

Lemma lruns_check_heap s i n w xs (Q : unit -> world -> Prop) :
  is_heap w s xs -> (∀ e, e ∈ xs -> flagged w QT e) -> (0 < i)%nat -> (i + n <= length xs)%nat -> Q tt w ->
  lruns (check_heap s i n) w Q.
Proof.
  intros Hh Hf. revert i. induction n as [|n IH]; intros i Hi Hn HQ; cbn [check_heap]; [by apply lruns_ret|].
  destruct (lookup_lt_is_Some_2 xs i) as [e He]; [lia|]. destruct (lookup_lt_is_Some_2 xs (parent i)) as [p Hp].
  { pose proof (parent_lt i Hi). lia. }
  apply lruns_bind, (lruns_slot_heap w s xs i e); [done|done|]. apply lruns_bind.
  replace (Z.quot (Z.of_nat i - 1) 2) with (Z.of_nat (parent i)); last first.
  { rewrite /parent Nat2Z.inj_div Z.quot_div_nonneg; [|lia..]. f_equal. lia. }
  apply (lruns_slot_heap w s xs (parent i) p); [done|done|].
  destruct (Hf e) as (v & Hv & Hon); [by eapply list_elem_of_lookup_2|].
  destruct (is_heap_event w s xs p Hh) as [u Hu]; [by eapply list_elem_of_lookup_2|].
  apply lruns_bind, (lruns_get_event _ v); [done|]. apply lruns_bind, (lruns_get_event _ u); [done|].
  apply lruns_bind, lruns_assert; [done|]. apply lruns_bind, lruns_assert.
  { apply timercmp_le. pose proof (hw_order _ _ _ Hh i p e Hi Hp He) as Ho. by rewrite /ev_le /key Hu Hv in Ho. }
  apply lruns_bind, lruns_assert; [|apply IH; [lia|lia|done]].
  destruct (hw_idx _ _ _ Hh i e He) as (v' & Hv' & Hidx); [lia|]. apply Z.eqb_eq. congruence.
Qed.

Lemma assert_timeouts_ok w xs : base_ok w xs -> event_base_assert_timeouts w = inr (tt, w).
Proof.
  intros [Hq _ _]. pose proof (qo_heap _ _ Hq) as Hh. pose proof (hw_n _ _ _ Hh) as Hn.
  assert (Hl : lruns event_base_assert_timeouts w (fun _ w' => w' = w)).
  { rewrite /event_base_assert_timeouts. apply lruns_bind, lruns_get_base, lruns_bind. rewrite (qo_common _ _ Hq).
    destruct xs as [|x xs0] eqn:Hxs; [rewrite Hn; by apply lruns_ret|]. rewrite -Hxs in Hq, Hh, Hn.
    apply (lruns_check_heap _ 1 _ w xs); [done|intros e He; by apply (qo_member _ _ Hq QT)|lia| |done].
    rewrite Hn Hxs /=. lia. }
  apply lruns_run in Hl as ([] & w' & He & ->). done.
Qed.

(** ** What the backend waits for *)

Lemma wanting_pos w what l : wanting w what l ≠ 0 <-> ∃ e, e ∈ l ∧ wants w what e = true.
Proof.
  rewrite /wanting. split.
  - intros Hne. destruct (filter _ l) as [|e l0] eqn:Hf; [done|]. exists e.
    assert (Hin : e ∈ filter (fun e => wants w what e = true) l) by (rewrite Hf; by left).
    by apply list_elem_of_filter in Hin as [? ?].
  - intros (e & He & Hw). assert (Hin : e ∈ filter (fun e => wants w what e = true) l) by by apply list_elem_of_filter.
    destruct (filter _ l); [by apply not_elem_of_nil in Hin|done].
Qed.

(** The bits of what the maps say. *)
Lemma io_old_on ctx what :
  what = EV_READ ∨ what = EV_WRITE -> on (io_old ctx) what = negb ((if what =? EV_READ then nread ctx else nwrite ctx) =? 0).
Proof. rewrite /io_old. intros [->| ->]; cbn; destruct (nread ctx =? 0), (nwrite ctx =? 0); done. Qed.

Lemma on_rw v what : what = EV_READ ∨ what = EV_WRITE -> on v what = true -> on v EV_RW = true.
Proof. rewrite /EV_RW on_or. intros [->| ->] ->; [done|apply orb_true_r]. Qed.

(** Who waits for [what] on the descriptor or signal [fd]. *)
Definition waited_for (w : world) (fd what : Z) : Prop :=
  ∃ e v, events w !! e = Some v ∧ on (ev_flags v) EVLIST_INSERTED = true ∧ on (ev_events v) what = true ∧ ev_fd v = fd.

Lemma on_lor_sig x b i what : what = EV_READ ∨ what = EV_WRITE -> on (Z.lor x (sig_want b i)) what = on x what.
Proof.
  intros Hw. rewrite {1}/on Z.land_comm Z.land_lor_distr_r.
  replace (Z.land what (sig_want b i)) with 0 by (destruct (sig_want_cases b i) as [-> | ->], Hw as [->| ->]; done).
  by rewrite Z.lor_0_r Z.land_comm.
Qed.

Lemma told_rw w xs i what :
  base_ok w xs -> what = EV_READ ∨ what = EV_WRITE ->
  on (interest (calls w) (Z.of_nat i)) what = true <-> waited_for w (Z.of_nat i) what.
Proof.
  intros [Hq Hm _] Hw. rewrite (mo_told _ _ Hm) on_lor_sig // /io_want.
  assert (Hlist : (∃ e, e ∈ io_list (base w) i ∧ wants w what e = true) <-> waited_for w (Z.of_nat i) what).
  { split.
    - intros (e & He & Hwe). apply (mo_io_in _ _ Hm) in He as [He (ev & Hwt & _)]. apply (qo_member _ _ Hq QI) in He as (v & Hv & Hon).
      rewrite /waits Hv in Hwt. injection Hwt as Hfd <-. rewrite (wants_event _ _ v) // in Hwe. by exists e, v.
    - intros (e & v & Hv & Hins & Hon & Hfd). exists e. rewrite (wants_event _ _ v) //. split; [|done].
      apply (mo_io_in _ _ Hm). split; [apply (qo_member _ _ Hq QI); by exists v|]. exists (ev_events v).
      rewrite /waits Hv /= Hfd. split; [done|]. by eapply on_rw. }
  rewrite -Hlist /io_list. destruct (slot_of (io (base w)) i) as [ctx|] eqn:Hs; cbn.
  - rewrite io_old_on // negb_true_iff Z.eqb_neq. destruct (mo_io _ _ Hm i ctx Hs) as [_ Hr Hwr _].
    destruct Hw as [-> | ->]; cbn; rewrite ?Hr ?Hwr; apply wanting_pos.
  - rewrite /on Z.land_0_l. split; [done|]. intros (e & ?%not_elem_of_nil & _). done.
Qed.

Lemma told_signal w xs i :
  base_ok w xs -> on (interest (calls w) (Z.of_nat i)) EV_SIGNAL = true <-> waited_for w (Z.of_nat i) EV_SIGNAL.
Proof.
  intros [Hq Hm Hr]. rewrite (mo_told _ _ Hm).
  assert (Hlist : sig_list (base w) i ≠ [] <-> waited_for w (Z.of_nat i) EV_SIGNAL).
  { split.
    - destruct (sig_list (base w) i) as [|e l] eqn:Hl; [done|]. intros _. assert (He : e ∈ sig_list (base w) i) by (rewrite Hl; by left).
      apply (mo_sig_in _ _ Hm) in He as [He (ev & Hwt & _ & Hon)]. apply (qo_member _ _ Hq QI) in He as (v & Hv & Hins).
      rewrite /waits Hv in Hwt. injection Hwt as Hfd <-. by exists e, v.
    - intros (e & v & Hv & Hins & Hon & Hfd). assert (He : e ∈ sig_list (base w) i).
      { apply (mo_sig_in _ _ Hm). split; [apply (qo_member _ _ Hq QI); by exists v|]. exists (ev_events v).
        rewrite /waits Hv /= Hfd. split_and!; [done| |done]. by apply (bo_events _ Hr _ _ Hv). }
      by destruct (sig_list (base w) i); [apply not_elem_of_nil in He|]. }
  rewrite -Hlist /sig_want. destruct (io_want_cases w i) as (x & -> & Hx). cbn in Hx.
  destruct (sig_list (base w) i); destruct Hx as [<-|[<-|[<-|[<-|[]]]]]; split; try done; by intros ?%(f_equal negb).
Qed.

(** ** Theorems *)

(** C14: no call of a program, of the backend or of the loop is stuck.  In every
    state that a program can bring a base into, every call that has what it needs
    returns: no assertion fails, no pointer is wrong, no number overflows and no
    bound is too small; and the checks of event_base_assert_ok on the timeouts hold
    afterwards.  Allocations and additions of the backend may fail on the way; the
    backend does not refuse a deletion and reports a signal once at a time. *)
Theorem base_never_stuck (s : system) (w : world) (op : api) :
  sys_ok s -> reachable s w -> api_pre w op ->
  ∃ w', api_run op w = inr (tt, w') ∧ reachable s w' ∧ event_base_assert_timeouts w' = inr (tt, w').
Proof.
  intros Hs Hr Hp. destruct (reachable_ok s w Hs Hr) as [xs Hb].
  destruct (lruns_run _ _ _ (lruns_api w xs op Hb Hp)) as ([] & w' & Hrun & xs' & Hb').
  exists w'. split_and!; [done|by eapply reach_step|by eapply assert_timeouts_ok].
Qed.

(** C19: the backend waits for just what the events wait for.  In every state that a
    program can bring a base into, the calls of the backend that succeeded leave it
    waiting to read or write a descriptor, or for a signal, exactly if some inserted
    event does.  Allocations and additions of the backend may have failed on the
    way; its deletions are assumed to succeed (when one fails the events and the
    backend disagree), and signals are reported once at a time. *)
Theorem backend_waits_for_events (s : system) (w : world) (fd what : Z) :
  sys_ok s -> reachable s w -> 0 <= fd -> what = EV_READ ∨ what = EV_WRITE ∨ what = EV_SIGNAL ->
  on (interest (calls w) fd) what = true <-> waited_for w fd what.
Proof.
  intros Hs Hr Hfd Hwhat. destruct (reachable_ok s w Hs Hr) as [xs Hb]. rewrite -(Z2Nat.id fd) //.
  destruct Hwhat as [->|[->| ->]]; [eapply told_rw; eauto..|by eapply told_signal].
Qed.

(** The events that wait for a time. *)
Definition waiting (w : world) (xs : list eid) : Prop := NoDup xs ∧ ∀ e, e ∈ xs <-> flagged w QT e.

Lemma reachable_waiting s w : sys_ok s -> reachable s w -> ∃ xs, base_ok w xs ∧ waiting w xs.
Proof.
  intros Hs Hr. destruct (reachable_ok s w Hs Hr) as [xs Hb]. exists xs. split; [done|]. destruct Hb as [Hq _ _].
  split; [apply (qo_nodup _ _ Hq QT)|apply (qo_member _ _ Hq QT)].
Qed.

(** C21: timeout_process ends, and makes active just the events that are due, in the
    order of their times: each is taken out of all other queues and put at the end
    of the queue of its priority with the result EV_TIMEOUT; the events that are due
    later stay, and all others are as they were.  The state is any that a program
    can bring a base into, on a system whose clocks work, whose backend does not
    refuse deletions and reports a signal once at a time. *)
Theorem timeout_process_activates (s : system) (w : world) :
  sys_ok s -> reachable s w ->
  ∃ xs w', waiting w xs ∧ timeout_process w = inr (tt, w') ∧
    (xs = [] ∧ w' = w ∨ ∃ now w1 l xs', gettime w = inr (Some now, w1) ∧ timed_out now l w1 w' xs xs').
Proof.
  intros Hs Hr. destruct (reachable_waiting s w Hs Hr) as (xs & Hb & Hw).
  destruct (lruns_run _ _ _ (lruns_timeout_process w xs Hb)) as ([] & w' & Hrun & Hto). exists xs, w'. split_and!; [done|done|].
  destruct Hto as [?|(now & w1 & l & xs' & Hg & _ & Ht)]; [by left|]. right. eauto 8.
Qed.

(** The loop waits just as long as it may.  timeout_next gives no limit if no
    event waits for a time, and otherwise the time from now to the earliest of
    them, or zero if that is over; its assertions hold. *)
Theorem timeout_next_until (s : system) (w : world) :
  sys_ok s -> reachable s w ->
  ∃ xs wait w', waiting w xs ∧ timeout_next w = inr (Some wait, w') ∧
    (xs = [] ∧ wait = None ∨ ∃ now, gettime w = inr (Some now, w') ∧ until w xs now wait).
Proof.
  intros Hs Hr. destruct (reachable_waiting s w Hs Hr) as (xs & Hb & Hw).
  destruct (lruns_run _ _ _ (lruns_timeout_next w xs Hb)) as (r & w' & Hrun & _ & wait & -> & Hu). exists xs, wait, w'.
  split_and!; [done|done|]. destruct Hu as [(? & ? & _)|?]; [by left|by right].
Qed.

(** ** A program *)

(** The clock goes by a second at every look; descriptor 5 has something to read
    whenever the backend is asked. *)
Definition demo_sys : system :=
  System (fun n => Some (100 + Z.of_nat n, 0)) (fun n => Timeval (100 + Z.of_nat n) 0) (fun _ => true) (fun _ => true)
    (fun _ log => Some (if on (interest log 5) EV_READ then [ReadyIo 5 EV_READ] else [])).

Lemma demo_sys_ok : sys_ok demo_sys.
Proof.
  split.
  - done.
  - intros n. eexists _, 0. split; [done|lia].
  - intros n. by split.
  - intros n log l. cbn. destruct (on (interest log 5) EV_READ) eqn:Hon; intros [= <-]; [|constructor].
    constructor; [|constructor]. split; [lia|]. rewrite /EV_RW on_or Hon. done.
Qed.

(** A reader of descriptor 5 with a timeout of ten seconds, and a timer of one. *)
Definition demo_ops : list api :=
  [NewEvent 5 EV_READ 1 0; AddEvent 1%positive (Some (Timeval 10 0)); NewEvent (-1) 0 2 0; AddEvent 2%positive (Some (Timeval 1 0))].

Definition after (m : L unit) (w : world) : world := match m w with inr (_, w') => w' | inl _ => w end.
Definition demo_start : world := Eval vm_compute in
  match event_base_priority_init 3 (new_world true demo_sys) with inr (_, w) => w | inl _ => new_world true demo_sys end.
Definition demo_world : world := fold_left (fun w op => after (api_run op) w) demo_ops demo_start.

Lemma reach_op s w op : sys_ok s -> reachable s w -> api_pre w op -> reachable s (after (api_run op) w).
Proof.
  intros Hs Hr Hp. destruct (reachable_ok s w Hs Hr) as [xs Hb].
  destruct (lruns_run _ _ _ (lruns_api w xs op Hb Hp)) as ([] & w' & Hrun & _). rewrite /after Hrun. by eapply reach_step.
Qed.

Lemma demo_reachable : reachable demo_sys demo_world.
Proof.
  assert (H0 : reachable demo_sys demo_start) by exact (reach_new demo_sys true 0 3 [] (new_world true demo_sys) demo_start eq_refl eq_refl).
  pose proof demo_sys_ok as Hs. rewrite /demo_world /demo_ops. cbn [fold_left].
  apply reach_op; [done| |split; [vm_compute; eauto|by cbn]].
  apply reach_op; [done| |split; [by split|vm_compute; reflexivity]].
  apply reach_op; [done| |split; [vm_compute; eauto|by cbn]].
  apply reach_op; [done|exact H0|split; [by split|vm_compute; reflexivity]].
Qed.

Lemma base_never_stuck_witness :
  ∃ w', api_run Timeouts demo_world = inr (tt, w') ∧ reachable demo_sys w' ∧ event_base_assert_timeouts w' = inr (tt, w').
Proof. exact (base_never_stuck demo_sys demo_world Timeouts demo_sys_ok demo_reachable I). Defined.

Lemma backend_waits_for_events_witness :
  on (interest (calls demo_world) 5) EV_READ = true <-> waited_for demo_world 5 EV_READ.
Proof.
  apply (backend_waits_for_events demo_sys demo_world 5 EV_READ demo_sys_ok demo_reachable); [lia|by left].
Defined.

Lemma timeout_process_activates_witness :
  ∃ xs w', waiting demo_world xs ∧ timeout_process demo_world = inr (tt, w') ∧
    (xs = [] ∧ w' = demo_world ∨
     ∃ now w1 l xs', gettime demo_world = inr (Some now, w1) ∧ timed_out now l w1 w' xs xs').
Proof. exact (timeout_process_activates demo_sys demo_world demo_sys_ok demo_reachable). Defined.

Lemma timeout_next_until_witness :
  ∃ xs wait w', waiting demo_world xs ∧ timeout_next demo_world = inr (Some wait, w') ∧
    (xs = [] ∧ wait = None ∨ ∃ now, gettime demo_world = inr (Some now, w') ∧ until demo_world xs now wait).
Proof. exact (timeout_next_until demo_sys demo_world demo_sys_ok demo_reachable). Defined.
