(* ===== verification/EvLoopRun.v ===== *)
(** * An event base: the loop with callbacks

    Whatever the callbacks of a program do, as long as they keep the base in
    order, the loop keeps it in order, fails no assertion and follows no wrong
    pointer.  It may run for ever, which is a bound that is too small here. *)

From Stdlib Require Import ssreflect.
From Stdlib Require Import Sorting.Sorted.
From S2P Require Import Prelude CTypes HProp CMem EvTime EvEvent EvHeap EvHeapSpec EvMap EvLoop EvDispatch EvLoopSpec EvMapSpec EvLoopOps EvLoopAdd EvLoopApi EvLoopCorrect.
Set Warnings "-rewrite-rw".
Open Scope general_if_scope.
Open Scope Z_scope.

(** ** Runs that may not end *)

Definition lsafe {A} (m : L A) (w : world) (Q : A -> world -> Prop) : Prop :=
  match m w with inr (a, w') => Q a w' | inl NoFuel => True | inl _ => False end.

Section lsafe.
Context {A B : Type}.

Lemma lsafe_ret (a : A) w (Q : A -> world -> Prop) : Q a w -> lsafe (mret a) w Q.
Proof. done. Qed.

Lemma lsafe_bind (m : L A) (k : A -> L B) w Q : lsafe m w (fun a w' => lsafe (k a) w' Q) -> lsafe (m ≫= k) w Q.
Proof. rewrite /lsafe /mbind /L_bind. by destruct (m w) as [[]|[a w']]. Qed.

Lemma lsafe_mono (m : L A) w (Q Q' : A -> world -> Prop) :
  lsafe m w Q -> (∀ a w', Q a w' -> Q' a w') -> lsafe m w Q'.
Proof. rewrite /lsafe. destruct (m w) as [[]|[a w']]; auto. Qed.

Lemma lsafe_runs (m : L A) w Q : lruns m w Q -> lsafe m w Q.
Proof. rewrite /lruns /lsafe. by destruct (m w) as [[]|[a w']]. Qed.

Lemma lsafe_run_bind (m : L A) (k : A -> L B) w Q : lruns m w (fun a w' => lsafe (k a) w' Q) -> lsafe (m ≫= k) w Q.
Proof. intros H. by apply lsafe_bind, lsafe_runs. Qed.

End lsafe.

(** A base in order. *)
Definition sound (w : world) : Prop := ∃ xs, base_ok w xs.

Lemma sound_same w w' :
  sound w -> events w' = events w -> same_base (base w) (base w') -> sys w' = sys w -> deferreds w' = deferreds w ->
  next_eid w' = next_eid w -> calls w' = calls w -> sound w'.
Proof. intros [xs Hb] He Hs Hsys Hd Hn Hc. exists xs. by apply (base_ok_same w). Qed.

Lemma sound_note w c : sound w -> (∀ fd x, told fd x c = x) -> sound (set_calls (calls w ++ [c]) w).
Proof.
  intros [xs Hb] Ht. exists xs. apply (base_ok_frame w); try done.
  - intros x. cbn. destruct (events w !! x) as [v|] eqn:Hv; constructor. split_and!; [done|done|done|].
    by apply (bo_events _ (bo_rest _ _ Hb) x).
  - intros i. cbn [calls set_calls]. by rewrite interest_app Ht.
Qed.

Lemma sound_event w e v : sound w -> events w !! e = Some v -> event_ok v.
Proof. intros [xs Hb] Hv. by apply (bo_events _ (bo_rest _ _ Hb) e). Qed.

(** ** Times that are not common *)

Lemma without_mask u : 0 <= u < 2 ^ 20 -> without u MICROSECONDS_MASK = 0.
Proof.
  intros Hu. rewrite /without. change MICROSECONDS_MASK with (Z.ones 20). rewrite -Z.ldiff_land. rewrite Z.ldiff_ones_r //.
  rewrite Z.shiftr_div_pow2 // Z.div_small //.
Qed.

Lemma same_common_normal t u : normal t -> normal u -> is_same_common_timeout t u = true.
Proof. rewrite /normal /is_same_common_timeout. intros. rewrite !without_mask //; lia. Qed.

Section callbacks.
Context (run : Z -> Z -> Z -> Z -> L unit) (run_deferred : Z -> positive -> Z -> L unit).

(** What callbacks keep: the base, its number of priorities, and the local
    variables of their callers. *)
Definition levels (w : world) : nat := length (activequeues (base w)).

Definition keeps (m : L unit) : Prop :=
  ∀ w, sound w -> lsafe m w (fun _ w' => sound w' ∧ levels w' = levels w ∧ ∀ c z, locals w !! c = Some z -> locals w' !! c = Some z).

Context (Hrun : ∀ f fd res arg, keeps (run f fd res arg)).
Context (Hdeferred : ∀ cb d arg, keeps (run_deferred cb d arg)).

(** ** The closures *)

Lemma lsafe_call e v w (Q : unit -> world -> Prop) :
  sound w -> event_ok v -> (∀ w', sound w' -> levels w' = levels w -> (∀ c z, locals w !! c = Some z -> locals w' !! c = Some z) -> Q tt w') ->
  lsafe (call_event run e v) w Q.
Proof.
  intros Hs Hok HQ. destruct (eo_user _ Hok) as [f Hf]. rewrite /call_event Hf. apply lsafe_bind. rewrite {1}/lsafe /note.
  eapply lsafe_mono; [apply (Hrun f (ev_fd v) (ev_res v) (ev_arg v))|].
  - by apply sound_note.
  - intros [] w' (Hs' & Hn & Hl). by apply HQ.
Qed.

Lemma sound_set_event w e v v' :
  sound w -> events w !! e = Some v -> (∀ P, same_queue P v v') -> ev_fd v' = ev_fd v -> ev_events v' = ev_events v -> event_ok v' ->
  sound (set_events (<[e := v']> (events w)) w).
Proof. intros [xs Hb] Hv Hsq Hfd Hev Hok. exists xs. by apply (base_ok_event w xs e v). Qed.

(** A local variable comes and goes. *)
Lemma sound_locals w l : sound w -> sound (set_locals l w).
Proof. intros Hs. by apply (sound_same w). Qed.

Lemma sound_next w p : sound w -> (next_eid w <= p)%positive -> sound (set_next p w).
Proof.
  intros [xs Hb] Hp. exists xs. apply (base_ok_frame w); try done. intros x. cbn.
  destruct (events w !! x) as [v|] eqn:Hv; constructor. split_and!; [done|done|done|]. by apply (bo_events _ (bo_rest _ _ Hb) x).
Qed.

(** The event during its last call. *)
Lemma event_ok_quiet v : event_ok v -> event_ok (set_pncalls None (set_ncalls 0 v)).
Proof. intros []. by split. Qed.

Lemma lsafe_signal_closure e v w (Q : unit -> world -> Prop) :
  sound w -> events w !! e = Some v -> (∀ w', sound w' -> levels w' = levels w -> Q tt w') -> lsafe (event_signal_closure run e) w Q.
Proof.
  intros Hs Hv HQ. pose proof (sound_event _ _ _ Hs Hv) as Hok. pose proof (eo_ncalls _ Hok) as Hn.
  rewrite /event_signal_closure. apply lsafe_run_bind, (lruns_get_event _ v); [done|]. apply lsafe_bind. rewrite {1}/lsafe /new_local.
  set (c := next_eid w). set (w1 := set_next _ _). assert (Hc1 : locals w1 !! c = Some (ev_ncalls v)) by (cbn; by rewrite lookup_insert_eq).
  assert (Hs1 : sound w1) by (apply sound_next; [by apply sound_locals|cbn; lia]).
  assert (Hend : ∀ w', sound w' -> levels w' = levels w -> lsafe (end_local c) w' Q).
  { intros w' Hs' Hn'. apply HQ; [by apply sound_locals|done]. }
  destruct (decide (ev_ncalls v = 0)) as [H0|H0].
  - rewrite H0. apply lsafe_bind, lsafe_ret, lsafe_bind. cbn. apply lsafe_bind. rewrite {1}/lsafe /get_local Hc1 H0. by apply lsafe_ret, Hend.
  - assert (H1 : ev_ncalls v = 1) by lia. rewrite H1. cbn [Z.eqb negb Pos.eqb]. apply lsafe_run_bind, (lruns_mod_event _ _ v); [done|].
    apply lsafe_bind. cbn [signal_loop u16 Z.modulo]. change (Z.to_nat (u16 1)) with 1%nat. cbn [signal_loop]. apply lsafe_bind.
    rewrite {1}/lsafe /get_local. cbn [locals set_events]. rewrite Hc1 H1. cbn [Z.eqb]. change (s16 (1 - 1)) with 0. apply lsafe_bind.
    rewrite {1}/lsafe /put_local. cbn [locals set_events]. rewrite Hc1. set (w2 := set_locals _ _). set (v1 := set_pncalls (Some c) v).
    assert (Hv2 : events w2 !! e = Some v1) by (cbn; by rewrite lookup_insert_eq).
    apply lsafe_run_bind, (lruns_mod_event _ _ v1); [done|]. cbn [Z.eqb].
    apply lsafe_run_bind, (lruns_mod_event _ _ (set_ncalls 0 v1)); [cbn; by rewrite lookup_insert_eq|].
    set (v3 := set_pncalls None (set_ncalls 0 v1)). set (w3 := set_events _ _).
    assert (Hv3 : events w3 !! e = Some v3) by (cbn; by rewrite lookup_insert_eq).
    assert (Hs3 : sound w3).
    { replace w3 with (set_events (<[e := v3]> (events (set_locals (locals w2) w1))) (set_locals (locals w2) w1)).
      - apply (sound_set_event _ e v); [by apply sound_locals|done|by intros P; split|done|done|exact (event_ok_quiet v Hok)].
      - rewrite /w3 /w2 /set_events /=. by rewrite !insert_insert_eq. }
    apply lsafe_run_bind, (lruns_get_event _ v3); [done|]. apply lsafe_bind, lsafe_call; [done|exact (event_ok_quiet v Hok)|].
    intros w4 Hs4 Hn4 Hl4. assert (Hc4 : locals w4 !! c = Some 0) by (apply Hl4; cbn; by rewrite lookup_insert_eq).
    apply lsafe_run_bind, lruns_get_base. destruct (event_break (base w4)).
    + apply lsafe_bind. rewrite {1}/lsafe /get_local Hc4. cbn [Z.eqb negb]. by apply lsafe_ret, Hend.
    + cbn [signal_loop]. apply lsafe_bind. rewrite {1}/lsafe /get_local Hc4. cbn [Z.eqb]. by apply lsafe_ret, Hend.
Qed.

Lemma lsafe_persist_closure e v w (Q : unit -> world -> Prop) :
  sound w -> events w !! e = Some v -> (∀ w', sound w' -> levels w' = levels w -> Q tt w') -> lsafe (event_persist_closure run e) w Q.
Proof.
  intros [xs Hb] Hv HQ. pose proof (bo_events _ (bo_rest _ _ Hb) _ _ Hv) as Hok. destruct Hok as [_ _ _ _ _ _ _ _ Ht Hio].
  rewrite /event_persist_closure. apply lsafe_run_bind, (lruns_get_event _ v); [done|].
  assert (Hcall : ∀ w' v', sound w' -> levels w' = levels w -> events w' !! e = Some v' -> lsafe (v ← get_event e; call_event run e v) w' Q).
  { intros w' v' Hs' Hn' Hv'. apply lsafe_run_bind, (lruns_get_event _ v'); [done|]. apply lsafe_call; [done|by eapply sound_event|].
    intros w2 Hs2 Hn2 _. apply HQ; [done|congruence]. }
  apply lsafe_bind. destruct (evutil_timerisset (ev_io_timeout v)); last first.
  { apply lsafe_ret, (Hcall w v); [by exists xs|done|done]. }
  apply lsafe_run_bind, lruns_assert; [by apply same_common_normal|]. apply lsafe_run_bind, lruns_gettime; [apply Hb|].
  intros now w1 Hnow Hrt _. pose proof (base_ok_retimed _ _ _ Hrt Hb) as Hb1.
  assert (Hv1 : events w1 !! e = Some v ∧ levels w1 = levels w) by (by destruct Hrt as (? & ? & ? & ->)). destruct Hv1 as [Hv1 Hn1].
  apply lsafe_bind, lsafe_ret, lsafe_run_bind, lruns_get_base.
  rewrite is_common_timeout_none; [|apply Hb1]. cbn zeta. cbn match.
  set (rel := if on (ev_res v) EV_TIMEOUT then ev_timeout v else now). assert (Hrel : normal rel) by (rewrite /rel; by destruct (on _ _)).
  set (run_at := if evutil_timercmp (evutil_timeradd rel (ev_io_timeout v)) now Z.ltb then _ else _).
  assert (Hat : normal run_at) by (rewrite /run_at; destruct (evutil_timercmp _ _ _); by apply timeradd_usecs).
  assert (Hlor : Timeval (tv_sec run_at) (Z.lor (tv_usec run_at) 0) = run_at) by (rewrite Z.lor_0_r; by destruct run_at).
  rewrite Hlor. apply lsafe_run_bind, (lruns_add_internal w1 xs e v); [done|done|by intros t [= <-]|by eapply heap_bound| |done|].
  - intros w2 Hb2 He2 Hn2. apply lsafe_ret, (Hcall w2 v); [by exists xs|by rewrite -Hn1 /levels Hn2|by rewrite He2].
  - intros t w2 xs2 _ Hb2 [(v2 & iot & nw & Hv2 & _) _ _ _ Hac]. apply lsafe_ret, (Hcall w2 v2); [by exists xs2| |done].
    rewrite -Hn1 /levels. destruct Hac as [->| ->]; [done|apply length_fmap].
Qed.

Lemma lsafe_run_closure e v w (Q : unit -> world -> Prop) :
  sound w -> events w !! e = Some v -> (∀ w', sound w' -> levels w' = levels w -> Q tt w') -> lsafe (run_closure run e) w Q.
Proof.
  intros Hs Hv HQ. rewrite /run_closure. apply lsafe_run_bind, (lruns_get_event _ v); [done|].
  destruct (_ =? _); [by apply (lsafe_signal_closure e v)|]. destruct (_ =? _); [by apply (lsafe_persist_closure e v)|].
  apply lsafe_call; [done|by eapply sound_event|]. intros w' Hs' Hn' _. by apply HQ.
Qed.

(** ** The queues of active events *)

Lemma lruns_activequeue w p (Q : list eid -> world -> Prop) :
  0 <= p < Z.of_nat (length (activequeues (base w))) ->
  (∀ l, activequeues (base w) !! Z.to_nat p = Some l -> Q l w) -> lruns (activequeue p) w Q.
Proof.
  intros Hp HQ. rewrite /activequeue. apply lruns_bind, lruns_get_base. cbn.
  destruct (lookup_lt_is_Some_2 (activequeues (base w)) (Z.to_nat p)) as [l Hl]; [lia|]. rewrite Hl. by apply lruns_ret, HQ.
Qed.

(** The head of a queue leaves it. *)
Lemma lruns_dequeue w e l p (Q : unit -> world -> Prop) :
  sound w -> activequeues (base w) !! p = Some (e :: l) ->
  (∀ v w', events w !! e = Some v -> sound w' -> is_Some (events w' !! e) ->
     length (activequeues (base w')) = length (activequeues (base w)) -> Q tt w') ->
  ∀ v, events w !! e = Some v ->
  lruns (if on (ev_events v) EV_PERSIST then event_queue_remove e EVLIST_ACTIVE else _ ← event_del_internal e; mret tt) w Q.
Proof.
  intros [xs Hb] Hl HQ v Hv. pose proof Hb as [Hq _ _]. destruct (on (ev_events v) EV_PERSIST).
  - assert (Hon : on (ev_flags v) EVLIST_ACTIVE = true).
    { apply (flagged_on w QA e v Hv), (qo_member _ _ Hq QA). cbn. apply list_elem_of_In, in_concat. exists (e :: l).
      split; [apply list_elem_of_In; by eapply list_elem_of_lookup_2|by left]. }
    pose proof (lruns_leave_active w xs e v Hb Hv Q) as Hlv. rewrite Hon in Hlv. apply Hlv. intros w' v' Hb' H' _.
    apply (HQ v w' Hv); [by exists xs|exists v'; apply H'|]. rewrite (lq_active _ _ _ _ _ _ _ _ H'). apply length_fmap.
  - apply lruns_bind, (lruns_del_internal w xs e v _ Hb Hv). intros w' xs' Hb' Hd. apply lruns_ret, (HQ v w' Hv); [by exists xs'| |].
    + destruct (touched_lookup _ _ _ _ (de_touched _ _ _ _ _ _ Hd) Hv) as (v' & Hv' & _). eauto.
    + rewrite (de_active _ _ _ _ _ _ Hd). apply length_fmap.
Qed.

(** The bound may be too small for what the callbacks do, nothing else. *)
Lemma lsafe_process_queue fuel p count w (Q : Z -> world -> Prop) :
  sound w -> 0 <= p < Z.of_nat (levels w) -> (∀ c w', sound w' -> levels w' = levels w -> Q c w') ->
  lsafe (process_queue run fuel p count) w Q.
Proof.
  revert count w. induction fuel as [|fuel IH]; intros count w Hs Hp HQ; cbn [process_queue];
    (apply lsafe_run_bind, lruns_activequeue; [done|]; intros [|e l] Hl; [by apply lsafe_ret, HQ|]); [done|].
  assert (Hv : ∃ v, events w !! e = Some v).
  { destruct Hs as [xs [Hq _ _]]. destruct (qo_place _ _ Hq _ _ e Hl) as (v & Hv & _); [by left|]. eauto. }
  destruct Hv as [v Hv]. apply lsafe_run_bind, (lruns_get_event _ v); [done|].
  apply lsafe_run_bind, (lruns_dequeue w e l (Z.to_nat p)); [done|done| |done]. intros _ w1 _ Hs1 [v1 Hv1] Hn1.
  apply lsafe_bind, (lsafe_run_closure e v1); [done|done|]. intros w2 Hs2 Hn2.
  assert (Hn : levels w2 = levels w) by (by rewrite Hn2 /levels).
  apply lsafe_run_bind, lruns_get_base. destruct (event_break (base w2)); [by apply lsafe_ret, HQ|].
  destruct (event_continue (base w2)); [by apply lsafe_ret, HQ|]. apply IH; [done|by rewrite Hn|].
  intros c w' Hs' Hn'. apply HQ; [done|congruence].
Qed.

Lemma sound_base w b : sound w -> same_base (base w) b -> sound (set_event_base b w).
Proof. intros Hs Hb. by apply (sound_same w). Qed.

Lemma lsafe_process_queues fuel turns i w (Q : Z -> world -> Prop) :
  sound w -> 0 <= i -> (∀ c w', sound w' -> levels w' = levels w -> Q c w') ->
  lsafe (process_queues run fuel turns i) w Q.
Proof.
  revert i w. induction turns as [|turns IH]; intros i w Hs Hi HQ; cbn [process_queues]; apply lsafe_run_bind, lruns_get_base;
    (destruct (Z.leb_spec (Z.of_nat (length (activequeues (base w)))) i) as [Hle|Hgt]; [by apply lsafe_ret, HQ|]); [done|].
  apply lsafe_run_bind, lruns_activequeue; [done|]. intros [|e l] Hl; [apply IH; [done|lia|done]|].
  apply lsafe_run_bind, lruns_mod_base, lsafe_bind, lsafe_process_queue; [by apply sound_base|done|].
  intros c w1 Hs1 Hn1. destruct (c =? 0); [|by apply lsafe_ret, HQ]. apply IH; [done|lia|]. intros c' w' Hs' Hn'.
  apply HQ; [done|by rewrite Hn' Hn1].
Qed.

(** ** Deferred callbacks *)

Lemma sound_defer w q ds :
  sound w -> (∀ d, d ∈ deferred_cb_list q -> is_Some (ds !! d)) ->
  sound (set_event_base (set_defer q (base w)) (set_deferreds ds w)).
Proof.
  intros [xs [Hq Hm Hr]] Hd. exists xs. split.
  - apply (queues_ok_frame w); [done|done| |by apply (is_heap_events w); [done|apply Hq]].
    intros x. cbn. destruct (events w !! x); constructor. split; done.
  - by apply (maps_ok_frame w _ (eventqueue (base w))).
  - by destruct Hr.
Qed.

Lemma lsafe_deferred todo count w (Q : Z -> world -> Prop) :
  sound w -> (∀ c w', sound w' -> levels w' = levels w -> Q c w') -> lsafe (deferred_loop run_deferred todo count) w Q.
Proof.
  revert count w. induction todo as [|todo IH]; intros count w Hs HQ; cbn [deferred_loop]; [by apply lsafe_ret, HQ|].
  apply lsafe_run_bind, lruns_get_base. destruct (deferred_cb_list (defer_queue (base w))) as [|d ds] eqn:Hd; [by apply lsafe_ret, HQ|].
  assert (Hall : ∀ x, x ∈ d :: ds -> is_Some (deferreds w !! x)).
  { destruct Hs as [xs [_ _ Hr]]. intros x Hx. apply (bo_deferred _ Hr). by rewrite Hd. }
  destruct (Hall d) as [cb Hcb]; [by left|]. apply lsafe_bind. rewrite {1}/lsafe /get_deferred Hcb.
  apply lsafe_bind. rewrite {1}/lsafe /put_deferred. set (w1 := set_deferreds _ w). apply lsafe_run_bind, lruns_mod_base.
  set (w2 := set_event_base _ w1). assert (Hs2 : sound w2).
  { apply (sound_defer w (DeferQueue ds (active_count (defer_queue (base w)) - 1)) (<[d := Deferred false (dcb cb) (dcb_arg cb)]> (deferreds w))); [done|].
    intros x Hx. cbn in Hx. apply lookup_insert_is_Some'. right. apply Hall. by right. }
  apply lsafe_bind. rewrite {1}/lsafe /note. apply lsafe_bind.
  eapply lsafe_mono; [apply (Hdeferred (dcb cb) d (dcb_arg cb)); by apply sound_note|]. intros [] w3 (Hs3 & Hn3 & _).
  apply lsafe_run_bind, lruns_get_base. destruct (event_break (base w3)); [by apply lsafe_ret, HQ|].
  apply IH; [done|]. intros c w' Hs' Hn'. apply HQ; [done|by rewrite Hn' Hn3].
Qed.

Lemma lsafe_process_active fuel w (Q : Z -> world -> Prop) :
  sound w -> (∀ c w', sound w' -> levels w' = levels w -> Q c w') -> lsafe (event_process_active run run_deferred fuel) w Q.
Proof.
  intros Hs HQ. rewrite /event_process_active. apply lsafe_run_bind, lruns_get_base, lsafe_bind, lsafe_process_queues; [done|done|].
  intros c w1 Hs1 Hn1. destruct (c <? 0).
  - apply lsafe_run_bind, lruns_mod_base, lsafe_ret, HQ; [by apply sound_base|done].
  - apply lsafe_bind, lsafe_deferred; [done|]. intros c' w2 Hs2 Hn2. apply lsafe_run_bind, lruns_mod_base, lsafe_ret, HQ.
    + by apply sound_base.
    + by rewrite -Hn1 -Hn2.
Qed.

(** ** The loop *)

Lemma lruns_ready l w xs (Q : unit -> world -> Prop) :
  base_ok w xs -> Forall (ready_ok (calls w)) l -> (∀ w', base_ok w' xs -> kept w w' -> Q tt w') ->
  lruns (for_each activate_ready l) w Q.
Proof.
  revert w. induction l as [|r l IH]; intros w Hb Hl HQ; cbn [for_each]; [by apply lruns_ret, HQ|].
  apply Forall_cons in Hl as [Hr Hl]. apply lruns_bind, (lruns_activate_ready w xs); [done|done|]. intros w1 Hb1 Hk1.
  apply IH; [done|by rewrite (kp_calls _ _ Hk1)|]. intros w2 Hb2 Hk2. apply HQ; [done|by eapply kept_trans].
Qed.

Lemma lruns_dispatch wait w (Q : Z -> world -> Prop) :
  sound w -> (∀ r w', sound w' -> levels w' = levels w -> Q r w') -> lruns (evsel_dispatch wait) w Q.
Proof.
  intros Hs HQ. rewrite /evsel_dispatch. apply lruns_bind. rewrite {1}/lruns /note. set (w1 := set_calls _ w).
  assert (Hs1 : sound w1) by by apply sound_note. apply lruns_bind. rewrite {1}/lruns /get_world. apply lruns_bind. rewrite {1}/lruns /ask.
  set (w2 := set_n_sys _ w1). assert (Hs2 : sound w2) by by apply (sound_same w1).
  destruct (backend_dispatch (sys w1) (n_sys w1) (calls w1)) as [l|] eqn:Hl; [|by apply lruns_ret, HQ].
  destruct Hs2 as [xs Hb2]. apply lruns_bind, (lruns_ready l w2 xs); [done| |].
  - by apply (so_ready _ (bo_sys _ (bo_rest _ _ Hb2)) _ _ _ Hl).
  - intros w3 Hb3 Hk3. apply lruns_ret, HQ; [by exists xs|]. apply (kp_levels _ _ Hk3).
Qed.

Lemma lruns_clear_cache w (Q : unit -> world -> Prop) :
  sound w -> (∀ w', sound w' -> levels w' = levels w -> Q tt w') -> lruns clear_time_cache w Q.
Proof. intros Hs HQ. apply lruns_mod_base, HQ; [by apply sound_base|done]. Qed.

Lemma lruns_sound_time w (Q : option timeval -> world -> Prop) :
  sound w -> (∀ t w', normal t -> sound w' -> levels w' = levels w -> Q (Some t) w') -> lruns gettime w Q.
Proof.
  intros [xs Hb] HQ. apply lruns_gettime; [apply Hb|]. intros t w' Ht Hr _. apply HQ; [done|exists xs; by eapply base_ok_retimed|].
  by destruct Hr as (? & ? & ? & ->).
Qed.

Lemma lruns_update_cache w (Q : unit -> world -> Prop) :
  sound w -> (∀ w', sound w' -> levels w' = levels w -> Q tt w') -> lruns update_time_cache w Q.
Proof.
  intros Hs HQ. rewrite /update_time_cache. apply lruns_bind, lruns_clear_cache; [done|]. intros w1 Hs1 Hn1.
  apply lruns_bind, lruns_get_base. destruct (on _ _); [by apply lruns_ret, HQ|]. apply lruns_bind, lruns_sound_time; [done|].
  intros t w2 Ht Hs2 Hn2. apply lruns_mod_base, HQ; [by apply sound_base|]. by rewrite -Hn1 -Hn2.
Qed.

Lemma lsafe_turns fuel flags w (Q : Z -> world -> Prop) :
  sound w -> (∀ r w', sound w' -> levels w' = levels w -> r = -1 ∨ r = 0 ∨ r = 1 -> Q r w') ->
  lsafe (loop_turns run run_deferred fuel flags) w Q.
Proof.
  revert w. induction fuel as [|fuel IH]; intros w Hs HQ; cbn [loop_turns]; [done|].
  apply lsafe_run_bind, lruns_mod_base, lsafe_run_bind, lruns_get_base. cbn [base set_event_base].
  set (w0 := set_event_base _ w). assert (Hs0 : sound w0 ∧ levels w0 = levels w) by (split; [by apply sound_base|done]). destruct Hs0 as [Hs0 Hn0].
  destruct (event_gotterm _ || event_break _); [apply lsafe_ret, HQ; auto|]. destruct Hs0 as [xs Hb0].
  apply lsafe_run_bind, (lruns_timeout_correct w0 xs); [done|]. intros prev w1 Hb1 Hn1. apply lsafe_run_bind, lruns_get_base.
  assert (Hwait : ∀ Q', (∀ wait w2, sound w2 -> levels w2 = levels w -> Q' wait w2) ->
    lsafe (if (n_active_callbacks (base w1) =? 0) && negb (on flags EVLOOP_NONBLOCK) then
             r ← timeout_next;
             match r with Some wait => mret wait | None => tv ← stored prev; mret (Some tv) end
           else mret (Some timer_zero)) w1 Q').
  { intros Q' HQ'. destruct (_ && _); [|apply lsafe_ret, HQ'; [by exists xs|by rewrite -Hn0]].
    apply lsafe_run_bind. eapply lruns_mono; [by apply (lruns_timeout_next w1 xs)|]. intros r w2 (Hb2 & wait & -> & Hw).
    apply lsafe_ret, HQ'; [by exists xs|]. rewrite -Hn0 /levels -Hn1. destruct Hw as [(_ & _ & ->)|(now & Hg & _)]; [done|].
    destruct (gettime_run w1 (bo_rest _ _ Hb1)) as (now' & w2' & Hg' & _ & Hr). rewrite Hg in Hg'. injection Hg' as _ <-.
    by destruct Hr as (? & ? & ? & ->). }
  apply lsafe_bind, Hwait. clear Hwait. intros wait w2 Hs2 Hn2. apply lsafe_run_bind, lruns_get_base.
  destruct (negb (event_haveevents (base w2)) && _); [apply lsafe_ret, HQ; auto|].
  apply lsafe_run_bind, lruns_sound_time; [done|]. intros t w3 Ht Hs3 Hn3. apply lsafe_run_bind, lruns_mod_base.
  apply lsafe_run_bind, lruns_clear_cache; [by apply sound_base|]. intros w4 Hs4 Hn4.
  apply lsafe_run_bind, lruns_dispatch; [done|]. intros res w5 Hs5 Hn5.
  assert (Hn5' : levels w5 = levels w) by (rewrite Hn5 Hn4 -Hn2 -Hn3; done).
  destruct (res =? -1); [apply lsafe_ret, HQ; auto|].
  apply lsafe_run_bind, lruns_update_cache; [done|]. intros w6 [xs6 Hb6] Hn6.
  apply lsafe_run_bind. eapply lruns_mono; [by apply lruns_timeout_process|]. intros [] w7 Ht7.
  assert (Hs7 : sound w7 ∧ levels w7 = levels w).
  { destruct Ht7 as [[_ ->]|(now & w6' & l & xs' & Hg & Hb7 & Hto)]; [by split; [exists xs6|congruence]|]. split; [by exists xs'|].
    destruct (gettime_run w6 (bo_rest _ _ Hb6)) as (now' & w6'' & Hg' & _ & Hr). rewrite Hg in Hg'. injection Hg' as _ <-.
    rewrite -Hn5' -Hn6 (_ : levels w6 = levels w6'); [apply (to_levels _ _ _ _ _ _ Hto)|by destruct Hr as (? & ? & ? & ->)]. }
  destruct Hs7 as [Hs7 Hn7]. apply lsafe_run_bind, lruns_get_base. destruct (negb (n_active_callbacks (base w7) =? 0)).
  - apply lsafe_bind, lsafe_process_active; [done|]. intros n w8 Hs8 Hn8. apply lsafe_run_bind, lruns_get_base.
    destruct (on flags EVLOOP_ONCE && _ && _); [apply lsafe_ret, HQ; [done|congruence|auto]|]. apply IH; [done|]. intros r w9 Hs9 Hn9. apply HQ; [done|congruence].
  - destruct (on flags EVLOOP_NONBLOCK); [apply lsafe_ret, HQ; auto|]. apply IH; [done|]. intros r w9 Hs9 Hn9. apply HQ; [done|congruence].
Qed.

Lemma lsafe_loop fuel flags w (Q : Z -> world -> Prop) :
  sound w -> (∀ r w', sound w' -> levels w' = levels w -> r = -1 ∨ r = 0 ∨ r = 1 -> Q r w') ->
  lsafe (event_base_loop run run_deferred fuel flags) w Q.
Proof.
  intros Hs HQ. rewrite /event_base_loop. apply lsafe_run_bind, lruns_get_base. destruct (running_loop (base w)); [apply lsafe_ret, HQ; auto|].
  apply lsafe_run_bind, lruns_mod_base, lsafe_run_bind, lruns_clear_cache; [by apply sound_base|]. intros w1 Hs1 Hn1.
  apply lsafe_run_bind, lruns_mod_base, lsafe_bind, lsafe_turns; [by apply sound_base|]. intros r w2 Hs2 Hn2 Hr.
  apply lsafe_run_bind, lruns_clear_cache; [done|]. intros w3 Hs3 Hn3. apply lsafe_run_bind, lruns_mod_base, lsafe_ret, HQ; [by apply sound_base| |done].
  etransitivity; [exact Hn3|]. etransitivity; [exact Hn2|]. exact Hn1.
Qed.

End callbacks.

(** ** Theorems *)

(** C27: the loop keeps a base in order, whatever the callbacks of events and the
    deferred callbacks do, as long as they keep it in order themselves: from a
    base in order, with any flags and any number of turns, event_base_loop fails
    no assertion, follows no wrong pointer and reads no value that was never
    stored; either it goes on for longer than the bound, or it returns one of its
    three results and leaves a base in order. *)
Theorem event_base_loop_sound (run : Z -> Z -> Z -> Z -> L unit) (run_deferred : Z -> positive -> Z -> L unit)
    (fuel : nat) (flags : Z) (w : world) :
  sound w -> (∀ f fd res arg, keeps (run f fd res arg)) -> (∀ cb d arg, keeps (run_deferred cb d arg)) ->
  event_base_loop run run_deferred fuel flags w = inl NoFuel ∨
  ∃ r w', event_base_loop run run_deferred fuel flags w = inr (r, w') ∧ sound w' ∧ (r = -1 ∨ r = 0 ∨ r = 1).
Proof.
  intros Hs Hr Hd. assert (Hl : lsafe (event_base_loop run run_deferred fuel flags) w
    (fun r w' => sound w' ∧ (r = -1 ∨ r = 0 ∨ r = 1))) by by apply lsafe_loop.
  rewrite /lsafe in Hl. destruct (event_base_loop run run_deferred fuel flags w) as [[]|[r w']]; try done; [by left|]. right. eauto.
Qed.

(** The callback of a program that leaves the loop at its first event. *)
Definition break_run (f fd res arg : Z) : L unit := _ ← event_base_loopbreak; mret tt.

Lemma break_run_keeps f fd res arg : keeps (break_run f fd res arg).
Proof. intros w Hs. split; [by apply sound_base|done]. Qed.

Lemma event_base_loop_sound_witness :
  event_base_loop break_run (fun _ _ _ => mret tt) 10 0 demo_world = inl NoFuel ∨
  ∃ r w', event_base_loop break_run (fun _ _ _ => mret tt) 10 0 demo_world = inr (r, w') ∧ sound w' ∧ (r = -1 ∨ r = 0 ∨ r = 1).
Proof.
  apply (event_base_loop_sound break_run (fun _ _ _ => mret tt) 10 0 demo_world).
  - exact (reachable_ok demo_sys demo_world demo_sys_ok demo_reachable).
  - exact break_run_keeps.
  - intros cb d arg w Hs. by split.
Defined.

(** This program does leave the loop, when descriptor 5 is first found ready. *)
Example demo_loop_ends :
  (match event_base_loop break_run (fun _ _ _ => mret tt) 10 0 demo_world with inr (r, w) => Some (r, event_break (base w)) | inl _ => None end)
  = Some (0, true).
Proof. by vm_compute. Qed.

(** ** A signal that its callback deletes *)


Section signal_event.
Context (w : world) (e c : positive) (v : event).
Context (Hv : events w !! e = Some v) (Hbase : ev_base v = true) (Hflags : ev_flags v = EVLIST_INIT).
Context (Hsig : on (ev_events v) EV_SIGNAL = true) (Hn : ev_ncalls v ≠ 0) (Hp : ev_pncalls v = Some c).

(** The event is in no queue: all that a deletion does is to stop the calls. *)
Lemma del_signal : event_del e w = match put_local c 0 w with inr (_, w') => inr (0, w') | inl s => inl s end.
Proof.
  rewrite /event_del /event_del_internal /abort_loop /mbind /L_bind /get_event Hv Hbase. cbn [negb]. rewrite Hv Hbase. cbn [negb].
  rewrite Hflags Hsig Hp (proj2 (Z.eqb_neq _ _) Hn). change (without EVLIST_INIT EVLIST_ALL =? 0) with true. cbn [negb andb ev_assert].
  change (on EVLIST_INIT EVLIST_TIMEOUT) with false. change (on EVLIST_INIT EVLIST_ACTIVE) with false.
  change (on EVLIST_INIT EVLIST_INSERTED) with false. cbn. by destruct (put_local c 0 w) as [|[]].
Qed.

Lemma del_signal_live z : locals w !! c = Some z -> event_del e w = inr (0, set_locals (<[c := 0]> (locals w)) w).
Proof. intros Hc. by rewrite del_signal /put_local Hc. Qed.

Lemma del_signal_dangling : locals w !! c = None -> event_del e w = inl (Bad DanglingPtr) ∧ event_free e w = inl (Bad DanglingPtr).
Proof. intros Hc. assert (H : event_del e w = inl (Bad DanglingPtr)) by by rewrite del_signal /put_local Hc. by rewrite /event_free /mbind /L_bind H. Qed.

End signal_event.

(** C28: an event for a signal that its own callback deletes, while more than one
    occurrence of the signal is still to be reported, keeps a pointer to a local
    variable of event_signal_closure.  The closure returns, and the next deletion
    of the event, or its release, writes through that pointer. *)
Theorem signal_deleted_in_callback (run : Z -> Z -> Z -> Z -> L unit) (w : world) (e : eid) (v : event) (f : Z) :
  events w !! e = Some v -> ev_base v = true -> ev_flags v = EVLIST_INIT -> on (ev_events v) EV_SIGNAL = true ->
  ev_callback v = CbUser f -> 2 <= ev_ncalls v < 2 ^ 15 -> event_break (base w) = false ->
  (∀ fd res arg, run f fd res arg = (_ ← event_del e; mret tt)) ->
  ∃ w', event_signal_closure run e w = inr (tt, w') ∧ event_del e w' = inl (Bad DanglingPtr)
    ∧ event_free e w' = inl (Bad DanglingPtr).
Proof.
  intros Hv Hbase Hflags Hsig Hcb Hn Hbreak Hrun. set (c := next_eid w). set (n := ev_ncalls v) in *.
  assert (Hl : lruns (event_signal_closure run e) w (fun _ w' => locals w' !! c = None ∧
    ∃ v', events w' !! e = Some v' ∧ ev_base v' = true ∧ ev_flags v' = EVLIST_INIT ∧ on (ev_events v') EV_SIGNAL = true
      ∧ ev_ncalls v' ≠ 0 ∧ ev_pncalls v' = Some c)).
  { rewrite /event_signal_closure. apply lruns_bind, (lruns_get_event _ v); [done|]. apply lruns_bind. rewrite {1}/lruns /new_local -/c -/n.
    rewrite (proj2 (Z.eqb_neq n 0)); [|lia]. cbn [negb]. apply lruns_bind, (lruns_mod_event _ _ v); [done|].
    set (w1 := set_events _ _). set (v1 := set_pncalls (Some c) v) in *. assert (Hc1 : locals w1 !! c = Some n) by (cbn; by rewrite lookup_insert_eq).
    replace (Z.to_nat (u16 n)) with (S (S (Z.to_nat (n - 2)))); [|rewrite u16_small; lia]. apply lruns_bind. cbn [signal_loop].
    apply lruns_bind. rewrite {1}/lruns /get_local Hc1 (proj2 (Z.eqb_neq n 0)); [|lia]. rewrite s16_small; [|lia].
    apply lruns_bind. rewrite {1}/lruns /put_local Hc1. set (w2 := set_locals _ w1).
    assert (Hv2 : events w2 !! e = Some v1) by (cbn; by rewrite lookup_insert_eq).
    apply lruns_bind, (lruns_mod_event _ _ v1); [done|]. rewrite (proj2 (Z.eqb_neq (n - 1) 0)); [|lia]. apply lruns_bind, lruns_ret.
    set (v3 := set_ncalls (n - 1) v1). set (w3 := set_events _ w2). assert (Hv3 : events w3 !! e = Some v3) by (cbn; by rewrite lookup_insert_eq).
    apply lruns_bind, (lruns_get_event _ v3); [done|]. apply lruns_bind. rewrite /call_event. apply lruns_bind. rewrite {1}/lruns /note.
    rewrite (_ : ev_callback v3 = CbUser f) // Hrun. set (w4 := set_calls _ w3). apply lruns_bind.
    assert (Hc4 : locals w4 !! c = Some (n - 1)) by (cbn; by rewrite lookup_insert_eq).
    rewrite /lruns (del_signal_live w4 e c v3 Hv3 Hbase Hflags Hsig ltac:(cbn; lia) eq_refl _ Hc4).
    rewrite /mbind /L_bind /get_base /mret /L_ret. cbn [base set_locals set_calls set_events set_event_base].
    rewrite (_ : event_break _ = false) //. rewrite /get_local. cbn [locals set_locals]. rewrite lookup_insert_eq. cbn [Z.eqb end_local].
    split; [cbn; by rewrite lookup_delete_eq|]. exists v3. split_and!; try done. cbn. lia. }
  apply lruns_run in Hl as ([] & w' & Hrun' & Hc & v' & Hv' & Hb' & Hf' & Hs' & Hn' & Hp'). exists w'. split; [done|].
  by apply (del_signal_dangling w' e c v').
Qed.

(** The callback of such a program, and a base whose event for signal 12 is to be
    reported three times, as the loop leaves it before the closure. *)
Definition delete_run (f fd res arg : Z) : L unit := _ ← event_del 1%positive; mret tt.

Definition signal_world : world := Eval vm_compute in
  after (_ ← event_new true 12 EV_SIGNAL (CbUser 1) 0; _ ← event_add 1%positive None; _ ← event_active 1%positive EV_SIGNAL 3;
         _ ← event_del_internal 1%positive; mret tt) demo_start.

Lemma signal_deleted_in_callback_witness :
  ∃ w', event_signal_closure delete_run 1%positive signal_world = inr (tt, w')
    ∧ event_del 1%positive w' = inl (Bad DanglingPtr) ∧ event_free 1%positive w' = inl (Bad DanglingPtr).
Proof.
  eapply (signal_deleted_in_callback delete_run signal_world 1%positive _ 1).
  - vm_compute. reflexivity.
  - reflexivity.
  - reflexivity.
  - reflexivity.
  - reflexivity.
  - cbn. lia.
  - reflexivity.
  - intros fd res arg. reflexivity.
Defined.

(** The whole program: the event is added, the signal comes twice before the
    loop looks, the callback deletes the event, and it is released at the end. *)
Example signal_program :
  let s := System (clock_monotonic demo_sys) (clock_realtime demo_sys) (fun _ => true) (fun _ => true)
             (fun _ log => Some (if on (interest log 12) EV_SIGNAL then [ReadySignal 12 2] else [])) in
  (e ← event_new true 12 EV_SIGNAL (CbUser 1) 0;
   _ ← event_add 1%positive None;
   r ← event_base_loop delete_run (fun _ _ _ => mret tt) 10 0;
   _ ← ev_assert (r =? 1);
   event_free 1%positive) (new_world true s) = inl (Bad DanglingPtr).
Proof. vm_compute. reflexivity. Qed.
