(* ===== verification/EvPrint.v ===== *)
(** * libevent/buffer.c: formatted output and release

    evbuffer_add_vprintf formats into the free space of a chain and, when the
    text does not fit, makes room and formats again.  What a format and its
    arguments come to is an argument of the model, the text; vsnprintf writes as
    much of it as fits, with a terminator. *)

From S2P Require Import Prelude CTypes HProp CMem EvBuffer.
Open Scope Z_scope.

(** evutil_vsnprintf into [buflen] bytes at [pos] of the block of a chain: the
    number of characters of the text, or -1 if it is no int, and the chain. *)
Definition evutil_vsnprintf (c : evbuffer_chain) (pos buflen : Z) (text : list mbyte) : E (Z * evbuffer_chain) :=
  if buflen =? 0 then mret (0, c)
  else
    c ← chain_write pos (take (Z.to_nat (buflen - 1)) text ++ [Some 0]) c;
    c ← chain_write (pos + buflen - 1) [Some 0] c;
    mret (if 2 ^ 31 <=? Z.of_nat (length text) then -1 else Z.of_nat (length text), c).

(** Two turns are enough: the second one has room for the whole text. *)
Fixpoint vprintf_loop (fuel : nat) (b : evbuffer) (i : id) (text : list mbyte) : E (Z * evbuffer) :=
  match fuel with
  | O => e_fail AssertFailed
  | S fuel =>
      c ← get_chain b (Some i);
      let space := CHAIN_SPACE_LEN c in
      '(sz, c) ← evutil_vsnprintf c (misalign c + off c) space text;
      let b := put_chain c b in
      if sz <? 0 then mret (-1, b)
      else if sz <? space then
        let b := count_added sz (put_chain (set_span (misalign c) (off c + sz) c) b) in
        b ← advance_last_with_data b;
        b ← evbuffer_invoke_callbacks b;
        mret (sz, b)
      else
        '(i, b) ← evbuffer_expand_singlechain b (sz + 1);
        match i with
        | None => mret (-1, b)
        | Some i => vprintf_loop fuel b i text
        end
  end.

Definition evbuffer_add_vprintf (b : evbuffer) (text : list mbyte) : E (Z * evbuffer) :=
  if freeze_end b then mret (-1, b)
  else
    '(i, b) ← evbuffer_expand_singlechain b 64;
    match i with
    | None => mret (-1, b)
    | Some i => vprintf_loop 2 b i text
    end.

Definition evbuffer_add_printf (b : evbuffer) (text : list mbyte) : E (Z * evbuffer) := evbuffer_add_vprintf b text.

(** A buffer that nobody else refers to: its chains are released. *)
Definition evbuffer_free (b : evbuffer) : E unit := evbuffer_free_all_chains (chains b).
