(* ===== verification/EvPrintOps.v ===== *)
(** * Formatted output: lemmas

    Between making room and writing, a buffer may have an empty chain behind the
    last one with data, which the invariant of EvBufSpec does not allow.  [shape]
    describes such a buffer; writing makes it well-formed again.  The laws of
    [ByteBuffer] and [PrintBuffer] also hold of a buffer beside another one. *)

From Stdlib Require Import ssreflect.
From S2P Require Import Prelude CTypes HProp CMem EvBuffer EvBufSpec EvBufOps EvBufPlain EvBufQueue EvBufXfer EvPrint.
Set Warnings "-rewrite-rw".
Open Scope general_if_scope.
Open Scope Z_scope.

#[local] Arguments get_chain : simpl never.

(** ** Buffers with room at the end *)

Definition spare_chain (base : list evbuffer_chain) (c : evbuffer_chain) (e : evenv) : Prop :=
  base ≠ [] ∧ Forall (fun x => off x ≠ 0) base ∧ off c = 0 ∧ misalign c = 0 ∧ chain_wf c ∧ (c_id c < next_id e)%positive ∧ c_id c ∉ c_id <$> base.

Record shape (b : evbuffer) (base extra : list evbuffer_chain) (e : evenv) : Prop := {
  sh_chains : chains b = base ++ extra;
  sh_wf : chains_wf base (c_id <$> list.last base) (last_with_datap b) (total_len b) e;
  sh_last : last b = c_id <$> list.last (base ++ extra);
  sh_extra : extra = [] ∨ ∃ c, extra = [c] ∧ spare_chain base c e;
  sh_plain : Forall plain (base ++ extra) }.

Lemma shape_wf b e : buffer_wf b e -> all_plain b -> shape b (chains b) [] e.
Proof. intros Hwf Hp. pose proof (bw_last _ _ _ _ _ Hwf) as Hl. split; rewrite ?app_nil_r //; [by rewrite -Hl|by left]. Qed.

Lemma wf_shape b base e : shape b base [] e -> buffer_wf b e ∧ all_plain b.
Proof.
  intros [Hc Hwf Hl _ Hp]. rewrite app_nil_r in Hc Hl Hp. by rewrite /buffer_wf /all_plain Hc Hl.
Qed.

Lemma shape_later b base extra e e' : shape b base extra e -> later e e' -> shape b base extra e'.
Proof.
  intros [Hc Hwf Hl Hx Hp] Hle. split; try done; [by eapply chains_wf_later|]. destruct Hx as [?|(c & ? & Hs)]; [by left|].
  right. exists c. split; [done|]. destruct Hs as (? & ? & ? & ? & ? & ? & ?). rewrite /later in Hle. split_and!; try done. lia.
Qed.

Lemma shape_ids b base extra e : shape b base extra e -> NoDup (c_id <$> chains b).
Proof.
  intros [-> Hwf _ Hx _]. destruct Hx as [->|(c & -> & (_ & _ & _ & _ & _ & _ & Hnin))]; [rewrite app_nil_r; apply Hwf|].
  rewrite fmap_app. apply NoDup_app. split_and!; [apply Hwf| |apply NoDup_singleton].
  intros i Hi Hj%list_elem_of_singleton. cbn in Hj. by subst i.
Qed.

Lemma shape_contents b base extra e : shape b base extra e -> contents b = all_bytes base.
Proof.
  intros [Hc _ _ Hx _]. rewrite /contents Hc all_bytes_app. destruct Hx as [->|(c & -> & (_ & _ & H0 & _ & Hw & _))]; [by rewrite app_nil_r|].
  by rewrite all_bytes_one (bytes_empty c) // app_nil_r.
Qed.

(** A chain without room, or with fewer than [n] bytes of room which moving its
    data would not gain. *)
Definition crowded (n : Z) (x : evbuffer_chain) : Prop :=
  CHAIN_SPACE_LEN x = 0 ∨ CHAIN_SPACE_LEN x < n ∧ evbuffer_chain_should_realign x n = false.

Lemma crowded_mono m n x : m <= n -> crowded m x -> crowded n x.
Proof.
  intros Hmn [Hs|[Hs Hr]]; [by left|]. right. split; [lia|]. move: Hr. rewrite /evbuffer_chain_should_realign.
  destruct (Z.leb_spec m (buffer_len x - off x)), (Z.leb_spec n (buffer_len x - off x)); cbn; auto; lia.
Qed.

(** The last chain has room for [n] bytes; if it is a spare one, the one before
    had not. *)
Record roomy (n : Z) (b : evbuffer) (c : evbuffer_chain) (e : evenv) : Prop := {
  ro_parts : ∃ base extra, shape b base extra e ∧ list.last (base ++ extra) = Some c
    ∧ (extra ≠ [] -> ∃ pre x, base = pre ++ [x] ∧ crowded n x);
  ro_space : n <= CHAIN_SPACE_LEN c }.

Lemma plain_space c : chain_wf c -> plain c -> CHAIN_SPACE_LEN c = buffer_len c - (misalign c + off c).
Proof.
  intros [] [Hi Hb]. rewrite /CHAIN_SPACE_LEN Hi u64_small //. rewrite /EV_SIZE_MAX. lia.
Qed.

Lemma plain_flags c : chain_wf c -> plain c -> has_flag (Z.lor EVBUFFER_IMMUTABLE EVBUFFER_MEM_PINNED_ANY) (c_flags c) = false.
Proof.
  intros [_ _ _ _ _ Hp] [Hi _]. move: Hp Hi. rewrite /CHAIN_PINNED /is_immutable /has_flag Z.land_lor_distr_r.
  rewrite !negb_false_iff !Z.eqb_eq. intros -> ->. done.
Qed.

(** What making room changes. *)
Definition expanded (n : Z) (b : evbuffer) (e : evenv) (r : option id * evbuffer) (e' : evenv) : Prop :=
  ∃ c, fst r = Some (c_id c) ∧ roomy n (snd r) c e' ∧ keeps b (snd r) ∧ contents (snd r) = contents b
    ∧ total_len (snd r) = total_len b ∧ goes_on e e'.

Lemma new_chain_plain n e c : 0 <= n < 2 ^ 62 -> is_new_chain n e c -> buffer_len c < 2 ^ 62 -> plain c.
Proof. intros Hn (Hw & _ & _ & _ & Hl & Hf & _) Hb. split; [by rewrite /is_immutable Hf|lia]. Qed.

(** ** Making room *)

Lemma chains_wf_data pre x l p n e : chains_wf (pre ++ [x]) l p n e -> off x ≠ 0 -> Forall (fun c => off c ≠ 0) (pre ++ [x]).
Proof. apply wf_all_data. Qed.

(** A new empty chain takes the place of an empty one at the end, or goes behind
    the last one with data. *)
Lemma runs_insert_spare b base extra c e (Q : evbuffer -> evenv -> Prop) :
  shape b base extra e -> chain_wf c -> plain c -> off c = 0 -> misalign c = 0 -> (c_id c < next_id e)%positive -> c_id c ∉ c_id <$> chains b ->
  (∀ b' e' base' extra', shape b' base' extra' e' -> list.last (base' ++ extra') = Some c ->
     (extra' ≠ [] -> ∃ pre x, base' = pre ++ [x] ∧ base = base' ∧ off x ≠ 0) ->
     keeps b b' -> contents b' = contents b -> total_len b' = total_len b -> later e e' -> ev_oom e' = ev_oom e -> Q b' e') ->
  runs (evbuffer_chain_insert b c) e Q.
Proof.
  intros Hsh Hc Hpc H0 Hm Hid Hnin HQ. pose proof (shape_contents _ _ _ _ Hsh) as Hcon. pose proof (shape_ids _ _ _ _ Hsh) as Hnd.
  pose proof Hsh as [Hcs Hwf Hl Hx Hp]. pose proof (bw_total _ _ _ _ _ Hwf) as Ht. pose proof (bw_bound _ _ _ _ _ Hwf) as Hb.
  assert (Htot : u64 (total_len b + off c) = total_len b) by (rewrite H0 Z.add_0_r u64_small //; lia).
  rewrite /evbuffer_chain_insert. rewrite Hcs Forall_app in Hnd Hp, Hnin |- *. destruct Hp as [Hpb Hpx].
  assert (Hone : ∀ e', later e e' -> total_len b = 0 -> ∀ p, p = LFirst -> shape (set_total (total_len b) (set_last (Some (c_id c)) (set_chains [c] (set_datap p b)))) [c] [] e').
  { intros e' Hle Hz p ->. rewrite /later in Hle. split; cbn; [done| |done|by left|by apply Forall_singleton].
    rewrite Hz. apply chains_wf_one; [done|lia|done|rewrite /EV_SIZE_MAX; lia]. }
  destruct base as [|x pre _] using rev_ind.
  - (* no chain at all *)
    destruct Hx as [->|(y & -> & ([] & _))]; [|done]. pose proof (bw_datap _ _ _ _ _ Hwf) as Hdp. cbn in Hdp, Ht.
    rewrite Hdp /runs /= Htot. apply (HQ _ e [c] []); try done.
    + replace b with (set_datap LFirst b) at 2; [by apply Hone|rewrite -Hdp; by destruct b].
    + by rewrite Hcon /contents /= all_bytes_one bytes_empty.
  - pose proof Hwf as Hsn. apply chains_wf_snoc in Hsn as (Hcw & Hndb & Hfr & _ & Hdp & Hdata & _ & _).
    rewrite Forall_app Forall_singleton in Hcw. destruct Hcw as [_ Hxw].
    rewrite Hdp -app_assoc deref_link_of; [|by rewrite app_assoc]. apply runs_bind, runs_bind. cbn [app find_victim].
    rewrite (cw_pinned x Hxw) orb_false_r. destruct (Z.eqb_spec (off x) 0) as [Hx0|Hx0]; cbn [negb].
    + (* a single empty chain *)
      assert (pre = []) as -> by by eapply wf_only_empty. destruct Hx as [->|(y & -> & (_ & Hd & _))].
      2: { rewrite Forall_singleton in Hd. done. }
      apply runs_bind. cbn [evbuffer_chains_all_empty]. rewrite Hx0 /=. apply runs_bind, runs_bind.
      apply (runs_silent _ tt _ _ (silent_free_all [x])). intros e1 Hle Hoom.
      assert (Hz : total_len b = 0). { by rewrite Ht app_nil_l all_bytes_one (bytes_empty x). }
      rewrite /runs /= Htot. cbn in Hdp. apply (HQ _ e1 [c] []); try done.
      * replace b with (set_datap LFirst b) at 2; [by apply Hone|rewrite -Hdp; by destruct b].
      * by rewrite Hcon /contents /= !all_bytes_one !bytes_empty.
    + assert (Hspare : ∀ e', later e e' -> spare_chain (pre ++ [x]) c e').
      { intros e' Hle. rewrite /later in Hle. split_and!; try done; [by destruct pre| |lia|].
        - by eapply chains_wf_data.
        - intros Hin. apply Hnin. rewrite fmap_app. apply elem_of_app. by left. }
      assert (Hend : ∀ b' e', b' = set_total (total_len b) (set_last (Some (c_id c)) (set_chains ((pre ++ [x]) ++ [c]) b)) ->
        later e e' -> ev_oom e' = ev_oom e -> Q b' e').
      { intros b' e' -> Hle Hoom. apply (HQ _ e' (pre ++ [x]) [c]); try done.
        - split; cbn; [done|by eapply chains_wf_later|by rewrite last_snoc|right; by eauto|]. rewrite Forall_app. split; [done|by apply Forall_singleton].
        - by rewrite last_snoc.
        - intros _. by exists pre, x.
        - by rewrite Hcon /contents /= all_bytes_app all_bytes_one (bytes_empty c) // app_nil_r. }
      destruct Hx as [->|(y & -> & (_ & _ & Hy0 & _ & Hyw & _))].
      * (* behind the last one *)
        cbn [find_victim]. rewrite Hl app_nil_r last_snoc. cbn [fmap option_fmap option_map].
        apply runs_bind. rewrite -(link_of_snoc pre x).
        rewrite (store_link_of (pre ++ [x]) []); [|by rewrite Hcs|by rewrite Hcs]. rewrite H0 Z.add_0_r in Htot. rewrite /runs /= H0 /= Z.add_0_r Htot.
        by apply Hend.
      * (* in place of the spare one *)
        cbn [find_victim]. rewrite (cw_pinned y Hyw) orb_false_r Hy0. cbn [Z.eqb negb]. apply runs_bind. cbn [evbuffer_chains_all_empty].
        rewrite Hy0. cbn [Z.eqb negb].
        apply runs_bind, runs_bind. apply (runs_silent _ tt _ _ (silent_free_all [y])). intros e1 Hle Hoom.
        rewrite -(link_of_snoc pre x) (store_link_of (pre ++ [x]) [y]); [|by rewrite Hcs|by rewrite Hcs].
        rewrite /runs /= Htot. by apply Hend.
Qed.

Lemma shape_fresh b base extra e : shape b base extra e -> next_id e ∉ c_id <$> chains b.
Proof.
  intros [-> Hwf _ Hx _] (c & Heq & Hin)%list_elem_of_fmap. apply elem_of_app in Hin as [Hin|Hin].
  - pose proof (bw_fresh _ _ _ _ _ Hwf) as Hf. rewrite Forall_forall in Hf. specialize (Hf c Hin). cbn in Hf. lia.
  - destruct Hx as [->|(y & -> & (_ & _ & _ & _ & _ & Hid & _))]; [by apply not_elem_of_nil in Hin|].
    apply list_elem_of_singleton in Hin as ->. lia.
Qed.

Lemma runs_new_plain n e (Q : option evbuffer_chain -> evenv -> Prop) :
  0 <= n < 2 ^ 62 -> ev_oom e = [] ->
  (∀ c e', after_malloc e e' -> is_new_chain n e c -> plain c -> Q (Some c) e') -> runs (evbuffer_chain_new n) e Q.
Proof.
  intros Hn Ho HQ. eapply runs_mono; [apply runs_yields; [|by apply yields_chain_new]|].
  - apply (runs_chain_new n e (fun c e' => match c with Some c => after_malloc e e' ∧ is_new_chain n e c | None => False end)); [lia|done|].
    intros e' _ [Hbig|Hno]; [|by rewrite Ho in Hno]. rewrite /EVBUFFER_CHAIN_MAX /EV_SSIZE_MAX /EVBUFFER_CHAIN_SIZE in Hbig. lia.
  - intros [c|] e' [H Hp]; [|done]. destruct H. by apply HQ.
Qed.

Lemma runs_insert_checked n b base extra e (Q : option id * evbuffer -> evenv -> Prop) :
  shape b base extra e -> ev_oom e = [] -> 0 <= n < 2 ^ 62 -> (∀ pre x, base = pre ++ [x] -> off x ≠ 0 -> crowded n x) ->
  (∀ r e', expanded n b e r e' -> Q r e') -> runs (insert_new_checked b n) e Q.
Proof.
  intros Hsh Ho Hn Hcr HQ. rewrite /insert_new_checked /evbuffer_chain_insert_new. apply runs_bind, runs_bind.
  apply runs_new_plain; [done|done|]. intros c e1 Hm Hnew Hp. pose proof Hnew as (Hw & Hm0 & Hoff & Hlen & _ & _ & Hid).
  apply runs_bind, (runs_insert_spare b base extra c); [by eapply shape_later, after_malloc_later|done..|by eapply new_chain_id| |].
  { rewrite Hid. by eapply shape_fresh. }
  intros b' e' base' extra' Hsh' Hl Hx Hk Hc Ht Hle Hoom. apply runs_ret.
  assert (Hroom : n <= CHAIN_SPACE_LEN c) by (rewrite plain_space //; lia).
  apply runs_bind, runs_assert; [by apply Z.leb_le|]. apply runs_ret, HQ. exists c. split_and!; try done.
  - split; [|done]. exists base', extra'. split_and!; [done|done|]. intros Hne. destruct (Hx Hne) as (pre & x & Hb & <- & Hx0).
    exists pre, x. split; [done|]. by eapply Hcr.
  - etrans; [by apply goes_on_malloc|by apply goes_on_same].
Qed.

(** The condition under which a chain is resized does not hold for ordinary sizes. *)
Lemma never_resized n c : 0 <= n < 2 ^ 62 -> off c < 2 ^ 62 -> (n <? EVBUFFER_CHAIN_MAX) && (off c <=? EVBUFFER_CHAIN_MAX - n) = true.
Proof. intros. rewrite /EVBUFFER_CHAIN_MAX /EV_SSIZE_MAX. apply andb_true_intro. rewrite Z.ltb_lt Z.leb_le. lia. Qed.

Lemma shape_last b base extra c e : shape b base extra e -> list.last (base ++ extra) = Some c -> chain_wf c ∧ plain c.
Proof.
  intros [_ Hwf _ Hx Hp] Hl. apply last_Some in Hl as [pre Heq]. split.
  - destruct Hx as [->|(y & -> & (_ & _ & _ & _ & Hw & _))].
    + rewrite app_nil_r in Heq. pose proof (bw_chains _ _ _ _ _ Hwf) as Hcw. rewrite Heq Forall_app Forall_singleton in Hcw. apply Hcw.
    + apply app_inj_tail in Heq as [_ <-]. done.
  - rewrite Heq Forall_app Forall_singleton in Hp. apply Hp.
Qed.

Lemma runs_expand n b e (Q : option id * evbuffer -> evenv -> Prop) :
  buffer_wf b e -> all_plain b -> ev_oom e = [] -> 0 < n < 2 ^ 62 ->
  (∀ r e', expanded n b e r e' -> Q r e') -> runs (evbuffer_expand_singlechain b n) e Q.
Proof.
  intros Hwf Hpl Ho Hn HQ. pose proof (shape_wf b e Hwf Hpl) as Hsh. rewrite /evbuffer_expand_singlechain.
  destruct (wf_snoc b e Hwf) as [Hcs|(pre & c & Hcs & Hl)].
  { pose proof (bw_datap _ _ _ _ _ Hwf) as Hd. rewrite Hcs in Hd, Hsh |- *. cbn in Hd. rewrite Hd. apply runs_bind, runs_ret. cbn -[insert_new_checked].
    apply (runs_insert_checked n b [] []); [done|done|lia| |done]. intros [] x; done. }
  assert (Hc : chain_wf c ∧ plain c). { apply (shape_last b (chains b) [] c e Hsh). by rewrite app_nil_r Hcs last_snoc. }
  destruct Hc as [Hw Hp]. pose proof (plain_space c Hw Hp) as Hsp. pose proof (plain_flags c Hw Hp) as Hfl. pose proof Hp as [Him Hlen].
  rewrite (bw_datap _ _ _ _ _ Hwf) Hcs removelast_snoc deref_link_of; [|rewrite -Hcs; apply Hwf]. apply runs_bind, runs_ret.
  assert (Hhere : ∀ c' b', c_id c' = c_id c -> buffer_wf b' e -> all_plain b' -> chains b' = pre ++ [c'] -> n <= CHAIN_SPACE_LEN c' ->
    keeps b b' -> contents b' = contents b -> runs (chain_ok c' b' n) e Q).
  { intros c' b' Hid Hwf' Hpl' Hcs' Hs Hk Hcon. rewrite /chain_ok. apply runs_bind, runs_assert; [by apply Z.leb_le|].
    apply runs_ret, HQ. exists c'. split_and!; try done.
    - split; [|done]. exists (chains b'), []. split_and!; [by apply shape_wf|by rewrite app_nil_r Hcs' last_snoc|done].
    - by rewrite (wf_total _ _ Hwf') (wf_total _ _ Hwf) Hcon. }
  assert (Hnew : off c = 0 ∨ crowded n c -> runs (insert_new_checked b n) e Q).
  { intros Hcr. apply (runs_insert_checked n b (chains b) []); [done|done|lia| |done].
    intros pre' x Hb Hx. rewrite Hcs in Hb. apply app_inj_tail in Hb as [_ <-]. by destruct Hcr. }
  destruct (Z.eqb_spec (CHAIN_SPACE_LEN c) 0) as [Hs0|Hs0].
  { apply Hnew. right. by left. }
  rewrite Hfl. destruct (Z.leb_spec n (CHAIN_SPACE_LEN c)) as [Hroom|Hroom].
  { by apply Hhere. }
  destruct (Z.eqb_spec (off c) 0) as [H0|H0]; [apply Hnew; by left|].
  destruct (evbuffer_chain_should_realign c n) eqn:Hre.
  { apply runs_bind, runs_chain_align; [done|done|]. destruct (aligned_wf c Hw) as [Hwa Hba].
    destruct (wf_swap_last b pre c (aligned c) e) as (Hwf' & Hcs' & Hcon'); [done..|]. apply andb_prop in Hre as [Hre _].
    apply andb_prop in Hre as [Hre%Z.leb_le _]. apply Hhere; try done.
    - by apply put_plain.
    - by rewrite plain_space. }
  rewrite never_resized; [|lia|destruct Hw; lia]. rewrite orb_true_r. apply Hnew. right. by right.
Qed.

Lemma runs_expand_again m n b c e (Q : option id * evbuffer -> evenv -> Prop) :
  roomy m b c e -> ev_oom e = [] -> 0 < m <= n -> n < 2 ^ 62 -> CHAIN_SPACE_LEN c < n ->
  (∀ r e', expanded n b e r e' -> Q r e') -> runs (evbuffer_expand_singlechain b n) e Q.
Proof.
  intros [(base & extra & Hsh & Hl & Hx) _] Ho Hmn Hmax Hs HQ. pose proof (shape_last _ _ _ _ _ Hsh Hl) as [Hw Hp].
  pose proof Hsh as [Hcs Hwf _ [->|(y & -> & (_ & Hdata & Hy0 & _))] Hpl].
  { destruct (wf_shape _ _ _ Hsh) as [Hb Hpb]. apply runs_expand; [done|done|done|lia|done]. }
  rewrite last_snoc in Hl. injection Hl as ->. destruct (Hx ltac:(done)) as (pre & x & -> & Hcr). apply (crowded_mono m n) in Hcr; [|lia].
  assert (Hnew : runs (insert_new_checked b n) e Q).
  { apply (runs_insert_checked n b (pre ++ [x]) [c]); [done|done|lia| |done]. intros pre' x' [_ ->]%app_inj_tail _. done. }
  rewrite Forall_app Forall_app !Forall_singleton in Hpl. destruct Hpl as [[_ Hpx] _].
  pose proof Hwf as Hsn. apply chains_wf_snoc in Hsn as (Hcw & _ & _ & _ & Hdp & _). rewrite Forall_app Forall_singleton in Hcw. destruct Hcw as [_ Hxw].
  rewrite Forall_app Forall_singleton in Hdata. destruct Hdata as [_ Hx0].
  rewrite /evbuffer_expand_singlechain Hdp. pose proof (shape_ids _ _ _ _ Hsh) as Hnd. rewrite Hcs -app_assoc in Hnd |- *.
  rewrite deref_link_of //. apply runs_bind, runs_ret. cbn [app].
  destruct (Z.eqb_spec (CHAIN_SPACE_LEN x) 0) as [H0|H0].
  - rewrite plain_flags // (proj2 (Z.leb_gt _ _)) // Hy0. done.
  - destruct Hcr as [|[Hsx Hre]]; [done|]. rewrite plain_flags // (proj2 (Z.leb_gt _ _)) // (proj2 (Z.eqb_neq _ _)) // Hre.
    rewrite never_resized; [|lia|destruct Hxw, Hpx; lia]. rewrite orb_true_r (proj2 (Z.leb_gt _ _)) //.
Qed.

(** ** Writing *)

Lemma slice_patch_part {A} (bs ds es : list A) o :
  0 <= o -> o <= Z.of_nat (length bs) -> slice (patch bs o (ds ++ es)) o (Z.of_nat (length ds)) = ds.
Proof.
  intros H0 Ho. pose proof (slice_patch_at bs (ds ++ es) o _ H0 Ho eq_refl) as H. rewrite length_app Nat2Z.inj_add slice_split in H; [|lia..].
  apply app_inj_1 in H as [H _]; [done|]. apply (f_equal length) in H. rewrite !length_app in H. rewrite /slice !length_take in H |- *. lia.
Qed.

Lemma runs_vsnprintf c text e (Q : Z * evbuffer_chain -> evenv -> Prop) :
  chain_wf c -> plain c -> 0 < CHAIN_SPACE_LEN c -> Z.of_nat (length text) < 2 ^ 31 ->
  (∀ d, let c' := set_data d c in chain_wf c' -> bytes c' = bytes c ->
     (Z.of_nat (length text) < CHAIN_SPACE_LEN c -> let c'' := set_span (misalign c) (off c + Z.of_nat (length text)) c' in
        chain_wf c'' ∧ bytes c'' = bytes c ++ text) -> Q (Z.of_nat (length text), c') e) ->
  runs (evutil_vsnprintf c (misalign c + off c) (CHAIN_SPACE_LEN c) text) e Q.
Proof.
  intros Hw Hp Hs Hlen HQ. pose proof Hw as [Hm Ho Hfit Hmax Hdat Hpin]. rewrite (plain_space c Hw Hp) in Hs HQ |- *.
  set (pos := misalign c + off c) in *. set (space := buffer_len c - pos) in *. rewrite /evutil_vsnprintf (proj2 (Z.eqb_neq _ _)); [|lia].
  set (w1 := take (Z.to_nat (space - 1)) text ++ [Some 0]).
  assert (Hl1 : Z.of_nat (length w1) = Z.min (space - 1) (Z.of_nat (length text)) + 1) by (rewrite /w1 length_app length_take /=; lia).
  apply runs_bind, runs_chain_write; [lia|lia|]. set (d1 := patch (c_data c) pos w1).
  assert (Hd1 : length d1 = length (c_data c)) by (apply patch_length; lia).
  apply runs_bind, runs_chain_write; [lia|cbn; lia|]. apply runs_ret. cbn [c_data set_data].
  set (d2 := patch d1 (pos + space - 1) [Some 0]). assert (Hd2 : length d2 = length (c_data c)) by (rewrite /d2 patch_length //=; lia).
  rewrite (proj2 (Z.leb_gt _ _)) //.
  assert (Hbytes : slice d2 (misalign c) (off c) = bytes c).
  { rewrite /d2 slice_patch_before; [|lia..]. rewrite /d1 slice_patch_before //; lia. }
  apply (HQ d2).
  - split; cbn; try done. by rewrite Hd2.
  - exact Hbytes.
  - intros Hlt. split; [split; cbn; try done; [lia|lia|by rewrite Hd2]|]. rewrite {1}/bytes. cbn [c_data misalign off set_span set_data].
    rewrite slice_split; [|lia..]. rewrite Hbytes. f_equal. change (misalign c + off c) with pos.
    rewrite /d2 slice_patch_before; [|lia..]. rewrite /d1 /w1 take_ge; [|lia]. apply slice_patch_part; lia.
Qed.

(** The last chain changes in place, but not its bytes. *)
Lemma shape_put b base extra c c' e :
  shape b base extra e -> list.last (base ++ extra) = Some c -> chain_wf c' -> plain c' -> c_id c' = c_id c -> off c' = off c ->
  misalign c' = misalign c -> bytes c' = bytes c ->
  ∃ base' extra', shape (put_chain c' b) base' extra' e ∧ list.last (base' ++ extra') = Some c' ∧ all_bytes base' = all_bytes base
    ∧ (extra' ≠ [] -> base' = base ∧ extra ≠ []).
Proof.
  intros Hsh Hl Hw Hp Hid Hoff Hm Hby. pose proof (shape_ids _ _ _ _ Hsh) as Hnd. pose proof Hsh as [Hcs Hwf Hlast [->|(y & -> & Hs)] Hpl].
  - rewrite app_nil_r in Hcs, Hl, Hlast, Hpl. apply last_Some in Hl as [pre ->]. rewrite last_snoc /= in Hlast Hwf.
    rewrite Forall_app Forall_singleton in Hpl. exists (pre ++ [c']), []. rewrite app_nil_r last_snoc (put_chain_app pre c c' []) //.
    split_and!; [|done|by rewrite !all_bytes_app !all_bytes_one Hby|done]. split; cbn; rewrite ?app_nil_r ?last_snoc //=; [|by rewrite Hid|by left|].
    + rewrite Hid. apply (chains_wf_set_last pre c _ _ _ _ _ _ Hwf); [done|done|lia|lia|]. apply (bw_bound _ _ _ _ _ Hwf).
    + rewrite Forall_app Forall_singleton. split; [apply Hpl|done].
  - rewrite last_snoc in Hl. injection Hl as ->. rewrite Forall_app Forall_singleton in Hpl. exists base, [c'].
    rewrite last_snoc (put_chain_app base c c' []) //. split_and!; [|done|done|done].
    destruct Hs as (? & ? & ? & ? & ? & ? & ?). split; cbn; [done|done|by rewrite Hlast !last_snoc /= Hid| |].
    + right. exists c'. split; [done|]. rewrite /spare_chain Hid. split_and!; try done; congruence.
    + rewrite Forall_app Forall_singleton. split; [apply Hpl|done].
Qed.

(** The text is behind the data of the last chain. *)
Lemma runs_written b base extra c c' text e (Q : evbuffer -> evenv -> Prop) :
  shape b base extra e -> list.last (base ++ extra) = Some c -> chain_wf c' -> plain c' -> c_id c' = c_id c ->
  off c' = off c + Z.of_nat (length text) -> bytes c' = bytes c ++ text -> text ≠ [] ->
  total_len b + Z.of_nat (length text) <= EV_SIZE_MAX ->
  (∀ b', buffer_wf b' e -> all_plain b' -> keeps b b' -> contents b' = contents b ++ text -> Q b' e) ->
  runs (advance_last_with_data (count_added (Z.of_nat (length text)) (put_chain c' b))) e Q.
Proof.
  intros Hsh Hl Hw Hp Hid Hoff Hby Hne Hmax HQ. pose proof (shape_ids _ _ _ _ Hsh) as Hnd. pose proof (shape_contents _ _ _ _ Hsh) as Hcon.
  assert (Hlen : 0 < Z.of_nat (length text)) by (destruct text; [done|cbn; lia]).
  pose proof (cw_off c (proj1 (shape_last _ _ _ _ _ Hsh Hl))) as Hc00.
  pose proof Hsh as [Hcs Hwf Hlast [->|(y & -> & Hs)] Hpl]; pose proof (bw_total _ _ _ _ _ Hwf) as Ht.
  - rewrite app_nil_r in Hcs, Hl, Hlast, Hpl. apply last_Some in Hl as [pre ->]. rewrite last_snoc /= in Hlast Hwf.
    rewrite Forall_app Forall_singleton in Hpl. pose proof Hwf as Hsn. apply chains_wf_snoc in Hsn as (_ & _ & _ & _ & Hdp & _).
    rewrite (put_chain_app pre c c' []) //. rewrite /advance_last_with_data /=. rewrite Hdp deref_link_of; [|move: Hnd; by rewrite Hcs !fmap_app /= Hid].
    apply runs_bind, runs_ret, runs_ret. rewrite -Hdp. cbn [advance_from]. assert (Hu : u64 (total_len b + Z.of_nat (length text)) = total_len b + Z.of_nat (length text)) by (rewrite u64_small; lia).
    apply HQ; [| |done|by rewrite Hcon /contents /= !all_bytes_app !all_bytes_one Hby app_assoc].
    + rewrite /buffer_wf /= Hu Hlast. apply (chains_wf_set_last pre c _ _ _ _ _ _ Hwf); [done|done|lia|lia|done].
    + rewrite /all_plain /= Forall_app Forall_singleton. split; [apply Hpl|done].
  - rewrite last_snoc in Hl. injection Hl as ->. rewrite last_snoc /= in Hlast. rewrite Forall_app Forall_singleton in Hpl.
    destruct Hs as (Hnil & Hdata & Hc0 & _ & Hcw & Hfr & Hnin). destruct base as [|x pre _] using rev_ind; [done|].
    pose proof Hwf as Hsn. apply chains_wf_snoc in Hsn as (_ & _ & _ & _ & Hdp & _).
    assert (Hd : deref ((pre ++ [x]) ++ [c']) (link_of pre) = mret [x; c']).
    { rewrite -app_assoc deref_link_of //. move: Hnd. by rewrite Hcs -app_assoc !fmap_app /= Hid. }
    rewrite (put_chain_app (pre ++ [x]) c c' []) //. rewrite /advance_last_with_data /= Hdp Hd.
    apply runs_bind, runs_ret, runs_ret. cbn [app advance_from]. rewrite (proj2 (Z.eqb_neq (off c') 0)); [|lia]. cbn [negb].
    rewrite -(link_of_snoc pre x). assert (Hu : u64 (total_len b + Z.of_nat (length text)) = total_len b + off c') by (rewrite u64_small; lia).
    apply HQ; [| |done|].
    + rewrite /buffer_wf /= Hu Hlast -Hid. rewrite last_snoc in Hwf. eapply chains_wf_grow; [exact Hwf|done|lia|by rewrite Hid| |lia].
      rewrite Forall_app Forall_singleton. split; [done|lia].
    + rewrite /all_plain /= Forall_app Forall_singleton. split; [apply Hpl|done].
    + rewrite Hcon /contents /= !all_bytes_app !all_bytes_one Hby (bytes_empty c) //.
Qed.

(** ** The law *)

Lemma roomy_get m b c e : roomy m b c e -> get_chain b (Some (c_id c)) = mret c ∧ chain_wf c ∧ plain c.
Proof.
  intros [(base & extra & Hsh & Hl & _) _]. split; [|by eapply shape_last].
  pose proof Hl as [pre Heq]%last_Some. apply (get_chain_app pre c []); [by rewrite (sh_chains _ _ _ _ Hsh)|by eapply shape_ids].
Qed.

Lemma runs_vprintf_loop fuel m b c text e (Q : Z * evbuffer -> evenv -> Prop) :
  roomy m b c e -> ev_oom e = [] -> 0 < m < 2 ^ 62 -> text ≠ [] -> Z.of_nat (length text) < 2 ^ 31 - 1 -> total_len b + Z.of_nat (length text) <= EV_SIZE_MAX ->
  Nat.le (if Z.of_nat (length text) <? CHAIN_SPACE_LEN c then 1%nat else 2%nat) fuel ->
  (∀ b' e', buffer_wf b' e' -> all_plain b' -> keeps b b' -> contents b' = contents b ++ text -> goes_on e e' ->
     Q (Z.of_nat (length text), b') e') ->
  runs (vprintf_loop fuel b (c_id c) text) e Q.
Proof.
  revert m b c e. induction fuel as [|fuel IH]; intros m b c e Hr Ho Hm Hne Hlen Hmax Hfuel HQ; [destruct (_ <? _); lia|].
  destruct (roomy_get _ _ _ _ Hr) as (Hget & Hw & Hp). pose proof Hr as [(base & extra & Hsh & Hl & Hx) Hroom]. cbn [vprintf_loop].
  rewrite Hget. apply runs_bind, runs_ret, runs_bind, runs_vsnprintf; [done|done|lia|lia|]. intros d c' Hw' Hby' Hfit.
  rewrite (proj2 (Z.ltb_ge _ 0)); [|lia]. assert (Hp' : plain c') by exact Hp.
  destruct (Z.ltb_spec (Z.of_nat (length text)) (CHAIN_SPACE_LEN c)) as [Hlt|Hge].
  - destruct (Hfit Hlt) as [Hw'' Hby'']. rewrite put_chain_twice //. apply runs_bind.
    apply (runs_written b base extra c); [done..|]. intros b' Hwf' Hpl' Hk Hcon. apply runs_bind, runs_invoke. intros b2 e2 Hc2 Hle Hoom.
    apply runs_ret, HQ; [by eapply wf_later; [eapply counted_wf|]| |by etrans; [|apply counted_keeps]|by rewrite (counted_contents _ _ Hc2)|by apply goes_on_same].
    by destruct Hc2 as (? & ? & ? & ->).
  - destruct (shape_put b base extra c c' e Hsh Hl Hw' Hp' eq_refl eq_refl eq_refl Hby') as (base' & extra' & Hsh' & Hl' & Hall & Hx').
    assert (Hr' : roomy m (put_chain c' b) c' e).
    { split; [|done]. exists base', extra'. split_and!; [done|done|]. intros Hn. destruct (Hx' Hn) as [-> Hn']. by apply Hx. }
    apply runs_bind, (runs_expand_again m _ _ c'); [done|done|lia|lia|change (CHAIN_SPACE_LEN c') with (CHAIN_SPACE_LEN c); lia|].
    intros [i b2] e2 (c2 & Hi & Hr2 & Hk2 & Hc2 & Ht2 & Hgo2). cbn in Hi, Hr2, Hk2, Hc2, Ht2. subst i.
    assert (Hcon : contents (put_chain c' b) = contents b) by by rewrite (shape_contents _ _ _ _ Hsh') (shape_contents _ _ _ _ Hsh).
    pose proof (ro_space _ _ _ _ Hr2) as Hroom2.
    apply (IH (Z.of_nat (length text) + 1)); [done|by apply Hgo2|lia|done|done|by rewrite Ht2| |].
    + rewrite (proj2 (Z.ltb_lt _ _)); lia.
    + intros b' e' Hwf' Hpl' Hk' Hcon' Hgo'. apply HQ; [done|done|transitivity b2; [|done]; by transitivity (put_chain c' b)|rewrite Hcon' Hc2; by f_equal|by etrans].
Qed.

Lemma runs_add_printf b text e (Q : Z * evbuffer -> evenv -> Prop) :
  buffer_wf b e -> all_plain b -> ev_oom e = [] -> freeze_end b = false -> text ≠ [] -> Z.of_nat (length text) < 2 ^ 31 - 1 ->
  total_len b + Z.of_nat (length text) <= EV_SIZE_MAX ->
  (∀ b' e', buffer_wf b' e' -> all_plain b' -> keeps b b' -> contents b' = contents b ++ text -> goes_on e e' ->
     Q (Z.of_nat (length text), b') e') ->
  runs (evbuffer_add_printf b text) e Q.
Proof.
  intros Hwf Hp Ho Hfr Hne Hlen Hmax HQ. rewrite /evbuffer_add_printf /evbuffer_add_vprintf Hfr.
  apply runs_bind, runs_expand; [done|done|done|lia|]. intros [i b1] e1 (c & Hi & Hr & Hk & Hc & Ht & Hgo). cbn in Hi, Hr, Hk, Hc, Ht. subst i.
  apply (runs_vprintf_loop 2 64); [done|by apply Hgo|lia|done|done|by rewrite Ht|destruct (_ <? _); lia|].
  intros b' e' Hwf' Hpl' Hk' Hcon' Hgo'. apply HQ; [done|done|by etrans|by rewrite Hcon' Hc|by etrans].
Qed.

(** Formatted output for the users of a [ByteBuffer]. *)
Class PrintBuffer (holds : evbuffer -> list mbyte -> evenv -> Prop) `{!ByteBuffer holds} := {
  pb_printf b bs text e (Q : Z * evbuffer -> evenv -> Prop) :
    holds b bs e -> text ≠ [] -> Z.of_nat (length text) < 2 ^ 31 - 1 -> Z.of_nat (length bs) + Z.of_nat (length text) < 2 ^ 62 ->
    (∀ b' e', holds b' (bs ++ text) e' -> goes_on e e' -> Q (Z.of_nat (length text), b') e') ->
    runs (evbuffer_add_printf b text) e Q;
  pb_free b bs e (Q : unit -> evenv -> Prop) :
    holds b bs e -> (∀ e', goes_on e e' -> Q tt e') -> runs (evbuffer_free b) e Q }.

#[export] Instance open_buffer_prints : PrintBuffer open_buffer.
Proof.
  split.
  - intros b bs text e Q Hst Hne Hlen Hfit HQ. pose proof (stands_total _ _ _ Hst) as Ht. pose proof Hst as [Hwf Hpl Hby Hs He Ho]. cbn in Hby, Hs, He, Ht.
    apply runs_add_printf; [done|done|done|done|done|done|rewrite Ht /EV_SIZE_MAX; lia|]. intros b' e' Hwf' Hpl' Hk Hcon Hgo. apply HQ; [|done].
    apply (stands_next b (Queue bs false false) b' _ e e'); try done. by rewrite Hcon Hby.
  - intros b bs e Q Hst HQ. apply (runs_silent _ tt _ _ (silent_free_all (chains b))). intros e' Hle Hoom. by apply HQ, goes_on_same.
Qed.

(** ** What is written stays apart *)

Section stays_print.
Context (P : id -> Prop).
Abbreviation stays := (stays P).
Abbreviation mine := (mine P).
Abbreviation all_mine := (all_mine P).
Abbreviation mine_snd := (mine_snd P).

Lemma stays_vprintf_loop fuel b i text : all_mine b -> stays (vprintf_loop fuel b i text) mine_snd.
Proof.
  revert b i. induction fuel as [|fuel IH]; intros b i Hb; [apply stays_fail|]. cbn [vprintf_loop]. rewrite /evutil_vsnprintf /advance_last_with_data.
  eapply stays_bind; [by apply stays_get_chain|]. intros c Hc.
  eapply (stays_bind _ _ _ (fun r => mine r.2)); [stay|]. intros [sz c'] Hc'. cbn [snd] in Hc'.
  destruct (sz <? 0); [stay|]. destruct (_ <? _).
  - cbv zeta. set (b1 := count_added sz _). assert (Hb1 : all_mine b1) by (by apply put_mine; [apply put_mine|]). clearbody b1.
    pose proof (all_mine_chains _ _ Hb1). stay.
  - eapply stays_bind; [apply stays_expand; by apply put_mine|]. intros [[j|] b'] Hb'; [by apply IH|by apply stays_ret].
Qed.

Lemma stays_printf b text : all_mine b -> stays (evbuffer_add_printf b text) mine_snd.
Proof.
  intros Hb. rewrite /evbuffer_add_printf /evbuffer_add_vprintf. destruct (freeze_end b); [by apply stays_ret|].
  eapply stays_bind; [by apply stays_expand|]. intros [[i|] b'] Hb'; [by apply stays_vprintf_loop|by apply stays_ret].
Qed.
End stays_print.

(** ** A buffer beside another *)

Section beside.
Context (other : evbuffer) (ds : list mbyte).

Definition apart (i : id) : Prop := i ∉ ids other.

(** The other one, with the bytes [ds], is not touched. *)
Definition beside (b : evbuffer) (bs : list mbyte) (e : evenv) : Prop :=
  open_buffer b bs e ∧ all_mine apart b ∧ open_buffer other ds e.

Lemma others_fresh e : open_buffer other ds e -> fresh apart e.
Proof.
  intros [Hwf _ _ _ _ _] i Hi Hin. pose proof (bw_fresh _ _ _ _ _ Hwf) as Hf. rewrite Forall_forall in Hf.
  apply list_elem_of_fmap in Hin as (c & -> & Hc). specialize (Hf c Hc). cbn in Hf. lia.
Qed.

Lemma others_later e e' : open_buffer other ds e -> goes_on e e' -> open_buffer other ds e'.
Proof. exact (bb_frame other ds e e'). Qed.

#[export] Instance beside_laws : ByteBuffer beside | 10.
Proof.
  split.
  - intros b bs e e' (Hb & Hm & Hex) Hgo. split_and!; [by eapply bb_frame|done|by eapply others_later].
  - intros b bs e (Hb & _ & _). by eapply bb_memory.
  - intros b bs e (Hb & _ & _). by apply (bb_length b bs e).
  - intros b bs data e Q (Hb & Hm & Hex) Hlen HQ. eapply runs_stays; [by apply stays_add|by apply others_fresh|].
    apply (bb_add b bs); [done|done|]. intros b' e' Hb' Hgo Hm'. apply HQ; [|done]. split_and!; [done|done|by eapply others_later].
  - intros b bs n e Q (Hb & Hm & Hex) Hn HQ. eapply runs_stays; [by apply stays_drain|by apply others_fresh|].
    apply (bb_drain b bs); [done|done|]. intros b' e' Hb' Hgo Hm'. apply HQ; [|done]. split_and!; [done|done|by eapply others_later].
  - intros b bs n e Q (Hb & Hm & Hex) Hn HQ. eapply runs_stays; [by apply stays_remove|by apply others_fresh|].
    apply (bb_remove b bs); [done|done|]. intros r b' e' Hb' Hgo Hm'. apply HQ; [|done]. split_and!; [done|done|by eapply others_later].
  - intros b bs n e Q (Hb & Hm & Hex) Hn Hlen HQ. eapply runs_stays; [by apply stays_pullup|by apply others_fresh|].
    apply (bb_pullup b bs); [done|done|done|]. intros i b' e' Hb' Hgo Hr Hm'. apply HQ; [|done|done]. split_and!; [done|done|by eapply others_later].
  - intros b bs n e (Hb & _ & _). by apply (bb_pullup_none b bs n e).
Qed.

#[export] Instance beside_prints : PrintBuffer beside | 10.
Proof.
  split.
  - intros b bs text e Q (Hb & Hm & Hex) Hne Hlen Hfit HQ. eapply runs_stays; [by apply stays_printf|by apply others_fresh|].
    apply (pb_printf b bs); [done|done|done|done|]. intros b' e' Hb' Hgo Hm'. apply HQ; [|done]. split_and!; [done|done|by eapply others_later].
  - intros b bs e Q (Hb & _ & _). by apply (pb_free b bs).
Qed.
End beside.

(** What a client may know of a buffer says at least that it is open. *)
Class OpenBuffer (holds : evbuffer -> list mbyte -> evenv -> Prop) := ob_open b bs e : holds b bs e -> open_buffer b bs e.

#[export] Instance open_buffer_open : OpenBuffer open_buffer.
Proof. intros b bs e Hb. exact Hb. Qed.

#[export] Instance beside_open other ds : OpenBuffer (beside other ds) | 10.
Proof. by intros b bs e []. Qed.

Lemma apart_separate other b : all_mine (apart other) b <-> separate b other.
Proof.
  rewrite /all_mine /separate Forall_forall /mine /apart /ids. split.
  - intros Hm i (c & -> & Hc)%list_elem_of_fmap. by apply Hm.
  - intros Hs c Hc Hin. apply (Hs (c_id c)); [by apply list_elem_of_fmap_2|done].
Qed.

Lemma beside_sym b1 bs1 b2 bs2 e : beside b1 bs1 b2 bs2 e -> beside b2 bs2 b1 bs1 e.
Proof.
  intros (H2 & Hm & H1). split_and!; [done| |done]. apply apart_separate. apply apart_separate in Hm. intros i ??. by apply (Hm i).
Qed.

Lemma beside_new b bs e : open_buffer b bs e -> beside empty_evbuffer [] b bs e.
Proof.
  intros Hb. split_and!; [done| |by eapply nb_new, bb_memory]. apply apart_separate. by intros i _ ?%not_elem_of_nil.
Qed.

(** The bytes of a buffer go to the end of one beside it. *)
Lemma runs_add_beside out bs inb ds e (Q : Z * evbuffer * evbuffer -> evenv -> Prop) :
  beside inb ds out bs e -> Z.of_nat (length bs) + Z.of_nat (length ds) < 2 ^ 62 ->
  (∀ r out' inb' e', beside inb' [] out' (bs ++ ds) e' -> goes_on e e' -> Q (r, out', inb') e') ->
  runs (evbuffer_add_buffer out inb) e Q.
Proof.
  intros (Ho & Hm & Hi) Hlen HQ. pose proof (stands_total _ _ _ Ho) as Hto. pose proof (stands_total _ _ _ Hi) as Hti. cbn in Hto, Hti.
  pose proof Ho as [Hwo Hpo Hbo _ Hfo _]. pose proof Hi as [Hwi Hpi Hbi Hfi _ _]. cbn in Hbo, Hfo, Hbi, Hfi. apply apart_separate in Hm.
  eapply runs_mono; [apply runs_evbuffer_add_buffer; [done|done|done|rewrite Hto Hti /EV_SIZE_MAX; lia]|].
  intros [[r out'] inb'] e' (Hw1 & Hw2 & Hk1 & Hk2 & Hgo & Hsep & Hof1 & Hof2 & Hres). destruct Hres as [(-> & Hc1 & Hc2)|(_ & _ & _ & Hfr)]; [|by rewrite Hfo Hfi in Hfr].
  apply HQ; [|done]. split_and!.
  - eapply (stands_next _ (Queue bs false false)); [done|done|done|done|by eapply of_both_plain|by rewrite Hc1 Hbo Hbi].
  - by apply apart_separate.
  - by eapply (stands_next _ (Queue ds false false)); [..|by eapply of_both_plain|].
Qed.

(** The first bytes of a buffer go to the end of one beside it. *)
Lemma runs_remove_beside src bs dst ds n e (Q : Z * evbuffer * evbuffer -> evenv -> Prop) :
  beside dst ds src bs e -> 0 <= n < 2 ^ 62 -> Z.of_nat (length bs) + Z.of_nat (length ds) < 2 ^ 62 ->
  (∀ r src' dst' e', beside dst' (ds ++ take (Z.to_nat n) bs) src' (drop (Z.to_nat n) bs) e' -> goes_on e e' -> Q (r, src', dst') e') ->
  runs (evbuffer_remove_buffer src dst n) e Q.
Proof.
  intros (Hs & Hm & Hd) Hn Hlen HQ. pose proof (stands_total _ _ _ Hs) as Hts. pose proof (stands_total _ _ _ Hd) as Htd. cbn in Hts, Htd.
  pose proof Hs as [Hws Hps Hbs Hfs _ Hoom]. pose proof Hd as [Hwd Hpd Hbd _ Hfd _]. cbn in Hbs, Hfs, Hbd, Hfd. apply apart_separate in Hm.
  eapply runs_mono; [apply runs_evbuffer_remove_buffer; [done|done| |rewrite Hts Htd /EV_SIZE_MAX; lia|done|done|done|done]|].
  { intros i ??. by apply (Hm i). }
  intros [[r src'] dst'] e' (Hw1 & Hw2 & Hk1 & Hk2 & Hgo & Hsep & Hp1 & Hp2 & Hres). destruct Hres as [(_ & Hc1 & Hc2)|(_ & _ & _ & Hfr)]; [|by rewrite Hfs Hfd in Hfr].
  apply HQ; [|done]. split_and!.
  - by eapply (stands_next _ (Queue bs false false)); [..|by rewrite Hc2 Hbs].
  - apply apart_separate. intros i ??. by apply (Hsep i).
  - by eapply (stands_next _ (Queue ds false false)); [..|by rewrite Hc1 Hbs Hbd].
Qed.
