(* ===== verification/EvUtil.v ===== *)
(** * libevent/evutil.c: characters and addresses

    Texts are lists of characters without the terminating NUL; a character is a
    number from 0 to 255.  The tables and functions for characters, comparison of
    texts, and numbers in texts.  Whether a text is the address of IPv6 is asked of
    the C library, a class. *)

From S2P Require Import Prelude CTypes HProp CMem CLib EvTime.
Open Scope Z_scope.

(** ** Characters *)

Definition EVUTIL_ISALPHA_TABLE : list Z := [0; 0; 0x7fffffe; 0x7fffffe; 0; 0; 0; 0].
Definition EVUTIL_ISALNUM_TABLE : list Z := [0; 0x3ff0000; 0x7fffffe; 0x7fffffe; 0; 0; 0; 0].
Definition EVUTIL_ISSPACE_TABLE : list Z := [0x3e00; 0x1; 0; 0; 0; 0; 0; 0].
Definition EVUTIL_ISXDIGIT_TABLE : list Z := [0; 0x3ff0000; 0x7e; 0x7e; 0; 0; 0; 0].
Definition EVUTIL_ISDIGIT_TABLE : list Z := [0; 0x3ff0000; 0; 0; 0; 0; 0; 0].
Definition EVUTIL_ISPRINT_TABLE : list Z := [0; 0xffffffff; 0xffffffff; 0x7fffffff; 0; 0; 0; 0].
Definition EVUTIL_ISUPPER_TABLE : list Z := [0; 0; 0x7fffffe; 0; 0; 0; 0; 0].
Definition EVUTIL_ISLOWER_TABLE : list Z := [0; 0; 0; 0x7fffffe; 0; 0; 0; 0].

Definition ctype_fn (table : list Z) (c : Z) : bool :=
  let u := u8 c in
  Z.testbit (nth (Z.to_nat (Z.land (Z.shiftr u 5) 7)) table 0) (Z.land u 31).

Definition EVUTIL_ISALPHA : Z -> bool := ctype_fn EVUTIL_ISALPHA_TABLE.
Definition EVUTIL_ISALNUM : Z -> bool := ctype_fn EVUTIL_ISALNUM_TABLE.
Definition EVUTIL_ISSPACE : Z -> bool := ctype_fn EVUTIL_ISSPACE_TABLE.
Definition EVUTIL_ISDIGIT : Z -> bool := ctype_fn EVUTIL_ISDIGIT_TABLE.
Definition EVUTIL_ISXDIGIT : Z -> bool := ctype_fn EVUTIL_ISXDIGIT_TABLE.
Definition EVUTIL_ISPRINT : Z -> bool := ctype_fn EVUTIL_ISPRINT_TABLE.
Definition EVUTIL_ISLOWER : Z -> bool := ctype_fn EVUTIL_ISLOWER_TABLE.
Definition EVUTIL_ISUPPER : Z -> bool := ctype_fn EVUTIL_ISUPPER_TABLE.

(** The two tables of 256 entries are the identity but for 26 letters. *)
Definition EVUTIL_TOUPPER (c : Z) : Z := let u := u8 c in if (97 <=? u) && (u <=? 122) then u - 32 else u.
Definition EVUTIL_TOLOWER (c : Z) : Z := let u := u8 c in if (65 <=? u) && (u <=? 90) then u + 32 else u.

(** The characters are compared as signed ones; both texts end in a NUL. *)
Fixpoint evutil_ascii_strcasecmp (s1 s2 : list Z) : Z :=
  let c1 := s8 (EVUTIL_TOLOWER (hd 0 s1)) in
  let c2 := s8 (EVUTIL_TOLOWER (hd 0 s2)) in
  if c1 <? c2 then -1
  else if c2 <? c1 then 1
  else
    match s1 with
    | [] => 0
    | _ :: s1 => match s2 with [] => 0 | _ :: s2 => evutil_ascii_strcasecmp s1 s2 end
    end.

Fixpoint evutil_ascii_strncasecmp (n : nat) (s1 s2 : list Z) : Z :=
  match n with
  | O => 0
  | S n =>
      let c1 := s8 (EVUTIL_TOLOWER (hd 0 s1)) in
      let c2 := s8 (EVUTIL_TOLOWER (hd 0 s2)) in
      if c1 <? c2 then -1
      else if c2 <? c1 then 1
      else
        match s1 with
        | [] => 0
        | _ :: s1 => match s2 with [] => 0 | _ :: s2 => evutil_ascii_strncasecmp n s1 s2 end
        end
  end.

Definition evutil_hex_char_to_int (c : Z) : Z :=
  if (48 <=? c) && (c <=? 57) then c - 48
  else if (65 <=? c) && (c <=? 70) then c - 55
  else if (97 <=? c) && (c <=? 102) then c - 87
  else -1.

Definition MAX_SECONDS_IN_MSEC_LONG : Z := (LONG_MAX - 999) / 1000.

Definition evutil_tv_to_msec (tv : timeval) : Z :=
  if (1000000 <? tv_usec tv) || (MAX_SECONDS_IN_MSEC_LONG <? tv_sec tv) then -1
  else tv_sec tv * 1000 + Z.quot (tv_usec tv + 999) 1000.

(** ** The C library: hexadecimal numbers, sscanf *)

(** strtol(s, &next, 16) for a text that starts with a hexadecimal digit: the
    value and how many characters were read. *)
Fixpoint hex_val (acc : Z) (s : list Z) : Z * nat :=
  match s with
  | c :: s => if EVUTIL_ISXDIGIT c then
                let '(v, n) := hex_val (acc * 16 + evutil_hex_char_to_int c) s in (v, S n)
              else (acc, O)
  | [] => (acc, O)
  end.

Definition strtol16 (s : list Z) : Z * nat :=
  let '(v, n) :=
    match s with
    | z :: x :: h :: _ =>
        if (z =? 48) && ((x =? 120) || (x =? 88)) && EVUTIL_ISXDIGIT h then
          let '(v, n) := hex_val 0 (drop 2 s) in (v, S (S n))
        else hex_val 0 s
    | _ => hex_val 0 s
    end in
  (fst (clamp_long v), n).

(** %d: the number, an int, and what is left. *)
Definition scan_d (s : list Z) : option (Z * list Z) :=
  match strtol (s ++ [0]) with
  | Some r => if st_end r =? 0 then None else Some (s32 (st_val r), drop (Z.to_nat (st_end r)) s)
  | None => None
  end.

Definition scan_c (c : Z) (s : list Z) : option (list Z) :=
  match s with x :: s => if x =? c then Some s else None | [] => None end.

(** ** Addresses *)

(** inet_pton(AF_INET6, s, &in6) == 1, which evutil_inet_pton comes to on a system
    that has the function.  By RFC 4291 the text of an IPv6 address has nothing but
    hexadecimal digits, colons and dots. *)
Class InetPton := {
  inet_pton6 : list Z -> bool;
  inet_pton6_chars s : inet_pton6 s = true -> Forall (fun c => 48 <= c <= 58 ∨ 65 <= c <= 70 ∨ 97 <= c <= 102 ∨ c = 46) s }.

Definition evutil_inet_pton6 `{inet : InetPton} (src : list Z) : bool := inet_pton6 src.
