(* ===== verification/EvErr.v ===== *)
(** * Functions that end in goto err

    Many functions of libevent fill a structure step by step and jump to a label
    at their end when a step fails, where they release what is in the structure.
    [G St A] is such a function: it changes a state and gives a result or, for the
    jump, none; the state at the jump is kept. *)

From Stdlib Require Import ssreflect.
From S2P Require Import Prelude CTypes HProp CMem EvBuffer EvBufSpec.
Set Warnings "-rewrite-rw".
Open Scope general_if_scope.
Open Scope Z_scope.

Definition G (St A : Type) : Type := St -> E (option A * St).

Section ops.
Context {St : Type}.

#[export] Instance G_ret : MRet (G St) := fun A a u => mret (Some a, u).
#[export] Instance G_bind : MBind (G St) := fun A B k m u =>
  '(r, u) ← m u;
  match r with Some a => k a u | None => mret (None, u) end.

Definition goto_err {A} : G St A := fun u => mret (None, u).
Definition here {A} (m : E A) : G St A := fun u => a ← m; mret (Some a, u).
Definition change (f : St -> St) : G St unit := fun u => mret (Some tt, f u).
Definition look {A} (f : St -> A) : G St A := fun u => mret (Some (f u), u).
End ops.

(** ** Runs

    A run may also end with a fault that [bad] allows. *)

Section gruns.
Context (bad : fault -> Prop) {St : Type}.

Definition eruns {A} (m : E A) (e : evenv) (Q : A -> evenv -> Prop) : Prop :=
  match m e with inr (a, e') => Q a e' | inl f => bad f end.

Definition gruns {A} (m : G St A) (u : St) (e : evenv) (Q : option A -> St -> evenv -> Prop) : Prop :=
  eruns (m u) e (fun r e' => Q (fst r) (snd r) e').

Lemma runs_eruns {A} (m : E A) e (Q : A -> evenv -> Prop) : runs m e Q -> eruns m e Q.
Proof. rewrite /runs /eruns. by destruct (m e) as [|[]]. Qed.

Lemma eruns_ret {A} (a : A) e (Q : A -> evenv -> Prop) : Q a e -> eruns (mret a) e Q.
Proof. done. Qed.

Lemma eruns_bind {A B} (m : E A) (k : A -> E B) e Q : eruns m e (fun a e' => eruns (k a) e' Q) -> eruns (m ≫= k) e Q.
Proof. rewrite /eruns /mbind /E_bind. by destruct (m e) as [|[]]. Qed.

Lemma gruns_eruns {A} (m : G St A) u e (Q : option A * St -> evenv -> Prop) : gruns m u e (fun r u' => Q (r, u')) -> eruns (m u) e Q.
Proof. rewrite /gruns /eruns. by destruct (m u e) as [|[[r u'] e']]. Qed.

Lemma gruns_ret {A} (a : A) u e (Q : option A -> St -> evenv -> Prop) : Q (Some a) u e -> gruns (mret a) u e Q.
Proof. done. Qed.

Lemma gruns_err {A} u e (Q : option A -> St -> evenv -> Prop) : Q None u e -> gruns goto_err u e Q.
Proof. done. Qed.

Lemma gruns_bind {A B} (m : G St A) (k : A -> G St B) u e Q :
  gruns m u e (fun r u' e' => match r with Some a => gruns (k a) u' e' Q | None => Q None u' e' end) -> gruns (m ≫= k) u e Q.
Proof. rewrite /gruns /eruns /mbind /G_bind /mbind /E_bind. by destruct (m u e) as [|[[[a|] u'] e']]. Qed.

Lemma gruns_here {A} (m : E A) u e (Q : option A -> St -> evenv -> Prop) :
  eruns m e (fun a e' => Q (Some a) u e') -> gruns (here m) u e Q.
Proof. rewrite /gruns /eruns /here /mbind /E_bind. by destruct (m e) as [|[]]. Qed.

Lemma gruns_change f u e (Q : option unit -> St -> evenv -> Prop) : Q (Some tt) (f u) e -> gruns (change f) u e Q.
Proof. done. Qed.

Lemma gruns_look {A} (f : St -> A) u e (Q : option A -> St -> evenv -> Prop) : Q (Some (f u)) u e -> gruns (look f) u e Q.
Proof. done. Qed.

End gruns.

(** Nothing but the overflow of a number, if [big] holds. *)
Definition if_big (big : Prop) (f : fault) : Prop := f = IntOverflow ∧ big.

Lemma runs_eruns_none (bad : fault -> Prop) {A} (m : E A) e (Q : A -> evenv -> Prop) : (∀ f, ¬ bad f) -> eruns bad m e Q -> runs m e Q.
Proof. intros Hb. rewrite /runs /eruns. destruct (m e) as [f|[]]; [by intros ?%Hb|done]. Qed.

Lemma runs_eruns_false {A} (m : E A) e (Q : A -> evenv -> Prop) : eruns (if_big False) m e Q -> runs m e Q.
Proof. apply runs_eruns_none. by intros f [_ []]. Qed.
