(* ===== verification/EvUri.v ===== *)
(** * libevent/http.c: URIs

    Taking a URI apart and putting it together, the escapes of URIs and HTML,
    header lists and queries.  A text is the list of its characters, numbers from
    1 to 255, without the terminating NUL; a pointer into a text is what is left
    of the text from there on.  A string on the heap is a [cstr], its address and
    its text; the environment counts the addresses and records what is freed.
    Texts are shorter than 2^31 characters. *)

From S2P Require Import Prelude CTypes HProp CMem CLib EvBuffer EvErr EvPrint EvUtil.
Open Scope Z_scope.

(** ** Strings on the heap *)

Record cstr := Cstr { s_id : id; s_text : list Z }.

Definition mm_strdup (s : list Z) : E (option cstr) :=
  i ← mm_malloc;
  mret (match i with Some i => Some (Cstr i (cut0 s)) | None => None end).

Definition mm_free (i : id) : E unit := emit (Freed i).

Definition free_str (s : option cstr) : E unit :=
  match s with Some s => mm_free (s_id s) | None => mret tt end.

(** The string in an array that starts with these bytes. *)
Definition c_str (name : list mbyte) : E (list Z) :=
  match c_string (name ++ [Some 0]) with inl f => e_fail f | inr s => mret s end.

(** ** Characters *)

(** The first half of the table; the second half is 0. *)
Definition uri_chars : list Z :=
  [0; 0; 0; 0; 0; 0; 0; 0;   0; 0; 0; 0; 0; 0; 0; 0;
   0; 0; 0; 0; 0; 0; 0; 0;   0; 0; 0; 0; 0; 0; 0; 0;
   0; 0; 0; 0; 0; 0; 0; 0;   0; 0; 0; 0; 0; 1; 1; 0;
   1; 1; 1; 1; 1; 1; 1; 1;   1; 1; 0; 0; 0; 0; 0; 0;
   0; 1; 1; 1; 1; 1; 1; 1;   1; 1; 1; 1; 1; 1; 1; 1;
   1; 1; 1; 1; 1; 1; 1; 1;   1; 1; 1; 0; 0; 0; 0; 1;
   0; 1; 1; 1; 1; 1; 1; 1;   1; 1; 1; 1; 1; 1; 1; 1;
   1; 1; 1; 1; 1; 1; 1; 1;   1; 1; 1; 0; 0; 0; 1; 0] ++ replicate 128 0.

Definition CHAR_IS_UNRESERVED (c : Z) : bool := negb (nth (Z.to_nat (u8 c)) uri_chars 0 =? 0).

Definition SUBDELIMS : list Z := str "!$&'()*+,;=".

(** strchr(SUBDELIMS, c): the terminator counts. *)
Definition is_subdelim (c : Z) : bool := (c =? 0) || existsb (Z.eqb c) SUBDELIMS.

(** ** URIs *)

Record evhttp_uri := Uri {
  u_id : id;
  u_flags : Z;
  u_scheme : option cstr;
  u_userinfo : option cstr;
  u_host : option cstr;
  u_port : Z;
  u_path : option cstr;
  u_query : option cstr;
  u_fragment : option cstr }.

(** The fields that the macros _URI_FREE_STR, _URI_ADD and _URI_SET_STR are for. *)
Inductive uri_field := Scheme | Userinfo | Host | Path | Query | Fragment.

Definition uri_str (f : uri_field) (u : evhttp_uri) : option cstr :=
  match f with
  | Scheme => u_scheme u
  | Userinfo => u_userinfo u
  | Host => u_host u
  | Path => u_path u
  | Query => u_query u
  | Fragment => u_fragment u
  end.

Definition set_str (f : uri_field) (s : option cstr) (u : evhttp_uri) : evhttp_uri :=
  let '(Uri i fl sc us ho po pa qu fr) := u in
  match f with
  | Scheme => Uri i fl s us ho po pa qu fr
  | Userinfo => Uri i fl sc s ho po pa qu fr
  | Host => Uri i fl sc us s po pa qu fr
  | Path => Uri i fl sc us ho po s qu fr
  | Query => Uri i fl sc us ho po pa s fr
  | Fragment => Uri i fl sc us ho po pa qu s
  end.

Definition set_port (p : Z) (u : evhttp_uri) : evhttp_uri :=
  Uri (u_id u) (u_flags u) (u_scheme u) (u_userinfo u) (u_host u) p (u_path u) (u_query u) (u_fragment u).

Definition evhttp_uri_new : E (option evhttp_uri) :=
  i ← mm_malloc;
  mret (match i with Some i => Some (Uri i 0 None None None (-1) None None None) | None => None end).

Definition evhttp_uri_set_flags (u : evhttp_uri) (flags : Z) : evhttp_uri :=
  Uri (u_id u) flags (u_scheme u) (u_userinfo u) (u_host u) (u_port u) (u_path u) (u_query u) (u_fragment u).

Definition evhttp_uri_free (u : evhttp_uri) : E unit :=
  _ ← free_str (u_scheme u);
  _ ← free_str (u_userinfo u);
  _ ← free_str (u_host u);
  _ ← free_str (u_path u);
  _ ← free_str (u_query u);
  _ ← free_str (u_fragment u);
  mm_free (u_id u).

(** ** Checks *)

(** The arguments [s] and [eos] as the text between them. *)
Definition scheme_ok (s : list Z) : bool :=
  match s with
  | [] => false
  | c :: s => EVUTIL_ISALPHA c && forallb (fun c => EVUTIL_ISALNUM c || (c =? 43) || (c =? 45) || (c =? 46)) s
  end.

Fixpoint userinfo_ok (s : list Z) : bool :=
  match s with
  | [] => true
  | c :: s' =>
      if CHAR_IS_UNRESERVED c || is_subdelim c || (c =? 58) then userinfo_ok s'
      else
        match s' with
        | a :: b :: s'' => (c =? 37) && EVUTIL_ISXDIGIT a && EVUTIL_ISXDIGIT b && userinfo_ok s''
        | _ => false
        end
  end.

(** The text from [s] on, and [eos - s]; the digits of an escape are looked for
    behind [eos] as well. *)
Fixpoint regname_ok (s : list Z) (n : nat) : bool :=
  match n, s with
  | S n', c :: s' =>
      if CHAR_IS_UNRESERVED c || is_subdelim c then regname_ok s' n'
      else
        match s' with
        | a :: b :: s'' => (c =? 37) && EVUTIL_ISXDIGIT a && EVUTIL_ISXDIGIT b && regname_ok s'' (n' - 2)
        | _ => false
        end
  | _, _ => true
  end.

(** The sum of an int and a product that may leave its range. *)
Fixpoint port_loop (portnum : Z) (s : list Z) : E Z :=
  match s with
  | [] => mret portnum
  | c :: s =>
      if negb (EVUTIL_ISDIGIT c) then mret (-1)
      else if 2 ^ 31 <=? portnum * 10 + (c - 48) then e_fail IntOverflow
      else
        let portnum := portnum * 10 + (c - 48) in
        if portnum <? 0 then mret (-1) else port_loop portnum s
  end.

Definition parse_port (s : list Z) : E Z := port_loop 0 s.

(** The characters of an IPvFuture address from the version on, without the
    closing bracket. *)
Fixpoint future_version (s : list Z) : option (list Z) :=
  match s with
  | [] => None
  | c :: s => if c =? 46 then Some s else if EVUTIL_ISXDIGIT c then future_version s else None
  end.

Definition bracket_addr_ok `{inet : InetPton} (s : list Z) : Z :=
  if (length s <? 3)%nat || negb (hd 0 s =? 91) || negb (List.last s 0 =? 93) then 0
  else
    let inner := removelast (tail s) in
    if hd 0 inner =? 118 then
      let s := tail inner in
      if negb (EVUTIL_ISXDIGIT (hd 93 s)) then 0
      else
        match future_version s with
        | None => 0
        | Some s => if forallb (fun c => CHAR_IS_UNRESERVED c || is_subdelim c || (c =? 58)) s then 2 else 0
        end
    else if (64 <=? length inner)%nat then 0
    else if evutil_inet_pton6 inner then 1 else 0.

(** ** Taking apart *)

(** A computation that fills a URI and may give up (goto err). *)
Abbreviation U := (G evhttp_uri).

(** [uri->f = s; if (uri->f == NULL) goto err]. *)
Definition store (f : uri_field) (m : E (option cstr)) : U unit :=
  s ← here m;
  _ ← change (set_str f s);
  match s with Some _ => mret tt | None => goto_err end.

(** mm_malloc and memcpy of a text. *)
Definition mm_memdup (s : list Z) : E (option cstr) :=
  i ← mm_malloc;
  mret (match i with Some i => Some (Cstr i s) | None => None end).

(** How many of the first [n] characters are left when the digits at their end are
    skipped. *)
Fixpoint back_over_digits (src : list Z) (n : nat) : nat :=
  match n with
  | O => O
  | S n' => if EVUTIL_ISDIGIT (nth n' src 0) then back_over_digits src n' else n
  end.

(** The host and the port: the text from [cp] on, and [eos - cp]. *)
Definition parse_host `{inet : InetPton} (cp : list Z) (n : nat) : U unit :=
  (* [port] is [cp + p - 1] *)
  let p := back_over_digits cp n in
  n ← (if (0 <? p)%nat && (nth (p - 1) cp 0 =? 58) then
         _ ← (if (p =? n)%nat then change (set_port (-1))
              else
                portnum ← here (parse_port (take (n - p) (drop p cp)));
                _ ← change (set_port portnum);
                if portnum <? 0 then goto_err else mret tt);
         mret (p - 1)%nat
       else mret n);
  if (if (hd 0 cp =? 91) && (2 <=? n)%nat && (nth (n - 1) cp 0 =? 93) then negb (bracket_addr_ok (take n cp) =? 0)
      else regname_ok cp n)
  then store Host (mm_memdup (take n cp)) else goto_err.

(** The text from [s] on, and [eos - s]. *)
Definition parse_authority `{inet : InetPton} (s : list Z) (n : nat) : U unit :=
  if (n =? 0)%nat then store Host (mm_strdup [])
  else
    '(cp, n) ← match list_find (fun c => c = 64) s with
               | Some (k, _) =>
                   if (k <? n)%nat then
                     if userinfo_ok (take k s)
                     then _ ← store Userinfo (mm_strdup (take k s)); mret (drop (S k) s, (n - S k)%nat)
                     else goto_err
                   else mret (s, n)
               | None => mret (s, n)
               end;
    parse_host cp n.

Fixpoint end_of_authority (cp : list Z) : list Z :=
  match cp with
  | [] => []
  | c :: cp' => if (c =? 63) || (c =? 35) || (c =? 47) then cp else end_of_authority cp'
  end.

Inductive uri_part := PART_PATH | PART_QUERY | PART_FRAGMENT.

#[export] Instance uri_part_eq_dec : EqDecision uri_part.
Proof. solve_decision. Defined.

Definition EVHTTP_URI_NONCONFORMANT : Z := 1.

(** With EVHTTP_URI_NONCONFORMANT. *)
Fixpoint end_of_part (cp : list Z) (part : uri_part) : list Z :=
  match cp with
  | [] => []
  | c :: cp' =>
      match part with
      | PART_PATH => if (c =? 35) || (c =? 63) then cp else end_of_part cp' part
      | PART_QUERY => if c =? 35 then cp else end_of_part cp' part
      | PART_FRAGMENT => end_of_part cp' part
      end
  end.

Fixpoint end_of_pchars (cp : list Z) (part : uri_part) : list Z :=
  match cp with
  | [] => []
  | c :: cp' =>
      if CHAR_IS_UNRESERVED c || is_subdelim c || (c =? 58) || (c =? 64) || (c =? 47) then end_of_pchars cp' part
      else
        let otherwise := if (c =? 63) && negb (bool_decide (part = PART_PATH)) then end_of_pchars cp' part else cp in
        match cp' with
        | a :: b :: cp'' => if (c =? 37) && EVUTIL_ISXDIGIT a && EVUTIL_ISXDIGIT b then end_of_pchars cp'' part else otherwise
        | _ => otherwise
        end
  end.

Definition end_of_path (cp : list Z) (part : uri_part) (flags : Z) : list Z :=
  if has_flag EVHTTP_URI_NONCONFORMANT flags then end_of_part cp part else end_of_pchars cp part.

Fixpoint path_matches_noscheme (cp : list Z) : bool :=
  match cp with
  | [] => true
  | c :: cp => if c =? 58 then false else if c =? 47 then true else path_matches_noscheme cp
  end.

(** The text between two pointers. *)
Definition between (s eos : list Z) : list Z := take (length s - length eos) s.

(** [*readp == c], and the part behind it. *)
Definition next_part (c : Z) (readp : list Z) (part : uri_part) (flags : Z) : option (list Z) * list Z :=
  if hd 0 readp =? c then
    let start := tail readp in
    let readp := end_of_path start part flags in
    (Some (between start readp), readp)
  else (None, readp).

Definition store_opt (f : uri_field) (s : option (list Z)) : U unit :=
  match s with Some s => store f (mm_strdup s) | None => mret tt end.

(** 1. The scheme: what is left, and whether there is one. *)
Definition parse_scheme (readp : list Z) : U (list Z * bool) :=
  match list_find (fun c => c = 58) readp with
  | Some (token, _) =>
      if scheme_ok (take token readp)
      then _ ← store Scheme (mm_strdup (take token readp)); mret (drop (S token) readp, true)
      else mret (readp, false)
  | None => mret (readp, false)
  end.

(** 2. Two slashes and the authority. *)
Definition parse_slashes `{inet : InetPton} (readp : list Z) : U (list Z * bool) :=
  if (hd 0 readp =? 47) && (hd 0 (tail readp) =? 47) then
    let authority := tail (tail readp) in
    let path := end_of_authority authority in
    _ ← parse_authority authority (length authority - length path);
    mret (path, true)
  else mret (readp, false).

(** 3. The path, the query and the fragment. *)
Definition parse_rest (path : list Z) (got_scheme got_authority : bool) : U unit :=
  flags ← look u_flags;
  let readp := end_of_path path PART_PATH flags in
  let path := between path readp in
  let '(query, readp) := next_part 63 readp PART_QUERY flags in
  let '(fragment, readp) := next_part 35 readp PART_FRAGMENT flags in
  if negb (bool_decide (readp = [])) then goto_err
  else if negb got_authority && ((hd 0 path =? 47) && (hd 0 (tail path) =? 47)) then goto_err
  else if got_authority && (negb (hd 0 path =? 47) && negb (hd 0 path =? 0)) then goto_err
  else if negb got_scheme && negb (path_matches_noscheme path) then goto_err
  else
    _ ← store Path (mm_strdup path);
    _ ← store_opt Query query;
    store_opt Fragment fragment.

Definition parse_parts `{inet : InetPton} (readbuf : list Z) : U unit :=
  '(readp, got_scheme) ← parse_scheme readbuf;
  '(path, got_authority) ← parse_slashes readp;
  parse_rest path got_scheme got_authority.

Definition evhttp_uri_parse_with_flags `{inet : InetPton} (source_uri : list Z) (flags : Z) : E (option evhttp_uri) :=
  uri ← evhttp_uri_new;
  match uri with
  | None => mret None
  | Some uri =>
      let uri := evhttp_uri_set_flags uri flags in
      readbuf ← mm_strdup source_uri;
      match readbuf with
      | None => _ ← evhttp_uri_free uri; mret None
      | Some readbuf =>
          '(done, uri) ← parse_parts (s_text readbuf) uri;
          match done with
          | Some _ => _ ← mm_free (s_id readbuf); mret (Some uri)
          | None => _ ← evhttp_uri_free uri; _ ← mm_free (s_id readbuf); mret None
          end
      end
  end.

Definition evhttp_uri_parse `{inet : InetPton} (source_uri : list Z) : E (option evhttp_uri) := evhttp_uri_parse_with_flags source_uri 0.

(** ** Putting together *)

(** A call of evbuffer_add whose result is not looked at; the same for printf. *)
Definition put (b : evbuffer) (s : list Z) : E evbuffer :=
  '(_, b) ← evbuffer_add b (Some <$> s);
  mret b.

Definition putf (b : evbuffer) (s : list Z) : E evbuffer :=
  '(_, b) ← evbuffer_add_printf b (Some <$> s);
  mret b.

Definition URI_ADD (f : uri_field) (u : evhttp_uri) (b : evbuffer) : E evbuffer :=
  match uri_str f u with Some s => put b (s_text s) | None => e_fail NullDeref end.

(** The part of the URI up to the path; [false] is [goto err]. *)
Definition join_front (u : evhttp_uri) (b : evbuffer) : E (bool * evbuffer) :=
  b ← (if bool_decide (is_Some (u_scheme u)) then b ← URI_ADD Scheme u b; put b [58] else mret b);
  if bool_decide (is_Some (u_host u)) then
    b ← put b [47; 47];
    b ← match u_userinfo u with Some s => putf b (s_text s ++ [64]) | None => mret b end;
    b ← URI_ADD Host u b;
    b ← (if 0 <=? u_port u then putf b (58 :: dec (u_port u)) else mret b);
    match u_path u with
    | Some s => mret ((hd 0 (s_text s) =? 47) || (hd 0 (s_text s) =? 0), b)
    | None => mret (true, b)
    end
  else mret (true, b).

Definition join_rest (u : evhttp_uri) (b : evbuffer) : E evbuffer :=
  b ← (if bool_decide (is_Some (u_path u)) then URI_ADD Path u b else mret b);
  b ← (if bool_decide (is_Some (u_query u)) then b ← put b [63]; URI_ADD Query u b else mret b);
  b ← (if bool_decide (is_Some (u_fragment u)) then b ← put b [35]; URI_ADD Fragment u b else mret b);
  put b [0].

(** What is written to the start of [buf], an array of [limit] bytes or NULL. *)
Definition evhttp_uri_join (uri : option evhttp_uri) (buf : bool) (limit : Z) : E (option (list mbyte)) :=
  match uri with
  | None => mret None
  | Some u =>
      if negb buf || (limit =? 0) then mret None
      else
        tmp ← evbuffer_new;
        match tmp with
        | None => mret None
        | Some tmp =>
            '(ok, tmp) ← join_front u tmp;
            if negb ok then _ ← evbuffer_free tmp; mret None
            else
              tmp ← join_rest u tmp;
              let joined_size := evbuffer_get_length tmp in
              if limit <? joined_size then _ ← evbuffer_free tmp; mret None
              else
                '(_, output, tmp) ← evbuffer_remove tmp joined_size;
                _ ← evbuffer_free tmp;
                mret (Some output)
        end
  end.

(** ** Access *)

Definition evhttp_uri_get_scheme (u : evhttp_uri) : option (list Z) := s_text <$> u_scheme u.
Definition evhttp_uri_get_userinfo (u : evhttp_uri) : option (list Z) := s_text <$> u_userinfo u.
Definition evhttp_uri_get_host (u : evhttp_uri) : option (list Z) := s_text <$> u_host u.
Definition evhttp_uri_get_port (u : evhttp_uri) : Z := u_port u.
Definition evhttp_uri_get_path (u : evhttp_uri) : option (list Z) := s_text <$> u_path u.
Definition evhttp_uri_get_query (u : evhttp_uri) : option (list Z) := s_text <$> u_query u.
Definition evhttp_uri_get_fragment (u : evhttp_uri) : option (list Z) := s_text <$> u_fragment u.

(** The macro and the [return 0] behind it. *)
Definition URI_SET_STR (f : uri_field) (s : option (list Z)) (u : evhttp_uri) : E (Z * evhttp_uri) :=
  _ ← free_str (uri_str f u);
  match s with
  | Some s =>
      s ← mm_strdup s;
      mret (match s with Some _ => 0 | None => -1 end, set_str f s u)
  | None => mret (0, set_str f None u)
  end.

(** A setter with its check of a text that is not NULL. *)
Definition set_checked (f : uri_field) (ok : list Z -> bool) (u : evhttp_uri) (s : option (list Z)) : E (Z * evhttp_uri) :=
  if match s with Some s => ok s | None => true end then URI_SET_STR f s u else mret (-1, u).

Definition evhttp_uri_set_scheme : evhttp_uri -> option (list Z) -> E (Z * evhttp_uri) := set_checked Scheme scheme_ok.
Definition evhttp_uri_set_userinfo : evhttp_uri -> option (list Z) -> E (Z * evhttp_uri) := set_checked Userinfo userinfo_ok.

Definition evhttp_uri_set_host `{inet : InetPton} : evhttp_uri -> option (list Z) -> E (Z * evhttp_uri) :=
  set_checked Host (fun host => if hd 0 host =? 91 then negb (bracket_addr_ok host =? 0) else regname_ok host (length host)).

Definition evhttp_uri_set_port (u : evhttp_uri) (port : Z) : Z * evhttp_uri :=
  if port <? -1 then (-1, u) else (0, set_port port u).

Definition reaches_end (part : uri_part) (u : evhttp_uri) (s : list Z) : bool :=
  bool_decide (end_of_path s part (u_flags u) = []).

Definition evhttp_uri_set_path (u : evhttp_uri) (path : option (list Z)) : E (Z * evhttp_uri) :=
  set_checked Path (reaches_end PART_PATH u) u path.
Definition evhttp_uri_set_query (u : evhttp_uri) (query : option (list Z)) : E (Z * evhttp_uri) :=
  set_checked Query (reaches_end PART_QUERY u) u query.
Definition evhttp_uri_set_fragment (u : evhttp_uri) (fragment : option (list Z)) : E (Z * evhttp_uri) :=
  set_checked Fragment (reaches_end PART_FRAGMENT u) u fragment.
