(* ===== verification/EvUriSpec.v ===== *)
(** * The grammar of URIs

    What a URI consists of, which parts are valid, and how a text spells it; the
    character classes and the scans of http.c on such texts. *)

From Stdlib Require Import ssreflect.
From S2P Require Import Prelude CTypes HProp CMem CLib BRound EvBuffer EvUtil EvUri.
Set Warnings "-rewrite-rw".
Open Scope general_if_scope.
Open Scope Z_scope.

(** ** Characters *)

Definition is_char (c : Z) : Prop := 0 < c < 256.
Abbreviation is_text := (Forall is_char).

Lemma char_cases (P : Z -> bool) : forallb P (seqZ 1 255) = true -> ∀ c, is_char c -> P c = true.
Proof.
  rewrite forallb_forall /is_char. intros H c Hc. apply H, list_elem_of_In, elem_of_seqZ. lia.
Qed.

Definition is_byte_val (c : Z) : Prop := 0 <= c < 256.

Lemma byte_cases (P : Z -> bool) : P 0 = true -> forallb P (seqZ 1 255) = true -> ∀ c, is_byte_val c -> P c = true.
Proof.
  intros H0 H c Hc. rewrite /is_byte_val in Hc. destruct (decide (c = 0)) as [->|]; [done|]. apply char_cases; [done|]. rewrite /is_char. lia.
Qed.

Lemma is_text_bytes t : is_text t -> Forall is_byte_val t.
Proof. intros H. apply (Forall_impl _ _ _ H). rewrite /is_char /is_byte_val. lia. Qed.

(** The characters that end an authority, and '@'. *)
Definition is_delim (c : Z) : bool := (c =? 35) || (c =? 47) || (c =? 63) || (c =? 64).
Abbreviation no_delim := (Forall (fun c => is_delim c = false)).

Definition name_char (c : Z) : bool := CHAR_IS_UNRESERVED c || is_subdelim c.

(** What a character class excludes. *)
Definition excludes (p q : Z -> bool) : Prop := ∀ c, is_char c -> p c = true -> q c = false.

Lemma excludes_cases p q : forallb (fun c => negb (p c && q c)) (seqZ 1 255) = true -> excludes p q.
Proof.
  intros H c Hc Hp. pose proof (char_cases _ H c Hc) as Hn. cbn in Hn. rewrite Hp in Hn. by destruct (q c).
Qed.

Definition special (c : Z) : bool := is_delim c || existsb (Z.eqb c) [0; 37; 58; 91; 93].

Lemma name_special : excludes name_char special.
Proof. by apply excludes_cases. Qed.
Lemma xdigit_special : excludes EVUTIL_ISXDIGIT special.
Proof. by apply excludes_cases. Qed.
Lemma digit_special : excludes EVUTIL_ISDIGIT special.
Proof. by apply excludes_cases. Qed.

Lemma special_delim c : special c = false -> is_delim c = false.
Proof. rewrite /special orb_false_iff. tauto. Qed.

Lemma special_not c x : special c = false -> special x = true -> (c =? x) = false.
Proof. intros Hc Hx. apply Z.eqb_neq. intros ->. congruence. Qed.

Lemma digit_range c : is_char c -> EVUTIL_ISDIGIT c = isdigit c.
Proof.
  intros Hc. apply eqb_prop. by apply (char_cases (fun c => Bool.eqb (EVUTIL_ISDIGIT c) (isdigit c)) eq_refl).
Qed.

(** ** The grammar *)

Record pieces := Pieces {
  p_scheme : option (list Z);
  p_userinfo : option (list Z);
  p_host : option (list Z);
  p_port : Z;
  p_path : list Z;
  p_query : option (list Z);
  p_fragment : option (list Z) }.

(** The parts and the characters of RFC 3986, written down without the program. *)
Section grammar.
Implicit Types (c : Z) (s : list Z).

Definition letter c : Prop := 65 <= c <= 90 ∨ 97 <= c <= 122.
Definition digit c : Prop := 48 <= c <= 57.
Definition hexdigit c : Prop := digit c ∨ 65 <= c <= 70 ∨ 97 <= c <= 102.
Definition unreserved c : Prop := letter c ∨ digit c ∨ c ∈ str "-._~".
Definition sub_delim c : Prop := c ∈ str "!$&'()*+,;=".
Definition name_symbol c : Prop := unreserved c ∨ sub_delim c.

(** Symbols of a kind, and characters written as escapes. *)
Inductive spelled (symbol : Z -> Prop) : list Z -> Prop :=
  | spelled_nil : spelled symbol []
  | spelled_symbol c s : symbol c -> spelled symbol s -> spelled symbol (c :: s)
  | spelled_escape a b s : hexdigit a -> hexdigit b -> spelled symbol s -> spelled symbol (37 :: a :: b :: s).

Inductive scheme_text : list Z -> Prop :=
  | SchemeText c s : letter c -> Forall (fun c => letter c ∨ digit c ∨ c ∈ str "+-.") s -> scheme_text (c :: s).

Definition userinfo_text : list Z -> Prop := spelled (fun c => name_symbol c ∨ c = 58).

(** A name, an address of IPv6 in brackets, or one of a later version; which
    texts are addresses the system says. *)
Inductive host_text `{inet : InetPton} : list Z -> Prop :=
  | RegisteredName s : spelled name_symbol s -> host_text s
  | AddressV6 s : s ≠ [] -> (length s < 64)%nat -> inet_pton6 s = true -> host_text (91 :: s ++ [93])
  | AddressFuture v s :
      v ≠ [] -> Forall hexdigit v -> Forall (fun c => name_symbol c ∨ c = 58) s -> host_text (91 :: 118 :: v ++ 46 :: s ++ [93]).

(** The flag of value 1: paths, queries and fragments end at the next separator only. *)
Definition nonconformant (flags : Z) : bool := Z.testbit flags 0.

(** Paths, queries and fragments. *)
Definition path_symbol c : Prop := name_symbol c ∨ c ∈ str ":@/".

Definition part_text (loose : bool) (part : uri_part) s : Prop :=
  if loose then Forall is_char s ∧ (part ≠ PART_FRAGMENT -> 35 ∉ s) ∧ (part = PART_PATH -> 63 ∉ s)
  else spelled (fun c => path_symbol c ∨ (part ≠ PART_PATH ∧ c = 63)) s.

(** Without a scheme a colon is found only behind a slash. *)
Definition noscheme_path s : Prop := ∀ a b, s = a ++ 58 :: b -> 47 ∈ a.

(** What is in front of a path: an authority, or nothing. *)
Inductive authority_valid `{inet : InetPton} (p : pieces) : Prop :=
  | WithAuthority h :
      p_host p = Some h -> host_text h -> (∀ s, p_userinfo p = Some s -> userinfo_text s) -> -1 <= p_port p < 2 ^ 31 ->
      (p_path p = [] ∨ ∃ s, p_path p = 47 :: s) -> authority_valid p
  | WithoutAuthority :
      p_host p = None -> p_userinfo p = None -> p_port p = -1 -> (∀ s, p_path p ≠ 47 :: 47 :: s) -> authority_valid p.

Record valid_uri `{inet : InetPton} (flags : Z) (p : pieces) : Prop := {
  vu_scheme s : p_scheme p = Some s -> scheme_text s;
  vu_noscheme : p_scheme p = None -> noscheme_path (p_path p);
  vu_authority : authority_valid p;
  vu_path : part_text (nonconformant flags) PART_PATH (p_path p);
  vu_query s : p_query p = Some s -> part_text (nonconformant flags) PART_QUERY s;
  vu_fragment s : p_fragment p = Some s -> part_text (nonconformant flags) PART_FRAGMENT s }.

End grammar.

(** The text of a port; without a number it may be a colon alone. *)
Definition port_text (port : Z) (s : list Z) : Prop :=
  (port = -1 ∧ (s = [] ∨ s = [58]))
  ∨ ∃ ds, s = 58 :: ds ∧ ds ≠ [] ∧ Forall (fun c => isdigit c = true) ds ∧ digits_val 0 ds = port ∧ port < 2 ^ 31.

Definition behind (c : Z) (s : option (list Z)) : list Z := match s with Some s => s ++ [c] | None => [] end.
Definition before (c : Z) (s : option (list Z)) : list Z := match s with Some s => c :: s | None => [] end.

Definition authority_text (p : pieces) (port : list Z) : list Z :=
  match p_host p with
  | Some h => 47 :: 47 :: behind 64 (p_userinfo p) ++ h ++ port
  | None => []
  end.

Definition uri_text (p : pieces) (port : list Z) : list Z :=
  behind 58 (p_scheme p) ++ authority_text p port ++ p_path p ++ before 63 (p_query p) ++ before 35 (p_fragment p).

Definition spells (t : list Z) (p : pieces) : Prop := ∃ port, port_text (p_port p) port ∧ t = uri_text p port.

(** The text without needless characters in the port. *)
Definition decimal_port (port : Z) : list Z := if 0 <=? port then 58 :: dec port else [].

(** ** What the program checks *)

Definition host_ok `{inet : InetPton} (h : list Z) : bool :=
  if (hd 0 h =? 91) && (2 <=? length h)%nat && (nth (length h - 1) h 0 =? 93) then negb (bracket_addr_ok h =? 0)
  else regname_ok h (length h).

Definition slashes (s : list Z) : bool := (hd 0 s =? 47) && (hd 0 (tail s) =? 47).

Definition part_ok (flags : Z) (part : uri_part) (s : list Z) : Prop := end_of_path s part flags = [].

(** A path fits behind an authority or behind nothing. *)
Definition authority_ok `{inet : InetPton} (p : pieces) : Prop :=
  match p_host p with
  | Some h =>
      is_text h ∧ host_ok h = true ∧ (∀ s, p_userinfo p = Some s -> is_text s ∧ userinfo_ok s = true)
      ∧ -1 <= p_port p < 2 ^ 31 ∧ (p_path p = [] ∨ hd 0 (p_path p) = 47)
  | None => p_userinfo p = None ∧ p_port p = -1 ∧ slashes (p_path p) = false
  end.

Record checked_uri `{inet : InetPton} (flags : Z) (p : pieces) : Prop := {
  cu_scheme s : p_scheme p = Some s -> is_text s ∧ scheme_ok s = true;
  cu_noscheme : p_scheme p = None -> path_matches_noscheme (p_path p) = true;
  cu_authority : authority_ok p;
  cu_path : is_text (p_path p) ∧ part_ok flags PART_PATH (p_path p);
  cu_query s : p_query p = Some s -> is_text s ∧ part_ok flags PART_QUERY s;
  cu_fragment s : p_fragment p = Some s -> is_text s ∧ part_ok flags PART_FRAGMENT s }.

(** ** Digits *)

Lemma digits_val_mono acc ds : 0 <= acc -> Forall (fun c => isdigit c = true) ds -> acc <= digits_val acc ds.
Proof.
  revert acc. induction ds as [|d ds IH]; intros acc H Hd; cbn; [lia|]. inversion Hd as [|? ? H1 H2]; subst.
  rewrite /isdigit andb_true_iff !Z.leb_le in H1. specialize (IH (acc * 10 + (d - 48)) ltac:(lia) H2). rewrite /digits_val in IH. lia.
Qed.

Lemma back_over_digits_spec s n :
  (n <= length s)%nat ->
  let p := back_over_digits s n in
  (p <= n)%nat ∧ (∀ j, (p <= j < n)%nat -> EVUTIL_ISDIGIT (nth j s 0) = true)
  ∧ ((0 < p)%nat -> EVUTIL_ISDIGIT (nth (p - 1) s 0) = false).
Proof.
  intros Hn. induction n as [|n IH]; cbn [back_over_digits]; [by split_and!; intros; lia|].
  destruct (EVUTIL_ISDIGIT (nth n s 0)) eqn:Hd.
  - destruct (IH ltac:(lia)) as (H1 & H2 & H3). split_and!; [lia| |done].
    intros j Hj. destruct (decide (j = n)) as [->|]; [done|]. apply H2. lia.
  - split_and!; [lia|intros; lia|]. intros _. by replace (S n - 1)%nat with n by lia.
Qed.

(** Over digits at the end, up to the character in front of them. *)
Lemma back_over_digits_app pre c ds rest :
  EVUTIL_ISDIGIT c = false -> Forall (fun c => EVUTIL_ISDIGIT c = true) ds ->
  back_over_digits (pre ++ c :: ds ++ rest) (length pre + S (length ds)) = S (length pre).
Proof.
  intros Hc. revert rest. induction ds as [|d ds IH] using rev_ind; intros rest Hds.
  - cbn. rewrite Nat.add_1_r. cbn. rewrite nth_middle Hc. done.
  - rewrite Forall_app Forall_singleton in Hds. destruct Hds as [H1 H2]. rewrite length_app /=.
    replace (length pre + S (length ds + 1))%nat with (S (length pre + S (length ds))) by lia. cbn [back_over_digits].
    assert (Hn : nth (length pre + S (length ds)) (pre ++ c :: (ds ++ [d]) ++ rest) 0 = d).
    { rewrite app_nth2_plus. cbn [nth]. rewrite -app_assoc. apply (nth_middle ds rest d). }
    rewrite Hn H2 -app_assoc. apply IH, H1.
Qed.

(** ** Scans *)

(** Induction for a function that also calls itself three characters on. *)
Lemma triple_ind (P : list Z -> Prop) :
  P [] -> (∀ c s, P s -> (∀ a b s', s = a :: b :: s' -> P s') -> P (c :: s)) -> ∀ s, P s.
Proof.
  intros Hnil Hcons s. cut (P s ∧ (∀ a b s', s = a :: b :: s' -> P s') ∧ P (tail s)); [tauto|].
  induction s as [|c s (H1 & H2 & H3)]; [by split_and!|]. split_and!; [by apply Hcons| |done].
  intros a b s' [= -> ->]. done.
Qed.

Lemma nil_middle (pre rest : list Z) : hd 0 rest = hd 0 (pre ++ rest) ∨ ∃ c s, pre = c :: s.
Proof. destruct pre as [|c s]; [by left|]. right. by exists c, s. Qed.

(** What the escapes and the plain characters of a name have in common. *)
Lemma userinfo_ok_delim s : is_text s -> userinfo_ok s = true -> no_delim s.
Proof.
  induction s as [|c s IH IH3] using triple_ind; intros Ht Hok; [constructor|].
  inversion Ht as [|? ? Hc Hts]; subst. cbn [userinfo_ok] in Hok.
  destruct (CHAR_IS_UNRESERVED c || is_subdelim c || (c =? 58)) eqn:Hn.
  - constructor; [|by apply IH]. apply orb_true_iff in Hn as [Hn|Hn%Z.eqb_eq]; [|by subst].
    by apply special_delim, name_special.
  - destruct s as [|a [|b s]]; try done. rewrite !andb_true_iff Z.eqb_eq in Hok. destruct Hok as [[[-> Ha] Hb] Hok].
    inversion Hts as [|? ? Hca Hts2]; subst. inversion Hts2 as [|? ? Hcb Hts3]; subst.
    constructor; [done|]. constructor; [by apply special_delim, xdigit_special|].
    constructor; [by apply special_delim, xdigit_special|]. by apply (IH3 a b).
Qed.

Lemma regname_ok_chars s : is_text s -> regname_ok s (length s) = true -> no_delim s ∧ Forall (fun c => c ≠ 58) s.
Proof.
  induction s as [|c s IH IH3] using triple_ind; intros Ht Hok; [split; constructor|].
  inversion Ht as [|? ? Hc Hts]; subst. cbn [regname_ok length] in Hok.
  destruct (CHAR_IS_UNRESERVED c || is_subdelim c) eqn:Hn.
  - destruct (IH Hts Hok) as [H1 H2]. pose proof (name_special c Hc Hn) as Hs. split; constructor; try done; [by apply special_delim|].
    intros ->. done.
  - destruct s as [|a [|b s]]; try done. rewrite !andb_true_iff Z.eqb_eq in Hok. destruct Hok as [[[-> Ha] Hb] Hok].
    inversion Hts as [|? ? Hca Hts2]; subst. inversion Hts2 as [|? ? Hcb Hts3]; subst. cbn in Hok.
    rewrite Nat.sub_0_r in Hok. destruct (IH3 a b s eq_refl Hts3 Hok) as [H1 H2].
    pose proof (xdigit_special a Hca Ha) as Hsa. pose proof (xdigit_special b Hcb Hb) as Hsb.
    split; repeat constructor; try done; try (by apply special_delim); by intros ->.
Qed.

(** A character that is no digit of an escape may stand behind the name. *)
Lemma regname_ok_app s rest :
  EVUTIL_ISXDIGIT (hd 0 rest) = false -> regname_ok (s ++ rest) (length s) = regname_ok s (length s).
Proof.
  intros Hr. induction s as [|c s IH IH3] using triple_ind; [by destruct rest|]. cbn [app regname_ok length].
  destruct (CHAR_IS_UNRESERVED c || is_subdelim c); [apply IH|]. destruct s as [|a [|b s]].
  - cbn. destruct rest as [|a [|b r]]; try done. cbn in Hr. by rewrite Hr andb_false_r.
  - cbn. destruct rest as [|b r]; try done. cbn in Hr. by rewrite Hr andb_false_r.
  - cbn. by rewrite Nat.sub_0_r (IH3 a b s).
Qed.

Definition scheme_char (c : Z) : bool := EVUTIL_ISALPHA c || EVUTIL_ISALNUM c || (c =? 43) || (c =? 45) || (c =? 46).

Lemma scheme_char_special : excludes scheme_char special.
Proof. by apply excludes_cases. Qed.

Lemma scheme_ok_special s : is_text s -> scheme_ok s = true -> s ≠ [] ∧ Forall (fun c => special c = false) s.
Proof.
  destruct s as [|c s]; [done|]. intros Ht [Ha Hs]%andb_true_iff. split; [done|]. inversion Ht as [|? ? Hc Hts]; subst.
  constructor; [apply scheme_char_special; [done|]; by rewrite /scheme_char Ha|].
  apply Forall_forall. intros x Hx. rewrite Forall_forall in Hts. apply scheme_char_special; [by apply Hts|].
  rewrite forallb_forall in Hs. specialize (Hs x ltac:(by apply list_elem_of_In)). rewrite /scheme_char.
  rewrite -!orb_assoc. rewrite -!orb_assoc in Hs. by rewrite Hs orb_true_r.
Qed.

Lemma end_of_authority_spec s :
  ∃ a, s = a ++ end_of_authority s ∧ Forall (fun c => c ≠ 35 ∧ c ≠ 47 ∧ c ≠ 63) a
    ∧ (end_of_authority s = [] ∨ hd 0 (end_of_authority s) ∈ [35; 47; 63]).
Proof.
  induction s as [|c s (a & Hs & Ha & Hr)]; [by exists []; split_and!; [|constructor|left]|]. cbn [end_of_authority].
  assert (Hstop : ∀ x, x ∈ [35; 47; 63] -> ∃ a, x :: s = a ++ x :: s ∧ Forall (fun c => c ≠ 35 ∧ c ≠ 47 ∧ c ≠ 63) a
    ∧ (x :: s = [] ∨ hd 0 (x :: s) ∈ [35; 47; 63])) by (intros x Hx; exists []; split_and!; [done|constructor|by right]).
  destruct (Z.eqb_spec c 63) as [->|H1]; [by apply Hstop; rewrite !elem_of_cons; auto|].
  destruct (Z.eqb_spec c 35) as [->|H2]; [by apply Hstop; rewrite !elem_of_cons; auto|].
  destruct (Z.eqb_spec c 47) as [->|H3]; [by apply Hstop; rewrite !elem_of_cons; auto|].
  exists (c :: a). cbn. split_and!; [by f_equal|by constructor|done].
Qed.

Lemma end_of_authority_app a rest :
  Forall (fun c => c ≠ 35 ∧ c ≠ 47 ∧ c ≠ 63) a -> rest = [] ∨ hd 0 rest ∈ [35; 47; 63] -> end_of_authority (a ++ rest) = rest.
Proof.
  intros Ha Hr. induction Ha as [|c a (H1 & H2 & H3) _ IH]; cbn.
  - destruct Hr as [->|Hr]; [done|]. destruct rest as [|c r]; [done|]. cbn in Hr |- *.
    rewrite !elem_of_cons elem_of_nil in Hr. destruct Hr as [->|[->|[->|[]]]]; done.
  - by rewrite !(proj2 (Z.eqb_neq c _)).
Qed.

Lemma no_delim_inside s : no_delim s -> Forall (fun c => c ≠ 35 ∧ c ≠ 47 ∧ c ≠ 63) s.
Proof. intros H. apply (Forall_impl _ _ _ H). intros c. rewrite /is_delim !orb_false_iff !Z.eqb_neq. tauto. Qed.

Lemma no_delim_at s : no_delim s -> Forall (fun c => c ≠ 64) s.
Proof. intros H. apply (Forall_impl _ _ _ H). intros c. rewrite /is_delim !orb_false_iff !Z.eqb_neq. tauto. Qed.

(** ** Paths, queries and fragments *)

(** What ends a part. *)
Definition stops (part : uri_part) (rest : list Z) : Prop :=
  match part with
  | PART_PATH => rest = [] ∨ hd 0 rest = 63 ∨ hd 0 rest = 35
  | PART_QUERY => rest = [] ∨ hd 0 rest = 35
  | PART_FRAGMENT => rest = []
  end.

Lemma end_of_part_spec s part :
  ∃ pre, s = pre ++ end_of_part s part ∧ end_of_part pre part = [].
Proof.
  induction s as [|c s (pre & Hs & He)]; [by exists []|]. cbn [end_of_part].
  destruct part; [destruct ((c =? 35) || (c =? 63)) eqn:Hc|destruct (c =? 35) eqn:Hc|].
  all: try (by exists []).
  all: exists (c :: pre); cbn; rewrite ?Hc; split; [by f_equal|done].
Qed.

Lemma end_of_part_app pre rest part : end_of_part pre part = [] -> stops part rest -> end_of_part (pre ++ rest) part = rest.
Proof.
  induction pre as [|c pre IH]; cbn; intros He Hr.
  - destruct part, rest as [|c r]; cbn in Hr |- *; try done.
    + destruct Hr as [?|[-> | ->]]; done.
    + destruct Hr as [?| ->]; done.
  - destruct part; [destruct ((c =? 35) || (c =? 63))|destruct (c =? 35)|]; try done; by apply IH.
Qed.

Definition pchar (c : Z) : bool := CHAR_IS_UNRESERVED c || is_subdelim c || (c =? 58) || (c =? 64) || (c =? 47).

Lemma end_of_pchars_spec s part : ∃ pre, s = pre ++ end_of_pchars s part ∧ end_of_pchars pre part = [].
Proof.
  induction s as [|c s (pre & Hs & He) IH3] using triple_ind; [by exists []|]. cbn [end_of_pchars]. fold (pchar c).
  destruct (pchar c) eqn:Hc; [exists (c :: pre); cbn; fold (pchar c); rewrite Hc; split; [by f_equal|done]|].
  set (o := if (c =? 63) && negb (bool_decide (part = PART_PATH)) then end_of_pchars s part else c :: s).
  assert (Ho : (c =? 37) = false ∨ o = c :: s).
  { rewrite /o. destruct (Z.eqb_spec c 37) as [->|]; [right|left]; done. }
  assert (Hother : ∃ pre, c :: s = pre ++ o ∧ end_of_pchars pre part = []).
  { rewrite /o in Ho |- *. destruct ((c =? 63) && negb (bool_decide (part = PART_PATH))) eqn:Hq; [|by exists []].
    exists (c :: pre). split; [cbn; by f_equal|]. cbn [end_of_pchars]. fold (pchar c). rewrite Hc Hq He.
    destruct Ho as [-> | Ho]; [by destruct pre as [|a [|b pre]]|]. exfalso. apply (f_equal length) in Ho.
    assert (length (end_of_pchars s part) <= length s)%nat; [|cbn in Ho; lia]. rewrite {2}Hs length_app. lia. }
  destruct s as [|a [|b s]]; try done.
  destruct ((c =? 37) && EVUTIL_ISXDIGIT a && EVUTIL_ISXDIGIT b) eqn:Hp; [|done].
  destruct (IH3 a b s eq_refl) as (pre3 & Hs3 & He3). exists (c :: a :: b :: pre3).
  split; [cbn; by do 3 f_equal|]. cbn [end_of_pchars]. fold (pchar c). by rewrite Hc Hp.
Qed.

Lemma end_of_pchars_app pre rest part :
  end_of_pchars pre part = [] -> stops part rest -> end_of_pchars (pre ++ rest) part = rest.
Proof.
  intros He Hr. induction pre as [|c pre IH IH3] using triple_ind.
  - destruct part, rest as [|c [|a [|b r]]]; cbn in Hr |- *; try done; (destruct Hr as [?|[-> | ->]] || destruct Hr as [?| ->]); done.
  - move: He. cbn [end_of_pchars app]. fold (pchar c). destruct (pchar c) eqn:Hc; [apply IH|].
    destruct ((c =? 63) && negb (bool_decide (part = PART_PATH))) eqn:Hq.
    + apply andb_true_iff in Hq as [->%Z.eqb_eq Hq]. cbn [Z.eqb Pos.eqb andb].
      intros He. assert (He' : end_of_pchars pre part = []) by (destruct pre as [|a [|b pre]]; exact He).
      specialize (IH He'). destruct (pre ++ rest) as [|a [|b l]]; exact IH.
    + destruct pre as [|a [|b pre]]; [done|done|]. cbn [app].
      destruct ((c =? 37) && EVUTIL_ISXDIGIT a && EVUTIL_ISXDIGIT b); [|done]. by apply (IH3 a b).
Qed.

(** The end of a part: it is in front of it, and nothing valid is longer. *)
Lemma end_of_path_spec s part flags : ∃ pre, s = pre ++ end_of_path s part flags ∧ part_ok flags part pre.
Proof. rewrite /part_ok /end_of_path. destruct (has_flag _ _); [apply end_of_part_spec|apply end_of_pchars_spec]. Qed.

Lemma end_of_path_app pre rest part flags : part_ok flags part pre -> stops part rest -> end_of_path (pre ++ rest) part flags = rest.
Proof. rewrite /part_ok /end_of_path. destruct (has_flag _ _); [apply end_of_part_app|apply end_of_pchars_app]. Qed.

Lemma between_app pre rest : between (pre ++ rest) rest = pre.
Proof. rewrite /between length_app. replace (length pre + length rest - length rest)%nat with (length pre) by lia. apply take_app_length. Qed.

(** ** Hosts *)

Lemma isdigit_delim c : isdigit c = true -> is_delim c = false.
Proof. rewrite /isdigit /is_delim andb_true_iff !orb_false_iff !Z.leb_le !Z.eqb_neq. lia. Qed.

Lemma future_version_spec s r : future_version s = Some r -> ∃ xs, s = xs ++ 46 :: r ∧ Forall (fun c => EVUTIL_ISXDIGIT c = true) xs.
Proof.
  induction s as [|c s IH]; cbn [future_version]; [done|]. destruct (Z.eqb_spec c 46) as [->|]; [intros [= <-]; by exists []|].
  destruct (EVUTIL_ISXDIGIT c) eqn:Hx; [|done]. intros Hr. destruct (IH Hr) as (xs & -> & Hxs).
  exists (c :: xs). split; [done|by constructor].
Qed.

Lemma inet_pton6_delim `{inet : InetPton} s : evutil_inet_pton6 s = true -> no_delim s.
Proof. intros H%inet_pton6_chars. apply (Forall_impl _ _ _ H). intros c Hc. rewrite /is_delim !orb_false_iff !Z.eqb_neq. lia. Qed.

Lemma bracket_delim `{inet : InetPton} h : is_text h -> bracket_addr_ok h ≠ 0 -> no_delim h.
Proof.
  intros Ht. rewrite /bracket_addr_ok. destruct (Nat.ltb_spec (length h) 3) as [?|Hlen]; cbn [orb]; [done|].
  destruct h as [|c t]; [done|]. cbn [hd tail]. destruct (Z.eqb_spec c 91) as [->|]; cbn [negb orb]; [|done].
  destruct (Z.eqb_spec (List.last (91 :: t) 0) 93) as [Hl|]; cbn [negb orb]; [|done].
  assert (Ht0 : t ≠ []) by (intros ->; cbn in Hlen; lia). pose proof (app_removelast_last 0 Ht0) as He.
  assert (Hl' : List.last t 0 = 93) by by destruct t. rewrite Hl' in He. inversion Ht as [|? ? _ Htt]; subst.
  rewrite He Forall_app in Htt. destruct Htt as [Hti _]. set (inner := removelast t) in *.
  intros Hok. constructor; [done|]. rewrite He. apply Forall_app. split; [|by repeat constructor]. clearbody inner. clear -Hti Hok.
  destruct (Z.eqb_spec (hd 0 inner) 118) as [Hv|Hv].
  - destruct inner as [|v s]; [done|]. cbn in Hv. subst v. cbn [tail] in Hok. constructor; [done|]. inversion Hti as [|? ? _ Hts]; subst.
    destruct (negb (EVUTIL_ISXDIGIT (hd 93 s))); [done|]. destruct (future_version s) as [r|] eqn:Hf; [|done].
    destruct (future_version_spec _ _ Hf) as (xs & -> & Hxs). apply Forall_app in Hts as [H1 H2]. inversion H2 as [|? ? _ H3]; subst.
    apply Forall_app. split; [|constructor; [done|]].
    + rewrite !Forall_forall in H1, Hxs |- *. intros c Hc. by apply special_delim, xdigit_special; [apply H1|apply Hxs].
    + destruct (forallb _ r) eqn:Hall; [|done]. rewrite forallb_forall in Hall. rewrite Forall_forall in H3. apply Forall_forall.
      intros c Hc. specialize (Hall c ltac:(by apply list_elem_of_In)). fold (name_char c) in Hall.
      apply orb_true_iff in Hall as [Hn| ->%Z.eqb_eq]; [|done]. by apply special_delim, name_special; [apply H3|].
  - destruct (64 <=? length inner)%nat; [done|]. destruct (evutil_inet_pton6 inner) eqn:Hp; [|done]. by apply inet_pton6_delim.
Qed.

(** A host has none of the characters that end an authority, and no '@'. *)
Lemma host_ok_delim `{inet : InetPton} h : is_text h -> host_ok h = true -> no_delim h.
Proof.
  intros Ht. rewrite /host_ok. destruct (_ && _).
  - intros Hb. apply bracket_delim; [done|]. intros H0. by rewrite H0 in Hb.
  - intros Hr. by apply regname_ok_chars.
Qed.

(** The last character of a host and a port can be told apart. *)
Lemma host_ok_last `{inet : InetPton} h c h' : is_text h -> host_ok h = true -> h = h' ++ [c] -> c ≠ 58 ∧ (Forall (fun c => c ≠ 58) h ∨ c = 93).
Proof.
  intros Ht. rewrite /host_ok. destruct ((hd 0 h =? 91) && (2 <=? length h)%nat && (nth (length h - 1) h 0 =? 93)) eqn:Hb.
  - intros _ ->. rewrite !andb_true_iff !Z.eqb_eq in Hb. destruct Hb as [_ Hb]. rewrite length_app Nat.add_1_r /= Nat.sub_0_r nth_middle in Hb.
    subst c. auto.
  - intros Hr ->. destruct (regname_ok_chars _ Ht Hr) as [_ Hc]. split; [|by left]. rewrite Forall_app Forall_singleton in Hc. apply Hc.
Qed.

(** Back over the end of a host to its last character that is no digit. *)
Lemma back_over_host `{inet : InetPton} h rest :
  is_text h -> host_ok h = true ->
  let p := back_over_digits (h ++ rest) (length h) in (0 <? p)%nat && (nth (p - 1) (h ++ rest) 0 =? 58) = false.
Proof.
  intros Ht Hok p. destruct (back_over_digits_spec (h ++ rest) (length h) ltac:(rewrite length_app; lia)) as (Hp & Hd & Hnd).
  fold p in Hp, Hd, Hnd. clearbody p. destruct (Nat.ltb_spec 0 p) as [H0|]; [|done]. cbn [andb]. apply Z.eqb_neq. intros H58.
  destruct h as [|c h' _] using rev_ind; [cbn in Hp; lia|].
  destruct (host_ok_last _ c h' Ht Hok eq_refl) as [Hc [Hall| ->]].
  - rewrite app_nth1 in H58; [|lia]. rewrite Forall_forall in Hall. apply (Hall (nth (p - 1) (h' ++ [c]) 0)); [|done].
    apply list_elem_of_In, nth_In. lia.
  - rewrite length_app /= in Hp, Hd. destruct (decide (p = length h' + 1)%nat) as [Heq|Hne].
    + rewrite Heq -app_assoc Nat.add_sub nth_middle in H58. done.
    + specialize (Hd (length h') ltac:(lia)). rewrite -app_assoc nth_middle in Hd. done.
Qed.

(** ** The checks decide the grammar *)

#[export] Instance letter_dec c : Decision (letter c) := ltac:(unfold letter; apply _).
#[export] Instance digit_dec c : Decision (digit c) := ltac:(unfold digit; apply _).
#[export] Instance hexdigit_dec c : Decision (hexdigit c) := ltac:(unfold hexdigit; apply _).
#[export] Instance name_symbol_dec c : Decision (name_symbol c) := ltac:(unfold name_symbol, unreserved, sub_delim; apply _).
#[export] Instance path_symbol_dec c : Decision (path_symbol c) := ltac:(unfold path_symbol; apply _).

(** A table and a class of the grammar. *)
Lemma class_iff (b : Z -> bool) (P : Z -> Prop) `{dec : ∀ c, Decision (P c)} :
  forallb (fun c => Bool.eqb (b c) (bool_decide (P c))) (seqZ 1 255) = true -> ∀ c, is_char c -> b c = true <-> P c.
Proof. intros Hall c Hc. pose proof (eqb_prop _ _ (char_cases _ Hall c Hc)) as ->. apply bool_decide_eq_true. Qed.

Lemma alpha_letter c : is_char c -> EVUTIL_ISALPHA c = true <-> letter c.
Proof. exact (class_iff (fun c => EVUTIL_ISALPHA c) (fun c => letter c) eq_refl c). Qed.
Lemma xdigit_hexdigit c : is_char c -> EVUTIL_ISXDIGIT c = true <-> hexdigit c.
Proof. exact (class_iff (fun c => EVUTIL_ISXDIGIT c) (fun c => hexdigit c) eq_refl c). Qed.
Lemma name_char_symbol c : is_char c -> name_char c = true <-> name_symbol c.
Proof. exact (class_iff (fun c => name_char c) (fun c => name_symbol c) eq_refl c). Qed.
Lemma user_char_symbol c : is_char c -> name_char c || (c =? 58) = true <-> name_symbol c ∨ c = 58.
Proof. exact (class_iff (fun c => name_char c || (c =? 58)) (fun c => name_symbol c ∨ c = 58) eq_refl c). Qed.
Lemma pchar_symbol c : is_char c -> pchar c = true <-> path_symbol c.
Proof. exact (class_iff (fun c => pchar c) (fun c => path_symbol c) eq_refl c). Qed.
Lemma scheme_symbol c : is_char c -> EVUTIL_ISALNUM c || (c =? 43) || (c =? 45) || (c =? 46) = true <-> letter c ∨ digit c ∨ c ∈ str "+-.".
Proof. exact (class_iff (fun c => EVUTIL_ISALNUM c || (c =? 43) || (c =? 45) || (c =? 46)) (fun c => letter c ∨ digit c ∨ c ∈ str "+-.") eq_refl c). Qed.

Lemma letter_char c : letter c -> is_char c.
Proof. rewrite /letter /is_char. lia. Qed.
Lemma digit_char c : digit c -> is_char c.
Proof. rewrite /digit /is_char. lia. Qed.
Lemma hexdigit_char c : hexdigit c -> is_char c.
Proof. rewrite /hexdigit /digit /is_char. lia. Qed.
Lemma member_char c l : forallb (fun c => (0 <? c) && (c <? 256)) l = true -> c ∈ l -> is_char c.
Proof. rewrite forallb_forall. intros H Hc. specialize (H c ltac:(by apply list_elem_of_In)). rewrite /is_char. lia. Qed.
Lemma name_symbol_char c : name_symbol c -> is_char c.
Proof. intros [[H|[H|H]]|H]; [by apply letter_char|by apply digit_char|by eapply member_char, H..]. Qed.
Lemma path_symbol_char c : path_symbol c -> is_char c.
Proof. intros [H|H]; [by apply name_symbol_char|by eapply member_char, H]. Qed.

Lemma spelled_text P s : (∀ c, P c -> is_char c) -> spelled P s -> is_text s.
Proof. intros HP. induction 1; [done|by constructor; [apply HP|]|]. by do 3 (constructor; [by [|apply hexdigit_char]|]). Qed.

(** What userinfo_ok, regname_ok and end_of_path have in common. *)
Fixpoint spelled_ok (symbol : Z -> bool) (s : list Z) : bool :=
  match s with
  | [] => true
  | c :: s' =>
      if symbol c then spelled_ok symbol s'
      else
        match s' with
        | a :: b :: s'' => (c =? 37) && EVUTIL_ISXDIGIT a && EVUTIL_ISXDIGIT b && spelled_ok symbol s''
        | _ => false
        end
  end.

Lemma spelled_ok_iff symbol P s :
  (∀ c, is_char c -> symbol c = true <-> P c) -> symbol 37 = false -> is_text s -> spelled_ok symbol s = true <-> spelled P s.
Proof.
  intros HP H37 Ht. split.
  - induction s as [|c s IH IH3] using triple_ind; intros Hok; [constructor|]. inversion Ht as [|? ? Hc Hts]; subst. cbn [spelled_ok] in Hok.
    destruct (symbol c) eqn:Hs; [constructor; [by apply HP|by apply IH]|]. destruct s as [|a [|b s]]; try done.
    rewrite !andb_true_iff Z.eqb_eq in Hok. destruct Hok as [[[-> Ha] Hb] Hok].
    inversion Hts as [|? ? Hca Hts2]; subst. inversion Hts2 as [|? ? Hcb Hts3]; subst.
    constructor; [by apply xdigit_hexdigit..|]. by apply (IH3 a b).
  - induction 1 as [|c s Hc Hs IH|a b s Ha Hb Hs IH]; [done| |].
    + inversion Ht; subst. cbn [spelled_ok]. rewrite (proj2 (HP c ltac:(done))) //. by apply IH.
    + inversion Ht as [|? ? _ H1]; subst. inversion H1 as [|? ? _ H2]; subst. inversion H2; subst.
      cbn [spelled_ok]. rewrite H37. rewrite !(proj2 (xdigit_hexdigit _ _)) //; [by apply IH|by apply hexdigit_char..].
Qed.

Lemma userinfo_ok_spelled s : userinfo_ok s = spelled_ok (fun c => name_char c || (c =? 58)) s.
Proof.
  induction s as [|c s IH IH3] using triple_ind; [done|]. cbn [userinfo_ok spelled_ok]. fold (name_char c). rewrite IH.
  destruct s as [|a [|b s]]; [done..|]. by rewrite (IH3 a b s).
Qed.

Lemma regname_ok_spelled s : regname_ok s (length s) = spelled_ok name_char s.
Proof.
  induction s as [|c s IH IH3] using triple_ind; [done|]. cbn [regname_ok spelled_ok length]. fold (name_char c). rewrite IH.
  destruct s as [|a [|b s]]; [done..|]. cbn [length Nat.sub]. by rewrite Nat.sub_0_r (IH3 a b s).
Qed.

Definition part_char (part : uri_part) (c : Z) : bool := pchar c || ((c =? 63) && negb (bool_decide (part = PART_PATH))).

Lemma end_of_pchars_spelled part s : end_of_pchars s part = [] <-> spelled_ok (part_char part) s = true.
Proof.
  induction s as [|c s IH IH3] using triple_ind; [done|]. cbn [end_of_pchars spelled_ok]. fold (pchar c). rewrite {1}/part_char.
  destruct (pchar c) eqn:Hp; cbn [orb]; [done|]. destruct ((c =? 63) && negb (bool_decide (part = PART_PATH))) eqn:Hq.
  - apply andb_true_iff in Hq as [->%Z.eqb_eq _]. cbn [Z.eqb Pos.eqb andb]. by destruct s as [|a [|b s]].
  - destruct s as [|a [|b s]]; [done..|]. destruct ((c =? 37) && EVUTIL_ISXDIGIT a && EVUTIL_ISXDIGIT b); cbn [andb]; [by apply (IH3 a b)|done].
Qed.

(** Each part is text in the grammar, and passes its check just then. *)
Lemma scheme_text_ok s : scheme_text s <-> is_text s ∧ scheme_ok s = true.
Proof.
  split.
  - destruct 1 as [c s Hc Hs]. assert (Ht : is_text s).
    { apply (Forall_impl _ _ _ Hs). intros x [Hx|[Hx|Hx]]; [by apply letter_char|by apply digit_char|by eapply member_char, Hx]. }
    split; [constructor; [by apply letter_char|done]|]. apply andb_true_iff. split; [apply alpha_letter; [by apply letter_char|done]|].
    apply forallb_forall. intros x Hx%list_elem_of_In. rewrite !Forall_forall in Hs, Ht. apply scheme_symbol; [by apply Ht|by apply Hs].
  - intros [Ht Hok]. destruct s as [|c s]; [done|]. apply andb_true_iff in Hok as [Hc Hs]. inversion Ht as [|? ? Hcc Hts]; subst.
    constructor; [by apply alpha_letter|]. rewrite forallb_forall in Hs. rewrite !Forall_forall in Hts |- *.
    intros x Hx. apply scheme_symbol; [by apply Hts|]. by apply Hs, list_elem_of_In.
Qed.

Lemma userinfo_text_ok s : userinfo_text s <-> is_text s ∧ userinfo_ok s = true.
Proof.
  rewrite userinfo_ok_spelled /userinfo_text. split.
  - intros Hs. assert (is_text s) by (eapply spelled_text; [|exact Hs]; intros c [Hc| ->]; [by apply name_symbol_char|done]).
    split; [done|]. by eapply spelled_ok_iff; [apply user_char_symbol| | |].
  - intros [Ht Hok]. by eapply spelled_ok_iff; [apply user_char_symbol| | |exact Hok].
Qed.

Lemma regname_text_ok s : spelled name_symbol s <-> is_text s ∧ regname_ok s (length s) = true.
Proof.
  rewrite regname_ok_spelled. split.
  - intros Hs. assert (is_text s) by (eapply spelled_text, Hs; apply name_symbol_char).
    split; [done|]. by eapply spelled_ok_iff; [apply name_char_symbol| | |].
  - intros [Ht Hok]. by eapply spelled_ok_iff; [apply name_char_symbol| | |exact Hok].
Qed.

Lemma part_symbol part c : is_char c -> part_char part c = true <-> path_symbol c ∨ (part ≠ PART_PATH ∧ c = 63).
Proof.
  intros Hc. rewrite /part_char orb_true_iff andb_true_iff (pchar_symbol c Hc) Z.eqb_eq negb_true_iff bool_decide_eq_false. tauto.
Qed.

Lemma end_of_part_none s part : end_of_part s part = [] <-> (part ≠ PART_FRAGMENT -> 35 ∉ s) ∧ (part = PART_PATH -> 63 ∉ s).
Proof.
  induction s as [|c s IH]; cbn [end_of_part].
  - split; [intros _; split; intros _; apply not_elem_of_nil|done].
  - rewrite !not_elem_of_cons. destruct part.
    + destruct (Z.eqb_spec c 35) as [->|]; [split; [done|intros [H1 _]; by destruct (H1 ltac:(done))]|].
      destruct (Z.eqb_spec c 63) as [->|]; [split; [done|intros [_ H2]; by destruct (H2 ltac:(done))]|]. cbn [orb]. rewrite IH. intuition congruence.
    + destruct (Z.eqb_spec c 35) as [->|]; [split; [done|intros [H1 _]; by destruct (H1 ltac:(done))]|]. rewrite IH. intuition congruence.
    + rewrite IH. intuition congruence.
Qed.

Lemma nonconformant_flag flags : has_flag EVHTTP_URI_NONCONFORMANT flags = nonconformant flags.
Proof.
  rewrite /has_flag /EVHTTP_URI_NONCONFORMANT /nonconformant Z.bit0_odd. change 1 with (Z.ones 1). rewrite Z.land_ones //.
  rewrite (Zmod_odd flags). by destruct (Z.odd flags).
Qed.

Lemma part_text_ok flags part s : part_text (nonconformant flags) part s <-> is_text s ∧ part_ok flags part s.
Proof.
  rewrite /part_text /part_ok /end_of_path nonconformant_flag. destruct (nonconformant flags); [by rewrite end_of_part_none|].
  rewrite end_of_pchars_spelled. split.
  - intros Hs. assert (is_text s) by (eapply spelled_text, Hs; intros c [Hc|[_ ->]]; [by apply path_symbol_char|done]).
    split; [done|]. by eapply spelled_ok_iff; [apply part_symbol|by destruct part| |].
  - intros [Ht Hok]. by eapply spelled_ok_iff; [apply part_symbol|by destruct part| |exact Hok].
Qed.

Lemma noscheme_path_ok s : noscheme_path s <-> path_matches_noscheme s = true.
Proof.
  induction s as [|c s IH]; cbn [path_matches_noscheme].
  - split; [done|]. intros _ a b H. by destruct a.
  - destruct (Z.eqb_spec c 58) as [->|Hc]; [split; [intros H; by destruct (not_elem_of_nil 47); eapply (H [])|done]|].
    destruct (Z.eqb_spec c 47) as [->|Hd].
    + split; [done|]. intros _ a b H. destruct a as [|x a]; [done|]. injection H as <- _. by left.
    + rewrite -IH. split.
      * intros H a b ->. specialize (H (c :: a) b eq_refl). rewrite elem_of_cons in H. by destruct H.
      * intros H a b Hab. destruct a as [|x a]; [by injection Hab as -> _|]. injection Hab as <- Hs. right. by eapply H.
Qed.

(** Between the brackets. *)
Definition inner_ok `{inet : InetPton} (s : list Z) : Prop :=
  (s ≠ [] ∧ (length s < 64)%nat ∧ inet_pton6 s = true)
  ∨ ∃ v r, s = 118 :: v ++ 46 :: r ∧ v ≠ [] ∧ Forall (fun c => EVUTIL_ISXDIGIT c = true) v
      ∧ Forall (fun c => name_char c || (c =? 58) = true) r.

Lemma future_version_app v r : Forall (fun c => EVUTIL_ISXDIGIT c = true) v -> future_version (v ++ 46 :: r) = Some r.
Proof.
  induction 1 as [|c v Hc Hv IH]; [done|]. cbn [app future_version]. rewrite Hc IH. destruct (Z.eqb_spec c 46) as [->|]; [done|done].
Qed.

Lemma bracket_inner `{inet : InetPton} s : bracket_addr_ok (91 :: s ++ [93]) ≠ 0 <-> inner_ok s.
Proof.
  assert (Hb : bracket_addr_ok (91 :: s ++ [93]) = if (length s =? 0)%nat then 0 else
    if hd 0 s =? 118 then
      if negb (EVUTIL_ISXDIGIT (hd 93 (tail s))) then 0
      else match future_version (tail s) with
           | None => 0
           | Some s => if forallb (fun c => name_char c || (c =? 58)) s then 2 else 0
           end
    else if (64 <=? length s)%nat then 0 else if evutil_inet_pton6 s then 1 else 0).
  { rewrite /bracket_addr_ok. cbn [tail hd]. rewrite removelast_last.
    change (91 :: s ++ [93]) with ((91 :: s) ++ [93]). rewrite last_last length_app. destruct s as [|c s]; [done|].
    by destruct (Nat.ltb_spec (length (91 :: c :: s) + length [93]) 3); [cbn in *; lia|]. }
  rewrite Hb {Hb} /inner_ok. destruct s as [|c s]; [cbn; split; [done|intros [[? _]|(v & r & ? & _)]; done]|]. cbn [length hd tail Nat.eqb].
  destruct (Z.eqb_spec c 118) as [->|Hc].
  - split.
    + destruct (EVUTIL_ISXDIGIT (hd 93 s)) eqn:Hx; [|done]. destruct (future_version s) as [r|] eqn:Hf; [|done].
      destruct (forallb _ r) eqn:Hr; [|done]. intros _. right. destruct (future_version_spec _ _ Hf) as (v & -> & Hv). exists v, r.
      split_and!; [done|by intros ->|done|]. apply Forall_forall. rewrite forallb_forall in Hr. intros x Hx'. by apply Hr, list_elem_of_In.
    + intros [(_ & _ & Hp)|(v & r & [= ->] & Hne & Hv & Hr)].
      * apply inet_pton6_chars in Hp. inversion Hp; subst. lia.
      * destruct v as [|d v]; [done|]. cbn [app hd]. inversion Hv; subst. replace (EVUTIL_ISXDIGIT d) with true by done. cbn [negb].
        rewrite (future_version_app (d :: v) r) //. rewrite (proj2 (forallb_forall _ r)) //. rewrite Forall_forall in Hr.
        intros x Hx. by apply Hr, list_elem_of_In.
  - rewrite /evutil_inet_pton6. destruct (Nat.leb_spec 64 (S (length s))) as [Hl|Hl].
    + split; [done|]. intros [(_ & Hl' & _)|(v & r & [= -> _] & _)]; [cbn in Hl'; lia|done].
    + destruct (inet_pton6 (c :: s)) eqn:Hp; [by split; [left|]|]. split; [done|]. intros [(_ & _ & ?)|(v & r & [= -> _] & _)]; done.
Qed.

Lemma Forall_class (P Q : Z -> Prop) s : is_text s -> (∀ c, is_char c -> P c <-> Q c) -> Forall P s <-> Forall Q s.
Proof. intros Ht HPQ. rewrite !Forall_forall in Ht |- *. split; intros H c Hc; by eapply HPQ; [apply Ht|apply H]. Qed.

Lemma inner_text `{inet : InetPton} s : host_text (91 :: s ++ [93]) <-> is_text s ∧ inner_ok s.
Proof.
  split.
  - inversion 1 as [x Hx|x Hne Hl Hp|v r Hne Hv Hr]; subst.
    + apply regname_text_ok in Hx as [_ Hx]. by destruct (s ++ [93]) as [|a [|b r]].
    + match goal with H : _ ++ _ = _ ++ _ |- _ => apply app_inj_tail in H as [-> _] end. split; [|by left].
      apply inet_pton6_chars in Hp. apply (Forall_impl _ _ _ Hp). rewrite /is_char. lia.
    + match goal with H : _ :: _ ++ _ :: _ ++ _ = _ |- _ => rename H into He end.
      assert (He' : (118 :: v ++ 46 :: r) ++ [93] = s ++ [93]) by (rewrite -He /= -app_assoc //).
      apply app_inj_tail in He' as [<- _]. clear He.
      assert (Ht : is_text v ∧ is_text r).
      { split; [by eapply Forall_impl, hexdigit_char|]. apply (Forall_impl _ _ _ Hr). intros c [Hc| ->]; [by apply name_symbol_char|done]. }
      destruct Ht as [Htv Htr].
      split; [constructor; [done|]; apply Forall_app; split; [done|by constructor]|]. right. exists v, r. split_and!; [done|done| |].
      * by eapply Forall_class; [done|apply xdigit_hexdigit|].
      * by eapply (Forall_class (fun c => _ = true)); [done|apply user_char_symbol|].
  - intros [Ht [(Hne & Hl & Hp)|(v & r & -> & Hne & Hv & Hr)]]; [by constructor|]. inversion Ht as [|? ? _ Ht1]; subst.
    apply Forall_app in Ht1 as [Htv Ht2]. inversion Ht2 as [|? ? _ Htr]; subst.
    cbn [app]. rewrite -app_assoc. cbn [app]. apply AddressFuture; [done| |].
    + by eapply Forall_class; [done|intros; symmetry; by apply xdigit_hexdigit|].
    + by eapply (Forall_class _ (fun c => _ = true)); [done|intros; symmetry; by apply user_char_symbol|].
Qed.

Lemma host_text_ok `{inet : InetPton} h : host_text h <-> is_text h ∧ host_ok h = true.
Proof.
  rewrite /host_ok. destruct ((hd 0 h =? 91) && (2 <=? length h)%nat && (nth (length h - 1) h 0 =? 93)) eqn:Hb.
  - rewrite !andb_true_iff !Z.eqb_eq Nat.leb_le in Hb. destruct Hb as [[H91 Hl] H93]. destruct h as [|c s _] using rev_ind; [done|].
    rewrite length_app Nat.add_sub nth_middle in H93. subst c. destruct s as [|c s]; [cbn in Hl; lia|]. cbn in H91. subst c.
    cbn [app]. rewrite inner_text negb_true_iff Z.eqb_neq bracket_inner. split; intros [Ht Hi]; (split; [|done]).
    + constructor; [done|]. apply Forall_app. split; [done|by constructor].
    + inversion Ht as [|? ? _ Ht']; subst. by apply Forall_app in Ht' as [? _].
  - rewrite -regname_text_ok. split; [|by constructor]. inversion 1 as [|s Hne|v s Hne]; subst; [done|exfalso..].
    + move: Hb. cbn [hd length Z.eqb Pos.eqb andb]. rewrite Nat.sub_succ Nat.sub_0_r length_app Nat.add_1_r. cbn [Nat.leb andb nth].
      rewrite nth_middle. done.
    + move: Hb. replace (91 :: 118 :: v ++ 46 :: s ++ [93]) with ((91 :: 118 :: v ++ 46 :: s) ++ [93]) by by cbn; rewrite -app_assoc.
      rewrite length_app Nat.add_sub nth_middle. cbn [app hd length Z.eqb Pos.eqb andb]. rewrite Nat.add_1_r. done.
Qed.

Lemma slashes_spec s : slashes s = true <-> ∃ r, s = 47 :: 47 :: r.
Proof.
  rewrite /slashes andb_true_iff !Z.eqb_eq. split; [|by intros (r & ->)]. destruct s as [|a [|b s]]; [by intros []..|].
  cbn. intros [-> ->]. by exists s.
Qed.

Lemma authority_valid_ok `{inet : InetPton} p : authority_valid p <-> authority_ok p.
Proof.
  rewrite /authority_ok. split.
  - destruct 1 as [h -> Hh Hu Hp Ha | -> Hu Hp Hs].
    + apply host_text_ok in Hh as [Ht Hh]. split_and!; [done|done| |lia..|].
      * intros s Hs. by apply userinfo_text_ok, Hu.
      * destruct Ha as [->|(s & ->)]; [by left|by right].
    + split_and!; [done|done|]. destruct (slashes (p_path p)) eqn:Hsl; [|done]. apply slashes_spec in Hsl as (r & Hr). by destruct (Hs r).
  - destruct (p_host p) as [h|] eqn:Hh.
    + intros (Ht & Hok & Hu & Hp & Ha). eapply WithAuthority; [done|by apply host_text_ok| |done|].
      * intros s Hs. by apply userinfo_text_ok, Hu.
      * destruct Ha as [->|Ha]; [by left|]. destruct (p_path p) as [|c s]; [by left|]. cbn in Ha. subst c. right. by exists s.
    + intros (Hu & Hp & Hs). apply WithoutAuthority; [done..|]. intros s He. rewrite He in Hs. done.
Qed.

Lemma valid_checked `{inet : InetPton} flags p : valid_uri flags p <-> checked_uri flags p.
Proof.
  split.
  - intros [Hs Hn Ha Hp Hq Hf]. split.
    + intros s H. by apply scheme_text_ok, Hs.
    + intros H. by apply noscheme_path_ok, Hn.
    + by apply authority_valid_ok.
    + by apply part_text_ok.
    + intros s H. by apply part_text_ok, Hq.
    + intros s H. by apply part_text_ok, Hf.
  - intros [Hs Hn Ha Hp Hq Hf]. split.
    + intros s H. by apply scheme_text_ok, Hs.
    + intros H. by apply noscheme_path_ok, Hn.
    + by apply authority_valid_ok.
    + by apply part_text_ok.
    + intros s H. by apply part_text_ok, Hq.
    + intros s H. by apply part_text_ok, Hf.
Qed.

(** A system that knows a single address. *)
Definition only_loopback : InetPton.
Proof.
  refine {| inet_pton6 s := bool_decide (s = str "::1") |}. intros s ->%bool_decide_eq_true.
  change (str "::1") with [58; 58; 49]. repeat (constructor; [lia|]). constructor.
Defined.
