(* ===== verification/EvMem.v ===== *)
(** * What a function allocates and keeps

    [owned e0 own e] counts every block since [e0]; the specifications of the
    allocator and of the functions that copy a text follow it, for any outcome of
    the allocator. *)

From Stdlib Require Import ssreflect.
From S2P Require Import Prelude CTypes HProp CMem CLib EvBuffer EvBufSpec EvUtil EvUri EvUriSpec.
Set Warnings "-rewrite-rw".
Open Scope general_if_scope.
Open Scope Z_scope.

(** ** Blocks *)

Definition new_ids (p q : id) : list id := Pos.of_nat <$> seq (Pos.to_nat p) (Pos.to_nat q - Pos.to_nat p).

Lemma new_ids_same p : new_ids p p = [].
Proof. by rewrite /new_ids Nat.sub_diag. Qed.

Lemma new_ids_succ p q : (p <= q)%positive -> new_ids p (Pos.succ q) = new_ids p q ++ [q].
Proof.
  intros H. rewrite /new_ids Pos2Nat.inj_succ Nat.sub_succ_l; [|lia]. rewrite seq_S fmap_app /=.
  do 2 f_equal. replace (Pos.to_nat p + (Pos.to_nat q - Pos.to_nat p))%nat with (Pos.to_nat q) by lia. apply Pos2Nat.id.
Qed.

Lemma new_ids_nodup p q : NoDup (new_ids p q).
Proof.
  apply NoDup_fmap_2_strong; [|apply NoDup_seq]. intros x y Hx%elem_of_seq Hy%elem_of_seq. apply Nat2Pos.inj; lia.
Qed.

(** Since [e0] the blocks [own] were allocated and are still there; all others
    that were allocated have been freed, once each. *)
Record owned (e0 : evenv) (own : list id) (e : evenv) : Prop := {
  ow_later : (next_id e0 <= next_id e)%positive;
  ow_freed : ∃ freed, effects e = effects e0 ++ (Freed <$> freed) ∧ own ++ freed ≡ₚ new_ids (next_id e0) (next_id e);
  ow_memory : ev_oom e0 = [] -> ev_oom e = [] }.

Lemma owned_nothing e : owned e [] e.
Proof. split; [done| |done]. exists []. split; [by rewrite app_nil_r|by rewrite new_ids_same]. Qed.

Lemma owned_perm e0 own own' e : own ≡ₚ own' -> owned e0 own e -> owned e0 own' e.
Proof. intros Hp [H1 (fr & H2 & H3) H4]. split; [done| |done]. exists fr. by rewrite -Hp. Qed.

Lemma runs_malloc e0 own e (Q : option id -> evenv -> Prop) :
  owned e0 own e -> (∀ i e', owned e0 (i :: own) e' -> Q (Some i) e') -> (∀ e', ev_oom e0 ≠ [] -> owned e0 own e' -> Q None e') ->
  runs mm_malloc e Q.
Proof.
  intros [H1 (fr & H2 & H3) H4] Hs Hn. rewrite /runs /mm_malloc.
  assert (Hok : ∀ o, (ev_oom e0 = [] -> o = []) -> owned e0 (next_id e :: own) (EvEnv (Pos.succ (next_id e)) o (effects e))).
  { intros o Ho. split; cbn; [lia| |done]. exists fr. rewrite new_ids_succ // -H3. split; [done|]. by rewrite -Permutation_cons_append. }
  destruct (ev_oom e) as [|[] o] eqn:Ho.
  - by apply Hs, Hok.
  - apply Hs, Hok. intros H. by specialize (H4 H).
  - assert (Hne : ev_oom e0 ≠ []) by (intros H; by specialize (H4 H)). apply Hn; [done|]. split; [done|by exists fr|done].
Qed.

Lemma runs_free e0 i own e (Q : unit -> evenv -> Prop) :
  owned e0 (i :: own) e -> (∀ e', owned e0 own e' -> Q tt e') -> runs (mm_free i) e Q.
Proof.
  intros [H1 (fr & H2 & H3) H4] HQ. apply HQ. split; cbn; [done| |done]. exists (fr ++ [i]). rewrite H2 fmap_app -app_assoc. split; [done|].
  by rewrite -H3 app_assoc -Permutation_cons_append.
Qed.

Definition str_ids (s : option cstr) : list id := match s with Some s => [s_id s] | None => [] end.

Lemma runs_free_str e0 s own e (Q : unit -> evenv -> Prop) :
  owned e0 (str_ids s ++ own) e -> (∀ e', owned e0 own e' -> Q tt e') -> runs (free_str s) e Q.
Proof. destruct s as [s|]; cbn; [apply runs_free|]. intros H HQ. by apply runs_ret, HQ. Qed.

(** A new string with a given text. *)
Definition gives_str (m : E (option cstr)) (t : list Z) : Prop :=
  ∀ e0 own e (Q : option cstr -> evenv -> Prop), owned e0 own e ->
    (∀ c e', s_text c = t -> owned e0 (s_id c :: own) e' -> Q (Some c) e') -> (∀ e', ev_oom e0 ≠ [] -> owned e0 own e' -> Q None e') ->
    runs m e Q.

Lemma cut0_text t : is_text t -> cut0 t = t.
Proof. induction 1 as [|c t Hc _ IH]; [done|]. cbn. rewrite /is_char in Hc. rewrite (proj2 (Z.eqb_neq c 0)); [|lia]. by rewrite IH. Qed.

Lemma strdup_cut t : gives_str (mm_strdup t) (cut0 t).
Proof.
  intros e0 own e Q Ho Hs Hn. apply runs_bind, (runs_malloc e0 own); [done| |].
  - intros i e' Ho'. by apply runs_ret, Hs.
  - intros e' Hne Ho'. by apply runs_ret, Hn.
Qed.

Lemma strdup_gives t : is_text t -> gives_str (mm_strdup t) t.
Proof. intros Ht. pose proof (strdup_cut t) as H. by rewrite cut0_text in H. Qed.

Lemma memdup_gives t : gives_str (mm_memdup t) t.
Proof.
  intros e0 own e Q Ho Hs Hn. apply runs_bind, (runs_malloc e0 own); [done| |].
  - intros i e' Ho'. by apply runs_ret, Hs.
  - intros e' Hne Ho'. by apply runs_ret, Hn.
Qed.

(** ** Strings in arrays *)

Lemma c_str_text t : c_str (Some <$> t) = mret (cut0 t).
Proof.
  rewrite /c_str. enough (H : c_string ((Some <$> t) ++ [Some 0]) = inr (cut0 t)) by (by rewrite H).
  induction t as [|c t IH]; [done|]. cbn. destruct (c =? 0); [done|]. by rewrite IH.
Qed.
