(* ===== verification/EvUriOps.v ===== *)
(** * Taking URIs apart: lemmas

    Every step of evhttp_uri_parse_with_flags, for any text and any outcome of
    the allocator: which strings are on the heap, and what the parts that were
    stored have to do with the text.  Whatever is accepted is spelled by the
    grammar of EvUriSpec, and what is not returned was released.  In turn, of a
    text that spells valid parts, exactly these parts are found if there is
    memory.  A run may also end with the overflow of a port number, if [big]
    holds.

    At the end URIs are put together, in an event buffer against the laws of
    EvBufQueue and EvPrintOps: what evhttp_uri_join writes is the text of the
    parts, with the port in decimal. *)

From Stdlib Require Import ssreflect.
From S2P Require Import Prelude CTypes HProp CMem CLib BRound EvBuffer EvBufSpec EvBufOps EvBufMove EvBufPlain EvBufQueue EvPrint EvPrintOps EvUtil EvErr EvUri EvUriSpec EvMem.
Set Warnings "-rewrite-rw".
Open Scope general_if_scope.
Open Scope Z_scope.

(** ** The blocks of a URI *)

Definition uri_ids (u : evhttp_uri) : list id :=
  str_ids (u_scheme u) ++ str_ids (u_userinfo u) ++ str_ids (u_host u) ++ str_ids (u_path u) ++ str_ids (u_query u)
    ++ str_ids (u_fragment u) ++ [u_id u].

Lemma perm_skip_front (l r r' : list id) i : r ≡ₚ i :: r' -> l ++ r ≡ₚ i :: l ++ r'.
Proof. intros ->. by rewrite -Permutation_middle. Qed.

Lemma uri_ids_set f c u : uri_str f u = None -> uri_ids (set_str f (Some c) u) ≡ₚ s_id c :: uri_ids u.
Proof. destruct u, f; cbn; intros ->; rewrite /uri_ids /=; repeat apply perm_skip_front; done. Qed.

Lemma uri_ids_port p u : uri_ids (set_port p u) = uri_ids u.
Proof. done. Qed.

Lemma runs_uri_free e0 u own e (Q : unit -> evenv -> Prop) :
  owned e0 (uri_ids u ++ own) e -> (∀ e', owned e0 own e' -> Q tt e') -> runs (evhttp_uri_free u) e Q.
Proof.
  rewrite /uri_ids -!app_assoc. intros Ho HQ. rewrite /evhttp_uri_free.
  do 6 (eapply runs_bind, runs_free_str; [done|]; clear dependent e; intros e Ho). by eapply runs_free.
Qed.

(** ** Computations that fill a URI *)

Section uruns.
Context `{inet : InetPton} (big : Prop).
Abbreviation eruns := (eruns (if_big big)).
Abbreviation uruns := (gruns (if_big big)).

Lemma uruns_store e0 own f m t u e (Q : option unit -> evhttp_uri -> evenv -> Prop) :
  uri_str f u = None -> gives_str m t -> owned e0 (uri_ids u ++ own) e ->
  (∀ c e', s_text c = t -> owned e0 (uri_ids (set_str f (Some c) u) ++ own) e' -> Q (Some tt) (set_str f (Some c) u) e') ->
  (∀ e', ev_oom e0 ≠ [] -> owned e0 (uri_ids u ++ own) e' -> Q None u e') ->
  uruns (store f m) u e Q.
Proof.
  intros Hf Hm Ho Hs Hn. apply gruns_bind, gruns_here, runs_eruns, (Hm e0 (uri_ids u ++ own)); [done| |].
  - intros c e' Ht Ho'. apply gruns_bind, gruns_change, gruns_ret, Hs; [done|]. by eapply owned_perm; [|exact Ho']; rewrite uri_ids_set.
  - intros e' Hne Ho'. apply gruns_bind, gruns_change, gruns_err. replace (set_str f None u) with u; [by apply Hn|].
    destruct u, f; cbn in Hf |- *; by rewrite Hf.
Qed.

(** ** Ports *)

Lemma port_loop_spec acc ds :
  0 <= acc < 2 ^ 31 -> is_text ds -> Forall (fun c => isdigit c = true) ds ->
  port_loop acc ds = if digits_val acc ds <? 2 ^ 31 then mret (digits_val acc ds) else e_fail IntOverflow.
Proof.
  revert acc. induction ds as [|d ds IH]; intros acc Hacc Ht Hd; cbn [port_loop].
  - by rewrite (proj2 (Z.ltb_lt _ _) (proj2 Hacc)).
  - inversion Ht as [|? ? Hc Hts]; subst. inversion Hd as [|? ? Hd1 Hds]; subst. rewrite digit_range // Hd1. cbn [negb].
    assert (Hr : 48 <= d <= 57) by (rewrite /isdigit andb_true_iff !Z.leb_le in Hd1; lia).
    change (digits_val acc (d :: ds)) with (digits_val (acc * 10 + (d - 48)) ds).
    destruct (Z.leb_spec (2 ^ 31) (acc * 10 + (d - 48))) as [Hbig|Hsmall].
    + pose proof (digits_val_mono (acc * 10 + (d - 48)) ds ltac:(lia) Hds). by rewrite (proj2 (Z.ltb_ge _ _)); [|lia].
    + rewrite (proj2 (Z.ltb_ge _ 0)); [|lia]. apply IH; [lia|done|done].
Qed.

Lemma eruns_parse_port ds e (Q : Z -> evenv -> Prop) :
  is_text ds -> Forall (fun c => isdigit c = true) ds ->
  (2 ^ 31 <= digits_val 0 ds -> big) -> (digits_val 0 ds < 2 ^ 31 -> Q (digits_val 0 ds) e) -> eruns (parse_port ds) e Q.
Proof.
  intros Ht Hd Hbig HQ. rewrite /parse_port port_loop_spec //. destruct (Z.ltb_spec (digits_val 0 ds) (2 ^ 31)).
  - by apply runs_eruns, runs_ret, HQ.
  - split; [done|by apply Hbig].
Qed.

(** ** Pieces of a text *)

Lemma strchr_found (c x : Z) k s :
  list_find (fun y => y = c) s = Some (k, x) -> s = take k s ++ c :: drop (S k) s ∧ (k < length s)%nat ∧ Forall (fun y => y ≠ c) (take k s).
Proof.
  intros (Hk & -> & Hj)%list_find_Some. pose proof (lookup_lt_Some _ _ _ Hk) as Hlt. split_and!; [|done|].
  - by rewrite -{1}(take_drop k s) (drop_S s c k).
  - apply Forall_lookup. intros j y Hy. apply lookup_take_Some in Hy as [Hy Hjk]. by eapply Hj.
Qed.

Lemma strchr_app (c : Z) pre r : Forall (fun y => y ≠ c) pre -> list_find (fun y => y = c) (pre ++ c :: r) = Some (length pre, c).
Proof.
  induction 1 as [|y pre Hy _ IH]; cbn [app list_find length]; [by rewrite decide_True|]. by rewrite decide_False // IH.
Qed.

Lemma split_at (c : Z) a r k : (k < length a)%nat -> nth k (a ++ r) 0 = c -> ∃ h t, a = h ++ c :: t ∧ length h = k.
Proof.
  intros Hk Hc. rewrite app_nth1 // in Hc. destruct (lookup_lt_is_Some_2 a k Hk) as [y Hy]. rewrite nth_lookup Hy in Hc. cbn in Hc. subst y.
  exists (take k a), (drop (S k) a). rewrite -drop_S // take_drop length_take. split; [done|lia].
Qed.

Lemma drop_app_cons {A} (h : list A) c t : drop (S (length h)) (h ++ c :: t) = t.
Proof. replace (S (length h)) with (length h + 1)%nat by lia. by rewrite -drop_drop drop_app_length. Qed.

(** The check of the host in its place. *)
Lemma host_check h r :
  EVUTIL_ISXDIGIT (hd 0 r) = false ->
  (if (hd 0 (h ++ r) =? 91) && (2 <=? length h)%nat && (nth (length h - 1) (h ++ r) 0 =? 93)
   then negb (bracket_addr_ok (take (length h) (h ++ r)) =? 0) else regname_ok (h ++ r) (length h)) = host_ok h.
Proof.
  intros Hr. rewrite regname_ok_app // take_app_length /host_ok. destruct h as [|c h]; [by rewrite !andb_false_r|].
  rewrite app_nth1; [done|cbn; lia].
Qed.

(** ** The host and the port *)

Lemma set_port_same u : set_port (u_port u) u = u.
Proof. by destruct u. Qed.

Lemma uruns_host_end e0 own h r u e (Q : option unit -> evhttp_uri -> evenv -> Prop) :
  EVUTIL_ISXDIGIT (hd 0 r) = false -> u_host u = None -> owned e0 (uri_ids u ++ own) e ->
  (host_ok h = true -> ∀ c e', s_text c = h -> owned e0 (uri_ids (set_str Host (Some c) u) ++ own) e' -> Q (Some tt) (set_str Host (Some c) u) e') ->
  (∀ e', host_ok h = false ∨ ev_oom e0 ≠ [] -> owned e0 (uri_ids u ++ own) e' -> Q None u e') ->
  uruns (if (if (hd 0 (h ++ r) =? 91) && (2 <=? length h)%nat && (nth (length h - 1) (h ++ r) 0 =? 93)
             then negb (bracket_addr_ok (take (length h) (h ++ r)) =? 0) else regname_ok (h ++ r) (length h))
         then store Host (mm_memdup (take (length h) (h ++ r))) else goto_err) u e Q.
Proof.
  intros Hr Hu Ho Hs Hn. rewrite host_check //. destruct (host_ok h) eqn:Hok; [|by apply gruns_err, Hn; [left|]].
  rewrite take_app_length. apply (uruns_store e0 own Host _ h); [done|apply memdup_gives|done|by apply Hs|].
  intros e' Hne Ho'. by apply Hn; [right|].
Qed.

Lemma uruns_host e0 own a r u e (Q : option unit -> evhttp_uri -> evenv -> Prop) :
  is_text a -> EVUTIL_ISXDIGIT (hd 0 r) = false -> u_host u = None -> u_port u = -1 -> owned e0 (uri_ids u ++ own) e ->
  (∀ pre ds, a = pre ++ 58 :: ds -> Forall (fun c => isdigit c = true) ds -> 2 ^ 31 <= digits_val 0 ds -> big) ->
  (∀ h pt port c e', a = h ++ pt -> port_text port pt -> host_ok h = true -> s_text c = h ->
     owned e0 (uri_ids (set_str Host (Some c) (set_port port u)) ++ own) e' -> Q (Some tt) (set_str Host (Some c) (set_port port u)) e') ->
  (∀ u' e', owned e0 (uri_ids u' ++ own) e' -> Q None u' e') ->
  uruns (parse_host (a ++ r) (length a)) u e Q.
Proof.
  intros Ht Hr Hu Hp Ho Hbig Hs Hn. rewrite /parse_host.
  destruct (back_over_digits_spec (a ++ r) (length a) ltac:(rewrite length_app; lia)) as (Hpn & Hd & _).
  set (p := back_over_digits (a ++ r) (length a)) in *. clearbody p.
  destruct ((0 <? p)%nat && (nth (p - 1) (a ++ r) 0 =? 58)) eqn:Hcolon.
  - apply andb_true_iff in Hcolon as [H0%Nat.ltb_lt H58%Z.eqb_eq]. destruct p as [|k]; [lia|]. rewrite Nat.sub_succ Nat.sub_0_r in H58 |- *.
    destruct (split_at 58 a r k ltac:(lia) H58) as (h & ds & -> & <-). rewrite -app_assoc in Hd |- *. cbn [app] in Hd |- *.
    assert (Hth : is_text ds) by (apply Forall_app in Ht as [_ Ht]; by inversion Ht).
    assert (Hds : Forall (fun c => isdigit c = true) ds).
    { apply Forall_lookup. intros j c Hj. pose proof (lookup_lt_Some _ _ _ Hj) as Hjl. rewrite Forall_lookup in Hth.
      rewrite -digit_range; [|by eapply Hth]. specialize (Hd (length h + S j)%nat). rewrite app_nth2_plus length_app /= in Hd.
      rewrite app_nth1 // nth_lookup Hj in Hd. apply Hd. lia. }
    assert (Hrun : ∀ port pt u', u' = set_port port u -> port_text port pt -> h ++ 58 :: ds = h ++ pt ->
      uruns (if (if (hd 0 (h ++ 58 :: ds ++ r) =? 91) && (2 <=? length h)%nat && (nth (length h - 1) (h ++ 58 :: ds ++ r) 0 =? 93)
             then negb (bracket_addr_ok (take (length h) (h ++ 58 :: ds ++ r)) =? 0) else regname_ok (h ++ 58 :: ds ++ r) (length h))
         then store Host (mm_memdup (take (length h) (h ++ 58 :: ds ++ r))) else goto_err) u' e Q).
    { intros port pt u' -> Hpt Heq. apply (uruns_host_end e0 own); [done|done|by rewrite uri_ids_port| |].
      - intros Hok c e' Hc Ho'. by eapply Hs.
      - intros e' _ Ho'. by apply Hn. }
    apply gruns_bind, gruns_bind. rewrite length_app. cbn [length].
    destruct (Nat.eqb_spec (S (length h)) (length h + S (length ds))) as [He|Hne].
    + destruct ds; [|cbn in He; lia]. apply gruns_change, gruns_ret. apply (Hrun (-1) [58]); [done| |done]. by left; auto.
    + apply gruns_bind, gruns_here. replace (length h + S (length ds) - S (length h))%nat with (length ds) by lia.
      rewrite drop_app_cons take_app_length. apply eruns_parse_port; [done|done|by apply (Hbig h)|]. intros Hsmall.
      apply gruns_bind, gruns_change. pose proof (digits_val_mono 0 ds ltac:(done) Hds). rewrite (proj2 (Z.ltb_ge _ 0)) //. apply gruns_ret, gruns_ret.
      apply (Hrun (digits_val 0 ds) (58 :: ds)); [done| |done]. right. exists ds. split_and!; try done. intros ->. cbn in Hne. lia.
  - apply gruns_bind, gruns_ret, (uruns_host_end e0 own); [done|done|done| |intros e' _ Ho'; by apply Hn].
    intros Hok c e' Hc Ho'. rewrite -(set_port_same u) Hp in Ho' |- *. apply (Hs a []); [by rewrite app_nil_r|by left; auto|done|done|done].
Qed.

(** ** The authority *)

Lemma set_str_same f u : uri_str f u = None -> set_str f None u = u.
Proof. destruct u, f; cbn; by intros ->. Qed.

Lemma set_port_str p f s u : set_port p (set_str f s u) = set_str f s (set_port p u).
Proof. by destruct u, f. Qed.

(** The URI with what was found in an authority. *)
Definition with_authority (user : option cstr) (port : Z) (host : cstr) (u : evhttp_uri) : evhttp_uri :=
  set_str Host (Some host) (set_port port (set_str Userinfo user u)).

Lemma uruns_authority e0 own a r u e (Q : option unit -> evhttp_uri -> evenv -> Prop) :
  is_text a -> EVUTIL_ISXDIGIT (hd 0 r) = false -> u_userinfo u = None -> u_host u = None -> u_port u = -1 -> owned e0 (uri_ids u ++ own) e ->
  (∀ pre ds, a = pre ++ 58 :: ds -> Forall (fun c => isdigit c = true) ds -> 2 ^ 31 <= digits_val 0 ds -> big) ->
  (∀ user h pt port c e', a = behind 64 (s_text <$> user) ++ h ++ pt -> port_text port pt -> host_ok h = true -> s_text c = h ->
     (∀ s, s_text <$> user = Some s -> userinfo_ok s = true) ->
     owned e0 (uri_ids (with_authority user port c u) ++ own) e' -> Q (Some tt) (with_authority user port c u) e') ->
  (∀ u' e', owned e0 (uri_ids u' ++ own) e' -> Q None u' e') ->
  uruns (parse_authority (a ++ r) (length a)) u e Q.
Proof.
  intros Ht Hr Huu Huh Hup Ho Hbig Hs Hn. rewrite /parse_authority. destruct (Nat.eqb_spec (length a) 0) as [H0|H0].
  { apply nil_length_inv in H0 as ->. apply (uruns_store e0 own Host _ []); [done|by apply strdup_gives|done| |intros e' _ Ho'; by apply Hn].
    intros c e' Hc Ho'. replace u with (set_port (-1) (set_str Userinfo None u)) in Ho' |- * by (rewrite set_str_same // -Hup; apply set_port_same).
    by apply (Hs None [] []); [|left; auto|..]. }
  assert (Hplain : uruns (parse_host (a ++ r) (length a)) u e Q).
  { apply (uruns_host e0 own); [done..| |done]. intros h pt port c e' -> Hpt Hok Hc Ho'.
    pose proof (Hs None h pt port c e' eq_refl Hpt Hok Hc) as H. rewrite /with_authority set_str_same // in H. by apply H. }
  apply gruns_bind. destruct (list_find (fun c => c = 64) (a ++ r)) as [[k x]|] eqn:Hf; [|exact Hplain].
  destruct (Nat.ltb_spec k (length a)) as [Hk|_]; [|exact Hplain].
  assert (Hat : nth k (a ++ r) 0 = 64).
  { apply list_find_Some in Hf as (Hl & -> & _). by rewrite nth_lookup Hl. }
  destruct (split_at 64 a r k Hk Hat) as (us & b & -> & <-). clear Hat Hf Hplain Hk H0. rewrite -app_assoc take_app_length.
  apply Forall_app in Ht as [Htu Htb]. inversion Htb as [|? ? _ Htb']; subst.
  destruct (userinfo_ok us) eqn:Hok; [|by apply gruns_err, Hn].
  apply gruns_bind, (uruns_store e0 own Userinfo _ us); [done|by apply strdup_gives|done| |intros e' _ Ho'; by apply Hn].
  intros cu e1 Hcu Ho1. apply gruns_ret. cbn [app]. rewrite drop_app_cons length_app. cbn [length].
  replace (length us + S (length b) - S (length us))%nat with (length b) by lia.
  apply (uruns_host e0 own); [done|done|by destruct u|by destruct u|done| | |done].
  - intros pre ds ->. apply (Hbig (us ++ 64 :: pre)). by rewrite -app_assoc.
  - intros h pt port c e' -> Hpt Hh Hc Ho'. apply (Hs (Some cu) h pt port c e'); [|done..| |done].
    + cbn. by rewrite Hcu -app_assoc.
    + cbn. intros s [= <-]. by rewrite Hcu.
Qed.

End uruns.

Definition uri_pieces (u : evhttp_uri) : pieces :=
  Pieces (s_text <$> u_scheme u) (s_text <$> u_userinfo u) (s_text <$> u_host u) (u_port u) (default [] (s_text <$> u_path u))
    (s_text <$> u_query u) (s_text <$> u_fragment u).

(** A text with a port number that is no int. *)
Definition big_port (t : list Z) : Prop :=
  ∃ pre ds post, t = pre ++ 58 :: ds ++ post ∧ Forall (fun c => isdigit c = true) ds ∧ 2 ^ 31 <= digits_val 0 ds.

Section steps.
Context `{inet : InetPton} (big : Prop) (e0 : evenv) (own : list id).

Lemma uruns_scheme t u e (Q : option (list Z * bool) -> evhttp_uri -> evenv -> Prop) :
  is_text t -> u_scheme u = None -> owned e0 (uri_ids u ++ own) e ->
  (∀ sch rest e', t = behind 58 (s_text <$> sch) ++ rest -> (∀ s, s_text <$> sch = Some s -> scheme_ok s = true) ->
     owned e0 (uri_ids (set_str Scheme sch u) ++ own) e' -> Q (Some (rest, bool_decide (is_Some sch))) (set_str Scheme sch u) e') ->
  (∀ e', owned e0 (uri_ids u ++ own) e' -> Q None u e') ->
  gruns (if_big big) (parse_scheme t) u e Q.
Proof.
  intros Ht Hu Ho Hs Hn. rewrite /parse_scheme.
  assert (Hnone : gruns (if_big big) (mret (t, false)) u e Q).
  { apply gruns_ret. pose proof (Hs None t e eq_refl) as H. rewrite set_str_same // in H. by apply H. }
  destruct (list_find (fun c => c = 58) t) as [[k x]|] eqn:Hf; [|exact Hnone].
  destruct (strchr_found _ _ _ _ Hf) as (Heq & Hk & _). destruct (scheme_ok (take k t)) eqn:Hok; [|exact Hnone].
  apply gruns_bind, (uruns_store big e0 own Scheme _ (take k t)); [done|by apply strdup_gives, Forall_take|done| |intros e' _ Ho'; by apply Hn].
  intros c e' Hc Ho'. apply gruns_ret, (Hs (Some c)); [|intros s [= <-]; by rewrite Hc|done].
  cbn. by rewrite Hc -app_assoc.
Qed.

Lemma stop_no_xdigit s : s = [] ∨ hd 0 s ∈ [35; 47; 63] -> EVUTIL_ISXDIGIT (hd 0 s) = false.
Proof. intros [->|H]; [done|]. rewrite !elem_of_cons elem_of_nil in H. by destruct H as [->|[->|[->|[]]]]. Qed.

Lemma uruns_slashes t u e (Q : option (list Z * bool) -> evhttp_uri -> evenv -> Prop) :
  is_text t -> u_userinfo u = None -> u_host u = None -> u_port u = -1 -> owned e0 (uri_ids u ++ own) e -> (big_port t -> big) ->
  (slashes t = false -> Q (Some (t, false)) u e) ->
  (∀ user h pt port c path e', t = 47 :: 47 :: behind 64 (s_text <$> user) ++ h ++ pt ++ path -> port_text port pt ->
     host_ok h = true -> s_text c = h -> (∀ s, s_text <$> user = Some s -> userinfo_ok s = true) ->
     path = [] ∨ hd 0 path ∈ [35; 47; 63] ->
     owned e0 (uri_ids (with_authority user port c u) ++ own) e' -> Q (Some (path, true)) (with_authority user port c u) e') ->
  (∀ u' e', owned e0 (uri_ids u' ++ own) e' -> Q None u' e') ->
  gruns (if_big big) (parse_slashes t) u e Q.
Proof.
  intros Ht Huu Huh Hup Ho Hbig Hs0 Hs Hn. rewrite /parse_slashes. fold (slashes t). destruct (slashes t) eqn:Hsl; [|by apply gruns_ret, Hs0].
  destruct t as [|c1 [|c2 t]]; [done|by rewrite /slashes andb_false_r in Hsl|]. apply andb_true_iff in Hsl as [Hc1%Z.eqb_eq Hc2%Z.eqb_eq].
  cbn [hd tail] in Hc1, Hc2 |- *. subst c1 c2. destruct (end_of_authority_spec t) as (a & Heq & _ & Hr). set (path := end_of_authority t) in *. clearbody path. subst t.
  inversion Ht as [|? ? _ Ht1]; subst. inversion Ht1 as [|? ? _ Ht2]; subst. apply Forall_app in Ht2 as [Hta _].
  rewrite length_app. replace (length a + length path - length path)%nat with (length a) by lia.
  apply gruns_bind, (uruns_authority big e0 own); [done|by apply stop_no_xdigit|done..| | |done].
  - intros pre ds -> Hds Hv. apply Hbig. exists (47 :: 47 :: pre), ds, path. split; [|done]. cbn. by rewrite -app_assoc.
  - intros user h pt port c e' -> Hpt Hh Hc Hus Ho'. apply gruns_ret, (Hs user h pt); try done. by rewrite -!app_assoc.
Qed.

Lemma next_part_spec c s part flags o r :
  next_part c s part flags = (o, r) -> c ≠ 0 -> s = before c o ++ r ∧ (∀ x, o = Some x -> part_ok flags part x).
Proof.
  rewrite /next_part. destruct (Z.eqb_spec (hd 0 s) c) as [Hc|Hc]; [|by intros [= <- <-]]. destruct s as [|y s]; [by cbn in Hc; subst|].
  cbn in Hc. subst y. cbn [tail]. intros [= <- <-] _. destruct (end_of_path_spec s part flags) as (pre & Heq & Hok).
  set (r := end_of_path s part flags) in *. clearbody r. subst s. rewrite between_app. split; [done|by intros x [= <-]].
Qed.

Lemma uruns_store_opt f o u e (Q : option unit -> evhttp_uri -> evenv -> Prop) :
  (∀ s, o = Some s -> is_text s) -> uri_str f u = None -> owned e0 (uri_ids u ++ own) e ->
  (∀ c e', s_text <$> c = o -> owned e0 (uri_ids (set_str f c u) ++ own) e' -> Q (Some tt) (set_str f c u) e') ->
  (∀ e', ev_oom e0 ≠ [] -> owned e0 (uri_ids u ++ own) e' -> Q None u e') ->
  gruns (if_big big) (store_opt f o) u e Q.
Proof.
  intros Ht Hu Ho Hs Hn. destruct o as [s|]; cbn [store_opt].
  - apply (uruns_store big e0 own f _ s); [done|by apply strdup_gives, Ht|done| |done]. intros c e' Hc Ho'. apply (Hs (Some c)); [|done]. cbn. by rewrite Hc.
  - apply gruns_ret. pose proof (Hs None e eq_refl) as H. rewrite set_str_same // in H. by apply H.
Qed.

(** The URI with the last three parts. *)
Definition with_rest (path : cstr) (query fragment : option cstr) (u : evhttp_uri) : evhttp_uri :=
  set_str Fragment fragment (set_str Query query (set_str Path (Some path) u)).

Lemma uruns_store_rest path q f u e (Q : option unit -> evhttp_uri -> evenv -> Prop) :
  is_text path -> (∀ s, q = Some s -> is_text s) -> (∀ s, f = Some s -> is_text s) ->
  u_path u = None -> u_query u = None -> u_fragment u = None -> owned e0 (uri_ids u ++ own) e ->
  (∀ cp cq cf e', s_text cp = path -> s_text <$> cq = q -> s_text <$> cf = f ->
     owned e0 (uri_ids (with_rest cp cq cf u) ++ own) e' -> Q (Some tt) (with_rest cp cq cf u) e') ->
  (∀ u' e', ev_oom e0 ≠ [] -> owned e0 (uri_ids u' ++ own) e' -> Q None u' e') ->
  gruns (if_big big) (_ ← store Path (mm_strdup path); _ ← store_opt Query q; store_opt Fragment f) u e Q.
Proof.
  intros Htp Htq Htf Hp Hq Hf Ho Hs Hn.
  apply gruns_bind, (uruns_store big e0 own Path _ path); [done|by apply strdup_gives|done| |by apply Hn]. intros cp e1 Hcp Ho1.
  apply gruns_bind, uruns_store_opt; [done|by destruct u|done| |by apply Hn]. intros cq e2 Hcq Ho2.
  apply uruns_store_opt; [done|by destruct u|done| |by apply Hn]. intros cf e3 Hcf Ho3. by apply Hs.
Qed.

Lemma uruns_rest t gs ga u e (Q : option unit -> evhttp_uri -> evenv -> Prop) :
  is_text t -> u_path u = None -> u_query u = None -> u_fragment u = None -> owned e0 (uri_ids u ++ own) e ->
  (∀ cp cq cf e', let u' := with_rest cp cq cf u in
     t = s_text cp ++ before 63 (s_text <$> cq) ++ before 35 (s_text <$> cf) ->
     part_ok (u_flags u) PART_PATH (s_text cp) -> (∀ s, s_text <$> cq = Some s -> part_ok (u_flags u) PART_QUERY s) ->
     (∀ s, s_text <$> cf = Some s -> part_ok (u_flags u) PART_FRAGMENT s) ->
     (ga = false -> slashes (s_text cp) = false) -> (ga = true -> s_text cp = [] ∨ hd 0 (s_text cp) = 47) ->
     (gs = false -> path_matches_noscheme (s_text cp) = true) -> owned e0 (uri_ids u' ++ own) e' -> Q (Some tt) u' e') ->
  (∀ u' e', owned e0 (uri_ids u' ++ own) e' -> Q None u' e') ->
  gruns (if_big big) (parse_rest t gs ga) u e Q.
Proof.
  intros Ht Hp Hq Hf Ho Hs Hn. apply gruns_bind, gruns_look. cbv zeta.
  destruct (end_of_path_spec t PART_PATH (u_flags u)) as (path & Heq & Hok). set (r1 := end_of_path t PART_PATH (u_flags u)) in *.
  clearbody r1. subst t. rewrite between_app. destruct (next_part 63 r1 PART_QUERY (u_flags u)) as [q r2] eqn:Hnq.
  destruct (next_part_spec _ _ _ _ _ _ Hnq) as [-> Hq1]; [done|].
  destruct (next_part 35 r2 PART_FRAGMENT (u_flags u)) as [f r3] eqn:Hnf. destruct (next_part_spec _ _ _ _ _ _ Hnf) as [-> Hf1]; [done|].
  case_bool_decide as Hr3; cbn [negb]; [subst r3|by apply gruns_err, Hn]. rewrite app_nil_r in Ht, Hs |- *.
  fold (slashes path). apply Forall_app in Ht as [Htp [Htq Htf]%Forall_app].
  assert (Htq' : ∀ s, q = Some s -> is_text s) by (intros s ->; by inversion Htq).
  assert (Htf' : ∀ s, f = Some s -> is_text s) by (intros s ->; by inversion Htf).
  destruct (negb ga && slashes path) eqn:H1; [by apply gruns_err, Hn|].
  destruct (ga && (negb (hd 0 path =? 47) && negb (hd 0 path =? 0))) eqn:H2; [by apply gruns_err, Hn|].
  destruct (negb gs && negb (path_matches_noscheme path)) eqn:H3; [by apply gruns_err, Hn|].
  apply uruns_store_rest; try done; [|intros u' e' _; apply Hn]. intros cp cq cf e' Hcp Hcq Hcf Ho'. rewrite -Hcp -Hcq -Hcf in Hs |- *. subst path q f.
  apply Hs; try done.
  - intros ->. done.
  - intros ->. cbn [andb] in H2. destruct (Z.eqb_spec (hd 0 (s_text cp)) 47); [by right|]. destruct (Z.eqb_spec (hd 0 (s_text cp)) 0) as [H0|]; [|done].
    left. destruct (s_text cp) as [|c s]; [done|]. inversion Htp as [|? ? Hc _]; subst. rewrite /is_char in Hc. cbn in H0. lia.
  - intros ->. by destruct (path_matches_noscheme (s_text cp)).
Qed.

End steps.

(** ** The whole text *)

Lemma port_text_range port pt : port_text port pt -> -1 <= port < 2 ^ 31.
Proof.
  intros [[-> _]|(ds & _ & _ & Hd & <- & Hlt)]; [lia|]. pose proof (digits_val_mono 0 ds ltac:(lia) Hd). lia.
Qed.

Lemma behind_text c o s : is_text (behind c o ++ s) -> (∀ x, o = Some x -> is_text x) ∧ is_text s.
Proof. intros [H1 H2]%Forall_app. split; [|done]. intros x ->. by apply Forall_app in H1 as [H1 _]. Qed.

Lemma before_text c o s : is_text (before c o ++ s) -> (∀ x, o = Some x -> is_text x) ∧ is_text s.
Proof. intros [H1 H2]%Forall_app. split; [|done]. intros x ->. by inversion H1. Qed.

Lemma rest_text path q f :
  is_text (path ++ before 63 q ++ before 35 f) -> is_text path ∧ (∀ s, q = Some s -> is_text s) ∧ (∀ s, f = Some s -> is_text s).
Proof.
  intros [Hp [Hq Hf]%before_text]%Forall_app. split_and!; [done|done|]. rewrite -(app_nil_r (before 35 f)) in Hf. by apply before_text in Hf as [Hf _].
Qed.

Lemma valid_spelled `{inet : InetPton} t flags p port :
  is_text t -> t = uri_text p port -> port_text (p_port p) port ->
  (∀ s, p_scheme p = Some s -> scheme_ok s = true) -> (p_scheme p = None -> path_matches_noscheme (p_path p) = true) ->
  match p_host p with
  | Some h => host_ok h = true ∧ (∀ s, p_userinfo p = Some s -> userinfo_ok s = true) ∧ (p_path p = [] ∨ hd 0 (p_path p) = 47)
  | None => p_userinfo p = None ∧ p_port p = -1 ∧ slashes (p_path p) = false
  end ->
  part_ok flags PART_PATH (p_path p) -> (∀ s, p_query p = Some s -> part_ok flags PART_QUERY s) ->
  (∀ s, p_fragment p = Some s -> part_ok flags PART_FRAGMENT s) -> checked_uri flags p.
Proof.
  intros Ht -> Hport Hs Hns Ha Hp Hq Hf. apply behind_text in Ht as [Hts [Hta Htr]%Forall_app]. apply rest_text in Htr as (Htp & Htq & Htf).
  split; try done.
  - intros s H. split; [by apply Hts|by apply Hs].
  - rewrite /authority_ok. rewrite /authority_text in Hta. destruct (p_host p) as [h|]; [|done]. destruct Ha as (Hh & Hu & Hpp).
    inversion Hta as [|? ? _ Hta1]; subst. inversion Hta1 as [|? ? _ Hta2]; subst.
    apply behind_text in Hta2 as [Htu [Hth _]%Forall_app]. split_and!; try done.
    + intros s H. split; [by apply Htu|by apply Hu].
    + by eapply port_text_range.
    + by eapply port_text_range.
  - intros s H. split; [by apply Htq|by apply Hq].
  - intros s H. split; [by apply Htf|by apply Hf].
Qed.

Lemma big_port_app pre t : big_port t -> big_port (pre ++ t).
Proof. intros (a & ds & b & -> & H). exists (pre ++ a), ds, b. split; [by rewrite -app_assoc|done]. Qed.

Lemma uruns_parts `{inet : InetPton} e0 own t i flags e (Q : option unit -> evhttp_uri -> evenv -> Prop) :
  let u := Uri i flags None None None (-1) None None None in
  is_text t -> owned e0 (uri_ids u ++ own) e ->
  (∀ u' e', u_flags u' = flags -> checked_uri flags (uri_pieces u') -> spells t (uri_pieces u') -> owned e0 (uri_ids u' ++ own) e' -> Q (Some tt) u' e') ->
  (∀ u' e', owned e0 (uri_ids u' ++ own) e' -> Q None u' e') ->
  gruns (if_big (big_port t)) (parse_parts t) u e Q.
Proof.
  intros u Ht Ho Hs Hn. apply gruns_bind, (uruns_scheme _ e0 own); [done|done|done| |intros e' Ho'; by apply Hn].
  intros sch rest e1 Heq Hsch Ho1. assert (Htr : is_text rest) by (rewrite Heq in Ht; by apply behind_text in Ht as [_ Ht]).
  apply gruns_bind, (uruns_slashes _ e0 own); [done|done|done|done|done| | | |done].
  - intros Hbig. rewrite Heq. by apply big_port_app.
  - intros Hsl. apply (uruns_rest _ e0 own); [done|done|done|done|done| |done]. intros cp cq cf e2 u' Hrest Hp Hq Hf Hga _ Hgs Ho2.
    assert (Htext : t = uri_text (uri_pieces u') []) by (by rewrite Heq /u'; destruct sch; rewrite Hrest).
    apply Hs; [done| |exists []; split; [by left; auto|done]|done].
    eapply (valid_spelled t flags _ []); [done|done|by left; auto|done| |cbn; auto|done|done|done]. intros Hnone. apply Hgs. by destruct sch.
  - intros user h pt port c path e2 Hrest Hpt Hh Hc Hus _ Ho2. subst h. assert (Htp : is_text path).
    { rewrite Hrest in Htr. inversion Htr as [|? ? _ Ht1]; subst. inversion Ht1 as [|? ? _ Ht2]; subst.
      apply behind_text in Ht2 as [_ [_ [_ Ht3]%Forall_app]%Forall_app]. done. }
    apply (uruns_rest _ e0 own); [done|done|done|done|done| |done]. intros cp cq cf e3 u' Hpath Hp Hq Hf _ Hga Hgs Ho3.
    assert (Htext : t = uri_text (uri_pieces u') pt).
    { rewrite Heq Hrest Hpath /uri_text /authority_text /u' /=. by rewrite -!app_assoc. }
    apply Hs; [done| |by exists pt|done].
    eapply (valid_spelled t flags _ pt); [done|done|done|done| |cbn; auto|done|done|done]. intros Hnone. apply Hgs. by destruct sch.
Qed.

(** What the caller gets, and what is left on the heap. *)
Lemma eruns_parse `{inet : InetPton} t flags e :
  is_text t ->
  eruns (if_big (big_port t)) (evhttp_uri_parse_with_flags t flags) e (fun r e' =>
    match r with
    | Some u => owned e (uri_ids u) e' ∧ u_flags u = flags ∧ valid_uri flags (uri_pieces u) ∧ spells t (uri_pieces u)
    | None => owned e [] e'
    end).
Proof.
  intros Ht. rewrite /evhttp_uri_parse_with_flags /evhttp_uri_new. apply eruns_bind, eruns_bind, runs_eruns, (runs_malloc e []); [apply owned_nothing| |done].
  intros i e1 Ho1. apply runs_eruns, runs_ret. apply eruns_bind, runs_eruns. eapply strdup_gives; [done|exact Ho1| |].
  2: { intros e2 _ Ho2. apply eruns_bind, runs_eruns, (runs_uri_free e _ []); [by rewrite app_nil_r|]. by intros e3 Ho3. }
  intros c e2 Hc Ho2. rewrite Hc. apply eruns_bind, gruns_eruns, (uruns_parts e [s_id c]); [done|by eapply owned_perm; [|exact Ho2]; apply (Permutation_app_comm [s_id c])| |].
  - intros u e3 Hfl Hv%valid_checked Hsp Ho3. apply eruns_bind, runs_eruns, (runs_free e _ (uri_ids u)).
    { eapply owned_perm; [|exact Ho3]. by rewrite Permutation_app_comm. }
    intros e4 Ho4. by apply runs_eruns, runs_ret.
  - intros u e3 Ho3. apply eruns_bind, runs_eruns, (runs_uri_free e _ [s_id c]); [done|]. intros e4 Ho4.
    apply eruns_bind, runs_eruns, (runs_free e _ []); [done|]. intros e5 Ho5. by apply runs_eruns, runs_ret.
Qed.

Section complete.
Context `{inet : InetPton} (e0 : evenv) (own : list id) (Hmem : ev_oom e0 = []).
Abbreviation uruns := (gruns (if_big False)).

Lemma uruns_store_ok f m t u e (Q : option unit -> evhttp_uri -> evenv -> Prop) :
  uri_str f u = None -> gives_str m t -> owned e0 (uri_ids u ++ own) e ->
  (∀ c e', s_text c = t -> owned e0 (uri_ids (set_str f (Some c) u) ++ own) e' -> Q (Some tt) (set_str f (Some c) u) e') ->
  uruns (store f m) u e Q.
Proof. intros Hu Hm Ho Hs. by apply (uruns_store False e0 own f m t). Qed.

(** ** The host and the port *)

Lemma digits_digit ds : is_text ds -> Forall (fun c => isdigit c = true) ds -> Forall (fun c => EVUTIL_ISDIGIT c = true) ds.
Proof. intros Ht Hd. rewrite !Forall_forall in Ht, Hd |- *. intros c Hc. rewrite digit_range; [by apply Hd|by apply Ht]. Qed.

Lemma uruns_host_spelled h pt port r u e (Q : option unit -> evhttp_uri -> evenv -> Prop) :
  is_text h -> is_text pt -> host_ok h = true -> port_text port pt -> EVUTIL_ISXDIGIT (hd 0 r) = false ->
  u_host u = None -> u_port u = -1 -> owned e0 (uri_ids u ++ own) e ->
  (∀ c e', s_text c = h -> owned e0 (uri_ids (set_str Host (Some c) (set_port port u)) ++ own) e' -> Q (Some tt) (set_str Host (Some c) (set_port port u)) e') ->
  uruns (parse_host (h ++ pt ++ r) (length (h ++ pt))) u e Q.
Proof.
  intros Hth Htp Hok Hpt Hr Hu Hup Ho Hs. rewrite /parse_host.
  assert (Hend : ∀ r, EVUTIL_ISXDIGIT (hd 0 r) = false ->
    uruns (if (if (hd 0 (h ++ r) =? 91) && (2 <=? length h)%nat && (nth (length h - 1) (h ++ r) 0 =? 93)
             then negb (bracket_addr_ok (take (length h) (h ++ r)) =? 0) else regname_ok (h ++ r) (length h))
         then store Host (mm_memdup (take (length h) (h ++ r))) else goto_err) (set_port port u) e Q).
  { intros r' Hr'. apply (uruns_host_end False e0 own); [done|done|done| |].
    - intros _ c e' Hc Ho'. by apply Hs.
    - intros e' [Hno|Hno]; congruence. }
  destruct Hpt as [[-> [->| ->]]|(ds & -> & Hne & Hds & Hv & Hlt)].
  - rewrite app_nil_r app_nil_l back_over_host //. apply gruns_bind, gruns_ret. rewrite -(set_port_same u) Hup. by apply Hend.
  - cbn [app]. rewrite (length_app h) (back_over_digits_app h 58 [] r) //. cbn [length].
    rewrite Nat.sub_succ Nat.sub_0_r nth_middle Z.eqb_refl Nat.add_1_r Nat.eqb_refl. apply gruns_bind, gruns_bind, gruns_change, gruns_ret. by apply Hend.
  - cbn [app]. inversion Htp as [|? ? _ Htd]; subst. rewrite (length_app h) (back_over_digits_app h 58 ds r) //; [|by apply digits_digit].
    cbn [length]. rewrite Nat.sub_succ Nat.sub_0_r nth_middle Z.eqb_refl. cbn [Nat.ltb Nat.leb andb].
    destruct (Nat.eqb_spec (S (length h)) (length h + S (length ds))) as [He|_]; [by destruct ds; [|cbn in He; lia]|].
    apply gruns_bind, gruns_bind, gruns_bind, gruns_here. replace (length h + S (length ds) - S (length h))%nat with (length ds) by lia.
    rewrite drop_app_cons take_app_length. apply eruns_parse_port; [done|done|lia|]. intros _. apply gruns_bind, gruns_change.
    pose proof (digits_val_mono 0 ds ltac:(done) Hds). rewrite (proj2 (Z.ltb_ge _ 0)) //. apply gruns_ret, gruns_ret. by apply Hend.
Qed.

Lemma port_text_chars port pt : is_text pt -> port_text port pt -> no_delim pt.
Proof.
  intros Ht [[_ [->| ->]]|(ds & -> & _ & Hd & _)]; [constructor|by repeat constructor|]. constructor; [done|].
  by eapply Forall_impl, isdigit_delim.
Qed.

Lemma uruns_authority_spelled ui h pt port r u e (Q : option unit -> evhttp_uri -> evenv -> Prop) :
  is_text h -> is_text pt -> host_ok h = true -> port_text port pt -> (∀ s, ui = Some s -> is_text s ∧ userinfo_ok s = true) ->
  EVUTIL_ISXDIGIT (hd 0 r) = false -> u_userinfo u = None -> u_host u = None -> u_port u = -1 -> owned e0 (uri_ids u ++ own) e ->
  (∀ user c e', s_text <$> user = ui -> s_text c = h -> owned e0 (uri_ids (with_authority user port c u) ++ own) e' ->
     Q (Some tt) (with_authority user port c u) e') ->
  let a := behind 64 ui ++ h ++ pt in
  uruns (parse_authority (a ++ r) (length a)) u e Q.
Proof.
  intros Hth Htp Hok Hpt Hui Hr Huu Huh Hup Ho Hs a. rewrite /parse_authority. destruct (Nat.eqb_spec (length a) 0) as [H0|H0].
  { apply nil_length_inv in H0. rewrite /a in H0. destruct ui as [s|]; [by destruct s|]. cbn [behind app] in H0. apply app_nil in H0 as [-> ->].
    apply (uruns_store_ok Host _ []); [done|by apply strdup_gives|done|]. intros c e' Hc Ho'.
    replace u with (set_port (-1) (set_str Userinfo None u)) in Ho' |- * by (rewrite set_str_same // -Hup; apply set_port_same).
    destruct Hpt as [[-> _]|(ds & Hds & _)]; [|done]. by apply (Hs None). }
  pose proof (host_ok_delim h Hth Hok) as Hdh. pose proof (port_text_chars port pt Htp Hpt) as Hdp. apply gruns_bind.
  destruct ui as [s|]; rewrite /a; cbn [behind].
  - destruct (Hui s eq_refl) as [Hts Hus]. rewrite -!app_assoc. cbn [app]. rewrite strchr_app; [|by apply no_delim_at, userinfo_ok_delim].
    rewrite !(length_app s). cbn [length]. destruct (Nat.ltb_spec (length s) (length s + S (length (h ++ pt)))) as [_|Hbad]; [|lia].
    rewrite take_app_length Hus. apply gruns_bind, (uruns_store_ok Userinfo _ s); [done|by apply strdup_gives|done|]. intros cu e1 Hcu Ho1.
    apply gruns_ret. rewrite drop_app_cons. replace (length s + S (length (h ++ pt)) - S (length s))%nat with (length (h ++ pt)) by lia.
    apply (uruns_host_spelled h pt port); [done|done|done|done|done|by destruct u|by destruct u|done|]. intros c e' Hc Ho'. apply (Hs (Some cu)); [cbn; by rewrite Hcu|done|done].
  - assert (Hhost : uruns (parse_host (h ++ pt ++ r) (length (h ++ pt))) u e Q).
    { apply (uruns_host_spelled h pt port); try done. intros c e' Hc Ho'.
      pose proof (Hs None c e' eq_refl Hc) as H. rewrite /with_authority set_str_same // in H. by apply H. }
    rewrite app_nil_l -app_assoc. destruct (list_find (fun c => c = 64) (h ++ pt ++ r)) as [[k x]|] eqn:Hf; [|exact Hhost].
    destruct (Nat.ltb_spec k (length (h ++ pt))) as [Hk|_]; [|exact Hhost]. exfalso. apply list_find_Some in Hf as (Hl & -> & _).
    rewrite app_assoc lookup_app_l // in Hl. assert (Hall : Forall (fun c => c ≠ 64) (h ++ pt)) by (apply no_delim_at, Forall_app; done).
    rewrite Forall_lookup in Hall. by apply (Hall k 64).
Qed.

(** ** The scheme *)

Definition starts (r : list Z) (cs : list Z) : Prop := r = [] ∨ hd 0 r ∈ cs.

Lemma query_starts q f : starts (before 63 q ++ before 35 f) [63; 35].
Proof. destruct q; [right|destruct f; [right|by left]]; cbn; rewrite !elem_of_cons; auto. Qed.

(** A colon in front of which a scheme could stand is one of the path. *)
Lemma no_scheme_in path r pre t :
  path_matches_noscheme path = true -> starts r [63; 35] -> path ++ r = pre ++ 58 :: t -> Forall (fun c => special c = false) pre -> False.
Proof.
  revert pre. induction path as [|c path IH]; intros pre Hp Hr Heq Hpre.
  - cbn in Heq. subst r. destruct Hr as [Hr|Hr]; [by destruct pre|]. destruct pre as [|y pre]; cbn in Hr.
    + rewrite !elem_of_cons elem_of_nil in Hr. by destruct Hr as [?|[?|[]]].
    + inversion Hpre as [|? ? Hy _]; subst. rewrite !elem_of_cons elem_of_nil in Hr. by destruct Hr as [->|[->|[]]].
  - cbn in Hp. destruct (Z.eqb_spec c 58) as [|Hc]; [done|]. destruct pre as [|y pre]; [by injection Heq as -> _|].
    injection Heq as <- Heq. inversion Hpre as [|? ? Hy Hpre']; subst. destruct (Z.eqb_spec c 47) as [->|]; [done|]. by eapply IH.
Qed.

Lemma uruns_scheme_spelled sch rest u e (Q : option (list Z * bool) -> evhttp_uri -> evenv -> Prop) :
  (∀ s, sch = Some s -> is_text s ∧ scheme_ok s = true) -> is_text rest ->
  (sch = None -> ∀ pre t, rest = pre ++ 58 :: t -> scheme_ok pre = true -> False) ->
  u_scheme u = None -> owned e0 (uri_ids u ++ own) e ->
  (∀ c e', s_text <$> c = sch -> owned e0 (uri_ids (set_str Scheme c u) ++ own) e' ->
     Q (Some (rest, bool_decide (is_Some sch))) (set_str Scheme c u) e') ->
  uruns (parse_scheme (behind 58 sch ++ rest)) u e Q.
Proof.
  intros Hsch Htr Hno Hu Ho Hs. rewrite /parse_scheme. destruct sch as [s|]; cbn [behind app].
  - destruct (Hsch s eq_refl) as [Hts Hok]. destruct (scheme_ok_special s Hts Hok) as [_ Hsp]. rewrite -app_assoc. cbn [app].
    rewrite strchr_app; [|eapply Forall_impl; [exact Hsp|]; by intros c Hc ->]. rewrite take_app_length Hok drop_app_cons.
    apply gruns_bind, (uruns_store_ok Scheme _ s); [done|by apply strdup_gives|done|]. intros c e' Hc Ho'. apply gruns_ret, (Hs (Some c)); [cbn; by rewrite Hc|done].
  - assert (Hnone : uruns (mret (rest, false)) u e Q).
    { apply gruns_ret. pose proof (Hs None e eq_refl) as H. rewrite set_str_same // in H. by apply H. }
    destruct (list_find (fun c => c = 58) rest) as [[k x]|] eqn:Hf; [|exact Hnone].
    destruct (strchr_found _ _ _ _ Hf) as (Heq & _ & _). destruct (scheme_ok (take k rest)) eqn:Hok; [|exact Hnone].
    by destruct (Hno eq_refl _ _ Heq).
Qed.

(** ** The rest *)

Lemma next_part_some c s r part flags : part_ok flags part s -> stops part r -> next_part c (c :: s ++ r) part flags = (Some s, r).
Proof. intros Hok Hr. by rewrite /next_part Z.eqb_refl /= end_of_path_app // between_app. Qed.

Lemma next_part_query q f flags :
  (∀ s, q = Some s -> part_ok flags PART_QUERY s) -> next_part 63 (before 63 q ++ before 35 f) PART_QUERY flags = (q, before 35 f).
Proof.
  intros Hq. destruct q as [s|]; [|by destruct f]. apply next_part_some; [by apply Hq|]. destruct f; [by right|by left].
Qed.

Lemma next_part_fragment f flags :
  (∀ s, f = Some s -> part_ok flags PART_FRAGMENT s) -> next_part 35 (before 35 f) PART_FRAGMENT flags = (f, []).
Proof.
  intros Hf. destruct f as [s|]; [|done]. cbn [before]. rewrite -{1}(app_nil_r s). apply next_part_some; [by apply Hf|done].
Qed.

Lemma uruns_rest_spelled path q f gs ga u e (Q : option unit -> evhttp_uri -> evenv -> Prop) :
  is_text path ∧ part_ok (u_flags u) PART_PATH path -> (∀ s, q = Some s -> is_text s ∧ part_ok (u_flags u) PART_QUERY s) ->
  (∀ s, f = Some s -> is_text s ∧ part_ok (u_flags u) PART_FRAGMENT s) ->
  (if ga : bool then path = [] ∨ hd 0 path = 47 else slashes path = false) -> (gs = false -> path_matches_noscheme path = true) ->
  u_path u = None -> u_query u = None -> u_fragment u = None -> owned e0 (uri_ids u ++ own) e ->
  (∀ cp cq cf e', s_text cp = path -> s_text <$> cq = q -> s_text <$> cf = f ->
     owned e0 (uri_ids (with_rest cp cq cf u) ++ own) e' -> Q (Some tt) (with_rest cp cq cf u) e') ->
  uruns (parse_rest (path ++ before 63 q ++ before 35 f) gs ga) u e Q.
Proof.
  intros [Htp Hp] Hq Hf Hga Hgs Hup Huq Huf Ho Hs. apply gruns_bind, gruns_look. cbv zeta.
  assert (Hstop : stops PART_PATH (before 63 q ++ before 35 f)).
  { destruct (query_starts q f) as [->|H]; [by left|]. right. rewrite !elem_of_cons elem_of_nil in H. tauto. }
  rewrite end_of_path_app // between_app next_part_query; [|by intros s H; apply Hq]. rewrite next_part_fragment; [|by intros s H; apply Hf].
  rewrite bool_decide_true //. cbn [negb]. fold (slashes path).
  assert (H1 : negb ga && slashes path = false) by (destruct ga; [done|by rewrite Hga]). rewrite H1.
  assert (H2 : ga && (negb (hd 0 path =? 47) && negb (hd 0 path =? 0)) = false) by (destruct ga; [|done]; by destruct Hga as [-> | ->]). rewrite H2.
  assert (H3 : negb gs && negb (path_matches_noscheme path) = false) by (destruct gs; [done|by rewrite Hgs]). rewrite H3.
  apply (uruns_store_rest False e0 own); try done; [by intros s H; apply Hq|by intros s H; apply Hf].
Qed.

(** ** The whole text *)

Lemma slashes_app path r : slashes path = false -> starts r [63; 35] -> slashes (path ++ r) = false.
Proof.
  rewrite /slashes. intros Hs Hr. assert (Hhd : (hd 0 r =? 47) = false).
  { destruct Hr as [->|Hr]; [done|]. rewrite !elem_of_cons elem_of_nil in Hr. by destruct Hr as [->|[->|[]]]. }
  destruct path as [|c [|d path]]; cbn in Hs |- *; [by rewrite Hhd|by rewrite Hhd andb_false_r|done].
Qed.

Lemma uruns_parts_spelled p pt t i flags e (Q : option unit -> evhttp_uri -> evenv -> Prop) :
  let u := Uri i flags None None None (-1) None None None in
  is_text t -> checked_uri flags p -> port_text (p_port p) pt -> t = uri_text p pt -> owned e0 (uri_ids u ++ own) e ->
  (∀ u' e', uri_pieces u' = p -> u_flags u' = flags -> owned e0 (uri_ids u' ++ own) e' -> Q (Some tt) u' e') ->
  uruns (parse_parts t) u e Q.
Proof.
  intros u Ht Hv Hpt -> Ho Hs. pose proof Hv as [Hsch Hns Ha Hp Hq Hf]. pose proof (query_starts (p_query p) (p_fragment p)) as Hst.
  apply behind_text in Ht as [_ Htr]. apply gruns_bind, uruns_scheme_spelled; [done|done| |done|done|].
  { intros Hnone pre t Heq Hok. assert (Htp : is_text pre) by (rewrite Heq in Htr; by apply Forall_app in Htr as [Htr _]).
    destruct (scheme_ok_special pre Htp Hok) as [Hne Hsp]. rewrite /authority_text in Heq. destruct (p_host p) as [h|].
    - destruct pre as [|c pre]; [done|]. injection Heq as <- _. by inversion Hsp.
    - cbn in Heq. eapply no_scheme_in; [by apply Hns|exact Hst|exact Heq|done]. }
  intros cs e1 Hcs Ho1. apply gruns_bind. rewrite /authority_text in Htr |- *. rewrite /authority_ok in Ha.
  assert (Hgs : bool_decide (is_Some (p_scheme p)) = false -> path_matches_noscheme (p_path p) = true).
  { rewrite bool_decide_eq_false. intros Hno. apply Hns. destruct (p_scheme p); [destruct Hno; by eexists|done]. }
  rewrite /parse_slashes. destruct (p_host p) as [h|] eqn:Hhost.
  - destruct Ha as (Hth & Hok & Hus & _ & Hpath). cbn [app hd tail Z.eqb Pos.eqb andb]. set (r := p_path p ++ _) in *.
    assert (Hr : r = [] ∨ hd 0 r ∈ [35; 47; 63]).
    { rewrite /r. destruct Hpath as [->|H47]; [cbn; destruct Hst as [?|H]; [by left|right]; rewrite !elem_of_cons elem_of_nil in H |- *; tauto|].
      right. destruct (p_path p) as [|c path]; [done|]. cbn in H47 |- *. subst c. rewrite !elem_of_cons. auto. }
    inversion Htr as [|? ? _ Ht1]; subst. inversion Ht1 as [|? ? _ Ht2]; subst. apply Forall_app in Ht2 as [Hta _].
    apply behind_text in Hta as [Htu [_ Htpt]%Forall_app].
    assert (Hin : Forall (fun c => c ≠ 35 ∧ c ≠ 47 ∧ c ≠ 63) (behind 64 (p_userinfo p) ++ h ++ pt)).
    { rewrite !Forall_app. split_and!; [|by apply no_delim_inside, host_ok_delim|by eapply no_delim_inside, port_text_chars].
      destruct (p_userinfo p) as [s|]; [|constructor]. destruct (Hus s eq_refl) as [Hts Hok']. apply Forall_app.
      split; [by apply no_delim_inside, userinfo_ok_delim|by repeat constructor]. }
    rewrite end_of_authority_app // length_app. set (a := behind 64 (p_userinfo p) ++ h ++ pt) in *.
    replace (length a + length r - length r)%nat with (length a) by lia.
    apply gruns_bind, (uruns_authority_spelled (p_userinfo p) h pt (p_port p)); [done|done|done|done|done|by apply stop_no_xdigit|done..|].
    intros user ch e2 Huser Hch Ho2. apply gruns_ret. apply uruns_rest_spelled; try done.
    intros cp cq cf e3 Hcp Hcq Hcf Ho3. apply Hs; [|done|done]. rewrite /uri_pieces. clear -Hcs Huser Hch Hcp Hcq Hcf Hhost. destruct p. cbn in *. congruence.
  - destruct Ha as (Hui & Hport & Hsl). cbn [app]. fold (slashes (p_path p ++ before 63 (p_query p) ++ before 35 (p_fragment p))).
    rewrite slashes_app //. apply gruns_ret, uruns_rest_spelled; try done.
    intros cp cq cf e3 Hcp Hcq Hcf Ho3. apply Hs; [|done|done]. rewrite /uri_pieces. clear -Hcs Hcp Hcq Hcf Hhost Hport Hui. destruct p. cbn in *. congruence.
Qed.

End complete.

Lemma runs_parse_spelled `{inet : InetPton} t flags p e :
  is_text t -> ev_oom e = [] -> valid_uri flags p -> spells t p ->
  runs (evhttp_uri_parse_with_flags t flags) e (fun r e' => ∃ u, r = Some u ∧ uri_pieces u = p ∧ u_flags u = flags ∧ owned e (uri_ids u) e').
Proof.
  intros Ht Hmem Hv%valid_checked (pt & Hpt & Heq). apply runs_eruns_false.
  rewrite /evhttp_uri_parse_with_flags /evhttp_uri_new. apply eruns_bind, eruns_bind, runs_eruns, (runs_malloc e []); [apply owned_nothing| |done].
  intros i e1 Ho1. apply runs_eruns, runs_ret. apply eruns_bind, runs_eruns. eapply strdup_gives; [done|exact Ho1| |done].
  intros c e2 Hc Ho2. rewrite Hc. apply eruns_bind, gruns_eruns.
  apply (uruns_parts_spelled e [s_id c] Hmem p pt); [done|done|done|done|by eapply owned_perm; [|exact Ho2]; apply (Permutation_app_comm [s_id c])|].
  intros u e3 Hu Hfl Ho3. apply eruns_bind, runs_eruns, (runs_free e _ (uri_ids u)).
  { eapply owned_perm; [|exact Ho3]. by rewrite Permutation_app_comm. }
  intros e4 Ho4. apply runs_eruns, runs_ret. exists u. split_and!; try done.
Qed.

Section texts.
Context `{inet : InetPton} (holds : evbuffer -> list mbyte -> evenv -> Prop) `{!ByteBuffer holds, !PrintBuffer holds, !NewBuffer holds}.

(** The buffer holds a text. *)
Definition filled (b : evbuffer) (t : list Z) (e : evenv) : Prop := holds b (Some <$> t) e.

Definition short (t : list Z) : Prop := Z.of_nat (length t) < 2 ^ 31 - 1.

Lemma runs_new_text e (Q : option evbuffer -> evenv -> Prop) :
  ev_oom e = [] -> (∀ b e', filled b [] e' -> Q (Some b) e') -> runs evbuffer_new e Q.
Proof. intros Hm HQ. rewrite /runs /evbuffer_new /mbind /E_bind /mm_malloc Hm. apply HQ. by apply nb_new. Qed.

Lemma runs_put b t s e (Q : evbuffer -> evenv -> Prop) :
  filled b t e -> Z.of_nat (length (t ++ s)) < 2 ^ 62 -> (∀ b' e', filled b' (t ++ s) e' -> Q b' e') -> runs (put b s) e Q.
Proof.
  intros Hb Hlen HQ. apply runs_bind, (bb_add b (Some <$> t)); [done| |].
  - rewrite !length_fmap. rewrite length_app in Hlen. lia.
  - intros b' e' Hb' _. apply runs_ret, HQ. by rewrite /filled fmap_app.
Qed.

Lemma runs_putf b t s e (Q : evbuffer -> evenv -> Prop) :
  filled b t e -> s ≠ [] -> short s -> Z.of_nat (length (t ++ s)) < 2 ^ 62 -> (∀ b' e', filled b' (t ++ s) e' -> Q b' e') -> runs (putf b s) e Q.
Proof.
  intros Hb Hne Hs Hlen HQ. apply runs_bind, (pb_printf b (Some <$> t)); [done|by destruct s|by rewrite length_fmap| |].
  - rewrite !length_fmap. rewrite length_app in Hlen. lia.
  - intros b' e' Hb' _. apply runs_ret, HQ. by rewrite /filled fmap_app.
Qed.

Lemma filled_frame b t e e' : filled b t e -> goes_on e e' -> filled b t e'.
Proof. exact (bb_frame b (Some <$> t) e e'). Qed.

Lemma filled_memory b t e : filled b t e -> ev_oom e = [].
Proof. exact (bb_memory b (Some <$> t) e). Qed.

Lemma filled_length b t e : filled b t e -> evbuffer_get_length b = Z.of_nat (length t).
Proof. intros Hb. by rewrite (bb_length _ _ _ Hb) length_fmap. Qed.

(** ** The parts *)

Lemma short_app t s : short (t ++ s) -> short t ∧ short s.
Proof. rewrite /short length_app. lia. Qed.

Lemma runs_put_short b t s e (Q : evbuffer -> evenv -> Prop) :
  filled b t e -> short (t ++ s) -> (∀ b' e', filled b' (t ++ s) e' -> Q b' e') -> runs (put b s) e Q.
Proof. intros Hb Hs. apply (runs_put b t s e Q Hb). rewrite /short in Hs. lia. Qed.

Lemma runs_putf_short b t s e (Q : evbuffer -> evenv -> Prop) :
  filled b t e -> s ≠ [] -> short (t ++ s) -> (∀ b' e', filled b' (t ++ s) e' -> Q b' e') -> runs (putf b s) e Q.
Proof. intros Hb Hne Hs. apply (runs_putf b t s e Q Hb Hne); [by apply short_app in Hs as [_ ?]|]. rewrite /short in Hs. lia. Qed.

Lemma runs_join_scheme u b t e (Q : evbuffer -> evenv -> Prop) :
  let s := behind 58 (s_text <$> u_scheme u) in
  filled b t e -> short (t ++ s) -> (∀ b' e', filled b' (t ++ s) e' -> Q b' e') ->
  runs (if bool_decide (is_Some (u_scheme u)) then b ← URI_ADD Scheme u b; put b [58] else mret b) e Q.
Proof.
  intros s Hb Hsh HQ. rewrite /URI_ADD /=. destruct (u_scheme u) as [c|]; rewrite /s /= ?app_nil_r in Hsh HQ |- *; [|by apply runs_ret, HQ].
  rewrite !app_assoc in Hsh HQ. pose proof (short_app _ _ Hsh) as [Hsh1 _].
  apply runs_bind, (runs_put_short b t); [done..|]. intros b1 e1 Hb1. by eapply runs_put_short.
Qed.

Lemma runs_join_part c f u b t e (Q : evbuffer -> evenv -> Prop) :
  let s := before c (s_text <$> uri_str f u) in
  filled b t e -> short (t ++ s) -> (∀ b' e', filled b' (t ++ s) e' -> Q b' e') ->
  runs (if bool_decide (is_Some (uri_str f u)) then b ← put b [c]; URI_ADD f u b else mret b) e Q.
Proof.
  intros s Hb Hsh HQ. rewrite /URI_ADD. destruct (uri_str f u) as [x|]; rewrite /s /= ?app_nil_r in Hsh HQ |- *; [|by apply runs_ret, HQ].
  change (c :: s_text x) with ([c] ++ s_text x) in Hsh, HQ. rewrite !app_assoc in Hsh HQ. pose proof (short_app _ _ Hsh) as [Hsh1 _].
  apply runs_bind, (runs_put_short b t); [done..|]. intros b1 e1 Hb1. by eapply runs_put_short.
Qed.

Lemma runs_join_port port b t e (Q : evbuffer -> evenv -> Prop) :
  filled b t e -> short (t ++ decimal_port port) -> (∀ b' e', filled b' (t ++ decimal_port port) e' -> Q b' e') ->
  runs (if 0 <=? port then putf b (58 :: dec port) else mret b) e Q.
Proof.
  rewrite /decimal_port. destruct (0 <=? port); [|rewrite app_nil_r; intros Hb _ HQ; by apply runs_ret, HQ].
  intros Hb Hsh. by apply runs_putf_short.
Qed.

Lemma runs_join_front u b t e (Q : bool * evbuffer -> evenv -> Prop) :
  let front := behind 58 (s_text <$> u_scheme u) ++ authority_text (uri_pieces u) (decimal_port (u_port u)) in
  filled b t e -> short (t ++ front) -> authority_ok (uri_pieces u) -> (∀ b' e', filled b' (t ++ front) e' -> Q (true, b') e') ->
  runs (join_front u b) e Q.
Proof.
  intros front Hb Hsh Ha HQ. rewrite /front app_assoc in Hsh HQ. pose proof (short_app _ _ Hsh) as [Hsh1 _].
  apply runs_bind, (runs_join_scheme u b t); [done..|]. intros b1 e1 Hb1. clear dependent b e. set (t1 := t ++ _) in *. clearbody t1. clear front t Hsh1.
  rewrite /authority_ok /authority_text in Ha, Hsh, HQ. cbn [uri_pieces p_host] in Ha, Hsh, HQ.
  destruct (u_host u) as [h|] eqn:Hh; cbn [fmap option_fmap option_map] in Ha, Hsh, HQ.
  2: { rewrite bool_decide_false; [|by intros []]. rewrite app_nil_r in HQ. by apply runs_ret, HQ. }
  rewrite bool_decide_true; [|by eexists]. cbn [uri_pieces p_userinfo] in Hsh, HQ.
  change (47 :: 47 :: ?x) with ([47; 47] ++ x) in Hsh, HQ. rewrite !app_assoc in Hsh HQ.
  pose proof (short_app _ _ Hsh) as [Hsh4 _]. pose proof (short_app _ _ Hsh4) as [Hsh3 _]. pose proof (short_app _ _ Hsh3) as [Hsh2 _].
  apply runs_bind, (runs_put_short b1 t1); [done..|]. intros b2 e2 Hb2.
  assert (Huser : ∀ Q : evbuffer -> evenv -> Prop, (∀ b' e', filled b' ((t1 ++ [47; 47]) ++ behind 64 (s_text <$> u_userinfo u)) e' -> Q b' e') ->
    runs (match u_userinfo u with Some s => putf b2 (s_text s ++ [64]) | None => mret b2 end) e2 Q).
  { intros Q' HQ'. destruct (u_userinfo u) as [s|]; cbn in HQ', Hsh3 |- *; [|rewrite app_nil_r in HQ'; by apply runs_ret, HQ'].
    eapply runs_putf_short; [done|by destruct (s_text s)|done|done]. }
  apply runs_bind, Huser. intros b3 e3 Hb3. rewrite /URI_ADD /= Hh. apply runs_bind. eapply runs_put_short; [done|done|]. intros b4 e4 Hb4.
  apply runs_bind. eapply runs_join_port; [done|done|]. intros b5 e5 Hb5. specialize (HQ b5 e5 Hb5).
  destruct (u_path u) as [s|] eqn:Hpath; [|by apply runs_ret]. destruct Ha as (_ & _ & _ & _ & Hp). cbn in Hp. rewrite Hpath /= in Hp.
  apply runs_ret. destruct Hp as [-> | ->]; done.
Qed.

Lemma runs_join_rest u b t e (Q : evbuffer -> evenv -> Prop) :
  let rest := default [] (s_text <$> u_path u) ++ before 63 (s_text <$> u_query u) ++ before 35 (s_text <$> u_fragment u) in
  filled b t e -> short (t ++ rest) -> Z.of_nat (length (t ++ rest)) + 1 < 2 ^ 62 -> (∀ b' e', filled b' ((t ++ rest) ++ [0]) e' -> Q b' e') ->
  runs (join_rest u b) e Q.
Proof.
  intros rest Hb Hsh Hlen HQ. rewrite /rest !app_assoc in Hsh HQ Hlen. pose proof (short_app _ _ Hsh) as [Hsh2 _]. pose proof (short_app _ _ Hsh2) as [Hsh1 _].
  assert (Hpath : ∀ Q : evbuffer -> evenv -> Prop, (∀ b' e', filled b' (t ++ default [] (s_text <$> u_path u)) e' -> Q b' e') ->
    runs (if bool_decide (is_Some (u_path u)) then URI_ADD Path u b else mret b) e Q).
  { intros Q' HQ'. rewrite /URI_ADD /=. destruct (u_path u) as [s|]; cbn in HQ', Hsh1 |- *; [by eapply runs_put_short|].
    rewrite app_nil_r in HQ'. by apply runs_ret, HQ'. }
  apply runs_bind, Hpath. intros b1 e1 Hb1. apply runs_bind, (runs_join_part 63 Query u b1 _ e1 _ Hb1 Hsh2). intros b2 e2 Hb2.
  apply runs_bind, (runs_join_part 35 Fragment u b2 _ e2 _ Hb2 Hsh). intros b3 e3 Hb3.
  eapply runs_put; [done| |done]. rewrite length_app /=. lia.
Qed.

(** The whole text with its terminator, if it fits. *)
Lemma runs_join u limit e (Q : option (list mbyte) -> evenv -> Prop) :
  let t := uri_text (uri_pieces u) (decimal_port (u_port u)) in
  ev_oom e = [] -> authority_ok (uri_pieces u) -> short t -> 0 < limit ->
  (∀ e', ev_oom e' = [] -> Q (if limit <? Z.of_nat (length t) + 1 then None else Some (Some <$> (t ++ [0]))) e') ->
  runs (evhttp_uri_join (Some u) true limit) e Q.
Proof.
  intros t Hm Ha Hsh Hl HQ. rewrite /evhttp_uri_join (proj2 (Z.eqb_neq limit 0)); [|lia]. cbn [negb orb].
  apply runs_bind, runs_new_text; [done|]. intros b0 e0 Hb0. rewrite /t /uri_text app_assoc in Hsh HQ.
  apply runs_bind, (runs_join_front u b0 []); [done|by apply short_app in Hsh as [Hsh _]|done|]. intros b1 e1 Hb1. cbn [negb].
  apply runs_bind. eapply runs_join_rest; [done|done|rewrite /short in Hsh; cbn [app]; cbn in Hsh |- *; lia|]. intros b2 e2 Hb2.
  cbn [app] in Hb2. set (full := (_ ++ _) ++ _) in HQ. change (filled b2 (full ++ [0]) e2) in Hb2.
  assert (Hlen : evbuffer_get_length b2 = Z.of_nat (length full) + 1) by (rewrite (filled_length _ _ _ Hb2) length_app /=; lia).
  rewrite Hlen. destruct (limit <? Z.of_nat (length full) + 1).
  - apply runs_bind, (pb_free b2 _ e2 _ Hb2). intros e3 Hgo. apply runs_ret, HQ, Hgo. by eapply bb_memory.
  - apply runs_bind, (bb_remove b2 _ _ e2 _ Hb2); [lia|]. intros r b3 e3 Hb3 _.
    rewrite take_ge; [|rewrite length_fmap length_app /=; lia]. apply runs_bind, (pb_free b3 _ e3 _ Hb3). intros e4 Hgo.
    apply runs_ret, HQ, Hgo. by eapply bb_memory.
Qed.

End texts.

(** ** The port in decimal *)

Lemma digits_val_bound ds : Forall (fun c => isdigit c = true) ds -> digits_val 0 ds < 10 ^ Z.of_nat (length ds).
Proof.
  induction ds as [|d ds IH] using rev_ind; [done|]. rewrite Forall_app Forall_singleton. intros [Hds Hd].
  rewrite digits_val_snoc length_app Nat2Z.inj_add Z.pow_add_r; [|lia..]. specialize (IH Hds).
  rewrite /isdigit andb_true_iff !Z.leb_le in Hd. change (10 ^ Z.of_nat (length [d])) with 10. lia.
Qed.

Lemma decimal_port_text port : -1 <= port < 2 ^ 31 -> port_text port (decimal_port port).
Proof.
  intros Hp. rewrite /decimal_port. destruct (Z.leb_spec 0 port) as [H0|]; [|left; split; [lia|by left]].
  destruct (dec_spec port H0) as [Hd Hv]. right. exists (dec port). split_and!; try done; [|lia].
  rewrite dec_pos //. apply dec_digits_nonempty.
Qed.

(** It is the shortest text of the port. *)
Lemma decimal_port_short port pt : port_text port pt -> (length (decimal_port port) <= length pt)%nat.
Proof.
  intros Hpt. rewrite /decimal_port. destruct (Z.leb_spec 0 port) as [H0|]; [|cbn; lia].
  destruct Hpt as [[-> _]|(ds & -> & Hne & Hd & Hv & _)]; [lia|]. cbn. destruct ds as [|d ds]; [done|].
  destruct (dec_length port H0 (length ds)) as [_ Hle]; [|cbn; lia]. rewrite -Hv. by apply (digits_val_bound (d :: ds)).
Qed.

Lemma uri_text_short p pt port : port_text (p_port p) pt -> port = decimal_port (p_port p) -> (length (uri_text p port) <= length (uri_text p pt))%nat.
Proof.
  intros Hpt ->. pose proof (decimal_port_short _ _ Hpt). rewrite /uri_text !length_app /authority_text. destruct (p_host p); [|lia].
  rewrite /= !length_app. lia.
Qed.

Lemma isdigit_char c : isdigit c = true -> is_char c.
Proof. rewrite /isdigit /is_char andb_true_iff !Z.leb_le. lia. Qed.

Lemma port_text_text port pt : port_text port pt -> is_text pt.
Proof.
  intros [[_ [->| ->]]|(ds & -> & _ & Hd & _)]; [constructor|by repeat constructor|]. constructor; [done|].
  by eapply Forall_impl, isdigit_char.
Qed.

Lemma opt_text c (o : option (list Z)) : is_char c -> (∀ s, o = Some s -> is_text s) -> is_text (behind c o) ∧ is_text (before c o).
Proof. intros Hc Ho. destruct o as [s|]; [|by split]. specialize (Ho s eq_refl). split; [apply Forall_app; split; [done|by apply Forall_singleton]|by constructor]. Qed.

Lemma valid_text `{inet : InetPton} flags p pt : valid_uri flags p -> port_text (p_port p) pt -> is_text (uri_text p pt).
Proof.
  intros [Hs _ Ha [Hp _] Hq Hf]%valid_checked Hpt. rewrite /uri_text !Forall_app. split_and!; [| |done|..].
  - apply opt_text; [done|]. intros s H. by apply Hs.
  - rewrite /authority_text. rewrite /authority_ok in Ha. destruct (p_host p) as [h|]; [|constructor]. destruct Ha as (Hh & _ & Hu & _).
    constructor; [done|]. constructor; [done|]. rewrite !Forall_app. split_and!; [|done|by eapply port_text_text].
    apply opt_text; [done|]. intros s H. by apply Hu.
  - apply opt_text; [done|]. intros s H. by apply Hq.
  - apply opt_text; [done|]. intros s H. by apply Hf.
Qed.
