(* ===== verification/EvUriCorrect.v ===== *)
(** * Correctness of the URI functions of http.c *)

From Stdlib Require Import ssreflect.
From S2P Require Import Prelude CTypes HProp CMem CLib BRound EvBuffer EvBufSpec EvBufQueue EvPrintOps EvUtil EvErr EvUri EvUriSpec EvMem EvUriOps.
Set Warnings "-rewrite-rw".
Open Scope general_if_scope.
Open Scope Z_scope.
#[local] Existing Instance only_loopback.

(** C17: When the allocator gives memory, evhttp_uri_parse_with_flags accepts exactly
    the texts that spell valid parts by the grammar of EvUriSpec, and what it
    returns are these parts; so a text spells at most one URI.  The grammar is that
    of RFC 3986 written down without the program: scheme, user information, host
    (a name, or in brackets an address of IPv6 or of a later version), port, path,
    query and fragment, where with EVHTTP_URI_NONCONFORMANT path, query and fragment
    only lack the separators that would end them.  Which texts are IPv6 addresses
    is the answer of inet_pton, for any such function. *)
Theorem evhttp_uri_parse_grammar `{inet : InetPton} t flags p e :
  is_text t -> ev_oom e = [] ->
  (∃ u e', evhttp_uri_parse_with_flags t flags e = inr (Some u, e') ∧ uri_pieces u = p) <-> valid_uri flags p ∧ spells t p.
Proof.
  intros Ht Hm. split.
  - intros (u & e' & Hrun & <-). pose proof (eruns_parse t flags e Ht) as H. rewrite /eruns Hrun in H. tauto.
  - intros [Hv Hsp]. pose proof (runs_parse_spelled t flags p e Ht Hm Hv Hsp) as H. rewrite /runs in H.
    destruct (evhttp_uri_parse_with_flags t flags e) as [|[r e']]; [done|]. destruct H as (u & -> & Hp & _). by exists u, e'.
Qed.

Definition fresh_env : evenv := EvEnv 1 [] [].

Lemma evhttp_uri_parse_grammar_witness :
  let t := str "http://me@[::1]:080/a?b#c" in
  let p := Pieces (Some (str "http")) (Some (str "me")) (Some (str "[::1]")) 80 (str "/a") (Some (str "b")) (Some (str "c")) in
  is_text t ∧ ev_oom fresh_env = [] ∧ valid_uri 0 p ∧ spells t p.
Proof.
  intros t p. assert (Ht : is_text t) by (vm_compute; repeat constructor). split; [exact Ht|]. split; [reflexivity|].
  apply (evhttp_uri_parse_grammar t 0 p fresh_env Ht eq_refl).
  eexists _, _. split; [vm_compute; reflexivity|vm_compute; reflexivity].
Defined.

(** C20: For every text and every outcome of the allocator,
    evhttp_uri_parse_with_flags returns a URI that owns all the memory that is
    still allocated, which evhttp_uri_free then releases, or NULL with nothing
    left over; nothing is freed twice.  Only a port number that is no int ends the
    run. *)
Theorem evhttp_uri_parse_releases `{inet : InetPton} t flags e :
  is_text t ->
  match evhttp_uri_parse_with_flags t flags e with
  | inl f => f = IntOverflow ∧ big_port t
  | inr (None, e1) => owned e [] e1
  | inr (Some u, e1) => owned e (uri_ids u) e1 ∧ ∃ e2, evhttp_uri_free u e1 = inr (tt, e2) ∧ owned e [] e2
  end.
Proof.
  intros Ht. pose proof (eruns_parse t flags e Ht) as H. rewrite /eruns in H.
  destruct (evhttp_uri_parse_with_flags t flags e) as [f|[[u|] e1]]; [done| |done]. destruct H as (Ho & _). split; [done|].
  assert (Hf : runs (evhttp_uri_free u) e1 (fun _ e2 => owned e [] e2)).
  { apply (runs_uri_free e u []); [by rewrite app_nil_r|done]. }
  rewrite /runs in Hf. destruct (evhttp_uri_free u e1) as [|[[] e2]]; [done|]. by exists e2.
Qed.

Lemma evhttp_uri_parse_releases_witness :
  let e := EvEnv 1 [true; true; true; false] [] in
  is_text (str "http://host/") ∧ ∃ e1, evhttp_uri_parse_with_flags (str "http://host/") 0 e = inr (None, e1) ∧ owned e [] e1.
Proof.
  intros e. assert (Ht : is_text (str "http://host/")) by (vm_compute; repeat constructor). split; [exact Ht|].
  pose proof (evhttp_uri_parse_releases (str "http://host/") 0 e Ht) as H. eexists. split; [vm_compute; reflexivity|exact H].
Defined.

(** C29: A URI that was parsed is put together by evhttp_uri_join, in an array that
    is longer than the text it came from, to a text that is parsed to the same
    parts again. *)
Theorem evhttp_uri_join_parse `{inet : InetPton} t flags e u e1 limit :
  is_text t -> short t -> ev_oom e = [] -> Z.of_nat (length t) < limit ->
  evhttp_uri_parse_with_flags t flags e = inr (Some u, e1) ->
  ∃ t' e2 u' e3, evhttp_uri_join (Some u) true limit e1 = inr (Some (Some <$> (t' ++ [0])), e2)
    ∧ evhttp_uri_parse_with_flags t' flags e2 = inr (Some u', e3) ∧ uri_pieces u' = uri_pieces u.
Proof.
  intros Ht Hsh Hm Hl Hrun. pose proof (eruns_parse t flags e Ht) as H. rewrite /eruns Hrun in H. destruct H as (Ho & _ & Hv & pt & Hpt & Heq).
  assert (Hport : port_text (p_port (uri_pieces u)) (decimal_port (u_port u))) by (eapply decimal_port_text, port_text_range; exact Hpt).
  pose proof (uri_text_short (uri_pieces u) pt _ Hpt eq_refl) as Hle. rewrite -Heq in Hle.
  assert (Hj : runs (evhttp_uri_join (Some u) true limit) e1 (fun r e2 =>
    r = Some (Some <$> (uri_text (uri_pieces u) (decimal_port (u_port u)) ++ [0])) ∧ ev_oom e2 = [])).
  { apply (runs_join open_buffer); [by apply (ow_memory _ _ _ Ho)|by apply (cu_authority flags), valid_checked|rewrite /short in Hsh |- *; cbn in Hle; lia|lia|].
    intros e2 He2. split; [|done]. cbn in Hle. by rewrite (proj2 (Z.ltb_ge _ _)); [|lia]. }
  rewrite /runs in Hj. destruct (evhttp_uri_join (Some u) true limit e1) as [|[r e2]]; [done|]. destruct Hj as [-> He2].
  pose proof (runs_parse_spelled (uri_text (uri_pieces u) (decimal_port (u_port u))) flags _ e2 (valid_text _ _ _ Hv Hport) He2 Hv (ex_intro _ _ (conj Hport eq_refl))) as Hp.
  rewrite /runs in Hp. destruct (evhttp_uri_parse_with_flags _ flags e2) as [|[r e3]] eqn:Hrun3; [done|]. destruct Hp as (u' & -> & Hu' & _).
  by exists (uri_text (uri_pieces u) (decimal_port (u_port u))), e2, u', e3.
Qed.

Lemma evhttp_uri_join_parse_witness :
  let t := str "//h:007" in
  ∃ u e1 t' e2 u' e3, evhttp_uri_parse_with_flags t 0 fresh_env = inr (Some u, e1)
    ∧ evhttp_uri_join (Some u) true 100 e1 = inr (Some (Some <$> (t' ++ [0])), e2)
    ∧ evhttp_uri_parse_with_flags t' 0 e2 = inr (Some u', e3) ∧ uri_pieces u' = uri_pieces u.
Proof.
  intros t. eexists _, _.
  destruct (evhttp_uri_join_parse t 0 fresh_env (Uri 1 0 None None (Some (Cstr 3 (str "h"))) 7 (Some (Cstr 4 [])) None None)
    (EvEnv 5 [] [Freed 2]) 100) as (t' & e2 & u' & e3 & H1 & H2 & H3).
  - vm_compute. repeat constructor.
  - vm_compute. reflexivity.
  - reflexivity.
  - vm_compute. reflexivity.
  - vm_compute. reflexivity.
  - exists t', e2, u', e3. split; [vm_compute; reflexivity|]. split; [exact H1|]. split; [exact H2|exact H3].
Defined.
