(* ===== verification/EvQuery.v ===== *)
(** * libevent/http.c: escapes, header lists and queries

    The texts are those of EvUri.  A decoded text may hold NULs (from %00); the
    functions that take it as a string see what is in front of the first one. *)

From S2P Require Import Prelude CTypes HProp CMem CLib EvBuffer EvPrint EvUtil EvUri.
Open Scope Z_scope.

(** ** HTML *)

(** What stands for a character. *)
Definition html_replace (ch : Z) : list Z :=
  if ch =? 60 then str "&lt;"
  else if ch =? 62 then str "&gt;"
  else if ch =? 34 then str "&quot;"
  else if ch =? 39 then str "&#039;"
  else if ch =? 38 then str "&amp;"
  else [ch].

(** The sum of the sizes; [None] if it does not fit in a size_t. *)
Fixpoint escaped_size (new_size : Z) (html : list Z) : option Z :=
  match html with
  | [] => Some new_size
  | c :: html =>
      let replace_size := Z.of_nat (length (html_replace c)) in
      if EV_SIZE_MAX - new_size <? replace_size then None else escaped_size (new_size + replace_size) html
  end.

Definition evhttp_htmlescape (html : option (list Z)) : E (option cstr) :=
  match html with
  | None => mret None
  | Some html =>
      match escaped_size 0 html with
      | None => mret None
      | Some new_size =>
          if new_size =? EV_SIZE_MAX then mret None
          else
            p ← mm_malloc;
            match p with
            | None => mret None
            | Some i => mret (Some (Cstr i (concat (html_replace <$> html))))
            end
      end
  end.

(** ** Escapes of URIs *)

Definition hex_digit (n : Z) : Z := if n <? 10 then 48 + n else 55 + n.

(** %%%02X *)
Definition percent (c : Z) : list Z := [37; hex_digit (c / 16); hex_digit (c mod 16)].

Fixpoint encode_loop (buf : evbuffer) (uri : list Z) (space_as_plus : bool) : E evbuffer :=
  match uri with
  | [] => mret buf
  | c :: uri =>
      buf ← (if CHAR_IS_UNRESERVED c then put buf [c]
             else if (c =? 32) && space_as_plus then put buf [43]
             else putf buf (percent (u8 c)));
      encode_loop buf uri space_as_plus
  end.

(** [uri] is an array without its last byte, a NUL; the block that is returned. *)
Definition evhttp_uriencode (uri : list Z) (len : Z) (space_as_plus : bool) : E (option (id * list mbyte)) :=
  buf ← evbuffer_new;
  match buf with
  | None => mret None
  | Some buf =>
      uri ← (if 0 <=? len then
               if len <=? Z.of_nat (S (length uri)) then mret (take (Z.to_nat len) (uri ++ [0])) else e_fail OutOfBounds
             else mret (cut0 uri));
      buf ← encode_loop buf uri space_as_plus;
      buf ← put buf [0];
      result ← mm_malloc;
      match result with
      | Some i =>
          '(_, d, buf) ← evbuffer_remove buf (evbuffer_get_length buf);
          _ ← evbuffer_free buf;
          mret (Some (i, d))
      | None => _ ← evbuffer_free buf; mret None
      end
  end.

Definition evhttp_encode_uri (s : list Z) : E (option (id * list mbyte)) := evhttp_uriencode s (-1) false.

Fixpoint decode_loop (decode_plus_ctl : Z) (decode_plus : bool) (uri : list Z) : list Z :=
  match uri with
  | [] => []
  | c :: uri' =>
      if c =? 63 then c :: decode_loop decode_plus_ctl (if decode_plus_ctl <? 0 then true else decode_plus) uri'
      else if (c =? 43) && decode_plus then 32 :: decode_loop decode_plus_ctl decode_plus uri'
      else
        match uri' with
        | a :: b :: uri'' =>
            if (c =? 37) && EVUTIL_ISXDIGIT a && EVUTIL_ISXDIGIT b
            then u8 (fst (strtol16 [a; b])) :: decode_loop decode_plus_ctl decode_plus uri''
            else c :: decode_loop decode_plus_ctl decode_plus uri'
        | _ => c :: decode_loop decode_plus_ctl decode_plus uri'
        end
  end.

(** What is stored at [ret], before a NUL. *)
Definition evhttp_decode_uri_internal (uri : list Z) (decode_plus_ctl : Z) : list Z :=
  decode_loop decode_plus_ctl (decode_plus_ctl =? 1) uri.

Definition evhttp_decode_uri (uri : list Z) : E (option cstr) :=
  ret ← mm_malloc;
  mret (match ret with Some i => Some (Cstr i (evhttp_decode_uri_internal uri (-1))) | None => None end).

(** The string and what is stored at [size_out]. *)
Definition evhttp_uridecode (uri : list Z) (decode_plus : bool) : E (option (cstr * Z)) :=
  ret ← mm_malloc;
  mret (match ret with
        | Some i =>
            let t := evhttp_decode_uri_internal uri (if decode_plus then 1 else 0) in
            Some (Cstr i t, Z.of_nat (length t))
        | None => None
        end).

(** ** Header lists *)

Record evkeyval := Keyval { kv_id : id; kv_key : cstr; kv_value : cstr }.
Definition evkeyvalq : Type := list evkeyval.

Definition has_key (key : list Z) (h : evkeyval) : Prop := evutil_ascii_strcasecmp (s_text (kv_key h)) key = 0.
#[export] Instance has_key_dec key h : Decision (has_key key h) := ltac:(unfold has_key; apply _).

Definition evhttp_find_header (headers : evkeyvalq) (key : list Z) : option (list Z) :=
  match list_find (has_key key) headers with
  | Some (_, h) => Some (s_text (kv_value h))
  | None => None
  end.

Definition free_header (h : evkeyval) : E unit :=
  _ ← mm_free (s_id (kv_key h));
  _ ← mm_free (s_id (kv_value h));
  mm_free (kv_id h).

Fixpoint evhttp_clear_headers (headers : evkeyvalq) : E evkeyvalq :=
  match headers with
  | [] => mret []
  | h :: headers => _ ← free_header h; evhttp_clear_headers headers
  end.

Definition evhttp_remove_header (headers : evkeyvalq) (key : list Z) : E (Z * evkeyvalq) :=
  match list_find (has_key key) headers with
  | None => mret (-1, headers)
  | Some (n, h) => _ ← free_header h; mret (0, take n headers ++ drop (S n) headers)
  end.

Definition is_crlf (c : Z) : bool := (c =? 13) || (c =? 10).

Fixpoint skip_until (p : Z -> bool) (s : list Z) : list Z :=
  match s with
  | [] => []
  | c :: s' => if p c then s else skip_until p s'
  end.

(** One turn for each line break; the length of the text is enough. *)
Fixpoint valid_value_loop (fuel : nat) (p : list Z) : bool :=
  match fuel with
  | O => true
  | S fuel =>
      match skip_until is_crlf p with
      | [] => true
      | p =>
          let p := skip_until (fun c => negb (is_crlf c)) p in
          if negb (hd 0 p =? 32) && negb (hd 0 p =? 9) then false else valid_value_loop fuel p
      end
  end.

Definition evhttp_header_is_valid_value (value : list Z) : bool := valid_value_loop (S (length value)) value.

Definition evhttp_add_header_internal (headers : evkeyvalq) (key value : list Z) : E (Z * evkeyvalq) :=
  header ← mm_malloc;
  match header with
  | None => mret (-1, headers)
  | Some header =>
      k ← mm_strdup key;
      match k with
      | None => _ ← mm_free header; mret (-1, headers)
      | Some k =>
          v ← mm_strdup value;
          match v with
          | None => _ ← mm_free (s_id k); _ ← mm_free header; mret (-1, headers)
          | Some v => mret (0, headers ++ [Keyval header k v])
          end
      end
  end.

Definition evhttp_add_header (headers : evkeyvalq) (key value : list Z) : E (Z * evkeyvalq) :=
  if existsb is_crlf key then mret (-1, headers)
  else if negb (evhttp_header_is_valid_value value) then mret (-1, headers)
  else evhttp_add_header_internal headers key value.

(** ** Queries *)

(** strsep for one separator: the token, and what follows it. *)
Fixpoint strsep (sep : Z) (s : list Z) : list Z * option (list Z) :=
  match s with
  | [] => ([], None)
  | c :: s => if c =? sep then ([], Some s) else let '(t, r) := strsep sep s in (c :: t, r)
  end.

(** The loop over the arguments; [false] is [goto error]. *)
Fixpoint query_loop (fuel : nat) (p : option (list Z)) (headers : evkeyvalq) : E (bool * evkeyvalq) :=
  match fuel with
  | O => e_fail AssertFailed
  | S fuel =>
      match p with
      | None | Some [] => mret (true, headers)
      | Some p =>
          let '(argument, p) := strsep 38 p in
          let '(key, value) := strsep 61 argument in
          match value with
          | None => mret (false, headers)
          | Some value =>
              if bool_decide (key = []) then mret (false, headers)
              else
                decoded_value ← mm_malloc;
                match decoded_value with
                | None => mret (false, headers)
                | Some i =>
                    '(_, headers) ← evhttp_add_header_internal headers key (evhttp_decode_uri_internal value 1);
                    _ ← mm_free i;
                    query_loop fuel p headers
                end
          end
      end
  end.

(** The arguments of a query, and the end of evhttp_parse_query_impl. *)
Definition parse_arguments (query_part : option (list Z)) (uri : option evhttp_uri) : E (Z * evkeyvalq) :=
  let free_uri := match uri with Some u => evhttp_uri_free u | None => mret tt end in
  match query_part with
  | None | Some [] => _ ← free_uri; mret (0, [])
  | Some query_part =>
      line ← mm_strdup query_part;
      match line with
      | None => headers ← evhttp_clear_headers []; _ ← free_uri; mret (-1, headers)
      | Some line =>
          '(ok, headers) ← query_loop (S (length (s_text line))) (Some (s_text line)) [];
          headers ← (if ok : bool then mret headers else evhttp_clear_headers headers);
          _ ← mm_free (s_id line);
          _ ← free_uri;
          mret (if ok : bool then 0 else -1, headers)
      end
  end.

(** The list of headers is emptied first, whatever it held. *)
Definition evhttp_parse_query_impl `{inet : InetPton} (s : list Z) (is_whole_uri : bool) : E (Z * evkeyvalq) :=
  if is_whole_uri then
    uri ← evhttp_uri_parse s;
    match uri with
    | None => mret (-1, [])
    | Some u => parse_arguments (evhttp_uri_get_query u) (Some u)
    end
  else parse_arguments (Some s) None.

Definition evhttp_parse_query `{inet : InetPton} (uri : list Z) : E (Z * evkeyvalq) := evhttp_parse_query_impl uri true.
Definition evhttp_parse_query_str `{inet : InetPton} (uri : list Z) : E (Z * evkeyvalq) := evhttp_parse_query_impl uri false.
