(* ===== verification/EvQueryOps.v ===== *)
(** * Escapes and queries: lemmas

    What the escapes of URIs come to and that they are undone, and the loop over
    the arguments of a query against its reference: the arguments between the
    ampersands, each split at its first '='. *)

From Stdlib Require Import ssreflect.
From S2P Require Import Prelude CTypes HProp CMem CLib EvBuffer EvBufSpec EvBufOps EvBufMove EvBufPlain EvBufQueue EvPrint EvPrintOps EvUtil EvErr EvUri EvUriSpec EvMem EvUriOps EvQuery.
Set Warnings "-rewrite-rw".
Open Scope general_if_scope.
Open Scope Z_scope.

(** ** Encoding *)

Definition encode_char (space_as_plus : bool) (c : Z) : list Z :=
  if CHAR_IS_UNRESERVED c then [c] else if (c =? 32) && space_as_plus then [43] else percent (u8 c).

Definition encoded (space_as_plus : bool) (t : list Z) : list Z := concat (encode_char space_as_plus <$> t).

(** Only these characters are left. *)
Definition uri_safe (c : Z) : bool := CHAR_IS_UNRESERVED c || (c =? 37) || (c =? 43).

Lemma encoded_cons sp c t : encoded sp (c :: t) = encode_char sp c ++ encoded sp t.
Proof. done. Qed.

Lemma encode_char_safe sp c : is_byte_val c -> forallb uri_safe (encode_char sp c) = true ∧ forallb (fun c => (1 <=? c) && (c <? 256)) (encode_char sp c) = true.
Proof.
  intros Hc. apply andb_true_iff. revert c Hc. apply byte_cases; by destruct sp.
Qed.

Lemma encoded_safe sp t : Forall is_byte_val t -> Forall (fun c => uri_safe c = true) (encoded sp t) ∧ is_text (encoded sp t).
Proof.
  induction 1 as [|c t Hc _ [IH1 IH2]]; [split; constructor|]. rewrite encoded_cons. destruct (encode_char_safe sp c Hc) as [H1 H2].
  rewrite forallb_forall in H1. rewrite forallb_forall in H2. rewrite !Forall_app !Forall_forall. split; (split; [|by apply Forall_forall]).
  - intros x Hx. apply H1. by apply list_elem_of_In.
  - intros x Hx. specialize (H2 x ltac:(by apply list_elem_of_In)). rewrite andb_true_iff Z.leb_le Z.ltb_lt in H2. rewrite /is_char. lia.
Qed.

Lemma encode_char_length sp c : (length (encode_char sp c) <= 3)%nat.
Proof. rewrite /encode_char. destruct (CHAR_IS_UNRESERVED c), ((c =? 32) && sp); cbn; lia. Qed.

Lemma encoded_length sp t : (length (encoded sp t) <= 3 * length t)%nat.
Proof. induction t as [|c t IH]; [done|]. rewrite encoded_cons length_app. pose proof (encode_char_length sp c). cbn. lia. Qed.

(** ** Decoding *)

Definition undone (sp plus : bool) (c : Z) : bool :=
  match encode_char sp c with
  | [x] => negb (x =? 63) && negb (x =? 37) && (if (x =? 43) && plus then c =? 32 else x =? c)
  | [x; a; b] => (x =? 37) && EVUTIL_ISXDIGIT a && EVUTIL_ISXDIGIT b && (u8 (fst (strtol16 [a; b])) =? c)
  | _ => false
  end.

Lemma decode_loop_char ctl plus sp c rest :
  is_byte_val c -> (sp = true -> plus = true) -> decode_loop ctl plus (encode_char sp c ++ rest) = c :: decode_loop ctl plus rest.
Proof.
  intros Hc Hsp. assert (Hu : undone sp plus c = true).
  { destruct sp, plus; try (by specialize (Hsp eq_refl)); by apply (byte_cases (undone _ _)). }
  rewrite /undone in Hu. destruct (encode_char sp c) as [|x [|a [|b [|? ?]]]]; try done.
  - rewrite !andb_true_iff !negb_true_iff in Hu. destruct Hu as [[H63 H37] Hx]. cbn [app decode_loop]. rewrite H63.
    destruct ((x =? 43) && plus) eqn:Hp; [by apply Z.eqb_eq in Hx as ->|]. apply Z.eqb_eq in Hx as ->. rewrite H37. by destruct rest as [|? [|? ?]].
  - rewrite !andb_true_iff !Z.eqb_eq in Hu. destruct Hu as [[[-> Ha] Hb] Hv]. cbn [app decode_loop]. by rewrite Ha Hb Hv.
Qed.

Lemma decode_encoded ctl plus sp t :
  Forall is_byte_val t -> (sp = true -> plus = true) -> decode_loop ctl plus (encoded sp t) = t.
Proof.
  intros Ht Hsp. induction Ht as [|c t Hc _ IH]; [done|]. by rewrite encoded_cons decode_loop_char // IH.
Qed.

Section texts.
Context (holds : evbuffer -> list mbyte -> evenv -> Prop) `{!ByteBuffer holds, !PrintBuffer holds, !NewBuffer holds}.
Abbreviation filled := (filled holds).

Lemma runs_encode_loop sp uri b t e (Q : evbuffer -> evenv -> Prop) :
  filled b t e -> Z.of_nat (length t) + 3 * Z.of_nat (length uri) < 2 ^ 62 -> (∀ b' e', filled b' (t ++ encoded sp uri) e' -> Q b' e') ->
  runs (encode_loop b uri sp) e Q.
Proof.
  revert b t e. induction uri as [|c uri IH]; intros b t e Hb Hlen HQ; cbn [encode_loop].
  { apply runs_ret, HQ. by rewrite app_nil_r. }
  pose proof (encode_char_length sp c) as Hc. cbn [length] in Hlen.
  assert (Hnext : ∀ b' e', filled b' (t ++ encode_char sp c) e' -> runs (encode_loop b' uri sp) e' Q).
  { intros b' e' Hb'. eapply IH; [done|rewrite length_app; lia|]. intros b2 e2 Hb2. apply HQ. by rewrite encoded_cons app_assoc. }
  apply runs_bind. rewrite /encode_char in Hc, Hnext. destruct (CHAR_IS_UNRESERVED c); [|destruct ((c =? 32) && sp)].
  - apply (runs_put holds b t); [done|rewrite length_app /=; lia|done].
  - apply (runs_put holds b t); [done|rewrite length_app /=; lia|done].
  - apply (runs_putf holds b t); [done|done|done|rewrite length_app /=; lia|done].
Qed.

Lemma runs_uriencode uri sp e (Q : option (id * list mbyte) -> evenv -> Prop) :
  ev_oom e = [] -> Z.of_nat (length uri) < 2 ^ 31 ->
  (∀ i e', ev_oom e' = [] -> Q (Some (i, Some <$> (encoded sp uri ++ [0]))) e') ->
  runs (evhttp_uriencode uri (Z.of_nat (length uri)) sp) e Q.
Proof.
  intros Hm Hlen HQ. apply runs_bind, (runs_new_text holds); [done|]. intros b e1 Hb. apply runs_bind.
  rewrite (proj2 (Z.leb_le 0 _)); [|lia]. rewrite (proj2 (Z.leb_le _ _)); [|lia]. rewrite Nat2Z.id take_app_length. apply runs_ret, runs_bind.
  eapply (runs_encode_loop sp); [exact Hb|cbn; lia|]. intros b2 e2 Hb2. apply runs_bind. eapply (runs_put holds); [exact Hb2| |].
  { rewrite app_nil_l length_app /=. pose proof (encoded_length sp uri). lia. }
  intros b3 e3 Hb3. cbn [app] in Hb3. pose proof (filled_memory holds _ _ _ Hb3) as Hm3.
  apply runs_bind. rewrite {1}/runs /mm_malloc Hm3.
  assert (Hb4 : filled b3 (encoded sp uri ++ [0]) (EvEnv (Pos.succ (next_id e3)) [] (effects e3))).
  { eapply (filled_frame holds); [exact Hb3|]. apply goes_on_malloc. split; [done|]. by rewrite Hm3. }
  apply runs_bind. rewrite (filled_length holds _ _ _ Hb4). eapply bb_remove; [done|lia|]. intros r b5 e5 Hb5 _.
  rewrite take_ge; [|rewrite length_fmap; lia]. eapply runs_bind, pb_free; [done|]. intros e6 Hgo. apply runs_ret, HQ, Hgo. by eapply bb_memory.
Qed.

End texts.

(** ** Queries *)

Fixpoint split_on (sep : Z) (s : list Z) : list (list Z) :=
  match s with
  | [] => [[]]
  | c :: s => if c =? sep then [] :: split_on sep s else match split_on sep s with f :: fs => (c :: f) :: fs | [] => [[c]] end
  end.

(** The arguments; nothing behind the last ampersand is none. *)
Definition arguments (q : list Z) : list (list Z) :=
  let l := split_on 38 q in
  if decide (list.last l = Some []) then removelast l else l.

(** The key as it is and the value decoded. *)
Definition argument_pair (a : list Z) : option (list Z * list Z) :=
  match strsep 61 a with
  | (key, Some value) => if bool_decide (key = []) then None else Some (key, cut0 (decode_loop 1 true value))
  | (_, None) => None
  end.

Definition query_pairs (q : list Z) : option (list (list Z * list Z)) := mapM argument_pair (arguments q).

Lemma split_on_strsep sep s :
  split_on sep s = fst (strsep sep s) :: match snd (strsep sep s) with None => [] | Some r => split_on sep r end.
Proof.
  induction s as [|c s IH]; [done|]. cbn [split_on strsep]. destruct (c =? sep); [done|]. rewrite IH. by destruct (strsep sep s).
Qed.

Lemma split_on_nonempty sep s : split_on sep s ≠ [].
Proof. by rewrite split_on_strsep. Qed.

Lemma arguments_step p a r :
  p ≠ [] -> strsep 38 p = (a, r) -> arguments p = a :: match r with None => [] | Some r => arguments r end.
Proof.
  intros Hp Hs. rewrite /arguments (split_on_strsep 38 p) Hs. cbn [fst snd]. destruct r as [r|].
  - pose proof (split_on_nonempty 38 r) as Hne. destruct (split_on 38 r) as [|f fs]; [done|]. rewrite last_cons_cons. by case_decide.
  - case_decide as Ha; [|done]. injection Ha as ->. destruct p as [|c p]; [done|]. cbn in Hs. destruct (c =? 38); [done|]. by destruct (strsep 38 p).
Qed.

Lemma strsep_shorter sep s a r : strsep sep s = (a, Some r) -> (length r < length s)%nat.
Proof.
  revert a. induction s as [|c s IH]; intros a; cbn [strsep]; [done|]. destruct (c =? sep); [intros [= _ <-]; cbn; lia|].
  destruct (strsep sep s) as [t [r'|]]; [|done]. intros [= _ ->]. specialize (IH t eq_refl). cbn. lia.
Qed.

Lemma strsep_text sep s a r : is_text s -> strsep sep s = (a, r) -> is_text a ∧ (∀ x, r = Some x -> is_text x).
Proof.
  revert a. induction s as [|c s IH]; intros a Ht; cbn [strsep]; [intros [= <- <-]; by split|]. inversion Ht as [|? ? Hc Hts]; subst.
  destruct (c =? sep); [intros [= <- <-]; split; [constructor|by intros x [= <-]]|].
  destruct (strsep sep s) as [t r']. intros [= <- <-]. destruct (IH t Hts eq_refl) as [H1 H2]. split; [by constructor|done].
Qed.

(** The blocks of a list of headers. *)
Definition header_ids (hs : evkeyvalq) : list id := concat ((fun h => [s_id (kv_key h); s_id (kv_value h); kv_id h]) <$> hs).

Definition header_pairs (hs : evkeyvalq) : list (list Z * list Z) := (fun h => (s_text (kv_key h), s_text (kv_value h))) <$> hs.

Lemma header_ids_app hs hs' : header_ids (hs ++ hs') = header_ids hs ++ header_ids hs'.
Proof. by rewrite /header_ids fmap_app concat_app. Qed.

Lemma runs_clear_headers e0 own hs e (Q : evkeyvalq -> evenv -> Prop) :
  owned e0 (header_ids hs ++ own) e -> (∀ e', owned e0 own e' -> Q [] e') -> runs (evhttp_clear_headers hs) e Q.
Proof.
  revert e. induction hs as [|h hs IH]; intros e Ho HQ; cbn [evhttp_clear_headers]; [by apply runs_ret, HQ|].
  apply runs_bind, runs_bind. eapply runs_free; [exact Ho|]. intros e1 Ho1. apply runs_bind. eapply runs_free; [exact Ho1|]. intros e2 Ho2.
  eapply runs_free; [exact Ho2|]. intros e3 Ho3. by apply IH.
Qed.

Lemma runs_add_header e0 own hs key value e (Q : Z * evkeyvalq -> evenv -> Prop) :
  is_text key -> owned e0 own e ->
  (∀ h e', header_pairs [h] = [(key, cut0 value)] -> owned e0 (header_ids [h] ++ own) e' -> Q (0, hs ++ [h]) e') ->
  (∀ e', ev_oom e0 ≠ [] -> owned e0 own e' -> Q (-1, hs) e') ->
  runs (evhttp_add_header_internal hs key value) e Q.
Proof.
  intros Hk Ho Hs Hn. apply runs_bind, (runs_malloc e0 own); [done| |intros e' Hne Ho'; by apply runs_ret, Hn]. intros i e1 Ho1.
  apply runs_bind. eapply (strdup_gives key Hk); [exact Ho1| |].
  2: { intros e2 Hne Ho2. apply runs_bind. eapply runs_free; [exact Ho2|]. intros e3 Ho3. by apply runs_ret, Hn. }
  intros k e2 Htk Ho2. apply runs_bind. eapply (strdup_cut value); [exact Ho2| |].
  2: { intros e3 Hne Ho3. apply runs_bind. eapply runs_free; [exact Ho3|]. intros e4 Ho4. apply runs_bind. eapply runs_free; [exact Ho4|].
       intros e5 Ho5. by apply runs_ret, Hn. }
  intros v e3 Htv Ho3. apply runs_ret, Hs; [by rewrite /header_pairs /= Htk Htv|]. eapply owned_perm; [|exact Ho3].
  cbn. rewrite (Permutation_swap (s_id k)). by constructor.
Qed.

(** The loop, for any outcome of the allocator. *)
Lemma runs_query_loop e0 own fuel p hs e (Q : bool * evkeyvalq -> evenv -> Prop) :
  (∀ s, p = Some s -> is_text s ∧ (length s < fuel)%nat) -> (0 < fuel)%nat -> owned e0 (header_ids hs ++ own) e ->
  (∀ hs' e', owned e0 (header_ids hs' ++ own) e' ->
     (ev_oom e0 = [] -> ∃ l, query_pairs (default [] p) = Some l ∧ header_pairs hs' = header_pairs hs ++ l) -> Q (true, hs') e') ->
  (∀ hs' e', owned e0 (header_ids hs' ++ own) e' -> (ev_oom e0 = [] -> query_pairs (default [] p) = None) -> Q (false, hs') e') ->
  runs (query_loop fuel p hs) e Q.
Proof.
  revert p hs e. induction fuel as [|fuel IH]; intros p hs e Hp Hf Ho Hs Hn; [lia|]. cbn [query_loop].
  destruct p as [p|]; [|apply runs_ret, Hs; [done|]; intros _; exists []; by rewrite app_nil_r].
  destruct p as [|c p']; [apply runs_ret, Hs; [done|]; intros _; exists []; by rewrite app_nil_r|]. set (p := c :: p') in *.
  destruct (Hp p eq_refl) as [Ht Hlen]. destruct (strsep 38 p) as [a r] eqn:Hsep. destruct (strsep_text _ _ _ _ Ht Hsep) as [Hta Htr].
  assert (Hpairs : query_pairs p = (x ← argument_pair a; l ← query_pairs (default [] r); Some (x :: l))).
  { rewrite /query_pairs (arguments_step p a r) //. cbn [mapM]. by destruct r. }
  rewrite /argument_pair in Hpairs. destruct (strsep 61 a) as [key value] eqn:Hsep2. destruct (strsep_text _ _ _ _ Hta Hsep2) as [Htk _].
  destruct value as [value|]; [|by apply runs_ret, Hn]. case_bool_decide as Hk; [by apply runs_ret, Hn|].
  apply runs_bind, (runs_malloc e0 (header_ids hs ++ own)); [done| |intros e1 Hne Ho1; by apply runs_ret, Hn]. intros i e1 Ho1. apply runs_bind.
  assert (Hnext : ∀ s, r = Some s -> is_text s ∧ (length s < fuel)%nat).
  { intros s ->. split; [by apply Htr|]. pose proof (strsep_shorter _ _ _ _ Hsep). lia. }
  assert (Hf' : (0 < fuel)%nat) by (rewrite /p /= in Hlen; lia).
  eapply (runs_add_header e0); [done|exact Ho1| |].
  - intros h e2 Hh Ho2. apply runs_bind, (runs_free e0 i (header_ids (hs ++ [h]) ++ own)).
    { eapply owned_perm; [|exact Ho2]. rewrite header_ids_app -Permutation_middle -app_assoc. constructor. apply Permutation_app_swap_app. }
    intros e3 Ho3. apply IH; [done|done|done| |].
    + intros hs' e' Ho' Hl. apply Hs; [done|]. intros Hm. destruct (Hl Hm) as (l & Hq & He). cbn [default]. rewrite Hpairs /= Hq /=.
      eexists. split; [done|]. rewrite He /header_pairs fmap_app -app_assoc. f_equal. rewrite /header_pairs in Hh. by rewrite Hh.
    + intros hs' e' Ho' Hl. apply Hn; [done|]. intros Hm. cbn [default]. by rewrite Hpairs /= (Hl Hm).
  - intros e2 Hne Ho2. apply runs_bind. eapply runs_free; [exact Ho2|]. intros e3 Ho3. apply IH; [done|done|done| |].
    + intros hs' e' Ho' _. by apply Hs.
    + intros hs' e' Ho' _. by apply Hn.
Qed.

(** The arguments and the release of the URI they come from. *)
Lemma runs_parse_arguments e0 own q uri e (Q : Z * evkeyvalq -> evenv -> Prop) :
  let ids := match uri with Some u => uri_ids u | None => [] end in
  (∀ s, q = Some s -> is_text s) -> owned e0 (ids ++ own) e ->
  (∀ hs e', owned e0 (header_ids hs ++ own) e' -> (ev_oom e0 = [] -> query_pairs (default [] q) = Some (header_pairs hs)) -> Q (0, hs) e') ->
  (∀ e', owned e0 own e' -> (ev_oom e0 = [] -> query_pairs (default [] q) = None) -> Q (-1, []) e') ->
  runs (parse_arguments q uri) e Q.
Proof.
  intros ids Ht Ho Hs Hn. rewrite /parse_arguments.
  assert (Hfree : ∀ own e (K : unit -> evenv -> Prop), owned e0 (ids ++ own) e -> (∀ e', owned e0 own e' -> K tt e') ->
    runs (match uri with Some u => evhttp_uri_free u | None => mret tt end) e K).
  { intros own1 e1 K Ho1 HK. rewrite /ids in Ho1. destruct uri as [u|]; [by eapply runs_uri_free|]. by apply runs_ret, HK. }
  assert (Hempty : default [] q = [] -> runs (_ ← (match uri with Some u => evhttp_uri_free u | None => mret tt end); mret (0, [])) e Q).
  { intros Hq. apply runs_bind, (Hfree own); [done|]. intros e1 Ho1. apply runs_ret, Hs; [done|]. by rewrite Hq. }
  destruct q as [[|c q']|]; [by apply Hempty| |by apply Hempty]. set (q := c :: q') in *. clear Hempty. specialize (Ht q eq_refl).
  apply runs_bind. eapply (strdup_gives q Ht); [exact Ho| |].
  2: { intros e1 Hne Ho1. apply runs_bind, runs_ret, runs_bind, (Hfree own); [done|]. intros e2 Ho2. by apply runs_ret, Hn. }
  intros line e1 Hl Ho1. rewrite Hl. apply runs_bind.
  assert (Hend : ∀ (ok : bool) hs e, owned e0 (header_ids hs ++ s_id line :: ids ++ own) e ->
    (∀ e', owned e0 (header_ids (if ok then hs else []) ++ own) e' -> Q (if ok then 0 else -1, if ok then hs else []) e') ->
    runs (headers ← (if ok then mret hs else evhttp_clear_headers hs); _ ← mm_free (s_id line);
          _ ← (match uri with Some u => evhttp_uri_free u | None => mret tt end); mret (if ok then 0 else -1, headers)) e Q).
  { intros ok hs e2 Ho2 HQ. apply runs_bind.
    assert (Hrest : ∀ hs e, owned e0 (header_ids hs ++ s_id line :: ids ++ own) e -> (∀ e', owned e0 (header_ids hs ++ own) e' -> Q (if ok then 0 else -1, hs) e') ->
      runs (_ ← mm_free (s_id line); _ ← (match uri with Some u => evhttp_uri_free u | None => mret tt end); mret (if ok then 0 else -1, hs)) e Q).
    { intros hs3 e3 Ho3 HQ3. apply runs_bind, (runs_free e0 (s_id line) (header_ids hs3 ++ ids ++ own)); [by eapply owned_perm; [|exact Ho3]; rewrite -Permutation_middle|].
      intros e4 Ho4. apply runs_bind, (Hfree (header_ids hs3 ++ own)); [eapply owned_perm; [|exact Ho4]; apply Permutation_app_swap_app|].
      intros e5 Ho5. by apply runs_ret, HQ3. }
    destruct ok; [by apply runs_ret, Hrest|]. eapply (runs_clear_headers e0 _ hs); [exact Ho2|]. intros e3 Ho3. by apply (Hrest []). }
  eapply (runs_query_loop e0 (s_id line :: ids ++ own)); [|lia|exact Ho1| |].
  - intros s [= <-]. split; [done|lia].
  - intros hs e2 Ho2 Hp. apply (Hend true hs); [done|]. intros e3 Ho3. apply Hs; [done|]. intros Hm. destruct (Hp Hm) as (l & Hq & He).
    cbn [default] in Hq |- *. by rewrite Hq He.
  - intros hs e2 Ho2 Hp. apply (Hend false hs); [done|]. intros e3 Ho3. by apply Hn.
Qed.

(** ** Query texts *)

(** Pairs as a form sends them: the values encoded. *)
Definition argument_text (space_as_plus : bool) (kv : list Z * list Z) : list Z := fst kv ++ 61 :: encoded space_as_plus (snd kv).

Fixpoint query_text (space_as_plus : bool) (kvs : list (list Z * list Z)) : list Z :=
  match kvs with
  | [] => []
  | [kv] => argument_text space_as_plus kv
  | kv :: kvs => argument_text space_as_plus kv ++ 38 :: query_text space_as_plus kvs
  end.

Lemma strsep_app sep a r : Forall (fun c => c ≠ sep) a -> strsep sep (a ++ sep :: r) = (a, Some r).
Proof. induction 1 as [|c a Hc _ IH]; cbn [app strsep]; [by rewrite Z.eqb_refl|]. by rewrite (proj2 (Z.eqb_neq c sep)) // IH. Qed.

Lemma strsep_none sep a : Forall (fun c => c ≠ sep) a -> strsep sep a = (a, None).
Proof. induction 1 as [|c a Hc _ IH]; cbn [strsep]; [done|]. by rewrite (proj2 (Z.eqb_neq c sep)) // IH. Qed.

(** A pair that can be sent: the key is taken as it is. *)
Definition sendable (kv : list Z * list Z) : Prop :=
  fst kv ≠ [] ∧ is_text (fst kv) ∧ Forall (fun c => c ≠ 38 ∧ c ≠ 61) (fst kv) ∧ is_text (snd kv).

Lemma argument_text_ok sp kv :
  sendable kv -> is_text (argument_text sp kv) ∧ Forall (fun c => c ≠ 38) (argument_text sp kv) ∧ argument_pair (argument_text sp kv) = Some kv.
Proof.
  destruct kv as [k v]. intros (Hne & Htk & Hk & Htv). cbn [fst snd] in *. pose proof (is_text_bytes v Htv) as Hb.
  destruct (encoded_safe sp v Hb) as [Hsafe Hte]. rewrite /argument_text /argument_pair /=.
  assert (Hk1 : Forall (fun c => c ≠ 61) k) by (apply (Forall_impl _ _ _ Hk); tauto). split_and!.
  - apply Forall_app. split; [done|by constructor].
  - apply Forall_app. split; [by apply (Forall_impl _ _ _ Hk); tauto|]. constructor; [done|]. apply (Forall_impl _ _ _ Hsafe). by intros c Hc ->.
  - rewrite strsep_app // bool_decide_false // decode_encoded // cut0_text //.
Qed.

Lemma query_pairs_text sp kvs : Forall sendable kvs -> is_text (query_text sp kvs) ∧ query_pairs (query_text sp kvs) = Some kvs.
Proof.
  induction kvs as [|kv kvs IH]; [by split; [constructor|]|]. intros Hall. inversion Hall as [|? ? Hkv Hkvs]; subst.
  destruct (IH Hkvs) as [Ht Hp]. destruct (argument_text_ok sp kv Hkv) as (Hta & Hna & Hpa).
  assert (Hnil : argument_text sp kv ≠ []) by (rewrite /argument_text; by destruct (fst kv)). destruct kvs as [|kv2 kvs].
  - cbn [query_text]. split; [done|]. rewrite /query_pairs (arguments_step _ (argument_text sp kv) None) ?strsep_none //. cbn [mapM]. by rewrite Hpa.
  - change (query_text sp (kv :: kv2 :: kvs)) with (argument_text sp kv ++ 38 :: query_text sp (kv2 :: kvs)). split.
    + apply Forall_app. split; [done|by constructor].
    + rewrite /query_pairs (arguments_step _ (argument_text sp kv) (Some (query_text sp (kv2 :: kvs)))) ?strsep_app //; [|by destruct (argument_text sp kv)].
      cbn [mapM]. rewrite Hpa. cbn. rewrite /query_pairs in Hp. by rewrite Hp.
Qed.

(** ** Header lists *)

(** Behind every CR or LF is another one, a space or a tab. *)
Fixpoint breaks_continue (v : list Z) : bool :=
  match v with
  | [] => true
  | c :: v' =>
      (if is_crlf c then match v' with d :: _ => is_crlf d || (d =? 32) || (d =? 9) | [] => false end else true) && breaks_continue v'
  end.

Lemma breaks_skip v : breaks_continue (skip_until is_crlf v) = breaks_continue v ∧ (length (skip_until is_crlf v) <= length v)%nat.
Proof.
  induction v as [|c v [IH1 IH2]]; [done|]. cbn [skip_until breaks_continue]. destruct (is_crlf c) eqn:Hc; [|cbn; split; [done|lia]].
  cbn [breaks_continue]. by rewrite Hc.
Qed.

Lemma breaks_run c v :
  is_crlf c = true ->
  let q := skip_until (fun c => negb (is_crlf c)) (c :: v) in
  breaks_continue (c :: v) = ((hd 0 q =? 32) || (hd 0 q =? 9)) && breaks_continue q ∧ (length q <= length v)%nat.
Proof.
  revert c. induction v as [|d v IH]; intros c Hc; cbn [skip_until]; rewrite Hc; cbn [negb].
  { cbn. by rewrite Hc. }
  cbn [breaks_continue]. rewrite Hc. destruct (is_crlf d) eqn:Hd; cbn [negb orb].
  - destruct (IH d Hd) as [H1 H2]. cbn [skip_until] in H1, H2. rewrite Hd in H1, H2. cbn [negb] in H1, H2. rewrite -H1. cbn [breaks_continue].
    rewrite Hd. split; [done|cbn; lia].
  - split; [|cbn; lia]. cbn [hd breaks_continue]. by rewrite Hd.
Qed.

Lemma valid_value_loop_spec fuel v : (length v < fuel)%nat -> valid_value_loop fuel v = breaks_continue v.
Proof.
  revert v. induction fuel as [|fuel IH]; intros v Hf; [lia|]. cbn [valid_value_loop]. destruct (breaks_skip v) as [<- Hl].
  destruct (skip_until is_crlf v) as [|c p] eqn:Hs; [done|].
  assert (Hc : is_crlf c = true).
  { clear -Hs. induction v as [|x v IH]; [done|]. cbn in Hs. destruct (is_crlf x) eqn:Hx; [by injection Hs as <- _|by apply IH]. }
  destruct (breaks_run c p Hc) as [-> Hq]. set (q := skip_until _ (c :: p)) in *. rewrite -negb_orb.
  destruct ((hd 0 q =? 32) || (hd 0 q =? 9)); [|done]. cbn [negb andb]. apply IH. cbn in Hl. lia.
Qed.

Lemma valid_value_spec v : evhttp_header_is_valid_value v = breaks_continue v.
Proof. apply valid_value_loop_spec. lia. Qed.

Lemma list_find_snoc {A} (P : A -> Prop) `{∀ x, Decision (P x)} l x :
  list_find P (l ++ [x]) = match list_find P l with Some r => Some r | None => if decide (P x) then Some (length l, x) else None end.
Proof.
  induction l as [|y l IH]; cbn [app list_find length]; [by destruct (decide (P x))|]. destruct (decide (P y)); [done|]. rewrite IH.
  destruct (list_find P l) as [[]|]; [done|]. by destruct (decide (P x)).
Qed.

(** Texts compared without regard to case. *)
Lemma tolower_signed c d : is_char c -> is_char d -> s8 (EVUTIL_TOLOWER c) = s8 (EVUTIL_TOLOWER d) -> EVUTIL_TOLOWER c = EVUTIL_TOLOWER d.
Proof.
  intros Hc Hd. assert (Hr : ∀ c, is_char c -> 0 <= EVUTIL_TOLOWER c < 256).
  { intros x Hx. pose proof (char_cases (fun c => (0 <=? EVUTIL_TOLOWER c) && (EVUTIL_TOLOWER c <? 256)) eq_refl x Hx) as H.
    cbn beta in H. rewrite andb_true_iff Z.leb_le Z.ltb_lt in H. done. }
  pose proof (Hr c Hc). pose proof (Hr d Hd). rewrite /s8. intros Heq. change (2 ^ 7) with 128 in Heq. change (2 ^ 8) with 256 in Heq.
  assert (Hm : (EVUTIL_TOLOWER c + 128) mod 256 = (EVUTIL_TOLOWER d + 128) mod 256) by lia.
  clear Heq. pose proof (Z.div_mod (EVUTIL_TOLOWER c + 128) 256 ltac:(lia)). pose proof (Z.div_mod (EVUTIL_TOLOWER d + 128) 256 ltac:(lia)).
  pose proof (Z.mod_pos_bound (EVUTIL_TOLOWER c + 128) 256 ltac:(lia)). pose proof (Z.mod_pos_bound (EVUTIL_TOLOWER d + 128) 256 ltac:(lia)).
  lia.
Qed.

Lemma strcasecmp_zero s1 s2 : is_text s1 -> is_text s2 -> evutil_ascii_strcasecmp s1 s2 = 0 <-> EVUTIL_TOLOWER <$> s1 = EVUTIL_TOLOWER <$> s2.
Proof.
  intros H1. revert s2. assert (Hpos : ∀ c, is_char c -> s8 (EVUTIL_TOLOWER c) ≠ s8 (EVUTIL_TOLOWER 0)).
  { intros c Hc. pose proof (char_cases (fun c => negb (s8 (EVUTIL_TOLOWER c) =? s8 (EVUTIL_TOLOWER 0))) eq_refl c Hc) as H.
    cbn beta in H. by rewrite negb_true_iff Z.eqb_neq in H. }
  induction H1 as [|c s1 Hc _ IH]; intros s2 H2; destruct H2 as [|d s2 Hd H2]; cbn [evutil_ascii_strcasecmp hd fmap list_fmap]; [done|..].
  - pose proof (Hpos d Hd). destruct (Z.ltb_spec (s8 (EVUTIL_TOLOWER 0)) (s8 (EVUTIL_TOLOWER d))); [done|].
    destruct (Z.ltb_spec (s8 (EVUTIL_TOLOWER d)) (s8 (EVUTIL_TOLOWER 0))); [done|lia].
  - pose proof (Hpos c Hc). destruct (Z.ltb_spec (s8 (EVUTIL_TOLOWER c)) (s8 (EVUTIL_TOLOWER 0))); [done|].
    destruct (Z.ltb_spec (s8 (EVUTIL_TOLOWER 0)) (s8 (EVUTIL_TOLOWER c))); [done|lia].
  - destruct (Z.ltb_spec (s8 (EVUTIL_TOLOWER c)) (s8 (EVUTIL_TOLOWER d))) as [Hlt|Hge]; [split; [done|]; intros Heq%(f_equal (hd 0)); cbn in Heq; rewrite Heq in Hlt; lia|].
    destruct (Z.ltb_spec (s8 (EVUTIL_TOLOWER d)) (s8 (EVUTIL_TOLOWER c))) as [Hlt|Hge2]; [split; [done|]; intros Heq%(f_equal (hd 0)); cbn in Heq; rewrite Heq in Hlt; lia|].
    rewrite IH //. assert (Heq : EVUTIL_TOLOWER c = EVUTIL_TOLOWER d) by (apply tolower_signed; [done|done|lia]). rewrite Heq.
    split; [by intros ->|by intros [= ->]].
Qed.

(** ** HTML *)

(** The size that is computed is that of the escaped text. *)
Lemma escaped_size_spec n html m : escaped_size n html = Some m -> m = n + Z.of_nat (length (concat (html_replace <$> html))).
Proof.
  revert n. induction html as [|c html IH]; intros n; cbn [escaped_size fmap list_fmap concat]; [intros [= <-]; cbn; lia|].
  destruct (_ <? _); [done|]. intros H%IH. rewrite length_app. lia.
Qed.

Definition markup (c : Z) : bool := existsb (Z.eqb c) [34; 39; 60; 62].

Lemma html_replace_markup c : Forall (fun c => markup c = false) (html_replace c).
Proof.
  rewrite /html_replace. destruct (Z.eqb_spec c 60); [by repeat constructor|]. destruct (Z.eqb_spec c 62); [by repeat constructor|].
  destruct (Z.eqb_spec c 34); [by repeat constructor|]. destruct (Z.eqb_spec c 39); [by repeat constructor|].
  destruct (Z.eqb_spec c 38); [by repeat constructor|]. apply Forall_singleton. rewrite /markup /= !orb_false_iff !Z.eqb_neq. done.
Qed.

(** Nothing of an escaped text is read as markup. *)
Lemma htmlescape_markup html e r e' :
  evhttp_htmlescape (Some html) e = inr (r, e') -> ∀ c, r = Some c -> Forall (fun c => markup c = false) (s_text c).
Proof.
  rewrite /evhttp_htmlescape. destruct (escaped_size 0 html) as [m|]; [|by intros [= <- <-]]. destruct (m =? EV_SIZE_MAX); [by intros [= <- <-]|].
  rewrite /mbind /E_bind. destruct (mm_malloc e) as [|[[i|] e1]]; [done| |by intros [= <- <-]]. intros [= <- <-] c [= <-]. cbn.
  induction html as [|c html IH]; [constructor|]. cbn. apply Forall_app. split; [apply html_replace_markup|done].
Qed.
