(* ===== verification/EvQueryCorrect.v ===== *)
(** * Correctness of the escapes and queries of http.c *)

From Stdlib Require Import ssreflect.
From S2P Require Import Prelude CTypes HProp CMem CLib EvBuffer EvBufSpec EvBufQueue EvPrintOps EvUtil EvErr EvUri EvUriSpec EvMem EvUriOps EvQuery EvQueryOps.
Set Warnings "-rewrite-rw".
Open Scope general_if_scope.
Open Scope Z_scope.
#[local] Existing Instance only_loopback.

(** C26: Any bytes that evhttp_uriencode encodes come back from evhttp_uridecode,
    with their number; the text in between consists of unreserved characters, '%'
    and '+'.  If spaces were written as '+', the decoder has to be told. *)
Theorem evhttp_uridecode_uriencode t space_as_plus decode_plus e :
  Forall is_byte_val t -> Z.of_nat (length t) < 2 ^ 31 -> ev_oom e = [] -> (space_as_plus = true -> decode_plus = true) ->
  ∃ i enc e1 c e2, evhttp_uriencode t (Z.of_nat (length t)) space_as_plus e = inr (Some (i, Some <$> (enc ++ [0])), e1)
    ∧ Forall (fun c => uri_safe c = true) enc
    ∧ evhttp_uridecode enc decode_plus e1 = inr (Some (c, Z.of_nat (length t)), e2) ∧ s_text c = t.
Proof.
  intros Ht Hlen Hm Hsp. pose proof (runs_uriencode open_buffer t space_as_plus e
    (fun r e1 => ev_oom e1 = [] ∧ ∃ i, r = Some (i, Some <$> (encoded space_as_plus t ++ [0]))) Hm Hlen) as Hrun.
  specialize (Hrun ltac:(intros i e' He'; split; [done|by exists i])). rewrite /runs in Hrun.
  destruct (evhttp_uriencode t (Z.of_nat (length t)) space_as_plus e) as [|[r e1]]; [done|]. destruct Hrun as (He1 & i & ->).
  eexists i, (encoded space_as_plus t), e1, _, _. split; [done|]. split; [by apply encoded_safe|].
  rewrite /evhttp_uridecode /mbind /E_bind /mm_malloc He1 /evhttp_decode_uri_internal.
  assert (Hd : decode_loop (if decode_plus then 1 else 0) ((if decode_plus then 1 else 0) =? 1) (encoded space_as_plus t) = t).
  { apply decode_encoded; [done|]. intros H. by rewrite (Hsp H). }
  rewrite Hd. done.
Qed.

Lemma evhttp_uridecode_uriencode_witness :
  ∃ i enc e1 c e2, evhttp_uriencode [97; 32; 0; 43; 255] 5 true (EvEnv 1 [] []) = inr (Some (i, Some <$> (enc ++ [0])), e1)
    ∧ Forall (fun c => uri_safe c = true) enc
    ∧ evhttp_uridecode enc true e1 = inr (Some (c, 5), e2) ∧ s_text c = [97; 32; 0; 43; 255].
Proof.
  apply (evhttp_uridecode_uriencode [97; 32; 0; 43; 255] true true (EvEnv 1 [] [])).
  - repeat constructor; vm_compute; congruence.
  - reflexivity.
  - reflexivity.
  - intros _. reflexivity.
Defined.

(** The query that the arguments are taken from. *)
Definition query_of `{inet : InetPton} (t : list Z) (is_whole_uri : bool) (q : list Z) : Prop :=
  if is_whole_uri then ∃ p, valid_uri 0 p ∧ spells t p ∧ q = default [] (p_query p) else q = t.

(** C22: evhttp_parse_query and evhttp_parse_query_str, for any text and any
    outcome of the allocator: the list that comes out owns all the memory that is
    still allocated, and it is empty if the result is -1.  With memory a list that
    comes with 0 has the arguments of the query, in order, each split at its first
    '=' and with its value decoded. *)
Theorem evhttp_parse_query_arguments `{inet : InetPton} t is_whole_uri e :
  is_text t ->
  match evhttp_parse_query_impl t is_whole_uri e with
  | inl f => is_whole_uri = true ∧ f = IntOverflow ∧ big_port t
  | inr (r, hs, e') =>
      owned e (header_ids hs) e' ∧ (r = -1 ∧ hs = [] ∨ r = 0)
      ∧ (ev_oom e = [] -> r = 0 -> ∃ q, query_of t is_whole_uri q ∧ query_pairs q = Some (header_pairs hs))
      ∧ (ev_oom e = [] -> r = -1 -> is_whole_uri = false -> query_pairs t = None)
  end.
Proof.
  intros Ht. rewrite /evhttp_parse_query_impl. destruct is_whole_uri.
  - pose proof (eruns_parse t 0 e Ht) as H. rewrite /eruns in H. rewrite /evhttp_uri_parse /mbind /E_bind.
    destruct (evhttp_uri_parse_with_flags t 0 e) as [f|[[u|] e1]]; [done| |split_and!; [done|by left|done|done]].
    destruct H as (Ho & _ & Hv & Hsp).
    assert (Hq : runs (parse_arguments (evhttp_uri_get_query u) (Some u)) e1 (fun r e' =>
      owned e (header_ids (snd r)) e' ∧ (r = (-1, []) ∨ fst r = 0)
      ∧ (ev_oom e = [] -> fst r = 0 -> query_pairs (default [] (evhttp_uri_get_query u)) = Some (header_pairs (snd r))))).
    { apply (runs_parse_arguments e []); [intros s Hs; by apply valid_checked in Hv; apply (cu_query _ _ Hv)|by rewrite app_nil_r| |].
      - intros hs e' Ho' Hp. rewrite app_nil_r in Ho'. split_and!; [done|by right|by intros Hm _; apply Hp].
      - intros e' Ho' _. split_and!; [done|by left|done]. }
    rewrite /runs in Hq. destruct (parse_arguments _ _ e1) as [|[[r hs] e']]; [done|]. cbn [fst snd] in Hq. destruct Hq as (Ho' & Hr & Hp).
    split_and!; [done|by destruct Hr as [[= -> ->]|]; [left|right]| |done]. intros Hm Hr0. exists (default [] (evhttp_uri_get_query u)).
    split; [|by apply Hp]. by exists (uri_pieces u).
  - assert (Hq : runs (parse_arguments (Some t) None) e (fun r e' =>
      owned e (header_ids (snd r)) e' ∧ (r = (-1, []) ∧ (ev_oom e = [] -> query_pairs t = None)
        ∨ fst r = 0 ∧ (ev_oom e = [] -> query_pairs t = Some (header_pairs (snd r)))))).
    { apply (runs_parse_arguments e []); [by intros s [= <-]|apply owned_nothing| |].
      - intros hs e' Ho' Hp. rewrite app_nil_r in Ho'. split; [done|by right].
      - intros e' Ho' Hp. split; [done|by left]. }
    rewrite /runs in Hq. destruct (parse_arguments _ _ e) as [|[[r hs] e']]; [done|]. cbn [fst snd] in Hq.
    destruct Hq as (Ho & [[[= -> ->] Hp]|[-> Hp]]); split_and!; try done; [by left|by intros Hm _ _; apply Hp|by right|].
    intros Hm _. exists t. by split; [|apply Hp].
Qed.

Lemma evhttp_parse_query_arguments_witness :
  let t := str "/?a=1&b=x+%41&" in
  ∃ hs e', evhttp_parse_query_impl t true (EvEnv 1 [] []) = inr (0, hs, e')
    ∧ header_pairs hs = [(str "a", str "1"); (str "b", str "x A")] ∧ owned (EvEnv 1 [] []) (header_ids hs) e'.
Proof.
  intros t. assert (Ht : is_text t) by (vm_compute; repeat constructor).
  pose proof (evhttp_parse_query_arguments t true (EvEnv 1 [] []) Ht) as H.
  assert (Hrun : ∃ hs e', evhttp_parse_query_impl t true (EvEnv 1 [] []) = inr (0, hs, e') ∧ header_pairs hs = [(str "a", str "1"); (str "b", str "x A")]).
  { eexists _, _. split; vm_compute; reflexivity. }
  destruct Hrun as (hs & e' & Hrun & Hp). rewrite Hrun in H. exists hs, e'. split; [exact Hrun|]. split; [exact Hp|exact (proj1 H)].
Defined.

(** What a form sends is what comes out. *)
Lemma evhttp_parse_query_form `{inet : InetPton} sp kvs e :
  Forall sendable kvs -> ev_oom e = [] ->
  runs (evhttp_parse_query_str (query_text sp kvs)) e (fun r e' =>
    fst r = 0 ∧ header_pairs (snd r) = kvs ∧ owned e (header_ids (snd r)) e').
Proof.
  intros Hk Hm. destruct (query_pairs_text sp kvs Hk) as [Ht Hp]. rewrite /evhttp_parse_query_str /evhttp_parse_query_impl.
  apply (runs_parse_arguments e []); [by intros s [= <-]|apply owned_nothing| |].
  - intros hs e' Ho Hq. specialize (Hq Hm). cbn [default] in Hq. rewrite Hp in Hq. injection Hq as ->. by rewrite app_nil_r in Ho.
  - intros e' _ Hq. specialize (Hq Hm). cbn [default] in Hq. by rewrite Hp in Hq.
Qed.

(** C18: evhttp_add_header takes only a key without CR and LF and a value in which
    a space or a tab follows each line break, so nobody can put another header
    line, or the end of the header, into a value.  Then it keeps copies of both at
    the end of the list, where evhttp_find_header finds the value by the key
    without regard to case, behind those that were there.  Otherwise, or without
    memory, the list stays as it was and nothing is left allocated. *)
Theorem evhttp_add_header_guarded headers key value e :
  is_text key -> is_text value ->
  match evhttp_add_header headers key value e with
  | inl _ => False
  | inr (r, hs, e') =>
      (r = 0 ∧ existsb is_crlf key = false ∧ breaks_continue value = true ∧
        ∃ h, hs = headers ++ [h] ∧ header_pairs [h] = [(key, value)] ∧ owned e (header_ids [h]) e'
          ∧ ∀ k, is_text k -> evhttp_find_header hs k =
              match evhttp_find_header headers k with
              | Some v => Some v
              | None => if decide (EVUTIL_TOLOWER <$> key = EVUTIL_TOLOWER <$> k) then Some value else None
              end)
      ∨ (r = -1 ∧ hs = headers ∧ owned e [] e' ∧ (existsb is_crlf key = true ∨ breaks_continue value = false ∨ ev_oom e ≠ []))
  end.
Proof.
  intros Hk Hv. rewrite /evhttp_add_header valid_value_spec. destruct (existsb is_crlf key) eqn:Hcr.
  { right. split_and!; [done|done|apply owned_nothing|by left]. }
  destruct (breaks_continue value) eqn:Hb; cbn [negb].
  2: { right. split_and!; [done|done|apply owned_nothing|by right; left]. }
  assert (Hrun : runs (evhttp_add_header_internal headers key value) e (fun r e' =>
    (∃ h, r = (0, headers ++ [h]) ∧ header_pairs [h] = [(key, value)] ∧ owned e (header_ids [h]) e')
    ∨ r = (-1, headers) ∧ owned e [] e' ∧ ev_oom e ≠ [])).
  { apply (runs_add_header e [] headers); [done|apply owned_nothing| |by right].
    intros h e' Hp Ho. rewrite cut0_text // in Hp. rewrite app_nil_r in Ho. left. by exists h. }
  rewrite /runs in Hrun. destruct (evhttp_add_header_internal headers key value e) as [|[[r hs] e']]; [done|].
  destruct Hrun as [(h & [= -> ->] & Hp & Ho)|([= -> ->] & Ho & Hm)]; [left|right; split_and!; [done|done|done|by right; right]].
  split_and!; [done|done|done|]. exists h. split_and!; [done|done|done|]. intros k Htk. injection Hp as Hhk Hhv.
  rewrite /evhttp_find_header list_find_snoc. destruct (list_find (has_key k) headers) as [[i x]|]; [done|].
  rewrite /has_key. destruct (decide (evutil_ascii_strcasecmp (s_text (kv_key h)) k = 0)) as [Hz|Hz]; rewrite Hhk strcasecmp_zero // in Hz.
  - by rewrite decide_True // Hhv.
  - by rewrite decide_False.
Qed.

Lemma evhttp_add_header_guarded_witness :
  is_text (str "Host") ∧ is_text (str "a") ∧ ∃ h e', evhttp_add_header [] (str "Host") (str "a") (EvEnv 1 [] []) = inr (0, [h], e')
    ∧ evhttp_find_header [h] (str "hoST") = Some (str "a").
Proof.
  assert (Hk : is_text (str "Host")) by (vm_compute; repeat constructor). assert (Hv : is_text (str "a")) by (vm_compute; repeat constructor).
  assert (Hk2 : is_text (str "hoST")) by (vm_compute; repeat constructor).
  split; [exact Hk|]. split; [exact Hv|]. pose proof (evhttp_add_header_guarded [] (str "Host") (str "a") (EvEnv 1 [] []) Hk Hv) as H.
  assert (Hrun : ∃ h e', evhttp_add_header [] (str "Host") (str "a") (EvEnv 1 [] []) = inr (0, [h], e')) by (eexists _, _; vm_compute; reflexivity).
  destruct Hrun as (h & e' & Hrun). rewrite Hrun in H. exists h, e'. split; [exact Hrun|].
  destruct H as [(_ & _ & _ & h' & He & _ & _ & Hf)|(Hbad & _)]; [|discriminate Hbad].
  rewrite (Hf (str "hoST") Hk2). vm_compute. reflexivity.
Defined.
