(* ===== verification/EvHttp.v ===== *)
(** * libevent/http.c: messages

    The first line, the header lines and the body of a message, as they are read
    from and written to event buffers, and the choice of a virtual host.  A line is
    the text in front of its first NUL.  The bufferevent of a connection is its two
    buffers; what a function tells it, and what becomes of the connection, is in
    the result ([read_next]).  The time of day is an argument, as is the callback
    for chunks. *)

From S2P Require Import Prelude CTypes HProp CMem CLib EvBuffer EvSearch EvErr EvPrint EvUtil EvUri EvQuery.
Open Scope Z_scope.

(** ** Constants and structures *)

Definition EVHTTP_REQ_GET : Z := 1.
Definition EVHTTP_REQ_POST : Z := 2.
Definition EVHTTP_REQ_HEAD : Z := 4.
Definition EVHTTP_REQ_PUT : Z := 8.
Definition EVHTTP_REQ_DELETE : Z := 16.
Definition EVHTTP_REQ_OPTIONS : Z := 32.
Definition EVHTTP_REQ_TRACE : Z := 64.
Definition EVHTTP_REQ_CONNECT : Z := 128.
Definition EVHTTP_REQ_PATCH : Z := 256.
Definition EVHTTP_REQ_UNKNOWN : Z := 2 ^ 15.

Definition EVHTTP_PROXY_REQUEST : Z := 2.
Definition EVHTTP_REQ_DEFER_FREE : Z := 8.
Definition EVHTTP_REQ_NEEDS_FREE : Z := 16.

Definition HTTP_NOCONTENT : Z := 204.
Definition HTTP_NOTMODIFIED : Z := 304.
Definition HTTP_ENTITYTOOLARGE : Z := 413.
Definition HTTP_EXPECTATIONFAILED : Z := 417.

Inductive evhttp_request_kind := EVHTTP_REQUEST | EVHTTP_RESPONSE.

Inductive message_read_status := ALL_DATA_READ | MORE_DATA_EXPECTED | DATA_CORRUPTED | REQUEST_CANCELED | DATA_TOO_LONG.

Inductive evhttp_connection_error :=
| EVCON_HTTP_TIMEOUT | EVCON_HTTP_EOF | EVCON_HTTP_INVALID_HEADER | EVCON_HTTP_BUFFER_ERROR | EVCON_HTTP_REQUEST_CANCEL.

Inductive evhttp_connection_state :=
| EVCON_DISCONNECTED | EVCON_CONNECTING | EVCON_IDLE | EVCON_READING_FIRSTLINE | EVCON_READING_HEADERS
| EVCON_READING_BODY | EVCON_READING_TRAILER | EVCON_WRITING.

(** A callback for a path. *)
Record evhttp_cb := HttpCb { cb_what : list Z; cb_cb : Z }.

(** A server and its virtual hosts; the pattern of a server that is none is not
    looked at. *)
Inductive evhttp := Http (vhost_pattern : list Z) (callbacks : list evhttp_cb) (aliases : list (list Z)) (virtualhosts : list evhttp).

Definition vhost_pattern (h : evhttp) : list Z := let 'Http p _ _ _ := h in p.
Definition callbacks (h : evhttp) : list evhttp_cb := let 'Http _ c _ _ := h in c.
Definition aliases (h : evhttp) : list (list Z) := let 'Http _ _ a _ := h in a.
Definition virtualhosts (h : evhttp) : list evhttp := let 'Http _ _ _ v := h in v.

Record evhttp_connection := Connection {
  max_headers_size : Z;
  max_body_size : Z;
  http_server : option evhttp }.

Record evhttp_request := HttpRequest {
  hr_evcon : option evhttp_connection;
  hr_flags : Z;
  hr_input_headers : evkeyvalq;
  hr_output_headers : evkeyvalq;
  hr_kind : evhttp_request_kind;
  hr_type : Z;
  hr_headers_size : Z;
  hr_body_size : Z;
  hr_uri : option cstr;
  hr_uri_elems : option evhttp_uri;
  hr_major : Z;
  hr_minor : Z;
  hr_response_code : Z;
  hr_response_code_line : option cstr;
  hr_input_buffer : evbuffer;
  hr_ntoread : Z;
  hr_chunked : bool;
  hr_userdone : bool;
  hr_output_buffer : evbuffer }.

(** *** Changes of fields *)

Definition set_hr_flags (f : Z) (r : evhttp_request) : evhttp_request :=
  HttpRequest (hr_evcon r) f (hr_input_headers r) (hr_output_headers r) (hr_kind r) (hr_type r) (hr_headers_size r) (hr_body_size r) (hr_uri r) (hr_uri_elems r) (hr_major r) (hr_minor r)
    (hr_response_code r) (hr_response_code_line r) (hr_input_buffer r) (hr_ntoread r) (hr_chunked r) (hr_userdone r) (hr_output_buffer r).

Definition set_headers (i o : evkeyvalq) (r : evhttp_request) : evhttp_request :=
  HttpRequest (hr_evcon r) (hr_flags r) i o (hr_kind r) (hr_type r) (hr_headers_size r) (hr_body_size r) (hr_uri r) (hr_uri_elems r) (hr_major r) (hr_minor r)
    (hr_response_code r) (hr_response_code_line r) (hr_input_buffer r) (hr_ntoread r) (hr_chunked r) (hr_userdone r) (hr_output_buffer r).

Definition set_kind (k : evhttp_request_kind) (r : evhttp_request) : evhttp_request :=
  HttpRequest (hr_evcon r) (hr_flags r) (hr_input_headers r) (hr_output_headers r) k (hr_type r) (hr_headers_size r) (hr_body_size r) (hr_uri r) (hr_uri_elems r) (hr_major r) (hr_minor r)
    (hr_response_code r) (hr_response_code_line r) (hr_input_buffer r) (hr_ntoread r) (hr_chunked r) (hr_userdone r) (hr_output_buffer r).

Definition set_type (t : Z) (r : evhttp_request) : evhttp_request :=
  HttpRequest (hr_evcon r) (hr_flags r) (hr_input_headers r) (hr_output_headers r) (hr_kind r) t (hr_headers_size r) (hr_body_size r) (hr_uri r) (hr_uri_elems r) (hr_major r) (hr_minor r)
    (hr_response_code r) (hr_response_code_line r) (hr_input_buffer r) (hr_ntoread r) (hr_chunked r) (hr_userdone r) (hr_output_buffer r).

Definition set_sizes (h b : Z) (r : evhttp_request) : evhttp_request :=
  HttpRequest (hr_evcon r) (hr_flags r) (hr_input_headers r) (hr_output_headers r) (hr_kind r) (hr_type r) h b (hr_uri r) (hr_uri_elems r) (hr_major r) (hr_minor r)
    (hr_response_code r) (hr_response_code_line r) (hr_input_buffer r) (hr_ntoread r) (hr_chunked r) (hr_userdone r) (hr_output_buffer r).

Definition set_uri (s : option cstr) (u : option evhttp_uri) (r : evhttp_request) : evhttp_request :=
  HttpRequest (hr_evcon r) (hr_flags r) (hr_input_headers r) (hr_output_headers r) (hr_kind r) (hr_type r) (hr_headers_size r) (hr_body_size r) s u (hr_major r) (hr_minor r)
    (hr_response_code r) (hr_response_code_line r) (hr_input_buffer r) (hr_ntoread r) (hr_chunked r) (hr_userdone r) (hr_output_buffer r).

Definition set_version (major minor : Z) (r : evhttp_request) : evhttp_request :=
  HttpRequest (hr_evcon r) (hr_flags r) (hr_input_headers r) (hr_output_headers r) (hr_kind r) (hr_type r) (hr_headers_size r) (hr_body_size r) (hr_uri r) (hr_uri_elems r) major minor
    (hr_response_code r) (hr_response_code_line r) (hr_input_buffer r) (hr_ntoread r) (hr_chunked r) (hr_userdone r) (hr_output_buffer r).

Definition set_response (code : Z) (line : option cstr) (r : evhttp_request) : evhttp_request :=
  HttpRequest (hr_evcon r) (hr_flags r) (hr_input_headers r) (hr_output_headers r) (hr_kind r) (hr_type r) (hr_headers_size r) (hr_body_size r) (hr_uri r) (hr_uri_elems r) (hr_major r) (hr_minor r)
    code line (hr_input_buffer r) (hr_ntoread r) (hr_chunked r) (hr_userdone r) (hr_output_buffer r).

Definition set_ntoread (n : Z) (r : evhttp_request) : evhttp_request :=
  HttpRequest (hr_evcon r) (hr_flags r) (hr_input_headers r) (hr_output_headers r) (hr_kind r) (hr_type r) (hr_headers_size r) (hr_body_size r) (hr_uri r) (hr_uri_elems r) (hr_major r) (hr_minor r)
    (hr_response_code r) (hr_response_code_line r) (hr_input_buffer r) n (hr_chunked r) (hr_userdone r) (hr_output_buffer r).

Definition set_chunked (c : bool) (r : evhttp_request) : evhttp_request :=
  HttpRequest (hr_evcon r) (hr_flags r) (hr_input_headers r) (hr_output_headers r) (hr_kind r) (hr_type r) (hr_headers_size r) (hr_body_size r) (hr_uri r) (hr_uri_elems r) (hr_major r) (hr_minor r)
    (hr_response_code r) (hr_response_code_line r) (hr_input_buffer r) (hr_ntoread r) c (hr_userdone r) (hr_output_buffer r).

Definition set_userdone (d : bool) (r : evhttp_request) : evhttp_request :=
  HttpRequest (hr_evcon r) (hr_flags r) (hr_input_headers r) (hr_output_headers r) (hr_kind r) (hr_type r) (hr_headers_size r) (hr_body_size r) (hr_uri r) (hr_uri_elems r) (hr_major r) (hr_minor r)
    (hr_response_code r) (hr_response_code_line r) (hr_input_buffer r) (hr_ntoread r) (hr_chunked r) d (hr_output_buffer r).

Definition set_buffers (i o : evbuffer) (r : evhttp_request) : evhttp_request :=
  HttpRequest (hr_evcon r) (hr_flags r) (hr_input_headers r) (hr_output_headers r) (hr_kind r) (hr_type r) (hr_headers_size r) (hr_body_size r) (hr_uri r) (hr_uri_elems r) (hr_major r) (hr_minor r)
    (hr_response_code r) (hr_response_code_line r) i (hr_ntoread r) (hr_chunked r) (hr_userdone r) o.

(** ** The C library *)

(** printf's %x of an unsigned number. *)
Definition hex_lower (n : Z) : Z := if n <? 10 then 48 + n else 87 + n.

Fixpoint hex_digits (fuel : nat) (n : Z) : list Z :=
  match fuel with
  | O => []
  | S fuel => if n <? 16 then [hex_lower n] else hex_digits fuel (n / 16) ++ [hex_lower (n mod 16)]
  end.

Definition hex (n : Z) : list Z := hex_digits (S (Z.to_nat (Z.log2 n))) n.

(** strtoll(s, &endp, 16): the value, and what is left of the text. *)
Definition strtoll16 (s : list Z) : Z * list Z :=
  let r := default (0%nat, []) (skip_space (s ++ [0])) in
  let '(sg, k1, bs) := scan_sign (snd r) in
  let prefix := match bs with z :: x :: h :: _ => (z =? 48) && ((x =? 120) || (x =? 88)) && EVUTIL_ISXDIGIT h | _ => false end in
  let k2 := if prefix then 2%nat else 0%nat in
  let '(v, n) := hex_val 0 (drop k2 bs) in
  match n with
  | O => (0, s)
  | _ => (fst (clamp_long (sg * v)), drop (fst r + k1 + k2 + n) s)
  end.

(** strtoll(s, &endp, 10): the same. *)
Definition strtoll10 (s : list Z) : Z * list Z :=
  match strtol (s ++ [0]) with Some r => (st_val r, drop (Z.to_nat (st_end r)) s) | None => (0, s) end.

Definition atoi (s : list Z) : Z := s32 (fst (strtoll10 s)).

Fixpoint scan_str (t s : list Z) : option (list Z) :=
  match t with
  | [] => Some s
  | c :: t => s ← scan_c c s; scan_str t s
  end.

(** sscanf(s, "HTTP/%d.%d%c", ...) != 2 is [None]. *)
Definition scan_version (s : list Z) : option (Z * Z) :=
  s ← scan_str (str "HTTP/") s;
  '(major, s) ← scan_d s; s ← scan_c 46 s;
  '(minor, s) ← scan_d s;
  match s with [] => Some (major, minor) | _ => None end.

Definition mm_realloc (s : cstr) (text : list Z) : E (option cstr) :=
  i ← mm_malloc;
  match i with
  | None => mret None
  | Some i => _ ← mm_free (s_id s); mret (Some (Cstr i text))
  end.

(** ** Methods and codes *)

(** [None] is NULL. *)
Definition evhttp_method (type : Z) : option (list Z) :=
  if type =? EVHTTP_REQ_GET then Some (str "GET")
  else if type =? EVHTTP_REQ_POST then Some (str "POST")
  else if type =? EVHTTP_REQ_HEAD then Some (str "HEAD")
  else if type =? EVHTTP_REQ_PUT then Some (str "PUT")
  else if type =? EVHTTP_REQ_DELETE then Some (str "DELETE")
  else if type =? EVHTTP_REQ_OPTIONS then Some (str "OPTIONS")
  else if type =? EVHTTP_REQ_TRACE then Some (str "TRACE")
  else if type =? EVHTTP_REQ_CONNECT then Some (str "CONNECT")
  else if type =? EVHTTP_REQ_PATCH then Some (str "PATCH")
  else None.

Definition evhttp_method_may_have_body (type : Z) : bool :=
  (type =? EVHTTP_REQ_POST) || (type =? EVHTTP_REQ_PUT) || (type =? EVHTTP_REQ_PATCH).

Definition evhttp_response_needs_body (r : evhttp_request) : bool :=
  negb (hr_response_code r =? HTTP_NOCONTENT) && negb (hr_response_code r =? HTTP_NOTMODIFIED)
  && ((hr_response_code r <? 100) || (200 <=? hr_response_code r)) && negb (hr_type r =? EVHTTP_REQ_HEAD).

Definition informational_phrases : list (list Z) := [str "Continue"; str "Switching Protocols"].
Definition success_phrases : list (list Z) :=
  [str "OK"; str "Created"; str "Accepted"; str "Non-Authoritative Information"; str "No Content"; str "Reset Content"; str "Partial Content"].
Definition redirection_phrases : list (list Z) :=
  [str "Multiple Choices"; str "Moved Permanently"; str "Found"; str "See Other"; str "Not Modified"; str "Use Proxy"; str "Temporary Redirect"].
Definition client_error_phrases : list (list Z) :=
  [str "Bad Request"; str "Unauthorized"; str "Payment Required"; str "Forbidden"; str "Not Found"; str "Method Not Allowed"; str "Not Acceptable";
   str "Proxy Authentication Required"; str "Request Time-out"; str "Conflict"; str "Gone"; str "Length Required"; str "Precondition Failed";
   str "Request Entity Too Large"; str "Request-URI Too Large"; str "Unsupported Media Type"; str "Requested range not satisfiable"; str "Expectation Failed"].
Definition server_error_phrases : list (list Z) :=
  [str "Internal Server Error"; str "Not Implemented"; str "Bad Gateway"; str "Service Unavailable"; str "Gateway Time-out"; str "HTTP Version not supported"].

Definition response_classes : list (list Z * list (list Z)) :=
  [(str "Informational", informational_phrases); (str "Success", success_phrases); (str "Redirection", redirection_phrases);
   (str "Client Error", client_error_phrases); (str "Server Error", server_error_phrases)].

Definition evhttp_response_phrase_internal (code : Z) : list Z :=
  let klass := Z.quot code 100 - 1 in
  let subcode := Z.rem code 100 in
  if klass <? 0 then str "Unknown Status Class"
  else
    match response_classes !! Z.to_nat klass with
    | None => str "Unknown Status Class"
    | Some (name, phrases) => default name (phrases !! Z.to_nat subcode)
    end.

Definition evhttp_response_code (r : evhttp_request) (code : Z) (reason : option (list Z)) : E evhttp_request :=
  _ ← free_str (hr_response_code_line r);
  line ← mm_strdup (default (evhttp_response_phrase_internal code) reason);
  mret (set_response code line (set_kind EVHTTP_RESPONSE r)).

(** ** Virtual hosts *)

Fixpoint prefix_suffix_match (pattern name : list Z) (ignorecase : bool) : bool :=
  match pattern with
  | [] => match name with [] => true | _ => false end
  | c :: pattern =>
      if c =? 42 then
        (fix star (name : list Z) : bool :=
           match name with
           | [] => false
           | _ :: name' => prefix_suffix_match pattern name ignorecase || star name'
           end) name
      else
        match name with
        | [] => false
        | x :: name =>
            if negb (c =? x) && (negb ignorecase || negb (EVUTIL_TOLOWER c =? EVUTIL_TOLOWER x)) then false
            else prefix_suffix_match pattern name ignorecase
        end
  end.

(** The server that has the alias. *)
Fixpoint evhttp_find_alias (http : evhttp) (hostname : list Z) : option evhttp :=
  if existsb (fun a => evutil_ascii_strcasecmp a hostname =? 0) (aliases http) then Some http
  else
    (fix each (vhosts : list evhttp) : option evhttp :=
       match vhosts with
       | [] => None
       | vhost :: vhosts =>
           match evhttp_find_alias vhost hostname with Some h => Some h | None => each vhosts end
       end) (virtualhosts http).

(** The loop over the patterns: the innermost server that was reached. *)
Fixpoint find_vhost_loop (http : evhttp) (match_found : bool) (hostname : list Z) : bool * evhttp :=
  (fix each (vhosts : list evhttp) : bool * evhttp :=
     match vhosts with
     | [] => (match_found, http)
     | vhost :: vhosts =>
         if prefix_suffix_match (vhost_pattern vhost) hostname true then find_vhost_loop vhost true hostname else each vhosts
     end) (virtualhosts http).

(** The result, and what is stored at [outhttp]. *)
Definition evhttp_find_vhost (http : evhttp) (hostname : list Z) : bool * evhttp :=
  match evhttp_find_alias http hostname with
  | Some h => (true, h)
  | None => find_vhost_loop http false hostname
  end.

Definition evhttp_dispatch_callback (cbs : list evhttp_cb) (r : evhttp_request) : E (option evhttp_cb) :=
  match hr_uri_elems r with
  | None => e_fail NullDeref
  | Some u =>
      match evhttp_uri_get_path u with
      | None => e_fail NullDeref
      | Some path =>
          translated ← mm_malloc;
          match translated with
          | None => mret None
          | Some i =>
              let t := cut0 (evhttp_decode_uri_internal path 0) in
              _ ← mm_free i;
              mret (snd <$> list_find (fun cb => cb_what cb = t) cbs)
          end
      end
  end.

(** ** The first line *)

Definition evhttp_valid_response_code (code : Z) : bool := negb (code =? 0).

Definition evhttp_parse_http_version (version : list Z) : G evhttp_request unit :=
  match scan_version version with
  | Some (major, minor) => if 1 <? major then goto_err else change (set_version (s8 major) (s8 minor))
  | None => goto_err
  end.

Definition evhttp_parse_response_line (line : list Z) : G evhttp_request unit :=
  let '(protocol, line) := strsep 32 line in
  match line with
  | None => goto_err
  | Some line =>
      let '(number, line) := strsep 32 line in
      let readable := default [] line in
      _ ← evhttp_parse_http_version protocol;
      l ← look hr_response_code_line;
      _ ← change (set_response (atoi number) l);
      if negb (evhttp_valid_response_code (atoi number)) then goto_err
      else
        s ← here (mm_strdup readable);
        _ ← change (set_response (atoi number) s);
        match s with Some _ => mret tt | None => goto_err end
  end.

Definition method_type (method : list Z) : Z :=
  if decide (method = str "GET") then EVHTTP_REQ_GET
  else if decide (method = str "POST") then EVHTTP_REQ_POST
  else if decide (method = str "HEAD") then EVHTTP_REQ_HEAD
  else if decide (method = str "PUT") then EVHTTP_REQ_PUT
  else if decide (method = str "DELETE") then EVHTTP_REQ_DELETE
  else if decide (method = str "OPTIONS") then EVHTTP_REQ_OPTIONS
  else if decide (method = str "TRACE") then EVHTTP_REQ_TRACE
  else if decide (method = str "PATCH") then EVHTTP_REQ_PATCH
  else EVHTTP_REQ_UNKNOWN.

(** Whether a server does not know the host of an absolute URI for HTTP. *)
Definition is_proxy_uri (evcon : option evhttp_connection) (u : evhttp_uri) : E bool :=
  match evhttp_uri_get_scheme u, evhttp_uri_get_host u with
  | Some scheme, Some hostname =>
      if (evutil_ascii_strcasecmp scheme (str "http") =? 0) || (evutil_ascii_strcasecmp scheme (str "https") =? 0) then
        match evcon with
        | Some (Connection _ _ (Some http)) => mret (negb (fst (evhttp_find_vhost http hostname)))
        | _ => e_fail NullDeref
        end
      else mret false
  | _, _ => mret false
  end.

Definition evhttp_parse_request_line `{inet : InetPton} (line : list Z) : G evhttp_request unit :=
  let '(method, line) := strsep 32 line in
  match line with
  | None => goto_err
  | Some line =>
      let '(uri, line) := strsep 32 line in
      match line with
      | None => goto_err
      | Some line =>
          let '(version, line) := strsep 32 line in
          match line with
          | Some _ => goto_err
          | None =>
              _ ← change (set_type (method_type method));
              _ ← evhttp_parse_http_version version;
              s ← here (mm_strdup uri);
              elems ← look hr_uri_elems;
              _ ← change (set_uri s elems);
              match s with
              | None => goto_err
              | Some s =>
                  u ← here (evhttp_uri_parse_with_flags (s_text s) EVHTTP_URI_NONCONFORMANT);
                  _ ← change (set_uri (Some s) u);
                  match u with
                  | None => goto_err
                  | Some u =>
                      evcon ← look hr_evcon;
                      proxy ← here (is_proxy_uri evcon u);
                      change (fun r => if proxy : bool then set_hr_flags (Z.lor (hr_flags r) EVHTTP_PROXY_REQUEST) r else r)
                  end
              end
          end
      end
  end.

Definition over_headers_size (r : evhttp_request) (size : Z) : bool :=
  match hr_evcon r with Some c => max_headers_size c <? size | None => false end.

Definition evhttp_parse_firstline `{inet : InetPton} (r : evhttp_request) (buffer : evbuffer) : E (message_read_status * evhttp_request * evbuffer) :=
  '(line, line_length, buffer) ← evbuffer_readln buffer EVBUFFER_EOL_CRLF;
  match line with
  | None => mret (if over_headers_size r (evbuffer_get_length buffer) then DATA_TOO_LONG else MORE_DATA_EXPECTED, r, buffer)
  | Some (i, bytes) =>
      if over_headers_size r line_length then _ ← mm_free i; mret (DATA_TOO_LONG, r, buffer)
      else
        line ← c_str bytes;
        let r := set_sizes line_length (hr_body_size r) r in
        '(ok, r) ← match hr_kind r with
                   | EVHTTP_REQUEST => evhttp_parse_request_line line r
                   | EVHTTP_RESPONSE => evhttp_parse_response_line line r
                   end;
        _ ← mm_free i;
        mret (match ok with Some _ => ALL_DATA_READ | None => DATA_CORRUPTED end, r, buffer)
  end.

(** ** Header lines *)

(** [None] is -1. *)
Definition evhttp_append_to_last_header (headers : evkeyvalq) (line : list Z) : E (option evkeyvalq) :=
  match list.last headers with
  | None => mret None
  | Some h =>
      v ← mm_realloc (kv_value h) (s_text (kv_value h) ++ line);
      mret (match v with
            | None => None
            | Some v => Some (removelast headers ++ [Keyval (kv_id h) (kv_key h) v])
            end)
  end.

(** What one line does to the headers: the headers and whether they go on
    ([Some true]), are complete ([Some false]), or are wrong. *)
Definition header_line (headers : evkeyvalq) (line : list Z) : E (option bool * evkeyvalq) :=
  match line with
  | [] => mret (Some false, headers)
  | c :: _ =>
      if (c =? 32) || (c =? 9) then
        h ← evhttp_append_to_last_header headers line;
        mret (match h with Some headers => (Some true, headers) | None => (None, headers) end)
      else
        let '(skey, svalue) := strsep 58 line in
        match svalue with
        | None => mret (None, headers)
        | Some svalue =>
            '(r, headers) ← evhttp_add_header headers skey (skip_until (fun c => negb (c =? 32)) svalue);
            mret (if r =? -1 then None else Some true, headers)
        end
  end.

(** A turn takes at least one byte from the buffer. *)
Fixpoint headers_loop (fuel : nat) (r : evhttp_request) (buffer : evbuffer) : E (message_read_status * evhttp_request * evbuffer) :=
  match fuel with
  | O => e_fail AssertFailed
  | S fuel =>
      '(line, line_length, buffer) ← evbuffer_readln buffer EVBUFFER_EOL_CRLF;
      match line with
      | None =>
          mret (if over_headers_size r (u64 (hr_headers_size r + evbuffer_get_length buffer)) then DATA_TOO_LONG else MORE_DATA_EXPECTED, r, buffer)
      | Some (i, bytes) =>
          let r := set_sizes (u64 (hr_headers_size r + line_length)) (hr_body_size r) r in
          if over_headers_size r (hr_headers_size r) then _ ← mm_free i; mret (DATA_TOO_LONG, r, buffer)
          else
            line ← c_str bytes;
            '(more, headers) ← header_line (hr_input_headers r) line;
            let r := set_headers headers (hr_output_headers r) r in
            _ ← mm_free i;
            match more with
            | Some true => headers_loop fuel r buffer
            | Some false => mret (ALL_DATA_READ, r, buffer)
            | None => mret (DATA_CORRUPTED, r, buffer)
            end
      end
  end.

Definition evhttp_parse_headers (r : evhttp_request) (buffer : evbuffer) : E (message_read_status * evhttp_request * evbuffer) :=
  headers_loop (S (Z.to_nat (evbuffer_get_length buffer))) r buffer.

(** ** Reading the body *)

(** [ntoread] is stored; [false] is -1. *)
Definition evhttp_get_body_length (r : evhttp_request) : bool * evhttp_request :=
  let content_length := evhttp_find_header (hr_input_headers r) (str "Content-Length") in
  let connection := evhttp_find_header (hr_input_headers r) (str "Connection") in
  match content_length, connection with
  | None, None => (true, set_ntoread (-1) r)
  | None, Some connection =>
      if negb (evutil_ascii_strcasecmp connection (str "Close") =? 0) then (false, r) else (true, set_ntoread (-1) r)
  | Some content_length, _ =>
      let '(ntoread, endp) := strtoll10 content_length in
      if bool_decide (content_length = []) || negb (bool_decide (endp = [])) || (ntoread <? 0) then (false, r)
      else (true, set_ntoread ntoread r)
  end.

Section reading.
Context `{inet : InetPton} (chunk_cb : option (evhttp_request -> E evhttp_request)).

(** What the callback leaves in the input buffer is dropped behind it in a chunk,
    and in front of the test for a request to be freed. *)
Definition run_chunk_cb (cb : evhttp_request -> E evhttp_request) (r : evhttp_request) : E evhttp_request :=
  r ← cb (set_hr_flags (Z.lor (hr_flags r) EVHTTP_REQ_DEFER_FREE) r);
  '(_, b) ← evbuffer_drain (hr_input_buffer r) (evbuffer_get_length (hr_input_buffer r));
  mret (set_hr_flags (Z.land (hr_flags r) (Z.lnot EVHTTP_REQ_DEFER_FREE)) (set_buffers b (hr_output_buffer r) r)).

(** A line with the size of a chunk: [None] goes on. *)
Definition chunk_size (line : list Z) (r : evhttp_request) : E (option message_read_status * evhttp_request) :=
  let '(ntoread, endp) := strtoll16 line in
  if negb (bool_decide (endp = []) || (hd 0 endp =? 32)) || (ntoread <? 0) then mret (Some DATA_CORRUPTED, r)
  else if EV_SIZE_MAX - hr_body_size r <? ntoread then mret (Some DATA_CORRUPTED, r)
  else
    match hr_evcon r with
    | None => e_fail NullDeref
    | Some c =>
        if max_body_size c <? hr_body_size r + ntoread then mret (Some DATA_TOO_LONG, r)
        else
          let r := set_ntoread ntoread (set_sizes (hr_headers_size r) (hr_body_size r + ntoread) r) in
          mret (if ntoread =? 0 then Some ALL_DATA_READ else None, r)
    end.

(** The data of a chunk that has arrived. *)
Definition chunk_data (r : evhttp_request) (buf : evbuffer) : E (option message_read_status * evhttp_request * evbuffer) :=
  '(_, buf, input) ← evbuffer_remove_buffer buf (hr_input_buffer r) (hr_ntoread r);
  let r := set_ntoread (-1) (set_buffers input (hr_output_buffer r) r) in
  match chunk_cb with
  | None => mret (None, r, buf)
  | Some cb =>
      r ← run_chunk_cb cb r;
      mret (if has_flag EVHTTP_REQ_NEEDS_FREE (hr_flags r) then Some REQUEST_CANCELED else None, r, buf)
  end.

(** A turn takes a line or the data of a chunk from the buffer. *)
Fixpoint chunked_loop (fuel : nat) (r : evhttp_request) (buf : evbuffer) : E (message_read_status * evhttp_request * evbuffer) :=
  match fuel with
  | O => e_fail AssertFailed
  | S fuel =>
      let buflen := evbuffer_get_length buf in
      if buflen =? 0 then mret (MORE_DATA_EXPECTED, r, buf)
      else if EV_SSIZE_MAX <? buflen then mret (DATA_CORRUPTED, r, buf)
      else if hr_ntoread r <? 0 then
        '(p, _, buf) ← evbuffer_readln buf EVBUFFER_EOL_CRLF;
        match p with
        | None => mret (MORE_DATA_EXPECTED, r, buf)
        | Some (i, bytes) =>
            line ← c_str bytes;
            match line with
            | [] => _ ← mm_free i; chunked_loop fuel r buf
            | _ =>
                _ ← mm_free i;
                '(stop, r) ← chunk_size line r;
                match stop with Some status => mret (status, r, buf) | None => chunked_loop fuel r buf end
            end
        end
      else if EV_SSIZE_MAX <? hr_ntoread r then mret (DATA_CORRUPTED, r, buf)
      else if (0 <? hr_ntoread r) && (buflen <? hr_ntoread r) then mret (MORE_DATA_EXPECTED, r, buf)
      else
        '(stop, r, buf) ← chunk_data r buf;
        match stop with Some status => mret (status, r, buf) | None => chunked_loop fuel r buf end
  end.

Definition evhttp_handle_chunked_read (r : evhttp_request) (buf : evbuffer) : E (message_read_status * evhttp_request * evbuffer) :=
  chunked_loop (S (S (Z.to_nat (evbuffer_get_length buf)))) r buf.

(** ** A connection that reads a message

    What becomes of the connection when a read callback returns: it waits for more
    data, evhttp_connection_fail is called, evhttp_connection_done is called, the
    request is freed, an error is sent, or, behind an answer of 100 Continue, it
    starts over. *)
Inductive read_next :=
| ReadsMore
| Fails (error : evhttp_connection_error)
| Done
| Frees
| SendsError (code : Z)
| StartsOver.

(** [rc_continued]: evhttp_send_continue was called. *)
Record reading := Reading {
  rc_state : evhttp_connection_state;
  rc_req : evhttp_request;
  rc_input : evbuffer;
  rc_continued : bool }.

Definition evhttp_read_trailer (s : reading) : E (read_next * reading) :=
  '(status, r, buf) ← evhttp_parse_headers (rc_req s) (rc_input s);
  mret (match status with
        | DATA_CORRUPTED | DATA_TOO_LONG => Fails EVCON_HTTP_INVALID_HEADER
        | ALL_DATA_READ => Done
        | MORE_DATA_EXPECTED | REQUEST_CANCELED => ReadsMore
        end, Reading (rc_state s) r buf (rc_continued s)).

(** From the test for a body that is too long on. *)
Definition body_read (s : reading) : E (read_next * reading) :=
  let r := rc_req s in
  match hr_evcon r with
  | None => e_fail NullDeref
  | Some c =>
      if (max_body_size c <? hr_body_size r) || (negb (hr_chunked r) && (0 <=? hr_ntoread r) && (max_body_size c <? hr_ntoread r)) then
        mret (Fails EVCON_HTTP_INVALID_HEADER, s)
      else
        '(freed, r) ← (match chunk_cb with
                       | Some cb =>
                           if 0 <? evbuffer_get_length (hr_input_buffer r) then
                             r ← run_chunk_cb cb r;
                             mret (has_flag EVHTTP_REQ_NEEDS_FREE (hr_flags r), r)
                           else mret (false, r)
                       | None => mret (false, r)
                       end);
        let s := Reading (rc_state s) r (rc_input s) (rc_continued s) in
        if freed : bool then mret (Frees, s)
        else if hr_ntoread r =? 0 then mret (Done, s)
        else mret (ReadsMore, s)
  end.

Definition evhttp_read_body (s : reading) : E (read_next * reading) :=
  let r := rc_req s in
  let buf := rc_input s in
  let len := evbuffer_get_length buf in
  if hr_chunked r then
    '(status, r, buf) ← evhttp_handle_chunked_read r buf;
    let s := Reading (rc_state s) r buf (rc_continued s) in
    match status with
    | ALL_DATA_READ => evhttp_read_trailer (Reading EVCON_READING_TRAILER r buf (rc_continued s))
    | DATA_CORRUPTED | DATA_TOO_LONG => mret (Fails EVCON_HTTP_INVALID_HEADER, s)
    | REQUEST_CANCELED => mret (Frees, s)
    | MORE_DATA_EXPECTED => body_read s
    end
  else if hr_ntoread r <? 0 then
    if u64 (hr_body_size r + len) <? hr_body_size r then mret (Fails EVCON_HTTP_INVALID_HEADER, s)
    else
      '(_, input, buf) ← evbuffer_add_buffer (hr_input_buffer r) buf;
      let r := set_buffers input (hr_output_buffer r) (set_sizes (hr_headers_size r) (u64 (hr_body_size r + len)) r) in
      body_read (Reading (rc_state s) r buf (rc_continued s))
  else if (match chunk_cb with Some _ => true | None => false end) || (hr_ntoread r <=? len) then
    let n := Z.min len (hr_ntoread r) in
    '(_, buf, input) ← evbuffer_remove_buffer buf (hr_input_buffer r) n;
    let r := set_ntoread (hr_ntoread r - n) (set_sizes (hr_headers_size r) (u64 (hr_body_size r + n)) r) in
    body_read (Reading (rc_state s) (set_buffers input (hr_output_buffer r) r) buf (rc_continued s))
  else body_read s.

Definition version_atleast (r : evhttp_request) (major minor : Z) : bool :=
  (major <? hr_major r) || ((hr_major r =? major) && (minor <=? hr_minor r)).

(** An answer to Expect: the error to send, or whether to send 100 Continue. *)
Definition expectation (r : evhttp_request) (buf : evbuffer) : option Z * bool :=
  match hr_kind r, evhttp_find_header (hr_input_headers r) (str "Expect") with
  | EVHTTP_REQUEST, Some expect =>
      if negb (version_atleast r 1 1) then (None, false)
      else if evutil_ascii_strcasecmp expect (str "100-continue") =? 0 then
        let too_large := match hr_evcon r with
                         | Some c => (0 <? hr_ntoread r) && (max_body_size c <=? 2 ^ 63 - 1) && (max_body_size c <? hr_ntoread r)
                         | None => false
                         end in
        if too_large then (Some HTTP_ENTITYTOOLARGE, false) else (None, evbuffer_get_length buf =? 0)
      else (Some HTTP_EXPECTATIONFAILED, false)
  | _, _ => (None, false)
  end.

Definition is_chunked (r : evhttp_request) : bool :=
  match evhttp_find_header (hr_input_headers r) (str "Transfer-Encoding") with
  | Some xfer_enc => evutil_ascii_strcasecmp xfer_enc (str "chunked") =? 0
  | None => false
  end.

Definition is_request (r : evhttp_request) : bool := match hr_kind r with EVHTTP_REQUEST => true | EVHTTP_RESPONSE => false end.

Definition evhttp_get_body (s : reading) : E (read_next * reading) :=
  let r := rc_req s in
  if is_request r && negb (evhttp_method_may_have_body (hr_type r)) then mret (Done, s)
  else
    let '(ok, r) := if is_chunked r then (true, set_ntoread (-1) (set_chunked true r)) else evhttp_get_body_length r in
    let s := Reading EVCON_READING_BODY r (rc_input s) (rc_continued s) in
    if negb ok then mret (Fails EVCON_HTTP_INVALID_HEADER, s)
    else if negb (is_chunked r) && is_request r && (hr_ntoread r <? 1) then mret (Done, s)
    else
      match expectation r (rc_input s) with
      | (Some code, _) => mret (SendsError code, s)
      | (None, continue) => evhttp_read_body (Reading EVCON_READING_BODY r (rc_input s) (rc_continued s || continue))
      end.

Definition evhttp_read_header (s : reading) : E (read_next * reading) :=
  '(status, r, buf) ← evhttp_parse_headers (rc_req s) (rc_input s);
  let s := Reading (rc_state s) r buf (rc_continued s) in
  match status with
  | DATA_CORRUPTED | DATA_TOO_LONG => mret (Fails EVCON_HTTP_INVALID_HEADER, s)
  | MORE_DATA_EXPECTED => mret (ReadsMore, s)
  | ALL_DATA_READ | REQUEST_CANCELED =>
      match hr_kind r with
      | EVHTTP_REQUEST => evhttp_get_body s
      | EVHTTP_RESPONSE =>
          if hr_response_code r =? 100 then mret (StartsOver, Reading EVCON_READING_FIRSTLINE r buf (rc_continued s))
          else if negb (evhttp_response_needs_body r) then mret (Done, s)
          else evhttp_get_body s
      end
  end.

Definition evhttp_read_firstline (s : reading) : E (read_next * reading) :=
  '(status, r, buf) ← evhttp_parse_firstline (rc_req s) (rc_input s);
  let s := Reading (rc_state s) r buf (rc_continued s) in
  match status with
  | DATA_CORRUPTED | DATA_TOO_LONG => mret (Fails EVCON_HTTP_INVALID_HEADER, s)
  | MORE_DATA_EXPECTED => mret (ReadsMore, s)
  | ALL_DATA_READ | REQUEST_CANCELED => evhttp_read_header (Reading EVCON_READING_HEADERS r buf (rc_continued s))
  end.

(** In the states in which a connection reads a message. *)
Definition evhttp_read_cb (s : reading) : E (read_next * reading) :=
  match rc_state s with
  | EVCON_READING_FIRSTLINE => evhttp_read_firstline s
  | EVCON_READING_HEADERS => evhttp_read_header s
  | EVCON_READING_BODY => evhttp_read_body s
  | EVCON_READING_TRAILER => evhttp_read_trailer s
  | _ => e_fail AssertFailed
  end.

End reading.

(** ** Writing a message *)

Definition evhttp_is_connection_close (flags : Z) (headers : evkeyvalq) : bool :=
  if has_flag EVHTTP_PROXY_REQUEST flags then
    match evhttp_find_header headers (str "Proxy-Connection") with
    | None => true
    | Some connection => negb (evutil_ascii_strcasecmp connection (str "keep-alive") =? 0)
    end
  else
    match evhttp_find_header headers (str "Connection") with
    | None => false
    | Some connection => evutil_ascii_strcasecmp connection (str "close") =? 0
    end.

Definition evhttp_is_connection_keepalive (headers : evkeyvalq) : bool :=
  match evhttp_find_header headers (str "Connection") with
  | None => false
  | Some connection => evutil_ascii_strncasecmp 10 connection (str "keep-alive") =? 0
  end.

Definition no_header (headers : evkeyvalq) (key : list Z) : bool :=
  match evhttp_find_header headers key with None => true | Some _ => false end.

(** What evhttp_add_header leaves, whatever it returns. *)
Definition with_header (headers : evkeyvalq) (key value : list Z) : E evkeyvalq :=
  '(_, headers) ← evhttp_add_header headers key value; mret headers.

Definition without_header (headers : evkeyvalq) (key : list Z) : E evkeyvalq :=
  '(_, headers) ← evhttp_remove_header headers key; mret headers.

(** [None]: strftime made no text of the time. *)
Definition evhttp_maybe_add_date_header (headers : evkeyvalq) (date : option (list Z)) : E evkeyvalq :=
  match date with
  | Some date => if no_header headers (str "Date") then with_header headers (str "Date") date else mret headers
  | None => mret headers
  end.

Definition evhttp_maybe_add_content_length_header (headers : evkeyvalq) (content_length : Z) : E evkeyvalq :=
  if no_header headers (str "Transfer-Encoding") && no_header headers (str "Content-Length") then
    with_header headers (str "Content-Length") (dec content_length)
  else mret headers.

Definition crlf : list Z := [13; 10].

Definition set_output_headers (h : evkeyvalq) (r : evhttp_request) : evhttp_request := set_headers (hr_input_headers r) h r.

(** The method, the URI and the version. *)
Definition request_line (method uri : list Z) (major minor : Z) : list Z :=
  method ++ 32 :: uri ++ 32 :: str "HTTP/" ++ dec major ++ 46 :: dec minor ++ crlf.

Definition status_line (major minor code : Z) (reason : list Z) : list Z :=
  str "HTTP/" ++ dec major ++ 46 :: dec minor ++ 32 :: dec code ++ 32 :: reason ++ crlf.

Definition evhttp_make_header_request (output : evbuffer) (r : evhttp_request) : E (evbuffer * evhttp_request) :=
  headers ← without_header (hr_output_headers r) (str "Proxy-Connection");
  match evhttp_method (hr_type r), hr_uri r with
  | Some method, Some uri =>
      output ← putf output (request_line method (s_text uri) (hr_major r) (hr_minor r));
      headers ← (if ((hr_type r =? EVHTTP_REQ_POST) || (hr_type r =? EVHTTP_REQ_PUT)) && no_header headers (str "Content-Length") then
                   with_header headers (str "Content-Length") (dec (evbuffer_get_length (hr_output_buffer r)))
                 else mret headers);
      mret (output, set_output_headers headers r)
  | _, _ => e_fail NullDeref
  end.

(** The headers that a reply gets. *)
Definition response_headers (r : evhttp_request) (date : option (list Z)) : E evkeyvalq :=
  let headers := hr_output_headers r in
  let is_keepalive := evhttp_is_connection_keepalive (hr_input_headers r) in
  headers ← (if hr_major r =? 1 then
               headers ← (if 1 <=? hr_minor r then evhttp_maybe_add_date_header headers date else mret headers);
               headers ← (if (hr_minor r =? 0) && is_keepalive then with_header headers (str "Connection") (str "keep-alive") else mret headers);
               if ((1 <=? hr_minor r) || is_keepalive) && evhttp_response_needs_body r then
                 evhttp_maybe_add_content_length_header headers (evbuffer_get_length (hr_output_buffer r))
               else mret headers
             else mret headers);
  headers ← (if evhttp_response_needs_body r && no_header headers (str "Content-Type") then
               with_header headers (str "Content-Type") (str "text/html; charset=ISO-8859-1")
             else mret headers);
  if evhttp_is_connection_close (hr_flags r) (hr_input_headers r) then
    headers ← without_header headers (str "Connection");
    headers ← (if has_flag EVHTTP_PROXY_REQUEST (hr_flags r) then mret headers else with_header headers (str "Connection") (str "close"));
    without_header headers (str "Proxy-Connection")
  else mret headers.

Definition evhttp_make_header_response (output : evbuffer) (r : evhttp_request) (date : option (list Z)) : E (evbuffer * evhttp_request) :=
  match hr_response_code_line r with
  | None => e_fail NullDeref
  | Some reason =>
      output ← putf output (status_line (hr_major r) (hr_minor r) (hr_response_code r) (s_text reason));
      headers ← response_headers r date;
      mret (output, set_output_headers headers r)
  end.

Fixpoint put_headers (output : evbuffer) (headers : evkeyvalq) : E evbuffer :=
  match headers with
  | [] => mret output
  | h :: headers =>
      output ← putf output (s_text (kv_key h) ++ 58 :: 32 :: s_text (kv_value h) ++ crlf);
      put_headers output headers
  end.

Definition evhttp_make_header (output : evbuffer) (r : evhttp_request) (date : option (list Z)) : E (evbuffer * evhttp_request) :=
  '(output, r) ← match hr_kind r with
                 | EVHTTP_REQUEST => evhttp_make_header_request output r
                 | EVHTTP_RESPONSE => evhttp_make_header_response output r date
                 end;
  output ← put_headers output (hr_output_headers r);
  output ← put output crlf;
  if 0 <? evbuffer_get_length (hr_output_buffer r) then
    '(_, output, body) ← evbuffer_add_buffer output (hr_output_buffer r);
    mret (output, set_buffers (hr_input_buffer r) body r)
  else mret (output, r).

(** evhttp_send_reply_start without evhttp_write_buffer. *)
Definition evhttp_send_reply_start (output : evbuffer) (r : evhttp_request) (code : Z) (reason date : option (list Z)) : E (evbuffer * evhttp_request) :=
  r ← evhttp_response_code r code reason;
  if no_header (hr_output_headers r) (str "Content-Length") && version_atleast r 1 1 && evhttp_response_needs_body r then
    headers ← with_header (hr_output_headers r) (str "Transfer-Encoding") (str "chunked");
    evhttp_make_header output (set_chunked true (set_output_headers headers r)) date
  else evhttp_make_header output (set_chunked false r) date.

(** What evhttp_send_reply_chunk puts into the output of a connection. *)
Definition evhttp_send_reply_chunk (output : evbuffer) (r : evhttp_request) (databuf : evbuffer) : E (evbuffer * evbuffer) :=
  if evbuffer_get_length databuf =? 0 then mret (output, databuf)
  else if negb (evhttp_response_needs_body r) then mret (output, databuf)
  else
    output ← (if hr_chunked r then putf output (hex (u32 (evbuffer_get_length databuf)) ++ crlf) else mret output);
    '(_, output, databuf) ← evbuffer_add_buffer output databuf;
    output ← (if hr_chunked r then put output crlf else mret output);
    mret (output, databuf).

(** What evhttp_send_reply_end puts there. *)
Definition evhttp_send_reply_end (output : evbuffer) (r : evhttp_request) : E (evbuffer * evhttp_request) :=
  let r := set_userdone true r in
  if hr_chunked r then
    output ← put output (48 :: crlf ++ crlf);
    mret (output, set_chunked false r)
  else mret (output, r).
