(* ===== verification/EvHttpOps.v ===== *)
(** * libevent/http.c: lemmas on messages

    What the functions of EvHttp do with a buffer that holds a part of a message
    when the rest is still on its way; then the text that evhttp_make_header puts
    into a buffer, for a message whose fields may be sent. *)

From Stdlib Require Import ssreflect.
From S2P Require Import Prelude CTypes HProp CMem CLib BRound EvBuffer EvBufSpec EvBufOps EvBufMove EvBufPlain EvBufQueue EvBufXfer EvSearch EvSearchSpec EvPrint EvPrintOps EvUtil EvErr EvUri EvUriSpec EvMem EvUriOps EvQuery EvQueryOps EvHttp.
Set Warnings "-rewrite-rw".
Open Scope general_if_scope.
Open Scope Z_scope.

(** ** Memory that is there *)

Lemma owned_goes_on e own e' : owned e own e' -> goes_on e e'.
Proof. intros [Hl _ Hm]. by split. Qed.

Lemma runs_strdup t e (Q : option cstr -> evenv -> Prop) :
  ev_oom e = [] -> is_text t -> (∀ c e', s_text c = t -> goes_on e e' -> Q (Some c) e') -> runs (mm_strdup t) e Q.
Proof.
  intros Hm Ht HQ. eapply (strdup_gives t Ht e []); [apply owned_nothing| |done].
  intros c e' Hc Ho. apply HQ; [done|by eapply owned_goes_on].
Qed.

Lemma runs_free_any i e (Q : unit -> evenv -> Prop) : (∀ e', goes_on e e' -> Q tt e') -> runs (mm_free i) e Q.
Proof. intros HQ. apply HQ, goes_on_same; [rewrite /later /=; lia|done]. Qed.

Lemma c_str_line t : is_text t -> c_str (Some <$> t) = mret t.
Proof. intros Ht. by rewrite c_str_text cut0_text. Qed.

(** ** Lines *)

Definition no_lf (t : list Z) : Prop := Forall (fun c => c ≠ 10) t.

Lemma crlf_end_none t : no_lf t -> crlf_end t = None.
Proof.
  induction 1 as [|c t Hc Ht IH]; [done|]. cbn [crlf_end]. rewrite (proj2 (Z.eqb_neq c LF)) // IH.
  enough (EvSearchSpec.starts [CR; LF] (c :: t) = false) as -> by done. apply bool_decide_eq_false. intros Heq.
  destruct t as [|d t]; [done|]. cbn in Heq. injection Heq as _ ->. by inversion Ht.
Qed.

Lemma crlf_end_line l w : no_lf l -> crlf_end (l ++ crlf ++ w) = Some (length l, 2).
Proof.
  induction 1 as [|c l Hc Hl IH]; [done|]. cbn [app crlf_end]. rewrite (proj2 (Z.eqb_neq c LF)) // IH.
  enough (EvSearchSpec.starts [CR; LF] (c :: l ++ crlf ++ w) = false) as -> by done. apply bool_decide_eq_false. intros Heq.
  destruct l as [|d l]; [done|]. cbn in Heq. injection Heq as _ ->. by inversion Hl.
Qed.

(** What has arrived of a text that starts with a line: the line and more, or a
    part of the line. *)
Lemma arrived B F l w :
  no_lf l -> B ++ F = l ++ crlf ++ w -> (∃ w', B = l ++ crlf ++ w' ∧ w' ++ F = w) ∨ no_lf B ∧ F ≠ [] ∧ (length B <= S (length l))%nat.
Proof.
  intros Hl Heq. rewrite app_assoc in Heq. destruct (app_eq_inv _ _ _ _ Heq) as [(k & -> & ->)|(k & Hk & HF)].
  - left. exists k. by rewrite app_assoc.
  - destruct k as [|x k _] using rev_ind.
    { left. exists []. rewrite app_nil_r in Hk. by rewrite app_nil_r Hk HF. }
    right. change crlf with ([13] ++ [10]) in Hk. rewrite !app_assoc in Hk. apply app_inj_tail in Hk as [Hk <-].
    assert (Hn : no_lf (l ++ [13])) by (apply Forall_app; split; [done|by apply Forall_singleton]). rewrite Hk in Hn.
    apply Forall_app in Hn as [Hn _]. apply (f_equal length) in Hk. rewrite !length_app /= in Hk. split_and!; [done| |lia].
    rewrite HF. by destruct k.
Qed.

Section lines.
Context (holds : evbuffer -> list mbyte -> evenv -> Prop) `{!ByteBuffer holds, !OpenBuffer holds}.

(** evbuffer_readln on a buffer that holds a text. *)
Lemma runs_readln b xs e (Q : option (id * list mbyte) * Z * evbuffer -> evenv -> Prop) :
  holds b (Some <$> xs) e -> Z.of_nat (length xs) < 2 ^ 31 ->
  match crlf_end xs with
  | None => Q (None, 0, b) e
  | Some (k, m) => ∀ i b' e', holds b' (Some <$> drop (k + Z.to_nat m) xs) e' -> goes_on e e' -> Q (Some (i, Some <$> take k xs), Z.of_nat k, b') e'
  end -> runs (evbuffer_readln b EVBUFFER_EOL_CRLF) e Q.
Proof.
  intros Hb Hx HQ. pose proof (ob_open _ _ _ Hb) as [Hwf _ Ht Hs _ Hm]. cbn in Ht, Hs. rewrite /evbuffer_readln Hs.
  destruct (search_eol_spec b e xs Hwf Ht EVBUFFER_EOL_CRLF Hx) as (it & n & -> & Hit). cbn [line_end] in Hit.
  apply runs_bind, runs_ret. destruct (crlf_end xs) as [[k m]|] eqn:Hk; [|by destruct Hit as [-> ->]]. destruct Hit as [-> ->].
  rewrite (proj2 (Z.ltb_ge _ 0)); [|lia]. apply runs_bind. rewrite {1}/runs /mm_malloc Hm. cbn [fst snd].
  assert (Hgo : goes_on e (EvEnv (Pos.succ (next_id e)) [] (effects e))) by (by apply goes_on_malloc; split; [|rewrite Hm]).
  apply runs_bind, (bb_remove b (Some <$> xs)); [by eapply bb_frame|lia|]. intros r b1 e1 Hb1 Hgo1.
  apply runs_bind, (bb_drain b1 _ m _ _ Hb1). { pose proof (line_end_pos EVBUFFER_EOL_CRLF xs k m Hk). lia. }
  intros b2 e2 Hb2 Hgo2. apply runs_ret. rewrite Nat2Z.id in Hb2 |- *. rewrite -fmap_take. apply HQ; [|by etrans; [|etrans]].
  by rewrite drop_drop -fmap_drop in Hb2.
Qed.

(** When a part of it has arrived, the rest being [F]: the line, or nothing yet. *)
Lemma runs_line b B F l w e (Q : option (id * list mbyte) * Z * evbuffer -> evenv -> Prop) :
  holds b (Some <$> B) e -> Z.of_nat (length (B ++ F)) < 2 ^ 31 -> no_lf l -> B ++ F = l ++ crlf ++ w ->
  (F ≠ [] -> (length B <= S (length l))%nat -> Q (None, 0, b) e) ->
  (∀ i b' B' e', holds b' (Some <$> B') e' -> B' ++ F = w -> (length B = 2 + length l + length B')%nat -> goes_on e e' ->
     Q (Some (i, Some <$> l), Z.of_nat (length l), b') e') ->
  runs (evbuffer_readln b EVBUFFER_EOL_CRLF) e Q.
Proof.
  intros Hb Hx Hl Heq Hno Hyes. rewrite length_app in Hx. apply (runs_readln b B); [done|lia|].
  destruct (arrived B F l w Hl Heq) as [(w' & -> & Hw)|(Hn & HF & Hlen)].
  - rewrite crlf_end_line //. intros i b' e' Hb' Hgo. rewrite take_app_length. apply (Hyes i b' w'); [|done|rewrite !length_app /=; lia|done].
    rewrite app_assoc drop_app_length' in Hb'; [done|]. by rewrite length_app.
  - rewrite crlf_end_none //. by apply Hno.
Qed.
End lines.

(** ** Numbers in messages *)

(** What follows a number: nothing, or something that is no digit. *)
Definition ends_number (tl : list Z) : Prop := isdigit (hd 0 tl) = false.

Lemma strtol_dec_end n tl : 0 <= n <= LONG_MAX -> ends_number tl -> strtol ((dec n ++ tl) ++ [0]) = Some (StrtolResult n (Z.of_nat (length (dec n))) false).
Proof.
  intros [Hn Hmax] Htl. destruct tl as [|c tl]; [rewrite app_nil_r|rewrite -app_assoc]; by apply (strtol_dec n Hn).
Qed.

Lemma strtoll10_dec n : 0 <= n <= LONG_MAX -> strtoll10 (dec n) = (n, []).
Proof. intros Hn. rewrite /strtoll10 -{1}(app_nil_r (dec n)) strtol_dec_end //= Nat2Z.id. f_equal. by apply drop_ge. Qed.

Lemma dec_nonempty n : 0 <= n -> dec n ≠ [].
Proof. intros Hn. rewrite dec_pos //. apply dec_digits_nonempty. Qed.

Lemma scan_d_dec n tl : 0 <= n < 2 ^ 31 -> ends_number tl -> scan_d (dec n ++ tl) = Some (n, tl).
Proof.
  intros Hn Htl. rewrite /scan_d strtol_dec_end //; [|rewrite /LONG_MAX; lia]. cbn. pose proof (dec_nonempty n ltac:(lia)) as Hne.
  rewrite (proj2 (Z.eqb_neq _ 0)); [|by destruct (dec n)]. rewrite Nat2Z.id drop_app_length s32_small //. lia.
Qed.

Definition version_text (major minor : Z) : list Z := str "HTTP/" ++ dec major ++ 46 :: dec minor.

Lemma scan_version_text major minor : 0 <= major < 2 ^ 31 -> 0 <= minor < 2 ^ 31 -> scan_version (version_text major minor) = Some (major, minor).
Proof.
  intros H1 H2. rewrite /scan_version /version_text. change (scan_str (str "HTTP/") (str "HTTP/" ++ ?x)) with (Some x). cbn [mbind option_bind].
  rewrite scan_d_dec //. cbn. rewrite -(app_nil_r (dec minor)) scan_d_dec //.
Qed.

Lemma dec_text n : 0 <= n -> is_text (dec n) ∧ Forall (fun c => isdigit c = true) (dec n).
Proof.
  intros Hn. destruct (dec_spec n Hn) as [Hd _]. split; [|done]. eapply Forall_impl; [exact Hd|]. apply isdigit_char.
Qed.

(** ** The first line *)

(** The URI asks a server for a host that it does not know. *)
Definition asks_proxy (http : evhttp) (p : pieces) : bool :=
  match p_scheme p, p_host p with
  | Some scheme, Some hostname =>
      ((evutil_ascii_strcasecmp scheme (str "http") =? 0) || (evutil_ascii_strcasecmp scheme (str "https") =? 0))
      && negb (fst (evhttp_find_vhost http hostname))
  | _, _ => false
  end.

Lemma is_proxy_uri_spec mh mb http u : is_proxy_uri (Some (Connection mh mb (Some http))) u = mret (asks_proxy http (uri_pieces u)).
Proof.
  rewrite /is_proxy_uri /asks_proxy /evhttp_uri_get_scheme /evhttp_uri_get_host. cbn [uri_pieces p_scheme p_host].
  destruct (u_scheme u), (u_host u); try done. cbn. by destruct (_ || _).
Qed.

(** A word of a line. *)
Definition word (t : list Z) : Prop := is_text t ∧ Forall (fun c => c ≠ 32 ∧ c ≠ 10) t.

Lemma word_text t : word t -> is_text t.
Proof. by intros []. Qed.

Lemma word_space t : word t -> Forall (fun c => c ≠ 32) t.
Proof. intros [_ H]. eapply Forall_impl; [exact H|]. by intros c []. Qed.

Lemma word_lf t : word t -> no_lf t.
Proof. intros [_ H]. eapply Forall_impl; [exact H|]. by intros c []. Qed.

(** The text of a line. *)
Definition line_text (t : list Z) : Prop := is_text t ∧ no_lf t.

Lemma word_line t : word t -> line_text t.
Proof. split; [by apply word_text|by apply word_lf]. Qed.

Lemma spaced_line t s : line_text t -> line_text s -> line_text (t ++ 32 :: s).
Proof. intros [] []. split; apply Forall_app; (split; [done|by constructor]). Qed.

Lemma dec_word n : 0 <= n -> word (dec n).
Proof.
  intros Hn. destruct (dec_text n Hn) as [Ht Hd]. split; [done|]. eapply Forall_impl; [exact Hd|]. intros c Hc.
  split; intros ->; done.
Qed.

Lemma word_app t s : word t -> word s -> word (t ++ s).
Proof. intros [? ?] [? ?]. by split; apply Forall_app. Qed.

Lemma word_cons c t : is_char c -> c ≠ 32 -> c ≠ 10 -> word t -> word (c :: t).
Proof. intros ? ? ? []. by split; constructor. Qed.

Lemma version_word major minor : 0 <= major -> 0 <= minor -> word (version_text major minor).
Proof.
  intros H1 H2. apply word_app; [|apply word_app; [by apply dec_word|by apply word_cons, dec_word]].
  split; repeat constructor; done.
Qed.

(** What a request has when its first line has been read. *)
Definition with_request_line (http : evhttp) (type major minor : Z) (s : cstr) (u : evhttp_uri) (r : evhttp_request) : evhttp_request :=
  let r := set_uri (Some s) (Some u) (set_version major minor (set_type type r)) in
  if asks_proxy http (uri_pieces u) then set_hr_flags (Z.lor (hr_flags r) EVHTTP_PROXY_REQUEST) r else r.

Lemma runs_parse_request_line `{inet : InetPton} mh mb http r method uri p major minor e (Q : option unit * evhttp_request -> evenv -> Prop) :
  hr_evcon r = Some (Connection mh mb (Some http)) -> ev_oom e = [] -> word method -> word uri ->
  valid_uri EVHTTP_URI_NONCONFORMANT p -> spells uri p -> 0 <= major <= 1 -> 0 <= minor < 128 ->
  (∀ s u e', s_text s = uri -> uri_pieces u = p -> goes_on e e' ->
     Q (Some tt, with_request_line http (method_type method) major minor s u r) e') ->
  runs (evhttp_parse_request_line (method ++ 32 :: uri ++ 32 :: version_text major minor) r) e Q.
Proof.
  intros Hr Hm Hme Hu Hv Hsp Hma Hmi HQ. rewrite /evhttp_parse_request_line.
  rewrite strsep_app; [|by apply word_space]. rewrite strsep_app; [|by apply word_space].
  rewrite strsep_none; [|by apply word_space, version_word; lia]. rewrite /evhttp_parse_http_version.
  rewrite scan_version_text; [|lia..]. rewrite (proj2 (Z.ltb_ge 1 major)); [|lia]. rewrite !s8_small; [|lia..].
  apply runs_eruns_false, gruns_eruns, gruns_bind, gruns_change, gruns_bind, gruns_change, gruns_bind, gruns_here.
  apply runs_eruns, runs_strdup; [done|by apply word_text|]. intros s e1 Hs Hgo1. apply gruns_bind, gruns_look, gruns_bind, gruns_change.
  rewrite Hs. apply gruns_bind, gruns_here, runs_eruns. eapply runs_mono.
  { apply (runs_parse_spelled uri EVHTTP_URI_NONCONFORMANT p); [by apply word_text|by apply Hgo1|done|done]. }
  intros o e2 (u & -> & Hup & _ & Ho). apply gruns_bind, gruns_change, gruns_bind, gruns_look.
  cbn [set_uri set_version set_type hr_evcon]. rewrite Hr is_proxy_uri_spec. apply gruns_bind, gruns_here, gruns_change.
  specialize (HQ s u e2 Hs Hup). rewrite /with_request_line in HQ. destruct (asks_proxy _ _); apply HQ.
  all: etrans; [exact Hgo1|by eapply owned_goes_on].
Qed.

(** What a reply has when its first line has been read. *)
Definition with_status_line (major minor code : Z) (reason : cstr) (r : evhttp_request) : evhttp_request :=
  set_response code (Some reason) (set_version major minor r).

Definition status_text (major minor code : Z) (reason : list Z) : list Z := version_text major minor ++ 32 :: dec code ++ 32 :: reason.

Lemma runs_parse_response_line r reason major minor code e (Q : option unit * evhttp_request -> evenv -> Prop) :
  ev_oom e = [] -> is_text reason -> 0 <= major <= 1 -> 0 <= minor < 128 -> 0 < code < 2 ^ 31 ->
  (∀ s e', s_text s = reason -> goes_on e e' -> Q (Some tt, with_status_line major minor code s r) e') ->
  runs (evhttp_parse_response_line (status_text major minor code reason) r) e Q.
Proof.
  intros Hm Hre Hma Hmi Hc HQ. rewrite /evhttp_parse_response_line /status_text.
  rewrite strsep_app; [|by apply word_space, version_word; lia]. rewrite strsep_app; [|by apply word_space, dec_word; lia].
  rewrite /evhttp_parse_http_version scan_version_text; [|lia..]. rewrite (proj2 (Z.ltb_ge 1 major)); [|lia]. rewrite !s8_small; [|lia..].
  rewrite /atoi strtoll10_dec /=; [|rewrite /LONG_MAX; lia]. rewrite s32_small; [|lia].
  apply runs_eruns_false, gruns_eruns, gruns_bind, gruns_change, gruns_bind, gruns_look, gruns_bind, gruns_change.
  rewrite /evhttp_valid_response_code (proj2 (Z.eqb_neq code 0)); [|lia]. cbn [negb]. apply gruns_bind, gruns_here, runs_eruns, runs_strdup; [done|done|].
  intros s e1 Hs Hgo. apply gruns_bind, gruns_change, gruns_ret. by apply HQ.
Qed.

Lemma over_headers_less r n m : over_headers_size r m = false -> n <= m -> over_headers_size r n = false.
Proof. rewrite /over_headers_size. destruct (hr_evcon r); [|done]. rewrite !Z.ltb_ge. lia. Qed.

(** The function that parses the line. *)
Definition parse_line `{inet : InetPton} (line : list Z) (r : evhttp_request) : E (option unit * evhttp_request) :=
  match hr_kind r with EVHTTP_REQUEST => evhttp_parse_request_line line r | EVHTTP_RESPONSE => evhttp_parse_response_line line r end.

Lemma runs_parse_firstline `{inet : InetPton} (R : evhttp_request -> Prop) r b B F l w e (Q : message_read_status * evhttp_request * evbuffer -> evenv -> Prop) :
  open_buffer b (Some <$> B) e -> Z.of_nat (length (B ++ F)) < 2 ^ 31 -> is_text l -> no_lf l -> B ++ F = l ++ crlf ++ w ->
  over_headers_size r (Z.of_nat (S (length l))) = false ->
  (∀ e1 (K : option unit * evhttp_request -> evenv -> Prop), ev_oom e1 = [] -> (∀ r' e2, R r' -> goes_on e1 e2 -> K (Some tt, r') e2) ->
     runs (parse_line l (set_sizes (Z.of_nat (length l)) (hr_body_size r) r)) e1 K) ->
  (F ≠ [] -> Q (MORE_DATA_EXPECTED, r, b) e) ->
  (∀ r' b' B' e', R r' -> open_buffer b' (Some <$> B') e' -> B' ++ F = w -> Q (ALL_DATA_READ, r', b') e') ->
  runs (evhttp_parse_firstline r b) e Q.
Proof.
  intros Hb Hx Ht Hl Heq Hmax Hparse Hno Hyes. apply runs_bind, (runs_line open_buffer b B F l w); [done..| |].
  - intros HF Hlen. rewrite (bb_length _ _ _ Hb) length_fmap (over_headers_less r _ _ Hmax); [|lia]. by apply runs_ret, Hno.
  - intros i b' B' e1 Hb' Hw _ Hgo1. rewrite (over_headers_less r _ _ Hmax); [|lia]. rewrite c_str_line //. apply runs_bind, runs_ret, runs_bind.
    change (match hr_kind (set_sizes (Z.of_nat (length l)) (hr_body_size r) r) with
            | EVHTTP_REQUEST => evhttp_parse_request_line l (set_sizes (Z.of_nat (length l)) (hr_body_size r) r)
            | EVHTTP_RESPONSE => evhttp_parse_response_line l (set_sizes (Z.of_nat (length l)) (hr_body_size r) r)
            end) with (parse_line l (set_sizes (Z.of_nat (length l)) (hr_body_size r) r)).
    apply Hparse; [by eapply bb_memory|]. intros r' e2 HR Hgo2. apply runs_bind, runs_free_any. intros e3 Hgo3.
    apply runs_ret, (Hyes r' b' B'); [done| |done]. eapply bb_frame; [exact Hb'|by etrans].
Qed.

(** ** Header lines *)

Definition field_line (kv : list Z * list Z) : list Z := fst kv ++ 58 :: 32 :: snd kv.

(** The header lines and the empty one behind them. *)
Definition fields_text (kvs : list (list Z * list Z)) : list Z := concat ((fun kv => field_line kv ++ crlf) <$> kvs) ++ crlf.

(** A field that arrives as it was sent: its value is on one line. *)
Record field_ok (kv : list Z * list Z) : Prop := {
  fo_key : is_text (fst kv) ∧ Forall (fun c => c ≠ 58 ∧ c ≠ 13 ∧ c ≠ 10) (fst kv);
  fo_first : hd 0 (fst kv) ≠ 32 ∧ hd 0 (fst kv) ≠ 9;
  fo_value : is_text (snd kv) ∧ Forall (fun c => c ≠ 13 ∧ c ≠ 10) (snd kv);
  fo_second : hd 0 (snd kv) ≠ 32 }.

Lemma fields_text_cons kv kvs : fields_text (kv :: kvs) = field_line kv ++ crlf ++ fields_text kvs.
Proof. rewrite /fields_text /= -!app_assoc //. Qed.

Lemma fields_text_length kv kvs : length (fields_text (kv :: kvs)) = (length (field_line kv) + (2 + length (fields_text kvs)))%nat.
Proof. by rewrite fields_text_cons (length_app (field_line kv)) (length_app crlf). Qed.

Lemma fields_text_nonempty kvs : (2 <= length (fields_text kvs))%nat.
Proof. rewrite /fields_text length_app /=. lia. Qed.

Lemma fields_text_app kvs kvs' :
  ∃ k, length (fields_text (kvs ++ kvs')) = (k + length (fields_text kvs'))%nat ∧ (length (concat (field_line <$> kvs)) <= k)%nat.
Proof.
  induction kvs as [|kv kvs (k & Hk & Hle)]; [by exists 0%nat|]. exists (length (field_line kv) + (2 + k))%nat.
  cbn [app]. rewrite fields_text_length Hk. split; [lia|]. cbn [fmap list_fmap concat]. rewrite length_app. lia.
Qed.

Lemma field_line_text kv : field_ok kv -> is_text (field_line kv) ∧ no_lf (field_line kv).
Proof.
  intros [[Hk1 Hk2] _ [Hv1 Hv2] _]. split; apply Forall_app; split; try done; repeat constructor; try done.
  - eapply Forall_impl; [exact Hk2|]. by intros c (_ & _ & ?).
  - eapply Forall_impl; [exact Hv2|]. by intros c (_ & ?).
Qed.

Lemma no_breaks t : Forall (fun c => c ≠ 13 ∧ c ≠ 10) t -> breaks_continue t = true ∧ existsb is_crlf t = false.
Proof.
  induction 1 as [|c t [H1 H2] _ [IH1 IH2]]; [done|]. cbn. assert (is_crlf c = false) as ->; [|done].
  rewrite /is_crlf (proj2 (Z.eqb_neq c 13)) // (proj2 (Z.eqb_neq c 10)) //.
Qed.

(** evhttp_add_header with memory, for a field that may be sent. *)
Lemma runs_add_field hs kv e (Q : Z * evkeyvalq -> evenv -> Prop) :
  ev_oom e = [] -> field_ok kv -> (∀ h e', header_pairs [h] = [kv] -> goes_on e e' -> Q (0, hs ++ [h]) e') ->
  runs (evhttp_add_header hs (fst kv) (snd kv)) e Q.
Proof.
  intros Hm [[Hk1 Hk2] _ [Hv1 Hv2] _] HQ. destruct kv as [key value]. cbn [fst snd] in *.
  assert (Hk3 : Forall (fun c => c ≠ 13 ∧ c ≠ 10) key) by (eapply Forall_impl; [exact Hk2|]; by intros c (_ & ? & ?)).
  rewrite /evhttp_add_header valid_value_spec. destruct (no_breaks key Hk3) as [_ ->]. destruct (no_breaks value Hv2) as [-> _]. cbn [negb].
  apply (runs_add_header e [] hs); [done|apply owned_nothing| |done]. intros h e' Hp Ho. rewrite cut0_text // in Hp.
  apply HQ; [done|by eapply owned_goes_on].
Qed.

Lemma runs_header_line hs kv e (Q : option bool * evkeyvalq -> evenv -> Prop) :
  ev_oom e = [] -> field_ok kv -> (∀ h e', header_pairs [h] = [kv] -> goes_on e e' -> Q (Some true, hs ++ [h]) e') ->
  runs (header_line hs (field_line kv)) e Q.
Proof.
  intros Hm Hkv HQ. pose proof Hkv as [[_ Hk] [Hf1 Hf2] _ Hs].
  assert (Hhd : hd 0 (field_line kv) ≠ 32 ∧ hd 0 (field_line kv) ≠ 9) by (rewrite /field_line; by destruct (fst kv)).
  assert (Hsep : strsep 58 (field_line kv) = (fst kv, Some (32 :: snd kv))).
  { apply strsep_app. eapply Forall_impl; [exact Hk|]. by intros c []. }
  rewrite /header_line. destruct (field_line kv) as [|c l] eqn:Hl; [by destruct (fst kv)|]. destruct Hhd as [H1 H2]. cbn [hd] in H1, H2.
  rewrite (proj2 (Z.eqb_neq c 32)) // (proj2 (Z.eqb_neq c 9)) //. cbn [orb]. rewrite Hsep.
  assert (skip_until (fun c => negb (c =? 32)) (32 :: snd kv) = snd kv) as ->.
  { cbn. destruct (snd kv) as [|x v]; [done|]. cbn in Hs |- *. by rewrite (proj2 (Z.eqb_neq x 32)). }
  apply runs_bind, runs_add_field; [done|done|]. intros h e' Hp Hgo. by apply runs_ret, HQ.
Qed.

(** The fields [kvs] have been added to the headers of a message. *)
Definition fields_added (r : evhttp_request) (kvs : list (list Z * list Z)) (r' : evhttp_request) : Prop :=
  ∃ hs, header_pairs hs = kvs ∧
    r' = set_headers (hr_input_headers r ++ hs) (hr_output_headers r)
           (set_sizes (hr_headers_size r + Z.of_nat (length (concat (field_line <$> kvs)))) (hr_body_size r) r).

Lemma fields_added_nothing r : fields_added r [] r.
Proof. exists []. split; [done|]. destruct r. rewrite /set_headers /set_sizes /= app_nil_r Z.add_0_r //. Qed.

Lemma fields_added_app r kvs r' kvs' r'' : fields_added r kvs r' -> fields_added r' kvs' r'' -> fields_added r (kvs ++ kvs') r''.
Proof.
  intros (hs & Hp & ->) (hs' & Hp' & ->). exists (hs ++ hs'). split; [by rewrite /header_pairs fmap_app -Hp -Hp'|].
  rewrite fmap_app concat_app length_app Nat2Z.inj_add Z.add_assoc app_assoc. done.
Qed.

(** A message may have this many more bytes of header. *)
Record room (r : evhttp_request) (n : Z) : Prop := {
  rm_limit : over_headers_size r (hr_headers_size r + n) = false;
  rm_size : 0 <= hr_headers_size r ∧ hr_headers_size r + n < 2 ^ 62 }.

Lemma room_less r n m : room r m -> 0 <= n <= m -> room r n.
Proof. intros [Hl Hs] Hn. split; [apply (over_headers_less r _ _ Hl); lia|lia]. Qed.

Lemma room_u64 r n : room r n -> 0 <= n -> u64 (hr_headers_size r + n) = hr_headers_size r + n.
Proof. intros [_ ?] Hn. rewrite u64_small // /EV_SIZE_MAX. lia. Qed.

Lemma room_added r kvs r' n : fields_added r kvs r' -> room r (Z.of_nat (length (concat (field_line <$> kvs))) + n) -> 0 <= n -> room r' n.
Proof.
  intros (hs & _ & ->) [Hl Hs] Hn. split; cbn; [|lia]. revert Hl. by rewrite /over_headers_size Z.add_assoc.
Qed.

Section header_lines.
Context (holds : evbuffer -> list mbyte -> evenv -> Prop) `{!ByteBuffer holds, !OpenBuffer holds}.

(** A turn of the loop: nothing yet, or what a line does. *)
Lemma runs_headers_turn fuel r b B F l w e (Q : message_read_status * evhttp_request * evbuffer -> evenv -> Prop) :
  holds b (Some <$> B) e -> Z.of_nat (length (B ++ F)) < 2 ^ 31 -> is_text l -> no_lf l -> B ++ F = l ++ crlf ++ w ->
  room r (Z.of_nat (S (length l))) ->
  (F ≠ [] -> Q (MORE_DATA_EXPECTED, r, b) e) ->
  (∀ i b' B' e', holds b' (Some <$> B') e' -> B' ++ F = w -> (length B' < length B)%nat ->
     runs ('(more, headers) ← header_line (hr_input_headers r) l;
           let r := set_headers headers (hr_output_headers r) (set_sizes (hr_headers_size r + Z.of_nat (length l)) (hr_body_size r) r) in
           _ ← mm_free i;
           match more with
           | Some true => headers_loop fuel r b'
           | Some false => mret (ALL_DATA_READ, r, b')
           | None => mret (DATA_CORRUPTED, r, b')
           end) e' Q) ->
  runs (headers_loop (S fuel) r b) e Q.
Proof.
  intros Hb Hx Ht Hl Heq Hroom Hno Hyes. cbn [headers_loop]. apply runs_bind, (runs_line holds b B F l w); [done..| |].
  - intros HF HB. rewrite (bb_length _ _ _ Hb) length_fmap.
    assert (Hr1 : room r (Z.of_nat (length B))) by (apply (room_less _ _ _ Hroom); lia).
    rewrite (room_u64 _ _ Hr1) ?(rm_limit _ _ Hr1); [by apply runs_ret, Hno|lia].
  - intros i b' B' e1 Hb' Hw Hlen Hgo1. assert (Hr0 : room r (Z.of_nat (length l))) by (apply (room_less _ _ _ Hroom); lia).
    rewrite (room_u64 _ _ Hr0); [|lia]. assert (over_headers_size (set_sizes (hr_headers_size r + Z.of_nat (length l)) (hr_body_size r) r)
      (hr_headers_size r + Z.of_nat (length l)) = false) as Hover by exact (rm_limit _ _ Hr0).
    cbn [set_sizes hr_headers_size] in Hover |- *. rewrite Hover c_str_line //. apply runs_bind, runs_ret. eapply Hyes; [exact Hb'|done|lia].
Qed.

Lemma runs_headers_loop kvs : Forall field_ok kvs -> ∀ fuel r b B F w e (Q : message_read_status * evhttp_request * evbuffer -> evenv -> Prop),
  holds b (Some <$> B) e -> Z.of_nat (length (B ++ F)) < 2 ^ 31 -> B ++ F = fields_text kvs ++ w -> (length B < fuel)%nat ->
  room r (Z.of_nat (length (fields_text kvs))) ->
  (∀ r' b' B' kvs1 kvs2 e', kvs = kvs1 ++ kvs2 -> fields_added r kvs1 r' -> holds b' (Some <$> B') e' -> B' ++ F = fields_text kvs2 ++ w -> F ≠ [] ->
     Q (MORE_DATA_EXPECTED, r', b') e') ->
  (∀ r' b' B' e', fields_added r kvs r' -> holds b' (Some <$> B') e' -> B' ++ F = w -> Q (ALL_DATA_READ, r', b') e') ->
  runs (headers_loop fuel r b) e Q.
Proof.
  induction 1 as [|kv kvs Hkv Hk IH]; intros fuel r b B F w e Q Hb Hx Heq Hf Hroom Hno Hyes; (destruct fuel as [|fuel]; [lia|]).
  - apply (runs_headers_turn fuel r b B F [] w); [done|done|constructor|constructor|done| | |].
    + apply (room_less _ _ _ Hroom). cbn. lia.
    + intros HF. apply (Hno r b B [] []); try done. apply fields_added_nothing.
    + intros i b' B' e1 Hb' Hw _. apply runs_bind, runs_ret, runs_bind, runs_free_any. intros e2 Hgo2. apply runs_ret, (Hyes _ b' B'); [|by eapply bb_frame|done].
      exists []. by rewrite app_nil_r.
  - assert (Hline : B ++ F = field_line kv ++ crlf ++ fields_text kvs ++ w) by rewrite Heq fields_text_cons -(app_assoc (field_line kv)) -(app_assoc crlf) //.
    rewrite fields_text_length in Hroom. destruct (field_line_text kv Hkv) as [Ht Hl].
    apply (runs_headers_turn fuel r b B F (field_line kv) (fields_text kvs ++ w)); [done|done|done|done|done| | |].
    + apply (room_less _ _ _ Hroom). lia.
    + intros HF. apply (Hno r b B [] (kv :: kvs)); try done. apply fields_added_nothing.
    + intros i b' B' e1 Hb' Hw Hlen. apply runs_bind, runs_header_line; [by eapply bb_memory|done|].
      intros h e2 Hp Hgo2. apply runs_bind, runs_free_any. intros e3 Hgo3. set (r1 := set_headers _ _ _). assert (Hadd : fields_added r [kv] r1).
      { exists [h]. split; [done|]. rewrite /r1 /=. by rewrite app_nil_r. }
      apply (IH fuel r1 b' B' F w); [eapply bb_frame; [exact Hb'|by etrans]| |done|lia| | |].
      * rewrite Hw. rewrite Hline 2!length_app in Hx. lia.
      * apply (room_added r [kv]); [done| |lia]. apply (room_less _ _ _ Hroom). rewrite /= app_nil_r. lia.
      * intros r' b2 B2 kvs1 kvs2 e4 -> Hr' Hb2 HB2 HF. apply (Hno r' b2 B2 (kv :: kvs1) kvs2); try done. by apply (fields_added_app r [kv] r1).
      * intros r' b2 B2 e4 Hr' Hb2 HB2. apply (Hyes r' b2 B2); try done. by apply (fields_added_app r [kv] r1).
Qed.
End header_lines.

(** ** Fields by name *)

Definition find_field (kvs : list (list Z * list Z)) (key : list Z) : option (list Z) :=
  snd ∘ snd <$> list_find (fun kv => evutil_ascii_strcasecmp (fst kv) key = 0) kvs.

Lemma find_header_field hs key : evhttp_find_header hs key = find_field (header_pairs hs) key.
Proof.
  rewrite /evhttp_find_header /find_field /header_pairs list_find_fmap. rewrite /has_key /compose /=.
  by destruct (list_find _ hs) as [[i h]|].
Qed.

(** ** The body *)

(** What the body does not change. *)
Record same_head (r r' : evhttp_request) : Prop := {
  sm_evcon : hr_evcon r' = hr_evcon r;
  sm_flags : hr_flags r' = hr_flags r;
  sm_fields : hr_input_headers r' = hr_input_headers r;
  sm_kind : hr_kind r' = hr_kind r;
  sm_type : hr_type r' = hr_type r;
  sm_uri : hr_uri r' = hr_uri r ∧ hr_uri_elems r' = hr_uri_elems r;
  sm_version : hr_major r' = hr_major r ∧ hr_minor r' = hr_minor r;
  sm_response : hr_response_code r' = hr_response_code r ∧ hr_response_code_line r' = hr_response_code_line r }.

#[export] Instance same_head_preorder : PreOrder same_head.
Proof. split; [by split|]. intros r1 r2 r3 [] []. destruct_and!. split; split_and?; congruence. Qed.

(** A request whose body of [n] bytes is to be read. *)
Record awaits_body (c : evhttp_connection) (n : Z) (r : evhttp_request) : Prop := {
  aw_evcon : hr_evcon r = Some c;
  aw_max : n <= max_body_size c;
  aw_chunked : hr_chunked r = false;
  aw_ntoread : hr_ntoread r = n;
  aw_body_size : hr_body_size r = 0;
  aw_buffer : hr_input_buffer r = empty_evbuffer }.

(** The end of a message: its body is there and [w] is left. *)
Record complete (r : evhttp_request) (body F w : list Z) (res : read_next * reading) (e' : evenv) : Prop := {
  co_done : fst res = Done;
  co_head : same_head r (rc_req (snd res));
  co_body : contents (hr_input_buffer (rc_req (snd res))) = Some <$> body;
  co_rest : ∃ B', contents (rc_input (snd res)) = Some <$> B' ∧ B' ++ F = w }.

Lemma body_read_next st c n r buf continued e (Q : read_next * reading -> evenv -> Prop) :
  hr_evcon r = Some c -> n <= max_body_size c -> hr_body_size r + hr_ntoread r = n -> 0 <= hr_ntoread r -> 0 <= hr_body_size r ->
  Q (if hr_ntoread r =? 0 then Done else ReadsMore, Reading st r buf continued) e -> runs (body_read None (Reading st r buf continued)) e Q.
Proof.
  intros Hc Hn Hs H1 H2 HQ. rewrite /body_read. cbn [rc_req rc_state rc_input rc_continued]. rewrite Hc.
  rewrite (proj2 (Z.ltb_ge _ (hr_body_size r))); [|lia]. rewrite (proj2 (Z.ltb_ge _ (hr_ntoread r))); [|lia]. rewrite !andb_false_r. cbn [orb].
  apply runs_bind, runs_ret. by destruct (_ =? 0).
Qed.

Lemma runs_read_body c st continued r buf B F body w e (Q : read_next * reading -> evenv -> Prop) :
  open_buffer buf (Some <$> B) e -> Z.of_nat (length (B ++ F)) < 2 ^ 31 -> B ++ F = body ++ w -> awaits_body c (Z.of_nat (length body)) r ->
  (F ≠ [] -> Q (ReadsMore, Reading st r buf continued) e) ->
  (∀ res e', complete r body F w res e' -> Q res e') ->
  runs (evhttp_read_body None (Reading st r buf continued)) e Q.
Proof.
  intros Hb Hx Heq [Hc Hmax Hch Hn Hbs Hbuf] Hno Hyes. rewrite /evhttp_read_body. cbn [rc_req rc_input rc_state rc_continued].
  rewrite Hch Hn (proj2 (Z.ltb_ge _ 0)); [|lia]. cbn [orb]. rewrite (bb_length _ _ _ Hb) length_fmap. rewrite !length_app in Hx.
  destruct (Z.leb_spec (Z.of_nat (length body)) (Z.of_nat (length B))) as [Hle|Hlt].
  - assert (Hsplit : ∃ w', B = body ++ w' ∧ w' ++ F = w).
    { destruct (app_eq_inv _ _ _ _ Heq) as [(k & -> & ->)|(k & Hk & HF)]; [by exists k|]. assert (k = []) as ->.
      { apply (f_equal length) in Hk. rewrite length_app in Hk. destruct k; [done|cbn in Hk; lia]. }
      exists []. rewrite app_nil_r in Hk. by rewrite app_nil_r HF Hk. }
    destruct Hsplit as (w' & -> & Hw). rewrite Z.min_r // Hbs Z.sub_diag Z.add_0_l.
    pose proof Hb as [Hwf Hpl Hcon Hs _ Hm]. cbn in Hcon, Hs. rewrite Hbuf. apply runs_bind.
    eapply runs_mono; [apply runs_evbuffer_remove_buffer; [done|apply buffer_wf_new| | |lia|done|done|constructor]|].
    { by intros i ?%not_elem_of_nil. }
    { rewrite (stands_total _ _ _ Hb) /= length_fmap /EV_SIZE_MAX. lia. }
    intros [[x b'] i'] e' (_ & _ & _ & _ & _ & _ & _ & _ & Hres). cbn [fst snd]. rewrite Nat2Z.id Hcon fmap_app in Hres. rewrite take_app_length' ?drop_app_length' ?length_fmap // in Hres.
    destruct Hres as [(_ & Hd & Hb')|(_ & _ & _ & Hfr)]; [|by rewrite Hs in Hfr].
    eapply (body_read_next _ c (Z.of_nat (length body))); [done|done|cbn; rewrite u64_small; rewrite /EV_SIZE_MAX; lia|done|cbn; rewrite u64_small; rewrite /EV_SIZE_MAX; lia|].
    apply Hyes. split; cbn; [done|by split|by rewrite Hd|]. by exists w'.
  - eapply (body_read_next _ c (Z.of_nat (length body))); [done|done|lia|lia|lia|]. rewrite Hn (proj2 (Z.eqb_neq _ 0)); [|lia].
    apply Hno. intros ->. apply (f_equal length) in Heq. rewrite app_nil_r length_app in Heq. lia.
Qed.

(** Between the messages: nothing of a body has been read. *)
Record clean (c : evhttp_connection) (r : evhttp_request) : Prop := {
  cl_evcon : hr_evcon r = Some c;
  cl_chunked : hr_chunked r = false;
  cl_body_size : hr_body_size r = 0;
  cl_buffer : hr_input_buffer r = empty_evbuffer }.

Lemma clean_added c r kvs r' : clean c r -> fields_added r kvs r' -> clean c r'.
Proof. intros [] (hs & _ & ->). by split. Qed.

(** What evhttp_read_header does when the headers are complete. *)
Definition headers_read (s : reading) : E (read_next * reading) :=
  match hr_kind (rc_req s) with
  | EVHTTP_REQUEST => evhttp_get_body None s
  | EVHTTP_RESPONSE =>
      if hr_response_code (rc_req s) =? 100 then mret (StartsOver, Reading EVCON_READING_FIRSTLINE (rc_req s) (rc_input s) (rc_continued s))
      else if negb (evhttp_response_needs_body (rc_req s)) then mret (Done, s)
      else evhttp_get_body None s
  end.

(** *** How a body is read

    Behind the headers of a message, [r2], comes [wire], which stands for the body
    [body], and then [w].  [waits B F s e]: the reader [s] waits for more, with [B]
    in its input buffer and [F] on its way. *)
Definition body_on (body w : list Z) (r2 : evhttp_request) (waits : list Z -> list Z -> reading -> evenv -> Prop) (F : list Z)
    (res : read_next * reading) (e : evenv) : Prop :=
  (∃ B s, F ≠ [] ∧ res = (ReadsMore, s) ∧ waits B F s e) ∨ complete r2 body F w res e.

Class BodyReader `{inet : InetPton} (wire body w : list Z) (r2 : evhttp_request) (waits : list Z -> list Z -> reading -> evenv -> Prop) : Prop := {
  br_start B F st continued buf e :
    open_buffer buf (Some <$> B) e -> Z.of_nat (length (B ++ F)) < 2 ^ 31 -> B ++ F = wire ++ w ->
    runs (headers_read (Reading st r2 buf continued)) e (body_on body w r2 waits F);
  br_step B F s e :
    waits B F s e -> Z.of_nat (length (wire ++ w)) < 2 ^ 31 -> runs (evhttp_read_cb None s) e (body_on body w r2 waits F);
  br_more B p F s e :
    waits B (p ++ F) s e -> Z.of_nat (length B + length p) < 2 ^ 31 ->
    runs (evbuffer_add (rc_input s) (Some <$> p)) e
      (fun res e' => waits (B ++ p) F (Reading (rc_state s) (rc_req s) (snd res) (rc_continued s)) e');
  br_size B F s e : waits B F s e -> (length B + length F <= length (wire ++ w))%nat }.

(** *** Bodies of a known length *)

(** How the reader finds the end of a message with a body of [n] bytes. *)
Inductive plan (r : evhttp_request) (n : Z) : Prop :=
| NoBody :
    n = 0 -> (if is_request r then evhttp_method_may_have_body (hr_type r) else evhttp_response_needs_body r) = false ->
    (is_request r = false -> hr_response_code r ≠ 100) -> plan r n
| ByLength :
    (if is_request r then evhttp_method_may_have_body (hr_type r) else evhttp_response_needs_body r) = true ->
    (is_request r = false -> hr_response_code r ≠ 100) ->
    find_field (header_pairs (hr_input_headers r)) (str "Transfer-Encoding") = None ->
    find_field (header_pairs (hr_input_headers r)) (str "Content-Length") = Some (dec n) ->
    (is_request r = true -> find_field (header_pairs (hr_input_headers r)) (str "Expect") = None) -> plan r n.

Lemma get_body_length_dec r n :
  0 <= n <= LONG_MAX -> find_field (header_pairs (hr_input_headers r)) (str "Content-Length") = Some (dec n) ->
  evhttp_get_body_length r = (true, set_ntoread n r).
Proof.
  intros Hn Hcl. rewrite /evhttp_get_body_length !find_header_field Hcl strtoll10_dec // (proj2 (Z.ltb_ge n 0)); [|lia].
  rewrite bool_decide_false; [|apply dec_nonempty; lia]. rewrite bool_decide_true //.
Qed.

Section length.
Context `{inet : InetPton} (c : evhttp_connection) (body w : list Z) (r2 : evhttp_request).
Let n : Z := Z.of_nat (length body).

(** The reader waits for the rest of the body. *)
Inductive length_waits (B F : list Z) : reading -> evenv -> Prop :=
| LengthWaits r buf continued e :
    open_buffer buf (Some <$> B) e -> same_head r2 r -> awaits_body c n r -> B ++ F = body ++ w ->
    length_waits B F (Reading EVCON_READING_BODY r buf continued) e.

Context (Hcl : clean c r2) (Hmax : n <= max_body_size c) (Hplan : plan r2 n).

Lemma runs_get_body B F st continued buf e :
  open_buffer buf (Some <$> B) e -> Z.of_nat (length (B ++ F)) < 2 ^ 31 -> B ++ F = body ++ w ->
  (is_request r2 || evhttp_response_needs_body r2 = true) ->
  runs (evhttp_get_body None (Reading st r2 buf continued)) e (body_on body w r2 length_waits F).
Proof.
  intros Hb Hx Heq Hneeds. rewrite /evhttp_get_body. cbn [rc_req rc_input rc_continued].
  assert (Hempty : n = 0 -> ∀ r' st', same_head r2 r' -> hr_input_buffer r' = empty_evbuffer ->
    body_on body w r2 length_waits F (Done, Reading st' r' buf continued) e).
  { intros Hn r' st' Hs Hi. right. assert (body = []) as -> by (apply nil_length_inv; lia). split; cbn; [done|done|by rewrite Hi|].
    exists B. split; [by destruct Hb|done]. }
  destruct Hplan as [Hn Hmay _|Hmay _ Hte Hlen Hex].
  - destruct (is_request r2); [|by rewrite Hmay in Hneeds]. rewrite Hmay. apply runs_ret, Hempty; [done|done|apply Hcl].
  - assert (is_request r2 && negb (evhttp_method_may_have_body (hr_type r2)) = false) as -> by (destruct (is_request r2); [by rewrite Hmay|done]).
    assert (Hnc : is_chunked r2 = false) by by rewrite /is_chunked find_header_field Hte. rewrite Hnc.
    rewrite !length_app in Hx. apply (f_equal length) in Heq as Hl. rewrite !length_app in Hl.
    rewrite (get_body_length_dec r2 n) //; [|rewrite /LONG_MAX; lia]. cbn [negb].
    change (is_chunked (set_ntoread n r2)) with (is_chunked r2). change (is_request (set_ntoread n r2)) with (is_request r2). rewrite Hnc. cbn [negb andb].
    assert (Hs : same_head r2 (set_ntoread n r2)) by by split. pose proof Hcl as [Hc Hch Hbs Hi].
    assert (Haw : awaits_body c n (set_ntoread n r2)) by by split.
    cbn [set_ntoread hr_ntoread]. destruct (is_request r2 && (n <? 1)) eqn:Hz.
    { apply andb_prop in Hz as [_ Hz%Z.ltb_lt]. apply runs_ret, Hempty; [lia|done|done]. }
    assert (expectation (set_ntoread n r2) buf = (None, false)) as Hexp.
    { rewrite /expectation. change (hr_kind (set_ntoread n r2)) with (hr_kind r2). rewrite find_header_field.
      change (hr_input_headers (set_ntoread n r2)) with (hr_input_headers r2). destruct (hr_kind r2) eqn:Hk; [|done]. by rewrite Hex // /is_request Hk. }
    rewrite Hexp orb_false_r. eapply runs_read_body; [exact Hb| |exact Heq|exact Haw| |].
    + rewrite length_app. lia.
    + intros HF. left. eexists B, _. by split_and!.
    + intros res e' [Hd Hh Hbo Hr]. right. split; [done|by etrans|done|done].
Qed.

#[export] Instance length_reader : BodyReader body body w r2 length_waits.
Proof.
  split.
  - intros B F st continued buf e Hb Hx Heq. rewrite /headers_read. cbn [rc_req rc_input rc_continued].
    pose proof (runs_get_body B F st continued buf e Hb Hx Heq) as Hget. destruct (hr_kind r2) eqn:Hkind; [by apply Hget; rewrite /is_request Hkind|].
    assert (Hreq : is_request r2 = false) by by rewrite /is_request Hkind. rewrite Hreq in Hget. cbn [orb] in Hget.
    assert (Hcode : hr_response_code r2 ≠ 100) by (destruct Hplan; auto). rewrite (proj2 (Z.eqb_neq _ 100)) //.
    destruct (evhttp_response_needs_body r2) eqn:Hne; [by apply Hget|]. cbn [negb].
    destruct Hplan as [Hn Hmay _|Hmay _ _ _ _]; rewrite Hreq Hne in Hmay; [|done].
    apply runs_ret. right. assert (body = []) as Hnil by (apply nil_length_inv; lia). rewrite Hnil in Heq.
    split; cbn; [done|done|by rewrite (cl_buffer _ _ Hcl) Hnil|]. exists B. split; [by destruct Hb|done].
  - intros B F s e Hw Hx. destruct Hw as [r buf continued e Hb Hs Haw Heq]. rewrite -Heq in Hx.
    apply (runs_read_body c _ _ r buf B F body w); [done|done|done|done| |].
    + intros HF. left. eexists B, _. by split_and!.
    + intros res e' [Hd Hh Hbo Hr]. right. split; [done|by etrans|done|done].
  - intros B p F s e Hw Hx. destruct Hw as [r buf continued e Hb Hs Haw Heq]. rewrite app_assoc in Heq.
    apply (bb_add _ _ _ _ _ Hb); [rewrite !length_fmap; lia|]. intros b e1 Hb1 _. by constructor; [rewrite fmap_app|..].
  - intros B F s e [r buf continued e' _ _ _ Heq]. by rewrite -Heq length_app.
Qed.
End length.

(** ** A message that arrives piece by piece *)

Section reader.
Context `{inet : InetPton} (c : evhttp_connection) (r0 : evhttp_request) (line : list Z) (first : evhttp_request -> Prop).
Context (kvs : list (list Z * list Z)) (wire body w : list Z) (waits : evhttp_request -> list Z -> list Z -> reading -> evenv -> Prop).

(** What the first line is to be. *)
Record line_ok : Prop := {
  lo_line : line_text line;
  lo_parse e (K : option unit * evhttp_request -> evenv -> Prop) :
    ev_oom e = [] -> (∀ r' e', first r' -> goes_on e e' -> K (Some tt, r') e') ->
    runs (parse_line line (set_sizes (Z.of_nat (length line)) (hr_body_size r0) r0)) e K;
  lo_first r : first r -> clean c r ∧ hr_headers_size r = Z.of_nat (length line) ∧ hr_input_headers r = [];
  lo_evcon : hr_evcon r0 = Some c;
  lo_limit : Z.of_nat (length line) + Z.of_nat (length (fields_text kvs)) <= max_headers_size c;
  lo_fields : Forall field_ok kvs;
  lo_reader r r' : first r -> fields_added r kvs r' -> room r' 2 -> BodyReader wire body w r' (waits r') }.

Definition message_text : list Z := line ++ crlf ++ fields_text kvs ++ wire.

Lemma message_length : length message_text = (length line + (2 + (length (fields_text kvs) + length wire)))%nat.
Proof. by rewrite /message_text (length_app line) (length_app crlf) (length_app (fields_text kvs)). Qed.

(** The states of the reader; [B] is in the input buffer and [F] on its way. *)
Inductive stage (B F : list Z) : reading -> evenv -> Prop :=
| AtLine buf continued e :
    open_buffer buf (Some <$> B) e -> B ++ F = message_text ++ w -> stage B F (Reading EVCON_READING_FIRSTLINE r0 buf continued) e
| AtHeaders r1 kvs1 kvs2 r buf continued e :
    open_buffer buf (Some <$> B) e -> kvs = kvs1 ++ kvs2 -> first r1 -> fields_added r1 kvs1 r -> B ++ F = fields_text kvs2 ++ wire ++ w ->
    stage B F (Reading EVCON_READING_HEADERS r buf continued) e
| AtBody r1 r2 s e : first r1 -> fields_added r1 kvs r2 -> waits r2 B F s e -> stage B F s e.

(** The message is complete. *)
Definition whole (F : list Z) (res : read_next * reading) (e : evenv) : Prop :=
  ∃ r1 r2, first r1 ∧ fields_added r1 kvs r2 ∧ complete r2 body F w res e.

Definition read_on (F : list Z) (res : read_next * reading) (e : evenv) : Prop :=
  (∃ B s, F ≠ [] ∧ res = (ReadsMore, s) ∧ stage B F s e) ∨ whole F res e.

Context (Hline : line_ok).

Lemma first_room r : first r -> Z.of_nat (length message_text) < 2 ^ 31 -> room r (Z.of_nat (length (fields_text kvs))).
Proof.
  intros Hr Hx. destruct (lo_first Hline r Hr) as ([Hc _ _ _] & Hs & _). pose proof (lo_limit Hline) as Hl. rewrite message_length in Hx.
  split; [|lia]. rewrite /over_headers_size Hc Hs Z.ltb_ge. lia.
Qed.

Lemma fields_room r kvs2 r' : room r (Z.of_nat (length (fields_text kvs2))) -> fields_added r kvs2 r' -> room r' 2.
Proof.
  intros Hr Hadd. apply (room_added r kvs2); [done| |done]. apply (room_less _ _ _ Hr).
  destruct (fields_text_app kvs2 []) as (k & Hk & Hle). rewrite app_nil_r in Hk. rewrite Hk. cbn. lia.
Qed.

Lemma body_read_on r1 r2 F res e : first r1 -> fields_added r1 kvs r2 -> body_on body w r2 (waits r2) F res e -> read_on F res e.
Proof.
  intros Hfi Hadd [(B & s & HF & -> & Hw)|Hco]; [left; exists B, s; split_and!; [done|done|by eapply AtBody]|right; by exists r1, r2].
Qed.

Lemma runs_at_headers r1 kvs1 kvs2 r buf B F continued e :
  kvs = kvs1 ++ kvs2 -> first r1 -> fields_added r1 kvs1 r -> room r (Z.of_nat (length (fields_text kvs2))) -> open_buffer buf (Some <$> B) e ->
  B ++ F = fields_text kvs2 ++ wire ++ w -> Z.of_nat (length (B ++ F)) < 2 ^ 31 ->
  runs (evhttp_read_header None (Reading EVCON_READING_HEADERS r buf continued)) e (read_on F).
Proof.
  intros Hk Hfi Hadd Hroom Hb Heq Hx. rewrite /evhttp_read_header. cbn [rc_req rc_input rc_state rc_continued]. rewrite /evhttp_parse_headers (bb_length _ _ _ Hb) length_fmap.
  pose proof (lo_fields Hline) as Hok. rewrite Hk in Hok. apply Forall_app in Hok as [_ Hok2].
  apply runs_bind, (runs_headers_loop open_buffer kvs2 Hok2 _ r buf B F (wire ++ w)); [done|done|done|lia|done| |].
  - intros r' b' B' ks1 ks2 e' Hks Hadd' Hb' HB' HF. apply runs_ret. left. eexists B', _. split_and!; [done|done|].
    eapply (AtHeaders _ _ r1 (kvs1 ++ ks1) ks2); [done|by rewrite Hk Hks app_assoc|done|by eapply fields_added_app|done].
  - intros r' b' B' e' Hadd' Hb' HB'. assert (Hall : fields_added r1 kvs r') by (rewrite Hk; by eapply fields_added_app).
    pose proof (lo_reader Hline _ _ Hfi Hall (fields_room _ _ _ Hroom Hadd')) as Hbr.
    eapply runs_mono; [apply (br_start B' F EVCON_READING_HEADERS continued b' e'); [done| |done]|].
    { rewrite HB'. rewrite Heq (length_app (fields_text _)) in Hx. lia. }
    intros res e2. by apply body_read_on with r1.
Qed.

Lemma runs_read_cb B F s e :
  Z.of_nat (length (message_text ++ w)) < 2 ^ 31 -> stage B F s e -> runs (evhttp_read_cb None s) e (read_on F).
Proof.
  intros Hx Hst. rewrite length_app in Hx. assert (Hroom : ∀ r, first r -> room r (Z.of_nat (length (fields_text kvs)))) by (intros r Hr; apply first_room; [done|lia]).
  rewrite message_length in Hx. destruct Hst as [buf continued e Hb Heq|r1 kvs1 kvs2 r buf continued e Hb Hk Hfi Hadd Heq|r1 r2 s e Hfi Hadd Hw].
  - rewrite /evhttp_read_cb /evhttp_read_firstline. cbn [rc_req rc_input rc_state rc_continued]. destruct (lo_line Hline) as [Ht Hl].
    rewrite /message_text -(app_assoc line) -(app_assoc crlf) -(app_assoc (fields_text kvs)) in Heq.
    apply runs_bind, (runs_parse_firstline first r0 buf B F line (fields_text kvs ++ wire ++ w)); [done| |done|done|done| |apply Hline| |].
    + rewrite Heq (length_app line) (length_app crlf) (length_app (fields_text kvs)) length_app. cbn [length crlf]. lia.
    + pose proof (lo_limit Hline) as Hlim. rewrite /over_headers_size (lo_evcon Hline) Z.ltb_ge. pose proof (fields_text_nonempty kvs). lia.
    + intros HF. apply runs_ret. left. eexists B, _. split_and!; [done|done|]. apply AtLine; [done|]. rewrite Heq /message_text -(app_assoc line) -(app_assoc crlf) -(app_assoc (fields_text kvs)) //.
    + intros r' b' B' e' Hfi Hb' HB'. apply (runs_at_headers r' [] kvs r' b' B'); [done|done|apply fields_added_nothing|by apply Hroom|done|done|].
      rewrite HB' (length_app (fields_text kvs)) length_app. lia.
  - apply (runs_at_headers r1 kvs1 kvs2 r buf B); try done.
    + apply (room_added r1 kvs1); [done| |lia]. apply (room_less _ _ _ (Hroom r1 Hfi)). rewrite Hk. destruct (fields_text_app kvs1 kvs2) as (k & -> & Hle). lia.
    + rewrite Heq (length_app (fields_text kvs2)) length_app. rewrite Hk in Hx. destruct (fields_text_app kvs1 kvs2) as (k & Hlen & Hle). lia.
  - pose proof (lo_reader Hline _ _ Hfi Hadd (fields_room _ _ _ (Hroom r1 Hfi) Hadd)) as Hbr.
    eapply runs_mono; [apply (br_step B F s e Hw); rewrite length_app; lia|]. intros res e2. by apply body_read_on with r1.
Qed.

End reader.

(** ** Fields that are added *)

Lemma find_field_snoc kvs kv key :
  find_field (kvs ++ [kv]) key =
    match find_field kvs key with Some v => Some v | None => if decide (evutil_ascii_strcasecmp (fst kv) key = 0) then Some (snd kv) else None end.
Proof.
  rewrite /find_field list_find_snoc. destruct (list_find _ kvs) as [[]|]; [done|]. by destruct (decide _).
Qed.

(** A field is added if [cond] holds and there is none of that name. *)
Definition maybe_field (cond : bool) (key value : list Z) (kvs : list (list Z * list Z)) : list (list Z * list Z) :=
  if cond && bool_decide (find_field kvs key = None) then kvs ++ [(key, value)] else kvs.

Lemma find_maybe_other cond key value kvs k :
  evutil_ascii_strcasecmp key k ≠ 0 -> find_field (maybe_field cond key value kvs) k = find_field kvs k.
Proof.
  intros Hk. rewrite /maybe_field. destruct (_ && _); [|done]. rewrite find_field_snoc decide_False //. by destruct (find_field kvs k).
Qed.

Lemma find_maybe_same key value kvs :
  is_text key -> find_field kvs key = None -> find_field (maybe_field true key value kvs) key = Some value.
Proof.
  intros Hk Hno. rewrite /maybe_field bool_decide_true //= find_field_snoc Hno decide_True //. by apply strcasecmp_zero.
Qed.

Lemma maybe_fields_ok cond key value kvs : Forall field_ok kvs -> (cond = true -> field_ok (key, value)) -> Forall field_ok (maybe_field cond key value kvs).
Proof.
  intros Hk Hkv. rewrite /maybe_field. destruct cond; [|done]. cbn [andb]. case_bool_decide; [|done]. apply Forall_app. split; [done|].
  apply Forall_singleton. by apply Hkv.
Qed.

Lemma no_header_field hs key : no_header hs key = bool_decide (find_field (header_pairs hs) key = None).
Proof. rewrite /no_header find_header_field. by destruct (find_field _ key). Qed.

Lemma runs_with_header hs key value e (Q : evkeyvalq -> evenv -> Prop) :
  ev_oom e = [] -> field_ok (key, value) -> (∀ hs' e', header_pairs hs' = header_pairs hs ++ [(key, value)] -> goes_on e e' -> Q hs' e') ->
  runs (with_header hs key value) e Q.
Proof.
  intros Hm Hkv HQ. apply runs_bind, (runs_add_field hs (key, value)); [done|done|]. intros h e' Hh Hgo. apply runs_ret, HQ; [|done].
  by rewrite /header_pairs fmap_app -Hh.
Qed.

Lemma runs_maybe_header cond hs key value e (Q : evkeyvalq -> evenv -> Prop) :
  ev_oom e = [] -> (cond = true -> field_ok (key, value)) ->
  (∀ hs' e', header_pairs hs' = maybe_field cond key value (header_pairs hs) -> goes_on e e' -> Q hs' e') ->
  runs (if cond && no_header hs key then with_header hs key value else mret hs) e Q.
Proof.
  intros Hm Hkv HQ. rewrite no_header_field. rewrite /maybe_field in HQ. destruct (cond && bool_decide _) eqn:Hc.
  - apply andb_prop in Hc as [-> _]. apply runs_with_header; auto.
  - by apply runs_ret, HQ.
Qed.

Lemma without_header_none hs key : find_field (header_pairs hs) key = None -> without_header hs key = mret hs.
Proof.
  intros Hno. rewrite -find_header_field /evhttp_find_header in Hno. rewrite /without_header /evhttp_remove_header.
  by destruct (list_find (has_key key) hs) as [[]|].
Qed.

Lemma constant_field (kv : list Z * list Z) :
  forallb (fun c => (1 <=? c) && (c <? 256) && negb (existsb (Z.eqb c) [58; 13; 10])) (fst kv)
  && forallb (fun c => (1 <=? c) && (c <? 256) && negb (existsb (Z.eqb c) [13; 10])) (snd kv)
  && negb (existsb (Z.eqb (hd 0 (fst kv))) [32; 9]) && negb (hd 0 (snd kv) =? 32) = true -> field_ok kv.
Proof.
  intros H. rewrite !andb_true_iff !forallb_forall in H. destruct H as [[[Hk Hv] Hf] Hs].
  assert (Hc : ∀ c l, (1 <=? c) && (c <? 256) && negb (existsb (Z.eqb c) l) = true -> is_char c ∧ ∀ x, x ∈ l -> c ≠ x).
  { intros c l Hc. rewrite !andb_true_iff negb_true_iff in Hc. destruct Hc as [[H1 H2] H3]. split; [rewrite /is_char; lia|].
    intros x Hx ->. assert (existsb (Z.eqb x) l = true) by (apply existsb_exists; exists x; split; [by apply list_elem_of_In|apply Z.eqb_refl]). congruence. }
  split.
  - split; apply Forall_forall; intros c Hin%list_elem_of_In; destruct (Hc _ _ (Hk c Hin)) as [H1 H2]; [done|]. split_and!; apply H2, list_elem_of_In; cbn; tauto.
  - cbn in Hf. rewrite negb_true_iff !orb_false_iff !Z.eqb_neq in Hf. tauto.
  - split; apply Forall_forall; intros c Hin%list_elem_of_In; destruct (Hc _ _ (Hv c Hin)) as [H1 H2]; [done|]. split; apply H2, list_elem_of_In; cbn; tauto.
  - by rewrite negb_true_iff Z.eqb_neq in Hs.
Qed.

Lemma length_field n : 0 <= n -> field_ok (str "Content-Length", dec n).
Proof.
  intros Hn. destruct (dec_text n Hn) as [Ht Hd]. destruct (constant_field (str "Content-Length", [])) as [Hk Hf _ _]; [done|].
  split; [done|done| |]; cbn [fst snd].
  - split; [done|]. eapply Forall_impl; [exact Hd|]. intros c Hc. split; intros ->; done.
  - destruct Hd as [|c l Hc]; [done|]. cbn. by intros ->.
Qed.

(** ** The header *)

Section header.
Context (holds : evbuffer -> list mbyte -> evenv -> Prop) `{!ByteBuffer holds, !PrintBuffer holds}.
Abbreviation filled := (filled holds).

Lemma runs_put_headers hs b t e (Q : evbuffer -> evenv -> Prop) :
  filled b t e -> short (t ++ fields_text (header_pairs hs)) ->
  (∀ b' e', filled b' (t ++ concat ((fun kv => field_line kv ++ crlf) <$> header_pairs hs)) e' -> Q b' e') ->
  runs (put_headers b hs) e Q.
Proof.
  revert b t e. induction hs as [|h hs IH]; intros b t e Hb Hs HQ; cbn [put_headers].
  { apply runs_ret, HQ. by rewrite app_nil_r. }
  set (l := field_line (s_text (kv_key h), s_text (kv_value h)) ++ crlf).
  assert (Hl : s_text (kv_key h) ++ 58 :: 32 :: s_text (kv_value h) ++ crlf = l) by by rewrite /l /field_line -app_assoc. rewrite Hl.
  assert (Hs' : short ((t ++ l) ++ fields_text (header_pairs hs))).
  { move: Hs. change (header_pairs (h :: hs)) with ((s_text (kv_key h), s_text (kv_value h)) :: header_pairs hs). rewrite fields_text_cons /l -!app_assoc //. }
  apply runs_bind, (runs_putf_short holds b t); [done|rewrite -Hl; by destruct (s_text (kv_key h))|by apply short_app in Hs' as [? _]|].
  intros b1 e1 Hb1. apply (IH b1 (t ++ l)); [done|done|]. intros b' e' Hb'. apply HQ. rewrite -app_assoc in Hb'. exact Hb'.
Qed.

(** The fields of a request. *)
Definition request_fields (r : evhttp_request) : list (list Z * list Z) :=
  maybe_field ((hr_type r =? EVHTTP_REQ_POST) || (hr_type r =? EVHTTP_REQ_PUT)) (str "Content-Length") (dec (evbuffer_get_length (hr_output_buffer r)))
    (header_pairs (hr_output_headers r)).

Lemma runs_make_header_request r method uri b e (Q : evbuffer * evhttp_request -> evenv -> Prop) :
  filled b [] e -> evhttp_method (hr_type r) = Some method -> hr_uri r = Some uri -> 0 <= evbuffer_get_length (hr_output_buffer r) ->
  find_field (header_pairs (hr_output_headers r)) (str "Proxy-Connection") = None ->
  short (request_line method (s_text uri) (hr_major r) (hr_minor r)) ->
  (∀ b' hs e', filled b' (request_line method (s_text uri) (hr_major r) (hr_minor r)) e' -> header_pairs hs = request_fields r ->
     Q (b', set_output_headers hs r) e') ->
  runs (evhttp_make_header_request b r) e Q.
Proof.
  intros Hb Hme Hu Hn Hpc Hs HQ. rewrite /evhttp_make_header_request without_header_none // Hme Hu. apply runs_bind, runs_ret, runs_bind.
  apply (runs_putf_short holds b []); [done| |done|].
  { intros Hnil%(f_equal length). rewrite /request_line !length_app /= in Hnil. lia. }
  intros b1 e1 Hb1. apply runs_bind, runs_maybe_header; [by eapply (filled_memory holds)|intros _; by apply length_field|].
  intros hs e2 Hhs Hgo. apply runs_ret, HQ; [by eapply (filled_frame holds)|done].
Qed.
End header.

(** The rest of evhttp_make_header: the header lines and the body. *)
Definition header_and_body (output : evbuffer) (r : evhttp_request) : E (evbuffer * evhttp_request) :=
  output ← put_headers output (hr_output_headers r);
  output ← put output crlf;
  if 0 <? evbuffer_get_length (hr_output_buffer r) then
    '(_, output, body) ← evbuffer_add_buffer output (hr_output_buffer r);
    mret (output, set_buffers (hr_input_buffer r) body r)
  else mret (output, r).

Lemma make_header_parts output r date :
  evhttp_make_header output r date =
    ('(output, r) ← match hr_kind r with
                    | EVHTTP_REQUEST => evhttp_make_header_request output r
                    | EVHTTP_RESPONSE => evhttp_make_header_response output r date
                    end;
     header_and_body output r).
Proof. done. Qed.

(** What is written when the body is in the output buffer of a message. *)
Definition writes (m : E (evbuffer * evhttp_request)) (e : evenv) (t : list Z) : Prop :=
  runs m e (fun res _ => contents (fst res) = Some <$> t).

(** When there is no body yet. *)
Lemma runs_header_alone (holds : evbuffer -> list mbyte -> evenv -> Prop) `{!ByteBuffer holds, !PrintBuffer holds} out t r e (Q : evbuffer * evhttp_request -> evenv -> Prop) :
  filled holds out t e -> evbuffer_get_length (hr_output_buffer r) = 0 -> short (t ++ fields_text (header_pairs (hr_output_headers r))) ->
  (∀ out' e', filled holds out' (t ++ fields_text (header_pairs (hr_output_headers r))) e' -> Q (out', r) e') ->
  runs (header_and_body out r) e Q.
Proof.
  intros Hout Hz Hs HQ. set (kvs := header_pairs (hr_output_headers r)) in *.
  apply runs_bind, (runs_put_headers holds _ out t); [done|done|]. intros b1 e1 Hb1. fold kvs in Hb1.
  assert (Hall : (t ++ concat ((fun kv => field_line kv ++ crlf) <$> kvs)) ++ crlf = t ++ fields_text kvs) by by rewrite -app_assoc.
  apply runs_bind. eapply (runs_put_short holds); [exact Hb1|by rewrite Hall|]. intros b2 e2 Hb2. rewrite Hall in Hb2. rewrite Hz. by apply runs_ret, HQ.
Qed.

Lemma writes_header_and_body out t r body e :
  filled (beside (hr_output_buffer r) (Some <$> body)) out t e ->
  short (t ++ fields_text (header_pairs (hr_output_headers r)) ++ body) ->
  writes (header_and_body out r) e (t ++ fields_text (header_pairs (hr_output_headers r)) ++ body).
Proof.
  intros Hout Hs. set (kvs := header_pairs (hr_output_headers r)) in *. rewrite /short (app_assoc t) length_app in Hs.
  apply runs_bind, (runs_put_headers (beside (hr_output_buffer r) (Some <$> body)) _ out t); [done|rewrite /short; fold kvs; lia|].
  intros b1 e1 Hb1. fold kvs in Hb1.
  assert (Hall : (t ++ concat ((fun kv => field_line kv ++ crlf) <$> kvs)) ++ crlf = t ++ fields_text kvs) by by rewrite -app_assoc.
  apply runs_bind. eapply (runs_put_short (beside (hr_output_buffer r) (Some <$> body))); [exact Hb1|rewrite Hall /short; lia|].
  intros b2 e2 Hb2. rewrite Hall in Hb2. pose proof Hb2 as (_ & _ & Hbody). rewrite (bb_length _ _ _ Hbody) length_fmap.
  rewrite (app_assoc t). destruct (Z.ltb_spec 0 (Z.of_nat (length body))) as [Hlt|Hge].
  - apply runs_bind. eapply runs_add_beside; [exact Hb2|rewrite !length_fmap; lia|]. intros x out' inb' e3 (Hout' & _) _. apply runs_ret.
    by rewrite /= (st_bytes _ _ _ Hout') -fmap_app.
  - assert (body = []) as -> by (apply nil_length_inv; lia). apply runs_ret. rewrite app_nil_r. by destruct Hb2 as ([_ _ Hc _ _ _] & _ & _).
Qed.

(** ** Requests *)

(** A request that can be sent and read: the reader knows the method, and there
    is a body only where its length is sent. *)
Record sendable_request `{inet : InetPton} (r : evhttp_request) (method : list Z) (uri : cstr) (p : pieces) (body : list Z) : Prop := {
  sr_kind : hr_kind r = EVHTTP_REQUEST;
  sr_method : evhttp_method (hr_type r) = Some method ∧ hr_type r ≠ EVHTTP_REQ_CONNECT ∧ hr_type r ≠ EVHTTP_REQ_PATCH;
  sr_uri : hr_uri r = Some uri ∧ word (s_text uri) ∧ valid_uri EVHTTP_URI_NONCONFORMANT p ∧ spells (s_text uri) p;
  sr_version : 0 <= hr_major r <= 1 ∧ 0 <= hr_minor r < 128;
  sr_fields : Forall field_ok (header_pairs (hr_output_headers r));
  sr_own : Forall (fun key => find_field (header_pairs (hr_output_headers r)) key = None)
             [str "Content-Length"; str "Transfer-Encoding"; str "Expect"; str "Proxy-Connection"];
  sr_body : body = [] ∨ hr_type r = EVHTTP_REQ_POST ∨ hr_type r = EVHTTP_REQ_PUT }.

Definition request_text (method uri : list Z) (major minor : Z) : list Z := method ++ 32 :: uri ++ 32 :: version_text major minor.

Lemma request_line_text method uri major minor : request_line method uri major minor = request_text method uri major minor ++ crlf.
Proof. rewrite /request_line /request_text /version_text. repeat (rewrite -app_assoc; cbn [app]). done. Qed.

Definition known_method (t : Z) : Prop :=
  t ∈ [EVHTTP_REQ_GET; EVHTTP_REQ_POST; EVHTTP_REQ_HEAD; EVHTTP_REQ_PUT; EVHTTP_REQ_DELETE; EVHTTP_REQ_OPTIONS; EVHTTP_REQ_TRACE].

Lemma evhttp_method_known t method :
  evhttp_method t = Some method -> t ≠ EVHTTP_REQ_CONNECT -> t ≠ EVHTTP_REQ_PATCH -> known_method t.
Proof.
  rewrite /evhttp_method /known_method !elem_of_cons.
  repeat (match goal with |- context [t =? ?y] => destruct (Z.eqb_spec t y) as [->|_]; [by intros; tauto|] end). done.
Qed.

(** The reader knows the methods that are written. *)
Lemma method_type_method t method : evhttp_method t = Some method -> known_method t -> method_type method = t ∧ word method.
Proof.
  intros Hm Hk. rewrite /known_method in Hk. rewrite !elem_of_cons in Hk.
  destruct Hk as [->|[->|[->|[->|[->|[->|[->|[]%not_elem_of_nil]]]]]]]; injection Hm as <-.
  all: split; [done|split; repeat constructor; done].
Qed.

Lemma maybe_own_fields cond n kvs key :
  evutil_ascii_strcasecmp (str "Content-Length") key ≠ 0 -> find_field kvs key = None -> find_field (maybe_field cond (str "Content-Length") (dec n) kvs) key = None.
Proof. intros Hk Hno. by rewrite find_maybe_other. Qed.

Lemma request_fields_ok `{inet : InetPton} r method uri p body :
  sendable_request r method uri p body -> 0 <= evbuffer_get_length (hr_output_buffer r) -> Forall field_ok (request_fields r).
Proof. intros [] Hn. apply maybe_fields_ok; [done|]. intros _. by apply length_field. Qed.

(** What makes the message of a request. *)
Definition request_message (r : evhttp_request) (method uri body : list Z) : list Z :=
  message_text (request_text method uri (hr_major r) (hr_minor r)) (request_fields r) body.

Lemma writes_request `{inet : InetPton} r method uri p body e :
  sendable_request r method uri p body -> open_buffer (hr_output_buffer r) (Some <$> body) e ->
  short (request_message r method (s_text uri) body) ->
  writes (evhttp_make_header empty_evbuffer r None) e (request_message r method (s_text uri) body).
Proof.
  intros [Hk (Hme & _ & _) (Hu & _) _ _ Hown _] Hb Hs. rewrite make_header_parts Hk.
  assert (Hn : 0 <= evbuffer_get_length (hr_output_buffer r)) by (rewrite (bb_length _ _ _ Hb); lia).
  rewrite !Forall_cons in Hown. destruct Hown as (_ & _ & _ & Hpc & _).
  rewrite /request_message /message_text (app_assoc _ crlf) -request_line_text in Hs |- *.
  apply runs_bind, (runs_make_header_request (beside (hr_output_buffer r) (Some <$> body)) r method uri); [|done|done|done|done|by apply short_app in Hs as [? _]|].
  { split_and!; [|constructor|done]. exact (open_buffer_new e (bb_memory _ _ _ Hb)). }
  intros b hs e1 Hb1 Hhs. rewrite -Hhs in Hs |- *. by apply (writes_header_and_body b _ (set_output_headers hs r)).
Qed.

(** ** Replies *)

(** The fields of a reply, if the connection is not closed behind it. *)
Definition reply_fields (r : evhttp_request) (date : option (list Z)) : list (list Z * list Z) :=
  let kvs := header_pairs (hr_output_headers r) in
  let keep := evhttp_is_connection_keepalive (hr_input_headers r) in
  let needs_body := evhttp_response_needs_body r in
  let kvs := maybe_field ((1 <=? hr_minor r) && bool_decide (is_Some date)) (str "Date") (default [] date) kvs in
  let kvs := if (hr_minor r =? 0) && keep then kvs ++ [(str "Connection", str "keep-alive")] else kvs in
  let kvs := maybe_field (((1 <=? hr_minor r) || keep) && needs_body && bool_decide (find_field kvs (str "Transfer-Encoding") = None))
               (str "Content-Length") (dec (evbuffer_get_length (hr_output_buffer r))) kvs in
  maybe_field needs_body (str "Content-Type") (str "text/html; charset=ISO-8859-1") kvs.

Lemma runs_date hs (minor : Z) date e (Q : evkeyvalq -> evenv -> Prop) :
  ev_oom e = [] -> (∀ d, date = Some d -> field_ok (str "Date", d)) ->
  (∀ hs' e', header_pairs hs' = maybe_field ((1 <=? minor) && bool_decide (is_Some date)) (str "Date") (default [] date) (header_pairs hs) -> goes_on e e' -> Q hs' e') ->
  runs (if 1 <=? minor then evhttp_maybe_add_date_header hs date else mret hs) e Q.
Proof.
  intros Hm Hd HQ. destruct (1 <=? minor); [|by apply runs_ret, HQ]. destruct date as [d|]; [|by apply runs_ret, HQ].
  apply (runs_maybe_header true); [done|intros _; by apply Hd|done].
Qed.

Lemma runs_content_length cond hs n e (Q : evkeyvalq -> evenv -> Prop) :
  ev_oom e = [] -> 0 <= n ->
  (∀ hs' e', header_pairs hs' = maybe_field (cond && bool_decide (find_field (header_pairs hs) (str "Transfer-Encoding") = None)) (str "Content-Length") (dec n) (header_pairs hs) ->
     goes_on e e' -> Q hs' e') ->
  runs (if cond : bool then evhttp_maybe_add_content_length_header hs n else mret hs) e Q.
Proof.
  intros Hm Hn HQ. destruct cond; [|by apply runs_ret, HQ]. rewrite /evhttp_maybe_add_content_length_header no_header_field.
  apply runs_maybe_header; [done|intros _; by apply length_field|]. intros hs' e' Hhs Hgo. apply HQ; [|done]. exact Hhs.
Qed.

Lemma runs_response_headers r date e (Q : evkeyvalq -> evenv -> Prop) :
  ev_oom e = [] -> hr_major r = 1 -> 0 <= evbuffer_get_length (hr_output_buffer r) -> (∀ d, date = Some d -> field_ok (str "Date", d)) ->
  evhttp_is_connection_close (hr_flags r) (hr_input_headers r) = false ->
  (∀ hs e', header_pairs hs = reply_fields r date -> goes_on e e' -> Q hs e') ->
  runs (response_headers r date) e Q.
Proof.
  intros Hm Hma Hn Hd Hcl HQ. rewrite /response_headers Hma. cbn [Z.eqb Pos.eqb]. rewrite Hcl.
  apply runs_bind, runs_bind, (runs_date _ (hr_minor r) date); [done|done|]. intros h1 e1 Hh1 Hgo1. pose proof (proj2 Hgo1 Hm) as Hm1.
  apply runs_bind. apply (runs_mono _ _ (fun hs e' => header_pairs hs = (if (hr_minor r =? 0) && evhttp_is_connection_keepalive (hr_input_headers r)
    then header_pairs h1 ++ [(str "Connection", str "keep-alive")] else header_pairs h1) ∧ goes_on e1 e')).
  { destruct (_ && evhttp_is_connection_keepalive _); [|by apply runs_ret]. apply runs_with_header; [done|by apply constant_field|done]. }
  intros h2 e2 [Hh2 Hgo2]. pose proof (proj2 Hgo2 Hm1) as Hm2. apply runs_content_length; [done|done|].
  intros h3 e3 Hh3 Hgo3. pose proof (proj2 Hgo3 Hm2) as Hm3. apply runs_bind, runs_maybe_header; [done|by intros _; apply constant_field|].
  intros h4 e4 Hh4 Hgo4. apply runs_ret, HQ; [|by repeat (etrans; [eassumption|])]. rewrite Hh4 Hh3 Hh2 Hh1. done.
Qed.

(** A reply that can be sent and read: the connection is kept, and a body has a
    length. *)
Record sendable_reply (r : evhttp_request) (reason : cstr) (date : option (list Z)) (body : list Z) : Prop := {
  sy_kind : hr_kind r = EVHTTP_RESPONSE;
  sy_code : 0 < hr_response_code r < 2 ^ 31 ∧ hr_response_code r ≠ 100;
  sy_reason : hr_response_code_line r = Some reason ∧ line_text (s_text reason);
  sy_version : hr_major r = 1 ∧ 0 <= hr_minor r < 128 ∧ (1 <= hr_minor r ∨ evhttp_is_connection_keepalive (hr_input_headers r) = true);
  sy_kept : evhttp_is_connection_close (hr_flags r) (hr_input_headers r) = false;
  sy_fields : Forall field_ok (header_pairs (hr_output_headers r)) ∧ (∀ d, date = Some d -> field_ok (str "Date", d));
  sy_own : Forall (fun key => find_field (header_pairs (hr_output_headers r)) key = None) [str "Content-Length"; str "Transfer-Encoding"];
  sy_body : body = [] ∨ evhttp_response_needs_body r = true }.

Definition reply_message (r : evhttp_request) (reason : list Z) (date : option (list Z)) (body : list Z) : list Z :=
  message_text (status_text (hr_major r) (hr_minor r) (hr_response_code r) reason) (reply_fields r date) body.

Lemma status_line_text major minor code reason : status_line major minor code reason = status_text major minor code reason ++ crlf.
Proof. rewrite /status_line /status_text /version_text. repeat (rewrite -app_assoc; cbn [app]). done. Qed.

Lemma runs_make_header_response (holds : evbuffer -> list mbyte -> evenv -> Prop) `{!ByteBuffer holds, !PrintBuffer holds} b r reason date e
    (Q : evbuffer * evhttp_request -> evenv -> Prop) :
  let t := status_text (hr_major r) (hr_minor r) (hr_response_code r) (s_text reason) ++ crlf in
  filled holds b [] e -> hr_response_code_line r = Some reason -> hr_major r = 1 -> 0 <= evbuffer_get_length (hr_output_buffer r) ->
  (∀ d, date = Some d -> field_ok (str "Date", d)) -> evhttp_is_connection_close (hr_flags r) (hr_input_headers r) = false -> short t ->
  (∀ b' hs e', filled holds b' t e' -> header_pairs hs = reply_fields r date -> Q (b', set_output_headers hs r) e') ->
  runs (evhttp_make_header_response b r date) e Q.
Proof.
  cbv zeta. rewrite -status_line_text. intros Hb Hre Hma Hn Hd Hcl Hs HQ. rewrite /evhttp_make_header_response Hre.
  apply runs_bind, (runs_putf_short holds b []); [done|by rewrite /status_line|done|].
  intros b1 e1 Hb1. apply runs_bind, runs_response_headers; [by eapply (filled_memory holds)|done|done|done|done|].
  intros hs e2 Hhs Hgo. apply runs_ret, HQ; [by eapply (filled_frame holds)|done].
Qed.

Lemma writes_reply r reason date body e :
  sendable_reply r reason date body -> open_buffer (hr_output_buffer r) (Some <$> body) e -> short (reply_message r (s_text reason) date body) ->
  writes (evhttp_make_header empty_evbuffer r date) e (reply_message r (s_text reason) date body).
Proof.
  intros [Hk _ (Hre & _) (Hma & _ & _) Hcl (_ & Hd) _ _] Hb Hs. rewrite make_header_parts Hk.
  assert (Hn : 0 <= evbuffer_get_length (hr_output_buffer r)) by (rewrite (bb_length _ _ _ Hb); lia).
  rewrite /reply_message /message_text (app_assoc _ crlf) in Hs |- *.
  apply runs_bind, (runs_make_header_response (beside (hr_output_buffer r) (Some <$> body)) empty_evbuffer r reason); [|done|done|done|done|done|by apply short_app in Hs as [? _]|].
  { split_and!; [|constructor|done]. exact (open_buffer_new e (bb_memory _ _ _ Hb)). }
  intros b hs e1 Hb1 Hhs. rewrite -Hhs in Hs |- *. by apply (writes_header_and_body b _ (set_output_headers hs r)).
Qed.
