(* ===== verification/EvHttpChunk.v ===== *)
(** * libevent/http.c: chunks

    A reply whose length is not known when it starts is sent in chunks, each behind
    its size in hexadecimal digits; an empty one is the last.  What the functions
    that send put into a buffer, and a reader of bodies that are sent in this way. *)

From Stdlib Require Import ssreflect.
From S2P Require Import Prelude CTypes HProp CMem CLib BRound EvBuffer EvBufSpec EvBufOps EvBufPlain EvBufQueue EvBufXfer EvSearch EvSearchSpec EvPrint EvPrintOps EvUtil EvErr EvUri EvUriSpec EvMem EvUriOps EvQuery EvQueryOps EvHttp EvHttpOps.
Set Warnings "-rewrite-rw".
Open Scope general_if_scope.
Open Scope Z_scope.

(** ** Hexadecimal numbers *)

Definition hex_ok (c : Z) : Prop := 48 <= c <= 57 ∨ 97 <= c <= 102.

Lemma hex_lower_ok n : 0 <= n < 16 -> hex_ok (hex_lower n) ∧ evutil_hex_char_to_int (hex_lower n) = n.
Proof.
  intros Hn. rewrite /hex_lower. destruct (Z.ltb_spec n 10).
  - split; [left; lia|]. rewrite /evutil_hex_char_to_int. rewrite (proj2 (Z.leb_le 48 _)); [|lia]. rewrite (proj2 (Z.leb_le _ 57)) /=; lia.
  - split; [right; lia|]. assert (Hc : n = 10 ∨ n = 11 ∨ n = 12 ∨ n = 13 ∨ n = 14 ∨ n = 15) by lia.
    by destruct Hc as [->|[->|[->|[->|[->| ->]]]]].
Qed.

Lemma hex_ok_xdigit c : hex_ok c -> EVUTIL_ISXDIGIT c = true.
Proof.
  intros Hc. assert (Hx : c = 48 ∨ c = 49 ∨ c = 50 ∨ c = 51 ∨ c = 52 ∨ c = 53 ∨ c = 54 ∨ c = 55 ∨ c = 56 ∨ c = 57 ∨ c = 97 ∨ c = 98 ∨ c = 99 ∨ c = 100 ∨ c = 101 ∨ c = 102) by (unfold hex_ok in Hc; lia).
  by destruct_or! Hx; subst.
Qed.

Definition hex_value (acc : Z) (t : list Z) : Z := foldl (fun acc c => acc * 16 + evutil_hex_char_to_int c) acc t.

Lemma hex_val_digits acc t : Forall hex_ok t -> hex_val acc t = (hex_value acc t, length t).
Proof.
  intros Ht. revert acc. induction Ht as [|c t Hc Ht IH]; intros acc; [done|]. cbn [hex_val]. by rewrite hex_ok_xdigit // IH.
Qed.

Lemma hex_digits_spec fuel n : 0 <= n < 2 ^ Z.of_nat fuel -> Forall hex_ok (hex_digits fuel n) ∧ hex_value 0 (hex_digits fuel n) = n.
Proof.
  revert n. induction fuel as [|fuel IH]; intros n Hn; [cbn in *; split; [done|lia]|].
  rewrite Nat2Z.inj_succ Z.pow_succ_r in Hn; [|lia]. cbn [hex_digits]. destruct (Z.ltb_spec n 16).
  - destruct (hex_lower_ok n) as [H1 H2]; [lia|]. split; [by apply Forall_singleton|]. rewrite /hex_value /= H2. lia.
  - destruct (IH (n / 16)) as [H1 H2]; [split; [apply Z.div_pos; lia|apply Z.div_lt_upper_bound; lia]|].
    destruct (hex_lower_ok (n mod 16)) as [H3 H4]; [apply Z.mod_pos_bound; lia|]. split; [apply Forall_app; by split; [|apply Forall_singleton]|].
    rewrite /hex_value foldl_app /= -/(hex_value 0 _) H2 H4. pose proof (Z.div_mod n 16). lia.
Qed.

Lemma hex_digits_nonempty fuel n : hex_digits (S fuel) n ≠ [].
Proof. cbn. destruct (n <? 16); [done|]. by destruct (hex_digits fuel (n / 16)). Qed.

Lemma hex_spec n : 0 <= n -> Forall hex_ok (hex n) ∧ hex_value 0 (hex n) = n ∧ hex n ≠ [].
Proof.
  intros Hn. destruct (hex_digits_spec (S (Z.to_nat (Z.log2 n))) n) as [H1 H2].
  { split; [done|]. rewrite Nat2Z.inj_succ Z2Nat.id; [|apply Z.log2_nonneg]. destruct (decide (n = 0)) as [->|]; [done|]. apply Z.log2_spec; lia. }
  split_and!; [done|done|apply hex_digits_nonempty].
Qed.

Lemma hex_word n : 0 <= n -> word (hex n).
Proof.
  intros Hn. destruct (hex_spec n Hn) as [Hd _]. split; (eapply Forall_impl; [exact Hd|]); intros c Hc; rewrite /hex_ok in Hc; rewrite /is_char; lia.
Qed.

(** strtoll(s, &endp, 16) reads back what was printed, and stops at its end. *)
Lemma strtoll16_hex n : 0 <= n <= LONG_MAX -> strtoll16 (hex n) = (n, []).
Proof.
  intros Hn. destruct (hex_spec n) as (Hd & Hv & Hne); [lia|]. rewrite /strtoll16. destruct (hex n) as [|d ds] eqn:Hh; [done|].
  pose proof (Forall_cons_1 _ _ _ Hd) as [Hd1 Hds]. assert (Hsp : isspace d = false) by (unfold isspace, hex_ok in *; lia).
  assert (Hss : default (0%nat, []) (skip_space ((d :: ds) ++ [0])) = (0%nat, (d :: ds) ++ [0])) by by rewrite /= Hsp. rewrite Hss.
  assert (Hsg : scan_sign ((d :: ds) ++ [0]) = (1, 0%nat, (d :: ds) ++ [0])).
  { cbn [app scan_sign]. by rewrite !(proj2 (Z.eqb_neq d _)); [|rewrite /hex_ok in Hd1; lia..]. }
  cbn [snd fst]. rewrite Hsg.
  assert (Hp : match (d :: ds) ++ [0] with z :: x :: h :: _ => (z =? 48) && ((x =? 120) || (x =? 88)) && EVUTIL_ISXDIGIT h | _ => false end = false).
  { destruct ds as [|x ds]; [done|]. apply Forall_cons in Hds as [Hx _]. cbn [app]. destruct (ds ++ [0]) as [|h l]; [done|].
    rewrite !(proj2 (Z.eqb_neq x _)); [|rewrite /hex_ok in Hx; lia..]. by rewrite andb_false_r. }
  rewrite Hp. cbn [drop]. assert (Hz : hex_val 0 ((d :: ds) ++ [0]) = (n, length (d :: ds))).
  { rewrite -Hv. generalize 0 at 1 3. clear -Hd. induction Hd as [|c t Hc _ IH]; intros acc; [done|].
    cbn [app hex_val]. by rewrite hex_ok_xdigit // IH. }
  rewrite Hz. cbn [length]. rewrite /clamp_long Z.mul_1_l !(proj2 (Z.ltb_ge _ _)); [|unfold LONG_MIN, LONG_MAX in *; lia..].
  cbn [fst]. f_equal. apply drop_ge. cbn. lia.
Qed.

(** ** Texts in chunks *)

Definition chunk (d : list Z) : list Z := hex (Z.of_nat (length d)) ++ crlf ++ d ++ crlf.

(** The last one has no data. *)
Definition last_chunk : list Z := 48 :: crlf.

(** A text in chunks, and the data in it. *)
Inductive in_chunks : list Z -> list Z -> Prop :=
| LastChunk : in_chunks last_chunk []
| OneChunk d text data : d ≠ [] -> in_chunks text data -> in_chunks (chunk d ++ text) (d ++ data).

Lemma in_chunks_length text data : in_chunks text data -> (length data <= length text)%nat.
Proof. induction 1 as [|d text data Hd H IH]; [cbn; lia|]. rewrite /chunk !length_app. lia. Qed.

(** What is left of such a text when [n], the number of bytes left of a chunk,
    is known, or, with -1, is to be read next. *)
Inductive chunk_left : Z -> list Z -> list Z -> Prop :=
| LeftSize text data : in_chunks text data -> chunk_left (-1) text data
| LeftEnd text data : in_chunks text data -> chunk_left (-1) (crlf ++ text) data
| LeftData d text data : d ≠ [] -> in_chunks text data -> chunk_left (Z.of_nat (length d)) (d ++ crlf ++ text) (d ++ data).

Lemma chunk_left_nonempty n text data : chunk_left n text data -> text ≠ [] ∧ n ≠ 0.
Proof.
  intros [t da H|t da H|d t da Hd H]; [|done|].
  - split; [|done]. destruct H as [|d t' da' Hd H]; [done|]. rewrite /chunk. destruct (hex_spec (Z.of_nat (length d))) as (_ & _ & Hne); [lia|].
    by destruct (hex _).
  - split; by destruct d.
Qed.

(** ** A reader of chunks *)

Section reader.
Context `{inet : InetPton} (c : evhttp_connection) (r2 : evhttp_request) (wire body w : list Z).

(** A message in the middle of its chunks. *)
Record chunk_reading (r : evhttp_request) (n : Z) (got : list Z) : Prop := {
  cr_head : same_head r2 r;
  cr_size : hr_headers_size r = hr_headers_size r2;
  cr_chunked : hr_chunked r = true;
  cr_ntoread : hr_ntoread r = n;
  cr_body_size : hr_body_size r = Z.of_nat (length got) + Z.max 0 n }.

Inductive chunk_on (B F : list Z) (r : evhttp_request) (buf : evbuffer) (e : evenv) : Prop :=
| ChunkOn n text got data :
    chunk_left n text data -> (length text <= length wire)%nat -> chunk_reading r n got -> got ++ data = body -> B ++ F = text ++ crlf ++ w ->
    beside (hr_input_buffer r) (Some <$> got) buf (Some <$> B) e -> chunk_on B F r buf e.

(** All data are there; the empty line is not. *)
Record chunk_end (B F : list Z) (r : evhttp_request) (buf : evbuffer) (e : evenv) : Prop := {
  ce_reading : chunk_reading r 0 body;
  ce_text : B ++ F = crlf ++ w;
  ce_buffers : beside (hr_input_buffer r) (Some <$> body) buf (Some <$> B) e }.

Inductive chunk_waits (B F : list Z) : reading -> evenv -> Prop :=
| WaitsChunk r buf continued e : chunk_on B F r buf e -> chunk_waits B F (Reading EVCON_READING_BODY r buf continued) e
| WaitsTrailer r buf continued e : chunk_end B F r buf e -> chunk_waits B F (Reading EVCON_READING_TRAILER r buf continued) e.

Context (Hc : hr_evcon r2 = Some c) (Hmax : Z.of_nat (length body) <= max_body_size c).

Lemma runs_chunk_size r got d data e (Q : option message_read_status * evhttp_request -> evenv -> Prop) :
  chunk_reading r (-1) got -> got ++ d ++ data = body -> Z.of_nat (length body) < 2 ^ 31 ->
  (∀ r', chunk_reading r' (Z.of_nat (length d)) got -> hr_input_buffer r' = hr_input_buffer r ->
     Q (if Z.of_nat (length d) =? 0 then Some ALL_DATA_READ else None, r') e) ->
  runs (chunk_size (hex (Z.of_nat (length d))) r) e Q.
Proof.
  intros [Hh Hs Hch Hn Hbs] Hbody Hx HQ. apply (f_equal length) in Hbody. rewrite !length_app in Hbody.
  rewrite /chunk_size strtoll16_hex; [|rewrite /LONG_MAX; lia]. rewrite bool_decide_true //= (proj2 (Z.ltb_ge _ 0)); [|lia].
  rewrite Hbs (proj2 (Z.ltb_ge (EV_SIZE_MAX - _) _)); [|rewrite /EV_SIZE_MAX; lia]. rewrite (sm_evcon _ _ Hh) Hc (proj2 (Z.ltb_ge (max_body_size c) _)); [|lia].
  apply runs_ret, HQ; [|done]. split; [by destruct Hh|done..|]. cbn. lia.
Qed.

Lemma chunk_on_frame B F r buf e e' : chunk_on B F r buf e -> goes_on e e' -> chunk_on B F r buf e'.
Proof. intros [n text got data Hl Hle Hr Hbody Heq Hb] Hgo. apply (ChunkOn _ _ _ _ _ n text got data); try done. by eapply bb_frame. Qed.

(** A line of the text: nothing yet, or the line. *)
Lemma runs_chunk_line r buf B F l rest got e (Q : option (id * list mbyte) * Z * evbuffer -> evenv -> Prop) :
  beside (hr_input_buffer r) (Some <$> got) buf (Some <$> B) e -> Z.of_nat (length (B ++ F)) < 2 ^ 31 -> word l -> B ++ F = l ++ crlf ++ rest ->
  (F ≠ [] -> Q (None, 0, buf) e) ->
  (∀ i b' B' e', beside (hr_input_buffer r) (Some <$> got) b' (Some <$> B') e' -> B' ++ F = rest -> (length B' < length B)%nat ->
     Z.of_nat (length (B' ++ F)) < 2 ^ 31 -> Q (Some (i, Some <$> l), Z.of_nat (length l), b') e') ->
  runs (evbuffer_readln buf EVBUFFER_EOL_CRLF) e Q.
Proof.
  intros Hb Hx Hl Heq Hno Hyes. apply (runs_line (beside (hr_input_buffer r) (Some <$> got)) buf B F l rest); [done|done|by apply word_lf|done| |].
  - intros HF _. by apply Hno.
  - intros i b' B' e' Hb' HB' Hlen _. apply (Hyes i b' B'); [done|done|lia|]. rewrite length_app in Hx. rewrite length_app. lia.
Qed.

(** The line with the size of a chunk, and what happens to the message then. *)
Definition size_turn (go : evhttp_request -> evbuffer -> E (message_read_status * evhttp_request * evbuffer)) (r : evhttp_request) (buf : evbuffer) :
    E (message_read_status * evhttp_request * evbuffer) :=
  '(p, _, buf) ← evbuffer_readln buf EVBUFFER_EOL_CRLF;
  match p with
  | None => mret (MORE_DATA_EXPECTED, r, buf)
  | Some (i, bytes) =>
      line ← c_str bytes;
      match line with
      | [] => _ ← mm_free i; go r buf
      | _ =>
          _ ← mm_free i;
          '(stop, r) ← chunk_size line r;
          match stop with Some status => mret (status, r, buf) | None => go r buf end
      end
  end.

Lemma runs_size_turn go r buf B F d rest got data e (Q : message_read_status * evhttp_request * evbuffer -> evenv -> Prop) :
  chunk_reading r (-1) got -> got ++ d ++ data = body -> Z.of_nat (length body) < 2 ^ 31 ->
  beside (hr_input_buffer r) (Some <$> got) buf (Some <$> B) e -> Z.of_nat (length (B ++ F)) < 2 ^ 31 -> B ++ F = hex (Z.of_nat (length d)) ++ crlf ++ rest ->
  (F ≠ [] -> Q (MORE_DATA_EXPECTED, r, buf) e) ->
  (∀ r' buf' B' e', chunk_reading r' (Z.of_nat (length d)) got -> beside (hr_input_buffer r') (Some <$> got) buf' (Some <$> B') e' ->
     B' ++ F = rest -> (length B' < length B)%nat -> Z.of_nat (length (B' ++ F)) < 2 ^ 31 ->
     runs (if Z.of_nat (length d) =? 0 then mret (ALL_DATA_READ, r', buf') else go r' buf') e' Q) ->
  runs (size_turn go r buf) e Q.
Proof.
  intros Hr Hbody Hbx Hb Hx Heq Hno Hgo. pose proof (hex_word (Z.of_nat (length d)) ltac:(lia)) as Hw.
  destruct (hex_spec (Z.of_nat (length d))) as (_ & _ & Hne); [lia|].
  apply runs_bind, (runs_chunk_line r buf B F (hex (Z.of_nat (length d))) rest got); [done|done|done|done| |].
  - intros HF. by apply runs_ret, Hno.
  - intros i b' B' e1 Hb' HB' Hlen Hx'. rewrite c_str_line; [|by apply word_text]. apply runs_bind, runs_ret. destruct (hex (Z.of_nat (length d))) as [|h hs] eqn:Hhex; [done|].
    apply runs_bind, runs_free_any. intros e2 Hgo2. rewrite -Hhex. apply runs_bind. eapply runs_chunk_size; [exact Hr|exact Hbody|done|].
    intros r' Hr' Hi. assert (Hb2 : beside (hr_input_buffer r') (Some <$> got) b' (Some <$> B') e2) by (rewrite Hi; by eapply bb_frame).
    specialize (Hgo r' b' B' e2 Hr' Hb2 HB' Hlen Hx'). by destruct (_ =? 0).
Qed.

(** The data of a chunk are all there. *)
Lemma runs_chunk_data r buf B F d rest got e (Q : option message_read_status * evhttp_request * evbuffer -> evenv -> Prop) :
  chunk_reading r (Z.of_nat (length d)) got -> beside (hr_input_buffer r) (Some <$> got) buf (Some <$> B) e -> (length d <= length B)%nat ->
  Z.of_nat (length B) + Z.of_nat (length got) < 2 ^ 62 -> B ++ F = d ++ rest ->
  (∀ r' buf' B' e', chunk_reading r' (-1) (got ++ d) -> beside (hr_input_buffer r') (Some <$> got ++ d) buf' (Some <$> B') e' ->
     B' ++ F = rest -> (length B' = length B - length d)%nat -> Q (None, r', buf') e') ->
  runs (chunk_data None r buf) e Q.
Proof.
  intros Hr Hb Hle Hx Heq HQ. rewrite /chunk_data (cr_ntoread _ _ _ Hr).
  assert (HB : take (length d) B = d) by rewrite -(take_app_le B F) ?Heq ?take_app_length //.
  apply runs_bind, (runs_remove_beside buf (Some <$> B) (hr_input_buffer r) (Some <$> got)); [done|lia|rewrite !length_fmap; lia|].
  intros x buf' inp' e1 Hb' _. apply runs_ret. rewrite Nat2Z.id -fmap_take -fmap_drop HB -fmap_app in Hb'.
  apply (HQ _ buf' (drop (length d) B)); [|done| |apply length_drop].
  - destruct Hr as [Hh Hs Hch Hn Hbs]. split; [by destruct Hh|done..|]. cbn. rewrite Hbs length_app. lia.
  - rewrite -(drop_app_le B F) ?Heq ?drop_app_length //; lia.
Qed.

Lemma runs_chunked_loop fuel r buf B F e (Q : message_read_status * evhttp_request * evbuffer -> evenv -> Prop) :
  chunk_on B F r buf e -> Z.of_nat (length (B ++ F)) < 2 ^ 31 -> Z.of_nat (length body) < 2 ^ 31 -> (length B < fuel)%nat ->
  (∀ r' buf' B' e', F ≠ [] -> chunk_on B' F r' buf' e' -> Q (MORE_DATA_EXPECTED, r', buf') e') ->
  (∀ r' buf' B' e', chunk_end B' F r' buf' e' -> Q (ALL_DATA_READ, r', buf') e') ->
  runs (chunked_loop None fuel r buf) e Q.
Proof.
  intros Hon Hx Hbx Hfuel Hno Hyes. revert r buf B e Hon Hx Hfuel. induction fuel as [|fuel IH]; intros r buf B e Hon Hx Hfuel; [lia|].
  pose proof Hon as [n text got data Hl Htl Hr Hbody Heq Hb]. cbn [chunked_loop]. rewrite (bb_length _ _ _ Hb) length_fmap.
  pose proof (chunk_left_nonempty _ _ _ Hl) as [Htext _]. pose proof (length_app B F) as HlB. destruct (Z.eqb_spec (Z.of_nat (length B)) 0) as [H0|H0].
  { apply runs_ret, (Hno r buf B); [|done]. intros ->. assert (B = []) as -> by (apply nil_length_inv; lia). by destruct text. }
  rewrite (proj2 (Z.ltb_ge EV_SSIZE_MAX _)); [|rewrite /EV_SSIZE_MAX; lia]. rewrite (cr_ntoread _ _ _ Hr).
  destruct Hl as [text data Hin|text data Hin|d text data Hd Hin].
  - cbn [Z.ltb Z.compare]. destruct Hin as [|d text' data' Hd Hin'].
    + apply (runs_size_turn (chunked_loop None fuel) r buf B F [] (crlf ++ w) got []); try done; [intros; by apply (Hno r buf B)|].
      intros r' buf' B' e' Hr' Hb' HB' _ _. apply runs_ret, (Hyes r' buf' B'). rewrite app_nil_r in Hbody. subst got. by split.
    + rewrite /chunk -(app_assoc (hex _)) -(app_assoc crlf) -(app_assoc (hex _)) -(app_assoc crlf) in Heq.
      apply (runs_size_turn (chunked_loop None fuel) r buf B F d (((d ++ crlf) ++ text') ++ crlf ++ w) got data'); try done; [intros; by apply (Hno r buf B)|].
      intros r' buf' B' e' Hr' Hb' HB' Hlen Hx'. rewrite (proj2 (Z.eqb_neq _ 0)); [|by destruct d]. apply (IH r' buf' B'); [|done|lia].
      rewrite -(app_assoc d) in HB'. apply (ChunkOn _ _ _ _ _ (Z.of_nat (length d)) (d ++ crlf ++ text') got (d ++ data')); [by apply LeftData| |done..].
      move: Htl. rewrite /chunk !length_app. lia.
  - cbn [Z.ltb Z.compare]. rewrite -(app_assoc crlf) in Heq. apply runs_bind, (runs_chunk_line r buf B F [] (text ++ crlf ++ w) got); [done|done|by split|done| |].
    + intros HF. by apply runs_ret, (Hno r buf B).
    + intros i b' B' e1 Hb' HB' Hlen Hx'. apply runs_bind, runs_ret, runs_bind, runs_free_any. intros e2 Hgo2. apply (IH r b' B'); [|done|lia].
      apply (ChunkOn _ _ _ _ _ (-1) text got data); [by apply LeftSize| |done|done|done|by eapply bb_frame].
      move: Htl. rewrite (length_app crlf). lia.
  - pose proof (f_equal length Hbody) as Hlen. rewrite !length_app in Hlen. rewrite (proj2 (Z.ltb_ge _ 0)); [|lia].
    rewrite (proj2 (Z.ltb_ge EV_SSIZE_MAX _)); [|rewrite /EV_SSIZE_MAX; lia]. rewrite (proj2 (Z.ltb_lt 0 _)); [|by destruct d]. cbn [andb].
    rewrite -(app_assoc d) in Heq. destruct (Z.ltb_spec (Z.of_nat (length B)) (Z.of_nat (length d))) as [Hlt|Hle].
    { apply runs_ret, (Hno r buf B); [|done]. intros ->. rewrite app_nil_r in Heq. rewrite Heq length_app in Hlt. lia. }
    apply runs_bind, (runs_chunk_data r buf B F d ((crlf ++ text) ++ crlf ++ w) got); [done|done|lia|lia|done|].
    intros r' buf' B' e' Hr' Hb' HB' HlB'. assert (Hd0 : length d ≠ 0%nat) by by destruct d. apply (IH r' buf' B'); [|rewrite length_app; lia|lia].
    apply (ChunkOn _ _ _ _ _ (-1) (crlf ++ text) (got ++ d) data); [by apply LeftEnd| |done|by rewrite -app_assoc|done|done].
    move: Htl. rewrite (length_app d). lia.
Qed.

Lemma chunk_on_size B F r buf e : chunk_on B F r buf e -> (length B + length F <= length ((wire ++ crlf) ++ w))%nat.
Proof. intros [n text got data _ Htl _ _ Heq _]. rewrite -length_app Heq -(app_assoc wire) (length_app text) (length_app wire). lia. Qed.

Lemma chunk_end_size B F r buf e : chunk_end B F r buf e -> (length B + length F <= length ((wire ++ crlf) ++ w))%nat.
Proof. intros [_ Heq _]. rewrite -length_app Heq -(app_assoc wire) (length_app wire). lia. Qed.

Context (Hroom : room r2 2) (Hbx : Z.of_nat (length body) < 2 ^ 31).

Lemma fields_added_none r r' : fields_added r [] r' -> r' = r.
Proof.
  intros (hs & Hp & ->). destruct hs; [|done]. destruct r. by rewrite /set_headers /set_sizes /= app_nil_r Z.add_0_r.
Qed.

(** The trailer has no lines but the empty one. *)
Lemma runs_trailer B F r buf continued e :
  chunk_end B F r buf e -> Z.of_nat (length (B ++ F)) < 2 ^ 31 ->
  runs (evhttp_read_trailer (Reading EVCON_READING_TRAILER r buf continued)) e (body_on body w r2 chunk_waits F).
Proof.
  intros [Hr Heq Hb] Hx. pose proof Hr as [Hh Hs _ _ _]. rewrite /evhttp_read_trailer. cbn [rc_req rc_input rc_state rc_continued]. rewrite /evhttp_parse_headers (bb_length _ _ _ Hb) length_fmap.
  apply runs_bind, (runs_headers_loop (beside (hr_input_buffer r) (Some <$> body)) [] ltac:(done) _ r buf B F w); [done|done|done|lia| | |].
  - destruct Hroom as [Hl1 Hl2]. split; rewrite Hs; [|done]. move: Hl1. by rewrite /over_headers_size (sm_evcon _ _ Hh).
  - intros r' b' B' ks1 ks2 e' Hks Hadd Hb' HB' HF. symmetry in Hks. apply app_eq_nil in Hks as [-> ->]. apply fields_added_none in Hadd as ->.
    apply runs_ret. left. eexists B', _. split_and!; [done|done|]. by constructor.
  - intros r' b' B' e' Hadd Hb' HB'. apply fields_added_none in Hadd as ->. apply runs_ret. right. destruct Hb' as (Hopen & _ & Hbody).
    split; cbn; [done|done|apply (st_bytes _ _ _ Hbody)|]. exists B'. split; [apply (st_bytes _ _ _ Hopen)|done].
Qed.

Lemma runs_read_chunks B F r buf continued e :
  chunk_on B F r buf e -> Z.of_nat (length (B ++ F)) < 2 ^ 31 ->
  runs (evhttp_read_body None (Reading EVCON_READING_BODY r buf continued)) e (body_on body w r2 chunk_waits F).
Proof.
  intros Hon Hx. assert (Hb : ∃ got, beside (hr_input_buffer r) (Some <$> got) buf (Some <$> B) e ∧ hr_chunked r = true).
  { destruct Hon as [n text got data _ _ Hr _ _ Hb]. exists got. split; [done|]. by eapply cr_chunked. }
  destruct Hb as (got & Hb & Hch). rewrite /evhttp_read_body. cbn [rc_req rc_input rc_state rc_continued].
  rewrite Hch /evhttp_handle_chunked_read (bb_length _ _ _ Hb) length_fmap Nat2Z.id.
  apply runs_bind, (runs_chunked_loop _ r buf B F); [done|done|done|lia| |].
  - intros r' buf' B' e' HF Hon'. pose proof Hon' as [n text got' data Hl _ Hr Hbody _ _]. destruct Hr as [Hh _ Hch' Hn Hbs].
    pose proof (chunk_left_nonempty _ _ _ Hl) as [_ Hn0]. apply (f_equal length) in Hbody. rewrite length_app in Hbody.
    assert (Hle : hr_body_size r' <= max_body_size c).
    { rewrite Hbs. destruct Hl as [| |d text data Hd Hin]; cbn in *; [lia|lia|]. rewrite length_app in Hbody. lia. }
    rewrite /body_read. cbn [rc_req rc_state rc_input rc_continued]. rewrite (sm_evcon _ _ Hh) Hc Hch' (proj2 (Z.ltb_ge _ _)) //. cbn [negb andb orb].
    apply runs_bind, runs_ret. rewrite Hn (proj2 (Z.eqb_neq _ 0)) //. apply runs_ret. left. eexists B', _. split_and!; [done|done|]. by constructor.
  - intros r' buf' B' e' He. apply (runs_trailer B'); [done|]. rewrite (ce_text _ _ _ _ _ He). destruct Hon as [n text got' data _ _ _ _ Heq _].
    rewrite Heq (length_app text) in Hx. lia.
Qed.

(** The reply says that it is in chunks. *)
Record in_chunks_said : Prop := {
  is_reply : hr_kind r2 = EVHTTP_RESPONSE;
  is_code : hr_response_code r2 ≠ 100 ∧ evhttp_response_needs_body r2 = true;
  is_field : find_field (header_pairs (hr_input_headers r2)) (str "Transfer-Encoding") = Some (str "chunked") }.

Context (Hclean : clean c r2) (Hsaid : in_chunks_said) (Hwire : in_chunks wire body).

Lemma chunk_on_start B F buf e :
  open_buffer buf (Some <$> B) e -> B ++ F = wire ++ crlf ++ w -> chunk_on B F (set_ntoread (-1) (set_chunked true r2)) buf e.
Proof.
  intros Hb Heq. destruct Hclean as [_ _ Hbs Hi]. apply (ChunkOn _ _ _ _ _ (-1) wire [] body); [by apply LeftSize|done| |done|done|].
  - split; [by split|done..|]. cbn. by rewrite Hbs.
  - cbn. rewrite Hi. by apply beside_new.
Qed.

#[export] Instance chunk_reader : BodyReader (wire ++ crlf) body w r2 chunk_waits.
Proof.
  destruct Hsaid as [Hk [Hcode Hneeds] Hte]. assert (Hic : is_chunked r2 = true) by by rewrite /is_chunked find_header_field Hte.
  split.
  - intros B F st continued buf e Hb Hx Heq. rewrite /headers_read. cbn [rc_req]. rewrite Hk (proj2 (Z.eqb_neq _ 100)) // Hneeds. cbn [negb].
    rewrite /evhttp_get_body. cbn [rc_req rc_input rc_state rc_continued]. assert (Hreq : is_request r2 = false) by by rewrite /is_request Hk. rewrite Hreq Hic. cbn [andb negb].
    change (is_chunked (set_ntoread (-1) (set_chunked true r2))) with (is_chunked r2). rewrite Hic. cbn [andb negb].
    assert (Hexp : expectation (set_ntoread (-1) (set_chunked true r2)) buf = (None, false)) by by rewrite /expectation /= Hk.
    rewrite Hexp orb_false_r. apply (runs_read_chunks B); [|done]. apply chunk_on_start; [done|]. by rewrite app_assoc.
  - intros B F s e Hw Hx. destruct Hw as [r buf continued e Hon|r buf continued e He]; rewrite /evhttp_read_cb; cbn [rc_state].
    + apply (runs_read_chunks B); [done|]. apply chunk_on_size in Hon. rewrite length_app. lia.
    + apply (runs_trailer B); [done|]. apply chunk_end_size in He. rewrite length_app. lia.
  - intros B p F s e Hw Hx. destruct Hw as [r buf continued e Hon|r buf continued e He].
    + destruct Hon as [n text got data Hl Htl Hr Hbody Heq Hb]. rewrite app_assoc in Heq. cbn [rc_input].
      apply (bb_add _ _ _ _ _ Hb); [rewrite !length_fmap; lia|]. intros b e1 Hb1 _. rewrite -fmap_app in Hb1. constructor. by econstructor.
    + destruct He as [Hr Heq Hb]. rewrite app_assoc in Heq. cbn [rc_input].
      apply (bb_add _ _ _ _ _ Hb); [rewrite !length_fmap; lia|]. intros b e1 Hb1 _. rewrite -fmap_app in Hb1. by do 2 constructor.
  - intros B F s e [r buf continued e' Hon|r buf continued e' He]; [by eapply chunk_on_size|by eapply chunk_end_size].
Qed.
End reader.

(** ** Sending chunks *)

(** What is sent for some data; there is no chunk without any. *)
Definition chunk_text (d : list Z) : list Z := match d with [] => [] | _ => chunk d end.

Definition chunks (ds : list (list Z)) : list Z := concat (chunk_text <$> ds) ++ last_chunk.

Lemma chunks_cons d ds : chunks (d :: ds) = chunk_text d ++ chunks ds.
Proof. by rewrite /chunks /= -app_assoc. Qed.

Lemma chunks_in ds : in_chunks (chunks ds) (concat ds).
Proof.
  induction ds as [|[|x d] ds IH]; [constructor|exact IH|]. rewrite chunks_cons. by apply OneChunk.
Qed.

Lemma beside_filled out t databuf ds e : filled (beside databuf (Some <$> ds)) out t e -> beside databuf (Some <$> ds) out (Some <$> t) e.
Proof. done. Qed.

(** The data are in [databuf], which is empty afterwards. *)
Lemma runs_send_chunk r databuf d out t e (Q : evbuffer * evbuffer -> evenv -> Prop) :
  filled (beside databuf (Some <$> d)) out t e -> hr_chunked r = true -> evhttp_response_needs_body r = true -> short (t ++ chunk_text d) ->
  (∀ out' databuf' e', filled (beside databuf' (Some <$> [])) out' (t ++ chunk_text d) e' -> Q (out', databuf') e') ->
  runs (evhttp_send_reply_chunk out r databuf) e Q.
Proof.
  intros Hb Hch Hneeds Hs HQ. pose proof Hb as (_ & _ & Hdata). rewrite /evhttp_send_reply_chunk (bb_length _ _ _ Hdata) length_fmap.
  destruct d as [|x d]; [rewrite app_nil_r in HQ; by apply runs_ret, HQ|]. set (xs := x :: d) in *.
  rewrite (proj2 (Z.eqb_neq _ 0)) // Hneeds Hch. cbn [negb]. change (chunk_text xs) with (chunk xs) in *. rewrite /chunk (app_assoc (hex _)) in Hs |- *.
  rewrite /chunk (app_assoc (hex _)) in HQ. set (size := hex (Z.of_nat (length xs)) ++ crlf) in *. rewrite (app_assoc t size) in Hs.
  assert (Hlen : Z.of_nat (length (t ++ size)) + Z.of_nat (length xs) < 2 ^ 31) by (move: Hs; rewrite /short (length_app (t ++ size)) (length_app xs); lia).
  rewrite u32_small; [|lia]. rewrite -/size.
  apply runs_bind, (runs_putf_short (beside databuf (Some <$> xs)) out t); [done| |by apply short_app in Hs as [? _]|].
  { rewrite /size. destruct (hex_spec (Z.of_nat (length xs))) as (_ & _ & Hne); [lia|]. by destruct (hex _). }
  intros b1 e1 Hb1. apply runs_bind. eapply runs_add_beside; [by apply beside_filled|rewrite !length_fmap; lia|].
  intros y b2 databuf' e2 Hb2 _. rewrite -fmap_app in Hb2. apply runs_bind, (runs_put_short (beside databuf' (Some <$> [])) b2 ((t ++ size) ++ xs)); [done|by rewrite -(app_assoc _ xs)|].
  intros b3 e3 Hb3. apply runs_ret, HQ. by rewrite -!app_assoc in Hb3 |- *.
Qed.

(** A server that sends a reply puts the data of each chunk into a buffer. *)
Fixpoint send_chunks (output : evbuffer) (r : evhttp_request) (databuf : evbuffer) (ds : list (list Z)) : E evbuffer :=
  match ds with
  | [] => mret output
  | d :: ds =>
      '(_, databuf) ← evbuffer_add databuf (Some <$> d);
      '(output, databuf) ← evhttp_send_reply_chunk output r databuf;
      send_chunks output r databuf ds
  end.

Definition send_reply (r : evhttp_request) (code : Z) (reason date : option (list Z)) (databuf : evbuffer) (ds : list (list Z)) : E (evbuffer * evhttp_request) :=
  '(output, r) ← evhttp_send_reply_start empty_evbuffer r code reason date;
  output ← send_chunks output r databuf ds;
  evhttp_send_reply_end output r.

Lemma runs_send_chunks r databuf ds out t e (Q : evbuffer -> evenv -> Prop) :
  filled (beside databuf (Some <$> [])) out t e -> hr_chunked r = true -> evhttp_response_needs_body r = true -> short (t ++ chunks ds) ->
  (∀ out' databuf' e', filled (beside databuf' (Some <$> [])) out' (t ++ concat (chunk_text <$> ds)) e' -> Q out' e') ->
  runs (send_chunks out r databuf ds) e Q.
Proof.
  revert databuf out t e. induction ds as [|d ds IH]; intros databuf out t e Hb Hch Hneeds Hs HQ; cbn [send_chunks].
  { apply runs_ret, (HQ _ databuf). by rewrite app_nil_r. }
  rewrite chunks_cons app_assoc in Hs. pose proof (short_app _ _ Hs) as [Hs1 _].
  assert (Hlen : Z.of_nat (length d) < 2 ^ 31). { move: Hs1. destruct d; [done|]. rewrite /short /chunk_text /chunk !length_app. lia. }
  apply runs_bind, (bb_add (holds := beside out (Some <$> t)) databuf []); [by apply beside_sym|rewrite length_fmap; cbn; lia|].
  intros b1 e1 Hb1 _. apply beside_sym in Hb1. apply runs_bind, (runs_send_chunk r b1 d out t); [done|done|done|done|].
  intros out2 b2 e2 Hb2. apply (IH b2 out2 (t ++ chunk_text d)); [done|done|done|done|].
  intros out' databuf' e' Hb'. apply (HQ _ databuf'). cbn. by rewrite app_assoc.
Qed.

(** A reply that can be sent in chunks and read: the version is 1.1 or later, the
    connection is kept, and the reply has no length of its own. *)
Record chunkable (r : evhttp_request) (code : Z) (reason date : option (list Z)) : Prop := {
  ck_code : 0 < code < 2 ^ 31 ∧ code ≠ 100 ∧ evhttp_response_needs_body (set_response code None r) = true;
  ck_reason : line_text (default (evhttp_response_phrase_internal code) reason);
  ck_version : hr_major r = 1 ∧ 1 <= hr_minor r < 128;
  ck_kept : evhttp_is_connection_close (hr_flags r) (hr_input_headers r) = false;
  ck_fields : Forall field_ok (header_pairs (hr_output_headers r)) ∧ (∀ d, date = Some d -> field_ok (str "Date", d));
  ck_own : Forall (fun key => find_field (header_pairs (hr_output_headers r)) key = None) [str "Content-Length"; str "Transfer-Encoding"];
  ck_empty : evbuffer_get_length (hr_output_buffer r) = 0 }.

(** The fields of the reply. *)
Definition chunked_fields (r : evhttp_request) (date : option (list Z)) : list (list Z * list Z) :=
  maybe_field true (str "Content-Type") (str "text/html; charset=ISO-8859-1")
    (maybe_field (bool_decide (is_Some date)) (str "Date") (default [] date)
      (header_pairs (hr_output_headers r) ++ [(str "Transfer-Encoding", str "chunked")])).

Lemma chunked_fields_ok r code reason date : chunkable r code reason date -> Forall field_ok (chunked_fields r date).
Proof.
  intros [_ _ _ _ [Hf Hd] _ _]. apply maybe_fields_ok; [|intros _; by apply constant_field].
  apply maybe_fields_ok; [apply Forall_app; split; [done|apply Forall_singleton; by apply constant_field]|]. intros [d ->]%bool_decide_eq_true. by apply Hd.
Qed.

Lemma chunked_field r code reason date : chunkable r code reason date -> find_field (chunked_fields r date) (str "Transfer-Encoding") = Some (str "chunked").
Proof.
  intros [_ _ _ _ _ Hown _]. rewrite !Forall_cons in Hown. destruct Hown as (_ & Hte & _). rewrite /chunked_fields !find_maybe_other // find_field_snoc Hte. done.
Qed.

(** These are the fields that evhttp_make_header comes to. *)
Lemma chunked_reply_fields r code reason date r' :
  chunkable r code reason date -> header_pairs (hr_output_headers r') = header_pairs (hr_output_headers r) ++ [(str "Transfer-Encoding", str "chunked")] ->
  1 <= hr_minor r' -> evhttp_response_needs_body r' = true -> reply_fields r' date = chunked_fields r date.
Proof.
  intros [_ _ _ _ _ Hown _] Hp Hv Hn. rewrite !Forall_cons in Hown. destruct Hown as (_ & Hte & _).
  rewrite /reply_fields /chunked_fields Hp Hn (proj2 (Z.leb_le _ _) Hv) (proj2 (Z.eqb_neq (hr_minor r') 0)); [|lia]. cbn [andb orb].
  assert (∀ key value kvs, maybe_field false key value kvs = kvs) as Hno by done. rewrite bool_decide_false; [by rewrite Hno|].
  by rewrite find_maybe_other // find_field_snoc Hte.
Qed.

Definition chunked_line (r : evhttp_request) (code : Z) (reason : option (list Z)) : list Z :=
  status_text (hr_major r) (hr_minor r) code (default (evhttp_response_phrase_internal code) reason).

Definition chunked_message (r : evhttp_request) (code : Z) (reason date : option (list Z)) (ds : list (list Z)) : list Z :=
  message_text (chunked_line r code reason) (chunked_fields r date) (chunks ds ++ crlf).

Section start.
Context (holds : evbuffer -> list mbyte -> evenv -> Prop) `{!ByteBuffer holds, !PrintBuffer holds}.

Lemma runs_response_code r code reason e (Q : evhttp_request -> evenv -> Prop) :
  ev_oom e = [] -> is_text (default (evhttp_response_phrase_internal code) reason) ->
  (∀ s e', s_text s = default (evhttp_response_phrase_internal code) reason -> goes_on e e' -> Q (set_response code (Some s) (set_kind EVHTTP_RESPONSE r)) e') ->
  runs (evhttp_response_code r code reason) e Q.
Proof.
  intros Hm Ht HQ. apply runs_bind. apply (runs_mono _ _ (fun _ => goes_on e)).
  { rewrite /free_str. destruct (hr_response_code_line r); [by apply runs_free_any|by apply runs_ret]. }
  intros [] e1 Hgo1. apply runs_bind, runs_strdup; [by apply Hgo1|done|]. intros s e2 Hs Hgo2. apply runs_ret, HQ; [done|by etrans].
Qed.

Lemma runs_reply_start r code reason date b e (Q : evbuffer * evhttp_request -> evenv -> Prop) :
  let t := chunked_line r code reason ++ crlf ++ fields_text (chunked_fields r date) in
  filled holds b [] e -> chunkable r code reason date -> short t ->
  (∀ b' r' e', filled holds b' t e' -> hr_chunked r' = true -> evhttp_response_needs_body r' = true -> Q (b', r') e') ->
  runs (evhttp_send_reply_start b r code reason date) e Q.
Proof.
  intros t Hb Hck Hs HQ. pose proof Hck as [(Hc1 & Hc2 & Hneeds) [Hre _] [Hma Hmi] Hkept [_ Hd] Hown Hz]. rewrite !Forall_cons in Hown. destruct Hown as (Hcl & _ & _).
  apply runs_bind, runs_response_code; [by eapply (filled_memory holds)|done|]. intros s e1 Hs1 Hgo1. set (r1 := set_response _ _ _).
  assert (Hn1 : evhttp_response_needs_body r1 = true) by exact Hneeds. change (hr_output_headers r1) with (hr_output_headers r).
  rewrite no_header_field Hcl Hn1 bool_decide_true //. assert (Hv : version_atleast r1 1 1 = true).
  { rewrite /version_atleast /r1 /= Hma. cbn. apply Z.leb_le. lia. } rewrite Hv. cbn [andb].
  apply runs_bind, runs_with_header; [by eapply (filled_memory holds), (filled_frame holds)|by apply constant_field|].
  intros hs e2 Hhs Hgo2. set (r2 := set_chunked true (set_output_headers hs r1)). rewrite make_header_parts. change (hr_kind r2) with EVHTTP_RESPONSE. cbv iota.
  assert (Hline : status_text (hr_major r2) (hr_minor r2) (hr_response_code r2) (s_text s) = chunked_line r code reason) by by rewrite Hs1.
  assert (Hf : reply_fields r2 date = chunked_fields r date) by (apply (chunked_reply_fields r code reason); [done|done|exact (proj1 Hmi)|done]).
  rewrite /t (app_assoc _ crlf) in Hs HQ. apply runs_bind, (runs_make_header_response holds b r2 s);
    [eapply (filled_frame holds); [exact Hb|by etrans]|done|exact Hma|by change (0 <= evbuffer_get_length (hr_output_buffer r)); rewrite Hz|done|exact Hkept| |].
  { rewrite Hline. by apply short_app in Hs as [? _]. }
  intros b3 hs3 e3 Hb3 Hhs3. rewrite Hline in Hb3. rewrite Hf in Hhs3. apply (runs_header_alone holds b3 (chunked_line r code reason ++ crlf)); [done|exact Hz|by rewrite /= Hhs3|].
  intros b4 e4 Hb4. cbn [set_output_headers set_headers hr_output_headers] in Hb4. rewrite Hhs3 in Hb4. by apply HQ.
Qed.
End start.

Lemma writes_chunked r code reason date databuf ds e :
  chunkable r code reason date -> open_buffer databuf [] e -> short (chunked_message r code reason date ds) ->
  writes (send_reply r code reason date databuf ds) e (chunked_message r code reason date ds).
Proof.
  intros Hck Hb Hs. rewrite /chunked_message /message_text (app_assoc crlf) (app_assoc (chunked_line _ _ _)) (app_assoc _ (chunks ds)) in Hs |- *.
  set (head := chunked_line r code reason ++ crlf ++ fields_text (chunked_fields r date)) in *.
  pose proof (short_app _ _ Hs) as [Hs1 _]. pose proof (short_app _ _ Hs1) as [Hs2 _].
  apply runs_bind, (runs_reply_start (beside databuf []) r code reason date empty_evbuffer); [|done|done|].
  { apply beside_sym, beside_new. exact Hb. }
  intros b1 r1 e1 Hb1 Hch Hne. apply runs_bind, (runs_send_chunks r1 databuf ds b1 head); [done|done|done|done|].
  intros b2 databuf' e2 Hb2. rewrite /evhttp_send_reply_end. change (hr_chunked (set_userdone true r1)) with (hr_chunked r1). rewrite Hch.
  assert (Hend : (head ++ concat (chunk_text <$> ds)) ++ 48 :: crlf ++ crlf = (head ++ chunks ds) ++ crlf).
  { rewrite /chunks /last_chunk. by repeat (rewrite -app_assoc; cbn [app]). }
  apply runs_bind, (runs_put_short (beside databuf' (Some <$> [])) b2 (head ++ concat (chunk_text <$> ds))); [done|by rewrite Hend|].
  intros b3 e3 Hb3. rewrite Hend in Hb3. apply runs_ret. by destruct Hb3 as ([_ _ Hc _ _ _] & _).
Qed.
