(* ===== verification/EvHttpCorrect.v ===== *)
(** * Correctness of the messages of http.c

    What evhttp_make_header writes, evhttp_read_cb reads, however it is cut into
    pieces on its way. *)

From Stdlib Require Import ssreflect.
From S2P Require Import Prelude CTypes HProp CMem CLib BRound EvBuffer EvBufSpec EvBufOps EvBufPlain EvBufQueue EvSearchCorrect EvPrint EvPrintOps EvUtil EvErr EvUri EvUriSpec EvMem EvUriOps EvQuery EvQueryOps EvHttp EvHttpOps EvHttpChunk.
Set Warnings "-rewrite-rw".
Open Scope general_if_scope.
Open Scope Z_scope.
#[local] Existing Instance only_loopback.

(** The data of a connection arrive piece by piece; behind each evhttp_read_cb
    runs, until it asks for no more.  The pieces that are left come last. *)
Fixpoint feed `{inet : InetPton} (pieces : list (list Z)) (s : reading) : E (read_next * reading * list (list Z)) :=
  match pieces with
  | [] => mret (ReadsMore, s, [])
  | p :: pieces =>
      '(_, b) ← evbuffer_add (rc_input s) (Some <$> p);
      '(next, s) ← evhttp_read_cb None (Reading (rc_state s) (rc_req s) b (rc_continued s));
      match next with ReadsMore => feed pieces s | _ => mret (next, s, pieces) end
  end.

Section feed.
Context `{inet : InetPton} (c : evhttp_connection) (r0 : evhttp_request) (line : list Z) (first : evhttp_request -> Prop).
Context (kvs : list (list Z * list Z)) (wire body w : list Z) (waits : evhttp_request -> list Z -> list Z -> reading -> evenv -> Prop).
Context (Hline : line_ok c r0 line first kvs wire body w waits) (Hmax : Z.of_nat (length (message_text line kvs wire ++ w)) < 2 ^ 31).
Abbreviation stage := (stage r0 line first kvs wire w waits).

Lemma body_reader r1 r2 : first r1 -> fields_added r1 kvs r2 -> BodyReader wire body w r2 (waits r2).
Proof.
  intros Hfi Hadd. apply (lo_reader _ _ _ _ _ _ _ _ _ Hline r1); [done|done|]. eapply fields_room; [|done].
  pose proof Hmax as Hm. rewrite length_app in Hm. eapply first_room; [done|done|lia].
Qed.

Lemma stage_size B F s e : stage B F s e -> (length B + length F <= length (message_text line kvs wire ++ w))%nat.
Proof.
  intros [buf continued e' _ H|r1 k1 k2 r buf continued e' _ Hk _ _ H|r1 r2 s' e' Hfi Hadd Hw].
  - by rewrite -length_app H.
  - rewrite -length_app H (length_app (fields_text k2)) !(length_app _ w) message_length Hk. destruct (fields_text_app k1 k2) as (k & -> & _). lia.
  - pose proof (body_reader _ _ Hfi Hadd) as Hbr. pose proof (br_size B F s' e' Hw) as Hs. move: Hs. rewrite !(length_app _ w) message_length. lia.
Qed.

(** The next piece arrives. *)
Lemma runs_more B p F s e :
  stage B (p ++ F) s e ->
  runs (evbuffer_add (rc_input s) (Some <$> p)) e (fun res e' => stage (B ++ p) F (Reading (rc_state s) (rc_req s) (snd res) (rc_continued s)) e').
Proof.
  intros Hst. pose proof (stage_size _ _ _ _ Hst) as Hsz. rewrite length_app in Hsz. move: Hsz.
  destruct Hst as [buf continued e Hb H|r1 k1 k2 r buf continued e Hb Hk Hfi Hadd H|r1 r2 s e Hfi Hadd Hw]; intros Hsz.
  1,2: rewrite app_assoc in H; apply (bb_add _ _ _ _ _ Hb); [rewrite !length_fmap; lia|]; intros b e1 Hb1 _; rewrite -fmap_app in Hb1; by econstructor.
  pose proof (body_reader _ _ Hfi Hadd) as Hbr. eapply runs_mono; [apply (br_more B p F s e Hw); lia|]. intros res e' Hw'. by eapply AtBody.
Qed.

Lemma runs_feed pieces B s e :
  concat pieces ≠ [] -> stage B (concat pieces) s e ->
  runs (feed pieces s) e (fun res => whole first kvs body w (concat (snd res)) (fst res)).
Proof.
  revert B s e. induction pieces as [|p pieces IH]; intros B s e Hne Hst; [done|]. cbn [feed concat] in *.
  apply runs_bind. eapply runs_mono; [by apply runs_more|]. intros [x b] e1 Hst1. cbn [snd] in Hst1.
  apply runs_bind. eapply runs_mono; [by apply (runs_read_cb c r0 line first kvs wire body w waits Hline (B ++ p) (concat pieces))|].
  intros [next s'] e2 [(B' & s2 & HF & [= -> ->] & Hst2)|Hw].
  - by apply (IH B').
  - destruct Hw as (r1 & r2 & H1 & H2 & Hco). pose proof (co_done _ _ _ _ _ _ Hco) as Hd. cbn in Hd. subst next.
    apply runs_ret. by exists r1, r2.
Qed.
End feed.

(** Nothing has been read of a message. *)
Record waiting (kind : evhttp_request_kind) (c : evhttp_connection) (r0 : evhttp_request) : Prop := {
  wa_kind : hr_kind r0 = kind;
  wa_clean : clean c r0;
  wa_fields : hr_input_headers r0 = [] }.

(** What has been read of a request. *)
Record request_read (type : Z) (uri : list Z) (p : pieces) (major minor : Z) (proxy : bool) (flags : Z) (kvs : list (list Z * list Z)) (body : list Z)
    (r : evhttp_request) : Prop := {
  rr_type : hr_kind r = EVHTTP_REQUEST ∧ hr_type r = type;
  rr_uri : s_text <$> hr_uri r = Some uri ∧ uri_pieces <$> hr_uri_elems r = Some p;
  rr_version : hr_major r = major ∧ hr_minor r = minor;
  rr_flags : hr_flags r = if proxy then Z.lor flags EVHTTP_PROXY_REQUEST else flags;
  rr_fields : header_pairs (hr_input_headers r) = kvs;
  rr_body : contents (hr_input_buffer r) = Some <$> body }.

(** The first line of a request, as the reader takes it. *)
Definition request_first (mh mb : Z) (http : evhttp) (r0 : evhttp_request) (type : Z) (uri : list Z) (p : pieces) (major minor n : Z) (r : evhttp_request) : Prop :=
  ∃ s u, s_text s = uri ∧ uri_pieces u = p ∧ r = with_request_line http type major minor s u (set_sizes n (hr_body_size r0) r0).

(** The reader learns the length of the body. *)
Lemma request_plan `{inet : InetPton} r method uri p body r' :
  sendable_request r method uri p body -> evbuffer_get_length (hr_output_buffer r) = Z.of_nat (length body) ->
  hr_kind r' = EVHTTP_REQUEST -> hr_type r' = hr_type r -> header_pairs (hr_input_headers r') = request_fields r -> plan r' (Z.of_nat (length body)).
Proof.
  intros [Hk (Hme & Hcon & Hpa) _ _ _ Hown Hbo] Hlen Hk' Ht' Hp'. pose proof (evhttp_method_known _ _ Hme Hcon Hpa) as Hkn.
  rewrite !Forall_cons in Hown. destruct Hown as (Hcl & Hte & Hex & _). assert (Hreq : is_request r' = true) by by rewrite /is_request Hk'.
  destruct (decide (hr_type r = EVHTTP_REQ_POST ∨ hr_type r = EVHTTP_REQ_PUT)) as [Hpost|Hpost].
  - assert (Hf : request_fields r = maybe_field true (str "Content-Length") (dec (Z.of_nat (length body))) (header_pairs (hr_output_headers r))).
    { rewrite /request_fields Hlen. by destruct Hpost as [->| ->]. }
    apply ByLength; rewrite ?Hreq ?Hp' ?Hf ?Ht'; try done; [by destruct Hpost as [->| ->]|by rewrite maybe_own_fields| |by intros _; rewrite maybe_own_fields].
    apply find_maybe_same; [|done]. by apply word_text; split; repeat constructor.
  - assert (body = []) as -> by tauto. apply NoBody; rewrite ?Hreq ?Ht'; try done.
    rewrite /known_method !elem_of_cons in Hkn. destruct Hkn as [->|[H|[->|[H|[->|[->|[->|[]%not_elem_of_nil]]]]]]]; try done; tauto.
Qed.

Lemma request_line_ok `{inet : InetPton} mh mb http r0 r method uri p body w :
  sendable_request r method uri p body -> waiting EVHTTP_REQUEST (Connection mh mb (Some http)) r0 -> evbuffer_get_length (hr_output_buffer r) = Z.of_nat (length body) ->
  Z.of_nat (length (request_message r method (s_text uri) [])) <= mh -> Z.of_nat (length body) <= mb ->
  Z.of_nat (length body) < 2 ^ 31 ->
  let line := request_text method (s_text uri) (hr_major r) (hr_minor r) in
  line_ok (Connection mh mb (Some http)) r0 line
    (request_first mh mb http r0 (hr_type r) (s_text uri) p (hr_major r) (hr_minor r) (Z.of_nat (length line))) (request_fields r) body body w
    (length_waits (Connection mh mb (Some http)) body w).
Proof.
  intros Hr [Hk0 [Hc0 Hch0 Hbs0 Hib0] Hf0] Hlen Hmh Hmb Hbody line. pose proof Hr as [Hk (Hme & Hcon & Hpa) (Hu & Hw & Hv & Hsp) (Hma & Hmi) Hfi Hown Hbo].
  pose proof (evhttp_method_known _ _ Hme Hcon Hpa) as Hkn. destruct (method_type_method _ _ Hme Hkn) as [Hmt Hmw].
  assert (Hvw : word (version_text (hr_major r) (hr_minor r))) by (apply version_word; lia).
  assert (Hwords : is_text line ∧ no_lf line).
  { apply spaced_line; [by apply word_line|]. by apply spaced_line; apply word_line. }
  rewrite /request_message message_length in Hmh. split; try done.
  - intros e K Hm HK. rewrite /parse_line. change (hr_kind (set_sizes _ _ r0)) with (hr_kind r0). rewrite Hk0.
    apply (runs_parse_request_line mh mb http _ method (s_text uri) p); try done. intros s u e' Hs Hup Hgo. apply HK; [|done]. rewrite Hmt. by exists s, u.
  - intros r1 (s & u & Hs & Hup & ->). rewrite /with_request_line. destruct (asks_proxy http (uri_pieces u)); split_and!; try done.
  - cbn [max_headers_size]. fold line in Hmh. lia.
  - eapply request_fields_ok; [done|lia].
  - intros r1 r2 (s & u & Hs & Hup & ->) (hs & Hp & ->) _. apply length_reader; [|done|]; rewrite /with_request_line.
    + by destruct (asks_proxy http (uri_pieces u)).
    + destruct (asks_proxy http (uri_pieces u)); apply (request_plan r method uri p); try done; cbn; by rewrite Hf0.
Qed.

(** C5: A request that evhttp_make_header writes, with the bytes of its body behind
    it, is what evhttp_read_cb reads at the other end, whatever pieces it arrives in
    and whatever comes behind it.  The reader asks for more as long as something is
    missing and is done when the request is complete; then it has the method, the
    URI and its parts, the version, the header fields and the body that were sent,
    in a server that does not know the host of the URI it is marked for a proxy, and
    the bytes behind the request are left.  The request has one of the methods GET,
    POST, HEAD, PUT, DELETE, OPTIONS and TRACE (a reader takes CONNECT for an error,
    and the length of a PATCH is not sent), version 0.x or 1.x, a URI that is valid
    in the lax grammar, and no field Content-Length, Transfer-Encoding, Expect or
    Proxy-Connection of its own; a body is sent with POST and PUT, which is where
    its length is added to the header.  The message is within the limits of the
    reader, and the allocator gives memory on both sides. *)
Theorem evhttp_request_exchange `{inet : InetPton} r method uri p body mh mb http r0 e :
  sendable_request r method uri p body -> open_buffer (hr_output_buffer r) (Some <$> body) e ->
  waiting EVHTTP_REQUEST (Connection mh mb (Some http)) r0 ->
  Z.of_nat (length (request_message r method (s_text uri) [])) <= mh -> Z.of_nat (length body) <= mb ->
  short (request_message r method (s_text uri) body) ->
  ∃ output r' e1, evhttp_make_header empty_evbuffer r None e = inr (output, r', e1)
    ∧ contents output = Some <$> request_message r method (s_text uri) body
    ∧ ∀ pieces behind e2, concat pieces = request_message r method (s_text uri) body ++ behind -> Z.of_nat (length (concat pieces)) < 2 ^ 31 -> ev_oom e2 = [] ->
      ∃ s rest e3, feed pieces (Reading EVCON_READING_FIRSTLINE r0 empty_evbuffer false) e2 = inr (Done, s, rest, e3)
        ∧ request_read (hr_type r) (s_text uri) p (hr_major r) (hr_minor r) (asks_proxy http p) (hr_flags r0) (request_fields r) body (rc_req s)
        ∧ ∃ kept, contents (rc_input s) = Some <$> kept ∧ kept ++ concat rest = behind.
Proof.
  intros Hr Hb Hw Hmh Hmb Hs. pose proof (writes_request r method uri p body e Hr Hb Hs) as Hwr. rewrite /writes /runs in Hwr.
  destruct (evhttp_make_header empty_evbuffer r None e) as [|[[output r'] e1]]; [done|]. exists output, r', e1. split_and!; [done|done|].
  intros pieces behind e2 Hp Hlen Hm. assert (Hl : evbuffer_get_length (hr_output_buffer r) = Z.of_nat (length body)) by rewrite (bb_length _ _ _ Hb) length_fmap //.
  assert (Hbody : Z.of_nat (length body) < 2 ^ 31) by (rewrite /short /request_message message_length in Hs; lia).
  pose proof (request_line_ok mh mb http r0 r method uri p body behind Hr Hw Hl Hmh Hmb Hbody) as Hok. cbv zeta in Hok.
  rewrite /request_message in Hp Hs. destruct (runs_run _ _ _ (runs_feed _ _ _ _ _ _ _ behind _ Hok ltac:(by rewrite -Hp) pieces []
    (Reading EVCON_READING_FIRSTLINE r0 empty_evbuffer false) e2 ltac:(rewrite Hp /message_text; by destruct method) ltac:(by apply AtLine; [apply open_buffer_new|]))) as ([[next s] rest] & e3 & He & Hwh).
  destruct Hwh as (r1 & r2 & (x & u & Hx & Hu & ->) & (hs & Hhs & ->) & [Hd Hh Hbo Hre]). cbn [fst snd] in *. subst next.
  exists s, rest, e3. split_and!; [done| |done]. destruct Hw as [Hk0 _ Hf0]. destruct Hh as [_ Hfl Hfi Hki Hty [Hur1 Hur2] [Hv1 Hv2] _]. rewrite /with_request_line Hu in Hfl, Hfi, Hki, Hty, Hur1, Hur2, Hv1, Hv2.
  destruct (asks_proxy http p); cbn in Hfl, Hfi, Hki, Hty, Hur1, Hur2, Hv1, Hv2; rewrite Hf0 in Hfi.
  all: split; [by rewrite Hki|by rewrite Hur1 Hur2 /= Hx Hu|done|done|by rewrite Hfi|done].
Qed.

(** A message with a body of two bytes. *)
Definition example_message (kind : evhttp_request_kind) (out : evkeyvalq) (uri reason : option cstr) : evhttp_request :=
  HttpRequest None 0 [] out kind EVHTTP_REQ_POST 0 0 uri None 1 1 200 reason empty_evbuffer 0 false false (two_chains [104] [105]).

Lemma example_body : open_buffer (two_chains [104] [105]) (Some <$> [104; 105]) (EvEnv 3 [] []).
Proof.
  destruct (two_chains_wf [104] [105]) as [Hw Hc]; [done..|]. split; try done. by repeat constructor.
Qed.

Definition example_reader (kind : evhttp_request_kind) : evhttp_request :=
  HttpRequest (Some (Connection 8192 100 (Some (Http [] [] [] [])))) 0 [] [] kind EVHTTP_REQ_POST 0 0 None None 0 0 0 None empty_evbuffer 0 false false empty_evbuffer.

Lemma example_waiting kind : waiting kind (Connection 8192 100 (Some (Http [] [] [] []))) (example_reader kind).
Proof. by repeat split. Qed.

Lemma evhttp_request_exchange_witness :
  let r := example_message EVHTTP_REQUEST [Keyval 1 (Cstr 1 (str "Host")) (Cstr 1 (str "h"))] (Some (Cstr 1 (str "/a?b"))) None in
  ∃ output r' e1, evhttp_make_header empty_evbuffer r None (EvEnv 3 [] []) = inr (output, r', e1)
    ∧ contents output = Some <$> str "POST /a?b HTTP/1.1" ++ crlf ++ str "Host: h" ++ crlf ++ str "Content-Length: 2" ++ crlf ++ crlf ++ str "hi"
    ∧ ∃ s e3, feed [str "POST /a?b HTTP/1.1"; [13]; [10] ++ str "Host: h" ++ crlf ++ str "Content-Length: 2" ++ crlf; crlf ++ str "h"; str "i"]
        (Reading EVCON_READING_FIRSTLINE (example_reader EVHTTP_REQUEST) empty_evbuffer false) (EvEnv 1 [] []) = inr (Done, s, [], e3)
      ∧ hr_type (rc_req s) = EVHTTP_REQ_POST ∧ contents (hr_input_buffer (rc_req s)) = Some <$> str "hi".
Proof.
  intros r. assert (Hr : sendable_request r (str "POST") (Cstr 1 (str "/a?b")) (Pieces None None None (-1) (str "/a") (Some (str "b")) None) (str "hi")).
  { split; [done|done| |done| | |by right; left].
    - split_and!; [done|split; repeat constructor; done| |].
      + apply valid_checked. split; try done; [split; repeat constructor; done|]. intros q [= <-]. split; [repeat constructor; done|done].
      + exists []. split; [by left; split; [|left]|done].
    - repeat constructor; try done.
    - repeat constructor; done. }
  destruct (evhttp_request_exchange r (str "POST") (Cstr 1 (str "/a?b")) _ (str "hi") 8192 100 (Http [] [] [] []) (example_reader EVHTTP_REQUEST) (EvEnv 3 [] []) Hr
    example_body (example_waiting _)) as (output & r' & e1 & He & Hc & Hread); [vm_compute; congruence|vm_compute; congruence|vm_compute; reflexivity|].
  exists output, r', e1. split; [exact He|]. split; [rewrite Hc; vm_compute; reflexivity|].
  destruct (Hread [str "POST /a?b HTTP/1.1"; [13]; [10] ++ str "Host: h" ++ crlf ++ str "Content-Length: 2" ++ crlf; crlf ++ str "h"; str "i"] [] (EvEnv 1 [] []))
    as (s & rest & e3 & Hf & Hrr & kept & Hk & Hrest); [vm_compute; reflexivity|vm_compute; reflexivity|reflexivity|].
  assert (Hnil : rest = []).
  { revert Hf. vm_compute. intros [= _ <- _]. reflexivity. }
  rewrite Hnil in Hf. exists s, e3. split; [exact Hf|]. split; [apply Hrr|exact (rr_body _ _ _ _ _ _ _ _ _ _ Hrr)].
Defined.

(** *** Replies *)

Record reply_read (major minor code : Z) (reason : list Z) (kvs : list (list Z * list Z)) (body : list Z) (r : evhttp_request) : Prop := {
  ry_kind : hr_kind r = EVHTTP_RESPONSE;
  ry_version : hr_major r = major ∧ hr_minor r = minor;
  ry_code : hr_response_code r = code ∧ s_text <$> hr_response_code_line r = Some reason;
  ry_fields : header_pairs (hr_input_headers r) = kvs;
  ry_body : contents (hr_input_buffer r) = Some <$> body }.

Definition reply_first (r0 : evhttp_request) (major minor code : Z) (reason : list Z) (n : Z) (r : evhttp_request) : Prop :=
  ∃ s, s_text s = reason ∧ r = with_status_line major minor code s (set_sizes n (hr_body_size r0) r0).

Lemma reply_fields_ok r reason date body :
  sendable_reply r reason date body -> 0 <= evbuffer_get_length (hr_output_buffer r) -> Forall field_ok (reply_fields r date).
Proof.
  intros [_ _ _ _ _ [Hf Hd] _ _] Hn. rewrite /reply_fields. apply maybe_fields_ok; [|intros _; by apply constant_field].
  apply maybe_fields_ok; [|intros _; by apply length_field].
  assert (Hdate : Forall field_ok (maybe_field ((1 <=? hr_minor r) && bool_decide (is_Some date)) (str "Date") (default [] date) (header_pairs (hr_output_headers r)))).
  { apply maybe_fields_ok; [done|]. intros [_ [d ->]%bool_decide_eq_true]%andb_prop. by apply Hd. }
  destruct (_ && evhttp_is_connection_keepalive _); [|done]. apply Forall_app. split; [done|]. apply Forall_singleton. by apply constant_field.
Qed.

Lemma reply_plan r reason date body r' :
  sendable_reply r reason date body -> evbuffer_get_length (hr_output_buffer r) = Z.of_nat (length body) ->
  hr_kind r' = EVHTTP_RESPONSE -> hr_type r' = hr_type r -> hr_response_code r' = hr_response_code r ->
  header_pairs (hr_input_headers r') = reply_fields r date -> plan r' (Z.of_nat (length body)).
Proof.
  intros [_ [_ H100] _ (_ & _ & Hv) _ _ Hown Hbo] Hlen Hk' Ht' Hc' Hp'. rewrite !Forall_cons in Hown. destruct Hown as (Hcl & Hte & _).
  assert (Hreq : is_request r' = false) by by rewrite /is_request Hk'.
  assert (Hnb : evhttp_response_needs_body r' = evhttp_response_needs_body r) by rewrite /evhttp_response_needs_body Ht' Hc' //.
  destruct (evhttp_response_needs_body r) eqn:Hne; [|by destruct Hbo as [->|]; [apply NoBody; rewrite ?Hreq ?Hc'|]].
  assert (Hcond : ∀ keep : bool, 1 <= hr_minor r ∨ keep = true -> (1 <=? hr_minor r) || keep = true).
  { intros keep [Hle| ->]; [by rewrite (proj2 (Z.leb_le _ _) Hle)|by rewrite orb_true_r]. }
  assert (Hconn : ∀ (cond : bool) kvs k, evutil_ascii_strcasecmp (str "Connection") k ≠ 0 ->
    find_field (if cond then kvs ++ [(str "Connection", str "keep-alive")] else kvs) k = find_field kvs k).
  { intros [] kvs k Hk; [|done]. rewrite find_field_snoc decide_False //. by destruct (find_field kvs k). }
  apply ByLength; rewrite ?Hreq ?Hp' ?Hc' //; rewrite /reply_fields Hne.
  - by rewrite !find_maybe_other // Hconn // find_maybe_other.
  - rewrite find_maybe_other // Hcond // (Hconn _ _ (str "Transfer-Encoding")) // (find_maybe_other _ _ _ _ (str "Transfer-Encoding")) // Hte Hlen. apply find_maybe_same.
    + by apply word_text; split; repeat constructor.
    + by rewrite Hconn // find_maybe_other.
Qed.

Lemma reply_line_ok `{inet : InetPton} c r0 r reason date body w :
  sendable_reply r reason date body -> waiting EVHTTP_RESPONSE c r0 -> hr_type r0 = hr_type r ->
  evbuffer_get_length (hr_output_buffer r) = Z.of_nat (length body) ->
  Z.of_nat (length (reply_message r (s_text reason) date [])) <= max_headers_size c -> Z.of_nat (length body) <= max_body_size c ->
  let line := status_text (hr_major r) (hr_minor r) (hr_response_code r) (s_text reason) in
  line_ok c r0 line (reply_first r0 (hr_major r) (hr_minor r) (hr_response_code r) (s_text reason) (Z.of_nat (length line))) (reply_fields r date) body body w (length_waits c body w).
Proof.
  intros Hr [Hk0 [Hc0 Hch0 Hbs0 Hib0] Hf0] Ht Hlen Hmh Hmb line. pose proof Hr as [_ (Hcode & _) (_ & Hre) (Hma & Hmi & _) _ _ _ _].
  rewrite /reply_message message_length in Hmh. split; try done.
  - apply spaced_line; [by apply word_line, version_word; lia|]. apply spaced_line; [apply word_line, dec_word; lia|done].
  - intros e K Hm HK. rewrite /parse_line. change (hr_kind (set_sizes _ _ r0)) with (hr_kind r0). rewrite Hk0.
    apply runs_parse_response_line; [done|by apply Hre|lia|lia|lia|]. intros s e' Hs Hgo. apply HK; [|done]. by exists s.
  - intros r1 (s & Hs & ->). split_and!; try done.
  - fold line in Hmh. lia.
  - eapply reply_fields_ok; [done|lia].
  - intros r1 r2 (s & Hs & ->) (hs & Hp & ->) _. apply length_reader; [done|done|]. apply (reply_plan r reason date); try done. cbn. by rewrite Hf0.
Qed.

(** C8: A reply that evhttp_make_header writes is read in the same way, piece by
    piece: the version, the code and its reason, the header fields and the body.
    The fields are those that were set and the date, the length of the body, the
    content type and Connection: keep-alive where evhttp_make_header adds them, and
    the length is what the reader finds the end of the reply by.  After a HEAD
    request and with the codes that have no body the reader expects none.  The
    connection is one that is kept, the code is not 100, and Content-Length and
    Transfer-Encoding are not among the fields that were set; the message is within
    the limits of the reader, and the allocator gives memory on both sides. *)
Theorem evhttp_reply_exchange `{inet : InetPton} r reason date body c r0 e :
  sendable_reply r reason date body -> open_buffer (hr_output_buffer r) (Some <$> body) e ->
  waiting EVHTTP_RESPONSE c r0 -> hr_type r0 = hr_type r ->
  Z.of_nat (length (reply_message r (s_text reason) date [])) <= max_headers_size c -> Z.of_nat (length body) <= max_body_size c ->
  short (reply_message r (s_text reason) date body) ->
  ∃ output r' e1, evhttp_make_header empty_evbuffer r date e = inr (output, r', e1)
    ∧ contents output = Some <$> reply_message r (s_text reason) date body
    ∧ ∀ pieces behind e2, concat pieces = reply_message r (s_text reason) date body ++ behind -> Z.of_nat (length (concat pieces)) < 2 ^ 31 -> ev_oom e2 = [] ->
      ∃ s rest e3, feed pieces (Reading EVCON_READING_FIRSTLINE r0 empty_evbuffer false) e2 = inr (Done, s, rest, e3)
        ∧ reply_read (hr_major r) (hr_minor r) (hr_response_code r) (s_text reason) (reply_fields r date) body (rc_req s)
        ∧ ∃ kept, contents (rc_input s) = Some <$> kept ∧ kept ++ concat rest = behind.
Proof.
  intros Hr Hb Hw Ht Hmh Hmb Hs. pose proof (writes_reply r reason date body e Hr Hb Hs) as Hwr. rewrite /writes /runs in Hwr.
  destruct (evhttp_make_header empty_evbuffer r date e) as [|[[output r'] e1]]; [done|]. exists output, r', e1. split_and!; [done|done|].
  intros pieces behind e2 Hp Hlen Hm. assert (Hl : evbuffer_get_length (hr_output_buffer r) = Z.of_nat (length body)) by rewrite (bb_length _ _ _ Hb) length_fmap //.
  pose proof (reply_line_ok c r0 r reason date body behind Hr Hw Ht Hl Hmh Hmb) as Hok. cbv zeta in Hok.
  rewrite /reply_message in Hp Hs. destruct (runs_run _ _ _ (runs_feed _ _ _ _ _ _ _ behind _ Hok ltac:(by rewrite -Hp) pieces []
    (Reading EVCON_READING_FIRSTLINE r0 empty_evbuffer false) e2 ltac:(by rewrite Hp /message_text) ltac:(by apply AtLine; [apply open_buffer_new|]))) as ([[next s] rest] & e3 & He & Hwh).
  destruct Hwh as (r1 & r2 & (x & Hx & ->) & (hs & Hhs & ->) & [Hd Hh Hbo Hre]). cbn [fst snd] in *. subst next.
  exists s, rest, e3. split_and!; [done| |done]. destruct Hw as [Hk0 _ Hf0]. destruct Hh as [_ _ Hfi Hki _ _ [Hv1 Hv2] [Hc1 Hc2]].
  cbn in Hfi, Hki, Hv1, Hv2, Hc1, Hc2. rewrite Hf0 in Hfi. split; [by rewrite Hki|done|by rewrite Hc1 Hc2 /= Hx|by rewrite Hfi|done].
Qed.

Lemma evhttp_reply_exchange_witness :
  let r := example_message EVHTTP_RESPONSE [Keyval 1 (Cstr 1 (str "Server")) (Cstr 1 (str "s"))] None (Some (Cstr 1 (str "OK"))) in
  let pieces := [str "HTTP/1.1 200 O"; str "K" ++ crlf ++ str "Server: s" ++ crlf ++ str "Date: d" ++ crlf ++ str "Content-Le"; str "ngth: 2" ++ crlf;
    str "Content-Type: text/html; charset=ISO-8859-1" ++ crlf; crlf; str "hi"] in
  ∃ output r' e1, evhttp_make_header empty_evbuffer r (Some (str "d")) (EvEnv 3 [] []) = inr (output, r', e1)
    ∧ contents output = Some <$> concat pieces
    ∧ ∃ s e3, feed pieces (Reading EVCON_READING_FIRSTLINE (example_reader EVHTTP_RESPONSE) empty_evbuffer false) (EvEnv 1 [] []) = inr (Done, s, [], e3)
      ∧ hr_response_code (rc_req s) = 200 ∧ contents (hr_input_buffer (rc_req s)) = Some <$> str "hi".
Proof.
  intros r pieces. assert (Hr : sendable_reply r (Cstr 1 (str "OK")) (Some (str "d")) (str "hi")).
  { split; [done|done| | |done| | |by right].
    - split; [done|]. split; repeat constructor; done.
    - split_and!; try done. by left.
    - split; [repeat constructor; done|]. intros d [= <-]. repeat constructor; done.
    - repeat constructor; done. }
  destruct (evhttp_reply_exchange r (Cstr 1 (str "OK")) (Some (str "d")) (str "hi") _ (example_reader EVHTTP_RESPONSE) (EvEnv 3 [] []) Hr
    example_body (example_waiting _) eq_refl) as (output & r' & e1 & He & Hc & Hread); [vm_compute; congruence|vm_compute; congruence|vm_compute; reflexivity|].
  exists output, r', e1. split; [exact He|]. split; [rewrite Hc; vm_compute; reflexivity|].
  destruct (Hread pieces [] (EvEnv 1 [] [])) as (s & rest & e3 & Hf & Hrr & kept & Hk & Hrest); [vm_compute; reflexivity|vm_compute; reflexivity|reflexivity|].
  assert (Hnil : rest = []).
  { revert Hf. vm_compute. intros [= _ <- _]. reflexivity. }
  rewrite Hnil in Hf. exists s, e3. split; [exact Hf|]. split; [exact (proj1 (ry_code _ _ _ _ _ _ _ Hrr))|exact (ry_body _ _ _ _ _ _ _ Hrr)].
Defined.

(** *** Replies in chunks *)

Lemma chunked_line_ok `{inet : InetPton} c r0 r code reason date ds w :
  chunkable r code reason date -> waiting EVHTTP_RESPONSE c r0 -> hr_type r0 = hr_type r ->
  let line := chunked_line r code reason in
  Z.of_nat (length line) + Z.of_nat (length (fields_text (chunked_fields r date))) <= max_headers_size c ->
  Z.of_nat (length (concat ds)) <= max_body_size c -> Z.of_nat (length (concat ds)) < 2 ^ 31 ->
  line_ok c r0 line (reply_first r0 (hr_major r) (hr_minor r) code (default (evhttp_response_phrase_internal code) reason) (Z.of_nat (length line)))
    (chunked_fields r date) (chunks ds ++ crlf) (concat ds) w (fun r2 => chunk_waits r2 (chunks ds) (concat ds) w).
Proof.
  intros Hck [Hk0 [Hc0 Hch0 Hbs0 Hib0] Hf0] Ht line Hmh Hmb Hbx. pose proof Hck as [(Hcode & H100 & Hneeds) Hre [Hma Hmi] _ _ _ _]. split; try done.
  - apply spaced_line; [by apply word_line, version_word; lia|]. apply spaced_line; [apply word_line, dec_word; lia|done].
  - intros e K Hm HK. rewrite /parse_line. change (hr_kind (set_sizes _ _ r0)) with (hr_kind r0). rewrite Hk0.
    apply runs_parse_response_line; [done|by apply Hre|lia|lia|lia|]. intros s e' Hs Hgo. apply HK; [|done]. by exists s.
  - intros r1 (s & Hs & ->). split_and!; try done.
  - by eapply chunked_fields_ok.
  - intros r1 r2 (s & Hs & ->) (hs & Hp & ->) Hroom. apply (chunk_reader c); try done; [|apply chunks_in]. split; [done| |].
    + split; [done|]. move: Hneeds. by rewrite /evhttp_response_needs_body /= Ht.
    + change (find_field (header_pairs (hr_input_headers r0 ++ hs)) (str "Transfer-Encoding") = Some (str "chunked")).
      rewrite Hf0 app_nil_l Hp. by eapply chunked_field.
Qed.

(** C30: A reply that a server starts with evhttp_send_reply_start, sends piece by
    piece with evhttp_send_reply_chunk and ends with evhttp_send_reply_end is
    announced as chunked and put into the output in chunks, each with its size; and
    evhttp_read_cb reads it, however the text is cut on its way: as long as
    something is missing, be it in a size, in the data or in the last line, it asks
    for more, and in the end the body is all the data put together, and what comes
    behind the reply is left.  The version is 1.1 or later, the connection is one
    that is kept, the code is one with a body and not 100, Content-Length and
    Transfer-Encoding are not among the fields that were set; the message is within
    the limits of the reader, and the allocator gives memory on both sides. *)
Theorem evhttp_chunked_exchange `{inet : InetPton} r code reason date databuf ds c r0 e :
  chunkable r code reason date -> open_buffer databuf [] e ->
  waiting EVHTTP_RESPONSE c r0 -> hr_type r0 = hr_type r ->
  Z.of_nat (length (message_text (chunked_line r code reason) (chunked_fields r date) [])) <= max_headers_size c -> Z.of_nat (length (concat ds)) <= max_body_size c ->
  short (chunked_message r code reason date ds) ->
  ∃ output r' e1, send_reply r code reason date databuf ds e = inr (output, r', e1)
    ∧ contents output = Some <$> chunked_message r code reason date ds
    ∧ ∀ pieces behind e2, concat pieces = chunked_message r code reason date ds ++ behind -> Z.of_nat (length (concat pieces)) < 2 ^ 31 -> ev_oom e2 = [] ->
      ∃ s rest e3, feed pieces (Reading EVCON_READING_FIRSTLINE r0 empty_evbuffer false) e2 = inr (Done, s, rest, e3)
        ∧ reply_read (hr_major r) (hr_minor r) code (default (evhttp_response_phrase_internal code) reason) (chunked_fields r date) (concat ds) (rc_req s)
        ∧ ∃ kept, contents (rc_input s) = Some <$> kept ∧ kept ++ concat rest = behind.
Proof.
  intros Hck Hb Hw Ht Hmh Hmb Hs. pose proof (writes_chunked r code reason date databuf ds e Hck Hb Hs) as Hwr. rewrite /writes /runs in Hwr.
  destruct (send_reply r code reason date databuf ds e) as [|[[output r'] e1]]; [done|]. exists output, r', e1. split_and!; [done|done|].
  intros pieces behind e2 Hp Hlen Hm. rewrite message_length in Hmh. rewrite /chunked_message in Hs Hp. rewrite /short message_length (length_app (chunks ds)) in Hs. pose proof (in_chunks_length _ _ (chunks_in ds)) as Hcs.
  pose proof (chunked_line_ok c r0 r code reason date ds behind Hck Hw Ht ltac:(lia) Hmb ltac:(lia)) as Hok. cbv zeta in Hok.
  destruct (runs_run _ _ _ (runs_feed _ _ _ _ _ _ _ behind _ Hok ltac:(by rewrite -Hp) pieces []
    (Reading EVCON_READING_FIRSTLINE r0 empty_evbuffer false) e2 ltac:(by rewrite Hp /message_text) ltac:(by apply AtLine; [apply open_buffer_new|])))
    as ([[next s] rest] & e3 & He & Hwh).
  destruct Hwh as (r1 & r2 & (x & Hx & ->) & (hs & Hhs & ->) & [Hd Hh Hbo Hre]). cbn [fst snd] in *. subst next.
  exists s, rest, e3. split_and!; [done| |done]. destruct Hw as [Hk0 _ Hf0]. destruct Hh as [_ _ Hfi Hki _ _ [Hv1 Hv2] [Hc1 Hc2]].
  cbn in Hfi, Hki, Hv1, Hv2, Hc1, Hc2. rewrite Hf0 in Hfi. split; [by rewrite Hki|done|by rewrite Hc1 Hc2 /= Hx|by rewrite Hfi|done].
Qed.

Lemma evhttp_chunked_exchange_witness :
  let r := HttpRequest None 0 [] [Keyval 1 (Cstr 1 (str "Server")) (Cstr 1 (str "s"))] EVHTTP_REQUEST EVHTTP_REQ_POST 0 0 None None 1 1 0 None empty_evbuffer 0 false false empty_evbuffer in
  let pieces := [str "HTTP/1.1 200 OK" ++ crlf ++ str "Server: s" ++ crlf ++ str "Transfer-Encoding: chu"; str "nked" ++ crlf ++ str "Date: d" ++ crlf;
    str "Content-Type: text/html; charset=ISO-8859-1" ++ crlf ++ crlf ++ str "2"; crlf ++ str "h"; str "i" ++ [13]; [10] ++ str "1" ++ crlf ++ str "!" ++ crlf ++ str "0" ++ crlf; [13]; [10]] in
  ∃ output r' e1, send_reply r 200 None (Some (str "d")) empty_evbuffer [str "hi"; []; str "!"] (EvEnv 3 [] []) = inr (output, r', e1)
    ∧ contents output = Some <$> concat pieces
    ∧ ∃ s e3, feed pieces (Reading EVCON_READING_FIRSTLINE (example_reader EVHTTP_RESPONSE) empty_evbuffer false) (EvEnv 1 [] []) = inr (Done, s, [], e3)
      ∧ hr_response_code (rc_req s) = 200 ∧ contents (hr_input_buffer (rc_req s)) = Some <$> str "hi!".
Proof.
  intros r pieces. assert (Hck : chunkable r 200 None (Some (str "d"))).
  { split; [done| |done|done| |by repeat constructor|done].
    - by split; repeat constructor.
    - split; [repeat constructor; done|]. intros d [= <-]. repeat constructor; done. }
  destruct (evhttp_chunked_exchange r 200 None (Some (str "d")) empty_evbuffer [str "hi"; []; str "!"] _ (example_reader EVHTTP_RESPONSE) (EvEnv 3 [] []) Hck
    (open_buffer_new (EvEnv 3 [] []) eq_refl) (example_waiting _) eq_refl) as (output & r' & e1 & He & Hc & Hread); [vm_compute; congruence|vm_compute; congruence|vm_compute; reflexivity|].
  exists output, r', e1. split; [exact He|]. split; [rewrite Hc; vm_compute; reflexivity|].
  destruct (Hread pieces [] (EvEnv 1 [] [])) as (s & rest & e3 & Hf & Hrr & kept & Hk & Hrest); [vm_compute; reflexivity|vm_compute; reflexivity|reflexivity|].
  assert (Hnil : rest = []).
  { revert Hf. vm_compute. intros [= _ <- _]. reflexivity. }
  rewrite Hnil in Hf. exists s, e3. split; [exact Hf|]. split; [exact (proj1 (ry_code _ _ _ _ _ _ _ Hrr))|exact (ry_body _ _ _ _ _ _ _ Hrr)].
Defined.

(** ** Virtual hosts *)

(** A name that a pattern fits: a star stands for any text with a character
    behind it. *)
Inductive fits (ignorecase : bool) : list Z -> list Z -> Prop :=
| FitsEnd : fits ignorecase [] []
| FitsChar c x pattern name :
    c ≠ 42 -> c = x ∨ ignorecase = true ∧ EVUTIL_TOLOWER c = EVUTIL_TOLOWER x -> fits ignorecase pattern name -> fits ignorecase (c :: pattern) (x :: name)
| FitsStar pattern skipped name : name ≠ [] -> fits ignorecase pattern name -> fits ignorecase (42 :: pattern) (skipped ++ name).

Lemma fits_end ic name : fits ic [] name <-> name = [].
Proof. split; [by inversion 1|intros ->; constructor]. Qed.

Lemma fits_char ic c pattern name :
  c ≠ 42 -> fits ic (c :: pattern) name <-> ∃ x name', name = x :: name' ∧ (c = x ∨ ic = true ∧ EVUTIL_TOLOWER c = EVUTIL_TOLOWER x) ∧ fits ic pattern name'.
Proof.
  intros Hc. split; [|intros (x & name' & -> & ? & ?); by constructor].
  inversion 1; subst; [|done]. by eauto.
Qed.

Lemma fits_star ic pattern name : fits ic (42 :: pattern) name <-> ∃ skipped name', name = skipped ++ name' ∧ name' ≠ [] ∧ fits ic pattern name'.
Proof.
  split; [|intros (s & name' & -> & ? & ?); by constructor].
  inversion 1; subst; [done|]. by eauto.
Qed.

Lemma fits_star_step ic pattern x name :
  fits ic (42 :: pattern) (x :: name) <-> fits ic pattern (x :: name) ∨ fits ic (42 :: pattern) name.
Proof.
  rewrite !fits_star. split.
  - intros ([|y s] & n & Heq & Hn & Hf); cbn in Heq; [left; by rewrite Heq|]. injection Heq as -> ->. right. by exists s, n.
  - intros [Hf|(s & n & -> & Hn & Hf)]; [by exists [], (x :: name)|by exists (x :: s), n].
Qed.

Lemma prefix_suffix_match_fits ignorecase pattern name : prefix_suffix_match pattern name ignorecase = true <-> fits ignorecase pattern name.
Proof.
  revert name. induction pattern as [|c pattern IH]; intros name; cbn [prefix_suffix_match].
  { rewrite fits_end. by destruct name. }
  destruct (Z.eqb_spec c 42) as [->|Hc].
  - induction name as [|x name IHn].
    { rewrite fits_star. split; [done|]. intros (s & n & Heq & Hn & _). by destruct s, n. }
    rewrite fits_star_step orb_true_iff IH. by apply or_iff_compat_l.
  - rewrite fits_char //. destruct name as [|x name]; [by split; [|intros (? & ? & ? & _)]|].
    destruct (Z.eqb_spec c x) as [->|Hx]; cbn [negb andb].
    + rewrite IH. split; [intros Hf; exists x, name; auto|]. by intros (y & n & [= <- <-] & _ & Hf).
    + rewrite -negb_andb. destruct (ignorecase && (EVUTIL_TOLOWER c =? EVUTIL_TOLOWER x)) eqn:Hi; cbn [negb].
      * apply andb_prop in Hi as [Hic Hi%Z.eqb_eq]. rewrite IH. split; [intros Hf; exists x, name; auto|]. by intros (y & n & [= <- <-] & _ & Hf).
      * split; [done|]. intros (y & n & [= <- <-] & [?|[Hic Hl]] & _); [done|]. by rewrite Hic Hl Z.eqb_refl in Hi.
Qed.

(** A server and all below it, each in front of its virtual hosts. *)
Fixpoint all_servers (http : evhttp) : list evhttp := http :: concat (all_servers <$> virtualhosts http).

Fixpoint evhttp_rect' (P : evhttp -> Prop) (step : ∀ p c a vs, Forall P vs -> P (Http p c a vs)) (h : evhttp) : P h :=
  match h with
  | Http p c a vs => step p c a vs ((fix each (vs : list evhttp) : Forall P vs :=
      match vs with [] => Forall_nil_2 P | v :: vs => Forall_cons_2 P v vs (evhttp_rect' P step v) (each vs) end) vs)
  end.

Definition has_alias (hostname : list Z) (http : evhttp) : Prop := Exists (fun a => evutil_ascii_strcasecmp a hostname = 0) (aliases http).
#[export] Instance has_alias_dec hostname http : Decision (has_alias hostname http).
Proof. apply Exists_dec. apply _. Defined.

Lemma list_find_app_none {A} (P : A -> Prop) `{∀ x, Decision (P x)} l k :
  snd <$> list_find P (l ++ k) = match snd <$> list_find P l with Some x => Some x | None => snd <$> list_find P k end.
Proof.
  induction l as [|x l IH]; [done|]. cbn [app list_find]. destruct (decide (P x)); [done|].
  destruct (list_find P (l ++ k)) as [[]|], (list_find P l) as [[]|]; cbn in IH |- *; congruence.
Qed.

Lemma evhttp_find_alias_first http hostname : evhttp_find_alias http hostname = snd <$> list_find (has_alias hostname) (all_servers http).
Proof.
  induction http as [p c a vs IH] using evhttp_rect'. cbn [evhttp_find_alias all_servers virtualhosts list_find].
  assert (Hex : existsb (fun x => evutil_ascii_strcasecmp x hostname =? 0) a = bool_decide (has_alias hostname (Http p c a vs))).
  { apply eq_true_iff_eq. rewrite bool_decide_eq_true existsb_exists /has_alias Exists_exists. cbn.
    split; intros (x & Hx & He); exists x; (split; [by apply list_elem_of_In|by apply Z.eqb_eq]). }
  rewrite Hex. destruct (decide (has_alias hostname (Http p c a vs))) as [Ha|Ha]; [by rewrite bool_decide_true|rewrite bool_decide_false //].
  assert (Hs : ∀ o : option (nat * evhttp), snd <$> (prod_map S (@Datatypes.id evhttp) <$> o) = snd <$> o) by by intros [[]|]. rewrite Hs.
  clear -IH. induction IH as [|v vs Hv _ IHvs]; [done|]. cbn [fmap list_fmap concat]. rewrite list_find_app_none -Hv.
  destruct (evhttp_find_alias v hostname); [done|]. apply IHvs.
Qed.

(** The server for a name that is nobody's alias: below [http], along the first
    virtual hosts whose patterns fit. *)
Inductive serves (hostname : list Z) : evhttp -> evhttp -> Prop :=
| ServesItself http : Forall (fun v => ¬ fits true (vhost_pattern v) hostname) (virtualhosts http) -> serves hostname http http
| ServesBelow http before v behind h :
    virtualhosts http = before ++ v :: behind -> Forall (fun v => ¬ fits true (vhost_pattern v) hostname) before -> fits true (vhost_pattern v) hostname ->
    serves hostname v h -> serves hostname http h.

Definition some_fits (hostname : list Z) (vs : list evhttp) : bool := existsb (fun v => prefix_suffix_match (vhost_pattern v) hostname true) vs.

Lemma find_vhost_loop_serves http found hostname :
  serves hostname http (snd (find_vhost_loop http found hostname)) ∧ fst (find_vhost_loop http found hostname) = found || some_fits hostname (virtualhosts http).
Proof.
  revert found. induction http as [p c a vs IH] using evhttp_rect'; intros found. set (http := Http p c a vs).
  enough (Hl : ∀ rest before, vs = before ++ rest -> Forall (fun v => ¬ fits true (vhost_pattern v) hostname) before ->
    let r := (fix each (vhosts : list evhttp) : bool * evhttp :=
       match vhosts with
       | [] => (found, http)
       | vhost :: vhosts => if prefix_suffix_match (vhost_pattern vhost) hostname true then find_vhost_loop vhost true hostname else each vhosts
       end) rest in
    serves hostname http (snd r) ∧ fst r = found || some_fits hostname rest) by by apply (Hl vs []).
  induction rest as [|v rest IHr]; intros before Hvs Hb; cbn zeta.
  - split; [|by rewrite orb_false_r]. apply ServesItself. cbn. by rewrite Hvs app_nil_r.
  - cbn [some_fits existsb]. destruct (prefix_suffix_match (vhost_pattern v) hostname true) eqn:Hm.
    + rewrite Hvs Forall_app in IH. destruct IH as [_ [IHv _]%Forall_cons]. destruct (IHv true) as [Hs Hf]. split.
      * eapply (ServesBelow hostname http before v rest); [done|done|by apply prefix_suffix_match_fits|done].
      * by rewrite Hf orb_true_r.
    + cbn [orb]. apply (IHr (before ++ [v])); [by rewrite -app_assoc|]. apply Forall_app. split; [done|]. apply Forall_singleton.
      intros Hfit%prefix_suffix_match_fits. congruence.
Qed.

(** C36: evhttp_find_vhost for any tree of servers and any name: the first server,
    each in front of the ones below it, that has the name as an alias, without
    regard to case.  If nobody has, the server that is reached from the top by
    going to the first virtual host whose pattern fits as long as there is one;
    the result is true just if there was one at all. *)
Theorem evhttp_find_vhost_serves http hostname :
  match list_find (has_alias hostname) (all_servers http) with
  | Some (_, h) => evhttp_find_vhost http hostname = (true, h)
  | None =>
      serves hostname http (snd (evhttp_find_vhost http hostname))
      ∧ (fst (evhttp_find_vhost http hostname) = true <-> Exists (fun v => fits true (vhost_pattern v) hostname) (virtualhosts http))
  end.
Proof.
  rewrite /evhttp_find_vhost evhttp_find_alias_first. destruct (list_find _ _) as [[i h]|]; [done|]. cbn.
  destruct (find_vhost_loop_serves http false hostname) as [Hs ->]. split; [done|]. cbn [orb]. rewrite /some_fits existsb_exists Exists_exists.
  by split; intros (v & Hv & Hf); exists v; (split; [by apply list_elem_of_In|by apply prefix_suffix_match_fits]).
Qed.
