(* ===== verification/EvDns.v ===== *)
(** * libevent/evdns.c: messages of the domain name system

    Names in a message, questions to a server, what a server makes of a message
    and how it answers, and what a client makes of the answer.  A message is an
    array of bytes ([None] is one that was never stored) of which the first
    [length] were received; a name is what is stored before the terminator.  Text
    arguments have no NUL inside.

    Left out are the transport, timeouts, the choice of name servers, and what
    reply_handle does with an answer; the record of the call is the result of
    reply_parse. *)

From S2P Require Import Prelude CTypes HProp CMem CLib EvBuffer EvErr EvUtil EvUri EvQuery.
Open Scope Z_scope.

(** ** Constants *)

Definition MAX_V4_ADDRS : Z := 32.
Definition MAX_V6_ADDRS : Z := 32.
Definition TYPE_A : Z := 1.
Definition TYPE_CNAME : Z := 5.
Definition TYPE_SOA : Z := 6.
Definition TYPE_PTR : Z := 12.
Definition TYPE_AAAA : Z := 28.
Definition CLASS_INET : Z := 1.

(** <limits.h> may define it; otherwise it is 255. *)
Class HostNameMax := { HOST_NAME_MAX : Z; HOST_NAME_MAX_pos : 0 < HOST_NAME_MAX }.
Definition linux_host_name : HostNameMax := {| HOST_NAME_MAX := 64; HOST_NAME_MAX_pos := eq_refl |}.

Definition DNS_ERR_FORMAT : Z := 1.
Definition DNS_ERR_SERVERFAILED : Z := 2.
Definition DNS_ERR_NOTEXIST : Z := 3.
Definition DNS_ERR_NOTIMPL : Z := 4.
Definition DNS_ERR_REFUSED : Z := 5.
Definition DNS_ERR_TRUNCATED : Z := 65.
Definition DNS_ERR_UNKNOWN : Z := 66.
Definition DNS_ERR_NODATA : Z := 70.

Definition EVDNS_ANSWER_SECTION : Z := 0.
Definition EVDNS_AUTHORITY_SECTION : Z := 1.
Definition EVDNS_ADDITIONAL_SECTION : Z := 2.
Definition EVDNS_FLAGS_AA : Z := 0x400.
Definition EVDNS_FLAGS_RD : Z := 0x080.

(** ** Reading a message *)

(** A computation that may end in goto err and has nothing to release. *)
Definition P (A : Type) : Type := E (option A).

#[export] Instance P_ret : MRet P := fun A a => (mret (Some a) : E (option A)).
#[export] Instance P_bind : MBind P := fun A B k m =>
  ((r ← (m : E (option A)); match r with Some a => (k a : E (option B)) | None => mret None end) : E (option B)).

Definition stop {A} : P A := (mret None : E (option A)).
Definition lift {A} (m : E A) : P A := (a ← m; mret (Some a) : E (option A)).

Definition byte_at (packet : list mbyte) (j : Z) : E Z :=
  match packet !! Z.to_nat j with
  | Some (Some z) => mret z
  | Some None => e_fail Indeterminate
  | None => e_fail OutOfBounds
  end.

Definition bytes_at (packet : list mbyte) (j n : Z) : E (list mbyte) :=
  if in_range packet j n then mret (slice packet j n) else e_fail OutOfBounds.

(** Each returns the number and the index behind it. *)
Definition GET8 (packet : list mbyte) (length j : Z) : P (Z * Z) :=
  if length <=? j then stop else x ← lift (byte_at packet j); mret (x, j + 1).

Definition GET16 (packet : list mbyte) (length j : Z) : P (Z * Z) :=
  if length <? j + 2 then stop
  else
    a ← lift (byte_at packet j); b ← lift (byte_at packet (j + 1));
    mret (a * 256 + b, j + 2).

Definition GET32 (packet : list mbyte) (length j : Z) : P (Z * Z) :=
  if length <? j + 4 then stop
  else
    '(a, _) ← GET16 packet length j; '(b, _) ← GET16 packet length (j + 2);
    mret (a * 65536 + b, j + 4).

(** The name so far, in [cp], goes to an array of [name_out_len] bytes. *)
Fixpoint name_loop (fuel : nat) (packet : list mbyte) (length j name_end ptr_count : Z) (cp : list mbyte) (name_out_len : Z) :
    P (list mbyte * Z) :=
  match fuel with
  | O => lift (e_fail StackOverflow)
  | S fuel =>
      '(label_len, j) ← GET8 packet length j;
      if label_len =? 0 then
        if name_out_len <=? Z.of_nat (List.length cp) then stop
        else mret (cp, if name_end <? 0 then j else name_end)
      else if has_flag 0xc0 label_len then
        '(ptr_low, j) ← GET8 packet length j;
        let name_end := if name_end <? 0 then j else name_end in
        let j := Z.shiftl (Z.land label_len 0x3f) 8 + ptr_low in
        if (j <? 0) || (length <=? j) then stop
        else if length <? ptr_count + 1 then stop
        else name_loop fuel packet length j name_end (ptr_count + 1) cp name_out_len
      else if 63 <? label_len then stop
      else
        cp ← (match cp with
              | [] => mret cp
              | _ => if name_out_len <=? Z.of_nat (List.length cp) + 1 then stop else mret (cp ++ [Some 46])
              end : P (list mbyte));
        if name_out_len <=? Z.of_nat (List.length cp) + label_len then stop
        else
          d ← lift (bytes_at packet j label_len);
          name_loop fuel packet length (j + label_len) name_end ptr_count (cp ++ d) name_out_len
  end.

(** At most [length + 1] turns follow a pointer and at most [name_out_len] add a
    label.  The name, and where to go on. *)
Definition name_parse (packet : list mbyte) (length idx name_out_len : Z) : P (list mbyte * Z) :=
  name_loop (Z.to_nat length + Z.to_nat name_out_len + 3) packet length idx (-1) 0 [] name_out_len.

(** ** Writing a message

    A message under construction: an array, the index behind what was written,
    and the names in it, if it is compressed.  [None] is [goto overflow]. *)

Definition MAX_LABELS : Z := 128.

(** The entries, oldest first. *)
Definition dnslabel_table : Type := list (cstr * Z).

Record draft := Draft { d_buf : list mbyte; d_pos : Z; d_table : option dnslabel_table }.

(** memcpy(buf + j, ds, n) *)
Definition put_bytes_at (buf : list mbyte) (j : Z) (ds : list mbyte) : E (list mbyte) :=
  if in_range buf j (Z.of_nat (length ds)) then mret (patch buf j ds) else e_fail OutOfBounds.

Definition push (ds : list Z) (d : draft) : E draft :=
  buf ← put_bytes_at (d_buf d) (d_pos d) (Some <$> ds);
  mret (Draft buf (d_pos d + Z.of_nat (length ds)) (d_table d)).

Definition APPEND (ds : list Z) : G draft unit := fun d =>
  if Z.of_nat (length (d_buf d)) <? d_pos d + Z.of_nat (length ds) then mret (None, d)
  else d ← push ds d; mret (Some tt, d).

Definition APPEND16 (x : Z) : G draft unit := APPEND (be16 (u16 x)).
Definition APPEND32 (x : Z) : G draft unit := APPEND (be32 (u32 x)).

(** ** Compression *)

Definition dnslabel_table_init : dnslabel_table := [].

Fixpoint dnslabel_clear (table : dnslabel_table) : E unit :=
  match table with
  | [] => mret tt
  | (v, _) :: table => _ ← mm_free (s_id v); dnslabel_clear table
  end.

Fixpoint dnslabel_table_get_pos (table : dnslabel_table) (label : list Z) : Z :=
  match table with
  | [] => -1
  | (v, pos) :: table => if bool_decide (s_text v = label) then pos else dnslabel_table_get_pos table label
  end.

Definition dnslabel_table_add (table : dnslabel_table) (label : list Z) (pos : Z) : E (Z * dnslabel_table) :=
  if Z.of_nat (length table) =? MAX_LABELS then mret (-1, table)
  else
    v ← mm_strdup label;
    match v with
    | None => mret (-1, table)
    | Some v => mret (0, table ++ [(v, pos)])
    end.

(** A terminator, unless the last byte is one. *)
Definition labels_end (d : draft) : E (Z * draft) :=
  done ← (if d_pos d =? 0 then mret false else b ← byte_at (d_buf d) (d_pos d - 1); mret (b =? 0));
  if done : bool then mret (d_pos d, d) else d ← push [0] d; mret (d_pos d, d).

(** One turn for each label; [d_pos] is [j].  The result is an index, or a
    negative number. *)
Fixpoint labels_loop (fuel : nat) (name : list Z) (d : draft) : E (Z * draft) :=
  match fuel with
  | O => e_fail StackOverflow
  | S fuel =>
      let ref := match d_table d with Some table => dnslabel_table_get_pos table name | None => -1 end in
      if 0 <=? ref then
        '(r, d) ← APPEND16 (Z.lor ref 0xc000) d;
        mret (match r with Some _ => (d_pos d, d) | None => (-2, d) end)
      else
        let '(label, rest) := strsep 46 name in
        let label_len := Z.of_nat (length label) in
        if 63 <? label_len then mret (-1, d)
        else if Z.of_nat (length (d_buf d)) <? d_pos d + label_len + 1 then mret (-2, d)
        else
          table ← match d_table d with
                  | Some table => '(_, table) ← dnslabel_table_add table name (d_pos d); mret (Some table)
                  | None => mret None
                  end;
          d ← push (label_len :: label) (Draft (d_buf d) (d_pos d) table);
          match rest with
          | None => labels_end d
          | Some name => labels_loop fuel name d
          end
  end.

(** The caller keeps its [j] if the number is negative. *)
Definition dnsname_to_labels (name : list Z) (d : draft) : E (Z * draft) :=
  if 255 <? Z.of_nat (length name) then mret (-2, d)
  else
    '(r, d') ← labels_loop (S (length name)) name d;
    mret (r, if r <? 0 then Draft (d_buf d') (d_pos d) (d_table d') else d').

(** A name, and what dnsname_to_labels returns. *)
Definition add_name (name : list Z) : G draft Z := fun d => '(r, d) ← dnsname_to_labels name d; mret (Some r, d).

(** ** Questions *)

Definition evdns_request_len (name_len : Z) : Z := 96 + name_len + 2 + 4.

(** The space used, or a negative number, and the array. *)
Definition evdns_request_data_build (name : list Z) (trans_id type class : Z) (buf : list mbyte) : E (Z * list mbyte) :=
  '(r, d) ←
    (_ ← APPEND16 trans_id;
     _ ← APPEND16 0x0100;
     _ ← APPEND16 1;
     _ ← APPEND16 0;
     _ ← APPEND16 0;
     _ ← APPEND16 0;
     r ← add_name name;
     if r <? 0 then mret r
     else
       _ ← APPEND16 type;
       _ ← APPEND16 class;
       look d_pos) (Draft buf 0 None);
  mret (match r with Some r => r | None => -1 end, d_buf d).
