(* ===== verification/EvDnsServer.v ===== *)
(** * libevent/evdns.c: the server side

    What a server makes of a message, the records it adds to a reply, and the
    message it answers with.  A list that C links is a list.  Locks, logging, the
    port and the address of the client are left out. *)

From S2P Require Import Prelude CTypes HProp CMem CLib EvBuffer EvErr EvUtil EvUri EvDns.
Open Scope Z_scope.

(** ** Requests *)

Record evdns_server_question := Question { q_id : id; q_type : Z; q_class : Z; q_name : list Z }.

(** The data are a text if it is a name, else bytes. *)
Record server_reply_item := Item {
  it_id : id;
  it_name : cstr;
  it_type : Z;
  it_class : Z;
  it_ttl : Z;
  it_is_name : bool;
  it_datalen : Z;
  it_data : option cstr }.

Record server_request := ServerRequest {
  sr_id : id;
  sr_trans_id : Z;
  sr_flags : Z;
  sr_array : option id;
  sr_questions : list evdns_server_question;
  sr_n_answer : Z;
  sr_n_authority : Z;
  sr_n_additional : Z;
  sr_answer : list server_reply_item;
  sr_authority : list server_reply_item;
  sr_additional : list server_reply_item;
  sr_response : option (id * list mbyte) }.

Definition set_array (a : option id) (r : server_request) : server_request :=
  ServerRequest (sr_id r) (sr_trans_id r) (sr_flags r) a (sr_questions r) (sr_n_answer r) (sr_n_authority r) (sr_n_additional r)
    (sr_answer r) (sr_authority r) (sr_additional r) (sr_response r).

Definition set_questions (qs : list evdns_server_question) (r : server_request) : server_request :=
  ServerRequest (sr_id r) (sr_trans_id r) (sr_flags r) (sr_array r) qs (sr_n_answer r) (sr_n_authority r) (sr_n_additional r)
    (sr_answer r) (sr_authority r) (sr_additional r) (sr_response r).

Definition set_sr_flags (flags : Z) (r : server_request) : server_request :=
  ServerRequest (sr_id r) (sr_trans_id r) flags (sr_array r) (sr_questions r) (sr_n_answer r) (sr_n_authority r) (sr_n_additional r)
    (sr_answer r) (sr_authority r) (sr_additional r) (sr_response r).

Definition set_items (an au ad : list server_reply_item) (r : server_request) : server_request :=
  ServerRequest (sr_id r) (sr_trans_id r) (sr_flags r) (sr_array r) (sr_questions r) (sr_n_answer r) (sr_n_authority r) (sr_n_additional r)
    an au ad (sr_response r).

Definition set_counts (an au ad : Z) (r : server_request) : server_request :=
  ServerRequest (sr_id r) (sr_trans_id r) (sr_flags r) (sr_array r) (sr_questions r) an au ad
    (sr_answer r) (sr_authority r) (sr_additional r) (sr_response r).

Definition set_response (resp : option (id * list mbyte)) (r : server_request) : server_request :=
  ServerRequest (sr_id r) (sr_trans_id r) (sr_flags r) (sr_array r) (sr_questions r) (sr_n_answer r) (sr_n_authority r) (sr_n_additional r)
    (sr_answer r) (sr_authority r) (sr_additional r) resp.

(** ** Reading a request *)

Definition parsed {St A} (m : P A) : G St A := fun u => r ← (m : E (option A)); mret (r, u).

Fixpoint request_questions (packet : list mbyte) (length : Z) (n : nat) (j : Z) : G server_request unit :=
  match n with
  | O => mret tt
  | S n =>
      '(tmp_name, j) ← parsed (name_parse packet length j 256);
      '(type, j) ← parsed (GET16 packet length j);
      '(class, j) ← parsed (GET16 packet length j);
      name ← here (c_str tmp_name);
      q ← here mm_malloc;
      match q with
      | None => goto_err
      | Some q =>
          _ ← change (fun r => set_questions (sr_questions r ++ [Question q type class name]) r);
          request_questions packet length n j
      end
  end.

Fixpoint free_questions (qs : list evdns_server_question) : E unit :=
  match qs with
  | [] => mret tt
  | q :: qs => _ ← mm_free (q_id q); free_questions qs
  end.

(** The err label of request_parse. *)
Definition request_discard (r : server_request) : E unit :=
  _ ← match sr_array r with
      | Some a => _ ← free_questions (sr_questions r); mm_free a
      | None => mret tt
      end;
  mm_free (sr_id r).

(** What becomes of a message: -1, the call of user_callback, or the call of
    evdns_server_request_respond with DNS_ERR_NOTIMPL. *)
Inductive request_outcome :=
| Ignored
| Callback (r : server_request)
| NotImplemented (r : server_request).

(** The header, without the counts that are ignored: id, flags, questions, and
    the index behind it. *)
Definition request_header (packet : list mbyte) (length : Z) : P (Z * Z * Z * Z) :=
  '(trans_id, j) ← GET16 packet length 0;
  '(flags, j) ← GET16 packet length j;
  '(questions, j) ← GET16 packet length j;
  '(_, j) ← GET16 packet length j;
  '(_, j) ← GET16 packet length j;
  '(_, j) ← GET16 packet length j;
  mret (trans_id, flags, questions, j).

Definition request_body (packet : list mbyte) (length questions j : Z) : G server_request unit :=
  a ← here mm_malloc;
  match a with
  | None => goto_err
  | Some a => _ ← change (set_array (Some a)); request_questions packet length (Z.to_nat questions) j
  end.

(** The port counts the request if it is not ignored. *)
Definition request_parse (packet : list mbyte) (length : Z) : E request_outcome :=
  h ← (request_header packet length : E (option (Z * Z * Z * Z)));
  match h with
  | None => mret Ignored
  | Some (trans_id, flags, questions, j) =>
      if has_flag 0x8000 flags then mret Ignored
      else
        let flags := Z.land flags 0x0110 in
        i ← mm_malloc;
        match i with
        | None => mret Ignored
        | Some i =>
            '(ok, r) ← request_body packet length questions j (ServerRequest i trans_id flags None [] 0 0 0 [] [] [] None);
            match ok with
            | None => _ ← request_discard r; mret Ignored
            | Some _ => if has_flag 0x7800 flags then mret (NotImplemented r) else mret (Callback r)
            end
        end
  end.

(** ** Adding records *)

Definition copy_data (datalen : Z) (is_name : bool) (data : option (list Z)) : E (option (Z * option cstr)) :=
  match data with
  | None => mret (Some (0, None))
  | Some data =>
      if is_name then v ← mm_strdup data; mret (match v with Some v => Some (u16 (-1), Some v) | None => None end)
      else
        (* there is no block of (size_t) -n bytes *)
        v ← (if datalen <? 0 then mret None else mm_malloc);
        match v with
        | None => mret None
        | Some v => if Z.of_nat (length data) <? datalen then e_fail OutOfBounds
                    else mret (Some (u16 datalen, Some (Cstr v (take (Z.to_nat datalen) data))))
        end
  end.

Definition new_item (name : list Z) (type class ttl datalen : Z) (is_name : bool) (data : option (list Z)) : E (option server_reply_item) :=
  i ← mm_malloc;
  match i with
  | None => mret None
  | Some i =>
      n ← mm_strdup name;
      match n with
      | None => _ ← mm_free i; mret None
      | Some n =>
          d ← copy_data datalen is_name data;
          match d with
          | None => _ ← mm_free (s_id n); _ ← mm_free i; mret None
          | Some (len, d) => mret (Some (Item i n (u16 type) (u16 class) (u32 ttl) is_name len d))
          end
      end
  end.

(** The item at the end of its section, if there is one. *)
Definition add_item (section : Z) (item : server_reply_item) (r : server_request) : server_request :=
  if section =? EVDNS_ANSWER_SECTION then
    set_counts (sr_n_answer r + 1) (sr_n_authority r) (sr_n_additional r) (set_items (sr_answer r ++ [item]) (sr_authority r) (sr_additional r) r)
  else if section =? EVDNS_AUTHORITY_SECTION then
    set_counts (sr_n_answer r) (sr_n_authority r + 1) (sr_n_additional r) (set_items (sr_answer r) (sr_authority r ++ [item]) (sr_additional r) r)
  else
    set_counts (sr_n_answer r) (sr_n_authority r) (sr_n_additional r + 1) (set_items (sr_answer r) (sr_authority r) (sr_additional r ++ [item]) r).

Definition is_section (section : Z) : bool := (0 <=? section) && (section <=? EVDNS_ADDITIONAL_SECTION).

Definition evdns_server_request_add_reply (r : server_request) (section : Z) (name : list Z) (type class ttl datalen : Z) (is_name : bool)
    (data : option (list Z)) : E (Z * server_request) :=
  match sr_response r with
  | Some _ => mret (-1, r)
  | None =>
      if negb (is_section section) then mret (-1, r)
      else
        item ← new_item name type class ttl datalen is_name data;
        mret (match item with Some item => (0, add_item section item r) | None => (-1, r) end)
  end.

Definition evdns_server_request_add_a_reply (r : server_request) (name : list Z) (n : Z) (addrs : option (list Z)) (ttl : Z) :=
  evdns_server_request_add_reply r EVDNS_ANSWER_SECTION name TYPE_A CLASS_INET ttl (n * 4) false addrs.

Definition evdns_server_request_add_aaaa_reply (r : server_request) (name : list Z) (n : Z) (addrs : option (list Z)) (ttl : Z) :=
  evdns_server_request_add_reply r EVDNS_ANSWER_SECTION name TYPE_AAAA CLASS_INET ttl (n * 16) false addrs.

(** The address as a number in host order. *)
Definition in_addr_arpa (a : Z) : list Z :=
  dec (Z.land a 255) ++ 46 :: dec (Z.land (Z.shiftr a 8) 255) ++ 46 :: dec (Z.land (Z.shiftr a 16) 255) ++ 46
    :: dec (Z.land (Z.shiftr a 24) 255) ++ str ".in-addr.arpa".

Definition evdns_server_request_add_ptr_reply (r : server_request) (addr : option Z) (inaddr_name : option (list Z)) (hostname : list Z) (ttl : Z) :
    E (Z * server_request) :=
  match addr, inaddr_name with
  | Some _, Some _ | None, None => mret (-1, r)
  | Some a, None => evdns_server_request_add_reply r EVDNS_ANSWER_SECTION (in_addr_arpa a) TYPE_PTR CLASS_INET ttl (-1) true (Some hostname)
  | None, Some name => evdns_server_request_add_reply r EVDNS_ANSWER_SECTION name TYPE_PTR CLASS_INET ttl (-1) true (Some hostname)
  end.

Definition evdns_server_request_add_cname_reply (r : server_request) (name cname : list Z) (ttl : Z) :=
  evdns_server_request_add_reply r EVDNS_ANSWER_SECTION name TYPE_CNAME CLASS_INET ttl (-1) true (Some cname).

Definition evdns_server_request_set_flags (r : server_request) (flags : Z) : server_request :=
  set_sr_flags (Z.lor (Z.land (sr_flags r) (Z.lnot (Z.lor EVDNS_FLAGS_AA EVDNS_FLAGS_RD))) flags) r.

(** ** The message of a reply *)

Fixpoint free_items (items : list server_reply_item) : E unit :=
  match items with
  | [] => mret tt
  | it :: items =>
      _ ← mm_free (s_id (it_name it)); _ ← free_str (it_data it); _ ← mm_free (it_id it);
      free_items items
  end.

Definition server_request_free_answers (r : server_request) : E server_request :=
  _ ← free_items (sr_answer r); _ ← free_items (sr_authority r); _ ← free_items (sr_additional r);
  mret (set_items [] [] [] r).

(** [Some r] with r < 0 is the return from the loop. *)
Fixpoint add_questions (qs : list evdns_server_question) : G draft Z :=
  match qs with
  | [] => mret 0
  | q :: qs =>
      r ← add_name (q_name q);
      if r <? 0 then mret r
      else _ ← APPEND16 (q_type q); _ ← APPEND16 (q_class q); add_questions qs
  end.

(** The data of a record that is a name, behind their length. *)
Definition add_name_data (data : option cstr) : G draft unit :=
  len_idx ← look d_pos;
  _ ← change (fun d => Draft (d_buf d) (d_pos d + 2) (d_table d));
  match data with
  | None => here (e_fail NullDeref)
  | Some data =>
      r ← add_name (s_text data);
      if r <? 0 then goto_err
      else fun d =>
        buf ← put_bytes_at (d_buf d) len_idx (Some <$> be16 (u16 (d_pos d - (len_idx + 2))));
        mret (Some tt, Draft buf (d_pos d) (d_table d))
  end.

Definition add_bytes_data (datalen : Z) (data : option cstr) : G draft unit :=
  _ ← APPEND16 datalen;
  APPEND (match data with Some data => take (Z.to_nat datalen) (s_text data) | None => [] end).

Definition add_record (it : server_reply_item) : G draft unit :=
  r ← add_name (s_text (it_name it));
  if r <? 0 then goto_err
  else
    _ ← APPEND16 (it_type it); _ ← APPEND16 (it_class it); _ ← APPEND32 (it_ttl it);
    if it_is_name it then add_name_data (it_data it) else add_bytes_data (it_datalen it) (it_data it).

Fixpoint add_records (items : list server_reply_item) : G draft unit :=
  match items with
  | [] => mret tt
  | it :: items => _ ← add_record it; add_records items
  end.

Definition add_header (r : server_request) (flags : Z) : G draft unit :=
  _ ← APPEND16 (sr_trans_id r);
  _ ← APPEND16 flags;
  _ ← APPEND16 (Z.of_nat (length (sr_questions r)));
  _ ← APPEND16 (sr_n_answer r);
  _ ← APPEND16 (sr_n_authority r);
  APPEND16 (sr_n_additional r).

Definition response_parts (r : server_request) (flags : Z) : G draft Z :=
  _ ← add_header r flags;
  res ← add_questions (sr_questions r);
  if res <? 0 then mret res
  else _ ← add_records (sr_answer r ++ sr_authority r ++ sr_additional r); mret 0.

(** What is sent of a message that is too long: its beginning, with a bit set. *)
Definition truncated (buf : list mbyte) : E (list mbyte) :=
  b ← byte_at buf 2;
  buf ← put_bytes_at buf 2 [Some (Z.lor b 0x02)];
  mret (take 512 buf).

Definition response_bytes (overflow : bool) (d : draft) : E (list mbyte) :=
  if overflow || (512 <? d_pos d) then truncated (d_buf d) else mret (take (Z.to_nat (d_pos d)) (d_buf d)).

Definition clear_table (d : draft) : E unit := match d_table d with Some table => dnslabel_clear table | None => mret tt end.

(** The reply is kept; the records are not needed any more. *)
Definition keep_response (r : server_request) (bytes : list mbyte) : E (Z * server_request) :=
  i ← mm_malloc;
  r ← server_request_free_answers r;
  mret (match i with Some i => (0, set_response (Some (i, bytes)) r) | None => (-1, r) end).

Definition evdns_server_request_format_response (r : server_request) (err : Z) : E (Z * server_request) :=
  if (err <? 0) || (15 <? err) then mret (-1, r)
  else
    let flags := Z.lor (u16 (sr_flags r)) (Z.lor 0x8000 err) in
    '(res, d) ← response_parts r flags (Draft (replicate 1500 None) 0 (Some dnslabel_table_init));
    if default 0 res <? 0 then _ ← clear_table d; mret (default 0 res, r)
    else
      bytes ← response_bytes (negb (bool_decide (is_Some res))) d;
      '(ret, r) ← keep_response r bytes;
      _ ← clear_table d;
      mret (ret, r).
