(* ===== verification/EvDnsClient.v ===== *)
(** * libevent/evdns.c: the client side

    The requests that are waiting for an answer, what a client takes from a
    message, which error it makes of it, and what the user's callback is told.
    The lists of requests that C links to a circle are lists from their head. *)

From S2P Require Import Prelude CTypes HProp CMem CLib EvBuffer EvErr EvUtil EvUri EvDns EvDnsServer.
Open Scope Z_scope.

(** ** Requests *)

(** [rq_cname] is put_cname_in_ptr and what is stored there. *)
Record request := Request {
  rq_data : list mbyte;
  rq_type : Z;
  rq_len : Z;
  rq_trans_id : Z;
  rq_cname : option (option cstr) }.

Record evdns_base := DnsBase {
  req_heads : list (list request);
  global_randomize_case : bool }.

Definition n_req_heads (base : evdns_base) : Z := Z.of_nat (length (req_heads base)).

Definition REQ_HEAD (base : evdns_base) (trans_id : Z) : list request :=
  nth (Z.to_nat (trans_id mod n_req_heads base)) (req_heads base) [].

Definition request_find_from_trans_id (base : evdns_base) (trans_id : Z) : option request :=
  snd <$> list_find (fun req => rq_trans_id req = trans_id) (REQ_HEAD base trans_id).

(** ** Answers *)

(** The addresses one after the other, and the name that a pointer stands for. *)
Record reply := Reply {
  rp_type : Z;
  rp_have_answer : bool;
  rp_addrcount : Z;
  rp_addresses : list mbyte;
  rp_name : list mbyte }.

(** Where reply_parse is: the reply so far, ttl_r, and *put_cname_in_ptr. *)
Record reading := Reading { rd_reply : reply; rd_ttl : Z; rd_cname : option (option cstr) }.

Definition set_ttl (ttl : Z) (s : reading) : reading := Reading (rd_reply s) (Z.min (rd_ttl s) ttl) (rd_cname s).

Definition add_addresses (n : Z) (bytes : list mbyte) (s : reading) : reading :=
  let r := rd_reply s in
  Reading (Reply (rp_type r) true (rp_addrcount r + n) (rp_addresses r ++ bytes) (rp_name r)) (rd_ttl s) (rd_cname s).

Definition set_ptr_name (name : list mbyte) (s : reading) : reading :=
  let r := rd_reply s in
  Reading (Reply (rp_type r) true (rp_addrcount r) (rp_addresses r) name) (rd_ttl s) (rd_cname s).

Definition set_cname (c : option cstr) (s : reading) : reading := Reading (rd_reply s) (rd_ttl s) (Some c).

Definition SKIP_NAME (packet : list mbyte) (length j : Z) : P Z :=
  '(_, j) ← name_parse packet length j 256; mret j.

(** The index behind the name, and whether it is the one that was asked for. *)
Definition TEST_NAME (base : evdns_base) (req : request) (packet : list mbyte) (length j : Z) : P (Z * bool) :=
  '(tmp_name, j') ← name_parse packet length j 256;
  '(cmp_name, _) ← name_parse (rq_data req) (rq_len req) j 256;
  tmp ← lift (c_str tmp_name);
  cmp ← lift (c_str cmp_name);
  mret (j', if global_randomize_case base then bool_decide (tmp = cmp) else evutil_ascii_strcasecmp tmp cmp =? 0).

Fixpoint reply_questions (base : evdns_base) (req : request) (packet : list mbyte) (length : Z) (n : nat) (j : Z) (name_matches : bool) : P (Z * bool) :=
  match n with
  | O => mret (j, name_matches)
  | S n =>
      '(j, m) ← TEST_NAME base req packet length j;
      if length <? j + 4 then stop
      else reply_questions base req packet length n (j + 4) (name_matches || m)
  end.

(** Name, type, class, ttl, datalength: the last four, and where the data start. *)
Definition record_header (packet : list mbyte) (length j : Z) : P (Z * Z * Z * Z * Z) :=
  j ← SKIP_NAME packet length j;
  '(type, j) ← GET16 packet length j;
  '(class, j) ← GET16 packet length j;
  '(ttl, j) ← GET32 packet length j;
  '(datalength, j) ← GET16 packet length j;
  mret (type, class, ttl, datalength, j).

(** Addresses of [size] bytes each, at most [max] of them; the index behind them
    and whether there is no more space. *)
Definition take_addresses (size max : Z) (packet : list mbyte) (length ttl datalength j : Z) : G reading (Z * bool) :=
  if negb (Z.land datalength (size - 1) =? 0) then goto_err
  else
    addrcount ← look (fun s => rp_addrcount (rd_reply s));
    let addrtocopy := Z.min (u32 (max - addrcount)) (datalength / size) in
    _ ← change (set_ttl ttl);
    if length <? j + size * addrtocopy then goto_err
    else
      d ← here (bytes_at packet j (size * addrtocopy));
      _ ← change (add_addresses addrtocopy d);
      mret (j + size * addrtocopy, addrcount + addrtocopy =? max).

(** A record of the answer section: the index behind it, and [break]. *)
Definition answer_data `{limit : HostNameMax} (req : request) (packet : list mbyte) (length type class ttl datalength j : Z) : G reading (Z * bool) :=
  if (type =? TYPE_A) && (class =? CLASS_INET) then
    if negb (rq_type req =? TYPE_A) then mret (j + datalength, false)
    else take_addresses 4 MAX_V4_ADDRS packet length ttl datalength j
  else if (type =? TYPE_PTR) && (class =? CLASS_INET) then
    if negb (rq_type req =? TYPE_PTR) then mret (j + datalength, false)
    else
      '(name, j) ← parsed (name_parse packet length j HOST_NAME_MAX);
      _ ← change (fun s => set_ptr_name name (set_ttl ttl s));
      mret (j, true)
  else if type =? TYPE_CNAME then
    c ← look rd_cname;
    match c with
    | Some None =>
        '(cname, j) ← parsed (name_parse packet length j HOST_NAME_MAX);
        t ← here (c_str cname);
        c ← here (mm_strdup t);
        _ ← change (set_cname c);
        mret (j, false)
    | _ => mret (j + datalength, false)
    end
  else if (type =? TYPE_AAAA) && (class =? CLASS_INET) then
    if negb (rq_type req =? TYPE_AAAA) then mret (j + datalength, false)
    else take_addresses 16 MAX_V6_ADDRS packet length ttl datalength j
  else mret (j + datalength, false).

Fixpoint reply_answers `{limit : HostNameMax} (req : request) (packet : list mbyte) (length : Z) (n : nat) (j : Z) : G reading Z :=
  match n with
  | O => mret j
  | S n =>
      '(type, class, ttl, datalength, j) ← parsed (record_header packet length j);
      '(j, break) ← answer_data req packet length type class ttl datalength j;
      if break : bool then mret j else reply_answers req packet length n j
  end.

(** Two names and five numbers; the last of them, and the index behind it. *)
Definition soa_data (packet : list mbyte) (length j : Z) : P (Z * Z) :=
  j ← SKIP_NAME packet length j;
  j ← SKIP_NAME packet length j;
  '(_, j) ← GET32 packet length j;
  '(_, j) ← GET32 packet length j;
  '(_, j) ← GET32 packet length j;
  '(_, j) ← GET32 packet length j;
  GET32 packet length j.

Fixpoint reply_authority (packet : list mbyte) (length : Z) (n : nat) (j : Z) : G reading unit :=
  match n with
  | O => mret tt
  | S n =>
      '(type, class, ttl, datalength, j) ← parsed (record_header packet length j);
      if (type =? TYPE_SOA) && (class =? CLASS_INET) then
        '(minimum, j) ← parsed (soa_data packet length j);
        _ ← change (fun s => set_ttl minimum (set_ttl ttl s));
        reply_authority packet length n j
      else reply_authority packet length n (j + datalength)
  end.

(** Behind the header: flags other than that of a name error end it at once. *)
Definition reply_body `{limit : HostNameMax} (base : evdns_base) (req : request) (packet : list mbyte) (length flags questions answers authority j : Z) : G reading unit :=
  if has_flag 0x020f flags && negb (Z.land flags 0x020f =? DNS_ERR_NOTEXIST) then goto_err
  else
    '(j, name_matches) ← parsed (reply_questions base req packet length (Z.to_nat questions) j false);
    if negb name_matches then goto_err
    else
      j ← reply_answers req packet length (Z.to_nat answers) j;
      r ← look rd_reply;
      if rp_have_answer r then mret tt else reply_authority packet length (Z.to_nat authority) j.

Definition reply_header (packet : list mbyte) (length : Z) : P (Z * Z * Z * Z * Z * Z) :=
  '(trans_id, j) ← GET16 packet length 0;
  '(flags, j) ← GET16 packet length j;
  '(questions, j) ← GET16 packet length j;
  '(answers, j) ← GET16 packet length j;
  '(authority, j) ← GET16 packet length j;
  '(_, j) ← GET16 packet length j;
  mret (trans_id, flags, questions, answers, authority, j).

(** The call of reply_handle; the request has what was stored for it. *)
Record reply_call := Call { ca_req : request; ca_flags : Z; ca_ttl : Z; ca_reply : option reply }.

Definition with_cname (c : option (option cstr)) (req : request) : request :=
  Request (rq_data req) (rq_type req) (rq_len req) (rq_trans_id req) c.

Definition no_reply (type : Z) : reply := Reply type false 0 [] [].

(** The result, and the call if there is one. *)
Definition reply_parse `{limit : HostNameMax} (base : evdns_base) (packet : list mbyte) (length : Z) : E (Z * option reply_call) :=
  h ← (reply_header packet length : E (option (Z * Z * Z * Z * Z * Z)));
  match h with
  | None => mret (-1, None)
  | Some (trans_id, flags, questions, answers, authority, j) =>
      match request_find_from_trans_id base trans_id with
      | None => mret (-1, None)
      | Some req =>
          if negb (has_flag 0x8000 flags) then mret (-1, None)
          else
            '(ok, s) ← reply_body base req packet length flags questions answers authority j
                         (Reading (no_reply (rq_type req)) 0xffffffff (rq_cname req));
            let req := with_cname (rd_cname s) req in
            mret (match ok with
                  | Some _ => (0, Some (Call req flags (if rd_ttl s =? 0xffffffff then 0 else rd_ttl s) (Some (rd_reply s))))
                  | None => (-1, Some (Call req flags 0 None))
                  end)
      end
  end.

(** ** What the user is told *)

(** The error that reply_handle reports; [None] is all ok. *)
Definition reply_error (flags : Z) (r : option reply) : option Z :=
  let answered := match r with Some r => rp_have_answer r | None => false end in
  if has_flag 0x020f flags || negb answered then
    Some (if has_flag 0x0200 flags then DNS_ERR_TRUNCATED
          else if has_flag 0x000f flags then
            let error_code := u16 (Z.land flags 0x000f - 1) in
            if 4 <? error_code then DNS_ERR_UNKNOWN
            else nth (Z.to_nat error_code) [DNS_ERR_FORMAT; DNS_ERR_SERVERFAILED; DNS_ERR_NOTEXIST; DNS_ERR_NOTIMPL; DNS_ERR_REFUSED] 0
          else match r with Some _ => DNS_ERR_NODATA | None => DNS_ERR_UNKNOWN end)
  else None.

Definition DNS_ERR_NONE : Z := 0.
Definition DNS_IPv4_A : Z := 1.
Definition DNS_PTR : Z := 2.
Definition DNS_IPv6_AAAA : Z := 3.

Record deferred_reply_callback := Deferred {
  df_request_type : Z;
  df_ttl : Z;
  df_err : Z;
  df_reply : option reply }.

Definition reply_schedule_callback (req : request) (ttl err : Z) (r : option reply) : deferred_reply_callback :=
  Deferred (rq_type req) ttl err r.

(** The arguments of user_callback; [None] is no addresses. *)
Record user_call := UserCall { uc_result : Z; uc_type : Z; uc_count : Z; uc_ttl : Z; uc_addresses : option (list mbyte) }.

Definition reply_run_callback (cb : deferred_reply_callback) : E user_call :=
  let failed := UserCall (df_err cb) 0 0 (df_ttl cb) None in
  if df_request_type cb =? TYPE_A then
    mret (match df_reply cb with
          | Some r => UserCall DNS_ERR_NONE DNS_IPv4_A (rp_addrcount r) (df_ttl cb) (Some (rp_addresses r))
          | None => failed
          end)
  else if df_request_type cb =? TYPE_PTR then
    mret (match df_reply cb with
          | Some r => UserCall DNS_ERR_NONE DNS_PTR 1 (df_ttl cb) (Some (rp_name r))
          | None => failed
          end)
  else if df_request_type cb =? TYPE_AAAA then
    mret (match df_reply cb with
          | Some r => UserCall DNS_ERR_NONE DNS_IPv6_AAAA (rp_addrcount r) (df_ttl cb) (Some (rp_addresses r))
          | None => failed
          end)
  else e_fail AssertFailed.
