(* ===== verification/EvDnsSpec.v ===== *)
(** * Names in messages of the domain name system

    What name a message has at an index, and that name_parse finds just that.  A
    message is a list of bytes; the array it was received into goes on behind it. *)

From Stdlib Require Import ssreflect.
From S2P Require Import Prelude CTypes HProp CMem CLib EvBuffer EvBufSpec EvErr EvUtil EvUri EvUriSpec EvQuery EvDns.
Set Warnings "-rewrite-rw".
Open Scope general_if_scope.
Open Scope Z_scope.

(** ** The bytes of a message *)

Abbreviation size m := (Z.of_nat (length m)).

Lemma of_be_2 a b : of_be [a; b] = a * 256 + b.
Proof. cbn [of_be length]. change (2 ^ (8 * Z.of_nat 1)) with 256. change (2 ^ (8 * Z.of_nat 0)) with 1. lia. Qed.

(** The numbers in a message. *)
Definition word16 (m : list Z) (j : Z) : Z := of_be (slice m j 2).
Definition word32 (m : list Z) (j : Z) : Z := word16 m j * 65536 + word16 m (j + 2).

Section message.
Context {m : list Z} {rest : list mbyte}.
Abbreviation packet := ((Some <$> m) ++ rest).

Lemma lookup_packet j x : m !! Z.to_nat j = Some x -> packet !! Z.to_nat j = Some (Some x).
Proof. intros H. by rewrite lookup_app list_lookup_fmap H. Qed.

Lemma lookup_message j : 0 <= j < size m -> ∃ x, m !! Z.to_nat j = Some x.
Proof. intros H. apply lookup_lt_is_Some_2. lia. Qed.

Lemma GET8_packet j x e : 0 <= j -> m !! Z.to_nat j = Some x -> GET8 packet (size m) j e = inr (Some (x, j + 1), e).
Proof.
  intros Hj Hx. pose proof (lookup_lt_Some _ _ _ Hx). rewrite /GET8 (proj2 (Z.leb_gt _ _)); [|lia].
  by rewrite /lift /mbind /P_bind /mbind /E_bind /byte_at (lookup_packet j x).
Qed.

Lemma GET8_stop (p : list mbyte) n j e : n <= j -> GET8 p n j e = inr (None, e).
Proof. intros H. by rewrite /GET8 (proj2 (Z.leb_le _ _)). Qed.

Lemma slice_2 j a b : 0 <= j -> m !! Z.to_nat j = Some a -> m !! Z.to_nat (j + 1) = Some b -> slice m j 2 = [a; b].
Proof.
  intros Hj Ha Hb. rewrite /slice. change (Z.to_nat 2) with 2%nat. rewrite (drop_S m a _ Ha). replace (S (Z.to_nat j)) with (Z.to_nat (j + 1)) by lia.
  by rewrite (drop_S m b _ Hb).
Qed.

Lemma GET16_eq j e :
  0 <= j -> GET16 packet (size m) j e = inr (if j + 2 <=? size m then Some (word16 m j, j + 2) else None, e).
Proof.
  intros Hj. rewrite /GET16. destruct (Z.ltb_spec (size m) (j + 2)) as [Hs|Hl]; [by rewrite (proj2 (Z.leb_gt _ _))|].
  rewrite (proj2 (Z.leb_le _ _)) //. destruct (lookup_message j ltac:(lia)) as [a Ha]. destruct (lookup_message (j + 1) ltac:(lia)) as [b Hb].
  rewrite /word16 (slice_2 j a b) // of_be_2. by rewrite /lift /mbind /P_bind /mbind /E_bind /byte_at (lookup_packet _ _ Ha) (lookup_packet _ _ Hb).
Qed.

Lemma GET32_eq j e :
  0 <= j -> GET32 packet (size m) j e = inr (if j + 4 <=? size m then Some (word32 m j, j + 4) else None, e).
Proof.
  intros Hj. rewrite /GET32. destruct (Z.ltb_spec (size m) (j + 4)) as [Hs|Hl]; [by rewrite (proj2 (Z.leb_gt _ _))|].
  rewrite (proj2 (Z.leb_le _ _)) // /mbind /P_bind /mbind /E_bind GET16_eq; [|lia]. rewrite (proj2 (Z.leb_le (j + 2) _)); [|lia].
  rewrite GET16_eq; [|lia]. by rewrite (proj2 (Z.leb_le (j + 2 + 2) _)); [|lia].
Qed.

End message.

(** ** Names *)

(** The labels at [j], how many pointers lead to them, and the index behind the
    name.  Any byte above 63 starts a pointer. *)
Inductive name_at (m : list Z) : Z -> list (list Z) -> nat -> Z -> Prop :=
| name_root j : m !! Z.to_nat j = Some 0 -> name_at m j [] 0 (j + 1)
| name_label j l ls p k :
    m !! Z.to_nat j = Some (size l) -> 0 < size l < 64 -> slice m (j + 1) (size l) = l -> name_at m (j + 1 + size l) ls p k ->
    name_at m j (l :: ls) p k
| name_pointer j hi lo ls p k :
    m !! Z.to_nat j = Some hi -> 64 <= hi -> m !! Z.to_nat (j + 1) = Some lo -> Z.shiftl (Z.land hi 0x3f) 8 + lo < size m ->
    name_at m (Z.shiftl (Z.land hi 0x3f) 8 + lo) ls p k ->
    name_at m j ls (S p) (j + 2).

(** Labels behind a text that may be there already. *)
Definition dot (t : list Z) : list Z := match t with [] => [] | _ => t ++ [46] end.
Definition join_label (t l : list Z) : list Z := dot t ++ l.
Definition dotted (ls : list (list Z)) : list Z := foldl join_label [] ls.

Lemma flag_c0 x : is_byte_val x -> has_flag 0xc0 x = (64 <=? x).
Proof. intros Hx. apply eqb_prop. by apply (byte_cases (fun x => Bool.eqb (has_flag 0xc0 x) (64 <=? x)) eq_refl eq_refl). Qed.

Lemma join_label_length t l : size t <= size (join_label t l).
Proof. rewrite /join_label /dot. destruct t; rewrite !length_app /=; lia. Qed.

Lemma foldl_join_length t ls : size t <= size (foldl join_label t ls).
Proof. revert t. induction ls as [|l ls IH]; intros t; cbn; [lia|]. pose proof (join_label_length t l). specialize (IH (join_label t l)). lia. Qed.

Lemma pointer_target hi lo : is_byte_val hi -> is_byte_val lo -> 0 <= Z.shiftl (Z.land hi 0x3f) 8 + lo.
Proof. intros Hh Hl. assert (0 <= Z.shiftl (Z.land hi 0x3f) 8); [|rewrite /is_byte_val in Hl; lia]. apply Z.shiftl_nonneg, Z.land_nonneg. by right. Qed.

(** What name_parse makes of the name at [j] in front of which [t] stands. *)
Definition parses (m : list Z) (rest : list mbyte) (j name_end c : Z) (t : list Z) (n : Z) (e : evenv) (r : fault + (option (list mbyte * Z) * evenv)) : Prop :=
  match r with
  | inl f => f = OutOfBounds ∧ size rest < 63
  | inr (Some (cp, k), e') => e' = e ∧ ∃ ls p k0, name_at m j ls p k0 ∧ c + Z.of_nat p <= size m
      ∧ size (foldl join_label t ls) < n ∧ cp = Some <$> foldl join_label t ls ∧ k = (if name_end <? 0 then k0 else name_end)
  | inr (None, e') => e' = e ∧ ∀ ls p k0, name_at m j ls p k0 -> c + Z.of_nat p <= size m -> n <= size (foldl join_label t ls)
  end.

(** Only one rule applies at an index. *)
Lemma name_at_inv m j ls p k x :
  m !! Z.to_nat j = Some x -> name_at m j ls p k ->
  (x = 0 ∧ ls = [] ∧ p = 0%nat ∧ k = j + 1)
  ∨ (0 < x < 64 ∧ ∃ ls', ls = slice m (j + 1) x :: ls' ∧ size (slice m (j + 1) x) = x ∧ name_at m (j + 1 + x) ls' p k)
  ∨ (64 <= x ∧ ∃ lo p' k', m !! Z.to_nat (j + 1) = Some lo ∧ Z.shiftl (Z.land x 0x3f) 8 + lo < size m
       ∧ name_at m (Z.shiftl (Z.land x 0x3f) 8 + lo) ls p' k' ∧ p = S p' ∧ k = j + 2).
Proof.
  intros Hx Hat. revert Hx. destruct Hat as [j H0|j l ls' p' k' H0 Hl Hs Hn|j hi lo ls' p' k' H0 Hh H1 Ht Hn]; rewrite H0; intros [= <-].
  - by left.
  - right; left. split; [done|]. exists ls'. by rewrite Hs.
  - right; right. split; [done|]. by exists lo, p', k'.
Qed.

Lemma name_at_det m j ls p k ls' p' k' : name_at m j ls p k -> name_at m j ls' p' k' -> ls = ls' ∧ p = p' ∧ k = k'.
Proof.
  intros H. revert ls' p' k'. induction H as [j H0|j l ls p k H0 Hl Hs Hn IH|j hi lo ls p k H0 Hh H1 Ht Hn IH]; intros ls' p' k' Hat.
  - destruct (name_at_inv m j ls' p' k' _ H0 Hat) as [(_ & -> & -> & ->)|[(? & _)|(? & _)]]; [done|lia|lia].
  - destruct (name_at_inv m j ls' p' k' _ H0 Hat) as [(? & _)|[(_ & ls2 & -> & _ & Hat')|(? & _)]]; [lia| |lia].
    destruct (IH _ _ _ Hat') as (-> & -> & ->). by rewrite Hs.
  - destruct (name_at_inv m j ls' p' k' _ H0 Hat) as [(? & _)|[(? & _)|(_ & lo' & p2 & k2 & Hlo & _ & Hat' & -> & ->)]]; [lia|lia|].
    rewrite H1 in Hlo. injection Hlo as <-. by destruct (IH _ _ _ Hat') as (-> & -> & _).
Qed.

Section name_loop.
Context (m : list Z) (rest : list mbyte) (n : Z) (Hm : Forall is_byte_val m).
Abbreviation packet := ((Some <$> m) ++ rest).

Lemma byte_of j x : m !! Z.to_nat j = Some x -> is_byte_val x.
Proof. by apply Forall_lookup_1. Qed.

Lemma slice_packet j k : 0 <= j -> 0 <= k -> j + k <= size m -> slice packet j k = Some <$> slice m j k.
Proof.
  intros Hj Hk Hl. rewrite -slice_fmap /slice drop_app_le; [|rewrite length_fmap; lia]. rewrite take_app_le //.
  rewrite length_drop length_fmap. lia.
Qed.

Lemma name_loop_stop fuel j name_end c cp e : (0 < fuel)%nat -> size m <= j -> name_loop fuel packet (size m) j name_end c cp n e = inr (None, e).
Proof. intros Hf Hj. destruct fuel as [|fuel]; [lia|]. cbn [name_loop]. by rewrite /mbind /P_bind /mbind /E_bind GET8_stop. Qed.

Lemma name_at_range j ls p k : name_at m j ls p k -> (Z.to_nat j < length m)%nat.
Proof. destruct 1; eapply lookup_lt_Some; done. Qed.

Lemma parses_pointer j hi lo name_end c t e r :
  m !! Z.to_nat j = Some hi -> 64 <= hi -> m !! Z.to_nat (j + 1) = Some lo -> 0 <= j -> Z.shiftl (Z.land hi 0x3f) 8 + lo < size m ->
  parses m rest (Z.shiftl (Z.land hi 0x3f) 8 + lo) (if name_end <? 0 then j + 2 else name_end) (c + 1) t n e r ->
  parses m rest j name_end c t n e r.
Proof.
  intros Hh H64 Hl Hj Ht. destruct r as [f|[[[cp k]|] e']]; cbn; [done| |].
  - intros (-> & ls & p & k0 & Hn & Hp & Hlen & -> & ->). split; [done|]. exists ls, (S p), (j + 2). split_and!; try done; [by eapply name_pointer|lia|].
    destruct (Z.ltb_spec name_end 0); [by rewrite (proj2 (Z.ltb_ge _ _)); [|lia]|by rewrite (proj2 (Z.ltb_ge _ _))].
  - intros (-> & Hno). split; [done|]. intros ls p k0 Hn Hp.
    destruct (name_at_inv m j ls p k0 hi Hh Hn) as [(-> & _)|[(Hx & _)|(_ & lo' & p' & k' & Hlo & _ & Hn' & -> & _)]]; [lia|lia|].
    rewrite Hl in Hlo. injection Hlo as <-. eapply Hno; [done|lia].
Qed.

Lemma parses_label j x name_end c t e r :
  m !! Z.to_nat j = Some x -> 0 < x < 64 -> 0 <= j -> j + 1 + x <= size m ->
  parses m rest (j + 1 + x) name_end c (join_label t (slice m (j + 1) x)) n e r ->
  parses m rest j name_end c t n e r.
Proof.
  intros Hx H64 Hj Hl. assert (Hs : size (slice m (j + 1) x) = x).
  { rewrite /slice length_take length_drop. lia. }
  destruct r as [f|[[[cp k]|] e']]; cbn; [done| |].
  - intros (-> & ls & p & k0 & Hn & Hp & Hlen & -> & ->). split; [done|]. exists (slice m (j + 1) x :: ls), p, k0. split_and!; try done.
    apply name_label; by rewrite Hs.
  - intros (-> & Hno). split; [done|]. intros ls p k0 Hn Hp.
    destruct (name_at_inv m j ls p k0 x Hx Hn) as [(-> & _)|[(_ & ls' & -> & _ & Hn')|(Hge & _)]]; [lia| |lia]. by apply (Hno ls' p k0).
Qed.

(** Nothing can be at [j]. *)
Lemma parses_none j name_end c t e :
  (∀ ls p k0, name_at m j ls p k0 -> c + Z.of_nat p <= size m -> n <= size (foldl join_label t ls)) -> parses m rest j name_end c t n e (inr (None, e)).
Proof. done. Qed.

Lemma parses_long j x name_end c t e :
  m !! Z.to_nat j = Some x -> 0 < x < 64 -> n <= size (dot t) + x -> parses m rest j name_end c t n e (inr (None, e)).
Proof.
  intros Hx H64 Hn. apply parses_none. intros ls p k0 Hat _.
  destruct (name_at_inv m j ls p k0 x Hx Hat) as [(-> & _)|[(_ & ls' & -> & Hs & _)|(Hge & _)]]; [lia| |lia]. cbn [foldl].
  pose proof (foldl_join_length (join_label t (slice m (j + 1) x)) ls') as Hl. rewrite {1}/join_label length_app in Hl. lia.
Qed.

Lemma name_loop_parses fuel j name_end c t e :
  0 <= j -> 0 <= c <= size m -> (t = [] ∨ size t < n) -> (Z.to_nat (size m - c) + Z.to_nat (n - size t) + 1 < fuel)%nat ->
  parses m rest j name_end c t n e (name_loop fuel packet (size m) j name_end c (Some <$> t) n e).
Proof.
  revert j name_end c t. induction fuel as [|fuel IH]; intros j name_end c t Hj Hc Ht Hf; [lia|].
  destruct (Z.ltb_spec j (size m)) as [Hlt|Hge].
  2: { rewrite name_loop_stop //; [|lia]. split; [done|]. intros ls p k0 Hn%name_at_range _. lia. }
  destruct (lookup_message (m := m) j ltac:(lia)) as [x Hx]. pose proof (byte_of j x Hx) as Hb.
  assert (Hrun : ∀ k : Z * Z -> P (list mbyte * Z), mbind (M:=P) k (GET8 packet (size m) j) e = k (x, j + 1) e).
  { intros k. by rewrite /mbind /P_bind /mbind /E_bind (GET8_packet j x). }
  cbn [name_loop]. rewrite Hrun.
  destruct (Z.eqb_spec x 0) as [->|Hx0].
  { rewrite length_fmap. destruct (Z.leb_spec n (size t)) as [Hnt|Hnt].
    - apply parses_none. intros ls p k0 Hn _. destruct (name_at_inv m j ls p k0 0 Hx Hn) as [(_ & -> & _)|[(? & _)|(? & _)]]; [done|lia|lia].
    - split; [done|]. exists [], 0%nat, (j + 1). split_and!; try done; [by apply name_root|lia]. }
  rewrite flag_c0 //. destruct (Z.leb_spec 64 x) as [H64|H64].
  { destruct (Z.ltb_spec (j + 1) (size m)) as [Hlt1|Hge1].
    2: { rewrite /mbind /P_bind /mbind /E_bind GET8_stop //. apply parses_none. intros ls p k0 Hn _.
      destruct (name_at_inv m j ls p k0 x Hx Hn) as [(? & _)|[(? & _)|(_ & lo & ? & ? & Hlo & _)]]; [lia|lia|]. apply lookup_lt_Some in Hlo. lia. }
    destruct (lookup_message (m := m) (j + 1) ltac:(lia)) as [lo Hlo]. pose proof (byte_of _ _ Hlo) as Hlob.
    rewrite {1}/mbind /P_bind /mbind /E_bind (GET8_packet (j + 1) lo) //; [|lia].
    pose proof (pointer_target x lo Hb Hlob) as Hpos. set (tgt := Z.shiftl (Z.land x 0x3f) 8 + lo) in *.
    rewrite (proj2 (Z.ltb_ge tgt 0)) //=. destruct (Z.leb_spec (size m) tgt) as [Hbad|Htgt].
    { apply parses_none. intros ls p k0 Hn _. destruct (name_at_inv m j ls p k0 x Hx Hn) as [(? & _)|[(? & _)|(_ & lo' & p' & k' & Hlo' & Ht' & _)]]; [lia|lia|].
      rewrite Hlo in Hlo'. injection Hlo' as <-. lia. }
    destruct (Z.ltb_spec (size m) (c + 1)) as [Hmany|Hfew].
    { apply parses_none. intros ls p k0 Hn Hp. destruct (name_at_inv m j ls p k0 x Hx Hn) as [(? & _)|[(? & _)|(_ & ? & p' & ? & _ & _ & _ & -> & _)]]; lia. }
    eapply parses_pointer; [done|done|done|done|done|]. replace (j + 1 + 1) with (j + 2) by lia. apply IH; [done|lia|done|lia]. }
  assert (Hx63 : 0 < x < 64) by (rewrite /is_byte_val in Hb; lia). rewrite (proj2 (Z.ltb_ge 63 x)); [|lia].
  match goal with |- parses _ _ _ _ _ _ _ _ (mbind ?k ?d _) => assert (Hdot : (n <= size (dot t) + x ∧ mbind k d e = inr (None, e)) ∨ mbind k d e = k (Some <$> dot t) e) end.
  { destruct t as [|y t]; [by right|]. cbn [fmap list_fmap dot]. destruct (Z.leb_spec n (size (Some y :: (Some <$> t)) + 1)) as [Hs|Hs].
    - left. split; [|done]. cbn [length] in Hs |- *. rewrite length_app /=. rewrite length_fmap in Hs. lia.
    - right. by rewrite -fmap_cons fmap_app. }
  destruct Hdot as [[Hbig ->]| ->]; [by eapply parses_long|].
  rewrite length_fmap. destruct (Z.leb_spec n (size (dot t) + x)) as [Hbig|Hfit]; [by eapply parses_long|].
  destruct (Z.leb_spec (j + 1 + x) (size m)) as [Hin|Hout].
  - rewrite /lift /mbind /P_bind /mbind /E_bind /bytes_at. assert (Hr : in_range packet (j + 1) x = true).
    { rewrite /in_range !andb_true_iff !Z.leb_le length_app length_fmap. lia. }
    rewrite Hr slice_packet; [|lia..]. cbn. rewrite -fmap_app. eapply parses_label; [done|done|done|done|].
    assert (Hs : size (slice m (j + 1) x) = x) by (rewrite /slice length_take length_drop; lia).
    change (dot t ++ slice m (j + 1) x) with (join_label t (slice m (j + 1) x)).
    assert (Hj' : size (join_label t (slice m (j + 1) x)) = size (dot t) + x) by (rewrite /join_label length_app; lia).
    apply IH; [lia|lia|right; lia|]. assert (size t <= size (dot t)) by (destruct t; cbn; rewrite ?length_app /=; lia). lia.
  - assert (Hnone : ∀ e', e' = e -> parses m rest j name_end c t n e (inr (None, e'))).
    { intros e' ->. apply parses_none. intros ls p k0 Hat _. destruct (name_at_inv m j ls p k0 x Hx Hat) as [(-> & _)|[(_ & ls' & -> & Hs & _)|(Hge & _)]]; [lia| |lia].
      rewrite /slice length_take length_drop in Hs. lia. }
    rewrite /lift {1}/mbind /P_bind {1}/mbind /E_bind {1}/mbind /E_bind /bytes_at. destruct (in_range packet (j + 1) x) eqn:Hr.
    + cbn. rewrite name_loop_stop; [by apply Hnone|lia|lia].
    + split; [done|]. rewrite /in_range !andb_false_iff !Z.leb_gt length_app length_fmap in Hr. lia.
Qed.

(** name_parse is a total function: what it finds is the name of the message. *)
Lemma name_parse_parses j e : 0 <= j -> parses m rest j (-1) 0 [] n e (name_parse packet (size m) j n e).
Proof. intros Hj. apply (name_loop_parses _ j (-1) 0 []); [done|lia|by left|]. cbn. lia. Qed.

End name_loop.

(** ** Names as texts *)

(** A text that spells labels; a dot at its end changes nothing. *)
Inductive name_labels : list Z -> list (list Z) -> Prop :=
| labels_root : name_labels [] []
| labels_last l : 0 < size l < 64 -> Forall (fun c => c ≠ 46) l -> name_labels l [l]
| labels_more l r ls : 0 < size l < 64 -> Forall (fun c => c ≠ 46) l -> name_labels r ls -> name_labels (l ++ 46 :: r) (l :: ls).

Lemma strsep_all sep l : Forall (fun c => c ≠ sep) l -> strsep sep l = (l, None).
Proof. induction 1 as [|c l Hc _ IH]; [done|]. cbn. by rewrite (proj2 (Z.eqb_neq _ _) Hc) IH. Qed.

Lemma strsep_first sep l r : Forall (fun c => c ≠ sep) l -> strsep sep (l ++ sep :: r) = (l, Some r).
Proof. induction 1 as [|c l Hc _ IH]; cbn; [by rewrite Z.eqb_refl|]. by rewrite (proj2 (Z.eqb_neq _ _) Hc) IH. Qed.

Lemma name_labels_strsep s ls :
  name_labels s ls ->
  match strsep 46 s with
  | (l, Some r) => ∃ ls', ls = l :: ls' ∧ name_labels r ls'
  | (l, None) => l = s ∧ ls = (if decide (s = []) then [] else [s])
  end.
Proof.
  destruct 1 as [|l Hl Hd|l r ls Hl Hd Hr]; [done| |].
  - rewrite strsep_all //. split; [done|]. rewrite decide_False //. intros ->. cbn in Hl. lia.
  - rewrite strsep_first //. by exists ls.
Qed.

Lemma name_labels_det s ls ls' : name_labels s ls -> name_labels s ls' -> ls = ls'.
Proof.
  intros H. revert ls'. induction H as [|l Hl Hd|l r ls Hl Hd Hr IH]; intros ls' H%name_labels_strsep; cbn in H.
  - by destruct H as [_ ->].
  - rewrite strsep_all // in H. destruct H as [_ ->]. rewrite decide_False //. intros ->. cbn in Hl. lia.
  - rewrite strsep_first // in H. destruct H as (ls'' & -> & H). by rewrite (IH ls'').
Qed.

Lemma foldl_join t ls : t ≠ [] -> foldl join_label t ls = t ++ concat (cons 46 <$> ls).
Proof.
  revert t. induction ls as [|l ls IH]; intros t Ht; cbn; [by rewrite app_nil_r|]. rewrite IH; rewrite /join_label /dot; destruct t; try done.
  by rewrite -!app_assoc.
Qed.

(** The name that is read is the text without the dot at its end. *)
Lemma name_labels_dotted s ls : name_labels s ls -> s = dotted ls ∨ s = dotted ls ++ [46].
Proof.
  intros H. enough (Hg : (s = [] ∧ ls = []) ∨ (∃ l ls', ls = l :: ls' ∧ l ≠ [] ∧ (s = l ++ concat (cons 46 <$> ls') ∨ s = (l ++ concat (cons 46 <$> ls')) ++ [46]))).
  { destruct Hg as [[-> ->]|(l & ls' & -> & Hl & Hs)]; [by left|]. rewrite /dotted /=. rewrite /join_label /= foldl_join //. }
  induction H as [|l Hl Hd|l r ls Hl Hd Hr IH]; [by left| |]; right.
  - exists l, []. split_and!; [done|intros ->; cbn in Hl; lia|]. left. by rewrite /= app_nil_r.
  - exists l, ls. split_and!; [done|intros ->; cbn in Hl; lia|]. destruct IH as [[-> ->]|(l' & ls' & -> & Hl' & [-> | ->])]; [right|left|right]; cbn; rewrite ?app_nil_r //.
    by rewrite -!app_assoc /= -!app_assoc.
Qed.

(** ** A message grows *)

Lemma lookup_grows (m m' : list Z) (j x : Z) : m !! Z.to_nat j = Some x -> (m ++ m') !! Z.to_nat j = Some x.
Proof. intros H. by apply lookup_app_l_Some. Qed.

Lemma slice_grows (m m' l : list Z) j n : 0 <= j -> slice m j n = l -> size l = n -> slice (m ++ m') j n = l.
Proof.
  intros Hj <- Hn. rewrite /slice length_take length_drop in Hn. rewrite /slice.
  destruct (decide (n = 0)) as [->|]; [done|]. rewrite drop_app_le; [|lia]. rewrite take_app_le //. rewrite length_drop. lia.
Qed.

Lemma name_at_grows m m' j ls p k : 0 <= j -> Forall is_byte_val m -> name_at m j ls p k -> name_at (m ++ m') j ls p k.
Proof.
  intros Hj Hm H. revert Hj. induction H as [j H0|j l ls p k H0 Hl Hs Hn IH|j hi lo ls p k H0 Hh H1 Ht Hn IH]; intros Hj.
  - by apply name_root, lookup_grows.
  - apply name_label; [by apply lookup_grows|done|apply slice_grows; [lia|done|done]|apply IH; lia].
  - eapply name_pointer; [by apply lookup_grows|done|by apply lookup_grows|rewrite length_app; lia|]. apply IH.
    apply pointer_target; rewrite ->Forall_lookup in Hm; [by eapply Hm|by eapply Hm].
Qed.

(** A pointer to an index below 2^14. *)
Lemma pointer_bytes pos : 0 <= pos < 2 ^ 14 -> ∃ hi lo, be16 (u16 (Z.lor pos 0xc000)) = [hi; lo] ∧ 64 <= hi < 256 ∧ 0 <= lo < 256 ∧ Z.shiftl (Z.land hi 0x3f) 8 + lo = pos.
Proof.
  intros Hp. set (x := u16 (Z.lor pos 0xc000)). exists (u8 (Z.shiftr x 8)), (u8 x). split; [done|].
  assert (H : forallb (fun pos => let x := u16 (Z.lor pos 0xc000) in (64 <=? u8 (Z.shiftr x 8)) && (Z.shiftl (Z.land (u8 (Z.shiftr x 8)) 0x3f) 8 + u8 x =? pos))
    (seqZ 0 (2 ^ 14)) = true) by (vm_compute; reflexivity).
  rewrite forallb_forall in H. specialize (H pos). rewrite -list_elem_of_In elem_of_seqZ in H. specialize (H ltac:(lia)).
  cbn zeta in H. fold x in H. rewrite andb_true_iff Z.leb_le Z.eqb_eq in H. pose proof (u8_range (Z.shiftr x 8)). pose proof (u8_range x). lia.
Qed.
