(* ===== verification/EvDnsOps.v ===== *)
(** * Messages of the domain name system: lemmas

    What APPEND, dnsname_to_labels and the parts of a message under construction
    do, for any outcome of the allocator.  The invariant of the compression table
    is that each name in it can be read at its position.  Then the parts of
    request_parse and reply_parse for any message, with what the message has at an
    index as the specification; a label that runs past the end of the array is the
    only fault. *)

From Stdlib Require Import ssreflect.
From S2P Require Import Prelude CTypes HProp CMem CLib EvBuffer EvBufSpec EvUtil EvErr EvUri EvUriSpec EvMem EvQuery EvDns EvDnsServer EvDnsClient EvDnsSpec.
Set Warnings "-rewrite-rw".
Open Scope general_if_scope.
Open Scope Z_scope.

(** ** Messages under construction *)

(** Behind the bytes [pre] the bytes [m] are written; [rest] is free. *)
Definition draft_on (pre : list mbyte) (m : list Z) (rest : list mbyte) (table : option dnslabel_table) : draft :=
  Draft (pre ++ (Some <$> m) ++ rest) (size pre + size m) table.

(** All that is in front of [rest] is written. *)
Definition draft_of (m : list Z) (rest : list mbyte) (table : option dnslabel_table) : draft := draft_on [] m rest table.

Lemma draft_of_on m m' rest table : draft_on (Some <$> m) m' rest table = draft_of (m ++ m') rest table.
Proof. rewrite /draft_of /draft_on length_fmap length_app fmap_app -app_assoc. f_equal. cbn. lia. Qed.

Section drafts.
Context (pre : list mbyte) (m : list Z) (rest : list mbyte) (table : option dnslabel_table).

Lemma draft_length : length (d_buf (draft_on pre m rest table)) = (length pre + length m + length rest)%nat.
Proof. rewrite /draft_on /= !length_app length_fmap. lia. Qed.

Lemma push_draft ds e :
  size ds <= size rest -> push ds (draft_on pre m rest table) e = inr (draft_on pre (m ++ ds) (drop (length ds) rest) table, e).
Proof.
  intros Hl. rewrite /push /put_bytes_at /in_range draft_length length_fmap. change (d_pos (draft_on pre m rest table)) with (size pre + size m).
  rewrite (proj2 (Z.leb_le 0 _)); [|lia]. rewrite (proj2 (Z.leb_le 0 _)); [|lia]. rewrite (proj2 (Z.leb_le _ _)); [|lia].
  rewrite /mbind /E_bind /mret /E_ret /draft_on /= length_app. do 3 f_equal; [|lia]. rewrite /patch length_fmap fmap_app.
  replace (Z.to_nat (size pre + size m)) with (length (pre ++ (Some <$> m))) by (rewrite length_app length_fmap; lia).
  by rewrite (app_assoc pre) take_app_length -drop_drop drop_app_length -!app_assoc.
Qed.

Lemma push_over ds e : size rest < size ds -> push ds (draft_on pre m rest table) e = inl OutOfBounds.
Proof.
  intros Hl. rewrite /push /put_bytes_at /mbind /E_bind /in_range draft_length length_fmap. change (d_pos (draft_on pre m rest table)) with (size pre + size m).
  rewrite (proj2 (Z.leb_gt (_ + _) _)); [|lia]. by rewrite !andb_false_r.
Qed.
End drafts.

Section writing.
Context (bad : fault -> Prop).
Abbreviation eruns := (eruns bad).
Abbreviation gruns := (gruns bad).

Lemma eruns_push ds pre m rest table e (Q : draft -> evenv -> Prop) :
  (size rest < size ds -> bad OutOfBounds) -> (size ds <= size rest -> Q (draft_on pre (m ++ ds) (drop (length ds) rest) table) e) ->
  eruns (push ds (draft_on pre m rest table)) e Q.
Proof.
  intros Hb HQ. rewrite /EvErr.eruns. destruct (Z.leb_spec (size ds) (size rest)); [rewrite push_draft //; by apply HQ|].
  rewrite push_over //. by apply Hb.
Qed.

Lemma gruns_APPEND_on ds pre m rest table e (Q : option unit -> draft -> evenv -> Prop) :
  (size ds <= size rest -> Q (Some tt) (draft_on pre (m ++ ds) (drop (length ds) rest) table) e) ->
  (size rest < size ds -> Q None (draft_on pre m rest table) e) ->
  gruns (APPEND ds) (draft_on pre m rest table) e Q.
Proof.
  intros Hs Hn. rewrite /EvErr.gruns /APPEND draft_length. change (d_pos (draft_on pre m rest table)) with (size pre + size m).
  destruct (Z.ltb_spec (Z.of_nat (length pre + length m + length rest)) (size pre + size m + size ds)).
  - refine (Hn _). lia.
  - apply eruns_bind, eruns_push; [lia|]. intros _. refine (Hs _). lia.
Qed.

Lemma gruns_APPEND ds m rest table e (Q : option unit -> draft -> evenv -> Prop) :
  (size ds <= size rest -> Q (Some tt) (draft_of (m ++ ds) (drop (length ds) rest) table) e) ->
  (size rest < size ds -> Q None (draft_of m rest table) e) ->
  gruns (APPEND ds) (draft_of m rest table) e Q.
Proof. apply gruns_APPEND_on. Qed.

(** ** Compression *)

Definition table_ids (table : option dnslabel_table) : list id := (fun x : cstr * Z => s_id x.1) <$> default [] table.

(** A name can be read at [pos]; a pointer can lead there. *)
Definition entry_ok (m : list Z) (v : list Z) (pos : Z) : Prop :=
  0 <= pos < 2 ^ 14 ∧ ∀ ls, name_labels v ls -> ∃ p k, name_at m pos ls p k ∧ Z.of_nat p <= size m.

(** Names longer than [n] may still be incomplete. *)
Definition table_upto (n : nat) (m : list Z) (table : option dnslabel_table) : Prop :=
  ∀ v pos, (v, pos) ∈ default [] table -> (length (s_text v) <= n)%nat -> entry_ok m (s_text v) pos.

Definition table_ok (m : list Z) (table : option dnslabel_table) : Prop :=
  ∀ v pos, (v, pos) ∈ default [] table -> entry_ok m (s_text v) pos.

Lemma entry_ok_grows m m' v pos : Forall is_byte_val m -> entry_ok m v pos -> entry_ok (m ++ m') v pos.
Proof.
  intros Hm [Hp Hn]. split; [done|]. intros ls Hl. destruct (Hn ls Hl) as (p & k & Hat & Hle). exists p, k.
  split; [apply name_at_grows; [lia|done|done]|rewrite length_app; lia].
Qed.

Lemma table_upto_grows n m m' table : Forall is_byte_val m -> table_upto n m table -> table_upto n (m ++ m') table.
Proof. intros Hm H v pos Hv Hl. by apply entry_ok_grows, H. Qed.

Lemma table_ok_grows m m' table : Forall is_byte_val m -> table_ok m table -> table_ok (m ++ m') table.
Proof. intros Hm H v pos Hv. by apply entry_ok_grows, H. Qed.

Lemma get_pos_found table name : 0 <= dnslabel_table_get_pos table name -> ∃ v, (v, dnslabel_table_get_pos table name) ∈ table ∧ s_text v = name.
Proof.
  induction table as [|[v pos] table IH]; cbn [dnslabel_table_get_pos]; [lia|]. case_bool_decide as Hv.
  - intros _. exists v. by split; [left|].
  - intros H. destruct (IH H) as (w & Hw & Ht). exists w. by split; [right|].
Qed.

(** The entries of [table], and perhaps one more. *)
Definition adds (table table' : option dnslabel_table) (name : list Z) (pos : Z) : Prop :=
  (table = None -> table' = None) ∧ ∀ v p, (v, p) ∈ default [] table' -> (v, p) ∈ default [] table ∨ (s_text v = name ∧ p = pos).

Lemma adds_same table name pos : adds table table name pos.
Proof. split; [done|]. intros v p H. by left. Qed.

Lemma runs_table_add e0 own table name pos e (Q : option dnslabel_table -> evenv -> Prop) :
  is_text name -> owned e0 (table_ids table ++ own) e ->
  (∀ table' e', adds table table' name pos -> owned e0 (table_ids table' ++ own) e' -> Q table' e') ->
  runs (match table with
        | Some table => '(_, table) ← dnslabel_table_add table name pos; mret (Some table)
        | None => mret None
        end) e Q.
Proof.
  intros Ht Ho HQ. assert (Hsame : ∀ e', owned e0 (table_ids table ++ own) e' -> Q table e') by (intros e' He'; apply HQ; [apply adds_same|done]).
  destruct table as [table|]; [|by apply runs_ret, Hsame]. rewrite /dnslabel_table_add. apply runs_bind. destruct (_ =? MAX_LABELS).
  { apply runs_ret. by apply runs_ret, Hsame. }
  apply runs_bind. eapply strdup_gives; [done|exact Ho| |].
  - intros c e' Hc Ho'. apply runs_ret, runs_ret, HQ.
    + split; [done|]. intros v p. cbn. rewrite elem_of_app list_elem_of_singleton. intros [H|[= -> ->]]; [by left|by right].
    + eapply owned_perm; [|exact Ho']. rewrite /table_ids /= fmap_app -app_assoc /=. by rewrite Permutation_middle.
  - intros e' _ Ho'. apply runs_ret, runs_ret. by apply Hsame.
Qed.

(** ** A name *)

(** One turn: a pointer, no space, or a label. *)
Lemma eruns_turn e0 own fuel name l r pre m rest table e (Q : Z * draft -> evenv -> Prop) :
  strsep 46 name = (l, r) -> size l < 64 -> is_text name -> owned e0 (table_ids table ++ own) e ->
  (∀ v pos, (v, pos) ∈ default [] table -> s_text v = name -> 2 <= size rest ->
     Q (size pre + size (m ++ be16 (u16 (Z.lor pos 0xc000))), draft_on pre (m ++ be16 (u16 (Z.lor pos 0xc000))) (drop 2 rest) table) e) ->
  (size rest < size l + 2 -> Q (-2, draft_on pre m rest table) e) ->
  (∀ table' e', size l + 1 <= size rest -> adds table table' name (size pre + size m) -> owned e0 (table_ids table' ++ own) e' ->
     let d := draft_on pre (m ++ size l :: l) (drop (S (length l)) rest) table' in
     eruns (match r with None => labels_end d | Some name => labels_loop fuel name d end) e' Q) ->
  eruns (labels_loop (S fuel) name (draft_on pre m rest table)) e Q.
Proof.
  intros Hs Hl Ht Ho Hhit Hno Hgo. cbn [labels_loop]. rewrite draft_length. change (d_table (draft_on pre m rest table)) with table.
  change (d_pos (draft_on pre m rest table)) with (size pre + size m). change (d_buf (draft_on pre m rest table)) with (pre ++ (Some <$> m) ++ rest).
  set (ref := match table with Some _ => _ | None => _ end). destruct (Z.leb_spec 0 ref) as [Href|Href].
  { assert (Hf : ∃ v, (v, ref) ∈ default [] table ∧ s_text v = name) by (destruct table as [t|]; [by apply get_pos_found|subst ref; lia]).
    destruct Hf as (v & Hv & Hvn). apply eruns_bind, (gruns_eruns bad), gruns_APPEND_on.
    - intros H2. by apply (Hhit v).
    - intros H2. apply Hno. cbn in H2 |- *. lia. }
  rewrite Hs (proj2 (Z.ltb_ge 63 _)); [|lia].
  destruct (Z.ltb_spec (Z.of_nat (length pre + length m + length rest)) (size pre + size m + size l + 1)) as [Hfull|Hfit]; [apply eruns_ret, Hno; lia|].
  apply eruns_bind, runs_eruns, (runs_table_add e0 own table); [done|done|]. intros table' e' Ha Ho'.
  apply eruns_bind. change (Draft (pre ++ (Some <$> m) ++ rest) (size pre + size m) table') with (draft_on pre m rest table').
  apply eruns_push; [cbn [length]; lia|]. intros _. by apply Hgo; [lia| |].
Qed.

(** What is needed for a name, and what a caller knows when there is less. *)
Definition name_space (name : list Z) : Z := size name + 2.

Lemma eruns_labels_end pre m x rest table e (Q : Z * draft -> evenv -> Prop) :
  (x = 0 -> Q (size pre + size (m ++ [x]), draft_on pre (m ++ [x]) rest table) e) ->
  (x ≠ 0 -> size rest < 1 -> bad OutOfBounds) ->
  (x ≠ 0 -> 1 <= size rest -> Q (size pre + size ((m ++ [x]) ++ [0]), draft_on pre ((m ++ [x]) ++ [0]) (drop 1 rest) table) e) ->
  eruns (labels_end (draft_on pre (m ++ [x]) rest table)) e Q.
Proof.
  intros H0 Hb H1. rewrite /labels_end. change (d_pos (draft_on pre (m ++ [x]) rest table)) with (size pre + size (m ++ [x])).
  rewrite (proj2 (Z.eqb_neq _ 0)); [|rewrite length_app /=; lia].
  assert (Hx : byte_at (d_buf (draft_on pre (m ++ [x]) rest table)) (size pre + size (m ++ [x]) - 1) = mret x).
  { rewrite /byte_at /draft_on /= fmap_app -(app_assoc _ [Some x]) (app_assoc pre). by rewrite list_lookup_middle; [|rewrite !length_app length_fmap /=; lia]. }
  apply eruns_bind, eruns_bind. rewrite Hx. apply eruns_ret, eruns_ret. destruct (Z.eqb_spec x 0) as [Hz|Hz]; [by apply eruns_ret, H0|].
  apply eruns_bind, eruns_push; [by apply Hb|]. intros Hr. apply eruns_ret. by apply H1.
Qed.

(** [m'] is a name behind [m], and what is new in the table can be read. *)
Record wrote (m m' : list Z) (ls : list (list Z)) (table table' : option dnslabel_table) : Prop := {
  wr_bytes : Forall is_byte_val m';
  wr_name : ∃ p, name_at (m ++ m') (size m) ls p (size (m ++ m')) ∧ Z.of_nat p <= size (m ++ m');
  wr_none : table = None -> table' = None;
  wr_table v pos : (v, pos) ∈ default [] table' -> (v, pos) ∈ default [] table ∨ entry_ok (m ++ m') (s_text v) pos }.

Lemma lookup_at (m : list Z) x m' : (m ++ x :: m') !! Z.to_nat (size m) = Some x.
Proof. rewrite Nat2Z.id. by apply list_lookup_middle. Qed.

Lemma wrote_pointer name ls m table v pos :
  name_labels name ls -> Forall is_byte_val m -> table_upto (length name) m table -> (v, pos) ∈ default [] table -> s_text v = name ->
  wrote m (be16 (u16 (Z.lor pos 0xc000))) ls table table.
Proof.
  intros Hn Hm Ht Hv Hvn. assert (Hok : entry_ok m (s_text v) pos) by (apply Ht; [done|by rewrite Hvn]).
  destruct Hok as [Hp Hat]. rewrite Hvn in Hat. destruct (Hat ls Hn) as (p & k & Hname & Hle).
  destruct (pointer_bytes pos Hp) as (hi & lo & -> & Hhi & Hlo & Htgt). pose proof (name_at_range _ _ _ _ _ Hname).
  split; [repeat constructor; rewrite /is_byte_val; lia| |done|by left]. exists (S p). rewrite length_app. cbn [length]. split; [|lia].
  replace (Z.of_nat (length m + 2)) with (size m + 2) by lia. eapply (name_pointer _ _ hi lo); [by apply lookup_at|lia| | |].
  - replace (size m + 1) with (size (m ++ [hi])) by (rewrite length_app /=; lia). rewrite (cons_middle hi m [lo]) app_assoc. apply lookup_at.
  - rewrite length_app. lia.
  - rewrite Htgt. apply name_at_grows; [lia|done|done].
Qed.

(** The length byte and the label. *)
Lemma label_at (m l m' : list Z) : (m ++ (size l :: l) ++ m') !! Z.to_nat (size m) = Some (size l) ∧ slice (m ++ (size l :: l) ++ m') (size m + 1) (size l) = l.
Proof.
  split; [apply lookup_at|]. rewrite /slice Nat2Z.id. replace (Z.to_nat (size m + 1)) with (length (m ++ [size l])) by (rewrite length_app /=; lia).
  change ((size l :: l) ++ m') with ([size l] ++ (l ++ m')). rewrite (app_assoc m [size l]) drop_app_length. apply take_app_length.
Qed.

Lemma wrote_label name ls l m m' table1 table table' :
  name_labels name (l :: ls) -> 0 < size l < 64 -> Forall is_byte_val l -> size m < 2 ^ 14 -> adds table table1 name (size m) ->
  wrote (m ++ size l :: l) m' ls table1 table' -> wrote m ((size l :: l) ++ m') (l :: ls) table table'.
Proof.
  intros Hn Hl Hb Hm [Ha0 Ha] [H1 (p & Hat & Hp) H0 Ht]. rewrite -app_assoc in Hat, Hp, Ht |- *.
  assert (Hname : name_at (m ++ (size l :: l) ++ m') (size m) (l :: ls) p (size (m ++ (size l :: l) ++ m'))).
  { destruct (label_at m l m') as [Hlk Hsl]. apply name_label; [done|done|done|].
    replace (size m + 1 + size l) with (size (m ++ size l :: l)) by (rewrite length_app /=; lia). done. }
  split; [|by exists p|by auto|].
  - apply Forall_app. split; [|done]. constructor; [rewrite /is_byte_val; lia|done].
  - intros v pos Hv. destruct (Ht v pos Hv) as [Hv1|Hok]; [|by right]. destruct (Ha v pos Hv1) as [|[Hvn ->]]; [by left|right].
    rewrite Hvn. split; [lia|]. intros ls' Hls'. rewrite (name_labels_det _ _ _ Hls' Hn). by exists p, (size (m ++ (size l :: l) ++ m')).
Qed.

Lemma wrote_root m table table' : size m < 2 ^ 14 -> adds table table' [] (size m) -> wrote m [0] [] table table'.
Proof.
  intros Hm [Ha0 Ha]. assert (Hat : name_at (m ++ [0]) (size m) [] 0 (size (m ++ [0]))).
  { rewrite length_app Nat2Z.inj_add. apply name_root, lookup_at. }
  split; [by repeat constructor|exists 0%nat; by split; [|lia]|done|].
  intros v pos Hv. destruct (Ha v pos Hv) as [|[Hvn ->]]; [by left|right]. rewrite Hvn. split; [lia|].
  intros ls Hls. rewrite (name_labels_det _ _ _ Hls labels_root). exists 0%nat, (size (m ++ [0])). by split; [|lia].
Qed.

(** The end of a message after the last label: with no space for the terminator
    the byte behind the array is written. *)
Lemma eruns_last_label pre m l rest table e (Q : Z * draft -> evenv -> Prop) :
  is_text l -> l ≠ [] -> (size rest < 1 -> bad OutOfBounds) ->
  (1 <= size rest -> Q (size pre + size ((m ++ size l :: l) ++ [0]), draft_on pre ((m ++ size l :: l) ++ [0]) (drop 1 rest) table) e) ->
  eruns (labels_end (draft_on pre (m ++ size l :: l) rest table)) e Q.
Proof.
  intros Ht Hl Hb HQ. destruct l as [|x l _] using rev_ind; [done|]. set (n := size (l ++ [x])) in *.
  assert (Heq : m ++ n :: l ++ [x] = (m ++ n :: l) ++ [x]) by (by rewrite -app_assoc). rewrite Heq in HQ |- *.
  apply Forall_app in Ht as [_ Hx]. inversion Hx as [|? ? Hx0 _]; subst. rewrite /is_char in Hx0.
  apply eruns_labels_end; [lia|done|done].
Qed.

Lemma name_labels_text l r : is_text (l ++ 46 :: r) -> is_text l ∧ is_text r.
Proof. rewrite Forall_app Forall_cons. tauto. Qed.

(** What was written is a name, whatever the bytes in front of it are. *)
Definition wrote_on (n : nat) (m m' : list Z) (name : list Z) (ls : list (list Z)) (table table' : option dnslabel_table) : Prop :=
  ∀ b, length b = n -> Forall is_byte_val (b ++ m) -> table_upto (length name) (b ++ m) table -> wrote (b ++ m) m' ls table table'.

Lemma wrote_on_label n m m' l r ls table1 table table' :
  name_labels (l ++ 46 :: r) (l :: ls) -> 0 < size l < 64 -> Forall is_byte_val l -> Z.of_nat n + size m < 2 ^ 14 ->
  adds table table1 (l ++ 46 :: r) (Z.of_nat n + size m) ->
  wrote_on n (m ++ size l :: l) m' r ls table1 table' -> wrote_on n m ((size l :: l) ++ m') (l ++ 46 :: r) (l :: ls) table table'.
Proof.
  intros Hn Hl Hb Hlt Ha Hw b Hbl Hm Ht. assert (Hsz : Z.of_nat n + size m = size (b ++ m)) by (rewrite length_app; lia).
  rewrite Hsz in Hlt, Ha. eapply wrote_label; [done|done|done|done|done|]. rewrite -app_assoc. apply Hw; [done| |].
  - rewrite app_assoc Forall_app. split; [done|]. constructor; [rewrite /is_byte_val; lia|done].
  - rewrite app_assoc. apply table_upto_grows; [done|]. intros v pos Hv Hle. assert (Hlen : length (l ++ 46 :: r) = (length l + S (length r))%nat) by (by rewrite length_app).
    destruct (proj2 Ha v pos Hv) as [Hv1|[Hvn _]]; [apply Ht; [done|lia]|]. rewrite Hvn in Hle. lia.
Qed.

Lemma eruns_labels_loop e0 own name ls :
  name_labels name ls -> is_text name -> ∀ fuel pre m rest table e (Q : Z * draft -> evenv -> Prop),
  (length name < fuel)%nat -> size pre + size m + size rest <= 2 ^ 14 ->
  owned e0 (table_ids table ++ own) e ->
  (size rest < name_space name -> bad OutOfBounds) ->
  (∀ m' rest' table' e', size rest < name_space name -> size m' + size rest' = size rest -> owned e0 (table_ids table' ++ own) e' ->
     Q (-2, draft_on pre (m ++ m') rest' table') e') ->
  (∀ m' rest' table' e', 1 <= size m' <= name_space name -> size m' + size rest' = size rest -> wrote_on (length pre) m m' name ls table table' ->
     owned e0 (table_ids table' ++ own) e' -> Q (size pre + size (m ++ m'), draft_on pre (m ++ m') rest' table') e') ->
  eruns (labels_loop fuel name (draft_on pre m rest table)) e Q.
Proof.
  intros Hn. pose proof Hn as Hn'. rewrite /name_space. induction Hn' as [|l Hl Hd|l r ls Hl Hd Hr IH]; intros Ht fuel pre m rest table e Q Hf Hsz Ho Hb Hno HQ.
  all: destruct fuel as [|fuel]; [lia|].
  all: assert (Hhit : ∀ v pos, (v, pos) ∈ default [] table -> s_text v = _ -> 2 <= size rest ->
         Q (size pre + size (m ++ be16 (u16 (Z.lor pos 0xc000))), draft_on pre (m ++ be16 (u16 (Z.lor pos 0xc000))) (drop 2 rest) table) e) by (intros v pos Hv Hvn H2;
       apply HQ; [cbn; lia|rewrite length_drop /=; lia|intros b _ Hbm Htab; by eapply wrote_pointer|done]).
  all: assert (Hfull : size rest < _ -> Q (-2, draft_on pre m rest table) e) by (intros Hlt; rewrite -(app_nil_r m); apply Hno; [exact Hlt|done|done]).
  - eapply (eruns_turn e0 own _ [] [] None); [done|done|done|done|done|by intros H; apply Hfull; cbn in H |- *; lia|].
    intros table' e' Hfit Ha Ho'. cbn in Hfit. cbn zeta. apply eruns_labels_end; [|done|done]. intros _. apply HQ; [cbn; lia|rewrite length_drop /=; lia| |done].
    intros b Hbl _ _. assert (Hsz' : size pre + size m = size (b ++ m)) by (rewrite length_app; lia). rewrite Hsz' in Ha. by apply wrote_root; [lia|].
  - eapply (eruns_turn e0 own _ l l None); [by apply strsep_all|lia|done|done|done|by intros H; apply Hfull; lia|].
    intros table' e' Hfit Ha Ho'. cbn zeta. apply eruns_last_label; [done|intros ->; cbn in Hl; lia| |]; rewrite length_drop; [intros H1; apply Hb; lia|].
    intros H1. rewrite -app_assoc. apply HQ; [rewrite length_app /=; lia|rewrite length_app !length_drop /=; lia| |done].
    intros b Hbl _ _. assert (Hsz' : size pre + size m = size (b ++ m)) by (rewrite length_app; lia). rewrite Hsz' in Ha.
    eapply wrote_label; [done|done|by apply is_text_bytes|lia|done|]. apply wrote_root; [rewrite length_app /=; lia|apply adds_same].
  - apply name_labels_text in Ht as Ht'. destruct Ht' as [Htl Htr]. assert (Hlen : length (l ++ 46 :: r) = (length l + S (length r))%nat) by (by rewrite length_app).
    eapply (eruns_turn e0 own _ _ l (Some r)); [by apply strsep_first|lia|done|done|done|by intros H; apply Hfull; lia|].
    intros table' e' Hfit Ha Ho'. cbn zeta. apply IH; try done; [lia|rewrite length_app length_drop /=; lia| | |].
    + rewrite length_drop. intros H. apply Hb. lia.
    + intros m' rest' table'' e'' H1 H2 Ho''. rewrite -app_assoc. rewrite length_drop in H1, H2. apply Hno; [lia| |done]. rewrite length_app /=. lia.
    + intros m' rest' table'' e'' H1 H2 Hw Ho''. rewrite length_drop in H2. rewrite -app_assoc. apply HQ; [rewrite length_app /=; lia|rewrite length_app /=; lia| |done].
      by eapply wrote_on_label; [|done|apply is_text_bytes|lia| |].
Qed.

(** The caller's index stays where it was if there is no space. *)
Lemma gruns_add_name_on e0 own name ls pre rest table e (Q : option Z -> draft -> evenv -> Prop) :
  name_labels name ls -> is_text name -> size name <= 255 -> size pre + size rest <= 2 ^ 14 ->
  owned e0 (table_ids table ++ own) e ->
  (size rest < name_space name -> bad OutOfBounds) ->
  (∀ rest' table' e', size rest < name_space name -> size rest' = size rest -> owned e0 (table_ids table' ++ own) e' ->
     Q (Some (-2)) (draft_on pre [] rest' table') e') ->
  (∀ m' rest' table' e', 1 <= size m' <= name_space name -> size m' + size rest' = size rest -> wrote_on (length pre) [] m' name ls table table' ->
     owned e0 (table_ids table' ++ own) e' -> Q (Some (size pre + size m')) (draft_on pre m' rest' table') e') ->
  gruns (add_name name) (draft_on pre [] rest table) e Q.
Proof.
  intros Hn Ht H255 Hsz Ho Hb Hno HQ. rewrite /EvErr.gruns /add_name /dnsname_to_labels (proj2 (Z.ltb_ge 255 _)) //.
  apply eruns_bind, eruns_bind, (eruns_labels_loop e0 own name ls); [done|done|lia|cbn; lia|done|done| |].
  - intros m' rest' table' e' Hlt Hl Ho'. cbn iota. apply eruns_ret. change (-2 <? 0) with true.
    assert (Hd : Draft (d_buf (draft_on pre ([] ++ m') rest' table')) (d_pos (draft_on pre [] rest table)) (d_table (draft_on pre ([] ++ m') rest' table'))
      = draft_on pre [] ((Some <$> m') ++ rest') table') by (by rewrite /draft_on).
    rewrite Hd. apply eruns_ret, Hno; [done| |done]. rewrite length_app length_fmap. lia.
  - intros m' rest' table' e' H1 H2 Hw Ho'. apply eruns_ret. rewrite (proj2 (Z.ltb_ge _ 0)); [|lia]. by apply eruns_ret, HQ.
Qed.

Lemma gruns_add_name e0 own name ls m rest table e (Q : option Z -> draft -> evenv -> Prop) :
  name_labels name ls -> is_text name -> size name <= 255 -> Forall is_byte_val m -> size m + size rest <= 2 ^ 14 -> table_ok m table ->
  owned e0 (table_ids table ++ own) e ->
  (size rest < name_space name -> bad OutOfBounds) ->
  (∀ rest' table' e', size rest < name_space name -> size rest' = size rest -> owned e0 (table_ids table' ++ own) e' ->
     Q (Some (-2)) (draft_of m rest' table') e') ->
  (∀ m' rest' table' e', 1 <= size m' <= name_space name -> size m' + size rest' = size rest -> wrote m m' ls table table' ->
     table_ok (m ++ m') table' -> owned e0 (table_ids table' ++ own) e' -> Q (Some (size (m ++ m'))) (draft_of (m ++ m') rest' table') e') ->
  gruns (add_name name) (draft_of m rest table) e Q.
Proof.
  intros Hn Ht H255 Hm Hsz Htab Ho Hb Hno HQ. rewrite -{1}(app_nil_r m) -draft_of_on.
  apply (gruns_add_name_on e0 own name ls); [done|done|done|by rewrite length_fmap|done|done| |].
  - intros rest' table' e' H1 H2 Ho'. rewrite draft_of_on app_nil_r. by apply Hno.
  - intros m' rest' table' e' H1 H2 Hw Ho'. rewrite draft_of_on. specialize (Hw m). rewrite app_nil_r length_fmap in Hw.
    specialize (Hw eq_refl Hm (fun v pos Hv _ => Htab v pos Hv)).
    replace (size (Some <$> m) + size m') with (size (m ++ m')) by (rewrite length_app length_fmap; lia). apply HQ; [done|done|done| |done].
    intros v pos Hv. destruct (wr_table _ _ _ _ _ Hw v pos Hv) as [Hv1|]; [|done]. by apply entry_ok_grows, Htab.
Qed.

Lemma gruns_APPEND16 x m rest table e (Q : option unit -> draft -> evenv -> Prop) :
  (2 <= size rest -> Q (Some tt) (draft_of (m ++ be16 (u16 x)) (drop 2 rest) table) e) ->
  (size rest < 2 -> Q None (draft_of m rest table) e) ->
  gruns (APPEND16 x) (draft_of m rest table) e Q.
Proof. intros H1 H2. by apply gruns_APPEND. Qed.

End writing.

Lemma be16_bytes x : Forall is_byte_val (be16 x).
Proof. repeat constructor; apply u8_range. Qed.

Lemma be32_bytes x : Forall is_byte_val (be32 x).
Proof. repeat constructor; apply u8_range. Qed.

(** ** Questions *)

Definition header (trans_id flags questions answers authority additional : Z) : list Z :=
  be16 (u16 trans_id) ++ be16 (u16 flags) ++ be16 (u16 questions) ++ be16 (u16 answers) ++ be16 (u16 authority) ++ be16 (u16 additional).

Lemma header_bytes a b c d e f : Forall is_byte_val (header a b c d e f).
Proof. rewrite /header !Forall_app. split_and!; apply be16_bytes. Qed.

(** A buffer of the size that evdns_request_len tells is long enough. *)
Lemma runs_data_build name ls trans_id type class buf e (Q : Z * list mbyte -> evenv -> Prop) :
  name_labels name ls -> is_text name -> size name <= 255 -> evdns_request_len (size name) <= size buf <= 2 ^ 14 ->
  (∀ m' rest e', wrote (header trans_id 0x0100 1 0 0 0) m' ls None None -> size m' <= name_space name -> owned e [] e' ->
     let m := header trans_id 0x0100 1 0 0 0 ++ m' ++ be16 (u16 type) ++ be16 (u16 class) in
     size m + size rest = size buf -> Q (size m, (Some <$> m) ++ rest) e') ->
  runs (evdns_request_data_build name trans_id type class buf) e Q.
Proof.
  rewrite /evdns_request_len. intros Hn Ht H255 Hbuf HQ. apply (runs_eruns_none (fun _ => False)); [by intros ? []|]. rewrite /evdns_request_data_build.
  apply eruns_bind, gruns_eruns. change (Draft buf 0 None) with (draft_of [] buf None).
  do 6 (apply gruns_bind, gruns_APPEND16; rewrite ?length_drop; [|lia]; intros _). rewrite !drop_drop -!app_assoc app_nil_l.
  change (be16 (u16 trans_id) ++ _) with (header trans_id 0x0100 1 0 0 0). set (hdr := header _ _ _ _ _ _) in HQ |- *.
  assert (Hhdr : size hdr = 12) by done. assert (Hb : Forall is_byte_val hdr) by apply header_bytes. clearbody hdr.
  cbn [Nat.add]. assert (Hr : size (drop 12 buf) = size buf - 12) by (rewrite length_drop; lia). set (rest := drop 12 buf) in *. clearbody rest.
  apply gruns_bind, (gruns_add_name _ e [] name ls); [done|done|done|done|lia|by intros v pos Hv; apply not_elem_of_nil in Hv|apply owned_nothing| | |]; rewrite /name_space; [lia|lia|].
  intros m' rest' table' e' H1 H2 Hw _ Ho. rewrite (proj2 (Z.ltb_ge _ 0)); [|lia].
  assert (table' = None) as -> by by eapply wr_none.
  do 2 (apply gruns_bind, gruns_APPEND16; rewrite ?length_drop; [|lia]; intros _). rewrite -!app_assoc drop_drop.
  apply gruns_look, eruns_ret. apply (HQ m' (drop 4 rest')); [done|rewrite /name_space; lia|done|]. cbn zeta.
  rewrite !length_app length_drop. cbn [length be16]. lia.
Qed.

(** ** What a message has at an index *)

(** A name that fits an array of [n] bytes, and the index behind it. *)
Definition readable (m : list Z) (n j : Z) (t : list Z) (k : Z) : Prop :=
  ∃ ls p, name_at m j ls p k ∧ Z.of_nat p <= size m ∧ t = dotted ls ∧ size t < n.

Lemma readable_det m n n' j t k t' k' : readable m n j t k -> readable m n' j t' k' -> t = t' ∧ k = k'.
Proof. intros (ls & p & H & _ & -> & _) (ls' & p' & H' & _ & -> & _). by destruct (name_at_det _ _ _ _ _ _ _ _ H H') as (-> & _ & ->). Qed.

Lemma name_at_end m j ls p k : 0 <= j -> name_at m j ls p k -> j < k <= size m.
Proof.
  intros Hj. induction 1 as [j H0|j l ls p k H0 Hl Hs Hn IH|j hi lo ls p k H0 Hh H1 Ht Hn IH].
  - apply lookup_lt_Some in H0. lia.
  - specialize (IH ltac:(lia)). lia.
  - apply lookup_lt_Some in H1. lia.
Qed.

Lemma readable_end m n j t k : 0 <= j -> readable m n j t k -> j < k <= size m.
Proof. intros Hj (ls & p & H & _). by eapply name_at_end. Qed.

(** The questions: names, types and classes, and the index behind them. *)
Inductive questions_at (m : list Z) : nat -> Z -> list (list Z * Z * Z) -> Z -> Prop :=
| no_questions j : questions_at m 0 j [] j
| more_questions n j t j' qs k :
    readable m 256 j t j' -> j' + 4 <= size m -> questions_at m n (j' + 4) qs k ->
    questions_at m (S n) j ((cut0 t, word16 m j', word16 m (j' + 2)) :: qs) k.

Definition question_text (q : evdns_server_question) : list Z * Z * Z := (q_name q, q_type q, q_class q).

(** ** Steps of a reader *)

Section reading.
Context (bad : fault -> Prop) (m : list Z) (rest : list mbyte) (Hm : Forall is_byte_val m) (Hbad : size rest < 63 -> bad OutOfBounds) {St : Type}.
Abbreviation packet := ((Some <$> m) ++ rest).
Abbreviation eruns := (eruns bad).
Abbreviation gruns := (gruns bad).

Lemma gruns_GET16 j (u : St) e (Q : option (Z * Z) -> St -> evenv -> Prop) :
  0 <= j -> (j + 2 <= size m -> Q (Some (word16 m j, j + 2)) u e) -> (size m < j + 2 -> Q None u e) ->
  gruns (parsed (GET16 packet (size m) j)) u e Q.
Proof.
  intros Hj Hs Hn. rewrite /EvErr.gruns /EvErr.eruns /parsed /mbind /E_bind GET16_eq //. by destruct (Z.leb_spec (j + 2) (size m)); [apply Hs|apply Hn].
Qed.

Lemma gruns_GET32 j (u : St) e (Q : option (Z * Z) -> St -> evenv -> Prop) :
  0 <= j -> (j + 4 <= size m -> Q (Some (word32 m j, j + 4)) u e) -> (size m < j + 4 -> Q None u e) ->
  gruns (parsed (GET32 packet (size m) j)) u e Q.
Proof.
  intros Hj Hs Hn. rewrite /EvErr.gruns /EvErr.eruns /parsed /mbind /E_bind GET32_eq //. by destruct (Z.leb_spec (j + 4) (size m)); [apply Hs|apply Hn].
Qed.

Lemma gruns_name_parse j n (u : St) e (Q : option (list mbyte * Z) -> St -> evenv -> Prop) :
  0 <= j -> (∀ t k, readable m n j t k -> Q (Some (Some <$> t, k)) u e) -> ((∀ t k, ¬ readable m n j t k) -> Q None u e) ->
  gruns (parsed (name_parse packet (size m) j n)) u e Q.
Proof.
  intros Hj Hs Hn. pose proof (name_parse_parses m rest n Hm j e Hj) as H. rewrite /EvErr.gruns /EvErr.eruns /parsed /mbind /E_bind.
  destruct (name_parse packet (size m) j n e) as [f|[[[cp k]|] e']]; cbn in H.
  - destruct H as [-> H]. by apply Hbad.
  - destruct H as (-> & ls & p & k0 & Hat & Hp & Hl & -> & ->). apply Hs. by exists ls, p.
  - destruct H as [-> H]. apply Hn. intros t k (ls & p & Hat & Hp & -> & Hl). specialize (H ls p k Hat Hp). rewrite /dotted in Hl. lia.
Qed.

Lemma gruns_c_str t (u : St) e (Q : option (list Z) -> St -> evenv -> Prop) : Q (Some (cut0 t)) u e -> gruns (here (c_str (Some <$> t))) u e Q.
Proof. intros HQ. by apply gruns_here; rewrite c_str_text. Qed.

Lemma gruns_malloc e0 own (u : St) e (Q : option (option id) -> St -> evenv -> Prop) :
  owned e0 own e -> (∀ i e', owned e0 (i :: own) e' -> Q (Some (Some i)) u e') -> (∀ e', ev_oom e0 ≠ [] -> owned e0 own e' -> Q (Some None) u e') ->
  gruns (here mm_malloc) u e Q.
Proof. intros Ho Hs Hn. by apply gruns_here, runs_eruns, (runs_malloc e0 own). Qed.

End reading.

(** ** request_parse *)

Definition item_ids (it : server_reply_item) : list id := s_id (it_name it) :: str_ids (it_data it) ++ [it_id it].
Definition items_ids (items : list server_reply_item) : list id := concat (item_ids <$> items).

Definition questions_ids (r : server_request) : list id :=
  match sr_array r with Some a => (q_id <$> sr_questions r) ++ [a] | None => [] end.

Definition request_ids (r : server_request) : list id :=
  questions_ids r ++ items_ids (sr_answer r ++ sr_authority r ++ sr_additional r)
    ++ match sr_response r with Some (i, _) => [i] | None => [] end ++ [sr_id r].

Lemma runs_free_questions e0 qs own e (Q : unit -> evenv -> Prop) :
  owned e0 ((q_id <$> qs) ++ own) e -> (∀ e', owned e0 own e' -> Q tt e') -> runs (free_questions qs) e Q.
Proof.
  revert e. induction qs as [|q qs IH]; intros e Ho HQ; [by apply runs_ret, HQ|]. eapply runs_bind, runs_free; [exact Ho|]. intros e' Ho'. by apply IH.
Qed.

(** A request under construction. *)
Definition new_request (i : id) (trans_id flags : Z) (a : option id) (qs : list evdns_server_question) : server_request :=
  ServerRequest i trans_id flags a qs 0 0 0 [] [] [] None.

Lemma runs_request_discard e0 own i tid fl a qs e (Q : unit -> evenv -> Prop) :
  owned e0 (request_ids (new_request i tid fl a qs) ++ own) e -> (∀ e', owned e0 own e' -> Q tt e') ->
  runs (request_discard (new_request i tid fl a qs)) e Q.
Proof.
  intros Ho HQ. rewrite /request_discard. cbn [sr_array new_request sr_questions sr_id]. apply runs_bind.
  rewrite /request_ids /= in Ho. destruct a as [a|]; cbn in Ho.
  - rewrite -!app_assoc in Ho. eapply runs_bind, runs_free_questions; [exact Ho|]. intros e1 Ho1. eapply runs_free; [exact Ho1|]. intros e2 Ho2.
    by eapply runs_free.
  - apply runs_ret. by eapply runs_free.
Qed.

Section request.
Context (bad : fault -> Prop) (m : list Z) (rest : list mbyte) (Hm : Forall is_byte_val m) (Hbad : size rest < 63 -> bad OutOfBounds).
Abbreviation packet := ((Some <$> m) ++ rest).

Lemma gruns_request_questions e0 own i tid fl a n : ∀ j qs e (Q : option unit -> server_request -> evenv -> Prop),
  0 <= j -> owned e0 (request_ids (new_request i tid fl (Some a) qs) ++ own) e ->
  (∀ qs' k e', questions_at m n j (question_text <$> qs') k ->
     owned e0 (request_ids (new_request i tid fl (Some a) (qs ++ qs')) ++ own) e' -> Q (Some tt) (new_request i tid fl (Some a) (qs ++ qs')) e') ->
  (∀ qs' e', ev_oom e0 ≠ [] ∨ (∀ ts k, ¬ questions_at m n j ts k) ->
     owned e0 (request_ids (new_request i tid fl (Some a) qs') ++ own) e' -> Q None (new_request i tid fl (Some a) qs') e') ->
  gruns bad (request_questions packet (size m) n j) (new_request i tid fl (Some a) qs) e Q.
Proof.
  induction n as [|n IH]; intros j qs e Q Hj Ho Hs Hn; cbn [request_questions].
  { apply gruns_ret. rewrite -(app_nil_r qs). apply (Hs [] j); [constructor|by rewrite app_nil_r]. }
  assert (Hnone : ∀ e', owned e0 (request_ids (new_request i tid fl (Some a) qs) ++ own) e' -> (∀ t k, readable m 256 j t k -> k + 4 <= size m -> ∀ ts k', ¬ questions_at m n (k + 4) ts k') ->
    Q None (new_request i tid fl (Some a) qs) e').
  { intros e' Ho' Hno. apply Hn; [|done]. right. intros ts k H. inversion H as [|? ? t j' qs' ? Hr Hl Hq]; subst. by eapply Hno. }
  apply gruns_bind, gruns_name_parse; [done|done|done| |intros Hno; apply Hnone; [done|intros t k Hr; by destruct (Hno t k Hr)]].
  intros t k Hr. pose proof (readable_end _ _ _ _ _ Hj Hr) as Hk.
  assert (Hshort : size m < k + 4 -> Q None (new_request i tid fl (Some a) qs) e).
  { intros Hlt. apply Hnone; [done|]. intros t' k' Hr' Hle. destruct (readable_det _ _ _ _ _ _ _ _ Hr Hr') as [_ <-]. lia. }
  apply gruns_bind, gruns_GET16; [lia| |intros Hlt; apply Hshort; lia]. intros _.
  apply gruns_bind, gruns_GET16; [lia| |intros Hlt; apply Hshort; lia]. intros Hfit.
  apply gruns_bind, gruns_c_str, gruns_bind, (gruns_malloc _ e0 _ _ _ _ Ho); [|intros e' Ho' Ho2; apply gruns_err, Hn; [by left|done]].
  intros qi e' Ho'. apply gruns_bind, gruns_change. replace (k + 2 + 2) with (k + 4) in * by lia.
  set (q := Question qi _ _ _). change (set_questions _ _) with (new_request i tid fl (Some a) (qs ++ [q])). apply IH; [lia| | |].
  - eapply owned_perm; [|exact Ho']. rewrite /request_ids /questions_ids /= fmap_app -!app_assoc /=. apply Permutation_middle.
  - intros qs' k' e2 Hq Ho2. rewrite -app_assoc in Ho2 |- *. apply (Hs (q :: qs') k'); [|done]. by econstructor; [|lia|].
  - intros qs' e2 [Hne|Hno] Ho2; apply Hn; try done; [by left|right]. intros ts k' H. inversion H as [|? ? t' j' qs2 ? Hr' Hl Hq]; subst.
    destruct (readable_det _ _ _ _ _ _ _ _ Hr Hr') as [_ <-]. by eapply Hno.
Qed.

End request.

(** The name that a message has is the one that is found. *)
Lemma name_parse_readable m rest n j t k e :
  Forall is_byte_val m -> 63 <= size rest -> 0 <= j -> readable m n j t k ->
  name_parse ((Some <$> m) ++ rest) (size m) j n e = inr (Some (Some <$> t, k), e).
Proof.
  intros Hm H63 Hj (ls & p & Hat & Hp & -> & Hl). pose proof (name_parse_parses m rest n Hm j e Hj) as H.
  destruct (name_parse _ _ _ _ e) as [f|[[[cp k']|] e']]; cbn in H.
  - destruct H. lia.
  - destruct H as (-> & ls' & p' & k0 & Hat' & _ & _ & -> & ->). by destruct (name_at_det _ _ _ _ _ _ _ _ Hat Hat') as (<- & _ & <-).
  - destruct H as [_ H]. specialize (H ls p k Hat Hp). rewrite /dotted in Hl. lia.
Qed.

(** Six numbers. *)
Lemma P_bind_eq {A B} (x : P A) (k : A -> P B) e r : x e = inr (r, e) -> mbind (M:=P) k x e = match r with Some a => k a e | None => inr (None, e) end.
Proof. intros H. rewrite /mbind /P_bind /mbind /E_bind H. by destruct r. Qed.

Lemma P_GET16 {B} m rest j (k : Z * Z -> P B) e :
  0 <= j ->
  mbind (M:=P) k (GET16 ((Some <$> m) ++ rest) (size m) j) e = if j + 2 <=? size m then k (word16 m j, j + 2) e else inr (None, e).
Proof. intros Hj. rewrite (P_bind_eq _ _ _ _ (GET16_eq j e Hj)). by destruct (_ <=? _). Qed.

Lemma request_header_eq m rest e :
  request_header ((Some <$> m) ++ rest) (size m) e
    = inr (if 12 <=? size m then Some (word16 m 0, word16 m 2, word16 m 4, 12) else None, e).
Proof.
  rewrite /request_header P_GET16 //. destruct (Z.leb_spec (0 + 2) (size m)); [|by rewrite (proj2 (Z.leb_gt _ _)); [|lia]].
  do 5 (rewrite P_GET16; [|lia]; match goal with |- context [if ?a <=? ?b then _ else _] => destruct (Z.leb_spec a b); [|by rewrite (proj2 (Z.leb_gt _ _)); [|lia]] end).
  by rewrite (proj2 (Z.leb_le 12 _)); [|lia].
Qed.

(** The message is a request with these questions. *)
Definition request_of (m : list Z) (qs : list (list Z * Z * Z)) : Prop :=
  12 <= size m ∧ has_flag 0x8000 (word16 m 2) = false ∧ ∃ k, questions_at m (Z.to_nat (word16 m 4)) 12 qs k.

Lemma flags_kept x : has_flag 0x7800 (Z.land x 0x0110) = false.
Proof. by rewrite /has_flag -Z.land_assoc Z.land_0_r. Qed.

Lemma eruns_request_parse bad m rest e (Q : request_outcome -> evenv -> Prop) :
  Forall is_byte_val m -> (size rest < 63 -> bad OutOfBounds) ->
  (∀ i a qs e', request_of m (question_text <$> qs) ->
     let r := new_request i (word16 m 0) (Z.land (word16 m 2) 0x0110) (Some a) qs in
     owned e (request_ids r) e' -> Q (Callback r) e') ->
  (∀ e', ev_oom e ≠ [] ∨ (∀ qs, ¬ request_of m qs) -> owned e [] e' -> Q Ignored e') ->
  eruns bad (request_parse ((Some <$> m) ++ rest) (size m)) e Q.
Proof.
  intros Hm Hbad Hs Hn. assert (Hno : (∀ qs, ¬ request_of m qs) -> Q Ignored e) by (intros H; apply Hn; [by right|apply owned_nothing]).
  rewrite /request_parse. apply eruns_bind. rewrite {1}/eruns request_header_eq. destruct (Z.leb_spec 12 (size m)) as [H12|Hshort].
  2: { apply Hno. intros qs (H & _). lia. }
  destruct (has_flag 0x8000 (word16 m 2)) eqn:Hfl; [by apply Hno; intros qs (_ & H & _); rewrite Hfl in H|].
  apply eruns_bind, runs_eruns, (runs_malloc e []); [apply owned_nothing| |by intros e' Hne Ho; apply Hn; [left|]].
  intros i e1 Ho1. apply eruns_bind, gruns_eruns. change (ServerRequest i _ _ None [] 0 0 0 [] [] [] None) with (new_request i (word16 m 0) (Z.land (word16 m 2) 0x0110) None []).
  assert (Hdiscard : ∀ a qs e2, owned e (request_ids (new_request i (word16 m 0) (Z.land (word16 m 2) 0x0110) a qs) ++ []) e2 ->
    ev_oom e ≠ [] ∨ (∀ qs, ¬ request_of m qs) -> eruns bad (_ ← request_discard (new_request i (word16 m 0) (Z.land (word16 m 2) 0x0110) a qs); mret Ignored) e2 Q).
  { intros a qs e2 Ho2 Hwhy. apply eruns_bind, runs_eruns. eapply runs_request_discard; [exact Ho2|]. intros e3 Ho3. by apply Hn. }
  apply gruns_bind. eapply gruns_malloc; [exact Ho1| |].
  2: { intros e2 Hne Ho2. apply gruns_err, Hdiscard; [done|by left]. }
  intros a e2 Ho2. apply gruns_bind, gruns_change. change (set_array _ _) with (new_request i (word16 m 0) (Z.land (word16 m 2) 0x0110) (Some a) []).
  apply (gruns_request_questions bad m rest Hm Hbad e []); [done|done| |].
  - intros qs k e3 Hq Ho3. rewrite flags_kept. apply eruns_ret, Hs; [by split_and!; [| |exists k]|]. by rewrite app_nil_r in Ho3.
  - intros qs e3 Hwhy Ho3. apply Hdiscard; [done|]. destruct Hwhy as [|Hnq]; [by left|right]. intros ts (_ & _ & k & Hq). by eapply Hnq.
Qed.
