(* ===== verification/EvDnsWrite.v ===== *)
(** * The message of a reply: lemmas

    What the functions that write questions and records put into a message, as
    what can be read from it; what is released when a reply is kept, and the
    message that is sent when the records do not fit. *)

From Stdlib Require Import ssreflect.
From S2P Require Import Prelude CTypes HProp CMem CWp CLib EvBuffer EvBufSpec EvUtil EvErr EvUri EvUriSpec EvMem EvQuery EvDns EvDnsServer EvDnsClient EvDnsSpec EvDnsOps.
Set Warnings "-rewrite-rw".
Open Scope general_if_scope.
Open Scope Z_scope.

(** ** What can be read *)

Definition name_ok (s : list Z) : Prop := is_text s ∧ size s <= 255 ∧ ∃ ls, name_labels s ls.

Definition has_name (m : list Z) (j : Z) (s : list Z) (k : Z) : Prop :=
  ∃ ls p, name_labels s ls ∧ name_at m j ls p k ∧ Z.of_nat p <= size m.

(** The bytes of a record that is no name. *)
Definition data_bytes (it : server_reply_item) : list Z :=
  match it_data it with Some d => take (Z.to_nat (it_datalen it)) (s_text d) | None => [] end.

Record item_ok (it : server_reply_item) : Prop := {
  io_name : name_ok (s_text (it_name it));
  io_type : 0 <= it_type it < 2 ^ 16;
  io_class : 0 <= it_class it < 2 ^ 16;
  io_ttl : 0 <= it_ttl it < 2 ^ 32;
  io_data : if it_is_name it then ∃ d, it_data it = Some d ∧ name_ok (s_text d)
            else size (data_bytes it) = it_datalen it ∧ it_datalen it < 2 ^ 16 ∧ Forall is_byte_val (data_bytes it) }.

(** A record at [j], and the index behind it. *)
Definition record_at (m : list Z) (j : Z) (it : server_reply_item) (k : Z) : Prop :=
  ∃ j1, has_name m j (s_text (it_name it)) j1
    ∧ word16 m j1 = it_type it ∧ word16 m (j1 + 2) = it_class it ∧ word32 m (j1 + 4) = it_ttl it
    ∧ k = j1 + 10 + word16 m (j1 + 8) ∧ j1 + 10 <= k <= size m
    ∧ if it_is_name it then ∃ d, it_data it = Some d ∧ has_name m (j1 + 10) (s_text d) k
      else word16 m (j1 + 8) = it_datalen it ∧ slice m (j1 + 10) (it_datalen it) = data_bytes it.

(** The bytes that are always enough. *)
Definition record_space (it : server_reply_item) : Z :=
  name_space (s_text (it_name it)) + 10
    + (if it_is_name it then match it_data it with Some d => name_space (s_text d) | None => 0 end else it_datalen it).

(** ** Numbers in a message *)

Lemma word16_grows m m' j : 0 <= j -> j + 2 <= size m -> word16 (m ++ m') j = word16 m j.
Proof. intros Hj Hl. rewrite /word16. rewrite (slice_grows m m' (slice m j 2) j 2) //. rewrite /slice length_take length_drop. lia. Qed.

Lemma word32_grows m m' j : 0 <= j -> j + 4 <= size m -> word32 (m ++ m') j = word32 m j.
Proof. intros Hj Hl. by rewrite /word32 !word16_grows; [|lia..]. Qed.

Lemma word16_at m x m' : 0 <= x < 2 ^ 16 -> word16 (m ++ be16 x ++ m') (size m) = x.
Proof. intros Hx. rewrite /word16 /slice Nat2Z.id drop_app_length. by apply of_be_be16. Qed.

Lemma word16_range m j : Forall is_byte_val m -> 0 <= j -> j + 2 <= size m -> 0 <= word16 m j < 2 ^ 16.
Proof.
  intros Hm Hj Hl. destruct (lookup_message (m := m) j ltac:(lia)) as [a Ha]. destruct (lookup_message (m := m) (j + 1) ltac:(lia)) as [b Hb].
  rewrite /word16 (slice_2 (m := m) j a b) // of_be_2. rewrite Forall_lookup in Hm. pose proof (Hm _ _ Ha) as H1. pose proof (Hm _ _ Hb) as H2.
  rewrite /is_byte_val in H1 H2. lia.
Qed.

Lemma be32_split x : be32 x = be16 (Z.shiftr x 16) ++ be16 x.
Proof. by rewrite /be32 /be16 /= Z.shiftr_shiftr. Qed.

Lemma word32_at m x m' : 0 <= x < 2 ^ 32 -> word32 (m ++ be32 x ++ m') (size m) = x.
Proof.
  intros Hx. rewrite /word32 be32_split -app_assoc. rewrite word16_at; [|rewrite Z.shiftr_div_pow2; [|done]; Z.to_euclidean_division_equations; lia].
  replace (size m + 2) with (size (m ++ be16 (Z.shiftr x 16))) by (rewrite length_app /=; lia). rewrite app_assoc.
  assert (Hb : be16 x = be16 (x mod 2 ^ 16)).
  { rewrite /be16 /u8 !Z.shiftr_div_pow2; [|lia..]. f_equal; [|f_equal]; Z.to_euclidean_division_equations; lia. }
  rewrite Hb word16_at; [|by apply Z.mod_pos_bound]. rewrite Z.shiftr_div_pow2; [|done]. Z.to_euclidean_division_equations; lia.
Qed.

Lemma has_name_grows m m' j s k : 0 <= j -> Forall is_byte_val m -> has_name m j s k -> has_name (m ++ m') j s k.
Proof.
  intros Hj Hm (ls & p & Hl & Hat & Hp). exists ls, p. split_and!; [done|by apply name_at_grows|rewrite length_app; lia].
Qed.

Lemma has_name_end m j s k : 0 <= j -> has_name m j s k -> j < k <= size m.
Proof. intros Hj (ls & p & _ & Hat & _). by eapply name_at_end. Qed.

Lemma record_at_grows m m' j it k : 0 <= j -> Forall is_byte_val m -> record_at m j it k -> record_at (m ++ m') j it k.
Proof.
  intros Hj Hm (j1 & Hn & Ht & Hc & Hl & Hk & Hle & Hd). pose proof (has_name_end _ _ _ _ Hj Hn) as Hj1.
  exists j1. rewrite !word16_grows; [|lia..]. rewrite word32_grows; [|lia..]. split_and!; try done; [by apply has_name_grows|lia|rewrite length_app; lia|].
  destruct (it_is_name it).
  - destruct Hd as (d & Hd & Hdn). exists d. split; [done|]. apply has_name_grows; [lia|done|done].
  - destruct Hd as [Hd1 Hd2]. split; [done|]. apply slice_grows; [lia|done|]. rewrite -Hd2 /slice length_take length_drop. lia.
Qed.

(** ** Questions and records *)

Inductive queries_at (m : list Z) : Z -> list evdns_server_question -> Z -> Prop :=
| no_queries j : queries_at m j [] j
| more_queries j q qs j1 k :
    has_name m j (q_name q) j1 -> j1 + 4 <= size m -> word16 m j1 = q_type q -> word16 m (j1 + 2) = q_class q -> queries_at m (j1 + 4) qs k ->
    queries_at m j (q :: qs) k.

Inductive records_at (m : list Z) : Z -> list server_reply_item -> Z -> Prop :=
| no_records j : records_at m j [] j
| more_records j it its j1 k : record_at m j it j1 -> records_at m j1 its k -> records_at m j (it :: its) k.

(** The beginning of a message that does not fit. *)
Definition starts_with (m : list Z) (n : Z) (d : draft) : Prop := ∃ m' rest, d_buf d = (Some <$> m ++ m') ++ rest ∧ size (m ++ m') + size rest = n.

Lemma starts_with_app m m' n d : starts_with (m ++ m') n d -> starts_with m n d.
Proof. intros (x & rest & Hd & Hn). exists (m' ++ x), rest. by rewrite app_assoc. Qed.

Lemma starts_with_draft m rest table n : size m + size rest = n -> starts_with m n (draft_of m rest table).
Proof. intros Hn. exists [], rest. by rewrite app_nil_r. Qed.

(** A name behind the end of the array. *)
Lemma name_over_end bad name ls d e (Q : option Z -> draft -> evenv -> Prop) :
  name_labels name ls -> size name <= 255 -> size (d_buf d) < d_pos d -> Q (Some (-2)) d e -> gruns bad (add_name name) d e Q.
Proof.
  intros Hn H255 Hd HQ. rewrite /gruns /add_name /dnsname_to_labels (proj2 (Z.ltb_ge 255 _)) //.
  assert (Hloop : labels_loop (S (length name)) name d e = inr ((-2, d), e)).
  { cbn [labels_loop]. destruct (0 <=? _).
    - rewrite /mbind /E_bind /APPEND16 /APPEND. rewrite (proj2 (Z.ltb_lt (size (d_buf d)) _)); [done|cbn; lia].
    - pose proof (name_labels_strsep _ _ Hn) as Hs. destruct (strsep 46 name) as [l r] eqn:Heq.
      assert (Hl : size l < 64).
      { destruct Hn as [|l' Hl Hdot|l' r' ls Hl Hdot Hr]; [by injection Heq as <- _| |].
        - rewrite strsep_all // in Heq. injection Heq as <- _. lia.
        - rewrite strsep_first // in Heq. injection Heq as <- _. lia. }
      rewrite (proj2 (Z.ltb_ge 63 _)); [|lia]. by rewrite (proj2 (Z.ltb_lt (size (d_buf d)) _)); [|lia]. }
  rewrite /eruns /mbind /E_bind Hloop. cbn. by destruct d.
Qed.

(** Two bytes that were left out. *)
Section gap.
Context (m m' : list Z) (g rest : list mbyte) (table : option dnslabel_table) (Hg : length g = 2%nat).
Abbreviation gapped := (draft_on ((Some <$> m) ++ g) m' rest table).

Lemma gap_size : d_pos gapped - (size m + 2) = size m'.
Proof. rewrite /draft_on /= length_app length_fmap Hg. lia. Qed.

Lemma gap_filled x : put_bytes_at (d_buf gapped) (size m) (Some <$> be16 x) = mret ((Some <$> (m ++ be16 x ++ m')) ++ rest).
Proof.
  rewrite /put_bytes_at /in_range draft_length length_fmap (proj2 (Z.leb_le 0 _)); [|lia]. rewrite (proj2 (Z.leb_le 0 _)); [|lia].
  rewrite (proj2 (Z.leb_le _ _)); [|rewrite length_app length_fmap Hg /=; lia]. f_equal. rewrite /draft_on /= -app_assoc.
  replace (size m) with (size (Some <$> m)) by (by rewrite length_fmap). rewrite patch_app; [|by rewrite Hg]. by rewrite !fmap_app -!app_assoc.
Qed.

Lemma gap_closed x : Draft ((Some <$> (m ++ be16 x ++ m')) ++ rest) (d_pos gapped) (d_table gapped) = draft_of (m ++ be16 x ++ m') rest table.
Proof. rewrite /draft_of /draft_on /=. f_equal. rewrite !length_app length_fmap Hg /=. lia. Qed.
End gap.

Section records.
Context (bad : fault -> Prop) (e0 : evenv) (own : list id).
Abbreviation gruns := (gruns bad).
Abbreviation kept d e := (owned e0 (table_ids (d_table d) ++ own) e).

(** The end of a part of a message: what was added, and what is known of it. *)
Definition part_ends {A} (a : A) (P : list Z -> Prop) (space : Z) (m : list Z) (rest : list mbyte) (Q : option A -> draft -> evenv -> Prop) : Prop :=
  (∀ m' rest' table' e', P m' -> Forall is_byte_val m' -> size m' <= space -> size m' + size rest' = size rest -> table_ok (m ++ m') table' ->
     owned e0 (table_ids table' ++ own) e' -> Q (Some a) (draft_of (m ++ m') rest' table') e')
  ∧ (∀ d e', size rest < space -> starts_with m (size m + size rest) d -> kept d e' -> Q None d e').

Lemma gruns_bytes_data datalen data m rest table e (Q : option unit -> draft -> evenv -> Prop) :
  Forall is_byte_val m -> table_ok m table -> owned e0 (table_ids table ++ own) e ->
  let bytes := match data with Some d => take (Z.to_nat datalen) (s_text d) | None => [] end in
  size bytes = datalen -> datalen < 2 ^ 16 -> Forall is_byte_val bytes ->
  part_ends tt (fun m' => m' = be16 datalen ++ bytes) (2 + datalen) m rest Q ->
  gruns (add_bytes_data datalen data) (draft_of m rest table) e Q.
Proof.
  intros Hm Htab Ho bytes Hsz Hlt Hb [Hs Hn]. rewrite /add_bytes_data. fold bytes. apply gruns_bind, gruns_APPEND16.
  2: { intros H2. apply Hn; [lia|by apply starts_with_draft|done]. }
  rewrite u16_small; [|lia]. intros H2. apply gruns_APPEND.
  - rewrite length_drop. intros H3. rewrite -app_assoc. apply Hs; [done| | | | |done].
    + apply Forall_app. split; [apply be16_bytes|done].
    + rewrite length_app /=. lia.
    + rewrite length_app !length_drop /=. lia.
    + by apply table_ok_grows.
  - rewrite length_drop. intros H3. apply Hn; [lia| |done]. eapply starts_with_app, starts_with_draft. rewrite length_app length_drop /=. lia.
Qed.

(** A name with its length in front of it. *)
Lemma gruns_name_data t ls m rest table e (Q : option unit -> draft -> evenv -> Prop) :
  name_labels (s_text t) ls -> is_text (s_text t) -> size (s_text t) <= 255 ->
  Forall is_byte_val m -> size m + size rest <= 2 ^ 14 -> table_ok m table -> owned e0 (table_ids table ++ own) e ->
  (size rest < 2 + name_space (s_text t) -> bad OutOfBounds) ->
  part_ends tt (fun m' => ∃ n, m' = be16 (size n) ++ n ∧ has_name (m ++ m') (size m + 2) (s_text t) (size (m ++ m'))) (2 + name_space (s_text t)) m rest Q ->
  gruns (add_name_data (Some t)) (draft_of m rest table) e Q.
Proof.
  intros Hl Ht H255 Hm Hsz Htab Ho Hbad [Hs Hn]. rewrite /add_name_data. apply gruns_bind, gruns_look, gruns_bind, gruns_change.
  change (d_pos (draft_of m rest table)) with (size m).
  change (Draft (d_buf (draft_of m rest table)) (size m + 2) (d_table (draft_of m rest table))) with (Draft ((Some <$> m) ++ rest) (size m + 2) table).
  apply gruns_bind.
  destruct (Z.leb_spec 2 (size rest)) as [H2|H2].
  2: { apply (name_over_end _ _ ls); [done|done|cbn; rewrite length_app length_fmap; lia|]. apply gruns_err, Hn; [rewrite /name_space; lia| |done].
    exists [], rest. rewrite app_nil_r. by split. }
  set (g := take 2 rest). assert (Hg : length g = 2%nat) by (rewrite /g length_take; lia).
  assert (Hd : Draft ((Some <$> m) ++ rest) (size m + 2) table = draft_on ((Some <$> m) ++ g) [] (drop 2 rest) table).
  { rewrite /draft_on /= -app_assoc /g take_drop. f_equal. rewrite length_app length_fmap. fold g. rewrite Hg. lia. }
  rewrite Hd. apply (gruns_add_name_on bad e0 own _ ls); [done|done|done|rewrite length_app length_fmap length_drop; lia|done| | |].
  - rewrite length_drop. intros H. apply Hbad. lia.
  - intros rest' table' e' Hlt Hlen Ho'. apply gruns_err, Hn; [rewrite length_drop in Hlt; lia| |done].
    exists [], (g ++ rest'). rewrite /draft_on /= app_nil_r -app_assoc. split; [done|]. rewrite length_app. rewrite length_drop in Hlen. lia.
  - intros m' rest' table' e' H1 Hlen Hw Ho'. rewrite (proj2 (Z.ltb_ge _ 0)); [|lia]. rewrite length_drop in Hlen.
    rewrite /EvErr.gruns. apply eruns_bind. rewrite gap_size // u16_small; [|lia]. rewrite gap_filled //. apply eruns_ret, eruns_ret. cbn [fst snd]. rewrite gap_closed //.
    assert (Hb : Forall is_byte_val (m ++ be16 (size m'))) by (apply Forall_app; split; [done|apply be16_bytes]).
    specialize (Hw (m ++ be16 (size m'))). rewrite app_nil_r in Hw.
    assert (Hlen' : length (m ++ be16 (size m')) = length ((Some <$> m) ++ g)) by (rewrite !length_app length_fmap Hg; done).
    specialize (Hw Hlen' Hb (fun v pos Hv _ => table_ok_grows _ _ _ Hm Htab v pos Hv)).
    assert (Htab' : table_ok (m ++ be16 (size m') ++ m') table').
    { intros v pos Hv. rewrite app_assoc. destruct (wr_table _ _ _ _ _ Hw v pos Hv) as [Hv1|]; [|done].
      apply entry_ok_grows; [done|]. exact (table_ok_grows m _ table Hm Htab v pos Hv1). }
    destruct Hw as [Hwb (p & Hat & Hple) _ _]. rewrite -!app_assoc in Hat, Hple. apply Hs; [| | | |done|done].
    + exists m'. split; [done|]. exists ls, p. split_and!; [done| |done]. replace (size m + 2) with (size (m ++ be16 (size m'))) by (rewrite length_app /=; lia). done.
    + apply Forall_app. split; [apply be16_bytes|done].
    + rewrite length_app /=. lia.
    + rewrite length_app /=. lia.
Qed.

(** Type, class and ttl behind a name. *)
Lemma fields_at m t c l d :
  0 <= t < 2 ^ 16 -> 0 <= c < 2 ^ 16 -> 0 <= l < 2 ^ 32 ->
  let M := m ++ be16 t ++ be16 c ++ be32 l ++ d in
  word16 M (size m) = t ∧ word16 M (size m + 2) = c ∧ word32 M (size m + 4) = l.
Proof.
  intros Ht Hc Hl M. assert (H2 : size m + 2 = size (m ++ be16 t)) by (rewrite length_app /=; lia).
  assert (H4 : size m + 4 = size ((m ++ be16 t) ++ be16 c)) by (rewrite !length_app /=; lia). split_and!.
  - by apply word16_at.
  - rewrite H2 /M app_assoc. by apply word16_at.
  - rewrite H4 /M (app_assoc m) (app_assoc (m ++ be16 t)). by apply word32_at.
Qed.

Lemma gruns_fields {A} t c l (k : G draft A) m rest table e (Q : option A -> draft -> evenv -> Prop) :
  0 <= t < 2 ^ 16 -> 0 <= c < 2 ^ 16 -> 0 <= l < 2 ^ 32 ->
  (8 <= size rest -> gruns k (draft_of (m ++ be16 t ++ be16 c ++ be32 l) (drop 8 rest) table) e Q) ->
  (∀ x r, size rest < 8 -> size x + size r = size rest -> Q None (draft_of (m ++ x) r table) e) ->
  gruns (_ ← APPEND16 t; _ ← APPEND16 c; _ ← APPEND32 l; k) (draft_of m rest table) e Q.
Proof.
  intros Ht Hc Hl Hs Hn. apply gruns_bind, gruns_APPEND16; [|intros H; rewrite -(app_nil_r m); apply Hn; [lia|done]]. rewrite u16_small //. intros H1.
  apply gruns_bind, gruns_APPEND16; rewrite length_drop; [|intros H; apply Hn; [lia|rewrite length_drop /=; lia]]. rewrite u16_small // drop_drop -!app_assoc. intros H2.
  apply gruns_bind, gruns_APPEND; rewrite length_drop u32_small //; [|intros H; apply Hn; cbn in H |- *; [lia|rewrite length_drop /=; lia]].
  rewrite drop_drop -!app_assoc. intros H3. apply Hs. cbn in H3. lia.
Qed.

(** The parts of a record in their places. *)
Lemma record_parts it j M n :
  Forall is_byte_val M -> 0 <= j -> has_name M j (s_text (it_name it)) (size M) ->
  0 <= it_type it < 2 ^ 16 -> 0 <= it_class it < 2 ^ 16 -> 0 <= it_ttl it < 2 ^ 32 -> size n < 2 ^ 16 ->
  let F := M ++ be16 (it_type it) ++ be16 (it_class it) ++ be32 (it_ttl it) in
  let R := F ++ be16 (size n) ++ n in
  (if it_is_name it then ∃ t, it_data it = Some t ∧ has_name R (size F + 2) (s_text t) (size R) else it_datalen it = size n ∧ n = data_bytes it) ->
  record_at R j it (size R).
Proof.
  intros HM Hj Hn Ht Hc Hl Hsz F R Hdata. rewrite /R in Hdata |- *. clear R. assert (HF : size F = size M + 8) by (rewrite !length_app /=; lia).
  assert (Hw : word16 (F ++ be16 (size n) ++ n) (size M + 8) = size n) by (rewrite -HF; apply word16_at; lia).
  destruct (fields_at M (it_type it) (it_class it) (it_ttl it) (be16 (size n) ++ n) Ht Hc Hl) as (H1 & H2 & H3).
  assert (HFd : F ++ be16 (size n) ++ n = M ++ be16 (it_type it) ++ be16 (it_class it) ++ be32 (it_ttl it) ++ be16 (size n) ++ n) by (by rewrite /F -!app_assoc).
  rewrite -HFd in H1, H2, H3. assert (Hlen : size (F ++ be16 (size n) ++ n) = size M + 10 + size n) by (rewrite !length_app /= in HF |- *; lia).
  exists (size M). rewrite Hw Hlen. split_and!; try done; try lia.
  - rewrite HFd. by apply has_name_grows.
  - destruct (it_is_name it).
    + destruct Hdata as (t & Hdt & Hname). exists t. split; [done|]. rewrite -Hlen. by replace (size M + 10) with (size F + 2) by lia.
    + destruct Hdata as [-> ->]. split; [done|]. replace (size M + 10) with (size (F ++ be16 (size (data_bytes it)))) by (rewrite length_app /=; lia).
      rewrite app_assoc. pose proof (slice_app (F ++ be16 (size (data_bytes it))) (data_bytes it) []) as Hx. by rewrite app_nil_r in Hx.
Qed.

Lemma part_ends_mono {A} (a : A) (P P' : list Z -> Prop) space m rest Q :
  (∀ m', Forall is_byte_val m' -> size m' <= space -> P' m' -> P m') -> part_ends a P space m rest Q -> part_ends a P' space m rest Q.
Proof. intros HP [Hs Hn]. split; [|done]. intros m' rest' table' e' HP' Hb Hsz. by apply Hs; [apply HP|..]. Qed.

(** What the data of a record consist of, behind [F]. *)
Definition data_at (it : server_reply_item) (F d : list Z) : Prop :=
  ∃ n, d = be16 (size n) ++ n ∧ size n < 2 ^ 16
    ∧ if it_is_name it then ∃ t, it_data it = Some t ∧ has_name (F ++ d) (size F + 2) (s_text t) (size (F ++ d)) else it_datalen it = size n ∧ n = data_bytes it.

Definition data_space (it : server_reply_item) : Z :=
  if it_is_name it then match it_data it with Some d => name_space (s_text d) | None => 0 end else it_datalen it.

(** A record ends where its data end. *)
Lemma record_ends it m m1 rest rest1 Q :
  item_ok it -> Forall is_byte_val (m ++ m1) -> has_name (m ++ m1) (size m) (s_text (it_name it)) (size (m ++ m1)) ->
  size m1 <= name_space (s_text (it_name it)) -> size m1 + size rest1 = size rest -> 8 <= size rest1 ->
  part_ends tt (fun m' => record_at (m ++ m') (size m) it (size (m ++ m'))) (record_space it) m rest Q ->
  let F := (m ++ m1) ++ be16 (it_type it) ++ be16 (it_class it) ++ be32 (it_ttl it) in
  part_ends tt (data_at it F) (2 + data_space it) F (drop 8 rest1) Q.
Proof.
  intros [_ Hty Hcl Httl _] Hbm Hname H1 H2 H8 [Hs Hn] F. assert (HF : size F = size m + size m1 + 8) by (rewrite !length_app /=; lia).
  rewrite /record_space in Hs Hn. fold (data_space it) in Hs, Hn. split.
  - intros d rest' table' e' (n & -> & Hsn & Hdn) Hbd Hs1 Hs2 Htab' Ho'. rewrite length_drop in Hs2.
    assert (Hrec : record_at (F ++ be16 (size n) ++ n) (size m) it (size (F ++ be16 (size n) ++ n))) by (apply record_parts; try done; lia).
    rewrite /F -!(app_assoc m) in Hrec, Htab' |- *. apply Hs; [done| | | |done|done].
    + rewrite !Forall_app in Hbm Hbd |- *. split_and!; try tauto; [apply be16_bytes|apply be16_bytes|apply be32_bytes].
    + rewrite !length_app in Hs1 |- *. cbn [length be16 be32] in Hs1 |- *. lia.
    + rewrite !length_app in Hs1, Hs2 |- *. cbn [length be16 be32] in Hs1, Hs2 |- *. lia.
  - intros d e' Hlt Hd Ho'. apply Hn; [rewrite length_drop in Hlt; lia| |done]. rewrite length_drop HF in Hd. rewrite /F -!(app_assoc m) in Hd.
    apply starts_with_app in Hd. by replace (size m + size rest) with (size m + size m1 + 8 + Z.of_nat (length rest1 - 8)) by lia.
Qed.

Lemma gruns_record it m rest table e (Q : option unit -> draft -> evenv -> Prop) :
  item_ok it -> Forall is_byte_val m -> size m + size rest <= 2 ^ 14 -> table_ok m table -> owned e0 (table_ids table ++ own) e ->
  (size rest < record_space it -> bad OutOfBounds) ->
  part_ends tt (fun m' => record_at (m ++ m') (size m) it (size (m ++ m'))) (record_space it) m rest Q ->
  gruns (add_record it) (draft_of m rest table) e Q.
Proof.
  intros Hok Hm Hsz Htab Ho Hbad Hends. pose proof Hok as [(Hnt & Hn255 & ls & Hls) Hty Hcl Httl Hdata]. pose proof Hends as [_ Hn].
  rewrite /add_record. rewrite /record_space in Hbad Hn. fold (data_space it) in Hbad, Hn.
  assert (Hdsp : 0 <= data_space it).
  { rewrite /data_space /name_space. destruct (it_is_name it); [destruct Hdata as (d & -> & _); lia|lia]. }
  apply gruns_bind, (gruns_add_name _ e0 own _ ls); [done|done|done|done|done|done|done| | |].
  { intros H. apply Hbad. lia. }
  { intros rest' table' e' H1 H2 Ho'. apply gruns_err, Hn; [lia| |done]. rewrite -H2. by apply starts_with_draft. }
  intros m1 rest1 table1 e1 H1 H2 [Hb1 (p & Hat & Hp) _ _] Htab1 Ho1. rewrite (proj2 (Z.ltb_ge _ 0)); [|lia].
  assert (Hbm : Forall is_byte_val (m ++ m1)) by by apply Forall_app.
  apply gruns_fields; [done|done|done| |].
  2: { intros x r H8 Hx. apply Hn; [lia| |done]. eapply starts_with_app, starts_with_app, starts_with_draft. rewrite !length_app. lia. }
  intros H8. assert (Hd : part_ends tt (data_at it _) _ _ _ Q) by (by eapply (record_ends it m m1); [| |exists ls, p|lia| | |]).
  set (F := (m ++ m1) ++ _) in Hd |- *.
  assert (HbF : Forall is_byte_val F) by (rewrite /F !Forall_app in Hbm |- *; split_and!; try tauto; [apply be16_bytes|apply be16_bytes|apply be32_bytes]).
  assert (HtF : table_ok F table1) by by apply table_ok_grows.
  assert (HF : size F = size m + size m1 + 8) by (rewrite !length_app /=; lia).
  rewrite /data_space in Hbad Hd. destruct (it_is_name it) eqn:Hin.
  - destruct Hdata as (t & Hdt & Htt & Ht255 & lst & Hlst). rewrite Hdt in Hbad, Hd |- *.
    eapply gruns_name_data; [done|done|done|done|rewrite length_drop; lia|done|done|rewrite length_drop; intros H; apply Hbad; lia|].
    eapply part_ends_mono; [|exact Hd]. intros d _ Hlen (n & -> & Hname). exists n. rewrite length_app /name_space in Hlen. cbn [length be16] in Hlen.
    rewrite Hin. split_and!; [done|lia|by exists t].
  - destruct Hdata as (Hds & Hdl & Hdb). eapply gruns_bytes_data; [done|done|done|done|done|done|].
    eapply part_ends_mono; [|exact Hd]. intros d _ Hlen ->. exists (data_bytes it). rewrite Hin Hds. split_and!; done.
Qed.

Definition total {B} (space : B -> Z) (xs : list B) : Z := foldr (fun x n => space x + n) 0 xs.

Definition records_space : list server_reply_item -> Z := total record_space.

Lemma record_space_pos it : item_ok it -> 0 <= record_space it.
Proof.
  intros [_ _ _ _ Hd]. rewrite /record_space /name_space. destruct (it_is_name it); [destruct Hd as (d & -> & _); lia|]. destruct Hd as [<- _]. lia.
Qed.

Lemma records_space_pos its : Forall item_ok its -> 0 <= records_space its.
Proof. induction 1 as [|it its Hi _ IH]; [done|]. pose proof (record_space_pos it Hi). change (0 <= record_space it + records_space its). lia. Qed.

(** The end of a list of parts, each with the space that is always enough for it:
    all of them are in the message, or some of them are and the next one does not
    fit.  [parts_at] is [queries_at] or [records_at]. *)
Definition parts_end {A B} (a : A) (parts_at : list Z -> Z -> list B -> Z -> Prop) (space : B -> Z) (xs : list B) (m : list Z) (rest : list mbyte)
    (Q : option A -> draft -> evenv -> Prop) : Prop :=
  (∀ m' rest' table' e', parts_at (m ++ m') (size m) xs (size (m ++ m')) -> Forall is_byte_val m' -> size m' <= total space xs ->
     size m' + size rest' = size rest -> table_ok (m ++ m') table' -> owned e0 (table_ids table' ++ own) e' -> Q (Some a) (draft_of (m ++ m') rest' table') e')
  ∧ (∀ n x m' left d e', xs !! n = Some x -> parts_at (m ++ m') (size m) (take n xs) (size (m ++ m')) -> Forall is_byte_val m' ->
       size m' + left = size rest -> left < space x -> size rest < total space xs -> starts_with (m ++ m') (size m + size rest) d -> kept d e' -> Q None d e').

Lemma parts_end_first {A B} (a : A) parts_at (space : B -> Z) x xs m rest (Q : option A -> draft -> evenv -> Prop) d e :
  (∀ j, parts_at m j [] j) -> 0 <= total space xs -> parts_end a parts_at space (x :: xs) m rest Q ->
  size rest < space x -> starts_with m (size m + size rest) d -> kept d e -> Q None d e.
Proof.
  intros Hnil Hpos [_ Hn] Hlt Hd Ho. apply (Hn 0%nat x [] (size rest)); try done; rewrite ?app_nil_r; [apply Hnil| |done].
  change (total space (x :: xs)) with (space x + total space xs). lia.
Qed.

(** The parts behind the first one, [m1]. *)
Lemma parts_end_next {A B} (a : A) parts_at (space : B -> Z) x xs m m1 rest rest1 (Q : option A -> draft -> evenv -> Prop) :
  Forall is_byte_val m1 -> size m1 <= space x -> size m1 + size rest1 = size rest ->
  (∀ m2 ys, Forall is_byte_val m2 -> parts_at ((m ++ m1) ++ m2) (size (m ++ m1)) ys (size ((m ++ m1) ++ m2)) ->
     parts_at (m ++ m1 ++ m2) (size m) (x :: ys) (size (m ++ m1 ++ m2))) ->
  parts_end a parts_at space (x :: xs) m rest Q -> parts_end a parts_at space xs (m ++ m1) rest1 Q.
Proof.
  intros Hb1 Hl1 Hsz Hcons [Hs Hn]. split.
  - intros m2 rest' table' e' Hat Hb Hl Hsz' Htab Ho. apply (Hcons m2) in Hat; [|done]. rewrite -app_assoc in Htab |- *.
    apply Hs; [done| | | |done|done]; [by apply Forall_app| |rewrite length_app; lia].
    rewrite length_app. change (total space (x :: xs)) with (space x + total space xs). lia.
  - intros n y m2 left d e' Hy Hat Hb Hsz' Hlt Htot Hd Ho. apply (Hcons m2) in Hat; [|done]. rewrite -app_assoc in Hd.
    apply (Hn (S n) y (m1 ++ m2) left); [done|done|by apply Forall_app|rewrite length_app; lia|done| | |done].
    { change (total space (x :: xs)) with (space x + total space xs). lia. }
    rewrite length_app in Hd. by replace (size m + size rest) with (Z.of_nat (length m + length m1) + size rest1) by lia.
Qed.

Lemma gruns_records its : ∀ m rest table e (Q : option unit -> draft -> evenv -> Prop),
  Forall item_ok its -> Forall is_byte_val m -> size m + size rest <= 2 ^ 14 -> table_ok m table -> owned e0 (table_ids table ++ own) e ->
  (size rest < records_space its -> bad OutOfBounds) -> parts_end tt records_at record_space its m rest Q ->
  gruns (add_records its) (draft_of m rest table) e Q.
Proof.
  induction its as [|it its IH]; intros m rest table e Q Hok Hm Hsz Htab Ho Hbad Hends; cbn [add_records].
  - apply gruns_ret. rewrite -(app_nil_r m). apply (proj1 Hends); rewrite ?app_nil_r; try done. constructor.
  - inversion Hok as [|? ? Hi Hits]; subst. pose proof (records_space_pos its Hits) as Hpos. pose proof (record_space_pos it Hi) as Hpos1.
    change (records_space (it :: its)) with (record_space it + records_space its) in Hbad.
    apply gruns_bind, gruns_record; [done|done|done|done|done|intros H; apply Hbad; lia|].
    split; [|intros d e' Hlt Hd Ho'; by apply (parts_end_first tt records_at record_space it its m rest Q); [intros j; constructor|..]].
    intros m1 rest1 table1 e1 Hrec Hb1 Hl1 Hsz1 Htab1 Ho1. apply IH; [done|by apply Forall_app|rewrite length_app; lia|done|done|intros H; apply Hbad; lia|].
    eapply parts_end_next; [done|exact Hl1|done| |exact Hends].
    intros m2 ys Hb2 Hrecs. rewrite -!app_assoc in Hrecs. econstructor; [|exact Hrecs]. rewrite (app_assoc m m1 m2). apply record_at_grows; [lia|by apply Forall_app|done].
Qed.

(** ** Questions *)

Definition question_ok (q : evdns_server_question) : Prop := name_ok (q_name q) ∧ 0 <= q_type q < 2 ^ 16 ∧ 0 <= q_class q < 2 ^ 16.
Definition question_space (q : evdns_server_question) : Z := name_space (q_name q) + 4.
Definition questions_space : list evdns_server_question -> Z := total question_space.

Lemma questions_space_pos qs : 0 <= questions_space qs.
Proof. induction qs as [|q qs IH]; [done|]. change (0 <= question_space q + questions_space qs). rewrite /question_space /name_space. lia. Qed.

(** A message that is too long ends in either way. *)
Definition either (Q : option Z -> draft -> evenv -> Prop) (r : option Z) (d : draft) (e : evenv) : Prop :=
  match r with None => Q None d e ∧ Q (Some (-2)) d e | Some x => Q (Some x) d e end.

Lemma gruns_questions qs : ∀ m rest table e (Q : option Z -> draft -> evenv -> Prop),
  Forall question_ok qs -> Forall is_byte_val m -> size m + size rest <= 2 ^ 14 -> table_ok m table -> owned e0 (table_ids table ++ own) e ->
  (size rest < questions_space qs -> bad OutOfBounds) -> parts_end 0 queries_at question_space qs m rest (either Q) ->
  gruns (add_questions qs) (draft_of m rest table) e Q.
Proof.
  induction qs as [|q qs IH]; intros m rest table e Q Hok Hm Hsz Htab Ho Hbad Hends; cbn [add_questions].
  { apply gruns_ret. rewrite -(app_nil_r m). apply (proj1 Hends); rewrite ?app_nil_r; try done. constructor. }
  inversion Hok as [|? ? ((Hnt & Hn255 & ls & Hls) & Hty & Hcl) Hqs]; subst. pose proof (questions_space_pos qs) as Hpos.
  change (questions_space (q :: qs)) with (name_space (q_name q) + 4 + questions_space qs) in Hbad.
  assert (Hlong : ∀ d e', size rest < name_space (q_name q) + 4 -> starts_with m (size m + size rest) d -> kept d e' -> Q None d e' ∧ Q (Some (-2)) d e').
  { intros d e' Hlt Hd Ho'. apply (parts_end_first 0 queries_at question_space q qs m rest (either Q) d e'); [intros j; constructor|done..]. }
  apply gruns_bind, (gruns_add_name _ e0 own _ ls); [done|done|done|done|done|done|done|intros H; apply Hbad; lia| |].
  { intros rest' table' e' H1 H2 Ho'. apply gruns_ret. apply Hlong; [lia| |done]. rewrite -H2. by apply starts_with_draft. }
  intros m1 rest1 table1 e1 H1 H2 [Hb1 (p & Hat & Hp) _ _] Htab1 Ho1. rewrite (proj2 (Z.ltb_ge _ 0)); [|lia].
  assert (Hover : ∀ x r, size x + size r = size rest1 -> size rest1 < 4 -> Q None (draft_of ((m ++ m1) ++ x) r table1) e1).
  { intros x r Hx Hlt. apply Hlong; [lia| |done]. eapply starts_with_app, starts_with_app, starts_with_draft. rewrite !length_app. lia. }
  apply gruns_bind, gruns_APPEND16; [|intros H; rewrite -(app_nil_r (m ++ m1)); apply Hover; [done|lia]]. rewrite u16_small //. intros Hge2.
  apply gruns_bind, gruns_APPEND16; rewrite length_drop; [|intros H; apply Hover; [rewrite length_drop /=; lia|lia]]. rewrite u16_small // drop_drop -!app_assoc. intros H4.
  set (f := be16 (q_type q) ++ be16 (q_class q)). assert (Hf : size f = 4) by done. assert (Hbf : Forall is_byte_val f) by (apply Forall_app; split; apply be16_bytes).
  assert (Hfeq : f = be16 (q_type q) ++ be16 (q_class q)) by done. clearbody f.
  assert (Hbmf : Forall is_byte_val (m ++ m1 ++ f)) by (apply Forall_app_2; [done|by apply Forall_app_2]).
  apply IH; [done|done|rewrite !length_app length_drop; lia| |done|rewrite length_drop; intros H; apply Hbad; lia|].
  { rewrite app_assoc. apply table_ok_grows; [by apply Forall_app|done]. }
  assert (Hmf : size (m1 ++ f) = size m1 + 4) by (rewrite length_app; lia).
  apply (parts_end_next 0 queries_at question_space q qs m (m1 ++ f) rest); [by apply Forall_app|rewrite /question_space; lia|rewrite length_drop; lia| |exact Hends].
  intros m2 ys Hb2 Hqs2. replace (m ++ (m1 ++ f) ++ m2) with ((m ++ m1) ++ f ++ m2) by (by rewrite -!app_assoc).
  replace ((m ++ m1 ++ f) ++ m2) with ((m ++ m1) ++ f ++ m2) in Hqs2 by (by rewrite -!app_assoc).
  assert (Hsf : size (m ++ m1 ++ f) = size (m ++ m1) + 4) by (rewrite !length_app; lia). rewrite Hsf in Hqs2.
  apply (more_queries _ _ _ _ (size (m ++ m1))); [apply (has_name_grows (m ++ m1) (f ++ m2)); [lia|by apply Forall_app_2|by exists ls, p]|rewrite !length_app; lia| | |done].
  - rewrite Hfeq -(app_assoc (be16 _)). by apply word16_at.
  - replace (size (m ++ m1) + 2) with (size ((m ++ m1) ++ be16 (q_type q))) by (rewrite (length_app (m ++ m1)) /=; lia). rewrite Hfeq -(app_assoc (be16 _)) (app_assoc (m ++ m1)). by apply word16_at.
Qed.

(** ** A reply *)

Definition items (r : server_request) : list server_reply_item := sr_answer r ++ sr_authority r ++ sr_additional r.

Definition response_header (r : server_request) (flags : Z) : list Z :=
  header (sr_trans_id r) flags (Z.of_nat (length (sr_questions r))) (sr_n_answer r) (sr_n_authority r) (sr_n_additional r).

(** The message has the header, the questions and the records, and nothing else. *)
Definition response_of (m : list Z) (r : server_request) (flags : Z) : Prop :=
  Forall is_byte_val m ∧ (∃ m', m = response_header r flags ++ m') ∧ ∃ k, queries_at m 12 (sr_questions r) k ∧ records_at m k (items r) (size m).

(** What is there of the message when the next question or record does not fit into
    the [left] bytes that are left. *)
Inductive beginning_of (r : server_request) (flags : Z) (left : Z) : list Z -> Prop :=
| StopsAtQuestion m k q :
    sr_questions r !! k = Some q -> left < question_space q -> Forall is_byte_val m ->
    queries_at (response_header r flags ++ m) 12 (take k (sr_questions r)) (size (response_header r flags ++ m)) ->
    beginning_of r flags left (response_header r flags ++ m)
| StopsAtRecord m k it j :
    items r !! k = Some it -> left < record_space it -> Forall is_byte_val m -> queries_at (response_header r flags ++ m) 12 (sr_questions r) j ->
    records_at (response_header r flags ++ m) j (take k (items r)) (size (response_header r flags ++ m)) ->
    beginning_of r flags left (response_header r flags ++ m).

Definition response_space (r : server_request) : Z := 12 + (questions_space (sr_questions r) + records_space (items r)).

Definition request_ok (r : server_request) : Prop := Forall question_ok (sr_questions r) ∧ Forall item_ok (items r).

Lemma record_at_bound m j it k : record_at m j it k -> k <= size m.
Proof. intros (? & _ & _ & _ & _ & _ & ? & _). lia. Qed.

Lemma queries_at_grows m m' j qs k : 0 <= j -> Forall is_byte_val m -> queries_at m j qs k -> queries_at (m ++ m') j qs k.
Proof.
  intros Hj Hm. induction 1 as [j|j q qs j1 k Hn Hl Ht Hc Hq IH]; [constructor|]. pose proof (has_name_end _ _ _ _ Hj Hn).
  apply (more_queries _ _ _ _ j1); [by apply has_name_grows|rewrite length_app; lia|rewrite word16_grows //; lia|rewrite word16_grows //; lia|apply IH; lia].
Qed.

Lemma gruns_header r flags buf e (Q : option unit -> draft -> evenv -> Prop) :
  size buf = 1500 -> Q (Some tt) (draft_of (response_header r flags) (drop 12 buf) (Some [])) e ->
  gruns (add_header r flags) (Draft buf 0 (Some [])) e Q.
Proof.
  intros Hb HQ. rewrite /add_header. change (Draft buf 0 (Some [])) with (draft_of [] buf (Some [])).
  do 5 (apply gruns_bind, gruns_APPEND16; rewrite ?length_drop; [|lia]; intros _). rewrite !drop_drop -!app_assoc app_nil_l.
  apply gruns_APPEND16; rewrite length_drop; [|lia]. intros _. by rewrite drop_drop -!app_assoc.
Qed.

Lemma gruns_response_parts r flags buf e (Q : option Z -> draft -> evenv -> Prop) :
  request_ok r -> size buf = 1500 -> owned e0 own e -> (1500 < response_space r -> bad OutOfBounds) ->
  (∀ m rest' table' e', response_of m r flags -> size m + size rest' = 1500 -> size m <= response_space r -> owned e0 (table_ids table' ++ own) e' ->
     Q (Some 0) (draft_of m rest' table') e') ->
  (∀ m left d e', beginning_of r flags left m -> size m + left = 1500 -> 1500 < response_space r -> starts_with m 1500 d -> kept d e' ->
     Q None d e' ∧ (1500 < 12 + questions_space (sr_questions r) -> Q (Some (-2)) d e')) ->
  gruns (response_parts r flags) (Draft buf 0 (Some [])) e Q.
Proof.
  intros [Hqs Hits] Hbuf Ho Hbad Hs Hn. rewrite /response_space in Hbad Hs Hn.
  pose proof (questions_space_pos (sr_questions r)) as Hqp. pose proof (records_space_pos _ Hits) as Hrp.
  apply gruns_bind, gruns_header; [done|]. set (hdr := response_header r flags) in *.
  assert (Hhdr : size hdr = 12) by done. assert (Hbh : Forall is_byte_val hdr) by apply header_bytes.
  assert (Heq : hdr = response_header r flags) by done. clearbody hdr.
  assert (Hlen : size (drop 12 buf) = 1488) by (rewrite length_drop; lia). generalize dependent (drop 12 buf). intros rest Hrest.
  apply gruns_bind, gruns_questions; [done|done|lia|by intros v pos Hv; apply not_elem_of_nil in Hv|done|intros H; apply Hbad; lia|]. split.
  2: { intros k q m1 left d e' Hk Hat Hb1 Hleft Hlt Hall Hd Ho'. rewrite Hhdr in Hat. fold (questions_space (sr_questions r)) in Hall.
    destruct (Hn (hdr ++ m1) left d e') as [H1 H2]; [rewrite Heq in Hat |- *; by eapply StopsAtQuestion|rewrite length_app; lia|lia|by replace 1500 with (size hdr + size rest) by lia|done|].
    split; [done|]. apply H2. lia. }
  intros m1 rest1 table1 e1 Hq Hb1 Hl1 Hsz1 Htab1 Ho1. cbn [either]. change (0 <? 0) with false. cbn iota.
  fold (questions_space (sr_questions r)) in Hl1.
  apply gruns_bind, gruns_records; [done|by apply Forall_app|rewrite length_app; lia|done|done|fold (items r); intros H; apply Hbad; lia|].
  assert (Hgrow : ∀ m2, queries_at (hdr ++ m1 ++ m2) 12 (sr_questions r) (size (hdr ++ m1))).
  { intros m2. rewrite app_assoc -Hhdr. apply queries_at_grows; [lia|by apply Forall_app|done]. }
  split; fold (items r) (records_space (items r)).
  - intros m2 rest2 table2 e2 Hr Hb2 Hl2 Hsz2 _ Ho2. apply gruns_ret, Hs; [| | |done].
    + rewrite -app_assoc. split_and!; [by rewrite !Forall_app|by exists (m1 ++ m2); rewrite Heq|]. exists (size (hdr ++ m1)). split; [done|by rewrite -app_assoc in Hr].
    + rewrite !length_app. lia.
    + rewrite !length_app. lia.
  - intros k it m2 left d e' Hk Hat Hb2 Hleft Hlt Hall Hd Ho'. fold (items r) in Hk, Hat, Hall. rewrite -app_assoc in Hat, Hd.
    rewrite (length_app hdr m1) in Hd. replace (Z.of_nat (length hdr + length m1) + size rest1) with 1500 in Hd by lia.
    eapply (Hn (hdr ++ m1 ++ m2) left d e'); [|rewrite !length_app; lia|fold (records_space (items r)) in Hall; lia|done|done].
    specialize (Hgrow m2). rewrite Heq in Hat, Hgrow |- *. eapply StopsAtRecord; [done|done|by apply Forall_app|exact Hgrow|exact Hat].
Qed.

End records.

(** ** Releasing *)

Lemma items_ids_app xs ys : items_ids (xs ++ ys) = items_ids xs ++ items_ids ys.
Proof. by rewrite /items_ids fmap_app concat_app. Qed.

Lemma runs_free_items e0 its own e (Q : unit -> evenv -> Prop) :
  owned e0 (items_ids its ++ own) e -> (∀ e', owned e0 own e' -> Q tt e') -> runs (free_items its) e Q.
Proof.
  revert e. induction its as [|it its IH]; intros e Ho HQ; [by apply runs_ret, HQ|]. cbn [free_items].
  rewrite /items_ids fmap_cons /= in Ho. fold (items_ids its) in Ho. rewrite -!app_assoc in Ho.
  eapply runs_bind, runs_free; [exact Ho|]. intros e1 Ho1. eapply runs_bind, runs_free_str; [exact Ho1|]. intros e2 Ho2.
  eapply runs_bind, runs_free; [exact Ho2|]. intros e3 Ho3. by apply IH.
Qed.

Lemma runs_free_answers e0 r own e (Q : server_request -> evenv -> Prop) :
  owned e0 (items_ids (items r) ++ own) e -> (∀ e', owned e0 own e' -> Q (set_items [] [] [] r) e') ->
  runs (server_request_free_answers r) e Q.
Proof.
  rewrite /items !items_ids_app -!app_assoc. intros Ho HQ. rewrite /server_request_free_answers.
  eapply runs_bind, runs_free_items; [exact Ho|]. intros e1 Ho1. eapply runs_bind, runs_free_items; [exact Ho1|]. intros e2 Ho2.
  eapply runs_bind, runs_free_items; [exact Ho2|]. intros e3 Ho3. by apply runs_ret, HQ.
Qed.

Lemma runs_clear_table e0 d own e (Q : unit -> evenv -> Prop) :
  owned e0 (table_ids (d_table d) ++ own) e -> (∀ e', owned e0 own e' -> Q tt e') -> runs (clear_table d) e Q.
Proof.
  rewrite /clear_table /table_ids. destruct (d_table d) as [table|]; cbn [default]; [|intros Ho HQ; by apply runs_ret, HQ].
  revert e. induction table as [|[v pos] table IH]; intros e Ho HQ; [by apply runs_ret, HQ|]. cbn [dnslabel_clear].
  eapply runs_bind, runs_free; [exact Ho|]. intros e1 Ho1. by apply IH.
Qed.

(** ** Records *)

(** The data of an item, as they are copied. *)
Definition data_of (datalen : Z) (is_name : bool) (data : option (list Z)) (len : Z) (v : option cstr) : Prop :=
  match data with
  | None => v = None ∧ len = 0
  | Some d => ∃ c, v = Some c ∧ if is_name then s_text c = d ∧ len = u16 (-1) else s_text c = take (Z.to_nat datalen) d ∧ len = u16 datalen
  end.

(** The item that is made of the arguments. *)
Record item_of (name : list Z) (type class ttl datalen : Z) (is_name : bool) (data : option (list Z)) (it : server_reply_item) : Prop := {
  if_name : s_text (it_name it) = name;
  if_type : it_type it = u16 type;
  if_class : it_class it = u16 class;
  if_ttl : it_ttl it = u32 ttl;
  if_is_name : it_is_name it = is_name;
  if_data : data_of datalen is_name data (it_datalen it) (it_data it) }.

Definition data_fits (datalen : Z) (is_name : bool) (data : option (list Z)) : Prop :=
  match data with None => True | Some d => if is_name then is_text d else datalen <= size d end.

Lemma runs_copy_data e0 own datalen is_name data e (Q : option (Z * option cstr) -> evenv -> Prop) :
  data_fits datalen is_name data -> owned e0 own e ->
  (∀ len v e', data_of datalen is_name data len v -> owned e0 (str_ids v ++ own) e' -> Q (Some (len, v)) e') ->
  (∀ e', ev_oom e0 ≠ [] ∨ datalen < 0 -> owned e0 own e' -> Q None e') ->
  runs (copy_data datalen is_name data) e Q.
Proof.
  intros Hfit Ho Hs Hn. destruct data as [d|]; cbn [copy_data data_fits data_of] in *; [|by apply runs_ret, Hs]. destruct is_name.
  - apply runs_bind, (strdup_gives d Hfit e0 own); [done| |intros e' Hne Ho'; apply runs_ret, Hn; [by left|done]].
    intros c e' Hc Ho'. apply runs_ret, Hs; [by exists c|done].
  - apply runs_bind. destruct (Z.ltb_spec datalen 0) as [Hneg|Hpos]; [apply runs_ret, Hn; [by right|done]|].
    eapply runs_malloc; [exact Ho| |intros e' Hne Ho'; apply Hn; [by left|done]].
    intros i e' Ho'. rewrite (proj2 (Z.ltb_ge _ _)) //. apply runs_ret, Hs; [|done]. by eexists.
Qed.

Lemma runs_new_item e0 own name type class ttl datalen is_name data e (Q : option server_reply_item -> evenv -> Prop) :
  is_text name -> data_fits datalen is_name data -> owned e0 own e ->
  (∀ it e', item_of name type class ttl datalen is_name data it -> owned e0 (item_ids it ++ own) e' -> Q (Some it) e') ->
  (∀ e', ev_oom e0 ≠ [] ∨ datalen < 0 -> owned e0 own e' -> Q None e') ->
  runs (new_item name type class ttl datalen is_name data) e Q.
Proof.
  intros Ht Hfit Ho Hs Hn. rewrite /new_item. eapply runs_bind, runs_malloc; [exact Ho| |intros e1 Hne Ho1; apply runs_ret, Hn; [by left|done]].
  intros i e1 Ho1. apply runs_bind, (strdup_gives name Ht e0 (i :: own)); [done| |].
  2: { intros e2 Hne Ho2. eapply runs_bind, runs_free; [exact Ho2|]. intros e3 Ho3. apply runs_ret, Hn; [by left|done]. }
  intros n e2 Hname Ho2. apply runs_bind, (runs_copy_data e0 (s_id n :: i :: own)); [done|done| |].
  - intros len v e3 Hd Ho3. apply runs_ret, Hs; [by split|]. eapply owned_perm; [|exact Ho3]. rewrite /item_ids /= -app_assoc /=.
    by rewrite -Permutation_middle.
  - intros e3 Hwhy Ho3. eapply runs_bind, runs_free; [exact Ho3|]. intros e4 Ho4. eapply runs_bind, runs_free; [exact Ho4|]. intros e5 Ho5. by apply runs_ret, Hn.
Qed.

Lemma request_ids_add section it r : request_ids (add_item section it r) ≡ₚ item_ids it ++ request_ids r.
Proof.
  assert (H : ∀ a b c d : list id, a ++ (b ++ item_ids it ++ c) ++ d ≡ₚ item_ids it ++ a ++ (b ++ c) ++ d).
  { intros a b c d. rewrite -!(app_assoc b) -!(app_assoc (item_ids it)). rewrite (Permutation_app_swap_app b). apply Permutation_app_swap_app. }
  assert (Hone : items_ids [it] = item_ids it) by (by rewrite /items_ids /= app_nil_r).
  rewrite /add_item /request_ids /questions_ids. destruct (_ =? _); [|destruct (_ =? _)]; 
    cbn [set_counts set_items sr_array sr_questions sr_answer sr_authority sr_additional sr_response sr_id]; rewrite !items_ids_app Hone.
  - rewrite -(app_assoc (items_ids (sr_answer r))). apply H.
  - rewrite -(app_assoc (items_ids (sr_authority r))) !(app_assoc (items_ids (sr_answer r))). apply H.
  - set (a := items_ids (sr_answer r)). set (b := items_ids (sr_authority r)). set (c := items_ids (sr_additional r)).
    replace (a ++ b ++ c ++ item_ids it) with ((a ++ b ++ c) ++ item_ids it ++ []) by (by rewrite app_nil_r -!app_assoc). by rewrite H app_nil_r.
Qed.

(** ** A message that is cut *)

(** The bit of a header that says so is the second one of the third byte. *)
Lemma truncated_flags fl : u8 (Z.shiftr (u16 (Z.lor fl 0x200)) 8) = Z.lor (u8 (Z.shiftr (u16 fl) 8)) 2 ∧ u8 (u16 (Z.lor fl 0x200)) = u8 (u16 fl).
Proof.
  change 0x200 with (Z.shiftl 2 8). rewrite /u8 /u16 -!Z.land_ones; [|lia..]. split; apply Z.bits_inj'; intros n Hn.
  - rewrite Z.lor_spec !Z.land_spec !Z.shiftr_spec // !Z.land_spec Z.lor_spec Z.shiftl_spec; [|lia]. replace (n + 8 - 8) with n by lia.
    rewrite !Z.testbit_ones; [|lia..]. destruct (Z.testbit 2 n) eqn:H2; [|by rewrite !orb_false_r].
    assert (Hlt : n < 8) by (destruct (Z.le_gt_cases 8 n); [|done]; rewrite Z.bits_above_log2 in H2; [done|lia|cbn; lia]).
    rewrite !orb_true_r. rewrite (proj2 (Z.leb_le 0 n)) // (proj2 (Z.ltb_lt n 8)) // (proj2 (Z.leb_le 0 _)); [|lia]. by rewrite (proj2 (Z.ltb_lt (n + 8) 16)); [|lia].
  - rewrite !Z.land_spec Z.lor_spec Z.shiftl_spec //. rewrite !Z.testbit_ones; [|lia..]. destruct (Z.ltb_spec n 8).
    + rewrite (Z.testbit_neg_r 2); [|lia]. by rewrite orb_false_r.
    + by rewrite !andb_false_r.
Qed.

(** The first 512 bytes of a buffer that starts with the message, with the truncated
    bit in the header. *)
Definition cut_off (r : server_request) (flags : Z) (m : list Z) (rest : list mbyte) : list mbyte :=
  take 512 ((Some <$> response_header r (Z.lor flags 0x200) ++ drop 12 m) ++ rest).

Lemma truncated_starts r flags m d e (Q : list mbyte -> evenv -> Prop) :
  starts_with (response_header r flags ++ m) 1500 d ->
  (∀ rest, size (response_header r flags ++ m) + size rest = 1500 -> Q (cut_off r flags (response_header r flags ++ m) rest) e) ->
  runs (truncated (d_buf d)) e Q.
Proof.
  intros (m' & rest & -> & Hsz) HQ. rewrite -app_assoc in Hsz |- *. rewrite fmap_app -app_assoc /truncated.
  specialize (HQ ((Some <$> m') ++ rest)). rewrite /cut_off in HQ. change (drop 12 (response_header r flags ++ m)) with m in HQ.
  rewrite fmap_app -app_assoc in HQ. rewrite fmap_app -app_assoc. set (tl := (Some <$> m) ++ (Some <$> m') ++ rest) in *.
  destruct (truncated_flags flags) as [H1 H2]. apply runs_bind.
  set (hdr := Some <$> response_header r flags). assert (Hb : byte_at (hdr ++ tl) 2 = mret (u8 (Z.shiftr (u16 flags) 8))) by done. rewrite Hb. apply runs_ret, runs_bind.
  assert (Hp : put_bytes_at (hdr ++ tl) 2 [Some (Z.lor (u8 (Z.shiftr (u16 flags) 8)) 2)] = mret ((Some <$> response_header r (Z.lor flags 0x200)) ++ tl)).
  { rewrite /put_bytes_at /in_range length_app. change (length hdr) with 12%nat. change (size [_]) with 1. rewrite (proj2 (Z.leb_le (2 + 1) _)); [|lia].
    rewrite -H1 /hdr /response_header /header /be16 H2. done. }
  rewrite Hp. apply runs_ret, runs_ret, HQ. rewrite !length_app length_fmap in Hsz |- *. lia.
Qed.

(** ** What is sent *)

Definition response_flags (r : server_request) (err : Z) : Z := Z.lor (u16 (sr_flags r)) (Z.lor 0x8000 err).

(** All of it, or the first 512 bytes of it, or as much as fits the buffer and of that
    the first 512 bytes. *)
Inductive response_sent (bytes : list mbyte) (r : server_request) (flags : Z) : Prop :=
| SentWhole m : response_of m r flags -> size m <= 512 -> bytes = Some <$> m -> response_sent bytes r flags
| SentCut m : response_of m r flags -> 512 < size m <= response_space r -> bytes = cut_off r flags m [] -> response_sent bytes r flags
| SentBeginning m rest :
    1500 < response_space r -> beginning_of r flags (size rest) m -> size m + size rest = 1500 -> bytes = cut_off r flags m rest -> response_sent bytes r flags.

Lemma cut_off_long r flags m rest : 512 < size m -> cut_off r flags m rest = cut_off r flags m [].
Proof.
  intros Hl. rewrite /cut_off app_nil_r take_app_le //. rewrite length_fmap length_app length_drop.
  change (length (response_header r (Z.lor flags 0x200))) with 12%nat. lia.
Qed.

Lemma runs_response_bytes m r flags rest table e (Q : list mbyte -> evenv -> Prop) :
  response_of m r flags -> size m + size rest = 1500 -> size m <= response_space r ->
  (∀ bytes, response_sent bytes r flags -> Q bytes e) -> runs (response_bytes false (draft_of m rest table)) e Q.
Proof.
  intros Hr Hsz Hle HQ. rewrite /response_bytes. change (d_pos (draft_of m rest table)) with (size m). cbn [orb].
  destruct (Z.ltb_spec 512 (size m)) as [Hlong|Hfit].
  - pose proof Hr as (_ & (m1 & Hm) & _). apply (truncated_starts r flags m1); [rewrite -Hm; by apply starts_with_draft|]. rewrite -Hm. intros rest' Hrest'.
    apply HQ, (SentCut _ _ _ m); [done|lia|by apply cut_off_long].
  - apply runs_ret, HQ. apply (SentWhole _ _ _ m); [done|lia|]. rewrite /draft_of /draft_on /= Nat2Z.id.
    replace (length m) with (length (Some <$> m)) by apply length_fmap. apply take_app_length.
Qed.

(** What becomes of the request. *)
Lemma runs_keep_response e0 r bytes own e (Q : Z * server_request -> evenv -> Prop) :
  sr_response r = None -> owned e0 (request_ids r ++ own) e ->
  (∀ i e', let r' := set_response (Some (i, bytes)) (set_items [] [] [] r) in owned e0 (request_ids r' ++ own) e' -> Q (0, r') e') ->
  (∀ e', ev_oom e0 ≠ [] -> owned e0 (request_ids (set_items [] [] [] r) ++ own) e' -> Q (-1, set_items [] [] [] r) e') ->
  runs (keep_response r bytes) e Q.
Proof.
  intros Hnr Ho Hs Hn. rewrite /keep_response. assert (Hids : request_ids r ++ own ≡ₚ items_ids (items r) ++ request_ids (set_items [] [] [] r) ++ own).
  { rewrite /request_ids /questions_ids /= Hnr /= -!app_assoc. fold (items r). rewrite /items. apply Permutation_app_swap_app. }
  apply runs_bind. eapply runs_malloc; [exact Ho| |].
  - intros i e1 Ho1. apply runs_bind, (runs_free_answers e0 r (i :: request_ids (set_items [] [] [] r) ++ own)).
    { eapply owned_perm; [|exact Ho1]. rewrite Hids. by rewrite -Permutation_middle. }
    intros e2 Ho2. apply runs_ret, Hs. eapply owned_perm; [|exact Ho2]. rewrite /request_ids /questions_ids /= Hnr /= -!app_assoc /=. apply Permutation_middle.
  - intros e1 Hne Ho1. apply runs_bind, (runs_free_answers e0 r (request_ids (set_items [] [] [] r) ++ own)).
    { eapply owned_perm; [|exact Ho1]. by rewrite Hids. }
    intros e2 Ho2. by apply runs_ret, Hn.
Qed.

(** How format_response ends. *)
Definition formatted (e0 : evenv) (r : server_request) (err : Z) (x : Z * server_request) (e : evenv) : Prop :=
  owned e0 (request_ids x.2) e
  ∧ ((x.1 = 0 ∧ ∃ i bytes, x.2 = set_response (Some (i, bytes)) (set_items [] [] [] r) ∧ response_sent bytes r (response_flags r err))
     ∨ (x.1 = -1 ∧ x.2 = set_items [] [] [] r ∧ ev_oom e0 ≠ [])
     ∨ (x.1 = -2 ∧ x.2 = r ∧ 1500 < 12 + questions_space (sr_questions r))).

Definition over_buffer (r : server_request) (f : fault) : Prop := f = OutOfBounds ∧ 1500 < response_space r.

Lemma eruns_format_response e0 r err e :
  request_ok r -> sr_response r = None -> 0 <= err <= 15 -> owned e0 (request_ids r) e ->
  eruns (over_buffer r) (evdns_server_request_format_response r err) e (formatted e0 r err).
Proof.
  intros Hok Hnr Herr Ho. set (bad := over_buffer r). set (Q := formatted e0 r err).
  rewrite /evdns_server_request_format_response (proj2 (Z.ltb_ge err 0)); [|lia]. rewrite (proj2 (Z.ltb_ge 15 err)); [|lia]. cbn [orb].
  fold (response_flags r err). set (fl := response_flags r err) in *.
  assert (Hkeep : ∀ bytes d e1, response_sent bytes r fl -> owned e0 (table_ids (d_table d) ++ request_ids r) e1 ->
    eruns bad ('(ret, r') ← keep_response r bytes; _ ← clear_table d; mret (ret, r')) e1 Q).
  { intros bytes d e1 Hb Ho1. apply eruns_bind, runs_eruns, (runs_keep_response e0 r bytes (table_ids (d_table d))); [done| | |].
    - eapply owned_perm; [|exact Ho1]. apply Permutation_app_comm.
    - intros i e2 r' Ho2. apply eruns_bind, runs_eruns. eapply runs_clear_table; [eapply owned_perm; [|exact Ho2]; apply Permutation_app_comm|].
      intros e3 Ho3. apply eruns_ret. split; [done|]. left. split; [done|]. by exists i, bytes.
    - intros e2 Hne Ho2. apply eruns_bind, runs_eruns. eapply runs_clear_table; [eapply owned_perm; [|exact Ho2]; apply Permutation_app_comm|].
      intros e3 Ho3. apply eruns_ret. split; [done|]. by right; left. }
  apply eruns_bind, gruns_eruns, (gruns_response_parts bad e0 (request_ids r)); [done|by rewrite length_replicate|done|done| |].
  - intros m rest' table' e1 Hr Hsz Hle Ho1. cbn [default]. change (0 <? 0) with false. cbn iota. rewrite bool_decide_eq_true_2; [|done]. cbn [negb].
    apply eruns_bind, runs_eruns, (runs_response_bytes m r fl); [done|done|done|]. intros bytes Hb. by apply Hkeep.
  - intros m left d e1 Hbeg Hleft Hlong Hd Ho1. split.
    + cbn [default]. change (0 <? 0) with false. cbn iota. rewrite bool_decide_eq_false_2; [|by intros []]. cbn [negb].
      apply eruns_bind, runs_eruns. rewrite /response_bytes. cbn [orb]. assert (Hm : ∃ m1, m = response_header r fl ++ m1) by (destruct Hbeg; by eexists).
      destruct Hm as (m1 & Hm). rewrite Hm in Hd. apply (truncated_starts r fl m1); [done|]. rewrite -Hm. intros rest Hrest. apply Hkeep; [|done].
      apply (SentBeginning _ _ _ m rest); [done|by replace (size rest) with left by lia|done|done].
    + intros Hq. cbn [default]. change (-2 <? 0) with true. cbn iota. apply eruns_bind, runs_eruns. eapply runs_clear_table; [done|]. intros e2 Ho2. apply eruns_ret.
      split; [done|]. by right; right.
Qed.
