(* ===== verification/EvDnsRead.v ===== *)
(** * Reading a reply, and questions and answers: lemmas

    The parts of reply_parse for any message, and what a reply for addresses
    consists of; the message of a question as a server reads it, the message of a
    reply with addresses as a client reads it, and both ends of an exchange
    together. *)

From Stdlib Require Import ssreflect.
From S2P Require Import Prelude CTypes HProp CMem CLib EvBuffer EvBufSpec EvUtil EvErr EvUri EvUriSpec EvMem EvQuery EvQueryOps EvDns EvDnsServer EvDnsClient EvDnsSpec EvDnsOps EvDnsWrite.
Set Warnings "-rewrite-rw".
Open Scope general_if_scope.
Open Scope Z_scope.

Section parsed.
Context (bad : fault -> Prop) {St A B : Type}.

Lemma gruns_parsed_bind (x : P A) (k : A -> P B) (u : St) e (Q : option B -> St -> evenv -> Prop) :
  gruns bad (parsed x) u e (fun r u' e' => match r with Some a => gruns bad (parsed (k a)) u' e' Q | None => Q None u' e' end) ->
  gruns bad (parsed (mbind (M:=P) k x)) u e Q.
Proof. rewrite /gruns /eruns /parsed /mbind /P_bind /mbind /E_bind. destruct (x e) as [|[[a|] e']]; [done|exact (fun H => H)|done]. Qed.

Lemma gruns_parsed_ret (a : A) (u : St) e (Q : option A -> St -> evenv -> Prop) : Q (Some a) u e -> gruns bad (parsed (mret a)) u e Q.
Proof. done. Qed.

Lemma gruns_parsed_stop (u : St) e (Q : option A -> St -> evenv -> Prop) : Q None u e -> gruns bad (parsed stop) u e Q.
Proof. done. Qed.

Lemma gruns_parsed_c_str t (u : St) e (Q : option (list Z) -> St -> evenv -> Prop) : Q (Some (cut0 t)) u e -> gruns bad (parsed (lift (c_str (Some <$> t)))) u e Q.
Proof. by rewrite c_str_text. Qed.
End parsed.

(** ** Names *)

(** What is taken as the name that was asked for. *)
Definition same_name (base : evdns_base) (a b : list Z) : bool :=
  if global_randomize_case base then bool_decide (a = b) else evutil_ascii_strcasecmp a b =? 0.

(** The message that was sent, in an array that is long enough. *)
Definition sent (req : request) (mq : list Z) (restq : list mbyte) : Prop :=
  rq_data req = (Some <$> mq) ++ restq ∧ rq_len req = size mq ∧ Forall is_byte_val mq ∧ 63 <= size restq.

Section reply.
Context `{limit : HostNameMax} (bad : fault -> Prop) (m : list Z) (rest : list mbyte) (Hm : Forall is_byte_val m) (Hbad : size rest < 63 -> bad OutOfBounds).
Abbreviation packet := ((Some <$> m) ++ rest).
Abbreviation gruns := (gruns bad).

Lemma gruns_SKIP_NAME {St} j (u : St) e (Q : option Z -> St -> evenv -> Prop) :
  0 <= j -> (∀ t k, readable m 256 j t k -> Q (Some k) u e) -> ((∀ t k, ¬ readable m 256 j t k) -> Q None u e) ->
  gruns (parsed (SKIP_NAME packet (size m) j)) u e Q.
Proof.
  intros Hj Hs Hn. rewrite /SKIP_NAME. apply gruns_parsed_bind, gruns_name_parse; [done|done|done| |done]. intros t k Hr. by apply gruns_parsed_ret, (Hs t).
Qed.

Lemma gruns_TEST_NAME {St} base req mq restq j (u : St) e (Q : option (Z * bool) -> St -> evenv -> Prop) :
  0 <= j -> sent req mq restq ->
  (∀ t k tq kq, readable m 256 j t k -> readable mq 256 j tq kq -> Q (Some (k, same_name base (cut0 t) (cut0 tq))) u e) ->
  ((∀ t k tq kq, readable m 256 j t k -> ¬ readable mq 256 j tq kq) -> Q None u e) ->
  gruns (parsed (TEST_NAME base req packet (size m) j)) u e Q.
Proof.
  intros Hj (Hdata & Hlen & Hmq & H63) Hs Hn. rewrite /TEST_NAME Hdata Hlen. apply gruns_parsed_bind, gruns_name_parse; [done|done|done| |].
  2: { intros Hno. apply Hn. intros t k tq kq Hr _. by apply (Hno t k). }
  intros t k Hr. apply gruns_parsed_bind, gruns_name_parse; [done|lia|done| |].
  2: { intros Hno. apply Hn. intros t' k' tq kq _. apply Hno. }
  intros tq kq Hrq. apply gruns_parsed_bind, gruns_parsed_c_str, gruns_parsed_bind, gruns_parsed_c_str, gruns_parsed_ret. by apply (Hs t k tq kq).
Qed.

(** Some question of the message is what was asked. *)
Definition asked (base : evdns_base) (mq : list Z) : Prop :=
  ∃ j t k tq kq, readable m 256 j t k ∧ readable mq 256 j tq kq ∧ same_name base (cut0 t) (cut0 tq) = true.

Lemma gruns_reply_questions {St} base req mq restq n : ∀ j b (u : St) e (Q : option (Z * bool) -> St -> evenv -> Prop),
  0 <= j -> sent req mq restq -> (b = true -> asked base mq) ->
  (∀ j' b', 0 <= j' -> (b' = true -> asked base mq) -> Q (Some (j', b')) u e) -> Q None u e ->
  gruns (parsed (reply_questions base req packet (size m) n j b)) u e Q.
Proof.
  induction n as [|n IH]; intros j b u e Q Hj Hsent Hb Hs Hn; cbn [reply_questions]; [by apply gruns_parsed_ret, Hs|].
  apply gruns_parsed_bind. apply (gruns_TEST_NAME base req mq restq); [done|done| |done]. intros t k tq kq Hr Hrq.
  destruct (Z.ltb_spec (size m) (k + 4)); [by apply gruns_parsed_stop|]. pose proof (readable_end _ _ _ _ _ Hj Hr).
  apply IH; [lia|done| |done|done]. intros [Hb'|Hsame]%orb_true_iff; [by apply Hb|]. by exists j, t, k, tq, kq.
Qed.

(** A record: type, class, ttl, the length of its data, and where they start. *)
Lemma gruns_record_header {St} j (u : St) e (Q : option (Z * Z * Z * Z * Z) -> St -> evenv -> Prop) :
  0 <= j ->
  (∀ t k, readable m 256 j t k -> k + 10 <= size m -> Q (Some (word16 m k, word16 m (k + 2), word32 m (k + 4), word16 m (k + 8), k + 10)) u e) ->
  ((∀ t k, readable m 256 j t k -> size m < k + 10) -> Q None u e) ->
  gruns (parsed (record_header packet (size m) j)) u e Q.
Proof.
  intros Hj Hs Hn. rewrite /record_header. apply gruns_parsed_bind, gruns_SKIP_NAME; [done| |intros Hno; apply Hn; intros t k Hr; by destruct (Hno t k Hr)].
  intros t k Hr. pose proof (readable_end _ _ _ _ _ Hj Hr).
  assert (Hshort : size m < k + 10 -> Q None u e).
  { intros Hlt. apply Hn. intros t' k' Hr'. by destruct (readable_det _ _ _ _ _ _ _ _ Hr Hr') as [_ <-]. }
  apply gruns_parsed_bind, gruns_GET16; [lia|intros _|intros Hlt; apply Hshort; lia].
  apply gruns_parsed_bind, gruns_GET16; [lia|intros _|intros Hlt; apply Hshort; lia].
  apply gruns_parsed_bind, gruns_GET32; [lia|intros _|intros Hlt; apply Hshort; lia].
  apply gruns_parsed_bind, gruns_GET16; [lia|intros Hfit|intros Hlt; apply Hshort; lia]. apply gruns_parsed_ret.
  replace (k + 2 + 2) with (k + 4) in * by lia. replace (k + 4 + 4) with (k + 8) in * by lia. replace (k + 8 + 2) with (k + 10) in * by lia.
  apply (Hs t k Hr). lia.
Qed.

(** ** What is recorded *)

Definition address_size (type : Z) : Z := if type =? TYPE_A then 4 else if type =? TYPE_AAAA then 16 else 0.

(** At most 32 addresses, complete, all bytes of them from the message. *)
Record reply_ok (type : Z) (r : reply) : Prop := {
  ry_type : rp_type r = type;
  ry_count : 0 <= rp_addrcount r <= 32;
  ry_addresses : ∃ bytes, rp_addresses r = Some <$> bytes ∧ size bytes = address_size type * rp_addrcount r;
  ry_name : ∃ t, rp_name r = Some <$> t ∧ size t < HOST_NAME_MAX }.

(** A name that was stored for the request. *)
Definition new_cname (c0 c : option (option cstr)) : list id :=
  match c0, c with Some None, Some (Some v) => [s_id v] | _, _ => [] end.

Record reading_ok (e0 : evenv) (own : list id) (req : request) (s : reading) (e : evenv) : Prop := {
  ri_reply : reply_ok (rq_type req) (rd_reply s);
  ri_ttl : 0 <= rd_ttl s < 2 ^ 32;
  ri_cname : rd_cname s = rq_cname req ∨ rq_cname req = Some None ∧ ∃ v, rd_cname s = Some (Some v);
  ri_owned : owned e0 (new_cname (rq_cname req) (rd_cname s) ++ own) e }.

Lemma word32_range j : 0 <= j -> j + 4 <= size m -> 0 <= word32 m j < 2 ^ 32.
Proof. intros Hj Hl. rewrite /word32. pose proof (word16_range m j Hm Hj ltac:(lia)). pose proof (word16_range m (j + 2) Hm ltac:(lia) ltac:(lia)). lia. Qed.

Section answers.
Context (e0 : evenv) (own : list id) (req : request).
Abbreviation ok := (reading_ok e0 own req).

Lemma ok_ttl ttl s e : ok s e -> 0 <= ttl < 2 ^ 32 -> ok (set_ttl ttl s) e.
Proof. intros [H1 H2 H3 H4] Ht. split; [done|cbn; lia|done|done]. Qed.

Lemma ok_addresses sz n bytes s e :
  ok s e -> address_size (rq_type req) = sz -> 0 <= n -> rp_addrcount (rd_reply s) + n <= 32 -> size bytes = sz * n -> ok (add_addresses n (Some <$> bytes) s) e.
Proof.
  intros [[H1 H2 (bs & H3 & H3') H4] Ht Hc Ho] Hsz Hn Hle Hb. split; [|done|done|done]. split; cbn; [done|lia| |done].
  exists (bs ++ bytes). rewrite H3 fmap_app length_app. split; [done|]. rewrite Hsz in H3' |- *. lia.
Qed.

Lemma ok_name t s e : ok s e -> size t < HOST_NAME_MAX -> ok (set_ptr_name (Some <$> t) s) e.
Proof. intros [[H1 H2 H3 H4] Ht Hc Ho] Hl. split; [|done|done|done]. split; cbn; [done|done|done|by exists t]. Qed.

Lemma gruns_take_addresses sz ttl dl j s e (Q : option (Z * bool) -> reading -> evenv -> Prop) :
  (sz = 4 ∨ sz = 16) -> address_size (rq_type req) = sz -> 0 <= j -> 0 <= dl < 2 ^ 16 -> 0 <= ttl < 2 ^ 32 -> rp_addrcount (rd_reply s) < 32 -> ok s e ->
  (∀ j' s' b, 0 <= j' -> ok s' e -> (b = false -> rp_addrcount (rd_reply s') < 32) -> Q (Some (j', b)) s' e) -> (∀ s', ok s' e -> Q None s' e) ->
  gruns (take_addresses sz 32 packet (size m) ttl dl j) s e Q.
Proof.
  intros Hsz Hty Hj Hdl Httl Hcnt Hok Hs Hn. rewrite /take_addresses. destruct (Z.land dl (sz - 1) =? 0); cbn [negb]; [|by apply gruns_err, Hn].
  pose proof (ry_count _ _ (ri_reply _ _ _ _ _ Hok)) as Hc. apply gruns_bind, gruns_look. set (count := rp_addrcount (rd_reply s)) in *.
  set (n := Z.min (u32 (32 - count)) (dl / sz)). assert (Hn32 : 0 <= n <= 32 - count).
  { rewrite /n u32_small; [|lia]. pose proof (Z.div_pos dl sz ltac:(lia) ltac:(lia)). lia. }
  apply gruns_bind, gruns_change. assert (Hok' : ok (set_ttl ttl s) e) by by apply ok_ttl. destruct (Z.ltb_spec (size m) (j + sz * n)) as [Hlong|Hfit]; [by apply gruns_err, Hn|].
  assert (Hnn : 0 <= sz * n) by lia.
  apply gruns_bind, gruns_here, runs_eruns. rewrite /bytes_at /in_range (proj2 (Z.leb_le 0 j)) // (proj2 (Z.leb_le 0 _)) // (proj2 (Z.leb_le _ _)); [|rewrite length_app length_fmap; lia].
  apply runs_ret, gruns_bind, gruns_change, gruns_ret. rewrite (slice_packet m rest) //.
  apply Hs; [lia| |].
  - eapply ok_addresses; [done|done|lia|cbn; fold count; lia|]. rewrite /slice length_take length_drop. lia.
  - intros Hb%Z.eqb_neq. cbn. fold count. lia.
Qed.

Lemma gruns_answer_data type class ttl dl j s e (Q : option (Z * bool) -> reading -> evenv -> Prop) :
  0 <= j -> 0 <= dl < 2 ^ 16 -> 0 <= ttl < 2 ^ 32 -> rp_addrcount (rd_reply s) < 32 -> ok s e ->
  (∀ j' s' b e', 0 <= j' -> ok s' e' -> (b = false -> rp_addrcount (rd_reply s') < 32) -> Q (Some (j', b)) s' e') -> (∀ s' e', ok s' e' -> Q None s' e') ->
  gruns (answer_data req packet (size m) type class ttl dl j) s e Q.
Proof.
  intros Hj Hdl Httl Hcnt Hok Hs Hn. rewrite /answer_data. assert (Hskip : Q (Some (j + dl, false)) s e) by (apply Hs; [lia|done|done]).
  destruct ((type =? TYPE_A) && (class =? CLASS_INET)).
  { destruct (Z.eqb_spec (rq_type req) TYPE_A) as [Hta|]; cbn [negb]; [|by apply gruns_ret].
    apply gruns_take_addresses; [by left|by rewrite /address_size Hta|done|done|done|done|done| |]; eauto. }
  destruct ((type =? TYPE_PTR) && (class =? CLASS_INET)).
  { destruct (rq_type req =? TYPE_PTR); cbn [negb]; [|by apply gruns_ret].
    apply gruns_bind, gruns_name_parse; [done|done|done| |intros _; by apply Hn]. intros t k Hr. pose proof (readable_end _ _ _ _ _ Hj Hr).
    apply gruns_bind, gruns_change, gruns_ret, Hs; [lia| |done]. destruct Hr as (ls & p & _ & _ & _ & Hl). by apply ok_name; [apply ok_ttl|]. }
  destruct (type =? TYPE_CNAME).
  { apply gruns_bind, gruns_look. destruct (rd_cname s) as [[c|]|] eqn:Hc; [by apply gruns_ret| |by apply gruns_ret].
    apply gruns_bind, gruns_name_parse; [done|done|done| |intros _; by apply Hn]. intros t k Hr. pose proof (readable_end _ _ _ _ _ Hj Hr).
    apply gruns_bind, gruns_c_str, gruns_bind, gruns_here, runs_eruns. destruct Hok as [H1 H2 H3 H4]. rewrite Hc in H3, H4.
    assert (Hreq : rq_cname req = Some None) by (destruct H3 as [<-|(_ & v & Hv)]; done). rewrite Hreq /= in H4.
    apply (strdup_cut (cut0 t) e0 own); [done| |].
    - intros v e1 _ Ho1. apply gruns_bind, gruns_change, gruns_ret, Hs; [lia| |done]. split; [done|done|right; by split; [|exists v]|by rewrite Hreq].
    - intros e1 _ Ho1. apply gruns_bind, gruns_change, gruns_ret, Hs; [lia| |done]. split; [done|done|by left|by rewrite Hreq]. }
  destruct ((type =? TYPE_AAAA) && (class =? CLASS_INET)); [|by apply gruns_ret].
  destruct (Z.eqb_spec (rq_type req) TYPE_AAAA) as [Hta|]; cbn [negb]; [|by apply gruns_ret].
  apply gruns_take_addresses; [by right|by rewrite /address_size Hta|done|done|done|done|done| |]; eauto.
Qed.

Lemma gruns_reply_answers n : ∀ j s e (Q : option Z -> reading -> evenv -> Prop),
  0 <= j -> rp_addrcount (rd_reply s) < 32 -> ok s e -> (∀ j' s' e', 0 <= j' -> ok s' e' -> Q (Some j') s' e') -> (∀ s' e', ok s' e' -> Q None s' e') ->
  gruns (reply_answers req packet (size m) n j) s e Q.
Proof.
  induction n as [|n IH]; intros j s e Q Hj Hcnt Hok Hs Hn; cbn [reply_answers]; [by apply gruns_ret, Hs|].
  apply gruns_bind, gruns_record_header; [done| |intros _; by apply Hn]. intros t k Hr Hfit. pose proof (readable_end _ _ _ _ _ Hj Hr).
  apply gruns_bind, gruns_answer_data; [lia|apply word16_range; [done|lia|lia]|apply word32_range; lia|done|done| |done].
  intros j' s' b e' Hj' Hok' Hb. destruct b; [by apply gruns_ret, Hs|]. by apply IH; [|apply Hb| | |].
Qed.

Lemma gruns_soa_data {St} j (u : St) e (Q : option (Z * Z) -> St -> evenv -> Prop) :
  0 <= j -> (∀ v k, 0 <= v < 2 ^ 32 -> 0 <= k -> Q (Some (v, k)) u e) -> Q None u e -> gruns (parsed (soa_data packet (size m) j)) u e Q.
Proof.
  intros Hj Hs Hn. rewrite /soa_data. apply gruns_parsed_bind, gruns_SKIP_NAME; [done| |done]. intros t k Hr. pose proof (readable_end _ _ _ _ _ Hj Hr).
  apply gruns_parsed_bind, gruns_SKIP_NAME; [lia| |done]. intros t' k' Hr'. pose proof (readable_end m 256 k t' k' ltac:(lia) Hr').
  do 4 (apply gruns_parsed_bind, gruns_GET32; [lia|intros _|done]). apply gruns_GET32; [lia| |done]. intros Hfit. apply Hs; [apply word32_range; lia|lia].
Qed.

Lemma gruns_reply_authority n : ∀ j s e (Q : option unit -> reading -> evenv -> Prop),
  0 <= j -> ok s e -> (∀ s', ok s' e -> Q (Some tt) s' e) -> (∀ s', ok s' e -> Q None s' e) -> gruns (reply_authority packet (size m) n j) s e Q.
Proof.
  induction n as [|n IH]; intros j s e Q Hj Hok Hs Hn; cbn [reply_authority]; [by apply gruns_ret, Hs|].
  apply gruns_bind, gruns_record_header; [done| |intros _; by apply Hn]. intros t k Hr Hfit. pose proof (readable_end _ _ _ _ _ Hj Hr).
  pose proof (word16_range m (k + 8) Hm ltac:(lia) ltac:(lia)). pose proof (word32_range (k + 4) ltac:(lia) ltac:(lia)).
  destruct (_ && _); [|by apply IH; [lia| | |]]. apply gruns_bind, gruns_soa_data; [lia| |by apply Hn].
  intros v k' Hv Hk'. apply gruns_bind, gruns_change, IH; [done|by apply ok_ttl; [apply ok_ttl|]|done|done].
Qed.

Lemma gruns_reply_body base mq restq flags questions answers authority s e (Q : option unit -> reading -> evenv -> Prop) :
  sent req mq restq -> rp_addrcount (rd_reply s) < 32 -> ok s e ->
  (∀ s' e', asked base mq -> ok s' e' -> Q (Some tt) s' e') -> (∀ s' e', ok s' e' -> Q None s' e') ->
  gruns (reply_body base req packet (size m) flags questions answers authority 12) s e Q.
Proof.
  intros Hsent Hcnt Hok Hs Hn. rewrite /reply_body. destruct (_ && _); [by apply gruns_err, Hn|].
  apply gruns_bind, (gruns_reply_questions base req mq restq); [done|done|done| |by apply Hn]. intros j b Hj Hb.
  destruct b; cbn [negb]; [|by apply gruns_err, Hn]. specialize (Hb eq_refl).
  apply gruns_bind, gruns_reply_answers; [done|done|done| |done]. intros j' s1 e1 Hj' Hok1. apply gruns_bind, gruns_look.
  destruct (rp_have_answer (rd_reply s1)); [by apply gruns_ret, Hs|]. apply gruns_reply_authority; [done|done|intros s2 Hok2; by apply Hs|intros s2 Hok2; by apply Hn].
Qed.
End answers.

End reply.

Lemma reply_header_eq m rest e :
  reply_header ((Some <$> m) ++ rest) (size m) e
    = inr (if 12 <=? size m then Some (word16 m 0, word16 m 2, word16 m 4, word16 m 6, word16 m 8, 12) else None, e).
Proof.
  rewrite /reply_header P_GET16 //. destruct (Z.leb_spec (0 + 2) (size m)); [|by rewrite (proj2 (Z.leb_gt _ _)); [|lia]].
  do 5 (rewrite P_GET16; [|lia]; match goal with |- context [if ?a <=? ?b then _ else _] => destruct (Z.leb_spec a b); [|by rewrite (proj2 (Z.leb_gt _ _)); [|lia]] end).
  by rewrite (proj2 (Z.leb_le 12 _)); [|lia].
Qed.

Lemma request_find_sound base i req : request_find_from_trans_id base i = Some req -> req ∈ REQ_HEAD base i ∧ rq_trans_id req = i.
Proof.
  rewrite /request_find_from_trans_id. destruct (list_find _ _) as [[k r]|] eqn:Hf; [|done]. intros [= <-].
  apply list_find_Some in Hf as (Hk & Hi & _). split; [by eapply list_elem_of_lookup_2|done].
Qed.

(** A request with nothing recorded yet. *)
Lemma reading_ok_start `{limit : HostNameMax} e own req : owned e own e -> reading_ok e own req (Reading (no_reply (rq_type req)) 0xffffffff (rq_cname req)) e.
Proof.
  intros Ho. split; [|cbn; lia|by left|].
  - split; cbn; [done|lia| |exists []; split; [done|apply HOST_NAME_MAX_pos]]. exists []. split; [done|]. cbn. lia.
  - cbn. destruct (rq_cname req) as [[]|]; exact Ho.
Qed.

(** ** Names *)

Lemma name_labels_each s ls : name_labels s ls -> Forall (fun l => 0 < size l < 64 ∧ Forall (fun c => c ≠ 46) l) ls.
Proof. induction 1; repeat (apply Forall_cons; split); done || constructor. Qed.

Lemma labels_name ls : Forall (fun l => 0 < size l < 64 ∧ Forall (fun c => c ≠ 46) l) ls -> name_labels (dotted ls) ls.
Proof.
  destruct ls as [|l ls]; [constructor|]. intros [[Hl Hd] Hls]%Forall_cons. change (dotted (l :: ls)) with (foldl join_label l ls).
  rewrite foldl_join; [|intros ->; cbn in Hl; lia]. revert l Hl Hd. induction Hls as [|l' ls [Hl' Hd'] _ IH]; intros l Hl Hd.
  - rewrite app_nil_r. by constructor.
  - cbn. constructor; [done|done|by apply IH].
Qed.

(** A name as it is read is a name as it is written. *)
Lemma name_ok_dotted s ls : name_ok s -> name_labels s ls -> name_ok (dotted ls) ∧ name_labels (dotted ls) ls ∧ cut0 (dotted ls) = dotted ls.
Proof.
  intros (Ht & H255 & _) Hls. pose proof (labels_name ls (name_labels_each _ _ Hls)) as Hd.
  assert (Hs : is_text (dotted ls) ∧ size (dotted ls) <= 255).
  { destruct (name_labels_dotted s ls Hls) as [Heq|Heq]; rewrite Heq in Ht H255; [done|]. apply Forall_app in Ht as [Ht _]. rewrite length_app in H255. split; [done|lia]. }
  destruct Hs as [Hdt Hd255]. split_and!; [|done|by apply cut0_text]. split_and!; [done|done|by exists ls].
Qed.

Lemma has_name_readable m j s k : name_ok s -> has_name m j s k -> ∃ ls, name_labels s ls ∧ readable m 256 j (dotted ls) k.
Proof.
  intros Hok (ls & p & Hls & Hat & Hp). exists ls. split; [done|]. exists ls, p. split_and!; try done.
  destruct (name_ok_dotted s ls Hok Hls) as [(_ & Hd & _) _]. lia.
Qed.

(** ** Headers *)

Lemma header_words a b c d e f m' :
  let m := header a b c d e f ++ m' in
  word16 m 0 = u16 a ∧ word16 m 2 = u16 b ∧ word16 m 4 = u16 c ∧ word16 m 6 = u16 d ∧ word16 m 8 = u16 e ∧ word16 m 10 = u16 f.
Proof. split_and!; apply of_be_be16, u16_range. Qed.

(** ** A question *)

Definition question_message (m' : list Z) (trans_id type class : Z) : list Z :=
  header trans_id 0x0100 1 0 0 0 ++ m' ++ be16 (u16 type) ++ be16 (u16 class).

Lemma question_message_reads name ls m' trans_id type class :
  name_ok name -> name_labels name ls -> wrote (header trans_id 0x0100 1 0 0 0) m' ls None None ->
  let m := question_message m' trans_id type class in
  Forall is_byte_val m ∧ readable m 256 12 (dotted ls) (12 + size m') ∧ request_of m [(dotted ls, u16 type, u16 class)].
Proof.
  intros Hok Hls [Hb (p & Hat & Hp) _ _] m. set (hdr := header trans_id 0x0100 1 0 0 0) in *.
  destruct (name_ok_dotted name ls Hok Hls) as ((_ & H255 & _) & _ & Hcut).
  assert (Hhdr : size hdr = 12) by done. assert (Hbh : Forall is_byte_val hdr) by apply header_bytes.
  destruct (header_words trans_id 0x0100 1 0 0 0 (m' ++ be16 (u16 type) ++ be16 (u16 class))) as (_ & H2 & H4 & _). fold hdr in H2, H4.
  assert (Hm : m = (hdr ++ m') ++ be16 (u16 type) ++ be16 (u16 class)) by (by rewrite -app_assoc).
  change (hdr ++ m' ++ be16 (u16 type) ++ be16 (u16 class)) with m in H2, H4. clearbody m hdr.
  assert (Hlen : size (hdr ++ m') = 12 + size m') by (rewrite length_app; lia).
  assert (Hbm : Forall is_byte_val (hdr ++ m')) by by apply Forall_app.
  assert (Hr : readable m 256 12 (dotted ls) (12 + size m')).
  { exists ls, p. rewrite Hhdr Hlen in Hat. split_and!; [rewrite Hm; by apply name_at_grows|rewrite Hm length_app; lia|done|lia]. }
  assert (Hsz : size m = 12 + size m' + 4) by (rewrite Hm (length_app (hdr ++ m')) /=; lia).
  split_and!; [rewrite Hm !Forall_app; split_and!; try done; apply be16_bytes|done|]. split_and!; [lia|by rewrite H2|].
  exists (12 + size m' + 4). rewrite H4. change (Z.to_nat (u16 1)) with 1%nat.
  assert (Hq : (dotted ls, u16 type, u16 class) = (cut0 (dotted ls), word16 m (12 + size m'), word16 m (12 + size m' + 2))).
  { rewrite Hcut Hm -Hlen. rewrite word16_at; [|apply u16_range]. replace (size (hdr ++ m') + 2) with (size ((hdr ++ m') ++ be16 (u16 type))) by (rewrite (length_app (hdr ++ m')) /=; lia).
    rewrite app_assoc -(app_nil_r (be16 (u16 class))). by rewrite word16_at; [|apply u16_range]. }
  rewrite Hq. econstructor; [done|lia|constructor].
Qed.

(** ** A reply with addresses *)

Definition a_record (it : server_reply_item) : Prop :=
  it_type it = TYPE_A ∧ it_class it = CLASS_INET ∧ it_is_name it = false ∧ ∃ n, 1 <= n ∧ it_datalen it = 4 * n.

Definition addresses_in (its : list server_reply_item) : Z := foldr (fun it n => it_datalen it / 4 + n) 0 its.

Definition add_answer (s : reading) (it : server_reply_item) : reading :=
  add_addresses (it_datalen it / 4) (Some <$> data_bytes it) (set_ttl (it_ttl it) s).

Lemma addresses_in_pos its : Forall a_record its -> its = [] ∨ 1 <= addresses_in its.
Proof.
  induction 1 as [|it its (_ & _ & _ & n & Hn & Hd) _ IH]; [by left|right]. change (1 <= it_datalen it / 4 + addresses_in its).
  rewrite Hd Z.mul_comm Z.div_mul //. destruct IH as [->|]; [cbn; lia|lia].
Qed.

Section answers.
Context `{limit : HostNameMax} (bad : fault -> Prop) (m : list Z) (rest : list mbyte) (Hm : Forall is_byte_val m) (Hbad : size rest < 63 -> bad OutOfBounds).
Context (req : request) (Hreq : rq_type req = TYPE_A).
Abbreviation packet := ((Some <$> m) ++ rest).
Abbreviation gruns := (gruns bad).

(** A record where it is read. *)
Lemma gruns_record_at {St} it j k (u : St) e (Q : option (Z * Z * Z * Z * Z) -> St -> evenv -> Prop) :
  item_ok it -> 0 <= j -> record_at m j it k ->
  (∀ j1, 0 <= j1 -> k = j1 + 10 + word16 m (j1 + 8) -> k <= size m ->
     (if it_is_name it then ∃ d, it_data it = Some d ∧ has_name m (j1 + 10) (s_text d) k
      else word16 m (j1 + 8) = it_datalen it ∧ slice m (j1 + 10) (it_datalen it) = data_bytes it) ->
     Q (Some (it_type it, it_class it, it_ttl it, word16 m (j1 + 8), j1 + 10)) u e) ->
  gruns (parsed (record_header packet (size m) j)) u e Q.
Proof.
  intros Hok Hj (j1 & Hn & Ht & Hc & Hl & Hk & Hle & Hd) HQ. destruct (has_name_readable _ _ _ _ (io_name _ Hok) Hn) as (ls & _ & Hr).
  apply gruns_record_header; [done|done|done| |].
  - intros t j2 Hr2 _. destruct (readable_det _ _ _ _ _ _ _ _ Hr Hr2) as [_ <-]. rewrite Ht Hc Hl.
    pose proof (readable_end _ _ _ _ _ Hj Hr). apply HQ; [lia|done|lia|done].
  - intros Hno. specialize (Hno _ _ Hr). lia.
Qed.

Lemma gruns_addresses it j s e (Q : option (Z * bool) -> reading -> evenv -> Prop) :
  item_ok it -> a_record it -> 0 <= j -> j + it_datalen it <= size m -> slice m j (it_datalen it) = data_bytes it ->
  0 <= rp_addrcount (rd_reply s) -> rp_addrcount (rd_reply s) + it_datalen it / 4 <= 32 ->
  Q (Some (j + it_datalen it, rp_addrcount (rd_reply s) + it_datalen it / 4 =? 32)) (add_answer s it) e ->
  gruns (take_addresses 4 32 packet (size m) (it_ttl it) (it_datalen it) j) s e Q.
Proof.
  intros [_ _ _ _ Hdata] (_ & _ & Hnn & n & Hn & Hdl) Hj Hfit Hsl Hc0 Hc HQ. rewrite Hnn in Hdata. destruct Hdata as (Hsz & Hlt & _). rewrite /take_addresses.
  assert (Hl : Z.land (it_datalen it) (4 - 1) = 0).
  { change (4 - 1) with (Z.ones 2). rewrite Z.land_ones; [|done]. change (2 ^ 2) with 4. rewrite Hdl Z.mul_comm. by apply Z.mod_mul. }
  rewrite Hl. cbn [Z.eqb negb]. apply gruns_bind, gruns_look.
  assert (Hdiv : it_datalen it / 4 = n) by (by rewrite Hdl Z.mul_comm Z.div_mul). rewrite Hdiv in Hc HQ |- *. rewrite u32_small; [|lia].
  rewrite Z.min_r; [|lia]. rewrite -Hdl. apply gruns_bind, gruns_change. rewrite (proj2 (Z.ltb_ge _ _)); [|lia].
  apply gruns_bind, gruns_here, runs_eruns. rewrite /bytes_at /in_range (proj2 (Z.leb_le 0 j)) // (proj2 (Z.leb_le 0 (it_datalen it))); [|lia].
  rewrite (proj2 (Z.leb_le _ _)); [|rewrite length_app length_fmap; lia]. apply runs_ret, gruns_bind, gruns_change, gruns_ret.
  rewrite (slice_packet m rest) //; [|lia]. rewrite Hsl. rewrite /add_answer Hdiv in HQ. done.
Qed.

Lemma gruns_answers its : ∀ j k s e (Q : option Z -> reading -> evenv -> Prop),
  records_at m j its k -> 0 <= j -> Forall item_ok its -> Forall a_record its ->
  0 <= rp_addrcount (rd_reply s) -> rp_addrcount (rd_reply s) + addresses_in its <= 32 -> (∀ j', Q (Some j') (foldl add_answer s its) e) ->
  gruns (reply_answers req packet (size m) (length its) j) s e Q.
Proof.
  induction its as [|it its IH]; intros j k s e Q Hat Hj Hok Ha Hc0 Hc HQ; cbn [reply_answers length]; [by apply gruns_ret, HQ|].
  inversion Hat as [|? ? ? j1 ? Hrec Hrecs]; subst. inversion Hok as [|? ? Hi Hits]; subst. inversion Ha as [|? ? Hai Hais]; subst.
  change (addresses_in (it :: its)) with (it_datalen it / 4 + addresses_in its) in Hc. pose proof (addresses_in_pos its Hais) as Hpos.
  pose proof Hai as (Hty & Hcl & Hnn & n & Hn & Hdl).
  apply gruns_bind, (gruns_record_at it j j1); [done|done|done|]. intros j2 Hj2 Hj1 Hle Hd. rewrite Hnn in Hd. destruct Hd as [Hw Hsl]. rewrite Hw in Hj1 |- *.
  rewrite /answer_data Hty Hcl Hreq. change ((TYPE_A =? TYPE_A) && (CLASS_INET =? CLASS_INET)) with true. cbn iota. change (negb (TYPE_A =? TYPE_A)) with false. cbn iota.
  assert (Hsum : 0 <= addresses_in its) by (destruct Hpos as [->|]; [done|lia]).
  apply gruns_bind, gruns_addresses; [done|done|lia|lia|done|done|lia|]. destruct (Z.eqb_spec (rp_addrcount (rd_reply s) + it_datalen it / 4) 32) as [H32|H32].
  - apply gruns_ret. destruct Hpos as [->|]; [apply (HQ _)|lia].
  - rewrite -Hj1. eapply IH; [done| |done|done|cbn|cbn; lia|done]; [lia|]. rewrite Hdl Z.mul_comm Z.div_mul //. lia.
Qed.

(** Everything that was found. *)
Lemma foldl_add_answer its s :
  let s' := foldl add_answer s its in
  rp_type (rd_reply s') = rp_type (rd_reply s)
  ∧ rp_have_answer (rd_reply s') = (match its with [] => rp_have_answer (rd_reply s) | _ => true end)
  ∧ rp_addrcount (rd_reply s') = rp_addrcount (rd_reply s) + addresses_in its
  ∧ rp_addresses (rd_reply s') = rp_addresses (rd_reply s) ++ (Some <$> concat (data_bytes <$> its))
  ∧ rp_name (rd_reply s') = rp_name (rd_reply s)
  ∧ rd_ttl s' = foldl Z.min (rd_ttl s) (it_ttl <$> its) ∧ rd_cname s' = rd_cname s.
Proof.
  revert s. induction its as [|it its IH]; intros s; cbn zeta; cbn [foldl fmap list_fmap concat].
  - rewrite /= Z.add_0_r app_nil_r. done.
  - destruct (IH (add_answer s it)) as (H1 & H2 & H3 & H4 & H5 & H6 & H7). rewrite H1 H2 H3 H4 H5 H6 H7. cbn.
    rewrite fmap_app -app_assoc. split_and!; try done; [by destruct its|]. by rewrite -Z.add_assoc.
Qed.

End answers.

Lemma records_at_app m j xs ys k : records_at m j (xs ++ ys) k -> ∃ j', records_at m j xs j'.
Proof.
  revert j. induction xs as [|x xs IH]; intros j; cbn; [intros _; exists j; constructor|]. inversion 1 as [|? ? ? j1 ? Hr Hrs]; subst.
  destruct (IH _ Hrs) as (j' & Hj'). exists j'. by econstructor.
Qed.

Lemma same_name_refl base t : is_text t -> same_name base t t = true.
Proof. intros Ht. rewrite /same_name. destruct (global_randomize_case base); [by apply bool_decide_eq_true_2|]. by rewrite (proj2 (strcasecmp_zero t t Ht Ht)). Qed.

(** The time that is given to the user. *)
Definition least_ttl (its : list server_reply_item) : Z :=
  let t := foldl Z.min 0xffffffff (it_ttl <$> its) in if t =? 0xffffffff then 0 else t.

(** A reply to the request [req], which asked for the name [ls]. *)
Record answers_to (base : evdns_base) (req : request) (ls : list (list Z)) (r : server_request) (flags : Z) : Prop := {
  an_find : request_find_from_trans_id base (sr_trans_id r) = Some req;
  an_type : rq_type req = TYPE_A;
  an_sent : ∃ mq restq k, sent req mq restq ∧ readable mq 256 12 (dotted ls) k;
  an_question : ∃ q, sr_questions r = [q] ∧ name_labels (q_name q) ls;
  an_ids : 0 <= sr_trans_id r < 2 ^ 16;
  an_flags : 0 <= flags < 2 ^ 16 ∧ has_flag 0x8000 flags = true ∧ has_flag 0x020f flags = false;
  an_count : sr_n_answer r = Z.of_nat (length (sr_answer r)) ∧ size (sr_answer r) < 2 ^ 16;
  an_records : sr_answer r ≠ [] ∧ Forall a_record (sr_answer r) ∧ addresses_in (sr_answer r) <= 32 }.

Lemma queries_at_end m j qs k : 0 <= j -> queries_at m j qs k -> j <= k.
Proof. intros Hj H. revert Hj. induction H as [j|j q qs j1 k Hn Hl _ _ Hq IH]; intros Hj; [lia|]. pose proof (has_name_end _ _ _ _ Hj Hn). lia. Qed.

(** The question of a reply is the one that was asked. *)
Lemma gruns_question_asked {St} bad m rest (Hm : Forall is_byte_val m) (Hbad : size rest < 63 -> bad OutOfBounds) base req mq restq kq q ls k (u : St) e
    (Q : option (Z * bool) -> St -> evenv -> Prop) :
  question_ok q -> name_labels (q_name q) ls -> sent req mq restq -> readable mq 256 12 (dotted ls) kq -> queries_at m 12 [q] k ->
  Q (Some (k, true)) u e -> gruns bad (parsed (reply_questions base req ((Some <$> m) ++ rest) (size m) 1 12 false)) u e Q.
Proof.
  intros (Hnok & _) Hls Hsent Hrq Hqs HQ. destruct (name_ok_dotted _ _ Hnok Hls) as ((Hdt & _) & _ & Hcut).
  inversion Hqs as [|? ? ? j1 ? Hn Hl _ _ Hq0]; subst. inversion Hq0; subst. destruct (has_name_readable _ _ _ _ Hnok Hn) as (ls' & Hls' & Hr).
  rewrite -(name_labels_det _ _ _ Hls Hls') in Hr. cbn [reply_questions].
  apply gruns_parsed_bind, (gruns_TEST_NAME _ _ _ Hm Hbad base req mq restq); [done|done| |intros Hno; by destruct (Hno _ _ _ _ Hr Hrq)].
  intros t j2 tq kq' Hr2 Hrq2. destruct (readable_det _ _ _ _ _ _ _ _ Hr Hr2) as [<- <-]. destruct (readable_det _ _ _ _ _ _ _ _ Hrq Hrq2) as [<- _].
  rewrite (proj2 (Z.ltb_ge _ _)); [|lia]. rewrite Hcut same_name_refl //.
Qed.

Lemma runs_reply_addresses `{limit : HostNameMax} base req ls r flags m rest e (Q : Z * option reply_call -> evenv -> Prop) :
  request_ok r -> answers_to base req ls r flags -> response_of m r flags -> 63 <= size rest ->
  Q (0, Some (Call (with_cname (rq_cname req) req) flags (least_ttl (sr_answer r))
       (Some (Reply TYPE_A true (addresses_in (sr_answer r)) (Some <$> concat (data_bytes <$> sr_answer r)) [])))) e ->
  runs (reply_parse base ((Some <$> m) ++ rest) (size m)) e Q.
Proof.
  intros [Hqok Hiok] [Hf Hty (mq & restq & kq & Hsent & Hrq) (q & Hq & Hls) Hid (Hfr & H8 & Hn2) (Hcnt & Hlt) (Hne & Ha & H32)] (Hm & (m' & Hmh) & k & Hqs & Hrs) H63 HQ.
  apply (runs_eruns_none (fun _ => False)); [by intros ? []|]. rewrite /reply_parse. apply eruns_bind. rewrite {1}/eruns reply_header_eq.
  destruct (header_words (sr_trans_id r) flags (size (sr_questions r)) (sr_n_answer r) (sr_n_authority r) (sr_n_additional r) m') as (H0 & H2 & H4 & H6 & _).
  fold (response_header r flags) in H0, H2, H4, H6. rewrite -Hmh Hq in H0, H2, H4, H6. rewrite u16_small // in H0. rewrite u16_small // in H2.
  assert (H12 : 12 <= size m) by (rewrite Hmh length_app; change (length (response_header r flags)) with 12%nat; lia).
  rewrite (proj2 (Z.leb_le 12 _)) // H0 Hf H2 H8. cbn [negb].
  apply eruns_bind, gruns_eruns. rewrite /reply_body Hn2. cbn [andb]. rewrite H4 H6 Hcnt (u16_small (size (sr_answer r))); [|lia]. rewrite Nat2Z.id. change (Z.to_nat (u16 (size [q]))) with 1%nat.
  rewrite Hq in Hqok, Hqs. assert (Hbad : size rest < 63 -> False) by lia.
  apply gruns_bind, (gruns_question_asked _ m rest Hm Hbad base req mq restq kq q ls k); [by inversion Hqok|done|done|done|done|].
  cbn [negb]. destruct (records_at_app _ _ _ _ _ Hrs) as (k1 & Hrec). pose proof (queries_at_end m 12 _ k ltac:(lia) Hqs) as Hk.
  apply Forall_app in Hiok as [Hiok _].
  apply gruns_bind, (gruns_answers _ m rest Hm Hbad req Hty _ _ k1); [done|lia|done|done|done|done|]. intros j'. apply gruns_bind, gruns_look.
  destruct (foldl_add_answer (sr_answer r) (Reading (no_reply (rq_type req)) 0xffffffff (rq_cname req))) as (F1 & F2 & F3 & F4 & F5 & F6 & F7).
  set (s := foldl _ _ _) in *. assert (Hhave : rp_have_answer (rd_reply s) = true) by (rewrite F2; by destruct (sr_answer r)). rewrite Hhave. apply gruns_ret, eruns_ret.
  assert (Hrep : rd_reply s = Reply TYPE_A true (addresses_in (sr_answer r)) (Some <$> concat (data_bytes <$> sr_answer r)) []).
  { destruct (rd_reply s) as [t h c a n]. cbn in *. by rewrite F1 Hhave F3 F4 F5 Hty. }
  rewrite Hrep F6 F7. exact HQ.
Qed.

(** ** Both ends *)

Lemma questions_at_det m n j qs k qs' k' : questions_at m n j qs k -> questions_at m n j qs' k' -> qs = qs' ∧ k = k'.
Proof.
  intros H. revert qs' k'. induction H as [j|n j t j' qs k Hr Hl Hq IH]; intros qs' k' H'; inversion H' as [|? ? t2 j2 qs2 ? Hr2 _ Hq2]; subst; [done|].
  destruct (readable_det _ _ _ _ _ _ _ _ Hr Hr2) as [<- <-]. by destruct (IH _ _ Hq2) as [<- <-].
Qed.

Lemma request_of_det m qs qs' : request_of m qs -> request_of m qs' -> qs = qs'.
Proof. intros (_ & _ & k & H) (_ & _ & k' & H'). by destruct (questions_at_det _ _ _ _ _ _ _ H H'). Qed.

(** A client asks for the addresses of a name, a server answers what it is asked,
    and the client reads that: the call of the user's function. *)
Definition exchange `{limit : HostNameMax} (name : list Z) (trans_id n ttl : Z) (addrs : list Z) (buf server_array client_array : list mbyte) (randomize_case : bool) : E (option user_call) :=
  '(len, buf) ← evdns_request_data_build name trans_id TYPE_A CLASS_INET buf;
  o ← request_parse (take (Z.to_nat len) buf ++ server_array) len;
  match o with
  | Callback r =>
      match sr_questions r with
      | [q] =>
          '(_, r) ← evdns_server_request_add_a_reply r (q_name q) n (Some addrs) ttl;
          '(_, r) ← evdns_server_request_format_response r 0;
          match sr_response r with
          | Some (_, bytes) =>
              '(_, c) ← reply_parse (DnsBase [[Request buf TYPE_A len trans_id None]] randomize_case) (bytes ++ client_array) (size bytes);
              match c with
              | Some c =>
                  let err := reply_error (ca_flags c) (ca_reply c) in
                  u ← reply_run_callback (reply_schedule_callback (ca_req c) (ca_ttl c) (default 0 err) (match err with None => ca_reply c | Some _ => None end));
                  mret (Some u)
              | None => mret None
              end
          | None => mret None
          end
      | _ => mret None
      end
  | _ => mret None
  end.

(** The record of an answer with addresses. *)
Lemma address_item_ok name n ttl addrs it :
  name_ok name -> 1 <= n <= 32 -> size addrs = 4 * n -> Forall is_byte_val addrs -> 0 <= ttl < 2 ^ 32 ->
  item_of name TYPE_A CLASS_INET ttl (n * 4) false (Some addrs) it ->
  item_ok it ∧ a_record it ∧ data_bytes it = addrs ∧ it_datalen it = 4 * n ∧ it_ttl it = ttl.
Proof.
  intros Hok Hn Hsz Hb Httl [Hnm Hty Hcl Htt Hin (v & Hv & Hvt & Hlen)]. rewrite u16_small in Hlen; [|lia]. rewrite u32_small // in Htt.
  assert (Hd : data_bytes it = addrs).
  { rewrite /data_bytes Hv Hvt Hlen take_take. rewrite take_ge; [done|lia]. }
  assert (Hl : it_datalen it = 4 * n) by lia. split_and!; [|split_and!; [done|done|done|by exists n; split; [lia|]]|done|done|done].
  split; [by rewrite Hnm|by rewrite Hty|by rewrite Hcl|by rewrite Htt|]. rewrite Hin Hd Hl. split_and!; [lia|lia|done].
Qed.

(** What the client is told when a reply comes that fits. *)
Lemma runs_client_told `{limit : HostNameMax} randomize_case req ls r m rest e (Q : option user_call -> evenv -> Prop) :
  request_ok r -> answers_to (DnsBase [[req]] randomize_case) req ls r 0x8100 -> response_of m r 0x8100 -> 63 <= size rest ->
  Q (Some (UserCall DNS_ERR_NONE DNS_IPv4_A (addresses_in (sr_answer r)) (least_ttl (sr_answer r)) (Some (Some <$> concat (data_bytes <$> sr_answer r))))) e ->
  runs ('(_, c) ← reply_parse (DnsBase [[req]] randomize_case) ((Some <$> m) ++ rest) (size (Some <$> m));
        match c with
        | Some c =>
            let err := reply_error (ca_flags c) (ca_reply c) in
            u ← reply_run_callback (reply_schedule_callback (ca_req c) (ca_ttl c) (default 0 err) (match err with None => ca_reply c | Some _ => None end));
            mret (Some u)
        | None => mret None
        end) e Q.
Proof.
  intros Hok Han Hr H63 HQ. rewrite length_fmap. apply runs_bind. eapply runs_reply_addresses; [done|done|done|done|].
  cbn [ca_flags ca_reply ca_req ca_ttl]. change (reply_error 0x8100 _) with (@None Z). cbn zeta. cbn [default].
  rewrite /reply_run_callback /reply_schedule_callback /=. rewrite (an_type _ _ _ _ _ Han). by apply runs_ret.
Qed.

(** What a server answers if it has memory and the reply fits. *)
Lemma runs_server_answers {A} e0 i trans_id a q n ttl addrs (k : server_request -> E A) e (Q : A -> evenv -> Prop) :
  let r := new_request i trans_id 0x0100 (Some a) [q] in
  question_ok q -> 1 <= n <= 32 -> size addrs = 4 * n -> Forall is_byte_val addrs -> 0 <= ttl < 2 ^ 32 -> 2 * size (q_name q) + 4 * n <= 482 ->
  ev_oom e0 = [] -> owned e0 (request_ids r) e ->
  (∀ it i' m e', let r' := add_item EVDNS_ANSWER_SECTION it r in
     request_ok r' -> a_record it -> data_bytes it = addrs -> it_datalen it = 4 * n -> it_ttl it = ttl -> response_of m r' 0x8100 ->
     owned e0 (request_ids (set_response (Some (i', Some <$> m)) (set_items [] [] [] r'))) e' ->
     runs (k (set_response (Some (i', Some <$> m)) (set_items [] [] [] r'))) e' Q) ->
  runs ('(_, r) ← evdns_server_request_add_a_reply r (q_name q) n (Some addrs) ttl; '(_, r) ← evdns_server_request_format_response r 0; k r) e Q.
Proof.
  intros r Hq Hn Hsz Hb Httl Hspace Hmem Ho HQ. pose proof Hq as (Hnok & _). pose proof Hnok as (Hnt & _).
  apply runs_bind. rewrite /evdns_server_request_add_a_reply /evdns_server_request_add_reply. cbn [sr_response r new_request]. change (negb (is_section EVDNS_ANSWER_SECTION)) with false. cbn iota.
  apply runs_bind, (runs_new_item e0 (request_ids r)); [done|cbn; lia|done| |intros e' [Hne|Hneg]; [done|lia]].
  intros it e1 Hit Ho1. apply runs_ret. destruct (address_item_ok _ _ _ _ _ Hnok Hn Hsz Hb Httl Hit) as (Hiok & Ha & Hdb & Hdl & Htt).
  set (r' := add_item EVDNS_ANSWER_SECTION it r). assert (Ho1' : owned e0 (request_ids r') e1) by (eapply owned_perm; [|exact Ho1]; by rewrite request_ids_add).
  assert (Hrok : request_ok r') by (split; by apply Forall_singleton).
  assert (Hsp : response_space r' <= 512).
  { destruct Hit as [Hnm _ _ _ Hin _]. rewrite /response_space /items /questions_space /records_space /total /= /question_space /record_space /name_space Hin Hnm Hdl. lia. }
  apply runs_bind, (runs_eruns_none (over_buffer r')); [intros f [_ Hf]; lia|]. pose proof (eruns_format_response e0 r' 0 e1 Hrok eq_refl ltac:(lia) Ho1') as Hf.
  rewrite /eruns in Hf |- *. destruct (evdns_server_request_format_response r' 0 e1) as [f|[[ret r2] e2]]; [done|].
  rewrite /formatted in Hf. cbn [fst snd] in Hf. destruct Hf as (Ho2 & [(_ & i' & bytes & -> & [m Hm _ ->|m _ Hlong _|m rest Hlong _ _ _])|[(_ & _ & Hne)|(_ & _ & Hlong)]]); [|lia|lia|done|].
  2: { rewrite /response_space in Hsp. pose proof (records_space_pos (items r') ltac:(apply Hrok)). lia. }
  by apply HQ.
Qed.
