(* ===== verification/EvDnsCorrect.v ===== *)
(** * Correctness of evdns.c *)

From Stdlib Require Import ssreflect.
From S2P Require Import Prelude CTypes HProp CMem CLib EvBuffer EvBufSpec EvUtil EvErr EvUri EvUriSpec EvMem EvQuery EvDns EvDnsServer EvDnsClient EvDnsSpec EvDnsOps EvDnsWrite EvDnsRead.
Set Warnings "-rewrite-rw".
Open Scope general_if_scope.
Open Scope Z_scope.
#[local] Existing Instance linux_host_name.

(** C2: name_parse, for any message in the array it was received into: it ends, and
    it finds a name exactly if the message has one at the index, reached over no
    more pointers than the message has bytes and shorter than the array for it; the
    name is that of the labels with dots in between.  It reads up to 63 bytes behind
    the message: what it reads lies in the array if that is 63 bytes longer than the
    message, and only otherwise may it leave the array. *)
Theorem name_parse_equiv m rest n j e :
  Forall is_byte_val m -> 0 <= j ->
  match name_parse ((Some <$> m) ++ rest) (size m) j n e with
  | inl f => f = OutOfBounds ∧ size rest < 63
  | inr (r, e') => e' = e ∧ ∀ cp k, r = Some (cp, k) <-> ∃ t, cp = Some <$> t ∧ readable m n j t k
  end.
Proof.
  intros Hm Hj. pose proof (name_parse_parses m rest n Hm j e Hj) as H.
  destruct (name_parse _ _ _ _ e) as [f|[[[cp k]|] e']]; cbn in H; [done| |].
  - destruct H as (-> & ls & p & k0 & Hat & Hp & Hl & -> & ->). split; [done|]. intros cp' k'. split.
    + intros [= <- <-]. exists (dotted ls). split; [done|]. by exists ls, p.
    + intros (t & -> & ls' & p' & Hat' & _ & -> & _). by destruct (name_at_det _ _ _ _ _ _ _ _ Hat Hat') as (-> & _ & ->).
  - destruct H as [-> H]. split; [done|]. intros cp' k'. split; [done|]. intros (t & _ & ls & p & Hat & Hp & -> & Hl).
    specialize (H ls p k' Hat Hp). rewrite /dotted in Hl. lia.
Qed.

Lemma name_parse_equiv_witness :
  let m := [3; 119; 119; 119; 0; 1; 97; 192; 0] in
  Forall is_byte_val m ∧ readable m 256 5 (str "a.www") 9.
Proof.
  intros m. assert (Hm : Forall is_byte_val m) by (repeat constructor; vm_compute; congruence). split; [exact Hm|].
  pose proof (name_parse_equiv m [] 256 5 (EvEnv 1 [] []) Hm ltac:(lia)) as H.
  assert (Hrun : name_parse ((Some <$> m) ++ []) (size m) 5 256 (EvEnv 1 [] []) = inr (Some (Some <$> str "a.www", 9), EvEnv 1 [] [])) by (vm_compute; reflexivity).
  rewrite Hrun in H. destruct H as [_ H]. destruct (proj1 (H (Some <$> str "a.www") 9) eq_refl) as (t & Heq & Hr).
  assert (Hinj : Inj (=) (=) (fmap (M:=list) (@Some Z))) by apply _. apply Hinj in Heq. rewrite Heq. exact Hr.
Defined.

(** A label that is longer than the message: its length says 63, and all of that is read. *)
Example name_parse_overread e : name_parse ([Some 63] ++ replicate 62 None) 1 0 256 e = inl OutOfBounds.
Proof. reflexivity. Qed.

(** C10: dnsname_to_labels writes a name that name_parse reads back, with whatever
    follows it, for any name of labels of 1 to 63 bytes and any table of names that
    can be read in the message so far; the same holds of the table afterwards, and
    the strings in it are all the memory that is kept.  The name is refused, or the
    byte behind the array is written, only if there are less than two bytes more
    than the name has. *)
Theorem dnsname_to_labels_name_parse e0 name ls m rest table e :
  is_text name -> size name <= 255 -> name_labels name ls -> Forall is_byte_val m -> size m + size rest <= 2 ^ 14 -> table_ok m table ->
  owned e0 (table_ids table) e ->
  match dnsname_to_labels name (draft_of m rest table) e with
  | inl f => f = OutOfBounds ∧ size rest < size name + 2
  | inr (r, d, e') =>
      owned e0 (table_ids (d_table d)) e'
      ∧ ((r = -2 ∧ size rest < size name + 2)
         ∨ ∃ m' rest', r = size (m ++ m') ∧ d = draft_of (m ++ m') rest' (d_table d) ∧ table_ok (m ++ m') (d_table d)
             ∧ ∀ more array e2, Forall is_byte_val more -> 63 <= size array ->
                 name_parse ((Some <$> ((m ++ m') ++ more)) ++ array) (size ((m ++ m') ++ more)) (size m) 256 e2
                   = inr (Some (Some <$> dotted ls, size (m ++ m')), e2))
  end.
Proof.
  intros Ht H255 Hls Hm Hsz Htab Ho.
  set (Q := fun (x : option Z) (d : draft) e' => ∀ r, x = Some r -> owned e0 (table_ids (d_table d)) e'
      ∧ ((r = -2 ∧ size rest < size name + 2)
         ∨ ∃ m' rest', r = size (m ++ m') ∧ d = draft_of (m ++ m') rest' (d_table d) ∧ table_ok (m ++ m') (d_table d)
             ∧ ∀ more array e2, Forall is_byte_val more -> 63 <= size array ->
                 name_parse ((Some <$> ((m ++ m') ++ more)) ++ array) (size ((m ++ m') ++ more)) (size m) 256 e2
                   = inr (Some (Some <$> dotted ls, size (m ++ m')), e2))).
  assert (Hrun : gruns (fun f => f = OutOfBounds ∧ size rest < size name + 2) (add_name name) (draft_of m rest table) e Q).
  2: { rewrite /gruns /eruns /add_name /mbind /E_bind in Hrun. destruct (dnsname_to_labels name (draft_of m rest table) e) as [f|[[r d] e']]; [done|].
    by apply Hrun. }
  apply (gruns_add_name _ e0 [] name ls); [done|done|done|done|done|done|by rewrite app_nil_r|done| |].
  - intros rest' table' e' H1 H2 Ho' r [= <-]. rewrite app_nil_r in Ho'. split; [done|by left].
  - intros m' rest' table' e' H1 H2 [Hb (p & Hat & Hp) _ _] Htab' Ho' r [= <-]. rewrite app_nil_r in Ho'. split; [done|right].
    exists m', rest'. split_and!; [done|done|done|]. intros more array e2 Hmore H63.
    assert (Hbm : Forall is_byte_val (m ++ m')) by by apply Forall_app. apply name_parse_readable; [by apply Forall_app|done|lia|].
    assert (Hnok : name_ok name) by (split_and!; [done|done|by exists ls]). destruct (name_ok_dotted name ls Hnok Hls) as ((_ & Hd & _) & _).
    exists ls, p. split_and!; [apply name_at_grows; [lia|done|done]|rewrite length_app; lia|done|lia].
Qed.

Lemma dnsname_to_labels_name_parse_witness :
  let e0 := EvEnv 1 [] [] in
  ∃ d e', dnsname_to_labels (str "a.b") (draft_of [] (replicate 10 None) (Some [])) e0 = inr (5, d, e')
    ∧ owned e0 (table_ids (d_table d)) e' ∧ table_ids (d_table d) = [1%positive; 2%positive].
Proof.
  intros e0. assert (Ht : is_text (str "a.b")) by (vm_compute; repeat constructor).
  assert (Hl : name_labels (str "a.b") [str "a"; str "b"]).
  { apply (labels_more (str "a") (str "b")); [vm_compute; by split|repeat constructor; vm_compute; congruence|].
    apply labels_last; [vm_compute; by split|repeat constructor; vm_compute; congruence]. }
  pose proof (dnsname_to_labels_name_parse e0 (str "a.b") _ [] (replicate 10 None) (Some []) e0 Ht ltac:(vm_compute; congruence) Hl (Forall_nil_2 _) ltac:(vm_compute; congruence)) as H.
  assert (Hrun : ∃ d e', dnsname_to_labels (str "a.b") (draft_of [] (replicate 10 None) (Some [])) e0 = inr (5, d, e') ∧ table_ids (d_table d) = [1%positive; 2%positive])
    by (eexists _, _; split; vm_compute; reflexivity).
  destruct Hrun as (d & e' & Hrun & Hids). rewrite Hrun in H. exists d, e'. split; [exact Hrun|]. split; [|exact Hids].
  apply H; [|apply owned_nothing]. intros v pos Hv. by apply not_elem_of_nil in Hv.
Defined.

(** C16: request_parse, for any message in the array it was received into and any
    outcome of the allocator: the callback gets exactly the messages that are no
    answers and have as many questions as their header says, with those questions,
    the id and two of the flags; a message that is ignored leaves no memory behind.
    A query with another operation code is never answered as not implemented.  Only
    in an array that is less than 63 bytes longer than the message may it read
    behind the end. *)
Theorem request_parse_questions m rest e :
  Forall is_byte_val m ->
  match request_parse ((Some <$> m) ++ rest) (size m) e with
  | inl f => f = OutOfBounds ∧ size rest < 63
  | inr (Ignored, e') => owned e [] e' ∧ (ev_oom e ≠ [] ∨ ∀ qs, ¬ request_of m qs)
  | inr (Callback r, e') =>
      owned e (request_ids r) e' ∧ request_of m (question_text <$> sr_questions r)
      ∧ sr_trans_id r = word16 m 0 ∧ sr_flags r = Z.land (word16 m 2) 0x0110 ∧ items r = [] ∧ sr_response r = None
  | inr (NotImplemented _, _) => False
  end.
Proof.
  intros Hm. set (Q := fun o e' => match o with
    | Ignored => owned e [] e' ∧ (ev_oom e ≠ [] ∨ ∀ qs, ¬ request_of m qs)
    | Callback r => owned e (request_ids r) e' ∧ request_of m (question_text <$> sr_questions r)
      ∧ sr_trans_id r = word16 m 0 ∧ sr_flags r = Z.land (word16 m 2) 0x0110 ∧ items r = [] ∧ sr_response r = None
    | NotImplemented _ => False end).
  assert (Hrun : eruns (fun f => f = OutOfBounds ∧ size rest < 63) (request_parse ((Some <$> m) ++ rest) (size m)) e Q).
  { apply eruns_request_parse; [done|done| |].
    - intros i a qs e' Hr r Ho. by split_and!.
    - intros e' Hwhy Ho. by split. }
  rewrite /eruns in Hrun. by destruct (request_parse _ _ e) as [|[[|r|r] e']].
Qed.

Lemma request_parse_questions_witness :
  let m := header 7 0x0100 1 0 0 0 ++ [1; 97; 0; 0; 1; 0; 1] in
  Forall is_byte_val m ∧ request_of m [([97], 1, 1)].
Proof.
  intros m. assert (Hm : Forall is_byte_val m) by (repeat constructor; vm_compute; congruence). split; [exact Hm|].
  pose proof (request_parse_questions m (replicate 63 None) (EvEnv 1 [] []) Hm) as H.
  assert (Hrun : ∃ r e', request_parse ((Some <$> m) ++ replicate 63 None) (size m) (EvEnv 1 [] []) = inr (Callback r, e') ∧ question_text <$> sr_questions r = [([97], 1, 1)])
    by (eexists _, _; split; vm_compute; reflexivity).
  destruct Hrun as (r & e' & Hrun & Hq). rewrite Hrun Hq in H. exact (proj1 (proj2 H)).
Defined.



(** C25: reply_parse, for any message in the array it was received into and any
    value of HOST_NAME_MAX: it ends, and it reads up to 63 bytes behind the message,
    so nothing but its array if that is 63 bytes longer than the message; only
    otherwise may it leave the array.  It calls reply_handle for no other request
    than the one in flight with the transaction id of the message, for an answer
    only.  It hands over a reply only if a question of the message has the name that
    was asked for; then it has at most 32 addresses of the size that goes with the
    type of the request, complete and from the message, and a name that fits its
    array.  No memory is allocated but for a canonical name that the request wants.
    *)
Theorem reply_parse_safe `{limit : HostNameMax} base m rest e :
  Forall is_byte_val m -> (∀ i req, request_find_from_trans_id base i = Some req -> ∃ mq restq, sent req mq restq) ->
  match reply_parse base ((Some <$> m) ++ rest) (size m) e with
  | inl f => f = OutOfBounds ∧ size rest < 63
  | inr (ret, None, e') => ret = -1 ∧ e' = e
  | inr (ret, Some c, e') =>
      ∃ req mq restq, request_find_from_trans_id base (word16 m 0) = Some req ∧ sent req mq restq ∧ rq_trans_id req = word16 m 0
        ∧ has_flag 0x8000 (word16 m 2) = true ∧ ca_flags c = word16 m 2 ∧ ca_req c = with_cname (rq_cname (ca_req c)) req
        ∧ owned e (new_cname (rq_cname req) (rq_cname (ca_req c))) e'
        ∧ match ca_reply c with
          | None => ret = -1 ∧ ca_ttl c = 0
          | Some r => ret = 0 ∧ asked m base mq ∧ reply_ok (rq_type req) r ∧ 0 <= ca_ttl c < 2 ^ 32 - 1
          end
  end.
Proof.
  intros Hm Hreqs. rewrite /reply_parse. rewrite {1}/mbind /E_bind reply_header_eq. destruct (Z.leb_spec 12 (size m)) as [H12|Hshort]; [|done].
  destruct (request_find_from_trans_id base (word16 m 0)) as [req|] eqn:Hf; [|done]. destruct (has_flag 0x8000 (word16 m 2)) eqn:Hfl; [|done]. cbn [negb].
  destruct (Hreqs _ _ Hf) as (mq & restq & Hsent). set (bad := fun f => f = OutOfBounds ∧ size rest < 63).
  pose proof (gruns_reply_body bad m rest Hm ltac:(done) e [] req base mq restq (word16 m 2) (word16 m 4) (word16 m 6) (word16 m 8)
    (Reading (no_reply (rq_type req)) 0xffffffff (rq_cname req)) e
    (fun ok s e' => reading_ok e [] req s e' ∧ (ok = Some tt -> asked m base mq)) Hsent ltac:(done) (reading_ok_start _ _ _ (owned_nothing e))) as Hrun.
  specialize (Hrun ltac:(done) ltac:(done)). rewrite /gruns /eruns in Hrun. rewrite /mbind /E_bind.
  destruct (reply_body _ _ _ _ _ _ _ _ _ _ e) as [f|[[ok s] e']]; [done|]. destruct Hrun as [[Hr Ht _ Ho] Hasked]. cbn [fst snd] in *. rewrite app_nil_r in Ho.
  destruct (request_find_sound _ _ _ Hf) as [_ Hid].
  destruct ok as [[]|]; exists req, mq, restq; cbn [ca_flags ca_req ca_reply ca_ttl rq_cname with_cname]; split_and!; try done; [by apply Hasked|..].
  all: destruct (Z.eqb_spec (rd_ttl s) 0xffffffff); lia.
Qed.

(** The request for a.b, and a reply to it. *)
Definition request_ab : request :=
  Request ((Some <$> header 7 0x0100 1 0 0 0 ++ [1; 97; 1; 98; 0; 0; 1; 0; 1]) ++ replicate 84 None) TYPE_A 21 7 None.
Definition reply_ab : list Z := header 7 0x8180 1 1 0 0 ++ [1; 65; 1; 66; 0; 0; 1; 0; 1; 192; 12; 0; 1; 0; 1; 0; 0; 0; 60; 0; 4; 10; 0; 0; 1].

Lemma reply_parse_safe_witness :
  let base := DnsBase [[request_ab]] false in
  ∃ c e', reply_parse base ((Some <$> reply_ab) ++ replicate 63 None) (size reply_ab) (EvEnv 1 [] []) = inr (0, Some c, e')
    ∧ ca_ttl c = 60 ∧ ∃ r, ca_reply c = Some r ∧ reply_ok TYPE_A r ∧ rp_addresses r = Some <$> [10; 0; 0; 1].
Proof.
  intros base. assert (Hm : Forall is_byte_val reply_ab) by (repeat constructor; vm_compute; congruence).
  assert (Hreqs : ∀ i req, request_find_from_trans_id base i = Some req -> ∃ mq restq, sent req mq restq).
  { intros i req (Hin & _)%request_find_sound. rewrite /REQ_HEAD /n_req_heads in Hin. cbn [base req_heads length] in Hin. rewrite Z.mod_1_r in Hin. change (Z.to_nat 0) with 0%nat in Hin. cbn [nth] in Hin. apply list_elem_of_singleton in Hin as ->.
    eexists _, _. split; [reflexivity|]. split; [reflexivity|]. split; [repeat constructor; vm_compute; congruence|vm_compute; congruence]. }
  pose proof (reply_parse_safe base reply_ab (replicate 63 None) (EvEnv 1 [] []) Hm Hreqs) as H.
  assert (Hrun : ∃ c e', reply_parse base ((Some <$> reply_ab) ++ replicate 63 None) (size reply_ab) (EvEnv 1 [] []) = inr (0, Some c, e') ∧ ca_ttl c = 60
    ∧ ∃ r, ca_reply c = Some r ∧ rp_addresses r = Some <$> [10; 0; 0; 1]).
  { eexists _, _. split; [vm_compute; reflexivity|]. split; [reflexivity|]. eexists _. split; reflexivity. }
  destruct Hrun as (c & e' & Hrun & Ht & r & Hr & Ha). rewrite Hrun in H. destruct H as (req & mq & restq & Hf & _ & _ & _ & _ & _ & _ & H).
  rewrite Hr in H. destruct H as (_ & _ & Hok & _). exists c, e'. split; [exact Hrun|]. split; [exact Ht|]. exists r. split; [exact Hr|]. split; [|exact Ha].
  apply request_find_sound in Hf as [Hin _]. rewrite /REQ_HEAD /n_req_heads in Hin. cbn [base req_heads length] in Hin. rewrite Z.mod_1_r in Hin. change (Z.to_nat 0) with 0%nat in Hin. cbn [nth] in Hin. apply list_elem_of_singleton in Hin as ->. exact Hok.
Defined.

(** C38: A client that asks for the addresses of a name is told just the addresses
    and the time to live that a server gives in its answer to the question as it
    received it: for any name of labels of 1 to 63 bytes, with or without a dot at
    its end, for 1 to 32 addresses, with the 0x20 check of the letters' case or
    without it, if the reply is sure to fit 512 bytes, both sides have memory, and
    the arrays they receive into are 63 bytes longer than the messages. *)
Theorem evdns_exchange `{limit : HostNameMax} name trans_id n ttl addrs buf server_array client_array randomize_case e :
  name_ok name -> 0 <= trans_id < 2 ^ 16 -> 1 <= n <= 32 -> size addrs = 4 * n -> Forall is_byte_val addrs -> 0 <= ttl < 2 ^ 32 - 1 ->
  2 * size name + 4 * n <= 482 -> size buf = evdns_request_len (size name) -> 63 <= size server_array -> 63 <= size client_array -> ev_oom e = [] ->
  runs (exchange name trans_id n ttl addrs buf server_array client_array randomize_case) e (fun u _ =>
    u = Some (UserCall DNS_ERR_NONE DNS_IPv4_A n ttl (Some (Some <$> addrs)))).
Proof.
  intros Hnok Hid Hn Hsz Hb Httl Hspace Hbuf Hsa Hca Hmem. pose proof Hnok as (Hnt & Hn255 & ls & Hls). rewrite /exchange.
  apply runs_bind, (runs_data_build name ls); [done|done|done|rewrite /evdns_request_len in Hbuf |- *; lia|].
  intros m' rest e1 Hw Hsm Ho m Hm. fold (question_message m' trans_id TYPE_A CLASS_INET) in m.
  destruct (question_message_reads name ls m' trans_id TYPE_A CLASS_INET Hnok Hls Hw) as (Hbm & Hread & Hreq). fold m in Hbm, Hread, Hreq.
  assert (Hlm : size m = 12 + size m' + 4) by (rewrite /m /question_message !length_app; cbn; lia).
  assert (H0 : word16 m 0 = trans_id ∧ Z.land (word16 m 2) 0x0110 = 0x0100).
  { destruct (header_words trans_id 0x0100 1 0 0 0 (m' ++ be16 (u16 TYPE_A) ++ be16 (u16 CLASS_INET))) as (H0 & H2 & _).
    fold (question_message m' trans_id TYPE_A CLASS_INET) in H0, H2. fold m in H0, H2. rewrite H0 H2 u16_small //. }
  destruct H0 as [H0 H2]. clearbody m.
  assert (Htake : take (Z.to_nat (size m)) ((Some <$> m) ++ rest) = Some <$> m).
  { rewrite Nat2Z.id. replace (length m) with (length (Some <$> m)) by apply length_fmap. apply take_app_length. }
  rewrite Htake. apply runs_bind, (runs_eruns_none (fun _ => False)); [by intros ? []|].
  assert (Hmem1 : ev_oom e1 = []) by by apply (ow_memory _ _ _ Ho).
  apply eruns_request_parse; [done|lia| |].
  2: { intros e2 [Hne|Hno] _; [done|]. by destruct (Hno _ Hreq). }
  intros i a qs e2 Hreq2. pose proof (request_of_det _ _ _ Hreq Hreq2) as Hqs. destruct qs as [|q [|]]; [done| |done]. injection Hqs as Hqn Hqt Hqc.
  rewrite H0 H2. cbn zeta. intros Ho2. cbn [sr_questions new_request].
  destruct (name_ok_dotted name ls Hnok Hls) as (Hdok & Hdls & _). rewrite Hqn in Hdok, Hdls.
  assert (Hdlen : size (q_name q) <= size name).
  { rewrite -Hqn. destruct (name_labels_dotted name ls Hls) as [Heq|Heq]; rewrite Heq; [lia|]. rewrite length_app. lia. }
  eapply (runs_server_answers e1 i trans_id a q n ttl addrs); [|done|done|done|lia|lia|done|exact Ho2|].
  { split; [done|]. by rewrite -Hqt -Hqc. }
  intros it i' m2 e3 r' Hrok Ha Hdb Hdl Htt Hresp Ho3. cbn [sr_response set_response].
  apply (runs_client_told _ _ ls r'); [done| |done|done|].
  - split; try done.
    + rewrite /request_find_from_trans_id /REQ_HEAD /n_req_heads. cbn [req_heads length]. rewrite Z.mod_1_r. change (Z.to_nat 0) with 0%nat. cbn [nth list_find]. by rewrite decide_True.
    + exists m, rest, (12 + size m'). rewrite Hbuf /evdns_request_len in Hm. rewrite /name_space in Hsm. split; [|done]. split_and!; [done|done|done|lia].
    + by exists q.
    + split_and!; [done|by apply Forall_singleton|]. rewrite /addresses_in /= Hdl Z.mul_comm Z.div_mul; lia.
  - cbn. rewrite /least_ttl /= Hdb Htt Hdl app_nil_r Z.add_0_r Z.mul_comm Z.div_mul //. rewrite Z.min_r; [|lia]. by rewrite (proj2 (Z.eqb_neq _ _)); [|lia].
Qed.

Lemma evdns_exchange_witness :
  runs (exchange (str "a.b.") 7 1 60 [10; 0; 0; 1] (replicate 106 None) (replicate 63 None) (replicate 63 None) true) (EvEnv 1 [] []) (fun u _ =>
    u = Some (UserCall 0 1 1 60 (Some (Some <$> [10; 0; 0; 1])))).
Proof.
  apply (evdns_exchange (str "a.b.") 7 1 60 [10; 0; 0; 1]); try (vm_compute; first [reflexivity|congruence|by split]).
  - split; [vm_compute; repeat constructor|]. split; [vm_compute; congruence|]. exists [str "a"; str "b"].
    apply (labels_more (str "a") (str "b.")); [vm_compute; by split|repeat constructor; vm_compute; congruence|].
    apply (labels_more (str "b") []); [vm_compute; by split|repeat constructor; vm_compute; congruence|constructor].
  - repeat constructor; vm_compute; congruence.
Defined.
